(* ===== verification/_CoqProject ===== *)
-Q . S2P
Prelude.v
Core.v
ErrorCode.v
CatalogTypes.v
CatalogModel.v
CatalogSource.v
Syntax.v
Floats.v
Lexer.v
Parser.v
ParserCorrect.v
ParserGrammar.v
IR.v
SemExpression.v
SemTyping.v
SemPipeline.v
SemQuery.v
Language.v
Bytes.v
Frame.v
Recovery.v
RecoveryCorrect.v
Spool.v
SpoolSystem.v
Json.v
Normalization.v
NormalizationCorrect.v
Storage.v
ObjectStore.v
OutputRecovery.v
OutputPlan.v
OutputLog.v
OutputLogCorrect.v
Database.v
Publication.v
Reclamation.v
Retention.v
Compaction.v
CompactionChoice.v
CompactionLifecycle.v
MetastoreInvariant.v
MetastoreLifecycle.v
MetastoreSteps.v
Metastore.v
CompactionCorrect.v
MetastoreSamples.v
Segment.v
SegmentCorrect.v
SegmentProgress.v
Canonical.v
Manifest.v
Application.v
ApplicationCorrect.v
Stored.v
StoredCorrect.v
CatalogStore.v
CatalogLoad.v
ManifestCorrect.v
Declarations.v
CatalogApply.v
CatalogStoreCorrect.v
CatalogSamples.v
Query.v
QueryCorrect.v
QuerySamples.v
Arrow.v
ParquetSegment.v
StagingCorrect.v
DeadLetterObject.v
StagingSamples.v
Turns.v
Processor.v
ProcessorFacts.v
ProcessorSafe.v
ProcessorReturns.v
ProcessorSamples.v
CompactionWorker.v
CompactionMerge.v
CompactionBuild.v
CompactionSamples.v
