(* ===== verification/Prelude.v ===== *)
(** * Elucid: a verification development

    Elucid ingests newline-delimited JSON over HTTP, keeps acknowledged batches in a local
    spool, normalizes them against a catalog of schemas, writes the rows as immutable
    objects, publishes them in a PostgreSQL metastore, compacts and expires them, and
    answers queries in a pipeline language. The development models the parts that decide
    what is accepted, kept, published, deleted and returned.

    ** The program and the files

    Shared values.
    - [Prelude]: results and their binds, fixed-width integers, strings, sums, tactics and
      the hint database [elucid].
    - [Core] (elucid-core/src/event_id.rs, identity.rs), [ErrorCode] (error.rs).
    - [Bytes]: big-endian integers, slices and UTF-8 as the sources use them.

    Catalog (elucid-catalog/src).
    - [CatalogTypes] (identity.rs, logical_type.rs, value.rs, json_pointer.rs),
      [CatalogModel] (schema.rs), [CatalogSource] (input.rs, source.rs, error.rs): names,
      pointers, schemas, ingestion profiles and sources with every validation of their
      constructors.
    - [Canonical] (canonical.rs, application_error.rs), [Manifest] (manifest.rs),
      [Application] (application.rs), [Stored] (stored.rs): declarative manifests,
      their canonical JSON and digests, the plan that applies a manifest over a stored
      source, and the stored form of schemas and profiles. [ManifestCorrect],
      [ApplicationCorrect], [StoredCorrect], [Declarations] and [CatalogApply] are about
      them.

    Query language (elucid-language/src).
    - [Syntax] (ast.rs, span.rs), [Floats] (binary64 values), [Lexer] (lexer.rs), [Parser]
      (parser/), [IR] (ir.rs, catalog.rs, semantic/error.rs), [SemExpression]
      (semantic/expression.rs), [SemPipeline] (semantic/pipeline.rs, command.rs) and
      [Language] (lib.rs).
    - [ParserCorrect] has the parser's grammar and the normative one of
      spec/v0/query-language.md as relations, and with [ParserGrammar] it shows that the
      parser decides the former and where the two differ; [SemTyping] and [SemQuery] define well-typed expressions and
      well-formed pipelines and show that analysis produces only these.

    Ingestion (elucid-ingestion/src).
    - [Frame] (model.rs, frame.rs, checkpoint.rs, error.rs), [Recovery] (recovery.rs),
      [Spool] (spool.rs): the spool file, its frames and checkpoint, reservations, appends,
      the recovered and live reader, reclamation, and the ways their writes can fail.
      [RecoveryCorrect] is about one recovery; [SpoolSystem] has requests, torn writes,
      checkpoints and crashes as steps of one system.
    - [Json], [Normalization] (normalization.rs): the parser of records and the conversion
      of a batch into rows and dead letters; [NormalizationCorrect].
    - [Segment] (segment.rs): the builders that collect rows per source, schema and day and
      the queue of sealed segments; [SegmentCorrect], and [SegmentProgress] with the loops of
      elucid-service/src/processing.rs that drive them.
    - [OutputRecovery], [OutputLog] (output_recovery.rs): the records of planned outputs,
      the checkpoint plan and the durable log of the records, and the bounded reader of
      request bodies (elucid-service/src/http/ingestion.rs); [OutputPlan],
      [OutputLogCorrect].
    - [Arrow] (parquet.rs, with the Arrow schema of elucid-catalog/src/schema.rs): the
      columns of a sealed segment.

    Storage (elucid-storage/src).
    - [Storage] (identity.rs, value.rs, key.rs, descriptor.rs, segment.rs, dead_letter.rs)
      and [ObjectStore] (store.rs, error.rs): keys, descriptors and the create-only store.
    - [ParquetSegment] (parquet_segment.rs, staged.rs): staged Parquet files, their writer
      with a byte limit, their validation and their exact read; [StagingCorrect],
      [StagingSamples].

    Metastore (elucid-metastore).
    - [Database] (migrations/0001_control_plane.sql, src/error.rs): the tables with their
      constraints and the statements on them; [Publication], [Reclamation], [Retention],
      [Compaction], [CompactionLifecycle]: one definition per transaction of the source
      file of that name.
    - [MetastoreInvariant], [MetastoreLifecycle], [MetastoreSteps]: what
      every statement and every transaction keeps. [Metastore] has the transactions of all
      stores as one step relation, and its errors; [CompactionChoice] and
      [CompactionCorrect] are about the choice of inputs and the replacement;
      [MetastoreSamples] is a history that instantiates the theorems.
    - [CatalogStore] (catalog.rs, error.rs and the catalog tables of the migration): the
      snapshot, its loading from rows and the transaction that applies a manifest;
      [CatalogLoad], [CatalogStoreCorrect], [CatalogSamples].
    - [Query] (query.rs): the read-only transaction that captures, for a query text and a
      range of time, the source, the schemas and the segments to read; [QueryCorrect],
      [QuerySamples].

    Compaction (elucid-compaction/src).
    - [CompactionWorker] (worker.rs, limits.rs, error.rs): the cursors over the claimed
      segments, the merge by a heap, the outputs, their staging, registration and upload,
      over the models of metastore, object store and staged files and within a deadline.
      [CompactionMerge] is about the rows of the outputs, [CompactionBuild] about what the
      metastore checks of them and the end of a run, [CompactionSamples] has concrete runs.

    Service (elucid-service/src).
    - [DeadLetterObject] (dead_letter.rs): the objects that hold dead letters.
    - [Processor] (processing.rs): the publication of a recorded output
      and the recovery of outputs after a restart, over the models of metastore, object
      store and staged files. [Turns] is the monad of such programs: they act at awaits,
      between which the rest of the system moves, and may be interrupted at each.
      [ProcessorFacts], [ProcessorSafe], [ProcessorReturns], [ProcessorSamples].

    ** What the theorems show

    - Spool: no acknowledged batch is lost over torn writes, crashes and reclamation; the
      accounting stays within capacity; frames and checkpoints are accepted exactly as
      written; the reader returns each batch once. One theorem exhibits the interleaving in
      which the live reader wrongly reports corruption.
    - Normalization: each line of a body is accounted for once, rows hold exactly what the
      profile points to, failures are only those of the catalog.
    - Segments: the builders hold every accepted row exactly once until its segment is taken,
      their accounting is exact and within the budgets, a deferred batch is accepted after
      the queue is drained, and builders expire exactly in time.
    - Outputs: a checkpoint passes exactly the batches whose records are all in published
      outputs; a recorded output is not forgotten before its spool data is reclaimed.
    - Objects: uploads never replace an object, reads and deletes are exact, keys are
      injective.
    - Metastore: every transaction moves an output along at most one edge of its lifecycle
      and never out of a final state while its segment is there, visible data is never
      handed out for deletion, compaction changes no count of visible rows, the choice
      of its inputs is that of a short definition, and publication reports corruption of
      tables it wrote only for registrations that are known in part.
    - Queries: a snapshot holds exactly the active segments of the source whose events
      overlap the range, with the schemas they were written with, and a query on intact
      tables is refused only for its text, its analysis, a limit or a bound that PostgreSQL
      does not represent.
    - Compaction builds: the rows of the outputs are the stable sort of the rows of the
      inputs by event time and identity, with exact counts and bounds that the metastore
      accepts; a run ends within a number of turns that its claim determines. One theorem
      says which claims can never be built in fewer segments, and its witness is one that
      passes every check.
    - Language: the parser decides its grammar, which is the normative one but for aliases
      that it takes as optional and that analysis then requires; analysis returns well-formed typed pipelines
      or one diagnostic, constant folding and coercions are exact.
    - Catalog: constructors accept exactly the valid schemas, inputs and sources, and the
      validation of a manifest returns exactly what its document declares, when that is
      well-formed. Applying a manifest never rewrites what is stored, is idempotent and
      durable, and the snapshot in memory is the one a load would give, except for sources
      whose last commit was not answered.
    - Staging: every sealed segment can be staged, staging is create-only and leaves no
      partial file, what is read back is what was written; dead-letter objects round trip.
    - Processing: while others run any transactions of any store and change objects and
      files, but leave the publication of the worker's outputs to it and delete its objects
      only on request of the tables, with lost connections and interruption anywhere, an
      upload is recorded only when the object is stored; [publish_record] returns only a published output and, given
      finitely many faults, it does return; recovery publishes each occurrence at most once.

    ** Conventions

    A fallible function returns [result], stateful code takes and returns its state, I/O
    outcomes that the code cannot control are arguments, and concurrent or repeated use is a
    step relation with its reachable states. Integers are [Z] with [narrow], [checked_add]
    and the like at the width of the source. Code outside the repository is a class with its
    documented laws, and every law has an instance: BLAKE3 and chrono's ranges ([SpoolEnv],
    [Chrono], [Calendar]), serde_json ([JsonLib], [SerdeJson]), the sizes of values in memory
    ([SegmentLayout]), base64, the text of UUIDs and object_store's paths ([UuidText],
    [PathLib]), the object store backend ([Backend], [ReliableBackend]), PostgreSQL's
    timestamp arithmetic and its treatment of JSONB and names ([Postgres],
    [CatalogPostgres]), YAML and the text of JSON ([YamlLib], [JsonText], [NumberEq]), fresh
    identities ([CatalogIdentityGenerator]), record batches ([ArrowLib]), Parquet files
    ([ParquetLib]) and the streams that read them ([ParquetStream], with [ParquetContents]
    for what a file holds), the JSON of dead letters ([DeadLetterJson]), and instants and
    days for queries and compaction ([QueryCalendar], [DayStart], [InstantOrder]).

    Loops that are not structural take fuel: the length of the text for the tokenizer and the
    parser, the length of the file for the scans of spool and log (every frame is longer than
    a byte), the length of a body for hashing it in chunks, the length of the queue for
    draining it. The theorems are about the definitions with that fuel and state that a
    result is returned. The loops of [Processor] and [CompactionWorker] may go on as long as
    the turns of their schedule; when these are used up the program is interrupted, like a
    worker that is stopped, and [publish_record_returns] and [run_returns] show how many
    turns are enough.

    A transaction is a function of the committed tables: PostgreSQL's row locks make it one
    step, an error leaves the tables as they were, rows that [SKIP LOCKED] passes over and
    the value of [CURRENT_TIMESTAMP] are arguments. A lost connection aborts a transaction
    and is the error case of the commit in [CompactionLifecycle]; in [CatalogStore],
    [Processor] and [CompactionWorker] the answer to a commit that took effect may be lost.

    ** Not modelled

    The query engine, which works through DataFusion; the metastore's records of query
    executions and its reports for inspection; the schedule of the maintenance loop; of the
    ingestion worker, the loop
    that reads batches and advances the checkpoint as one program (its calls are modelled);
    the HTTP service, its configuration and background tasks, the command line client and
    the user interface. Display texts, tracing and metrics are left out throughout. *)

From Stdlib Require Export Ascii String ZArith Lia.
From stdpp Require Export base option list numbers strings gmap sorting.

(** ** The result type of fallible Rust code *)

Inductive result (E A : Type) : Type :=
| Ok (a : A)
| Err (e : E).
Arguments Ok {E A} a.
Arguments Err {E A} e.

#[export] Instance result_ret E : MRet (result E) := λ A a, Ok a.
#[export] Instance result_bind E : MBind (result E) := λ A B f m,
  match m with Ok a => f a | Err e => Err e end.
#[export] Instance result_fmap E : FMap (result E) := λ A B f m,
  match m with Ok a => Ok (f a) | Err e => Err e end.

Declare Scope elucid_scope.
Delimit Scope elucid_scope with elucid.
Open Scope elucid_scope.

(** [ok_or o e] is [o.ok_or(e)]. *)
Definition ok_or {E A} (o : option A) (e : E) : result E A :=
  match o with Some a => Ok a | None => Err e end.

(** [map_err f r] is Rust's [r.map_err(f)]. *)
Definition map_err {E F A} (f : E → F) (r : result E A) : result F A :=
  match r with Ok a => Ok a | Err e => Err (f e) end.

(** [check b e] is the early return [if !b { return Err(e) }]. *)
Definition check {E} (b : bool) (e : E) : result E unit :=
  if b then Ok tt else Err e.

Definition is_ok {E A} (r : result E A) : bool :=
  match r with Ok _ => true | Err _ => false end.

Lemma bind_Ok {E A B} (m : result E A) (f : A → result E B) b :
  m ≫= f = Ok b ↔ ∃ a, m = Ok a ∧ f a = Ok b.
Proof. destruct m; simpl; naive_solver. Qed.

(** Rewriting with these, instead of reducing, keeps long chains of binds cheap
    to check. *)
Lemma bind_ret {E A B} (a : A) (f : A → result E B) : Ok a ≫= f = f a.
Proof. done. Qed.

Lemma ok_or_ret {E A} (a : A) (e : E) : ok_or (Some a) e = Ok a.
Proof. done. Qed.

Lemma bind_Err {E A B} (m : result E A) (f : A → result E B) e :
  m ≫= f = Err e ↔ m = Err e ∨ ∃ a, m = Ok a ∧ f a = Err e.
Proof. destruct m; simpl; naive_solver. Qed.

Lemma fmap_Ok {E A B} (m : result E A) (f : A → B) b :
  f <$> m = Ok b ↔ ∃ a, m = Ok a ∧ b = f a.
Proof. destruct m; simpl; naive_solver. Qed.

Lemma ok_or_Ok {E A} (o : option A) (e : E) a : ok_or o e = Ok a ↔ o = Some a.
Proof. destruct o; simpl; naive_solver. Qed.

Lemma map_err_Ok {E F A} (f : E → F) (r : result E A) a :
  map_err f r = Ok a ↔ r = Ok a.
Proof. destruct r; simpl; naive_solver. Qed.

Lemma map_err_Err {E F A} (f : E → F) (r : result E A) e' :
  map_err f r = Err e' ↔ ∃ e, r = Err e ∧ e' = f e.
Proof. destruct r; simpl; naive_solver. Qed.

Lemma check_Ok {E} b (e : E) u : check b e = Ok u ↔ b = true.
Proof. destruct b, u; simpl; naive_solver. Qed.

(** Decomposes every hypothesis that says a monadic computation succeeded. *)
Ltac inv_ok :=
  repeat match goal with
  | H : (_ ≫= _) = Ok _ |- _ =>
      apply bind_Ok in H; let a := fresh "a" in let Ha := fresh "Hok" in
      destruct H as (a & Ha & H)
  | H : (_ <$> _) = Ok _ |- _ =>
      apply fmap_Ok in H; let a := fresh "a" in let Ha := fresh "Hok" in
      destruct H as (a & Ha & H); try (match type of H with ?x = _ => subst x end)
  | H : ok_or _ _ = Ok _ |- _ => apply ok_or_Ok in H
  | H : map_err _ _ = Ok _ |- _ => apply map_err_Ok in H
  | H : check _ _ = Ok _ |- _ => apply check_Ok in H
  | H : mret _ = Ok _ |- _ => change (Ok (E := _) _ = Ok _) in H
  | H : Ok _ = Ok _ |- _ => injection H as H; subst
  | H : Err _ = Ok _ |- _ => discriminate H
  | H : Ok _ = Err _ |- _ => discriminate H
  | H : Some _ = None |- _ => discriminate H
  | H : None = Some _ |- _ => discriminate H
  | H : Some _ = Some _ |- _ => injection H as H; subst
  | H : (_ && _) = true |- _ => apply andb_true_iff in H; destruct H
  | H : negb _ = true |- _ => apply negb_true_iff in H
  end.

(** ** Fallible traversals: [iter().map(f).collect::<Result<Vec<_>, _>>()]
    and [for x in xs { state = step(state, x)?; }] *)

Fixpoint try_map {E A B} (f : A → result E B) (l : list A) : result E (list B) :=
  match l with
  | [] => Ok []
  | x :: l' => y ← f x; ys ← try_map f l'; Ok (y :: ys)
  end.

Fixpoint try_fold {E S A} (step : S → A → result E S) (s : S) (l : list A) : result E S :=
  match l with
  | [] => Ok s
  | x :: l' => s' ← step s x; try_fold step s' l'
  end.

(** [xs.iter().enumerate().map(f).collect::<Result<Vec<_>, _>>()] with a closure that keeps
    a state. *)
Fixpoint try_collect {E T A B} (f : nat → T → A → result E (B * T)) (index : nat) (s : T) (l : list A)
    : result E (list B * T) :=
  match l with
  | [] => Ok ([], s)
  | x :: l' =>
      '(y, s') ← f index s x;
      '(ys, s'') ← try_collect f (S index) s' l';
      Ok (y :: ys, s'')
  end.

Lemma try_map_Ok {E A B} (f : A → result E B) l k :
  try_map f l = Ok k ↔ Forall2 (λ x y, f x = Ok y) l k.
Proof.
  revert k; induction l as [|x l IH]; intros k; simpl.
  - split; [intros [= <-]; constructor | by inversion 1].
  - split.
    + intros H. inv_ok. constructor; [done | by apply IH].
    + inversion 1 as [|? y ? ys Hx Hl]; subst. rewrite Hx; simpl.
      apply IH in Hl. by rewrite Hl.
Qed.

Lemma try_fold_app {E S A} (step : S → A → result E S) s l1 l2 :
  try_fold step s (l1 ++ l2) = try_fold step s l1 ≫= λ s', try_fold step s' l2.
Proof.
  revert s; induction l1 as [|x l IH]; intros s; simpl; [done|].
  destruct (step s x); simpl; [apply IH | done].
Qed.

(** An invariant that every successful step keeps holds at the end of the loop. *)
Lemma try_fold_inv {E S A} (P : S → Prop) (step : S → A → result E S) l s s' :
  (∀ s x s', x ∈ l → P s → step s x = Ok s' → P s') →
  P s → try_fold step s l = Ok s' → P s'.
Proof.
  revert s; induction l as [|x l IH]; simpl; intros s Hstep Hs Hf; inv_ok; [done|].
  eapply (IH a); [set_solver | | done]. eapply Hstep; [ | exact Hs | done]. set_solver.
Qed.

(** ** Machine integers

    A Rust integer is a [Z] within the bounds of its type; [narrow] is
    [try_from], and the [checked_*] operations compute in [Z] and narrow. *)

Inductive int_ty := I32 | I64 | U16 | U32 | U64.

#[export] Instance int_ty_eq_dec : EqDecision int_ty.
Proof. solve_decision. Defined.

Definition int_min (t : int_ty) : Z :=
  match t with
  | I32 => -2147483648
  | I64 => -9223372036854775808
  | U16 | U32 | U64 => 0
  end.

Definition int_max (t : int_ty) : Z :=
  match t with
  | I32 => 2147483647
  | I64 => 9223372036854775807
  | U16 => 65535
  | U32 => 4294967295
  | U64 => 18446744073709551615
  end.

Definition fits (t : int_ty) (z : Z) : bool := (int_min t <=? z)%Z && (z <=? int_max t)%Z.

Definition narrow (t : int_ty) (z : Z) : option Z := if fits t z then Some z else None.

Arguments fits : simpl never.
Arguments narrow : simpl never.

Definition checked_add t (a b : Z) : option Z := narrow t (a + b)%Z.
Definition checked_sub t (a b : Z) : option Z := narrow t (a - b)%Z.
Definition checked_mul t (a b : Z) : option Z := narrow t (a * b)%Z.
Definition checked_neg t (a : Z) : option Z := narrow t (- a)%Z.
(** Rust's integer division truncates toward zero; [checked_div] is [None]
    on a zero divisor and on the one overflowing case [MIN / -1]. *)
Definition checked_div t (a b : Z) : option Z :=
  if (b =? 0)%Z then None else narrow t (Z.quot a b).
(** [a.saturating_sub(b)] on an unsigned type. *)
Definition saturating_sub (a b : Z) : Z := Z.max 0 (a - b).

Lemma fits_spec t z : fits t z = true ↔ (int_min t ≤ z ≤ int_max t)%Z.
Proof. unfold fits. rewrite andb_true_iff, !Z.leb_le. lia. Qed.

Lemma narrow_Some t z z' : narrow t z = Some z' ↔ z' = z ∧ (int_min t ≤ z ≤ int_max t)%Z.
Proof.
  unfold narrow. destruct (fits t z) eqn:E.
  - apply fits_spec in E. naive_solver.
  - split; [done|]. intros [_ H]. apply fits_spec in H. congruence.
Qed.

Lemma narrow_None t z : narrow t z = None ↔ (z < int_min t ∨ int_max t < z)%Z.
Proof.
  unfold narrow. destruct (fits t z) eqn:E.
  - apply fits_spec in E. split; [done | lia].
  - split; [|done]. intros _. destruct (Z.lt_ge_cases z (int_min t)); [auto|].
    destruct (Z.lt_ge_cases (int_max t) z); [auto|].
    assert (fits t z = true) by (apply fits_spec; lia). congruence.
Qed.

Lemma narrow_fits t z z' : narrow t z = Some z' → fits t z' = true.
Proof. intros [-> H]%narrow_Some. by apply fits_spec. Qed.

Lemma checked_div_Some t a b z :
  checked_div t a b = Some z ↔ b ≠ 0%Z ∧ z = Z.quot a b ∧ fits t (Z.quot a b) = true.
Proof.
  unfold checked_div. destruct (Z.eqb_spec b 0); [naive_solver|].
  rewrite narrow_Some, fits_spec. naive_solver.
Qed.

(** Linear arithmetic with the bounds of the machine integers in sight. *)
Ltac int_lia := cbn [int_min int_max] in *; lia.

Lemma narrow_ok t z : (int_min t ≤ z ≤ int_max t)%Z → narrow t z = Some z.
Proof. intros. by apply narrow_Some. Qed.

(** ** Strings

    A Rust [&str] is its UTF-8 bytes, a [string] whose [ascii]s are the bytes. *)

Definition ascii_in (lo hi c : Ascii.ascii) : bool :=
  (Ascii.N_of_ascii lo <=? Ascii.N_of_ascii c)%N && (Ascii.N_of_ascii c <=? Ascii.N_of_ascii hi)%N.

Definition is_ascii_digit (c : Ascii.ascii) : bool := ascii_in "0"%char "9"%char c.
Definition is_ascii_alphabetic (c : Ascii.ascii) : bool :=
  ascii_in "a"%char "z"%char c || ascii_in "A"%char "Z"%char c.
Definition is_ascii_alphanumeric (c : Ascii.ascii) : bool :=
  is_ascii_alphabetic c || is_ascii_digit c.

Fixpoint string_forallb (p : Ascii.ascii → bool) (s : string) : bool :=
  match s with
  | EmptyString => true
  | String c s' => p c && string_forallb p s'
  end.

Lemma string_app_nil_r (s : string) : (s +:+ EmptyString) = s.
Proof. induction s as [|c s IH]; [done|]. exact (f_equal (String c) IH). Qed.

(** ** First occurrence, [iter().find(p)] *)

Fixpoint find {A} (p : A → bool) (l : list A) : option A :=
  match l with
  | [] => None
  | x :: l' => if p x then Some x else find p l'
  end.

Lemma find_Some {A} (p : A → bool) l x : find p l = Some x → x ∈ l ∧ p x = true.
Proof.
  induction l as [|y l IH]; simpl; [done|]. destruct (p y) eqn:E.
  - intros [= <-]. set_solver.
  - intros H. apply IH in H. set_solver.
Qed.

Lemma find_None {A} (p : A → bool) l : find p l = None ↔ ∀ x, x ∈ l → p x = false.
Proof.
  induction l as [|y l IH]; simpl; [set_solver|]. destruct (p y) eqn:E.
  - split; [done|]. intros H. specialize (H y ltac:(set_solver)). congruence.
  - rewrite IH. set_solver.
Qed.

Lemma find_is_Some {A} (p : A → bool) l x : x ∈ l → p x = true → is_Some (find p l).
Proof.
  intros Hx Hp. destruct (find p l) eqn:E; [done|].
  rewrite find_None in E. specialize (E x Hx). congruence.
Qed.

Lemma filter_all {A} (P : A → Prop) `{∀ x, Decision (P x)} (l : list A) :
  Forall P l → filter P l = l.
Proof. induction 1; [done|]. rewrite filter_cons_True by done. by f_equal. Qed.

(** ** Sums *)

Section Sums.
#[local] Open Scope Z_scope.

Definition sum_Z (l : list Z) : Z := foldr Z.add 0%Z l.

Lemma sum_Z_nil : sum_Z [] = 0.
Proof. done. Qed.

Lemma sum_Z_cons x l : sum_Z (x :: l) = x + sum_Z l.
Proof. done. Qed.

#[global] Instance sum_Z_Permutation : Proper (Permutation ==> eq) sum_Z.
Proof. intros l k Hp. induction Hp; rewrite ?sum_Z_cons in *; lia. Qed.

(** What an update adds to a sum. *)
Lemma sum_Z_updated {A} (w : A → Z) (p : A → bool) (g : A → A) (l : list A) :
  (∀ x, p x = false → g x = x) →
  sum_Z (w ∘ g <$> l) = sum_Z (w <$> l) + sum_Z ((λ x, w (g x) - w x) <$> filter (λ x, p x = true) l).
Proof.
  intros Hg. induction l as [|x l IH]; [done|]. rewrite filter_cons. cbn [fmap list_fmap] in *. rewrite sum_Z_cons, IH.
  case_decide as Hp; cbn [fmap list_fmap compose]; rewrite !sum_Z_cons; [lia|]. rewrite (Hg x) by (by destruct (p x)). lia.
Qed.

Lemma sum_Z_zero {A} (w : A → Z) l : (∀ x, x ∈ l → w x = 0) → sum_Z (w <$> l) = 0.
Proof.
  induction l as [|x l IH]; [done|]. intros Hw. cbn [fmap list_fmap]. rewrite sum_Z_cons, Hw, IH; set_solver.
Qed.

Lemma sum_Z_app l k : sum_Z (l ++ k) = sum_Z l + sum_Z k.
Proof. induction l as [|x l IH]; cbn [app]; rewrite ?sum_Z_cons, ?sum_Z_nil; lia. Qed.

Lemma sum_Z_nonneg {A} (w : A → Z) l : (∀ x, x ∈ l → 0 ≤ w x) → 0 ≤ sum_Z (w <$> l).
Proof.
  induction l as [|x l IH]; intros Hw; [done|]. cbn [fmap list_fmap]. rewrite sum_Z_cons.
  pose proof (Hw x ltac:(set_solver)). assert (0 ≤ sum_Z (w <$> l)) by (apply IH; set_solver). lia.
Qed.

End Sums.

(** ** Hint databases *)

Create HintDb elucid.
#[export] Hint Resolve narrow_fits : elucid.
