(* ===== verification/Core.v ===== *)
(** * elucid-core: identities

    [EventId] (src/elucid/elucid-core/src/event_id.rs) is sixteen bytes with a
    lowercase hexadecimal text form; its bytes are [Z]s in [0, 255]. [UuidV7]
    (identity.rs) accepts the UUIDs of version 7; a UUID is its 128-bit value. *)

From S2P Require Import Prelude.

Open Scope Z_scope.

(** ** Bytes *)

Definition is_byte (z : Z) : Prop := 0 ≤ z < 256.

#[export] Instance is_byte_dec z : Decision (is_byte z).
Proof. unfold is_byte. apply _. Defined.

Definition byte_of_ascii (c : ascii) : Z := Z.of_N (N_of_ascii c).
Definition ascii_of_byte (z : Z) : ascii := ascii_of_N (Z.to_N z).

Lemma byte_of_ascii_is_byte c : is_byte (byte_of_ascii c).
Proof. unfold is_byte, byte_of_ascii. pose proof (N_ascii_bounded c). lia. Qed.

Lemma ascii_of_byte_of_ascii c : ascii_of_byte (byte_of_ascii c) = c.
Proof. unfold ascii_of_byte, byte_of_ascii. rewrite N2Z.id. apply ascii_N_embedding. Qed.

Lemma byte_of_ascii_of_byte z : is_byte z → byte_of_ascii (ascii_of_byte z) = z.
Proof.
  intros [??]. unfold ascii_of_byte, byte_of_ascii. rewrite N_ascii_embedding; lia.
Qed.

#[export] Hint Resolve byte_of_ascii_is_byte : elucid.

(** ** EventId *)

Module EventId.

(** [struct EventId([u8; 16])] *)
Definition t := list Z.

Definition wf (id : t) : Prop := length id = 16%nat ∧ Forall is_byte id.

Definition hex_value (c : ascii) : option Z :=
  let value := byte_of_ascii c in
  if ascii_in "0" "9" c then Some (value - 48)
  else if ascii_in "a" "f" c then Some (value - 97 + 10)
  else None.

(** The loop over [value.as_bytes().chunks_exact(2)]. *)
Fixpoint decode_pairs (s : string) : option t :=
  match s with
  | String a (String b s') =>
      hi ← hex_value a; lo ← hex_value b;
      rest ← decode_pairs s';
      Some (Z.lor (Z.shiftl hi 4) lo :: rest)
  | _ => Some []
  end.

Definition from_str (value : string) : option t :=
  if (String.length value =? 32)%nat then decode_pairs value else None.

Definition HEX : list ascii :=
  ["0"; "1"; "2"; "3"; "4"; "5"; "6"; "7"; "8"; "9"; "a"; "b"; "c"; "d"; "e"; "f"]%char.

Definition hex_digit (n : Z) : ascii := nth (Z.to_nat n) HEX "0"%char.

(** [impl Display for EventId] *)
Fixpoint to_string (id : t) : string :=
  match id with
  | [] => EmptyString
  | byte :: rest =>
      String (hex_digit (Z.shiftr byte 4)) (String (hex_digit (Z.land byte 15)) (to_string rest))
  end.

(** [Ord for EventId] is the lexicographic order of the byte arrays. *)
Fixpoint compare (a b : t) : comparison :=
  match a, b with
  | [], [] => Eq
  | [], _ => Lt
  | _, [] => Gt
  | x :: a', y :: b' =>
      match x ?= y with Eq => compare a' b' | c => c end
  end.

(** ** Lemmas *)

Lemma hex_value_digit n : 0 ≤ n < 16 → hex_value (hex_digit n) = Some n.
Proof.
  intros H.
  assert (n = 0 ∨ n = 1 ∨ n = 2 ∨ n = 3 ∨ n = 4 ∨ n = 5 ∨ n = 6 ∨ n = 7 ∨
          n = 8 ∨ n = 9 ∨ n = 10 ∨ n = 11 ∨ n = 12 ∨ n = 13 ∨ n = 14 ∨ n = 15) by lia.
  repeat (destruct H0 as [->|H0]; [reflexivity|]). subst; reflexivity.
Qed.

Lemma hex_digit_value c n : hex_value c = Some n → 0 ≤ n < 16 ∧ hex_digit n = c.
Proof.
  destruct c as [[] [] [] [] [] [] [] []]; vm_compute;
    intros [= <-]; (split; [split; congruence | reflexivity]).
Qed.

Lemma nibbles_byte hi lo : 0 ≤ hi < 16 → 0 ≤ lo < 16 →
  let b := Z.lor (Z.shiftl hi 4) lo in
  is_byte b ∧ Z.shiftr b 4 = hi ∧ Z.land b 15 = lo.
Proof.
  intros Hh Hl b. subst b.
  assert (Hand : Z.land (Z.shiftl hi 4) lo = 0).
  { apply Z.bits_inj'. intros n Hn. rewrite Z.land_spec, Z.bits_0, Z.shiftl_spec by lia.
    destruct (Z.lt_ge_cases n 4).
    - rewrite Z.testbit_neg_r by lia. done.
    - assert (Hbit : Z.testbit lo n = false).
      { destruct (decide (lo = 0)) as [->|]; [apply Z.bits_0|].
        apply Z.bits_above_log2; [lia|]. apply Z.log2_lt_pow2; [lia|].
        apply Z.lt_le_trans with (2 ^ 4); [lia | apply Z.pow_le_mono_r; lia]. }
      rewrite Hbit.
      by rewrite andb_false_r. }
  rewrite <- Z.lxor_lor, <- Z.add_nocarry_lxor by done.
  rewrite Z.shiftl_mul_pow2 by lia. change (2 ^ 4) with 16.
  split_and!; [unfold is_byte; lia| |].
  - rewrite Z.shiftr_div_pow2 by lia. change (2 ^ 4) with 16. Z.to_euclidean_division_equations; lia.
  - change 15 with (Z.ones 4). rewrite Z.land_ones by lia. change (2 ^ 4) with 16.
    Z.to_euclidean_division_equations; lia.
Qed.

Lemma byte_nibbles b : is_byte b →
  0 ≤ Z.shiftr b 4 < 16 ∧ 0 ≤ Z.land b 15 < 16 ∧
  Z.lor (Z.shiftl (Z.shiftr b 4) 4) (Z.land b 15) = b.
Proof.
  unfold is_byte. intros Hb.
  assert (H1 : 0 ≤ Z.shiftr b 4 < 16).
  { rewrite Z.shiftr_div_pow2 by lia. change (2 ^ 4) with 16.
    Z.to_euclidean_division_equations; lia. }
  assert (H2 : 0 ≤ Z.land b 15 < 16).
  { change 15 with (Z.ones 4). rewrite Z.land_ones by lia. apply Z.mod_pos_bound. lia. }
  split_and!; try lia.
  apply Z.bits_inj'. intros n Hn.
  rewrite Z.lor_spec, Z.shiftl_spec, Z.land_spec by lia.
  change 15 with (Z.ones 4). destruct (Z.lt_ge_cases n 4).
  - rewrite Z.ones_spec_low by lia. rewrite (Z.testbit_neg_r _ (n - 4)) by lia.
    by rewrite andb_true_r.
  - rewrite Z.ones_spec_high, Z.shiftr_spec by lia.
    rewrite andb_false_r, orb_false_r. f_equal. lia.
Qed.

Lemma length_to_string id : String.length (to_string id) = (2 * length id)%nat.
Proof. induction id as [|b id IH]; simpl; [done|]. rewrite IH. lia. Qed.

Lemma decode_pairs_to_string id : Forall is_byte id → decode_pairs (to_string id) = Some id.
Proof.
  induction 1 as [|b id Hb Hid IH]; [done|].
  apply byte_nibbles in Hb as (H1 & H2 & H3). cbn [to_string decode_pairs].
  rewrite !hex_value_digit by done. simpl. rewrite IH. simpl. by rewrite H3.
Qed.

Lemma to_string_decode_pairs n s id :
  String.length s = (2 * n)%nat → decode_pairs s = Some id →
  length id = n ∧ Forall is_byte id ∧ to_string id = s.
Proof.
  revert s id; induction n as [|n IH]; intros s id Hlen Hd.
  - destruct s; [|simpl in Hlen; lia]. simpl in Hd. by simplify_eq.
  - destruct s as [|a [|b s]]; simpl in Hlen; [lia | lia |].
    cbn [decode_pairs] in Hd.
    destruct (hex_value a) as [hi|] eqn:Ha; [|done].
    destruct (hex_value b) as [lo|] eqn:Hb; [|done].
    simpl in Hd. destruct (decode_pairs s) as [rest|] eqn:Hs; [|done].
    simpl in Hd. injection Hd as <-.
    apply hex_digit_value in Ha as [Hhi <-]. apply hex_digit_value in Hb as [Hlo <-].
    destruct (IH s rest) as (Hl & Hf & Ht); [lia | done |].
    destruct (nibbles_byte hi lo) as (H1 & H2 & H3); [done | done |].
    cbn [to_string length]. rewrite H2, H3, Ht. split_and!; [lia | by constructor | done].
Qed.

Lemma from_str_wf (s : string) (id : t) : from_str s = Some id → wf id ∧ s = to_string id.
Proof.
  unfold from_str, wf. destruct (String.length s =? 32)%nat eqn:E; [|done].
  apply Nat.eqb_eq in E. intros H.
  destruct (to_string_decode_pairs 16 s id) as (?&?&?); [done | done | done].
Qed.

(** Printing an event identity and parsing it back is the identity, and
    the printed text is the only text that parses to it: [from_str] and
    [to_string] are inverse bijections between well-formed identities and the
    accepted texts. *)
Theorem from_str_to_string (s : string) (id : t) :
  from_str s = Some id ↔ wf id ∧ s = to_string id.
Proof.
  split; [apply from_str_wf|]. unfold from_str, wf. intros [[Hl Hf] ->].
  rewrite length_to_string, Hl. simpl. by apply decode_pairs_to_string.
Qed.

Lemma compare_refl a : compare a a = Eq.
Proof. induction a as [|x a IH]; simpl; [done|]. by rewrite Z.compare_refl. Qed.

Lemma compare_eq a b : compare a b = Eq ↔ a = b.
Proof.
  split; [|intros ->; apply compare_refl].
  revert b; induction a as [|x a IH]; intros [|y b]; simpl; try done.
  destruct (Z.compare_spec x y) as [->|?|?]; try done. intros H. f_equal. auto.
Qed.

Lemma compare_antisym a b : compare b a = CompOpp (compare a b).
Proof.
  revert b; induction a as [|x a IH]; intros [|y b]; simpl; try done.
  rewrite (Z.compare_antisym x y). destruct (x ?= y); simpl; auto.
Qed.

Lemma compare_lt_trans a b c : compare a b = Lt → compare b c = Lt → compare a c = Lt.
Proof.
  revert b c; induction a as [|x a IH]; intros [|y b] [|z c]; simpl; try done.
  destruct (Z.compare_spec x y), (Z.compare_spec y z), (Z.compare_spec x z);
    try done; try lia; eauto.
Qed.

End EventId.

(** ** UUIDs of version 7 *)

Module UuidV7.

(** The version is the high nibble of byte 6 and the RFC variant has the high bits
    [10] of byte 8, in the layout of RFC 9562. *)
Definition version (uuid : Z) : Z := Z.land (Z.shiftr uuid 76) 15.
Definition variant (uuid : Z) : Z := Z.land (Z.shiftr uuid 62) 3.

Definition new (uuid : Z) : option Z :=
  if (version uuid =? 7) && (variant uuid =? 2) then Some uuid else None.

End UuidV7.
