(* ===== verification/ErrorCode.v ===== *)
(** * elucid-core: error codes

    Models src/elucid/elucid-core/src/error.rs: the stable operational error codes with
    their wire spellings. The stores keep some of them in the database, so what is
    written has to read back as the same code. *)

From S2P Require Import Prelude.

Inductive ErrorCode :=
| CapacityExhausted | CatalogCorrupt | CatalogDefinitionConflict | CatalogManifestInvalid
| CatalogProfileInvalid | CatalogSchemaIncompatible | ClientTimeout | CommandInvalid
| CompactionBuildFailed | CompactionInputInvalid | CompactionNotBeneficial | CompactionPublicationFailed
| CompactionRecoveryFailed | ConfigurationConstraintViolation | ConfigurationDocumentInvalid
| ConfigurationDocumentMalformed | ConfigurationDocumentTooLarge | ConfigurationEnvironmentOverrideInvalid
| ConfigurationFileUnreadable | ConfigurationFileNotUtf8 | ConfigurationSecretInvalid
| ConfigurationSecretMissing | ConfigurationValueInvalid | EndpointUrlConstructionFailed
| HttpClientInitializationFailed | IngestionBatchLimitExceeded | IngestionInitializationFailed
| IngestionRuntimeFailed | InputFileUnreadable | InputReadFailed | InternalError | InvalidRequest
| LocalCapacityExhausted | LocalStorageUnavailable | MaintenanceInitializationFailed
| MaintenanceRuntimeFailed | MetastoreConflict | MetastoreCorrupt | MetastoreMigrationFailed
| MetastoreUnavailable | NotFound | ObjectDeleteFailed | ObjectIntegrityError | ObjectStoreUnavailable
| ObjectUploadFailed | ObjectVerificationFailed | ParquetBuildFailed | ParquetInvalid
| PublishedObjectCorrupt | PublishedObjectMissing | QueryCancelled | QueryCastFailed
| QueryEvaluationFailed | QueryExecutionFailed | QueryInitializationFailed | QueryResourceLimitExceeded
| QuerySemanticError | QuerySyntaxError | QueryTimeout | RemoteResponseFailed | RemoteResponseInvalid
| RemoteResponseTooLarge | RemoteServiceUnavailable | RetentionCleanupFailed | RetentionStateConflict
| RetentionTimestampOverflow | ServerBindFailed | ServerDraining | ServerNotReady | ServerRuntimeFailed
| ServerShutdownTimedOut | ServerSignalFailed | SpoolCorrupt | SpoolUnavailable | StandardOutputWriteFailed
| VersionEncodingFailed.

#[export] Instance ErrorCode_eq_dec : EqDecision ErrorCode.
Proof. solve_decision. Defined.

Definition ErrorCode_as_str (code : ErrorCode) : string :=
  match code with
  | CapacityExhausted => "CAPACITY_EXHAUSTED"
  | CatalogCorrupt => "CATALOG_CORRUPT"
  | CatalogDefinitionConflict => "CATALOG_DEFINITION_CONFLICT"
  | CatalogManifestInvalid => "CATALOG_MANIFEST_INVALID"
  | CatalogProfileInvalid => "CATALOG_PROFILE_INVALID"
  | CatalogSchemaIncompatible => "CATALOG_SCHEMA_INCOMPATIBLE"
  | ClientTimeout => "CLIENT_TIMEOUT"
  | CommandInvalid => "COMMAND_INVALID"
  | CompactionBuildFailed => "COMPACTION_BUILD_FAILED"
  | CompactionInputInvalid => "COMPACTION_INPUT_INVALID"
  | CompactionNotBeneficial => "COMPACTION_NOT_BENEFICIAL"
  | CompactionPublicationFailed => "COMPACTION_PUBLICATION_FAILED"
  | CompactionRecoveryFailed => "COMPACTION_RECOVERY_FAILED"
  | ConfigurationConstraintViolation => "CONFIGURATION_CONSTRAINT_VIOLATION"
  | ConfigurationDocumentInvalid => "CONFIGURATION_DOCUMENT_INVALID"
  | ConfigurationDocumentMalformed => "CONFIGURATION_DOCUMENT_MALFORMED"
  | ConfigurationDocumentTooLarge => "CONFIGURATION_DOCUMENT_TOO_LARGE"
  | ConfigurationEnvironmentOverrideInvalid => "CONFIGURATION_ENVIRONMENT_OVERRIDE_INVALID"
  | ConfigurationFileUnreadable => "CONFIGURATION_FILE_UNREADABLE"
  | ConfigurationFileNotUtf8 => "CONFIGURATION_FILE_NOT_UTF8"
  | ConfigurationSecretInvalid => "CONFIGURATION_SECRET_INVALID"
  | ConfigurationSecretMissing => "CONFIGURATION_SECRET_MISSING"
  | ConfigurationValueInvalid => "CONFIGURATION_VALUE_INVALID"
  | EndpointUrlConstructionFailed => "ENDPOINT_URL_CONSTRUCTION_FAILED"
  | HttpClientInitializationFailed => "HTTP_CLIENT_INITIALIZATION_FAILED"
  | IngestionBatchLimitExceeded => "INGESTION_BATCH_LIMIT_EXCEEDED"
  | IngestionInitializationFailed => "INGESTION_INITIALIZATION_FAILED"
  | IngestionRuntimeFailed => "INGESTION_RUNTIME_FAILED"
  | InputFileUnreadable => "INPUT_FILE_UNREADABLE"
  | InputReadFailed => "INPUT_READ_FAILED"
  | InternalError => "INTERNAL_ERROR"
  | InvalidRequest => "INVALID_REQUEST"
  | LocalCapacityExhausted => "LOCAL_CAPACITY_EXHAUSTED"
  | LocalStorageUnavailable => "LOCAL_STORAGE_UNAVAILABLE"
  | MaintenanceInitializationFailed => "MAINTENANCE_INITIALIZATION_FAILED"
  | MaintenanceRuntimeFailed => "MAINTENANCE_RUNTIME_FAILED"
  | MetastoreConflict => "METASTORE_CONFLICT"
  | MetastoreCorrupt => "METASTORE_CORRUPT"
  | MetastoreMigrationFailed => "METASTORE_MIGRATION_FAILED"
  | MetastoreUnavailable => "METASTORE_UNAVAILABLE"
  | NotFound => "NOT_FOUND"
  | ObjectDeleteFailed => "OBJECT_DELETE_FAILED"
  | ObjectIntegrityError => "OBJECT_INTEGRITY_ERROR"
  | ObjectStoreUnavailable => "OBJECT_STORE_UNAVAILABLE"
  | ObjectUploadFailed => "OBJECT_UPLOAD_FAILED"
  | ObjectVerificationFailed => "OBJECT_VERIFICATION_FAILED"
  | ParquetBuildFailed => "PARQUET_BUILD_FAILED"
  | ParquetInvalid => "PARQUET_INVALID"
  | PublishedObjectCorrupt => "PUBLISHED_OBJECT_CORRUPT"
  | PublishedObjectMissing => "PUBLISHED_OBJECT_MISSING"
  | QueryCancelled => "QUERY_CANCELLED"
  | QueryCastFailed => "QUERY_CAST_FAILED"
  | QueryEvaluationFailed => "QUERY_EVALUATION_FAILED"
  | QueryExecutionFailed => "QUERY_EXECUTION_FAILED"
  | QueryInitializationFailed => "QUERY_INITIALIZATION_FAILED"
  | QueryResourceLimitExceeded => "QUERY_RESOURCE_LIMIT_EXCEEDED"
  | QuerySemanticError => "QUERY_SEMANTIC_ERROR"
  | QuerySyntaxError => "QUERY_SYNTAX_ERROR"
  | QueryTimeout => "QUERY_TIMEOUT"
  | RemoteResponseFailed => "REMOTE_RESPONSE_FAILED"
  | RemoteResponseInvalid => "REMOTE_RESPONSE_INVALID"
  | RemoteResponseTooLarge => "REMOTE_RESPONSE_TOO_LARGE"
  | RemoteServiceUnavailable => "REMOTE_SERVICE_UNAVAILABLE"
  | RetentionCleanupFailed => "RETENTION_CLEANUP_FAILED"
  | RetentionStateConflict => "RETENTION_STATE_CONFLICT"
  | RetentionTimestampOverflow => "RETENTION_TIMESTAMP_OVERFLOW"
  | ServerBindFailed => "SERVER_BIND_FAILED"
  | ServerDraining => "SERVER_DRAINING"
  | ServerNotReady => "SERVER_NOT_READY"
  | ServerRuntimeFailed => "SERVER_RUNTIME_FAILED"
  | ServerShutdownTimedOut => "SERVER_SHUTDOWN_TIMED_OUT"
  | ServerSignalFailed => "SERVER_SIGNAL_FAILED"
  | SpoolCorrupt => "SPOOL_CORRUPT"
  | SpoolUnavailable => "SPOOL_UNAVAILABLE"
  | StandardOutputWriteFailed => "STANDARD_OUTPUT_WRITE_FAILED"
  | VersionEncodingFailed => "VERSION_ENCODING_FAILED"
  end.

(** [impl FromStr for ErrorCode], whose error carries nothing *)
Definition ErrorCode_from_str (value : string) : result unit ErrorCode :=
  if decide (value = "CAPACITY_EXHAUSTED"%string) then Ok CapacityExhausted else
  if decide (value = "CATALOG_CORRUPT"%string) then Ok CatalogCorrupt else
  if decide (value = "CATALOG_DEFINITION_CONFLICT"%string) then Ok CatalogDefinitionConflict else
  if decide (value = "CATALOG_MANIFEST_INVALID"%string) then Ok CatalogManifestInvalid else
  if decide (value = "CATALOG_PROFILE_INVALID"%string) then Ok CatalogProfileInvalid else
  if decide (value = "CATALOG_SCHEMA_INCOMPATIBLE"%string) then Ok CatalogSchemaIncompatible else
  if decide (value = "CLIENT_TIMEOUT"%string) then Ok ClientTimeout else
  if decide (value = "COMMAND_INVALID"%string) then Ok CommandInvalid else
  if decide (value = "COMPACTION_BUILD_FAILED"%string) then Ok CompactionBuildFailed else
  if decide (value = "COMPACTION_INPUT_INVALID"%string) then Ok CompactionInputInvalid else
  if decide (value = "COMPACTION_NOT_BENEFICIAL"%string) then Ok CompactionNotBeneficial else
  if decide (value = "COMPACTION_PUBLICATION_FAILED"%string) then Ok CompactionPublicationFailed else
  if decide (value = "COMPACTION_RECOVERY_FAILED"%string) then Ok CompactionRecoveryFailed else
  if decide (value = "CONFIGURATION_CONSTRAINT_VIOLATION"%string) then Ok ConfigurationConstraintViolation else
  if decide (value = "CONFIGURATION_DOCUMENT_INVALID"%string) then Ok ConfigurationDocumentInvalid else
  if decide (value = "CONFIGURATION_DOCUMENT_MALFORMED"%string) then Ok ConfigurationDocumentMalformed else
  if decide (value = "CONFIGURATION_DOCUMENT_TOO_LARGE"%string) then Ok ConfigurationDocumentTooLarge else
  if decide (value = "CONFIGURATION_ENVIRONMENT_OVERRIDE_INVALID"%string) then Ok ConfigurationEnvironmentOverrideInvalid else
  if decide (value = "CONFIGURATION_FILE_UNREADABLE"%string) then Ok ConfigurationFileUnreadable else
  if decide (value = "CONFIGURATION_FILE_NOT_UTF8"%string) then Ok ConfigurationFileNotUtf8 else
  if decide (value = "CONFIGURATION_SECRET_INVALID"%string) then Ok ConfigurationSecretInvalid else
  if decide (value = "CONFIGURATION_SECRET_MISSING"%string) then Ok ConfigurationSecretMissing else
  if decide (value = "CONFIGURATION_VALUE_INVALID"%string) then Ok ConfigurationValueInvalid else
  if decide (value = "ENDPOINT_URL_CONSTRUCTION_FAILED"%string) then Ok EndpointUrlConstructionFailed else
  if decide (value = "HTTP_CLIENT_INITIALIZATION_FAILED"%string) then Ok HttpClientInitializationFailed else
  if decide (value = "INGESTION_BATCH_LIMIT_EXCEEDED"%string) then Ok IngestionBatchLimitExceeded else
  if decide (value = "INGESTION_INITIALIZATION_FAILED"%string) then Ok IngestionInitializationFailed else
  if decide (value = "INGESTION_RUNTIME_FAILED"%string) then Ok IngestionRuntimeFailed else
  if decide (value = "INPUT_FILE_UNREADABLE"%string) then Ok InputFileUnreadable else
  if decide (value = "INPUT_READ_FAILED"%string) then Ok InputReadFailed else
  if decide (value = "INTERNAL_ERROR"%string) then Ok InternalError else
  if decide (value = "INVALID_REQUEST"%string) then Ok InvalidRequest else
  if decide (value = "LOCAL_CAPACITY_EXHAUSTED"%string) then Ok LocalCapacityExhausted else
  if decide (value = "LOCAL_STORAGE_UNAVAILABLE"%string) then Ok LocalStorageUnavailable else
  if decide (value = "MAINTENANCE_INITIALIZATION_FAILED"%string) then Ok MaintenanceInitializationFailed else
  if decide (value = "MAINTENANCE_RUNTIME_FAILED"%string) then Ok MaintenanceRuntimeFailed else
  if decide (value = "METASTORE_CONFLICT"%string) then Ok MetastoreConflict else
  if decide (value = "METASTORE_CORRUPT"%string) then Ok MetastoreCorrupt else
  if decide (value = "METASTORE_MIGRATION_FAILED"%string) then Ok MetastoreMigrationFailed else
  if decide (value = "METASTORE_UNAVAILABLE"%string) then Ok MetastoreUnavailable else
  if decide (value = "NOT_FOUND"%string) then Ok NotFound else
  if decide (value = "OBJECT_DELETE_FAILED"%string) then Ok ObjectDeleteFailed else
  if decide (value = "OBJECT_INTEGRITY_ERROR"%string) then Ok ObjectIntegrityError else
  if decide (value = "OBJECT_STORE_UNAVAILABLE"%string) then Ok ObjectStoreUnavailable else
  if decide (value = "OBJECT_UPLOAD_FAILED"%string) then Ok ObjectUploadFailed else
  if decide (value = "OBJECT_VERIFICATION_FAILED"%string) then Ok ObjectVerificationFailed else
  if decide (value = "PARQUET_BUILD_FAILED"%string) then Ok ParquetBuildFailed else
  if decide (value = "PARQUET_INVALID"%string) then Ok ParquetInvalid else
  if decide (value = "PUBLISHED_OBJECT_CORRUPT"%string) then Ok PublishedObjectCorrupt else
  if decide (value = "PUBLISHED_OBJECT_MISSING"%string) then Ok PublishedObjectMissing else
  if decide (value = "QUERY_CANCELLED"%string) then Ok QueryCancelled else
  if decide (value = "QUERY_CAST_FAILED"%string) then Ok QueryCastFailed else
  if decide (value = "QUERY_EVALUATION_FAILED"%string) then Ok QueryEvaluationFailed else
  if decide (value = "QUERY_EXECUTION_FAILED"%string) then Ok QueryExecutionFailed else
  if decide (value = "QUERY_INITIALIZATION_FAILED"%string) then Ok QueryInitializationFailed else
  if decide (value = "QUERY_RESOURCE_LIMIT_EXCEEDED"%string) then Ok QueryResourceLimitExceeded else
  if decide (value = "QUERY_SEMANTIC_ERROR"%string) then Ok QuerySemanticError else
  if decide (value = "QUERY_SYNTAX_ERROR"%string) then Ok QuerySyntaxError else
  if decide (value = "QUERY_TIMEOUT"%string) then Ok QueryTimeout else
  if decide (value = "REMOTE_RESPONSE_FAILED"%string) then Ok RemoteResponseFailed else
  if decide (value = "REMOTE_RESPONSE_INVALID"%string) then Ok RemoteResponseInvalid else
  if decide (value = "REMOTE_RESPONSE_TOO_LARGE"%string) then Ok RemoteResponseTooLarge else
  if decide (value = "REMOTE_SERVICE_UNAVAILABLE"%string) then Ok RemoteServiceUnavailable else
  if decide (value = "RETENTION_CLEANUP_FAILED"%string) then Ok RetentionCleanupFailed else
  if decide (value = "RETENTION_STATE_CONFLICT"%string) then Ok RetentionStateConflict else
  if decide (value = "RETENTION_TIMESTAMP_OVERFLOW"%string) then Ok RetentionTimestampOverflow else
  if decide (value = "SERVER_BIND_FAILED"%string) then Ok ServerBindFailed else
  if decide (value = "SERVER_DRAINING"%string) then Ok ServerDraining else
  if decide (value = "SERVER_NOT_READY"%string) then Ok ServerNotReady else
  if decide (value = "SERVER_RUNTIME_FAILED"%string) then Ok ServerRuntimeFailed else
  if decide (value = "SERVER_SHUTDOWN_TIMED_OUT"%string) then Ok ServerShutdownTimedOut else
  if decide (value = "SERVER_SIGNAL_FAILED"%string) then Ok ServerSignalFailed else
  if decide (value = "SPOOL_CORRUPT"%string) then Ok SpoolCorrupt else
  if decide (value = "SPOOL_UNAVAILABLE"%string) then Ok SpoolUnavailable else
  if decide (value = "STANDARD_OUTPUT_WRITE_FAILED"%string) then Ok StandardOutputWriteFailed else
  if decide (value = "VERSION_ENCODING_FAILED"%string) then Ok VersionEncodingFailed else
  Err tt.

(** One arm of the match. *)
Lemma match_arm (value s : string) (c code : ErrorCode) (rest : result unit ErrorCode) :
  (if decide (value = s) then Ok c else rest) = Ok code → (value = s ∧ c = code) ∨ rest = Ok code.
Proof. case_decide; [intros [= ->]; auto | auto]. Qed.

(** A code reads back from its spelling, and no other text reads as a code. *)
Lemma ErrorCode_from_str_Ok value code : ErrorCode_from_str value = Ok code ↔ value = ErrorCode_as_str code.
Proof.
  split; [|intros ->; destruct code; vm_compute; reflexivity].
  intros Hv. repeat (apply match_arm in Hv as [[-> <-]|Hv]; [reflexivity|]). discriminate Hv.
Qed.
