(* ===== verification/CatalogTypes.v ===== *)
(** * elucid-catalog: names, logical types, errors and JSON pointers

    Models src/elucid/elucid-catalog/src/{error,value,logical_type,json_pointer}.rs.
    Catalog identities are UUIDs, here their 128-bit value as a [Z]; the
    checked construction of a UUIDv7 happens outside this file. *)

From S2P Require Import Prelude.

Definition SourceId := Z.
Definition SchemaId := Z.
Definition FieldId := Z.
Definition InputId := Z.
Definition IngestionProfileRevisionId := Z.

(** ** Logical types *)

Inductive LogicalType :=
| Bool | Int32 | Int64 | UInt32 | UInt64 | Float32 | Float64
| Utf8 | Datetime | Eid | Json.

#[export] Instance LogicalType_eq_dec : EqDecision LogicalType.
Proof. solve_decision. Defined.

Inductive UserLogicalType :=
| UBool | UInt32_ | UInt64_ | UUInt32 | UUInt64 | UFloat32 | UFloat64 | UUtf8 | UDatetime.

#[export] Instance UserLogicalType_eq_dec : EqDecision UserLogicalType.
Proof. solve_decision. Defined.

(** [impl From<UserLogicalType> for LogicalType] *)
Definition logical_type_of_user (value : UserLogicalType) : LogicalType :=
  match value with
  | UBool => Bool
  | UInt32_ => Int32
  | UInt64_ => Int64
  | UUInt32 => UInt32
  | UUInt64 => UInt64
  | UFloat32 => Float32
  | UFloat64 => Float64
  | UUtf8 => Utf8
  | UDatetime => Datetime
  end.

Inductive Nullability := NonNull | Nullable.

#[export] Instance Nullability_eq_dec : EqDecision Nullability.
Proof. solve_decision. Defined.

Inductive FieldRole := EventTimeRole | IngestionTimeRole | EventIdRole | DataRole | RemainderRole.

#[export] Instance FieldRole_eq_dec : EqDecision FieldRole.
Proof. solve_decision. Defined.

(** ** JSON pointers: the data *)

Definition JsonPointerToken := string.
Definition JsonPointer := list JsonPointerToken.

(** ** Errors *)

Inductive SchemaIncompatibility :=
| ExistingFieldNotPreserved (field_id : FieldId) (field_name : string) (ordinal : Z)
| IncompatibleLogicalType (field_id : FieldId) (field_name : string)
    (earlier_type later_type : LogicalType)
| IncompatibleNullability (field_id : FieldId) (field_name : string)
    (earlier_nullability later_nullability : Nullability)
| IncompatibleHistoricalRemainderPointer (field_id : FieldId) (field_name : string)
    (earlier_pointer later_pointer : option JsonPointer)
| AppendedFieldMustBeNullable (field_id : FieldId) (field_name : string).

Inductive NameKind := SourceKind | InputKind | UserFieldKind.
Inductive VersionKind := SchemaVersionKind | ProfileRevisionKind.

Inductive CatalogModelError :=
| InvalidName (kind : NameKind) (value : string)
| VersionMustBePositive (kind : VersionKind)
| MaximumRecordBytesMustBePositive
| JsonPointerMustStartWithSlash
| InvalidJsonPointerEscape (token_index byte_offset : nat)
| SystemFieldIdentityIsReserved (field_id : FieldId)
| HistoricalRemainderPointerRequiresNullableField (field_id : FieldId)
| SystemFieldCannotBeMapped (field_id : FieldId)
| DuplicateFieldIdentity (field_id : FieldId)
| DuplicateFieldName (name : string)
| FieldOrdinalOverflow
| DuplicateProfileMappingTarget (field_id : FieldId)
| EmptyProfileRevisionHistory (input_id : InputId)
| ProfileRevisionInputMismatch (profile_revision_id : IngestionProfileRevisionId)
    (expected_input_id actual_input_id : InputId)
| ProfileRevisionsMustIncrease (previous actual : Z)
| DuplicateProfileRevisionIdentity (profile_revision_id : IngestionProfileRevisionId)
| ActiveProfileRevisionNotFound (input_id : InputId)
    (profile_revision_id : IngestionProfileRevisionId)
| EmptySchemaHistory
| SchemaSourceMismatch (schema_id : SchemaId) (expected_source_id actual_source_id : SourceId)
| SchemaVersionsMustIncrease (previous actual : Z)
| SchemaHistoryIncompatible (earlier_schema_version later_schema_version : Z)
    (reason : SchemaIncompatibility)
| DuplicateSchemaIdentity (schema_id : SchemaId)
| ActiveSchemaNotFound (source_id : SourceId) (schema_id : SchemaId)
| FieldIdentityReusedWithDifferentName (field_id : FieldId) (previous_name current_name : string)
| FieldNameReusedWithDifferentIdentity (name : string)
    (previous_field_id current_field_id : FieldId)
| InputSourceMismatch (input_id : InputId) (expected_source_id actual_source_id : SourceId)
| DuplicateInputIdentity (input_id : InputId)
| DuplicateInputName (name : string)
| ProfileTargetSchemaNotFound (profile_revision_id : IngestionProfileRevisionId)
    (schema_id : SchemaId)
| ProfileMappingTargetNotFound (profile_revision_id : IngestionProfileRevisionId)
    (schema_id : SchemaId) (field_id : FieldId)
| ProfileMappingMissing (profile_revision_id : IngestionProfileRevisionId)
    (schema_id : SchemaId) (field_id : FieldId).

(** ** Names and positive integers *)

Definition is_name_start (c : ascii) : bool := is_ascii_alphabetic c || Ascii.eqb c "_".
Definition is_name_rest (c : ascii) : bool := is_ascii_alphanumeric c || Ascii.eqb c "_".

Definition is_valid_name (value : string) : bool :=
  match value with
  | EmptyString => false
  | String first rest => is_name_start first && string_forallb is_name_rest rest
  end.

(** [TryFrom<String>] of the three name types generated by [catalog_name!]. *)
Definition try_name (kind : NameKind) (value : string) : result CatalogModelError string :=
  if is_valid_name value then Ok value else Err (InvalidName kind value).

Definition SchemaVersion_new (value : Z) : result CatalogModelError Z :=
  if (value =? 0)%Z then Err (VersionMustBePositive SchemaVersionKind) else Ok value.

Definition ProfileRevision_new (value : Z) : result CatalogModelError Z :=
  if (value =? 0)%Z then Err (VersionMustBePositive ProfileRevisionKind) else Ok value.

Definition MaximumRecordBytes_new (value : Z) : result CatalogModelError Z :=
  if (value =? 0)%Z then Err MaximumRecordBytesMustBePositive else Ok value.

(** No user name starts with ['@'], the first byte of every system field name. *)
Lemma valid_name_not_system value name :
  is_valid_name value = true → value ≠ String "@" name.
Proof. intros H ->. simpl in H. vm_compute in H. done. Qed.

(** ** JSON pointers: RFC 6901 text *)

Module Pointer.

(** [char_indices] of the token; ['~'] and the digits are single bytes, so the
    byte positions are those of the characters. *)
Fixpoint decode_from (token_index byte_offset : nat) (encoded : string)
    : result CatalogModelError string :=
  match encoded with
  | EmptyString => Ok EmptyString
  | String character rest =>
      if Ascii.eqb character "~" then
        match rest with
        | String "0" rest' => String "~" <$> decode_from token_index (2 + byte_offset) rest'
        | String "1" rest' => String "/" <$> decode_from token_index (2 + byte_offset) rest'
        | _ => Err (InvalidJsonPointerEscape token_index byte_offset)
        end
      else String character <$> decode_from token_index (1 + byte_offset) rest
  end.

Definition decode_token (encoded : string) (token_index : nat) :
    result CatalogModelError JsonPointerToken := decode_from token_index 0 encoded.

(** [str::split(c)]: always at least one piece. *)
Fixpoint split (c : ascii) (s : string) : list string :=
  match s with
  | EmptyString => [EmptyString]
  | String x s' =>
      if Ascii.eqb x c then EmptyString :: split c s'
      else match split c s' with
           | piece :: pieces => String x piece :: pieces
           | [] => [String x EmptyString]
           end
  end.

Fixpoint decode_tokens (token_index : nat) (pieces : list string)
    : result CatalogModelError (list JsonPointerToken) :=
  match pieces with
  | [] => Ok []
  | piece :: pieces' =>
      token ← decode_token piece token_index;
      tokens ← decode_tokens (S token_index) pieces';
      Ok (token :: tokens)
  end.

Definition parse (value : string) : result CatalogModelError JsonPointer :=
  match value with
  | EmptyString => Ok []
  | String "/" encoded_tokens => decode_tokens 0 (split "/" encoded_tokens)
  | _ => Err JsonPointerMustStartWithSlash
  end.

Fixpoint escape (token : string) : string :=
  match token with
  | EmptyString => EmptyString
  | String character rest =>
      if Ascii.eqb character "~" then String "~" (String "0" (escape rest))
      else if Ascii.eqb character "/" then String "~" (String "1" (escape rest))
      else String character (escape rest)
  end.

(** [impl Display for JsonPointer] *)
Fixpoint to_string (pointer : JsonPointer) : string :=
  match pointer with
  | [] => EmptyString
  | token :: tokens => String "/" (escape token +:+ to_string tokens)
  end.

(** ** Lemmas *)

Lemma decode_escape i n s : decode_from i n (escape s) = Ok s.
Proof.
  revert n; induction s as [|c s IH]; intros n; [done|]. cbn [escape].
  destruct (Ascii.eqb_spec c "~") as [->|Hc]; [simpl; by rewrite IH|].
  destruct (Ascii.eqb_spec c "/") as [->|Hc']; [simpl; by rewrite IH|].
  cbn [decode_from]. apply Ascii.eqb_neq in Hc. rewrite Hc. by rewrite IH.
Qed.

Fixpoint slash_free (s : string) : bool :=
  match s with EmptyString => true | String c s' => negb (Ascii.eqb c "/") && slash_free s' end.

Lemma escape_slash_free s : slash_free (escape s) = true.
Proof.
  induction s as [|c s IH]; [done|]. cbn [escape].
  destruct (Ascii.eqb_spec c "~") as [->|Hc]; [done|].
  destruct (Ascii.eqb_spec c "/") as [->|Hc']; [done|].
  simpl. apply Ascii.eqb_neq in Hc'. by rewrite Hc'.
Qed.

Lemma split_slash_free s : slash_free s = true → split "/" s = [s].
Proof.
  induction s as [|c s IH]; [done|]. simpl. intros H. inv_ok.
  rewrite H. by rewrite IH.
Qed.

Lemma split_join s t :
  slash_free s = true → split "/" (s +:+ String "/" t) = s :: split "/" t.
Proof.
  induction s as [|c s IH]; [done|]. simpl. intros H. inv_ok.
  rewrite H. by rewrite IH.
Qed.

Lemma split_nonempty c s : split c s ≠ [].
Proof.
  destruct s as [|x s]; simpl; [done|]. destruct (Ascii.eqb x c); [done|].
  destruct (split c s); done.
Qed.

(** The pieces are slash-free and joining them with slashes gives the text back. *)
Fixpoint join (pieces : list string) : string :=
  match pieces with
  | [] => EmptyString
  | piece :: pieces' => String "/" (piece +:+ join pieces')
  end.

Lemma split_spec s :
  join (split "/" s) = String "/" s ∧ Forall (λ p, slash_free p = true) (split "/" s).
Proof.
  induction s as [|c s [IHj IHf]]; [split; [done | by repeat constructor]|]. cbn [split].
  destruct (Ascii.eqb_spec c "/") as [->|Hc].
  - cbn [join]. rewrite IHj. simpl. split; [done | by constructor].
  - destruct (split "/" s) as [|p ps]; [done|]. simpl in *.
    inversion_clear IHf. injection IHj as <-.
    apply Ascii.eqb_neq in Hc. split; [done|].
    constructor; [|done]. simpl. by rewrite Hc.
Qed.

Lemma escape_decode i n s t :
  slash_free s = true → decode_from i n s = Ok t → escape t = s.
Proof.
  revert n t. induction s as [s IH] using (induction_ltof1 _ String.length); unfold ltof in IH.
  intros n t Hs Hd. destruct s as [|c s]; [by simplify_eq/=|]. cbn [decode_from] in Hd.
  simpl in Hs. apply andb_true_iff in Hs as [Hc1 Hs]. apply negb_true_iff in Hc1.
  destruct (Ascii.eqb_spec c "~") as [->|Hc].
  - destruct s as [|d s]; [done|].
    destruct (decide (d = "0"%char)) as [->|Hd0]; [|destruct (decide (d = "1"%char)) as [->|Hd1]].
    + inv_ok. simpl. do 2 f_equal.
      eapply IH; [ | | exact Hok]; [simpl; lia | done].
    + inv_ok. simpl. do 2 f_equal.
      eapply IH; [ | | exact Hok]; [simpl; lia | done].
    + exfalso. destruct d as [[] [] [] [] [] [] [] []]; simplify_eq/=.
  - inv_ok. cbn [escape]. apply Ascii.eqb_neq in Hc. rewrite Hc, Hc1.
    f_equal. eapply IH; [ | done | exact Hok]. simpl; lia.
Qed.

Lemma to_string_join p : to_string p = join (escape <$> p).
Proof. induction p as [|t p IH]; simpl; [done|]. by rewrite IH. Qed.

Lemma decode_tokens_escape i p : decode_tokens i (escape <$> p) = Ok p.
Proof.
  revert i; induction p as [|t p IH]; intros i; [done|]. cbn [fmap list_fmap decode_tokens].
  unfold decode_token. rewrite decode_escape. cbn [mbind result_bind]. by rewrite IH.
Qed.

Lemma split_to_string t p : split "/" (escape t +:+ to_string p) = escape t :: (escape <$> p).
Proof.
  revert t; induction p as [|u p IH]; intros t.
  - simpl. rewrite string_app_nil_r. apply split_slash_free, escape_slash_free.
  - cbn [to_string]. rewrite split_join by apply escape_slash_free. by rewrite IH.
Qed.

Lemma decode_tokens_Ok i ps p :
  Forall (λ s, slash_free s = true) ps → decode_tokens i ps = Ok p → escape <$> p = ps.
Proof.
  intros Hf; revert i p; induction Hf as [|s ps Hs Hps IH]; intros i p Hd; simpl in Hd.
  - by simplify_eq.
  - inv_ok. simpl. f_equal; [by eapply escape_decode | eauto].
Qed.

(** [parse] and [Display] are inverse: a text parses to exactly the
    pointer whose display it is. *)
Theorem parse_to_string (s : string) (p : JsonPointer) :
  parse s = Ok p ↔ s = to_string p.
Proof.
  split.
  - destruct s as [|c s]; [by intros [= <-]|]. unfold parse.
    destruct (Ascii.eqb_spec c "/") as [->|Hc].
    + intros H. destruct (split_spec s) as [Hj Hf].
      rewrite to_string_join. rewrite (decode_tokens_Ok _ _ _ Hf H). done.
    + destruct c as [[] [] [] [] [] [] [] []]; done.
  - intros ->. destruct p as [|t p]; [done|]. unfold parse. cbn [to_string].
    rewrite split_to_string. apply (decode_tokens_escape 0 (t :: p)).
Qed.

End Pointer.
