(* ===== verification/CatalogModel.v ===== *)
(** * elucid-catalog: schemas, inputs and sources

    Models src/elucid/elucid-catalog/src/{schema,input,source}.rs: the validating
    constructors of the catalog aggregates and the invariants they establish.
    The Arrow rendering of a schema ([Field::to_arrow]) is not modelled. *)

From S2P Require Import Prelude CatalogTypes.

Open Scope Z_scope.

(** ** System field identities (identity.rs) *)

Definition EVENT_TIME : FieldId := 0x00000000000070008000000000000001.
Definition INGESTION_TIME : FieldId := 0x00000000000070008000000000000002.
Definition EVENT_ID : FieldId := 0x00000000000070008000000000000003.
Definition REMAINDER : FieldId := 0x00000000000070008000000000000004.

Definition is_system (id : FieldId) : bool :=
  (id =? EVENT_TIME) || (id =? INGESTION_TIME) || (id =? EVENT_ID) || (id =? REMAINDER).

(** ** Schemas *)

Module Schema.

Record UserField := {
  uf_id : FieldId;
  uf_name : string;
  uf_logical_type : UserLogicalType;
  uf_nullability : Nullability;
  uf_description : option string;
  uf_historical_remainder_pointer : option JsonPointer;
}.

Definition UserField_new (id : FieldId) (name : string) (logical_type : UserLogicalType)
    (nullability : Nullability) : result CatalogModelError UserField :=
  if is_system id then Err (SystemFieldIdentityIsReserved id)
  else Ok {| uf_id := id; uf_name := name; uf_logical_type := logical_type;
             uf_nullability := nullability; uf_description := None;
             uf_historical_remainder_pointer := None |}.

Definition with_description (f : UserField) (description : string) : UserField :=
  {| uf_id := uf_id f; uf_name := uf_name f; uf_logical_type := uf_logical_type f;
     uf_nullability := uf_nullability f; uf_description := Some description;
     uf_historical_remainder_pointer := uf_historical_remainder_pointer f |}.

Definition with_historical_remainder_pointer (f : UserField) (pointer : JsonPointer)
    : result CatalogModelError UserField :=
  if bool_decide (uf_nullability f ≠ Nullable)
  then Err (HistoricalRemainderPointerRequiresNullableField (uf_id f))
  else Ok {| uf_id := uf_id f; uf_name := uf_name f; uf_logical_type := uf_logical_type f;
             uf_nullability := uf_nullability f; uf_description := uf_description f;
             uf_historical_remainder_pointer := Some pointer |}.

Record Field := {
  f_id : FieldId;
  f_name : string;
  f_logical_type : LogicalType;
  f_nullability : Nullability;
  f_role : FieldRole;
  f_ordinal : Z;
  f_description : option string;
  f_historical_remainder_pointer : option JsonPointer;
}.

(** [FieldOrdinal::from_index] *)
Definition FieldOrdinal_from_index (index : nat) : result CatalogModelError Z :=
  ok_or (narrow I32 (Z.of_nat index)) FieldOrdinalOverflow.

Definition Field_system (id : FieldId) (name : string) (logical_type : LogicalType)
    (nullability : Nullability) (role : FieldRole) (ordinal : nat)
    : result CatalogModelError Field :=
  o ← FieldOrdinal_from_index ordinal;
  Ok {| f_id := id; f_name := name; f_logical_type := logical_type;
        f_nullability := nullability; f_role := role; f_ordinal := o;
        f_description := None; f_historical_remainder_pointer := None |}.

Definition Field_user (field : UserField) (ordinal : nat) : result CatalogModelError Field :=
  o ← FieldOrdinal_from_index ordinal;
  Ok {| f_id := uf_id field; f_name := uf_name field;
        f_logical_type := logical_type_of_user (uf_logical_type field);
        f_nullability := uf_nullability field; f_role := DataRole; f_ordinal := o;
        f_description := uf_description field;
        f_historical_remainder_pointer := uf_historical_remainder_pointer field |}.

Fixpoint validate_unique_loop (identities : gset FieldId) (names : gset string)
    (user_fields : list UserField) : result CatalogModelError unit :=
  match user_fields with
  | [] => Ok tt
  | field :: rest =>
      if decide (uf_id field ∈ identities) then Err (DuplicateFieldIdentity (uf_id field))
      else if decide (uf_name field ∈ names) then Err (DuplicateFieldName (uf_name field))
      else validate_unique_loop ({[uf_id field]} ∪ identities) ({[uf_name field]} ∪ names) rest
  end.

Definition validate_unique_user_fields (user_fields : list UserField)
    : result CatalogModelError unit := validate_unique_loop ∅ ∅ user_fields.

(** The loop [for (index, user_field) in user_fields.enumerate()]; the ordinal is
    [index + 3]. *)
Fixpoint push_user_fields (index : nat) (user_fields : list UserField)
    : result CatalogModelError (list Field) :=
  match user_fields with
  | [] => Ok []
  | user_field :: rest =>
      ordinal ← ok_or (checked_add U64 (Z.of_nat index) 3) FieldOrdinalOverflow;
      field ← Field_user user_field (Z.to_nat ordinal);
      fields ← push_user_fields (S index) rest;
      Ok (field :: fields)
  end.

Definition materialize_user_fields (user_fields : list UserField)
    : result CatalogModelError (list Field) :=
  _ ← validate_unique_user_fields user_fields;
  field_capacity ← ok_or (checked_add U64 (Z.of_nat (length user_fields)) 4) FieldOrdinalOverflow;
  _ ← FieldOrdinal_from_index (Z.to_nat (field_capacity - 1));
  event_time ← Field_system EVENT_TIME "@event_time" Datetime NonNull EventTimeRole 0;
  ingestion_time ← Field_system INGESTION_TIME "@ingestion_time" Datetime NonNull IngestionTimeRole 1;
  event_id ← Field_system EVENT_ID "@event_id" Eid NonNull EventIdRole 2;
  fields ← push_user_fields 0 user_fields;
  let remainder_ordinal := (3 + length fields)%nat in
  rest ← Field_system REMAINDER "@rest" Json Nullable RemainderRole remainder_ordinal;
  Ok ([event_time; ingestion_time; event_id] ++ fields ++ [rest]).

(** Digests are opaque 32-byte values. *)
Definition Digest := list Z.

Record Schema := {
  s_id : SchemaId;
  s_source_id : SourceId;
  s_version : Z;
  s_declaration_digest : Digest;
  s_materialized_digest : Digest;
  s_fields : list Field;
}.

Definition Schema_new (id : SchemaId) (source_id : SourceId) (version : Z)
    (declaration materialized : Digest) (user_fields : list UserField)
    : result CatalogModelError Schema :=
  materialization ← materialize_user_fields user_fields;
  Ok {| s_id := id; s_source_id := source_id; s_version := version;
        s_declaration_digest := declaration; s_materialized_digest := materialized;
        s_fields := materialization |}.

(** [Schema::field] *)
Definition schema_field (schema : Schema) (field_id : FieldId) : option Field :=
  find (λ field, f_id field =? field_id) (s_fields schema).

(** [fields().iter().filter(|field| field.role() == FieldRole::Data)] *)
Definition is_data (field : Field) : bool := bool_decide (f_role field = DataRole).
Definition data_fields (schema : Schema) : list Field := filter is_data (s_fields schema).

(** ** What a user field value and a materialized schema satisfy *)

Record UserField_wf (f : UserField) : Prop := {
  uf_not_system : is_system (uf_id f) = false;
  uf_valid_name : is_valid_name (uf_name f) = true;
  uf_pointer_nullable :
    is_Some (uf_historical_remainder_pointer f) → uf_nullability f = Nullable;
}.

Record Fields_wf (fields : list Field) : Prop := {
  fields_ordinals : imap (λ i _, Z.of_nat i) fields = (f_ordinal <$> fields);
  fields_ids : NoDup (f_id <$> fields);
  fields_names : NoDup (f_name <$> fields);
  fields_pointer : ∀ f, f ∈ fields → is_Some (f_historical_remainder_pointer f) →
    f_nullability f = Nullable;
}.

Lemma validate_unique_loop_Ok ids names l :
  validate_unique_loop ids names l = Ok tt ↔
  NoDup (uf_id <$> l) ∧ NoDup (uf_name <$> l) ∧
  Forall (λ f, uf_id f ∉ ids ∧ uf_name f ∉ names) l.
Proof.
  revert ids names; induction l as [|f l IH]; intros ids names; simpl.
  - split; [intros _; split_and!; constructor | done].
  - rewrite !NoDup_cons, Forall_cons. case_decide; [naive_solver|]. case_decide; [naive_solver|].
    rewrite IH, !list_elem_of_fmap, !Forall_forall. set_solver.
Qed.

Lemma validate_unique_Ok l :
  validate_unique_user_fields l = Ok tt ↔ NoDup (uf_id <$> l) ∧ NoDup (uf_name <$> l).
Proof.
  unfold validate_unique_user_fields. rewrite validate_unique_loop_Ok, Forall_forall.
  set_solver.
Qed.

(** A materialized data field carries its user field unchanged. *)
Definition field_of_user (u : UserField) (ordinal : nat) : Field :=
  {| f_id := uf_id u; f_name := uf_name u;
     f_logical_type := logical_type_of_user (uf_logical_type u);
     f_nullability := uf_nullability u; f_role := DataRole; f_ordinal := Z.of_nat ordinal;
     f_description := uf_description u;
     f_historical_remainder_pointer := uf_historical_remainder_pointer u |}.

Lemma push_user_fields_Ok i l fs :
  push_user_fields i l = Ok fs → fs = imap (λ k u, field_of_user u (3 + i + k)) l.
Proof.
  revert i fs; induction l as [|u l IH]; intros i fs H; simpl in *; [by inv_ok|].
  unfold Field_user, FieldOrdinal_from_index in H. inv_ok.
  unfold checked_add in *.
  repeat match goal with H : narrow _ _ = Some _ |- _ => apply narrow_Some in H as [-> _] end.
  match goal with H : push_user_fields _ _ = _ |- _ => rewrite (IH _ _ H) end.
  f_equal.
  - unfold field_of_user. f_equal. lia.
  - apply imap_ext. intros. simpl. f_equal. lia.
Qed.

Lemma ordinal_ok n : Z.of_nat n ≤ int_max I32 → FieldOrdinal_from_index n = Ok (Z.of_nat n).
Proof. intros. unfold FieldOrdinal_from_index. rewrite narrow_ok by int_lia. done. Qed.

Lemma ordinal_Ok n o :
  FieldOrdinal_from_index n = Ok o → o = Z.of_nat n ∧ Z.of_nat n ≤ int_max I32.
Proof. unfold FieldOrdinal_from_index. intros H. inv_ok. apply narrow_Some in H. int_lia. Qed.

(** Enough room for the ordinals: an [i32] can number all fields. *)
Lemma push_user_fields_total i l :
  Z.of_nat (i + length l) + 2 ≤ int_max I32 →
  push_user_fields i l = Ok (imap (λ k u, field_of_user u (3 + i + k)) l).
Proof.
  revert i; induction l as [|u l IH]; intros i Hb; [done|].
  cbn [push_user_fields length] in *. unfold checked_add, Field_user.
  rewrite narrow_ok by int_lia. cbn [ok_or mbind result_bind].
  replace (Z.to_nat (Z.of_nat i + 3)) with (3 + i)%nat by lia.
  rewrite ordinal_ok by lia. cbn [mbind result_bind].
  rewrite IH by lia. cbn [mbind result_bind]. rewrite imap_cons. do 2 f_equal.
  - unfold field_of_user. f_equal. lia.
  - apply imap_ext. intros. simpl. f_equal. lia.
Qed.

Definition system_prefix : list Field :=
  [ {| f_id := EVENT_TIME; f_name := "@event_time"; f_logical_type := Datetime;
       f_nullability := NonNull; f_role := EventTimeRole; f_ordinal := 0;
       f_description := None; f_historical_remainder_pointer := None |};
    {| f_id := INGESTION_TIME; f_name := "@ingestion_time"; f_logical_type := Datetime;
       f_nullability := NonNull; f_role := IngestionTimeRole; f_ordinal := 1;
       f_description := None; f_historical_remainder_pointer := None |};
    {| f_id := EVENT_ID; f_name := "@event_id"; f_logical_type := Eid;
       f_nullability := NonNull; f_role := EventIdRole; f_ordinal := 2;
       f_description := None; f_historical_remainder_pointer := None |} ].

Definition remainder_field (ordinal : nat) : Field :=
  {| f_id := REMAINDER; f_name := "@rest"; f_logical_type := Json;
     f_nullability := Nullable; f_role := RemainderRole; f_ordinal := Z.of_nat ordinal;
     f_description := None; f_historical_remainder_pointer := None |}.

(** The layout that [materialize_user_fields] produces. *)
Definition layout (l : list UserField) : list Field :=
  system_prefix ++ imap (λ k u, field_of_user u (3 + k)) l ++ [remainder_field (3 + length l)].

Lemma materialize_Ok l fs :
  materialize_user_fields l = Ok fs ↔
  NoDup (uf_id <$> l) ∧ NoDup (uf_name <$> l) ∧
  Z.of_nat (length l) + 3 ≤ int_max I32 ∧ fs = layout l.
Proof.
  unfold materialize_user_fields, Field_system, checked_add. split.
  - intros H. inv_ok.
    match goal with H : validate_unique_user_fields _ = Ok ?u |- _ =>
      destruct u; apply validate_unique_Ok in H as [Hi Hn] end.
    repeat match goal with
    | H : narrow _ _ = Some _ |- _ => apply narrow_Some in H as [-> ?]
    | H : FieldOrdinal_from_index _ = Ok _ |- _ => apply ordinal_Ok in H as [-> ?]
    | H : push_user_fields _ _ = _ |- _ => apply push_user_fields_Ok in H as ->
    end.
    rewrite length_imap in *. split_and!; [done | done | lia | done].
  - intros (Hi & Hn & Hb & ->).
    rewrite (proj2 (validate_unique_Ok l)), bind_ret by done.
    rewrite narrow_ok, ok_or_ret, bind_ret by int_lia.
    replace (Z.to_nat (Z.of_nat (length l) + 4 - 1)) with (3 + length l)%nat by lia.
    rewrite (ordinal_ok (3 + length l)), bind_ret by lia.
    rewrite (ordinal_ok 0), (ordinal_ok 1), (ordinal_ok 2), !bind_ret by int_lia.
    rewrite push_user_fields_total, bind_ret by lia.
    rewrite length_imap, (ordinal_ok (3 + length l)), !bind_ret by lia. done.
Qed.

Lemma fmap_user_fields {A} (f : Field → A) (g : UserField → A) (l : list UserField) n :
  (∀ u k, f (field_of_user u k) = g u) →
  (f <$> imap (λ k u, field_of_user u (n + k)) l) = (g <$> l).
Proof.
  intros Hfg. revert n; induction l as [|u l IH]; intros n; [done|].
  rewrite imap_cons, !fmap_cons, Hfg. f_equal. rewrite <- (IH (S n)). f_equal.
  apply imap_ext. intros. simpl. f_equal. lia.
Qed.

Lemma layout_data (l : list UserField) :
  filter is_data (layout l) = imap (λ k u, field_of_user u (3 + k)) l.
Proof.
  unfold layout. rewrite !filter_app. simpl. rewrite app_nil_r. apply filter_all.
  rewrite Forall_forall. intros x Hx. apply elem_of_lookup_imap_1 in Hx as (k & u & -> & _). done.
Qed.

Lemma layout_ordinals (l : list UserField) :
  imap (λ i _, Z.of_nat i) (layout l) = (f_ordinal <$> layout l).
Proof.
  rewrite (imap_seq_0 _ Z.of_nat). unfold layout. rewrite !length_app, length_imap, !fmap_app.
  rewrite fmap_imap. cbn [length system_prefix].
  rewrite (seq_app 3), (seq_app (length l) 1), !fmap_app.
  change (0 + 3)%nat with 3%nat. f_equal. f_equal.
  rewrite <- (imap_seq l Z.of_nat 3). by apply imap_ext.
Qed.

(** Duplicate-freedom of the layout, for a projection whose values on the system
    fields are apart from those on the user fields. *)
Lemma layout_NoDup {A} `{EqDecision A} (f : Field → A) (g : UserField → A) (l : list UserField) :
  (∀ u k, f (field_of_user u k) = g u) →
  NoDup (f <$> system_prefix ++ [remainder_field (3 + length l)]) →
  (∀ u s, u ∈ l → s ∈ system_prefix ++ [remainder_field (3 + length l)] → g u ≠ f s) →
  NoDup (g <$> l) → NoDup (f <$> layout l).
Proof.
  intros Hfg Hsys Hap Hg. unfold layout. rewrite !fmap_app, (fmap_user_fields f g l 3 Hfg).
  rewrite fmap_app, NoDup_app in Hsys. destruct Hsys as (H1 & H2 & H3).
  rewrite !NoDup_app. split_and!; try done.
  - intros x Hx. rewrite elem_of_app. intros [Hx'|Hx']; [|by apply (H2 x)].
    apply list_elem_of_fmap in Hx as (y & -> & Hy), Hx' as (u & Hu & Hin).
    apply (Hap u y Hin); [set_solver | done].
  - intros x Hx Hx'. apply list_elem_of_fmap in Hx' as (y & -> & Hy), Hx as (u & Hu & Hin).
    apply (Hap u y Hin); [set_solver | done].
Qed.

Lemma system_cases s n (P : Field → Prop) :
  s ∈ system_prefix ++ [remainder_field n] →
  Forall P system_prefix → P (remainder_field n) → P s.
Proof. rewrite elem_of_app, list_elem_of_singleton, Forall_forall. naive_solver. Qed.

Lemma layout_wf (l : list UserField) :
  Forall UserField_wf l → NoDup (uf_id <$> l) → NoDup (uf_name <$> l) → Fields_wf (layout l).
Proof.
  rewrite Forall_forall. intros Hwf Hi Hn. split.
  - apply layout_ordinals.
  - apply (layout_NoDup f_id uf_id); [done | apply (bool_decide_unpack _); vm_compute; done | | done].
    intros u s Hu Hs. pose proof (uf_not_system u (Hwf u Hu)) as Hns.
    eapply (system_cases s _ (λ s, uf_id u ≠ f_id s) Hs); [repeat constructor|];
      intros E; simpl in E; rewrite E in Hns; vm_compute in Hns; done.
  - apply (layout_NoDup f_name uf_name); [done | apply (bool_decide_unpack _); vm_compute; done | | done].
    intros u s Hu Hs. pose proof (uf_valid_name u (Hwf u Hu)) as Hv.
    eapply (system_cases s _ (λ s, uf_name u ≠ f_name s) Hs); [repeat constructor|];
      by apply valid_name_not_system.
  - intros f Hf. unfold layout in Hf. rewrite !elem_of_app in Hf. destruct Hf as [Hf|[Hf|Hf]].
    + set_unfold. destruct Hf as [->|[->|[->|[]]]]; intros [? [=]].
    + apply elem_of_lookup_imap_1 in Hf as (k & u & -> & Hu). simpl.
      apply Hwf. by eapply list_elem_of_lookup_2.
    + set_unfold. destruct Hf as [->|[]]; intros [? [=]].
Qed.

(** [Schema::new] accepts exactly the field lists with distinct
    identities and names that an i32 can number; its fields are then the three
    system fields, the user fields in order and ["@rest"], with ordinals equal to
    their positions, all identities and names distinct, and a historical
    remainder pointer only on nullable fields. *)
Theorem Schema_new_wf id source_id version d m (l : list UserField) (s : Schema) :
  Forall UserField_wf l →
  (Schema_new id source_id version d m l = Ok s ↔
     NoDup (uf_id <$> l) ∧ NoDup (uf_name <$> l) ∧ Z.of_nat (length l) + 3 ≤ int_max I32 ∧
     s = {| s_id := id; s_source_id := source_id; s_version := version;
            s_declaration_digest := d; s_materialized_digest := m; s_fields := layout l |}) ∧
  (Schema_new id source_id version d m l = Ok s → Fields_wf (s_fields s)).
Proof.
  intros Hwf.
  assert (Hiff : Schema_new id source_id version d m l = Ok s ↔
     NoDup (uf_id <$> l) ∧ NoDup (uf_name <$> l) ∧ Z.of_nat (length l) + 3 ≤ int_max I32 ∧
     s = {| s_id := id; s_source_id := source_id; s_version := version;
            s_declaration_digest := d; s_materialized_digest := m; s_fields := layout l |}).
  { unfold Schema_new. rewrite bind_Ok. setoid_rewrite materialize_Ok. naive_solver. }
  split; [done|]. rewrite Hiff. intros (Hi & Hn & _ & ->). by apply layout_wf.
Qed.

Definition sample_fields : list UserField :=
  [ {| uf_id := 100; uf_name := "status"; uf_logical_type := UInt64_; uf_nullability := NonNull;
       uf_description := None; uf_historical_remainder_pointer := None |};
    {| uf_id := 101; uf_name := "host"; uf_logical_type := UUtf8; uf_nullability := Nullable;
       uf_description := Some "origin"; uf_historical_remainder_pointer := Some ["host"%string] |} ].

Definition sample_schema : Schema :=
  {| s_id := 1; s_source_id := 2; s_version := 3; s_declaration_digest := [];
     s_materialized_digest := []; s_fields := layout sample_fields |}.

Lemma Schema_new_wf_witness :
  Schema_new 1 2 3 [] [] sample_fields = Ok sample_schema ∧ Fields_wf (s_fields sample_schema).
Proof.
  assert (H : Schema_new 1 2 3 [] [] sample_fields = Ok sample_schema) by (vm_compute; reflexivity).
  split; [exact H|]. refine (proj2 (Schema_new_wf 1 2 3 [] [] sample_fields sample_schema _) H).
  repeat constructor; simpl; first [done | by intros [? [=]]].
Defined.

End Schema.
