(* ===== verification/CatalogSource.v ===== *)
(** * elucid-catalog: ingestion profiles, inputs and sources

    Models src/elucid/elucid-catalog/src/{input,source}.rs: the validating
    constructors [IngestionProfile::new], [Input::new] and [Source::new], and the
    properties a [Source] value has by construction. *)

From S2P Require Import Prelude CatalogTypes CatalogModel.
Import Schema.

Open Scope Z_scope.

(** ** Inputs (input.rs) *)

Inductive EventTimeFormat := Rfc3339 | UnixMilliseconds.

Record FieldMapping := { m_target_field_id : FieldId; m_json_pointer : JsonPointer }.

Definition FieldMapping_new (target_field_id : FieldId) (json_pointer : JsonPointer)
    : result CatalogModelError FieldMapping :=
  if is_system target_field_id then Err (SystemFieldCannotBeMapped target_field_id)
  else Ok {| m_target_field_id := target_field_id; m_json_pointer := json_pointer |}.

Record EventTimeMapping := { et_json_pointer : JsonPointer; et_format : EventTimeFormat }.

Record IngestionProfile := {
  p_maximum_record_bytes : Z;
  p_event_time : EventTimeMapping;
  p_mappings : list FieldMapping;
}.

Fixpoint unique_targets (targets : gset FieldId) (mappings : list FieldMapping)
    : result CatalogModelError unit :=
  match mappings with
  | [] => Ok tt
  | mapping :: rest =>
      if decide (m_target_field_id mapping ∈ targets)
      then Err (DuplicateProfileMappingTarget (m_target_field_id mapping))
      else unique_targets ({[m_target_field_id mapping]} ∪ targets) rest
  end.

Definition IngestionProfile_new (maximum_record_bytes : Z) (event_time : EventTimeMapping)
    (mappings : list FieldMapping) : result CatalogModelError IngestionProfile :=
  _ ← unique_targets ∅ mappings;
  Ok {| p_maximum_record_bytes := maximum_record_bytes; p_event_time := event_time;
        p_mappings := mappings |}.

Record IngestionProfileRevision := {
  r_id : IngestionProfileRevisionId;
  r_input_id : InputId;
  r_revision : Z;
  r_target_schema_id : SchemaId;
  r_declaration_digest : Digest;
  r_materialized_digest : Digest;
  r_profile : IngestionProfile;
}.

Record Input := {
  i_id : InputId;
  i_source_id : SourceId;
  i_name : string;
  i_declaration_digest : Digest;
  i_materialized_digest : Digest;
  i_profile_revisions : list IngestionProfileRevision;
  i_active_profile_revision_index : nat;
}.

(** The loop of [Input::new]: the set of identities seen, the index of the active
    revision and the previous revision number. *)
Fixpoint scan_revisions (id : InputId) (active_id : IngestionProfileRevisionId)
    (index : nat) (revision_ids : gset IngestionProfileRevisionId)
    (active_index : option nat) (previous : option Z)
    (revisions : list IngestionProfileRevision) : result CatalogModelError (option nat) :=
  match revisions with
  | [] => Ok active_index
  | revision :: rest =>
      if negb (r_input_id revision =? id)
      then Err (ProfileRevisionInputMismatch (r_id revision) id (r_input_id revision))
      else
      let actual := r_revision revision in
      _ ← (match previous with
           | Some previous =>
               if actual <=? previous then Err (ProfileRevisionsMustIncrease previous actual)
               else Ok tt
           | None => Ok tt
           end);
      if decide (r_id revision ∈ revision_ids)
      then Err (DuplicateProfileRevisionIdentity (r_id revision))
      else
      let active_index := if r_id revision =? active_id then Some index else active_index in
      scan_revisions id active_id (S index) ({[r_id revision]} ∪ revision_ids)
        active_index (Some actual) rest
  end.

Definition Input_new (id : InputId) (source_id : SourceId) (name : string)
    (declaration materialized : Digest) (active_profile_revision_id : IngestionProfileRevisionId)
    (profile_revisions : list IngestionProfileRevision) : result CatalogModelError Input :=
  match profile_revisions with
  | [] => Err (EmptyProfileRevisionHistory id)
  | _ =>
      active ← scan_revisions id active_profile_revision_id 0 ∅ None None profile_revisions;
      active_index ← ok_or active (ActiveProfileRevisionNotFound id active_profile_revision_id);
      Ok {| i_id := id; i_source_id := source_id; i_name := name;
            i_declaration_digest := declaration; i_materialized_digest := materialized;
            i_profile_revisions := profile_revisions;
            i_active_profile_revision_index := active_index |}
  end.

(** [&self.profile_revisions[self.active_profile_revision_index]]; an index out of
    range would panic. *)
Definition active_profile_revision (input : Input) : option IngestionProfileRevision :=
  i_profile_revisions input !! i_active_profile_revision_index input.

(** ** Sources (source.rs) *)

Record Source := {
  src_id : SourceId;
  src_name : string;
  src_display_name : string;
  src_declaration_digest : Digest;
  src_schemas : list Schema;
  src_active_schema_index : nat;
  src_inputs : list Input;
}.

Definition active_schema (source : Source) : option Schema :=
  src_schemas source !! src_active_schema_index source.

Definition source_schema (source : Source) (schema_id : SchemaId) : option Schema :=
  find (λ schema, s_id schema =? schema_id) (src_schemas source).

Definition source_input (source : Source) (input_id : InputId) : option Input :=
  find (λ input, i_id input =? input_id) (src_inputs source).

(** [validate_historical_field_identity]: the two maps are threaded through. *)
Fixpoint validate_identity_fields (names_by_id : gmap FieldId string)
    (ids_by_name : gmap string FieldId) (fields : list Field)
    : result CatalogModelError (gmap FieldId string * gmap string FieldId) :=
  match fields with
  | [] => Ok (names_by_id, ids_by_name)
  | field :: rest =>
      names_by_id ←
        (match names_by_id !! f_id field with
         | Some previous_name =>
             if decide (previous_name = f_name field) then Ok names_by_id
             else Err (FieldIdentityReusedWithDifferentName (f_id field) previous_name (f_name field))
         | None => Ok (<[f_id field := f_name field]> names_by_id)
         end);
      ids_by_name ←
        (match ids_by_name !! f_name field with
         | Some previous_field_id =>
             if decide (previous_field_id = f_id field) then Ok ids_by_name
             else Err (FieldNameReusedWithDifferentIdentity (f_name field) previous_field_id (f_id field))
         | None => Ok (<[f_name field := f_id field]> ids_by_name)
         end);
      validate_identity_fields names_by_id ids_by_name rest
  end.

Definition validate_historical_field_identity (schema : Schema) names_by_id ids_by_name :=
  validate_identity_fields names_by_id ids_by_name (data_fields schema).

Definition schema_history_incompatible {A} (earlier later : Schema) (reason : SchemaIncompatibility)
    : result CatalogModelError A :=
  Err (SchemaHistoryIncompatible (s_version earlier) (s_version later) reason).

(** The loop over the earlier data fields consumes the later ones one by one and
    returns those left over. *)
Fixpoint check_preserved (earlier later : Schema) (earlier_fields later_fields : list Field)
    : result CatalogModelError (list Field) :=
  match earlier_fields with
  | [] => Ok later_fields
  | e :: earlier_rest =>
      let not_preserved :=
        schema_history_incompatible earlier later
          (ExistingFieldNotPreserved (f_id e) (f_name e) (f_ordinal e)) in
      match later_fields with
      | [] => not_preserved
      | l :: later_rest =>
          if decide (f_id e ≠ f_id l ∨ f_name e ≠ f_name l) then not_preserved
          else if decide (f_logical_type e ≠ f_logical_type l) then
            schema_history_incompatible earlier later
              (IncompatibleLogicalType (f_id e) (f_name e) (f_logical_type e) (f_logical_type l))
          else if decide (f_nullability e ≠ f_nullability l) then
            schema_history_incompatible earlier later
              (IncompatibleNullability (f_id e) (f_name e) (f_nullability e) (f_nullability l))
          else if decide (f_historical_remainder_pointer e ≠ f_historical_remainder_pointer l) then
            schema_history_incompatible earlier later
              (IncompatibleHistoricalRemainderPointer (f_id e) (f_name e)
                 (f_historical_remainder_pointer e) (f_historical_remainder_pointer l))
          else check_preserved earlier later earlier_rest later_rest
      end
  end.

Fixpoint check_appended (earlier later : Schema) (later_fields : list Field)
    : result CatalogModelError unit :=
  match later_fields with
  | [] => Ok tt
  | field :: rest =>
      if decide (f_nullability field ≠ Nullable) then
        schema_history_incompatible earlier later
          (AppendedFieldMustBeNullable (f_id field) (f_name field))
      else check_appended earlier later rest
  end.

Definition validate_additive_schema_evolution (earlier later : Schema)
    : result CatalogModelError unit :=
  appended ← check_preserved earlier later (data_fields earlier) (data_fields later);
  check_appended earlier later appended.

Record history_scan := {
  h_schema_indexes : gmap SchemaId nat;
  h_active_schema_index : option nat;
  h_names_by_id : gmap FieldId string;
  h_ids_by_name : gmap string FieldId;
  h_previous_version : option Z;
}.

Definition history_start : history_scan :=
  {| h_schema_indexes := ∅; h_active_schema_index := None; h_names_by_id := ∅;
     h_ids_by_name := ∅; h_previous_version := None |}.

Definition history_step (source_id : SourceId) (active_schema_id : SchemaId)
    (st : history_scan) (indexed : nat * Schema) : result CatalogModelError history_scan :=
  let '(index, schema) := indexed in
  if negb (s_source_id schema =? source_id)
  then Err (SchemaSourceMismatch (s_id schema) source_id (s_source_id schema))
  else
  let actual := s_version schema in
  _ ← (match h_previous_version st with
       | Some previous =>
           if actual <=? previous then Err (SchemaVersionsMustIncrease previous actual) else Ok tt
       | None => Ok tt
       end);
  match h_schema_indexes st !! s_id schema with
  | Some _ => Err (DuplicateSchemaIdentity (s_id schema))
  | None =>
      maps ← validate_historical_field_identity schema (h_names_by_id st) (h_ids_by_name st);
      Ok {| h_schema_indexes := <[s_id schema := index]> (h_schema_indexes st);
            h_active_schema_index :=
              if s_id schema =? active_schema_id then Some index else h_active_schema_index st;
            h_names_by_id := fst maps;
            h_ids_by_name := snd maps;
            h_previous_version := Some actual |}
  end.

(** [for pair in schemas.windows(2)] *)
Fixpoint validate_windows (schemas : list Schema) : result CatalogModelError unit :=
  match schemas with
  | earlier :: ((later :: _) as rest) =>
      _ ← validate_additive_schema_evolution earlier later;
      validate_windows rest
  | _ => Ok tt
  end.

Definition validate_schema_history (source_id : SourceId) (active_schema_id : SchemaId)
    (schemas : list Schema) : result CatalogModelError (gmap SchemaId nat * nat) :=
  st ← try_fold (history_step source_id active_schema_id) history_start (imap pair schemas);
  _ ← validate_windows schemas;
  active_schema_index ←
    ok_or (h_active_schema_index st) (ActiveSchemaNotFound source_id active_schema_id);
  Ok (h_schema_indexes st, active_schema_index).

Fixpoint check_targets (revision : IngestionProfileRevision) (schema : Schema)
    (mappings : list FieldMapping) : result CatalogModelError unit :=
  match mappings with
  | [] => Ok tt
  | mapping :: rest =>
      match schema_field schema (m_target_field_id mapping) with
      | Some field =>
          if decide (f_role field = DataRole) then check_targets revision schema rest
          else Err (ProfileMappingTargetNotFound (r_id revision) (s_id schema) (m_target_field_id mapping))
      | None =>
          Err (ProfileMappingTargetNotFound (r_id revision) (s_id schema) (m_target_field_id mapping))
      end
  end.

Fixpoint check_required (revision : IngestionProfileRevision) (schema : Schema)
    (fields : list Field) : result CatalogModelError unit :=
  match fields with
  | [] => Ok tt
  | field :: rest =>
      if existsb (λ mapping, m_target_field_id mapping =? f_id field) (p_mappings (r_profile revision))
      then check_required revision schema rest
      else Err (ProfileMappingMissing (r_id revision) (s_id schema) (f_id field))
  end.

Definition required_fields (schema : Schema) : list Field :=
  filter (λ field, f_role field = DataRole ∧ f_nullability field = NonNull) (s_fields schema).

Definition validate_profile_mappings (revision : IngestionProfileRevision) (schema : Schema)
    : result CatalogModelError unit :=
  _ ← check_targets revision schema (p_mappings (r_profile revision));
  check_required revision schema (required_fields schema).

Fixpoint validate_revisions (schema_indexes : gmap SchemaId nat) (schemas : list Schema)
    (revisions : list IngestionProfileRevision) : result CatalogModelError unit :=
  match revisions with
  | [] => Ok tt
  | revision :: rest =>
      match schema_indexes !! r_target_schema_id revision ≫= λ index, schemas !! index with
      | None => Err (ProfileTargetSchemaNotFound (r_id revision) (r_target_schema_id revision))
      | Some schema =>
          _ ← validate_profile_mappings revision schema;
          validate_revisions schema_indexes schemas rest
      end
  end.

Fixpoint validate_inputs_loop (source_id : SourceId) (schema_indexes : gmap SchemaId nat)
    (schemas : list Schema) (input_ids : gset InputId) (input_names : gset string)
    (inputs : list Input) : result CatalogModelError unit :=
  match inputs with
  | [] => Ok tt
  | input :: rest =>
      if negb (i_source_id input =? source_id)
      then Err (InputSourceMismatch (i_id input) source_id (i_source_id input))
      else if decide (i_id input ∈ input_ids) then Err (DuplicateInputIdentity (i_id input))
      else if decide (i_name input ∈ input_names) then Err (DuplicateInputName (i_name input))
      else
      _ ← validate_revisions schema_indexes schemas (i_profile_revisions input);
      validate_inputs_loop source_id schema_indexes schemas
        ({[i_id input]} ∪ input_ids) ({[i_name input]} ∪ input_names) rest
  end.

Definition validate_inputs source_id schema_indexes schemas inputs :=
  validate_inputs_loop source_id schema_indexes schemas ∅ ∅ inputs.

Definition Source_new (id : SourceId) (name display_name : string) (declaration : Digest)
    (active_schema_id : SchemaId) (schemas : list Schema) (inputs : list Input)
    : result CatalogModelError Source :=
  match schemas with
  | [] => Err EmptySchemaHistory
  | _ =>
      indexes ← validate_schema_history id active_schema_id schemas;
      _ ← validate_inputs id (fst indexes) schemas inputs;
      Ok {| src_id := id; src_name := name; src_display_name := display_name;
            src_declaration_digest := declaration; src_schemas := schemas;
            src_active_schema_index := snd indexes; src_inputs := inputs |}
  end.

(** ** Additive evolution *)

(** What a later schema version must keep of an earlier data field. *)
Record preserved (e l : Field) : Prop := {
  pres_id : f_id e = f_id l;
  pres_name : f_name e = f_name l;
  pres_type : f_logical_type e = f_logical_type l;
  pres_null : f_nullability e = f_nullability l;
  pres_pointer : f_historical_remainder_pointer e = f_historical_remainder_pointer l;
}.

(** The specification of additive evolution: the earlier data fields are kept, in
    order, as a prefix, and every appended field is nullable. *)
Definition Evolves (earlier later : Schema) : Prop :=
  ∃ kept appended,
    data_fields later = kept ++ appended ∧
    Forall2 preserved (data_fields earlier) kept ∧
    Forall (λ f, f_nullability f = Nullable) appended.

#[export] Instance preserved_refl : Reflexive preserved.
Proof. by constructor. Qed.

#[export] Instance preserved_trans : Transitive preserved.
Proof. intros a b c [] []. constructor; congruence. Qed.

Lemma check_preserved_Ok a b es ls rest :
  check_preserved a b es ls = Ok rest ↔ ∃ kept, ls = kept ++ rest ∧ Forall2 preserved es kept.
Proof.
  revert ls; induction es as [|e es IH]; intros ls; simpl.
  - split; [intros [= ->]; exists []; split; [done | constructor] | intros (? & -> & H)]. by inversion H.
  - destruct ls as [|l ls].
    { split; [done|]. intros ([|] & Hk & H); [by inversion H | done]. }
    repeat case_decide.
    1-4: split; [done|]; intros (kept & Hk & H'); inversion H' as [|? ? ? ? []]; simplify_eq/=; naive_solver.
    rewrite IH. split.
    + intros (kept & -> & Hk). exists (l :: kept). split; [done|]. constructor; [|done].
      constructor; apply dec_stable; tauto.
    + intros (kept & Hk & H'). inversion H'; simplify_eq/=. eauto.
Qed.

Lemma check_appended_Ok a b ls :
  check_appended a b ls = Ok tt ↔ Forall (λ f, f_nullability f = Nullable) ls.
Proof.
  induction ls as [|l ls IH]; simpl; [split; [constructor | done]|].
  rewrite Forall_cons. case_decide; [naive_solver|]. rewrite IH.
  split; [intros ?; split; [apply dec_stable; tauto | done] | naive_solver].
Qed.

Lemma validate_additive_Ok a b : validate_additive_schema_evolution a b = Ok tt ↔ Evolves a b.
Proof.
  unfold validate_additive_schema_evolution, Evolves. rewrite bind_Ok. split.
  - intros (app & Hp & Ha). apply check_preserved_Ok in Hp as (kept & ? & ?).
    apply check_appended_Ok in Ha. eauto.
  - intros (kept & app & Hd & Hk & Ha). exists app.
    rewrite check_preserved_Ok, check_appended_Ok. eauto.
Qed.

Lemma Evolves_refl a : Evolves a a.
Proof.
  exists (data_fields a), []. rewrite app_nil_r. split_and!; [done | | constructor].
  induction (data_fields a); constructor; done.
Qed.

#[export] Instance Evolves_trans : Transitive Evolves.
Proof.
  intros a b c (k1 & p1 & Hb & Hk1 & Hp1) (k2 & p2 & Hc & Hk2 & Hp2).
  rewrite Hb in Hk2. apply Forall2_app_inv_l in Hk2 as (k2a & k2b & Ha & Hb' & ->).
  exists k2a, (k2b ++ p2). rewrite app_assoc. split_and!; [done | by etransitivity |].
  rewrite Forall_app. split; [|done].
  clear -Hp1 Hb'. induction Hb' as [|x y ? ? [] ? IH]; [constructor|].
  inversion_clear Hp1. constructor; [congruence | auto].
Qed.

Lemma validate_windows_Ok l :
  validate_windows l = Ok tt ↔
  ∀ i a b, l !! i = Some a → l !! S i = Some b → Evolves a b.
Proof.
  induction l as [|x [|y l] IH].
  - split; [intros _ i a b H; by rewrite lookup_nil in H | done].
  - split; [|done]. intros _ [|i] a b Ha Hb; simpl in Hb; by rewrite ?lookup_nil in Hb.
  - change (validate_windows (x :: y :: l)) with
      (_ ← validate_additive_schema_evolution x y; validate_windows (y :: l)).
    rewrite bind_Ok. split.
    + intros ([] & Hxy & Hl). apply validate_additive_Ok in Hxy. rewrite IH in Hl.
      intros [|i] a b Ha Hb; [by simplify_eq/= | by eapply (Hl i)].
    + intros H. exists tt. split; [apply validate_additive_Ok; by apply (H 0%nat)|].
      apply IH. intros i a b Ha Hb. by apply (H (S i)).
Qed.

(** Evolution holds between any two versions of a validated history, not only
    adjacent ones. *)
Lemma windows_evolves l i j a b :
  validate_windows l = Ok tt → (i ≤ j)%nat → l !! i = Some a → l !! j = Some b → Evolves a b.
Proof.
  intros Hw Hij Ha. rewrite validate_windows_Ok in Hw. revert b.
  induction Hij as [|j Hij IH]; intros b Hb; [simplify_eq; apply Evolves_refl|].
  destruct (lookup_lt_is_Some_2 l j) as [c Hc]; [apply lookup_lt_Some in Hb; lia|].
  etransitivity; [by apply IH | by eapply Hw].
Qed.

(** ** Stable field identities *)

(** The two maps of [validate_schema_history] are inverse of each other. *)
Definition inverse_maps (n : gmap FieldId string) (m : gmap string FieldId) : Prop :=
  ∀ id name, n !! id = Some name ↔ m !! name = Some id.

Lemma validate_identity_fields_Ok n m fs n' m' :
  inverse_maps n m →
  validate_identity_fields n m fs = Ok (n', m') →
  inverse_maps n' m' ∧ n ⊆ n' ∧ Forall (λ f, n' !! f_id f = Some (f_name f)) fs.
Proof.
  revert n m; induction fs as [|f fs IH]; intros n m Hinv H.
  - simpl in H. simplify_eq. split_and!; [done | done | constructor].
  - cbn [validate_identity_fields] in H.
    destruct (n !! f_id f) as [pn|] eqn:En.
    + case_decide; [subst pn | by inv_ok]. rewrite bind_ret in H.
      rewrite (proj1 (Hinv _ _) En), decide_True, bind_ret in H by done.
      destruct (IH _ _ Hinv H) as (? & Hsub & ?). split_and!; [done | done |].
      constructor; [by eapply lookup_weaken | done].
    + rewrite bind_ret in H. destruct (m !! f_name f) as [pid|] eqn:Em.
      * case_decide; [|by inv_ok]. subst pid. apply Hinv in Em. congruence.
      * rewrite bind_ret in H. eapply IH in H as (? & Hsub & ?).
        -- split_and!; [done | |].
           ++ etransitivity; [|exact Hsub]. by apply insert_subseteq.
           ++ constructor; [|done]. eapply lookup_weaken; [|exact Hsub]. by rewrite lookup_insert_eq.
        -- intros id name. rewrite !lookup_insert. specialize (Hinv id name).
           repeat case_decide; naive_solver.
Qed.

(** ** The history scan *)

Record history_inv (source_id : SourceId) (active_id : SchemaId) (seen : list Schema)
    (st : history_scan) : Prop := {
  hi_source : Forall (λ s, s_source_id s = source_id) seen;
  hi_versions : StronglySorted Z.lt (s_version <$> seen);
  hi_previous : h_previous_version st = last (s_version <$> seen);
  hi_indexes : ∀ id i, h_schema_indexes st !! id = Some i ↔ ∃ s, seen !! i = Some s ∧ s_id s = id;
  hi_active : ∀ i, h_active_schema_index st = Some i → ∃ s, seen !! i = Some s ∧ s_id s = active_id;
  hi_maps : inverse_maps (h_names_by_id st) (h_ids_by_name st);
  hi_fields : ∀ s f, s ∈ seen → f ∈ data_fields s → h_names_by_id st !! f_id f = Some (f_name f);
}.

Lemma StronglySorted_snoc (l : list Z) x :
  StronglySorted Z.lt l → (∀ y, last l = Some y → y < x) → StronglySorted Z.lt (l ++ [x]).
Proof.
  intros Hs Hlast. induction Hs as [|y l Hs IH Hall]; simpl; [repeat constructor|].
  assert (Hyx : y < x).
  { destruct (last l) as [z|] eqn:E.
    - specialize (Hlast z). rewrite last_cons, E in Hlast. specialize (Hlast eq_refl).
      rewrite Forall_forall in Hall. specialize (Hall z (last_Some_elem_of _ _ E)). lia.
    - apply Hlast. by rewrite last_cons, E. }
  constructor.
  - apply IH. intros z Hz. apply Hlast. by rewrite last_cons, Hz.
  - rewrite Forall_app. split; [done | by repeat constructor].
Qed.

Lemma history_step_inv source_id active_id seen st schema st' :
  history_inv source_id active_id seen st →
  history_step source_id active_id st (length seen, schema) = Ok st' →
  history_inv source_id active_id (seen ++ [schema]) st'.
Proof.
  intros [Hsrc Hver Hprev Hidx Hact Hmaps Hfields] H. unfold history_step in H.
  destruct (Z.eqb_spec (s_source_id schema) source_id) as [Hs|]; [|done]. simpl in H.
  apply bind_Ok in H as ([] & Hv & H).
  destruct (h_schema_indexes st !! s_id schema) eqn:Hfresh; [done|].
  apply bind_Ok in H as ([n' m'] & Hid & [= <-]). simpl.
  unfold validate_historical_field_identity in Hid.
  apply validate_identity_fields_Ok in Hid as (Hmaps' & Hsub & Hf); [|done].
  constructor; simpl; try done.
  - rewrite Forall_app. split; [done | by repeat constructor].
  - rewrite fmap_app. apply StronglySorted_snoc; [done|]. intros y Hy. rewrite <- Hprev in Hy.
    rewrite Hy in Hv. destruct (Z.leb_spec (s_version schema) y); [done | lia].
  - rewrite fmap_app. simpl. by rewrite last_snoc.
  - intros id i. rewrite lookup_insert. case_decide as Hd.
    + subst id. split.
      * intros [= <-]. exists schema. by rewrite lookup_app_r, Nat.sub_diag by lia.
      * intros (s & Hs' & Hids). apply lookup_app_Some in Hs' as [Hs'|[Hle Hs']].
        -- assert (h_schema_indexes st !! s_id schema = Some i) by (apply Hidx; eauto). congruence.
        -- apply list_lookup_singleton_Some in Hs' as [? _]. f_equal. lia.
    + rewrite Hidx. split; intros (s & Hs' & Hids).
      * exists s. by rewrite lookup_app_l by (by eapply lookup_lt_Some).
      * apply lookup_app_Some in Hs' as [Hs'|[_ Hs']]; [eauto|].
        apply list_lookup_singleton_Some in Hs' as [_ <-]. done.
  - intros i. destruct (Z.eqb_spec (s_id schema) active_id).
    + intros [= <-]. exists schema. by rewrite lookup_app_r, Nat.sub_diag by lia.
    + intros (s & ? & ?)%Hact. exists s. by rewrite lookup_app_l by (by eapply lookup_lt_Some).
  - intros s f Hs' Hfs. rewrite elem_of_app in Hs'. destruct Hs' as [Hs'|Hs'].
    + eapply lookup_weaken; [by eapply Hfields | done].
    + apply list_elem_of_singleton in Hs' as ->. rewrite Forall_forall in Hf. by apply Hf.
Qed.

Lemma history_start_inv source_id active_id : history_inv source_id active_id [] history_start.
Proof.
  constructor; simpl; try done; try constructor.
  - done.
  - intros (s & Hs & _). done.
  - intros s f Hs. by apply not_elem_of_nil in Hs.
Qed.

Lemma history_fold_inv source_id active_id seen l st st' :
  history_inv source_id active_id seen st →
  try_fold (history_step source_id active_id) st
    (imap (λ i s, (length seen + i, s)%nat) l) = Ok st' →
  history_inv source_id active_id (seen ++ l) st'.
Proof.
  revert seen st; induction l as [|s l IH]; intros seen st Hi H.
  - simpl in H. simplify_eq. by rewrite app_nil_r.
  - rewrite imap_cons in H. cbn [try_fold] in H. rewrite Nat.add_0_r in H.
    apply bind_Ok in H as (st1 & Hst & H).
    rewrite (app_assoc seen [s] l : seen ++ s :: l = _). eapply IH.
    + by eapply history_step_inv.
    + rewrite <- H. f_equal. apply imap_ext. intros. rewrite length_app. simpl. f_equal. lia.
Qed.

(** ** Profiles against their target schema *)

(** Every mapping targets a data field of the schema and every required data
    field is mapped. *)
Record mapping_complete (revision : IngestionProfileRevision) (schema : Schema) : Prop := {
  mc_targets : ∀ m, m ∈ p_mappings (r_profile revision) →
    ∃ f, f ∈ data_fields schema ∧ f_id f = m_target_field_id m;
  mc_required : ∀ f, f ∈ data_fields schema → f_nullability f = NonNull →
    ∃ m, m ∈ p_mappings (r_profile revision) ∧ m_target_field_id m = f_id f;
}.

Lemma elem_of_data_fields f s : f ∈ data_fields s ↔ f ∈ s_fields s ∧ f_role f = DataRole.
Proof.
  unfold data_fields, is_data. rewrite list_elem_of_filter, bool_decide_spec. naive_solver.
Qed.

Lemma check_targets_Ok r s ms :
  check_targets r s ms = Ok tt →
  Forall (λ m, ∃ f, f ∈ data_fields s ∧ f_id f = m_target_field_id m) ms.
Proof.
  induction ms as [|m ms IH]; simpl; [constructor|].
  destruct (schema_field s (m_target_field_id m)) as [f|] eqn:E; [|done].
  case_decide; [|done]. intros H'. constructor; [|by apply IH].
  apply find_Some in E as [? ?%Z.eqb_eq]. exists f. by rewrite elem_of_data_fields.
Qed.

Lemma check_required_Ok r s fs :
  check_required r s fs = Ok tt →
  Forall (λ f, ∃ m, m ∈ p_mappings (r_profile r) ∧ m_target_field_id m = f_id f) fs.
Proof.
  induction fs as [|f fs IH]; simpl; [constructor|].
  destruct (existsb _ _) eqn:E; [|done]. intros H. constructor; [|by apply IH].
  apply existsb_exists in E as (m & ? & ?%Z.eqb_eq). exists m. by rewrite list_elem_of_In.
Qed.

Lemma validate_profile_mappings_Ok r s :
  validate_profile_mappings r s = Ok tt → mapping_complete r s.
Proof.
  intros H. unfold validate_profile_mappings in H. apply bind_Ok in H as ([] & Ht & Hr).
  apply check_targets_Ok in Ht. apply check_required_Ok in Hr. rewrite Forall_forall in Ht. rewrite Forall_forall in Hr.
  split; [done|]. intros f Hf Hn. apply Hr. unfold required_fields.
  apply elem_of_data_fields in Hf as [??]. by rewrite list_elem_of_filter.
Qed.

Lemma validate_revisions_Ok idx schemas rs :
  validate_revisions idx schemas rs = Ok tt →
  Forall (λ r, ∃ i s, idx !! r_target_schema_id r = Some i ∧ schemas !! i = Some s ∧
                      mapping_complete r s) rs.
Proof.
  induction rs as [|r rs IH]; simpl; [constructor|].
  destruct (idx !! r_target_schema_id r) as [i|] eqn:Ei; simpl; [|done].
  destruct (schemas !! i) as [s|] eqn:Es; [|done]. intros H. apply bind_Ok in H as ([] & Hm & H).
  constructor; [|by apply IH]. apply validate_profile_mappings_Ok in Hm. eauto.
Qed.

Lemma validate_inputs_loop_Ok src idx schemas ids names l :
  validate_inputs_loop src idx schemas ids names l = Ok tt →
  NoDup (i_id <$> l) ∧ NoDup (i_name <$> l) ∧
  Forall (λ i, i_id i ∉ ids ∧ i_name i ∉ names ∧ i_source_id i = src ∧
               validate_revisions idx schemas (i_profile_revisions i) = Ok tt) l.
Proof.
  revert ids names; induction l as [|i l IH]; intros ids names; simpl.
  - intros _. split_and!; constructor.
  - destruct (Z.eqb_spec (i_source_id i) src); [|done]. simpl.
    case_decide; [done|]. case_decide; [done|]. intros Hr. apply bind_Ok in Hr as ([] & Hr & Hl).
    apply IH in Hl as (H1 & H2 & H3). rewrite !NoDup_cons, Forall_cons, !list_elem_of_fmap.
    rewrite Forall_forall in H3 |- *. split_and!; try done; [| |].
    + intros (x & Hx & Hin). apply H3 in Hin as (Hin & _). set_solver.
    + intros (x & Hx & Hin). apply H3 in Hin as (_ & Hin & _). set_solver.
    + intros x Hx. apply H3 in Hx as (? & ? & ? & ?). set_solver.
Qed.

(** ** The invariant of a [Source] *)

Record Source_wf (s : Source) : Prop := {
  (** Every schema belongs to the source and versions strictly increase. *)
  swf_owned : Forall (λ x, s_source_id x = src_id s) (src_schemas s);
  swf_versions : StronglySorted Z.lt (s_version <$> src_schemas s);
  swf_schema_ids : NoDup (s_id <$> src_schemas s);
  (** Any later version evolves additively from any earlier one. *)
  swf_evolves : ∀ i j a b, (i ≤ j)%nat →
    src_schemas s !! i = Some a → src_schemas s !! j = Some b → Evolves a b;
  (** Field identities and names determine each other across the history. *)
  swf_identity : ∀ a b f g, a ∈ src_schemas s → b ∈ src_schemas s →
    f ∈ data_fields a → g ∈ data_fields b → f_id f = f_id g ↔ f_name f = f_name g;
  (** The active index is in range. *)
  swf_active : ∃ a, active_schema s = Some a;
  (** Inputs belong to the source, are distinct, and their revisions resolve. *)
  swf_inputs_owned : Forall (λ i, i_source_id i = src_id s) (src_inputs s);
  swf_input_ids : NoDup (i_id <$> src_inputs s);
  swf_input_names : NoDup (i_name <$> src_inputs s);
  swf_revisions : ∀ i r, i ∈ src_inputs s → r ∈ i_profile_revisions i →
    ∃ a, source_schema s (r_target_schema_id r) = Some a ∧ mapping_complete r a;
}.

Lemma history_identity src act seen st a b f g :
  history_inv src act seen st →
  a ∈ seen → b ∈ seen → f ∈ data_fields a → g ∈ data_fields b →
  f_id f = f_id g ↔ f_name f = f_name g.
Proof.
  intros Hi Ha Hb Hf Hg.
  pose proof (hi_fields _ _ _ _ Hi _ _ Ha Hf) as Ef.
  pose proof (hi_fields _ _ _ _ Hi _ _ Hb Hg) as Eg.
  split; [congruence|]. intros Hn. apply (hi_maps _ _ _ _ Hi) in Ef, Eg. congruence.
Qed.

Lemma history_NoDup src act seen st : history_inv src act seen st → NoDup (s_id <$> seen).
Proof.
  intros Hi. apply NoDup_alt. intros i j x Hix Hjx.
  apply list_lookup_fmap_Some in Hix as (a & ? & Ha), Hjx as (b & ? & Hb).
  assert (h_schema_indexes st !! x = Some i) by (apply (hi_indexes _ _ _ _ Hi); eauto).
  assert (h_schema_indexes st !! x = Some j) by (apply (hi_indexes _ _ _ _ Hi); eauto).
  congruence.
Qed.

Lemma find_schema_unique (l : list Schema) i s :
  NoDup (s_id <$> l) → l !! i = Some s → find (λ x, s_id x =? s_id s) l = Some s.
Proof.
  intros Hnd Hi. apply list_elem_of_lookup_2 in Hi.
  induction l as [|x l IH]; simpl in *; [by apply not_elem_of_nil in Hi|].
  rewrite NoDup_cons, list_elem_of_fmap in Hnd. destruct Hnd as [Hx Hnd].
  destruct (Z.eqb_spec (s_id x) (s_id s)).
  - apply elem_of_cons in Hi as [->|Hi]; [done|]. exfalso. eauto.
  - apply elem_of_cons in Hi as [->|Hi]; [done|]. auto.
Qed.

Lemma Source_new_invariant id name display_name declaration active_schema_id schemas inputs s :
  Source_new id name display_name declaration active_schema_id schemas inputs = Ok s →
  Source_wf s ∧ (∃ a, active_schema s = Some a ∧ s_id a = active_schema_id).
Proof.
  unfold Source_new. intros H.
  assert (Hne : schemas ≠ []) by (destruct schemas; done).
  assert (H' : (indexes ← validate_schema_history id active_schema_id schemas;
      _ ← validate_inputs id (fst indexes) schemas inputs;
      Ok {| src_id := id; src_name := name; src_display_name := display_name;
            src_declaration_digest := declaration; src_schemas := schemas;
            src_active_schema_index := snd indexes; src_inputs := inputs |}) = Ok s)
    by (destruct schemas; done). clear H.
  apply bind_Ok in H' as ([idx act] & Hh & H). apply bind_Ok in H as ([] & Hin & [= <-]).
  unfold validate_schema_history in Hh. apply bind_Ok in Hh as (st & Hfold & Hh).
  apply bind_Ok in Hh as ([] & Hw & Hh). inv_ok.
  assert (Hi : history_inv id active_schema_id schemas st).
  { apply (history_fold_inv id active_schema_id [] schemas history_start st);
      [apply history_start_inv | done]. }
  apply validate_inputs_loop_Ok in Hin as (Hids & Hnames & Hall). rewrite Forall_forall in Hall.
  match goal with H : h_active_schema_index st = Some _ |- _ =>
    destruct (hi_active _ _ _ _ Hi _ H) as (a & Ha & Hact) end.
  pose proof (history_NoDup _ _ _ _ Hi) as Hnd.
  split; [|exists a; done]. constructor; simpl; try done.
  - by apply Hi.
  - by apply Hi.
  - intros i j x y Hij Hx Hy. by eapply windows_evolves.
  - intros a1 b1 f g Ha1 Hb1 Hf Hg. exact (history_identity _ _ _ _ _ _ _ _ Hi Ha1 Hb1 Hf Hg).
  - by exists a.
  - rewrite Forall_forall. intros i Hi'. by apply Hall.
  - intros i r Hi' Hr. destruct (Hall i Hi') as (_ & _ & _ & Hv).
    apply validate_revisions_Ok in Hv. rewrite Forall_forall in Hv.
    destruct (Hv r Hr) as (k & x & Hk & Hx & Hm). exists x. split; [|done].
    apply (hi_indexes _ _ _ _ Hi) in Hk as (y & Hy & Hyid). simplify_eq.
    rewrite <- Hyid. unfold source_schema. simpl. by eapply find_schema_unique.
Qed.

(** A value that [Source::new] returns satisfies the source invariant:
    one owner, strictly increasing versions, additive evolution between any two
    versions, a bijection between field identities and names over the whole
    history, an active schema in range, and ingestion profiles whose target
    schema exists and is completely mapped. *)
Theorem Source_new_wf id name display_name declaration active_schema_id schemas inputs s :
  Source_new id name display_name declaration active_schema_id schemas inputs = Ok s →
  Source_wf s ∧ (∃ a, active_schema s = Some a ∧ s_id a = active_schema_id).
Proof. apply Source_new_invariant. Qed.

Lemma scan_revisions_Ok id act n ids found prev rs res :
  scan_revisions id act n ids found prev rs = Ok res →
  Forall (λ r, r_input_id r = id) rs ∧ NoDup (r_id <$> rs) ∧
  Forall (λ r, r_id r ∉ ids) rs ∧
  StronglySorted Z.lt (r_revision <$> rs) ∧
  (∀ p, prev = Some p → Forall (λ r, p < r_revision r) rs) ∧
  (res = found ∨ ∃ k r, rs !! k = Some r ∧ r_id r = act ∧ res = Some (n + k)%nat).
Proof.
  revert n ids found prev; induction rs as [|r rs IH]; intros n ids found prev H.
  - simpl in H. simplify_eq. split_and!; try constructor. naive_solver.
  - cbn [scan_revisions] in H. destruct (Z.eqb_spec (r_input_id r) id); [|done].
    cbn [negb] in H. apply bind_Ok in H as ([] & Hprev & H). case_decide as Hfresh; [done|].
    apply IH in H as (H1 & H2 & H3 & H4 & H5 & H6). specialize (H5 _ eq_refl).
    rewrite fmap_cons, NoDup_cons, !Forall_cons. rewrite Forall_forall in H3. rewrite Forall_forall in H5.
    split_and!; try done.
    + rewrite list_elem_of_fmap. intros (x & Hx & Hin). apply H3 in Hin. set_solver.
    + rewrite Forall_forall. intros x Hx. apply H3 in Hx. set_solver.
    + rewrite fmap_cons. constructor; [done|]. apply Forall_fmap, Forall_forall. exact H5.
    + intros p ->. destruct (Z.leb_spec (r_revision r) p); [done|].
      apply Forall_cons. split; [lia|]. rewrite Forall_forall. intros x Hx. apply H5 in Hx. lia.
    + destruct H6 as [->|(k & x & Hk & Hx & ->)].
      * destruct (Z.eqb_spec (r_id r) act); [|by left].
        right. exists 0%nat, r. by rewrite Nat.add_0_r.
      * right. exists (S k), x. split_and!; [done | done |]. f_equal. lia.
Qed.

(** An input that [Input::new] returns has revisions of its own with
    strictly increasing numbers and distinct identities, and its active index
    points at the revision that was declared active. *)
Theorem Input_new_wf id source_id name d m active rs input :
  Input_new id source_id name d m active rs = Ok input →
  Forall (λ r, r_input_id r = id) (i_profile_revisions input) ∧
  StronglySorted Z.lt (r_revision <$> i_profile_revisions input) ∧
  NoDup (r_id <$> i_profile_revisions input) ∧
  ∃ r, active_profile_revision input = Some r ∧ r_id r = active.
Proof.
  unfold Input_new. destruct rs as [|r0 rs']; [done|]. remember (r0 :: rs') as rs.
  intros H. apply bind_Ok in H as (o & Hscan & H). apply bind_Ok in H as (i & Ho & [= <-]).
  apply ok_or_Ok in Ho as ->. apply scan_revisions_Ok in Hscan as (H1 & H2 & _ & H4 & _ & H6).
  split_and!; try done. destruct H6 as [|(k & r & Hk & Hr & [= ->])]; [done|].
  exists r. done.
Qed.

Definition sample_revision : IngestionProfileRevision :=
  {| r_id := 20; r_input_id := 10; r_revision := 1; r_target_schema_id := 1;
     r_declaration_digest := []; r_materialized_digest := [];
     r_profile := {| p_maximum_record_bytes := 1024;
       p_event_time := {| et_json_pointer := ["time"%string]; et_format := Rfc3339 |};
       p_mappings := [ {| m_target_field_id := 100; m_json_pointer := ["status"%string] |} ] |} |}.

Definition sample_input : Input :=
  {| i_id := 10; i_source_id := 2; i_name := "edge"; i_declaration_digest := [];
     i_materialized_digest := []; i_profile_revisions := [sample_revision];
     i_active_profile_revision_index := 0 |}.

(** The sample schema without its appended nullable field. *)
Definition sample_earlier : Schema :=
  {| s_id := 1; s_source_id := 2; s_version := 1; s_declaration_digest := [];
     s_materialized_digest := []; s_fields := layout (take 1 sample_fields) |}.
Definition sample_later : Schema :=
  {| s_id := 4; s_source_id := 2; s_version := 3; s_declaration_digest := [];
     s_materialized_digest := []; s_fields := layout sample_fields |}.

Definition sample_source : Source :=
  {| src_id := 2; src_name := "web"; src_display_name := "Web"; src_declaration_digest := [];
     src_schemas := [sample_earlier; sample_later]; src_active_schema_index := 1;
     src_inputs := [sample_input] |}.

Lemma Source_new_wf_witness :
  Source_wf sample_source ∧ (∃ a, active_schema sample_source = Some a ∧ s_id a = 4).
Proof.
  apply (Source_new_wf 2 "web" "Web" [] 4 [sample_earlier; sample_later] [sample_input]).
  vm_compute. reflexivity.
Defined.

Lemma Input_new_wf_witness : ∃ r, active_profile_revision sample_input = Some r ∧ r_id r = 20.
Proof.
  refine (proj2 (proj2 (proj2 (Input_new_wf 10 2 "edge" [] [] 20 [sample_revision] sample_input _)))).
  vm_compute. reflexivity.
Defined.
