(* ===== verification/Syntax.v ===== *)
(** * elucid-language: spans and the abstract syntax tree

    Models src/elucid/elucid-language/src/{span,ast}.rs. An AST node of the code is
    a struct of a kind and a span; here an [expression] is one inductive type whose
    constructors are the variants of [ExpressionKind], each with the span of the
    node as its last argument. *)

From S2P Require Import Prelude.

(** Byte offsets into the query text, [start..end]. *)
Record Span := { start : nat; end_ : nat }.

#[export] Instance Span_eq_dec : EqDecision Span.
Proof. solve_decision. Defined.

Module ast.

Record Identifier := { id_value : string; id_span : Span }.

(** A [SystemIdentifier] has the shape of an [Identifier]; its value keeps the
    leading ['@']. *)
Inductive FieldReference :=
| User (identifier : Identifier)
| System (identifier : Identifier).

Definition as_str (r : FieldReference) : string :=
  match r with User i => id_value i | System i => id_value i end.

Definition reference_span (r : FieldReference) : Span :=
  match r with User i => id_span i | System i => id_span i end.

Record StringLiteral := { sl_value : string; sl_span : Span }.

(** [Integer] carries a [u64]; [FloatingPoint] keeps the token's text. *)
Inductive LiteralKind :=
| Null
| Boolean (value : bool)
| Integer (magnitude : Z)
| FloatingPoint (text : string)
| Str (value : string).

Record Literal := { l_kind : LiteralKind; l_span : Span }.

Inductive NumericSign := NonNegative | Negative.

#[global] Instance NumericSign_eq_dec : EqDecision NumericSign.
Proof. solve_decision. Defined.

Inductive NumericLiteralKind :=
| NInteger (magnitude : Z)
| NFloatingPoint (text : string).

Record SignedNumericLiteral := {
  sn_sign : NumericSign; sn_kind : NumericLiteralKind; sn_span : Span }.

Record SignedIntegerLiteral := {
  si_sign : NumericSign; si_magnitude : Z; si_span : Span }.

Inductive NumericType := NInt32 | NInt64 | NUInt32 | NUInt64 | NFloat32 | NFloat64.

Inductive LogicalType :=
| Bool | Int32 | Int64 | UInt32 | UInt64 | Float32 | Float64 | Utf8 | Datetime | Eid | Json.

Inductive ConstructorKind :=
| Numeric (target : NumericType) (literal : SignedNumericLiteral)
| DatetimeConstructor (value : StringLiteral)
| EidConstructor (value : StringLiteral).

Record Constructor_ := { c_kind : ConstructorKind; c_span : Span }.

Inductive CastKind := Strict | NullOnFailure.

Inductive RemainderFunction := Value | Exists.

Record RemainderExpression := {
  re_function : RemainderFunction; re_key : StringLiteral; re_span : Span }.

Inductive UnaryOperator := Not | Negate.

Inductive BinaryOperator :=
| Add | Subtract | Multiply | Divide
| Equal | NotEqual | GreaterThan | GreaterThanOrEqual | LessThan | LessThanOrEqual
| And | Or.

#[global] Instance BinaryOperator_eq_dec : EqDecision BinaryOperator.
Proof. solve_decision. Defined.

(** [Expression] with the variants of [ExpressionKind]; a [CastExpression] is
    inlined, with its own span before the node's. *)
Inductive Expression :=
| ELiteral (literal : Literal) (span : Span)
| EField (reference : FieldReference) (span : Span)
| EConstructor (constructor : Constructor_) (span : Span)
| ECast (kind : CastKind) (expression : Expression) (target : LogicalType)
    (cast_span : Span) (span : Span)
| ERemainder (access : RemainderExpression) (span : Span)
| EUnary (operator : UnaryOperator) (operand : Expression) (span : Span)
| EBinary (operator : BinaryOperator) (left right : Expression) (span : Span).

Definition expression_span (e : Expression) : Span :=
  match e with
  | ELiteral _ s | EField _ s | EConstructor _ s | ECast _ _ _ _ s | ERemainder _ s
  | EUnary _ _ s | EBinary _ _ _ s => s
  end.

Definition with_span (e : Expression) (s : Span) : Expression :=
  match e with
  | ELiteral l _ => ELiteral l s
  | EField r _ => EField r s
  | EConstructor c _ => EConstructor c s
  | ECast k e t cs _ => ECast k e t cs s
  | ERemainder a _ => ERemainder a s
  | EUnary o e _ => EUnary o e s
  | EBinary o l r _ => EBinary o l r s
  end.

Inductive TimeUnit := Second | Minute | Hour | Day.

Inductive TimeDirection := Forward | Backward.

(** The magnitude of a shift is a [NonZeroU64]. *)
Inductive TimeOperationKind :=
| Truncate (unit : TimeUnit)
| Shift (direction : TimeDirection) (magnitude : Z) (unit : TimeUnit).

Record TimeOperation := { to_kind : TimeOperationKind; to_span : Span }.

Inductive TimeExpressionKind :=
| TDatetime (value : StringLiteral)
| Now
| Relative (operations : list TimeOperation).

Record TimeExpression := { te_kind : TimeExpressionKind; te_span : Span }.

Record SourceExpression := {
  se_name : Identifier;
  se_start_inclusive : option TimeExpression;
  se_end_exclusive : option TimeExpression;
  se_span : Span }.

Record ComputedProjection := {
  cp_alias : Identifier; cp_expression : Expression; cp_span : Span }.

Inductive Projection :=
| PField (reference : FieldReference)
| Computed (projection : ComputedProjection)
| Unaliased (expression : Expression).

Inductive SortDirection := Ascending | Descending.

Record SortItem := {
  so_field : FieldReference; so_direction : SortDirection; so_span : Span }.

Inductive AggregateFunction := Count | Sum | Min | Max | Avg.

Record AggregateCall := {
  ac_function : AggregateFunction; ac_argument : option FieldReference; ac_span : Span }.

Record Measure := {
  me_alias : option Identifier; me_aggregate : AggregateCall; me_span : Span }.

Inductive StageKind :=
| Filter (expression : Expression)
| Project (projections : list Projection)
| Sort (items : list SortItem)
| Take (value : SignedIntegerLiteral)
| Summarize (measures : list Measure) (group_by : list FieldReference).

Record Stage := { st_kind : StageKind; st_span : Span }.

Record Query := { q_source : SourceExpression; q_stages : list Stage; q_span : Span }.

(** Every magnitude a token can carry is a [u64]; a property of parsed trees. *)
Fixpoint magnitudes_fit (e : Expression) : Prop :=
  match e with
  | ELiteral {| l_kind := Integer n |} _ => fits U64 n = true
  | EConstructor {| c_kind := Numeric _ {| sn_kind := NInteger n |} |} _ => fits U64 n = true
  | ECast _ e _ _ _ => magnitudes_fit e
  | EUnary _ e _ => magnitudes_fit e
  | EBinary _ l r _ => magnitudes_fit l ∧ magnitudes_fit r
  | _ => True
  end.

End ast.
