(* ===== verification/Floats.v ===== *)
(** * IEEE 754 binary floating point as the code uses it

    Rust's [f32] and [f64] with the operations of
    src/elucid/elucid-language/src/semantic/expression.rs: conversion from an
    unsigned integer ([as f32], [as f64]), widening ([f64::from]), arithmetic,
    comparison, negation, [is_finite] and [str::parse].  The carrier is the Standard
    Library's executable [spec_float] at precision 24 / 53 and maximal exponent
    128 / 1024; every operation rounds to nearest, ties to even. *)

From Stdlib Require Import Floats.SpecFloat.
From S2P Require Import Prelude.

Open Scope Z_scope.

Inductive float_ty := F32 | F64.

(** [f32::MANTISSA_DIGITS], [f64::MANTISSA_DIGITS] *)
Definition mantissa_digits (t : float_ty) : Z := match t with F32 => 24 | F64 => 53 end.
Definition max_exponent (t : float_ty) : Z := match t with F32 => 128 | F64 => 1024 end.

Definition float := spec_float.

Definition is_finite (x : float) : bool :=
  match x with S754_zero _ | S754_finite _ _ _ => true | S754_infinity _ | S754_nan => false end.

Definition fneg (x : float) : float := SFopp x.
Definition fadd t : float → float → float := SFadd (mantissa_digits t) (max_exponent t).
Definition fsub t : float → float → float := SFsub (mantissa_digits t) (max_exponent t).
Definition fmul t : float → float → float := SFmul (mantissa_digits t) (max_exponent t).
Definition fdiv t : float → float → float := SFdiv (mantissa_digits t) (max_exponent t).
Definition feq (x y : float) : bool := SFeqb x y.
Definition flt (x y : float) : bool := SFltb x y.
Definition fle (x y : float) : bool := SFleb x y.

(** The float nearest to the integer [z]; [z as f64] for a machine integer. *)
Definition float_of_Z t (z : Z) : float :=
  binary_normalize (mantissa_digits t) (max_exponent t) z 0 false.

(** [f64::from(x)] for an [f32]: renormalises the mantissa at precision 53. *)
Definition f64_of_f32 (x : float) : float :=
  match x with
  | S754_finite s m e =>
      binary_normalize (mantissa_digits F64) (max_exponent F64)
        (if s then Zneg m else Zpos m) e s
  | _ => x
  end.

(** ** Decimal text: [str::parse::<f32>()] and [str::parse::<f64>()] *)

Definition digit_value (c : ascii) : Z := Z.of_N (N_of_ascii c) - 48.

(** Reads a run of digits: their value, their number and the rest. *)
Fixpoint digits (s : string) (value : Z) (count : Z) : Z * Z * string :=
  match s with
  | String c s' =>
      if is_ascii_digit c then digits s' (value * 10 + digit_value c) (count + 1)
      else (value, count, s)
  | EmptyString => (value, count, EmptyString)
  end.

(** Exponent part: nothing, or ['e'|'E'] with an optional sign and digits. *)
Definition exponent_part (s : string) : option Z :=
  match s with
  | EmptyString => Some 0
  | String c s' =>
      if Ascii.eqb c "e" || Ascii.eqb c "E" then
        let '(negative, s'') :=
          match s' with
          | String "+" r => (false, r)
          | String "-" r => (true, r)
          | _ => (false, s')
          end in
        let '(value, count, rest) := digits s'' 0 0 in
        match rest with
        | EmptyString => if count =? 0 then None else Some (if negative : bool then - value else value)
        | _ => None
        end
      else None
  end.

(** An unsigned decimal number: digits with an optional fraction and exponent, as
    mantissa and power of ten. *)
Definition parse_decimal (s : string) : option (Z * Z) :=
  let '(integral, n, rest) := digits s 0 0 in
  match rest with
  | String "." rest' =>
      let '(mantissa, k, rest'') := digits rest' integral 0 in
      if n + k =? 0 then None
      else e ← exponent_part rest''; Some (mantissa, e - k)
  | _ => if n =? 0 then None else e ← exponent_part rest; Some (integral, e)
  end.

(** The float nearest to [mantissa * 10 ^ exponent], for a non-negative mantissa. *)
Definition float_of_decimal t (mantissa exponent : Z) : float :=
  match mantissa with
  | Zpos m =>
      match exponent with
      | Zneg k =>
          SFdiv (mantissa_digits t) (max_exponent t)
            (S754_finite false m 0) (S754_finite false (Pos.pow 10 k) 0)
      | _ => float_of_Z t (mantissa * 10 ^ exponent)
      end
  | _ => S754_zero false
  end.

Definition lower (c : ascii) : ascii :=
  if ascii_in "A" "Z" c then ascii_of_N (N_of_ascii c + 32) else c.

Fixpoint string_lower (s : string) : string :=
  match s with EmptyString => EmptyString | String c s' => String (lower c) (string_lower s') end.

Definition parse_unsigned t (s : string) : option float :=
  match parse_decimal s with
  | Some (m, e) => Some (float_of_decimal t m e)
  | None =>
      if decide (string_lower s = "nan"%string) then Some S754_nan
      else if decide (string_lower s = "inf"%string ∨ string_lower s = "infinity"%string)
      then Some (S754_infinity false)
      else None
  end.

Definition parse_float t (s : string) : option float :=
  match s with
  | String "-" s' => fneg <$> parse_unsigned t s'
  | String "+" s' => parse_unsigned t s'
  | _ => parse_unsigned t s
  end.

Lemma is_finite_fneg x : is_finite (fneg x) = is_finite x.
Proof. by destruct x. Qed.

(** ** Bounds of rounded results *)

Section Rounding.
Context (prec emax : Z) (Hprec : 0 < prec) (Hemax : 2 ≤ emax).

Lemma Zdigits2_spec m : Z.abs m < 2 ^ Zdigits2 m ∧ 0 ≤ Zdigits2 m.
Proof.
  assert (Hp : ∀ p, Zpos p < 2 ^ Zpos (digits2_pos p)).
  { induction p as [p IH|p IH|]; cbn [digits2_pos]; try rewrite Pos2Z.inj_succ, Z.pow_succ_r by lia; lia. }
  destruct m; simpl; split; try lia; apply Hp.
Qed.

Lemma Zdigits2_le m k : 0 ≤ k → Z.abs m < 2 ^ k → Zdigits2 m ≤ k.
Proof.
  assert (Hp : ∀ p, 2 ^ (Zpos (digits2_pos p) - 1) ≤ Zpos p).
  { induction p as [p IH|p IH|]; cbn [digits2_pos]; [| |done];
      rewrite Pos2Z.inj_succ; replace (Z.succ (Zpos (digits2_pos p)) - 1) with
        (Z.succ (Zpos (digits2_pos p) - 1)) by lia; rewrite Z.pow_succ_r by lia; lia. }
  intros Hk Hm. destruct m as [|p|p]; simpl in *; [lia| |];
    (destruct (Z.le_gt_cases (Zpos (digits2_pos p)) k); [done|]);
    assert (2 ^ k ≤ 2 ^ (Zpos (digits2_pos p) - 1)) by (apply Z.pow_le_mono_r; lia);
    specialize (Hp p); lia.
Qed.

Lemma shr_1_abs r : Z.abs (shr_m (shr_1 r)) = Z.abs (shr_m r) / 2.
Proof.
  destruct r as [[|[p|p|]|[p|p|]] r s]; cbn -[Z.div]; try done;
    Z.to_euclidean_division_equations; lia.
Qed.

Lemma iter_shr_1_abs p r : Z.abs (shr_m (SpecFloat.iter_pos shr_1 p r)) = Z.abs (shr_m r) / 2 ^ Zpos p.
Proof.
  revert r; induction p as [p IH|p IH|]; intros r; cbn [SpecFloat.iter_pos].
  - rewrite !IH, shr_1_abs, !Z.div_div by lia. f_equal.
    rewrite (Pos2Z.inj_xI p), Z.pow_add_r, (Z.mul_comm 2 (Zpos p)), Z.pow_mul_r by lia. ring.
  - rewrite !IH, !Z.div_div by lia. f_equal.
    rewrite (Pos2Z.inj_xO p), (Z.mul_comm 2 (Zpos p)), Z.pow_mul_r by lia. ring.
  - apply shr_1_abs.
Qed.

Lemma shr_1_nonneg r : 0 ≤ shr_m r → 0 ≤ shr_m (shr_1 r).
Proof. destruct r as [[|[p|p|]|[p|p|]] r s]; simpl; lia. Qed.

Lemma iter_shr_1_nonneg p r : 0 ≤ shr_m r → 0 ≤ shr_m (SpecFloat.iter_pos shr_1 p r).
Proof.
  revert r; induction p as [p IH|p IH|]; intros r H; cbn [SpecFloat.iter_pos]; auto using shr_1_nonneg.
Qed.

Lemma shr_record_m m l : shr_m (shr_record_of_loc m l) = m.
Proof. by destruct l as [|[]]. Qed.

Lemma shr_fexp_spec m e l :
  let '(r, e') := shr_fexp prec emax m e l in
  Z.abs (shr_m r) < 2 ^ prec ∧ e' = Z.max e (fexp prec emax (Zdigits2 m + e)) ∧
  (0 ≤ m → 0 ≤ shr_m r).
Proof.
  unfold shr_fexp. destruct (Zdigits2_spec m) as [Hd Hd0].
  set (n := fexp prec emax (Zdigits2 m + e) - e).
  assert (Hn : Zdigits2 m - prec ≤ n) by (subst n; unfold fexp; lia).
  destruct n as [|p|p] eqn:E; simpl; rewrite ?iter_shr_1_abs, ?shr_record_m.
  - split_and!; try lia. apply Z.lt_le_trans with (2 ^ Zdigits2 m); [done|].
    apply Z.pow_le_mono_r; lia.
  - split_and!; try lia.
    + apply Z.div_lt_upper_bound; [lia|]. rewrite <- Z.pow_add_r by lia.
      apply Z.lt_le_trans with (2 ^ Zdigits2 m); [done|]. apply Z.pow_le_mono_r; lia.
    + intros Hm. apply iter_shr_1_nonneg. by rewrite shr_record_m.
  - split_and!; try lia. apply Z.lt_le_trans with (2 ^ Zdigits2 m); [done|].
    apply Z.pow_le_mono_r; lia.
Qed.

Lemma round_bounds m l :
  Z.abs (round_nearest_even m l) ≤ Z.abs m + 1 ∧ (0 ≤ m → 0 ≤ round_nearest_even m l).
Proof. destruct l as [|[]]; simpl; [lia| |lia|lia]. destruct (Z.even m); lia. Qed.

(** A mantissa of at most [prec] bits and an exponent in range. *)
Definition rounded (x : float) : Prop :=
  match x with
  | S754_finite _ m e => Zpos m < 2 ^ prec ∧ emin prec emax ≤ e ≤ emax - prec
  | _ => True
  end.

Lemma binary_round_aux_rounded s m e l : rounded (binary_round_aux prec emax s m e l).
Proof.
  unfold binary_round_aux. destruct (shr_fexp _ _ m e l) as [r1 e1].
  pose proof (shr_fexp_spec (round_nearest_even (shr_m r1) (loc_of_shr_record r1)) e1 loc_Exact) as H.
  destruct (shr_fexp _ _ _ e1 _) as [r2 e2]. destruct H as (H & He & _).
  destruct (shr_m r2); simpl; try done. unfold fexp in He.
  destruct (Z.leb_spec e2 (emax - prec)); simpl; lia.
Qed.

Lemma binary_round_aux_finite s m e l :
  0 ≤ m → e ≤ emax - prec - 1 → Zdigits2 m + e ≤ emax - 1 →
  is_finite (binary_round_aux prec emax s m e l) = true.
Proof.
  intros Hm He Hd. unfold binary_round_aux. pose proof (shr_fexp_spec m e l) as H1.
  destruct (shr_fexp _ _ m e l) as [r1 e1]. destruct H1 as (H1 & He1 & Hp1).
  pose proof (round_bounds (shr_m r1) (loc_of_shr_record r1)) as [Hr Hrp].
  set (m1 := round_nearest_even _ _) in *.
  pose proof (shr_fexp_spec m1 e1 loc_Exact) as H2.
  destruct (shr_fexp _ _ m1 e1 _) as [r2 e2]. destruct H2 as (H2 & He2 & Hp2).
  assert (Hdm : Zdigits2 m1 ≤ prec + 1).
  { apply Zdigits2_le; [lia|]. replace (prec + 1) with (Z.succ prec) by lia. rewrite Z.pow_succ_r by lia. lia. }
  assert (e2 ≤ emax - prec) by (subst; unfold fexp, emin in *; lia).
  destruct (shr_m r2); simpl; try done; [|lia].
  destruct (Z.leb_spec e2 (emax - prec)); [done | lia].
Qed.

Lemma digits_shift m d :
  Zpos (digits2_pos (Pos.iter xO m d)) = Zpos (digits2_pos m) + Zpos d.
Proof.
  induction d as [|d IH] using Pos.peano_ind; [simpl; lia|].
  rewrite Pos.iter_succ. cbn [digits2_pos]. lia.
Qed.

Lemma binary_normalize_finite m e s :
  Zdigits2 m + e ≤ emax - 1 → is_finite (binary_normalize prec emax m e s) = true.
Proof.
  assert (Hp : ∀ s p, Zpos (digits2_pos p) + e ≤ emax - 1 →
    is_finite (binary_round prec emax s p e) = true).
  { intros s' p Hd. unfold binary_round, shl_align.
    set (f := fexp prec emax (Zpos (digits2_pos p) + e)).
    assert (Hf : f ≤ emax - prec - 1) by (subst f; unfold fexp, emin; lia).
    destruct (f - e) eqn:E; apply binary_round_aux_finite; try lia; cbn [Zdigits2]; [lia | lia |].
    rewrite digits_shift. lia. }
  destruct m; simpl; [done | apply Hp | apply Hp].
Qed.

Lemma binary_normalize_rounded m e s : rounded (binary_normalize prec emax m e s).
Proof.
  destruct m; simpl; [done| |]; unfold binary_round; destruct (shl_align _ _ _);
    apply binary_round_aux_rounded.
Qed.

Lemma SFdiv_rounded x y : rounded (SFdiv prec emax x y).
Proof.
  destruct x, y; simpl; try done. destruct (SFdiv_core_binary _ _ _ _ _) as [[??] ?].
  apply binary_round_aux_rounded.
Qed.

End Rounding.

(** A value the format [t] can represent, finite. *)
Definition representable (t : float_ty) (x : float) : Prop :=
  is_finite x = true ∧ rounded (mantissa_digits t) (max_exponent t) x.

Lemma mantissa_digits_pos t : 0 < mantissa_digits t. Proof. by destruct t. Qed.
Lemma max_exponent_ge t : 2 ≤ max_exponent t. Proof. by destruct t. Qed.
#[local] Hint Resolve mantissa_digits_pos max_exponent_ge : core.

Lemma fneg_representable t x : representable t x → representable t (fneg x).
Proof. by destruct x. Qed.

Lemma fadd_representable t x y :
  representable t x → representable t y → is_finite (fadd t x y) = true →
  representable t (fadd t x y).
Proof.
  intros Hx Hy Hf. split; [done|]. unfold fadd in *.
  destruct x as [[]| | |], y as [[]| | |]; try done; try (by apply Hx); try (by apply Hy);
    try (by destruct Hx). apply binary_normalize_rounded; auto.
Qed.

Lemma fsub_representable t x y :
  representable t x → representable t y → is_finite (fsub t x y) = true →
  representable t (fsub t x y).
Proof.
  intros Hx Hy Hf. split; [done|]. unfold fsub in *.
  destruct x as [[]| | |], y as [[]| | |]; try done; try (by apply Hx); try (by apply Hy);
    try (by destruct Hx). apply binary_normalize_rounded; auto.
Qed.

Lemma fmul_representable t x y : is_finite (fmul t x y) = true → representable t (fmul t x y).
Proof.
  intros Hf. split; [done|]. unfold fmul in *. destruct x, y; try done.
  apply binary_round_aux_rounded; auto.
Qed.

Lemma fdiv_representable t x y : is_finite (fdiv t x y) = true → representable t (fdiv t x y).
Proof. intros Hf. split; [done|]. apply SFdiv_rounded; auto. Qed.

(** Every [u64] and [i64] converts to a finite float of either format. *)
Lemma float_of_Z_representable t z : Z.abs z < 2 ^ 64 → representable t (float_of_Z t z).
Proof.
  intros Hz. split; [|apply binary_normalize_rounded; auto].
  apply binary_normalize_finite; auto.
  pose proof (Zdigits2_le z 64). destruct t; simpl; lia.
Qed.

(** Widening to [f64] keeps a finite [f32] finite. *)
Lemma f64_of_f32_representable x : representable F32 x → representable F64 (f64_of_f32 x).
Proof.
  intros [Hf Hr]. destruct x as [| | |s m e]; try done. cbn [rounded mantissa_digits max_exponent] in Hr.
  split; [|apply binary_normalize_rounded; done].
  apply binary_normalize_finite; [done | done |].
  assert (Zdigits2 (if s then Zneg m else Zpos m) ≤ 24)
    by (apply Zdigits2_le; destruct s; simpl; lia).
  simpl. lia.
Qed.

Lemma float_of_decimal_rounded t m e :
  rounded (mantissa_digits t) (max_exponent t) (float_of_decimal t m e).
Proof.
  unfold float_of_decimal. destruct m; try done.
  destruct e; first [apply SFdiv_rounded; auto | apply binary_normalize_rounded; auto].
Qed.

Lemma rounded_fneg p x f : rounded p x (fneg f) ↔ rounded p x f.
Proof. by destruct f. Qed.

Lemma parse_float_representable t s x :
  parse_float t s = Some x → is_finite x = true → representable t x.
Proof.
  assert (Hu : ∀ s x, parse_unsigned t s = Some x →
    rounded (mantissa_digits t) (max_exponent t) x).
  { intros s' x'. unfold parse_unsigned. destruct (parse_decimal s') as [[m e]|].
    - intros [= <-]. apply float_of_decimal_rounded.
    - repeat case_decide; intros; by simplify_eq. }
  assert (Hneg : ∀ s x, fneg <$> parse_unsigned t s = Some x →
    rounded (mantissa_digits t) (max_exponent t) x).
  { intros s' x' (y & Hy & ->)%fmap_Some. apply rounded_fneg. eauto. }
  intros Hp Hf. split; [done|]. unfold parse_float in Hp. destruct s as [|c s']; [by eapply Hu|].
  destruct c as [[] [] [] [] [] [] [] []]; eauto.
Qed.

(** ** Exact conversions *)

(** [m1 * 2^e1 = m2 * 2^e2], cross-multiplied. *)
Definition real_eq (m1 e1 m2 e2 : Z) : Prop :=
  m1 * 2 ^ (e1 - Z.min e1 e2) = m2 * 2 ^ (e2 - Z.min e1 e2).

(** The dyadic number a finite float stands for. *)
Definition dyadic (x : float) : option (Z * Z) :=
  match x with
  | S754_zero _ => Some (0, 0)
  | S754_finite s m e => Some ((if s then Zneg m else Zpos m), e)
  | _ => None
  end.

Definition denotes (x : float) (m e : Z) : Prop :=
  ∃ m' e', dyadic x = Some (m', e') ∧ real_eq m' e' m e.

Lemma shr_1_exact p : shr_1 (Build_shr_record (Zpos p~0) false false) = Build_shr_record (Zpos p) false false.
Proof. done. Qed.

Lemma shr_exact q p :
  SpecFloat.iter_pos shr_1 q (Build_shr_record (Zpos (Pos.iter xO p q)) false false) =
  Build_shr_record (Zpos p) false false.
Proof.
  revert p; induction q as [q IH|q IH|]; intros p; cbn [SpecFloat.iter_pos Pos.iter].
  - by rewrite shr_1_exact, !IH.
  - by rewrite !IH.
  - done.
Qed.

Lemma iter_xO_pow m d : Zpos (Pos.iter xO m d) = Zpos m * 2 ^ Zpos d.
Proof.
  induction d as [|d IH] using Pos.peano_ind; [simpl; lia|].
  rewrite Pos.iter_succ, Pos2Z.inj_xO, IH, Pos2Z.inj_succ, Z.pow_succ_r by lia. ring.
Qed.

Lemma digits2_bounds p :
  2 ^ (Zpos (digits2_pos p) - 1) ≤ Zpos p < 2 ^ Zpos (digits2_pos p).
Proof.
  split; [|apply (Zdigits2_spec (Zpos p))].
  destruct (Z.le_gt_cases (2 ^ (Zpos (digits2_pos p) - 1)) (Zpos p)); [done|].
  assert (Zdigits2 (Zpos p) ≤ Zpos (digits2_pos p) - 1) by (apply Zdigits2_le; simpl; lia).
  simpl in *. lia.
Qed.

(** No rounding happens to a mantissa that is already aligned. *)
Lemma binary_round_aux_aligned prec emax s m e :
  e = fexp prec emax (Zpos (digits2_pos m) + e) → e ≤ emax - prec →
  binary_round_aux prec emax s (Zpos m) e loc_Exact = S754_finite s m e.
Proof.
  intros He Hle. unfold binary_round_aux, shr_fexp. cbn [Zdigits2].
  rewrite <- He, Z.sub_diag. cbn -[Z.leb Z.sub]. unfold shr_fexp. cbn [Zdigits2].
  rewrite <- He, Z.sub_diag. simpl. by rewrite (proj2 (Z.leb_le _ _) Hle).
Qed.

(** A number of at most [prec] significant bits is represented exactly. *)
Lemma binary_round_exact prec emax s p k j e :
  0 < prec → 2 ≤ emax → Zpos p = Zpos k * 2 ^ j → 0 ≤ j → Zpos k < 2 ^ prec →
  emin prec emax ≤ e → Zpos (digits2_pos p) + e ≤ emax - 1 →
  ∃ m e', binary_round prec emax s p e = S754_finite s m e' ∧ real_eq (Zpos m) e' (Zpos p) e.
Proof.
  intros Hprec Hemax Hp Hj Hk He Hd. unfold binary_round, shl_align.
  remember (fexp prec emax (Zpos (digits2_pos p) + e)) as f eqn:Hf0.
  assert (Hf : f = Z.max (Zpos (digits2_pos p) + e - prec) (emin prec emax)) by done.
  assert (Hfmax : f ≤ emax - prec) by (unfold emin in *; lia).
  destruct (Z.le_gt_cases f e) as [Hfe|Hfe].
  - destruct (f - e) as [|d|d] eqn:E; [|lia|].
    + exists p, e. split; [|done]. apply binary_round_aux_aligned; [rewrite <- Hf0; lia | lia].
    + exists (Pos.iter xO p d), f. split.
      * apply binary_round_aux_aligned; [|done]. rewrite digits_shift, Hf0 at 1. f_equal. lia.
      * unfold real_eq. rewrite iter_xO_pow. replace (f - Z.min f e) with 0 by lia.
        replace (e - Z.min f e) with (Zpos d) by lia. rewrite Z.pow_0_r. ring.
  - destruct (f - e) as [|d|d] eqn:E; [lia| |lia].
    assert (Hd' : Zpos d = Zpos (digits2_pos p) - prec) by (unfold emin in *; lia).
    assert (Hj' : Zpos d ≤ j).
    { pose proof (digits2_bounds p) as [Hlo _].
      assert (Hup : Zpos p < 2 ^ (prec + j)) by (rewrite Z.pow_add_r, Hp by lia; nia).
      assert (Zpos (digits2_pos p) - 1 < prec + j) by (apply (Z.pow_lt_mono_r_iff 2); lia). lia. }
    assert (Hq : ∃ q, p = Pos.iter xO q d).
    { exists (Z.to_pos (Zpos k * 2 ^ (j - Zpos d))). apply Pos2Z.inj.
      rewrite iter_xO_pow, Z2Pos.id by (apply Z.mul_pos_pos; [lia | apply Z.pow_pos_nonneg; lia]).
      rewrite Hp, <- Z.mul_assoc, <- Z.pow_add_r by lia. f_equal. f_equal. lia. }
    destruct Hq as [q ->]. rewrite digits_shift in *. exists q, f. split.
    + unfold binary_round_aux. unfold shr_fexp at 1. cbn [Zdigits2 shr_record_of_loc].
      rewrite digits_shift, <- Hf0, E. cbn [shr]. rewrite shr_exact.
      cbn [shr_m loc_of_shr_record round_nearest_even].
      pose proof (binary_round_aux_aligned prec emax s q f) as Ha. unfold binary_round_aux in Ha.
      unfold shr_fexp. cbn [Zdigits2]. replace (e + Zpos d) with f by lia.
      assert (Hfq : fexp prec emax (Zpos (digits2_pos q) + f) = f) by (unfold fexp; lia).
      rewrite Hfq, Z.sub_diag. simpl. by rewrite (proj2 (Z.leb_le _ _) Hfmax).
    + unfold real_eq. rewrite iter_xO_pow. replace (f - Z.min f e) with (Zpos d) by lia.
      replace (e - Z.min f e) with 0 by lia. rewrite Z.pow_0_r. ring.
Qed.

Lemma binary_normalize_exact prec emax m k j e b :
  0 < prec → 2 ≤ emax → Z.abs m = k * 2 ^ j → 0 ≤ j → 0 ≤ k < 2 ^ prec →
  emin prec emax ≤ e → Zdigits2 m + e ≤ emax - 1 →
  denotes (binary_normalize prec emax m e b) m e.
Proof.
  intros Hp He Hm Hj Hk Hmin Hd. unfold denotes. destruct m as [|p|p]; cbn [binary_normalize].
  - exists 0, 0. split; [done|]. unfold real_eq. lia.
  - destruct k as [|k|k]; [simpl in Hm; lia| |lia].
    destruct (binary_round_exact prec emax false p k j e) as (m' & e' & -> & Hr); try done; try lia. eauto.
  - destruct k as [|k|k]; [simpl in Hm; lia| |lia].
    destruct (binary_round_exact prec emax true p k j e) as (m' & e' & -> & Hr); try done; try lia.
    exists (Zneg m'), e'. split; [done|]. unfold real_eq in *.
    rewrite <- !Pos2Z.opp_pos, !Z.mul_opp_l. by f_equal.
Qed.

Lemma real_eq_scale k m1 e1 m2 e2 :
  k ≤ e1 → k ≤ e2 → real_eq m1 e1 m2 e2 ↔ m1 * 2 ^ (e1 - k) = m2 * 2 ^ (e2 - k).
Proof.
  intros H1 H2. unfold real_eq. set (n := Z.min e1 e2).
  replace (e1 - k) with ((e1 - n) + (n - k)) by lia.
  replace (e2 - k) with ((e2 - n) + (n - k)) by lia.
  rewrite !Z.pow_add_r, !Z.mul_assoc by lia.
  assert (2 ^ (n - k) ≠ 0) by (apply Z.pow_nonzero; lia). split; [by intros ->|].
  by apply Z.mul_cancel_r.
Qed.

Lemma real_eq_trans m1 e1 m2 e2 m3 e3 :
  real_eq m1 e1 m2 e2 → real_eq m2 e2 m3 e3 → real_eq m1 e1 m3 e3.
Proof.
  set (k := Z.min e1 (Z.min e2 e3)).
  rewrite (real_eq_scale k), (real_eq_scale k m2), (real_eq_scale k m1 e1 m3) by lia. congruence.
Qed.

Lemma denotes_trans x m e m' e' : denotes x m e → real_eq m e m' e' → denotes x m' e'.
Proof. intros (a & b & ? & ?) ?. exists a, b. split; [done|]. by eapply real_eq_trans. Qed.

(** Widening an [f32] to [f64] keeps its value, subnormals included. *)
Lemma f64_of_f32_exact x m e :
  representable F32 x → denotes x m e → denotes (f64_of_f32 x) m e.
Proof.
  intros [Hf Hr] (m' & e' & Hd & He). destruct x as [| | |s p e0]; try done; [by exists m', e'|].
  simpl in Hd. injection Hd as <- <-. destruct Hr as [Hm He0].
  unfold emin, mantissa_digits, max_exponent in Hm, He0.
  assert (Hd : Zdigits2 (if s then Zneg p else Zpos p) ≤ 24)
    by (apply Zdigits2_le; destruct s; simpl; lia).
  eapply denotes_trans; [|exact He]. unfold f64_of_f32.
  apply (binary_normalize_exact _ _ _ (Zpos p) 0); unfold emin, mantissa_digits, max_exponent;
    try lia. destruct s; simpl; lia.
Qed.
