(* ===== verification/Lexer.v ===== *)
(** * elucid-language: the lexer

    Models src/elucid/elucid-language/src/lexer.rs. The token classes are the
    [#[token]] and [#[regex]] attributes of [Token]; the generated scanner takes the
    longest match, and a keyword over an identifier of the same text. A lexical
    error, for which the code emits [Token::Error], makes [tokenizer] return [None]:
    no parser accepts that token, so a text with a lexical error has no parse.
    Decoding the text of a string literal is [serde_json::from_str], a parameter. *)

From S2P Require Import Prelude Syntax Floats.

#[local] Open Scope nat_scope.

Inductive Token :=
| KeywordSource | KeywordFilter | KeywordProject | KeywordSort | KeywordTake | KeywordSummarize
| KeywordSecond | KeywordMinute | KeywordHour | KeywordDay
| KeywordAnd | KeywordOr | KeywordNot | KeywordTrue | KeywordFalse | KeywordNull | KeywordNow
| KeywordStartInclusive | KeywordEndExclusive | KeywordBy | KeywordAs
| KeywordCast | KeywordTryCast | KeywordRest | KeywordRestExists
| KeywordCount | KeywordSum | KeywordMin | KeywordMax | KeywordAvg
| KeywordBool | KeywordInt32 | KeywordInt64 | KeywordUInt32 | KeywordUInt64
| KeywordFloat32 | KeywordFloat64 | KeywordUtf8 | KeywordDatetime | KeywordEid | KeywordJson
| Pipe | LeftParenthesis | RightParenthesis | Comma | At
| OperatorAdd | OperatorSubtract | OperatorMultiply | OperatorDivide
| OperatorEqual | OperatorNotEqual | OperatorGreaterThanOrEqual | OperatorGreaterThan
| OperatorLessThanOrEqual | OperatorLessThan | OperatorAssign
| FloatingPoint (text : string)
| Integer (value : Z)
| StringLiteral (value : string)
| QuotedIdentifier (name : string)
| SystemIdentifier (name : string)
| Identifier (name : string).

#[export] Instance Token_eq_dec : EqDecision Token.
Proof. solve_decision. Defined.

(** The [#[token]] attributes whose text is a word. *)
Definition keywords : list (string * Token) :=
  [ ("source", KeywordSource); ("filter", KeywordFilter); ("project", KeywordProject);
    ("sort", KeywordSort); ("take", KeywordTake); ("summarize", KeywordSummarize);
    ("s", KeywordSecond); ("m", KeywordMinute); ("h", KeywordHour); ("d", KeywordDay);
    ("and", KeywordAnd); ("or", KeywordOr); ("not", KeywordNot); ("true", KeywordTrue);
    ("false", KeywordFalse); ("null", KeywordNull); ("now", KeywordNow);
    ("start_inclusive", KeywordStartInclusive); ("end_exclusive", KeywordEndExclusive);
    ("by", KeywordBy); ("as", KeywordAs); ("cast", KeywordCast); ("try_cast", KeywordTryCast);
    ("rest", KeywordRest); ("rest_exists", KeywordRestExists); ("count", KeywordCount);
    ("sum", KeywordSum); ("min", KeywordMin); ("max", KeywordMax); ("avg", KeywordAvg);
    ("bool", KeywordBool); ("int32", KeywordInt32); ("int64", KeywordInt64);
    ("uint32", KeywordUInt32); ("uint64", KeywordUInt64); ("float32", KeywordFloat32);
    ("float64", KeywordFloat64); ("utf8", KeywordUtf8); ("datetime", KeywordDatetime);
    ("eid", KeywordEid); ("json", KeywordJson) ]%string.

(** ** Character classes and runs *)

Definition is_word_start (c : ascii) : bool := is_ascii_alphabetic c || Ascii.eqb c "_".
Definition is_word (c : ascii) : bool := is_ascii_alphanumeric c || Ascii.eqb c "_".
Definition is_space (c : ascii) : bool :=
  Ascii.eqb c " " || Ascii.eqb c "009" || Ascii.eqb c "012" || Ascii.eqb c "013" || Ascii.eqb c "010".
Definition is_hex (c : ascii) : bool :=
  is_ascii_digit c || ascii_in "a" "f" c || ascii_in "A" "F" c.

(** Length of the longest prefix of [s] whose bytes satisfy [p]. *)
Fixpoint run (p : ascii → bool) (s : string) : nat :=
  match s with
  | String c s' => if p c then S (run p s') else 0
  | EmptyString => 0
  end.

Fixpoint str_take (n : nat) (s : string) : string :=
  match n, s with
  | S n', String c s' => String c (str_take n' s')
  | _, _ => EmptyString
  end.

Fixpoint str_drop (n : nat) (s : string) : string :=
  match n, s with
  | S n', String _ s' => str_drop n' s'
  | _, _ => s
  end.

(** ** Numbers *)

(** [[eE][+-]?[0-9]+] at the head of [s]: its length, zero where it does not match. *)
Definition exponent_length (s : string) : nat :=
  match s with
  | String c s1 =>
      if Ascii.eqb c "e" || Ascii.eqb c "E" then
        match s1 with
        | String d s2 =>
            if Ascii.eqb d "+" || Ascii.eqb d "-"
            then match run is_ascii_digit s2 with O => 0 | n => 2 + n end
            else match run is_ascii_digit s1 with O => 0 | n => 1 + n end
        | EmptyString => 0
        end
      else 0
  | EmptyString => 0
  end.

(** The part of a floating-point literal after its integral digits. *)
Definition fraction_length (s : string) : nat :=
  match s with
  | String "." s1 =>
      match run is_ascii_digit s1 with
      | O => 0
      | n => 1 + n + exponent_length (str_drop n s1)
      end
  | _ => exponent_length s
  end.

(** [0|[1-9][0-9]*] covers the whole run of digits. *)
Definition canonical_integral (s : string) (n : nat) : bool :=
  match s with String "0" _ => Nat.eqb n 1 | _ => true end.

Definition number_token (s : string) : option (Token * nat) :=
  let n := run is_ascii_digit s in
  let k := if canonical_integral s n then fraction_length (str_drop n s) else 0 in
  match k with
  | O =>
      let '(value, _, _) := digits (str_take n s) 0%Z 0%Z in
      v ← narrow U64 value; Some (Integer v, n)
  | _ =>
      let text := str_take (n + k) s in
      value ← parse_float F64 text;
      if is_finite value then Some (FloatingPoint text, n + k) else None
  end.

(** ** Words *)

Definition word_token (s : string) : Token * nat :=
  let n := run is_word s in
  let text := str_take n s in
  (match find (λ k, String.eqb (fst k) text) keywords with
   | Some k => snd k
   | None => Identifier text
   end, n).

Definition system_token (s : string) : Token * nat :=
  match s with
  | String "@" (String c s1) =>
      if is_word_start c then
        let n := run is_word (String c s1) in (SystemIdentifier (str_take (S n) s), S n)
      else (At, 1)
  | _ => (At, 1)
  end.

Definition quoted_token (s : string) : option (Token * nat) :=
  match s with
  | String "`" (String c s1) =>
      if is_word_start c then
        let n := run is_word (String c s1) in
        match str_drop n (String c s1) with
        | String "`" _ => Some (QuotedIdentifier (str_take n (String c s1)), 2 + n)
        | _ => None
        end
      else None
  | _ => None
  end.

(** ** Strings *)

Definition is_simple_escape (c : ascii) : bool :=
  Ascii.eqb c (ascii_of_nat 34) || Ascii.eqb c (ascii_of_nat 92) || Ascii.eqb c "/"
  || Ascii.eqb c "b" || Ascii.eqb c "f" || Ascii.eqb c "n" || Ascii.eqb c "r" || Ascii.eqb c "t".

(** Length of the body of a string literal with its closing quote; the opening
    quote is already read. *)
Fixpoint string_body (s : string) : option nat :=
  match s with
  | EmptyString => None
  | String c s1 =>
      if Ascii.eqb c (ascii_of_nat 34) then Some 1
      else if Ascii.eqb c (ascii_of_nat 92) then
        match s1 with
        | String d s2 =>
            if is_simple_escape d then (λ n, 2 + n) <$> string_body s2
            else if Ascii.eqb d "u" then
              match s2 with
              | String h1 (String h2 (String h3 (String h4 s3))) =>
                  if is_hex h1 && is_hex h2 && is_hex h3 && is_hex h4
                  then (λ n, 6 + n) <$> string_body s3 else None
              | _ => None
              end
            else None
        | EmptyString => None
        end
      else if (N_of_ascii c <? 32)%N then None
      else S <$> string_body s1
  end.

Section Tokenizer.
(** [serde_json::from_str::<String>] on the text of a string literal. *)
Context (decode_string : string → option string).

Definition string_token (s : string) : option (Token * nat) :=
  match s with
  | String _ s1 =>
      n ← string_body s1;
      value ← decode_string (str_take (S n) s);
      Some (StringLiteral value, S n)
  | EmptyString => None
  end.

(** The longest match at the head of a text that does not start with a space. *)
Definition next_token (s : string) : option (Token * nat) :=
  match s with
  | EmptyString => None
  | String c s1 =>
      if is_word_start c then Some (word_token s)
      else if is_ascii_digit c then number_token s
      else if Ascii.eqb c (ascii_of_nat 34) then string_token s
      else if Ascii.eqb c "`" then quoted_token s
      else if Ascii.eqb c "@" then Some (system_token s)
      else if Ascii.eqb c "|" then Some (Pipe, 1)
      else if Ascii.eqb c "(" then Some (LeftParenthesis, 1)
      else if Ascii.eqb c ")" then Some (RightParenthesis, 1)
      else if Ascii.eqb c "," then Some (Comma, 1)
      else if Ascii.eqb c "+" then Some (OperatorAdd, 1)
      else if Ascii.eqb c "-" then Some (OperatorSubtract, 1)
      else if Ascii.eqb c "*" then Some (OperatorMultiply, 1)
      else if Ascii.eqb c "/" then Some (OperatorDivide, 1)
      else
      let followed := match s1 with String d _ => Ascii.eqb d "=" | EmptyString => false end in
      if Ascii.eqb c "=" then Some (if followed then (OperatorEqual, 2) else (OperatorAssign, 1))
      else if Ascii.eqb c "!" then (if followed then Some (OperatorNotEqual, 2) else None)
      else if Ascii.eqb c ">" then
        Some (if followed then (OperatorGreaterThanOrEqual, 2) else (OperatorGreaterThan, 1))
      else if Ascii.eqb c "<" then
        Some (if followed then (OperatorLessThanOrEqual, 2) else (OperatorLessThan, 1))
      else None
  end.

Fixpoint tokens_from (fuel position : nat) (s : string) : option (list (Token * Span)) :=
  match fuel, s with
  | _, EmptyString => Some []
  | O, _ => None
  | S fuel, String c s1 =>
      if is_space c then tokens_from fuel (S position) s1
      else
      '(token, n) ← next_token s;
      rest ← tokens_from fuel (position + n) (str_drop n s);
      Some ((token, {| start := position; end_ := position + n |}) :: rest)
  end.

Definition tokenizer (source : string) : option (list (Token * Span)) :=
  tokens_from (String.length source) 0 source.

End Tokenizer.

(** ** Lengths *)

Lemma run_le p s : run p s ≤ String.length s.
Proof. induction s as [|c s IH]; simpl; [done|]. destruct (p c); lia. Qed.

Lemma length_str_drop n s : String.length (str_drop n s) = String.length s - n.
Proof. revert s; induction n as [|n IH]; intros [|c s]; simpl; auto. Qed.

Lemma str_drop_get n s i : String.get i (str_drop n s) = String.get (n + i) s.
Proof. revert s; induction n as [|n IH]; intros [|c s]; simpl; try done; destruct i; done. Qed.

Lemma exponent_le s : exponent_length s ≤ String.length s.
Proof.
  unfold exponent_length. destruct s as [|c s1]; [done|]. case_match; [|simpl; lia].
  destruct s1 as [|d s2]; [simpl; lia|].
  pose proof (run_le is_ascii_digit s2). pose proof (run_le is_ascii_digit (String d s2)).
  change (String.length (String c (String d s2))) with (S (String.length (String d s2))).
  assert (String.length s2 < String.length (String d s2)) by (simpl; lia).
  destruct (Ascii.eqb d "+" || Ascii.eqb d "-");
    [destruct (run is_ascii_digit s2) | destruct (run is_ascii_digit (String d s2))]; lia.
Qed.

Lemma fraction_le s : fraction_length s ≤ String.length s.
Proof.
  unfold fraction_length. pose proof (exponent_le s) as Hs.
  destruct s as [|c s1]; [done|].
  assert (Hdot : match run is_ascii_digit s1 with
     | O => 0 | n => 1 + n + exponent_length (str_drop n s1) end ≤ String.length (String c s1)).
  { destruct (run is_ascii_digit s1) as [|n] eqn:E; [simpl; lia|].
    pose proof (exponent_le (str_drop (S n) s1)) as He. rewrite length_str_drop in He.
    pose proof (run_le is_ascii_digit s1). simpl in *. lia. }
  destruct c as [[] [] [] [] [] [] [] []]; done.
Qed.

Lemma number_token_length s t n :
  0 < run is_ascii_digit s → number_token s = Some (t, n) → 0 < n ≤ String.length s.
Proof.
  intros Hr H. unfold number_token in H.
  pose proof (run_le is_ascii_digit s) as Hle.
  set (m := run is_ascii_digit s) in *.
  assert (Hk : (if canonical_integral s m then fraction_length (str_drop m s) else 0)
               ≤ String.length s - m).
  { rewrite <- length_str_drop. destruct (canonical_integral s m); [apply fraction_le | lia]. }
  destruct (if canonical_integral s m then _ else 0) as [|k].
  - destruct (digits _ _ _) as [[v ?] ?]. destruct (narrow U64 v); simpl in H; [|done].
    simplify_eq. lia.
  - destruct (parse_float _ _) as [x|]; simpl in H; [|done]. case_match; simplify_eq. lia.
Qed.

Lemma string_body_length s n : string_body s = Some n → 0 < n ≤ String.length s.
Proof.
  remember (String.length s) as k eqn:Hk. revert s n Hk.
  induction k as [k IH] using lt_wf_ind. intros s n -> H.
  destruct s as [|c s1]; [done|]. cbn [string_body] in H.
  destruct (Ascii.eqb c (ascii_of_nat 34)); [simplify_eq; simpl; lia|].
  destruct (Ascii.eqb c (ascii_of_nat 92)).
  - destruct s1 as [|d s2]; [done|]. destruct (is_simple_escape d).
    + apply fmap_Some in H as (m & Hm & ->). eapply IH in Hm; [| |done]; simpl in *; lia.
    + destruct (Ascii.eqb d "u"); [|done]. destruct s2 as [|h1 [|h2 [|h3 [|h4 s3]]]]; try done.
      destruct (_ && _); [|done].
      apply fmap_Some in H as (m & Hm & ->). eapply IH in Hm; [| |done]; simpl in *; lia.
  - destruct (N_of_ascii c <? 32)%N; [done|].
    apply fmap_Some in H as (m & Hm & ->). eapply IH in Hm; [| |done]; simpl in *; lia.
Qed.

Lemma next_token_length decode s t n :
  next_token decode s = Some (t, n) → 0 < n ≤ String.length s.
Proof.
  unfold next_token. destruct s as [|c s1]; [done|].
  destruct (is_word_start c) eqn:Ew.
  { unfold word_token. intros H. injection H as <- <-.
    assert (is_word c = true) as Hw.
    { unfold is_word, is_ascii_alphanumeric, is_word_start in *.
      destruct (is_ascii_alphabetic c), (Ascii.eqb c "_"); simpl in *; try done; by rewrite orb_true_r. }
    pose proof (run_le is_word (String c s1)). simpl in *. rewrite Hw in *. lia. }
  destruct (is_ascii_digit c) eqn:Ed.
  { apply number_token_length. simpl. rewrite Ed. lia. }
  destruct (Ascii.eqb c (ascii_of_nat 34)).
  { unfold string_token. intros H. destruct (string_body s1) as [m|] eqn:E; [|done]. simpl in H.
    apply string_body_length in E. destruct (decode _); simpl in H; [|done]. simplify_eq. simpl. lia. }
  destruct (Ascii.eqb_spec c "`") as [->|].
  { unfold quoted_token. destruct s1 as [|d s2]; [done|]. destruct (is_word_start d); [|done].
    pose proof (run_le is_word (String d s2)) as Hr.
    pose proof (length_str_drop (run is_word (String d s2)) (String d s2)) as Hd.
    destruct (str_drop _ _) as [|e s3]; [done|]. simpl in Hd.
    intros H. destruct e as [[] [] [] [] [] [] [] []]; try done. injection H as <- <-. simpl in *. lia. }
  destruct (Ascii.eqb_spec c "@") as [->|].
  { unfold system_token. intros H. destruct s1 as [|d s2]; [simplify_eq; simpl; lia|].
    destruct (is_word_start d); [|simplify_eq; simpl; lia].
    pose proof (run_le is_word (String d s2)). injection H as <- <-. simpl in *. lia. }
  set (followed := match s1 with String d _ => Ascii.eqb d "=" | EmptyString => false end).
  assert (followed = true → 2 ≤ String.length (String c s1)) by (destruct s1; simpl; [done | lia]).
  cbv zeta. intros H'. repeat case_match; simplify_eq; simpl in *; try lia; naive_solver lia.
Qed.

(** ** Fuel *)

Lemma tokens_from_fuel decode fuel fuel' position s :
  String.length s ≤ fuel → String.length s ≤ fuel' →
  tokens_from decode fuel position s = tokens_from decode fuel' position s.
Proof.
  revert fuel' position s; induction fuel as [|fuel IH]; intros fuel' position s H H'.
  { destruct s; simpl in H; [by destruct fuel' | lia]. }
  destruct s as [|c s1]; [by destruct fuel'|].
  destruct fuel' as [|fuel']; simpl in H'; [lia|]. cbn [tokens_from]. simpl in H.
  destruct (is_space c); [apply IH; lia|].
  destruct (next_token decode (String c s1)) as [[t n]|] eqn:E; [|done]. cbn [mbind option_bind].
  apply next_token_length in E. rewrite (IH fuel'); [done| |]; rewrite length_str_drop; simpl in *; lia.
Qed.

(** ** Tokens tile the text *)

(** The bytes of [s] from [a] up to [b] are all white space. *)
Definition blank (s : string) (a b : nat) : Prop :=
  ∀ i, a ≤ i < b → ∃ c, String.get i s = Some c ∧ is_space c = true.

(** The text is read from left to right without gaps or overlaps: white space, then
    the longest match at a byte that is not white space, and so on to the end. *)
Fixpoint tiles decode (s : string) (position : nat) (tokens : list (Token * Span)) : Prop :=
  match tokens with
  | [] => blank s position (String.length s)
  | (token, span) :: rest =>
      position ≤ start span < end_ span ∧ end_ span ≤ String.length s ∧
      blank s position (start span) ∧
      (∃ c, String.get (start span) s = Some c ∧ is_space c = false) ∧
      next_token decode (str_drop (start span) s) = Some (token, end_ span - start span) ∧
      tiles decode s (end_ span) rest
  end.

Lemma str_drop_add n m s : str_drop n (str_drop m s) = str_drop (m + n) s.
Proof. revert s; induction m as [|m IH]; intros [|c s]; simpl; try done; by destruct n. Qed.

Lemma blank_step s p q c :
  String.get p s = Some c → is_space c = true → blank s (S p) q → blank s p q.
Proof.
  intros Hc Hs Hb i Hi. destruct (decide (i = p)) as [->|]; [by exists c|]. apply Hb. lia.
Qed.

Lemma tiles_space decode s p c toks :
  String.get p s = Some c → is_space c = true →
  tiles decode s (S p) toks ↔ tiles decode s p toks.
Proof.
  intros Hc Hs. destruct toks as [|[t sp] toks]; simpl.
  - split; [by eapply blank_step | intros Hb i Hi; apply Hb; lia].
  - split.
    + intros (H1 & H2 & H3 & H4). repeat split; try lia; [by eapply blank_step | apply H4 ..].
    + intros (H1 & H2 & H3 & (d & Hd & Hsp) & H4).
      assert (start sp ≠ p) by (intros E; rewrite E in Hd; congruence).
      repeat split; try lia; [intros i Hi; apply H3; lia | by exists d | apply H4 ..].
Qed.

Lemma tokens_from_tiles decode s fuel p toks :
  p ≤ String.length s → String.length s - p ≤ fuel →
  tokens_from decode fuel p (str_drop p s) = Some toks ↔ tiles decode s p toks.
Proof.
  revert p toks; induction fuel as [|fuel IH]; intros p toks Hp Hf.
  all: destruct (str_drop p s) as [|c s1] eqn:Es;
    pose proof (f_equal String.length Es) as El; rewrite length_str_drop in El; simpl in El.
  - simpl. split; [intros [= <-] i Hi; lia|]. destruct toks as [|[t sp] toks]; [done|]. simpl. lia.
  - lia.
  - simpl. split; [intros [= <-] i Hi; lia|]. destruct toks as [|[t sp] toks]; [done|]. simpl. lia.
  - assert (Hc : String.get p s = Some c).
    { pose proof (str_drop_get p s 0) as Hg. rewrite Es, Nat.add_0_r in Hg. done. }
    assert (Es1 : str_drop (S p) s = s1).
    { rewrite <- Nat.add_1_r, <- str_drop_add, Es. done. }
    cbn [tokens_from]. destruct (is_space c) eqn:Esp.
    { rewrite <- (tiles_space decode s p c) by done. rewrite <- (IH (S p)) by lia. by rewrite Es1. }
    split.
    + intros H. apply bind_Some in H as ([t n] & Hn & H). apply bind_Some in H as (rest & Hr & H).
      simplify_eq. pose proof (next_token_length _ _ _ _ Hn) as Hl. cbn [String.length] in Hl.
      rewrite <- Es, str_drop_add in Hr. apply (IH (p + n) rest ltac:(lia) ltac:(lia)) in Hr.
      simpl. split_and!; try lia.
      * intros i Hi. lia.
      * by exists c.
      * rewrite Es. by replace (p + n - p) with n by lia.
      * done.
    + destruct toks as [|[t sp] toks]; cbn [tiles].
      { intros Hb. destruct (Hb p) as (d & Hd & Hsp); [lia|]. congruence. }
      intros (H1 & H2 & H3 & _ & Hn & Hr).
      assert (start sp = p) as Ep.
      { destruct (decide (start sp = p)); [done|].
        destruct (H3 p) as (d & Hd & Hsp); [lia|]. congruence. }
      rewrite Ep, Es in Hn. rewrite Hn. cbn [mbind option_bind].
      rewrite <- Es, str_drop_add.
      replace (p + (end_ sp - p)) with (end_ sp) by lia.
      rewrite (proj2 (IH (end_ sp) toks ltac:(lia) ltac:(lia)) Hr). cbn.
      destruct sp as [a b]. simpl in *. subst. done.
Qed.

(** The tokenizer returns a token list exactly when the list tiles the
    text: tokens are in order and do not overlap, each is the one read at its
    first byte, and every byte outside the tokens is white space; the fuel is never
    what ends the scan. *)
Theorem tokenizer_tiles decode source tokens :
  tokenizer decode source = Some tokens ↔ tiles decode source 0 tokens.
Proof. apply (tokens_from_tiles decode source _ 0); lia. Qed.

(** ** Token values *)

Definition token_ok (t : Token) : Prop :=
  match t with Integer v => fits U64 v = true | _ => True end.

Lemma keyword_ok k : k ∈ keywords → token_ok (snd k).
Proof. revert k. apply Forall_forall. repeat constructor. Qed.

Lemma word_token_ok s : token_ok (fst (word_token s)).
Proof.
  unfold word_token. cbn [fst]. destruct (find _ keywords) as [k|] eqn:E; [|done].
  by apply find_Some in E as [?%keyword_ok _].
Qed.

Lemma next_token_ok decode s t n : next_token decode s = Some (t, n) → token_ok t.
Proof.
  unfold next_token. destruct s as [|c s1]; [done|].
  destruct (is_word_start c).
  { intros H. pose proof (word_token_ok (String c s1)) as Hw.
    assert (Heq : word_token (String c s1) = (t, n)) by congruence. by rewrite Heq in Hw. }
  destruct (is_ascii_digit c).
  { unfold number_token. intros H. case_match.
    - destruct (digits _ _ _) as [[v ?] ?]. destruct (narrow U64 v) eqn:E; simpl in H; [|done].
      simplify_eq. by eapply narrow_fits.
    - destruct (parse_float _ _); simpl in H; [|done]. case_match; by simplify_eq. }
  destruct (Ascii.eqb c (ascii_of_nat 34)).
  { unfold string_token. intros H. destruct (string_body s1); simpl in H; [|done].
    destruct (decode _); simpl in H; by simplify_eq. }
  destruct (Ascii.eqb c "`").
  { unfold quoted_token. intros H. repeat case_match; by simplify_eq. }
  destruct (Ascii.eqb c "@").
  { unfold system_token. intros H. repeat case_match; by simplify_eq. }
  intros H. repeat case_match; by simplify_eq.
Qed.

Lemma tokens_from_ok decode fuel p s toks :
  tokens_from decode fuel p s = Some toks → Forall (token_ok ∘ fst) toks.
Proof.
  revert p s toks; induction fuel as [|fuel IH]; intros p [|c s] toks H; cbn [tokens_from] in H;
    try (simplify_eq; constructor); try done.
  destruct (is_space c); [by eapply IH|].
  apply bind_Some in H as ([t n] & Hn & H). apply bind_Some in H as (rest & Hr & H). simplify_eq.
  constructor; [exact (next_token_ok _ _ _ _ Hn) | by eapply IH].
Qed.

Lemma tokenizer_ok decode s toks :
  tokenizer decode s = Some toks → Forall (token_ok ∘ fst) toks.
Proof. apply tokens_from_ok. Qed.
