(* ===== verification/Parser.v ===== *)
(** * elucid-language: the parser

    Models src/elucid/elucid-language/src/parser/{mod,expression,command,query}.rs.
    The combinators of the parsing library are modelled by their meaning: ordered
    choice and [or_not] try an alternative and rewind when it fails, [repeated] and
    [separated_by] stop and rewind at the first item that fails, [map_with] gives the
    span from the first token consumed to the last, and [foldl_with] the span from
    the first token of the leftmost operand. The parser of expressions recurses only
    after an opening parenthesis, so the number of tokens bounds its depth. Error
    reports are not modelled: a failure is [None]. *)

From S2P Require Import Prelude Syntax Floats Lexer.

#[local] Open Scope nat_scope.

(** ** Parsers *)

(** The tokens ahead and the end of the last token consumed. *)
Record state := { ahead : list (Token * Span); last_end : nat }.

Definition parser (A : Type) := state → option (A * state).

#[export] Instance parser_ret : MRet parser := λ A a st, Some (a, st).
#[export] Instance parser_bind : MBind parser := λ A B f p st,
  match p st with Some (a, st') => f a st' | None => None end.
#[export] Instance parser_fmap : FMap parser := λ A B f p st,
  match p st with Some (a, st') => Some (f a, st') | None => None end.

(** [select! { ... }]: one token, where the function is defined on it. *)
Definition select {A} (f : Token → option A) : parser A := λ st,
  match ahead st with
  | [] => None
  | (t, s) :: rest =>
      match f t with Some a => Some (a, {| ahead := rest; last_end := end_ s |}) | None => None end
  end.

Definition just (t : Token) : parser unit := select (λ u, if decide (u = t) then Some tt else None).

(** [just(t).to(a)] *)
Definition just_to {A} (t : Token) (a : A) : parser A :=
  select (λ u, if decide (u = t) then Some a else None).

(** [choice((p, q))] *)
Definition choice {A} (p q : parser A) : parser A := λ st,
  match p st with Some r => Some r | None => q st end.

Definition or_not {A} (p : parser A) : parser (option A) := λ st,
  match p st with Some (a, st') => Some (Some a, st') | None => Some (None, st) end.

(** [p.then(q)], [p.ignore_then(q)], [p.then_ignore(q)] *)
Definition then_ {A B} (p : parser A) (q : parser B) : parser (A * B) :=
  a ← p; b ← q; mret (a, b).
Definition ignore_then {A B} (p : parser A) (q : parser B) : parser B := _ ← p; q.
Definition then_ignore {A B} (p : parser A) (q : parser B) : parser A := a ← p; _ ← q; mret a.

(** [p.delimited_by(just(LeftParenthesis), just(RightParenthesis))] *)
Definition parenthesized {A} (p : parser A) : parser A :=
  then_ignore (ignore_then (just LeftParenthesis) p) (just RightParenthesis).

(** The span of what was consumed between two states. *)
Definition span_between (st st' : state) : Span :=
  {| start := match ahead st with (_, s) :: _ => start s | [] => last_end st end;
     end_ := last_end st' |}.

(** [p.map_with(|a, extra| f(a, extra.span()))] *)
Definition map_with {A B} (p : parser A) (f : A → Span → B) : parser B := λ st,
  match p st with Some (a, st') => Some (f a (span_between st st'), st') | None => None end.

Fixpoint repeated_n {A} (n : nat) (p : parser A) : parser (list A) := λ st,
  match n with
  | O => Some ([], st)
  | S n =>
      match p st with
      | None => Some ([], st)
      | Some (a, st') =>
          match repeated_n n p st' with
          | Some (l, st'') => Some (a :: l, st'')
          | None => None
          end
      end
  end.

(** [p.repeated().collect()]: as many items as there are tokens at most. *)
Definition repeated {A} (p : parser A) : parser (list A) := λ st,
  repeated_n (length (ahead st)) p st.

(** [p.separated_by(just(Comma)).at_least(1).collect()] *)
Definition comma_separated {A} (p : parser A) : parser (list A) :=
  a ← p; l ← repeated (ignore_then (just Comma) p); mret (a :: l).

Fixpoint foldl_n {A B} (n : nat) (first : state) (item : parser B) (f : A → B → Span → A) (a : A)
    : parser A := λ st,
  match n with
  | O => Some (a, st)
  | S n =>
      match item st with
      | None => Some (a, st)
      | Some (b, st') => foldl_n n first item f (f a b (span_between first st')) st'
      end
  end.

(** [p.foldl_with(item.repeated(), |a, b, extra| f(a, b, extra.span()))] *)
Definition foldl_with {A B} (p : parser A) (item : parser B) (f : A → B → Span → A) : parser A :=
  λ st,
  match p st with
  | None => None
  | Some (a, st') => foldl_n (length (ahead st')) st item f a st'
  end.

(** [end()] *)
Definition end_of_input : parser unit := λ st,
  match ahead st with [] => Some (tt, st) | _ => None end.

(** ** mod.rs *)

Definition identifier_text (t : Token) : option string :=
  match t with
  | Identifier value | QuotedIdentifier value => Some value
  | KeywordSource => Some "source"
  | KeywordFilter => Some "filter"
  | KeywordProject => Some "project"
  | KeywordSort => Some "sort"
  | KeywordTake => Some "take"
  | KeywordSummarize => Some "summarize"
  | KeywordSecond => Some "s"
  | KeywordMinute => Some "m"
  | KeywordHour => Some "h"
  | KeywordDay => Some "d"
  | _ => None
  end%string.

Definition identifier : parser ast.Identifier :=
  map_with (select identifier_text) (λ value span, {| ast.id_value := value; ast.id_span := span |}).

Definition system_text (t : Token) : option string :=
  match t with SystemIdentifier value => Some value | _ => None end.

Definition field_reference : parser ast.FieldReference :=
  choice
    (map_with (select system_text)
       (λ value span, ast.System {| ast.id_value := value; ast.id_span := span |}))
    (ast.User <$> identifier).

Definition string_text (t : Token) : option string :=
  match t with StringLiteral value => Some value | _ => None end.

Definition string_literal : parser ast.StringLiteral :=
  map_with (select string_text) (λ value span, {| ast.sl_value := value; ast.sl_span := span |}).

Definition integer_literal : parser Z :=
  select (λ t, match t with Integer value => Some value | _ => None end).

Definition floating_point_literal : parser string :=
  select (λ t, match t with FloatingPoint value => Some value | _ => None end).

Definition logical_type : parser ast.LogicalType :=
  select (λ t,
    match t with
    | KeywordBool => Some ast.Bool | KeywordInt32 => Some ast.Int32
    | KeywordInt64 => Some ast.Int64 | KeywordUInt32 => Some ast.UInt32
    | KeywordUInt64 => Some ast.UInt64 | KeywordFloat32 => Some ast.Float32
    | KeywordFloat64 => Some ast.Float64 | KeywordUtf8 => Some ast.Utf8
    | KeywordDatetime => Some ast.Datetime | KeywordEid => Some ast.Eid
    | KeywordJson => Some ast.Json
    | _ => None
    end).

(** ** expression.rs *)

Definition sign_of (o : option ast.NumericSign) : ast.NumericSign := default ast.NonNegative o.

Definition minus : parser (option ast.NumericSign) :=
  or_not (just_to OperatorSubtract ast.Negative).

Definition signed_integer_literal : parser ast.SignedIntegerLiteral :=
  map_with (then_ minus integer_literal)
    (λ '(sign, magnitude) span,
       {| ast.si_sign := sign_of sign; ast.si_magnitude := magnitude; ast.si_span := span |}).

Definition datetime_constructor_value : parser ast.StringLiteral :=
  ignore_then (just KeywordDatetime) (parenthesized string_literal).

Definition literal_node (kind : ast.LiteralKind) (span : Span) : ast.Expression :=
  ast.ELiteral {| ast.l_kind := kind; ast.l_span := span |} span.

Definition constructor_node (kind : ast.ConstructorKind) (span : Span) : ast.Expression :=
  ast.EConstructor {| ast.c_kind := kind; ast.c_span := span |} span.

Definition integer_target (t : Token) : option ast.NumericType :=
  match t with
  | KeywordInt32 => Some ast.NInt32 | KeywordInt64 => Some ast.NInt64
  | KeywordUInt32 => Some ast.NUInt32 | KeywordUInt64 => Some ast.NUInt64
  | _ => None
  end.

Definition integer_constructor : parser ast.Expression :=
  map_with
    (then_ignore
       (then_ (then_ignore (select integer_target) (just LeftParenthesis)) signed_integer_literal)
       (just RightParenthesis))
    (λ '(target, literal) span,
       constructor_node
         (ast.Numeric target
            {| ast.sn_sign := ast.si_sign literal;
               ast.sn_kind := ast.NInteger (ast.si_magnitude literal);
               ast.sn_span := ast.si_span literal |}) span).

Definition numeric_magnitude : parser ast.NumericLiteralKind :=
  choice (ast.NInteger <$> integer_literal) (ast.NFloatingPoint <$> floating_point_literal).

Definition signed_numeric_literal : parser ast.SignedNumericLiteral :=
  map_with (then_ minus numeric_magnitude)
    (λ '(sign, kind) span,
       {| ast.sn_sign := sign_of sign; ast.sn_kind := kind; ast.sn_span := span |}).

Definition floating_target (t : Token) : option ast.NumericType :=
  match t with
  | KeywordFloat32 => Some ast.NFloat32 | KeywordFloat64 => Some ast.NFloat64 | _ => None end.

Definition floating_constructor : parser ast.Expression :=
  map_with
    (then_ignore
       (then_ (then_ignore (select floating_target) (just LeftParenthesis)) signed_numeric_literal)
       (just RightParenthesis))
    (λ '(target, literal) span, constructor_node (ast.Numeric target literal) span).

Definition datetime_constructor : parser ast.Expression :=
  map_with datetime_constructor_value
    (λ value span, constructor_node (ast.DatetimeConstructor value) span).

Definition eid_constructor : parser ast.Expression :=
  map_with (ignore_then (just KeywordEid) (parenthesized string_literal))
    (λ value span, constructor_node (ast.EidConstructor value) span).

Definition cast_kind (t : Token) : option ast.CastKind :=
  match t with
  | KeywordCast => Some ast.Strict | KeywordTryCast => Some ast.NullOnFailure | _ => None end.

Definition remainder_function (t : Token) : option ast.RemainderFunction :=
  match t with
  | KeywordRest => Some ast.Value | KeywordRestExists => Some ast.Exists | _ => None end.

Definition remainder : parser ast.Expression :=
  map_with
    (then_ignore
       (then_ (then_ignore (select remainder_function) (just LeftParenthesis)) string_literal)
       (just RightParenthesis))
    (λ '(function, key) span,
       ast.ERemainder {| ast.re_function := function; ast.re_key := key; ast.re_span := span |} span).

Definition integer : parser ast.Expression :=
  map_with integer_literal (λ value span, literal_node (ast.Integer value) span).
Definition floating_point : parser ast.Expression :=
  map_with floating_point_literal (λ value span, literal_node (ast.FloatingPoint value) span).
Definition string_expression : parser ast.Expression :=
  (λ value, literal_node (ast.Str (ast.sl_value value)) (ast.sl_span value)) <$> string_literal.
Definition null : parser ast.Expression :=
  map_with (just KeywordNull) (λ _ span, literal_node ast.Null span).
Definition boolean : parser ast.Expression :=
  map_with
    (select (λ t, match t with KeywordTrue => Some true | KeywordFalse => Some false | _ => None end))
    (λ value span, literal_node (ast.Boolean value) span).
Definition field : parser ast.Expression :=
  (λ f, ast.EField f (ast.reference_span f)) <$> field_reference.

Definition binary_expression (operator : ast.BinaryOperator) (l r : ast.Expression) (span : Span)
    : ast.Expression := ast.EBinary operator l r span.

Definition fold_binary_node (l : ast.Expression) (item : ast.BinaryOperator * ast.Expression)
    (span : Span) : ast.Expression := binary_expression (fst item) l (snd item) span.

Definition multiplicative_operator (t : Token) : option ast.BinaryOperator :=
  match t with
  | OperatorMultiply => Some ast.Multiply | OperatorDivide => Some ast.Divide | _ => None end.

Definition additive_operator (t : Token) : option ast.BinaryOperator :=
  match t with
  | OperatorAdd => Some ast.Add | OperatorSubtract => Some ast.Subtract | _ => None end.

Definition comparison_operator (t : Token) : option ast.BinaryOperator :=
  match t with
  | OperatorEqual => Some ast.Equal | OperatorNotEqual => Some ast.NotEqual
  | OperatorGreaterThanOrEqual => Some ast.GreaterThanOrEqual
  | OperatorGreaterThan => Some ast.GreaterThan
  | OperatorLessThanOrEqual => Some ast.LessThanOrEqual
  | OperatorLessThan => Some ast.LessThan
  | _ => None
  end.

Definition unary_operator (t : Token) : option ast.UnaryOperator :=
  match t with
  | KeywordNot => Some ast.Not | OperatorSubtract => Some ast.Negate | _ => None end.

(** The body of [recursive(|expression| ...)]. *)
Section Levels.
Context (expression : parser ast.Expression).

Definition cast : parser ast.Expression :=
  map_with
    (then_ignore
       (then_
          (then_ignore
             (then_ (then_ignore (select cast_kind) (just LeftParenthesis)) expression)
             (just KeywordAs))
          logical_type)
       (just RightParenthesis))
    (λ '(kind, e, target) span, ast.ECast kind e target span span).

Definition parenthesized_expression : parser ast.Expression :=
  map_with (parenthesized expression) (λ e span, ast.with_span e span).

Definition primary : parser ast.Expression :=
  choice integer_constructor (choice floating_constructor (choice datetime_constructor
  (choice eid_constructor (choice cast (choice remainder (choice integer (choice floating_point
  (choice string_expression (choice null (choice boolean (choice field
  parenthesized_expression))))))))))).

Definition unary : parser ast.Expression :=
  map_with (then_ (or_not (select unary_operator)) primary)
    (λ '(operator, operand) span,
       match operator with
       | Some operator => ast.EUnary operator operand span
       | None => operand
       end).

Definition multiplicative : parser ast.Expression :=
  foldl_with unary (then_ (select multiplicative_operator) unary) fold_binary_node.

Definition additive : parser ast.Expression :=
  foldl_with multiplicative (then_ (select additive_operator) multiplicative) fold_binary_node.

Definition comparison : parser ast.Expression :=
  map_with (then_ additive (or_not (then_ (select comparison_operator) additive)))
    (λ '(l, operation) span,
       match operation with
       | Some (operator, r) => binary_expression operator l r span
       | None => l
       end).

Definition logical_and : parser ast.Expression :=
  foldl_with comparison (then_ (just_to KeywordAnd ast.And) comparison) fold_binary_node.

Definition logical_or : parser ast.Expression :=
  foldl_with logical_and (then_ (just_to KeywordOr ast.Or) logical_and) fold_binary_node.

End Levels.

Fixpoint expression_n (n : nat) : parser ast.Expression := λ st,
  match n with
  | O => None
  | S n => logical_or (expression_n n) st
  end.

Definition expression_parser : parser ast.Expression := λ st,
  expression_n (S (length (ahead st))) st.

(** ** command.rs *)

Definition filter_stage : parser ast.Stage :=
  map_with (ignore_then (just KeywordFilter) expression_parser)
    (λ e span, {| ast.st_kind := ast.Filter e; ast.st_span := span |}).

Definition projection_of (e : ast.Expression) : ast.Projection :=
  match e with
  | ast.EField f span =>
      if decide (ast.reference_span f = span) then ast.PField f else ast.Unaliased e
  | _ => ast.Unaliased e
  end.

Definition projection : parser ast.Projection :=
  choice
    (map_with (then_ (then_ignore identifier (just OperatorAssign)) expression_parser)
       (λ '(alias, e) span,
          ast.Computed {| ast.cp_alias := alias; ast.cp_expression := e; ast.cp_span := span |}))
    (projection_of <$> expression_parser).

Definition project_stage : parser ast.Stage :=
  map_with (ignore_then (just KeywordProject) (comma_separated projection))
    (λ ps span, {| ast.st_kind := ast.Project ps; ast.st_span := span |}).

Definition sort_direction : parser ast.SortDirection :=
  choice (just_to OperatorAdd ast.Ascending) (just_to OperatorSubtract ast.Descending).

Definition sort_item : parser ast.SortItem :=
  map_with (then_ (or_not sort_direction) field_reference)
    (λ '(direction, f) span,
       {| ast.so_field := f; ast.so_direction := default ast.Ascending direction;
          ast.so_span := span |}).

Definition sort_stage : parser ast.Stage :=
  map_with
    (ignore_then (just KeywordSort) (ignore_then (or_not (just KeywordBy)) (comma_separated sort_item)))
    (λ items span, {| ast.st_kind := ast.Sort items; ast.st_span := span |}).

Definition take_stage : parser ast.Stage :=
  map_with (ignore_then (just KeywordTake) signed_integer_literal)
    (λ value span, {| ast.st_kind := ast.Take value; ast.st_span := span |}).

Definition aggregate_function (t : Token) : option ast.AggregateFunction :=
  match t with
  | KeywordCount => Some ast.Count | KeywordSum => Some ast.Sum | KeywordMin => Some ast.Min
  | KeywordMax => Some ast.Max | KeywordAvg => Some ast.Avg | _ => None
  end.

Definition aggregate_call : parser ast.AggregateCall :=
  map_with
    (then_ignore
       (then_ (then_ignore (select aggregate_function) (just LeftParenthesis)) (or_not field_reference))
       (just RightParenthesis))
    (λ '(function, argument) span,
       {| ast.ac_function := function; ast.ac_argument := argument; ast.ac_span := span |}).

Definition measure : parser ast.Measure :=
  map_with (then_ (or_not (then_ignore identifier (just OperatorAssign))) aggregate_call)
    (λ '(alias, aggregate) span,
       {| ast.me_alias := alias; ast.me_aggregate := aggregate; ast.me_span := span |}).

Definition group_by : parser (list ast.FieldReference) :=
  default [] <$> or_not (ignore_then (just KeywordBy) (comma_separated field_reference)).

Definition summarize_stage : parser ast.Stage :=
  map_with (then_ (ignore_then (just KeywordSummarize) (comma_separated measure)) group_by)
    (λ '(measures, groups) span,
       {| ast.st_kind := ast.Summarize measures groups; ast.st_span := span |}).

Definition stage_parser : parser ast.Stage :=
  choice filter_stage (choice project_stage (choice sort_stage (choice take_stage summarize_stage))).

(** ** query.rs *)

Definition time_unit_of (t : Token) : option ast.TimeUnit :=
  match t with
  | KeywordSecond => Some ast.Second | KeywordMinute => Some ast.Minute
  | KeywordHour => Some ast.Hour | KeywordDay => Some ast.Day | _ => None
  end.

Definition compact_unit (t : Token) : option ast.TimeUnit :=
  match t with
  | SystemIdentifier name =>
      if decide (name = "@s"%string) then Some ast.Second
      else if decide (name = "@m"%string) then Some ast.Minute
      else if decide (name = "@h"%string) then Some ast.Hour
      else if decide (name = "@d"%string) then Some ast.Day
      else None
  | _ => None
  end.

Definition truncation : parser ast.TimeOperation :=
  map_with (choice (select compact_unit) (ignore_then (just At) (select time_unit_of)))
    (λ unit span, {| ast.to_kind := ast.Truncate unit; ast.to_span := span |}).

Definition positive_integer (t : Token) : option Z :=
  match t with Integer value => if (value =? 0)%Z then None else Some value | _ => None end.

Definition direction_of (t : Token) : option ast.TimeDirection :=
  match t with
  | OperatorAdd => Some ast.Forward | OperatorSubtract => Some ast.Backward | _ => None end.

Definition shift : parser ast.TimeOperation :=
  map_with (then_ (then_ (select direction_of) (or_not (select positive_integer))) (select time_unit_of))
    (λ '(direction, magnitude, unit) span,
       {| ast.to_kind := ast.Shift direction (default 1%Z magnitude) unit; ast.to_span := span |}).

Definition time_operation : parser ast.TimeOperation := choice truncation shift.

Definition time_expression : parser ast.TimeExpression :=
  choice
    (map_with datetime_constructor_value
       (λ value span, {| ast.te_kind := ast.TDatetime value; ast.te_span := span |}))
    (choice
       (map_with (just KeywordNow) (λ _ span, {| ast.te_kind := ast.Now; ast.te_span := span |}))
       (map_with (op ← time_operation; ops ← repeated time_operation; mret (op :: ops))
          (λ ops span, {| ast.te_kind := ast.Relative ops; ast.te_span := span |}))).

Definition time_bound (keyword : Token) : parser ast.TimeExpression :=
  ignore_then (just keyword) (ignore_then (just OperatorAssign) time_expression).

Definition source_expression : parser ast.SourceExpression :=
  map_with
    (then_
       (then_ (ignore_then (just KeywordSource) identifier) (or_not (time_bound KeywordStartInclusive)))
       (or_not (time_bound KeywordEndExclusive)))
    (λ '(name, start_inclusive, end_exclusive) span,
       {| ast.se_name := name; ast.se_start_inclusive := start_inclusive;
          ast.se_end_exclusive := end_exclusive; ast.se_span := span |}).

Definition query_parser : parser ast.Query :=
  map_with
    (then_ignore
       (then_ source_expression (repeated (ignore_then (just Pipe) stage_parser)))
       end_of_input)
    (λ '(source, stages) span,
       {| ast.q_source := source; ast.q_stages := stages; ast.q_span := span |}).

(** [parser::parse]; [None] is a syntax error. *)
Definition parse (decode_string : string → option string) (source : string) : option ast.Query :=
  tokens ← tokenizer decode_string source;
  fst <$> query_parser {| ahead := tokens; last_end := 0 |}.
