(* ===== verification/ParserCorrect.v ===== *)
(** * Parsers that implement a grammar

    A parser is [good] for a grammar when it only accepts derivable token lists,
    accepts every derivable list that is followed by an allowed token, and touches
    nothing where the next token cannot start the grammar. One lemma per combinator
    composes these facts; the parsers of
    src/elucid/elucid-language/src/parser follow by application. *)

From S2P Require Import Prelude Syntax Floats Lexer Parser.
#[local] Open Scope nat_scope.

(** ** The grammar of queries

    The grammar that src/elucid/elucid-language/src/parser implements, as relations
    between a list of tokens with spans and the tree it stands for: sequence, union,
    option and iteration, without order between alternatives and without rewinding. *)

Notation tokens := (list (Token * Span)).

(** ** Grammar combinators *)

Definition G (A : Type) := tokens → A → Prop.

(** The span of a non-empty list of tokens. *)
Definition span_of (ts : tokens) : Span :=
  {| start := match ts with (_, s) :: _ => start s | [] => 0 end;
     end_ := match last ts with Some (_, s) => end_ s | None => 0 end |}.

Definition gselect {A} (f : Token → option A) : G A := λ ts a,
  ∃ t s, ts = [(t, s)] ∧ f t = Some a.
Definition gjust (t : Token) : G unit := gselect (λ u, if decide (u = t) then Some tt else None).
Definition gjust_to {A} (t : Token) (a : A) : G A :=
  gselect (λ u, if decide (u = t) then Some a else None).
Definition galt {A} (g h : G A) : G A := λ ts a, g ts a ∨ h ts a.
Definition gopt {A} (g : G A) : G (option A) := λ ts o,
  match o with Some a => g ts a | None => ts = [] end.
Definition gseq {A B} (g : G A) (h : G B) : G (A * B) := λ ts ab,
  ∃ us vs, ts = us ++ vs ∧ g us (fst ab) ∧ h vs (snd ab).
Definition gright {A B} (g : G A) (h : G B) : G B := λ ts b, ∃ a, gseq g h ts (a, b).
Definition gleft {A B} (g : G A) (h : G B) : G A := λ ts a, ∃ b, gseq g h ts (a, b).
Definition gmap {A B} (f : A → B) (g : G A) : G B := λ ts b, ∃ a, g ts a ∧ b = f a.
(** The tree gets the span of its tokens. *)
Definition gspan {A B} (g : G A) (f : A → Span → B) : G B := λ ts b,
  ∃ a, g ts a ∧ b = f a (span_of ts).
Inductive gstar {A} (g : G A) : G (list A) :=
| gstar_nil : gstar g [] []
| gstar_cons us a vs l : g us a → gstar g vs l → gstar g (us ++ vs) (a :: l).
Definition gcons {A} (g : G A) (h : G (list A)) : G (list A) :=
  gmap (λ al, fst al :: snd al) (gseq g h).
Definition gparen {A} (g : G A) : G A :=
  gleft (gright (gjust LeftParenthesis) g) (gjust RightParenthesis).
Definition gcommas {A} (g : G A) : G (list A) := gcons g (gstar (gright (gjust Comma) g)).

(** Left-associative iteration: [gfold_from gi f us a vs r] extends the tree [a] of
    the tokens [us] by the items in [vs]. *)
Inductive gfold_from {A B} (gi : G B) (f : A → B → Span → A) : tokens → A → tokens → A → Prop :=
| gfold_nil us a : gfold_from gi f us a [] a
| gfold_cons us a vs b ws r :
    gi vs b → gfold_from gi f (us ++ vs) (f a b (span_of (us ++ vs))) ws r →
    gfold_from gi f us a (vs ++ ws) r.
Definition gfoldl {A B} (g : G A) (gi : G B) (f : A → B → Span → A) : G A := λ ts r,
  ∃ us vs a, ts = us ++ vs ∧ g us a ∧ gfold_from gi f us a vs r.

(** ** The grammar of the parser (parser/*.rs)

    The productions of spec/v0/query-language.md, except that the parser takes any
    expression as a projection and a measure without an alias; [spec_query] below is the
    grammar of the specification itself. *)

Definition g_identifier : G ast.Identifier :=
  gspan (gselect identifier_text) (λ value span, {| ast.id_value := value; ast.id_span := span |}).
Definition g_field_reference : G ast.FieldReference :=
  galt
    (gspan (gselect system_text)
       (λ value span, ast.System {| ast.id_value := value; ast.id_span := span |}))
    (gmap ast.User g_identifier).
Definition g_string_literal : G ast.StringLiteral :=
  gspan (gselect string_text) (λ value span, {| ast.sl_value := value; ast.sl_span := span |}).
Definition integer_value (t : Token) : option Z := match t with Integer v => Some v | _ => None end.
Definition float_text (t : Token) : option string :=
  match t with FloatingPoint v => Some v | _ => None end.
Definition type_name (t : Token) : option ast.LogicalType :=
  match t with
  | KeywordBool => Some ast.Bool | KeywordInt32 => Some ast.Int32
  | KeywordInt64 => Some ast.Int64 | KeywordUInt32 => Some ast.UInt32
  | KeywordUInt64 => Some ast.UInt64 | KeywordFloat32 => Some ast.Float32
  | KeywordFloat64 => Some ast.Float64 | KeywordUtf8 => Some ast.Utf8
  | KeywordDatetime => Some ast.Datetime | KeywordEid => Some ast.Eid
  | KeywordJson => Some ast.Json
  | _ => None
  end.
Definition g_minus : G (option ast.NumericSign) := gopt (gjust_to OperatorSubtract ast.Negative).
Definition g_signed_integer : G ast.SignedIntegerLiteral :=
  gspan (gseq g_minus (gselect integer_value))
    (λ '(sign, magnitude) span,
       {| ast.si_sign := sign_of sign; ast.si_magnitude := magnitude; ast.si_span := span |}).
Definition g_datetime_value : G ast.StringLiteral :=
  gright (gjust KeywordDatetime) (gparen g_string_literal).
Definition g_integer_constructor : G ast.Expression :=
  gspan
    (gleft (gseq (gleft (gselect integer_target) (gjust LeftParenthesis)) g_signed_integer)
       (gjust RightParenthesis))
    (λ '(target, literal) span,
       constructor_node
         (ast.Numeric target
            {| ast.sn_sign := ast.si_sign literal;
               ast.sn_kind := ast.NInteger (ast.si_magnitude literal);
               ast.sn_span := ast.si_span literal |}) span).
Definition g_signed_numeric : G ast.SignedNumericLiteral :=
  gspan
    (gseq g_minus (galt (gmap ast.NInteger (gselect integer_value))
                        (gmap ast.NFloatingPoint (gselect float_text))))
    (λ '(sign, kind) span,
       {| ast.sn_sign := sign_of sign; ast.sn_kind := kind; ast.sn_span := span |}).
Definition g_floating_constructor : G ast.Expression :=
  gspan
    (gleft (gseq (gleft (gselect floating_target) (gjust LeftParenthesis)) g_signed_numeric)
       (gjust RightParenthesis))
    (λ '(target, literal) span, constructor_node (ast.Numeric target literal) span).
Definition g_datetime_constructor : G ast.Expression :=
  gspan g_datetime_value (λ value span, constructor_node (ast.DatetimeConstructor value) span).
Definition g_eid_constructor : G ast.Expression :=
  gspan (gright (gjust KeywordEid) (gparen g_string_literal))
    (λ value span, constructor_node (ast.EidConstructor value) span).
Definition g_remainder : G ast.Expression :=
  gspan
    (gleft (gseq (gleft (gselect remainder_function) (gjust LeftParenthesis)) g_string_literal)
       (gjust RightParenthesis))
    (λ '(function, key) span,
       ast.ERemainder {| ast.re_function := function; ast.re_key := key; ast.re_span := span |} span).
Definition boolean_value (t : Token) : option bool :=
  match t with KeywordTrue => Some true | KeywordFalse => Some false | _ => None end.
Definition g_integer : G ast.Expression :=
  gspan (gselect integer_value) (λ value span, literal_node (ast.Integer value) span).
Definition g_floating_point : G ast.Expression :=
  gspan (gselect float_text) (λ value span, literal_node (ast.FloatingPoint value) span).
Definition g_string : G ast.Expression :=
  gmap (λ value, literal_node (ast.Str (ast.sl_value value)) (ast.sl_span value)) g_string_literal.
Definition g_null : G ast.Expression :=
  gspan (gjust KeywordNull) (λ _ span, literal_node ast.Null span).
Definition g_boolean : G ast.Expression :=
  gspan (gselect boolean_value) (λ value span, literal_node (ast.Boolean value) span).
Definition g_field : G ast.Expression :=
  gmap (λ f, ast.EField f (ast.reference_span f)) g_field_reference.

Section GrammarLevels.
Context (g_expression : G ast.Expression).
Definition g_cast : G ast.Expression :=
  gspan
    (gleft
       (gseq
          (gleft (gseq (gleft (gselect cast_kind) (gjust LeftParenthesis)) g_expression)
             (gjust KeywordAs))
          (gselect type_name))
       (gjust RightParenthesis))
    (λ '(kind, e, target) span, ast.ECast kind e target span span).
Definition g_parenthesized : G ast.Expression :=
  gspan (gparen g_expression) (λ e span, ast.with_span e span).
Definition g_primary : G ast.Expression :=
  galt g_integer_constructor (galt g_floating_constructor (galt g_datetime_constructor
  (galt g_eid_constructor (galt g_cast (galt g_remainder (galt g_integer (galt g_floating_point
  (galt g_string (galt g_null (galt g_boolean (galt g_field g_parenthesized))))))))))).
Definition g_unary : G ast.Expression :=
  gspan (gseq (gopt (gselect unary_operator)) g_primary)
    (λ '(operator, operand) span,
       match operator with
       | Some operator => ast.EUnary operator operand span
       | None => operand
       end).
Definition g_multiplicative : G ast.Expression :=
  gfoldl g_unary (gseq (gselect multiplicative_operator) g_unary) fold_binary_node.
Definition g_additive : G ast.Expression :=
  gfoldl g_multiplicative (gseq (gselect additive_operator) g_multiplicative) fold_binary_node.
Definition g_comparison : G ast.Expression :=
  gspan (gseq g_additive (gopt (gseq (gselect comparison_operator) g_additive)))
    (λ '(l, operation) span,
       match operation with
       | Some (operator, r) => binary_expression operator l r span
       | None => l
       end).
Definition g_logical_and : G ast.Expression :=
  gfoldl g_comparison (gseq (gjust_to KeywordAnd ast.And) g_comparison) fold_binary_node.
Definition g_logical_or : G ast.Expression :=
  gfoldl g_logical_and (gseq (gjust_to KeywordOr ast.Or) g_logical_and) fold_binary_node.
End GrammarLevels.

(** Expressions: the least relation closed under the levels above. *)
Definition g_expression : G ast.Expression := λ ts e,
  ∀ P : G ast.Expression, (∀ us e', g_logical_or P us e' → P us e') → P ts e.

Definition g_filter : G ast.Stage :=
  gspan (gright (gjust KeywordFilter) g_expression)
    (λ e span, {| ast.st_kind := ast.Filter e; ast.st_span := span |}).
Definition g_computed : G ast.Projection :=
  gspan (gseq (gleft g_identifier (gjust OperatorAssign)) g_expression)
    (λ '(alias, e) span,
       ast.Computed {| ast.cp_alias := alias; ast.cp_expression := e; ast.cp_span := span |}).
Definition g_projection : G ast.Projection := galt g_computed (gmap projection_of g_expression).
Definition project_of (projection : G ast.Projection) : G ast.Stage :=
  gspan (gright (gjust KeywordProject) (gcommas projection))
    (λ ps span, {| ast.st_kind := ast.Project ps; ast.st_span := span |}).
Definition g_sort_item : G ast.SortItem :=
  gspan
    (gseq (gopt (galt (gjust_to OperatorAdd ast.Ascending) (gjust_to OperatorSubtract ast.Descending)))
       g_field_reference)
    (λ '(direction, f) span,
       {| ast.so_field := f; ast.so_direction := default ast.Ascending direction;
          ast.so_span := span |}).
Definition g_sort : G ast.Stage :=
  gspan (gright (gjust KeywordSort) (gright (gopt (gjust KeywordBy)) (gcommas g_sort_item)))
    (λ items span, {| ast.st_kind := ast.Sort items; ast.st_span := span |}).
Definition g_take : G ast.Stage :=
  gspan (gright (gjust KeywordTake) g_signed_integer)
    (λ value span, {| ast.st_kind := ast.Take value; ast.st_span := span |}).
Definition g_aggregate_call : G ast.AggregateCall :=
  gspan
    (gleft
       (gseq (gleft (gselect aggregate_function) (gjust LeftParenthesis)) (gopt g_field_reference))
       (gjust RightParenthesis))
    (λ '(function, argument) span,
       {| ast.ac_function := function; ast.ac_argument := argument; ast.ac_span := span |}).
Definition g_measure : G ast.Measure :=
  gspan (gseq (gopt (gleft g_identifier (gjust OperatorAssign))) g_aggregate_call)
    (λ '(alias, aggregate) span,
       {| ast.me_alias := alias; ast.me_aggregate := aggregate; ast.me_span := span |}).
Definition g_group_by : G (list ast.FieldReference) :=
  gmap (default []) (gopt (gright (gjust KeywordBy) (gcommas g_field_reference))).
Definition summarize_of (measure : G ast.Measure) : G ast.Stage :=
  gspan (gseq (gright (gjust KeywordSummarize) (gcommas measure)) g_group_by)
    (λ '(measures, groups) span,
       {| ast.st_kind := ast.Summarize measures groups; ast.st_span := span |}).
Definition stage_of (projection : G ast.Projection) (measure : G ast.Measure) : G ast.Stage :=
  galt g_filter (galt (project_of projection) (galt g_sort (galt g_take (summarize_of measure)))).
Definition g_stage : G ast.Stage := stage_of g_projection g_measure.
Definition g_truncation : G ast.TimeOperation :=
  gspan (galt (gselect compact_unit) (gright (gjust At) (gselect time_unit_of)))
    (λ unit span, {| ast.to_kind := ast.Truncate unit; ast.to_span := span |}).
Definition g_shift : G ast.TimeOperation :=
  gspan (gseq (gseq (gselect direction_of) (gopt (gselect positive_integer))) (gselect time_unit_of))
    (λ '(direction, magnitude, unit) span,
       {| ast.to_kind := ast.Shift direction (default 1%Z magnitude) unit; ast.to_span := span |}).
Definition g_time_operation : G ast.TimeOperation := galt g_truncation g_shift.
Definition g_time_expression : G ast.TimeExpression :=
  galt
    (gspan g_datetime_value
       (λ value span, {| ast.te_kind := ast.TDatetime value; ast.te_span := span |}))
    (galt
       (gspan (gjust KeywordNow) (λ _ span, {| ast.te_kind := ast.Now; ast.te_span := span |}))
       (gspan (gcons g_time_operation (gstar g_time_operation))
          (λ ops span, {| ast.te_kind := ast.Relative ops; ast.te_span := span |}))).
Definition g_time_bound (keyword : Token) : G ast.TimeExpression :=
  gright (gjust keyword) (gright (gjust OperatorAssign) g_time_expression).
Definition g_source : G ast.SourceExpression :=
  gspan
    (gseq
       (gseq (gright (gjust KeywordSource) g_identifier) (gopt (g_time_bound KeywordStartInclusive)))
       (gopt (g_time_bound KeywordEndExclusive)))
    (λ '(name, start_inclusive, end_exclusive) span,
       {| ast.se_name := name; ast.se_start_inclusive := start_inclusive;
          ast.se_end_exclusive := end_exclusive; ast.se_span := span |}).
Definition query_of (stage : G ast.Stage) : G ast.Query :=
  gspan (gseq g_source (gstar (gright (gjust Pipe) stage)))
    (λ '(source, stages) span,
       {| ast.q_source := source; ast.q_stages := stages; ast.q_span := span |}).
Definition g_query : G ast.Query := query_of g_stage.

(** ** The normative grammar (spec/v0/query-language.md, section 3)

    A projection is a field or has an alias, and every measure has one. *)

Definition spec_projection : G ast.Projection := galt (gmap ast.PField g_field_reference) g_computed.
Definition spec_measure : G ast.Measure :=
  gspan (gseq (gleft g_identifier (gjust OperatorAssign)) g_aggregate_call)
    (λ '(alias, aggregate) span,
       {| ast.me_alias := Some alias; ast.me_aggregate := aggregate; ast.me_span := span |}).
Definition spec_query : G ast.Query := query_of (stage_of spec_projection spec_measure).

(** Trees in which every projection that is not a field and every measure has an alias. *)
Definition projection_named (p : ast.Projection) : Prop :=
  match p with ast.Unaliased _ => False | _ => True end.
Definition measure_named (m : ast.Measure) : Prop := is_Some (ast.me_alias m).
Definition stage_named (s : ast.Stage) : Prop :=
  match ast.st_kind s with
  | ast.Project ps => Forall projection_named ps
  | ast.Summarize ms _ => Forall measure_named ms
  | _ => True
  end.
Definition query_named (q : ast.Query) : Prop := Forall stage_named (ast.q_stages q).

(** ** Monotonicity *)

(** Inclusion of the derived trees. *)
#[export] Instance g_sub {A} : SqSubsetEq (G A) := λ g h, ∀ ts a, g ts a → h ts a.

#[export] Instance g_sub_preorder {A} : PreOrder (⊑@{G A}).
Proof. split; [by intros g ts a | intros f g h H1 H2 ts a; auto]. Qed.

#[export] Instance galt_proper {A} : Proper ((⊑) ==> (⊑) ==> (⊑)) (@galt A).
Proof. intros g g' Hg h h' Hh ts a [H|H]; [left; by apply Hg | right; by apply Hh]. Qed.

#[export] Instance gopt_proper {A} : Proper ((⊑) ==> (⊑)) (@gopt A).
Proof. intros g g' Hg ts [a|] H; [by apply Hg | done]. Qed.

#[export] Instance gseq_proper {A B} : Proper ((⊑) ==> (⊑) ==> (⊑)) (@gseq A B).
Proof. intros g g' Hg h h' Hh ts a (us & vs & -> & H1 & H2). exists us, vs. auto. Qed.

#[export] Instance gleft_proper {A B} : Proper ((⊑) ==> (⊑) ==> (⊑)) (@gleft A B).
Proof. intros g g' Hg h h' Hh ts a [b H]. exists b. by eapply gseq_proper. Qed.

#[export] Instance gright_proper {A B} : Proper ((⊑) ==> (⊑) ==> (⊑)) (@gright A B).
Proof. intros g g' Hg h h' Hh ts b [a H]. exists a. by eapply gseq_proper. Qed.

#[export] Instance gspan_proper {A B} : Proper ((⊑) ==> (=) ==> (⊑)) (@gspan A B).
Proof. intros g g' Hg f f' <- ts b (a & H & ->). exists a. auto. Qed.

#[export] Instance gfoldl_proper {A B} : Proper ((⊑) ==> (⊑) ==> (=) ==> (⊑)) (@gfoldl A B).
Proof.
  intros g g' Hg h h' Hh f f' <- ts r (us & vs & a & -> & H & Hf).
  exists us, vs, a. split_and!; [done | by apply Hg |].
  clear H. induction Hf as [|us a vs b ws r Hb Hf IH]; [constructor | econstructor; [by apply Hh | done]].
Qed.

#[export] Instance g_logical_or_proper : Proper ((⊑) ==> (⊑)) g_logical_or.
Proof.
  intros g g' Hg.
  unfold g_logical_or, g_logical_and, g_comparison, g_additive, g_multiplicative, g_unary, g_primary,
    g_cast, g_parenthesized, gparen.
  repeat (f_equiv; try done).
Qed.

(** Expressions are a fixed point of the levels. *)
Lemma g_expression_fold : g_logical_or g_expression ⊑ g_expression.
Proof.
  intros ts e H P HP. apply HP. revert H. apply g_logical_or_proper.
  intros us e' He'. by apply He'.
Qed.

Lemma g_expression_unfold : g_expression ⊑ g_logical_or g_expression.
Proof.
  intros ts e H. apply H. intros us e'. apply g_logical_or_proper. apply g_expression_fold.
Qed.

Definition after (le : nat) (ts : tokens) : nat :=
  match last ts with Some (_, s) => end_ s | None => le end.

Definition at_ (ts : tokens) (le : nat) : state := {| ahead := ts; last_end := le |}.

(** The next token, if there is one, satisfies [P]. *)
Definition next_is (P : Token → bool) (ts : tokens) : Prop :=
  match ts with [] => True | (t, _) :: _ => P t = true end.

(** [good k p g n S F], on inputs of fewer than [k] tokens: [p] implements [g]; [n]
    says whether [g] derives the empty list, [S] bounds the tokens that start it and
    [F] the tokens that may follow it. *)
Record good (k : nat) {A} (p : parser A) (g : G A) (n : bool) (S F : Token → bool) : Prop := {
  good_sound : ∀ ts le a st', p (at_ ts le) = Some (a, st') →
    ∃ us, ts = us ++ ahead st' ∧ last_end st' = after le us ∧ g us a;
  good_complete : ∀ us a rest le, length (us ++ rest) < k → g us a → next_is F rest →
    p (at_ (us ++ rest) le) = Some (a, at_ rest (after le us));
  good_starts : ∀ us a, g us a → match us with [] => n = true | (t, _) :: _ => S t = true end;
  good_misses : ∀ ts le, next_is (negb ∘ S) ts →
    match p (at_ ts le) with None => True | Some (_, st') => n = true ∧ st' = at_ ts le end;
}.

Definition disjoint_tokens (S T : Token → bool) : Prop := ∀ t, S t = true → T t = false.
Definition included_tokens (S T : Token → bool) : Prop := ∀ t, S t = true → T t = true.
Definition union_tokens (S T : Token → bool) : Token → bool := λ t, S t || T t.
Definition any : Token → bool := λ _, true.

Lemma after_nil le : after le [] = le. Proof. done. Qed.

Lemma after_app le us vs : after le (us ++ vs) = after (after le us) vs.
Proof. unfold after. rewrite last_app. by destruct (last vs). Qed.

Lemma next_is_impl (P Q : Token → bool) ts : included_tokens P Q → next_is P ts → next_is Q ts.
Proof. intros H. destruct ts as [|[t s] ts]; simpl; auto. Qed.

Lemma next_is_app P us vs : us ≠ [] → next_is P us → next_is P (us ++ vs).
Proof. by destruct us as [|[t s] us]. Qed.

Lemma state_eta st : st = at_ (ahead st) (last_end st).
Proof. by destruct st. Qed.

(** ** Weakening *)

Lemma good_weaken k k' {A} (p : parser A) g n S S' F F' :
  k' ≤ k → included_tokens S S' → included_tokens F' F →
  good k p g n S F → good k' p g n S' F'.
Proof.
  intros Hk HS HF [H1 H2 H3 H4]. split; [done | | |].
  - intros us a rest le Hl Hg Hr. apply H2; [lia | done | by eapply next_is_impl].
  - intros us a Hg. specialize (H3 us a Hg). destruct us as [|[t s] us]; auto.
  - intros ts le Hn. apply H4. eapply next_is_impl; [|done]. intros t. unfold compose.
    rewrite !negb_true_iff. intros Ht. destruct (S t) eqn:E; [|done]. apply HS in E. congruence.
Qed.

(** ** One token *)

Definition starts_of {A} (f : Token → option A) : Token → bool :=
  λ t, match f t with Some _ => true | None => false end.

Lemma good_select k {A} (f : Token → option A) :
  good k (select f) (gselect f) false (starts_of f) any.
Proof.
  split.
  - intros ts le a st' H. unfold select in H. destruct ts as [|[t s] ts]; [done|]. simpl in H.
    destruct (f t) eqn:E; [|done]. simplify_eq. exists [(t, s)]. split_and!; [done | done |].
    by exists t, s.
  - intros us a rest le _ (t & s & -> & Hf) _. unfold select. simpl. by rewrite Hf.
  - intros us a (t & s & -> & Hf). unfold starts_of. by rewrite Hf.
  - intros ts le H. unfold select. destruct ts as [|[t s] ts]; simpl; [done|].
    simpl in H. unfold starts_of, compose in H.
    destruct (f t); simpl in H; done.
Qed.

Definition is_token (t : Token) : Token → bool := λ u, bool_decide (u = t).

Lemma starts_just {A} t (a : A) u :
  starts_of (λ u, if decide (u = t) then Some a else None) u = is_token t u.
Proof.
  unfold starts_of, is_token. destruct (decide (u = t));
    [by rewrite bool_decide_true | by rewrite bool_decide_false].
Qed.

Lemma good_just_to k {A} t (a : A) : good k (just_to t a) (gjust_to t a) false (is_token t) any.
Proof.
  eapply good_weaken; [done | | | apply good_select]; [|done].
  intros u. by rewrite starts_just.
Qed.

Lemma good_just k t : good k (just t) (gjust t) false (is_token t) any.
Proof. apply good_just_to. Qed.

(** ** Mapping *)

Lemma good_fmap k {A B} (f : A → B) p g n S F :
  good k p g n S F → good k (f <$> p) (gmap f g) n S F.
Proof.
  intros [H1 H2 H3 H4]. split.
  - intros ts le b st' H. unfold fmap, parser_fmap in H.
    destruct (p (at_ ts le)) as [[a st1]|] eqn:E; [|done]. simplify_eq.
    apply H1 in E as (us & ? & ? & ?). exists us. split_and!; try done. by exists a.
  - intros us b rest le Hl (a & Hg & ->) Hr. unfold fmap, parser_fmap.
    by rewrite (H2 us a rest le Hl Hg Hr).
  - intros us b (a & Hg & _). by eapply H3.
  - intros ts le Hn. specialize (H4 ts le Hn). unfold fmap, parser_fmap.
    destruct (p (at_ ts le)) as [[a st1]|]; done.
Qed.

Lemma span_between_of us rest le :
  us ≠ [] → span_between (at_ (us ++ rest) le) (at_ rest (after le us)) = span_of us.
Proof.
  intros Hne. unfold span_between, span_of, after. simpl. f_equal.
  - by destruct us as [|[t s] us].
  - destruct (last us) as [[t s]|] eqn:E; [done|]. by apply last_None in E.
Qed.

Lemma good_span k {A B} (f : A → Span → B) p g S F :
  good k p g false S F → good k (map_with p f) (gspan g f) false S F.
Proof.
  intros [H1 H2 H3 H4].
  assert (Hne : ∀ us a, g us a → us ≠ []).
  { intros us a Hg ->. by apply H3 in Hg. }
  split.
  - intros ts le b st' H. unfold map_with in H.
    destruct (p (at_ ts le)) as [[a st1]|] eqn:E; [|done]. simplify_eq.
    apply H1 in E as (us & -> & Hl & Hg). exists us. split_and!; try done.
    exists a. split; [done|]. f_equal. rewrite (state_eta st'), Hl. simpl.
    by apply span_between_of, (Hne us a).
  - intros us b rest le Hl (a & Hg & ->) Hr. unfold map_with.
    rewrite (H2 us a rest le Hl Hg Hr), span_between_of; [done | by eapply Hne].
  - intros us b (a & Hg & _). by eapply H3.
  - intros ts le Hn. specialize (H4 ts le Hn). unfold map_with.
    destruct (p (at_ ts le)) as [[a st1]|]; done.
Qed.

(** ** Choice *)

(** The first alternative fails where the second one is derived. *)
Lemma good_choice_try k {A} (p q : parser A) g h S T F :
  good k p g false S F → good k q h false T F →
  (∀ us a rest le, h us a → next_is F rest → p (at_ (us ++ rest) le) = None) →
  good k (choice p q) (galt g h) false (union_tokens S T) F.
Proof.
  intros [P1 P2 P3 P4] [Q1 Q2 Q3 Q4] Hf. split.
  - intros ts le a st' H. unfold choice in H. destruct (p (at_ ts le)) eqn:E.
    + simplify_eq. apply P1 in E as (us & ? & ? & ?). exists us. split_and!; try done. by left.
    + apply Q1 in H as (us & ? & ? & ?). exists us. split_and!; try done. by right.
  - intros us a rest le Hl [Hg|Hg] Hr; unfold choice.
    + by rewrite (P2 us a rest le Hl Hg Hr).
    + rewrite (Hf us a rest le Hg Hr). by apply Q2.
  - unfold union_tokens. intros us a [Hg|Hg].
    + specialize (P3 us a Hg). destruct us as [|[t s] us]; [done|]. by rewrite P3.
    + specialize (Q3 us a Hg). destruct us as [|[t s] us]; [done|]. rewrite Q3. apply orb_true_r.
  - intros ts le Hn. unfold choice.
    assert (next_is (negb ∘ S) ts ∧ next_is (negb ∘ T) ts) as [HS HT].
    { destruct ts as [|[t s] ts]; [done|]. unfold union_tokens in Hn. simpl in *. unfold compose in *.
      rewrite negb_true_iff, orb_false_iff in Hn. by rewrite !negb_true_iff. }
    specialize (P4 ts le HS). specialize (Q4 ts le HT).
    destruct (p _) as [[? ?]|]; [by destruct P4 | done].
Qed.

Lemma good_choice k {A} (p q : parser A) g h S T F :
  good k p g false S F → good k q h false T F → disjoint_tokens S T →
  good k (choice p q) (galt g h) false (union_tokens S T) F.
Proof.
  intros Hp Hq Hd. eapply good_choice_try; [done | done |].
  intros us a rest le Hg _. pose proof (good_starts _ _ _ _ _ _ Hq us a Hg) as Hs.
  destruct us as [|[t s] us]; [done|].
  pose proof (good_misses _ _ _ _ _ _ Hp ((t, s) :: us ++ rest) le) as Hm. simpl in *.
  destruct (p _) as [[? ?]|]; [|done]. destruct Hm as [? _]; [|done].
  unfold compose. apply negb_true_iff. destruct (S t) eqn:E; [|done]. apply Hd in E. congruence.
Qed.

(** ** Option *)

Lemma good_or_not k {A} (p : parser A) g S F F' :
  disjoint_tokens F' S → included_tokens F' F →
  good k p g false S F → good k (or_not p) (gopt g) true S F'.
Proof.
  intros Hd Hi [P1 P2 P3 P4]. split.
  - intros ts le o st' H. unfold or_not in H. destruct (p (at_ ts le)) as [[a st1]|] eqn:E; simplify_eq.
    + apply P1 in E as (us & ? & ? & ?). exists us. done.
    + exists []. done.
  - intros us o rest le Hl Hg Hr. unfold or_not. destruct o as [a|]; simpl in Hg.
    + rewrite (P2 us a rest le Hl Hg); [done|]. by eapply next_is_impl.
    + subst us. simpl. assert (Hn : next_is (negb ∘ S) rest).
      { destruct rest as [|[t s] rest]; [done|]. simpl in *. unfold compose.
        by rewrite (Hd t Hr). }
      specialize (P4 rest le Hn). destruct (p _) as [[? ?]|]; [by destruct P4 | done].
  - intros us [a|] Hg; simpl in Hg; [|by subst]. specialize (P3 us a Hg). by destruct us as [|[t s] us].
  - intros ts le Hn. specialize (P4 ts le Hn). unfold or_not.
    destruct (p _) as [[? ?]|]; [by destruct P4 | done].
Qed.

(** ** Sequence *)

(** The second parser sees fewer tokens where the first consumes some. *)
Lemma good_then_at k k' {A B} (p : parser A) (q : parser B) g h n m S T F F' :
  good k p g n S F → good k' q h m T F' →
  included_tokens T F → (m = true → included_tokens F' F) → (if n then k else pred k) ≤ k' →
  good k (then_ p q) (gseq g h) (n && m) (if n then union_tokens S T else S) F'.
Proof.
  intros [P1 P2 P3 P4] [Q1 Q2 Q3 Q4] HT HF Hk. split.
  - intros ts le [a b] st' H. unfold then_, mbind, parser_bind in H.
    destruct (p (at_ ts le)) as [[a' st1]|] eqn:E; [|done].
    destruct (q st1) as [[b' st2]|] eqn:E2; [|done]. unfold mret, parser_ret in H. simplify_eq.
    apply P1 in E as (us & -> & Hl & Hg). rewrite (state_eta st1) in E2.
    apply Q1 in E2 as (vs & Ha & Hl2 & Hh). exists (us ++ vs). rewrite Ha, Hl2, Hl, after_app, app_assoc.
    split_and!; [done | done |]. by exists us, vs.
  - intros ts [a b] rest le Hl (us & vs & -> & Hg & Hh) Hr. simpl in Hg, Hh.
    rewrite <- app_assoc in *. unfold then_, mbind, parser_bind.
    rewrite (P2 us a (vs ++ rest) le Hl Hg).
    + rewrite (Q2 vs b rest (after le us)); [by unfold mret, parser_ret; rewrite after_app | | done | done].
      specialize (P3 us a Hg). rewrite length_app in Hl. destruct us as [|[t s] us]; simpl in *.
      * subst n. lia.
      * destruct n; lia.
    + specialize (Q3 vs b Hh). destruct vs as [|[t s] vs]; simpl; [|by apply HT].
      eapply next_is_impl; [by apply HF | done].
  - intros ts [a b] (us & vs & -> & Hg & Hh). specialize (P3 us a Hg). specialize (Q3 vs b Hh).
    destruct us as [|[t s] us]; simpl; [|destruct n; [unfold union_tokens; by rewrite P3 | done]].
    destruct vs as [|[t s] vs]; simpl; [by subst|]. rewrite P3. unfold union_tokens. by rewrite Q3, orb_true_r.
  - intros ts le Hn. unfold then_, mbind, parser_bind.
    assert (HS : next_is (negb ∘ S) ts ∧ (n = true → next_is (negb ∘ T) ts)).
    { destruct ts as [|[t s] ts]; [done|]. simpl in *. unfold compose in *. destruct n.
      - unfold union_tokens in Hn. rewrite negb_true_iff, orb_false_iff in Hn.
        destruct Hn as [-> ->]. done.
      - done. }
    destruct HS as [HS HT']. specialize (P4 ts le HS).
    destruct (p _) as [[a st1]|]; [|done]. destruct P4 as [-> ->].
    specialize (Q4 ts le (HT' eq_refl)). destruct (q _) as [[b st2]|]; [|done]. simpl. naive_solver.
Qed.

Lemma then_fst {A B} (p : parser A) (q : parser B) st :
  then_ignore p q st = (fst <$> then_ p q : parser A) st.
Proof.
  unfold then_ignore, then_, fmap, parser_fmap, mbind, parser_bind, mret, parser_ret.
  destruct (p st) as [[a st1]|]; [|done]. by destruct (q st1) as [[b st2]|].
Qed.

Lemma then_snd {A B} (p : parser A) (q : parser B) st :
  ignore_then p q st = (snd <$> then_ p q : parser B) st.
Proof.
  unfold ignore_then, then_, fmap, parser_fmap, mbind, parser_bind, mret, parser_ret.
  destruct (p st) as [[a st1]|]; [|done]. by destruct (q st1) as [[b st2]|].
Qed.

(** Equal parsers and equivalent grammars are interchangeable. *)
Lemma good_ext k {A} (p q : parser A) (g h : G A) n S F :
  (∀ st, q st = p st) → (∀ ts a, h ts a ↔ g ts a) → good k p g n S F → good k q h n S F.
Proof.
  intros Hp Hg [P1 P2 P3 P4]. split.
  - intros ts le a st' H. rewrite Hp in H. apply P1 in H as (us & ? & ? & ?%Hg). eauto.
  - intros us a rest le Hl ?%Hg Hr. rewrite Hp. by apply P2.
  - intros us a ?%Hg. by eapply P3.
  - intros ts le Hn. rewrite Hp. by apply P4.
Qed.

Lemma good_then_ignore_at k k' {A B} (p : parser A) (q : parser B) g h n m S T F F' :
  good k p g n S F → good k' q h m T F' →
  included_tokens T F → (m = true → included_tokens F' F) → (if n then k else pred k) ≤ k' →
  good k (then_ignore p q) (gleft g h) (n && m) (if n then union_tokens S T else S) F'.
Proof.
  intros. eapply good_ext; [intros; apply then_fst | | by apply good_fmap, (good_then_at k k' p q g h n m S T F)].
  intros ts a. unfold gleft, gmap. split; [intros [b Hb]; by exists (a, b) | intros ([? b] & ? & ->); by exists b].
Qed.

Lemma good_ignore_then_at k k' {A B} (p : parser A) (q : parser B) g h n m S T F F' :
  good k p g n S F → good k' q h m T F' →
  included_tokens T F → (m = true → included_tokens F' F) → (if n then k else pred k) ≤ k' →
  good k (ignore_then p q) (gright g h) (n && m) (if n then union_tokens S T else S) F'.
Proof.
  intros. eapply good_ext; [intros; apply then_snd | | by apply good_fmap, (good_then_at k k' p q g h n m S T F)].
  intros ts b. unfold gright, gmap. split; [intros [a Ha]; by exists (a, b) | intros ([a ?] & ? & ->); by exists a].
Qed.

(** ** Repetition *)

Lemma good_nonempty k {A} (p : parser A) g S F us a : good k p g false S F → g us a → us ≠ [].
Proof. intros H Hg ->. by apply (good_starts _ _ _ _ _ _ H) in Hg. Qed.

(** Where the next token follows but does not start the item, the item fails. *)
Lemma good_stop k {A} (p : parser A) g S F F' rest le :
  good k p g false S F → disjoint_tokens F' S → next_is F' rest → p (at_ rest le) = None.
Proof.
  intros H Hd Hr. pose proof (good_misses _ _ _ _ _ _ H rest le) as Hm.
  destruct (p (at_ rest le)) as [[a st]|]; [|done]. destruct Hm as [? _]; [|done].
  destruct rest as [|[t s] rest]; [done|]. simpl in *. unfold compose. by rewrite (Hd t Hr).
Qed.

(** A non-empty derivation starts with a token of [S]. *)
Lemma good_starts_app k {A} (p : parser A) g S F F' us a rest :
  good k p g false S F → g us a → included_tokens S F' → next_is F' (us ++ rest).
Proof.
  intros H Hg Hi. pose proof (good_starts _ _ _ _ _ _ H us a Hg).
  destruct us as [|[t s] us]; [done|]. simpl. by apply Hi.
Qed.

Lemma gstar_next k {A} (p : parser A) g S F F' us l rest :
  good k p g false S F → gstar g us l → included_tokens S F → included_tokens F' F →
  next_is F' rest → next_is F (us ++ rest).
Proof.
  intros H Hs HS HF Hr. destruct Hs as [|us a vs l Hg Hs]; [by apply (next_is_impl F')|].
  rewrite <- app_assoc. by eapply good_starts_app.
Qed.

Lemma good_repeated k {A} (p : parser A) g S F F' :
  good k p g false S F → included_tokens S F → included_tokens F' F → disjoint_tokens F' S →
  good k (repeated p) (gstar g) true S F'.
Proof.
  intros H HS HF Hd. split.
  - intros ts le l st' E. unfold repeated in E. simpl in E.
    revert E. generalize (length ts). intros n. revert ts le l.
    induction n as [|n IH]; intros ts le l E; simpl in E.
    { simplify_eq. exists []. by split_and!; [| |constructor]. }
    destruct (p (at_ ts le)) as [[a st1]|] eqn:E1.
    2:{ simplify_eq. exists []. by split_and!; [| |constructor]. }
    destruct (repeated_n n p st1) as [[l' st2]|] eqn:E2; [|done]. simplify_eq.
    apply (good_sound _ _ _ _ _ _ H) in E1 as (us & -> & Hl & Hg).
    rewrite (state_eta st1) in E2. apply IH in E2 as (vs & Ha & Hl2 & Hh).
    exists (us ++ vs). rewrite Ha, Hl2, Hl, after_app, app_assoc. split_and!; [done | done | by constructor].
  - intros us l rest le Hl Hs Hr. unfold repeated. simpl.
    assert (Hn : length us ≤ length (us ++ rest)) by (rewrite length_app; lia).
    revert Hn. generalize (length (us ++ rest)). intros n Hn. revert n le Hn.
    induction Hs as [|us a vs l Hg Hs IH]; intros n le Hn.
    + destruct n; simpl; [done|]. by rewrite (good_stop _ _ _ _ _ _ _ _ H Hd Hr).
    + pose proof (good_nonempty _ _ _ _ _ _ _ H Hg) as Hne.
      assert (0 < length us) by (destruct us; simpl; [done | lia]).
      rewrite <- app_assoc in *. rewrite !length_app in *.
      destruct n as [|n]; [lia|]. simpl.
      rewrite (good_complete _ _ _ _ _ _ H us a (vs ++ rest) le);
        [|rewrite !length_app; lia | done | by eapply gstar_next].
      rewrite IH; [by rewrite after_app | lia | lia].
  - intros us l Hs. destruct Hs as [|us a vs l Hg Hs]; [done|].
    apply (good_starts _ _ _ _ _ _ H) in Hg. by destruct us as [|[t s] us].
  - intros ts le Hn. unfold repeated. simpl. destruct (length ts) as [|n]; simpl; [done|].
    pose proof (good_misses _ _ _ _ _ _ H ts le Hn) as Hm.
    destruct (p (at_ ts le)) as [[a st]|]; [by destruct Hm | done].
Qed.

Lemma good_cons k {A} (p : parser A) (q : parser (list A)) g h m S T F F' :
  good k p g false S F → good k q h m T F' →
  included_tokens T F → (m = true → included_tokens F' F) →
  good k (a ← p; l ← q; mret (a :: l)) (gcons g h) false S F'.
Proof.
  intros Hp Hq HT HF.
  pose proof (good_then_at k k p q g h false m S T F F' Hp Hq HT HF (Nat.le_pred_l k)) as H.
  apply (good_fmap k (λ al : A * list A, fst al :: snd al)) in H.
  eapply good_ext; [| | exact H]; [|done].
  intros st. unfold then_, fmap, parser_fmap, mbind, parser_bind, mret, parser_ret.
  destruct (p st) as [[a st1]|]; [|done]. by destruct (q st1) as [[b st2]|].
Qed.

Lemma good_commas k {A} (p : parser A) g S F F' :
  good k p g false S F → F Comma = true → F' Comma = false → included_tokens F' F →
  good k (comma_separated p) (gcommas g) false S F'.
Proof.
  intros H HF HF' Hi. unfold comma_separated, gcommas.
  assert (HC : included_tokens (is_token Comma) F).
  { intros t Ht%bool_decide_eq_true. by subst. }
  eapply good_cons; [done | | done | done].
  eapply (good_repeated k _ _ (is_token Comma)).
  - exact (good_ignore_then_at k k _ p _ g false false _ _ _ F (good_just k Comma) H
             (λ t _, eq_refl) (λ E, match Bool.diff_false_true E with end) (Nat.le_pred_l k)).
  - done.
  - done.
  - intros t Ht. apply bool_decide_eq_false. intros ->. congruence.
Qed.

(** ** Left folds *)

Lemma gfold_next {A B} (gi : G B) (f : A → B → Span → A) k item T F F' us a vs r rest :
  good k item gi false T F → gfold_from gi f us a vs r → included_tokens F' F → included_tokens T F →
  next_is F' rest → next_is F (vs ++ rest).
Proof.
  intros H Hs HF HT Hr. destruct Hs as [|us a vs b ws r Hg Hs]; [by apply (next_is_impl F')|].
  rewrite <- app_assoc. by eapply good_starts_app.
Qed.

Lemma foldl_sound k {A B} (item : parser B) gi T F (f : A → B → Span → A) n us a ts le0 r st' :
  good k item gi false T F → us ≠ [] →
  foldl_n n (at_ (us ++ ts) le0) item f a (at_ ts (after le0 us)) = Some (r, st') →
  ∃ vs, ts = vs ++ ahead st' ∧ last_end st' = after le0 (us ++ vs) ∧ gfold_from gi f us a vs r.
Proof.
  intros H. revert us a ts. induction n as [|n IH]; intros us a ts Hne E; simpl in E.
  { simplify_eq. exists []. rewrite app_nil_r. by split_and!; [| |constructor]. }
  destruct (item _) as [[b st1]|] eqn:E1.
  2:{ simplify_eq. exists []. rewrite app_nil_r. by split_and!; [| |constructor]. }
  apply (good_sound _ _ _ _ _ _ H) in E1 as (vs & -> & Hl & Hg).
  rewrite <- after_app in Hl. rewrite (state_eta st1), Hl, app_assoc in E.
  rewrite span_between_of in E by (destruct us; done).
  apply IH in E as (ws & -> & Hl2 & Hf); [|by destruct us].
  exists (vs ++ ws). rewrite !app_assoc in *. split_and!; [done | done |]. by econstructor.
Qed.

Lemma foldl_complete k {A B} (item : parser B) gi T F F' (f : A → B → Span → A) n us a vs r rest le0 :
  good k item gi false T F → us ≠ [] →
  included_tokens T F → included_tokens F' F → disjoint_tokens F' T →
  gfold_from gi f us a vs r → next_is F' rest → length (vs ++ rest) < k → length (vs ++ rest) ≤ n →
  foldl_n n (at_ (us ++ vs ++ rest) le0) item f a (at_ (vs ++ rest) (after le0 us))
  = Some (r, at_ rest (after le0 (us ++ vs))).
Proof.
  intros H Hne HT HF Hd Hf Hr. revert n.
  induction Hf as [us a|us a vs b ws r Hg Hf IH]; intros n Hk Hn.
  - rewrite app_nil_r. destruct n; simpl; [done|]. by rewrite (good_stop _ _ _ _ _ _ _ _ H Hd Hr).
  - rewrite <- (app_assoc vs ws rest) in *. pose proof (good_nonempty _ _ _ _ _ _ _ H Hg) as Hne'.
    assert (0 < length vs) by (destruct vs; simpl; [done | lia]).
    rewrite (length_app vs) in *. destruct n as [|n]; [lia|]. simpl.
    rewrite (good_complete _ _ _ _ _ _ H vs b (ws ++ rest));
      [|rewrite (length_app vs); lia | done | by eapply gfold_next].
    rewrite <- after_app, (app_assoc us vs), span_between_of by (destruct us; done).
    rewrite (app_assoc us vs ws). apply IH; [by destruct us | lia | lia].
Qed.

Lemma good_foldl k {A B} (p : parser A) (item : parser B) g gi (f : A → B → Span → A) S T F F1 F' :
  good k p g false S F → good k item gi false T F1 →
  included_tokens T F → included_tokens T F1 →
  included_tokens F' F → included_tokens F' F1 → disjoint_tokens F' T →
  good k (foldl_with p item f) (gfoldl g gi f) false S F'.
Proof.
  intros Hp Hi HT HT1 HF HF1 Hd. split.
  - intros ts le r st' E. unfold foldl_with in E.
    destruct (p (at_ ts le)) as [[a st1]|] eqn:E1; [|done].
    apply (good_sound _ _ _ _ _ _ Hp) in E1 as (us & -> & Hl & Hg).
    rewrite (state_eta st1), Hl in E. simpl in E.
    eapply foldl_sound in E as (vs & Ha & Hl' & Hf); [|done | exact (good_nonempty _ _ _ _ _ _ _ Hp Hg)].
    exists (us ++ vs). rewrite Ha, app_assoc. split_and!; [done | done |]. by exists us, vs, a.
  - intros ts r rest le Hk (us & vs & a & -> & Hg & Hf) Hr. unfold foldl_with.
    rewrite <- app_assoc in *.
    rewrite (good_complete _ _ _ _ _ _ Hp us a (vs ++ rest) le Hk Hg).
    + simpl. eapply foldl_complete; try done; [exact (good_nonempty _ _ _ _ _ _ _ Hp Hg) | rewrite length_app in Hk; lia].
    + destruct Hf as [|us a vs b ws r Hgi Hf]; [by apply (next_is_impl F')|].
      rewrite <- app_assoc. by eapply good_starts_app.
  - intros ts r (us & vs & a & -> & Hg & _).
    pose proof (good_starts _ _ _ _ _ _ Hp us a Hg). by destruct us as [|[t s] us].
  - intros ts le Hn. unfold foldl_with. pose proof (good_misses _ _ _ _ _ _ Hp ts le Hn) as Hm.
    destruct (p (at_ ts le)) as [[a st]|]; [by destruct Hm | done].
Qed.
