(* ===== verification/ParserGrammar.v ===== *)
(** * The parser implements the grammar

    The parsers of src/elucid/elucid-language/src/parser, each shown to implement the
    production of [ParserCorrect] it is written for, from the lemmas of [ParserCorrect]; then
    the theorem on whole queries. *)

From S2P Require Import Prelude Syntax Floats Lexer Parser ParserCorrect.

#[local] Open Scope nat_scope.

(** ** Composition with computed token sets *)

(** The tokens of the follow sets are computed from the parts, so that a production
    is checked by building it from its leaves and comparing the sets once. *)
Section Build.
Context (k : nat).

Definition minus_tokens (S T : Token → bool) : Token → bool := λ t, S t && negb (T t).
Definition meet_tokens (S T : Token → bool) : Token → bool := λ t, S t && T t.
Definition follow_seq (m : bool) (F F' : Token → bool) : Token → bool :=
  λ t, F' t && (if m then F t else true).

Lemma good_as {A} (p : parser A) g n n' S S' F F' :
  good k p g n S F → n = n' → included_tokens S S' → included_tokens F' F → good k p g n' S' F'.
Proof. intros H <- HS HF. apply (good_weaken k k p g n S S' F); [lia | done..]. Qed.

Lemma good_follow k' {A} (p : parser A) g n S F F' :
  good k' p g n S F → included_tokens F' F → good k' p g n S F'.
Proof. intros H HF. apply (good_weaken k' k' p g n S S F); [lia | by intros t | done | done]. Qed.

Lemma build_span {A B} (f : A → Span → B) p g n S F :
  good k p g n S F → n = false → good k (map_with p f) (gspan g f) false S F.
Proof. intros H ->. by apply good_span. Qed.

Lemma build_choice {A} (p q : parser A) g h n m S T F F' :
  good k p g n S F → good k q h m T F' → n = false → m = false → disjoint_tokens S T →
  good k (choice p q) (galt g h) false (union_tokens S T) (meet_tokens F F').
Proof.
  intros Hp Hq -> -> Hd. apply good_choice; [eapply good_follow; [apply Hp|] | eapply good_follow; [apply Hq|] | done];
    intros t; unfold meet_tokens; rewrite andb_true_iff; tauto.
Qed.

Lemma build_or_not {A} (p : parser A) g n S F :
  good k p g n S F → n = false → good k (or_not p) (gopt g) true S (minus_tokens F S).
Proof.
  intros H ->. eapply good_or_not; [| | done]; intros t; unfold minus_tokens;
    rewrite andb_true_iff, negb_true_iff; tauto.
Qed.

Lemma follow_seq_l m F F' : m = true → included_tokens (follow_seq m F F') F.
Proof. intros -> t. unfold follow_seq. rewrite andb_true_iff. tauto. Qed.

Lemma follow_seq_r m F F' : included_tokens (follow_seq m F F') F'.
Proof. intros t. unfold follow_seq. rewrite andb_true_iff. tauto. Qed.

Section Sequence.
Context {A B : Type} (p : parser A) (q : parser B) (g : G A) (h : G B) (n m : bool).
Context (k' : nat) (S T F F' : Token → bool).
Context (Hp : good k p g n S F) (Hq : good k' q h m T F').
Context (HT : included_tokens T F) (Hk : (if n then k else pred k) ≤ k').

Let Hq' : good k' q h m T (follow_seq m F F').
Proof. eapply good_follow; [apply Hq | apply follow_seq_r]. Qed.

Lemma build_then :
  good k (then_ p q) (gseq g h) (n && m) (if n then union_tokens S T else S) (follow_seq m F F').
Proof. by eapply good_then_at; [apply Hp | apply Hq' | | apply follow_seq_l |]. Qed.

Lemma build_then_ignore :
  good k (then_ignore p q) (gleft g h) (n && m) (if n then union_tokens S T else S) (follow_seq m F F').
Proof. by eapply good_then_ignore_at; [apply Hp | apply Hq' | | apply follow_seq_l |]. Qed.

Lemma build_ignore_then :
  good k (ignore_then p q) (gright g h) (n && m) (if n then union_tokens S T else S) (follow_seq m F F').
Proof. by eapply good_ignore_then_at; [apply Hp | apply Hq' | | apply follow_seq_l |]. Qed.
End Sequence.

Lemma build_repeated {A} (p : parser A) g n S F :
  good k p g n S F → n = false → included_tokens S F →
  good k (repeated p) (gstar g) true S (minus_tokens F S).
Proof.
  intros H -> HS. eapply good_repeated; [done | done | |]; intros t; unfold minus_tokens;
    rewrite andb_true_iff, negb_true_iff; tauto.
Qed.

Lemma build_commas {A} (p : parser A) g n S F :
  good k p g n S F → n = false → F Comma = true →
  good k (comma_separated p) (gcommas g) false S (minus_tokens F (is_token Comma)).
Proof.
  intros H -> HF. eapply good_commas; [done | done | |].
  - unfold minus_tokens. by rewrite andb_false_r.
  - intros t. unfold minus_tokens. rewrite andb_true_iff. tauto.
Qed.

Lemma build_foldl {A B} (p : parser A) (item : parser B) g gi (f : A → B → Span → A) m S T F F1 :
  good k p g false S F → good k item gi m T F1 → m = false →
  included_tokens T F → included_tokens T F1 →
  good k (foldl_with p item f) (gfoldl g gi f) false S (minus_tokens (meet_tokens F F1) T).
Proof.
  intros Hp Hi -> HT HT1.
  eapply good_foldl; [apply Hp | apply Hi | done | done | | |]; intros t;
    unfold minus_tokens, meet_tokens; rewrite ?andb_true_iff, ?negb_true_iff; tauto.
Qed.

End Build.

(** ** Automation *)

Create HintDb good discriminated.

(** Facts on token sets are decided by cases on the token. *)
Ltac tokens :=
  let t := fresh "t" in intro t; destruct t; vm_compute; intros; repeat case_match; congruence.

Ltac good_side :=
  first [done | apply Nat.le_pred_l | simpl; lia | reflexivity | tokens].

Ltac build :=
  lazymatch goal with
  | |- good _ (map_with _ _) _ _ _ _ => eapply build_span; [build | done]
  | |- good _ (choice _ _) _ _ _ _ => eapply build_choice; [build | build | done | done | good_side]
  | |- good _ (or_not _) _ _ _ _ => eapply build_or_not; [build | done]
  | |- good _ (then_ _ _) _ _ _ _ => eapply build_then; [build | build | good_side | good_side]
  | |- good _ (then_ignore _ _) _ _ _ _ => eapply build_then_ignore; [build | build | good_side | good_side]
  | |- good _ (ignore_then _ _) _ _ _ _ => eapply build_ignore_then; [build | build | good_side | good_side]
  | |- good _ (parenthesized _) _ _ _ _ => unfold parenthesized, gparen; build
  | |- good _ (repeated _) _ _ _ _ => eapply build_repeated; [build | done | good_side]
  | |- good _ (comma_separated _) _ _ _ _ => eapply build_commas; [build | done | reflexivity]
  | |- good _ (foldl_with _ _ _) _ _ _ _ => eapply build_foldl; [build | build | done | good_side | good_side]
  | |- good _ (select _) _ _ _ _ => apply good_select
  | |- good _ (just _) _ _ _ _ => apply good_just
  | |- good _ (just_to _ _) _ _ _ _ => apply good_just_to
  | |- good _ (fmap _ _) _ _ _ _ => eapply good_fmap; build
  | |- _ => first [eassumption | solve [eauto 2 with good nocore]]
  end.

(** [produce d]: unfold the parser and the production, build, and compare the sets. *)
Ltac produce := eapply good_as; [build | reflexivity | tokens | tokens].

(** ** Literals and names *)

Definition s_identifier := starts_of identifier_text.
Definition s_system := starts_of system_text.
Definition s_field := union_tokens s_system s_identifier.
Definition s_string := starts_of string_text.
Definition s_integer := starts_of integer_value.
Definition s_minus := is_token OperatorSubtract.

Lemma good_identifier k : good k identifier g_identifier false s_identifier any.
Proof. unfold identifier, g_identifier. produce. Qed.
#[export] Hint Resolve good_identifier : good.

Lemma good_field_reference k : good k field_reference g_field_reference false s_field any.
Proof. unfold field_reference, g_field_reference. produce. Qed.
#[export] Hint Resolve good_field_reference : good.

Lemma good_string_literal k : good k string_literal g_string_literal false s_string any.
Proof. unfold string_literal, g_string_literal. produce. Qed.
#[export] Hint Resolve good_string_literal : good.

Lemma good_integer_literal k : good k integer_literal (gselect integer_value) false s_integer any.
Proof. exact (good_select k integer_value). Qed.
#[export] Hint Resolve good_integer_literal : good.

Definition s_float := starts_of float_text.

Lemma good_floating_point_literal k :
  good k floating_point_literal (gselect float_text) false s_float any.
Proof. exact (good_select k float_text). Qed.
#[export] Hint Resolve good_floating_point_literal : good.

Definition s_type := starts_of type_name.

Lemma good_logical_type k : good k logical_type (gselect type_name) false s_type any.
Proof. exact (good_select k type_name). Qed.
#[export] Hint Resolve good_logical_type : good.

Lemma good_minus k :
  good k minus g_minus true s_minus (minus_tokens any s_minus).
Proof. unfold minus, g_minus. produce. Qed.
#[export] Hint Resolve good_minus : good.

Definition s_signed_integer := union_tokens s_minus s_integer.
Definition s_signed_numeric := union_tokens s_signed_integer s_float.

Lemma good_signed_integer k :
  good k signed_integer_literal g_signed_integer false s_signed_integer any.
Proof. unfold signed_integer_literal, g_signed_integer. produce. Qed.

Lemma good_signed_numeric k :
  good k signed_numeric_literal g_signed_numeric false s_signed_numeric any.
Proof. unfold signed_numeric_literal, g_signed_numeric, numeric_magnitude. produce. Qed.

Lemma good_datetime_value k :
  good k datetime_constructor_value g_datetime_value false (is_token KeywordDatetime) any.
Proof. unfold datetime_constructor_value, g_datetime_value. produce. Qed.
#[export] Hint Resolve good_signed_integer good_signed_numeric good_datetime_value : good.

(** ** Primary expressions that contain no expression *)

Lemma good_integer_constructor k :
  good k integer_constructor g_integer_constructor false (starts_of integer_target) any.
Proof. unfold integer_constructor, g_integer_constructor. produce. Qed.

Lemma good_floating_constructor k :
  good k floating_constructor g_floating_constructor false (starts_of floating_target) any.
Proof. unfold floating_constructor, g_floating_constructor. produce. Qed.

Lemma good_datetime_constructor k :
  good k datetime_constructor g_datetime_constructor false (is_token KeywordDatetime) any.
Proof. unfold datetime_constructor, g_datetime_constructor. produce. Qed.

Lemma good_eid_constructor k :
  good k eid_constructor g_eid_constructor false (is_token KeywordEid) any.
Proof. unfold eid_constructor, g_eid_constructor. produce. Qed.

Lemma good_remainder k : good k remainder g_remainder false (starts_of remainder_function) any.
Proof. unfold remainder, g_remainder. produce. Qed.

Lemma good_integer k : good k integer g_integer false s_integer any.
Proof. unfold integer, g_integer. produce. Qed.

Lemma good_floating_point k : good k floating_point g_floating_point false s_float any.
Proof. unfold floating_point, g_floating_point. produce. Qed.

Lemma good_string k : good k string_expression g_string false s_string any.
Proof. unfold string_expression, g_string. produce. Qed.

Lemma good_null k : good k null g_null false (is_token KeywordNull) any.
Proof. unfold null, g_null. produce. Qed.

Lemma good_boolean k : good k boolean g_boolean false (starts_of boolean_value) any.
Proof. apply (build_span k _ _ _ false); [exact (good_select k boolean_value) | done]. Qed.

Lemma good_field k : good k field g_field false s_field any.
Proof. unfold field, g_field. produce. Qed.

#[export] Hint Resolve good_integer_constructor good_floating_constructor good_datetime_constructor
  good_eid_constructor good_remainder good_integer good_floating_point good_string good_null
  good_boolean good_field : good.

(** ** Expressions *)

Definition s_primary : Token → bool := λ t,
  starts_of integer_target t || starts_of floating_target t || is_token KeywordDatetime t
  || is_token KeywordEid t || starts_of cast_kind t || starts_of remainder_function t
  || s_integer t || s_float t || s_string t || is_token KeywordNull t || starts_of boolean_value t
  || s_field t || is_token LeftParenthesis t.
Definition s_expression := union_tokens (starts_of unary_operator) s_primary.
Definition no (S : Token → bool) : Token → bool := minus_tokens any S.
Definition f_multiplicative := no (starts_of multiplicative_operator).
Definition f_additive := minus_tokens f_multiplicative (starts_of additive_operator).
Definition f_comparison := minus_tokens f_additive (starts_of comparison_operator).
Definition f_and := minus_tokens f_comparison (is_token KeywordAnd).
(** The tokens that can follow a whole expression: anything but a binary operator. *)
Definition f_expression := minus_tokens f_and (is_token KeywordOr).

Section Levels.
Context (k : nat) (expression : parser ast.Expression) (g : G ast.Expression).
Context (He : good (pred k) expression g false s_expression f_expression).

Lemma good_cast : good k (cast expression) (g_cast g) false (starts_of cast_kind) any.
Proof. unfold cast, g_cast. produce. Qed.

Lemma good_parenthesized_expression :
  good k (parenthesized_expression expression) (g_parenthesized g) false (is_token LeftParenthesis) any.
Proof. unfold parenthesized_expression, g_parenthesized. produce. Qed.

Hint Resolve good_cast good_parenthesized_expression : good.

Lemma good_primary : good k (primary expression) (g_primary g) false s_primary any.
Proof. unfold primary, g_primary. produce. Qed.
Hint Resolve good_primary : good.

Lemma good_unary : good k (unary expression) (g_unary g) false s_expression any.
Proof. unfold unary, g_unary. produce. Qed.
Hint Resolve good_unary : good.

Lemma good_multiplicative :
  good k (multiplicative expression) (g_multiplicative g) false s_expression f_multiplicative.
Proof. unfold multiplicative, g_multiplicative. produce. Qed.
Hint Resolve good_multiplicative : good.

Lemma good_additive : good k (additive expression) (g_additive g) false s_expression f_additive.
Proof. unfold additive, g_additive. produce. Qed.
Hint Resolve good_additive : good.

Lemma good_comparison :
  good k (comparison expression) (g_comparison g) false s_expression f_comparison.
Proof. unfold comparison, g_comparison. produce. Qed.
Hint Resolve good_comparison : good.

Lemma good_logical_and :
  good k (logical_and expression) (g_logical_and g) false s_expression f_and.
Proof. unfold logical_and, g_logical_and. produce. Qed.
Hint Resolve good_logical_and : good.

Lemma good_logical_or :
  good k (logical_or expression) (g_logical_or g) false s_expression f_expression.
Proof. unfold logical_or, g_logical_or. produce. Qed.

End Levels.

(** ** Tokens that occur in derivations *)

Definition within (P : Token → bool) {A} : G A := λ ts _, Forall (λ t, P (fst t) = true) ts.

Lemma without_select u {A} (f : Token → option A) :
  f u = None → gselect f ⊑ within (no (is_token u)).
Proof.
  intros H ts a (t & s & -> & Hf). constructor; [|done]. simpl. unfold no, minus_tokens, any, is_token.
  simpl. apply negb_true_iff, bool_decide_eq_false. congruence.
Qed.

Section Within.
Context (P : Token → bool).

Lemma within_alt {A} (g h : G A) : g ⊑ within P → h ⊑ within P → galt g h ⊑ within P.
Proof. intros Hg Hh ts a [H|H]; [by eapply Hg | by eapply Hh]. Qed.

Lemma within_opt {A} (g : G A) : g ⊑ within P → gopt g ⊑ within P.
Proof. intros Hg ts [a|] H; [by eapply Hg | simpl in H; subst; by constructor]. Qed.

Lemma within_seq {A B} (g : G A) (h : G B) : g ⊑ within P → h ⊑ within P → gseq g h ⊑ within P.
Proof.
  intros Hg Hh ts a (us & vs & -> & H1 & H2). apply Forall_app. split; [by eapply Hg | by eapply Hh].
Qed.

Lemma within_left {A B} (g : G A) (h : G B) : g ⊑ within P → h ⊑ within P → gleft g h ⊑ within P.
Proof. intros Hg Hh ts a [b H]. by eapply within_seq in H. Qed.

Lemma within_right {A B} (g : G A) (h : G B) : g ⊑ within P → h ⊑ within P → gright g h ⊑ within P.
Proof. intros Hg Hh ts b [a H]. by eapply within_seq in H. Qed.

Lemma within_span {A B} (g : G A) (f : A → Span → B) : g ⊑ within P → gspan g f ⊑ within P.
Proof. intros Hg ts b (a & H & _). by eapply Hg. Qed.

Lemma within_map {A B} (f : A → B) (g : G A) : g ⊑ within P → gmap f g ⊑ within P.
Proof. intros Hg ts b (a & H & _). by eapply Hg. Qed.

Lemma within_foldl {A B} (g : G A) (gi : G B) f :
  g ⊑ within P → gi ⊑ within P → gfoldl g gi f ⊑ within P.
Proof.
  intros Hg Hi ts r (us & vs & a & -> & H & Hf). apply Forall_app. split; [by eapply Hg|]. clear H.
  induction Hf as [|us a vs b ws r Hb Hf IH]; [done|]. apply Forall_app. split; [by eapply Hi | done].
Qed.
End Within.

Ltac within_tac :=
  repeat first
    [ eassumption
    | apply within_span | apply within_map | apply within_left | apply within_right | apply within_seq
    | apply within_opt | apply within_alt | apply within_foldl
    | apply without_select; reflexivity ].

(** No expression contains [=] in the sense of an assignment. *)
Lemma g_expression_no_assign : g_expression ⊑ within (no (is_token OperatorAssign)).
Proof.
  intros ts e H. apply H. clear ts e H. intros us e.
  assert (Hs : (within (no (is_token OperatorAssign)) : G ast.Expression) ⊑ within (no (is_token OperatorAssign)))
    by done.
  revert us e. change (g_logical_or (within (no (is_token OperatorAssign)))
    ⊑ within (no (is_token OperatorAssign))).
  within_tac.
Qed.

(** ** Expressions, whole *)

(** The parser of depth [n] implements all expressions on fewer than [n] tokens. *)
Lemma good_expression_n n : good n (expression_n n) g_expression false s_expression f_expression.
Proof.
  induction n as [|n IH].
  - split; [done | intros; lia | | done].
    intros us e H.
    set (Q := (λ ts _, match ts with [] => false = true | (t, _) :: _ => s_expression t = true end)
              : G ast.Expression).
    apply (H Q). intros vs e' Hv.
    assert (HQ : good 0 (λ _, None) Q false s_expression f_expression) by (split; [done | intros; lia | done | done]).
    apply (good_logical_or 1) in HQ. by eapply (good_starts _ _ _ _ _ _ HQ).
  - apply (good_ext (S n) (logical_or (expression_n n)) _ (g_logical_or g_expression)).
    + done.
    + intros ts a. split; [apply g_expression_unfold | apply g_expression_fold].
    + by apply good_logical_or.
Qed.

Lemma good_expression k : good k expression_parser g_expression false s_expression f_expression.
Proof.
  split.
  - intros ts le a st' H. by apply (good_sound _ _ _ _ _ _ (good_expression_n _)) in H.
  - intros us a rest le _ Hg Hr. unfold expression_parser.
    apply (good_complete _ _ _ _ _ _ (good_expression_n _)); [simpl; lia | done | done].
  - apply (good_starts _ _ _ _ _ _ (good_expression_n 0)).
  - intros ts le Hn. unfold expression_parser. by apply (good_misses _ _ _ _ _ _ (good_expression_n _)).
Qed.
#[export] Hint Resolve good_expression : good.

(** ** Stages *)

Lemma good_filter k : good k filter_stage g_filter false (is_token KeywordFilter) f_expression.
Proof. unfold filter_stage, g_filter. produce. Qed.

(** Neither an expression nor an assignment sign follows a projection. *)
Definition f_projection := minus_tokens f_expression (is_token OperatorAssign).

Lemma computed_fails us e rest le {A} (p : parser A) :
  g_expression us e → next_is f_projection rest →
  then_ (then_ignore identifier (just OperatorAssign)) p (at_ (us ++ rest) le) = None.
Proof.
  intros Hg Hr.
  assert (Hs : then_ignore identifier (just OperatorAssign) (at_ (us ++ rest) le) = None).
  { pose proof (g_expression_no_assign us e Hg) as Hn.
    pose proof (good_starts _ _ _ _ _ _ (good_expression_n 0) us e Hg) as Hs.
    destruct us as [|[t s] us]; [done|].
    unfold then_ignore, identifier, map_with, select, mbind, parser_bind. simpl.
    destruct (identifier_text t); [|done]. unfold just, select. simpl.
    assert (Hne : next_is (no (is_token OperatorAssign)) (us ++ rest)).
    { inversion Hn as [|? ? _ Hn']; subst. destruct Hn' as [|[t' s'] us' Ht' _].
      - eapply next_is_impl, Hr. intros u. unfold f_projection, no, minus_tokens, any.
        rewrite !andb_true_iff. tauto.
      - done. }
    destruct (us ++ rest) as [|[u s'] vs]; [done|]. simpl in Hne |- *.
    rewrite decide_False; [done|]. intros ->. discriminate. }
  unfold then_, mbind, parser_bind. unfold mbind, parser_bind in Hs. by rewrite Hs.
Qed.

Lemma good_projection k : good k projection g_projection false s_expression f_projection.
Proof.
  unfold projection, g_projection, g_computed.
  eapply good_as; [eapply (good_choice_try k _ _ _ _ _ _ f_projection) | done | |].
  - eapply good_follow; [build | tokens].
  - eapply good_follow; [build | tokens].
  - intros us a rest le (e & He & _) Hr. unfold map_with. by rewrite (computed_fails us e).
  - tokens.
  - tokens.
Qed.
#[export] Hint Resolve good_filter good_projection : good.

Lemma good_project k :
  good k project_stage (project_of g_projection) false (is_token KeywordProject)
    (minus_tokens f_projection (is_token Comma)).
Proof. unfold project_stage, project_of. produce. Qed.

Lemma good_sort_item k :
  good k sort_item g_sort_item false
    (union_tokens (union_tokens (is_token OperatorAdd) s_minus) s_field) any.
Proof. unfold sort_item, g_sort_item, sort_direction. produce. Qed.
#[export] Hint Resolve good_project good_sort_item : good.

Lemma good_sort k :
  good k sort_stage g_sort false (is_token KeywordSort) (no (is_token Comma)).
Proof. unfold sort_stage, g_sort. produce. Qed.

Lemma good_take k : good k take_stage g_take false (is_token KeywordTake) any.
Proof. unfold take_stage, g_take. produce. Qed.

Lemma good_aggregate_call k :
  good k aggregate_call g_aggregate_call false (starts_of aggregate_function) any.
Proof. unfold aggregate_call, g_aggregate_call. produce. Qed.
#[export] Hint Resolve good_sort good_take good_aggregate_call : good.

Lemma good_measure k :
  good k measure g_measure false (union_tokens s_identifier (starts_of aggregate_function)) any.
Proof. unfold measure, g_measure. produce. Qed.

Lemma good_group_by k :
  good k group_by g_group_by true (is_token KeywordBy)
    (minus_tokens (no (is_token Comma)) (is_token KeywordBy)).
Proof. unfold group_by, g_group_by. produce. Qed.
#[export] Hint Resolve good_measure good_group_by : good.

Definition f_stage : Token → bool := minus_tokens f_projection (union_tokens (is_token Comma) (is_token KeywordBy)).

Lemma good_summarize k :
  good k summarize_stage (summarize_of g_measure) false (is_token KeywordSummarize) f_stage.
Proof. unfold summarize_stage, summarize_of. produce. Qed.
#[export] Hint Resolve good_summarize : good.

Definition s_stage : Token → bool := λ t,
  is_token KeywordFilter t || is_token KeywordProject t || is_token KeywordSort t
  || is_token KeywordTake t || is_token KeywordSummarize t.

Lemma good_stage k : good k stage_parser g_stage false s_stage f_stage.
Proof. unfold stage_parser, g_stage, stage_of. produce. Qed.
#[export] Hint Resolve good_stage : good.

(** ** Queries *)

Definition s_time_operation : Token → bool := λ t,
  s_system t || is_token At t || starts_of direction_of t.

Lemma good_time_operation k :
  good k time_operation g_time_operation false s_time_operation any.
Proof.
  unfold time_operation, truncation, shift, g_time_operation, g_truncation, g_shift. produce.
Qed.
#[export] Hint Resolve good_time_operation : good.

Lemma good_relative k :
  good k (op ← time_operation; ops ← repeated time_operation; mret (op :: ops))
    (gcons g_time_operation (gstar g_time_operation)) false s_time_operation (no s_time_operation).
Proof.
  apply (good_cons k _ _ _ _ true s_time_operation s_time_operation any);
    [apply good_time_operation | produce | by intros t | by intros _ t].
Qed.
#[export] Hint Resolve good_relative : good.

Lemma good_time_expression k :
  good k time_expression g_time_expression false
    (λ t, is_token KeywordDatetime t || is_token KeywordNow t || s_time_operation t)
    (no s_time_operation).
Proof. unfold time_expression, g_time_expression. produce. Qed.
#[export] Hint Resolve good_time_expression : good.

Lemma good_time_bound k keyword :
  good k (time_bound keyword) (g_time_bound keyword) false (is_token keyword) (no s_time_operation).
Proof.
  unfold time_bound, g_time_bound. eapply good_as; [build | done | by intros t |]. tokens.
Qed.
#[export] Hint Resolve good_time_bound : good.

Lemma good_source k :
  good k source_expression g_source false (is_token KeywordSource) (is_token Pipe).
Proof. unfold source_expression, g_source. produce. Qed.
#[export] Hint Resolve good_source : good.

(** A query, before the end of the input is required. *)
Definition query_body : parser (ast.SourceExpression * list ast.Stage) :=
  then_ source_expression (repeated (ignore_then (just Pipe) stage_parser)).

Lemma good_query_body k :
  good k query_body (gseq g_source (gstar (gright (gjust Pipe) g_stage))) false
    (is_token KeywordSource) (λ _, false).
Proof. unfold query_body. produce. Qed.

Lemma query_parser_body ts le :
  query_parser (at_ ts le) =
  match query_body (at_ ts le) with
  | Some ((source, stages), st) =>
      match ahead st with
      | [] => Some ({| ast.q_source := source; ast.q_stages := stages;
                       ast.q_span := span_between (at_ ts le) st |}, st)
      | _ => None
      end
  | None => None
  end.
Proof.
  unfold query_parser, map_with, then_ignore, query_body, mbind, parser_bind, end_of_input.
  destruct (then_ _ _ _) as [[[source stages] st]|]; [|done]. by destruct (ahead st).
Qed.

(** The tokens of a query determine its tree. *)
Lemma query_parser_complete ts q :
  (∃ st, query_parser (at_ ts 0) = Some (q, st)) ↔ g_query ts q.
Proof.
  pose proof (good_query_body (S (length ts))) as HB. split.
  - intros [st E]. rewrite query_parser_body in E.
    destruct (query_body _) as [[[source stages] st']|] eqn:Eb; [|done].
    apply (good_sound _ _ _ _ _ _ HB) in Eb as (us & Hts & Hl & Hg).
    destruct (ahead st') eqn:Ea; [|done]. rewrite app_nil_r in Hts. subst us. simplify_eq.
    exists (source, stages). split; [done|]. f_equal.
    pose proof (good_nonempty _ _ _ _ _ _ _ HB Hg) as Hne.
    rewrite <- (span_between_of ts [] 0 Hne), app_nil_r. f_equal.
    rewrite (state_eta st), Ea. by rewrite Hl.
  - intros ([source stages] & Hg & ->).
    pose proof (good_nonempty _ _ _ _ _ _ _ HB Hg) as Hne.
    exists (at_ [] (after 0 ts)). rewrite query_parser_body.
    pose proof (good_complete _ _ _ _ _ _ HB ts (source, stages) [] 0) as Hc.
    rewrite app_nil_r in Hc. rewrite Hc; [|lia | done | done]. simpl.
    pose proof (span_between_of ts [] 0 Hne) as Hs. rewrite app_nil_r in Hs. by rewrite Hs.
Qed.

Lemma parse_tokens decode source q :
  parse decode source = Some q ↔
  ∃ ts, tokenizer decode source = Some ts ∧ g_query ts q.
Proof.
  unfold parse. destruct (tokenizer decode source) as [ts|]; simpl.
  2:{ split; [done | by intros (? & ? & ?)]. }
  rewrite fmap_Some. split.
  - intros ([q' st] & E & ->). exists ts. split; [done|]. apply query_parser_complete. by exists st.
  - intros (ts' & [= <-] & Hg). apply query_parser_complete in Hg as [st E]. by exists (q, st).
Qed.

Lemma parse_unique ts q q' : g_query ts q → g_query ts q' → q = q'.
Proof. intros [st E]%query_parser_complete [st' E']%query_parser_complete. congruence. Qed.

(** ** The parser's grammar and the normative one *)

(** The tokens of a text start further and further right. *)
Definition ordered (ts : tokens) : Prop := StronglySorted (λ a b : Token * Span, start a.2 < start b.2) ts.

Lemma tiles_ordered decode s p ts : tiles decode s p ts → ordered ts ∧ Forall (λ t : Token * Span, p ≤ start t.2) ts.
Proof.
  revert p. induction ts as [|[t sp] ts IH]; intros p H; [split; constructor|].
  cbn [tiles] in H. destruct H as (Hp & _ & _ & _ & _ & H). apply IH in H as [Ho Hf]. split; constructor; [done | | cbn; lia |];
    (eapply Forall_impl; [exact Hf|]); cbn; lia.
Qed.

Lemma tokenizer_ordered decode s ts : tokenizer decode s = Some ts → ordered ts.
Proof. intros H%tokenizer_tiles. by eapply tiles_ordered. Qed.

Lemma ordered_app us vs : ordered (us ++ vs) → ordered us ∧ ordered vs.
Proof. intros H. apply StronglySorted_app in H as (? & ? & ?). done. Qed.

(** A tree that is a field has the tokens and the span of the reference, or parentheses
    around it. *)
Definition field_span : G ast.Expression := λ ts e,
  ordered ts → match e with
               | ast.EField f span =>
                   ts ≠ [] ∧ start span = start (span_of ts) ∧
                   ((g_field_reference ts f ∧ span = ast.reference_span f) ∨ start span < start (ast.reference_span f))
               | _ => True
               end.

Lemma reference_tokens ts f : g_field_reference ts f → ∃ t s, ts = [(t, s)] ∧ ast.reference_span f = span_of ts.
Proof.
  intros [(v & (t & s & -> & _) & ->)|(i & (v & (t & s & -> & _) & ->) & ->)]; by exists t, s.
Qed.

Section FieldLevels.
Context (g : G ast.Expression) (Hg : g ⊑ field_span).

Lemma field_spanned {A} (h : G A) f : (∀ a s, match f a s with ast.EField _ _ => False | _ => True end) → gspan h f ⊑ field_span.
Proof. intros Hf ts e (a & _ & ->) _. specialize (Hf a (span_of ts)). by destruct (f a (span_of ts)). Qed.

Lemma field_alt (h k : G ast.Expression) : h ⊑ field_span → k ⊑ field_span → galt h k ⊑ field_span.
Proof. intros Hh Hk ts e [H|H]; [by apply Hh | by apply Hk]. Qed.

Lemma field_parenthesized : g_parenthesized g ⊑ field_span.
Proof.
  intros ts e (e' & (u & us & vs & -> & (v & us' & vs' & -> & Hl & He) & Hr) & ->) Ho.
  destruct Hl as (t & s & -> & _), Hr as (t' & s' & -> & _). cbn [fst snd app] in *.
  apply StronglySorted_inv in Ho as [Ho Hf]. apply ordered_app in Ho as [Ho _]. apply Forall_app in Hf as [Hf _].
  specialize (Hg _ _ He Ho). destruct e' as [| f sp| | | | |]; try done. cbn. split_and!; [done | done|]. right.
  destruct Hg as (Hne & Es & [[Hr Hs]|Hs]).
  - apply reference_tokens in Hr as (t1 & s1 & -> & ->). apply Forall_cons in Hf as [Hf _]. cbn in *. lia.
  - destruct vs' as [|[t1 s1] vs']; [done|]. apply Forall_cons in Hf as [Hf _]. cbn in *. lia.
Qed.

Lemma field_primary : g_primary g ⊑ field_span.
Proof.
  unfold g_primary. repeat apply field_alt; try (apply field_spanned; by repeat intros []); [..| apply field_parenthesized].
  - apply field_spanned. by intros [[kind e] target] s.
  - by intros ts e (v & _ & ->).
  - intros ts e (f & Hf & ->) _. destruct (reference_tokens _ _ Hf) as (t & s & E & Es). split_and!; [by rewrite E | by rewrite Es | by left].
Qed.

Lemma field_unary : g_unary g ⊑ field_span.
Proof.
  intros ts e ([[o|] e'] & (us & vs & -> & Hu & He) & ->); [done|]. cbn in Hu. subst us. by apply field_primary.
Qed.

Lemma field_fold {B} (h : G ast.Expression) (gi : G B) f :
  (∀ a b s, match f a b s with ast.EField _ _ => False | _ => True end) → h ⊑ field_span → gfoldl h gi f ⊑ field_span.
Proof.
  intros Hf Hh ts r (us & vs & a & -> & Ha & Hfold).
  assert (Hr : (vs = [] ∧ r = a) ∨ match r with ast.EField _ _ => False | _ => True end).
  { clear Ha. induction Hfold as [us a|us a vs b ws r Hb Hfold [[-> ->]|IH]]; [by left | right; apply Hf | by right]. }
  destruct Hr as [[-> ->]|Hr]; [rewrite app_nil_r; by apply Hh | by destruct r].
Qed.

Lemma field_additive : g_additive g ⊑ field_span.
Proof. apply field_fold; [by intros ? [] ?|]. apply field_fold; [by intros ? [] ? | apply field_unary]. Qed.

Lemma field_logical_or : g_logical_or g ⊑ field_span.
Proof.
  apply field_fold; [by intros ? [] ?|]. apply field_fold; [by intros ? [] ?|].
  intros ts e ([l [[o r]|]] & (us & vs & -> & Hl & Ho) & ->); [done|]. cbn in Ho. subst vs. rewrite app_nil_r. by apply field_additive.
Qed.
End FieldLevels.

Lemma field_expression : g_expression ⊑ field_span.
Proof. intros ts e H. apply H. intros us e'. by apply field_logical_or. Qed.

Lemma field_reference_expression : gmap (λ f, ast.EField f (ast.reference_span f)) g_field_reference ⊑ g_expression.
Proof.
  intros ts e H. apply g_expression_fold. assert (Hp : g_primary g_expression ts e) by (do 11 right; by left).
  assert (Hu : g_unary g_expression ts e) by (exists (None, e); split; [by exists [], ts | done]).
  assert (Hfold : ∀ (h : G ast.Expression) o, h ts e → gfoldl h (gseq (gselect o) h) fold_binary_node ts e).
  { intros h o He. exists ts, [], e. split_and!; [by rewrite app_nil_r | done | constructor]. }
  do 2 apply Hfold. exists (e, None). split; [|done]. exists ts, []. split_and!; [by rewrite app_nil_r | | done]. by do 2 apply Hfold.
Qed.

(** [n] derives exactly the trees of [g] that satisfy [R], from the tokens of a text. *)
Definition restricts {A} (g n : G A) (R : A → Prop) : Prop := ∀ ts a, ordered ts → n ts a ↔ g ts a ∧ R a.

Lemma restricts_projection : restricts g_projection spec_projection projection_named.
Proof.
  intros ts p Ho. unfold g_projection, spec_projection, galt. split.
  - intros [(f & Hf & ->)|H]; [|split; [by left | by destruct H as ([] & _ & ->)]]. split; [right | done].
    exists (ast.EField f (ast.reference_span f)). split; [apply field_reference_expression; by exists f|]. cbn. by rewrite decide_True.
  - intros [[H|(e & He & ->)] Hn]; [by right | left]. pose proof (field_expression _ _ He Ho) as Hf.
    destruct e as [| f sp| | | | |]; cbn in Hn |- *; try done. case_decide as E; [|done]. exists f. split; [|done].
    destruct Hf as (_ & _ & [[Hf _]|Hlt]); [done | rewrite E in Hlt; lia].
Qed.

Lemma restricts_measure : restricts g_measure spec_measure measure_named.
Proof.
  intros ts m _. split.
  - intros ([alias call] & (us & vs & -> & Ha & Hc) & ->). split; [|by exists alias]. exists (Some alias, call). split; [by exists us, vs | done].
  - intros [([[alias|] call] & (us & vs & -> & Ha & Hc) & ->) [x Hx]]; [|done]. exists (alias, call). split; [by exists us, vs | done].
Qed.

Section Restricts.
Context {A B : Type}.

Lemma restricts_span (g n : G A) (f : A → Span → B) (R : A → Prop) (R' : B → Prop) :
  (∀ a s, R' (f a s) ↔ R a) → restricts g n R → restricts (gspan g f) (gspan n f) R'.
Proof.
  intros Hf H ts b Ho. split.
  - intros (a & Ha & ->). rewrite Hf. apply H in Ha as [? ?]; [|done]. split; [by exists a | done].
  - intros [(a & Ha & ->) Hr%Hf]. exists a. split; [by apply H | done].
Qed.

Lemma restricts_seq (g n : G A) (h m : G B) (R : A → Prop) (R' : B → Prop) :
  restricts g n R → restricts h m R' → restricts (gseq g h) (gseq n m) (λ ab, R (fst ab) ∧ R' (snd ab)).
Proof.
  intros Hg Hh ts [a b] Ho. split.
  - intros (us & vs & -> & Ha & Hb). apply ordered_app in Ho as [? ?]. apply Hg in Ha as [? ?]; [|done]. apply Hh in Hb as [? ?]; [|done].
    split; [by exists us, vs | done].
  - intros [(us & vs & -> & Ha & Hb) [? ?]]. apply ordered_app in Ho as [? ?]. exists us, vs. split_and!; [done | by apply Hg | by apply Hh].
Qed.

Lemma restricts_same (g : G A) (R : A → Prop) : (∀ ts a, g ts a → R a) → restricts g g R.
Proof. intros H ts a _. split; [intros Ha; split; [done | by eapply H] | by intros []]. Qed.

End Restricts.

Lemma restricts_right {A B} (k : G B) (g n : G A) R : restricts g n R → restricts (gright k g) (gright k n) R.
Proof.
  intros H ts a Ho. pose proof (restricts_seq k k g n (λ _, True) R (restricts_same k _ (λ _ _ _, I)) H ts) as Hs. split.
  - intros [u Hu]. apply Hs in Hu as [? [_ ?]]; [|done]. split; [by exists u | done].
  - intros [[u Hu] Hr]. exists u. by apply Hs.
Qed.

Lemma restricts_star {A} (g n : G A) R : restricts g n R → restricts (gstar g) (gstar n) (Forall R).
Proof.
  intros H ts l Ho. split.
  - intros Hs. induction Hs as [|us a vs l Ha Hs IH]; [split; constructor|]. apply ordered_app in Ho as [? ?].
    apply H in Ha as [? ?]; [|done]. destruct IH; [done|]. split; by constructor.
  - intros [Hs Hr]. induction Hs as [|us a vs l Ha Hs IH]; [constructor|]. apply ordered_app in Ho as [? ?].
    apply Forall_cons in Hr as [? ?]. constructor; [by apply H | by apply IH].
Qed.

Lemma restricts_alt {A} (g n h m : G A) R : restricts g n R → restricts h m R → restricts (galt g h) (galt n m) R.
Proof.
  intros Hg Hh ts a Ho. unfold galt. rewrite (Hg ts a Ho), (Hh ts a Ho). tauto.
Qed.

Lemma restricts_commas {A} (g n : G A) R : restricts g n R → restricts (gcommas g) (gcommas n) (Forall R).
Proof.
  intros H ts l Ho.
  pose proof (restricts_seq _ _ _ _ _ _ H (restricts_star _ _ _ (restricts_right (gjust Comma) _ _ _ H)) ts) as Hs. split.
  - intros ([a l'] & Ha & ->). apply Hs in Ha as [? [? ?]]; [|done]. split; [by exists (a, l') | by constructor].
  - intros [([a l'] & Ha & ->) Hr]. apply Forall_cons in Hr as [? ?]. exists (a, l'). split; [by apply Hs | done].
Qed.

Lemma restricts_stage : restricts g_stage (stage_of spec_projection spec_measure) stage_named.
Proof.
  unfold g_stage, stage_of. repeat apply restricts_alt.
  - apply restricts_same. by intros ts s (e & _ & ->).
  - eapply restricts_span; [|apply restricts_right, restricts_commas, restricts_projection]. done.
  - apply restricts_same. by intros ts s (e & _ & ->).
  - apply restricts_same. by intros ts s (e & _ & ->).
  - eapply restricts_span; [|apply restricts_seq; [apply restricts_right, restricts_commas, restricts_measure|]].
    2: by apply (restricts_same g_group_by (λ _, True)).
    intros [ms gs] s. split; [by intros H; split | by intros [? _]].
Qed.

(** The normative grammar derives the trees of the parser's in which aliases are given. *)
Lemma spec_query_named : restricts g_query spec_query query_named.
Proof.
  eapply restricts_span; [|apply restricts_seq, restricts_star, restricts_right, restricts_stage].
  2: by apply (restricts_same g_source (λ _, True)).
  intros [source stages] s. split; [by intros H; split | by intros [_ ?]].
Qed.

(** C32: the parser accepts exactly the language of its grammar. A query text parses to a
    tree if and only if its tokens derive that tree, with every span running from the first
    to the last token of its node; ordered choice, rewinding and bounded recursion lose no
    derivation and add none, and no text derives two trees. The normative grammar of the
    specification derives exactly those of these trees in which each projection is a field
    or has an alias and each measure has an alias. *)
Theorem parse_grammar decode source q :
  (parse decode source = Some q ↔ ∃ ts, tokenizer decode source = Some ts ∧ g_query ts q) ∧
  (∀ ts q', g_query ts q → g_query ts q' → q = q') ∧
  (∀ ts, tokenizer decode source = Some ts → spec_query ts q ↔ g_query ts q ∧ query_named q).
Proof.
  split; [apply parse_tokens | split; [intros ts q'; apply parse_unique|]].
  intros ts Ht%tokenizer_ordered. by apply spec_query_named.
Qed.

(** ** Integers in derived trees *)

(** Trees derived from tokens whose integers are [u64]s. *)
Definition trees {A} (R : A → Prop) : G A := λ ts a, Forall (token_ok ∘ fst) ts → R a.

Section Trees.
Context {A B : Type}.

Lemma trees_select (f : Token → option A) (R : A → Prop) :
  (∀ t a, token_ok t → f t = Some a → R a) → gselect f ⊑ trees R.
Proof. intros H ts a (t & s & -> & Hf) Hok. inversion Hok; subst. by eapply H. Qed.

Lemma trees_alt (g h : G A) R : g ⊑ trees R → h ⊑ trees R → galt g h ⊑ trees R.
Proof. intros Hg Hh ts a [H|H]; [by apply Hg | by apply Hh]. Qed.

Lemma trees_seq (g : G A) (h : G B) (R1 : A → Prop) (R2 : B → Prop) :
  g ⊑ trees R1 → h ⊑ trees R2 → gseq g h ⊑ trees (λ ab, R1 (fst ab) ∧ R2 (snd ab)).
Proof.
  intros Hg Hh ts a (us & vs & -> & H1 & H2) [? ?]%Forall_app. split; [by eapply Hg | by eapply Hh].
Qed.

Lemma trees_left (g : G A) (h : G B) R : g ⊑ trees R → gleft g h ⊑ trees R.
Proof. intros Hg ts a (b & us & vs & -> & H1 & _) [? ?]%Forall_app. by eapply Hg. Qed.

Lemma trees_right (g : G A) (h : G B) R : h ⊑ trees R → gright g h ⊑ trees R.
Proof. intros Hh ts b (a & us & vs & -> & _ & H2) [? ?]%Forall_app. by eapply Hh. Qed.

Lemma trees_span (g : G A) (f : A → Span → B) (R : A → Prop) (R' : B → Prop) :
  g ⊑ trees R → (∀ a s, R a → R' (f a s)) → gspan g f ⊑ trees R'.
Proof. intros Hg Hf ts b (a & H & ->) Hok. by eapply Hf, Hg. Qed.

Lemma trees_map (f : A → B) (g : G A) (R : A → Prop) (R' : B → Prop) :
  g ⊑ trees R → (∀ a, R a → R' (f a)) → gmap f g ⊑ trees R'.
Proof. intros Hg Hf ts b (a & H & ->) Hok. by eapply Hf, Hg. Qed.

Lemma trees_any (g : G A) : g ⊑ trees (λ _, True).
Proof. done. Qed.

Lemma trees_opt (g : G A) R : g ⊑ trees R → gopt g ⊑ trees (λ o, ∀ a, o = Some a → R a).
Proof. intros Hg ts [a|] H Hok a' [= <-]. by eapply Hg. Qed.

Lemma trees_star (g : G A) R : g ⊑ trees R → gstar g ⊑ trees (Forall R).
Proof.
  intros Hg ts l H. induction H as [|us a vs l Ha H IH]; [by constructor|].
  intros [? ?]%Forall_app. constructor; [by eapply Hg | by apply IH].
Qed.

Lemma trees_foldl (g : G A) (gi : G B) f (R : A → Prop) (R' : B → Prop) :
  g ⊑ trees R → gi ⊑ trees R' → (∀ a b s, R a → R' b → R (f a b s)) → gfoldl g gi f ⊑ trees R.
Proof.
  intros Hg Hi Hf ts r (us & vs & a & -> & H & Hfold) [Hu Hv]%Forall_app.
  assert (Ha : R a) by (by eapply Hg). clear H Hu. revert Ha Hv.
  induction Hfold as [|us a vs b ws r Hb Hfold IH]; intros Ha Hv; [done|].
  apply Forall_app in Hv as [Hv Hw]. apply IH; [|done]. apply Hf; [done | by eapply Hi].
Qed.
End Trees.

Lemma trees_commas {A} (g : G A) R : g ⊑ trees R → gcommas g ⊑ trees (Forall R).
Proof.
  intros Hg. unfold gcommas, gcons. eapply trees_map; [eapply trees_seq; [done|]|].
  - by apply trees_star, trees_right.
  - intros [a l] [Ha Hl]. by constructor.
Qed.
