(* ===== verification/IR.v ===== *)
(** * elucid-language: the typed intermediate representation, and diagnostics

    Models src/elucid/elucid-language/src/{ir,catalog}.rs, and states the typing
    judgement that makes an IR expression, stage and pipeline well formed. *)

From S2P Require Import Prelude Core CatalogTypes CatalogModel CatalogSource Syntax Floats.

Open Scope Z_scope.

Module ir.

(** Milliseconds since the Unix epoch, an [i64]. *)
Definition UtcInstant := Z.

Inductive Literal :=
| Null (logical_type : LogicalType)
| Boolean (value : bool)
| Int32 (value : Z)
| Int64 (value : Z)
| UInt32 (value : Z)
| UInt64 (value : Z)
| Float32 (value : float)
| Float64 (value : float)
| Utf8 (value : string)
| Datetime (value : UtcInstant)
| Eid (value : EventId.t).

Definition literal_logical_type (l : Literal) : LogicalType :=
  match l with
  | Null t => t
  | Boolean _ => CatalogTypes.Bool
  | Int32 _ => CatalogTypes.Int32
  | Int64 _ => CatalogTypes.Int64
  | UInt32 _ => CatalogTypes.UInt32
  | UInt64 _ => CatalogTypes.UInt64
  | Float32 _ => CatalogTypes.Float32
  | Float64 _ => CatalogTypes.Float64
  | Utf8 _ => CatalogTypes.Utf8
  | Datetime _ => CatalogTypes.Datetime
  | Eid _ => CatalogTypes.Eid
  end.

Definition literal_nullability (l : Literal) : Nullability :=
  match l with Null _ => Nullable | _ => NonNull end.

Inductive UnaryOperator := Not | Negate.

Inductive BinaryOperator :=
| Add | Subtract | Multiply | Divide
| Equal | NotEqual | GreaterThan | GreaterThanOrEqual | LessThan | LessThanOrEqual
| And | Or.

#[global] Instance BinaryOperator_eq_dec : EqDecision BinaryOperator.
Proof. solve_decision. Defined.

Inductive CastKind := Lossless | Strict | NullOnFailure.

Inductive RemainderFunction := Value | Exists.

Inductive NullPredicate := IsNull | IsNotNull.

Inductive FieldOrigin :=
| Schema (field_id : FieldId)
| System (field_id : FieldId)
| Derived (declaration_span : Span).

Record Field := {
  name : string;
  logical_type : LogicalType;
  nullability : Nullability;
  origin : FieldOrigin;
}.

#[global] Instance FieldOrigin_eq_dec : EqDecision FieldOrigin.
Proof. solve_decision. Defined.
#[global] Instance Field_eq_dec : EqDecision Field.
Proof. solve_decision. Defined.

Definition Relation := list Field.

(** [Relation::field] *)
Definition field (r : Relation) (n : string) : option Field :=
  find (λ f, String.eqb (name f) n) r.

(** [Expression] and [ExpressionKind] are mutually recursive as in the code: a
    node carries its kind, its logical type and its nullability. *)
Inductive Expression :=
| mkExpression (kind : ExpressionKind) (t : LogicalType) (n : Nullability)
with ExpressionKind :=
| KLiteral (literal : Literal)
| KField (f : Field)
| KUnary (operator : UnaryOperator) (operand : Expression)
| KBinary (operator : BinaryOperator) (left right : Expression)
| KCast (kind : CastKind) (expression : Expression) (target : LogicalType)
| KRemainder (function : RemainderFunction) (remainder : Field) (key : string)
| KNullPredicate (expression : Expression) (predicate : NullPredicate).

Definition kind (e : Expression) : ExpressionKind := match e with mkExpression k _ _ => k end.
Definition type_of (e : Expression) : LogicalType := match e with mkExpression _ t _ => t end.
Definition nullability_of (e : Expression) : Nullability :=
  match e with mkExpression _ _ n => n end.

Definition literal (l : Literal) : Expression :=
  mkExpression (KLiteral l) (literal_logical_type l) (literal_nullability l).

Definition field_expression (f : Field) : Expression :=
  mkExpression (KField f) (logical_type f) (nullability f).

Record Source := {
  source_id : SourceId;
  source_name : string;
  active_schema_id : SchemaId;
}.

Record TimeRange := { start_inclusive : UtcInstant; end_exclusive : UtcInstant }.

Definition TimeRange_new (start_inclusive end_exclusive : UtcInstant) : option TimeRange :=
  if start_inclusive >=? end_exclusive then None
  else Some {| start_inclusive := start_inclusive; end_exclusive := end_exclusive |}.

Record Projection := { pr_expression : Expression; pr_output_field : Field }.

Inductive SortOrder := Ascending | Descending.

Record SortSpec := { ss_field : Field; ss_order : SortOrder }.

Inductive AggregateFunction := Count | Sum | Min | Max | Average.

#[global] Instance AggregateFunction_eq_dec : EqDecision AggregateFunction.
Proof. solve_decision. Defined.

Record AggregateExpression := {
  ae_function : AggregateFunction;
  ae_argument : option Field;
  ae_output_field : Field;
}.

Inductive StageKind :=
| Filter (expression : Expression)
| Project (projections : list Projection)
| Aggregate (measures : list AggregateExpression) (group_by : list Field)
| Sort (specs : list SortSpec)
| Take (count : Z).

Record Stage := { sg_kind : StageKind; sg_output_relation : Relation }.

Record Pipeline := {
  pl_source : Source;
  pl_time_range : TimeRange;
  pl_source_relation : Relation;
  pl_stages : list Stage;
}.

(** [Pipeline::output_relation] *)
Definition output_relation (p : Pipeline) : Relation :=
  match last (pl_stages p) with
  | Some stage => sg_output_relation stage
  | None => pl_source_relation p
  end.

End ir.

(** [CatalogSnapshot] holds at most one source. *)
Record CatalogSnapshot := { snapshot_source : option Source }.

Definition CatalogSnapshot_source (c : CatalogSnapshot) (name : string) : option Source :=
  match snapshot_source c with
  | Some source => if String.eqb (src_name source) name then Some source else None
  | None => None
  end.

(** ** Diagnostics

    Models src/elucid/elucid-language/src/semantic/error.rs. A diagnostic carries its
    code, severity, span and source range; the human-readable message is not
    modelled. *)

Inductive AnalyzeErrorKind := Syntax | Semantic.

Inductive DiagnosticSeverity := Error | Warning.

#[export] Instance DiagnosticSeverity_eq_dec : EqDecision DiagnosticSeverity.
Proof. solve_decision. Defined.

Definition sort_order (s : DiagnosticSeverity) : nat :=
  match s with Error => 0 | Warning => 1 end.

Inductive DiagnosticCode :=
| SyntaxError | SourceNotFound | FieldNotFound
| TimeExpressionInvalid | TimeBoundUnresolved | TimeRangeInvalid
| LiteralInvalid | FunctionArityInvalid | FunctionArgumentTypeInvalid | CastInvalid
| ProjectionAliasRequired | AggregateAliasRequired | DuplicateOutputField
| StageOrderInvalid | TakeInvalid | TypeMismatch | ConstantEvaluationFailed.

#[export] Instance DiagnosticCode_eq_dec : EqDecision DiagnosticCode.
Proof. solve_decision. Defined.

Definition code_as_str (c : DiagnosticCode) : string :=
  match c with
  | SyntaxError => "QUERY_SYNTAX_ERROR"
  | SourceNotFound => "QUERY_SOURCE_NOT_FOUND"
  | FieldNotFound => "QUERY_FIELD_NOT_FOUND"
  | TimeExpressionInvalid => "QUERY_TIME_EXPRESSION_INVALID"
  | TimeBoundUnresolved => "QUERY_TIME_BOUND_UNRESOLVED"
  | TimeRangeInvalid => "QUERY_TIME_RANGE_INVALID"
  | LiteralInvalid => "QUERY_LITERAL_INVALID"
  | FunctionArityInvalid => "QUERY_FUNCTION_ARITY_INVALID"
  | FunctionArgumentTypeInvalid => "QUERY_FUNCTION_ARGUMENT_TYPE_INVALID"
  | CastInvalid => "QUERY_CAST_INVALID"
  | ProjectionAliasRequired => "QUERY_PROJECTION_ALIAS_REQUIRED"
  | AggregateAliasRequired => "QUERY_AGGREGATE_ALIAS_REQUIRED"
  | DuplicateOutputField => "QUERY_DUPLICATE_OUTPUT_FIELD"
  | StageOrderInvalid => "QUERY_STAGE_ORDER_INVALID"
  | TakeInvalid => "QUERY_TAKE_INVALID"
  | TypeMismatch => "QUERY_TYPE_MISMATCH"
  | ConstantEvaluationFailed => "QUERY_CONSTANT_EVALUATION_FAILED"
  end%string.

Record SourcePosition := { line : nat; column : nat }.
Record SourceRange := { range_start : SourcePosition; range_end : SourcePosition }.

Record Diagnostic := {
  d_code : DiagnosticCode;
  d_severity : DiagnosticSeverity;
  d_span : option Span;
  d_source_range : option SourceRange;
}.

(** [Diagnostic::error] *)
Definition error (code : DiagnosticCode) (span : Span) : Diagnostic :=
  {| d_code := code; d_severity := Error; d_span := Some span; d_source_range := None |}.

(** UTF-8 continuation bytes are [0x80..0xBF]; [str::get(..n)] is [None] past the
    end of the text and where [n] is not a character boundary. *)
Definition is_continuation (c : ascii) : bool := ascii_in "128" "191" c.

Fixpoint prefix_chars (source : string) (byte_offset : nat) : option (list ascii) :=
  match byte_offset, source with
  | O, EmptyString => Some []
  | O, String c _ => if is_continuation c then None else Some []
  | S n, EmptyString => None
  | S n, String c rest => (cons c) <$> prefix_chars rest n
  end.

(** One step of the loop over [prefix.chars()], byte by byte: a continuation byte
    belongs to a character already counted. *)
Definition advance (p : SourcePosition) (c : ascii) : SourcePosition :=
  if Ascii.eqb c "010" then {| line := S (line p); column := 1 |}
  else if is_continuation c then p
  else {| line := line p; column := S (column p) |}.

Definition source_position (source : string) (byte_offset : nat) : option SourcePosition :=
  prefix ← prefix_chars source byte_offset;
  Some (foldl advance {| line := 1; column := 1 |} prefix).

Definition attach_source_range (d : Diagnostic) (source : string) : Diagnostic :=
  {| d_code := d_code d; d_severity := d_severity d; d_span := d_span d;
     d_source_range :=
       span ← d_span d;
       s ← source_position source (start span);
       e ← source_position source (end_ span);
       Some {| range_start := s; range_end := e |} |}.

(** [usize::MAX], the position of a diagnostic without a span. *)
Definition span_key (d : Diagnostic) : Z * Z :=
  match d_span d with
  | Some s => (Z.of_nat (start s), Z.of_nat (end_ s))
  | None => (int_max U64, int_max U64)
  end.

(** [Ordering::then_with] *)
Definition then_with (c d : comparison) : comparison := match c with Eq => d | _ => c end.

Definition compare_diagnostics (left right : Diagnostic) : comparison :=
  then_with (Z.compare (fst (span_key left)) (fst (span_key right)))
    (then_with (Z.compare (snd (span_key left)) (snd (span_key right)))
      (then_with (Nat.compare (sort_order (d_severity left)) (sort_order (d_severity right)))
        (String.compare (code_as_str (d_code left)) (code_as_str (d_code right))))).

Definition diagnostic_le (l r : Diagnostic) : Prop := compare_diagnostics l r ≠ Gt.

#[export] Instance diagnostic_le_dec l r : Decision (diagnostic_le l r).
Proof. unfold diagnostic_le. solve_decision. Defined.

(** [sort_by] is a stable sort, as is stdpp's [merge_sort]. *)
Definition finish_diagnostics (diagnostics : list Diagnostic) (source : string) : list Diagnostic :=
  merge_sort diagnostic_le ((λ d, attach_source_range d source) <$> diagnostics).

Record AnalyzeError := {
  ae_kind : AnalyzeErrorKind;
  ae_diagnostics : list Diagnostic;
}.

Definition AnalyzeError_syntax (span : Span) : AnalyzeError :=
  {| ae_kind := Syntax; ae_diagnostics := [error SyntaxError span] |}.

Definition AnalyzeError_semantic (diagnostics : list Diagnostic) : AnalyzeError :=
  {| ae_kind := Semantic; ae_diagnostics := diagnostics |}.
