(* ===== verification/SemExpression.v ===== *)
(** * elucid-language: typed lowering of expressions

    Models src/elucid/elucid-language/src/semantic/expression.rs: literals and
    constructors, casts, unary and binary operators with contextual typing of
    integer and null literals, and constant folding. The helpers that recurse into
    the tree take the conversion function as their first argument; the recursive
    function itself is [convert_expression_with_expected]. The [diagnostics]
    argument of the code is not threaded: no function of the file writes to it. *)

From S2P Require Import Prelude Core CatalogTypes CatalogModel CatalogSource Syntax Floats IR.

Open Scope Z_scope.

(** The third-party parser [chrono::DateTime::parse_from_rfc3339]: the
    observations the code makes on its result, here and in elucid-ingestion. *)
Record chrono_datetime := {
  timestamp_millis : Z;
  timestamp_subsec_nanos : Z;
  nanosecond : Z;
}.

Class Chrono := parse_from_rfc3339 : string → option chrono_datetime.

(** [timestamp_millis] returns an [i64]. *)
Class ChronoLaws `{Chrono} : Prop :=
  chrono_millis s d : parse_from_rfc3339 s = Some d → fits I64 (timestamp_millis d) = true.

Inductive IntegerLiteralSite := ExpressionSite | ConstructorSite.

#[export] Instance IntegerLiteralSite_eq_dec : EqDecision IntegerLiteralSite.
Proof. solve_decision. Defined.

Definition literal_invalid {A} (span : Span) : result Diagnostic A := Err (error LiteralInvalid span).
Definition type_mismatch {A} (span : Span) : result Diagnostic A := Err (error TypeMismatch span).
Definition constant_evaluation_failed {A} (span : Span) : result Diagnostic A :=
  Err (error ConstantEvaluationFailed span).

(** ** Type predicates and tables *)

Definition is_numeric (t : LogicalType) : bool :=
  match t with
  | Int32 | Int64 | UInt32 | UInt64 | Float32 | Float64 => true
  | _ => false
  end.

Definition is_integer (t : LogicalType) : bool :=
  match t with Int32 | Int64 | UInt32 | UInt64 => true | _ => false end.

Definition numeric_type (t : ast.NumericType) : LogicalType :=
  match t with
  | ast.NInt32 => Int32 | ast.NInt64 => Int64 | ast.NUInt32 => UInt32
  | ast.NUInt64 => UInt64 | ast.NFloat32 => Float32 | ast.NFloat64 => Float64
  end.

Definition logical_type (t : ast.LogicalType) : LogicalType :=
  match t with
  | ast.Bool => Bool | ast.Int32 => Int32 | ast.Int64 => Int64 | ast.UInt32 => UInt32
  | ast.UInt64 => UInt64 | ast.Float32 => Float32 | ast.Float64 => Float64
  | ast.Utf8 => Utf8 | ast.Datetime => Datetime | ast.Eid => Eid | ast.Json => Json
  end.

Definition binary_operator (o : ast.BinaryOperator) : ir.BinaryOperator :=
  match o with
  | ast.Add => ir.Add | ast.Subtract => ir.Subtract
  | ast.Multiply => ir.Multiply | ast.Divide => ir.Divide
  | ast.Equal => ir.Equal | ast.NotEqual => ir.NotEqual
  | ast.GreaterThan => ir.GreaterThan | ast.GreaterThanOrEqual => ir.GreaterThanOrEqual
  | ast.LessThan => ir.LessThan | ast.LessThanOrEqual => ir.LessThanOrEqual
  | ast.And => ir.And | ast.Or => ir.Or
  end.

Definition combine_nullability (left right : Nullability) : Nullability :=
  if decide (left = Nullable ∨ right = Nullable) then Nullable else NonNull.

Definition can_widen (source target : LogicalType) : bool :=
  bool_decide (source = target) ||
  match source, target with
  | Int32, (Int64 | Float64) | UInt32, (UInt64 | Float64) | Float32, Float64 => true
  | _, _ => false
  end.

Definition CANDIDATES : list LogicalType := [Int32; UInt32; Int64; UInt64; Float32; Float64].

Definition common_numeric_type (left right : LogicalType) : option LogicalType :=
  find (λ candidate, can_widen left candidate && can_widen right candidate) CANDIDATES.

Definition cast_is_defined (source target : LogicalType) : bool :=
  bool_decide (source = target)
  || is_numeric source && is_numeric target
  || bool_decide (target = Json)
  || bool_decide (source = Json)
  || bool_decide (target = Utf8)
  || bool_decide (source = Utf8) &&
     match target with
     | Bool | Int32 | Int64 | UInt32 | UInt64 | Float32 | Float64 | Datetime | Eid => true
     | _ => false
     end.

Definition is_null_literal (e : ast.Expression) : bool :=
  match e with ast.ELiteral {| ast.l_kind := ast.Null |} _ => true | _ => false end.

Fixpoint needs_context (e : ast.Expression) : bool :=
  match e with
  | ast.ELiteral l _ =>
      match ast.l_kind l with ast.Integer _ | ast.Null => true | _ => false end
  | ast.EUnary ast.Negate operand _ => needs_context operand
  | ast.EBinary (ast.Add | ast.Subtract | ast.Multiply | ast.Divide) l r _ =>
      needs_context l && needs_context r
  | _ => false
  end.

(** ** Numeric literals *)

(** [signed_i128]: negating a [u64] cannot overflow an [i128]. *)
Definition signed_i128 (magnitude : Z) (negative : bool) : Z :=
  if negative then - magnitude else magnitude.

(** [u64::BITS - value.leading_zeros()] *)
Definition significant_bits (value : Z) : Z :=
  if value =? 0 then 0 else Z.log2 value + 1.

(** [u64::trailing_zeros], which is 64 at zero. *)
Fixpoint trailing_zeros_pos (p : positive) : Z :=
  match p with xO q => 1 + trailing_zeros_pos q | _ => 0 end.

Definition trailing_zeros (value : Z) : Z :=
  match value with Zpos p => trailing_zeros_pos p | _ => 64 end.

Definition integer_is_exact (value : Z) (mantissa_digits : Z) : bool :=
  (significant_bits value <=? mantissa_digits)
  || (significant_bits value - mantissa_digits <=? trailing_zeros value).

Definition signed_float (negative : bool) (value : float) : float :=
  if negative then fneg value else value.

Definition integer_literal (magnitude : Z) (sign : ast.NumericSign)
    (expected : option LogicalType) (span : Span) (site : IntegerLiteralSite)
    : result Diagnostic ir.Literal :=
  let target := default Int64 expected in
  let has_leading_minus := bool_decide (sign = ast.Negative) in
  let negative := has_leading_minus && negb (magnitude =? 0) in
  match target with
  | Int32 =>
      match narrow I32 (signed_i128 magnitude negative) with
      | Some value => Ok (ir.Int32 value) | None => literal_invalid span end
  | Int64 =>
      match narrow I64 (signed_i128 magnitude negative) with
      | Some value => Ok (ir.Int64 value) | None => literal_invalid span end
  | UInt32 =>
      if bool_decide (site = ConstructorSite) && has_leading_minus then literal_invalid span
      else if negative then type_mismatch span
      else match narrow U32 magnitude with
           | Some value => Ok (ir.UInt32 value) | None => literal_invalid span end
  | UInt64 =>
      if bool_decide (site = ConstructorSite) && has_leading_minus then literal_invalid span
      else if negative then type_mismatch span
      else Ok (ir.UInt64 magnitude)
  | Float32 =>
      if integer_is_exact magnitude (mantissa_digits F32)
      then Ok (ir.Float32 (signed_float negative (float_of_Z F32 magnitude)))
      else literal_invalid span
  | Float64 =>
      if integer_is_exact magnitude (mantissa_digits F64)
      then Ok (ir.Float64 (signed_float negative (float_of_Z F64 magnitude)))
      else literal_invalid span
  | Bool | Utf8 | Datetime | Eid | Json => type_mismatch span
  end.

Definition floating_constructor_from_integer (magnitude : Z) (sign : ast.NumericSign)
    (target : LogicalType) (span : Span) : result Diagnostic ir.Literal :=
  let negative := bool_decide (sign = ast.Negative) in
  match target with
  | Float32 =>
      let value := float_of_Z F32 magnitude in
      if is_finite value then Ok (ir.Float32 (signed_float negative value))
      else literal_invalid span
  | Float64 => Ok (ir.Float64 (signed_float negative (float_of_Z F64 magnitude)))
  | _ => literal_invalid span
  end.

Definition floating_constructor (token : string) (sign : ast.NumericSign)
    (target : LogicalType) (span : Span) : result Diagnostic ir.Literal :=
  let negative := bool_decide (sign = ast.Negative) in
  let finite t (wrap : float → ir.Literal) :=
    match parse_float t token with
    | None => literal_invalid span
    | Some value =>
        if negb (is_finite value) then literal_invalid span
        else Ok (wrap (signed_float negative value))
    end in
  match target with
  | Float32 => finite F32 ir.Float32
  | Float64 => finite F64 ir.Float64
  | _ => literal_invalid span
  end.

(** ** Constant folding *)

(** The macro [fold_integer!], instantiated at the four integer types below. *)
Definition fold_integer (t : int_ty) (variant : Z → ir.Literal) (operator : ir.BinaryOperator)
    (left right : Z) (span : Span) : result Diagnostic (option ir.Literal) :=
  let arithmetic (value : option Z) :=
    match value with
    | Some v => Ok (Some (variant v))
    | None => constant_evaluation_failed span
    end in
  match operator with
  | ir.Add => arithmetic (checked_add t left right)
  | ir.Subtract => arithmetic (checked_sub t left right)
  | ir.Multiply => arithmetic (checked_mul t left right)
  | ir.Divide => arithmetic (checked_div t left right)
  | ir.Equal => Ok (Some (ir.Boolean (left =? right)))
  | ir.NotEqual => Ok (Some (ir.Boolean (negb (left =? right))))
  | ir.GreaterThan => Ok (Some (ir.Boolean (left >? right)))
  | ir.GreaterThanOrEqual => Ok (Some (ir.Boolean (left >=? right)))
  | ir.LessThan => Ok (Some (ir.Boolean (left <? right)))
  | ir.LessThanOrEqual => Ok (Some (ir.Boolean (left <=? right)))
  | ir.And | ir.Or => Ok None
  end.

(** [fold_f32] and [fold_float], which differ only in the format. *)
Definition fold_float (t : float_ty) (variant : float → ir.Literal) (operator : ir.BinaryOperator)
    (left right : float) (span : Span) : result Diagnostic (option ir.Literal) :=
  let arithmetic (value : float) :=
    if is_finite value then Ok (Some (variant value)) else constant_evaluation_failed span in
  match operator with
  | ir.Add => arithmetic (fadd t left right)
  | ir.Subtract => arithmetic (fsub t left right)
  | ir.Multiply => arithmetic (fmul t left right)
  | ir.Divide =>
      if feq right (SpecFloat.S754_zero false) then constant_evaluation_failed span
      else arithmetic (fdiv t left right)
  | ir.Equal => Ok (Some (ir.Boolean (feq left right)))
  | ir.NotEqual => Ok (Some (ir.Boolean (negb (feq left right))))
  | ir.GreaterThan => Ok (Some (ir.Boolean (flt right left)))
  | ir.GreaterThanOrEqual => Ok (Some (ir.Boolean (fle right left)))
  | ir.LessThan => Ok (Some (ir.Boolean (flt left right)))
  | ir.LessThanOrEqual => Ok (Some (ir.Boolean (fle left right)))
  | ir.And | ir.Or => Ok None
  end.

Definition fold_ordered (operator : ir.BinaryOperator) (ordering : comparison)
    : option ir.Literal :=
  match operator with
  | ir.Equal => Some (ir.Boolean match ordering with Eq => true | _ => false end)
  | ir.NotEqual => Some (ir.Boolean match ordering with Eq => false | _ => true end)
  | ir.GreaterThan => Some (ir.Boolean match ordering with Gt => true | _ => false end)
  | ir.GreaterThanOrEqual => Some (ir.Boolean match ordering with Lt => false | _ => true end)
  | ir.LessThan => Some (ir.Boolean match ordering with Lt => true | _ => false end)
  | ir.LessThanOrEqual => Some (ir.Boolean match ordering with Gt => false | _ => true end)
  | ir.Add | ir.Subtract | ir.Multiply | ir.Divide | ir.And | ir.Or => None
  end.

Definition boolean_value (literal : ir.Literal) : option (option bool) :=
  match literal with
  | ir.Boolean value => Some (Some value)
  | ir.Null Bool => Some None
  | _ => None
  end.

Definition fold_three_valued_boolean (operator : ir.BinaryOperator) (left right : ir.Literal)
    : option ir.Literal :=
  left ← boolean_value left;
  right ← boolean_value right;
  value ← match operator with
          | ir.And =>
              Some match left, right with
                   | Some false, _ | _, Some false => Some false
                   | Some true, value | value, Some true => value
                   | None, None => None
                   end
          | ir.Or =>
              Some match left, right with
                   | Some true, _ | _, Some true => Some true
                   | Some false, value | value, Some false => value
                   | None, None => None
                   end
          | _ => None
          end;
  Some match value with
       | Some value => ir.Boolean value
       | None => ir.Null Bool
       end.

Definition is_null (l : ir.Literal) : bool := match l with ir.Null _ => true | _ => false end.

Definition fold_literals (operator : ir.BinaryOperator) (left right : ir.Literal) (span : Span)
    : result Diagnostic (option ir.Literal) :=
  match left, right with
  | ir.Int32 l, ir.Int32 r => fold_integer I32 ir.Int32 operator l r span
  | ir.Int64 l, ir.Int64 r => fold_integer I64 ir.Int64 operator l r span
  | ir.UInt32 l, ir.UInt32 r => fold_integer U32 ir.UInt32 operator l r span
  | ir.UInt64 l, ir.UInt64 r => fold_integer U64 ir.UInt64 operator l r span
  | ir.Float32 l, ir.Float32 r => fold_float F32 ir.Float32 operator l r span
  | ir.Float64 l, ir.Float64 r => fold_float F64 ir.Float64 operator l r span
  | ir.Boolean l, ir.Boolean r =>
      Ok match operator with
         | ir.And => Some (ir.Boolean (l && r))
         | ir.Or => Some (ir.Boolean (l || r))
         | ir.Equal => Some (ir.Boolean (Bool.eqb l r))
         | ir.NotEqual => Some (ir.Boolean (negb (Bool.eqb l r)))
         | _ => None
         end
  | ir.Utf8 l, ir.Utf8 r => Ok (fold_ordered operator (String.compare l r))
  | ir.Datetime l, ir.Datetime r => Ok (fold_ordered operator (Z.compare l r))
  | ir.Eid l, ir.Eid r => Ok (fold_ordered operator (EventId.compare l r))
  | _, _ => Ok None
  end.

Definition is_and_or (o : ir.BinaryOperator) : bool :=
  match o with ir.And | ir.Or => true | _ => false end.

Definition fold_binary (operator : ir.BinaryOperator) (left right : ir.Expression)
    (t : LogicalType) (span : Span) : result Diagnostic (option ir.Expression) :=
  match ir.kind left, ir.kind right with
  | ir.KLiteral l, ir.KLiteral r =>
      match (if is_and_or operator then fold_three_valued_boolean operator l r else None) with
      | Some value => Ok (Some (ir.literal value))
      | None =>
          if is_null l || is_null r then Ok (Some (ir.literal (ir.Null t)))
          else folded ← fold_literals operator l r span;
               Ok (option_map ir.literal folded)
      end
  | _, _ => Ok None
  end.

Definition fold_unary (operator : ir.UnaryOperator) (operand : ir.Expression) (span : Span)
    : result Diagnostic (option ir.Expression) :=
  match ir.kind operand with
  | ir.KLiteral literal =>
      match operator, literal with
      | _, ir.Null t => Ok (Some (ir.literal (ir.Null t)))
      | ir.Not, ir.Boolean value => Ok (Some (ir.literal (ir.Boolean (negb value))))
      | ir.Negate, ir.Int32 value =>
          match checked_neg I32 value with
          | Some v => Ok (Some (ir.literal (ir.Int32 v)))
          | None => constant_evaluation_failed span
          end
      | ir.Negate, ir.Int64 value =>
          match checked_neg I64 value with
          | Some v => Ok (Some (ir.literal (ir.Int64 v)))
          | None => constant_evaluation_failed span
          end
      | ir.Negate, ir.Float32 value => Ok (Some (ir.literal (ir.Float32 (fneg value))))
      | ir.Negate, ir.Float64 value => Ok (Some (ir.literal (ir.Float64 (fneg value))))
      | _, _ => Ok None
      end
  | _ => Ok None
  end.

(** ** Widening *)

Definition widen_literal (literal : ir.Literal) (target : LogicalType) : option ir.Literal :=
  match literal, target with
  | ir.Int32 value, Int64 => Some (ir.Int64 value)
  | ir.Int32 value, Float64 => Some (ir.Float64 (float_of_Z F64 value))
  | ir.UInt32 value, UInt64 => Some (ir.UInt64 value)
  | ir.UInt32 value, Float64 => Some (ir.Float64 (float_of_Z F64 value))
  | ir.Float32 value, Float64 => Some (ir.Float64 (f64_of_f32 value))
  | ir.Null _, target => Some (ir.Null target)
  | _, _ => None
  end.

Definition coerce_losslessly (expression : ir.Expression) (target : LogicalType) : ir.Expression :=
  if decide (ir.type_of expression = target) then expression
  else
  match (match ir.kind expression with
         | ir.KLiteral literal => widen_literal literal target
         | _ => None
         end) with
  | Some literal => ir.literal literal
  | None =>
      ir.mkExpression (ir.KCast ir.Lossless expression target) target (ir.nullability_of expression)
  end.

Definition build_binary (operator : ast.BinaryOperator) (left right : ir.Expression)
    (t : LogicalType) (span : Span) : result Diagnostic ir.Expression :=
  let operator := binary_operator operator in
  folded ← fold_binary operator left right t span;
  match folded with
  | Some folded => Ok folded
  | None =>
      Ok (ir.mkExpression (ir.KBinary operator left right) t
            (combine_nullability (ir.nullability_of left) (ir.nullability_of right)))
  end.

(** ** Conversion *)

Section Convert.
Context `{Chrono}.

Definition parse_datetime_with_code (value : string) (span : Span) (code : DiagnosticCode)
    : result Diagnostic ir.UtcInstant :=
  match parse_from_rfc3339 value with
  | None => Err (error code span)
  | Some parsed =>
      if negb (Z.rem (timestamp_subsec_nanos parsed) 1000000 =? 0) then Err (error code span)
      else Ok (timestamp_millis parsed)
  end.

Definition parse_datetime value span := parse_datetime_with_code value span TimeExpressionInvalid.
Definition parse_datetime_literal value span := parse_datetime_with_code value span LiteralInvalid.

Definition resolve_field (reference : ast.FieldReference) (relation : ir.Relation)
    : result Diagnostic ir.Field :=
  ok_or (ir.field relation (ast.as_str reference))
    (error FieldNotFound (ast.reference_span reference)).

Definition convert_literal (literal : ast.Literal) (expected : option LogicalType) (span : Span)
    : result Diagnostic ir.Expression :=
  l ← match ast.l_kind literal with
      | ast.Null => t ← ok_or expected (error TypeMismatch span); Ok (ir.Null t)
      | ast.Boolean value => Ok (ir.Boolean value)
      | ast.Integer magnitude =>
          integer_literal magnitude ast.NonNegative expected span ExpressionSite
      | ast.FloatingPoint text =>
          match parse_float F64 text with
          | None => literal_invalid span
          | Some value =>
              if negb (is_finite value) then literal_invalid span else Ok (ir.Float64 value)
          end
      | ast.Str value => Ok (ir.Utf8 value)
      end;
  Ok (ir.literal l).

Definition convert_constructor (constructor : ast.Constructor_) : result Diagnostic ir.Expression :=
  let span := ast.c_span constructor in
  l ← match ast.c_kind constructor with
      | ast.Numeric target literal =>
          let target := numeric_type target in
          match ast.sn_kind literal with
          | ast.NInteger magnitude =>
              if is_integer target
              then integer_literal magnitude (ast.sn_sign literal) (Some target) span ConstructorSite
              else floating_constructor_from_integer magnitude (ast.sn_sign literal) target span
          | ast.NFloatingPoint value =>
              floating_constructor value (ast.sn_sign literal) target span
          end
      | ast.DatetimeConstructor value =>
          instant ← parse_datetime_literal (ast.sl_value value) span; Ok (ir.Datetime instant)
      | ast.EidConstructor value =>
          id ← ok_or (EventId.from_str (ast.sl_value value)) (error LiteralInvalid span);
          Ok (ir.Eid id)
      end;
  Ok (ir.literal l).

Definition convert_remainder (access : ast.RemainderExpression) (relation : ir.Relation)
    : result Diagnostic ir.Expression :=
  remainder ← ok_or (ir.field relation "@rest") (error FieldNotFound (ast.re_span access));
  let key := ast.sl_value (ast.re_key access) in
  match ast.re_function access with
  | ast.Value => Ok (ir.mkExpression (ir.KRemainder ir.Value remainder key) Json Nullable)
  | ast.Exists => Ok (ir.mkExpression (ir.KRemainder ir.Exists remainder key) Bool NonNull)
  end.

(** [convert e expected] stands for [convert_expression_with_expected]. *)
Definition converter := ast.Expression → option LogicalType → result Diagnostic ir.Expression.

Definition numeric_only (expected : option LogicalType) : option LogicalType :=
  match expected with Some t => if is_numeric t then Some t else None | None => None end.

Definition is_literal_null (e : ir.Expression) : bool :=
  match ir.kind e with ir.KLiteral (ir.Null _) => true | _ => false end.

Definition convert_cast (convert : converter) (cast_kind : ast.CastKind)
    (expression : ast.Expression) (cast_target : ast.LogicalType) (cast_span : Span)
    : result Diagnostic ir.Expression :=
  let target := logical_type cast_target in
  let expected :=
    if is_null_literal expression then Some target
    else if is_numeric target then Some target else None in
  expression ← convert expression expected;
  if negb (cast_is_defined (ir.type_of expression) target) then Err (error CastInvalid cast_span)
  else if is_literal_null expression then Ok (ir.literal (ir.Null target))
  else
  let kind := match cast_kind with
              | ast.Strict => ir.Strict
              | ast.NullOnFailure => ir.NullOnFailure end in
  let nullability :=
    match kind with
    | ir.NullOnFailure => Nullable
    | ir.Strict =>
        if decide (ir.type_of expression = Json) then Nullable else ir.nullability_of expression
    | ir.Lossless => ir.nullability_of expression
    end in
  Ok (ir.mkExpression (ir.KCast kind expression target) target nullability).

Definition unary_operator (operator : ast.UnaryOperator) (t : LogicalType) (span : Span)
    : result Diagnostic ir.UnaryOperator :=
  match operator with
  | ast.Not => if decide (t = Bool) then Ok ir.Not else type_mismatch span
  | ast.Negate =>
      match t with
      | Int32 | Int64 | Float32 | Float64 => Ok ir.Negate
      | _ => type_mismatch span
      end
  end.

Definition convert_unary (convert : converter) (operator : ast.UnaryOperator)
    (operand : ast.Expression) (span : Span) (expected : option LogicalType)
    : result Diagnostic ir.Expression :=
  match operator, operand with
  | ast.Negate, ast.ELiteral {| ast.l_kind := ast.Integer magnitude |} _ =>
      l ← integer_literal magnitude ast.Negative expected span ExpressionSite;
      Ok (ir.literal l)
  | _, _ =>
      let expected_operand :=
        match operator with ast.Not => Some Bool | ast.Negate => numeric_only expected end in
      operand ← convert operand expected_operand;
      ir_operator ← unary_operator operator (ir.type_of operand) span;
      folded ← fold_unary ir_operator operand span;
      match folded with
      | Some folded => Ok folded
      | None =>
          Ok (ir.mkExpression (ir.KUnary ir_operator operand) (ir.type_of operand)
                (ir.nullability_of operand))
      end
  end.

Definition convert_null_predicate (convert : converter) (operator : ast.BinaryOperator)
    (value : ast.Expression) (span : Span) : result Diagnostic ir.Expression :=
  if is_null_literal value then type_mismatch span
  else
  expression ← convert value None;
  let predicate := match operator with ast.Equal => ir.IsNull | _ => ir.IsNotNull end in
  match ir.kind expression with
  | ir.KLiteral literal =>
      Ok (ir.literal (ir.Boolean (Bool.eqb (is_null literal)
            match predicate with ir.IsNull => true | ir.IsNotNull => false end)))
  | _ => Ok (ir.mkExpression (ir.KNullPredicate expression predicate) Bool NonNull)
  end.

Definition convert_contextual_pair (convert : converter) (left right : ast.Expression)
    (expected : option LogicalType) : result Diagnostic (ir.Expression * ir.Expression) :=
  let right_first e :=
    right ← convert right e; left ← convert left (Some (ir.type_of right)); Ok (left, right) in
  let left_first e :=
    left ← convert left e; right ← convert right (Some (ir.type_of left)); Ok (left, right) in
  let both :=
    left ← convert left expected; right ← convert right expected; Ok (left, right) in
  match needs_context left, needs_context right with
  | true, false => right_first expected
  | false, true => left_first expected
  | true, true =>
      match expected with
      | Some _ => both
      | None => if is_null_literal left then right_first None else left_first None
      end
  | false, false => both
  end.

Definition convert_numeric_pair (convert : converter) (left right : ast.Expression)
    (expected : option LogicalType) (span : Span)
    : result Diagnostic (ir.Expression * ir.Expression * LogicalType) :=
  '(l, r) ← convert_contextual_pair convert left right expected;
  if negb (is_numeric (ir.type_of l)) || negb (is_numeric (ir.type_of r))
  then type_mismatch span
  else
  common ← ok_or (common_numeric_type (ir.type_of l) (ir.type_of r)) (error TypeMismatch span);
  Ok (coerce_losslessly l common, coerce_losslessly r common, common).

Definition is_equality (o : ast.BinaryOperator) : bool :=
  match o with ast.Equal | ast.NotEqual => true | _ => false end.

Definition convert_comparison_pair (convert : converter) (left right : ast.Expression)
    (operator : ast.BinaryOperator) (span : Span)
    : result Diagnostic (ir.Expression * ir.Expression) :=
  '(l, r) ← convert_contextual_pair convert left right None;
  if is_numeric (ir.type_of l) && is_numeric (ir.type_of r) then
    common ← ok_or (common_numeric_type (ir.type_of l) (ir.type_of r)) (error TypeMismatch span);
    Ok (coerce_losslessly l common, coerce_losslessly r common)
  else
  let ordered := negb (is_equality operator) in
  let valid_same_type :=
    bool_decide (ir.type_of l = ir.type_of r) &&
    match ir.type_of l with Utf8 | Datetime | Eid => true | _ => false end in
  let valid_equality :=
    negb ordered && bool_decide (ir.type_of l = Bool) && bool_decide (ir.type_of r = Bool) in
  if valid_same_type || valid_equality then Ok (l, r) else type_mismatch span.

Definition convert_binary (convert : converter) (operator : ast.BinaryOperator)
    (left right : ast.Expression) (span : Span) (expected : option LogicalType)
    : result Diagnostic ir.Expression :=
  if is_equality operator && is_null_literal left then
    convert_null_predicate convert operator right span
  else if is_equality operator && is_null_literal right then
    convert_null_predicate convert operator left span
  else
  match operator with
  | ast.And | ast.Or =>
      left ← convert left (Some Bool);
      right ← convert right (Some Bool);
      if bool_decide (ir.type_of left ≠ Bool) || bool_decide (ir.type_of right ≠ Bool)
      then type_mismatch span
      else build_binary operator left right Bool span
  | ast.Add | ast.Subtract | ast.Multiply | ast.Divide =>
      '(l, r, common) ← convert_numeric_pair convert left right (numeric_only expected) span;
      build_binary operator l r common span
  | ast.Equal | ast.NotEqual | ast.GreaterThan | ast.GreaterThanOrEqual
  | ast.LessThan | ast.LessThanOrEqual =>
      '(l, r) ← convert_comparison_pair convert left right operator span;
      build_binary operator l r Bool span
  end.

Fixpoint convert_expression_with_expected (relation : ir.Relation) (expression : ast.Expression)
    (expected : option LogicalType) : result Diagnostic ir.Expression :=
  match expression with
  | ast.ELiteral literal span => convert_literal literal expected span
  | ast.EField reference _ => ir.field_expression <$> resolve_field reference relation
  | ast.EConstructor constructor _ => convert_constructor constructor
  | ast.ECast kind e target cast_span _ =>
      convert_cast (convert_expression_with_expected relation) kind e target cast_span
  | ast.ERemainder access _ => convert_remainder access relation
  | ast.EUnary operator operand span =>
      convert_unary (convert_expression_with_expected relation) operator operand span expected
  | ast.EBinary operator l r span =>
      convert_binary (convert_expression_with_expected relation) operator l r span expected
  end.

Definition convert_expression (expression : ast.Expression) (relation : ir.Relation)
    : result Diagnostic ir.Expression :=
  convert_expression_with_expected relation expression None.

End Convert.
