(* ===== verification/SemTyping.v ===== *)
(** * Typing of lowered expressions

    The typing judgement of the intermediate representation and the theorems on
    src/elucid/elucid-language/src/semantic/expression.rs: integer literals are
    accepted exactly when their target type represents them, numeric operands meet
    at their least common widening, constant folding follows three-valued logic and
    checked arithmetic, and every converted expression is well typed. *)

From Stdlib Require Import Floats.SpecFloat.
From S2P Require Import Prelude Core CatalogTypes CatalogModel CatalogSource Syntax Floats IR SemExpression.

Open Scope Z_scope.

(** ** Values of literals *)

(** The range and finiteness invariants of a literal. *)
Definition literal_ok (l : ir.Literal) : Prop :=
  match l with
  | ir.Null _ | ir.Boolean _ | ir.Utf8 _ => True
  | ir.Int32 v => fits I32 v = true
  | ir.Int64 v | ir.Datetime v => fits I64 v = true
  | ir.UInt32 v => fits U32 v = true
  | ir.UInt64 v => fits U64 v = true
  | ir.Float32 x => representable F32 x
  | ir.Float64 x => representable F64 x
  | ir.Eid id => EventId.wf id
  end.

(** The literal stands for the integer [z]. *)
Definition literal_denotes (l : ir.Literal) (z : Z) : Prop :=
  match l with
  | ir.Int32 v | ir.Int64 v | ir.UInt32 v | ir.UInt64 v => v = z
  | ir.Float32 x | ir.Float64 x => denotes x z 0
  | _ => False
  end.

(** [z] has at most [k] significant bits. *)
Definition significant_within (k z : Z) : Prop :=
  ∃ q j, Z.abs z = q * 2 ^ j ∧ 0 ≤ j ∧ 0 ≤ q < 2 ^ k.

(** The integers a logical type represents exactly. *)
Definition represents (t : LogicalType) (z : Z) : Prop :=
  match t with
  | Int32 => int_min I32 ≤ z ≤ int_max I32
  | Int64 => int_min I64 ≤ z ≤ int_max I64
  | UInt32 => int_min U32 ≤ z ≤ int_max U32
  | UInt64 => int_min U64 ≤ z ≤ int_max U64
  | Float32 => significant_within 24 z
  | Float64 => significant_within 53 z
  | _ => False
  end.

Definition is_unsigned (t : LogicalType) : bool :=
  match t with UInt32 | UInt64 => true | _ => false end.

Lemma significant_bits_digits p : significant_bits (Zpos p) = Zpos (digits2_pos p).
Proof.
  change (significant_bits (Zpos p)) with (Z.log2 (Zpos p) + 1).
  destruct (digits2_bounds p) as [Hlo Hhi].
  assert (Z.log2 (Zpos p) = Zpos (digits2_pos p) - 1); [|lia].
  apply Z.log2_unique; [lia|]. split; [done|].
  by replace (Z.succ (Zpos (digits2_pos p) - 1)) with (Zpos (digits2_pos p)) by lia.
Qed.

Lemma trailing_zeros_nonneg p : 0 ≤ trailing_zeros_pos p.
Proof. induction p; simpl; lia. Qed.

Lemma trailing_zeros_divides p : ∃ q, Zpos p = Zpos q * 2 ^ trailing_zeros_pos p.
Proof.
  induction p as [p IH|p [q IH]|]; cbn [trailing_zeros_pos];
    [exists p~1%positive; lia | exists q | exists 1%positive; lia].
  rewrite Pos2Z.inj_xO, Z.pow_add_r by (try done; apply trailing_zeros_nonneg). lia.
Qed.

Lemma trailing_zeros_max p q j : 0 ≤ j → Zpos p = q * 2 ^ j → j ≤ trailing_zeros_pos p.
Proof.
  intros Hj. revert p. pattern j. revert j Hj. apply natlike_ind.
  - intros. apply trailing_zeros_nonneg.
  - intros i Hi IH p Hp. rewrite Z.pow_succ_r in Hp by done.
    destruct p as [p|p|]; cbn [trailing_zeros_pos].
    + exfalso. rewrite Pos2Z.inj_xI in Hp. lia.
    + specialize (IH p). rewrite Pos2Z.inj_xO in Hp. lia.
    + exfalso. lia.
Qed.

Lemma integer_is_exact_spec v k :
  0 ≤ v → 0 < k → integer_is_exact v k = true ↔ significant_within k v.
Proof.
  intros Hv Hk. unfold integer_is_exact, significant_within.
  rewrite orb_true_iff, !Z.leb_le, Z.abs_eq by done. destruct v as [|p|p]; [| |lia].
  { split; [|intros _; left; cbn; lia]. intros _. exists 0, 0.
    assert (0 < 2 ^ k) by (apply Z.pow_pos_nonneg; lia). lia. }
  rewrite significant_bits_digits. cbn [trailing_zeros]. destruct (digits2_bounds p) as [Hlo Hhi]. split.
  - intros [Hd|Hd].
    + exists (Zpos p), 0. rewrite Z.pow_0_r. split_and!; try lia.
      apply Z.lt_le_trans with (2 ^ Zpos (digits2_pos p)); [done | apply Z.pow_le_mono_r; lia].
    + destruct (Z.le_gt_cases (Zpos (digits2_pos p)) k).
      { exists (Zpos p), 0. rewrite Z.pow_0_r. split_and!; try lia.
        apply Z.lt_le_trans with (2 ^ Zpos (digits2_pos p)); [done | apply Z.pow_le_mono_r; lia]. }
      destruct (trailing_zeros_divides p) as [q Hq].
      set (j := Zpos (digits2_pos p) - k) in *.
      exists (Zpos q * 2 ^ (trailing_zeros_pos p - j)), j.
      rewrite <- Z.mul_assoc, <- Z.pow_add_r by lia. rewrite Z.sub_add.
      split_and!; [done | lia | |].
      * apply Z.mul_nonneg_nonneg; [lia | apply Z.pow_nonneg; lia].
      * apply (Z.mul_lt_mono_pos_r (2 ^ j)); [apply Z.pow_pos_nonneg; lia|].
        rewrite <- Z.mul_assoc, <- !Z.pow_add_r by lia. rewrite Z.sub_add, <- Hq.
        by replace (k + j) with (Zpos (digits2_pos p)) by lia.
  - intros (q & j & Hq & Hj & H0 & Hqk). right.
    assert (Hjt : j ≤ trailing_zeros_pos p) by (by eapply trailing_zeros_max).
    assert (Hup : Zpos p < 2 ^ (k + j)).
    { rewrite Hq, Z.pow_add_r by lia. apply Z.mul_lt_mono_pos_r; [apply Z.pow_pos_nonneg; lia | done]. }
    assert (Zpos (digits2_pos p) - 1 < k + j) by (apply (Z.pow_lt_mono_r_iff 2); lia). lia.
Qed.

(** Integers within the precision of a format convert exactly. *)
Lemma float_of_Z_exact t z :
  Z.abs z < 2 ^ 64 → significant_within (mantissa_digits t) z → denotes (float_of_Z t z) z 0.
Proof.
  intros Hz (q & j & Hq & Hj & Hqk).
  assert (Zdigits2 z ≤ 64) by (by apply Zdigits2_le).
  apply (binary_normalize_exact _ _ _ q j); try done; destruct t; unfold emin; simpl; lia.
Qed.

Lemma denotes_fneg x m e : denotes x m e → denotes (fneg x) (- m) e.
Proof.
  intros (m' & e' & Hd & Hr). unfold denotes. destruct x as [s|s| |s p e0]; try done; simpl in *; simplify_eq.
  - exists 0, 0. split; [done|]. unfold real_eq in *. lia.
  - exists (if negb s then Zneg p else Zpos p), e'. split; [done|]. unfold real_eq in *.
    rewrite Z.mul_opp_l, <- Hr. destruct s; cbn [negb]; rewrite <- Pos2Z.opp_pos; ring.
Qed.

Lemma signed_float_denotes (negative : bool) x m e :
  denotes x m e → denotes (signed_float negative x) (if negative then - m else m) e.
Proof. destruct negative; [apply denotes_fneg | done]. Qed.

Lemma signed_float_representable t (negative : bool) x :
  representable t x → representable t (signed_float negative x).
Proof. destruct negative; [apply fneg_representable | done]. Qed.

(** The integer a sign and a magnitude denote. *)
Definition signed_value (sign : ast.NumericSign) (magnitude : Z) : Z :=
  match sign with ast.Negative => - magnitude | ast.NonNegative => magnitude end.

Lemma significant_within_opp k z : significant_within k (- z) ↔ significant_within k z.
Proof. unfold significant_within. by rewrite Z.abs_opp. Qed.

(** How [integer_literal] behaves on each branch. *)
Lemma integer_literal_Ok magnitude sign expected span site l :
  fits U64 magnitude = true →
  integer_literal magnitude sign expected span site = Ok l →
  ir.literal_logical_type l = default Int64 expected ∧ literal_ok l ∧
  literal_denotes l (signed_value sign magnitude) ∧
  represents (default Int64 expected) (signed_value sign magnitude).
Proof.
  rewrite fits_spec. intros Hm. unfold integer_literal.
  assert (Hneg : signed_i128 magnitude (bool_decide (sign = ast.Negative) && negb (magnitude =? 0))
                 = signed_value sign magnitude).
  { destruct sign, (Z.eqb_spec magnitude 0); simpl; lia. }
  assert (Hfloat : ∀ t, integer_is_exact magnitude (mantissa_digits t) = true →
    denotes (signed_float (bool_decide (sign = ast.Negative) && negb (magnitude =? 0))
      (float_of_Z t magnitude)) (signed_value sign magnitude) 0 ∧
    representable t (signed_float (bool_decide (sign = ast.Negative) && negb (magnitude =? 0))
      (float_of_Z t magnitude)) ∧ significant_within (mantissa_digits t) (signed_value sign magnitude)).
  { intros t Ht. apply integer_is_exact_spec in Ht; [|int_lia | apply mantissa_digits_pos].
    assert (Z.abs magnitude < 2 ^ 64) by int_lia. split_and!.
    - rewrite <- Hneg. unfold signed_i128. apply signed_float_denotes, float_of_Z_exact; done.
    - apply signed_float_representable, float_of_Z_representable. done.
    - destruct sign; simpl; [done | by apply significant_within_opp]. }
  destruct (default Int64 expected) eqn:Ht; try done.
  - rewrite Hneg. destruct (narrow I32 _) eqn:E; [|done]. intros [= <-].
    apply narrow_Some in E as [-> ?]. split_and!; try done. by apply fits_spec.
  - rewrite Hneg. destruct (narrow I64 _) eqn:E; [|done]. intros [= <-].
    apply narrow_Some in E as [-> ?]. split_and!; try done. by apply fits_spec.
  - case_match; [done|]. case_match eqn:En; [done|]. destruct (narrow U32 magnitude) eqn:E; [|done].
    apply narrow_Some in E as [-> ?]. intros [= <-]. rewrite <- Hneg.
    split_and!; try done. by apply fits_spec.
  - case_match; [done|]. case_match eqn:En; [done|]. intros [= <-]. rewrite <- Hneg.
    split_and!; try done. by apply fits_spec.
  - case_match eqn:E; [|done]. intros [= <-]. apply (Hfloat F32) in E as (?&?&?). done.
  - case_match eqn:E; [|done]. intros [= <-]. apply (Hfloat F64) in E as (?&?&?). done.
Qed.

Lemma integer_literal_total magnitude sign expected span site :
  fits U64 magnitude = true →
  represents (default Int64 expected) (signed_value sign magnitude) →
  (is_unsigned (default Int64 expected) = true → site = ConstructorSite → sign = ast.NonNegative) →
  is_ok (integer_literal magnitude sign expected span site) = true.
Proof.
  rewrite fits_spec. intros Hm Hr Hsite. unfold integer_literal.
  assert (Hneg : signed_i128 magnitude (bool_decide (sign = ast.Negative) && negb (magnitude =? 0))
                 = signed_value sign magnitude).
  { destruct sign, (Z.eqb_spec magnitude 0); simpl; lia. }
  destruct (default Int64 expected) eqn:Ht; try done; cbn [represents] in Hr.
  - by rewrite Hneg, narrow_ok.
  - by rewrite Hneg, narrow_ok.
  - destruct sign, site; cbn in *; try (by specialize (Hsite eq_refl eq_refl));
      try (destruct (Z.eqb_spec magnitude 0); [|lia]); rewrite narrow_ok by int_lia; done.
  - destruct sign, site; cbn in *; try (by specialize (Hsite eq_refl eq_refl));
      try (destruct (Z.eqb_spec magnitude 0); [|lia]); done.
  - change (mantissa_digits F32) with 24. rewrite (proj2 (integer_is_exact_spec magnitude 24 ltac:(int_lia) ltac:(lia))); [done|].
    destruct sign; [done | by apply significant_within_opp].
  - change (mantissa_digits F64) with 53. rewrite (proj2 (integer_is_exact_spec magnitude 53 ltac:(int_lia) ltac:(lia))); [done|].
    destruct sign; [done | by apply significant_within_opp].
Qed.

(** An integer literal of a u64 magnitude is accepted exactly when its
    contextual type (int64 by default) represents the signed value without loss -
    the integer ranges for integer types, at most 24 or 53 significant bits for
    float32 and float64 - except that an unsigned constructor rejects a leading
    minus even on zero; the literal produced has that type and denotes exactly
    that value. *)
Theorem integer_literal_exact magnitude sign expected span site :
  fits U64 magnitude = true →
  (is_ok (integer_literal magnitude sign expected span site) = true ↔
     represents (default Int64 expected) (signed_value sign magnitude) ∧
     (is_unsigned (default Int64 expected) = true → site = ConstructorSite → sign = ast.NonNegative)) ∧
  (∀ l, integer_literal magnitude sign expected span site = Ok l →
     ir.literal_logical_type l = default Int64 expected ∧ literal_ok l ∧
     literal_denotes l (signed_value sign magnitude)).
Proof.
  intros Hm. split.
  - split; [|intros [??]; by apply integer_literal_total].
    intros H. destruct (integer_literal _ _ _ _ _) as [l|] eqn:E; [|done].
    split; [by eapply integer_literal_Ok|]. intros Hu ->. unfold integer_literal in E.
    destruct sign; [done|]. destruct (default Int64 expected); done.
  - intros l H. by destruct (integer_literal_Ok _ _ _ _ _ _ Hm H) as (?&?&?&_).
Qed.

Lemma integer_literal_exact_witness :
  is_ok (integer_literal 16777217 ast.Negative (Some Float64) {| start := 0; end_ := 8 |} ExpressionSite) = true
  ∧ is_ok (integer_literal 16777217 ast.Negative (Some Float32) {| start := 0; end_ := 8 |} ExpressionSite) = false.
Proof.
  split; [|reflexivity].
  apply (integer_literal_exact 16777217 ast.Negative (Some Float64) {| start := 0; end_ := 8 |} ExpressionSite);
    [reflexivity|].
  split; [|discriminate]. exists 16777217, 0. vm_compute. repeat split; congruence.
Defined.

(** ** Common numeric types and widening *)

Definition upper_bound (a b c : LogicalType) : bool := can_widen a c && can_widen b c.

(** For two logical types, [common_numeric_type] returns the least type
    both widen to - an upper bound that widens to every other upper bound - and
    returns nothing exactly when the two have no numeric upper bound. *)
Theorem common_numeric_type_least a b :
  (∀ c, common_numeric_type a b = Some c ↔
     is_numeric c = true ∧ upper_bound a b c = true ∧
     ∀ d, upper_bound a b d = true → can_widen c d = true) ∧
  (common_numeric_type a b = None ↔ ∀ d, is_numeric d = true → upper_bound a b d = false).
Proof.
  unfold upper_bound. setoid_rewrite andb_true_iff. split.
  - intros c. split.
    + intros Hc. destruct a, b; vm_compute in Hc; inversion Hc; subst c;
        (split_and!; try done; intros d; destruct d; vm_compute; naive_solver).
    + intros (Hn & [Ha Hb] & Hleast).
      destruct a, b, c; try done;
        first [ reflexivity | specialize (Hleast Float32 (conj eq_refl eq_refl)); done
              | specialize (Hleast Int32 (conj eq_refl eq_refl)); done
              | specialize (Hleast Int64 (conj eq_refl eq_refl)); done
              | specialize (Hleast UInt32 (conj eq_refl eq_refl)); done
              | specialize (Hleast UInt64 (conj eq_refl eq_refl)); done ].
  - unfold common_numeric_type. rewrite find_None. split.
    + intros H d Hd. apply H. destruct d; try done; set_solver.
    + intros H d Hd. apply H. unfold CANDIDATES in Hd. set_unfold.
      repeat destruct Hd as [->|Hd]; done.
Qed.

(** A numeric literal stands for the real number [m * 2^e]. *)
Definition literal_real (l : ir.Literal) (m e : Z) : Prop :=
  match l with
  | ir.Int32 v | ir.Int64 v | ir.UInt32 v | ir.UInt64 v => real_eq v 0 m e
  | ir.Float32 x | ir.Float64 x => denotes x m e
  | _ => False
  end.

Lemma int_widens_exactly z m e : Z.abs z < 2 ^ 53 → real_eq z 0 m e → denotes (float_of_Z F64 z) m e.
Proof.
  intros Hz. apply denotes_trans. apply float_of_Z_exact; [lia|].
  exists (Z.abs z), 0. unfold mantissa_digits. lia.
Qed.

Lemma widen_cases l t :
  literal_ok l → is_null l = false → is_numeric (ir.literal_logical_type l) = true →
  can_widen (ir.literal_logical_type l) t = true → ir.literal_logical_type l ≠ t →
  ∃ l', widen_literal l t = Some l' ∧ ir.literal_logical_type l' = t ∧ literal_ok l' ∧
    ∀ m e, literal_real l m e → literal_real l' m e.
Proof.
  intros Hok Hnn Hnum Hw Hne. destruct l, t; try done; simpl in *; eexists; (split; [done|]);
    (split; [done|]); rewrite ?fits_spec in *; simpl; rewrite ?fits_spec.
  - split; [int_lia | done].
  - split; [apply float_of_Z_representable; int_lia|]. intros m e. apply int_widens_exactly. int_lia.
  - split; [int_lia | done].
  - split; [apply float_of_Z_representable; int_lia|]. intros m e. apply int_widens_exactly. int_lia.
  - split; [by apply f64_of_f32_representable|]. intros m e. by apply f64_of_f32_exact.
Qed.

(** Coercing a non-null numeric literal to a type it widens to always
    yields a literal of that type, in range, that stands for the same real number. *)
Theorem coerce_literal_lossless l t :
  literal_ok l → is_null l = false → is_numeric (ir.literal_logical_type l) = true →
  can_widen (ir.literal_logical_type l) t = true →
  ∃ l', coerce_losslessly (ir.literal l) t = ir.literal l' ∧ ir.literal_logical_type l' = t ∧
    literal_ok l' ∧ ∀ m e, literal_real l m e → literal_real l' m e.
Proof.
  intros Hok Hnn Hnum Hw. unfold coerce_losslessly. cbn [ir.type_of ir.kind ir.literal].
  case_decide as Ht; [by exists l|].
  destruct (widen_cases l t) as (l' & -> & ?); eauto.
Qed.

Lemma coerce_literal_lossless_witness :
  ∃ l', coerce_losslessly (ir.literal (ir.Int32 (-7))) Float64 = ir.literal l' ∧ literal_real l' (-7) 0.
Proof.
  destruct (coerce_literal_lossless (ir.Int32 (-7)) Float64 eq_refl eq_refl eq_refl eq_refl)
    as (l' & H1 & _ & _ & H2).
  exists l'. split; [exact H1|]. apply H2. reflexivity.
Defined.

(** ** Constant folding against a reference semantics *)

(** The result type of a binary operator on two operands of type [t]. *)
Definition binary_result (o : ir.BinaryOperator) (t : LogicalType) : option LogicalType :=
  match o with
  | ir.And | ir.Or => if decide (t = Bool) then Some Bool else None
  | ir.Add | ir.Subtract | ir.Multiply | ir.Divide => if is_numeric t then Some t else None
  | ir.Equal | ir.NotEqual => if decide (t = Json) then None else Some Bool
  | _ => if decide (t = Json ∨ t = Bool) then None else Some Bool
  end.

(** Kleene's three truth values, ordered false < unknown < true. *)
Definition truth (l : ir.Literal) : nat :=
  match l with ir.Boolean false => 0 | ir.Boolean true => 2 | _ => 1 end.
Definition of_truth (n : nat) : ir.Literal :=
  match n with 0 => ir.Boolean false | 1 => ir.Null Bool | _ => ir.Boolean true end%nat.

(** The mathematical result of an integer operation; none for a division by zero. *)
Definition exact_integer (o : ir.BinaryOperator) (a b : Z) : option Z :=
  match o with
  | ir.Add => Some (a + b)
  | ir.Subtract => Some (a - b)
  | ir.Multiply => Some (a * b)
  | ir.Divide => if b =? 0 then None else Some (Z.quot a b)
  | _ => None
  end.

Definition exact_float (t : float_ty) (o : ir.BinaryOperator) (a b : float) : option float :=
  match o with
  | ir.Add => Some (fadd t a b)
  | ir.Subtract => Some (fsub t a b)
  | ir.Multiply => Some (fmul t a b)
  | ir.Divide => match b with S754_zero _ => None | _ => Some (fdiv t a b) end
  | _ => None
  end.

(** A comparison operator as a set of orderings. *)
Definition admits (o : ir.BinaryOperator) (c : comparison) : bool :=
  match o, c with
  | (ir.Equal | ir.GreaterThanOrEqual | ir.LessThanOrEqual), Eq
  | (ir.NotEqual | ir.LessThan | ir.LessThanOrEqual), Lt
  | (ir.NotEqual | ir.GreaterThan | ir.GreaterThanOrEqual), Gt => true
  | _, _ => false
  end.

Definition is_arithmetic (o : ir.BinaryOperator) : bool :=
  match o with ir.Add | ir.Subtract | ir.Multiply | ir.Divide => true | _ => false end.

(** How two non-null literals of one type compare. *)
Definition literal_compare (l r : ir.Literal) : option comparison :=
  match l, r with
  | ir.Boolean a, ir.Boolean b => Some (if Bool.eqb a b then Eq else Lt)
  | ir.Int32 a, ir.Int32 b | ir.Int64 a, ir.Int64 b | ir.UInt32 a, ir.UInt32 b
  | ir.UInt64 a, ir.UInt64 b | ir.Datetime a, ir.Datetime b => Some (a ?= b)
  | ir.Float32 a, ir.Float32 b | ir.Float64 a, ir.Float64 b => SFcompare a b
  | ir.Utf8 a, ir.Utf8 b => Some (String.compare a b)
  | ir.Eid a, ir.Eid b => Some (EventId.compare a b)
  | _, _ => None
  end.

(** Arithmetic on two non-null literals: the exact result where the type holds it. *)
Definition literal_arithmetic (o : ir.BinaryOperator) (l r : ir.Literal) : option ir.Literal :=
  let int t (wrap : Z → ir.Literal) a b :=
    z ← exact_integer o a b; if fits t z then Some (wrap z) else None in
  let flo t (wrap : float → ir.Literal) a b :=
    x ← exact_float t o a b; if is_finite x then Some (wrap x) else None in
  match l, r with
  | ir.Int32 a, ir.Int32 b => int I32 ir.Int32 a b
  | ir.Int64 a, ir.Int64 b => int I64 ir.Int64 a b
  | ir.UInt32 a, ir.UInt32 b => int U32 ir.UInt32 a b
  | ir.UInt64 a, ir.UInt64 b => int U64 ir.UInt64 a b
  | ir.Float32 a, ir.Float32 b => flo F32 ir.Float32 a b
  | ir.Float64 a, ir.Float64 b => flo F64 ir.Float64 a b
  | _, _ => None
  end.

(** The value of [l op r], none where the constant expression has no value. *)
Definition reference_binary (o : ir.BinaryOperator) (l r : ir.Literal) (t : LogicalType)
    : option ir.Literal :=
  match o with
  | ir.And => Some (of_truth (truth l `min` truth r))
  | ir.Or => Some (of_truth (truth l `max` truth r))
  | _ =>
      if is_null l || is_null r then Some (ir.Null t)
      else if is_arithmetic o then literal_arithmetic o l r
      else c ← literal_compare l r; Some (ir.Boolean (admits o c))
  end.

Lemma finite_compare a b : is_finite a = true → is_finite b = true → is_Some (SFcompare a b).
Proof. destruct a, b; simpl; try done; eauto. Qed.

Lemma compare_swap a b : is_finite a = true → is_finite b = true →
  SFcompare b a = CompOpp <$> SFcompare a b.
Proof.
  destruct a as [[]| | |[] m e], b as [[]| | |[] m' e']; simpl; try done; intros _ _;
    rewrite (Z.compare_antisym e e'); destruct (e ?= e'); simpl; try done;
    change (Pos.compare_cont Eq m' m) with (m' ?= m)%positive;
    change (Pos.compare_cont Eq m m') with (m ?= m')%positive;
    by rewrite (Pos.compare_antisym m m').
Qed.

Lemma fold_integer_reference t wrap o a b span :
  fold_integer t wrap o a b span =
  if is_arithmetic o then
    match (z ← exact_integer o a b; if fits t z then Some (wrap z) else None) with
    | Some l => Ok (Some l) | None => constant_evaluation_failed span end
  else if is_and_or o then Ok None
  else Ok (Some (ir.Boolean (admits o (a ?= b)))).
Proof.
  unfold fold_integer, checked_add, checked_sub, checked_mul, checked_div, narrow, Z.gtb, Z.geb,
    Z.ltb, Z.leb.
  destruct o; cbn [is_arithmetic is_and_or exact_integer]; try done; simpl.
  - by destruct (fits t (a + b)).
  - by destruct (fits t (a - b)).
  - by destruct (fits t (a * b)).
  - destruct (b =? 0); [done|]. simpl. by destruct (fits t (Z.quot a b)).
  - rewrite Z.eqb_compare. by destruct (a ?= b).
  - rewrite Z.eqb_compare. by destruct (a ?= b).
Qed.

Lemma fold_float_reference t wrap o a b span :
  is_finite a = true → is_finite b = true →
  fold_float t wrap o a b span =
  if is_arithmetic o then
    match (x ← exact_float t o a b; if is_finite x then Some (wrap x) else None) with
    | Some l => Ok (Some l) | None => constant_evaluation_failed span end
  else if is_and_or o then Ok None
  else match SFcompare a b with
       | Some c => Ok (Some (ir.Boolean (admits o c)))
       | None => Ok (Some (ir.Boolean (admits o Eq))) end.
Proof.
  intros Ha Hb. destruct (finite_compare a b Ha Hb) as [c Hc].
  assert (Hc' : SFcompare b a = Some (CompOpp c)) by (by rewrite compare_swap, Hc).
  unfold fold_float, feq, flt, fle, SFeqb, SFltb, SFleb. rewrite ?Hc, ?Hc'.
  destruct o; cbn [is_arithmetic is_and_or exact_float]; try done; simpl;
    try (case_match; done); try (destruct c; done).
  destruct b as [[]| | |[]]; try done; simpl; case_match; done.
Qed.

Lemma fold_ordered_reference o c :
  fold_ordered o c =
  if is_arithmetic o || is_and_or o then None else Some (ir.Boolean (admits o c)).
Proof. destruct o, c; done. Qed.

Lemma fold_three_valued_reference o l r :
  ir.literal_logical_type l = Bool → ir.literal_logical_type r = Bool → is_and_or o = true →
  ∀ t, fold_three_valued_boolean o l r = reference_binary o l r t.
Proof. intros Hl Hr Ho t. destruct l as [[]|[]| | | | | | | | |], r as [[]|[]| | | | | | | | |]; try done; destruct o; done. Qed.

(** [fold_literals] on two non-null literals of one type. *)
Lemma fold_literals_reference o l r t span :
  literal_ok l → literal_ok r → is_null l = false → is_null r = false → is_and_or o = false →
  ir.literal_logical_type l = ir.literal_logical_type r →
  binary_result o (ir.literal_logical_type l) = Some t →
  fold_literals o l r span =
    match reference_binary o l r t with
    | Some v => Ok (Some v)
    | None => constant_evaluation_failed span
    end.
Proof.
  intros Hl Hr Nl Nr Ho Ht Hb.
  assert (Href : reference_binary o l r t =
    if is_arithmetic o then literal_arithmetic o l r
    else c ← literal_compare l r; Some (ir.Boolean (admits o c))).
  { unfold reference_binary. rewrite Nl, Nr. by destruct o. }
  rewrite Href. clear Href.
  destruct l, r; try done; unfold fold_literals, literal_arithmetic, literal_compare;
    rewrite ?fold_integer_reference, ?Ho; try (destruct (is_arithmetic o); done).
  - destruct o, value, value0; done.
  - rewrite fold_float_reference, Ho by apply Hl || apply Hr.
    destruct (finite_compare value value0) as [c Hc]; [apply Hl | apply Hr |].
    rewrite Hc. destruct (is_arithmetic o); done.
  - rewrite fold_float_reference, Ho by apply Hl || apply Hr.
    destruct (finite_compare value value0) as [c Hc]; [apply Hl | apply Hr |].
    rewrite Hc. destruct (is_arithmetic o); done.
  - rewrite fold_ordered_reference, Ho. destruct o; done.
  - rewrite fold_ordered_reference, Ho. destruct o; done.
  - rewrite fold_ordered_reference, Ho. destruct o; done.
Qed.

Lemma fold_two_literals o l r t span :
  literal_ok l → literal_ok r →
  ir.literal_logical_type l = ir.literal_logical_type r →
  binary_result o (ir.literal_logical_type l) = Some t →
  fold_binary o (ir.literal l) (ir.literal r) t span =
    match reference_binary o l r t with
    | Some v => Ok (Some (ir.literal v))
    | None => constant_evaluation_failed span
    end.
Proof.
  intros Hl Hr Ht Hb. unfold fold_binary. cbn [ir.kind ir.literal].
  destruct (is_and_or o) eqn:Ho.
  - assert (ir.literal_logical_type l = Bool) by (destruct o; try done; simpl in Hb; by case_decide).
    rewrite (fold_three_valued_reference o l r) with (t := t); [|done|congruence|done].
    destruct o; done.
  - destruct (is_null l || is_null r) eqn:En.
    + unfold reference_binary. rewrite En. by destruct o.
    + apply orb_false_iff in En as [Nl Nr].
      rewrite (fold_literals_reference o l r t span) by done.
      by destruct (reference_binary o l r t).
Qed.

(** C35: folding a binary operator over two literals of one type that the
    operator accepts always decides: it yields the literal of the reference
    semantics (Kleene's logic for and/or, null propagation, exact arithmetic where
    the result fits the type and is finite, comparison by the order of the type),
    and it fails with a constant-evaluation diagnostic exactly when the reference
    has no value. *)
Theorem fold_binary_reference o l r t span :
  literal_ok l → literal_ok r →
  ir.literal_logical_type l = ir.literal_logical_type r →
  binary_result o (ir.literal_logical_type l) = Some t →
  fold_binary o (ir.literal l) (ir.literal r) t span =
    match reference_binary o l r t with
    | Some v => Ok (Some (ir.literal v))
    | None => constant_evaluation_failed span
    end.
Proof. apply fold_two_literals. Qed.

Lemma fold_binary_reference_witness :
  fold_binary ir.Divide (ir.literal (ir.Int32 (-2147483648))) (ir.literal (ir.Int32 (-1))) Int32
    {| start := 0; end_ := 1 |} = constant_evaluation_failed {| start := 0; end_ := 1 |} ∧
  fold_binary ir.And (ir.literal (ir.Null Bool)) (ir.literal (ir.Boolean false)) Bool
    {| start := 0; end_ := 1 |} = Ok (Some (ir.literal (ir.Boolean false))).
Proof.
  split.
  - rewrite (fold_binary_reference ir.Divide (ir.Int32 (-2147483648)) (ir.Int32 (-1)) Int32
      {| start := 0; end_ := 1 |} eq_refl eq_refl eq_refl eq_refl). reflexivity.
  - rewrite (fold_binary_reference ir.And (ir.Null Bool) (ir.Boolean false) Bool
      {| start := 0; end_ := 1 |} I I eq_refl eq_refl). reflexivity.
Defined.

(** ** The typing judgement *)

Definition is_literal (e : ir.Expression) : bool :=
  match ir.kind e with ir.KLiteral _ => true | _ => false end.

Definition signed_numeric (t : LogicalType) : bool :=
  match t with Int32 | Int64 | Float32 | Float64 => true | _ => false end.

Definition unary_accepts (o : ir.UnaryOperator) (t : LogicalType) : bool :=
  match o with ir.Not => bool_decide (t = Bool) | ir.Negate => signed_numeric t end.

(** The nullability of an explicit cast. *)
Definition cast_nullability (k : ir.CastKind) (e : ir.Expression) : Nullability :=
  match k with
  | ir.NullOnFailure => Nullable
  | ir.Strict => if decide (ir.type_of e = Json) then Nullable else ir.nullability_of e
  | ir.Lossless => ir.nullability_of e
  end.

Definition remainder_type (f : ir.RemainderFunction) : LogicalType * Nullability :=
  match f with ir.Value => (Json, Nullable) | ir.Exists => (Bool, NonNull) end.

(** [wt relation e]: every annotation of [e] follows from its parts, every field is
    the one the relation resolves its name to, every literal is in range and
    finite, operands of an operator have one type that the operator accepts, and
    no operator is left over literals only. *)
Inductive wt (relation : ir.Relation) : ir.Expression → Prop :=
| wt_literal l : literal_ok l → wt relation (ir.literal l)
| wt_field f : ir.field relation (ir.name f) = Some f → wt relation (ir.field_expression f)
| wt_unary o e :
    wt relation e → unary_accepts o (ir.type_of e) = true → is_literal e = false →
    wt relation (ir.mkExpression (ir.KUnary o e) (ir.type_of e) (ir.nullability_of e))
| wt_binary o l r t :
    wt relation l → wt relation r → ir.type_of l = ir.type_of r →
    binary_result o (ir.type_of l) = Some t → is_literal l && is_literal r = false →
    wt relation (ir.mkExpression (ir.KBinary o l r) t
                   (combine_nullability (ir.nullability_of l) (ir.nullability_of r)))
| wt_lossless e t :
    wt relation e → can_widen (ir.type_of e) t = true → ir.type_of e ≠ t →
    is_numeric t = true → is_literal e = false →
    wt relation (ir.mkExpression (ir.KCast ir.Lossless e t) t (ir.nullability_of e))
| wt_cast k e t :
    wt relation e → k ≠ ir.Lossless → cast_is_defined (ir.type_of e) t = true →
    is_literal_null e = false →
    wt relation (ir.mkExpression (ir.KCast k e t) t (cast_nullability k e))
| wt_remainder fn f key :
    ir.field relation "@rest" = Some f →
    wt relation (ir.mkExpression (ir.KRemainder fn f key)
                   (fst (remainder_type fn)) (snd (remainder_type fn)))
| wt_null_predicate e p :
    wt relation e → is_literal e = false →
    wt relation (ir.mkExpression (ir.KNullPredicate e p) Bool NonNull).

Create HintDb wt.
#[export] Hint Constructors wt : wt.

(** A well-typed literal node carries its literal's type and nullability. *)
Lemma wt_literal_inv relation e l :
  wt relation e → ir.kind e = ir.KLiteral l → e = ir.literal l ∧ literal_ok l.
Proof. intros H. inversion H; subst; simpl; intros Hk; by simplify_eq. Qed.

(** ** Literals and constructors *)

Lemma floating_from_integer_ok m sign t span l :
  fits U64 m = true → floating_constructor_from_integer m sign t span = Ok l → literal_ok l.
Proof.
  rewrite fits_spec. intros Hm. unfold floating_constructor_from_integer.
  assert (Z.abs m < 2 ^ 64) by int_lia.
  destruct t; try done; [case_match; [|done]|]; intros [= <-];
    apply signed_float_representable, float_of_Z_representable; done.
Qed.

Lemma floating_constructor_ok token sign t span l :
  floating_constructor token sign t span = Ok l → literal_ok l.
Proof.
  unfold floating_constructor. destruct t; try done;
    (destruct (parse_float _ token) as [x|] eqn:E; [|done]);
    (destruct (is_finite x) eqn:Ef; [|done]); intros [= <-];
    apply signed_float_representable; by eapply parse_float_representable.
Qed.

Section Wt.
Context `{ChronoLaws} (relation : ir.Relation).

Lemma convert_literal_wt l expected span e :
  ast.magnitudes_fit (ast.ELiteral l span) →
  convert_literal l expected span = Ok e → wt relation e.
Proof.
  intros Hm Hc. unfold convert_literal in Hc. inv_ok. constructor.
  destruct l as [k s]; simpl in *. destruct k; simpl in *; inv_ok; try done.
  - by eapply integer_literal_Ok.
  - destruct (parse_float F64 text) as [x|] eqn:E; [|done].
    destruct (is_finite x) eqn:Ef; [|done]. simpl in *. inv_ok. by eapply parse_float_representable.
Qed.

Lemma convert_constructor_wt c e span :
  ast.magnitudes_fit (ast.EConstructor c span) →
  convert_constructor c = Ok e → wt relation e.
Proof.
  intros Hm Hc. unfold convert_constructor in Hc. inv_ok. constructor.
  destruct c as [k s]; simpl in *. destruct k as [t [sign n s']|v|v]; simpl in *.
  - destruct n; simpl in *; [|by eapply floating_constructor_ok].
    destruct (is_integer _); [by eapply integer_literal_Ok | by eapply floating_from_integer_ok].
  - inv_ok. unfold parse_datetime_literal, parse_datetime_with_code in *.
    destruct (parse_from_rfc3339 _) as [d|] eqn:E; [|done].
    destruct (negb _); [done|]. inv_ok. by eapply chrono_millis.
  - inv_ok. by eapply (EventId.from_str_wf _ _).
Qed.

Lemma resolve_field_wt r f :
  resolve_field r relation = Ok f → ir.field relation (ir.name f) = Some f.
Proof.
  unfold resolve_field. intros Hr. inv_ok. pose proof Hr as Hr'. unfold ir.field in Hr.
  apply find_Some in Hr as [_ Hn]. apply String.eqb_eq in Hn. by rewrite Hn.
Qed.

Lemma convert_remainder_wt a e : convert_remainder a relation = Ok e → wt relation e.
Proof.
  unfold convert_remainder. intros Hc. inv_ok.
  destruct (ast.re_function a); inv_ok.
  - by apply (wt_remainder relation ir.Value).
  - by apply (wt_remainder relation ir.Exists).
Qed.

(** ** Operators *)

Lemma coerce_wt e t :
  wt relation e → is_numeric (ir.type_of e) = true → can_widen (ir.type_of e) t = true →
  wt relation (coerce_losslessly e t) ∧ ir.type_of (coerce_losslessly e t) = t.
Proof.
  intros He Hn Hw. unfold coerce_losslessly. case_decide as Ht; [done|].
  assert (Hnt : is_numeric t = true).
  { destruct (ir.type_of e), t; try done; by vm_compute in Hw. }
  destruct (ir.kind e) as [l|f|o a|o a b|k a t'|fn f k|a p] eqn:Ek;
    try (split; [constructor; try done; unfold is_literal; by rewrite Ek | done]).
  apply (wt_literal_inv relation) in Ek as [-> Hl]; [|done].
  destruct (is_null l) eqn:Enull.
  - destruct l; try done. simpl. destruct t; (split; [by constructor | done]).
  - destruct (widen_cases l t) as (l' & -> & Hl' & Hok & _); try done.
    split; [by constructor | done].
Qed.

Lemma reference_ok o l r t v :
  literal_ok l → literal_ok r → ir.literal_logical_type l = ir.literal_logical_type r →
  binary_result o (ir.literal_logical_type l) = Some t →
  reference_binary o l r t = Some v → literal_ok v ∧ ir.literal_logical_type v = t.
Proof.
  intros Hl Hr Ht Hb Hv.
  destruct (is_and_or o) eqn:Ho.
  { assert (t = Bool) as -> by (destruct o; try done; simpl in Hb; case_decide; by simplify_eq).
    destruct o; try done; simpl in Hv; simplify_eq; unfold of_truth; repeat case_match; done. }
  assert (Hv' : (if is_null l || is_null r then Some (ir.Null t)
      else if is_arithmetic o then literal_arithmetic o l r
      else c ← literal_compare l r; Some (ir.Boolean (admits o c))) = Some v) by (by destruct o).
  clear Hv. destruct (is_null l || is_null r); [by simplify_eq|].
  destruct (is_arithmetic o) eqn:Ha.
  - assert (t = ir.literal_logical_type l) as ->
      by (destruct o; try done; simpl in Hb; case_match; by simplify_eq).
    destruct l, r; try done; simpl in *; apply bind_Some in Hv' as (x & Hx & Hv');
      case_match eqn:Ef; simplify_eq; (split; [|done]); simpl; try done;
      destruct o; try done; simpl in Hx; simplify_eq;
      eauto using fadd_representable, fsub_representable, fmul_representable;
      repeat case_match; simplify_eq; by apply fdiv_representable.
  - apply bind_Some in Hv' as (c & Hc & [= <-]). split; [done|].
    destruct o; try done; simpl in Hb; case_decide; by simplify_eq.
Qed.

Lemma build_binary_wt o l r t span e :
  wt relation l → wt relation r → ir.type_of l = ir.type_of r →
  binary_result (binary_operator o) (ir.type_of l) = Some t →
  build_binary o l r t span = Ok e → wt relation e ∧ ir.type_of e = t.
Proof.
  intros Hl Hr Ht Hb He. unfold build_binary in He. apply bind_Ok in He as (f & Hf & He).
  destruct (is_literal l && is_literal r) eqn:Elit.
  - apply andb_true_iff in Elit as [El Er]. unfold is_literal in *.
    destruct (ir.kind l) as [x| | | | | |] eqn:Kl; try done.
    destruct (ir.kind r) as [y| | | | | |] eqn:Kr; try done.
    apply (wt_literal_inv relation) in Kl as [-> Hx]; [|done].
    apply (wt_literal_inv relation) in Kr as [-> Hy]; [|done]. cbn in Ht, Hb.
    rewrite fold_two_literals in Hf by done.
    destruct (reference_binary _ x y t) as [v|] eqn:Ev; [|done]. inv_ok.
    destruct (reference_ok _ _ _ _ _ Hx Hy Ht Hb Ev). split; [by constructor | done].
  - assert (f = None) as ->.
    { unfold fold_binary, is_literal in *. destruct (ir.kind l), (ir.kind r); by inv_ok. }
    inv_ok. split; [|done]. by constructor.
Qed.

Lemma fold_unary_wt o e span f :
  wt relation e → unary_accepts o (ir.type_of e) = true → fold_unary o e span = Ok f →
  match f with
  | Some e' => wt relation e' ∧ ir.type_of e' = ir.type_of e
  | None => is_literal e = false
  end.
Proof.
  intros He Hu Hf. unfold fold_unary, is_literal in *.
  destruct (ir.kind e) as [l| | | | | |] eqn:Ek; try (by inv_ok).
  apply (wt_literal_inv relation) in Ek as [-> Hl]; [|done].
  destruct o, l; try done; inv_ok; try (split; [by constructor | done]).
  - unfold checked_neg in Hf. destruct (narrow I32 _) eqn:E; [|done]. inv_ok.
    split; [constructor; by eapply narrow_fits | done].
  - unfold checked_neg in Hf. destruct (narrow I64 _) eqn:E; [|done]. inv_ok.
    split; [constructor; by eapply narrow_fits | done].
  - split; [constructor; by apply fneg_representable | done].
  - split; [constructor; by apply fneg_representable | done].
Qed.

(** ** Recursive conversion: each helper preserves typing if its converter does *)

Definition converts_wt (convert : converter) (e : ast.Expression) : Prop :=
  ∀ expected e', convert e expected = Ok e' → wt relation e'.

Lemma convert_cast_wt convert k e t span e' :
  converts_wt convert e → convert_cast convert k e t span = Ok e' → wt relation e'.
Proof.
  intros Hc He. unfold convert_cast in He. apply bind_Ok in He as (x & Hx & He).
  apply Hc in Hx. destruct (cast_is_defined _ _) eqn:Ed; [|done]. cbn [negb] in He.
  destruct (is_literal_null x) eqn:En; inv_ok; [by constructor|].
  destruct k; by apply (wt_cast relation).
Qed.

Lemma unary_operator_accepts o t span o' :
  unary_operator o t span = Ok o' → unary_accepts o' t = true.
Proof. destruct o; simpl; [case_decide; [|done] | destruct t; try done]; intros [= <-]; by subst. Qed.

Lemma convert_unary_wt convert o e span expected e' :
  ast.magnitudes_fit e → converts_wt convert e →
  convert_unary convert o e span expected = Ok e' → wt relation e'.
Proof.
  intros Hm Hc He.
  assert (Hgen : (operand ← convert e match o with ast.Not => Some Bool | ast.Negate => numeric_only expected end;
      ir_operator ← unary_operator o (ir.type_of operand) span;
      folded ← fold_unary ir_operator operand span;
      match folded with
      | Some folded => Ok folded
      | None => Ok (ir.mkExpression (ir.KUnary ir_operator operand) (ir.type_of operand)
                (ir.nullability_of operand))
      end) = Ok e' → wt relation e').
  { intros Hg. apply bind_Ok in Hg as (x & Hx & Hg). apply bind_Ok in Hg as (o' & Ho & Hg).
    apply bind_Ok in Hg as (f & Hf & Hg). apply Hc in Hx. apply unary_operator_accepts in Ho.
    apply fold_unary_wt in Hf; [|done|done]. destruct f; inv_ok; [by apply Hf | by constructor]. }
  unfold convert_unary in He. destruct o; [by apply Hgen|].
  destruct e as [[[] ?] ?| | | | | |]; try (by apply Hgen).
  inv_ok. constructor. by eapply integer_literal_Ok.
Qed.

Lemma convert_null_predicate_wt convert o e span e' :
  converts_wt convert e → convert_null_predicate convert o e span = Ok e' → wt relation e'.
Proof.
  intros Hc He. unfold convert_null_predicate in He. destruct (is_null_literal e); [done|].
  apply bind_Ok in He as (x & Hx & He). apply Hc in Hx.
  destruct (ir.kind x) eqn:Ek; inv_ok; constructor; try done; unfold is_literal; by rewrite Ek.
Qed.

Lemma contextual_pair_wt convert l r expected l' r' :
  converts_wt convert l → converts_wt convert r →
  convert_contextual_pair convert l r expected = Ok (l', r') → wt relation l' ∧ wt relation r'.
Proof.
  intros Hl Hr He. unfold convert_contextual_pair in He.
  repeat case_match; inv_ok; simplify_eq; split; first [by eapply Hl | by eapply Hr].
Qed.

Lemma common_upper a b c :
  common_numeric_type a b = Some c → can_widen a c = true ∧ can_widen b c = true.
Proof. intros [_ Hc]%find_Some. by apply andb_true_iff. Qed.

Lemma coerce_pair_wt l r c :
  wt relation l → wt relation r →
  is_numeric (ir.type_of l) = true → is_numeric (ir.type_of r) = true →
  common_numeric_type (ir.type_of l) (ir.type_of r) = Some c →
  wt relation (coerce_losslessly l c) ∧ wt relation (coerce_losslessly r c) ∧
  ir.type_of (coerce_losslessly l c) = c ∧ ir.type_of (coerce_losslessly r c) = c ∧
  is_numeric c = true.
Proof.
  intros Hl Hr Nl Nr [Wl Wr]%common_upper.
  destruct (coerce_wt l c) as [??]; try done. destruct (coerce_wt r c) as [??]; try done.
  split_and!; try done. destruct (ir.type_of l), c; try done; by vm_compute in Wl.
Qed.

Lemma convert_numeric_pair_wt convert l r expected span l' r' c :
  converts_wt convert l → converts_wt convert r →
  convert_numeric_pair convert l r expected span = Ok (l', r', c) →
  wt relation l' ∧ wt relation r' ∧ ir.type_of l' = c ∧ ir.type_of r' = c ∧ is_numeric c = true.
Proof.
  intros Hl Hr He. unfold convert_numeric_pair in He. apply bind_Ok in He as ([a b] & Hp & He).
  apply contextual_pair_wt in Hp as [Ha Hb]; [|done|done].
  destruct (is_numeric (ir.type_of a)) eqn:Na, (is_numeric (ir.type_of b)) eqn:Nb; try done.
  cbn [negb orb] in He. apply bind_Ok in He as (c' & Hc & He). apply ok_or_Ok in Hc.
  simplify_eq He. intros <- <- <-. by apply coerce_pair_wt.
Qed.

Definition comparison_accepts (o : ast.BinaryOperator) (t : LogicalType) : Prop :=
  is_numeric t = true ∨ t = Utf8 ∨ t = Datetime ∨ t = Eid ∨ (t = Bool ∧ is_equality o = true).

Lemma convert_comparison_pair_wt convert l r o span l' r' :
  converts_wt convert l → converts_wt convert r →
  convert_comparison_pair convert l r o span = Ok (l', r') →
  wt relation l' ∧ wt relation r' ∧ ir.type_of l' = ir.type_of r' ∧
  comparison_accepts o (ir.type_of l').
Proof.
  intros Hl Hr He. unfold convert_comparison_pair in He. apply bind_Ok in He as ([a b] & Hp & He).
  apply contextual_pair_wt in Hp as [Ha Hb]; [|done|done].
  destruct (is_numeric (ir.type_of a) && is_numeric (ir.type_of b)) eqn:Nab.
  - apply andb_true_iff in Nab as [Na Nb]. apply bind_Ok in He as (c & Hc & He).
    apply ok_or_Ok in Hc. simplify_eq He. intros <- <-. destruct (coerce_pair_wt a b c) as (?&?&E1&E2&?); try done.
    split_and!; try done; [congruence|]. left. by rewrite E1.
  - case_match eqn:Ev; [|done]. simplify_eq He. intros <- <-. split_and!; try done.
    + apply orb_true_iff in Ev as [Ev|Ev]; rewrite !andb_true_iff, !bool_decide_eq_true in Ev;
        naive_solver congruence.
    + unfold comparison_accepts.
      apply orb_true_iff in Ev as [Ev|Ev]; rewrite !andb_true_iff, !bool_decide_eq_true in Ev.
      * destruct Ev as [_ Ev]. destruct (ir.type_of a); naive_solver.
      * destruct Ev as [[Ev ->] _]. rewrite negb_involutive in Ev. naive_solver.
Qed.

Lemma convert_binary_wt convert o l r span expected e' :
  converts_wt convert l → converts_wt convert r →
  convert_binary convert o l r span expected = Ok e' → wt relation e'.
Proof.
  intros Hl Hr He. unfold convert_binary in He.
  destruct (is_equality o && is_null_literal l); [by eapply (convert_null_predicate_wt _ _ r)|].
  destruct (is_equality o && is_null_literal r); [by eapply (convert_null_predicate_wt _ _ l)|].
  assert (Harith : ∀ (Ho : is_arithmetic (binary_operator o) = true),
    ('(a, b, common) ← convert_numeric_pair convert l r (numeric_only expected) span;
     build_binary o a b common span) = Ok e' → wt relation e').
  { intros Ho Hc. apply bind_Ok in Hc as ([[a b] c] & Hp & Hc).
    apply convert_numeric_pair_wt in Hp as (Ha & Hb & E1 & E2 & Hn); [|done|done].
    eapply build_binary_wt in Hc; [by apply Hc | done | done | congruence |].
    rewrite E1. destruct o; try done; simpl; by rewrite Hn. }
  assert (Hlogic : ∀ (Ho : is_and_or (binary_operator o) = true),
    (a ← convert l (Some Bool); b ← convert r (Some Bool);
     if bool_decide (ir.type_of a ≠ Bool) || bool_decide (ir.type_of b ≠ Bool)
     then type_mismatch span else build_binary o a b Bool span) = Ok e' → wt relation e').
  { intros Ho Hc. apply bind_Ok in Hc as (a & Ha & Hc). apply bind_Ok in Hc as (b & Hb & Hc).
    case_match eqn:E; [done|]. apply orb_false_iff in E as [Ea Eb].
    rewrite bool_decide_eq_false in Ea, Eb. apply dec_stable in Ea, Eb.
    eapply build_binary_wt in Hc; [by apply Hc | by eapply Hl | by eapply Hr | congruence |].
    rewrite Ea. by destruct o. }
  assert (Hcomp : ∀ (Ho : is_arithmetic (binary_operator o) || is_and_or (binary_operator o) = false),
    ('(a, b) ← convert_comparison_pair convert l r o span; build_binary o a b Bool span) = Ok e' →
    wt relation e').
  { intros Ho Hc. apply bind_Ok in Hc as ([a b] & Hp & Hc).
    apply convert_comparison_pair_wt in Hp as (Ha & Hb & E & Hacc); [|done|done].
    eapply build_binary_wt in Hc; [by apply Hc | done | done | done |].
    unfold comparison_accepts in Hacc. destruct o; try done; simpl;
      (case_decide as Hd; [|done]); exfalso;
      repeat destruct Hd as [Hd|Hd]; rewrite ?Hd in Hacc; naive_solver. }
  destruct o; eauto.
Qed.

Lemma convert_wt e expected e' :
  ast.magnitudes_fit e →
  convert_expression_with_expected relation e expected = Ok e' → wt relation e'.
Proof.
  revert expected e'. induction e as [l s|f s|c s|k e IH t cs s|a s|o e IH s|o l IHl r IHr s];
    intros expected e' Hm He; cbn [convert_expression_with_expected] in He.
  - by eapply convert_literal_wt.
  - apply fmap_Ok in He as (g & Hg & ->). constructor. by eapply resolve_field_wt.
  - by eapply convert_constructor_wt.
  - eapply convert_cast_wt; [|done]. intros x y. by apply IH.
  - by eapply convert_remainder_wt.
  - eapply (convert_unary_wt _ o e); [exact Hm | | exact He]. intros x y. by apply IH.
  - destruct Hm as [Hml Hmr]. eapply convert_binary_wt; [| |done]; intros x y; [by apply IHl | by apply IHr].
Qed.

(** Lowering a parsed expression against a relation either fails with a
    diagnostic or gives a well-typed expression: annotations follow from the parts,
    fields resolve in the relation, literals are in range and finite, the operands
    of every operator have one type it accepts, and operators over literals only
    have been folded. *)
Theorem convert_expression_wt e expected e' :
  ast.magnitudes_fit e →
  convert_expression_with_expected relation e expected = Ok e' → wt relation e'.
Proof.
  intros Hm He. by eapply convert_wt.
Qed.

End Wt.

(** A datetime parser that knows one text, for concrete runs. *)
Definition epoch_chrono : Chrono := λ s,
  if decide (s = "1970-01-01T00:00:00Z"%string)
  then Some {| timestamp_millis := 0; timestamp_subsec_nanos := 0; nanosecond := 0 |} else None.

Lemma epoch_chrono_laws : @ChronoLaws epoch_chrono.
Proof.
  intros s d. unfold parse_from_rfc3339, epoch_chrono. case_decide; [|done].
  intros [= <-]. reflexivity.
Qed.

Definition sample_relation : ir.Relation :=
  [ {| ir.name := "status"; ir.logical_type := Int32; ir.nullability := Nullable;
       ir.origin := ir.Schema 100 |} ].

(** [status + -1 > 2.5], with spans left at zero. *)
Definition sample_expression : ast.Expression :=
  let s := {| start := 0; end_ := 0 |} in
  ast.EBinary ast.GreaterThan
    (ast.EBinary ast.Add
       (ast.EField (ast.User {| ast.id_value := "status"; ast.id_span := s |}) s)
       (ast.EUnary ast.Negate (ast.ELiteral {| ast.l_kind := ast.Integer 1; ast.l_span := s |} s) s) s)
    (ast.ELiteral {| ast.l_kind := ast.FloatingPoint "2.5"; ast.l_span := s |} s) s.

Lemma convert_expression_wt_witness :
  ∃ e', @convert_expression_with_expected epoch_chrono sample_relation sample_expression None = Ok e' ∧
    wt sample_relation e' ∧ ir.type_of e' = Bool.
Proof.
  eexists. split; [vm_compute; reflexivity|]. split; [|reflexivity].
  refine (@convert_expression_wt epoch_chrono epoch_chrono_laws sample_relation sample_expression
            None _ _ _); [|vm_compute; reflexivity].
  repeat split.
Defined.
