(* ===== verification/SemPipeline.v ===== *)
(** * elucid-language: stages, time ranges and queries

    Models src/elucid/elucid-language/src/semantic/{command,pipeline}.rs and the
    analysis entry point of lib.rs: every stage kind, the resolution of the source
    time range, and the conversion of a parsed query against a catalog snapshot. *)

From S2P Require Import Prelude Core CatalogTypes CatalogModel CatalogSource Syntax Floats IR SemExpression.

Open Scope Z_scope.

(** ** Stages (command.rs) *)

Definition is_orderable_aggregate_type (t : LogicalType) : bool :=
  is_numeric t || match t with Utf8 | Datetime | Eid => true | _ => false end.

(** [ensure_unique_output], with the set of names threaded through. *)
Definition ensure_unique_output (names : gset string) (field : ir.Field) (span : Span)
    : result Diagnostic (gset string) :=
  if decide (ir.name field ∈ names) then Err (error DuplicateOutputField span)
  else Ok ({[ir.name field]} ∪ names).

Definition convert_take (value : ast.SignedIntegerLiteral) : result Diagnostic ir.StageKind :=
  if bool_decide (ast.si_sign value = ast.Negative) && negb (ast.si_magnitude value =? 0)
  then Err (error TakeInvalid (ast.si_span value))
  else if ast.si_magnitude value >? int_max I64
  then Err (error TakeInvalid (ast.si_span value))
  else Ok (ir.Take (ast.si_magnitude value)).

Definition convert_aggregate_function (f : ast.AggregateFunction) : ir.AggregateFunction :=
  match f with
  | ast.Count => ir.Count | ast.Sum => ir.Sum | ast.Min => ir.Min
  | ast.Max => ir.Max | ast.Avg => ir.Average
  end.

Definition invalid_aggregate_argument {A} (span : Span) : result Diagnostic A :=
  Err (error FunctionArgumentTypeInvalid span).

Definition aggregate_output (function : ir.AggregateFunction) (argument : option ir.Field)
    (aggregate : ast.AggregateCall) : result Diagnostic (LogicalType * Nullability) :=
  let span := ast.ac_span aggregate in
  match function, argument with
  | ir.Count, _ => Ok (Int64, NonNull)
  | (ir.Sum | ir.Min | ir.Max | ir.Average), None => Err (error FunctionArityInvalid span)
  | ir.Sum, Some field =>
      match ir.logical_type field with
      | Int32 | Int64 => Ok (Int64, Nullable)
      | UInt32 | UInt64 => Ok (UInt64, Nullable)
      | Float32 | Float64 => Ok (Float64, Nullable)
      | _ => invalid_aggregate_argument span
      end
  | ir.Average, Some field =>
      if is_numeric (ir.logical_type field) then Ok (Float64, Nullable)
      else invalid_aggregate_argument span
  | (ir.Min | ir.Max), Some field =>
      if is_orderable_aggregate_type (ir.logical_type field)
      then Ok (ir.logical_type field, Nullable)
      else invalid_aggregate_argument span
  end.

Definition sort_order_of (d : ast.SortDirection) : ir.SortOrder :=
  match d with ast.Ascending => ir.Ascending | ast.Descending => ir.Descending end.

Definition convert_sort_item (input : ir.Relation) (item : ast.SortItem)
    : result Diagnostic ir.SortSpec :=
  field ← resolve_field (ast.so_field item) input;
  if decide (ir.logical_type field = Json) then type_mismatch (ast.so_span item)
  else Ok {| ir.ss_field := field; ir.ss_order := sort_order_of (ast.so_direction item) |}.

(** The loop over the group keys of [convert_summarize]: the names seen and the
    resolved fields, in order. *)
Fixpoint convert_groups (input : ir.Relation) (names : gset string)
    (group_by : list ast.FieldReference) : result Diagnostic (gset string * list ir.Field) :=
  match group_by with
  | [] => Ok (names, [])
  | reference :: rest =>
      field ← resolve_field reference input;
      if decide (ir.logical_type field = Json) then type_mismatch (ast.reference_span reference)
      else
      names ← ensure_unique_output names field (ast.reference_span reference);
      res ← convert_groups input names rest;
      Ok (fst res, field :: snd res)
  end.

(** One measure of [convert_summarize]. *)
Definition convert_measure (input : ir.Relation) (measure : ast.Measure)
    : result Diagnostic ir.AggregateExpression :=
  let aggregate := ast.me_aggregate measure in
  alias ← ok_or (ast.me_alias measure) (error AggregateAliasRequired (ast.ac_span aggregate));
  argument ← match ast.ac_argument aggregate with
             | Some reference => f ← resolve_field reference input; Ok (Some f)
             | None => Ok None
             end;
  let function := convert_aggregate_function (ast.ac_function aggregate) in
  output ← aggregate_output function argument aggregate;
  Ok {| ir.ae_function := function; ir.ae_argument := argument;
        ir.ae_output_field :=
          {| ir.name := ast.id_value alias; ir.logical_type := fst output;
             ir.nullability := snd output; ir.origin := ir.Derived (ast.id_span alias) |} |}.

(** The span [ensure_unique_output] reports for a measure is its alias's. *)
Definition alias_span (measure : ast.Measure) : Span :=
  match ast.me_alias measure with
  | Some alias => ast.id_span alias
  | None => ast.ac_span (ast.me_aggregate measure)
  end.

Fixpoint convert_measures (input : ir.Relation) (names : gset string)
    (measures : list ast.Measure) : result Diagnostic (list ir.AggregateExpression) :=
  match measures with
  | [] => Ok []
  | measure :: rest =>
      converted ← convert_measure input measure;
      names ← ensure_unique_output names (ir.ae_output_field converted) (alias_span measure);
      converted_rest ← convert_measures input names rest;
      Ok (converted :: converted_rest)
  end.

Definition convert_summarize (measures : list ast.Measure) (group_by : list ast.FieldReference)
    (input : ir.Relation) : result Diagnostic (ir.StageKind * ir.Relation) :=
  groups ← convert_groups input ∅ group_by;
  converted ← convert_measures input (fst groups) measures;
  Ok (ir.Aggregate converted (snd groups), snd groups ++ (ir.ae_output_field <$> converted)).

Section Pipeline.
Context `{Chrono}.

(** One projection of [convert_project], with the span of its declaration. *)
Definition convert_projection (input : ir.Relation) (projection : ast.Projection)
    : result Diagnostic (ir.Projection * Span) :=
  match projection with
  | ast.PField reference =>
      field ← resolve_field reference input;
      Ok ({| ir.pr_expression := ir.field_expression field; ir.pr_output_field := field |},
          ast.reference_span reference)
  | ast.Computed projection =>
      expression ← convert_expression (ast.cp_expression projection) input;
      let output :=
        {| ir.name := ast.id_value (ast.cp_alias projection);
           ir.logical_type := ir.type_of expression;
           ir.nullability := ir.nullability_of expression;
           ir.origin := ir.Derived (ast.id_span (ast.cp_alias projection)) |} in
      Ok ({| ir.pr_expression := expression; ir.pr_output_field := output |},
          ast.id_span (ast.cp_alias projection))
  | ast.Unaliased expression =>
      Err (error ProjectionAliasRequired (ast.expression_span expression))
  end.

Fixpoint convert_projections (input : ir.Relation) (names : gset string)
    (projections : list ast.Projection) : result Diagnostic (list ir.Projection) :=
  match projections with
  | [] => Ok []
  | projection :: rest =>
      converted ← convert_projection input projection;
      names ← ensure_unique_output names (ir.pr_output_field (fst converted)) (snd converted);
      converted_rest ← convert_projections input names rest;
      Ok (fst converted :: converted_rest)
  end.

Definition convert_project (projections : list ast.Projection) (input : ir.Relation)
    : result Diagnostic (ir.StageKind * ir.Relation) :=
  converted ← convert_projections input ∅ projections;
  Ok (ir.Project converted, ir.pr_output_field <$> converted).

Definition convert_stage (stage : ast.Stage) (input : ir.Relation) : result Diagnostic ir.Stage :=
  res ← match ast.st_kind stage with
        | ast.Filter expression =>
            converted ← convert_expression expression input;
            if decide (ir.type_of converted ≠ Bool)
            then type_mismatch (ast.expression_span expression)
            else Ok (ir.Filter converted, input)
        | ast.Project projections => convert_project projections input
        | ast.Sort items =>
            specs ← try_map (convert_sort_item input) items;
            Ok (ir.Sort specs, input)
        | ast.Take value => kind ← convert_take value; Ok (kind, input)
        | ast.Summarize measures group_by => convert_summarize measures group_by input
        end;
  Ok {| ir.sg_kind := fst res; ir.sg_output_relation := snd res |}.

(** ** Time (pipeline.rs) *)

Record QueryTimeContext := {
  reference_time : ir.UtcInstant;
  request_start_inclusive : option ir.UtcInstant;
  request_end_exclusive : option ir.UtcInstant;
}.

Definition unit_milliseconds (unit : ast.TimeUnit) : Z :=
  match unit with
  | ast.Second => 1000
  | ast.Minute => 60000
  | ast.Hour => 3600000
  | ast.Day => 86400000
  end.

(** [div_euclid] by a positive number is the floor division of [Z]. *)
Definition truncate_time (value : Z) (unit : ast.TimeUnit) (span : Span) : result Diagnostic Z :=
  let unit := unit_milliseconds unit in
  ok_or (narrow I64 (value / unit * unit)) (error TimeExpressionInvalid span).

Definition shift_time (value : Z) (direction : ast.TimeDirection) (magnitude : Z)
    (unit : ast.TimeUnit) (span : Span) : result Diagnostic Z :=
  let delta := magnitude * unit_milliseconds unit in
  let res := match direction with
             | ast.Forward => value + delta
             | ast.Backward => value - delta
             end in
  ok_or (narrow I64 res) (error TimeExpressionInvalid span).

Definition apply_time_operation (span : Span) (value : Z) (operation : ast.TimeOperation)
    : result Diagnostic Z :=
  match ast.to_kind operation with
  | ast.Truncate unit => truncate_time value unit span
  | ast.Shift direction magnitude unit => shift_time value direction magnitude unit span
  end.

Definition evaluate_time_expression (expression : ast.TimeExpression)
    (reference_time : ir.UtcInstant) : result Diagnostic ir.UtcInstant :=
  match ast.te_kind expression with
  | ast.TDatetime value => parse_datetime (ast.sl_value value) (ast.te_span expression)
  | ast.Now => Ok reference_time
  | ast.Relative operations =>
      try_fold (apply_time_operation (ast.te_span expression)) reference_time operations
  end.

Definition resolve_bound (expression : option ast.TimeExpression) (reference_time : ir.UtcInstant)
    (inherited : option ir.UtcInstant) (span : Span) : result Diagnostic ir.UtcInstant :=
  match expression with
  | Some expression => evaluate_time_expression expression reference_time
  | None => ok_or inherited (error TimeBoundUnresolved span)
  end.

Definition resolve_time_range (query : ast.Query) (context : QueryTimeContext)
    : result Diagnostic ir.TimeRange :=
  let source := ast.q_source query in
  let span := ast.se_span source in
  start_inclusive ←
    resolve_bound (ast.se_start_inclusive source) (reference_time context)
      (request_start_inclusive context) span;
  end_exclusive ←
    resolve_bound (ast.se_end_exclusive source) (reference_time context)
      (request_end_exclusive context) span;
  ok_or (ir.TimeRange_new start_inclusive end_exclusive) (error TimeRangeInvalid span).

(** ** Queries (pipeline.rs) *)

Definition field_origin (field : Schema.Field) : ir.FieldOrigin :=
  match Schema.f_role field with
  | DataRole => ir.Schema (Schema.f_id field)
  | EventTimeRole | IngestionTimeRole | EventIdRole | RemainderRole =>
      ir.System (Schema.f_id field)
  end.

Definition relation_from_schema (schema : Schema.Schema) : ir.Relation :=
  (λ field, {| ir.name := Schema.f_name field; ir.logical_type := Schema.f_logical_type field;
               ir.nullability := Schema.f_nullability field; ir.origin := field_origin field |})
  <$> Schema.s_fields schema.

Inductive PipelinePosition := Rows | Summarized.

Definition is_summarize (s : ast.Stage) : bool :=
  match ast.st_kind s with ast.Summarize _ _ => true | _ => false end.

Definition may_follow_summarize (s : ast.Stage) : bool :=
  match ast.st_kind s with ast.Sort _ | ast.Take _ => true | _ => false end.

(** The loop over the stages: position and current relation are threaded. *)
Fixpoint convert_stages (position : PipelinePosition) (relation : ir.Relation)
    (stages : list ast.Stage) : result Diagnostic (list ir.Stage) :=
  match stages with
  | [] => Ok []
  | stage :: rest =>
      match position, may_follow_summarize stage with
      | Summarized, false => Err (error StageOrderInvalid (ast.st_span stage))
      | _, _ =>
          converted ← convert_stage stage relation;
          let position := if is_summarize stage then Summarized else position in
          converted_rest ← convert_stages position (ir.sg_output_relation converted) rest;
          Ok (converted :: converted_rest)
      end
  end.

Record Analysis := { an_pipeline : ir.Pipeline; an_diagnostics : list Diagnostic }.

Definition semantic_failure (diagnostics : list Diagnostic) (e : Diagnostic) : AnalyzeError :=
  AnalyzeError_semantic (diagnostics ++ [e]).

(** [diagnostics] starts empty and no conversion writes to it. A source without an
    active schema cannot be constructed: [active_schema] would panic. *)
Definition convert_query (query : ast.Query) (catalog : CatalogSnapshot)
    (time_context : QueryTimeContext) : option (result AnalyzeError Analysis) :=
  let diagnostics : list Diagnostic := [] in
  let source_name := ast.se_name (ast.q_source query) in
  match CatalogSnapshot_source catalog (ast.id_value source_name) with
  | None => Some (Err (AnalyzeError_semantic [error SourceNotFound (ast.id_span source_name)]))
  | Some catalog_source =>
      match active_schema catalog_source with
      | None => None
      | Some schema =>
          let source_relation := relation_from_schema schema in
          let source :=
            {| ir.source_id := src_id catalog_source; ir.source_name := src_name catalog_source;
               ir.active_schema_id := Schema.s_id schema |} in
          Some (map_err (semantic_failure diagnostics) (
            time_range ← resolve_time_range query time_context;
            stages ← convert_stages Rows source_relation (ast.q_stages query);
            Ok {| an_pipeline :=
                    {| ir.pl_source := source; ir.pl_time_range := time_range;
                       ir.pl_source_relation := source_relation; ir.pl_stages := stages |};
                  an_diagnostics := diagnostics |}))
      end
  end.

(** [analyze_parsed] (lib.rs) *)
Definition analyze_parsed (text : string) (query : ast.Query) (catalog : CatalogSnapshot)
    (time_context : QueryTimeContext) : option (result AnalyzeError Analysis) :=
  match convert_query query catalog time_context with
  | None => None
  | Some (Ok analysis) =>
      Some (Ok {| an_pipeline := an_pipeline analysis;
                  an_diagnostics := finish_diagnostics (an_diagnostics analysis) text |})
  | Some (Err e) =>
      Some (Err {| ae_kind := ae_kind e;
                   ae_diagnostics := finish_diagnostics (ae_diagnostics e) text |})
  end.

End Pipeline.
