(* ===== verification/SemQuery.v ===== *)
(** * Well-formed pipelines

    The invariants of a converted query and the theorems on
    src/elucid/elucid-language/src/semantic/{command,pipeline,error}.rs: each stage
    is well formed against the relation before it, relations chain, only sort and
    take follow summarize, output names are unique, the time range is not empty,
    relative times are evaluated exactly, and a failure carries one error. *)

From S2P Require Import Prelude Core CatalogTypes CatalogModel CatalogSource Syntax Floats IR SemExpression SemTyping SemPipeline.

Open Scope Z_scope.

(** ** Stage invariants *)

Definition names (r : ir.Relation) : list string := ir.name <$> r.

(** A field as the relation resolves it. *)
Definition resolved (input : ir.Relation) (f : ir.Field) : Prop :=
  ir.field input (ir.name f) = Some f.

Definition projection_wf (input : ir.Relation) (p : ir.Projection) : Prop :=
  wt input (ir.pr_expression p) ∧
  ir.type_of (ir.pr_expression p) = ir.logical_type (ir.pr_output_field p) ∧
  ir.nullability_of (ir.pr_expression p) = ir.nullability (ir.pr_output_field p).

(** The output type of an aggregate over an argument type. *)
Definition aggregate_type (f : ir.AggregateFunction) (argument : option LogicalType)
    : option (LogicalType * Nullability) :=
  match f, argument with
  | ir.Count, _ => Some (Int64, NonNull)
  | _, None => None
  | ir.Sum, Some (Int32 | Int64) => Some (Int64, Nullable)
  | ir.Sum, Some (UInt32 | UInt64) => Some (UInt64, Nullable)
  | ir.Sum, Some (Float32 | Float64) => Some (Float64, Nullable)
  | ir.Average, Some (Int32 | Int64 | UInt32 | UInt64 | Float32 | Float64) =>
      Some (Float64, Nullable)
  | (ir.Min | ir.Max), Some t =>
      if decide (t = Bool ∨ t = Json) then None else Some (t, Nullable)
  | _, _ => None
  end.

Definition measure_wf (input : ir.Relation) (m : ir.AggregateExpression) : Prop :=
  (∀ f, ir.ae_argument m = Some f → resolved input f) ∧
  aggregate_type (ir.ae_function m) (ir.logical_type <$> ir.ae_argument m) =
    Some (ir.logical_type (ir.ae_output_field m), ir.nullability (ir.ae_output_field m)).

Definition stage_wf (input : ir.Relation) (s : ir.Stage) : Prop :=
  match ir.sg_kind s with
  | ir.Filter e => wt input e ∧ ir.type_of e = Bool ∧ ir.sg_output_relation s = input
  | ir.Project ps =>
      Forall (projection_wf input) ps ∧ ir.sg_output_relation s = (ir.pr_output_field <$> ps) ∧
      NoDup (names (ir.sg_output_relation s))
  | ir.Aggregate ms gs =>
      Forall (λ g, resolved input g ∧ ir.logical_type g ≠ Json) gs ∧
      Forall (measure_wf input) ms ∧
      ir.sg_output_relation s = gs ++ (ir.ae_output_field <$> ms) ∧
      NoDup (names (ir.sg_output_relation s))
  | ir.Sort specs =>
      Forall (λ x, resolved input (ir.ss_field x) ∧ ir.logical_type (ir.ss_field x) ≠ Json) specs ∧
      ir.sg_output_relation s = input
  | ir.Take n => 0 ≤ n ≤ int_max I64 ∧ ir.sg_output_relation s = input
  end.

Definition is_aggregate (s : ir.Stage) : bool :=
  match ir.sg_kind s with ir.Aggregate _ _ => true | _ => false end.
Definition is_sort_or_take (s : ir.Stage) : bool :=
  match ir.sg_kind s with ir.Sort _ | ir.Take _ => true | _ => false end.

(** Every stage is well formed against the output of the one before. *)
Fixpoint chained (input : ir.Relation) (stages : list ir.Stage) : Prop :=
  match stages with
  | [] => True
  | s :: rest => stage_wf input s ∧ chained (ir.sg_output_relation s) rest
  end.

(** After an aggregate only sort and take follow. *)
Definition aggregate_last (stages : list ir.Stage) : Prop :=
  ∀ i j a b, (i < j)%nat → stages !! i = Some a → stages !! j = Some b →
    is_aggregate a = true → is_sort_or_take b = true.

Record pipeline_wf (p : ir.Pipeline) : Prop := {
  pw_range : ir.start_inclusive (ir.pl_time_range p) < ir.end_exclusive (ir.pl_time_range p);
  pw_start : fits I64 (ir.start_inclusive (ir.pl_time_range p)) = true;
  pw_end : fits I64 (ir.end_exclusive (ir.pl_time_range p)) = true;
  pw_source : NoDup (names (ir.pl_source_relation p));
  pw_stages : chained (ir.pl_source_relation p) (ir.pl_stages p);
  pw_order : aggregate_last (ir.pl_stages p);
  pw_output : NoDup (names (ir.output_relation p));
}.

(** Magnitudes of the integer tokens of a query are [u64]s. *)
Definition stage_magnitudes_fit (s : ast.Stage) : Prop :=
  match ast.st_kind s with
  | ast.Filter e => ast.magnitudes_fit e
  | ast.Project ps =>
      Forall (λ p, match p with
                   | ast.Computed c => ast.magnitudes_fit (ast.cp_expression c)
                   | _ => True end) ps
  | ast.Take v => fits U64 (ast.si_magnitude v) = true
  | _ => True
  end.

(** ** Unique outputs *)

Lemma ensure_unique_Ok ns f span ns' :
  ensure_unique_output ns f span = Ok ns' → ir.name f ∉ ns ∧ ns' = {[ir.name f]} ∪ ns.
Proof. unfold ensure_unique_output. case_decide; [done|]. by intros [= <-]. Qed.

(** ** Stages *)

Lemma resolve_field_resolved r input f : resolve_field r input = Ok f → resolved input f.
Proof. apply resolve_field_wt. Qed.

Lemma convert_sort_items_wf input items specs :
  try_map (convert_sort_item input) items = Ok specs →
  Forall (λ x, resolved input (ir.ss_field x) ∧ ir.logical_type (ir.ss_field x) ≠ Json) specs.
Proof.
  intros H%try_map_Ok. apply Forall_forall. intros x Hx.
  apply list_elem_of_lookup in Hx as [i Hx]. apply (Forall2_lookup_r _ _ _ _ _ H) in Hx as (it & _ & Hc).
  unfold convert_sort_item in Hc. apply bind_Ok in Hc as (f & Hf & Hc).
  case_decide; [done|]. inv_ok. split; [by eapply resolve_field_resolved | done].
Qed.

Lemma convert_groups_wf input ns gs ns' out :
  convert_groups input ns gs = Ok (ns', out) →
  Forall (λ g, resolved input g ∧ ir.logical_type g ≠ Json) out ∧
  NoDup (names out) ∧ Forall (λ n, n ∉ ns) (names out) ∧
  (∀ n, n ∈ ns' ↔ n ∈ ns ∨ n ∈ names out).
Proof.
  revert ns ns' out; induction gs as [|g gs IH]; intros ns ns' out H; simpl in H.
  - simplify_eq. unfold names. simpl. split_and!; try constructor. set_solver. set_solver.
  - apply bind_Ok in H as (f & Hf & H). case_decide; [done|].
    apply bind_Ok in H as (ns1 & Hu & H). apply ensure_unique_Ok in Hu as [Hfresh ->].
    apply bind_Ok in H as ([ns2 out2] & Hr & H). simpl in H. simplify_eq.
    apply IH in Hr as (H1 & H2 & H3 & H4). unfold names in *.
    rewrite fmap_cons, NoDup_cons, !Forall_cons. rewrite Forall_forall in H3.
    split_and!; try done.
    + by eapply resolve_field_resolved.
    + intros Hin. apply H3 in Hin. set_solver.
    + apply Forall_forall. intros n Hn. apply H3 in Hn. set_solver.
    + intros n. rewrite H4. set_solver.
Qed.

Lemma aggregate_output_type fn arg call out :
  aggregate_output fn arg call = Ok out →
  aggregate_type fn (ir.logical_type <$> arg) = Some out.
Proof.
  unfold aggregate_output. destruct arg as [f|]; simpl; [|by destruct fn; intros [= <-]].
  destruct fn; try (by intros [= <-]); destruct (ir.logical_type f); simpl; try done;
    by intros [= <-].
Qed.

Lemma convert_measure_wf input m out :
  convert_measure input m = Ok out → measure_wf input out.
Proof.
  unfold convert_measure. intros H. apply bind_Ok in H as (alias & _ & H).
  apply bind_Ok in H as (arg & Harg & H). apply bind_Ok in H as (o & Ho & H). inv_ok.
  split; simpl.
  - intros f ->. destruct (ast.ac_argument _); [|done]. apply bind_Ok in Harg as (g & Hg & Harg).
    simplify_eq. by eapply resolve_field_resolved.
  - apply aggregate_output_type in Ho. rewrite Ho. by destruct o.
Qed.

Lemma convert_measures_wf input ns ms out :
  convert_measures input ns ms = Ok out →
  Forall (measure_wf input) out ∧ NoDup (names (ir.ae_output_field <$> out)) ∧
  Forall (λ n, n ∉ ns) (names (ir.ae_output_field <$> out)).
Proof.
  revert ns out; induction ms as [|m ms IH]; intros ns out H; simpl in H.
  - simplify_eq. split_and!; constructor.
  - apply bind_Ok in H as (c & Hc & H). apply bind_Ok in H as (ns1 & Hu & H).
    apply ensure_unique_Ok in Hu as [Hfresh ->]. apply bind_Ok in H as (rest & Hr & H). inv_ok.
    apply IH in Hr as (H1 & H2 & H3). apply convert_measure_wf in Hc. unfold names in *.
    rewrite !fmap_cons, NoDup_cons, !Forall_cons. rewrite Forall_forall in H3.
    split_and!; try done.
    + intros Hin. apply H3 in Hin. set_solver.
    + apply Forall_forall. intros n Hn. apply H3 in Hn. set_solver.
Qed.

(** ** Failures are single errors with a span *)

Definition is_error (d : Diagnostic) : Prop := ∃ code span, d = error code span.

(** Every failure of a computation is an error diagnostic with a span. *)
Definition fails_cleanly {A} (r : result Diagnostic A) : Prop := ∀ d, r = Err d → is_error d.

Create HintDb failure.

Lemma fails_Ok {A} (a : A) : fails_cleanly (Ok a). Proof. by intros d. Qed.
Lemma fails_error {A} code span : fails_cleanly (Err (error code span) : result Diagnostic A).
Proof. intros d [= <-]. by exists code, span. Qed.
Lemma fails_bind {A B} (m : result Diagnostic A) (f : A → result Diagnostic B) :
  fails_cleanly m → (∀ a, fails_cleanly (f a)) → fails_cleanly (m ≫= f).
Proof. intros Hm Hf d [Hd|(a & _ & Hd)]%bind_Err; [by apply Hm | by eapply Hf]. Qed.
Lemma fails_fmap {A B} (m : result Diagnostic A) (f : A → B) :
  fails_cleanly m → fails_cleanly (f <$> m).
Proof. intros Hm d Hd. destruct m; [done|]. apply Hm. simpl in Hd. congruence. Qed.
Lemma fails_ok_or {A} (o : option A) code span : fails_cleanly (ok_or o (error code span)).
Proof. destruct o; [apply fails_Ok | apply fails_error]. Qed.
Lemma fails_type_mismatch {A} span : fails_cleanly (type_mismatch span : result Diagnostic A).
Proof. apply fails_error. Qed.
Lemma fails_literal_invalid {A} span : fails_cleanly (literal_invalid span : result Diagnostic A).
Proof. apply fails_error. Qed.
Lemma fails_constant {A} span :
  fails_cleanly (constant_evaluation_failed span : result Diagnostic A).
Proof. apply fails_error. Qed.
#[export] Hint Resolve fails_Ok fails_error fails_bind fails_fmap fails_ok_or
  fails_type_mismatch fails_literal_invalid fails_constant : failure.

(** Walks a computation branch by branch. *)
Ltac clean :=
  repeat match goal with
  | |- fails_cleanly (_ ≫= _) => apply fails_bind; [|intros ?]
  | |- fails_cleanly (match ?x with _ => _ end) => destruct x
  | |- fails_cleanly (let _ := _ in _) => cbv zeta
  | |- fails_cleanly ((λ _, _) _) => cbv beta
  | _ => progress eauto with failure
  end.

Lemma fails_try_map {A B} (f : A → result Diagnostic B) l :
  (∀ x, fails_cleanly (f x)) → fails_cleanly (try_map f l).
Proof. intros Hf. induction l as [|x l IH]; simpl; clean. Qed.

Lemma fails_try_fold {S A} (f : S → A → result Diagnostic S) s l :
  (∀ s x, fails_cleanly (f s x)) → fails_cleanly (try_fold f s l).
Proof. intros Hf. revert s. induction l as [|x l IH]; intros s; simpl; clean. Qed.

Lemma integer_literal_fails m s e sp site : fails_cleanly (integer_literal m s e sp site).
Proof. unfold integer_literal. clean. Qed.
Lemma fold_literals_fails o l r sp : fails_cleanly (fold_literals o l r sp).
Proof. destruct o, l, r; unfold fold_literals, fold_integer, fold_float; clean. Qed.
#[export] Hint Resolve integer_literal_fails fold_literals_fails : failure.

Lemma fold_binary_fails o l r t sp : fails_cleanly (fold_binary o l r t sp).
Proof. unfold fold_binary. clean. Qed.
Lemma fold_unary_fails o e sp : fails_cleanly (fold_unary o e sp).
Proof. unfold fold_unary. clean. Qed.
#[export] Hint Resolve fold_binary_fails fold_unary_fails : failure.

Lemma build_binary_fails o l r t sp : fails_cleanly (build_binary o l r t sp).
Proof. unfold build_binary. clean. Qed.
#[export] Hint Resolve build_binary_fails : failure.

Section Failures.
Context `{Chrono}.

Lemma parse_datetime_fails v sp c : fails_cleanly (parse_datetime_with_code v sp c).
Proof. unfold parse_datetime_with_code. clean. Qed.
Lemma resolve_field_fails r rel : fails_cleanly (resolve_field r rel).
Proof. apply fails_ok_or. Qed.
#[local] Hint Resolve parse_datetime_fails resolve_field_fails : failure.

Lemma convert_literal_fails l e sp : fails_cleanly (convert_literal l e sp).
Proof. unfold convert_literal. clean. Qed.
Lemma convert_constructor_fails c : fails_cleanly (convert_constructor c).
Proof.
  unfold convert_constructor, floating_constructor_from_integer, floating_constructor,
    parse_datetime_literal. clean.
Qed.
Lemma convert_remainder_fails a rel : fails_cleanly (convert_remainder a rel).
Proof. unfold convert_remainder. clean. Qed.

Lemma contextual_pair_fails convert l r e :
  (∀ x, fails_cleanly (convert l x)) → (∀ x, fails_cleanly (convert r x)) →
  fails_cleanly (convert_contextual_pair convert l r e).
Proof. intros Hl Hr. unfold convert_contextual_pair. clean. Qed.
#[local] Hint Resolve contextual_pair_fails : failure.

Lemma convert_null_predicate_fails convert o e sp :
  (∀ x, fails_cleanly (convert e x)) → fails_cleanly (convert_null_predicate convert o e sp).
Proof. intros Hc. unfold convert_null_predicate. clean. Qed.
#[local] Hint Resolve convert_null_predicate_fails : failure.

Lemma convert_fails rel e expected :
  fails_cleanly (convert_expression_with_expected rel e expected).
Proof.
  revert expected. induction e as [l s|f s|c s|k e IH t cs s|a s|o e IH s|o l IHl r IHr s];
    intros expected; cbn [convert_expression_with_expected];
    eauto using convert_literal_fails, convert_constructor_fails, convert_remainder_fails with failure.
  - unfold convert_cast. clean.
  - unfold convert_unary. destruct o; [|destruct e as [[[] ?] ?| | | | | |]]; unfold unary_operator; clean.
  - unfold convert_binary, convert_numeric_pair, convert_comparison_pair.
    destruct o; cbn [is_equality andb]; clean.
Qed.
#[local] Hint Resolve convert_fails : failure.

Lemma convert_groups_fails input ns gs : fails_cleanly (convert_groups input ns gs).
Proof.
  revert ns; induction gs as [|g gs IH]; intros ns; simpl; unfold ensure_unique_output; clean.
Qed.
Lemma convert_measures_fails input ns ms : fails_cleanly (convert_measures input ns ms).
Proof.
  revert ns; induction ms as [|m ms IH]; intros ns; simpl;
    unfold convert_measure, aggregate_output, invalid_aggregate_argument, ensure_unique_output; clean.
Qed.
Lemma convert_projections_fails input ns ps : fails_cleanly (convert_projections input ns ps).
Proof.
  revert ns; induction ps as [|p ps IH]; intros ns; simpl;
    unfold convert_projection, convert_expression, ensure_unique_output; clean.
Qed.
#[local] Hint Resolve convert_groups_fails convert_measures_fails convert_projections_fails : failure.

Lemma convert_sort_item_fails input i : fails_cleanly (convert_sort_item input i).
Proof. unfold convert_sort_item. clean. Qed.
#[local] Hint Resolve convert_sort_item_fails fails_try_map fails_try_fold : failure.

Lemma convert_stage_fails s input : fails_cleanly (convert_stage s input).
Proof.
  unfold convert_stage, convert_project, convert_summarize, convert_take, convert_expression. clean.
Qed.
#[local] Hint Resolve convert_stage_fails : failure.

Lemma convert_stages_fails position input stages : fails_cleanly (convert_stages position input stages).
Proof. revert position input; induction stages as [|s stages IH]; intros; simpl; clean. Qed.

Lemma resolve_time_range_fails q c : fails_cleanly (resolve_time_range q c).
Proof.
  assert (Hop : ∀ sp v op, fails_cleanly (apply_time_operation sp v op)).
  { intros. unfold apply_time_operation, truncate_time, shift_time. clean. }
  unfold resolve_time_range, resolve_bound, evaluate_time_expression, parse_datetime. clean.
Qed.

End Failures.

Section Queries.
Context `{ChronoLaws}.

Lemma convert_projection_wf input p out span :
  match p with ast.Computed c => ast.magnitudes_fit (ast.cp_expression c) | _ => True end →
  convert_projection input p = Ok (out, span) → projection_wf input out.
Proof.
  intros Hm Hc. destruct p as [r|c|e]; simpl in Hc; [| |done].
  - apply bind_Ok in Hc as (f & Hf & Hc). simplify_eq. split_and!; try done.
    constructor. by eapply resolve_field_resolved.
  - apply bind_Ok in Hc as (e & He & Hc). simplify_eq. split_and!; try done. by eapply convert_wt.
Qed.

Lemma convert_projections_wf input ns ps out :
  Forall (λ p, match p with
               | ast.Computed c => ast.magnitudes_fit (ast.cp_expression c)
               | _ => True end) ps →
  convert_projections input ns ps = Ok out →
  Forall (projection_wf input) out ∧ NoDup (names (ir.pr_output_field <$> out)) ∧
  Forall (λ n, n ∉ ns) (names (ir.pr_output_field <$> out)).
Proof.
  intros Hm. revert ns out; induction Hm as [|p ps Hp Hps IH]; intros ns out Hc; simpl in Hc.
  - simplify_eq. split_and!; constructor.
  - apply bind_Ok in Hc as ([c span] & Hc & Hrest). apply bind_Ok in Hrest as (ns1 & Hu & Hrest).
    apply ensure_unique_Ok in Hu as [Hfresh ->]. apply bind_Ok in Hrest as (rest & Hr & Hrest). inv_ok.
    apply IH in Hr as (H1 & H2 & H3). apply convert_projection_wf in Hc; [|done].
    unfold names in *. simpl in *. rewrite NoDup_cons, !Forall_cons. rewrite Forall_forall in H3.
    split_and!; try done.
    + intros Hin. apply H3 in Hin. set_solver.
    + apply Forall_forall. intros n Hn. apply H3 in Hn. set_solver.
Qed.

Lemma convert_take_wf v k :
  fits U64 (ast.si_magnitude v) = true → convert_take v = Ok k →
  ∃ n, k = ir.Take n ∧ 0 ≤ n ≤ int_max I64.
Proof.
  rewrite fits_spec. intros Hm. unfold convert_take. case_match; [done|].
  rewrite Z.gtb_ltb. destruct (Z.ltb_spec (int_max I64) (ast.si_magnitude v)); [done|].
  intros [= <-]. eexists; split; [done | int_lia].
Qed.

Lemma convert_stage_wf stage input out :
  stage_magnitudes_fit stage → convert_stage stage input = Ok out → stage_wf input out.
Proof.
  unfold stage_magnitudes_fit, convert_stage. intros Hm Hc.
  destruct (ast.st_kind stage) as [e|ps|items|v|ms gs]; apply bind_Ok in Hc as (res & Hr & Hc).
  - apply bind_Ok in Hr as (x & Hx & Hr). case_decide as Ht; [done|]. simplify_eq. inv_ok.
    split_and!; try done. by eapply convert_wt.
  - unfold convert_project in Hr. apply bind_Ok in Hr as (out' & Ho & Hr). simplify_eq. inv_ok.
    apply convert_projections_wf in Ho as (H1 & H2 & _); done.
  - apply bind_Ok in Hr as (specs & Hs & Hr). simplify_eq. inv_ok.
    split; [by eapply convert_sort_items_wf | done].
  - apply bind_Ok in Hr as (k & Hk & Hr). simplify_eq. inv_ok.
    apply convert_take_wf in Hk as (n & -> & ?); done.
  - unfold convert_summarize in Hr. apply bind_Ok in Hr as ([ns gs'] & Hg & Hr).
    apply bind_Ok in Hr as (ms' & Hms & Hr). simplify_eq. inv_ok. simpl in *.
    apply convert_groups_wf in Hg as (H1 & H2 & _ & H4).
    apply convert_measures_wf in Hms as (H5 & H6 & H7). split_and!; try done.
    cbn. unfold names in *. rewrite fmap_app, NoDup_app. split_and!; try done.
    rewrite Forall_forall in H7. intros n Hn Hn'. apply H7 in Hn'. apply Hn', H4. by right.
Qed.

Lemma stage_wf_NoDup input s :
  NoDup (names input) → stage_wf input s → NoDup (names (ir.sg_output_relation s)).
Proof.
  unfold stage_wf. destruct (ir.sg_kind s); intros Hi Hs; naive_solver congruence.
Qed.

(** ** The stage loop *)

Lemma convert_stage_kind stage input out :
  convert_stage stage input = Ok out →
  is_aggregate out = is_summarize stage ∧ is_sort_or_take out = may_follow_summarize stage.
Proof.
  unfold convert_stage, is_summarize, may_follow_summarize. intros Hc.
  destruct (ast.st_kind stage) as [e|ps|items|v|ms gs]; apply bind_Ok in Hc as (res & Hr & Hc).
  - apply bind_Ok in Hr as (x & Hx & Hr). case_decide; [done|]. simplify_eq. by inv_ok.
  - apply bind_Ok in Hr as (x & Hx & Hr). simplify_eq. by inv_ok.
  - apply bind_Ok in Hr as (x & Hx & Hr). simplify_eq. by inv_ok.
  - apply bind_Ok in Hr as (x & Hx & Hr). simplify_eq. inv_ok. simpl.
    unfold convert_take in Hx. repeat case_match; simplify_eq; done.
  - apply bind_Ok in Hr as (x & Hx & Hr). apply bind_Ok in Hr as (y & Hy & Hr). simplify_eq. by inv_ok.
Qed.

Lemma convert_stages_wf position input stages out :
  Forall stage_magnitudes_fit stages →
  convert_stages position input stages = Ok out →
  chained input out ∧ aggregate_last out ∧ length out = length stages ∧
  (position = Summarized → Forall (λ s, is_sort_or_take s = true) out).
Proof.
  intros Hm. revert position input out.
  induction Hm as [|s stages Hs Hst IH]; intros position input out Hc; simpl in Hc.
  - simplify_eq. split_and!; done.
  - assert (Hc' : (position = Summarized → may_follow_summarize s = true) ∧
      (converted ← convert_stage s input;
       converted_rest ← convert_stages (if is_summarize s then Summarized else position)
                          (ir.sg_output_relation converted) stages;
       Ok (converted :: converted_rest)) = Ok out).
    { destruct position, (may_follow_summarize s); done. }
    clear Hc. destruct Hc' as [Hf Hc]. apply bind_Ok in Hc as (c & Hcs & Hc).
    apply bind_Ok in Hc as (rest & Hr & Hc). inv_ok.
    apply IH in Hr as (H1 & H2 & H3 & H4). destruct (convert_stage_kind _ _ _ Hcs) as [Ka Ks].
    split_and!.
    + simpl. split; [by eapply convert_stage_wf | done].
    + intros i j a b Hij Ha Hb Hagg. destruct i as [|i], j as [|j]; try lia; simpl in *.
      * simplify_eq. rewrite Ka in Hagg. rewrite Hagg in H4. specialize (H4 eq_refl).
        rewrite Forall_lookup in H4. by eapply H4.
      * apply (H2 i j a b); try done. lia.
    + simpl. by rewrite H3.
    + intros Hp. constructor; [rewrite Ks; by apply Hf|]. apply H4. subst. by destruct (is_summarize s).
Qed.

(** ** Time *)

(** The exact effect of an operation on an instant: the greatest multiple of the
    unit not after it, or the shifted instant. *)
Definition exact_operation (value : Z) (operation : ast.TimeOperation) : Z :=
  match ast.to_kind operation with
  | ast.Truncate unit => value - value mod unit_milliseconds unit
  | ast.Shift ast.Forward magnitude unit => value + magnitude * unit_milliseconds unit
  | ast.Shift ast.Backward magnitude unit => value - magnitude * unit_milliseconds unit
  end.

Lemma apply_time_operation_exact span value op :
  apply_time_operation span value op =
  ok_or (narrow I64 (exact_operation value op)) (error TimeExpressionInvalid span).
Proof.
  unfold apply_time_operation, exact_operation. destruct (ast.to_kind op) as [u|[] m u]; try done.
  unfold truncate_time. do 2 f_equal. rewrite Z.mod_eq by (by destruct u). lia.
Qed.

Lemma try_fold_time span ops value v :
  try_fold (apply_time_operation span) value ops = Ok v ↔
  v = foldl exact_operation value ops ∧
  ∀ n, (0 < n ≤ length ops)%nat → fits I64 (foldl exact_operation value (take n ops)) = true.
Proof.
  revert value; induction ops as [|op ops IH]; intros value; simpl.
  - split; [intros [= ->]; split; [done | lia] | by intros [-> _]].
  - rewrite apply_time_operation_exact, bind_Ok. setoid_rewrite ok_or_Ok.
    setoid_rewrite narrow_Some. split.
    + intros (x & [-> Hx] & Hr). apply IH in Hr as [-> Hr]. split; [done|].
      intros [|[|n]] Hn; [lia | by apply fits_spec |]. apply (Hr (S n)). lia.
    + intros [-> Hn]. exists (exact_operation value op). split.
      * split; [done|]. apply fits_spec. apply (Hn 1%nat). lia.
      * apply IH. split; [done|]. intros n Hn'. apply (Hn (S n)). lia.
Qed.

(** C36: a relative time expression evaluates exactly when every intermediate
    instant stays in the i64 millisecond domain, and its value is then the exact
    composition of its operations; truncation is to the greatest multiple of the
    unit not after the instant, also before the epoch. *)
Theorem evaluate_relative_time ops span reference v :
  (evaluate_time_expression {| ast.te_kind := ast.Relative ops; ast.te_span := span |} reference = Ok v ↔
   v = foldl exact_operation reference ops ∧
   ∀ n, (0 < n ≤ length ops)%nat → fits I64 (foldl exact_operation reference (take n ops)) = true) ∧
  (∀ u sp, let r := exact_operation reference {| ast.to_kind := ast.Truncate u; ast.to_span := sp |} in
     (unit_milliseconds u | r) ∧ r ≤ reference < r + unit_milliseconds u).
Proof.
  split; [apply try_fold_time|]. intros u sp. cbn -[Z.modulo unit_milliseconds].
  assert (0 < unit_milliseconds u) by (by destruct u).
  pose proof (Z.mod_pos_bound reference (unit_milliseconds u)). split; [|lia].
  exists (reference / unit_milliseconds u). rewrite Z.mod_eq by lia. lia.
Qed.

Lemma evaluate_time_fits e reference v :
  fits I64 reference = true → evaluate_time_expression e reference = Ok v → fits I64 v = true.
Proof.
  intros Hr He. unfold evaluate_time_expression in He. destruct (ast.te_kind e) as [d| |ops].
  - unfold parse_datetime, parse_datetime_with_code in He.
    destruct (parse_from_rfc3339 _) as [x|] eqn:E; [|done]. destruct (negb _); [done|].
    simplify_eq. by eapply chrono_millis.
  - by simplify_eq.
  - apply (try_fold_inv (λ z, fits I64 z = true)) in He; [done | | done].
    intros s x s' _ _ Hs. rewrite apply_time_operation_exact in Hs. inv_ok. by eapply narrow_fits.
Qed.

Record time_context_ok (c : QueryTimeContext) : Prop := {
  tc_reference : fits I64 (reference_time c) = true;
  tc_start : ∀ v, request_start_inclusive c = Some v → fits I64 v = true;
  tc_end : ∀ v, request_end_exclusive c = Some v → fits I64 v = true;
}.

Lemma resolve_bound_fits e reference inherited span v :
  fits I64 reference = true → (∀ w, inherited = Some w → fits I64 w = true) →
  resolve_bound e reference inherited span = Ok v → fits I64 v = true.
Proof.
  intros Hr Hi He. unfold resolve_bound in He.
  destruct e; [by eapply evaluate_time_fits|]. inv_ok. by apply Hi.
Qed.

Lemma resolve_time_range_ok q c r :
  time_context_ok c → resolve_time_range q c = Ok r →
  ir.start_inclusive r < ir.end_exclusive r ∧ fits I64 (ir.start_inclusive r) = true ∧
  fits I64 (ir.end_exclusive r) = true.
Proof.
  intros [Href Hst Hen] Hr. unfold resolve_time_range in Hr. apply bind_Ok in Hr as (a & Ha & Hr).
  apply bind_Ok in Hr as (b & Hb & Hr). apply ok_or_Ok in Hr. unfold ir.TimeRange_new in Hr.
  rewrite Z.geb_leb in Hr. destruct (Z.leb_spec b a); [done|]. simplify_eq. simpl.
  split_and!; [done | exact (resolve_bound_fits _ _ _ _ _ Href Hst Ha) |
    exact (resolve_bound_fits _ _ _ _ _ Href Hen Hb)].
Qed.

(** ** Queries *)

Lemma relation_from_schema_names schema :
  names (relation_from_schema schema) = (Schema.f_name <$> Schema.s_fields schema).
Proof. unfold names, relation_from_schema. rewrite <- list_fmap_compose. done. Qed.

Lemma chained_output input stages :
  NoDup (names input) → chained input stages →
  NoDup (names match last stages with Some s => ir.sg_output_relation s | None => input end).
Proof.
  revert input; induction stages as [|s stages IH]; intros input Hi Hc; [done|].
  destruct Hc as [Hs Hc]. apply (stage_wf_NoDup input s Hi) in Hs. specialize (IH _ Hs Hc).
  rewrite last_cons. by destruct (last stages).
Qed.

(** A query that analysis accepts has become a well-formed pipeline: a
    non-empty range of i64 instants, stages that are each well formed against the
    relation before them (conditions of type bool, resolved and orderable sort
    keys and group keys, well-typed projections and aggregates, take within the
    signed 64-bit range), no stage but sort and take after a summarize, and
    distinct column names in every relation; it reads the active schema of the
    named source, and no diagnostics accompany it. *)
Lemma convert_query_wf q catalog context analysis :
  (∀ s schema, snapshot_source catalog = Some s → active_schema s = Some schema →
     Schema.Fields_wf (Schema.s_fields schema)) →
  time_context_ok context →
  Forall stage_magnitudes_fit (ast.q_stages q) →
  convert_query q catalog context = Some (Ok analysis) →
  pipeline_wf (an_pipeline analysis) ∧ an_diagnostics analysis = [] ∧
  length (ir.pl_stages (an_pipeline analysis)) = length (ast.q_stages q) ∧
  ∃ s schema, snapshot_source catalog = Some s ∧ active_schema s = Some schema ∧
    src_name s = ast.id_value (ast.se_name (ast.q_source q)) ∧
    ir.pl_source_relation (an_pipeline analysis) = relation_from_schema schema.
Proof.
  intros Hfields Hctx Hm Hq. unfold convert_query, CatalogSnapshot_source in Hq.
  destruct (snapshot_source catalog) as [s|] eqn:Es; [|done].
  destruct (String.eqb_spec (src_name s) (ast.id_value (ast.se_name (ast.q_source q)))) as [Hn|]; [|done].
  destruct (active_schema s) as [schema|] eqn:Ea; [|done]. injection Hq as Hq.
  apply map_err_Ok in Hq. apply bind_Ok in Hq as (range & Hrange & Hq).
  apply bind_Ok in Hq as (stages & Hst & Hq). simplify_eq.
  apply resolve_time_range_ok in Hrange as (? & ? & ?); [|done].
  apply convert_stages_wf in Hst as (Hch & Hlast & Hlen & _); [|done].
  assert (Hnd : NoDup (names (relation_from_schema schema))).
  { rewrite relation_from_schema_names. eapply Schema.fields_names. by eapply Hfields. }
  split_and!; try done; [|by exists s, schema]. constructor; try done.
  by apply chained_output.
Qed.

(** Analysis of a query against a valid source always returns; when it
    fails, the failure is semantic and consists of exactly one diagnostic, an error
    that carries a span. *)
Lemma convert_query_failure q catalog context :
  (∀ s, snapshot_source catalog = Some s → is_Some (active_schema s)) →
  is_Some (convert_query q catalog context) ∧
  ∀ e, convert_query q catalog context = Some (Err e) →
    ae_kind e = Semantic ∧
    ∃ d, ae_diagnostics e = [d] ∧ is_error d ∧ d_severity d = Error ∧ is_Some (d_span d).
Proof.
  intros Hwf.
  assert (Herr : ∀ c sp, ∃ d, [error c sp] = [d] ∧ is_error d ∧ d_severity d = Error ∧ is_Some (d_span d)).
  { intros c sp. exists (error c sp). split_and!; [done | by exists c, sp | done | done]. }
  unfold convert_query, CatalogSnapshot_source.
  destruct (snapshot_source catalog) as [s|]; [|split; [done|]; intros e [= <-]; split; [done | apply Herr]].
  destruct (String.eqb _ _); [|split; [done|]; intros e [= <-]; split; [done | apply Herr]].
  destruct (Hwf s eq_refl) as [schema ->]. split; [done|].
  intros e [= He]. apply map_err_Err in He as (d & Hd & ->). split; [done|]. simpl.
  assert (Hd' : is_error d).
  { apply bind_Err in Hd as [Hd|(range & _ & Hd)]; [by eapply resolve_time_range_fails|].
    apply bind_Err in Hd as [Hd|(st & _ & Hd)]; [by eapply convert_stages_fails | done]. }
  destruct Hd' as (code & span & ->). apply Herr.
Qed.

End Queries.
