(* ===== verification/Language.v ===== *)
(** * elucid-language: from text to a typed pipeline

    Models the entry points of src/elucid/elucid-language/src/lib.rs: [parse],
    [analyze_parsed] and [analyze], the composition of the tokenizer, the parser,
    semantic analysis and the finishing of diagnostics. The position at which the
    parsing library reports a syntax error is a parameter. *)

From S2P Require Import Prelude CatalogTypes CatalogModel CatalogSource Syntax Floats Lexer Parser ParserCorrect ParserGrammar IR SemExpression SemTyping SemPipeline SemQuery.

#[local] Open Scope Z_scope.

(** ** Integers in parsed trees *)

Notation fit := (trees ast.magnitudes_fit).

Section FitLevels.
Context (g : G ast.Expression) (Hg : g ⊑ fit).

Lemma g_primary_fit : g_primary g ⊑ fit.
Proof.
  unfold g_primary. repeat apply trees_alt.
  - eapply trees_span; [apply trees_left, (trees_seq _ _ (λ _, True) (λ l, fits U64 (ast.si_magnitude l) = true))|].
    + done.
    + eapply trees_span; [apply trees_seq, trees_select; [apply trees_any|]|].
      * intros t a Ht Ha. destruct t; simplify_eq/=. exact Ht.
      * by intros [o m] s [_ H].
    + by intros [t l] s [_ H].
  - eapply trees_span; [apply trees_left, (trees_seq _ _ (λ _, True)
      (λ l, match ast.sn_kind l with ast.NInteger n => fits U64 n = true | _ => True end))|].
    + done.
    + eapply trees_span; [apply (trees_seq _ _ (λ _, True)
        (λ n, match n with ast.NInteger n => fits U64 n = true | _ => True end))|].
      * done.
      * apply trees_alt.
        -- eapply trees_map; [apply (trees_select _ (λ n, fits U64 n = true)) | by intros n H].
           intros t a Ht Ha. destruct t; simplify_eq/=. exact Ht.
        -- eapply trees_map; [apply trees_any | done].
      * by intros [o m] s [_ H].
    + intros [t [sign [n|text] sp]] s [_ H]; done.
  - eapply trees_span; [apply trees_any | done].
  - eapply trees_span; [apply trees_any | done].
  - eapply trees_span; [apply trees_left, trees_seq; [apply trees_left, (trees_seq _ _ (λ _, True)); [done | exact Hg]
      | apply trees_any] |].
    by intros [[kind e] target] s [[_ H] _].
  - eapply trees_span; [apply trees_any | by intros [? ?]].
  - eapply trees_span; [apply (trees_select _ (λ n, fits U64 n = true)) | by intros n s H].
    intros t a Ht Ha. destruct t; simplify_eq/=. exact Ht.
  - eapply trees_span; [apply trees_any | done].
  - eapply trees_map; [apply trees_any | done].
  - eapply trees_span; [apply trees_any | done].
  - eapply trees_span; [apply trees_any | done].
  - eapply trees_map; [apply trees_any | done].
  - eapply trees_span; [apply trees_left, trees_right, Hg|]. by intros [] s.
Qed.

Lemma fold_binary_fit l (item : ast.BinaryOperator * ast.Expression) s :
  ast.magnitudes_fit l → ast.magnitudes_fit (snd item) → ast.magnitudes_fit (fold_binary_node l item s).
Proof. by split. Qed.

Lemma g_fold_fit (h : G ast.Expression) (o : G ast.BinaryOperator) :
  h ⊑ fit → gfoldl h (gseq o h) fold_binary_node ⊑ fit.
Proof.
  intros Hh. eapply trees_foldl; [done | apply trees_seq; [apply trees_any | exact Hh] |].
  intros a b s Ha [_ Hb]. by apply fold_binary_fit.
Qed.

Lemma g_logical_or_fit : g_logical_or g ⊑ fit.
Proof.
  apply g_fold_fit, g_fold_fit. eapply trees_span.
  - assert (Ha : g_additive g ⊑ fit).
    { apply g_fold_fit, g_fold_fit. eapply trees_span; [apply trees_seq, g_primary_fit; apply trees_any|].
      by intros [[o|] e] s [_ H]. }
    apply trees_seq; [exact Ha | apply trees_opt, trees_seq; [apply trees_any | exact Ha]].
  - intros [l [[o r]|]] s [Hl Hr]; [|done]. split; [done|]. by apply (Hr (o, r)).
Qed.
End FitLevels.

Lemma g_expression_fit : g_expression ⊑ fit.
Proof. intros ts e H. apply H. intros us e'. by apply g_logical_or_fit. Qed.

Lemma g_stage_fit : g_stage ⊑ trees stage_magnitudes_fit.
Proof.
  unfold g_stage. repeat apply trees_alt.
  - eapply trees_span; [apply trees_right, g_expression_fit | by intros e s H].
  - eapply trees_span; [apply trees_right, (trees_commas _ (λ p, match p with
                   | ast.Computed c => ast.magnitudes_fit (ast.cp_expression c)
                   | _ => True end)) | by intros e s H].
    apply trees_alt.
    + eapply trees_span; [apply trees_seq, g_expression_fit; apply trees_any|].
      by intros [alias e] s [_ H].
    + eapply trees_map; [apply trees_any|]. intros e _. unfold projection_of. repeat case_match; done.
  - eapply trees_span; [apply trees_any | done].
  - eapply trees_span; [apply trees_right, (trees_span _ _
      (λ om, fits U64 (snd om) = true) (λ l, fits U64 (ast.si_magnitude l) = true))|].
    + intros ts [o m] (us & vs & -> & _ & t & s & -> & Ht) [_ Hok]%Forall_app.
      inversion Hok; subst. destruct t; simplify_eq/=. done.
    + by intros [o m] s H.
    + by intros l s H.
  - eapply trees_span; [apply trees_any | by intros [? ?]].
Qed.

Lemma parse_fit decode source q :
  parse decode source = Some q → Forall stage_magnitudes_fit (ast.q_stages q).
Proof.
  unfold parse. intros (ts & Ht & Hq)%bind_Some. apply fmap_Some in Hq as ([q' st] & Hq & ->).
  assert (Hg : g_query ts q') by (apply query_parser_complete; by exists st).
  apply tokenizer_ok in Ht. destruct Hg as ([source' stages] & (us & vs & -> & _ & Hs) & ->).
  apply Forall_app in Ht as [_ Ht]. simpl in *.
  exact (trees_star _ _ (trees_right _ _ _ g_stage_fit) vs stages Hs Ht).
Qed.

(** ** Aliases *)

Section Aliases.
Context `{Chrono}.

Lemma convert_projections_named input ns ps out : convert_projections input ns ps = Ok out → Forall projection_named ps.
Proof.
  revert ns out. induction ps as [|p ps IH]; intros ns out Hc; [constructor|]. cbn in Hc. apply bind_Ok in Hc as (c & Hp & Hc).
  apply bind_Ok in Hc as (ns' & _ & Hc). apply bind_Ok in Hc as (rest & Hr & _). constructor; [by destruct p | by eapply IH].
Qed.

Lemma convert_measures_named input ns ms out : convert_measures input ns ms = Ok out → Forall measure_named ms.
Proof.
  revert ns out. induction ms as [|m ms IH]; intros ns out Hc; [constructor|]. cbn in Hc. apply bind_Ok in Hc as (c & Hm & Hc).
  apply bind_Ok in Hc as (ns' & _ & Hc). apply bind_Ok in Hc as (rest & Hr & _). constructor; [|by eapply IH].
  unfold convert_measure in Hm. apply bind_Ok in Hm as (alias & Ha%ok_or_Ok & _). by exists alias.
Qed.

Lemma convert_stage_named stage input out : convert_stage stage input = Ok out → stage_named stage.
Proof.
  unfold convert_stage, stage_named. intros Hc. apply bind_Ok in Hc as (r & Hr & _). destruct (ast.st_kind stage) as [e|ps|items|v|ms gs]; try done.
  - unfold convert_project in Hr. apply bind_Ok in Hr as (out' & Ho & _). by eapply convert_projections_named.
  - unfold convert_summarize in Hr. apply bind_Ok in Hr as (g & _ & Hr). apply bind_Ok in Hr as (out' & Ho & _). by eapply convert_measures_named.
Qed.

Lemma convert_stages_named position input stages out : convert_stages position input stages = Ok out → Forall stage_named stages.
Proof.
  revert position input out. induction stages as [|s stages IH]; intros position input out Hc; [constructor|].
  assert (∃ c rest position', convert_stage s input = Ok c ∧ convert_stages position' (ir.sg_output_relation c) stages = Ok rest)
    as (c & rest & position' & Hs & Hr).
  { cbn in Hc. destruct position, (may_follow_summarize s); try done;
      apply bind_Ok in Hc as (c & Hs & Hc); apply bind_Ok in Hc as (rest & Hr & _); eauto. }
  constructor; [by eapply convert_stage_named | by eapply IH].
Qed.

(** Analysis accepts no projection or measure without the alias it needs. *)
Lemma convert_query_named q catalog context analysis : convert_query q catalog context = Some (Ok analysis) → query_named q.
Proof.
  unfold convert_query. destruct (CatalogSnapshot_source _ _) as [s|]; [|done]. destruct (active_schema s) as [schema|]; [|done].
  intros [= Hq%map_err_Ok]. apply bind_Ok in Hq as (range & _ & Hq). apply bind_Ok in Hq as (stages & Hs & _). by eapply convert_stages_named.
Qed.
End Aliases.

(** ** Entry points (lib.rs) *)

Section Analyze.
Context `{ChronoLaws}.
(** Decoding of a string token, and the span of the library's syntax error. *)
Context (decode_string : string → option string) (error_span : string → Span).

Definition parse_query (query : string) : result AnalyzeError ast.Query :=
  match parse decode_string query with
  | Some ast => Ok ast
  | None =>
      let error := AnalyzeError_syntax (error_span query) in
      Err {| ae_kind := ae_kind error;
             ae_diagnostics := finish_diagnostics (ae_diagnostics error) query |}
  end.

Definition analyze (query : string) (catalog : CatalogSnapshot) (time_context : QueryTimeContext)
    : option (result AnalyzeError Analysis) :=
  match parse_query query with
  | Err e => Some (Err e)
  | Ok ast => analyze_parsed query ast catalog time_context
  end.

(** The source of the snapshot has an active schema, laid out by [Schema::new]. *)
Definition catalog_ok (catalog : CatalogSnapshot) : Prop :=
  ∀ s, snapshot_source catalog = Some s →
    ∃ schema, active_schema s = Some schema ∧ Schema.Fields_wf (Schema.s_fields schema).

(** C1: a query text that analysis accepts is derived by the grammar and has
    become a well-formed pipeline: a non-empty range of i64 instants, stages that are
    each well formed against the relation before them (conditions of type bool,
    resolved and orderable sort keys and group keys, well-typed projections and
    aggregates, take within the signed 64-bit range), no stage but sort and take
    after a summarize, and distinct column names in every relation; it reads the
    active schema of the named source, has one stage for each stage of the text, and
    no diagnostics accompany it. *)
Theorem analyze_wf query catalog context analysis :
  catalog_ok catalog → time_context_ok context →
  analyze query catalog context = Some (Ok analysis) →
  pipeline_wf (an_pipeline analysis) ∧ an_diagnostics analysis = [] ∧
  ∃ ts q s schema, tokenizer decode_string query = Some ts ∧ g_query ts q ∧
    length (ir.pl_stages (an_pipeline analysis)) = length (ast.q_stages q) ∧
    snapshot_source catalog = Some s ∧ active_schema s = Some schema ∧
    src_name s = ast.id_value (ast.se_name (ast.q_source q)) ∧
    ir.pl_source_relation (an_pipeline analysis) = relation_from_schema schema.
Proof.
  intros Hcat Hctx. unfold analyze, parse_query.
  destruct (parse decode_string query) as [q|] eqn:Ep; [|done].
  unfold analyze_parsed. destruct (convert_query q catalog context) as [[a|e]|] eqn:Ec; [|done..].
  intros [= <-]. pose proof Ec as Hc.
  apply convert_query_wf in Hc as (Hwf & Hd & Hlen & s & schema & Hs & Ha & Hn & Hr);
    [|intros s schema Hs Ha; destruct (Hcat s Hs) as (? & ? & ?); by simplify_eq | done | by eapply parse_fit].
  split_and!; [done | simpl; by rewrite Hd |].
  apply parse_tokens in Ep as (ts & Ht & Hg). exists ts, q, s, schema. by split_and!.
Qed.

(** C33: analysis of a text against a catalog with an active schema always returns. A
    failure is one error diagnostic that carries a span; it is a syntax failure exactly when
    the parser's grammar derives no tree from the text, and semantic otherwise. A text that
    the parser's grammar derives and the normative grammar does not, which lacks the alias
    of a projection or of a measure, is refused with a semantic failure; so every accepted
    text is one of the normative grammar. *)
Theorem analyze_failure query catalog context :
  catalog_ok catalog →
  is_Some (analyze query catalog context) ∧
  (∀ e, analyze query catalog context = Some (Err e) →
    (∃ d, ae_diagnostics e = [d] ∧ d_severity d = Error ∧ is_Some (d_span d)) ∧
    (ae_kind e = Syntax ↔ ∀ ts q, tokenizer decode_string query = Some ts → ¬ g_query ts q)) ∧
  (∀ ts q, tokenizer decode_string query = Some ts → g_query ts q → ¬ spec_query ts q →
    ∃ e, analyze query catalog context = Some (Err e) ∧ ae_kind e = Semantic) ∧
  (∀ analysis, analyze query catalog context = Some (Ok analysis) →
    ∃ ts q, tokenizer decode_string query = Some ts ∧ spec_query ts q).
Proof.
  intros Hcat. unfold analyze, parse_query.
  destruct (parse decode_string query) as [q|] eqn:Ep.
  - destruct (convert_query_failure q catalog context) as [[r Hr] He].
    { intros s Hs. destruct (Hcat s Hs) as (schema & -> & _). done. }
    pose proof (convert_query_named q catalog context) as Hn.
    apply parse_tokens in Ep as (ts & Ht & Hg). pose proof (spec_query_named _ q (tokenizer_ordered _ _ _ Ht)) as Hspec.
    unfold analyze_parsed. rewrite Hr in *. destruct r as [a|e]; (split; [done|]).
    + specialize (Hn a eq_refl). split_and!; [done | | intros _ _; exists ts, q; split; [done | by apply Hspec]].
      intros ts' q' Ht' Hg' Hno. destruct Hno. assert (ts' = ts) as -> by congruence.
      rewrite (parse_unique _ _ _ Hg' Hg). by apply Hspec.
    + destruct (He e eq_refl) as (Hk & d & Hd & _ & Hs & Hsp). split_and!; [| eauto | done].
      intros e' [= <-]. split; [exists (attach_source_range d query); simpl; by rewrite Hd|].
      simpl. rewrite Hk. split; [done|]. intros Hno. by destruct (Hno ts q).
  - assert (Hno : ∀ ts q, tokenizer decode_string query = Some ts → ¬ g_query ts q).
    { intros ts q Ht Hg. assert (parse decode_string query = Some q) by (apply parse_tokens; eauto). congruence. }
    split_and!; [done | | intros ts q Ht Hg; by destruct (Hno ts q) | done].
    intros e [= <-]. split; [|done]. eexists. split_and!; [reflexivity | done | done].
Qed.
End Analyze.

(** ** A concrete query over the day before the reference time *)

Definition sample_text : string :=
  "source web start_inclusive = -1d@h | filter status >= 500 and not (status == 504) | summarize n = count() by host | sort -n | take 10"%string.

Definition sample_context : QueryTimeContext :=
  {| reference_time := 1700000000000; request_start_inclusive := None;
     request_end_exclusive := Some 1700000000000 |}.

Definition sample_catalog : CatalogSnapshot := {| snapshot_source := Some sample_source |}.

Lemma sample_catalog_ok : catalog_ok sample_catalog.
Proof.
  intros s [= <-]. exists sample_later. split; [done|].
  apply (Schema.layout_wf Schema.sample_fields).
  - repeat constructor; simpl; first [done | by intros [? [=]]].
  - apply (bool_decide_unpack _). vm_compute. done.
  - apply (bool_decide_unpack _). vm_compute. done.
Qed.

Definition no_strings : string → option string := λ _, None.
Definition at_start : string → Span := λ _, {| start := 0; end_ := 0 |}.

Lemma analyze_wf_witness :
  ∃ a, @analyze epoch_chrono no_strings at_start sample_text sample_catalog sample_context = Some (Ok a) ∧
    pipeline_wf (an_pipeline a).
Proof.
  eexists. split; [vm_compute; reflexivity|].
  refine (proj1 (@analyze_wf epoch_chrono epoch_chrono_laws no_strings at_start sample_text sample_catalog
    sample_context _ sample_catalog_ok _ _)).
  - constructor; [reflexivity | | ]; intros v [= <-]; reflexivity.
  - vm_compute. reflexivity.
Defined.

(** A text the grammar does not derive: the projection list is missing. *)
Lemma analyze_failure_witness :
  ∃ e, @analyze epoch_chrono no_strings at_start "source web | project"%string sample_catalog sample_context
         = Some (Err e) ∧
    ∀ ts q, tokenizer no_strings "source web | project"%string = Some ts → ¬ g_query ts q.
Proof.
  eexists. split; [vm_compute; reflexivity|].
  refine (proj1 (proj2 (proj1 (proj2 (@analyze_failure epoch_chrono no_strings at_start
    "source web | project"%string sample_catalog sample_context sample_catalog_ok)) _ _)) _);
    vm_compute; reflexivity.
Defined.

(** A text of the parser's grammar without the alias that the normative one requires. *)
Example unaliased_measure :
  ae_kind <$> (@analyze epoch_chrono no_strings at_start "source web | summarize count()"%string sample_catalog sample_context
    ≫= λ r, match r with Err e => Some e | Ok _ => None end) = Some Semantic.
Proof. vm_compute. reflexivity. Qed.
