(* ===== verification/Bytes.v ===== *)
(** * Byte strings, big-endian integers and UTF-8

    Bytes are [ascii]s. Models [to_be_bytes] and [from_be_bytes] of the fixed-width
    integers, and slices of byte arrays, as src/elucid/elucid-ingestion/src/frame.rs
    and checkpoint.rs use them. *)

From S2P Require Import Prelude Core.
#[local] Open Scope Z_scope.

Notation bytes := (list ascii).

Fixpoint ascii_bytes (s : string) : bytes :=
  match s with EmptyString => [] | String c s => c :: ascii_bytes s end.

(** ** Big-endian integers *)

Fixpoint be_bytes (n : nat) (z : Z) : bytes :=
  match n with
  | O => []
  | S n => ascii_of_byte (z / 256 ^ Z.of_nat n mod 256) :: be_bytes n z
  end.

Fixpoint be_value (l : bytes) : Z :=
  match l with
  | [] => 0
  | c :: l => byte_of_ascii c * 256 ^ Z.of_nat (length l) + be_value l
  end.

(** [i64::from_be_bytes] reads the sign bit. *)
Definition be_signed (l : bytes) : Z :=
  let v := be_value l in
  if v <? 2 ^ 63 then v else v - 2 ^ 64.

Lemma length_be_bytes n z : length (be_bytes n z) = n.
Proof. induction n; simpl; auto. Qed.

Lemma be_value_bounds l : 0 ≤ be_value l < 256 ^ Z.of_nat (length l).
Proof.
  induction l as [|c l IH]; [simpl; lia|]. cbn [be_value length].
  rewrite Nat2Z.inj_succ, Z.pow_succ_r by lia. pose proof (byte_of_ascii_is_byte c) as Hb.
  unfold is_byte in Hb. nia.
Qed.

Lemma be_value_bytes n z : be_value (be_bytes n z) = z mod 256 ^ Z.of_nat n.
Proof.
  induction n as [|n IH]; [symmetry; apply Z.mod_1_r|]. cbn [be_bytes be_value].
  rewrite length_be_bytes, IH, byte_of_ascii_of_byte by (apply Z.mod_pos_bound; lia).
  rewrite Nat2Z.inj_succ, Z.pow_succ_r by lia.
  rewrite (Z.mul_comm 256), Z.rem_mul_r by lia. lia.
Qed.

Lemma be_bytes_value l : be_bytes (length l) (be_value l) = l.
Proof.
  assert (H : ∀ k, be_bytes (length l) (k * 256 ^ Z.of_nat (length l) + be_value l) = l).
  { induction l as [|c l IH]; intros k; [done|]. cbn [be_bytes length be_value].
    rewrite Nat2Z.inj_succ, Z.pow_succ_r by lia.
    pose proof (be_value_bounds l) as Hv. pose proof (byte_of_ascii_is_byte c) as Hb. unfold is_byte in Hb.
    set (p := 256 ^ Z.of_nat (length l)) in *.
    replace (k * (256 * p) + (byte_of_ascii c * p + be_value l))
      with ((k * 256 + byte_of_ascii c) * p + be_value l) by lia.
    f_equal; [|apply IH].
    rewrite Z.div_add_l by lia. rewrite (Z.div_small (be_value l)) by lia.
    rewrite Z.add_0_r, Z.add_comm, Z.mod_add, Z.mod_small by lia. apply ascii_of_byte_of_ascii. }
  exact (H 0).
Qed.

Lemma be_value_inj a b : length a = length b → be_value a = be_value b → a = b.
Proof. intros Hl Hv. by rewrite <- (be_bytes_value a), <- (be_bytes_value b), Hl, Hv. Qed.

Lemma be_value_exact n z : 0 ≤ z < 256 ^ Z.of_nat n → be_value (be_bytes n z) = z.
Proof. intros H. by rewrite be_value_bytes, Z.mod_small. Qed.

Lemma be_signed_exact z : fits I64 z = true → be_signed (be_bytes 8 z) = z.
Proof.
  rewrite fits_spec. unfold be_signed. rewrite be_value_bytes. change (256 ^ Z.of_nat 8) with (2 ^ 64).
  intros [H1 H2]. cbn [int_min int_max] in *. destruct (Z.ltb_spec (z mod 2 ^ 64) (2 ^ 63)) as [Hlt|Hge].
  - destruct (Z.lt_ge_cases z 0).
    + rewrite <- (Z.mod_add z 1), Z.mod_small in Hlt by lia. lia.
    + apply Z.mod_small. lia.
  - destruct (Z.lt_ge_cases z 0).
    + rewrite <- (Z.mod_add z 1), Z.mod_small by lia. lia.
    + rewrite Z.mod_small in Hge by lia. lia.
Qed.

Lemma be_signed_bytes l : length l = 8%nat → be_bytes 8 (be_signed l) = l ∧ fits I64 (be_signed l) = true.
Proof.
  intros Hl. pose proof (be_value_bounds l) as Hv. rewrite Hl in Hv. change (256 ^ Z.of_nat 8) with (2 ^ 64) in Hv.
  unfold be_signed. split.
  - assert (H : be_value (be_bytes 8 (if be_value l <? 2 ^ 63 then be_value l else be_value l - 2 ^ 64)) = be_value l).
    { rewrite be_value_bytes. change (256 ^ Z.of_nat 8) with (2 ^ 64).
      destruct (be_value l <? 2 ^ 63); [by apply Z.mod_small|].
      rewrite <- (Z.mod_add _ 1), Z.mod_small by lia. lia. }
    apply be_value_inj; [by rewrite length_be_bytes | exact H].
  - apply fits_spec. cbn [int_min int_max]. destruct (Z.ltb_spec (be_value l) (2 ^ 63)); lia.
Qed.

(** ** Slices *)

(** [&bytes[offset..offset + n]] *)
Definition slice (offset n : nat) (b : bytes) : bytes := take n (drop offset b).

Lemma length_slice offset n b : (offset + n ≤ length b)%nat → length (slice offset n b) = n.
Proof. intros H. unfold slice. rewrite length_take, length_drop. lia. Qed.

(** Consecutive slices of the given sizes, from [offset]. *)
Fixpoint chop (offset : nat) (sizes : list nat) (b : bytes) : list bytes :=
  match sizes with
  | [] => []
  | n :: sizes => slice offset n b :: chop (offset + n) sizes b
  end.

Lemma concat_chop offset sizes b :
  length b = (offset + sum_list sizes)%nat → concat (chop offset sizes b) = drop offset b.
Proof.
  revert offset; induction sizes as [|n sizes IH]; intros offset H; simpl in *.
  - rewrite drop_ge; [done | lia].
  - rewrite IH by lia. unfold slice. rewrite <- drop_drop. apply take_drop.
Qed.

Lemma slice_concat (pre : list bytes) f post :
  slice (length (concat pre)) (length f) (concat (pre ++ f :: post)) = f.
Proof.
  unfold slice. rewrite concat_app, drop_app_length. simpl. apply take_app_length.
Qed.

Lemma slice_app_l offset n b c :
  (offset + n ≤ length b)%nat → slice offset n (b ++ c) = slice offset n b.
Proof.
  intros H. unfold slice. rewrite drop_app_le by lia. rewrite take_app_le; [done|].
  rewrite length_drop. lia.
Qed.

(** ** Utf-8 validation and character boundaries

    Models [str::from_utf8] and [str::is_char_boundary] of the Rust standard library,
    on which src/elucid/elucid-ingestion/src/normalization.rs relies: a text is a byte
    string that [utf8_valid] accepts (the well-formed sequences of Unicode, table 3-7),
    and [floor_char_boundary] is the loop that shortens a payload prefix to a whole
    number of characters. *)

(** ** Definitions *)

Definition in_range (lo hi : Z) (c : ascii) : bool := (lo <=? byte_of_ascii c) && (byte_of_ascii c <=? hi).

Definition continuation (c : ascii) : bool := in_range 0x80 0xBF c.

(** The second byte of a three-byte and of a four-byte sequence. *)
Definition second_of_three (a c : ascii) : bool :=
  if byte_of_ascii a =? 0xE0 then in_range 0xA0 0xBF c
  else if byte_of_ascii a =? 0xED then in_range 0x80 0x9F c
  else in_range 0xE1 0xEF a && continuation c.

Definition second_of_four (a c : ascii) : bool :=
  if byte_of_ascii a =? 0xF0 then in_range 0x90 0xBF c
  else if byte_of_ascii a =? 0xF4 then in_range 0x80 0x8F c
  else in_range 0xF1 0xF3 a && continuation c.

Fixpoint utf8_valid (b : bytes) : bool :=
  match b with
  | [] => true
  | a :: b1 =>
      if byte_of_ascii a <? 0x80 then utf8_valid b1 else
      match b1 with
      | [] => false
      | c :: b2 =>
          if in_range 0xC2 0xDF a then continuation c && utf8_valid b2 else
          match b2 with
          | [] => false
          | d :: b3 =>
              if in_range 0xE0 0xEF a then second_of_three a c && continuation d && utf8_valid b3 else
              match b3 with
              | [] => false
              | e :: b4 => second_of_four a c && continuation d && continuation e && utf8_valid b4
              end
          end
      end
  end.

(** [text.is_char_boundary(index)] *)
Definition is_char_boundary (text : bytes) (index : nat) : bool :=
  match index with
  | O => true
  | _ => match text !! index with
         | Some c => negb (continuation c)
         | None => (index =? length text)%nat
         end
  end.

(** [while !text.is_char_boundary(end) { end -= 1 }]; index 0 is a boundary, so the
    subtraction never underflows. *)
Fixpoint floor_char_boundary (text : bytes) (end_ : nat) : nat :=
  if is_char_boundary text end_ then end_
  else match end_ with O => O | S end_ => floor_char_boundary text end_ end.

(** ** Characters *)

(** One encoded character: up to four bytes, of which exactly the first is not a
    continuation byte; what follows it does not matter to its validity. *)
Record character (c : bytes) : Prop := {
  ch_length : (1 ≤ length c ≤ 4)%nat;
  ch_first : ∀ x, c !! 0%nat = Some x → continuation x = false;
  ch_rest : ∀ i x, (0 < i)%nat → c !! i = Some x → continuation x = true;
  ch_valid : ∀ b, utf8_valid (c ++ b) = utf8_valid b;
}.

Lemma in_range_true lo hi c : in_range lo hi c = true ↔ lo ≤ byte_of_ascii c ≤ hi.
Proof. unfold in_range. rewrite andb_true_iff, !Z.leb_le. done. Qed.

Lemma in_range_false lo hi c : in_range lo hi c = false ↔ ¬ lo ≤ byte_of_ascii c ≤ hi.
Proof. rewrite <- in_range_true. by destruct (in_range lo hi c). Qed.

Lemma second_of_three_continuation a c : second_of_three a c = true → continuation c = true.
Proof.
  unfold second_of_three, continuation. repeat case_match; rewrite ?andb_true_iff, !in_range_true; lia.
Qed.

Lemma second_of_four_spec a c :
  second_of_four a c = true → continuation c = true ∧ 0xF0 ≤ byte_of_ascii a ≤ 0xF4.
Proof.
  unfold second_of_four, continuation. destruct (Z.eqb_spec (byte_of_ascii a) 0xF0); [rewrite !in_range_true; lia|].
  destruct (Z.eqb_spec (byte_of_ascii a) 0xF4); rewrite ?andb_true_iff, !in_range_true; lia.
Qed.

Lemma utf8_cases b :
  utf8_valid b = true → b = [] ∨ ∃ c b', b = c ++ b' ∧ character c ∧ utf8_valid b' = true.
Proof.
  destruct b as [|a b1]; [by left|]. intros Hv. right. cbn [utf8_valid] in Hv.
  destruct (byte_of_ascii a <? 0x80) eqn:E1.
  { exists [a], b1. split_and!; [done | | done]. split; [simpl; lia | | |].
    - intros x [= <-]. apply in_range_false. apply Z.ltb_lt in E1. lia.
    - intros [|[|i]] x Hi; [lia | done | done].
    - intros b. simpl. by rewrite E1. }
  destruct b1 as [|c b2]; [done|]. destruct (in_range 0xC2 0xDF a) eqn:E2.
  { apply andb_true_iff in Hv as [Hc Hv]. exists [a; c], b2. split_and!; [done | | done].
    split; [simpl; lia | | |].
    - intros x [= <-]. apply in_range_false. apply in_range_true in E2. lia.
    - intros [|[|i]] x Hi; [lia | by intros [= <-] | done].
    - intros b. simpl. by rewrite E1, E2, Hc. }
  destruct b2 as [|d b3]; [done|]. destruct (in_range 0xE0 0xEF a) eqn:E3.
  { rewrite !andb_true_iff in Hv. destruct Hv as [[Hc Hd] Hv]. exists [a; c; d], b3. split_and!; [done | | done].
    pose proof (second_of_three_continuation _ _ Hc). split; [simpl; lia | | |].
    - intros x [= <-]. apply in_range_false. apply in_range_true in E3. lia.
    - intros [|[|[|i]]] x Hi; [lia | by intros [= <-] | by intros [= <-] | done].
    - intros b. simpl. by rewrite E1, E2, E3, Hc, Hd. }
  destruct b3 as [|e b4]; [done|]. rewrite !andb_true_iff in Hv. destruct Hv as [[[Hc Hd] He] Hv].
  destruct (second_of_four_spec _ _ Hc). exists [a; c; d; e], b4. split_and!; [done | | done].
  split; [simpl; lia | | |].
  - intros x [= <-]. apply in_range_false. lia.
  - intros [|[|[|[|i]]]] x Hi; [lia | by intros [= <-] | by intros [= <-] | by intros [= <-] | done].
  - intros b. simpl. by rewrite E1, E2, E3, Hc, Hd, He.
Qed.

(** ** The boundary search *)

Lemma boundary_app c b i :
  character c → utf8_valid b = true → is_char_boundary (c ++ b) (length c + i) = is_char_boundary b i.
Proof.
  intros Hc Hb. pose proof (ch_length _ Hc). unfold is_char_boundary.
  destruct (length c + i)%nat as [|k] eqn:E; [lia|]. rewrite <- E, lookup_app_r by lia.
  replace (length c + i - length c)%nat with i by lia. rewrite length_app.
  destruct i as [|i].
  - destruct (utf8_cases b Hb) as [->|(c' & b' & -> & Hc' & _)].
    + rewrite lookup_nil. apply Nat.eqb_eq. simpl. lia.
    + pose proof (ch_length _ Hc'). rewrite lookup_app_l by lia.
      destruct (c' !! 0%nat) as [x|] eqn:Ex; [|apply lookup_ge_None in Ex; lia].
      by rewrite (ch_first _ Hc' x Ex).
  - destruct (b !! S i); [done|]. apply eq_bool_prop_intro. rewrite !Is_true_true, !Nat.eqb_eq. lia.
Qed.

Lemma boundary_inside c b i :
  character c → (0 < i < length c)%nat → is_char_boundary (c ++ b) i = false.
Proof.
  intros Hc Hi. unfold is_char_boundary. destruct i as [|i]; [lia|]. rewrite lookup_app_l by lia.
  destruct (c !! S i) as [x|] eqn:Ex; [|apply lookup_ge_None in Ex; lia].
  by rewrite (ch_rest _ Hc (S i) x ltac:(lia) Ex).
Qed.

(** Every index has a boundary at most three bytes below it, and the text up to a
    boundary is a text. *)
Lemma boundary_below b end_ :
  utf8_valid b = true → (end_ ≤ length b)%nat →
  ∃ p, (p ≤ end_ < p + 4)%nat ∧ is_char_boundary b p = true ∧ utf8_valid (take p b) = true ∧
    ∀ i, (p < i ≤ end_)%nat → is_char_boundary b i = false.
Proof.
  remember (length b) as n eqn:Hn. revert b end_ Hn.
  induction n as [n IH] using lt_wf_ind. intros b end_ Hn Hv He.
  destruct (utf8_cases b Hv) as [->|(c & b' & -> & Hc & Hv')].
  { simpl in *. exists 0%nat. split_and!; [lia | lia | done | done | lia]. }
  pose proof (ch_length _ Hc) as Hl. rewrite length_app in Hn.
  destruct (Nat.lt_ge_cases end_ (length c)) as [Hlt|Hge].
  { exists 0%nat. split_and!; [lia | lia | done | done |]. intros i Hi. apply boundary_inside; [done | lia]. }
  destruct (IH (length b') ltac:(lia) b' (end_ - length c)%nat) as (p & Hp & Hb & Ht & Hn'); [done | done | lia |].
  exists (length c + p)%nat. split_and!; [lia | lia | by rewrite boundary_app | |].
  - rewrite take_app_ge by lia. replace (length c + p - length c)%nat with p by lia. by rewrite (ch_valid _ Hc).
  - intros i Hi. destruct (Nat.lt_ge_cases i (length c)) as [|Hic].
    { apply boundary_inside; [done | lia]. }
    replace i with (length c + (i - length c))%nat by lia. rewrite boundary_app by done. apply Hn'. lia.
Qed.

Lemma floor_char_boundary_eq b p end_ :
  (p ≤ end_)%nat → is_char_boundary b p = true →
  (∀ i, (p < i ≤ end_)%nat → is_char_boundary b i = false) → floor_char_boundary b end_ = p.
Proof.
  intros Hle Hb. induction end_ as [|e IH]; intros Hn.
  - replace p with 0%nat in * by lia. done.
  - cbn [floor_char_boundary]. destruct (decide (p = S e)) as [->|]; [by rewrite Hb|].
    rewrite Hn by lia. apply IH; [lia|]. intros i Hi. apply Hn. lia.
Qed.

Lemma floor_char_boundary_spec b end_ :
  utf8_valid b = true → (end_ ≤ length b)%nat →
  let p := floor_char_boundary b end_ in
  (p ≤ end_ < p + 4)%nat ∧ is_char_boundary b p = true ∧ utf8_valid (take p b) = true.
Proof.
  intros Hv He. destruct (boundary_below b end_ Hv He) as (p & Hp & Hb & Ht & Hn).
  rewrite (floor_char_boundary_eq b p end_) by (done || lia). done.
Qed.
