(* ===== verification/Frame.v ===== *)
(** * elucid-ingestion: the spool model, frames and checkpoints

    Models src/elucid/elucid-ingestion/src/{error,model,frame,checkpoint}.rs: the
    values of the spool, the encoding of a batch as a frame of a 148-byte header, the
    body and a 48-byte footer, the validation of whole and of torn frames, and the
    52-byte checkpoint record. The BLAKE3 hash and chrono's range of UTC instants are
    parameters; the hasher that absorbs a message in pieces is the message absorbed
    so far. *)

From S2P Require Import Prelude Core CatalogTypes Bytes.

#[local] Open Scope Z_scope.

(** ** Parameters *)

(** [blake3::hash] and whether [DateTime::from_timestamp_millis] is defined. *)
Class SpoolEnv := {
  blake3 : bytes → bytes;
  from_timestamp_millis : Z → bool;
}.

(** A BLAKE3 digest has 32 bytes. *)
Class SpoolEnvLaws `{SpoolEnv} : Prop := length_blake3 b : length (blake3 b) = 32%nat.

(** ** Errors (error.rs) *)

Inductive SpoolErrorKind := CapacityExhausted | BatchLimitExceeded | CorruptKind | Unavailable.

Inductive SpoolError :=
| ECapacity (required_bytes available_bytes : Z)
| EBatchLimit (actual_bytes maximum_bytes : Z)
| ECorrupt (message : string)
| EIo (operation : string)
| EInvariant (message : string).

Definition error_kind (e : SpoolError) : SpoolErrorKind :=
  match e with
  | ECapacity _ _ => CapacityExhausted
  | EBatchLimit _ _ => BatchLimitExceeded
  | ECorrupt _ => CorruptKind
  | EIo _ | EInvariant _ => Unavailable
  end.

Inductive SpoolModelError :=
| CapacityMustBePositive | AppendBodyLimitMustBePositive | IngestionTimeOutOfRange.

Notation spool_result := (result SpoolError).

(** ** Values (model.rs) *)

Definition NonZeroU64_new (value : Z) : option Z := if value =? 0 then None else Some value.

Definition SpoolCapacity_new (value : Z) : result SpoolModelError Z :=
  ok_or (NonZeroU64_new value) CapacityMustBePositive.

Definition AppendBodyLimit_new (value : Z) : result SpoolModelError Z :=
  ok_or (NonZeroU64_new value) AppendBodyLimitMustBePositive.

Definition IngestionTime_from_unix_milliseconds `{SpoolEnv} (value : Z) : result SpoolModelError Z :=
  if from_timestamp_millis value then Ok value else Err IngestionTimeOutOfRange.

Record PinnedCatalogIdentities := {
  source_id : SourceId;
  input_id : InputId;
  profile_revision_id : IngestionProfileRevisionId;
  target_schema_id : SchemaId;
}.

Record BatchMetadata := {
  batch_id : Z;
  catalog : PinnedCatalogIdentities;
  ingestion_time : Z;
}.

Record SpoolBatchRange := { range_start : Z; range_end : Z }.

Definition SpoolBatchRange_new (start end_ : Z) : spool_result SpoolBatchRange :=
  if start >=? end_ then Err (EInvariant "spool batch range must be non-empty and ordered")
  else Ok {| range_start := start; range_end := end_ |}.

Record RecoveredBatch := {
  rb_metadata : BatchMetadata;
  rb_body : bytes;
  rb_body_digest : bytes;
  rb_range : SpoolBatchRange;
}.

Record DurableAppend := {
  da_metadata : BatchMetadata;
  da_body_bytes : Z;
  da_body_digest : bytes;
  da_range : SpoolBatchRange;
}.

Record SpoolUsage := {
  capacity_bytes : Z;
  usage_committed_bytes : Z;
  usage_reserved_bytes : Z;
  available_bytes : Z;
}.

Definition SpoolUsage_new (capacity committed reserved : Z) : spool_result SpoolUsage :=
  occupied ← ok_or (checked_add U64 committed reserved) (EInvariant "spool usage overflow");
  Ok {| capacity_bytes := capacity; usage_committed_bytes := committed;
        usage_reserved_bytes := reserved; available_bytes := saturating_sub capacity occupied |}.

Inductive MaximumBatchAdmission := Available | CapacityExhaustedAdmission.

(** ** Frames (frame.rs) *)

Definition FRAME_MAGIC : bytes := ascii_bytes "ELUCSP01".
Definition COMMIT_MAGIC : bytes := ascii_bytes "ELUCCM01".
Definition FORMAT_VERSION : Z := 1.
Definition HEADER_BYTES : nat := 148.
Definition FOOTER_BYTES : nat := 48.
Definition FRAME_OVERHEAD_BYTES : Z := 196.

Definition can_reserve (capacity body_limit : Z) : bool :=
  match checked_add U64 body_limit FRAME_OVERHEAD_BYTES with
  | Some required_bytes => required_bytes <=? capacity
  | None => false
  end.

Record PreparedFrame := {
  pf_header : bytes;
  pf_footer : bytes;
  pf_body_bytes : Z;
  pf_body_digest : bytes;
  pf_stored_bytes : Z;
}.

Record DecodedHeader := {
  dh_raw : bytes;
  dh_metadata : BatchMetadata;
  dh_body_bytes : Z;
  dh_body_digest : bytes;
  dh_stored_bytes : Z;
}.

Section Frames.
Context `{SpoolEnv}.

(** The fields of a header in order. *)
Definition header_fields (metadata : BatchMetadata) (stored_length body_length : Z) (body_digest : bytes)
    : list bytes :=
  [ FRAME_MAGIC; be_bytes 2 FORMAT_VERSION; be_bytes 2 (Z.of_nat HEADER_BYTES);
    be_bytes 8 stored_length; be_bytes 8 body_length; be_bytes 16 (batch_id metadata);
    be_bytes 16 (source_id (catalog metadata)); be_bytes 16 (input_id (catalog metadata));
    be_bytes 16 (profile_revision_id (catalog metadata));
    be_bytes 16 (target_schema_id (catalog metadata));
    be_bytes 8 (ingestion_time metadata); body_digest ].

Definition PreparedFrame_new (metadata : BatchMetadata) (body : bytes) : spool_result PreparedFrame :=
  body_length ← ok_or (narrow U64 (Z.of_nat (length body)))
                  (EInvariant "batch body length exceeds u64");
  stored_length ← ok_or (checked_add U64 body_length FRAME_OVERHEAD_BYTES)
                    (EInvariant "spool frame length overflow");
  let body_digest := blake3 body in
  let header := concat (header_fields metadata stored_length body_length body_digest) in
  _ ← check (length header =? HEADER_BYTES)%nat (EInvariant "spool frame header size mismatch");
  let frame_digest := blake3 (header ++ body) in
  let footer := frame_digest ++ COMMIT_MAGIC ++ be_bytes 8 stored_length in
  _ ← check (length footer =? FOOTER_BYTES)%nat (EInvariant "spool frame footer size mismatch");
  Ok {| pf_header := header; pf_footer := footer; pf_body_bytes := body_length;
        pf_body_digest := body_digest; pf_stored_bytes := stored_length |}.

Definition read_array (size : nat) (b : bytes) (offset : nat) : spool_result bytes :=
  if (offset + size <=? length b)%nat then Ok (slice offset size b)
  else Err (EInvariant "fixed-size spool field is truncated").

Definition read_uuid (b : bytes) (offset : nat) : spool_result Z := be_value <$> read_array 16 b offset.
Definition read_u16 (b : bytes) (offset : nat) : spool_result Z := be_value <$> read_array 2 b offset.
Definition read_u64 (b : bytes) (offset : nat) : spool_result Z := be_value <$> read_array 8 b offset.
Definition read_i64 (b : bytes) (offset : nat) : spool_result Z := be_signed <$> read_array 8 b offset.

Definition validate_lengths (stored_bytes body_bytes body_limit : Z) : spool_result unit :=
  _ ← check (negb (body_bytes >? body_limit))
        (ECorrupt "spool frame body exceeds the configured recovery bound");
  expected_stored_bytes ← ok_or (checked_add U64 body_bytes FRAME_OVERHEAD_BYTES)
                            (ECorrupt "spool frame length overflows u64");
  check (stored_bytes =? expected_stored_bytes) (ECorrupt "spool frame lengths are inconsistent").

(** [Id::try_from(uuid).map_err(...)] *)
Definition try_uuid (uuid : Z) (message : string) : spool_result Z :=
  ok_or (UuidV7.new uuid) (ECorrupt message).

Definition try_time (value : Z) (message : string) : spool_result Z :=
  map_err (λ _, ECorrupt message) (IngestionTime_from_unix_milliseconds value).

Definition decode_header (raw : bytes) (body_limit : Z) : spool_result DecodedHeader :=
  _ ← check (bool_decide (take 8 raw = FRAME_MAGIC)) (ECorrupt "spool frame magic is invalid");
  version ← read_u16 raw 8;
  _ ← check (version =? FORMAT_VERSION) (ECorrupt "spool frame version is unsupported");
  header_length ← read_u16 raw 10;
  _ ← check (header_length =? Z.of_nat HEADER_BYTES) (ECorrupt "spool frame header length is invalid");
  stored_bytes ← read_u64 raw 12;
  body_length ← read_u64 raw 20;
  _ ← validate_lengths stored_bytes body_length body_limit;
  batch ← read_uuid raw 28 ≫= λ u, try_uuid u "spool batch identity is not UUIDv7";
  source ← read_uuid raw 44 ≫= λ u, try_uuid u "spool source identity is not UUIDv7";
  input ← read_uuid raw 60 ≫= λ u, try_uuid u "spool input identity is not UUIDv7";
  profile ← read_uuid raw 76 ≫= λ u, try_uuid u "spool profile identity is not UUIDv7";
  schema ← read_uuid raw 92 ≫= λ u, try_uuid u "spool schema identity is not UUIDv7";
  time ← read_i64 raw 108 ≫= λ t, try_time t "spool ingestion time is outside the UTC range";
  body_digest ← read_array 32 raw 116;
  Ok {| dh_raw := raw;
        dh_metadata :=
          {| batch_id := batch;
             catalog := {| source_id := source; input_id := input; profile_revision_id := profile;
                           target_schema_id := schema |};
             ingestion_time := time |};
        dh_body_bytes := body_length; dh_body_digest := body_digest; dh_stored_bytes := stored_bytes |}.

(** [if prefix.len() >= n { ... }] *)
Definition when_length (n : nat) (prefix : bytes) (m : spool_result unit) : spool_result unit :=
  if (n <=? length prefix)%nat then m else Ok tt.

Definition validate_incomplete_header (prefix : bytes) (body_limit : Z) : spool_result unit :=
  let magic_bytes := Nat.min (length prefix) (length FRAME_MAGIC) in
  _ ← check (bool_decide (take magic_bytes prefix = take magic_bytes FRAME_MAGIC))
        (ECorrupt "incomplete spool tail is not a frame prefix");
  _ ← when_length 10 prefix
        (version ← read_u16 prefix 8;
         check (version =? FORMAT_VERSION) (ECorrupt "incomplete spool tail has an unsupported version"));
  _ ← when_length 12 prefix
        (header_length ← read_u16 prefix 10;
         check (header_length =? Z.of_nat HEADER_BYTES) (ECorrupt "incomplete spool tail has invalid framing"));
  _ ← when_length 28 prefix
        (stored_bytes ← read_u64 prefix 12; body_length ← read_u64 prefix 20;
         validate_lengths stored_bytes body_length body_limit);
  _ ← when_length 44 prefix
        (u ← read_uuid prefix 28; _ ← try_uuid u "incomplete tail batch identity is not UUIDv7"; Ok tt);
  _ ← when_length 60 prefix
        (u ← read_uuid prefix 44; _ ← try_uuid u "incomplete tail source identity is not UUIDv7"; Ok tt);
  _ ← when_length 76 prefix
        (u ← read_uuid prefix 60; _ ← try_uuid u "incomplete tail input identity is not UUIDv7"; Ok tt);
  _ ← when_length 92 prefix
        (u ← read_uuid prefix 76; _ ← try_uuid u "incomplete tail profile identity is not UUIDv7"; Ok tt);
  _ ← when_length 108 prefix
        (u ← read_uuid prefix 92; _ ← try_uuid u "incomplete tail schema identity is not UUIDv7"; Ok tt);
  when_length 116 prefix
    (t ← read_i64 prefix 108;
     _ ← try_time t "incomplete tail ingestion time is outside the UTC range"; Ok tt).

Definition validate_digests_and_footer (header : DecodedHeader)
    (calculated_body_digest calculated_frame_digest footer : bytes) : spool_result unit :=
  _ ← check (bool_decide (dh_body_digest header = calculated_body_digest))
        (ECorrupt "spool body digest does not match");
  _ ← check (bool_decide (take 32 footer = calculated_frame_digest))
        (ECorrupt "spool frame digest does not match");
  _ ← check (bool_decide (slice 32 8 footer = COMMIT_MAGIC)) (ECorrupt "spool commit footer is invalid");
  stored ← read_u64 footer 40;
  check (stored =? dh_stored_bytes header) (ECorrupt "spool footer length does not match").

Definition reserved_frame_bytes (limit : Z) : spool_result Z :=
  ok_or (checked_add U64 limit FRAME_OVERHEAD_BYTES) (EInvariant "spool reservation size overflow").

(** ** Checkpoints (checkpoint.rs) *)

Definition CHECKPOINT_MAGIC : bytes := ascii_bytes "ELUCKP01".
Definition CHECKPOINT_VERSION : Z := 1.
Definition CHECKPOINT_PREFIX_BYTES : nat := 20.
Definition CHECKPOINT_BYTES : nat := 52.

Definition encode_checkpoint (position : Z) : bytes :=
  let prefix := CHECKPOINT_MAGIC ++ be_bytes 2 CHECKPOINT_VERSION
                ++ be_bytes 2 (Z.of_nat CHECKPOINT_BYTES) ++ be_bytes 8 position in
  prefix ++ blake3 prefix.

Definition decode_checkpoint (b : bytes) : spool_result Z :=
  _ ← check (bool_decide (take 8 b = CHECKPOINT_MAGIC)) (ECorrupt "spool checkpoint magic is invalid");
  _ ← check (be_value (slice 8 2 b) =? CHECKPOINT_VERSION)
        (ECorrupt "spool checkpoint version is unsupported");
  _ ← check (be_value (slice 10 2 b) =? Z.of_nat CHECKPOINT_BYTES)
        (ECorrupt "spool checkpoint framing is invalid");
  _ ← check (bool_decide (drop CHECKPOINT_PREFIX_BYTES b = blake3 (take CHECKPOINT_PREFIX_BYTES b)))
        (ECorrupt "spool checkpoint digest does not match");
  Ok (be_value (slice 12 8 b)).

(** [load], on the contents of the file; [None] is a missing file. *)
Definition load_checkpoint (file : option bytes) : spool_result Z :=
  match file with
  | None => Err (ECorrupt "spool checkpoint is missing")
  | Some b =>
      _ ← check (length b =? CHECKPOINT_BYTES)%nat (ECorrupt "spool checkpoint length is invalid");
      decode_checkpoint b
  end.

End Frames.

(** ** Well-formed batches and their encoding *)

Section FrameTheory.
Context `{SpoolEnvLaws}.

Definition uuid_ok (u : Z) : Prop := 0 ≤ u < 2 ^ 128 ∧ UuidV7.new u = Some u.

(** What the constructors of the identities and of [IngestionTime] guarantee. *)
Record metadata_ok (m : BatchMetadata) : Prop := {
  mo_batch : uuid_ok (batch_id m);
  mo_source : uuid_ok (source_id (catalog m));
  mo_input : uuid_ok (input_id (catalog m));
  mo_profile : uuid_ok (profile_revision_id (catalog m));
  mo_schema : uuid_ok (target_schema_id (catalog m));
  mo_time : fits I64 (ingestion_time m) = true ∧ from_timestamp_millis (ingestion_time m) = true;
}.

(** A batch: its metadata and the bytes of its body. *)
Definition batch : Type := BatchMetadata * bytes.

Definition body_length (b : batch) : Z := Z.of_nat (length (snd b)).
Definition stored_length (b : batch) : Z := body_length b + FRAME_OVERHEAD_BYTES.

Definition header_of (b : batch) : bytes :=
  concat (header_fields (fst b) (stored_length b) (body_length b) (blake3 (snd b))).
Definition footer_of (b : batch) : bytes :=
  blake3 (header_of b ++ snd b) ++ COMMIT_MAGIC ++ be_bytes 8 (stored_length b).
(** The bytes that [write_frame] appends for a batch. *)
Definition frame_of (b : batch) : bytes := header_of b ++ snd b ++ footer_of b.

(** A batch that an append within [limit] can store. *)
Record batch_ok (limit : Z) (b : batch) : Prop := {
  bo_metadata : metadata_ok (fst b);
  bo_limit : body_length b ≤ limit;
  bo_stored : fits U64 (stored_length b) = true;
}.

Lemma length_header_fields m s b d :
  length (concat (header_fields m s b d)) = (116 + length d)%nat.
Proof. unfold header_fields. cbn [concat]. rewrite !length_app, !length_be_bytes. cbn. lia. Qed.

Lemma length_header_of b : length (header_of b) = HEADER_BYTES.
Proof. unfold header_of. rewrite length_header_fields, length_blake3. done. Qed.

Lemma length_footer_of b : length (footer_of b) = FOOTER_BYTES.
Proof. unfold footer_of. by rewrite !length_app, length_blake3, length_be_bytes. Qed.

Lemma length_frame_of b : Z.of_nat (length (frame_of b)) = stored_length b.
Proof.
  unfold frame_of, stored_length, body_length. rewrite !length_app, length_header_of, length_footer_of.
  unfold HEADER_BYTES, FOOTER_BYTES, FRAME_OVERHEAD_BYTES. lia.
Qed.

Lemma fits_body limit b : batch_ok limit b → fits U64 (body_length b) = true.
Proof.
  intros [_ _ H1]. unfold stored_length in H1. apply fits_spec in H1. apply fits_spec.
  unfold body_length, FRAME_OVERHEAD_BYTES in *. int_lia.
Qed.

Lemma PreparedFrame_new_Ok m body :
  fits U64 (stored_length (m, body)) = true →
  PreparedFrame_new m body =
  Ok {| pf_header := header_of (m, body); pf_footer := footer_of (m, body);
        pf_body_bytes := body_length (m, body); pf_body_digest := blake3 body;
        pf_stored_bytes := stored_length (m, body) |}.
Proof.
  intros Hf. pose proof Hf as Hs. apply fits_spec in Hs.
  unfold stored_length, body_length, FRAME_OVERHEAD_BYTES in *. cbn [snd] in *.
  unfold PreparedFrame_new, checked_add.
  rewrite (narrow_ok U64 (Z.of_nat (length body))) by int_lia. cbn [ok_or mbind result_bind].
  unfold narrow, FRAME_OVERHEAD_BYTES. rewrite Hf. cbn [ok_or mbind result_bind].
  rewrite length_header_fields, length_blake3. cbn [check Nat.eqb Nat.add HEADER_BYTES mbind result_bind].
  rewrite !length_app, length_blake3, length_be_bytes. done.
Qed.

(** ** Reading fields *)

Lemma read_array_nth i (fields : list bytes) f n off :
  fields !! i = Some f → length f = n → length (concat (take i fields)) = off →
  read_array n (concat fields) off = Ok f.
Proof.
  intros Hi <- <-. unfold read_array.
  assert (E : concat fields = concat (take i fields ++ f :: drop (S i) fields))
    by (by rewrite take_drop_middle).
  rewrite E, slice_concat. rewrite concat_app, !length_app. simpl. rewrite length_app.
  destruct (Nat.leb_spec (length (concat (take i fields)) + length f)
    (length (concat (take i fields)) + (length f + length (concat (drop (S i) fields))))); [done | lia].
Qed.

Lemma read_array_prefix n b off k :
  (off + n ≤ k)%nat → (k ≤ length b)%nat → read_array n (take k b) off = read_array n b off.
Proof.
  intros H1 H2. unfold read_array. rewrite length_take, Nat.min_l by lia.
  destruct (Nat.leb_spec (off + n) k); [|lia]. destruct (Nat.leb_spec (off + n) (length b)); [|lia].
  f_equal. unfold slice. rewrite <- (take_drop k b) at 2. rewrite drop_app_le by (rewrite length_take; lia).
  rewrite take_app_le; [done|]. rewrite length_drop, length_take. lia.
Qed.

Lemma read_array_Ok n b off x :
  read_array n b off = Ok x ↔ (off + n ≤ length b)%nat ∧ x = slice off n b.
Proof.
  unfold read_array. destruct (Nat.leb_spec (off + n) (length b)).
  - split; [intros [= <-]; done | by intros [_ ->]].
  - split; [done | lia].
Qed.

Lemma uuid_new_Some u v : UuidV7.new u = Some v ↔ v = u ∧ UuidV7.new u = Some u.
Proof. unfold UuidV7.new. destruct (_ && _); naive_solver. Qed.

Lemma be_bytes_slice off n b :
  (off + n ≤ length b)%nat → be_bytes n (be_value (slice off n b)) = slice off n b.
Proof. intros Hn. rewrite <- (length_slice off n b Hn) at 1. apply be_bytes_value. Qed.

Lemma be_bytes_signed_slice off b :
  (off + 8 ≤ length b)%nat → be_bytes 8 (be_signed (slice off 8 b)) = slice off 8 b.
Proof. intros Hn. apply be_signed_bytes, length_slice, Hn. Qed.

Lemma slice_uuid_ok off b u :
  (off + 16 ≤ length b)%nat → UuidV7.new (be_value (slice off 16 b)) = Some u →
  u = be_value (slice off 16 b) ∧ uuid_ok u.
Proof.
  intros Hn [-> Hu]%uuid_new_Some. split; [done|]. split; [|done].
  pose proof (be_value_bounds (slice off 16 b)) as Hb. rewrite length_slice in Hb by done.
  change (256 ^ Z.of_nat 16) with (2 ^ 128) in Hb. exact Hb.
Qed.

Definition header_sizes : list nat := [8; 2; 2; 8; 8; 16; 16; 16; 16; 16; 8; 32]%nat.

(** A header that decodes is the encoding of what it decodes to. *)
Lemma decode_header_sound raw limit h :
  length raw = HEADER_BYTES → decode_header raw limit = Ok h →
  dh_raw h = raw ∧ metadata_ok (dh_metadata h) ∧ 0 ≤ dh_body_bytes h ≤ limit ∧
  dh_stored_bytes h = dh_body_bytes h + FRAME_OVERHEAD_BYTES ∧ fits U64 (dh_stored_bytes h) = true ∧
  length (dh_body_digest h) = 32%nat ∧
  raw = concat (header_fields (dh_metadata h) (dh_stored_bytes h) (dh_body_bytes h) (dh_body_digest h)).
Proof.
  intros Hlen Hd. unfold decode_header, read_u16, read_u64, read_uuid, read_i64, validate_lengths,
    try_uuid, try_time, IngestionTime_from_unix_milliseconds in Hd.
  inv_ok.
  repeat match goal with
  | Hr : read_array _ _ _ = Ok _ |- _ => apply read_array_Ok in Hr as [? ->]
  | Hb : bool_decide _ = true |- _ => apply bool_decide_eq_true in Hb
  | Hz : (_ =? _) = true |- _ => apply Z.eqb_eq in Hz
  | Hu : UuidV7.new _ = Some _ |- _ => apply slice_uuid_ok in Hu as [-> Hu]; [|done]
  | Ht : (if from_timestamp_millis ?v then _ else _) = Ok _ |- _ =>
      destruct (from_timestamp_millis v) eqn:?; [injection Ht as <-|done]
  end.
  unfold checked_add in *.
  match goal with Hs : narrow _ _ = Some _ |- _ =>
    pose proof (narrow_fits _ _ _ Hs); apply narrow_Some in Hs as [-> _] end.
  pose proof (be_value_bounds (slice 20 8 raw)) as Hbody.
  rewrite Z.gtb_ltb in *.
  match goal with Hg : (limit <? _) = false |- _ => apply Z.ltb_ge in Hg end.
  split_and!; cbn [dh_raw dh_metadata dh_body_bytes dh_stored_bytes dh_body_digest]; try done.
  - constructor; try done. split; [|done]. apply be_signed_bytes. by rewrite length_slice.
  - lia.
  - congruence.
  - by rewrite length_slice.
  - rewrite <- (drop_0 raw) at 1. rewrite <- (concat_chop 0 header_sizes raw) by done.
    unfold header_fields, header_sizes. cbn [chop concat Nat.add batch_id catalog source_id input_id
      profile_revision_id target_schema_id ingestion_time].
    rewrite !be_bytes_slice, be_bytes_signed_slice by done.
    repeat match goal with Hv : be_value (slice _ ?n raw) = ?v |- _ =>
      apply (f_equal (be_bytes n)) in Hv; rewrite be_bytes_slice in Hv by done; rewrite <- Hv end.
    unfold slice at 1. rewrite drop_0. congruence.
Qed.

Lemma decode_header_complete raw limit m stored body digest :
  metadata_ok m → 0 ≤ body ≤ limit → stored = body + FRAME_OVERHEAD_BYTES → fits U64 stored = true →
  length digest = 32%nat → raw = concat (header_fields m stored body digest) →
  decode_header raw limit =
  Ok {| dh_raw := raw; dh_metadata := m; dh_body_bytes := body; dh_body_digest := digest;
        dh_stored_bytes := stored |}.
Proof.
  intros [Hb Hs Hi Hp Ht [Htime Hutc]] Hbody Hst Hfit Hdig Hraw.
  pose proof Hfit as Hf. apply fits_spec in Hf. cbn [int_min int_max] in Hf.
  assert (Hfield : ∀ i n z off,
    header_fields m stored body digest !! i = Some (be_bytes n z) →
    length (concat (take i (header_fields m stored body digest))) = off →
    read_array n raw off = Ok (be_bytes n z)).
  { intros i n z off Hfi Ho. subst raw. by apply (read_array_nth i); [|apply length_be_bytes|]. }
  assert (Hmagic : take 8 raw = FRAME_MAGIC) by (by subst raw).
  assert (Hdigest : read_array 32 raw 116 = Ok digest)
    by (subst raw; by apply (read_array_nth 11)).
  unfold decode_header, read_u16, read_u64, read_uuid, read_i64, validate_lengths, try_uuid, try_time,
    IngestionTime_from_unix_milliseconds.
  rewrite Hmagic, bool_decide_true by done. cbn [check mbind result_bind].
  rewrite (Hfield 1%nat 2%nat FORMAT_VERSION 8%nat), (Hfield 2%nat 2%nat (Z.of_nat HEADER_BYTES) 10%nat) by done.
  rewrite (Hfield 3%nat 8%nat stored 12%nat), (Hfield 4%nat 8%nat body 20%nat) by done.
  rewrite (Hfield 5%nat 16%nat (batch_id m) 28%nat), (Hfield 6%nat 16%nat (source_id (catalog m)) 44%nat),
    (Hfield 7%nat 16%nat (input_id (catalog m)) 60%nat), (Hfield 8%nat 16%nat (profile_revision_id (catalog m)) 76%nat),
    (Hfield 9%nat 16%nat (target_schema_id (catalog m)) 92%nat), (Hfield 10%nat 8%nat (ingestion_time m) 108%nat), Hdigest by done.
  cbn [fmap result_fmap mbind result_bind].
  destruct Hb as [Hb1 Hb2], Hs as [Hs1 Hs2], Hi as [Hi1 Hi2], Hp as [Hp1 Hp2], Ht as [Ht1 Ht2].
  rewrite !be_value_exact, be_signed_exact by (first [done | unfold FORMAT_VERSION, HEADER_BYTES, FRAME_OVERHEAD_BYTES in *;
    simpl Z.of_nat; lia]).
  rewrite !Z.eqb_refl, Z.gtb_ltb. cbn [check mbind result_bind].
  destruct (Z.ltb_spec limit body); [lia|]. cbn [negb check mbind result_bind].
  unfold checked_add, narrow. rewrite <- Hst, Hfit. cbn [ok_or mbind result_bind].
  rewrite Z.eqb_refl, Hb2, Hs2, Hi2, Hp2, Ht2, Hutc. cbn [check ok_or mbind result_bind map_err].
  by destruct m as [? [] ?].
Qed.

Definition decoded (b : batch) : DecodedHeader :=
  {| dh_raw := header_of b; dh_metadata := fst b; dh_body_bytes := body_length b;
     dh_body_digest := blake3 (snd b); dh_stored_bytes := stored_length b |}.

Lemma decode_header_of limit b : batch_ok limit b → decode_header (header_of b) limit = Ok (decoded b).
Proof.
  intros [Hm Hl Hs].
  apply decode_header_complete; [done | unfold body_length in *; lia | done | done | apply length_blake3 | done].
Qed.

Lemma validate_footer_of b :
  fits U64 (stored_length b) = true →
  validate_digests_and_footer (decoded b) (blake3 (snd b)) (blake3 (header_of b ++ snd b)) (footer_of b) = Ok tt.
Proof.
  intros Hf%fits_spec. cbn [int_min int_max] in Hf. unfold validate_digests_and_footer. cbn [decoded dh_body_digest].
  assert (Hc : footer_of b = concat [blake3 (header_of b ++ snd b); COMMIT_MAGIC; be_bytes 8 (stored_length b)])
    by (unfold footer_of; cbn [concat]; by rewrite app_nil_r).
  assert (H1 : take 32 (footer_of b) = blake3 (header_of b ++ snd b)).
  { unfold footer_of. by rewrite take_app_length' by (by rewrite length_blake3). }
  assert (H2 : slice 32 8 (footer_of b) = COMMIT_MAGIC).
  { unfold slice, footer_of. rewrite drop_app_length' by (by rewrite length_blake3). done. }
  rewrite H1, H2, !bool_decide_true by done. cbn [check mbind result_bind].
  unfold read_u64. rewrite Hc, (read_array_nth 2 _ (be_bytes 8 (stored_length b)));
    [|done | apply length_be_bytes | cbn [take concat]; rewrite !length_app, length_blake3; done].
  cbn [fmap result_fmap mbind result_bind decoded dh_stored_bytes].
  rewrite be_value_exact by (change (256 ^ Z.of_nat 8) with (2 ^ 64); lia).
  by rewrite Z.eqb_refl.
Qed.

(** What the two checks accept is a frame. *)
Lemma validate_footer_sound limit raw h body footer :
  length raw = HEADER_BYTES → length footer = FOOTER_BYTES →
  decode_header raw limit = Ok h → dh_body_bytes h = Z.of_nat (length body) →
  validate_digests_and_footer h (blake3 body) (blake3 (raw ++ body)) footer = Ok tt →
  let b := (dh_metadata h, body) in
  batch_ok limit b ∧ raw = header_of b ∧ footer = footer_of b ∧ dh_stored_bytes h = stored_length b.
Proof.
  intros Hraw Hft Hd Hbody Hv b.
  apply decode_header_sound in Hd as (_ & Hm & Hlim & Hst & Hfit & Hdl & Henc); [|done].
  unfold validate_digests_and_footer, read_u64 in Hv. inv_ok.
  repeat match goal with
  | Hr : read_array _ _ _ = Ok _ |- _ => apply read_array_Ok in Hr as [? ->]
  | Hb : bool_decide _ = true |- _ => apply bool_decide_eq_true in Hb
  | Hz : (_ =? _) = true |- _ => apply Z.eqb_eq in Hz
  end.
  assert (Hs : dh_stored_bytes h = stored_length b).
  { unfold stored_length, body_length, b. simpl. lia. }
  assert (Hh : raw = header_of b).
  { rewrite Henc, Hs, Hbody. unfold header_of, b. cbn [fst snd]. by f_equal; f_equal. }
  split_and!; [constructor; cbn [fst]; [done | unfold body_length, b; simpl; lia | congruence] | done | | done].
  unfold footer_of. rewrite <- Hh. change (snd b) with body.
  match goal with Hx : take 32 footer = _ |- _ => rewrite <- Hx end.
  match goal with Hx : slice 32 8 footer = _ |- _ => rewrite <- Hx end.
  rewrite <- Hs. match goal with Hx : be_value _ = dh_stored_bytes h |- _ => rewrite <- Hx end.
  rewrite be_bytes_slice by (rewrite Hft; unfold FOOTER_BYTES; lia).
  rewrite <- (drop_0 footer) at 1. rewrite <- (concat_chop 0 [32; 8; 8]%nat footer) by done.
  cbn [chop concat Nat.add]. by rewrite app_nil_r.
Qed.

(** C7: the frame codec. Recovery accepts a header, body and footer as a
    committed batch of some metadata exactly when an append of that metadata and body
    writes that header and footer: nothing else decodes, and everything an append
    within the limit writes does. *)
Theorem frame_accepted_iff limit raw body footer m :
  length raw = HEADER_BYTES → length footer = FOOTER_BYTES →
  (∃ h, decode_header raw limit = Ok h ∧ dh_metadata h = m ∧
     dh_body_bytes h = Z.of_nat (length body) ∧
     validate_digests_and_footer h (blake3 body) (blake3 (raw ++ body)) footer = Ok tt) ↔
  batch_ok limit (m, body) ∧
  ∃ f, PreparedFrame_new m body = Ok f ∧ pf_header f = raw ∧ pf_footer f = footer.
Proof.
  intros Hraw Hft. split.
  - intros (h & Hd & <- & Hb & Hv).
    destruct (validate_footer_sound limit raw h body footer) as (Hok & Hr & Hf & _); try done.
    split; [done|]. rewrite PreparedFrame_new_Ok by apply Hok. by eexists.
  - intros [Hok (f & Hp & Hh & Hf)]. rewrite PreparedFrame_new_Ok in Hp by apply Hok.
    injection Hp as <-. cbn in Hh, Hf. subst raw footer.
    exists (decoded (m, body)). split_and!; [by apply decode_header_of | done | done |].
    apply validate_footer_of, Hok.
Qed.

(** ** Torn headers *)

Lemma read_u16_prefix b off k : (off + 2 ≤ k)%nat → (k ≤ length b)%nat → read_u16 (take k b) off = read_u16 b off.
Proof. intros ??. unfold read_u16. by rewrite read_array_prefix. Qed.
Lemma read_u64_prefix b off k : (off + 8 ≤ k)%nat → (k ≤ length b)%nat → read_u64 (take k b) off = read_u64 b off.
Proof. intros ??. unfold read_u64. by rewrite read_array_prefix. Qed.
Lemma read_uuid_prefix b off k : (off + 16 ≤ k)%nat → (k ≤ length b)%nat → read_uuid (take k b) off = read_uuid b off.
Proof. intros ??. unfold read_uuid. by rewrite read_array_prefix. Qed.
Lemma read_i64_prefix b off k : (off + 8 ≤ k)%nat → (k ≤ length b)%nat → read_i64 (take k b) off = read_i64 b off.
Proof. intros ??. unfold read_i64. by rewrite read_array_prefix. Qed.

Lemma when_length_Ok n prefix m : ((n ≤ length prefix)%nat → m = Ok tt) → when_length n prefix m = Ok tt.
Proof. intros Hm. unfold when_length. destruct (Nat.leb_spec n (length prefix)); auto. Qed.

Lemma bind_tt {A} (m : spool_result unit) (k : unit → spool_result A) r : m = Ok tt → k tt = r → (m ≫= k) = r.
Proof. by intros -> <-. Qed.

(** Any prefix of a header that decodes is accepted as incomplete. *)
Lemma incomplete_header_prefix raw limit h k :
  length raw = HEADER_BYTES → (k ≤ HEADER_BYTES)%nat → decode_header raw limit = Ok h →
  validate_incomplete_header (take k raw) limit = Ok tt.
Proof.
  intros Hlen Hk Hd. rewrite <- Hlen in Hk. unfold decode_header in Hd.
  repeat match goal with Hx : (_ ≫= _) = Ok _ |- _ =>
    apply bind_Ok in Hx; let a := fresh "v" in let Ha := fresh "Hr" in destruct Hx as (a & Ha & Hx) end.
  unfold try_uuid, try_time in *.
  repeat match goal with
  | Hx : ok_or _ _ = Ok _ |- _ => apply ok_or_Ok in Hx
  | Hx : map_err _ _ = Ok _ |- _ => apply map_err_Ok in Hx
  | u : unit |- _ => destruct u
  end.
  unfold validate_incomplete_header, try_uuid, try_time. rewrite !length_take, (Nat.min_l k) by done.
  apply bind_tt.
  { rewrite bool_decide_true; [done|]. rewrite take_take. apply check_Ok, bool_decide_eq_true in Hr.
    change (length FRAME_MAGIC) with 8%nat. rewrite <- Hr, take_take. f_equal. lia. }
  repeat first [apply bind_tt | apply when_length_Ok; rewrite length_take, Nat.min_l by done; intros Hn];
    rewrite ?read_u16_prefix, ?read_u64_prefix, ?read_uuid_prefix, ?read_i64_prefix by lia.
  all: repeat match goal with Hx : ?m = Ok _ |- context [?m] => rewrite Hx; cbn [map_err mbind result_bind] end.
  all: repeat match goal with Hx : ?m = Some _ |- context [?m] => rewrite Hx; cbn [ok_or mbind result_bind] end.
  all: repeat match goal with Hx : check _ _ = Ok _ |- _ => apply check_Ok in Hx; try rewrite Hx end.
  all: done.
Qed.

(** Every prefix of the header of a batch within the limit passes the check for
    incomplete tails. *)
Lemma torn_header limit b k :
  batch_ok limit b → (k ≤ HEADER_BYTES)%nat →
  validate_incomplete_header (take k (frame_of b)) limit = Ok tt.
Proof.
  intros Hok Hk. unfold frame_of. rewrite take_app_le by (rewrite length_header_of; lia).
  eapply incomplete_header_prefix; [apply length_header_of | lia | by apply decode_header_of].
Qed.

(** ** Checkpoints *)

Lemma length_encode_checkpoint position : length (encode_checkpoint position) = CHECKPOINT_BYTES.
Proof. unfold encode_checkpoint. rewrite length_app, length_blake3, !length_app, !length_be_bytes. done. Qed.

Lemma load_checkpoint_Ok file position :
  load_checkpoint (Some file) = Ok position ↔
  fits U64 position = true ∧ file = encode_checkpoint position.
Proof.
  unfold load_checkpoint, decode_checkpoint. split.
  - intros Hl. inv_ok.
    repeat match goal with
    | Hb : bool_decide _ = true |- _ => apply bool_decide_eq_true in Hb
    | Hz : (_ =? _) = true |- _ => apply Z.eqb_eq in Hz
    | Hz : (_ =? _)%nat = true |- _ => apply Nat.eqb_eq in Hz
    end.
    match goal with Hz : length file = _ |- _ => rename Hz into Hlen end.
    assert (Hp : take CHECKPOINT_PREFIX_BYTES file =
      CHECKPOINT_MAGIC ++ be_bytes 2 CHECKPOINT_VERSION ++ be_bytes 2 (Z.of_nat CHECKPOINT_BYTES)
      ++ be_bytes 8 (be_value (slice 12 8 file))).
    { rewrite be_bytes_slice by (rewrite Hlen; unfold CHECKPOINT_BYTES; lia).
      repeat match goal with Hv : be_value (slice _ ?n file) = ?v |- _ =>
        apply (f_equal (be_bytes n)) in Hv;
        rewrite be_bytes_slice in Hv by (rewrite Hlen; unfold CHECKPOINT_BYTES; lia); rewrite <- Hv end.
      match goal with Hm : take 8 file = _ |- _ => rewrite <- Hm end.
      rewrite <- (drop_0 (take CHECKPOINT_PREFIX_BYTES file)).
      rewrite <- (concat_chop 0 [8; 2; 2; 8]%nat) by (rewrite length_take, Hlen; done).
      cbn [chop concat Nat.add]. rewrite app_nil_r. unfold slice, CHECKPOINT_PREFIX_BYTES.
      rewrite drop_0, take_take, !skipn_firstn_comm, !take_take. done. }
    split.
    + pose proof (be_value_bounds (slice 12 8 file)) as Hv.
      rewrite length_slice in Hv by (rewrite Hlen; unfold CHECKPOINT_BYTES; lia).
      apply fits_spec. change (256 ^ Z.of_nat 8) with (2 ^ 64) in Hv. int_lia.
    + unfold encode_checkpoint. rewrite <- Hp.
      match goal with Hd : drop _ file = _ |- _ => rewrite <- Hd end. by rewrite take_drop.
  - intros [Hf ->]. rewrite length_encode_checkpoint. cbn [check Nat.eqb CHECKPOINT_BYTES mbind result_bind].
    unfold encode_checkpoint.
    set (prefix := CHECKPOINT_MAGIC ++ _).
    assert (Hl : length prefix = CHECKPOINT_PREFIX_BYTES) by (unfold prefix; by rewrite !length_app, !length_be_bytes).
    rewrite take_app_length', drop_app_length' by (by rewrite Hl).
    rewrite (bool_decide_true (blake3 prefix = blake3 prefix)) by done.
    rewrite !slice_app_l by (rewrite Hl; unfold CHECKPOINT_PREFIX_BYTES; lia).
    rewrite take_app_le by (rewrite Hl; unfold CHECKPOINT_PREFIX_BYTES; lia).
    assert (Hs : slice 12 8 prefix = be_bytes 8 position) by done. rewrite Hs.
    apply fits_spec in Hf. rewrite be_value_exact by (change (256 ^ Z.of_nat 8) with (2 ^ 64); int_lia).
    reflexivity.
Qed.

Lemma load_checkpoint_encode position :
  fits U64 position = true → load_checkpoint (Some (encode_checkpoint position)) = Ok position.
Proof. intros Hf. by apply load_checkpoint_Ok. Qed.

(** The checkpoint file. Loading succeeds with a position exactly when the
    file holds the encoding of that position, a u64. *)
Theorem load_checkpoint_iff file position :
  load_checkpoint (Some file) = Ok position ↔
  fits U64 position = true ∧ file = encode_checkpoint position.
Proof. apply load_checkpoint_Ok. Qed.

End FrameTheory.

(** ** A concrete environment and batch *)

(** A function of the right length in place of the hash, and chrono's range. *)
#[global] Instance sample_env : SpoolEnv := {
  blake3 b := be_bytes 32 (be_value b);
  from_timestamp_millis z := (-8334601228800000 <=? z) && (z <=? 8210266876799999);
}.

#[global] Instance sample_env_laws : SpoolEnvLaws.
Proof. intros b. apply length_be_bytes. Qed.

Definition sample_uuid (n : Z) : Z := Z.shiftl 7 76 + Z.shiftl 2 62 + n.

Definition sample_metadata : BatchMetadata :=
  {| batch_id := sample_uuid 1;
     catalog := {| source_id := sample_uuid 2; input_id := sample_uuid 3;
                   profile_revision_id := sample_uuid 4; target_schema_id := sample_uuid 5 |};
     ingestion_time := 1700000000000 |}.

Definition sample_batch (body : string) : batch := (sample_metadata, ascii_bytes body).

Lemma sample_uuid_ok n : 0 ≤ n < 2 ^ 16 → UuidV7.new (sample_uuid n) = Some (sample_uuid n) → uuid_ok (sample_uuid n).
Proof. intros Hn Hu. split; [|done]. unfold sample_uuid. rewrite !Z.shiftl_mul_pow2 by lia. lia. Qed.

Lemma sample_batch_ok limit body :
  Z.of_nat (length (ascii_bytes body)) ≤ limit ≤ 2 ^ 32 → batch_ok limit (sample_batch body).
Proof.
  intros Hb. constructor.
  - constructor; try (apply sample_uuid_ok; [lia | vm_compute; reflexivity]). by split; vm_compute.
  - unfold body_length. simpl. lia.
  - apply fits_spec. unfold stored_length, body_length, FRAME_OVERHEAD_BYTES. simpl snd. int_lia.
Qed.

Lemma frame_accepted_iff_witness :
  ∃ h, decode_header (header_of (sample_batch "{}")) 16 = Ok h ∧ dh_metadata h = sample_metadata ∧
    dh_body_bytes h = 2.
Proof.
  destruct (proj2 (frame_accepted_iff 16 (header_of (sample_batch "{}")) (ascii_bytes "{}")
    (footer_of (sample_batch "{}")) sample_metadata (length_header_of _) (length_footer_of _))) as (h & H1 & H2 & H3 & _).
  - split; [apply (sample_batch_ok 16 "{}"); vm_compute; split; intros [=]|].
    eexists. split; [vm_compute; reflexivity|]. split; vm_compute; reflexivity.
  - exists h. split; [exact H1 | split; [exact H2 | exact H3]].
Defined.

Lemma load_checkpoint_iff_witness : load_checkpoint (Some (encode_checkpoint 7)) = Ok 7.
Proof. apply (load_checkpoint_iff (encode_checkpoint 7) 7). split; vm_compute; reflexivity. Defined.
