(* ===== verification/Recovery.v ===== *)
(** * elucid-ingestion: recovery of the spool

    Models src/elucid/elucid-ingestion/src/recovery.rs: the scan of the data file, the
    recovered reader and its states. A file is its contents; positions and counters
    are [u64]s. The loops over frames and over chunks of a body take the length of the
    file and of the body as fuel, which every iteration decreases. *)

From S2P Require Import Prelude Core Bytes Frame.

#[local] Open Scope Z_scope.

(** ** Reading *)

(** [seek] and [read_exact]; [None] is an unexpected end of file. *)
Definition read_exact (file : bytes) (position size : Z) : option bytes :=
  if position + size <=? Z.of_nat (length file)
  then Some (slice (Z.to_nat position) (Z.to_nat size) file)
  else None.

Definition SCAN_BUFFER_BYTES : Z := 65536.

Record FrameScan := {
  committed_batches : Z;
  pending_batches : Z;
  committed_bytes : Z;
  discarded_tail_bytes : Z;
}.

(** The local variables of [scan_committed_frames]. *)
Record scan_state := {
  ss_position : Z;
  ss_committed : Z;
  ss_pending : Z;
  ss_boundary : bool;
  ss_discarded : Z;
}.

Section Recovery.
Context `{SpoolEnv}.

(** The loop that feeds a body to both hashers in chunks; the messages absorbed. *)
Fixpoint hash_body (fuel : nat) (file : bytes) (position unread : Z) (body_hasher frame_hasher : bytes)
    : spool_result (bytes * bytes) :=
  match fuel with
  | O => Ok (body_hasher, frame_hasher)
  | S fuel =>
      if unread >? 0 then
        let chunk_bytes := Z.min unread SCAN_BUFFER_BYTES in
        chunk ← ok_or (read_exact file position chunk_bytes) (EIo "read a spool frame body");
        hash_body fuel file (position + chunk_bytes) (unread - chunk_bytes)
          (body_hasher ++ chunk) (frame_hasher ++ chunk)
      else Ok (body_hasher, frame_hasher)
  end.

(** One iteration of the loop over frames: [inl] leaves the loop, [inr] continues. *)
Definition scan_frame (file : bytes) (file_bytes checkpoint body_limit : Z) (st : scan_state)
    : spool_result (scan_state + scan_state) :=
  let position := ss_position st in
  let remaining_bytes := file_bytes - position in
  let stop := {| ss_position := position; ss_committed := ss_committed st; ss_pending := ss_pending st;
                 ss_boundary := ss_boundary st; ss_discarded := remaining_bytes |} in
  if remaining_bytes <? Z.of_nat HEADER_BYTES then
    prefix ← ok_or (read_exact file position remaining_bytes) (EIo "read the incomplete spool header");
    _ ← validate_incomplete_header prefix body_limit;
    Ok (inl stop)
  else
    raw_header ← ok_or (read_exact file position (Z.of_nat HEADER_BYTES)) (EIo "read a spool frame header");
    header ← decode_header raw_header body_limit;
    frame_end ← ok_or (checked_add U64 position (dh_stored_bytes header))
                  (ECorrupt "spool frame position overflows u64");
    if frame_end >? file_bytes then Ok (inl stop)
    else
      let body_position := position + Z.of_nat HEADER_BYTES in
      let body_bytes := dh_body_bytes header in
      hashers ← hash_body (Z.to_nat body_bytes) file body_position body_bytes [] (dh_raw header);
      footer ← ok_or (read_exact file (body_position + body_bytes) (Z.of_nat FOOTER_BYTES))
                 (EIo "read a spool frame footer");
      _ ← validate_digests_and_footer header (blake3 (fst hashers)) (blake3 (snd hashers)) footer;
      committed ← ok_or (checked_add U64 (ss_committed st) 1) (ECorrupt "spool batch count overflows u64");
      pending ← (if position >=? checkpoint
                 then ok_or (checked_add U64 (ss_pending st) 1)
                        (ECorrupt "pending spool batch count overflows u64")
                 else Ok (ss_pending st));
      Ok (inr {| ss_position := frame_end; ss_committed := committed; ss_pending := pending;
                 ss_boundary := if frame_end =? checkpoint then true else ss_boundary st;
                 ss_discarded := ss_discarded st |}).

Fixpoint scan_loop (fuel : nat) (file : bytes) (file_bytes checkpoint body_limit : Z) (st : scan_state)
    : spool_result scan_state :=
  match fuel with
  | O => Ok st
  | S fuel =>
      if ss_position st <? file_bytes then
        step ← scan_frame file file_bytes checkpoint body_limit st;
        match step with
        | inl st' => Ok st'
        | inr st' => scan_loop fuel file file_bytes checkpoint body_limit st'
        end
      else Ok st
  end.

Definition scan_committed_frames (file : bytes) (checkpoint body_limit : Z) : spool_result FrameScan :=
  let file_bytes := Z.of_nat (length file) in
  st ← scan_loop (length file) file file_bytes checkpoint body_limit
         {| ss_position := 0; ss_committed := 0; ss_pending := 0;
            ss_boundary := (checkpoint =? 0); ss_discarded := 0 |};
  _ ← check (negb ((checkpoint >? ss_position st) || negb (ss_boundary st)))
        (ECorrupt "spool checkpoint is not a committed frame boundary");
  Ok {| committed_batches := ss_committed st; pending_batches := ss_pending st;
        committed_bytes := ss_position st; discarded_tail_bytes := ss_discarded st |}.

(** ** The recovered reader *)

Definition read_exact_committed (file : bytes) (position size : Z) : spool_result bytes :=
  ok_or (read_exact file position size) (ECorrupt "committed spool data changed after recovery").

Definition read_recovered_batch (file : bytes) (position end_ body_limit : Z)
    : spool_result (RecoveredBatch * Z) :=
  raw_header ← read_exact_committed file position (Z.of_nat HEADER_BYTES);
  header ← decode_header raw_header body_limit;
  next_position ← ok_or (checked_add U64 position (dh_stored_bytes header))
                    (ECorrupt "recovered spool frame position overflows u64");
  _ ← check (negb (next_position >? end_)) (ECorrupt "recovered spool frame exceeds its committed range");
  let body_bytes := dh_body_bytes header in
  body ← read_exact_committed file (position + Z.of_nat HEADER_BYTES) body_bytes;
  footer ← read_exact_committed file (position + Z.of_nat HEADER_BYTES + body_bytes) (Z.of_nat FOOTER_BYTES);
  let body_digest := blake3 body in
  let frame_digest := blake3 (dh_raw header ++ body) in
  _ ← validate_digests_and_footer header body_digest frame_digest footer;
  range ← SpoolBatchRange_new position next_position;
  Ok ({| rb_metadata := dh_metadata header; rb_body := body; rb_body_digest := dh_body_digest header;
         rb_range := range |}, next_position).

End Recovery.

Record SpoolExtent := { generation : Z; end_ : Z }.

Inductive RecoveredBatchState := ReadingRecovery | RecoveryComplete | Following | Failed.

#[export] Instance RecoveredBatchState_eq_dec : EqDecision RecoveredBatchState.
Proof. solve_decision. Defined.

Record RecoveredBatches := {
  rs_position : Z;
  rs_recovered_end : Z;
  rs_generation : Z;
  rs_body_limit : Z;
  rs_state : RecoveredBatchState;
}.

Definition set_state (r : RecoveredBatches) (s : RecoveredBatchState) : RecoveredBatches :=
  {| rs_position := rs_position r; rs_recovered_end := rs_recovered_end r;
     rs_generation := rs_generation r; rs_body_limit := rs_body_limit r; rs_state := s |}.
Definition set_position (r : RecoveredBatches) (generation position : Z) : RecoveredBatches :=
  {| rs_position := position; rs_recovered_end := rs_recovered_end r;
     rs_generation := generation; rs_body_limit := rs_body_limit r; rs_state := rs_state r |}.

Section Reader.
Context `{SpoolEnv}.

(** The part of [next_batch] after the end of the readable range is known. *)
Definition read_next (r : RecoveredBatches) (file : bytes) (end_ : Z)
    : spool_result (option RecoveredBatch) * RecoveredBatches :=
  if rs_position r =? end_ then
    (Ok None, if decide (rs_state r = ReadingRecovery) then set_state r RecoveryComplete else r)
  else
    match read_recovered_batch file (rs_position r) end_ (rs_body_limit r) with
    | Ok (batch, next_position) => (Ok (Some batch), set_position r (rs_generation r) next_position)
    | Err e => (Err e, set_state r Failed)
    end.

(** [next_batch], given the extent the receiver observes and the contents of the file. *)
Definition next_batch (r : RecoveredBatches) (extent : SpoolExtent) (file : bytes)
    : spool_result (option RecoveredBatch) * RecoveredBatches :=
  match rs_state r with
  | RecoveryComplete => (Ok None, r)
  | Failed => (Err (EInvariant "recovered spool reader is unavailable after a previous failure"), r)
  | ReadingRecovery => read_next r file (rs_recovered_end r)
  | Following =>
      let r := if negb (generation extent =? rs_generation r)
               then set_position r (generation extent) 0 else r in
      if rs_position r >? end_ extent then
        (Err (ECorrupt "live spool extent moved behind the reader without reclamation"), set_state r Failed)
      else read_next r file (end_ extent)
  end.

(** [wait_next_batch], over the extents and files the reader observes each time it
    wakes; an empty list of observations is the reader still waiting. *)
Fixpoint follow (r : RecoveredBatches) (observations : list (SpoolExtent * bytes))
    : option (spool_result RecoveredBatch) * RecoveredBatches :=
  match observations with
  | [] => (None, r)
  | (extent, file) :: observations =>
      match next_batch r extent file with
      | (Ok (Some batch), r') => (Some (Ok batch), r')
      | (Ok None, r') => follow r' observations
      | (Err e, r') => (Some (Err e), r')
      end
  end.

Definition wait_next_batch (r : RecoveredBatches) (observations : list (SpoolExtent * bytes))
    : option (spool_result RecoveredBatch) * RecoveredBatches :=
  let start_following r :=
    follow (if decide (rs_state r = RecoveryComplete) then set_state r Following else r) observations in
  match rs_state r, observations with
  | ReadingRecovery, (extent, file) :: _ =>
      match next_batch r extent file with
      | (Ok (Some batch), r') => (Some (Ok batch), r')
      | (Ok None, r') => start_following r'
      | (Err e, r') => (Some (Err e), r')
      end
  | ReadingRecovery, [] => (None, r)
  | _, _ => start_following r
  end.

End Reader.

(** The report of [recover_files] and the file after an incomplete tail is cut off. *)
Record RecoveryReport := {
  rr_checkpoint : Z;
  rr_committed_batches : Z;
  rr_pending_batches : Z;
  rr_committed_bytes : Z;
  rr_discarded_tail_bytes : Z;
  rr_maximum_batch_admission : MaximumBatchAdmission;
}.

(** [recover_files] on an existing directory: [None] is a missing file. *)
Definition recover_files `{SpoolEnv} (checkpoint_file data_file : option bytes) (capacity maximum_batch : Z)
    : spool_result (bytes * RecoveryReport) :=
  checkpoint ← load_checkpoint checkpoint_file;
  file ← ok_or data_file (ECorrupt "spool data file is missing");
  scan ← scan_committed_frames file checkpoint maximum_batch;
  let file := if discarded_tail_bytes scan >? 0 then take (Z.to_nat (committed_bytes scan)) file else file in
  required_bytes ← reserved_frame_bytes maximum_batch;
  let available_bytes := saturating_sub capacity (committed_bytes scan) in
  let admission := if required_bytes <=? available_bytes then Available else CapacityExhaustedAdmission in
  Ok (file, {| rr_checkpoint := checkpoint; rr_committed_batches := committed_batches scan;
               rr_pending_batches := pending_batches scan; rr_committed_bytes := committed_bytes scan;
               rr_discarded_tail_bytes := discarded_tail_bytes scan;
               rr_maximum_batch_admission := admission |}).
