(* ===== verification/RecoveryCorrect.v ===== *)
(** * The recovery of the spool is correct

    What the scan of the data file accepts, and what the recovered reader returns, in
    terms of the batches whose frames the file consists of. *)

From S2P Require Import Prelude Core Bytes Frame Recovery.

#[local] Open Scope Z_scope.

Section Correct.
Context `{SpoolEnvLaws}.
Context (limit : Z).

Notation size b := (Z.of_nat (length b)).

Definition frames_of (l : list batch) : bytes := concat (frame_of <$> l).

(** Position after the frames of [l]. *)
Definition offset (l : list batch) : Z := size (frames_of l).

(** A tail that recovery discards: empty, a torn header, or a whole header whose frame
    does not fit. *)
Definition incomplete (tail : bytes) : Prop :=
  tail = [] ∨
  ((length tail < HEADER_BYTES)%nat ∧ validate_incomplete_header tail limit = Ok tt) ∨
  ((HEADER_BYTES ≤ length tail)%nat ∧
   ∃ h, decode_header (take HEADER_BYTES tail) limit = Ok h ∧ size tail < dh_stored_bytes h).

Lemma frames_of_app l k : frames_of (l ++ k) = frames_of l ++ frames_of k.
Proof. unfold frames_of. by rewrite fmap_app, concat_app. Qed.

Lemma frames_of_cons b l : frames_of (b :: l) = frame_of b ++ frames_of l.
Proof. done. Qed.

Lemma stored_pos b : FRAME_OVERHEAD_BYTES ≤ stored_length b.
Proof. unfold stored_length, body_length. lia. Qed.

Lemma offset_cons b l : offset (b :: l) = stored_length b + offset l.
Proof. unfold offset. rewrite frames_of_cons, length_app, Nat2Z.inj_add. by rewrite length_frame_of. Qed.

Lemma offset_app l k : offset (l ++ k) = offset l + offset k.
Proof. unfold offset. by rewrite frames_of_app, length_app, Nat2Z.inj_add. Qed.

Lemma offset_nonneg l : 0 ≤ offset l.
Proof. unfold offset. lia. Qed.

(** ** Reading at a position *)

Lemma read_exact_app pre mid post position n :
  position = size pre → n = size mid → read_exact (pre ++ mid ++ post) position n = Some mid.
Proof.
  intros -> ->. unfold read_exact. rewrite !length_app, !Nat2Z.id.
  destruct (Z.leb_spec (size pre + size mid) (Z.of_nat (length pre + (length mid + length post)))); [|lia].
  unfold slice. by rewrite drop_app_length, take_app_length.
Qed.

Lemma read_exact_Some file position n b :
  0 ≤ position → 0 ≤ n → read_exact file position n = Some b ↔
  ∃ pre post, file = pre ++ b ++ post ∧ position = size pre ∧ n = size b.
Proof.
  intros Hp Hn. split.
  - unfold read_exact. destruct (Z.leb_spec (position + n) (size file)) as [Hle|]; [|done]. intros [= <-].
    exists (take (Z.to_nat position) file), (drop (Z.to_nat n) (drop (Z.to_nat position) file)).
    unfold slice. rewrite take_drop, take_drop, !length_take, length_drop. split_and!; [done | lia | lia].
  - intros (pre & post & -> & -> & ->). by apply read_exact_app.
Qed.

Lemma hash_body_app fuel pre mid post position bh fh :
  position = size pre → size mid ≤ Z.of_nat fuel →
  hash_body fuel (pre ++ mid ++ post) position (size mid) bh fh = Ok (bh ++ mid, fh ++ mid).
Proof.
  revert pre mid position bh fh. induction fuel as [|fuel IH]; intros pre mid position bh fh Hp Hf.
  - destruct mid; [|simpl in *; lia]. cbn. by rewrite !app_nil_r.
  - cbn [hash_body]. rewrite Z.gtb_ltb. destruct (Z.ltb_spec 0 (size mid)) as [Hpos|Hz].
    2:{ destruct mid; [|simpl in *; lia]. by rewrite !app_nil_r. }
    set (c := Z.min (size mid) SCAN_BUFFER_BYTES).
    assert (Hc : 0 < c ≤ size mid) by (unfold c, SCAN_BUFFER_BYTES; lia).
    assert (Hl : size (take (Z.to_nat c) mid) = c) by (rewrite length_take; lia).
    assert (Hfile : pre ++ mid ++ post = pre ++ take (Z.to_nat c) mid ++ drop (Z.to_nat c) mid ++ post)
      by (by rewrite (app_assoc (take _ _)), take_drop).
    rewrite Hfile, read_exact_app by done. cbn [ok_or mbind result_bind].
    rewrite (app_assoc pre).
    replace (size mid - c) with (size (drop (Z.to_nat c) mid)) by (rewrite length_drop; lia).
    rewrite IH.
    + by rewrite <- !app_assoc, take_drop.
    + rewrite length_app. lia.
    + rewrite length_drop. lia.
Qed.

(** ** One frame *)

(** The effect of a whole frame, and of the end of the loop, on the scan. *)
Definition advance (checkpoint : Z) (st : scan_state) (b : batch) : scan_state :=
  {| ss_position := ss_position st + stored_length b; ss_committed := ss_committed st + 1;
     ss_pending := if ss_position st >=? checkpoint then ss_pending st + 1 else ss_pending st;
     ss_boundary := if ss_position st + stored_length b =? checkpoint then true else ss_boundary st;
     ss_discarded := ss_discarded st |}.

Definition stopped (st : scan_state) (tail : bytes) : scan_state :=
  {| ss_position := ss_position st; ss_committed := ss_committed st; ss_pending := ss_pending st;
     ss_boundary := ss_boundary st; ss_discarded := size tail |}.

Definition counters_ok (st : scan_state) : Prop :=
  0 ≤ ss_pending st ≤ ss_committed st ∧ ss_committed st ≤ ss_position st.

(** The file stays within the range of positions while one more frame is appended. *)
Definition file_ok (file : bytes) : Prop := 0 ≤ limit ∧ size file + limit + FRAME_OVERHEAD_BYTES ≤ int_max U64.

Lemma advance_counters cp st b : counters_ok st → counters_ok (advance cp st b).
Proof.
  unfold counters_ok, advance. cbn. pose proof (stored_pos b) as Hs. unfold FRAME_OVERHEAD_BYTES in Hs.
  destruct (ss_position st >=? cp); lia.
Qed.

Lemma checked_add_ok a b : 0 ≤ a + b ≤ int_max U64 → checked_add U64 a b = Some (a + b).
Proof. intros Hab. unfold checked_add. apply narrow_ok. int_lia. Qed.

Lemma header_read pre rest raw post position :
  position = size pre → length raw = HEADER_BYTES → rest = raw ++ post →
  read_exact (pre ++ rest) position (Z.of_nat HEADER_BYTES) = Some raw.
Proof. intros Hp Hr ->. apply read_exact_app; [done | by rewrite Hr]. Qed.

Lemma scan_frame_whole pre b post cp st :
  ss_position st = size pre → counters_ok st → batch_ok limit b → file_ok (pre ++ frame_of b ++ post) →
  scan_frame (pre ++ frame_of b ++ post) (size (pre ++ frame_of b ++ post)) cp limit st
  = Ok (inr (advance cp st b)).
Proof.
  intros Hp (Hc1 & Hc2) Hb [Hlim Hf]. unfold scan_frame.
  pose proof (length_frame_of b) as Hlen. pose proof (stored_pos b) as Hst. unfold FRAME_OVERHEAD_BYTES in *.
  rewrite !length_app, !Nat2Z.inj_add in *. rewrite Hlen in *.
  destruct (Z.ltb_spec (size pre + (stored_length b + size post) - ss_position st) (Z.of_nat HEADER_BYTES));
    [unfold HEADER_BYTES in *; lia|].
  rewrite (header_read pre (frame_of b ++ post) (header_of b) ((snd b ++ footer_of b) ++ post));
    [|done | apply length_header_of | unfold frame_of; by rewrite <- !app_assoc].
  cbn [ok_or mbind result_bind]. rewrite decode_header_of by done.
  cbn [mbind result_bind decoded dh_stored_bytes dh_body_bytes dh_raw].
  rewrite (checked_add_ok (ss_position st)) by lia. cbn [ok_or mbind result_bind]. rewrite Z.gtb_ltb.
  destruct (Z.ltb_spec (size pre + (stored_length b + size post)) (ss_position st + stored_length b)); [lia|].
  unfold frame_of. rewrite <- !app_assoc, (app_assoc pre (header_of b)).
  unfold body_length. rewrite hash_body_app;
    [|rewrite length_app, length_header_of; lia | lia].
  cbn [mbind result_bind fst snd app]. rewrite (app_assoc (pre ++ header_of b)), read_exact_app;
    [|rewrite !length_app, length_header_of; lia | by rewrite length_footer_of].
  cbn [ok_or mbind result_bind]. rewrite validate_footer_of by apply Hb. cbn [mbind result_bind].
  rewrite checked_add_ok by lia. cbn [ok_or mbind result_bind].
  unfold advance. rewrite checked_add_ok by lia.
  by destruct (ss_position st >=? cp).
Qed.

Lemma scan_frame_torn pre tail cp st :
  ss_position st = size pre → tail ≠ [] → incomplete tail → file_ok (pre ++ tail) →
  scan_frame (pre ++ tail) (size (pre ++ tail)) cp limit st = Ok (inl (stopped st tail)).
Proof.
  intros Hp Hne Hi [Hlim Hf]. unfold scan_frame.
  rewrite length_app, Nat2Z.inj_add in *.
  replace (size pre + size tail - ss_position st) with (size tail) by lia.
  destruct Hi as [->|[[Hs Hv]|(Hs & h & Hd & Hlt)]]; [done| |].
  - destruct (Z.ltb_spec (size tail) (Z.of_nat HEADER_BYTES)); [|lia].
    rewrite <- (app_nil_r tail) at 1. rewrite read_exact_app by done. cbn [ok_or mbind result_bind].
    by rewrite Hv.
  - destruct (Z.ltb_spec (size tail) (Z.of_nat HEADER_BYTES)); [lia|].
    rewrite (header_read pre tail (take HEADER_BYTES tail) (drop HEADER_BYTES tail));
      [|done | rewrite length_take; lia | by rewrite take_drop].
    cbn [ok_or mbind result_bind]. rewrite Hd. cbn [mbind result_bind].
    apply decode_header_sound in Hd as (_ & _ & Hb & Hst & _); [|rewrite length_take; lia].
    rewrite (checked_add_ok (ss_position st)) by (unfold FRAME_OVERHEAD_BYTES in *; lia). cbn [ok_or mbind result_bind].
    rewrite Z.gtb_ltb. destruct (Z.ltb_spec (size pre + size tail) (ss_position st + dh_stored_bytes h)); [done | lia].
Qed.

(** Conversely, what the scan of one frame accepts. *)
Lemma split_rest (rest : bytes) n :
  0 ≤ n → n + FRAME_OVERHEAD_BYTES ≤ size rest →
  ∃ raw body footer post, rest = raw ++ body ++ footer ++ post ∧
    length raw = HEADER_BYTES ∧ size body = n ∧ length footer = FOOTER_BYTES.
Proof.
  intros Hn Hr. unfold FRAME_OVERHEAD_BYTES in Hr.
  exists (take HEADER_BYTES rest), (take (Z.to_nat n) (drop HEADER_BYTES rest)),
    (take FOOTER_BYTES (drop (Z.to_nat n) (drop HEADER_BYTES rest))),
    (drop FOOTER_BYTES (drop (Z.to_nat n) (drop HEADER_BYTES rest))).
  unfold HEADER_BYTES, FOOTER_BYTES.
  rewrite !take_drop, !length_take, !length_drop. split_and!; [done | lia..].
Qed.

Lemma scan_frame_sound pre rest cp st r :
  ss_position st = size pre → rest ≠ [] →
  scan_frame (pre ++ rest) (size (pre ++ rest)) cp limit st = Ok r →
  (incomplete rest ∧ r = inl (stopped st rest)) ∨
  ∃ b post, rest = frame_of b ++ post ∧ batch_ok limit b ∧ r = inr (advance cp st b).
Proof.
  intros Hp Hne. unfold scan_frame.
  rewrite length_app, Nat2Z.inj_add.
  replace (size pre + size rest - ss_position st) with (size rest) by lia.
  destruct (Z.ltb_spec (size rest) (Z.of_nat HEADER_BYTES)) as [Hs|Hs].
  - rewrite <- (app_nil_r rest) at 1. rewrite read_exact_app by done. cbn [ok_or mbind result_bind].
    intros ([] & Hv & [= <-])%bind_Ok. left. split; [|done]. right; left. split; [lia | done].
  - rewrite (header_read pre rest (take HEADER_BYTES rest) (drop HEADER_BYTES rest));
      [|done | rewrite length_take; lia | by rewrite take_drop].
    cbn [ok_or mbind result_bind]. intros (h & Hd & Hr)%bind_Ok.
    apply bind_Ok in Hr as (fe & Hfe%ok_or_Ok & Hr). unfold checked_add in Hfe. apply narrow_Some in Hfe as [-> Hfe].
    rewrite Z.gtb_ltb in Hr.
    pose proof Hd as Hd'. apply decode_header_sound in Hd' as (Hraw & _ & Hb & Hst & _); [|rewrite length_take; lia].
    destruct (Z.ltb_spec (size pre + size rest) (ss_position st + dh_stored_bytes h)) as [Hlt|Hge].
    { injection Hr as <-. left. split; [|done]. right; right. split; [lia|]. exists h. split; [done | lia]. }
    right. destruct (split_rest rest (dh_body_bytes h)) as (raw & body & footer & post & Hrest & H1 & H2 & H3);
      [lia | lia |].
    assert (Hraw' : take HEADER_BYTES rest = raw) by (rewrite Hrest; by apply take_app_length').
    rewrite Hraw' in Hd, Hraw. rewrite Hrest in Hr.
    rewrite (app_assoc pre raw), <- H2, hash_body_app in Hr by (rewrite ?length_app; lia).
    cbn [mbind result_bind fst snd app] in Hr.
    rewrite (app_assoc (pre ++ raw)), read_exact_app in Hr;
      [|rewrite !length_app; lia | by rewrite H3].
    cbn [ok_or mbind result_bind] in Hr. apply bind_Ok in Hr as ([] & Hv & Hr). rewrite Hraw in Hv.
    destruct (validate_footer_sound limit raw h body footer) as (Hok & Hh & Hft & Hsb); try done.
    exists (dh_metadata h, body), post. split_and!; [|done|].
    + unfold frame_of. rewrite <- Hh, <- Hft. cbn [snd]. by rewrite <- !app_assoc.
    + apply bind_Ok in Hr as (c & Hc%ok_or_Ok & Hr). unfold checked_add in Hc. apply narrow_Some in Hc as [-> _].
      apply bind_Ok in Hr as (pd & Hpd & [= <-]). unfold advance. rewrite <- Hsb. f_equal. f_equal.
      destruct (ss_position st >=? cp); [|by injection Hpd].
      apply ok_or_Ok in Hpd. unfold checked_add in Hpd. by apply narrow_Some in Hpd as [-> _].
Qed.

(** ** The whole file *)

Lemma stopped_nil st : ss_discarded st = 0 → stopped st [] = st.
Proof. destruct st; simpl; by intros ->. Qed.

Lemma scan_loop_sound fuel pre rest cp st st' :
  ss_position st = size pre → ss_discarded st = 0 → (length rest ≤ fuel)%nat →
  scan_loop fuel (pre ++ rest) (size (pre ++ rest)) cp limit st = Ok st' →
  ∃ l tail, rest = frames_of l ++ tail ∧ Forall (batch_ok limit) l ∧ incomplete tail ∧
    st' = stopped (foldl (advance cp) st l) tail.
Proof.
  assert (Hnil : ∀ st, ss_discarded st = 0 → ∃ l tail, [] = frames_of l ++ tail ∧ Forall (batch_ok limit) l ∧
    incomplete tail ∧ st = stopped (foldl (advance cp) st l) tail).
  { intros st0 H0'. exists [], []. split_and!; [done | done | by left | by rewrite stopped_nil]. }
  revert pre rest st. induction fuel as [|fuel IH]; intros pre rest st Hp Hd Hf E.
  - destruct rest; [|simpl in *; lia]. injection E as <-. by apply Hnil.
  - cbn [scan_loop] in E. destruct rest as [|c rest].
    { rewrite app_nil_r in E. destruct (Z.ltb_spec (ss_position st) (size pre)); [lia|].
      injection E as <-. by apply Hnil. }
    destruct (Z.ltb_spec (ss_position st) (size (pre ++ c :: rest))) as [_|Hge];
      [|rewrite length_app in Hge; simpl in Hge; lia].
    apply bind_Ok in E as (r & Hr & E).
    apply scan_frame_sound in Hr as [[Hi ->]|(b & post & Hrest & Hb & ->)]; [..|done|done].
    + injection E as <-. exists [], (c :: rest). by split_and!.
    + rewrite Hrest, app_assoc in E. apply IH in E as (l & tail & -> & Hl & Ht & ->).
      * exists (b :: l), tail. rewrite Hrest, frames_of_cons, <- app_assoc. by split_and!; [|constructor| |].
      * cbn [advance ss_position]. rewrite length_app, Nat2Z.inj_add, length_frame_of. lia.
      * done.
      * apply (f_equal length) in Hrest. rewrite length_app in Hrest. pose proof (length_frame_of b) as Hlb.
        pose proof (stored_pos b) as Hsp. unfold FRAME_OVERHEAD_BYTES in Hsp. simpl in *. lia.
Qed.

Lemma scan_loop_complete fuel pre l tail cp st :
  ss_position st = size pre → ss_discarded st = 0 → counters_ok st →
  (length (frames_of l ++ tail) ≤ fuel)%nat → file_ok (pre ++ frames_of l ++ tail) →
  Forall (batch_ok limit) l → incomplete tail →
  scan_loop fuel (pre ++ frames_of l ++ tail) (size (pre ++ frames_of l ++ tail)) cp limit st
  = Ok (stopped (foldl (advance cp) st l) tail).
Proof.
  revert pre st fuel. induction l as [|b l IH]; intros pre st fuel Hp Hd Hc Hf Hok Hl Ht.
  - simpl in *. destruct tail as [|c tail].
    + rewrite app_nil_r, stopped_nil by done. destruct fuel; [done|]. cbn [scan_loop].
      destruct (Z.ltb_spec (ss_position st) (size pre)); [lia | done].
    + destruct fuel as [|fuel]; [simpl in Hf; lia|]. cbn [scan_loop].
      destruct (Z.ltb_spec (ss_position st) (size (pre ++ c :: tail))) as [_|Hge];
        [|rewrite length_app in Hge; simpl in Hge; lia].
      by rewrite scan_frame_torn.
  - apply Forall_cons in Hl as [Hb Hl]. rewrite frames_of_cons, <- app_assoc in *.
    pose proof (length_frame_of b) as Hlb. pose proof (stored_pos b) as Hsp. unfold FRAME_OVERHEAD_BYTES in Hsp.
    rewrite (length_app (frame_of b)) in Hf.
    destruct fuel as [|fuel]; [lia|]. cbn [scan_loop].
    destruct (Z.ltb_spec (ss_position st) (size (pre ++ frame_of b ++ frames_of l ++ tail))) as [_|Hge];
      [|rewrite !length_app in Hge; lia].
    rewrite scan_frame_whole by done. cbn [mbind result_bind foldl].
    rewrite (app_assoc pre) in *. apply IH; try done.
    + cbn [advance ss_position]. rewrite length_app. lia.
    + by apply advance_counters.
    + lia.
Qed.

(** The counters after the frames of a list, split at the checkpoint. *)
Lemma foldl_advance_position cp st l :
  ss_position (foldl (advance cp) st l) = ss_position st + offset l ∧
  ss_committed (foldl (advance cp) st l) = ss_committed st + Z.of_nat (length l).
Proof.
  revert st; induction l as [|b l IH]; intros st; [split; unfold offset; cbn; lia|].
  cbn [foldl]. destruct (IH (advance cp st b)) as [-> ->]. cbn. rewrite offset_cons. lia.
Qed.

Lemma foldl_advance_before cp st l :
  ss_position st + offset l ≤ cp → ss_pending (foldl (advance cp) st l) = ss_pending st.
Proof.
  revert st; induction l as [|b l IH]; intros st Hle; [done|]. rewrite offset_cons in Hle.
  pose proof (stored_pos b) as Hs. unfold FRAME_OVERHEAD_BYTES in Hs. pose proof (offset_nonneg l).
  cbn [foldl]. rewrite IH by (cbn; lia). cbn. destruct (Z.geb_spec (ss_position st) cp); [lia | done].
Qed.

Lemma foldl_advance_after cp st l :
  cp ≤ ss_position st → ss_pending (foldl (advance cp) st l) = ss_pending st + Z.of_nat (length l).
Proof.
  revert st; induction l as [|b l IH]; intros st Hle; [simpl; lia|].
  pose proof (stored_pos b) as Hs. unfold FRAME_OVERHEAD_BYTES in Hs.
  cbn [foldl]. rewrite IH by (cbn; lia). cbn. destruct (Z.geb_spec (ss_position st) cp); lia.
Qed.

Lemma foldl_advance_boundary cp st l :
  ss_boundary (foldl (advance cp) st l) = true ↔
  ss_boundary st = true ∨ ∃ k d, l = k ++ d ∧ k ≠ [] ∧ cp = ss_position st + offset k.
Proof.
  revert st; induction l as [|b l IH]; intros st.
  - cbn. split; [by left|]. intros [|(k & d & Hk & Hne & _)]; [done|].
    symmetry in Hk. by apply app_nil in Hk as [-> _].
  - cbn [foldl]. rewrite IH. cbn. split.
    + intros [Hb|(k & d & -> & Hk & ->)].
      * destruct (Z.eqb_spec (ss_position st + stored_length b) cp); [|by left].
        right. exists [b], l. split_and!; [done | done |]. rewrite offset_cons. unfold offset. cbn. lia.
      * right. exists (b :: k), d. split_and!; [done | done |]. rewrite offset_cons. lia.
    + intros [->|(k & d & Hk & Hne & Hc)]; [left; by destruct (_ =? _)|].
      destruct k as [|b' k]; [done|]. injection Hk as <- ->. rewrite offset_cons in Hc.
      destruct k as [|b' k]; [left | right].
      * unfold offset in Hc. cbn in Hc. rewrite (proj2 (Z.eqb_eq _ _)); [done | lia].
      * exists (b' :: k), d. split_and!; [done | done | lia].
Qed.

(** The scan of frames whose first [done] lie before the checkpoint. *)
Lemma scan_frames done todo tail :
  file_ok (frames_of (done ++ todo) ++ tail) → Forall (batch_ok limit) (done ++ todo) → incomplete tail →
  scan_committed_frames (frames_of (done ++ todo) ++ tail) (offset done) limit =
  Ok {| committed_batches := Z.of_nat (length (done ++ todo)); pending_batches := Z.of_nat (length todo);
        committed_bytes := offset (done ++ todo); discarded_tail_bytes := size tail |}.
Proof.
  intros Hf Hb Ht. unfold scan_committed_frames.
  set (st0 := {| ss_position := 0; ss_committed := 0; ss_pending := 0;
                 ss_boundary := (offset done =? 0); ss_discarded := 0 |}).
  pose proof (scan_loop_complete (length (frames_of (done ++ todo) ++ tail)) [] (done ++ todo) tail
    (offset done) st0 eq_refl eq_refl) as Hs. cbn [app] in Hs.
  rewrite Hs; [|unfold counters_ok; cbn; lia | done | done | done | done]. clear Hs.
  cbn [mbind result_bind stopped ss_position ss_boundary ss_committed ss_pending ss_discarded].
  destruct (foldl_advance_position (offset done) st0 (done ++ todo)) as [-> ->].
  assert (Hbd : ss_boundary (foldl (advance (offset done)) st0 (done ++ todo)) = true).
  { apply foldl_advance_boundary. destruct done as [|b done]; [by left|].
    right. exists (b :: done), todo. split_and!; [done | done | cbn; lia]. }
  rewrite Hbd, Z.gtb_ltb. cbn [st0 ss_position ss_committed].
  pose proof (offset_nonneg todo). rewrite offset_app.
  destruct (Z.ltb_spec (0 + (offset done + offset todo)) (offset done)); [lia|].
  cbn [negb orb check mbind result_bind]. f_equal. f_equal; try lia.
  rewrite foldl_app, foldl_advance_after, foldl_advance_before by
    (rewrite ?(proj1 (foldl_advance_position _ _ _)); cbn; lia).
  cbn. lia.
Qed.

(** The scan accepts exactly files of committed frames with an incomplete tail, with
    the checkpoint on the boundary of a frame. *)
Lemma scan_sound file cp s :
  scan_committed_frames file cp limit = Ok s →
  ∃ done todo tail, file = frames_of (done ++ todo) ++ tail ∧ Forall (batch_ok limit) (done ++ todo) ∧
    incomplete tail ∧ cp = offset done.
Proof.
  unfold scan_committed_frames. intros (st & Hl & Hr)%bind_Ok. apply bind_Ok in Hr as (u & Hc%check_Ok & _).
  apply (scan_loop_sound (length file) []) in Hl as (l & tail & -> & Hb & Ht & ->); [|done..].
  apply negb_true_iff, orb_false_iff in Hc as [_ Hbd%negb_false_iff]. cbn [stopped ss_boundary] in Hbd.
  apply foldl_advance_boundary in Hbd as [Hz|(k & d & -> & _ & Hk)].
  - exists [], l, tail. split_and!; try done. by apply Z.eqb_eq.
  - exists k, d, tail. split_and!; try done.
Qed.

(** A crash while a frame is appended leaves an incomplete tail. *)
Lemma torn_frame_incomplete b k :
  batch_ok limit b → (k < length (frame_of b))%nat → incomplete (take k (frame_of b)).
Proof.
  intros Hb Hk. destruct (Nat.lt_ge_cases k HEADER_BYTES) as [Hs|Hs].
  - right; left. split; [rewrite length_take; lia|]. apply torn_header; [done | lia].
  - right; right. split; [rewrite length_take; lia|].
    exists (decoded b). split.
    + rewrite take_take, Nat.min_l by lia. unfold frame_of. rewrite take_app_length' by (by rewrite length_header_of).
      by apply decode_header_of.
    + cbn [decoded dh_stored_bytes]. rewrite length_take, <- (length_frame_of b). lia.
Qed.

(** C6: the scan of the data file. It succeeds exactly on files that consist of
    whole frames of batches within the limit followed by an incomplete tail, with the
    checkpoint on a frame boundary; it then counts every frame as committed, the
    frames from the checkpoint on as pending, and the rest of the file as discarded. *)
Theorem scan_committed_frames_iff file cp s :
  file_ok file →
  scan_committed_frames file cp limit = Ok s ↔
  ∃ done todo tail, file = frames_of (done ++ todo) ++ tail ∧ Forall (batch_ok limit) (done ++ todo) ∧
    incomplete tail ∧ cp = offset done ∧
    s = {| committed_batches := Z.of_nat (length (done ++ todo)); pending_batches := Z.of_nat (length todo);
           committed_bytes := offset (done ++ todo); discarded_tail_bytes := size tail |}.
Proof.
  intros Hf. split.
  - intros Hs. destruct (scan_sound file cp s Hs) as (done & todo & tail & -> & Hb & Ht & ->).
    exists done, todo, tail. split_and!; try done. rewrite scan_frames in Hs by done. by injection Hs.
  - intros (done & todo & tail & -> & Hb & Ht & -> & ->). by apply scan_frames.
Qed.

(** ** The recovered reader *)

(** The batch that recovery returns for the frame at a position. *)
Definition recovered (position : Z) (b : batch) : RecoveredBatch :=
  {| rb_metadata := fst b; rb_body := snd b; rb_body_digest := blake3 (snd b);
     rb_range := {| range_start := position; range_end := position + stored_length b |} |}.

Lemma read_recovered_frame pre b post end_ :
  batch_ok limit b → size pre + stored_length b ≤ end_ → end_ ≤ int_max U64 →
  read_recovered_batch (pre ++ frame_of b ++ post) (size pre) end_ limit
  = Ok (recovered (size pre) b, size pre + stored_length b).
Proof.
  intros Hb He Hm. pose proof (stored_pos b) as Hst. unfold FRAME_OVERHEAD_BYTES in Hst.
  unfold read_recovered_batch, read_exact_committed.
  rewrite (header_read pre (frame_of b ++ post) (header_of b) ((snd b ++ footer_of b) ++ post));
    [|done | apply length_header_of | unfold frame_of; by rewrite <- !app_assoc].
  cbn [ok_or mbind result_bind]. rewrite decode_header_of by done.
  cbn [mbind result_bind decoded dh_stored_bytes dh_body_bytes dh_raw dh_metadata dh_body_digest].
  rewrite checked_add_ok by lia. cbn [ok_or mbind result_bind]. rewrite Z.gtb_ltb.
  destruct (Z.ltb_spec end_ (size pre + stored_length b)); [lia|]. cbn [negb check mbind result_bind].
  unfold frame_of. rewrite <- !app_assoc, (app_assoc pre (header_of b)), (read_exact_app _ (snd b) _ _ (body_length b));
    [|rewrite length_app, length_header_of; lia | done].
  cbn [ok_or mbind result_bind]. rewrite (app_assoc (pre ++ header_of b)), read_exact_app;
    [|unfold body_length; rewrite !length_app, length_header_of; lia | by rewrite length_footer_of].
  cbn [ok_or mbind result_bind]. rewrite validate_footer_of by apply Hb. cbn [mbind result_bind].
  unfold SpoolBatchRange_new. rewrite Z.geb_leb.
  destruct (Z.leb_spec (size pre + stored_length b) (size pre)); [lia | done].
Qed.

Lemma read_next_frame r l b k tail :
  rs_position r = offset l → rs_body_limit r = limit → batch_ok limit b →
  offset (l ++ b :: k) ≤ int_max U64 →
  read_next r (frames_of (l ++ b :: k) ++ tail) (offset (l ++ b :: k)) =
  (Ok (Some (recovered (offset l) b)), set_position r (rs_generation r) (offset (l ++ [b]))).
Proof.
  intros Hp Hl Hb Hm. unfold read_next. rewrite Hp, Hl.
  pose proof (stored_pos b) as Hst. unfold FRAME_OVERHEAD_BYTES in Hst. pose proof (offset_nonneg k).
  rewrite !offset_app, !offset_cons in *.
  destruct (Z.eqb_spec (offset l) (offset l + (stored_length b + offset k))); [lia|].
  rewrite frames_of_app, frames_of_cons, <- !app_assoc. unfold offset at 1.
  rewrite read_recovered_frame by (try done; fold (offset l); lia). fold (offset l).
  do 2 f_equal. change (offset []) with 0. lia.
Qed.

Lemma read_next_end r l tail :
  rs_position r = offset l → rs_state r = ReadingRecovery →
  read_next r (frames_of l ++ tail) (offset l) = (Ok None, set_state r RecoveryComplete).
Proof. intros Hp Hs. unfold read_next. rewrite Hp, Z.eqb_refl, Hs. done. Qed.

(** [while let Some(batch) = batches.next_batch().await? { ... }] *)
Fixpoint drain (fuel : nat) (r : RecoveredBatches) (extent : SpoolExtent) (file : bytes)
    : spool_result (list RecoveredBatch) * RecoveredBatches :=
  match fuel with
  | O => (Ok [], r)
  | S fuel =>
      match next_batch r extent file with
      | (Ok None, r') => (Ok [], r')
      | (Ok (Some batch), r') =>
          let '(rest, r'') := drain fuel r' extent file in ((cons batch) <$> rest, r'')
      | (Err e, r') => (Err e, r')
      end
  end.

(** The recovered batches of [todo], after the frames of [done]. *)
Fixpoint recovered_from (position : Z) (todo : list batch) : list RecoveredBatch :=
  match todo with
  | [] => []
  | b :: todo => recovered position b :: recovered_from (position + stored_length b) todo
  end.

Lemma drain_frames done todo tail extent r fuel :
  Forall (batch_ok limit) todo → offset (done ++ todo) ≤ int_max U64 →
  rs_state r = ReadingRecovery → rs_body_limit r = limit →
  rs_position r = offset done → rs_recovered_end r = offset (done ++ todo) →
  (length todo < fuel)%nat →
  drain fuel r extent (frames_of (done ++ todo) ++ tail) =
  (Ok (recovered_from (offset done) todo),
   set_state (set_position r (rs_generation r) (offset (done ++ todo))) RecoveryComplete).
Proof.
  revert done r fuel. induction todo as [|b todo IH]; intros done r fuel Hb Hm Hs Hl Hp He Hf;
    (destruct fuel as [|fuel]; [lia|]); cbn [drain]; unfold next_batch; rewrite Hs, He.
  - rewrite app_nil_r in *. rewrite read_next_end by done. f_equal. destruct r; cbn in *. by subst.
  - apply Forall_cons in Hb as [Hb Htodo]. rewrite read_next_frame by done.
    replace (done ++ b :: todo) with ((done ++ [b]) ++ todo) in * by (by rewrite <- app_assoc).
    rewrite IH; try done; [|cbn in Hf; lia].
    cbn [fmap result_fmap recovered_from]. rewrite (offset_app done [b]), offset_cons.
    change (offset []) with 0. rewrite Z.add_0_r. done.
Qed.

(** The recovered reader. After a recovery that found the batches [todo] from
    the checkpoint on, reading until there is nothing left returns exactly these
    batches, each once, in order, with its metadata, body, digest and range, and ends
    in the state from which the reader follows the live spool. *)
Theorem drain_recovered done todo tail extent r fuel :
  Forall (batch_ok limit) todo → offset (done ++ todo) ≤ int_max U64 →
  rs_state r = ReadingRecovery → rs_body_limit r = limit →
  rs_position r = offset done → rs_recovered_end r = offset (done ++ todo) →
  (length todo < fuel)%nat →
  drain fuel r extent (frames_of (done ++ todo) ++ tail) =
  (Ok (recovered_from (offset done) todo),
   set_state (set_position r (rs_generation r) (offset (done ++ todo))) RecoveryComplete).
Proof. apply drain_frames. Qed.

(** The reader that follows the live spool. *)
Lemma follow_frame r l b k tail extent :
  rs_state r = Following → rs_body_limit r = limit → rs_generation r = generation extent →
  rs_position r = offset l → end_ extent = offset (l ++ b :: k) → batch_ok limit b →
  offset (l ++ b :: k) ≤ int_max U64 →
  next_batch r extent (frames_of (l ++ b :: k) ++ tail) =
  (Ok (Some (recovered (offset l) b)), set_position r (rs_generation r) (offset (l ++ [b]))).
Proof.
  intros Hs Hl Hg Hp He Hb Hm. unfold next_batch. rewrite Hs, Hg, Z.eqb_refl. cbn [negb].
  rewrite He, Hp, Z.gtb_ltb. pose proof (offset_nonneg (b :: k)). rewrite (offset_app l (b :: k)).
  destruct (Z.ltb_spec (offset l + offset (b :: k)) (offset l)); [lia|].
  rewrite <- offset_app, <- Hg. by apply read_next_frame.
Qed.

End Correct.

(** ** A concrete file: two batches and a torn third one *)

Definition sample_frames : list batch := [sample_batch "{}"; sample_batch "{}
{}"].
Definition sample_tail : bytes := take 50 (frame_of (sample_batch "{}")).

Lemma sample_frames_ok : Forall (batch_ok 16) sample_frames.
Proof.
  constructor; [|constructor; [|constructor]]; apply sample_batch_ok; vm_compute; split; intros [=].
Qed.

Lemma sample_tail_incomplete : incomplete 16 sample_tail.
Proof.
  apply torn_frame_incomplete; [apply sample_batch_ok; vm_compute; split; intros [=]|].
  apply Nat.ltb_lt. vm_compute. reflexivity.
Qed.

Lemma scan_committed_frames_iff_witness :
  scan_committed_frames (frames_of sample_frames ++ sample_tail) (offset (take 1 sample_frames)) 16 =
  Ok {| committed_batches := 2; pending_batches := 1; committed_bytes := 399; discarded_tail_bytes := 50 |}.
Proof.
  apply (scan_committed_frames_iff 16); [split; vm_compute; intros [=]|].
  exists (take 1 sample_frames), (drop 1 sample_frames), sample_tail.
  split; [reflexivity|]. split; [apply sample_frames_ok|]. split; [apply sample_tail_incomplete|].
  split; [reflexivity|]. vm_compute. reflexivity.
Defined.

Lemma drain_recovered_witness :
  fst (drain 2 {| rs_position := offset (take 1 sample_frames); rs_recovered_end := offset sample_frames;
                  rs_generation := 0; rs_body_limit := 16; rs_state := ReadingRecovery |}
         {| generation := 0; end_ := 0 |} (frames_of sample_frames ++ sample_tail))
  = Ok [recovered 198 (sample_batch "{}
{}")].
Proof.
  refine (f_equal fst (drain_recovered 16 (take 1 sample_frames) (drop 1 sample_frames) sample_tail
    {| generation := 0; end_ := 0 |} _ 2 _ _ _ _ _ _ _)); try reflexivity.
  - pose proof sample_frames_ok as H. apply Forall_cons in H as [_ H]. exact H.
  - vm_compute. intros [=].
  - simpl. lia.
Defined.
