(* ===== verification/Spool.v ===== *)
(** * elucid-ingestion: the spool

    Models src/elucid/elucid-ingestion/src/spool.rs: the capacity accounting, the
    append of a frame, the advance of the checkpoint and the reclamation of the data
    file, each with the points at which its I/O can fail. The state holds the
    contents of the two files; a crash keeps exactly these. Locks that a panic
    poisons are not modelled. *)

From S2P Require Import Prelude Core Bytes Frame Recovery RecoveryCorrect.

#[local] Open Scope Z_scope.

(** ** State *)

Record Accounting := { acc_generation : Z; acc_committed : Z; acc_reserved : Z }.

Record Spool := {
  sp_capacity : Z;
  sp_data : bytes;             (* spool.data *)
  sp_accounting : Accounting;
  sp_checkpoint : Z;
  sp_checkpoint_file : bytes;  (* spool.checkpoint *)
  sp_extent : SpoolExtent;     (* the value of the watch channel *)
  sp_failed : bool;
}.

Record CheckpointPlan := { current : Z; target : Z }.

Definition with_data (s : Spool) (data : bytes) : Spool :=
  {| sp_capacity := sp_capacity s; sp_data := data; sp_accounting := sp_accounting s;
     sp_checkpoint := sp_checkpoint s; sp_checkpoint_file := sp_checkpoint_file s;
     sp_extent := sp_extent s; sp_failed := sp_failed s |}.
Definition with_accounting (s : Spool) (a : Accounting) : Spool :=
  {| sp_capacity := sp_capacity s; sp_data := sp_data s; sp_accounting := a;
     sp_checkpoint := sp_checkpoint s; sp_checkpoint_file := sp_checkpoint_file s;
     sp_extent := sp_extent s; sp_failed := sp_failed s |}.
Definition with_checkpoint_file (s : Spool) (file : bytes) : Spool :=
  {| sp_capacity := sp_capacity s; sp_data := sp_data s; sp_accounting := sp_accounting s;
     sp_checkpoint := sp_checkpoint s; sp_checkpoint_file := file;
     sp_extent := sp_extent s; sp_failed := sp_failed s |}.
Definition with_checkpoint (s : Spool) (position : Z) : Spool :=
  {| sp_capacity := sp_capacity s; sp_data := sp_data s; sp_accounting := sp_accounting s;
     sp_checkpoint := position; sp_checkpoint_file := sp_checkpoint_file s;
     sp_extent := sp_extent s; sp_failed := sp_failed s |}.
(** [extent.send_replace] *)
Definition with_extent (s : Spool) (extent : SpoolExtent) : Spool :=
  {| sp_capacity := sp_capacity s; sp_data := sp_data s; sp_accounting := sp_accounting s;
     sp_checkpoint := sp_checkpoint s; sp_checkpoint_file := sp_checkpoint_file s;
     sp_extent := extent; sp_failed := sp_failed s |}.
Definition mark_failed (s : Spool) : Spool :=
  {| sp_capacity := sp_capacity s; sp_data := sp_data s; sp_accounting := sp_accounting s;
     sp_checkpoint := sp_checkpoint s; sp_checkpoint_file := sp_checkpoint_file s;
     sp_extent := sp_extent s; sp_failed := true |}.

Definition ensure_writable (s : Spool) : spool_result unit :=
  if sp_failed s then Err (EInvariant "spool is unavailable until process restart and recovery") else Ok tt.

Definition occupied_bytes (a : Accounting) : option Z := checked_add U64 (acc_committed a) (acc_reserved a).

(** ** Reservations *)

Definition reserve (s : Spool) (body_limit : Z) : spool_result (Z * Spool) :=
  _ ← ensure_writable s;
  required_bytes ← reserved_frame_bytes body_limit;
  let accounting := sp_accounting s in
  _ ← ensure_writable s;
  occupied ← ok_or (occupied_bytes accounting) (EInvariant "spool accounting overflow");
  let available := saturating_sub (sp_capacity s) occupied in
  _ ← check (negb (required_bytes >? available)) (ECapacity required_bytes available);
  reserved ← ok_or (checked_add U64 (acc_reserved accounting) required_bytes)
               (EInvariant "spool reservation accounting overflow");
  Ok (required_bytes,
      with_accounting s {| acc_generation := acc_generation accounting;
                           acc_committed := acc_committed accounting; acc_reserved := reserved |}).

Definition release_reservation (s : Spool) (reserved_bytes : Z) : Spool :=
  let a := sp_accounting s in
  if acc_reserved a <? reserved_bytes then
    with_accounting (mark_failed s)
      {| acc_generation := acc_generation a; acc_committed := acc_committed a; acc_reserved := 0 |}
  else
    with_accounting s
      {| acc_generation := acc_generation a; acc_committed := acc_committed a;
         acc_reserved := acc_reserved a - reserved_bytes |}.

Definition usage (s : Spool) : spool_result SpoolUsage :=
  _ ← ensure_writable s;
  SpoolUsage_new (sp_capacity s) (acc_committed (sp_accounting s)) (acc_reserved (sp_accounting s)).

Definition maximum_batch_admission (s : Spool) (body_limit : Z) : spool_result MaximumBatchAdmission :=
  _ ← ensure_writable s;
  required_bytes ← reserved_frame_bytes body_limit;
  _ ← ensure_writable s;
  occupied ← ok_or (occupied_bytes (sp_accounting s)) (EInvariant "spool accounting overflow");
  Ok (if required_bytes <=? saturating_sub (sp_capacity s) occupied
      then Available else CapacityExhaustedAdmission).

(** ** Appends *)

(** How the I/O of an append ends; [WriteFails n] after [n] bytes reached the file. *)
Inductive write_outcome := Written | InspectFails | WriteFails (n : nat) | SyncFails.

Section Operations.
Context `{SpoolEnv}.

Definition write_frame (s : Spool) (metadata : BatchMetadata) (body : bytes) (io : write_outcome)
    : spool_result (PreparedFrame * SpoolBatchRange) * Spool :=
  match (_ ← ensure_writable s; PreparedFrame_new metadata body) with
  | Err e => (Err e, s)
  | Ok prepared =>
      match ensure_writable s with
      | Err e => (Err e, s)
      | Ok _ =>
          let start := Z.of_nat (length (sp_data s)) in
          let frame := pf_header prepared ++ body ++ pf_footer prepared in
          match io with
          | InspectFails => (Err (EIo "inspect before append"), mark_failed s)
          | WriteFails n => (Err (EIo "write"), mark_failed (with_data s (sp_data s ++ take n frame)))
          | SyncFails => (Err (EIo "synchronize"), mark_failed (with_data s (sp_data s ++ frame)))
          | Written =>
              let s := with_data s (sp_data s ++ frame) in
              match (end_ ← ok_or (checked_add U64 start (pf_stored_bytes prepared))
                              (EInvariant "spool append position overflow");
                     SpoolBatchRange_new start end_) with
              | Ok range => (Ok (prepared, range), s)
              | Err e => (Err e, s)
              end
          end
      end
  end.

(** [commit_reservation] up to the release of the accounting lock; the extent that is
    sent to the reader afterwards. *)
Definition commit_reservation (s : Spool) (reserved_bytes committed_bytes : Z)
    : spool_result SpoolExtent * Spool :=
  let a := sp_accounting s in
  if (committed_bytes >? reserved_bytes) || (acc_reserved a <? reserved_bytes) then
    (Err (EInvariant "durable append does not fit its capacity reservation"), mark_failed s)
  else
    match checked_add U64 (acc_committed a) committed_bytes with
    | None => (Err (EInvariant "committed spool byte count overflow"), mark_failed s)
    | Some new_committed =>
        (Ok {| generation := acc_generation a; end_ := new_committed |},
         with_accounting s {| acc_generation := acc_generation a; acc_committed := new_committed;
                              acc_reserved := acc_reserved a - reserved_bytes |})
    end.

(** [append_reserved] without interference from other threads. *)
Definition append_reserved (s : Spool) (metadata : BatchMetadata) (body : bytes) (reserved_bytes : Z)
    (io : write_outcome) : spool_result DurableAppend * Spool :=
  match write_frame s metadata body io with
  | (Ok (prepared, range), s) =>
      match commit_reservation s reserved_bytes (pf_stored_bytes prepared) with
      | (Ok extent, s) =>
          (Ok {| da_metadata := metadata; da_body_bytes := pf_body_bytes prepared;
                 da_body_digest := pf_body_digest prepared; da_range := range |}, with_extent s extent)
      | (Err e, s) => (Err e, s)
      end
  | (Err e, s) => (Err e, release_reservation (mark_failed s) reserved_bytes)
  end.

(** [SpoolReservation::append]: a body over the limit drops the reservation. *)
Definition append (s : Spool) (body_limit reserved_bytes : Z) (metadata : BatchMetadata) (body : bytes)
    (io : write_outcome) : spool_result DurableAppend * Spool :=
  let body_bytes := Z.of_nat (length body) in
  if body_bytes >? body_limit then
    (Err (EBatchLimit body_bytes body_limit), release_reservation s reserved_bytes)
  else
    match ensure_writable s with
    | Err e => (Err e, release_reservation s reserved_bytes)
    | Ok _ => append_reserved s metadata body reserved_bytes io
    end.

(** ** Checkpoints *)

(** [checkpoint::store] replaces the file atomically; a failure leaves the old or the
    new contents. *)
Inductive store_outcome := Stored | StoreFails (installed : bool).

Definition store_checkpoint (s : Spool) (position : Z) (io : store_outcome) : spool_result unit * Spool :=
  match io with
  | Stored => (Ok tt, with_checkpoint_file s (encode_checkpoint position))
  | StoreFails installed =>
      (Err (EIo "store the spool checkpoint"),
       mark_failed (if installed then with_checkpoint_file s (encode_checkpoint position) else s))
  end.

Definition checkpoint (s : Spool) : spool_result Z :=
  _ ← ensure_writable s; Ok (sp_checkpoint s).

Definition advance_checkpoint (s : Spool) (plan : CheckpointPlan) (io : store_outcome)
    : spool_result Z * Spool :=
  match (_ ← ensure_writable s;
         _ ← check (current plan =? sp_checkpoint s) (EInvariant "checkpoint plan is stale");
         check (negb (target plan >? acc_committed (sp_accounting s)))
           (EInvariant "checkpoint plan exceeds committed spool data")) with
  | Err e => (Err e, s)
  | Ok _ =>
      match store_checkpoint s (target plan) io with
      | (Err e, s) => (Err e, s)
      | (Ok _, s) => (Ok (target plan), with_checkpoint s (target plan))
      end
  end.

(** How the truncation of the data file ends. *)
Inductive truncate_outcome := Truncated | TruncateFails (truncated : bool).

(** [reclaim_checkpointed] up to the release of its locks: [None] is a deferred
    reclamation, [Some] the bytes reclaimed and the extent that is sent afterwards. *)
Definition reclaim_locked (s : Spool) (io : store_outcome) (io' : truncate_outcome)
    : spool_result (option (Z * SpoolExtent)) * Spool :=
  match ensure_writable s with
  | Err e => (Err e, s)
  | Ok _ =>
      let a := sp_accounting s in
      if negb (acc_reserved a =? 0) || (sp_checkpoint s =? 0)
         || negb (sp_checkpoint s =? acc_committed a)
      then (Ok None, s)
      else
        match store_checkpoint s 0 io with
        | (Err e, s) => (Err e, s)
        | (Ok _, s) =>
            let s := with_checkpoint s 0 in
            match io' with
            | TruncateFails truncated =>
                (Err (EIo "truncate checkpointed spool data"),
                 mark_failed (if truncated then with_data s [] else s))
            | Truncated =>
                let s := with_data s [] in
                match checked_add U64 (acc_generation a) 1 with
                | None =>
                    (Err (EInvariant "spool reclamation generation overflow"),
                     mark_failed (with_accounting s
                       {| acc_generation := acc_generation a; acc_committed := 0;
                          acc_reserved := acc_reserved a |}))
                | Some g =>
                    (Ok (Some (acc_committed a, {| generation := g; end_ := 0 |})),
                     with_accounting s
                       {| acc_generation := g; acc_committed := 0; acc_reserved := acc_reserved a |})
                end
            end
        end
  end.

(** [reclaim_checkpointed] without interference from other threads. *)
Definition reclaim_checkpointed (s : Spool) (io : store_outcome) (io' : truncate_outcome)
    : spool_result (option Z) * Spool :=
  match reclaim_locked s io io' with
  | (Ok (Some (reclaimed, extent)), s) => (Ok (Some reclaimed), with_extent s extent)
  | (Ok None, s) => (Ok None, s)
  | (Err e, s) => (Err e, s)
  end.

(** ** Opening *)

(** [Spool::from_recovered] *)
Definition from_recovered (data : bytes) (checkpoint_file : bytes) (capacity committed_bytes checkpoint : Z)
    : Spool :=
  {| sp_capacity := capacity; sp_data := data;
     sp_accounting := {| acc_generation := 0; acc_committed := committed_bytes; acc_reserved := 0 |};
     sp_checkpoint := checkpoint; sp_checkpoint_file := checkpoint_file;
     sp_extent := {| generation := 0; end_ := committed_bytes |}; sp_failed := false |}.

Definition recover (checkpoint_file data : bytes) (capacity maximum_batch : Z)
    : spool_result (Spool * RecoveredBatches * RecoveryReport) :=
  '(data, report) ← recover_files (Some checkpoint_file) (Some data) capacity maximum_batch;
  Ok (from_recovered data checkpoint_file capacity (rr_committed_bytes report) (rr_checkpoint report),
      {| rs_position := rr_checkpoint report; rs_recovered_end := rr_committed_bytes report;
         rs_generation := 0; rs_body_limit := maximum_batch; rs_state := ReadingRecovery |},
      report).

(** [Spool::open] on the files of a directory. *)
Definition open (checkpoint_file data : option bytes) (capacity maximum_batch : Z)
    : spool_result (Spool * RecoveredBatches * RecoveryReport) :=
  match data, checkpoint_file with
  | None, None => recover (encode_checkpoint 0) [] capacity maximum_batch
  | Some data, Some checkpoint_file => recover checkpoint_file data capacity maximum_batch
  | _, _ => Err (ECorrupt "spool data and checkpoint files are incomplete")
  end.

End Operations.
