(* ===== verification/SpoolSystem.v ===== *)
(** * The spool under concurrent requests and crashes

    The operations of [Spool] interleaved at the granularity of the locks of
    src/elucid/elucid-ingestion/src/spool.rs: requests that hold reservations, appends
    between the write of their frame and the commit of their reservation, extents
    that are still to be sent to the reader, checkpoint advances, reclamations, and
    crashes at any moment followed by recovery. Theorems: no acknowledged batch is
    lost before a checkpoint plan declares it complete, and the accounting never
    exceeds the capacity; and one race, in which the reader meets an extent that is
    not the end of a frame. *)

From S2P Require Import Prelude Core Bytes Frame Recovery RecoveryCorrect Spool.

#[local] Open Scope Z_scope.

(** ** System *)

Record system := {
  sys_spool : Spool;
  (** Live reservations: body limit and reserved bytes. *)
  sys_reservations : list (Z * Z);
  (** Frames written but not yet committed: reserved bytes and batch. *)
  sys_writes : list (Z * batch);
  (** Extents computed but not yet sent. *)
  sys_sends : list SpoolExtent;
  (** The batches whose frames the data file holds, in order. *)
  sys_frames : list batch;
  (** The batches whose append has succeeded. *)
  sys_acknowledged : list batch;
  (** The batches that some checkpoint plan has declared complete. *)
  sys_completed : list batch;
}.

Section System.
Context `{SpoolEnv}.
(** The body limit of the service, for every reservation and for recovery. *)
Context (limit : Z).

Definition after_write (S : system) (s : Spool) (reservations : list (Z * Z)) (writes : list (Z * batch))
    (frames : list batch) : system :=
  {| sys_spool := s; sys_reservations := reservations; sys_writes := writes; sys_sends := sys_sends S;
     sys_frames := frames; sys_acknowledged := sys_acknowledged S; sys_completed := sys_completed S |}.

Definition with_spool (S : system) (s : Spool) : system :=
  after_write S s (sys_reservations S) (sys_writes S) (sys_frames S).

(** The frames of the data file after a failed append. *)
Definition frames_after_failure (frames : list batch) (b : batch) (io : write_outcome) : list batch :=
  match io with
  | SyncFails => frames ++ [b]
  | WriteFails n => if (length (frame_of b) <=? n)%nat then frames ++ [b] else frames
  | Written | InspectFails => frames
  end.

Inductive step : system → system → Prop :=
| step_reserve S body_limit r s :
    0 ≤ body_limit ≤ limit → reserve (sys_spool S) body_limit = Ok (r, s) →
    step S (after_write S s ((body_limit, r) :: sys_reservations S) (sys_writes S) (sys_frames S))
| step_drop S l1 body_limit r l2 :
    sys_reservations S = l1 ++ (body_limit, r) :: l2 →
    step S (after_write S (release_reservation (sys_spool S) r) (l1 ++ l2) (sys_writes S) (sys_frames S))
| step_write S l1 body_limit r l2 metadata body prepared range s :
    sys_reservations S = l1 ++ (body_limit, r) :: l2 →
    Z.of_nat (length body) ≤ body_limit → metadata_ok metadata →
    write_frame (sys_spool S) metadata body Written = (Ok (prepared, range), s) →
    step S (after_write S s (l1 ++ l2) ((r, (metadata, body)) :: sys_writes S)
              (sys_frames S ++ [(metadata, body)]))
| step_write_fails S l1 body_limit r l2 metadata body io e s :
    sys_reservations S = l1 ++ (body_limit, r) :: l2 →
    Z.of_nat (length body) ≤ body_limit → metadata_ok metadata → sp_failed (sys_spool S) = false →
    io ≠ Written → write_frame (sys_spool S) metadata body io = (Err e, s) →
    step S (after_write S (release_reservation (mark_failed s) r) (l1 ++ l2) (sys_writes S)
              (frames_after_failure (sys_frames S) (metadata, body) io))
(** A spool that has failed writes nothing. *)
| step_write_refused S l1 body_limit r l2 :
    sys_reservations S = l1 ++ (body_limit, r) :: l2 → sp_failed (sys_spool S) = true →
    step S (after_write S (release_reservation (mark_failed (sys_spool S)) r) (l1 ++ l2) (sys_writes S)
              (sys_frames S))
| step_commit S w1 r b w2 extent s :
    sys_writes S = w1 ++ (r, b) :: w2 →
    commit_reservation (sys_spool S) r (stored_length b) = (Ok extent, s) →
    step S {| sys_spool := s; sys_reservations := sys_reservations S; sys_writes := w1 ++ w2;
              sys_sends := extent :: sys_sends S; sys_frames := sys_frames S;
              sys_acknowledged := b :: sys_acknowledged S; sys_completed := sys_completed S |}
| step_send S e1 extent e2 :
    sys_sends S = e1 ++ extent :: e2 →
    step S {| sys_spool := with_extent (sys_spool S) extent; sys_reservations := sys_reservations S;
              sys_writes := sys_writes S; sys_sends := e1 ++ e2; sys_frames := sys_frames S;
              sys_acknowledged := sys_acknowledged S; sys_completed := sys_completed S |}
(** A plan moves the checkpoint to the end of a frame. *)
| step_advance S plan complete io r s :
    complete `prefix_of` sys_frames S → target plan = offset complete →
    advance_checkpoint (sys_spool S) plan io = (r, s) →
    step S {| sys_spool := s; sys_reservations := sys_reservations S; sys_writes := sys_writes S;
              sys_sends := sys_sends S; sys_frames := sys_frames S;
              sys_acknowledged := sys_acknowledged S; sys_completed := complete ++ sys_completed S |}
| step_reclaim S io io' n extent s :
    reclaim_locked (sys_spool S) io io' = (Ok (Some (n, extent)), s) →
    step S {| sys_spool := s; sys_reservations := sys_reservations S; sys_writes := sys_writes S;
              sys_sends := extent :: sys_sends S; sys_frames := [];
              sys_acknowledged := sys_acknowledged S; sys_completed := sys_completed S |}
| step_reclaim_fails S io io' e s :
    reclaim_locked (sys_spool S) io io' = (Err e, s) →
    step S (after_write S s (sys_reservations S) (sys_writes S)
              (if decide (sp_data s = []) then [] else sys_frames S))
(** The process stops; the files are recovered. *)
| step_crash S s reader report :
    recover (sp_checkpoint_file (sys_spool S)) (sp_data (sys_spool S)) (sp_capacity (sys_spool S)) limit
      = Ok (s, reader, report) →
    step S {| sys_spool := s; sys_reservations := []; sys_writes := []; sys_sends := [];
              sys_frames := sys_frames S; sys_acknowledged := sys_acknowledged S;
              sys_completed := sys_completed S |}.

(** An empty spool. *)
Definition initial (capacity : Z) : system :=
  {| sys_spool := from_recovered [] (encode_checkpoint 0) capacity 0 0;
     sys_reservations := []; sys_writes := []; sys_sends := []; sys_frames := [];
     sys_acknowledged := []; sys_completed := [] |}.

Inductive reachable (capacity : Z) : system → Prop :=
| reachable_initial : reachable capacity (initial capacity)
| reachable_step S S' : reachable capacity S → step S S' → reachable capacity S'.

End System.

(** ** Invariant *)

Definition sumZ {A} (f : A → Z) (l : list A) : Z := foldr (λ x a, f x + a) 0 l.

Arguments sumZ : simpl never.
Arguments encode_checkpoint : simpl never.
Arguments frames_of : simpl never.
Arguments offset : simpl never.
Arguments stored_length : simpl never.
Arguments frame_of : simpl never.

Lemma sumZ_app {A} (f : A → Z) l k : sumZ f (l ++ k) = sumZ f l + sumZ f k.
Proof. unfold sumZ. induction l as [|x l IH]; cbn; lia. Qed.

Lemma sumZ_cons {A} (f : A → Z) x l : sumZ f (x :: l) = f x + sumZ f l.
Proof. done. Qed.

Lemma sumZ_nonneg {A} (f : A → Z) l : Forall (λ x, 0 ≤ f x) l → 0 ≤ sumZ f l.
Proof. unfold sumZ. induction 1; simpl; lia. Qed.

Lemma sumZ_le {A} (f g : A → Z) l : Forall (λ x, f x ≤ g x) l → sumZ f l ≤ sumZ g l.
Proof. unfold sumZ. induction 1; simpl; lia. Qed.

Section Invariant.
Context `{SpoolEnvLaws}.
Context (limit capacity : Z).
Context (Hlimit : 0 ≤ limit) (Hcapacity : 0 ≤ capacity)
  (Hwidth : capacity + limit + FRAME_OVERHEAD_BYTES ≤ int_max U64).

Notation size b := (Z.of_nat (length b)).

Definition reservation_ok (x : Z * Z) : Prop :=
  0 ≤ fst x ≤ limit ∧ snd x = fst x + FRAME_OVERHEAD_BYTES.
Definition write_ok (frames : list batch) (x : Z * batch) : Prop :=
  stored_length (snd x) ≤ fst x ∧ snd x ∈ frames.

Record inv (S : system) : Prop := {
  i_capacity : sp_capacity (sys_spool S) = capacity;
  i_frames : Forall (batch_ok limit) (sys_frames S);
  i_data : ∃ tail, sp_data (sys_spool S) = frames_of (sys_frames S) ++ tail ∧ incomplete limit tail ∧
    (sp_failed (sys_spool S) = false → tail = []);
  i_size : size (sp_data (sys_spool S)) ≤ capacity;
  i_checkpoint : ∃ done, done `prefix_of` sys_frames S ∧
    sp_checkpoint_file (sys_spool S) = encode_checkpoint (offset done) ∧
    (sp_failed (sys_spool S) = false → sp_checkpoint (sys_spool S) = offset done) ∧
    (∀ b, b ∈ done → b ∈ sys_completed S);
  i_acknowledged : ∀ b, b ∈ sys_acknowledged S → b ∈ sys_completed S ∨ b ∈ sys_frames S;
  i_committed : sp_failed (sys_spool S) = false →
    acc_committed (sp_accounting (sys_spool S)) + sumZ (stored_length ∘ snd) (sys_writes S)
    = offset (sys_frames S);
  i_reserved : acc_reserved (sp_accounting (sys_spool S))
    = sumZ snd (sys_reservations S) + sumZ fst (sys_writes S);
  i_reservations : Forall reservation_ok (sys_reservations S);
  i_writes : Forall (write_ok (sys_frames S)) (sys_writes S);
  i_nonneg : 0 ≤ acc_committed (sp_accounting (sys_spool S));
  i_total : acc_committed (sp_accounting (sys_spool S)) + acc_reserved (sp_accounting (sys_spool S)) ≤ capacity;
}.

Lemma inv_initial : inv (initial capacity).
Proof.
  constructor; cbn; try done.
  - exists []. split_and!; [done | by left | done].
  - exists []. split_and!; [done | done | done | set_solver].
  - set_solver.
Qed.

Lemma reservations_nonneg l : Forall reservation_ok l → 0 ≤ sumZ snd l.
Proof.
  intros Hl. apply sumZ_nonneg. eapply Forall_impl; [exact Hl|]. intros [x r] [? ->]. cbn.
  unfold FRAME_OVERHEAD_BYTES in *. cbn in *. lia.
Qed.

Lemma writes_bounds fr l : Forall (write_ok fr) l → 0 ≤ sumZ (stored_length ∘ snd) l ≤ sumZ fst l.
Proof.
  intros Hl. split.
  - apply sumZ_nonneg, Forall_true. intros [r b]. unfold compose. pose proof (stored_pos b).
    unfold FRAME_OVERHEAD_BYTES in *. cbn. lia.
  - apply sumZ_le. eapply Forall_impl; [exact Hl|]. intros [r b] [? _]. done.
Qed.

Lemma write_ok_mono fr fr' x : fr ⊆ fr' → write_ok fr x → write_ok fr' x.
Proof. intros Hf [? ?]. split; [done | by apply Hf]. Qed.

Lemma release_reservation_eq s r :
  r ≤ acc_reserved (sp_accounting s) →
  release_reservation s r = with_accounting s
    {| acc_generation := acc_generation (sp_accounting s); acc_committed := acc_committed (sp_accounting s);
       acc_reserved := acc_reserved (sp_accounting s) - r |}.
Proof. intros Hr. unfold release_reservation. destruct (Z.ltb_spec (acc_reserved (sp_accounting s)) r); [lia | done]. Qed.

(** Giving a reservation back keeps the invariant. *)
Lemma inv_release S s l1 body_limit r l2 frames :
  sys_reservations S = l1 ++ (body_limit, r) :: l2 →
  inv S →
  sp_accounting s = sp_accounting (sys_spool S) →
  (inv S → inv (after_write S s (sys_reservations S) (sys_writes S) frames)) →
  inv (after_write S (release_reservation s r) (l1 ++ l2) (sys_writes S) frames).
Proof.
  intros Hr Hi Ha Hs. specialize (Hs Hi).
  pose proof (i_reservations _ Hi) as Hres. rewrite Hr in Hres.
  apply Forall_app in Hres as [Hl1 Hl2]. apply Forall_cons in Hl2 as [[Hb Hx] Hl2]. cbn in Hb, Hx.
  pose proof (i_reserved _ Hi) as Hsum. rewrite Hr, sumZ_app, sumZ_cons in Hsum. cbn [snd] in Hsum.
  pose proof (reservations_nonneg l1 Hl1). pose proof (reservations_nonneg l2 Hl2).
  pose proof (writes_bounds _ _ (i_writes _ Hi)). unfold FRAME_OVERHEAD_BYTES in *.
  rewrite release_reservation_eq by (rewrite Ha; lia). rewrite Ha.
  destruct Hs as [S1 S2 S3 S4 S5 S6 S7 S8 S9 S10 S11 S12]. cbn in *. rewrite Ha in *.
  constructor; cbn; try done.
  - rewrite sumZ_app. lia.
  - by apply Forall_app.
  - lia.
Qed.

Lemma inv_reserve S body_limit r s :
  inv S → 0 ≤ body_limit ≤ limit → reserve (sys_spool S) body_limit = Ok (r, s) →
  inv (after_write S s ((body_limit, r) :: sys_reservations S) (sys_writes S) (sys_frames S)).
Proof.
  intros Hi Hb Hr. unfold reserve, reserved_frame_bytes, occupied_bytes, checked_add in Hr. inv_ok.
  repeat match goal with Hn : narrow _ _ = Some _ |- _ => apply narrow_Some in Hn as [-> ?] end.
  pose proof (i_total _ Hi). pose proof (i_nonneg _ Hi). pose proof (i_capacity _ Hi) as Hc.
  rewrite Hc in *. unfold saturating_sub in *. rewrite Z.gtb_ltb in *.
  match goal with Hg : (_ <? _) = false |- _ => apply Z.ltb_ge in Hg end.
  unfold FRAME_OVERHEAD_BYTES in *.
  destruct Hi as [S1 S2 S3 S4 S5 S6 S7 S8 S9 S10 S11 S12].
  constructor; cbn; try done.
  - rewrite sumZ_cons. cbn. lia.
  - constructor; [|done]. split; cbn; unfold FRAME_OVERHEAD_BYTES; lia.
  - lia.
Qed.

Lemma after_write_same S :
  after_write S (sys_spool S) (sys_reservations S) (sys_writes S) (sys_frames S) = S.
Proof. by destruct S. Qed.

Lemma inv_mark_failed S :
  inv S → inv (after_write S (mark_failed (sys_spool S)) (sys_reservations S) (sys_writes S) (sys_frames S)).
Proof.
  intros [S1 S2 S3 S4 S5 S6 S7 S8 S9 S10 S11 S12]. constructor; cbn; try done.
  - destruct S3 as (tail & ? & ? & _). exists tail. by split_and!.
  - destruct S5 as (done & ? & ? & _ & ?). exists done. by split_and!.
Qed.

(** The bytes of a frame that a failed append leaves in the file. *)
Definition written (io : write_outcome) (frame : bytes) : bytes :=
  match io with InspectFails => [] | WriteFails n => take n frame | Written | SyncFails => frame end.

Lemma write_frame_fails s m body io e s' :
  sp_failed s = false → fits U64 (stored_length (m, body)) = true → io ≠ Written →
  write_frame s m body io = (Err e, s') →
  s' = mark_failed (with_data s (sp_data s ++ written io (frame_of (m, body)))).
Proof.
  intros Hf Hs Hio. unfold write_frame, ensure_writable. rewrite Hf. cbn [mbind result_bind].
  rewrite PreparedFrame_new_Ok by done. cbn [pf_header pf_footer].
  change (header_of (m, body) ++ body ++ footer_of (m, body)) with (frame_of (m, body)).
  destruct io; intros Heq; [done | ..]; simplify_eq; try done. cbn. rewrite app_nil_r. by destruct s.
Qed.

Lemma write_frame_written s m body :
  sp_failed s = false → fits U64 (stored_length (m, body)) = true →
  size (sp_data s) + stored_length (m, body) ≤ int_max U64 →
  ∃ prepared, write_frame s m body Written =
    (Ok (prepared, {| range_start := size (sp_data s);
                      range_end := size (sp_data s) + stored_length (m, body) |}),
     with_data s (sp_data s ++ frame_of (m, body))) ∧ pf_stored_bytes prepared = stored_length (m, body).
Proof.
  intros Hf Hs Hb. unfold write_frame, ensure_writable. rewrite Hf. cbn [mbind result_bind].
  rewrite PreparedFrame_new_Ok by done. cbn [pf_header pf_footer pf_stored_bytes].
  change (header_of (m, body) ++ body ++ footer_of (m, body)) with (frame_of (m, body)).
  pose proof (stored_pos (m, body)) as Hp. unfold FRAME_OVERHEAD_BYTES in Hp.
  rewrite checked_add_ok by lia. cbn [ok_or mbind result_bind]. unfold SpoolBatchRange_new.
  rewrite Z.geb_leb. destruct (Z.leb_spec (size (sp_data s) + stored_length (m, body)) (size (sp_data s))); [lia|].
  eexists. split; reflexivity.
Qed.

(** A batch within a reservation can be stored, and its frame fits the capacity. *)
Lemma reserved_batch_ok S l1 body_limit r l2 m body :
  inv S → sys_reservations S = l1 ++ (body_limit, r) :: l2 → size body ≤ body_limit → metadata_ok m →
  batch_ok limit (m, body) ∧ stored_length (m, body) ≤ r ∧
  acc_committed (sp_accounting (sys_spool S)) + sumZ (stored_length ∘ snd) (sys_writes S) + r ≤ capacity.
Proof.
  intros Hi Hr Hb Hm.
  pose proof (i_reservations _ Hi) as Hres. rewrite Hr in Hres.
  apply Forall_app in Hres as [Hl1 Hl2]. apply Forall_cons in Hl2 as [[Hb' Hx] Hl2]. cbn in Hb', Hx.
  pose proof (i_reserved _ Hi) as Hsum. rewrite Hr, sumZ_app, sumZ_cons in Hsum. cbn [snd] in Hsum.
  pose proof (reservations_nonneg l1 Hl1). pose proof (reservations_nonneg l2 Hl2).
  pose proof (writes_bounds _ _ (i_writes _ Hi)). pose proof (i_total _ Hi). pose proof (i_nonneg _ Hi).
  assert (stored_length (m, body) ≤ r) by (unfold stored_length, body_length; cbn; lia).
  split_and!; [|done | lia].
  pose proof (stored_pos (m, body)) as Hp. unfold FRAME_OVERHEAD_BYTES in *.
  constructor; [done | unfold body_length; cbn; lia |]. apply fits_spec. cbn [int_min]. lia.
Qed.

Lemma inv_write S l1 body_limit r l2 m body prepared range s :
  inv S → sys_reservations S = l1 ++ (body_limit, r) :: l2 → size body ≤ body_limit → metadata_ok m →
  write_frame (sys_spool S) m body Written = (Ok (prepared, range), s) →
  inv (after_write S s (l1 ++ l2) ((r, (m, body)) :: sys_writes S) (sys_frames S ++ [(m, body)])).
Proof.
  intros Hi Hr Hb Hm Hw.
  destruct (reserved_batch_ok S l1 body_limit r l2 m body Hi Hr Hb Hm) as (Hok & Hst & Hfit).
  assert (Hf : sp_failed (sys_spool S) = false).
  { unfold write_frame, ensure_writable in Hw. by destruct (sp_failed (sys_spool S)). }
  pose proof (i_committed _ Hi Hf) as Hcom. destruct (i_data _ Hi) as (tail & Hdata & Hinc & Htail).
  rewrite (Htail Hf), app_nil_r in Hdata. clear Htail Hinc tail.
  assert (Hsize : size (sp_data (sys_spool S)) = offset (sys_frames S)) by (by rewrite Hdata).
  unfold FRAME_OVERHEAD_BYTES in *.
  destruct (write_frame_written (sys_spool S) m body) as (prep & Hw' & _); [done | apply Hok | lia |].
  rewrite Hw in Hw'. injection Hw' as -> -> ->.
  pose proof (length_frame_of (m, body)) as Hlf.
  pose proof (i_reserved _ Hi) as Hsum. rewrite Hr, sumZ_app, sumZ_cons in Hsum. cbn [snd] in Hsum.
  destruct Hi as [S1 S2 S3 S4 S5 S6 S7 S8 S9 S10 S11 S12].
  rewrite Hr in S9. apply Forall_app in S9 as [S9 S9']. apply Forall_cons in S9' as [_ S9'].
  constructor; cbn; try done.
  - apply Forall_app. split; [done | by constructor].
  - exists []. rewrite Hdata, frames_of_app, app_nil_r. split_and!; [|by left|done].
    unfold frames_of at 3. cbn. by rewrite app_nil_r.
  - rewrite length_app. lia.
  - destruct S5 as (done & ? & ? & ? & ?). exists done. split_and!; try done. by apply prefix_app_r.
  - intros b Hin. destruct (S6 b Hin); [by left | right; set_solver].
  - intros _. rewrite sumZ_cons, offset_app, offset_cons. cbn. change (offset []) with 0. lia.
  - rewrite sumZ_app, sumZ_cons. cbn. lia.
  - by apply Forall_app.
  - constructor.
    + split; cbn; [lia | set_solver].
    + eapply Forall_impl; [exact S10|]. intros x. apply write_ok_mono. set_solver.
Qed.

(** What a failed append leaves: whole frames and an incomplete tail. *)
Lemma failed_append_data frames b io :
  batch_ok limit b → io ≠ Written →
  ∃ tail, frames_of frames ++ written io (frame_of b)
          = frames_of (frames_after_failure frames b io) ++ tail ∧ incomplete limit tail ∧
    frames `prefix_of` frames_after_failure frames b io ∧
    Forall (λ x, x = b ∨ x ∈ frames) (frames_after_failure frames b io).
Proof.
  intros Hb Hio.
  assert (Hsame : Forall (λ x, x = b ∨ x ∈ frames) frames) by (apply Forall_forall; auto).
  assert (Hmore : Forall (λ x, x = b ∨ x ∈ frames) (frames ++ [b])).
  { apply Forall_app. split; [done|]. by constructor; [left|]. }
  assert (Hone : frames_of [b] = frame_of b) by (unfold frames_of; cbn; apply app_nil_r).
  destruct io as [| |n|]; [done|..]; cbn.
  - exists []. by split_and!; [|left| |].
  - destruct (Nat.leb_spec (length (frame_of b)) n).
    + exists []. rewrite take_ge, frames_of_app, Hone, app_nil_r by done.
      split_and!; [done | by left | by apply prefix_app_r | done].
    + exists (take n (frame_of b)). split_and!; [done | by apply torn_frame_incomplete | done | done].
  - exists []. rewrite frames_of_app, Hone, app_nil_r. split_and!; [done | by left | by apply prefix_app_r | done].
Qed.

Lemma inv_write_fails S l1 body_limit r l2 m body io e s :
  inv S → sys_reservations S = l1 ++ (body_limit, r) :: l2 → size body ≤ body_limit → metadata_ok m →
  sp_failed (sys_spool S) = false → io ≠ Written →
  write_frame (sys_spool S) m body io = (Err e, s) →
  inv (after_write S (release_reservation (mark_failed s) r) (l1 ++ l2) (sys_writes S)
         (frames_after_failure (sys_frames S) (m, body) io)).
Proof.
  intros Hi Hr Hb Hm Hf Hio Hw.
  destruct (reserved_batch_ok S l1 body_limit r l2 m body Hi Hr Hb Hm) as (Hok & Hst & Hfit).
  apply write_frame_fails in Hw as ->; [|done | apply Hok | done].
  eapply inv_release; [done | done | done |]. intros _.
  pose proof (i_committed _ Hi Hf) as Hcom. destruct (i_data _ Hi) as (tail & Hdata & Hinc & Htail).
  rewrite (Htail Hf), app_nil_r in Hdata. clear Htail Hinc tail.
  assert (Hsize : size (sp_data (sys_spool S)) = offset (sys_frames S)) by (by rewrite Hdata).
  destruct (failed_append_data (sys_frames S) (m, body) io Hok Hio) as (tail & Ht & Hinc & Hpre & Hall).
  assert (Hsub : sys_frames S ⊆ frames_after_failure (sys_frames S) (m, body) io)
    by (destruct Hpre as [k ->]; set_solver).
  assert (Hwr : size (written io (frame_of (m, body))) ≤ stored_length (m, body)).
  { rewrite <- length_frame_of. destruct io; cbn; rewrite ?length_take; lia. }
  destruct Hi as [S1 S2 S3 S4 S5 S6 S7 S8 S9 S10 S11 S12].
  constructor; cbn; try done.
  - eapply Forall_impl; [exact Hall|]. intros x [->|Hx]; [done|]. rewrite Forall_forall in S2. auto.
  - exists tail. rewrite Hdata. by split_and!.
  - rewrite length_app. lia.
  - destruct S5 as (done & ? & ? & ? & ?). exists done. split_and!; try done. by etrans.
  - intros b Hin. destruct (S6 b Hin); [by left | right; set_solver].
  - eapply Forall_impl; [exact S10|]. intros x. by apply write_ok_mono.
Qed.

Lemma inv_commit S w1 r b w2 :
  inv S → sys_writes S = w1 ++ (r, b) :: w2 →
  ∃ extent s, commit_reservation (sys_spool S) r (stored_length b) = (Ok extent, s) ∧
  inv {| sys_spool := s; sys_reservations := sys_reservations S; sys_writes := w1 ++ w2;
         sys_sends := extent :: sys_sends S; sys_frames := sys_frames S;
         sys_acknowledged := b :: sys_acknowledged S; sys_completed := sys_completed S |}.
Proof.
  intros Hi Hw.
  pose proof (i_writes _ Hi) as Hws. rewrite Hw in Hws.
  apply Forall_app in Hws as [H1 H2]. apply Forall_cons in H2 as [[Hle Hin] H2]. cbn in Hle, Hin.
  pose proof (i_reserved _ Hi) as Hsum. rewrite Hw, sumZ_app, sumZ_cons in Hsum. cbn [fst] in Hsum.
  pose proof (reservations_nonneg _ (i_reservations _ Hi)). pose proof (writes_bounds _ _ H1).
  pose proof (writes_bounds _ _ H2). pose proof (i_total _ Hi) as Htot. pose proof (i_nonneg _ Hi).
  pose proof (stored_pos b) as Hp. unfold FRAME_OVERHEAD_BYTES in *.
  unfold commit_reservation. rewrite Z.gtb_ltb.
  destruct (Z.ltb_spec r (stored_length b)); [lia|].
  destruct (Z.ltb_spec (acc_reserved (sp_accounting (sys_spool S))) r); [lia|]. cbn [orb].
  rewrite checked_add_ok by lia. eexists _, _. split; [reflexivity|].
  destruct Hi as [S1 S2 S3 S4 S5 S6 S7 S8 S9 S10 S11 S12].
  constructor; cbn; try done.
  - intros x [->|Hx]%elem_of_cons; [by right | by apply S6].
  - intros Hf. specialize (S7 Hf). rewrite Hw, sumZ_app, sumZ_cons in S7. cbn in S7. rewrite sumZ_app. lia.
  - rewrite sumZ_app. lia.
  - by apply Forall_app.
  - lia.
  - lia.
Qed.

Lemma inv_send S e1 extent e2 :
  inv S → inv {| sys_spool := with_extent (sys_spool S) extent; sys_reservations := sys_reservations S;
                 sys_writes := sys_writes S; sys_sends := e1 ++ e2; sys_frames := sys_frames S;
                 sys_acknowledged := sys_acknowledged S; sys_completed := sys_completed S |}.
Proof. by intros [S1 S2 S3 S4 S5 S6 S7 S8 S9 S10 S11 S12]. Qed.

Lemma inv_advance S plan complete io r s :
  inv S → complete `prefix_of` sys_frames S → target plan = offset complete →
  advance_checkpoint (sys_spool S) plan io = (r, s) →
  inv {| sys_spool := s; sys_reservations := sys_reservations S; sys_writes := sys_writes S;
         sys_sends := sys_sends S; sys_frames := sys_frames S;
         sys_acknowledged := sys_acknowledged S; sys_completed := complete ++ sys_completed S |}.
Proof.
  intros [S1 S2 S3 S4 S5 S6 S7 S8 S9 S10 S11 S12] Hpre Htar Hadv.
  unfold advance_checkpoint in Hadv. rewrite Htar in Hadv.
  assert (Hack : ∀ b, b ∈ sys_acknowledged S → b ∈ complete ++ sys_completed S ∨ b ∈ sys_frames S).
  { intros b Hb. destruct (S6 b Hb); [left; set_solver | by right]. }
  assert (Hold : ∃ done, done `prefix_of` sys_frames S ∧
    sp_checkpoint_file (sys_spool S) = encode_checkpoint (offset done) ∧
    (sp_failed (sys_spool S) = false → sp_checkpoint (sys_spool S) = offset done) ∧
    (∀ b, b ∈ done → b ∈ complete ++ sys_completed S)).
  { destruct S5 as (done & ? & ? & ? & Hd). exists done. split_and!; try done. intros b Hb. apply Hd in Hb. set_solver. }
  destruct (ensure_writable _ ≫= _); [|injection Hadv as <- <-; by constructor].
  destruct io as [|[]]; cbn in Hadv; injection Hadv as <- <-; constructor; cbn; try done.
  - exists complete. split_and!; try done. set_solver.
  - destruct S3 as (tail & ? & ? & _). exists tail. by split_and!.
  - exists complete. split_and!; try done. set_solver.
  - destruct S3 as (tail & ? & ? & _). exists tail. by split_and!.
  - destruct Hold as (done & ? & ? & _ & ?). exists done. by split_and!.
Qed.

(** A prefix with the same end is the whole list. *)
Lemma prefix_offset (done frames : list batch) : done `prefix_of` frames → offset done = offset frames → done = frames.
Proof.
  intros [k ->]. rewrite offset_app. destruct k as [|b k]; [by rewrite app_nil_r|].
  rewrite offset_cons. pose proof (stored_pos b) as Hp. pose proof (offset_nonneg k).
  unfold FRAME_OVERHEAD_BYTES in Hp. lia.
Qed.

(** Reclamation happens only when no request is active and every frame is complete. *)
Lemma reclaim_guard S :
  inv S → sp_failed (sys_spool S) = false →
  acc_reserved (sp_accounting (sys_spool S)) = 0 →
  sp_checkpoint (sys_spool S) = acc_committed (sp_accounting (sys_spool S)) →
  sys_reservations S = [] ∧ sys_writes S = [] ∧ (∀ b, b ∈ sys_frames S → b ∈ sys_completed S).
Proof.
  intros Hi Hf Hz Hcp. pose proof (i_reserved _ Hi) as Hsum. rewrite Hz in Hsum.
  pose proof (reservations_nonneg _ (i_reservations _ Hi)). pose proof (writes_bounds _ _ (i_writes _ Hi)).
  assert (Hr : sys_reservations S = []).
  { pose proof (i_reservations _ Hi) as Hres. destruct (sys_reservations S) as [|x l]; [done|].
    apply Forall_cons in Hres as [[Hb Hx] Hl]. pose proof (reservations_nonneg _ Hl).
    rewrite sumZ_cons in *. unfold FRAME_OVERHEAD_BYTES in *. lia. }
  assert (Hw : sys_writes S = []).
  { pose proof (i_writes _ Hi) as Hws. destruct (sys_writes S) as [|x l]; [done|].
    apply Forall_cons in Hws as [[Hb _] Hl]. pose proof (writes_bounds _ _ Hl). pose proof (stored_pos (snd x)).
    rewrite sumZ_cons in *. unfold FRAME_OVERHEAD_BYTES in *. rewrite Hr in *. unfold sumZ at 1 in Hsum. cbn in Hsum. lia. }
  split_and!; try done.
  pose proof (i_committed _ Hi Hf) as Hcom. rewrite Hw in Hcom. unfold sumZ in Hcom. cbn in Hcom.
  destruct (i_checkpoint _ Hi) as (done & Hpre & _ & Hdone & Hcomp). specialize (Hdone Hf).
  rewrite <- (prefix_offset done (sys_frames S)) by (try done; lia). exact Hcomp.
Qed.


(** The cases of a reclamation that does not defer. *)
Lemma reclaim_locked_cases s io io' r s' :
  reclaim_locked s io io' = (r, s') → r ≠ Ok None → sp_failed s = false →
  acc_reserved (sp_accounting s) = 0 ∧ sp_checkpoint s = acc_committed (sp_accounting s) ∧
  sp_capacity s' = sp_capacity s ∧ acc_reserved (sp_accounting s') = 0 ∧
  ((sp_data s' = sp_data s ∧ sp_accounting s' = sp_accounting s) ∨ sp_data s' = []) ∧
  (sp_checkpoint_file s' = encode_checkpoint 0 ∨
   (sp_checkpoint_file s' = sp_checkpoint_file s ∧ sp_data s' = sp_data s)) ∧
  (sp_accounting s' = sp_accounting s ∨ acc_committed (sp_accounting s') = 0) ∧
  match r with
  | Ok _ => sp_failed s' = false ∧ sp_data s' = [] ∧ sp_checkpoint s' = 0 ∧
      sp_checkpoint_file s' = encode_checkpoint 0 ∧ acc_committed (sp_accounting s') = 0
  | Err _ => sp_failed s' = true
  end.
Proof.
  intros Hr Hne Hf. unfold reclaim_locked, ensure_writable in Hr. rewrite Hf in Hr.
  destruct (Z.eqb_spec (acc_reserved (sp_accounting s)) 0) as [Hz|]; cbn [negb orb] in Hr; [|by simplify_eq].
  destruct (Z.eqb_spec (sp_checkpoint s) 0); cbn [negb orb] in Hr; [by simplify_eq|].
  destruct (Z.eqb_spec (sp_checkpoint s) (acc_committed (sp_accounting s))); cbn [negb] in Hr; [|by simplify_eq].
  destruct io as [|[]]; cbn in Hr.
  - destruct io' as [|[]]; cbn in Hr; [|simplify_eq; cbn; naive_solver..].
    destruct (checked_add U64 _ 1); simplify_eq; cbn; naive_solver.
  - simplify_eq; cbn; naive_solver.
  - simplify_eq; cbn; naive_solver.
Qed.

Lemma inv_reclaim S io io' n extent s :
  inv S → reclaim_locked (sys_spool S) io io' = (Ok (Some (n, extent)), s) →
  inv {| sys_spool := s; sys_reservations := sys_reservations S; sys_writes := sys_writes S;
         sys_sends := extent :: sys_sends S; sys_frames := [];
         sys_acknowledged := sys_acknowledged S; sys_completed := sys_completed S |}.
Proof.
  intros Hi Hr. assert (Hf : sp_failed (sys_spool S) = false).
  { unfold reclaim_locked, ensure_writable in Hr. by destruct (sp_failed (sys_spool S)). }
  apply reclaim_locked_cases in Hr as (Hz & Hcp & Hcap & Hz' & _ & _ & _ & Hf' & Hd & Hc & Hcf & Hcom); [|done|done].
  destruct (reclaim_guard S Hi Hf Hz Hcp) as (Hres & Hws & Hcomp).
  destruct Hi as [S1 S2 S3 S4 S5 S6 S7 S8 S9 S10 S11 S12].
  constructor; cbn; rewrite ?Hres, ?Hws, ?Hd, ?Hcap, ?Hcom, ?Hz'; try done.
  - exists []. by split_and!; [|left|].
  - exists []. split_and!; [done | done | done | set_solver].
  - intros b Hb. left. destruct (S6 b Hb); [done | by apply Hcomp].
Qed.

Lemma inv_reclaim_fails S io io' e s :
  inv S → reclaim_locked (sys_spool S) io io' = (Err e, s) →
  inv (after_write S s (sys_reservations S) (sys_writes S) (if decide (sp_data s = []) then [] else sys_frames S)).
Proof.
  intros Hi Hr. destruct (sp_failed (sys_spool S)) eqn:Hf.
  { unfold reclaim_locked, ensure_writable in Hr. rewrite Hf in Hr. injection Hr as _ <-.
    case_decide as Hd; [|by rewrite after_write_same].
    destruct (i_data _ Hi) as (tail & Ht & _). rewrite Hd in Ht. symmetry in Ht. apply app_nil in Ht as [Hfr _].
    assert (Hnil : sys_frames S = []).
    { destruct (sys_frames S) as [|b l]; [done|]. rewrite frames_of_cons in Hfr. apply app_nil in Hfr as [Hb _].
      pose proof (length_frame_of b) as Hlb. rewrite Hb in Hlb. pose proof (stored_pos b) as Hp.
      unfold FRAME_OVERHEAD_BYTES in Hp. cbn in Hlb. lia. }
    rewrite <- Hnil. by rewrite after_write_same. }
  apply reclaim_locked_cases in Hr as (Hz & Hcp & Hcap & Hz' & Hdata & Hcf & Hacc & Hf'); [|done|done].
  destruct (reclaim_guard S Hi Hf Hz Hcp) as (Hres & Hws & Hcomp).
  assert (Hcom : 0 ≤ acc_committed (sp_accounting s) ≤ capacity).
  { pose proof (i_nonneg _ Hi). pose proof (i_total _ Hi). destruct Hacc as [->| ->]; lia. }
  destruct Hi as [S1 S2 S3 S4 S5 S6 S7 S8 S9 S10 S11 S12].
  constructor; cbn; rewrite ?Hres, ?Hws, ?Hcap, ?Hz'; try done; try lia.
  - by case_decide.
  - case_decide as Hd; [exists []; rewrite Hd; by split_and!; [|left|]|].
    destruct Hdata as [[-> _]|]; [|done]. destruct S3 as (tail & ? & ? & _). exists tail.
    split_and!; [done | done | congruence].
  - destruct Hdata as [[-> _]| ->]; [done|]. cbn. lia.
  - case_decide as Hd.
    + exists []. split_and!; [done | | congruence | set_solver].
      destruct Hcf as [->|[-> Hsame]]; [done|]. rewrite Hd in Hsame.
      destruct S5 as (done & Hpre & -> & _). destruct S3 as (tail & Ht & _). rewrite <- Hsame in Ht.
      symmetry in Ht. apply app_nil in Ht as [Hfr _]. destruct Hpre as [k Hk]. rewrite Hk, frames_of_app in Hfr.
      apply app_nil in Hfr as [Hfr _]. unfold offset. by rewrite Hfr.
    + destruct Hcf as [->|[-> _]].
      * exists []. split_and!; [apply prefix_nil | done | congruence | set_solver].
      * destruct S5 as (done & ? & ? & _ & ?). exists done. split_and!; try done. congruence.
  - intros b Hb. left. destruct (S6 b Hb); [done | by apply Hcomp].
  - congruence.
Qed.

(** Recovery of the files of any state that satisfies the invariant succeeds. *)
Lemma recover_inv S :
  inv S → ∃ done todo report,
    sys_frames S = done ++ todo ∧ (∀ b, b ∈ done → b ∈ sys_completed S) ∧
    sp_checkpoint_file (sys_spool S) = encode_checkpoint (offset done) ∧
    recover (sp_checkpoint_file (sys_spool S)) (sp_data (sys_spool S)) (sp_capacity (sys_spool S)) limit =
    Ok (from_recovered (frames_of (done ++ todo)) (encode_checkpoint (offset done)) capacity
          (offset (done ++ todo)) (offset done),
        {| rs_position := offset done; rs_recovered_end := offset (done ++ todo); rs_generation := 0;
           rs_body_limit := limit; rs_state := ReadingRecovery |}, report) ∧
    rr_pending_batches report = Z.of_nat (length todo).
Proof.
  intros Hi. destruct (i_checkpoint _ Hi) as (done & [todo Hfr] & Hcf & _ & Hcomp).
  destruct (i_data _ Hi) as (tail & Hdata & Hinc & _).
  pose proof (i_size _ Hi) as Hsize. pose proof (i_frames _ Hi) as Hok. rewrite Hfr in *.
  pose proof (offset_nonneg done) as Hn. pose proof (offset_nonneg todo).
  assert (Hle : offset (done ++ todo) ≤ capacity).
  { rewrite Hdata, length_app in Hsize. unfold offset. lia. }
  rewrite offset_app in Hle. unfold FRAME_OVERHEAD_BYTES in *.
  unfold recover, recover_files. rewrite Hcf, (i_capacity _ Hi).
  assert (Hload : load_checkpoint (Some (encode_checkpoint (offset done))) = Ok (offset done)).
  { apply load_checkpoint_encode, fits_spec. cbn [int_min]. lia. }
  rewrite Hload. cbn [mbind result_bind ok_or]. rewrite Hdata, scan_frames; [|split; [done|]|done|done].
  2:{ rewrite Hdata in Hsize. unfold FRAME_OVERHEAD_BYTES. lia. }
  cbn [mbind result_bind committed_bytes discarded_tail_bytes committed_batches pending_batches].
  unfold reserved_frame_bytes, FRAME_OVERHEAD_BYTES. rewrite checked_add_ok by lia. cbn [ok_or mbind result_bind].
  assert (Hcut : (if size tail >? 0 then take (Z.to_nat (offset (done ++ todo))) (frames_of (done ++ todo) ++ tail)
    else frames_of (done ++ todo) ++ tail) = frames_of (done ++ todo)).
  { rewrite Z.gtb_ltb. destruct (Z.ltb_spec 0 (size tail)).
    - unfold offset. by rewrite Nat2Z.id, take_app_length.
    - destruct tail; [by rewrite app_nil_r | cbn in *; lia]. }
  rewrite Hcut. do 3 eexists. split_and!; [done | done | done | reflexivity | done].
Qed.

Lemma inv_crash S s reader report :
  inv S →
  recover (sp_checkpoint_file (sys_spool S)) (sp_data (sys_spool S)) (sp_capacity (sys_spool S)) limit
    = Ok (s, reader, report) →
  inv {| sys_spool := s; sys_reservations := []; sys_writes := []; sys_sends := [];
         sys_frames := sys_frames S; sys_acknowledged := sys_acknowledged S;
         sys_completed := sys_completed S |}.
Proof.
  intros Hi Hr. destruct (recover_inv S Hi) as (done & todo & rep & Hfr & Hcomp & _ & Hr' & _).
  rewrite Hr in Hr'. injection Hr' as -> _ _.
  destruct (i_data _ Hi) as (tail & Hdata & _). pose proof (i_size _ Hi) as Hsize.
  rewrite Hdata, length_app, Hfr in Hsize.
  destruct Hi as [S1 S2 S3 S4 S5 S6 S7 S8 S9 S10 S11 S12]. rewrite Hfr in *.
  constructor; cbn; try done.
  - exists []. rewrite app_nil_r. by split_and!; [|left|].
  - unfold frames_of in *. lia.
  - exists done. split_and!; try done. by exists todo.
  - intros _. unfold sumZ. cbn. lia.
  - unfold offset. lia.
  - unfold offset, frames_of in *. lia.
Qed.

Lemma inv_step S S' : inv S → step limit S S' → inv S'.
Proof.
  intros Hi Hst. destruct Hst.
  - by eapply inv_reserve.
  - eapply inv_release; [done | done | done |]. intros _. by rewrite after_write_same.
  - by eapply inv_write.
  - by eapply inv_write_fails.
  - eapply inv_release; [done | done | done |]. by apply inv_mark_failed.
  - match goal with Hw : sys_writes S = _ |- _ => destruct (inv_commit S _ _ _ _ Hi Hw) as (? & ? & Hc & ?) end.
    simplify_eq. congruence.
  - by apply inv_send.
  - by eapply inv_advance.
  - by eapply inv_reclaim.
  - by eapply inv_reclaim_fails.
  - by eapply inv_crash.
Qed.

Lemma reachable_inv S : reachable limit capacity S → inv S.
Proof. induction 1; [apply inv_initial | by eapply inv_step]. Qed.


(** ** Theorems *)

(** C2: no acknowledged batch is lost. In every state that requests, failed
    writes at any byte, checkpoint advances, reclamations, crashes and recoveries can
    reach, the data file is a sequence of whole frames and an incomplete rest, the durable
    checkpoint is the end of one of the frames, and a further crash is recovered: the
    recovered file holds exactly the frames, and reading it to its end returns exactly the
    batches of the frames after the checkpoint, each at its place in the file. Every
    batch before the checkpoint was declared complete by a checkpoint plan, and every
    acknowledged batch is one of the batches read or was declared complete. *)
Theorem acknowledged_batches_survive S extent :
  reachable limit capacity S →
  ∃ done todo tail s reader report,
    sp_data (sys_spool S) = frames_of (done ++ todo) ++ tail ∧ incomplete limit tail ∧
    load_checkpoint (Some (sp_checkpoint_file (sys_spool S))) = Ok (offset done) ∧
    recover (sp_checkpoint_file (sys_spool S)) (sp_data (sys_spool S)) (sp_capacity (sys_spool S)) limit
      = Ok (s, reader, report) ∧
    sp_data s = frames_of (done ++ todo) ∧
    fst (drain (Datatypes.S (length todo)) reader extent (sp_data s)) = Ok (recovered_from (offset done) todo) ∧
    (∀ b, b ∈ done → b ∈ sys_completed S) ∧
    (∀ b, b ∈ sys_acknowledged S → b ∈ sys_completed S ∨ b ∈ todo).
Proof.
  intros Hi%reachable_inv. destruct (recover_inv S Hi) as (done & todo & report & Hfr & Hcomp & Hcf & Hr & _).
  destruct (i_data _ Hi) as (tail & Hdata & Hinc & _). pose proof (i_size _ Hi) as Hsize.
  rewrite Hfr in Hdata. pose proof (offset_nonneg done). pose proof (offset_nonneg todo).
  assert (Hle : offset (done ++ todo) ≤ capacity).
  { rewrite Hdata, length_app in Hsize. unfold offset. lia. }
  exists done, todo, tail. do 3 eexists. split_and!; [exact Hdata | exact Hinc | | exact Hr | reflexivity | | exact Hcomp |].
  - rewrite Hcf. apply load_checkpoint_encode, fits_spec. rewrite offset_app in Hle.
    unfold FRAME_OVERHEAD_BYTES in *. cbn [int_min]. lia.
  - pose proof (i_frames _ Hi) as Hok. rewrite Hfr in Hok. apply Forall_app in Hok as [_ Hok].
    cbn [from_recovered sp_data].
    pose proof (drain_frames limit done todo [] extent
      {| rs_position := offset done; rs_recovered_end := offset (done ++ todo); rs_generation := 0;
         rs_body_limit := limit; rs_state := ReadingRecovery |} (Datatypes.S (length todo))) as Hd.
    rewrite app_nil_r in Hd. rewrite Hd; try done; [|lia].
    unfold offset, FRAME_OVERHEAD_BYTES in *. lia.
  - intros b Hb. destruct (i_acknowledged _ Hi b Hb) as [|Hin]; [by left|].
    rewrite Hfr in Hin. apply elem_of_app in Hin as [Hin|Hin]; [left; by apply Hcomp | by right].
Qed.

(** C8: capacity accounting. In every reachable state the data file and the
    committed and reserved bytes together stay within the capacity, the reserved bytes
    are exactly those of live requests, the data file of a writable spool holds whole
    frames that are either committed or in flight, and the commit of a frame in flight
    always succeeds. *)
Theorem spool_accounting S :
  reachable limit capacity S →
  let a := sp_accounting (sys_spool S) in
  size (sp_data (sys_spool S)) ≤ capacity ∧ acc_committed a + acc_reserved a ≤ capacity ∧
  acc_reserved a = sumZ snd (sys_reservations S) + sumZ fst (sys_writes S) ∧
  (sp_failed (sys_spool S) = false →
     sp_data (sys_spool S) = frames_of (sys_frames S) ∧
     acc_committed a + sumZ (stored_length ∘ snd) (sys_writes S) = size (sp_data (sys_spool S))) ∧
  (∀ w1 r b w2, sys_writes S = w1 ++ (r, b) :: w2 →
     ∃ extent s, commit_reservation (sys_spool S) r (stored_length b) = (Ok extent, s)).
Proof.
  intros Hi%reachable_inv a. split_and!; try apply Hi.
  - intros Hf. destruct (i_data _ Hi) as (tail & Hdata & _ & Ht). rewrite (Ht Hf), app_nil_r in Hdata.
    split; [done|]. rewrite Hdata. by apply i_committed.
  - intros w1 r b w2 Hw. destruct (inv_commit S w1 r b w2 Hi Hw) as (extent & s & Hc & _). eauto.
Qed.

(** An append without interference. It stores the frame at the end of the
    file, and the reader that has read everything before it gets back exactly the
    batch, in the range that was acknowledged. *)
Theorem append_then_read s l body_limit r m body reader :
  sp_failed s = false → sp_data s = frames_of l → acc_committed (sp_accounting s) = offset l →
  batch_ok body_limit (m, body) → body_limit ≤ limit → r = body_limit + FRAME_OVERHEAD_BYTES →
  r ≤ acc_reserved (sp_accounting s) → offset l + r ≤ int_max U64 →
  rs_state reader = Following → rs_body_limit reader = limit →
  rs_generation reader = acc_generation (sp_accounting s) → rs_position reader = offset l →
  ∃ d s', append s body_limit r m body Written = (Ok d, s') ∧
    sp_data s' = frames_of (l ++ [(m, body)]) ∧
    acc_committed (sp_accounting s') = offset (l ++ [(m, body)]) ∧
    acc_reserved (sp_accounting s') = acc_reserved (sp_accounting s) - r ∧
    next_batch reader (sp_extent s') (sp_data s') =
      (Ok (Some {| rb_metadata := m; rb_body := body; rb_body_digest := da_body_digest d; rb_range := da_range d |}),
       set_position reader (rs_generation reader) (offset (l ++ [(m, body)]))).
Proof.
  clear Hlimit Hcapacity Hwidth. intros Hf Hdata Hcom [Hm Hle Hfit] Hbl Hr Hres Hmax Hrs Hrl Hrg Hrp.
  assert (Hstl : stored_length (m, body) ≤ r) by (unfold stored_length; lia).
  pose proof (stored_pos (m, body)) as Hp. unfold FRAME_OVERHEAD_BYTES in *. pose proof (offset_nonneg l).
  unfold append, body_length in *. cbn [snd] in *. rewrite Z.gtb_ltb.
  destruct (Z.ltb_spec body_limit (size body)); [lia|]. unfold ensure_writable at 1. rewrite Hf.
  destruct (write_frame_written s m body) as (prepared & Hw & Hst); [done | done | rewrite Hdata; unfold offset in *; lia |].
  pose proof Hw as Hw'. unfold append_reserved. rewrite Hw, Hst.
  unfold commit_reservation. cbn [with_data sp_accounting]. rewrite Hcom, Z.gtb_ltb.
  destruct (Z.ltb_spec r (stored_length (m, body))); [lia|].
  destruct (Z.ltb_spec (acc_reserved (sp_accounting s)) r); [lia|]. cbn [orb].
  rewrite checked_add_ok by lia. do 2 eexists. split; [reflexivity|].
  assert (Hone : frames_of (l ++ [(m, body)]) = frames_of l ++ frame_of (m, body)).
  { rewrite frames_of_app. unfold frames_of at 2. cbn. by rewrite app_nil_r. }
  assert (Hoff : offset (l ++ [(m, body)]) = offset l + stored_length (m, body)).
  { rewrite offset_app, offset_cons. change (offset []) with 0. lia. }
  cbn [with_extent with_accounting with_data sp_data sp_accounting sp_extent acc_committed acc_reserved
    da_body_digest da_range].
  split_and!; [by rewrite Hdata, Hone | by rewrite Hoff | done |].
  assert (Hpd : pf_body_digest prepared = blake3 body).
  { unfold write_frame, ensure_writable in Hw'. rewrite Hf in Hw'. cbn [mbind result_bind] in Hw'.
    rewrite PreparedFrame_new_Ok in Hw' by done. cbn [pf_stored_bytes] in Hw'.
    rewrite checked_add_ok in Hw' by (rewrite Hdata; unfold offset in *; lia).
    cbn [ok_or mbind result_bind] in Hw'. unfold SpoolBatchRange_new in Hw'. case_match; simplify_eq. done. }
  rewrite Hpd, Hdata, <- Hone. fold (offset l).
  pose proof (follow_frame limit reader l (m, body) [] []
    {| generation := acc_generation (sp_accounting s); end_ := offset l + stored_length (m, body) |}) as Hread.
  rewrite (app_nil_r (frames_of _)) in Hread. apply Hread; try done;
    [|eapply Z.le_trans; [apply Z.eq_le_incl, Hoff | lia]].
  constructor; [done | unfold body_length; cbn; lia | done].
Qed.

(** ** A race *)

Lemma reserve_Ok s :
  sp_failed s = false → sp_capacity s = capacity → 0 ≤ acc_committed (sp_accounting s) →
  0 ≤ acc_reserved (sp_accounting s) →
  acc_committed (sp_accounting s) + acc_reserved (sp_accounting s) + (limit + FRAME_OVERHEAD_BYTES) ≤ capacity →
  reserve s limit = Ok (limit + FRAME_OVERHEAD_BYTES,
    with_accounting s {| acc_generation := acc_generation (sp_accounting s);
      acc_committed := acc_committed (sp_accounting s);
      acc_reserved := acc_reserved (sp_accounting s) + (limit + FRAME_OVERHEAD_BYTES) |}).
Proof.
  intros Hf Hc H1 H2 H3. unfold FRAME_OVERHEAD_BYTES in *.
  unfold reserve, ensure_writable, reserved_frame_bytes, occupied_bytes, saturating_sub, FRAME_OVERHEAD_BYTES.
  rewrite Hf, Hc. cbn zeta. cbn [mbind result_bind].
  rewrite (checked_add_ok limit), (checked_add_ok (acc_committed (sp_accounting s))) by lia.
  cbn [ok_or mbind result_bind]. rewrite (checked_add_ok (acc_reserved (sp_accounting s))) by lia.
  cbn [ok_or mbind result_bind]. rewrite Z.gtb_ltb.
  match goal with |- context [?x <? ?y] => destruct (Z.ltb_spec x y); [lia|] end. done.
Qed.

(** A frame that does not end within the extent is reported as corruption. *)
Lemma read_beyond_extent a post end_ :
  batch_ok limit a → end_ < stored_length a → stored_length a ≤ int_max U64 →
  read_recovered_batch (frame_of a ++ post) 0 end_ limit
  = Err (ECorrupt "recovered spool frame exceeds its committed range").
Proof.
  intros Ha He Hm. pose proof (stored_pos a) as Hp. unfold FRAME_OVERHEAD_BYTES in Hp.
  unfold read_recovered_batch, read_exact_committed.
  pose proof (header_read [] (frame_of a ++ post) (header_of a) ((snd a ++ footer_of a) ++ post) 0 eq_refl
    (length_header_of a)) as Hh. cbn [app] in Hh. rewrite Hh by (unfold frame_of; by rewrite <- !app_assoc).
  cbn [ok_or mbind result_bind]. rewrite decode_header_of by done.
  cbn [mbind result_bind decoded dh_stored_bytes]. rewrite checked_add_ok by lia.
  cbn [ok_or mbind result_bind]. rewrite Z.gtb_ltb. destruct (Z.ltb_spec end_ (0 + stored_length a)); [done | lia].
Qed.

(** C37: the extent sent to the reader can end inside a frame. Two requests write
    their frames in one order and commit in the other: after the second commit the
    file holds two whole frames and the spool has not failed, but the reader that
    follows it takes the extent for the end of the data, reports corruption and stops
    for good. *)
Theorem reader_race a b :
  batch_ok limit a → batch_ok limit b → stored_length b < stored_length a →
  2 * (limit + FRAME_OVERHEAD_BYTES) ≤ capacity →
  let reader := {| rs_position := 0; rs_recovered_end := 0; rs_generation := 0; rs_body_limit := limit;
                   rs_state := Following |} in
  ∃ S, reachable limit capacity S ∧ sp_failed (sys_spool S) = false ∧
    sp_data (sys_spool S) = frames_of [a; b] ∧ sys_acknowledged S = [b] ∧
    next_batch reader (sp_extent (sys_spool S)) (sp_data (sys_spool S)) =
    (Err (ECorrupt "recovered spool frame exceeds its committed range"), set_state reader Failed).
Proof.
  intros Ha Hb Hlt Hcap reader.
  pose proof (stored_pos a) as Hpa. pose proof (stored_pos b) as Hpb.
  assert (Hsa : stored_length a ≤ limit + FRAME_OVERHEAD_BYTES) by (unfold stored_length; pose proof (bo_limit _ _ Ha); lia).
  set (R := limit + FRAME_OVERHEAD_BYTES) in *. unfold FRAME_OVERHEAD_BYTES in *.
  assert (H2 : ∃ S, reachable limit capacity S ∧ sys_reservations S = [(limit, R); (limit, R)] ∧
    sys_writes S = [] ∧ sys_frames S = [] ∧ sys_acknowledged S = [] ∧ sys_sends S = [] ∧
    sys_spool S = with_accounting (sys_spool (initial capacity))
      {| acc_generation := 0; acc_committed := 0; acc_reserved := 0 + R + R |}).
  { eexists. split.
    - eapply reachable_step; [eapply reachable_step; [apply reachable_initial|]|].
      + eapply (step_reserve limit _ limit); [lia|]. apply reserve_Ok; cbn; unfold FRAME_OVERHEAD_BYTES; lia.
      + eapply (step_reserve limit _ limit); [lia|]. apply reserve_Ok; cbn; unfold FRAME_OVERHEAD_BYTES; try done; lia.
    - by split_and!. }
  destruct H2 as (S2 & HR2 & Hres & Hw & Hfr & Hack & Hsend & Hsp).
  destruct (write_frame_written (sys_spool S2) (fst a) (snd a)) as (pa & Hwa & _).
  { by rewrite Hsp. } { destruct a; apply Ha. } { rewrite Hsp. destruct a. cbn in *. lia. }
  assert (HR3 := HR2). eapply reachable_step in HR3; [|eapply (step_write limit _ [] limit R [(limit, R)]);
    [exact Hres | apply Ha | apply Ha | exact Hwa]].
  match type of HR3 with reachable _ _ ?X => set (S3 := X) in HR3 end.
  assert (Hd3 : sp_data (sys_spool S3) = frame_of a) by (cbn; rewrite Hsp; by destruct a).
  destruct (write_frame_written (sys_spool S3) (fst b) (snd b)) as (pb & Hwb & _).
  { cbn. by rewrite Hsp. } { destruct b; apply Hb. } { rewrite Hd3, length_frame_of. destruct b. cbn in *. lia. }
  assert (HR4 := HR3). eapply reachable_step in HR4; [|eapply (step_write limit _ [] limit R []);
    [done | apply Hb | apply Hb | exact Hwb]].
  match type of HR4 with reachable _ _ ?X => set (S4 := X) in HR4 end.
  assert (Hw4 : sys_writes S4 = [] ++ (R, b) :: [(R, a)]) by (cbn; rewrite Hw; by destruct a, b).
  destruct (inv_commit S4 [] R b [(R, a)] (reachable_inv _ HR4) Hw4) as (extent & s5 & Hc & _).
  assert (HR5 := HR4). eapply reachable_step in HR5; [|eapply step_commit; [exact Hw4 | exact Hc]].
  match type of HR5 with reachable _ _ ?X => set (S5 := X) in HR5 end.
  assert (HR6 := HR5). eapply reachable_step in HR6; [|eapply (step_send limit _ [] extent []); cbn; by rewrite Hsend].
  match type of HR6 with reachable _ _ ?X => set (S6 := X) in HR6 end.
  assert (Hex : extent = {| generation := 0; end_ := stored_length b |} ∧ sp_failed s5 = false ∧
    sp_data s5 = frame_of a ++ frame_of b).
  { unfold commit_reservation in Hc. cbn in Hc. rewrite Hsp in Hc. cbn in Hc.
    destruct (_ || _); [done|]. rewrite checked_add_ok in Hc by lia. injection Hc as <- <-. cbn.
    by destruct a, b. }
  destruct Hex as (-> & Hf5 & Hd5). exists S6. split_and!; [done | done | | | ].
  - cbn. rewrite Hd5, frames_of_cons. unfold frames_of. cbn. by rewrite app_nil_r.
  - cbn. by rewrite Hack.
  - cbn. rewrite Hd5. unfold next_batch, read_next. cbn. rewrite Z.gtb_ltb.
    destruct (Z.ltb_spec (stored_length b) 0); [lia|].
    rewrite read_beyond_extent by (try done; lia).
    destruct (stored_length b) eqn:E; [lia | done | lia].
Qed.

End Invariant.

(** ** A concrete run: one batch is reserved, written and committed *)

Definition sample_spool : Spool :=
  with_accounting (from_recovered [] (encode_checkpoint 0) 1000 0 0)
    {| acc_generation := 0; acc_committed := 0; acc_reserved := 212 |}.

Definition sample_written : Spool := with_data sample_spool (frame_of (sample_batch "{}")).

Definition sample_system : system :=
  {| sys_spool := with_accounting sample_written
       {| acc_generation := 0; acc_committed := 198; acc_reserved := 0 |};
     sys_reservations := []; sys_writes := []; sys_sends := [{| generation := 0; end_ := 198 |}];
     sys_frames := [sample_batch "{}"]; sys_acknowledged := [sample_batch "{}"]; sys_completed := [] |}.

Lemma sample_reachable : reachable 16 1000 sample_system.
Proof.
  assert (H1 : reachable 16 1000 (after_write (initial 1000) sample_spool [(16, 212)] [] [])).
  { eapply reachable_step; [apply reachable_initial|].
    apply (step_reserve 16 (initial 1000) 16 212 sample_spool); [lia | vm_compute; reflexivity]. }
  assert (H2 : reachable 16 1000 (after_write (initial 1000) sample_written [] [(212, sample_batch "{}")]
    [sample_batch "{}"])).
  { eapply reachable_step; [exact H1|].
    destruct (write_frame_written sample_spool sample_metadata (ascii_bytes "{}")) as (prepared & Hw & _);
      [reflexivity | vm_compute; reflexivity | vm_compute; intros [=] |].
    eapply (step_write 16 (after_write (initial 1000) sample_spool [(16, 212)] [] []) [] 16 212 [] sample_metadata (ascii_bytes "{}") prepared _ sample_written eq_refl);
      [simpl; lia | apply (sample_batch_ok 16 "{}"); vm_compute; split; intros [=] | exact Hw]. }
  eapply reachable_step; [exact H2|].
  apply (step_commit 16 (after_write (initial 1000) sample_written [] [(212, sample_batch "{}")]
    [sample_batch "{}"]) [] 212 (sample_batch "{}") [] {| generation := 0; end_ := 198 |});
    [reflexivity | vm_compute; reflexivity].
Qed.

Lemma acknowledged_batches_survive_witness :
  ∃ done todo tail s reader report,
    sp_data (sys_spool sample_system) = frames_of (done ++ todo) ++ tail ∧ incomplete 16 tail ∧
    load_checkpoint (Some (sp_checkpoint_file (sys_spool sample_system))) = Ok (offset done) ∧
    recover (sp_checkpoint_file (sys_spool sample_system)) (sp_data (sys_spool sample_system)) 1000 16
      = Ok (s, reader, report) ∧
    sp_data s = frames_of (done ++ todo) ∧
    fst (drain (Datatypes.S (length todo)) reader {| generation := 0; end_ := 0 |} (sp_data s))
      = Ok (recovered_from (offset done) todo) ∧
    (∀ b, b ∈ done → b ∈ []) ∧ (∀ b, b ∈ [sample_batch "{}"] → b ∈ [] ∨ b ∈ todo).
Proof.
  apply (acknowledged_batches_survive 16 1000); [lia | lia | vm_compute; intros [=] | exact sample_reachable].
Defined.

Lemma spool_accounting_witness : Z.of_nat (length (sp_data (sys_spool sample_system))) ≤ 1000.
Proof.
  apply (spool_accounting 16 1000); [lia | lia | vm_compute; intros [=] | exact sample_reachable].
Defined.

Lemma append_then_read_witness :
  ∃ d s', append sample_spool 16 212 sample_metadata (ascii_bytes "{}") Written = (Ok d, s') ∧
    sp_data s' = frames_of [sample_batch "{}"].
Proof.
  destruct (append_then_read 16 sample_spool [] 16 212 sample_metadata (ascii_bytes "{}")
    {| rs_position := 0; rs_recovered_end := 0; rs_generation := 0; rs_body_limit := 16; rs_state := Following |})
    as (d & s' & H1 & H2 & _).
  - reflexivity.
  - reflexivity.
  - reflexivity.
  - apply (sample_batch_ok 16 "{}"); vm_compute; split; intros [=].
  - lia.
  - reflexivity.
  - vm_compute; intros [=].
  - vm_compute; intros [=].
  - reflexivity.
  - reflexivity.
  - reflexivity.
  - reflexivity.
  - exists d, s'. split; [exact H1 | exact H2].
Defined.

Lemma reader_race_witness :
  ∃ S, reachable 16 1000 S ∧ sp_failed (sys_spool S) = false ∧
    sys_acknowledged S = [sample_batch "{}"].
Proof.
  destruct (reader_race 16 1000 ltac:(lia) ltac:(lia) ltac:(vm_compute; intros [=])
    (sample_batch "{ }") (sample_batch "{}")) as (S & H1 & H2 & _ & H3 & _).
  - apply sample_batch_ok; vm_compute; split; intros [=].
  - apply sample_batch_ok; vm_compute; split; intros [=].
  - vm_compute. reflexivity.
  - vm_compute. intros [=].
  - exists S. split; [exact H1 | split; [exact H2 | exact H3]].
Defined.
