(* ===== verification/Json.v ===== *)
(** * elucid-ingestion: the JSON parser of records

    Models [JsonParser] of src/elucid/elucid-ingestion/src/normalization.rs. The parser
    state is the input from [position] on. The numbers of serde_json, its decoding of
    one string token and its rendering of a number are parameters. A serde_json map is
    an association list with distinct keys in the order of insertion. The crate keeps a
    map sorted by key; that order shows only where a map is written as text, which is a
    parameter.

    A container at depth [d] may be opened when [d < 128]: the argument [levels] counts
    the containers that may still be opened, [levels = 128 - depth], and the recursion
    of [parse_value] is structural in it. The loops over elements and members consume a
    byte in every round, so the length of the input is enough fuel for them;
    [parse_object_grammar] shows that fuel never decides. *)

From S2P Require Import Prelude Core CatalogTypes Bytes.

#[local] Open Scope nat_scope.
#[local] Open Scope char_scope.

(** ** Parameters: serde_json *)

Class JsonLib := {
  Number : Type;
  (** [Number::from_str], [as_i64], [as_u64] and [to_string] *)
  Number_from_str : bytes → option Number;
  as_i64 : Number → option Z;
  as_u64 : Number → option Z;
  number_to_string : Number → string;
  (** [serde_json::from_slice::<String>] of a string token with its quotes *)
  string_from_slice : bytes → option string;
}.

(** The results of [as_i64] and [as_u64] have the width of their types and are the
    value of the number. *)
Class JsonLibLaws `{JsonLib} : Prop := {
  as_i64_fits n z : as_i64 n = Some z → fits I64 z = true;
  as_u64_fits n z : as_u64 n = Some z → fits U64 z = true;
  as_i64_u64 n x y : as_i64 n = Some x → as_u64 n = Some y → x = y;
}.

(** ** Definitions *)

Section Json.
Context `{JsonLib}.

(** [serde_json::Value] *)
#[warnings="-register-all"]
Inductive Value :=
| VNull
| VBool (b : bool)
| VNumber (n : Number)
| VString (s : string)
| VArray (values : list Value)
| VObject (members : list (string * Value)).

Definition MAXIMUM_JSON_CONTAINER_DEPTH : nat := 128.

Definition quote : ascii := "034".

Definition is_json_whitespace (c : ascii) : bool :=
  bool_decide (c = " ") || bool_decide (c = "009") || bool_decide (c = "013") || bool_decide (c = "010").

Definition is_value_delimiter (c : ascii) : bool :=
  is_json_whitespace c || bool_decide (c = ",") || bool_decide (c = "]") || bool_decide (c = "}").

Fixpoint skip_whitespace (b : bytes) : bytes :=
  match b with
  | c :: b' => if is_json_whitespace c then skip_whitespace b' else b
  | [] => []
  end.

(** [consume]; [consume_if] is its success. *)
Definition consume (expected : ascii) (b : bytes) : option bytes :=
  match b with
  | c :: b' => if decide (c = expected) then Some b' else None
  | [] => None
  end.

Definition consume_literal (literal : bytes) (b : bytes) : option bytes :=
  if decide (take (length literal) b = literal) then Some (drop (length literal) b) else None.

(** The loop of [parse_string]: the bytes up to the closing quote and the rest. *)
Fixpoint scan_string (escaped : bool) (b : bytes) : option (bytes * bytes) :=
  match b with
  | [] => None
  | c :: b' =>
      if escaped then '(t, rest) ← scan_string false b'; Some (c :: t, rest)
      else if decide (c = "\") then '(t, rest) ← scan_string true b'; Some (c :: t, rest)
      else if decide (c = quote) then Some ([c], b')
      else '(t, rest) ← scan_string false b'; Some (c :: t, rest)
  end.

Definition parse_string (b : bytes) : option (string * bytes) :=
  b ← consume quote b;
  '(t, rest) ← scan_string false b;
  s ← string_from_slice (quote :: t);
  Some (s, rest).

Fixpoint scan_number (b : bytes) : bytes * bytes :=
  match b with
  | c :: b' =>
      if is_value_delimiter c then ([], b)
      else let '(t, rest) := scan_number b' in (c :: t, rest)
  | [] => ([], [])
  end.

Definition parse_number (b : bytes) : option (Number * bytes) :=
  let '(t, rest) := scan_number b in
  if utf8_valid t then n ← Number_from_str t; Some (n, rest) else None.

(** The loops of [parse_array] and [parse_map] take the parser of a child. *)
Fixpoint array_loop (child : bytes → option (Value * bytes)) (fuel : nat) (values : list Value) (b : bytes)
    : option (list Value * bytes) :=
  match fuel with
  | O => None
  | S fuel =>
      '(v, b) ← child b;
      let values := values ++ [v] in
      let b := skip_whitespace b in
      match consume "]" b with
      | Some b => Some (values, b)
      | None => b ← consume "," b; array_loop child fuel values b
      end
  end.

Fixpoint map_loop (child : bytes → option (Value * bytes)) (fuel : nat) (values : list (string * Value))
    (b : bytes) : option (list (string * Value) * bytes) :=
  match fuel with
  | O => None
  | S fuel =>
      '(key, b) ← parse_string (skip_whitespace b);
      if decide (key ∈ values.*1) then None else
      b ← consume ":" (skip_whitespace b);
      '(v, b) ← child b;
      let values := values ++ [(key, v)] in
      let b := skip_whitespace b in
      match consume "}" b with
      | Some b => Some (values, b)
      | None => b ← consume "," b; map_loop child fuel values b
      end
  end.

Definition parse_array (child : bytes → option (Value * bytes)) (b : bytes) : option (Value * bytes) :=
  b ← consume "[" b;
  let b := skip_whitespace b in
  match consume "]" b with
  | Some b => Some (VArray [], b)
  | None => '(values, b) ← array_loop child (length b) [] b; Some (VArray values, b)
  end.

Definition parse_map (child : bytes → option (Value * bytes)) (b : bytes) : option (Value * bytes) :=
  b ← consume "{" b;
  let b := skip_whitespace b in
  match consume "}" b with
  | Some b => Some (VObject [], b)
  | None => '(values, b) ← map_loop child (length b) [] b; Some (VObject values, b)
  end.

(** [next_depth] fails when no level is left. *)
Fixpoint parse_value (levels : nat) (b : bytes) : option (Value * bytes) :=
  let b := skip_whitespace b in
  match b with
  | [] => None
  | c :: _ =>
      if decide (c = "n") then b ← consume_literal (ascii_bytes "null") b; Some (VNull, b)
      else if decide (c = "t") then b ← consume_literal (ascii_bytes "true") b; Some (VBool true, b)
      else if decide (c = "f") then b ← consume_literal (ascii_bytes "false") b; Some (VBool false, b)
      else if decide (c = quote) then '(s, b) ← parse_string b; Some (VString s, b)
      else if decide (c = "[") then
        match levels with O => None | S levels => parse_array (parse_value levels) b end
      else if decide (c = "{") then
        match levels with O => None | S levels => parse_map (parse_value levels) b end
      else if bool_decide (c = "-") || is_ascii_digit c then '(n, b) ← parse_number b; Some (VNumber n, b)
      else None
  end.

Definition parse_object (b : bytes) : option (list (string * Value)) :=
  '(value, rest) ← parse_value MAXIMUM_JSON_CONTAINER_DEPTH (skip_whitespace b);
  match skip_whitespace rest, value with
  | [], VObject members => Some members
  | _, _ => None
  end.

(** ** The grammar of records *)

Definition blank (w : bytes) : Prop := Forall (λ c, is_json_whitespace c = true) w.

(** The inside of a string token with its closing quote: no quote that is not escaped
    before the end. *)
Inductive string_chars : bytes → Prop :=
| chars_end : string_chars [quote]
| chars_escape c t : string_chars t → string_chars ("\" :: c :: t)
| chars_plain c t : c ≠ "\" → c ≠ quote → string_chars t → string_chars (c :: t).

Definition string_token (s : string) (t : bytes) : Prop :=
  ∃ body, string_chars body ∧ t = quote :: body ∧ string_from_slice t = Some s.

Definition number_token (n : Number) (t : bytes) : Prop :=
  (∃ c t', t = c :: t' ∧ (c = "-" ∨ is_ascii_digit c = true)) ∧
  Forall (λ c, is_value_delimiter c = false) t ∧ utf8_valid t = true ∧ Number_from_str t = Some n.

(** One or more elements or members separated by commas, over the grammar [J] of a
    child. *)
Inductive elements (J : Value → bytes → Prop) : list Value → bytes → Prop :=
| elements_one v w1 t w2 : blank w1 → J v t → blank w2 → elements J [v] (w1 ++ t ++ w2)
| elements_cons v vs w1 t w2 ts :
    blank w1 → J v t → blank w2 → elements J vs ts → elements J (v :: vs) (w1 ++ t ++ w2 ++ "," :: ts).

Definition member (J : Value → bytes → Prop) (key : string) (v : Value) (t : bytes) : Prop :=
  ∃ w1 k w2 w3 u w4, blank w1 ∧ string_token key k ∧ blank w2 ∧ blank w3 ∧ J v u ∧ blank w4 ∧
    t = w1 ++ k ++ w2 ++ ":" :: w3 ++ u ++ w4.

Inductive members (J : Value → bytes → Prop) : list (string * Value) → bytes → Prop :=
| members_one k v t : member J k v t → members J [(k, v)] t
| members_cons k v m t ts : member J k v t → members J m ts → members J ((k, v) :: m) (t ++ "," :: ts).

(** The value [v] written as [t], with at most [levels] containers inside one another
    and distinct keys in every object. *)
Fixpoint json (levels : nat) (v : Value) (t : bytes) : Prop :=
  match v with
  | VNull => t = ascii_bytes "null"
  | VBool true => t = ascii_bytes "true"
  | VBool false => t = ascii_bytes "false"
  | VNumber n => number_token n t
  | VString s => string_token s t
  | VArray vs =>
      match levels with
      | O => False
      | S levels =>
          ∃ inner, t = "[" :: inner ++ ["]"] ∧
            match vs with [] => blank inner | _ => elements (json levels) vs inner end
      end
  | VObject m =>
      match levels with
      | O => False
      | S levels =>
          ∃ inner, t = "{" :: inner ++ ["}"] ∧ NoDup m.*1 ∧
            match m with [] => blank inner | _ => members (json levels) m inner end
      end
  end.

Definition json_document (m : list (string * Value)) (b : bytes) : Prop :=
  ∃ w1 t w2, blank w1 ∧ json MAXIMUM_JSON_CONTAINER_DEPTH (VObject m) t ∧ blank w2 ∧ b = w1 ++ t ++ w2.

(** ** Tokens *)

Definition starts (t : bytes) : Prop := ∃ c t', t = c :: t' ∧ is_value_delimiter c = false.
Definition closing (rest : bytes) : Prop := ∀ c r, rest = c :: r → is_value_delimiter c = true.

Lemma blank_app w1 w2 : blank w1 → blank w2 → blank (w1 ++ w2).
Proof. intros H1 H2. apply Forall_app. done. Qed.

Lemma blank_nil : blank [].
Proof. constructor. Qed.
#[local] Hint Resolve blank_nil blank_app : core.

Lemma not_delimiter_not_blank c : is_value_delimiter c = false → is_json_whitespace c = false.
Proof. unfold is_value_delimiter. destruct (is_json_whitespace c); done. Qed.

Lemma blank_delimiter c : is_json_whitespace c = true → is_value_delimiter c = true.
Proof. unfold is_value_delimiter. by intros ->. Qed.

Lemma skip_blank w b : blank w → skip_whitespace (w ++ b) = skip_whitespace b.
Proof. induction 1 as [|c w Hc Hw IH]; [done|]. simpl. by rewrite Hc. Qed.

Lemma skip_starts t b : starts t → skip_whitespace (t ++ b) = t ++ b.
Proof. intros (c & t' & -> & Hc). simpl. by rewrite not_delimiter_not_blank. Qed.

Lemma skip_split b : ∃ w, blank w ∧ b = w ++ skip_whitespace b.
Proof.
  induction b as [|c b (w & Hw & IH)]; [by exists []|]. simpl. destruct (is_json_whitespace c) eqn:E.
  - exists (c :: w). split; [by constructor|]. simpl. by f_equal.
  - exists []. done.
Qed.

Lemma skip_idem b : skip_whitespace (skip_whitespace b) = skip_whitespace b.
Proof. induction b as [|c b IH]; [done|]. simpl. destruct (is_json_whitespace c) eqn:E; [done|]. simpl. by rewrite E. Qed.

Lemma skip_nil_blank b : skip_whitespace b = [] ↔ blank b.
Proof.
  destruct (skip_split b) as (w & Hw & E). split; intros H'.
  - rewrite E, H', app_nil_r. done.
  - rewrite <- (app_nil_r b). by rewrite skip_blank.
Qed.

Lemma consume_Some e b b' : consume e b = Some b' ↔ b = e :: b'.
Proof. destruct b as [|c b]; simpl; [done|]. case_decide; naive_solver. Qed.

Lemma consume_None e b : consume e b = None ↔ ∀ b', b ≠ e :: b'.
Proof. destruct b as [|c b]; simpl; [naive_solver|]. case_decide; naive_solver. Qed.

Lemma consume_starts e t b : is_value_delimiter e = true → starts t → consume e (t ++ b) = None.
Proof.
  intros He (c & t' & -> & Hc). apply consume_None. intros b' [= -> _]. congruence.
Qed.

Lemma scan_string_sound escaped b t rest :
  scan_string escaped b = Some (t, rest) →
  b = t ++ rest ∧ if escaped then ∃ c t', t = c :: t' ∧ string_chars t' else string_chars t.
Proof.
  revert escaped t; induction b as [|c b IH]; intros escaped t; cbn [scan_string]; [done|].
  assert (Hrec : ∀ e, ('(t', rest') ← scan_string e b; Some (c :: t', rest')) = Some (t, rest) →
    ∃ t', t = c :: t' ∧ b = t' ++ rest ∧ if e then ∃ c t'', t' = c :: t'' ∧ string_chars t'' else string_chars t').
  { intros e Ht. destruct (scan_string e b) as [[t' r']|] eqn:E; simplify_eq/=.
    destruct (IH _ _ E) as [-> Hc]. eauto. }
  destruct escaped.
  { intros (t' & -> & -> & Hc)%(Hrec false). simpl. eauto. }
  case_decide as H1.
  { intros (t' & -> & -> & (d & t'' & -> & Hc))%(Hrec true). subst. split; [done|]. by constructor. }
  case_decide as H2; [intros [= <- <-]; subst; split; [done | constructor]|].
  intros (t' & -> & -> & Hc)%(Hrec false). split; [done|]. by constructor.
Qed.

Lemma scan_string_complete t rest : string_chars t → scan_string false (t ++ rest) = Some (t, rest).
Proof.
  induction 1 as [|c t Ht IH|c t H1 H2 Ht IH]; cbn [scan_string app]; [done | |].
  - rewrite decide_True by done. simpl. rewrite IH. done.
  - rewrite !decide_False by done. by rewrite IH.
Qed.

Lemma parse_string_iff b s rest :
  parse_string b = Some (s, rest) ↔ ∃ t, string_token s t ∧ b = t ++ rest.
Proof.
  unfold parse_string, string_token. split.
  - destruct (consume quote b) as [b1|] eqn:E1; [|done]. simpl.
    destruct (scan_string false b1) as [[t r]|] eqn:E2; [|done]. simpl.
    destruct (string_from_slice _) as [s'|] eqn:E3; [|done]. intros [= -> ->].
    apply consume_Some in E1 as ->. apply scan_string_sound in E2 as [-> Hc]. exists (quote :: t). eauto.
  - intros (t & (body & Hc & -> & Hs) & ->). cbn [consume app]. rewrite decide_True by done. simpl.
    rewrite scan_string_complete by done. simpl. by rewrite Hs.
Qed.

Lemma scan_number_split b : let '(t, rest) := scan_number b in
  b = t ++ rest ∧ Forall (λ c, is_value_delimiter c = false) t ∧ closing rest.
Proof.
  induction b as [|c b IH]; cbn [scan_number]; [split_and!; [done | constructor | intros ?? [=]]|].
  destruct (is_value_delimiter c) eqn:E.
  - split_and!; [done | constructor | by intros ?? [= <- _]].
  - destruct (scan_number b) as [t rest]. destruct IH as (-> & Ht & Hr). split_and!; [done | by constructor | done].
Qed.

Lemma scan_number_complete t rest :
  Forall (λ c, is_value_delimiter c = false) t → closing rest → scan_number (t ++ rest) = (t, rest).
Proof.
  intros Ht Hr. induction Ht as [|c t Hc Ht IH]; cbn [scan_number app].
  - destruct rest as [|c rest]; [done|]. cbn [scan_number]. by rewrite (Hr c rest).
  - by rewrite Hc, IH.
Qed.

Lemma sign_or_digit_not_delimiter c :
  (c = "-" ∨ is_ascii_digit c = true) → is_value_delimiter c = false.
Proof.
  intros [-> | Hd]; [done|]. destruct (is_value_delimiter c) eqn:E; [|done].
  unfold is_value_delimiter, is_json_whitespace in E. rewrite !orb_true_iff, !bool_decide_eq_true in E.
  repeat destruct E as [E|E]; subst c; vm_compute in Hd; discriminate Hd.
Qed.

Lemma parse_number_sound c b n rest :
  (c = "-" ∨ is_ascii_digit c = true) → parse_number (c :: b) = Some (n, rest) →
  ∃ t, number_token n t ∧ c :: b = t ++ rest.
Proof.
  intros Hc. unfold parse_number. pose proof (scan_number_split (c :: b)) as Hs.
  assert (Hne : (scan_number (c :: b)).1 ≠ []).
  { cbn [scan_number]. rewrite sign_or_digit_not_delimiter by done. by destruct (scan_number b). }
  destruct (scan_number (c :: b)) as [t r]. destruct Hs as (E & Ht & _).
  destruct (utf8_valid t) eqn:Ev; [|done]. destruct (Number_from_str t) as [m|] eqn:En; [|done].
  intros [= -> ->]. exists t. split; [|done]. split_and!; [|done..].
  destruct t as [|d t]; [done|]. exists d, t. injection E as <- _. done.
Qed.

Lemma parse_number_complete n t rest :
  number_token n t → closing rest → parse_number (t ++ rest) = Some (n, rest).
Proof.
  intros (_ & Ht & Hv & Hn) Hr. unfold parse_number. rewrite scan_number_complete by done. by rewrite Hv, Hn.
Qed.

Lemma closing_blank w rest : blank w → closing rest → closing (w ++ rest).
Proof.
  destruct w as [|c w]; [done|]. intros Hw _ c' r [= <- _]. inversion Hw. by apply blank_delimiter.
Qed.

Lemma closing_cons c rest : is_value_delimiter c = true → closing (c :: rest).
Proof. by intros Hc c' r [= <- _]. Qed.

(** ** The loops over children *)

(** [p] parses the values of the grammar [J], after blanks. *)
Record correct (p : bytes → option (Value * bytes)) (J : Value → bytes → Prop) : Prop := {
  c_sound b v rest : p b = Some (v, rest) → ∃ w t, blank w ∧ J v t ∧ b = w ++ t ++ rest;
  c_complete w v t rest : blank w → J v t → closing rest → p (w ++ t ++ rest) = Some (v, rest);
  c_starts v t : J v t → starts t;
}.

Lemma starts_app t b : starts t → starts (t ++ b).
Proof. intros (c & t' & -> & Hc). by exists c, (t' ++ b). Qed.

Lemma string_token_starts s t : string_token s t → starts t.
Proof. intros (body & _ & -> & _). by exists quote, body. Qed.
#[local] Hint Resolve starts_app string_token_starts c_starts : core.

Section Children.
Context (p : bytes → option (Value * bytes)) (J : Value → bytes → Prop) (Hp : correct p J).

Lemma elements_blank vs w t : blank w → elements J vs t → elements J vs (w ++ t).
Proof. intros Hw. destruct 1; rewrite (app_assoc w); constructor; auto. Qed.

Lemma elements_trim vs t :
  elements J vs t → ∃ w t', blank w ∧ t = w ++ t' ∧ elements J vs t' ∧ starts t'.
Proof.
  destruct 1 as [v w1 t w2 ? HJ|v vs w1 t w2 ts ? HJ].
  - exists w1, (t ++ w2). split_and!; [done | done | by apply (elements_one _ _ []) | eauto].
  - exists w1, (t ++ w2 ++ "," :: ts). split_and!; [done | done | by apply (elements_cons _ _ _ []) | eauto].
Qed.

Lemma elements_length vs t : elements J vs t → length vs ≤ length t.
Proof.
  induction 1 as [v w1 t w2 ? HJ|v vs w1 t w2 ts ? HJ ? ? IH];
    destruct (c_starts _ _ Hp v t HJ) as (c & t' & -> & _); simpl; rewrite ?length_app; simpl;
    rewrite ?length_app; simpl; lia.
Qed.

Lemma array_loop_sound fuel acc b vs rest :
  array_loop p fuel acc b = Some (vs, rest) →
  ∃ vs' t, vs = acc ++ vs' ∧ vs' ≠ [] ∧ elements J vs' t ∧ b = t ++ "]" :: rest.
Proof.
  revert acc b; induction fuel as [|fuel IH]; intros acc b; cbn [array_loop]; [done|].
  destruct (p b) as [[v b1]|] eqn:E1; [|done]. cbn [mbind option_bind].
  apply (c_sound _ _ Hp) in E1 as (w1 & t & Hw1 & HJ & ->).
  destruct (skip_split b1) as (w2 & Hw2 & E2). remember (skip_whitespace b1) as b2 eqn:Eb2. clear Eb2. subst b1. intros Hl.
  destruct (consume "]" b2) as [b3|] eqn:E3.
  - apply consume_Some in E3 as E3'. rewrite E3'. injection Hl as <- <-. exists [v], (w1 ++ t ++ w2).
    split_and!; [done | done | by constructor | by rewrite <- !app_assoc].
  - destruct (consume "," b2) as [b4|] eqn:E4; [|done]. apply consume_Some in E4 as E4'. rewrite E4'.
    destruct (IH _ _ Hl) as (vs' & ts & -> & _ & He & ->).
    exists (v :: vs'), (w1 ++ t ++ w2 ++ "," :: ts).
    split_and!; [by rewrite <- app_assoc | done | by constructor | by rewrite <- !app_assoc].
Qed.

Lemma array_loop_complete vs t fuel acc rest :
  elements J vs t → length vs ≤ fuel → array_loop p fuel acc (t ++ "]" :: rest) = Some (acc ++ vs, rest).
Proof.
  intros He. revert fuel acc. induction He as [v w1 t w2 Hw1 HJ Hw2|v vs w1 t w2 ts Hw1 HJ Hw2 He IH];
    intros [|fuel] acc Hf; simpl in Hf; try lia; cbn [array_loop]; rewrite <- !app_assoc.
  - rewrite (c_complete _ _ Hp w1 v t) by (try apply closing_blank; try apply closing_cons; done).
    cbn [mbind option_bind]. by rewrite skip_blank.
  - rewrite (c_complete _ _ Hp w1 v t) by (try apply closing_blank; try apply closing_cons; done).
    cbn [mbind option_bind]. rewrite skip_blank by done. cbn [app skip_whitespace is_json_whitespace bool_decide].
    simpl. rewrite IH by lia. by rewrite <- app_assoc.
Qed.

Lemma member_blank w k v t : blank w → member J k v t → member J k v (w ++ t).
Proof.
  intros Hw (w1 & kt & w2 & w3 & u & w4 & H1 & H2 & H3 & H4 & H5 & H6 & ->).
  exists (w ++ w1), kt, w2, w3, u, w4. split_and!; auto. by rewrite <- app_assoc.
Qed.

Lemma members_blank m w t : blank w → members J m t → members J m (w ++ t).
Proof.
  intros Hw. destruct 1; rewrite ?app_assoc; constructor; auto using member_blank.
Qed.

Lemma member_trim k v t : member J k v t → ∃ w t', blank w ∧ t = w ++ t' ∧ member J k v t' ∧ starts t'.
Proof.
  intros (w1 & kt & w2 & w3 & u & w4 & H1 & H2 & H3 & H4 & H5 & H6 & ->).
  exists w1, (kt ++ w2 ++ ":" :: w3 ++ u ++ w4). split_and!; [done | done | | eauto].
  exists [], kt, w2, w3, u, w4. split_and!; auto.
Qed.

Lemma members_trim m t : members J m t → ∃ w t', blank w ∧ t = w ++ t' ∧ members J m t' ∧ starts t'.
Proof.
  destruct 1 as [k v t Hm|k v m t ts Hm Hr]; destruct (member_trim _ _ _ Hm) as (w & t' & Hw & -> & Hm' & Hs).
  - exists w, t'. split_and!; [done | done | by constructor | done].
  - exists w, (t' ++ "," :: ts). rewrite <- app_assoc. split_and!; [done | done | by constructor | auto].
Qed.

Lemma members_length m t : members J m t → length m ≤ length t.
Proof.
  assert (Hm : ∀ k v t, member J k v t → 1 ≤ length t).
  { intros k v t' (w1 & kt & w2 & w3 & u & w4 & _ & _ & _ & _ & _ & _ & ->).
    rewrite !length_app. simpl. lia. }
  induction 1 as [k v t H1|k v m t ts H1 H2 IH]; apply Hm in H1; rewrite ?length_app; simpl; lia.
Qed.

(** One round of the loop up to the value read. *)
Definition read_member (b : bytes) : option (string * Value * bytes) :=
  '(key, b) ← parse_string (skip_whitespace b);
  b ← consume ":" (skip_whitespace b);
  '(v, b) ← p b;
  Some (key, v, skip_whitespace b).

Lemma read_member_sound b k v b' :
  read_member b = Some (k, v, b') → ∃ t, member J k v t ∧ b = t ++ b'.
Proof.
  unfold read_member. destruct (parse_string _) as [[k' b1]|] eqn:E1; [|done]. cbn [mbind option_bind].
  destruct (consume ":" _) as [b2|] eqn:E2; [|done]. cbn [mbind option_bind].
  destruct (p b2) as [[v' b3]|] eqn:E3; [|done]. intros [= -> -> <-].
  apply parse_string_iff in E1 as (kt & Hk & E1). apply consume_Some in E2.
  apply (c_sound _ _ Hp) in E3 as (w3 & u & Hw3 & HJ & ->).
  destruct (skip_split b) as (w1 & Hw1 & Eb), (skip_split b1) as (w2 & Hw2 & Eb1),
    (skip_split b3) as (w4 & Hw4 & Eb3). rewrite E1 in Eb. rewrite E2 in Eb1. subst b b1.
  exists (w1 ++ kt ++ w2 ++ ":" :: w3 ++ u ++ w4). split; [by exists w1, kt, w2, w3, u, w4|].
  rewrite Eb3 at 1. rewrite <- !app_assoc. cbn [app]. by rewrite <- !app_assoc.
Qed.

Lemma read_member_complete k v t d rest :
  member J k v t → is_value_delimiter d = true → is_json_whitespace d = false →
  read_member (t ++ d :: rest) = Some (k, v, d :: rest).
Proof.
  intros (w1 & kt & w2 & w3 & u & w4 & H1 & H2 & H3 & H4 & H5 & H6 & ->) Hd Hw. unfold read_member.
  rewrite <- !app_assoc, skip_blank, skip_starts by eauto.
  rewrite (proj2 (parse_string_iff _ k _)) by eauto. cbn [mbind option_bind app].
  rewrite <- !app_assoc, skip_blank by done. change (skip_whitespace (":" :: ?x)) with (":" :: x).
  cbn [mbind option_bind app]. rewrite (proj2 (consume_Some _ _ _) eq_refl). cbn [mbind option_bind].
  rewrite <- ?app_assoc, (c_complete _ _ Hp w3 v u) by (try apply closing_blank; try apply closing_cons; done).
  cbn [mbind option_bind]. rewrite skip_blank by done. cbn [skip_whitespace]. by rewrite Hw.
Qed.

(** The duplicate check comes before the value is read; it fails the record either way. *)
Lemma map_loop_step fuel acc b :
  map_loop p (S fuel) acc b =
  '(key, v, b) ← read_member b;
  if decide (key ∈ acc.*1) then None else
  match consume "}" b with
  | Some b => Some (acc ++ [(key, v)], b)
  | None => b ← consume "," b; map_loop p fuel (acc ++ [(key, v)]) b
  end.
Proof.
  unfold read_member. cbn [map_loop]. destruct (parse_string _) as [[k b1]|]; [|done]. cbn [mbind option_bind].
  destruct (consume ":" _) as [b2|]; cbn [mbind option_bind]; [|by case_decide].
  destruct (p b2) as [[v b3]|]; cbn [mbind option_bind]; [done | by case_decide].
Qed.

Lemma map_loop_sound fuel acc b m rest :
  NoDup acc.*1 → map_loop p fuel acc b = Some (m, rest) →
  ∃ m' t, m = acc ++ m' ∧ m' ≠ [] ∧ NoDup m.*1 ∧ members J m' t ∧ b = t ++ "}" :: rest.
Proof.
  revert acc b; induction fuel as [|fuel IH]; intros acc b Hn; [done|]. rewrite map_loop_step.
  destruct (read_member b) as [[[k v] b1]|] eqn:E; [|done]. cbn [mbind option_bind].
  apply read_member_sound in E as (t & Hm & ->). case_decide as Hk; [done|].
  assert (Hn' : NoDup (acc ++ [(k, v)]).*1).
  { rewrite fmap_app, NoDup_app. split_and!; [done | | simpl; apply NoDup_singleton]. set_solver. }
  destruct (consume "}" b1) as [b2|] eqn:E1.
  - intros [= <- <-]. apply consume_Some in E1 as ->. exists [(k, v)], t.
    split_and!; [done | done | done | by constructor | done].
  - destruct (consume "," b1) as [b3|] eqn:E3; [|done]. intros Hl. apply consume_Some in E3 as ->.
    destruct (IH _ _ Hn' Hl) as (m' & ts & -> & _ & Hd & Hms & ->).
    exists ((k, v) :: m'), (t ++ "," :: ts). rewrite <- !app_assoc in *.
    split_and!; [done | done | done | by constructor | done].
Qed.

Lemma map_loop_complete m t fuel acc rest :
  members J m t → NoDup (acc ++ m).*1 → length m ≤ fuel →
  map_loop p fuel acc (t ++ "}" :: rest) = Some (acc ++ m, rest).
Proof.
  intros Hm. revert fuel acc. induction Hm as [k v t Hm|k v m t ts Hm Hms IH];
    intros [|fuel] acc Hd Hf; simpl in Hf; try lia; rewrite map_loop_step.
  - rewrite (read_member_complete k v) by done. cbn [mbind option_bind].
    rewrite fmap_app, NoDup_app in Hd. rewrite decide_False by set_solver. done.
  - assert (Hk : k ∉ acc.*1).
    { rewrite fmap_app, NoDup_app in Hd. destruct Hd as (_ & Hd & _). intros Hk. apply (Hd k Hk). set_solver. }
    rewrite <- app_assoc. cbn [app]. rewrite (read_member_complete k v) by done. cbn [mbind option_bind].
    rewrite decide_False by done. cbn [consume]. rewrite decide_False, decide_True by done.
    cbn [mbind option_bind]. rewrite IH; [by rewrite <- app_assoc | by rewrite <- app_assoc | lia].
Qed.

Definition array_body (vs : list Value) (inner : bytes) : Prop :=
  match vs with [] => blank inner | _ => elements J vs inner end.

Definition object_body (m : list (string * Value)) (inner : bytes) : Prop :=
  match m with [] => blank inner | _ => members J m inner end.

Lemma parse_array_iff b v rest :
  parse_array p b = Some (v, rest) ↔
  ∃ vs inner, v = VArray vs ∧ array_body vs inner ∧ b = "[" :: inner ++ "]" :: rest.
Proof.
  unfold parse_array. split.
  - destruct (consume "[" b) as [b1|] eqn:E1; [|done]. cbn [mbind option_bind]. apply consume_Some in E1 as ->.
    destruct (skip_split b1) as (w & Hw & E2). remember (skip_whitespace b1) as b2 eqn:Eb2. clear Eb2. subst b1.
    destruct (consume "]" b2) as [b3|] eqn:E3.
    + intros [= <- <-]. apply consume_Some in E3 as ->. by exists [], w.
    + destruct (array_loop p _ [] b2) as [[vs r]|] eqn:El; [|done]. intros [= <- <-].
      apply array_loop_sound in El as (vs' & t & -> & Hne & He & ->). exists vs', (w ++ t).
      rewrite <- app_assoc. split_and!; [done | | done]. destruct vs'; [done|]. by apply elements_blank.
  - intros (vs & inner & -> & Hb & ->). rewrite (proj2 (consume_Some _ _ _) eq_refl). cbn [mbind option_bind].
    destruct vs as [|v0 vs]; [by rewrite skip_blank|].
    apply elements_trim in Hb as (w & t & Hw & -> & He & Hs).
    rewrite <- app_assoc, skip_blank, skip_starts, consume_starts by done.
    rewrite (array_loop_complete (v0 :: vs)); [done | done |].
    apply elements_length in He. rewrite length_app. lia.
Qed.

Lemma parse_map_iff b v rest :
  parse_map p b = Some (v, rest) ↔
  ∃ m inner, v = VObject m ∧ NoDup m.*1 ∧ object_body m inner ∧ b = "{" :: inner ++ "}" :: rest.
Proof.
  unfold parse_map. split.
  - destruct (consume "{" b) as [b1|] eqn:E1; [|done]. cbn [mbind option_bind]. apply consume_Some in E1 as ->.
    destruct (skip_split b1) as (w & Hw & E2). remember (skip_whitespace b1) as b2 eqn:Eb2. clear Eb2. subst b1.
    destruct (consume "}" b2) as [b3|] eqn:E3.
    + intros [= <- <-]. apply consume_Some in E3 as ->. exists [], w. split_and!; [done | constructor | done | done].
    + destruct (map_loop p _ [] b2) as [[m r]|] eqn:El; [|done]. intros [= <- <-].
      apply map_loop_sound in El as (m' & t & -> & Hne & Hd & He & ->); [|constructor]. exists m', (w ++ t).
      rewrite <- app_assoc. split_and!; [done | done | | done]. destruct m'; [done|]. by apply members_blank.
  - intros (m & inner & -> & Hd & Hb & ->). rewrite (proj2 (consume_Some _ _ _) eq_refl). cbn [mbind option_bind].
    destruct m as [|v0 m]; [by rewrite skip_blank|].
    apply members_trim in Hb as (w & t & Hw & -> & He & Hs).
    rewrite <- app_assoc, skip_blank, skip_starts, consume_starts by done.
    rewrite (map_loop_complete (v0 :: m)); [done | done | done |].
    apply members_length in He. rewrite length_app. lia.
Qed.

End Children.

(** ** Values *)

Lemma consume_literal_iff l b b' : consume_literal l b = Some b' ↔ b = l ++ b'.
Proof.
  unfold consume_literal. split.
  - case_decide as E; [|done]. intros [= <-]. rewrite <- E at 1. symmetry. apply take_drop.
  - intros ->. rewrite take_app_length, decide_True, drop_app_length by done. done.
Qed.

Lemma json_starts levels v t : json levels v t → starts t.
Proof.
  destruct v as [|[]|n|s|vs|m], levels; cbn [json]; try done; intros Hv.
  all: try (subst t; by eexists _, _).
  all: try (by apply string_token_starts in Hv).
  all: try (destruct Hv as ((c & t' & -> & Hc) & _); exists c, t'; split; [done|];
            by apply sign_or_digit_not_delimiter).
  all: destruct Hv as (inner & -> & _); by eexists _, _.
Qed.

(** What [parse_value] reads once blanks are skipped. *)
Lemma parse_value_sound levels b v rest :
  (∀ l, levels = S l → correct (parse_value l) (json l)) →
  parse_value levels b = Some (v, rest) → ∃ t, json levels v t ∧ skip_whitespace b = t ++ rest.
Proof.
  intros Hc. destruct levels as [|l]; cbn [parse_value]; destruct (skip_whitespace b) as [|c b']; try done.
  all: repeat case_decide; try done.
  all: try (destruct (consume_literal _ _) as [r|] eqn:El; [|done]; intros [= <- <-];
            apply consume_literal_iff in El as ->; by eexists).
  all: try (destruct (parse_string _) as [[s r]|] eqn:Es; [|done]; intros [= <- <-];
            apply parse_string_iff in Es as (t & ? & ->); by exists t).
  all: try (destruct (bool_decide (c = "-") || is_ascii_digit c) eqn:Ed; [|done];
            apply orb_true_iff in Ed; rewrite bool_decide_eq_true in Ed;
            destruct (parse_number _) as [[n r]|] eqn:En; [|done]; intros [= <- <-];
            apply parse_number_sound in En as (t & ? & ->); [by exists t | done]).
  - intros (vs & inner & -> & Hb & ->)%(parse_array_iff _ _ (Hc l eq_refl)).
    exists ("[" :: inner ++ ["]"]). split; [by exists inner|]. simpl. by rewrite <- app_assoc.
  - intros (m & inner & -> & Hd & Hb & ->)%(parse_map_iff _ _ (Hc l eq_refl)).
    exists ("{" :: inner ++ ["}"]). split; [by exists inner|]. simpl. by rewrite <- app_assoc.
Qed.

Lemma number_head c : (c = "-" ∨ is_ascii_digit c = true) →
  c ≠ "n" ∧ c ≠ "t" ∧ c ≠ "f" ∧ c ≠ quote ∧ c ≠ "[" ∧ c ≠ "{" ∧ bool_decide (c = "-") || is_ascii_digit c = true.
Proof.
  intros [->|Hd]; [done|]. rewrite Hd, orb_true_r. split_and!; [..|done]; intros ->; vm_compute in Hd; discriminate.
Qed.

Lemma parse_value_complete levels v t rest :
  (∀ l, levels = S l → correct (parse_value l) (json l)) →
  json levels v t → closing rest → parse_value levels (t ++ rest) = Some (v, rest).
Proof.
  intros Hc Hv Hr. pose proof (json_starts _ _ _ Hv) as Hs.
  assert (Hskip : skip_whitespace (t ++ rest) = t ++ rest) by auto using skip_starts.
  destruct v as [|[]|n|s|vs|m], levels as [|l]; cbn [json parse_value] in *; try done; rewrite Hskip.
  all: try (subst t; by (destruct rest)).
  all: try (pose proof Hv as ((c & t' & -> & Hh) & _); cbn [app];
            apply number_head in Hh as (? & ? & ? & ? & ? & ? & Hn); rewrite !decide_False by done; rewrite Hn;
            change (c :: t' ++ rest) with ((c :: t') ++ rest); by rewrite (parse_number_complete n)).
  all: try (assert (Hp : parse_string (t ++ rest) = Some (s, rest)) by (apply parse_string_iff; eauto);
            destruct Hv as (body & _ & -> & _); cbn [app] in *; rewrite Hp; done).
  - destruct Hv as (inner & -> & Hb). cbn [app]. rewrite !decide_False, decide_True by done.
    apply (parse_array_iff _ _ (Hc l eq_refl)). exists vs, inner. split_and!; [done | done |]. by rewrite <- app_assoc.
  - destruct Hv as (inner & -> & Hd & Hb). cbn [app]. rewrite !decide_False, decide_True by done.
    apply (parse_map_iff _ _ (Hc l eq_refl)). exists m, inner. split_and!; [done | done | done |]. by rewrite <- app_assoc.
Qed.

Lemma parse_value_skip levels b : parse_value levels (skip_whitespace b) = parse_value levels b.
Proof. destruct levels; cbn [parse_value]; by rewrite skip_idem. Qed.

Lemma parse_value_correct levels : correct (parse_value levels) (json levels).
Proof.
  induction levels as [levels IH] using lt_wf_ind.
  assert (Hc : ∀ l, levels = S l → correct (parse_value l) (json l)) by (intros l ->; apply IH; lia).
  split.
  - intros b v rest Hp. destruct (skip_split b) as (w & Hw & Eb).
    apply parse_value_sound in Hp as (t & Ht & E); [|done]. exists w, t. rewrite E in Eb. done.
  - intros w v t rest Hw Ht Hr. rewrite <- parse_value_skip, skip_blank, parse_value_skip by done.
    by apply parse_value_complete.
  - apply json_starts.
Qed.

Lemma closing_nil : closing [].
Proof. intros ?? [=]. Qed.

Lemma parse_object_document b m : parse_object b = Some m ↔ json_document m b.
Proof.
  unfold parse_object, json_document. rewrite parse_value_skip.
  generalize MAXIMUM_JSON_CONTAINER_DEPTH. intros levels. pose proof (parse_value_correct levels) as Hc. split.
  - destruct (parse_value levels b) as [[v rest]|] eqn:E; [|done]. cbn [mbind option_bind].
    destruct (skip_whitespace rest) eqn:Es; [|done]. apply skip_nil_blank in Es.
    destruct v as [|?|?|?|?|m']; try done. intros [= ->].
    apply (c_sound _ _ Hc) in E as (w & t & Hw & Ht & ->). by exists w, t, rest.
  - intros (w1 & t & w2 & Hw1 & Ht & Hw2 & ->).
    rewrite (c_complete _ _ Hc w1 (VObject m) t w2 Hw1 Ht)
      by (rewrite <- (app_nil_r w2); auto using closing_blank, closing_nil).
    cbn [mbind option_bind]. by rewrite (proj2 (skip_nil_blank w2)).
Qed.

(** C34: a record parses as an object exactly when it is, between blanks, one JSON object
    of the grammar: strings closed by the first quote that is not escaped, numbers
    up to the next delimiter, at most 128 containers inside one another, and distinct
    keys in every object at every depth. *)
Theorem parse_object_grammar b m : parse_object b = Some m ↔ json_document m b.
Proof. apply parse_object_document. Qed.

End Json.
