(* ===== verification/Normalization.v ===== *)
(** * elucid-ingestion: normalization of a batch

    Models src/elucid/elucid-ingestion/src/normalization.rs: the plan resolved from the
    catalog identities pinned with a batch, the split of a body into lines, the
    conversion of a JSON record into a typed row, and dead letters with their bounded
    payload. [usize] has 64 bits. BLAKE3 and chrono's range of UTC instants (Frame),
    chrono's RFC 3339 parser (SemExpression), serde_json (Json) and base64 are
    parameters. *)

From S2P Require Import Prelude Core CatalogTypes CatalogModel CatalogSource Floats SemExpression Bytes Frame Json.
Import Schema.

#[local] Open Scope Z_scope.

(** The encoder of the base64 crate. *)
Class Base64 := base64_encode : bytes → string.

Definition EVENT_ID_DOMAIN : bytes := ascii_bytes "elucid:event" ++ ["000"%char].
Definition MILLISECONDS_PER_DAY : Z := 86400000.
Definition DEAD_LETTER_PAYLOAD_PREFIX_BYTES : nat := 4 * 1024.
Definition MAXIMUM_BATCH_EVENT_DAYS : nat := 32.

(** ** Values *)

Record RecordLocation := { line_number : Z; input_position : Z }.

Inductive NormalizedValue :=
| NvNull | NvBool (b : bool) | NvInt32 (z : Z) | NvInt64 (z : Z) | NvUInt32 (z : Z) | NvUInt64 (z : Z)
| NvFloat32 (x : float) | NvFloat64 (x : float) | NvUtf8 (s : string) | NvDatetime (z : Z).

Record NormalizedField := { nf_field_id : FieldId; nf_value : NormalizedValue }.

Inductive DeadLetterCode :=
| InvalidUtf8 | TooLarge | ParseFailed | FieldMissing | FieldNull | ConversionFailed
| EventTimeInvalid | EventDayLimitExceeded.

Definition DeadLetterCode_as_str (code : DeadLetterCode) : string :=
  match code with
  | InvalidUtf8 => "RECORD_INVALID_UTF8"
  | TooLarge => "RECORD_TOO_LARGE"
  | ParseFailed => "RECORD_PARSE_FAILED"
  | FieldMissing => "RECORD_FIELD_MISSING"
  | FieldNull => "RECORD_FIELD_NULL"
  | ConversionFailed => "RECORD_CONVERSION_FAILED"
  | EventTimeInvalid => "RECORD_EVENT_TIME_INVALID"
  | EventDayLimitExceeded => "RECORD_EVENT_DAY_LIMIT_EXCEEDED"
  end.

Inductive PayloadEncoding := EncodedUtf8 | EncodedBase64.
Inductive PayloadExtent := Complete | Prefix.

Record DeadLetterPayload := {
  pl_content : string;
  pl_encoding : PayloadEncoding;
  pl_extent : PayloadExtent;
}.

Record DeadLetterEntry := {
  dl_batch_id : Z;
  dl_location : RecordLocation;
  dl_code : DeadLetterCode;
  dl_payload_byte_count : Z;
  dl_payload_digest : bytes;
  dl_payload : DeadLetterPayload;
}.

Inductive NormalizationError :=
| SourceMismatch (pinned supplied : SourceId)
| InputNotFound (source_id : SourceId) (input_id : InputId)
| ProfileRevisionNotFound (input_id : InputId) (profile_revision_id : IngestionProfileRevisionId)
| ProfileTargetMismatch (pinned_schema_id profile_schema_id : SchemaId)
| SchemaNotFound (source_id : SourceId) (schema_id : SchemaId)
| UnsupportedDataFieldType (field_id : FieldId)
| RequiredFieldMappingMissing (field_id : FieldId)
| PositionOverflow.

Inductive Conversion :=
| CBool | CInt32 | CInt64 | CUInt32 | CUInt64 | CFloat32 | CFloat64 | CUtf8 | CDatetime.

Record FieldPlan := {
  fp_field_id : FieldId;
  fp_nullability : Nullability;
  fp_conversion : Conversion;
  fp_pointer : option JsonPointer;
}.

Record NormalizationPlan := {
  np_metadata : BatchMetadata;
  np_profile : IngestionProfile;
  np_fields : list FieldPlan;
  np_removed_top_level_properties : list string;
}.

(** ** The plan *)

Definition conversion_of (field : Field) : result NormalizationError Conversion :=
  match f_logical_type field with
  | Bool => Ok CBool | Int32 => Ok CInt32 | Int64 => Ok CInt64 | UInt32 => Ok CUInt32
  | UInt64 => Ok CUInt64 | Float32 => Ok CFloat32 | Float64 => Ok CFloat64
  | Utf8 => Ok CUtf8 | Datetime => Ok CDatetime
  | Eid | Json => Err (UnsupportedDataFieldType (f_id field))
  end.

Definition field_plan (profile : IngestionProfile) (field : Field) : result NormalizationError FieldPlan :=
  conversion ← conversion_of field;
  let pointer := m_json_pointer <$> find (λ m, m_target_field_id m =? f_id field) (p_mappings profile) in
  if bool_decide (pointer = None) && bool_decide (f_nullability field = NonNull)
  then Err (RequiredFieldMappingMissing (f_id field))
  else Ok {| fp_field_id := f_id field; fp_nullability := f_nullability field;
             fp_conversion := conversion; fp_pointer := pointer |}.

Definition field_plans (schema : Schema) (profile : IngestionProfile) : result NormalizationError (list FieldPlan) :=
  try_map (field_plan profile) (data_fields schema).

Definition add_top_level_property (properties : list string) (pointer : JsonPointer) : list string :=
  match pointer with
  | [token] => if decide (token ∈ properties) then properties else properties ++ [token]
  | _ => properties
  end.

Definition resolve (metadata : BatchMetadata) (source : Source) : result NormalizationError NormalizationPlan :=
  let pinned := catalog metadata in
  _ ← check (source_id pinned =? src_id source) (SourceMismatch (source_id pinned) (src_id source));
  input ← ok_or (source_input source (input_id pinned)) (InputNotFound (src_id source) (input_id pinned));
  revision ← ok_or (find (λ r, r_id r =? profile_revision_id pinned) (i_profile_revisions input))
               (ProfileRevisionNotFound (i_id input) (profile_revision_id pinned));
  _ ← check (r_target_schema_id revision =? target_schema_id pinned)
        (ProfileTargetMismatch (target_schema_id pinned) (r_target_schema_id revision));
  schema ← ok_or (source_schema source (target_schema_id pinned))
             (SchemaNotFound (src_id source) (target_schema_id pinned));
  let profile := r_profile revision in
  fields ← field_plans schema profile;
  let removed := add_top_level_property [] (et_json_pointer (p_event_time profile)) in
  let removed := fold_left (λ ps m, add_top_level_property ps (m_json_pointer m)) (p_mappings profile) removed in
  Ok {| np_metadata := metadata; np_profile := profile; np_fields := fields;
        np_removed_top_level_properties := removed |}.

(** ** Conversions *)

(** [str::parse::<usize>]: an optional plus sign and at least one digit, within the
    range of the type. *)
Fixpoint decimal_digits (s : string) (value : Z) : option Z :=
  match s with
  | EmptyString => Some value
  | String c s => if is_ascii_digit c then decimal_digits s (value * 10 + (byte_of_ascii c - 48)) else None
  end.

Definition parse_usize (s : string) : option Z :=
  let digits := match s with String "+" s' => s' | _ => s end in
  match digits with
  | EmptyString => None
  | _ => decimal_digits digits 0 ≫= narrow U64
  end.

Definition starts_with (c : ascii) (s : string) : bool :=
  match s with String d _ => bool_decide (d = c) | EmptyString => false end.

Definition parse_array_index (token : string) : option Z :=
  if starts_with "+" token || ((1 <? String.length token)%nat && starts_with "0" token) then None
  else parse_usize token.

Definition nullable_value (nullability : Nullability) (non_null_error : DeadLetterCode)
    : result DeadLetterCode NormalizedValue :=
  match nullability with Nullable => Ok NvNull | NonNull => Err non_null_error end.

Section Normalization.
Context {env : SpoolEnv} {chrono : Chrono} {lib : JsonLib} {base64 : Base64}.

(** [object.get(key)] *)
Definition object_get (members : list (string * Value)) (key : string) : option Value :=
  snd <$> find (λ m, bool_decide (m.1 = key)) members.

(** The loop of [resolve_pointer]. *)
Fixpoint resolve_pointer (current : Value) (pointer : JsonPointer) : option Value :=
  match pointer with
  | [] => Some current
  | token :: pointer =>
      match current with
      | VObject members => object_get members token ≫= λ v, resolve_pointer v pointer
      | VArray values =>
          index ← parse_array_index token;
          values !! Z.to_nat index ≫= λ v, resolve_pointer v pointer
      | _ => None
      end
  end.

Definition as_number (value : Value) : option Number :=
  match value with VNumber n => Some n | _ => None end.

(** [first.or_else(|| second.and_then(|value| t::try_from(value).ok()))] *)
Definition or_narrow (t : int_ty) (first second : option Z) : option Z :=
  match first with Some z => Some z | None => second ≫= narrow t end.

Definition integer_i64 (value : Value) : option Z :=
  number ← as_number value; or_narrow I64 (as_i64 number) (as_u64 number).

Definition integer_u64 (value : Value) : option Z :=
  number ← as_number value; or_narrow U64 (as_u64 number) (as_i64 number).

Definition number_text (value : Value) : option string := number_to_string <$> as_number value.

Definition utc_milliseconds (milliseconds : Z) : option Z :=
  if from_timestamp_millis milliseconds then Some milliseconds else None.

Definition parse_datetime (value : Value) (format : EventTimeFormat) : option Z :=
  match format with
  | Rfc3339 =>
      text ← (match value with VString s => Some s | _ => None end);
      parsed ← parse_from_rfc3339 text;
      if negb (Z.rem (nanosecond parsed) 1000000 =? 0) then None
      else utc_milliseconds (timestamp_millis parsed)
  | UnixMilliseconds => integer_i64 value ≫= utc_milliseconds
  end.

Definition parse_finite (t : float_ty) (value : Value) : option float :=
  x ← number_text value ≫= parse_float t;
  if is_finite x then Some x else None.

Definition convert_value (value : Value) (conversion : Conversion) (datetime_format : EventTimeFormat)
    : option NormalizedValue :=
  match conversion with
  | CBool => match value with VBool b => Some (NvBool b) | _ => None end
  | CInt32 => NvInt32 <$> (integer_i64 value ≫= narrow I32)
  | CInt64 => NvInt64 <$> integer_i64 value
  | CUInt32 => NvUInt32 <$> (integer_u64 value ≫= narrow U32)
  | CUInt64 => NvUInt64 <$> integer_u64 value
  | CFloat32 => NvFloat32 <$> parse_finite F32 value
  | CFloat64 => NvFloat64 <$> parse_finite F64 value
  | CUtf8 => match value with VString s => Some (NvUtf8 s) | _ => None end
  | CDatetime => NvDatetime <$> parse_datetime value datetime_format
  end.

(** ** Rows *)

Record AcceptedRow := {
  ar_location : RecordLocation;
  ar_event_time : Z;
  ar_ingestion_time : Z;
  ar_event_id : EventId.t;
  ar_fields : list NormalizedField;
  ar_remainder : option (list (string * Value));
}.

Definition event_id_for_occurrence (batch_id position : Z) : EventId.t :=
  byte_of_ascii <$> take 16 (blake3 (EVENT_ID_DOMAIN ++ be_bytes 16 batch_id ++ be_bytes 8 position)).

Definition normalize_field (plan : NormalizationPlan) (root : Value) (field : FieldPlan)
    : result DeadLetterCode NormalizedField :=
  value ← (match fp_pointer field ≫= resolve_pointer root with
           | None => nullable_value (fp_nullability field) FieldMissing
           | Some VNull => nullable_value (fp_nullability field) FieldNull
           | Some value =>
               ok_or (convert_value value (fp_conversion field) (et_format (p_event_time (np_profile plan))))
                 ConversionFailed
           end);
  Ok {| nf_field_id := fp_field_id field; nf_value := value |}.

(** [object.remove(property)] *)
Definition object_remove (members : list (string * Value)) (property : string) : list (string * Value) :=
  filter (λ m, m.1 ≠ property) members.

Definition normalize_record (plan : NormalizationPlan) (record : bytes) (location : RecordLocation)
    : result DeadLetterCode AcceptedRow :=
  object ← ok_or (parse_object record) ParseFailed;
  let root := VObject object in
  let event_time := p_event_time (np_profile plan) in
  time ← ok_or (resolve_pointer root (et_json_pointer event_time) ≫= λ v, parse_datetime v (et_format event_time))
           EventTimeInvalid;
  fields ← try_map (normalize_field plan root) (np_fields plan);
  let object := fold_left object_remove (np_removed_top_level_properties plan) object in
  Ok {| ar_location := location; ar_event_time := time;
        ar_ingestion_time := ingestion_time (np_metadata plan);
        ar_event_id := event_id_for_occurrence (batch_id (np_metadata plan)) (input_position location);
        ar_fields := fields;
        ar_remainder := match object with [] => None | _ => Some object end |}.

(** ** Dead letters *)

Definition DeadLetterPayload_from_record (record : bytes) : DeadLetterPayload :=
  let extent := if (length record <=? DEAD_LETTER_PAYLOAD_PREFIX_BYTES)%nat then Complete else Prefix in
  let prefix_bytes := Nat.min (length record) DEAD_LETTER_PAYLOAD_PREFIX_BYTES in
  if utf8_valid record then
    {| pl_content := string_of_list_ascii (take (floor_char_boundary record prefix_bytes) record);
       pl_encoding := EncodedUtf8; pl_extent := extent |}
  else
    {| pl_content := base64_encode (take prefix_bytes record); pl_encoding := EncodedBase64;
       pl_extent := extent |}.

Definition DeadLetterEntry_new (batch_id : Z) (location : RecordLocation) (code : DeadLetterCode)
    (record : bytes) (payload_byte_count : Z) : DeadLetterEntry :=
  {| dl_batch_id := batch_id; dl_location := location; dl_code := code;
     dl_payload_byte_count := payload_byte_count; dl_payload_digest := blake3 record;
     dl_payload := DeadLetterPayload_from_record record |}.

(** ** Batches *)

Inductive NormalizedRecord := Accepted (row : AcceptedRow) | DeadLetter (entry : DeadLetterEntry).

Record NormalizedBatch := {
  nb_metadata : BatchMetadata;
  nb_records : list NormalizedRecord;
  nb_ignored_records : Z;
}.

Definition record_location (record : NormalizedRecord) : RecordLocation :=
  match record with Accepted row => ar_location row | DeadLetter entry => dl_location entry end.

Definition remove_covered_positions (batch : NormalizedBatch) (covered_positions : gset Z) : NormalizedBatch :=
  {| nb_metadata := nb_metadata batch;
     nb_records := filter (λ record, input_position (record_location record) ∉ covered_positions) (nb_records batch);
     nb_ignored_records := nb_ignored_records batch |}.

(** [u8::is_ascii_whitespace] *)
Definition is_ascii_whitespace (c : ascii) : bool :=
  bool_decide (c ∈ [" "; "009"; "010"; "012"; "013"]%char).

(** The variables of [normalize_records] that its loop changes. *)
Record progress := {
  pg_records : list NormalizedRecord;
  pg_ignored : Z;
  pg_days : gset Z;
  pg_record_start : nat;
  pg_line_number : Z;
}.

Definition event_day (row : AcceptedRow) : Z := ar_event_time row / MILLISECONDS_PER_DAY.

Definition push (st : progress) (record : NormalizedRecord) (days : gset Z) : progress :=
  {| pg_records := pg_records st ++ [record]; pg_ignored := pg_ignored st; pg_days := days;
     pg_record_start := pg_record_start st; pg_line_number := pg_line_number st |}.

Definition normalize_occurrence (plan : NormalizationPlan) (record : bytes) (st : progress)
    : result NormalizationError progress :=
  if forallb is_ascii_whitespace record then
    ignored ← ok_or (checked_add U64 (pg_ignored st) 1) PositionOverflow;
    Ok {| pg_records := pg_records st; pg_ignored := ignored; pg_days := pg_days st;
          pg_record_start := pg_record_start st; pg_line_number := pg_line_number st |}
  else
  position ← ok_or (narrow U64 (Z.of_nat (pg_record_start st))) PositionOverflow;
  payload_byte_count ← ok_or (narrow U64 (Z.of_nat (length record))) PositionOverflow;
  let location := {| line_number := pg_line_number st; input_position := position |} in
  let dead_letter code :=
    DeadLetter (DeadLetterEntry_new (batch_id (np_metadata plan)) location code record payload_byte_count) in
  Ok (if payload_byte_count >? p_maximum_record_bytes (np_profile plan) then
        push st (dead_letter TooLarge) (pg_days st)
      else if negb (utf8_valid record) then push st (dead_letter InvalidUtf8) (pg_days st)
      else
        match normalize_record plan record location with
        | Ok row =>
            if bool_decide (event_day row ∈ pg_days st) || (size (pg_days st) <? MAXIMUM_BATCH_EVENT_DAYS)%nat
            then push st (Accepted row) ({[event_day row]} ∪ pg_days st)
            else push st (dead_letter EventDayLimitExceeded) (pg_days st)
        | Err code => push st (dead_letter code) (pg_days st)
        end).

(** One round of the loop over the bytes of the body. *)
Definition normalize_byte (plan : NormalizationPlan) (body : bytes) (st : progress) (indexed : nat * ascii)
    : result NormalizationError progress :=
  let '(delimiter_position, byte) := indexed in
  if negb (bool_decide (byte = "010"%char)) then Ok st else
  let start := pg_record_start st in
  let payload_end :=
    if (start <? delimiter_position)%nat && bool_decide (body !! (delimiter_position - 1)%nat = Some "013"%char)
    then (delimiter_position - 1)%nat else delimiter_position in
  st ← normalize_occurrence plan (slice start (payload_end - start) body) st;
  line ← ok_or (checked_add U64 (pg_line_number st) 1) PositionOverflow;
  Ok {| pg_records := pg_records st; pg_ignored := pg_ignored st; pg_days := pg_days st;
        pg_record_start := S delimiter_position; pg_line_number := line |}.

Definition normalize_start : progress :=
  {| pg_records := []; pg_ignored := 0; pg_days := ∅; pg_record_start := 0; pg_line_number := 1 |}.

Definition normalize_records (metadata : BatchMetadata) (body : bytes) (source : Source)
    : result NormalizationError NormalizedBatch :=
  plan ← resolve metadata source;
  _ ← ok_or (narrow U64 (Z.of_nat (length body))) PositionOverflow;
  st ← try_fold (normalize_byte plan body) normalize_start (imap pair body);
  st ← (if (pg_record_start st <? length body)%nat
        then normalize_occurrence plan (drop (pg_record_start st) body) st else Ok st);
  Ok {| nb_metadata := metadata; nb_records := pg_records st; nb_ignored_records := pg_ignored st |}.

End Normalization.
