(* ===== verification/NormalizationCorrect.v ===== *)
(** * elucid-ingestion: correctness of normalization

    Theorems about the definitions of Normalization: every line of a body is accounted
    for exactly once and in order, an accepted row has a value of the declared type
    for every data field of the pinned schema, sources built by the catalog always
    resolve, and the payload kept in a dead letter is bounded and whole. *)

From stdpp Require Import pretty.
From S2P Require Import Prelude Core CatalogTypes CatalogModel CatalogSource Floats SemExpression Bytes Frame Json Normalization.
Import Schema.

#[local] Open Scope Z_scope.

(** ** Lines *)

Notation newline := "010"%char.
Notation carriage_return := "013"%char.

Record line := { ln_content : bytes; ln_terminated : bool }.

Definition ln_text (l : line) : bytes := ln_content l ++ (if ln_terminated l then [newline] else []).

(** The record on a line: a carriage return before the delimiter is not part of it. *)
Definition ln_payload (l : line) : bytes :=
  if ln_terminated l && bool_decide (last (ln_content l) = Some carriage_return)
  then take (pred (length (ln_content l))) (ln_content l) else ln_content l.

Definition text_of (ls : list line) : bytes := concat (ln_text <$> ls).

(** The lines of a body: their texts are the body, only the last one can lack its
    delimiter, and then it is not empty. *)
Record lines_of (body : bytes) (ls : list line) : Prop := {
  lo_text : text_of ls = body;
  lo_content l : l ∈ ls → newline ∉ ln_content l;
  lo_terminated i l : ls !! i = Some l → (S i < length ls)%nat → ln_terminated l = true;
  lo_last l : l ∈ ls → ln_terminated l = false → ln_content l ≠ [];
}.

(** Lines with their location: numbers from one, positions in bytes. *)
Definition located (ls : list line) : list (RecordLocation * bytes) :=
  imap (λ i l, ({| line_number := Z.of_nat (S i);
                   input_position := Z.of_nat (length (text_of (take i ls))) |}, ln_payload l)) ls.

Fixpoint split_lines (body : bytes) : list line :=
  match body with
  | [] => []
  | c :: body =>
      if decide (c = newline) then {| ln_content := []; ln_terminated := true |} :: split_lines body
      else match split_lines body with
           | [] => [{| ln_content := [c]; ln_terminated := false |}]
           | l :: ls => {| ln_content := c :: ln_content l; ln_terminated := ln_terminated l |} :: ls
           end
  end.

Lemma text_of_cons l ls : text_of (l :: ls) = ln_text l ++ text_of ls.
Proof. done. Qed.

Lemma text_of_app ls1 ls2 : text_of (ls1 ++ ls2) = text_of ls1 ++ text_of ls2.
Proof. unfold text_of. by rewrite fmap_app, concat_app. Qed.

Lemma lines_of_cons l ls body :
  newline ∉ ln_content l → ln_terminated l = true → lines_of body ls → lines_of (ln_text l ++ body) (l :: ls).
Proof.
  intros Hc Ht [H1 H2 H3 H4]. split.
  - by rewrite text_of_cons, H1.
  - intros l' [->|Hl]%elem_of_cons; auto.
  - intros [|i] l'; cbn [lookup list_lookup length]; [by intros [= <-]|]. intros Hi Hl. apply (H3 i); [done | lia].
  - intros l' [->|Hl]%elem_of_cons; [congruence | auto].
Qed.

Lemma lines_of_extend c l ls body :
  c ≠ newline → lines_of body (l :: ls) →
  lines_of (c :: body) ({| ln_content := c :: ln_content l; ln_terminated := ln_terminated l |} :: ls).
Proof.
  intros Hc [H1 H2 H3 H4]. split.
  - rewrite text_of_cons in *. unfold ln_text in *. simpl. by f_equal.
  - intros l' [->|Hl]%elem_of_cons; [|apply H2; set_solver]. simpl.
    specialize (H2 l ltac:(set_solver)). set_solver.
  - intros [|i] l' Hi Hl; simpl in *; simplify_eq/=; [by apply (H3 0%nat) | by apply (H3 (S i))].
  - intros l' [->|Hl]%elem_of_cons; [done | intros; apply H4; set_solver].
Qed.

Lemma split_lines_of body : lines_of body (split_lines body).
Proof.
  induction body as [|c body IH]; cbn [split_lines].
  { split; [done | set_solver | by intros [|]| set_solver]. }
  case_decide as E.
  - subst c. apply (lines_of_cons {| ln_content := []; ln_terminated := true |}); [set_solver | done | done].
  - destruct (split_lines body) as [|l ls]; [|by apply lines_of_extend].
    apply lo_text in IH. simpl in IH. subst body. split; [done | | |].
    + intros l ->%list_elem_of_singleton. simpl. set_solver.
    + intros [|i] l Hl; simpl; [lia | done].
    + by intros l ->%list_elem_of_singleton.
Qed.

(** A body without a line before its end. *)
Lemma lines_of_app_inv body ls l :
  lines_of body (ls ++ [l]) → Forall (λ l, ln_terminated l = true) ls.
Proof.
  intros [_ _ H3 _]. apply Forall_lookup. intros i x Hi. apply (H3 i).
  - rewrite lookup_app_l; [done|]. by eapply lookup_lt_Some.
  - apply lookup_lt_Some in Hi. rewrite length_app. simpl. lia.
Qed.

Lemma located_snoc ls l :
  located (ls ++ [l]) =
  located ls ++ [({| line_number := Z.of_nat (S (length ls)); input_position := Z.of_nat (length (text_of ls)) |},
                  ln_payload l)].
Proof.
  unfold located. rewrite imap_app. cbn [imap]. f_equal.
  - apply imap_ext. intros i x Hi. do 3 f_equal. rewrite take_app_le; [done|]. apply lookup_lt_Some in Hi. lia.
  - cbn. rewrite Nat.add_0_r, take_app_length. done.
Qed.

Lemma ln_text_ne body ls l : lines_of body ls → l ∈ ls → ln_text l ≠ [].
Proof.
  intros Hlo Hl. unfold ln_text. destruct (ln_terminated l) eqn:E; [by destruct (ln_content l)|].
  rewrite app_nil_r. by apply (lo_last _ _ Hlo).
Qed.

Lemma located_sorted ls :
  Forall (λ l, ln_text l ≠ []) ls →
  StronglySorted (λ x y, input_position x.1 < input_position y.1) (located ls) ∧
  Forall (λ x, input_position x.1 < Z.of_nat (length (text_of ls))) (located ls).
Proof.
  induction ls as [|l ls IH] using rev_ind; [split; constructor|]. intros [Hls Hl]%Forall_app.
  apply IH in Hls as [Hs Hb]. apply Forall_inv in Hl. rewrite located_snoc, text_of_app, length_app. split.
  - apply StronglySorted_app_2; [| done | by repeat constructor].
    intros x y Hx ->%list_elem_of_singleton. rewrite Forall_forall in Hb. by apply Hb.
  - rewrite text_of_cons, app_nil_r. destruct (ln_text l) eqn:E; [done|]. simpl length. apply Forall_app. split.
    + eapply Forall_impl; [exact Hb|]. simpl. lia.
    + repeat constructor. simpl. lia.
Qed.

(** ** Records *)

#[local] Opaque parse_object.

Section Records.
Context {env : SpoolEnv} {chrono : Chrono} {lib : JsonLib} {base64 : Base64}.
Context (plan : NormalizationPlan).

Definition row_of (object : list (string * Value)) (location : RecordLocation) (time : Z)
    (fields : list NormalizedField) : AcceptedRow :=
  let rest := fold_left object_remove (np_removed_top_level_properties plan) object in
  {| ar_location := location; ar_event_time := time;
     ar_ingestion_time := ingestion_time (np_metadata plan);
     ar_event_id := event_id_for_occurrence (batch_id (np_metadata plan)) (input_position location);
     ar_fields := fields;
     ar_remainder := match rest with [] => None | _ => Some rest end |}.

Lemma normalize_record_Ok record location row :
  normalize_record plan record location = Ok row ↔
  ∃ object time fields,
    parse_object record = Some object ∧
    resolve_pointer (VObject object) (et_json_pointer (p_event_time (np_profile plan))) ≫=
      (λ v, parse_datetime v (et_format (p_event_time (np_profile plan)))) = Some time ∧
    Forall2 (λ f nf, normalize_field plan (VObject object) f = Ok nf) (np_fields plan) fields ∧
    row = row_of object location time fields.
Proof.
  unfold normalize_record. split.
  - intros (object & Ho & Hr)%bind_Ok. apply ok_or_Ok in Ho. apply bind_Ok in Hr as (time & Ht & Hr).
    apply ok_or_Ok in Ht. apply bind_Ok in Hr as (fields & Hf & [= <-]). apply try_map_Ok in Hf.
    by exists object, time, fields.
  - intros (object & time & fields & Ho & Ht & Hf & ->). apply try_map_Ok in Hf.
    rewrite Ho. cbn [ok_or mbind result_bind]. cbn [mbind option_bind] in Ht. rewrite Ht.
    cbn [ok_or mbind result_bind]. rewrite Hf. done.
Qed.

End Records.

(** ** Accounting of lines *)

Section Lines.
Context {env : SpoolEnv} {chrono : Chrono} {lib : JsonLib} {base64 : Base64}.
Context (plan : NormalizationPlan).

Definition blank_line (x : RecordLocation * bytes) : Prop := forallb is_ascii_whitespace x.2 = true.

(** The event days of the accepted rows among [records]. *)
Definition days_of (records : list NormalizedRecord) : gset Z :=
  list_to_set (omap (λ r, match r with Accepted row => Some (event_day row) | DeadLetter _ => None end) records).

(** Why a record goes to the dead letters, when the rows before it have the event days
    [days]. *)
Inductive reason (days : gset Z) (location : RecordLocation) (payload : bytes) : DeadLetterCode → Prop :=
| reason_too_large :
    p_maximum_record_bytes (np_profile plan) < Z.of_nat (length payload) → reason days location payload TooLarge
| reason_utf8 :
    Z.of_nat (length payload) ≤ p_maximum_record_bytes (np_profile plan) →
    utf8_valid payload = false → reason days location payload InvalidUtf8
| reason_record code :
    Z.of_nat (length payload) ≤ p_maximum_record_bytes (np_profile plan) → utf8_valid payload = true →
    normalize_record plan payload location = Err code → reason days location payload code
| reason_day row :
    Z.of_nat (length payload) ≤ p_maximum_record_bytes (np_profile plan) → utf8_valid payload = true →
    normalize_record plan payload location = Ok row → event_day row ∉ days → size days = MAXIMUM_BATCH_EVENT_DAYS →
    reason days location payload EventDayLimitExceeded.

(** The record that stands for a line that is not blank. *)
Inductive represents (days : gset Z) : RecordLocation * bytes → NormalizedRecord → Prop :=
| represents_row location payload row :
    Z.of_nat (length payload) ≤ p_maximum_record_bytes (np_profile plan) → utf8_valid payload = true →
    normalize_record plan payload location = Ok row →
    (event_day row ∈ days ∨ (size days < MAXIMUM_BATCH_EVENT_DAYS)%nat) →
    represents days (location, payload) (Accepted row)
| represents_dead_letter location payload code :
    reason days location payload code →
    represents days (location, payload)
      (DeadLetter (DeadLetterEntry_new (batch_id (np_metadata plan)) location code payload (Z.of_nat (length payload)))).

(** The records and the count of ignored lines account for the lines [xs]. *)
Record account (xs : list (RecordLocation * bytes)) (records : list NormalizedRecord) (ignored : Z) : Prop := {
  ac_ignored : ignored = Z.of_nat (length (filter blank_line xs));
  ac_length : length records = length (filter (λ x, ¬ blank_line x) xs);
  ac_records i x r :
    filter (λ x, ¬ blank_line x) xs !! i = Some x → records !! i = Some r →
    represents (days_of (take i records)) x r;
  ac_days : (size (days_of records) ≤ MAXIMUM_BATCH_EVENT_DAYS)%nat;
}.

Lemma account_nil : account [] [] 0.
Proof. split; [done | done | by intros [|] | vm_compute; lia]. Qed.

Lemma account_blank xs records ignored x :
  account xs records ignored → blank_line x → account (xs ++ [x]) records (ignored + 1).
Proof.
  intros [H1 H2 H3 H4] Hx.
  assert (E : filter (λ x, ¬ blank_line x) (xs ++ [x]) = filter (λ x, ¬ blank_line x) xs).
  { rewrite filter_app, (filter_cons_False _ x) by tauto. by rewrite filter_nil, app_nil_r. }
  split; rewrite ?E; try done.
  rewrite filter_app, filter_cons_True by done. rewrite length_app. cbn. lia.
Qed.

Lemma account_record xs records ignored x r :
  account xs records ignored → ¬ blank_line x → represents (days_of records) x r →
  (size (days_of (records ++ [r])) ≤ MAXIMUM_BATCH_EVENT_DAYS)%nat →
  account (xs ++ [x]) (records ++ [r]) ignored.
Proof.
  intros [H1 H2 H3 H4] Hx Hr Hs.
  assert (E : filter (λ x, ¬ blank_line x) (xs ++ [x]) = filter (λ x, ¬ blank_line x) xs ++ [x]).
  { by rewrite filter_app, (filter_cons_True _ x). }
  split; rewrite ?E; [| by rewrite !length_app, H2 | | done].
  - rewrite filter_app, filter_cons_False by done. by rewrite filter_nil, app_nil_r.
  - intros i y s Hy Hi. destruct (Nat.lt_ge_cases i (length records)) as [Hlt|Hge].
    + rewrite take_app_le by lia. rewrite lookup_app_l in Hi by done. rewrite lookup_app_l in Hy by lia. eauto.
    + assert (i = length records) as ->.
      { apply lookup_lt_Some in Hi. rewrite length_app in Hi. simpl in Hi. lia. }
      rewrite lookup_app_r, Nat.sub_diag in Hi by lia. rewrite lookup_app_r, H2, Nat.sub_diag in Hy by lia.
      simplify_eq/=. by rewrite take_app_length.
Qed.

Lemma days_of_snoc records r :
  days_of (records ++ [r]) =
  match r with Accepted row => {[event_day row]} ∪ days_of records | DeadLetter _ => days_of records end.
Proof.
  unfold days_of. rewrite omap_app, list_to_set_app_L. destruct r; cbn; set_solver.
Qed.

(** The state of the loop once the lines [ls] are read. *)
Record after (ls : list line) (st : progress) : Prop := {
  af_account : account (located ls) (pg_records st) (pg_ignored st);
  af_days : pg_days st = days_of (pg_records st);
}.

Lemma occurrence_after ls l st :
  after ls st → pg_record_start st = length (text_of ls) → pg_line_number st = Z.of_nat (S (length ls)) →
  Z.of_nat (length (text_of (ls ++ [l]))) ≤ int_max U64 → Z.of_nat (length ls) < int_max U64 →
  ∃ st', normalize_occurrence plan (ln_payload l) st = Ok st' ∧ after (ls ++ [l]) st' ∧
    pg_record_start st' = pg_record_start st ∧ pg_line_number st' = pg_line_number st.
Proof.
  intros [Ha Hd] Hs Hl Hb Hn. set (location := {| line_number := pg_line_number st;
    input_position := Z.of_nat (length (text_of ls)) |}).
  assert (Hlen : (length (ln_payload l) ≤ length (ln_text l))%nat).
  { unfold ln_payload, ln_text. rewrite length_app. case_match; rewrite ?length_take; lia. }
  rewrite text_of_app, length_app, text_of_cons, length_app in Hb.
  assert (Hfit : ∀ r, account (located (ls ++ [l])) (pg_records st ++ [r]) (pg_ignored st) →
    ∀ days, days = days_of (pg_records st ++ [r]) → after (ls ++ [l]) (push st r days)).
  { intros r Hr days ->. by split. }
  unfold normalize_occurrence.
  assert (Hloc : located (ls ++ [l]) = located ls ++ [(location, ln_payload l)]).
  { unfold location. rewrite Hl. apply located_snoc. }
  destruct (forallb is_ascii_whitespace (ln_payload l)) eqn:Eb.
  { pose proof (ac_ignored _ _ _ Ha) as Hi. pose proof (length_filter blank_line (located ls)) as Hfl.
    unfold located in Hfl at 2. rewrite length_imap in Hfl.
    unfold checked_add. rewrite narrow_ok by int_lia. eexists. split; [done|]. split_and!; [|done..].
    split; cbn [pg_records pg_ignored pg_days]; [|done]. rewrite Hloc. by apply account_blank. }
  rewrite Hs, !narrow_ok by int_lia. cbn [ok_or mbind result_bind]. eexists. split; [done|].
  assert (Hnb : ¬ blank_line (location, ln_payload l)) by (unfold blank_line; simpl; congruence).
  assert (Hdead : ∀ code, reason (pg_days st) location (ln_payload l) code → after (ls ++ [l])
    (push st (DeadLetter (DeadLetterEntry_new (batch_id (np_metadata plan)) location code (ln_payload l)
      (Z.of_nat (length (ln_payload l))))) (pg_days st))).
  { intros code Hr. apply Hfit; [|by rewrite days_of_snoc]. rewrite Hloc. apply account_record; [done | done | |].
    - rewrite <- Hd. by constructor.
    - rewrite days_of_snoc. apply Ha. }
  destruct (Z.gtb_spec (Z.of_nat (length (ln_payload l))) (p_maximum_record_bytes (np_profile plan))) as [Hm|Hm].
  { split; [|done]. apply Hdead. by constructor. }
  destruct (utf8_valid (ln_payload l)) eqn:Eu; cbn [negb]; [|split; [|done]; apply Hdead; by constructor].
  fold location. destruct (normalize_record plan (ln_payload l) location) as [row|code] eqn:Er;
    [|split; [|done]; apply Hdead; by constructor].
  destruct (bool_decide (event_day row ∈ pg_days st) || (size (pg_days st) <? MAXIMUM_BATCH_EVENT_DAYS)%nat) eqn:Ed.
  - split; [|done]. apply Hfit; [|by rewrite days_of_snoc, Hd]. rewrite Hloc.
    apply orb_true_iff in Ed. rewrite bool_decide_eq_true, Nat.ltb_lt, Hd in Ed. apply account_record; [done | done | |].
    + by constructor.
    + rewrite days_of_snoc. pose proof (ac_days _ _ _ Ha). destruct Ed as [Ed|Ed].
      * by rewrite subseteq_union_1_L by set_solver.
      * rewrite size_union_alt, size_singleton. pose proof (subseteq_size (days_of (pg_records st) ∖ {[event_day row]}) (days_of (pg_records st)) ltac:(set_solver)). lia.
  - split; [|done]. apply Hdead. apply orb_false_iff in Ed. rewrite bool_decide_eq_false, Nat.ltb_ge in Ed.
    eapply reason_day; [done | done | done | apply Ed |]. pose proof (ac_days _ _ _ Ha). rewrite <- Hd in *. lia.
Qed.

(** The state between two lines. *)
Record between (ls : list line) (st : progress) : Prop := {
  bt_after : after ls st;
  bt_start : pg_record_start st = length (text_of ls);
  bt_line : pg_line_number st = Z.of_nat (S (length ls));
}.

(** The bytes of [b] with their positions from [k] on. *)
Definition positions (k : nat) (b : bytes) : list (nat * ascii) := imap (λ i c, ((k + i)%nat, c)) b.

Lemma positions_cons k c b : positions k (c :: b) = (k, c) :: positions (S k) b.
Proof.
  unfold positions. rewrite imap_cons, Nat.add_0_r. f_equal. apply imap_ext. intros. simpl. f_equal. lia.
Qed.

Lemma positions_app k a b : positions k (a ++ b) = positions k a ++ positions (k + length a) b.
Proof.
  unfold positions. rewrite imap_app. f_equal. apply imap_ext. intros. simpl. f_equal. lia.
Qed.

Lemma skip_content body k content st :
  newline ∉ content → try_fold (normalize_byte plan body) st (positions k content) = Ok st.
Proof.
  revert k; induction content as [|c content IH]; intros k Hn; [done|].
  rewrite positions_cons. cbn [try_fold normalize_byte]. rewrite bool_decide_false by set_solver.
  cbn [negb mbind result_bind]. apply IH. set_solver.
Qed.

Lemma payload_slice ls l post :
  ln_terminated l = true →
  let body := text_of ls ++ ln_text l ++ post in
  let start := length (text_of ls) in
  let delimiter := (start + length (ln_content l))%nat in
  slice start ((if (start <? delimiter)%nat && bool_decide (body !! (delimiter - 1)%nat = Some carriage_return)
                then delimiter - 1 else delimiter) - start) body = ln_payload l.
Proof.
  intros Ht body start delimiter. unfold ln_payload. rewrite Ht. cbn [andb].
  unfold slice. subst body. unfold start. rewrite drop_app_length. unfold ln_text. rewrite <- app_assoc.
  destruct (ln_content l) as [|c content] eqn:Ec using rev_ind.
  - subst delimiter. simpl. rewrite Nat.add_0_r, Nat.ltb_irrefl. cbn [andb]. by rewrite Nat.sub_diag.
  - clear IHcontent. rewrite last_snoc. subst delimiter. rewrite length_app. cbn [length].
    rewrite (proj2 (Nat.ltb_lt _ _)) by (fold start; lia). cbn [andb]. fold start.
    replace (start + (length content + 1) - 1)%nat with (start + length content)%nat by lia.
    assert (E : (text_of ls ++ (content ++ [c]) ++ (if ln_terminated l then [newline] else []) ++ post)
      !! (start + length content)%nat = Some c).
    { rewrite lookup_app_r by (fold start; lia). fold start.
      replace (start + length content - start)%nat with (length content) by lia.
      rewrite <- app_assoc. cbn [app]. by rewrite list_lookup_middle. }
    rewrite Ht, E in *. destruct (decide (c = carriage_return)) as [->|Hc].
    + rewrite !bool_decide_true by done. replace (start + length content - start)%nat with (length content) by lia.
      replace (pred (length content + 1)) with (length content) by lia.
      rewrite <- app_assoc, !take_app_length. done.
    + rewrite !bool_decide_false by congruence.
      replace (start + (length content + 1) - start)%nat with (length (content ++ [c])) by (rewrite length_app; simpl; lia).
      apply take_app_length.
Qed.

Lemma line_fold ls l post st :
  between ls st → ln_terminated l = true → newline ∉ ln_content l →
  Z.of_nat (S (length ls)) < int_max U64 →
  let body := text_of ls ++ ln_text l ++ post in
  Z.of_nat (length body) < int_max U64 →
  ∃ st', try_fold (normalize_byte plan body) st (positions (length (text_of ls)) (ln_text l)) = Ok st' ∧
    between (ls ++ [l]) st'.
Proof.
  intros [Ha Hs Hl] Ht Hn Hk body Hb.
  destruct (occurrence_after ls l st Ha Hs Hl) as (st1 & Ho & Ha1 & Hs1 & Hl1).
  { subst body. rewrite app_assoc, length_app in Hb. rewrite text_of_app, text_of_cons, app_nil_r. lia. }
  { lia. }
  unfold ln_text at 1. rewrite Ht, positions_app, try_fold_app, skip_content by done.
  cbn [mbind result_bind]. rewrite positions_cons. unfold positions at 1. cbn [try_fold imap normalize_byte].
  rewrite bool_decide_true by done. cbn [negb]. rewrite Hs.
  pose proof (payload_slice ls l post Ht) as Hp. cbv zeta in Hp. fold body in Hp. rewrite Hp, Ho.
  cbn [mbind result_bind]. rewrite Hl1, Hl. unfold checked_add. rewrite narrow_ok by int_lia.
  cbn [ok_or mbind result_bind]. eexists. split; [done|]. split; cbn [pg_record_start pg_line_number].
  - destruct Ha1 as [Ha1 Hd1]. by split.
  - rewrite text_of_app, text_of_cons, app_nil_r, length_app. unfold ln_text. rewrite Ht, length_app. simpl. lia.
  - rewrite length_app. simpl. lia.
Qed.

(** The loop over the lines that end with a delimiter. *)
Lemma lines_fold ls ls' post st :
  between ls st → Forall (λ l, ln_terminated l = true ∧ newline ∉ ln_content l) ls' →
  Z.of_nat (length ls + length ls') < int_max U64 →
  let body := text_of (ls ++ ls') ++ post in
  Z.of_nat (length body) < int_max U64 →
  ∃ st', try_fold (normalize_byte plan body) st (positions (length (text_of ls)) (text_of ls')) = Ok st' ∧
    between (ls ++ ls') st'.
Proof.
  revert ls st; induction ls' as [|l ls' IH]; intros ls st Hb Hall Hn body Hlen.
  { exists st. rewrite app_nil_r. done. }
  apply Forall_cons in Hall as [[Ht Hc] Hall]. simpl in Hn.
  assert (Ebody : body = text_of ls ++ ln_text l ++ (text_of ls' ++ post)).
  { subst body. rewrite text_of_app, text_of_cons. by rewrite <- !app_assoc. }
  assert (Ebody' : body = text_of ((ls ++ [l]) ++ ls') ++ post) by (subst body; by rewrite <- (app_assoc ls)).
  destruct (line_fold ls l (text_of ls' ++ post) st Hb Ht Hc) as (st1 & Hf1 & Hb1); [int_lia | by rewrite <- Ebody |].
  destruct (IH (ls ++ [l]) st1 Hb1 Hall) as (st2 & Hf2 & Hb2).
  { rewrite length_app. simpl. lia. }
  { by rewrite <- Ebody'. }
  exists st2. rewrite <- (app_assoc ls) in Hb2. split; [|done].
  rewrite text_of_cons, positions_app, try_fold_app, Ebody, Hf1. cbn [mbind result_bind].
  rewrite <- Ebody, Ebody'. rewrite <- Hf2. do 2 f_equal. rewrite text_of_app, text_of_cons, app_nil_r, length_app. done.
Qed.

Lemma between_start : between [] normalize_start.
Proof. split; [split; [apply account_nil | done] | done | done]. Qed.

Lemma lines_length body ls : lines_of body ls → (length ls ≤ length body)%nat.
Proof.
  intros Hlo. rewrite <- (lo_text _ _ Hlo). pose proof (lo_last _ _ Hlo) as Hl. clear Hlo.
  induction ls as [|l ls IH]; [done|]. rewrite text_of_cons, length_app. simpl.
  assert (1 ≤ length (ln_text l))%nat.
  { unfold ln_text. rewrite length_app. destruct (ln_terminated l) eqn:E; [simpl; lia|].
    specialize (Hl l ltac:(set_solver) E). destruct (ln_content l); simpl in *; [done | lia]. }
  specialize (IH ltac:(intros; apply Hl; [set_solver | done])). lia.
Qed.

Lemma normalize_lines body ls :
  lines_of body ls → Z.of_nat (length body) < int_max U64 →
  ∃ st, (st ← try_fold (normalize_byte plan body) normalize_start (imap pair body);
         if (pg_record_start st <? length body)%nat
         then normalize_occurrence plan (drop (pg_record_start st) body) st else Ok st) = Ok st ∧ after ls st.
Proof.
  intros Hlo Hb. pose proof (lines_length _ _ Hlo) as Hlen.
  change (imap pair body) with (positions 0 body).
  assert (Hcase : (∃ ls' l, ls = ls' ++ [l] ∧ ln_terminated l = false) ∨ Forall (λ l, ln_terminated l = true) ls).
  { destruct ls as [|l ls' _] using rev_ind; [by right; constructor|].
    destruct (ln_terminated l) eqn:El; [|left; eauto]. right. apply Forall_app. split; [|by repeat constructor].
    by eapply lines_of_app_inv. }
  destruct Hcase as [(ls' & l & -> & El)|Hall].
  - pose proof (lines_of_app_inv _ _ _ Hlo) as Hall. pose proof (lo_text _ _ Hlo) as Et.
    rewrite text_of_app, text_of_cons, app_nil_r in Et.
    assert (Etext : ln_text l = ln_content l) by (unfold ln_text; rewrite El; apply app_nil_r).
    rewrite length_app in Hlen. simpl in Hlen.
    destruct (lines_fold [] ls' (ln_text l) normalize_start between_start) as (st1 & Hf & [Ha Hs Hl]).
    { rewrite Forall_forall in Hall |- *. intros x Hx. split; [auto|]. apply (lo_content _ _ Hlo). set_solver. }
    { simpl. int_lia. } { simpl. by rewrite Et. }
    cbn [app] in *. rewrite Et in Hf. replace (positions 0 body) with (positions 0 (text_of ls' ++ ln_text l)) by (by rewrite Et). rewrite positions_app, try_fold_app. simpl length in Hf. rewrite Hf.
    cbn [mbind result_bind]. rewrite Etext, skip_content by (apply (lo_content _ _ Hlo); set_solver).
    cbn [mbind result_bind]. rewrite Hs. assert (Hne := lo_last _ _ Hlo l ltac:(set_solver) El).
    rewrite (proj2 (Nat.ltb_lt _ _)) by (rewrite <- Et, length_app, Etext; destruct (ln_content l); simpl; [done | lia]).
    replace (drop (length (text_of ls')) body) with (ln_payload l).
    2:{ rewrite <- Et, drop_app_length, Etext. unfold ln_payload. by rewrite El. }
    destruct (occurrence_after ls' l st1 Ha Hs Hl) as (st2 & Ho & Ha2 & _); [| |by exists st2].
    + rewrite (lo_text _ _ Hlo). lia.
    + lia.
  - pose proof (lo_text _ _ Hlo) as Et.
    destruct (lines_fold [] ls [] normalize_start between_start) as (st1 & Hf & [Ha Hs Hl]).
    { rewrite Forall_forall in Hall |- *. intros x Hx. split; [auto|]. by apply (lo_content _ _ Hlo). }
    { simpl. int_lia. } { simpl. by rewrite Et, app_nil_r. }
    cbn [app] in *. rewrite Et, app_nil_r in Hf. simpl length in Hf. rewrite Hf. cbn [mbind result_bind].
    rewrite Hs, Et, Nat.ltb_irrefl. by exists st1.
Qed.

(** Locations of records. *)

Lemma represents_location days x r : represents days x r → record_location r = x.1.
Proof.
  destruct 1 as [location payload row _ _ Hr|]; [|done].
  apply normalize_record_Ok in Hr as (object & time & fields & _ & _ & _ & ->). done.
Qed.

Lemma account_locations xs records ignored :
  account xs records ignored → record_location <$> records = fst <$> filter (λ x, ¬ blank_line x) xs.
Proof.
  intros [_ Hl Hr _]. apply list_eq_same_length with (length records); [by rewrite length_fmap, Hl | by rewrite length_fmap |].
  intros i a b Hi Ha Hb. apply list_lookup_fmap_Some in Ha as (r & -> & Ha), Hb as (x & -> & Hb).
  by eapply represents_location, Hr.
Qed.

End Lines.

(** ** Conversions *)

Section Conversions.
Context {env : SpoolEnv} {chrono : Chrono} {lib : JsonLib} {laws : JsonLibLaws} {base64 : Base64}.

(** The integer value of a number, where serde_json has it. *)
Definition integer_value (v : Value) (z : Z) : Prop :=
  ∃ n, v = VNumber n ∧ (as_i64 n = Some z ∨ as_u64 n = Some z).

Definition float_value (t : float_ty) (v : Value) (x : float) : Prop :=
  ∃ n, v = VNumber n ∧ parse_float t (number_to_string n) = Some x ∧ representable t x.

(** An instant of the declared format, whole milliseconds in chrono's range. *)
Definition instant_value (format : EventTimeFormat) (v : Value) (z : Z) : Prop :=
  from_timestamp_millis z = true ∧
  match format with
  | Rfc3339 => ∃ s d, v = VString s ∧ parse_from_rfc3339 s = Some d ∧
                 Z.rem (nanosecond d) 1000000 = 0 ∧ z = timestamp_millis d
  | UnixMilliseconds => integer_value v z ∧ fits I64 z = true
  end.

(** The value [nv] of a column of type [t] is exactly the JSON value [v]. *)
Definition exact_value (format : EventTimeFormat) (t : LogicalType) (v : Value) (nv : NormalizedValue) : Prop :=
  match t, nv with
  | Bool, NvBool b => v = VBool b
  | Int32, NvInt32 z => integer_value v z ∧ fits I32 z = true
  | Int64, NvInt64 z => integer_value v z ∧ fits I64 z = true
  | UInt32, NvUInt32 z => integer_value v z ∧ fits U32 z = true
  | UInt64, NvUInt64 z => integer_value v z ∧ fits U64 z = true
  | Float32, NvFloat32 x => float_value F32 v x
  | Float64, NvFloat64 x => float_value F64 v x
  | Utf8, NvUtf8 s => v = VString s
  | Datetime, NvDatetime z => instant_value format v z
  | _, _ => False
  end.

Lemma integer_i64_iff v z : integer_i64 v = Some z ↔ integer_value v z ∧ fits I64 z = true.
Proof.
  unfold integer_i64, integer_value, or_narrow. destruct v as [|?|n|?|?|?]; try (split; [done | by intros [(? & ? & ?) ?]]).
  cbn [as_number mbind option_bind]. split.
  - destruct (as_i64 n) as [x|] eqn:E.
    + intros [= ->]. split; [eauto | by eapply as_i64_fits].
    + destruct (as_u64 n) as [y|] eqn:Eu; [|done]. intros [-> Hf]%narrow_Some. split; [eauto | by apply fits_spec].
  - intros [(? & [= <-] & [Hi|Hu]) Hf].
    + by rewrite Hi.
    + destruct (as_i64 n) as [x|] eqn:E; [by rewrite (as_i64_u64 n x z E Hu)|]. rewrite Hu. cbn.
      apply narrow_ok. by apply fits_spec.
Qed.

Lemma integer_u64_iff v z : integer_u64 v = Some z ↔ integer_value v z ∧ fits U64 z = true.
Proof.
  unfold integer_u64, integer_value, or_narrow. destruct v as [|?|n|?|?|?]; try (split; [done | by intros [(? & ? & ?) ?]]).
  cbn [as_number mbind option_bind]. split.
  - destruct (as_u64 n) as [x|] eqn:E.
    + intros [= ->]. split; [eauto | by eapply as_u64_fits].
    + destruct (as_i64 n) as [y|] eqn:Eu; [|done]. intros [-> Hf]%narrow_Some. split; [eauto | by apply fits_spec].
  - intros [(? & [= <-] & [Hi|Hu]) Hf].
    + destruct (as_u64 n) as [x|] eqn:E; [by rewrite (as_i64_u64 n z x Hi E)|]. rewrite Hi. cbn.
      apply narrow_ok. by apply fits_spec.
    + by rewrite Hu.
Qed.

(** A narrower integer type is the wide one restricted to its range. *)
Lemma narrow_integer (wide narrow_ty : int_ty) (o : option Z) (P : Z → Prop) z :
  (∀ z, o = Some z ↔ P z ∧ fits wide z = true) → (∀ z, fits narrow_ty z = true → fits wide z = true) →
  (o ≫= narrow narrow_ty) = Some z ↔ P z ∧ fits narrow_ty z = true.
Proof.
  intros Ho Hw. rewrite bind_Some. split.
  - intros (x & Hx & [-> Hf]%narrow_Some). apply Ho in Hx as [? _]. by rewrite fits_spec.
  - intros [Hp Hf]. exists z. rewrite Ho. split; [auto|]. apply narrow_ok. by apply fits_spec.
Qed.

Lemma parse_finite_iff t v x : parse_finite t v = Some x ↔ float_value t v x.
Proof.
  unfold parse_finite, float_value, number_text. destruct v as [|?|n|?|?|?]; try (split; [done | by intros (? & ? & ?)]).
  cbn [as_number mbind option_bind fmap option_fmap option_map]. split.
  - destruct (parse_float t _) as [y|] eqn:E; [|done]. cbn. destruct (is_finite y) eqn:Ef; [|done]. intros [= ->].
    exists n. eauto using parse_float_representable.
  - intros (? & [= <-] & -> & Hf & _). cbn. by rewrite Hf.
Qed.

Lemma parse_datetime_iff format v z : parse_datetime v format = Some z ↔ instant_value format v z.
Proof.
  unfold parse_datetime, instant_value, utc_milliseconds. destruct format.
  - destruct v as [|?|?|s|?|?]; try (split; [done | by intros (_ & ? & ? & ? & _)]). cbn [mbind option_bind].
    destruct (parse_from_rfc3339 s) as [d|] eqn:E; cbn [mbind option_bind];
      [|split; [done | intros (_ & ? & ? & [= <-] & ? & _); congruence]].
    destruct (Z.eqb_spec (Z.rem (nanosecond d) 1000000) 0) as [Hn|Hn]; cbn [negb].
    + split.
      * case_match; [|done]. intros [= <-]. split; [done | by exists s, d].
      * intros (Hu & ? & ? & [= <-] & ? & _ & ->). simplify_eq. by rewrite Hu.
    + split; [done|]. intros (_ & ? & ? & [= <-] & ? & ? & _). congruence.
  - rewrite bind_Some. setoid_rewrite integer_i64_iff. split.
    + intros (x & Hx & Hu). case_match; [|done]. by simplify_eq.
    + intros (Hu & Hx). exists z. by rewrite Hu.
Qed.

Definition conversion_type (c : Conversion) : LogicalType :=
  match c with
  | CBool => Bool | CInt32 => Int32 | CInt64 => Int64 | CUInt32 => UInt32 | CUInt64 => UInt64
  | CFloat32 => Float32 | CFloat64 => Float64 | CUtf8 => Utf8 | CDatetime => Datetime
  end.

Lemma fmap_exact {A} (f : A → NormalizedValue) (o : option A) (P : A → Prop) (nv : NormalizedValue) (Q : Prop) :
  (∀ a, o = Some a ↔ P a) → (Q ↔ ∃ a, nv = f a ∧ P a) → f <$> o = Some nv ↔ Q.
Proof. intros Ho ->. rewrite fmap_Some. setoid_rewrite Ho. naive_solver. Qed.

Lemma convert_value_exact v c format nv :
  convert_value v c format = Some nv ↔ exact_value format (conversion_type c) v nv.
Proof.
  destruct c; cbn [convert_value conversion_type].
  1,8: destruct v, nv; simpl; naive_solver.
  - apply (fmap_exact _ _ (λ z, integer_value v z ∧ fits I32 z = true)); [|destruct nv; simpl; naive_solver].
    intros z. apply (narrow_integer I64); [apply integer_i64_iff|]. intros x. rewrite !fits_spec. int_lia.
  - eapply fmap_exact; [apply integer_i64_iff | destruct nv; simpl; naive_solver].
  - apply (fmap_exact _ _ (λ z, integer_value v z ∧ fits U32 z = true)); [|destruct nv; simpl; naive_solver].
    intros z. apply (narrow_integer U64); [apply integer_u64_iff|]. intros x. rewrite !fits_spec. int_lia.
  - eapply fmap_exact; [apply integer_u64_iff | destruct nv; simpl; naive_solver].
  - eapply fmap_exact; [apply parse_finite_iff | destruct nv; simpl; naive_solver].
  - eapply fmap_exact; [apply parse_finite_iff | destruct nv; simpl; naive_solver].
  - eapply fmap_exact; [apply parse_datetime_iff | destruct nv; simpl; naive_solver].
Qed.

End Conversions.

(** ** Plans *)

Section Plans.
Context {env : SpoolEnv} {chrono : Chrono} {lib : JsonLib} {laws : JsonLibLaws} {base64 : Base64}.

(** The catalog entries a batch is pinned to. *)
Record pinned (metadata : BatchMetadata) (source : Source) (input : Input)
    (revision : IngestionProfileRevision) : Prop := {
  pin_source : source_id (catalog metadata) = src_id source;
  pin_input : source_input source (input_id (catalog metadata)) = Some input;
  pin_revision : find (λ r, r_id r =? profile_revision_id (catalog metadata)) (i_profile_revisions input) = Some revision;
  pin_target : r_target_schema_id revision = target_schema_id (catalog metadata);
}.

Definition removed_properties (profile : IngestionProfile) : list string :=
  fold_left (λ ps m, add_top_level_property ps (m_json_pointer m)) (p_mappings profile)
    (add_top_level_property [] (et_json_pointer (p_event_time profile))).

Lemma resolve_Ok metadata source plan :
  resolve metadata source = Ok plan ↔
  ∃ input revision schema fields,
    pinned metadata source input revision ∧
    source_schema source (target_schema_id (catalog metadata)) = Some schema ∧
    Forall2 (λ f fp, field_plan (r_profile revision) f = Ok fp) (data_fields schema) fields ∧
    plan = {| np_metadata := metadata; np_profile := r_profile revision; np_fields := fields;
              np_removed_top_level_properties := removed_properties (r_profile revision) |}.
Proof.
  unfold resolve, field_plans. split.
  - intros Hr. inv_ok. repeat match goal with H : (_ =? _) = true |- _ => apply Z.eqb_eq in H end.
    match goal with H : try_map _ _ = Ok _ |- _ => apply try_map_Ok in H end.
    do 4 eexists. split_and!; [by constructor | done | done | done].
  - intros (input & revision & schema & fields & [Hs Hi Hv Ht] & Hsch & Hf & ->). apply try_map_Ok in Hf.
    rewrite (proj2 (Z.eqb_eq _ _) Hs). cbn [check]. rewrite bind_ret, Hi, ok_or_ret, bind_ret, Hv, ok_or_ret, bind_ret.
    rewrite (proj2 (Z.eqb_eq _ _) Ht). cbn [check]. rewrite bind_ret, Hsch, ok_or_ret, bind_ret, Hf, bind_ret. done.
Qed.

(** A property is removed exactly when the event time or a mapping reads it whole. *)
Lemma elem_of_add_top_level ps pointer k :
  k ∈ add_top_level_property ps pointer ↔ k ∈ ps ∨ pointer = [k].
Proof.
  unfold add_top_level_property. destruct pointer as [|token [|]]; try set_solver. case_decide; set_solver.
Qed.

Lemma elem_of_removed profile k :
  k ∈ removed_properties profile ↔
  et_json_pointer (p_event_time profile) = [k] ∨ ∃ m, m ∈ p_mappings profile ∧ m_json_pointer m = [k].
Proof.
  unfold removed_properties. generalize (p_mappings profile) as ms.
  assert (Hfold : ∀ ms ps, k ∈ fold_left (λ ps m, add_top_level_property ps (m_json_pointer m)) ms ps ↔
    k ∈ ps ∨ ∃ m, m ∈ ms ∧ m_json_pointer m = [k]).
  { induction ms as [|m ms IH]; intros ps; cbn [fold_left]; [set_solver|].
    rewrite IH, elem_of_add_top_level. set_solver. }
  intros ms. rewrite Hfold, elem_of_add_top_level. set_solver.
Qed.

Lemma elem_of_object_removes ps object kv :
  kv ∈ fold_left object_remove ps object ↔ kv ∈ object ∧ kv.1 ∉ ps.
Proof.
  revert object; induction ps as [|p ps IH]; intros object; cbn [fold_left]; [set_solver|].
  rewrite IH. unfold object_remove. rewrite list_elem_of_filter. set_solver.
Qed.

(** What the profile points to for a data field. *)
Definition pointed (profile : IngestionProfile) (object : list (string * Value)) (f : Field) : option Value :=
  (m_json_pointer <$> find (λ m, m_target_field_id m =? f_id f) (p_mappings profile)) ≫=
    resolve_pointer (VObject object).

(** The value of one data field of an accepted row. *)
Definition field_value (profile : IngestionProfile) (object : list (string * Value)) (f : Field)
    (nf : NormalizedField) : Prop :=
  nf_field_id nf = f_id f ∧
  match pointed profile object f with
  | None | Some VNull => nf_value nf = NvNull ∧ f_nullability f = Nullable
  | Some v => exact_value (et_format (p_event_time profile)) (f_logical_type f) v (nf_value nf)
  end.

Lemma conversion_of_type f c : conversion_of f = Ok c → f_logical_type f = conversion_type c.
Proof. unfold conversion_of. destruct (f_logical_type f); intros [= <-]; done. Qed.

Lemma normalize_field_value plan object f fp nf :
  field_plan (np_profile plan) f = Ok fp → normalize_field plan (VObject object) fp = Ok nf →
  field_value (np_profile plan) object f nf.
Proof.
  unfold field_plan. intros (c & Hc%conversion_of_type & Hf)%bind_Ok.
  destruct (_ && _) in Hf; [done|]. injection Hf as <-.
  unfold normalize_field. cbn [fp_pointer fp_nullability fp_conversion fp_field_id].
  intros (value & Hv & [= <-])%bind_Ok. split; [done|]. cbn [nf_value]. fold (pointed (np_profile plan) object f) in Hv.
  assert (Hnull : ∀ e, nullable_value (f_nullability f) e = Ok value → value = NvNull ∧ f_nullability f = Nullable).
  { intros e. unfold nullable_value. destruct (f_nullability f); [done|]. by intros [= <-]. }
  destruct (pointed (np_profile plan) object f) as [v|]; [|eauto].
  assert (Hconv : ok_or (convert_value v c (et_format (p_event_time (np_profile plan)))) ConversionFailed = Ok value →
    exact_value (et_format (p_event_time (np_profile plan))) (f_logical_type f) v value).
  { intros Hx%ok_or_Ok. rewrite Hc. by apply convert_value_exact. }
  destruct v; eauto.
Qed.

Lemma normalize_fields_value plan object fs fps nfs :
  Forall2 (λ f fp, field_plan (np_profile plan) f = Ok fp) fs fps →
  Forall2 (λ fp nf, normalize_field plan (VObject object) fp = Ok nf) fps nfs →
  Forall2 (field_value (np_profile plan) object) fs nfs.
Proof.
  intros Hp. revert nfs; induction Hp as [|f fp fs fps Hp Hps IH]; intros nfs Hn;
    inversion Hn; subst; constructor; [by eapply normalize_field_value | by apply IH].
Qed.

End Plans.

(** ** Theorems *)

Section Theorems.
Context {env : SpoolEnv} {env_laws : SpoolEnvLaws} {chrono : Chrono} {lib : JsonLib} {laws : JsonLibLaws}
  {base64 : Base64}.

Lemma event_id_wf batch position : EventId.wf (event_id_for_occurrence batch position).
Proof.
  unfold event_id_for_occurrence. split.
  - rewrite length_fmap, length_take, length_blake3. lia.
  - apply Forall_fmap, Forall_forall. intros c _. apply byte_of_ascii_is_byte.
Qed.

(** C31: a row accepted under the plan resolved for a batch comes from a record that is
    one JSON object; for every data field of the pinned schema, in order, it has
    either the exact value the profile points to, in the type of the field, or null for
    a nullable field whose value is absent or null; its event time is the instant the
    profile points to; and the remainder holds exactly the members of the object that
    no top-level pointer of the profile reads. *)
Theorem accepted_row_exact metadata source plan record location row :
  resolve metadata source = Ok plan → normalize_record plan record location = Ok row →
  ∃ input revision schema object v,
    pinned metadata source input revision ∧
    source_schema source (target_schema_id (catalog metadata)) = Some schema ∧
    json_document object record ∧
    Forall2 (field_value (r_profile revision) object) (data_fields schema) (ar_fields row) ∧
    resolve_pointer (VObject object) (et_json_pointer (p_event_time (r_profile revision))) = Some v ∧
    instant_value (et_format (p_event_time (r_profile revision))) v (ar_event_time row) ∧
    ar_location row = location ∧ ar_ingestion_time row = ingestion_time metadata ∧ EventId.wf (ar_event_id row) ∧
    ∀ k x, (k, x) ∈ default [] (ar_remainder row) ↔
      (k, x) ∈ object ∧ et_json_pointer (p_event_time (r_profile revision)) ≠ [k] ∧
      ∀ m, m ∈ p_mappings (r_profile revision) → m_json_pointer m ≠ [k].
Proof.
  intros (input & revision & schema & plans & Hpin & Hschema & Hplans & ->)%resolve_Ok.
  intros (object & time & fields & Ho & Ht & Hf & ->)%normalize_record_Ok. cbn [np_profile np_fields] in *.
  apply bind_Some in Ht as (v & Hv & Ht). apply parse_datetime_iff in Ht.
  exists input, revision, schema, object, v. split_and!; try done.
  - by apply parse_object_document.
  - match type of Hf with Forall2 (λ _ _, normalize_field ?plan _ _ = _) _ _ =>
      exact (normalize_fields_value plan _ _ _ _ Hplans Hf) end.
  - apply event_id_wf.
  - intros k x. unfold row_of. cbn [ar_remainder np_removed_top_level_properties].
    assert (E : ∀ l : list (string * Value), default [] match l with [] => None | _ => Some l end = l) by (by intros []).
    rewrite E, elem_of_object_removes, elem_of_removed. simpl. naive_solver.
Qed.

Lemma StronglySorted_filter {A} (R : A → A → Prop) (P : A → Prop) `{∀ x, Decision (P x)} (l : list A) :
  StronglySorted R l → StronglySorted R (filter P l).
Proof.
  induction 1 as [|x l Hl IH Hx]; [constructor|]. rewrite filter_cons. case_decide; [|done].
  constructor; [done|]. rewrite Forall_forall in Hx |- *. intros y [_ Hy]%list_elem_of_filter. by apply Hx.
Qed.

Lemma normalize_records_Ok metadata body source plan :
  resolve metadata source = Ok plan → Z.of_nat (length body) < int_max U64 →
  ∃ batch, normalize_records metadata body source = Ok batch ∧ nb_metadata batch = metadata ∧
    account plan (located (split_lines body)) (nb_records batch) (nb_ignored_records batch).
Proof.
  intros Hr Hb. pose proof (split_lines_of body) as Hlo.
  destruct (normalize_lines plan body (split_lines body) Hlo Hb) as (st & Hst & Ha).
  unfold normalize_records. rewrite Hr, bind_ret, narrow_ok, ok_or_ret, bind_ret by int_lia.
  apply bind_Ok in Hst as (st1 & Hf & Hst). rewrite Hf, bind_ret, Hst, bind_ret. eexists. split; [done|].
  split; [done | apply Ha].
Qed.

Lemma account_sorted plan body records ignored :
  account plan (located (split_lines body)) records ignored →
  StronglySorted Z.lt ((input_position ∘ record_location) <$> records).
Proof.
  intros Ha. pose proof (split_lines_of body) as Hlo.
  rewrite list_fmap_compose. erewrite account_locations by done. rewrite <- list_fmap_compose.
  apply (StronglySorted_fmap _ (λ x y, input_position x.1 < input_position y.1)); [done|].
  apply StronglySorted_filter, located_sorted, Forall_forall. intros l Hl. by eapply ln_text_ne.
Qed.

(** C30: normalization accounts for every line of a body exactly once. With a resolved plan
    and a body shorter than the largest u64 it succeeds; the lines of the body, split at
    newlines with a carriage return before the newline removed, are either blank and
    counted, or represented in order by one record at their line number and byte position:
    a row when the record is within the size limit, valid UTF-8 and normalizes, and a dead
    letter with the reason otherwise. Positions strictly increase, and the accepted
    rows lie on at most 32 event days; a day is refused only when 32 others came before. *)
Theorem normalize_records_exact metadata body source plan :
  resolve metadata source = Ok plan → Z.of_nat (length body) < int_max U64 →
  ∃ ls batch,
    lines_of body ls ∧
    normalize_records metadata body source = Ok batch ∧ nb_metadata batch = metadata ∧
    account plan (located ls) (nb_records batch) (nb_ignored_records batch) ∧
    record_location <$> nb_records batch = fst <$> filter (λ x, ¬ blank_line x) (located ls) ∧
    StronglySorted Z.lt ((input_position ∘ record_location) <$> nb_records batch).
Proof.
  intros Hr Hb. destruct (normalize_records_Ok _ _ _ _ Hr Hb) as (batch & Hn & Hm & Ha).
  exists (split_lines body), batch.
  split_and!; try done; [apply split_lines_of | by eapply account_locations | by eapply account_sorted].
Qed.

(** ** Sources of the catalog always resolve *)

Definition schema_built (s : Schema) : Prop := ∃ id src v d m l, Schema_new id src v d m l = Ok s.

Lemma schema_built_types s f :
  schema_built s → f ∈ data_fields s → ∃ c, conversion_of f = Ok c.
Proof.
  intros (id & src & v & d & m & l & Hs) Hf. unfold Schema_new in Hs.
  apply bind_Ok in Hs as (fs & Hfs & [= <-]). apply materialize_Ok in Hfs as (_ & _ & _ & ->).
  unfold data_fields in Hf. cbn [s_fields] in Hf. rewrite layout_data in Hf.
  apply elem_of_lookup_imap_1 in Hf as (k & u & -> & _). unfold conversion_of. cbn [f_logical_type field_of_user].
  destruct (uf_logical_type u); by eexists.
Qed.

Lemma field_plan_total profile f :
  (∃ c, conversion_of f = Ok c) →
  (f_nullability f = NonNull → ∃ m, m ∈ p_mappings profile ∧ m_target_field_id m = f_id f) →
  ∃ fp, field_plan profile f = Ok fp.
Proof.
  intros (c & Hc) Hm. unfold field_plan. rewrite Hc, bind_ret.
  destruct (find _ (p_mappings profile)) as [m|] eqn:E; [by eexists|].
  case_bool_decide as Hn1; [|by eexists]. case_bool_decide as Hn2; [|by eexists]. exfalso.
  destruct (Hm Hn2) as (m & Hin & Hid). rewrite find_None in E. specialize (E m Hin). by rewrite Hid, Z.eqb_refl in E.
Qed.

Lemma try_map_total {E A B} (f : A → result E B) l :
  (∀ x, x ∈ l → ∃ y, f x = Ok y) → ∃ k, Forall2 (λ x y, f x = Ok y) l k.
Proof.
  induction l as [|x l IH]; intros Hl; [by exists []; constructor|].
  destruct (Hl x ltac:(set_solver)) as (y & Hy), IH as (k & Hk); [set_solver|]. exists (y :: k). by constructor.
Qed.

Lemma resolve_total metadata source input revision :
  Source_wf source → Forall schema_built (src_schemas source) → pinned metadata source input revision →
  ∃ plan, resolve metadata source = Ok plan.
Proof.
  intros Hwf Hb Hp. pose proof Hp as [_ Hi Hv Ht]. unfold source_input in Hi.
  apply find_Some in Hi as [Hi _]. apply find_Some in Hv as [Hv _].
  destruct (swf_revisions _ Hwf input revision Hi Hv) as (schema & Hs & [_ Hreq]). rewrite Ht in Hs.
  assert (Hin : schema ∈ src_schemas source) by (unfold source_schema in Hs; by apply find_Some in Hs as [? _]).
  rewrite Forall_forall in Hb.
  destruct (try_map_total (field_plan (r_profile revision)) (data_fields schema)) as (fields & Hf).
  { intros f Hf. apply field_plan_total; [by apply (schema_built_types schema); [apply Hb|]|]. intros Hn. by apply Hreq. }
  eexists. apply resolve_Ok. by exists input, revision, schema, fields.
Qed.

(** Normalization fails only when the pinned catalog entries are absent. For a source
    the catalog built from schemas the catalog built, and a body shorter than the largest
    u64, [normalize_records] succeeds exactly when the source, the input, the profile
    revision and its target schema are those the batch is pinned to: no field type is
    unsupported, no required mapping is missing and no position overflows. *)
Theorem normalize_records_succeeds metadata body id name display declaration active schemas inputs source :
  Source_new id name display declaration active schemas inputs = Ok source →
  Forall schema_built schemas → Z.of_nat (length body) < int_max U64 →
  (∃ batch, normalize_records metadata body source = Ok batch) ↔ ∃ input revision, pinned metadata source input revision.
Proof.
  intros Hs Hb Hlen. pose proof (Source_new_invariant _ _ _ _ _ _ _ _ Hs) as [Hwf _].
  assert (src_schemas source = schemas) as <-.
  { unfold Source_new in Hs. destruct schemas; [done|]. apply bind_Ok in Hs as (? & _ & Hs).
    apply bind_Ok in Hs as (? & _ & [= <-]). done. }
  split.
  - intros (batch & Hn). unfold normalize_records in Hn. apply bind_Ok in Hn as (plan & Hp & _).
    apply resolve_Ok in Hp as (input & revision & _ & _ & Hp & _). by exists input, revision.
  - intros (input & revision & Hp). destruct (resolve_total _ _ _ _ Hwf Hb Hp) as (plan & Hr).
    destruct (normalize_records_Ok _ _ _ _ Hr Hlen) as (batch & Hn & _). by exists batch.
Qed.

End Theorems.

(** ** Dead-letter payloads and array indices *)

Section Payloads.
Context {base64 : Base64}.

(** The payload a dead letter keeps. For a record of valid UTF-8 it is a prefix of at
    most 4096 bytes that is valid UTF-8 itself, complete when the record is that short and
    otherwise at most three bytes shorter than the limit; for any other record it is the
    base64 encoding of the first 4096 bytes. The extent says whether bytes are missing. *)
Theorem dead_letter_payload_prefix record :
  let payload := DeadLetterPayload_from_record record in
  (pl_extent payload = Complete ↔ (length record ≤ 4096)%nat) ∧
  match pl_encoding payload with
  | EncodedUtf8 => ∃ kept rest,
      record = kept ++ rest ∧ pl_content payload = string_of_list_ascii kept ∧
      utf8_valid record = true ∧ utf8_valid kept = true ∧ (length kept ≤ 4096)%nat ∧
      (rest = [] ↔ pl_extent payload = Complete) ∧ (rest ≠ [] → (4093 ≤ length kept)%nat)
  | EncodedBase64 => utf8_valid record = false ∧ pl_content payload = base64_encode (take 4096 record)
  end.
Proof.
  unfold DeadLetterPayload_from_record, DEAD_LETTER_PAYLOAD_PREFIX_BYTES. change (4 * 1024)%nat with 4096%nat.
  set (extent := if (length record <=? 4096)%nat then Complete else Prefix).
  assert (Hext : extent = Complete ↔ (length record ≤ 4096)%nat).
  { unfold extent. destruct (Nat.leb_spec (length record) 4096); split; (done || lia). }
  destruct (utf8_valid record) eqn:Ev; cbn [pl_extent pl_encoding pl_content]; (split; [exact Hext|]).
  - destruct (floor_char_boundary_spec record (Nat.min (length record) 4096) Ev ltac:(lia)) as (Hp & Hb & Ht).
    set (p := floor_char_boundary _ _) in *. exists (take p record), (drop p record).
    rewrite take_drop, length_take.
    assert (Hfull : (length record ≤ 4096)%nat → p = length record).
    { intros Hs. apply floor_char_boundary_eq; [lia | |].
      - unfold is_char_boundary. destruct (length record) eqn:E; [done|]. rewrite <- E.
        rewrite (proj2 (lookup_ge_None _ _)) by lia. apply Nat.eqb_refl.
      - intros i Hi. lia. }
    assert (Hdrop : (length record ≤ 4096)%nat → drop p record = [])
      by (intros Hs; rewrite Hfull by done; by apply drop_ge).
    split_and!; try done; [lia | | intros Hne; destruct (Nat.le_gt_cases (length record) 4096); [tauto | lia]].
    rewrite Hext. split; [|done].
    intros Hd%(f_equal length). rewrite length_drop in Hd. simpl in Hd. lia.
  - split; [done|]. f_equal. destruct (Nat.le_gt_cases (length record) 4096).
    + rewrite Nat.min_l, !take_ge by lia. done.
    + by rewrite Nat.min_r by lia.
Qed.

End Payloads.

Lemma is_ascii_digit_iff c : is_ascii_digit c = true ↔ 48 ≤ byte_of_ascii c ≤ 57.
Proof.
  unfold is_ascii_digit, ascii_in, byte_of_ascii. rewrite andb_true_iff, !N.leb_le.
  change (N_of_ascii "0") with 48%N. change (N_of_ascii "9") with 57%N. lia.
Qed.

Lemma digit_char c : is_ascii_digit c = true → pretty_N_char (Z.to_N (byte_of_ascii c - 48)) = c.
Proof. destruct c as [[] [] [] [] [] [] [] []]; vm_compute; done. Qed.

Lemma char_digit x : (x < 10)%N →
  is_ascii_digit (pretty_N_char x) = true ∧ byte_of_ascii (pretty_N_char x) - 48 = Z.of_N x.
Proof.
  intros Hx. assert (x = 0 ∨ x = 1 ∨ x = 2 ∨ x = 3 ∨ x = 4 ∨ x = 5 ∨ x = 6 ∨ x = 7 ∨ x = 8 ∨ x = 9)%N as Hc by lia.
  repeat destruct Hc as [->|Hc]; try subst x; done.
Qed.

Lemma decimal_digits_pretty x s acc :
  decimal_digits (pretty_N_go x s) 0 = Some acc ↔ decimal_digits s (Z.of_N x) = Some acc.
Proof.
  revert s; induction x as [x IH] using (well_founded_induction N.lt_wf_0). intros s.
  destruct (decide (x = 0)%N) as [->|Hx]; [by rewrite pretty_N_go_0|].
  rewrite pretty_N_go_step, IH by (lia || (apply N.div_lt; lia)). cbn [decimal_digits].
  destruct (char_digit (x mod 10)%N ltac:(apply N.mod_lt; lia)) as [-> ->].
  replace (Z.of_N (x / 10) * 10 + Z.of_N (x mod 10)) with (Z.of_N x); [done|].
  rewrite N2Z.inj_div, N2Z.inj_mod. pose proof (Z.div_mod (Z.of_N x) 10). lia.
Qed.

Lemma decimal_digits_mono s acc v : 0 ≤ acc → decimal_digits s acc = Some v → acc ≤ v.
Proof.
  revert acc; induction s as [|c s IH]; intros acc Ha; cbn [decimal_digits]; [intros [= ->]; lia|].
  destruct (is_ascii_digit c) eqn:E; [|done]. apply is_ascii_digit_iff in E. intros Hs%IH; lia.
Qed.

Lemma pretty_decimal_digits s acc v :
  0 < acc → decimal_digits s acc = Some v → pretty_N_go (Z.to_N v) "" = pretty_N_go (Z.to_N acc) s.
Proof.
  revert acc; induction s as [|c s IH]; intros acc Ha; cbn [decimal_digits]; [by intros [= ->]|].
  destruct (is_ascii_digit c) eqn:E; [|done]. pose proof (digit_char c E) as Hc. apply is_ascii_digit_iff in E.
  intros Hv. rewrite (IH (acc * 10 + (byte_of_ascii c - 48)) ltac:(lia) Hv), pretty_N_go_step by lia.
  set (d := byte_of_ascii c - 48) in *.
  assert (Z.to_N (acc * 10 + d) = Z.to_N d + Z.to_N acc * 10)%N as -> by lia.
  rewrite N.div_add, N.Div0.mod_add by lia. rewrite N.div_small, N.mod_small by lia. by rewrite Hc.
Qed.

(** The decimal form of a positive number starts with a digit other than zero. *)
Lemma pretty_head x t : (0 < x)%N → ∃ c s, pretty_N_go x t = String c s ∧ c ≠ "+"%char ∧ c ≠ "0"%char.
Proof.
  revert t; induction x as [x IH] using (well_founded_induction N.lt_wf_0). intros t Hx.
  rewrite pretty_N_go_step by done. destruct (decide (x / 10 = 0)%N) as [E|E].
  - rewrite E, pretty_N_go_0. eexists _, t. split; [done|].
    apply N.div_small_iff in E; [|lia]. rewrite N.mod_small by done.
    assert (x = 1 ∨ x = 2 ∨ x = 3 ∨ x = 4 ∨ x = 5 ∨ x = 6 ∨ x = 7 ∨ x = 8 ∨ x = 9)%N as Hc by lia.
    repeat destruct Hc as [->|Hc]; try subst x; done.
  - apply IH; [apply N.div_lt; lia | by apply N.neq_0_lt_0].
Qed.

Lemma parse_usize_unsigned c s :
  c ≠ "+"%char → parse_usize (String c s) = decimal_digits (String c s) 0 ≫= narrow U64.
Proof. unfold parse_usize. destruct c as [[] [] [] [] [] [] [] []]; done. Qed.

Lemma parse_array_index_sound token i :
  parse_array_index token = Some i → 0 ≤ i ≤ int_max U64 ∧ token = pretty (Z.to_N i).
Proof.
  unfold pretty, pretty_N, parse_array_index. destruct token as [|c s]; [done|].
  destruct (decide (c = "+"%char)) as [->|Hplus]; [done|].
  replace (starts_with "+" (String c s)) with false by (cbn [starts_with]; by rewrite bool_decide_false).
  cbn [orb]. destruct (_ && starts_with "0" (String c s)) eqn:Ez; [done|]. rewrite parse_usize_unsigned by done.
  intros (v & Hv & [-> Hr]%narrow_Some)%bind_Some. cbn [decimal_digits] in Hv.
  destruct (is_ascii_digit c) eqn:Ed; [|done]. pose proof (digit_char c Ed) as Hc.
  pose proof (proj1 (is_ascii_digit_iff c) Ed) as Hd. rewrite Z.mul_0_l, Z.add_0_l in Hv.
  split; [int_lia|]. destruct (decide (byte_of_ascii c = 48)) as [E0|E0].
  - assert (c = "0"%char) as -> by (rewrite <- (ascii_of_byte_of_ascii c), E0; done).
    destruct s as [|c' s]; [|done]. simpl in Hv. injection Hv as <-. done.
  - pose proof (decimal_digits_mono s (byte_of_ascii c - 48) v ltac:(lia) Hv). rewrite decide_False by lia.
    rewrite (pretty_decimal_digits s (byte_of_ascii c - 48) v) by (done || lia).
    rewrite pretty_N_go_step, N.div_small, N.mod_small by lia. by rewrite pretty_N_go_0, Hc.
Qed.

Lemma parse_array_index_complete i : 0 ≤ i ≤ int_max U64 → parse_array_index (pretty (Z.to_N i)) = Some i.
Proof.
  intros Hr. unfold pretty, pretty_N, parse_array_index. case_decide as E0; [by replace i with 0 by lia|].
  assert (Hv : decimal_digits (pretty_N_go (Z.to_N i) "") 0 = Some i).
  { apply decimal_digits_pretty. simpl. f_equal. lia. }
  destruct (pretty_head (Z.to_N i) "") as (c & s & Ep & Hp & H0); [lia|].
  rewrite Ep in *. cbn [starts_with]. rewrite !bool_decide_false by done. rewrite andb_false_r. cbn [orb].
  rewrite parse_usize_unsigned by done. rewrite Hv. apply narrow_ok. int_lia.
Qed.

(** an array index of a JSON pointer is read exactly from its canonical decimal form: no
    sign, no leading zero, within the range of usize. *)
Theorem parse_array_index_canonical token i :
  parse_array_index token = Some i ↔ 0 ≤ i ≤ int_max U64 ∧ token = pretty (Z.to_N i).
Proof.
  split; [apply parse_array_index_sound|]. intros [Hr ->]. by apply parse_array_index_complete.
Qed.

(** ** A concrete run *)

(** Numbers as texts of digits, and strings without escapes. *)
#[local] Instance sample_json : JsonLib := {
  Number := bytes;
  Number_from_str t := (λ _, t) <$> decimal_digits (string_of_list_ascii t) 0;
  as_i64 n := decimal_digits (string_of_list_ascii n) 0 ≫= narrow I64;
  as_u64 n := decimal_digits (string_of_list_ascii n) 0 ≫= narrow U64;
  number_to_string n := string_of_list_ascii n;
  string_from_slice t := Some (string_of_list_ascii (take (length t - 2) (drop 1 t)));
}.

#[local] Instance sample_json_laws : JsonLibLaws.
Proof.
  split; unfold as_i64, as_u64, sample_json; intros n x.
  - intros (v & _ & Hv)%bind_Some. by eapply narrow_fits.
  - intros (v & _ & Hv)%bind_Some. by eapply narrow_fits.
  - intros y (v & Hv & [-> _]%narrow_Some)%bind_Some (w & Hw & [-> _]%narrow_Some)%bind_Some. congruence.
Qed.

#[local] Instance sample_base64 : Base64 := string_of_list_ascii.
#[local] Instance sample_chrono : Chrono := λ s,
  if decide (s = "1970-01-01T00:00:00Z"%string)
  then Some {| timestamp_millis := 0; timestamp_subsec_nanos := 0; nanosecond := 0 |} else None.

(** A text with apostrophes for the quotes of JSON. *)
Definition quoted (s : string) : bytes := (λ c, if decide (c = "'"%char) then quote else c) <$> ascii_bytes s.

Definition sample_record : bytes := quoted "{'time':'1970-01-01T00:00:00Z','status':7,'path':'/'}".

Definition sample_body : bytes :=
  sample_record ++ [carriage_return; newline] ++ ascii_bytes " " ++ [newline] ++ quoted "{'status':7,".

Definition sample_pins : BatchMetadata :=
  {| batch_id := sample_uuid 1;
     catalog := {| source_id := 2; input_id := 10; profile_revision_id := 20; target_schema_id := 1 |};
     ingestion_time := 1700000000000 |}.

Definition sample_plan : NormalizationPlan :=
  {| np_metadata := sample_pins; np_profile := r_profile sample_revision;
     np_fields := [ {| fp_field_id := 100; fp_nullability := NonNull; fp_conversion := CInt64;
                       fp_pointer := Some ["status"%string] |} ];
     np_removed_top_level_properties := ["time"%string; "status"%string] |}.

Lemma sample_resolves : resolve sample_pins sample_source = Ok sample_plan.
Proof. vm_compute. reflexivity. Qed.

Lemma normalize_records_exact_witness :
  resolve sample_pins sample_source = Ok sample_plan ∧
  ∃ batch, normalize_records sample_pins sample_body sample_source = Ok batch ∧
    length (nb_records batch) = 2%nat ∧ nb_ignored_records batch = 1.
Proof.
  split; [vm_compute; reflexivity|].
  destruct (normalize_records_exact sample_pins sample_body sample_source sample_plan) as (ls & batch & H1 & H2 & _).
  - vm_compute. reflexivity.
  - vm_compute. reflexivity.
  - assert (Hc : (λ b, (length (nb_records b), nb_ignored_records b)) <$>
      normalize_records sample_pins sample_body sample_source = Ok (2%nat, 1)) by (vm_compute; reflexivity).
    rewrite H2 in Hc. injection Hc as Hl Hi. exists batch. split; [exact H2 | split; [exact Hl | exact Hi]].
Defined.

Lemma accepted_row_exact_witness :
  ∃ row, normalize_record sample_plan sample_record {| line_number := 1; input_position := 0 |} = Ok row ∧
    ar_fields row = [ {| nf_field_id := 100; nf_value := NvInt64 7 |} ] ∧ EventId.wf (ar_event_id row).
Proof.
  assert (Hc : ar_fields <$> normalize_record sample_plan sample_record {| line_number := 1; input_position := 0 |} =
    Ok [ {| nf_field_id := 100; nf_value := NvInt64 7 |} ]) by (vm_compute; reflexivity).
  destruct (normalize_record sample_plan sample_record {| line_number := 1; input_position := 0 |}) as [row|] eqn:E;
    [|discriminate Hc]. injection Hc as Hf. exists row. split; [reflexivity|]. split; [exact Hf|].
  destruct (accepted_row_exact sample_pins sample_source sample_plan sample_record
    {| line_number := 1; input_position := 0 |} row sample_resolves E)
    as (? & ? & ? & ? & ? & _ & _ & _ & _ & _ & _ & _ & _ & Hid & _). exact Hid.
Defined.

Lemma normalize_records_succeeds_witness :
  ∃ batch, normalize_records sample_pins sample_body sample_source = Ok batch.
Proof.
  refine (proj2 (normalize_records_succeeds sample_pins sample_body 2 "web" "Web" [] 4
    [sample_earlier; sample_later] [sample_input] sample_source _ _ _) _).
  - vm_compute. reflexivity.
  - repeat constructor.
    + exists 1, 2, 1, [], [], (take 1 sample_fields). vm_compute. reflexivity.
    + exists 4, 2, 3, [], [], sample_fields. vm_compute. reflexivity.
  - vm_compute. reflexivity.
  - exists sample_input, sample_revision. constructor; vm_compute; reflexivity.
Defined.
