(* ===== verification/Storage.v ===== *)
(** * elucid-storage: identities, keys and descriptors

    Models src/elucid/elucid-storage/src/{identity,value,key,descriptor,segment,dead_letter,error}.rs.
    The text form of a UUID, object_store's paths and chrono's instants are parameters.
    A segment or object identity is any UUID, a batch identity a UUIDv7; all are their
    128-bit value. *)

From stdpp Require Import pretty.
From S2P Require Import Prelude Core CatalogTypes Bytes Frame.

#[local] Open Scope Z_scope.

(** ** Parameters *)

(** [Display] and [parse_str] of the uuid crate. *)
Class UuidText := {
  uuid_to_string : Z → string;
  uuid_parse_str : string → option Z;
}.

(** Characters that object_store writes into a path as they are. *)
Definition path_safe (c : ascii) : bool := is_ascii_alphanumeric c || bool_decide (c = "-"%char) || bool_decide (c = "."%char).

Definition is_uuid (u : Z) : Prop := 0 ≤ u < 2 ^ 128.

(** The hyphenated form has 36 safe characters and is read back. *)
Class UuidTextLaws `{UuidText} : Prop := {
  uuid_parse_to_string u : is_uuid u → uuid_parse_str (uuid_to_string u) = Some u;
  length_uuid_to_string u : String.length (uuid_to_string u) = 36%nat;
  uuid_to_string_safe u : string_forallb path_safe (uuid_to_string u) = true;
}.

(** [object_store::path::Path]: a path is its text. *)
Class PathLib := {
  path_parse : string → option string;
  path_child : string → string → string;
}.

Definition ends_with (c : ascii) (s : string) : bool :=
  match String.get (pred (String.length s)) s with Some d => bool_decide (d = c) | None => false end.

Definition starts_with (c : ascii) (s : string) : bool :=
  match s with String d _ => bool_decide (d = c) | EmptyString => false end.

(** Parsing keeps a text without outer slashes, the empty path is valid, and a child
    of safe characters is appended after a slash. *)
Class PathLibLaws `{PathLib} : Prop := {
  path_parse_exact s p : starts_with "/" s = false → ends_with "/" s = false → path_parse s = Some p → p = s;
  path_parse_empty : path_parse "" = Some ""%string;
  path_child_safe p part :
    string_forallb path_safe part = true → part ≠ ""%string →
    path_child p part = match p with EmptyString => part | _ => (p +:+ "/" +:+ part)%string end;
}.

(** chrono's [DateTime<Utc>] and [NaiveDate]. *)
Class Calendar := {
  DateTime : Type;
  DateTime_eq_dec :: EqDecision DateTime;
  datetime_ltb : DateTime → DateTime → bool;
  timestamp_subsec_nanos : DateTime → Z;
  timestamp_micros : DateTime → Z;
  from_timestamp_micros : Z → option DateTime;
  NaiveDate : Type;
  NaiveDate_eq_dec :: EqDecision NaiveDate;
  date_naive : DateTime → NaiveDate;
  date_to_string : NaiveDate → string;
  date_parse : string → option NaiveDate;
}.

(** Instants of whole microseconds and dates are read back from what is written. *)
Class CalendarLaws `{Calendar} : Prop := {
  micros_round_trip d :
    Z.rem (timestamp_subsec_nanos d) 1000 = 0 → from_timestamp_micros (timestamp_micros d) = Some d;
  date_round_trip d : date_parse (date_to_string d) = Some d;
}.

(** ** Errors *)

Inductive StorageModelError :=
| RowCountMustBePositive | UncompressedByteSizeMustBePositive | EventTimeBoundsNotOrdered
| IngestionTimeBoundsNotOrdered | EventDayMismatch | TimestampPrecisionUnsupported
| SegmentObjectOwnerMismatch | DeadLetterObjectOwnerMismatch | BatchIdentityMustBeUuidV7 (value : Z)
| RootPrefixTooLong (maximum_bytes : nat) | RootPrefixNotCanonical | RootPrefixInvalid
| ParquetManagedKeyIdentityMismatch | DeadLetterManagedKeyIdentityMismatch
| ObjectFormatVersionMustBePositive | TransferLimitMustBePositive | ObjectSizeOverflow
| InvalidObjectReadRange (start end_ object_size : Z) | MediaTypeDoesNotMatchManagedKey
| ParquetManagedKeyRequired | ParquetRowCountMustBePositive | ParquetRowCountOutOfRange | ParquetSchemaMismatch
| ParquetNonNullFieldContainsNull (field_ordinal : nat) | ParquetSystemColumnsInvalid | ParquetRowsSpanEventDays
| ParquetRowsNotOrdered | ParquetWriteLimitMustBePositive.

Notation storage_model := (result StorageModelError).

(** ** Values (value.rs, identity.rs) *)

Notation SegmentId := Z (only parsing).
Notation StoredObjectId := Z (only parsing).

Definition BatchId_try_from (value : Z) : storage_model Z :=
  ok_or (UuidV7.new value) (BatchIdentityMustBeUuidV7 value).

Definition ObjectByteSize_from_usize (value : nat) : storage_model Z :=
  ok_or (narrow U64 (Z.of_nat value)) ObjectSizeOverflow.

Definition ObjectFormatVersion_new (value : Z) : storage_model Z :=
  ok_or (NonZeroU64_new value) ObjectFormatVersionMustBePositive.

Definition TransferLimit_new (value : Z) : storage_model Z :=
  ok_or (NonZeroU64_new value) TransferLimitMustBePositive.

Definition RowCount_new (value : Z) : storage_model Z := ok_or (NonZeroU64_new value) RowCountMustBePositive.

Definition UncompressedByteSize_new (value : Z) : storage_model Z :=
  ok_or (NonZeroU64_new value) UncompressedByteSizeMustBePositive.

Inductive ObjectMediaType := ParquetMedia | DeadLetterMedia.

#[export] Instance ObjectMediaType_eq_dec : EqDecision ObjectMediaType.
Proof. solve_decision. Defined.

Definition media_type_as_str (media_type : ObjectMediaType) : string :=
  match media_type with
  | ParquetMedia => "application/vnd.apache.parquet"
  | DeadLetterMedia => "application/x-ndjson"
  end.

Record ObjectReadRange := { rr_start : Z; rr_end : Z; rr_object_size : Z }.

Definition ObjectReadRange_new (start end_ object_size : Z) : storage_model ObjectReadRange :=
  if (start >=? end_) || (end_ >? object_size) then Err (InvalidObjectReadRange start end_ object_size)
  else Ok {| rr_start := start; rr_end := end_; rr_object_size := object_size |}.

Definition byte_length (range : ObjectReadRange) : Z := rr_end range - rr_start range.

(** ** Keys (key.rs) *)

Definition UUID_TEXT_BYTES : nat := 36.
Definition MAXIMUM_MANAGED_KEY_BYTES : nat := 1024.
Definition MAXIMUM_MANAGED_SUFFIX_BYTES : nat :=
  1 + String.length "dead-letters" + 1 + UUID_TEXT_BYTES + 1 + UUID_TEXT_BYTES + String.length ".ndjson".
Definition MAXIMUM_ROOT_PREFIX_BYTES : nat := MAXIMUM_MANAGED_KEY_BYTES - MAXIMUM_MANAGED_SUFFIX_BYTES.

Inductive ManagedObjectKind := ParquetKind | DeadLetterKind.

#[export] Instance ManagedObjectKind_eq_dec : EqDecision ManagedObjectKind.
Proof. solve_decision. Defined.

Inductive ObjectOwner := SegmentOwner (segment_id : SegmentId) | DeadLetterBatch (batch_id : Z).

#[export] Instance ObjectOwner_eq_dec : EqDecision ObjectOwner.
Proof. solve_decision. Defined.

(** [struct ManagedRoot(ObjectPath)] *)
Record ManagedRoot := { root_path : string }.

Record ManagedObjectKey := {
  k_path : string;
  k_kind : ManagedObjectKind;
  k_owner : ObjectOwner;
  k_object_id : StoredObjectId;
}.

#[export] Instance ManagedObjectKey_eq_dec : EqDecision ManagedObjectKey.
Proof. solve_decision. Defined.

(** [value.strip_suffix(suffix)] *)
Definition strip_suffix (suffix value : string) : option string :=
  let n := (String.length value - String.length suffix)%nat in
  if decide (value = String.substring 0 n value +:+ suffix) then Some (String.substring 0 n value) else None.

Section Keys.
Context `{UuidText, PathLib}.

Definition ManagedRoot_parse (value : string) : storage_model ManagedRoot :=
  if (MAXIMUM_ROOT_PREFIX_BYTES <? String.length value)%nat
  then Err (RootPrefixTooLong MAXIMUM_ROOT_PREFIX_BYTES)
  else if starts_with "/" value || ends_with "/" value then Err RootPrefixNotCanonical
  else match path_parse value with
       | Some path => Ok {| root_path := path |}
       | None => Err RootPrefixInvalid
       end.

Definition key_new (root : ManagedRoot) (namespace owner_id filename : string) (kind : ManagedObjectKind)
    (owner : ObjectOwner) (object_id : StoredObjectId) : ManagedObjectKey :=
  {| k_path := path_child (path_child (path_child (root_path root) namespace) owner_id) filename;
     k_kind := kind; k_owner := owner; k_object_id := object_id |}.

Definition parquet_key (root : ManagedRoot) (segment_id : SegmentId) (object_id : StoredObjectId) : ManagedObjectKey :=
  key_new root "segments" (uuid_to_string segment_id) (uuid_to_string object_id +:+ ".parquet") ParquetKind
    (SegmentOwner segment_id) object_id.

Definition dead_letter_key (root : ManagedRoot) (batch_id : Z) (object_id : StoredObjectId) : ManagedObjectKey :=
  key_new root "dead-letters" (uuid_to_string batch_id) (uuid_to_string object_id +:+ ".ndjson") DeadLetterKind
    (DeadLetterBatch batch_id) object_id.

(** The root before a suffix, which may be the whole key. *)
Definition root_before (suffix value : string) (mismatch : StorageModelError) : storage_model string :=
  if decide (value = suffix) then Ok ""%string else ok_or (strip_suffix ("/" +:+ suffix) value) mismatch.

Definition parquet_suffix (segment_id : SegmentId) (object_id : StoredObjectId) : string :=
  "segments/" +:+ uuid_to_string segment_id +:+ "/" +:+ uuid_to_string object_id +:+ ".parquet".

Definition dead_letter_suffix (batch_id : Z) (object_id : StoredObjectId) : string :=
  "dead-letters/" +:+ uuid_to_string batch_id +:+ "/" +:+ uuid_to_string object_id +:+ ".ndjson".

Definition parse_parquet (value : string) (segment_id : SegmentId) (object_id : StoredObjectId)
    : storage_model ManagedObjectKey :=
  root ← root_before (parquet_suffix segment_id object_id) value ParquetManagedKeyIdentityMismatch;
  root ← ManagedRoot_parse root;
  let key := parquet_key root segment_id object_id in
  if decide (k_path key = value) then Ok key else Err ParquetManagedKeyIdentityMismatch.

Definition parse_dead_letter (value : string) (batch_id : Z) (object_id : StoredObjectId)
    : storage_model ManagedObjectKey :=
  root ← root_before (dead_letter_suffix batch_id object_id) value DeadLetterManagedKeyIdentityMismatch;
  root ← ManagedRoot_parse root;
  let key := dead_letter_key root batch_id object_id in
  if decide (k_path key = value) then Ok key else Err DeadLetterManagedKeyIdentityMismatch.

End Keys.

(** ** Descriptors (descriptor.rs, segment.rs, dead_letter.rs) *)

Record ObjectDescriptor := {
  od_key : ManagedObjectKey;
  od_expected_byte_size : Z;
  od_digest : bytes;
  od_media_type : ObjectMediaType;
  od_format_version : Z;
}.

#[export] Instance ObjectDescriptor_eq_dec : EqDecision ObjectDescriptor.
Proof. solve_decision. Defined.

Definition matching_kind (kind : ManagedObjectKind) (media_type : ObjectMediaType) : bool :=
  match kind, media_type with
  | ParquetKind, ParquetMedia | DeadLetterKind, DeadLetterMedia => true
  | _, _ => false
  end.

Definition ObjectDescriptor_new (key : ManagedObjectKey) (expected_byte_size : Z) (digest : bytes)
    (media_type : ObjectMediaType) (format_version : Z) : storage_model ObjectDescriptor :=
  if negb (matching_kind (k_kind key) media_type) then Err MediaTypeDoesNotMatchManagedKey
  else Ok {| od_key := key; od_expected_byte_size := expected_byte_size; od_digest := digest;
             od_media_type := media_type; od_format_version := format_version |}.

Definition ObjectDescriptor_for_bytes `{SpoolEnv} (key : ManagedObjectKey) (b : bytes)
    (media_type : ObjectMediaType) (format_version : Z) : storage_model ObjectDescriptor :=
  size ← ObjectByteSize_from_usize (length b);
  ObjectDescriptor_new key size (blake3 b) media_type format_version.

Section Descriptors.
Context `{Calendar}.

Record SegmentTimes := {
  event_day : NaiveDate;
  minimum_event_time : DateTime;
  maximum_event_time : DateTime;
  minimum_ingestion_time : DateTime;
  maximum_ingestion_time : DateTime;
}.

#[export] Instance SegmentTimes_eq_dec : EqDecision SegmentTimes.
Proof. solve_decision. Defined.

Definition SegmentTimes_new (event_day : NaiveDate)
    (minimum_event_time maximum_event_time minimum_ingestion_time maximum_ingestion_time : DateTime)
    : storage_model SegmentTimes :=
  if datetime_ltb maximum_event_time minimum_event_time then Err EventTimeBoundsNotOrdered
  else if datetime_ltb maximum_ingestion_time minimum_ingestion_time then Err IngestionTimeBoundsNotOrdered
  else if negb (bool_decide (date_naive minimum_event_time = event_day))
       || negb (bool_decide (date_naive maximum_event_time = event_day)) then Err EventDayMismatch
  else if existsb (λ timestamp, negb (Z.rem (timestamp_subsec_nanos timestamp) 1000 =? 0))
            [minimum_event_time; maximum_event_time; minimum_ingestion_time; maximum_ingestion_time]
  then Err TimestampPrecisionUnsupported
  else Ok {| event_day := event_day; minimum_event_time := minimum_event_time;
             maximum_event_time := maximum_event_time; minimum_ingestion_time := minimum_ingestion_time;
             maximum_ingestion_time := maximum_ingestion_time |}.

Record SegmentDescriptor := {
  sd_segment_id : SegmentId;
  sd_source_id : SourceId;
  sd_schema_id : SchemaId;
  sd_times : SegmentTimes;
  sd_row_count : Z;
  sd_uncompressed_bytes : Z;
  sd_object : ObjectDescriptor;
}.

#[export] Instance SegmentDescriptor_eq_dec : EqDecision SegmentDescriptor.
Proof. solve_decision. Defined.

Definition SegmentDescriptor_new (segment_id : SegmentId) (source_id : SourceId) (schema_id : SchemaId)
    (times : SegmentTimes) (row_count uncompressed_bytes : Z) (object : ObjectDescriptor)
    : storage_model SegmentDescriptor :=
  if negb (bool_decide (k_owner (od_key object) = SegmentOwner segment_id))
     || negb (bool_decide (k_kind (od_key object) = ParquetKind))
  then Err SegmentObjectOwnerMismatch
  else Ok {| sd_segment_id := segment_id; sd_source_id := source_id; sd_schema_id := schema_id;
             sd_times := times; sd_row_count := row_count; sd_uncompressed_bytes := uncompressed_bytes;
             sd_object := object |}.

End Descriptors.

Record DeadLetterDescriptor := { dd_input_id : InputId; dd_batch_id : Z; dd_object : ObjectDescriptor }.

#[export] Instance DeadLetterDescriptor_eq_dec : EqDecision DeadLetterDescriptor.
Proof. solve_decision. Defined.

Definition DeadLetterDescriptor_new (input_id : InputId) (batch_id : Z) (object : ObjectDescriptor)
    : storage_model DeadLetterDescriptor :=
  if negb (bool_decide (k_owner (od_key object) = DeadLetterBatch batch_id))
     || negb (bool_decide (k_kind (od_key object) = DeadLetterKind))
  then Err DeadLetterObjectOwnerMismatch
  else Ok {| dd_input_id := input_id; dd_batch_id := batch_id; dd_object := object |}.

(** ** Strings *)

Lemma string_app_assoc (a b c : string) : (a +:+ b) +:+ c = a +:+ b +:+ c.
Proof. induction a as [|x a IH]; [done|]. exact (f_equal (String x) IH). Qed.

Lemma length_string_app (a b : string) : String.length (a +:+ b) = (String.length a + String.length b)%nat.
Proof. induction a as [|x a IH]; [done|]. exact (f_equal S IH). Qed.

Lemma substring_app (a b : string) : String.substring 0 (String.length a) (a +:+ b) = a.
Proof.
  induction a as [|x a IH]; [by destruct b|]. exact (f_equal (String x) IH).
Qed.

Lemma string_app_inj (a b c d : string) :
  String.length b = String.length d → a +:+ b = c +:+ d → a = c ∧ b = d.
Proof.
  intros Hl. revert c; induction a as [|x a IH]; intros [|y c] E.
  - done.
  - apply (f_equal String.length) in E. rewrite !length_string_app in E. cbn [String.length] in E. lia.
  - apply (f_equal String.length) in E. rewrite !length_string_app in E. cbn [String.length] in E. lia.
  - change (String x (a +:+ b) = String y (c +:+ d)) in E. injection E as -> E. apply IH in E as [-> ->]. done.
Qed.

Lemma strip_suffix_Some suffix value root : strip_suffix suffix value = Some root ↔ value = root +:+ suffix.
Proof.
  unfold strip_suffix. split.
  - case_decide as E; [|done]. by intros [= <-].
  - intros ->. rewrite length_string_app. replace (_ + _ - _)%nat with (String.length root) by lia.
    rewrite substring_app. by rewrite decide_True.
Qed.

Lemma string_forallb_app p a b : string_forallb p (a +:+ b) = string_forallb p a && string_forallb p b.
Proof.
  induction a as [|x a IH]; [done|]. change (p x && string_forallb p (a +:+ b) = (p x && string_forallb p a) && string_forallb p b).
  by rewrite IH, andb_assoc.
Qed.

(** ** Keys *)

Section KeyTheory.
Context `{UuidTextLaws, PathLibLaws}.

(** A root that [ManagedRoot::parse] returns. *)
Definition canonical (root : ManagedRoot) : Prop := ManagedRoot_parse (root_path root) = Ok root.

Lemma ManagedRoot_parse_exact value root : ManagedRoot_parse value = Ok root → root_path root = value.
Proof.
  unfold ManagedRoot_parse. destruct (_ <? _)%nat; [done|].
  destruct (starts_with "/" value) eqn:E1; [done|]. destruct (ends_with "/" value) eqn:E2; [done|].
  destruct (path_parse value) as [p|] eqn:Ep; [|done]. intros [= <-]. by apply path_parse_exact.
Qed.

Lemma ManagedRoot_parse_canonical value root : ManagedRoot_parse value = Ok root → canonical root.
Proof. intros Hp. unfold canonical. by rewrite (ManagedRoot_parse_exact _ _ Hp). Qed.

Definition join (root suffix : string) : string :=
  match root with EmptyString => suffix | _ => root +:+ "/" +:+ suffix end.

Lemma join_inj r1 s1 r2 s2 : String.length s1 = String.length s2 → join r1 s1 = join r2 s2 → r1 = r2 ∧ s1 = s2.
Proof.
  intros Hl Hj. pose proof (f_equal String.length Hj) as Hlen.
  destruct r1 as [|c1 r1], r2 as [|c2 r2]; unfold join in *; rewrite ?length_string_app in Hlen;
    simpl String.length in Hlen; [done | lia | lia |].
  apply string_app_inj in Hj as [-> Hs]; [|by rewrite !length_string_app, Hl].
  apply (string_app_inj "/" s1 "/" s2) in Hs as [_ ->]; done.
Qed.

Lemma uuid_to_string_nonempty u : uuid_to_string u ≠ ""%string.
Proof. intros E. pose proof (length_uuid_to_string u) as Hl. by rewrite E in Hl. Qed.

Lemma join_join r x y : x ≠ ""%string → join (join r x) y = join r (x +:+ "/" +:+ y).
Proof.
  intros Hx. destruct r as [|c r]; [by destruct x|].
  change (((String c r +:+ "/" +:+ x) +:+ "/" +:+ y)%string = String c r +:+ "/" +:+ x +:+ "/" +:+ y).
  by rewrite !string_app_assoc.
Qed.

(** Three components appended to a root. *)
Lemma path_three root a b c :
  string_forallb path_safe a = true → string_forallb path_safe b = true → string_forallb path_safe c = true →
  a ≠ ""%string → b ≠ ""%string → c ≠ ""%string →
  path_child (path_child (path_child root a) b) c = join root (a +:+ "/" +:+ b +:+ "/" +:+ c).
Proof.
  intros Ha Hb Hc Na Nb Nc. rewrite !path_child_safe by done. fold (join root a). fold (join (join root a) b).
  fold (join (join (join root a) b) c). rewrite !join_join; [by rewrite ?string_app_assoc | done | by destruct a].
Qed.

Lemma parquet_path root s o : k_path (parquet_key root s o) = join (root_path root) (parquet_suffix s o).
Proof.
  unfold parquet_key, key_new, parquet_suffix. cbn [k_path]. apply path_three.
  - reflexivity.
  - apply uuid_to_string_safe.
  - rewrite string_forallb_app, uuid_to_string_safe. reflexivity.
  - done.
  - apply uuid_to_string_nonempty.
  - intros E. apply (f_equal String.length) in E. rewrite length_string_app, length_uuid_to_string in E. discriminate E.
Qed.

Lemma dead_letter_path root b o : k_path (dead_letter_key root b o) = join (root_path root) (dead_letter_suffix b o).
Proof.
  unfold dead_letter_key, key_new, dead_letter_suffix. cbn [k_path]. apply path_three.
  - reflexivity.
  - apply uuid_to_string_safe.
  - rewrite string_forallb_app, uuid_to_string_safe. reflexivity.
  - done.
  - apply uuid_to_string_nonempty.
  - intros E. apply (f_equal String.length) in E. rewrite length_string_app, length_uuid_to_string in E. discriminate E.
Qed.

Lemma root_before_join suffix root mismatch : root_before suffix (join root suffix) mismatch = Ok root.
Proof.
  unfold root_before. destruct root as [|c root]; cbn [join]; [by rewrite decide_True|].
  rewrite decide_False.
  - by rewrite (proj2 (strip_suffix_Some _ _ _) eq_refl).
  - intros E. apply (f_equal String.length) in E. rewrite !length_string_app in E. simpl in E. lia.
Qed.

Lemma parse_parquet_Ok value s o key :
  parse_parquet value s o = Ok key ↔ ∃ root, canonical root ∧ key = parquet_key root s o ∧ k_path key = value.
Proof.
  unfold parse_parquet. split.
  - intros (r & _ & Hr)%bind_Ok. apply bind_Ok in Hr as (root & Hp & Hk). case_decide as E; [|done].
    injection Hk as <-. exists root. split_and!; [by eapply ManagedRoot_parse_canonical | done | done].
  - intros (root & Hc & -> & <-). rewrite parquet_path, root_before_join, bind_ret, Hc, bind_ret.
    by rewrite parquet_path, decide_True.
Qed.

Lemma parse_dead_letter_Ok value b o key :
  parse_dead_letter value b o = Ok key ↔ ∃ root, canonical root ∧ key = dead_letter_key root b o ∧ k_path key = value.
Proof.
  unfold parse_dead_letter. split.
  - intros (r & _ & Hr)%bind_Ok. apply bind_Ok in Hr as (root & Hp & Hk). case_decide as E; [|done].
    injection Hk as <-. exists root. split_and!; [by eapply ManagedRoot_parse_canonical | done | done].
  - intros (root & Hc & -> & <-). rewrite dead_letter_path, root_before_join, bind_ret, Hc, bind_ret.
    by rewrite dead_letter_path, decide_True.
Qed.

Lemma uuid_to_string_inj u v : is_uuid u → is_uuid v → uuid_to_string u = uuid_to_string v → u = v.
Proof.
  intros Hu Hv E. apply (f_equal uuid_parse_str) in E. rewrite !uuid_parse_to_string in E by done. by injection E.
Qed.

(** The keys the program makes. *)
Inductive managed : ManagedObjectKey → Prop :=
| managed_parquet root s o : canonical root → is_uuid s → is_uuid o → managed (parquet_key root s o)
| managed_dead_letter root b o : canonical root → is_uuid b → is_uuid o → managed (dead_letter_key root b o).

Lemma two_uuids_inj (a t : string) u v u' v' :
  is_uuid u → is_uuid v → is_uuid u' → is_uuid v' →
  a +:+ uuid_to_string u +:+ "/" +:+ uuid_to_string v +:+ t = a +:+ uuid_to_string u' +:+ "/" +:+ uuid_to_string v' +:+ t →
  u = u' ∧ v = v'.
Proof.
  intros Hu Hv Hu' Hv' E.
  apply string_app_inj in E as [_ E]; [|by rewrite !length_string_app, !length_uuid_to_string].
  apply string_app_inj in E as [E1 E]; [|by rewrite !length_string_app, !length_uuid_to_string].
  apply string_app_inj in E as [_ E]; [|by rewrite !length_string_app, !length_uuid_to_string].
  apply string_app_inj in E as [E2 _]; [|done]. split; by apply uuid_to_string_inj.
Qed.

(** The two kinds of keys end differently. *)
Lemma parquet_not_dead_letter r s o r' b o' : join r (parquet_suffix s o) ≠ join r' (dead_letter_suffix b o').
Proof.
  assert (Hp : ∃ x, join r (parquet_suffix s o) = (x +:+ "t")%string).
  { exists (join r ("segments/" +:+ uuid_to_string s +:+ "/" +:+ uuid_to_string o +:+ ".parque")).
    unfold parquet_suffix. destruct r; cbn [join]; rewrite ?string_app_assoc; [|cbn [String.append]; do 2 f_equal];
      rewrite ?string_app_assoc; done. }
  assert (Hd : ∃ x, join r' (dead_letter_suffix b o') = (x +:+ "n")%string).
  { exists (join r' ("dead-letters/" +:+ uuid_to_string b +:+ "/" +:+ uuid_to_string o' +:+ ".ndjso")).
    unfold dead_letter_suffix. destruct r'; cbn [join]; rewrite ?string_app_assoc; [|cbn [String.append]; do 2 f_equal];
      rewrite ?string_app_assoc; done. }
  destruct Hp as [x ->], Hd as [y ->]. intros [_ E]%string_app_inj; [discriminate E | done].
Qed.

Lemma managed_path_inj k1 k2 : managed k1 → managed k2 → k_path k1 = k_path k2 → k1 = k2.
Proof.
  assert (Hroot : ∀ a b : ManagedRoot, root_path a = root_path b → a = b) by (intros [] []; simpl; by intros ->).
  destruct 1 as [r1 s1 o1 C1 U1 V1|r1 s1 o1 C1 U1 V1], 1 as [r2 s2 o2 C2 U2 V2|r2 s2 o2 C2 U2 V2];
    rewrite ?parquet_path, ?dead_letter_path; intros E.
  - apply join_inj in E as [Er E]; [|by unfold parquet_suffix; rewrite !length_string_app, !length_uuid_to_string].
    apply two_uuids_inj in E as [-> ->]; try done. by rewrite (Hroot _ _ Er).
  - by apply parquet_not_dead_letter in E.
  - symmetry in E. by apply parquet_not_dead_letter in E.
  - apply join_inj in E as [Er E]; [|by unfold dead_letter_suffix; rewrite !length_string_app, !length_uuid_to_string].
    apply two_uuids_inj in E as [-> ->]; try done. by rewrite (Hroot _ _ Er).
Qed.

(** Object keys. A stored key text is accepted for a segment or batch and an object
    exactly when it is the path of a key made for these identities under a canonical
    root, and the key comes back; and different managed keys, of either kind, never have
    the same path. *)
Theorem managed_keys_round_trip :
  (∀ value s o key, parse_parquet value s o = Ok key ↔
     ∃ root, canonical root ∧ key = parquet_key root s o ∧ k_path key = value) ∧
  (∀ value b o key, parse_dead_letter value b o = Ok key ↔
     ∃ root, canonical root ∧ key = dead_letter_key root b o ∧ k_path key = value) ∧
  (∀ k1 k2, managed k1 → managed k2 → k_path k1 = k_path k2 → k1 = k2).
Proof.
  split_and!; [apply parse_parquet_Ok | apply parse_dead_letter_Ok | apply managed_path_inj].
Qed.

End KeyTheory.

(** ** Concrete texts and paths *)

(** Thirty-two hexadecimal digits and four hyphens at the end. *)
Definition sample_uuid_text : UuidText := {|
  uuid_to_string u := EventId.to_string (byte_of_ascii <$> be_bytes 16 u) +:+ "----";
  uuid_parse_str s :=
    be_value ∘ fmap ascii_of_byte <$> EventId.decode_pairs (String.substring 0 32 s);
|}.

Lemma hex_digit_safe n : path_safe (EventId.hex_digit n) = true.
Proof.
  unfold EventId.hex_digit. generalize (Z.to_nat n) as k. intros k.
  do 16 (destruct k as [|k]; [reflexivity|]). by destruct k.
Qed.

Lemma sample_uuid_text_laws : @UuidTextLaws sample_uuid_text.
Proof.
  split; unfold uuid_to_string, uuid_parse_str, sample_uuid_text.
  - intros u Hu. set (b := byte_of_ascii <$> be_bytes 16 u).
    assert (Hlen : String.length (EventId.to_string b) = 32%nat).
    { unfold b. by rewrite EventId.length_to_string, length_fmap, length_be_bytes. }
    rewrite <- Hlen, substring_app, EventId.decode_pairs_to_string.
    + change (Some (be_value (ascii_of_byte <$> (byte_of_ascii <$> be_bytes 16 u))) = Some u). f_equal.
      rewrite <- list_fmap_compose.
      rewrite (list_fmap_ext _ id); [|intros ? c _; apply ascii_of_byte_of_ascii].
      rewrite list_fmap_id. apply be_value_exact. exact Hu.
    + unfold b. apply Forall_fmap, Forall_forall. intros c _. apply byte_of_ascii_is_byte.
  - intros u. by rewrite length_string_app, EventId.length_to_string, length_fmap, length_be_bytes.
  - intros u. rewrite string_forallb_app. apply andb_true_iff. split; [|done].
    generalize (byte_of_ascii <$> be_bytes 16 u) as b. induction b as [|x b IH]; [done|].
    cbn [EventId.to_string string_forallb]. by rewrite !hex_digit_safe, IH.
Qed.

Definition sample_paths : PathLib := {| path_parse s := Some s; path_child := join |}.

Lemma sample_paths_laws : @PathLibLaws sample_paths.
Proof. split; [by intros s p _ _ [= <-] | done | done]. Qed.

Lemma managed_keys_round_trip_witness :
  let root := {| root_path := "nested/elucid" |} in
  @parse_parquet sample_uuid_text sample_paths
    (k_path (@parquet_key sample_uuid_text sample_paths root 1 2)) 1 2 =
  Ok (@parquet_key sample_uuid_text sample_paths root 1 2).
Proof.
  intros root.
  apply (@managed_keys_round_trip sample_uuid_text sample_uuid_text_laws sample_paths sample_paths_laws).
  exists root. split; [vm_compute; reflexivity|]. split; reflexivity.
Defined.

(** Instants as microseconds, and days as the text of their number. *)
Definition sample_calendar : Calendar := {|
  DateTime := Z;
  datetime_ltb := Z.ltb;
  timestamp_subsec_nanos z := (z `mod` 1000000) * 1000;
  timestamp_micros z := z;
  from_timestamp_micros z := Some z;
  NaiveDate := string;
  date_naive z := pretty (z `div` 86400000000);
  date_to_string s := s;
  date_parse s := Some s;
|}.

Lemma sample_calendar_laws : @CalendarLaws sample_calendar.
Proof. by split. Qed.
