(* ===== verification/ObjectStore.v ===== *)
(** * elucid-storage: immutable objects

    Models src/elucid/elucid-storage/src/store.rs: [ImmutableObjectStore] over an
    [object_store::ObjectStore]. The backend is a parameter with its own state; what the
    code relies on is that a create-only put never replaces an object, that reads report
    what is stored and change nothing, and that a failed put or delete either took effect
    or did not. The theorems hold for any backend with these properties while no other
    writer acts on the same key. *)

From S2P Require Import Prelude Core CatalogTypes Bytes Frame Storage.

#[local] Open Scope Z_scope.

(** ** The backend *)

Inductive BackendError := NotFound | AlreadyExists | OtherError.

Record Attributes := { at_content_type : option string; at_digest : option string }.

Record GetOptions := { go_head : bool; go_range : option (Z * Z) }.

(** The result of a get: the metadata, and the bytes when the body can be read. *)
Record GetResult := {
  gr_location : string;
  gr_size : Z;
  gr_attributes : Attributes;
  gr_range : Z * Z;
  gr_bytes : option bytes;
}.

Class Backend := {
  St : Type;
  get_opts : string → GetOptions → St → result BackendError GetResult * St;
  put_create : string → bytes → Attributes → St → result BackendError unit * St;
  delete_object : string → St → result BackendError unit * St;
  (** [blake3::Hash::to_hex] *)
  digest_to_hex : bytes → string;
}.

Record StoredObject := { so_bytes : bytes; so_attributes : Attributes }.

(** The objects a backend state holds. *)
Class BackendView `{Backend} := view : St → gmap string StoredObject.

Class BackendLaws `{BackendView} : Prop := {
  get_law p options s r s' : get_opts p options s = (r, s') →
    view s' = view s ∧
    match r with
    | Ok g => ∃ o, view s !! p = Some o ∧ gr_location g = p ∧ gr_size g = Z.of_nat (length (so_bytes o)) ∧
                gr_attributes g = so_attributes o ∧
                ∀ b, gr_bytes g = Some b →
                  b = match go_range options with
                      | None => so_bytes o
                      | Some _ => slice (Z.to_nat (gr_range g).1) (Z.to_nat ((gr_range g).2 - (gr_range g).1)) (so_bytes o)
                      end
    | Err NotFound => view s !! p = None
    | Err _ => True
    end;
  put_law p b attributes s r s' : put_create p b attributes s = (r, s') →
    let created := view s !! p = None ∧
      view s' = <[p := {| so_bytes := b; so_attributes := attributes |}]> (view s) in
    match r with
    | Ok _ => created
    | Err AlreadyExists => view s !! p ≠ None ∧ view s' = view s
    | Err _ => view s' = view s ∨ created
    end;
  delete_law p s r s' : delete_object p s = (r, s') →
    match r with
    | Ok _ => view s' = delete p (view s)
    | Err NotFound => view s !! p = None ∧ view s' = view s
    | Err _ => view s' = view s ∨ view s' = delete p (view s)
    end;
}.

(** ** Errors (error.rs) *)

Inductive StorageErrorKind :=
| ParquetBuildFailed | ParquetInvalid | ObjectStoreUnavailable | ObjectUploadFailed
| ObjectVerificationFailed | ObjectIntegrityError | ObjectDeleteFailed | LocalCapacityExhausted.

Inductive StorageErrorSource :=
| FromObjectStore (e : BackendError) | FromIo | FromParquet | Cleanup (original : StorageErrorSource)
| Invariant (message : string).

Record StorageError := { se_kind : StorageErrorKind; se_source : StorageErrorSource }.

Definition object_store_error (kind : StorageErrorKind) (e : BackendError) : StorageError :=
  {| se_kind := kind; se_source := FromObjectStore e |}.

Definition invariant_error (kind : StorageErrorKind) (message : string) : StorageError :=
  {| se_kind := kind; se_source := Invariant message |}.

Definition integrity (message : string) : StorageError := invariant_error ObjectIntegrityError message.

Inductive ObjectUploadOutcome := Uploaded | AlreadyPresent.
Inductive ObjectVerificationOutcome := Verified | Absent.
Inductive ObjectDeleteOutcome := Deleted | AlreadyAbsent.

#[export] Instance ObjectVerificationOutcome_eq_dec : EqDecision ObjectVerificationOutcome.
Proof. solve_decision. Defined.

Section Store.
Context `{SpoolEnv, Backend}.

(** ** Operations that can fail and act on the backend *)

Definition io (A : Type) := St → result StorageError A * St.

#[export] Instance io_ret : MRet io := λ A a s, (Ok a, s).
#[export] Instance io_bind : MBind io := λ A B f m s,
  match m s with
  | (Ok a, s') => f a s'
  | (Err e, s') => (Err e, s')
  end.

(** A check without effect. *)
Definition lift {A} (r : result StorageError A) : io A := λ s, (r, s).

Definition enforce_limit (n limit : Z) : result StorageError unit :=
  check (n <=? limit) (invariant_error LocalCapacityExhausted "object transfer exceeds the caller's byte limit").

Definition verify_payload (descriptor : ObjectDescriptor) (b : bytes) : result StorageError unit :=
  actual_size ← map_err (λ _, integrity "object byte size cannot be represented")
                  (ObjectByteSize_from_usize (length b));
  _ ← check (actual_size =? od_expected_byte_size descriptor)
        (integrity "object bytes do not match the registered length");
  check (bool_decide (blake3 b = od_digest descriptor))
    (integrity "object bytes do not match the registered digest").

Definition expected_attributes (descriptor : ObjectDescriptor) : Attributes :=
  {| at_content_type := Some (media_type_as_str (od_media_type descriptor));
     at_digest := Some (digest_to_hex (od_digest descriptor)) |}.

Definition verify_metadata (descriptor : ObjectDescriptor) (g : GetResult) : result StorageError unit :=
  _ ← check (bool_decide (gr_location g = k_path (od_key descriptor)))
        (integrity "object store returned metadata for a different key");
  _ ← check (gr_size g =? od_expected_byte_size descriptor)
        (integrity "object metadata does not match the registered length");
  content_type ← ok_or (at_content_type (gr_attributes g))
                   (integrity "object metadata is missing the registered media type");
  _ ← check (bool_decide (content_type = media_type_as_str (od_media_type descriptor)))
        (integrity "object metadata does not match the registered media type");
  digest ← ok_or (at_digest (gr_attributes g)) (integrity "object metadata is missing the Elucid digest");
  check (bool_decide (digest = digest_to_hex (od_digest descriptor)))
    (integrity "object metadata does not match the registered digest").

Definition probe (descriptor : ObjectDescriptor) (kind : StorageErrorKind) : io ObjectVerificationOutcome := λ s,
  let '(r, s) := get_opts (k_path (od_key descriptor)) {| go_head := true; go_range := None |} s in
  match r with
  | Ok g => (_ ← lift (verify_metadata descriptor g); mret Verified : io _) s
  | Err NotFound => (Ok Absent, s)
  | Err e => (Err (object_store_error kind e), s)
  end.

Definition get (descriptor : ObjectDescriptor) (options : GetOptions) : io GetResult := λ s,
  let '(r, s) := get_opts (k_path (od_key descriptor)) options s in
  match r with
  | Ok g => (Ok g, s)
  | Err NotFound => (Err (integrity "registered object is absent at its exact key"), s)
  | Err e => (Err (object_store_error ObjectStoreUnavailable e), s)
  end.

Definition upload (descriptor : ObjectDescriptor) (b : bytes) (limit : Z) : io ObjectUploadOutcome :=
  _ ← lift (enforce_limit (od_expected_byte_size descriptor) limit);
  _ ← lift (verify_payload descriptor b);
  before ← probe descriptor ObjectVerificationFailed;
  match before return io ObjectUploadOutcome with
  | Verified => mret AlreadyPresent
  | Absent => λ s,
      let '(r, s) := put_create (k_path (od_key descriptor)) b (expected_attributes descriptor) s in
      match r with
      | Ok _ =>
          (after ← probe descriptor ObjectVerificationFailed;
           lift (match after with
                 | Verified => Ok Uploaded
                 | Absent => Err (invariant_error ObjectVerificationFailed
                                    "completed upload is absent during fresh verification")
                 end)) s
      | Err AlreadyExists =>
          (after ← probe descriptor ObjectVerificationFailed;
           lift (match after with
                 | Verified => Ok AlreadyPresent
                 | Absent => Err (invariant_error ObjectVerificationFailed
                                    "create-only upload reported a collision but the key is absent")
                 end)) s
      | Err e => (Err (object_store_error ObjectUploadFailed e), s)
      end
  end.

Definition verify (descriptor : ObjectDescriptor) : io ObjectVerificationOutcome :=
  probe descriptor ObjectVerificationFailed.

Definition read_exact (descriptor : ObjectDescriptor) (limit : Z) : io bytes :=
  _ ← lift (enforce_limit (od_expected_byte_size descriptor) limit);
  g ← get descriptor {| go_head := false; go_range := None |};
  _ ← lift (verify_metadata descriptor g);
  b ← lift (ok_or (gr_bytes g) (object_store_error ObjectStoreUnavailable OtherError));
  _ ← lift (verify_payload descriptor b);
  mret b.

Definition read_range (descriptor : ObjectDescriptor) (range : ObjectReadRange) (limit : Z) : io bytes :=
  _ ← lift (check (rr_object_size range =? od_expected_byte_size descriptor)
              (integrity "object range was validated against a different object size"));
  _ ← lift (enforce_limit (byte_length range) limit);
  let expected_range := (rr_start range, rr_end range) in
  g ← get descriptor {| go_head := false; go_range := Some expected_range |};
  _ ← lift (verify_metadata descriptor g);
  _ ← lift (check (bool_decide (gr_range g = expected_range))
              (integrity "object store returned a different byte range"));
  b ← lift (ok_or (gr_bytes g) (object_store_error ObjectStoreUnavailable OtherError));
  size ← lift (map_err (λ _, integrity "range byte size overflow") (ObjectByteSize_from_usize (length b)));
  _ ← lift (check (size =? byte_length range) (integrity "object store returned an incomplete byte range"));
  mret b.

Definition delete_exact (descriptor : ObjectDescriptor) : io ObjectDeleteOutcome :=
  before ← probe descriptor ObjectDeleteFailed;
  match before return io ObjectDeleteOutcome with
  | Absent => mret AlreadyAbsent
  | Verified => λ s,
      let '(r, s) := delete_object (k_path (od_key descriptor)) s in
      match r with
      | Ok _ | Err NotFound =>
          (after ← probe descriptor ObjectDeleteFailed;
           lift (match after with
                 | Absent => Ok Deleted
                 | Verified => Err (invariant_error ObjectDeleteFailed
                                      "deleted object remains available at its exact key")
                 end)) s
      | Err e => (Err (object_store_error ObjectDeleteFailed e), s)
      end
  end.

End Store.

(** ** Theorems *)

Section StoreTheory.
Context `{SpoolEnv} `{BackendLaws}.

(** The stored object has the length and the attributes of the descriptor. *)
Definition matches (descriptor : ObjectDescriptor) (o : StoredObject) : Prop :=
  Z.of_nat (length (so_bytes o)) = od_expected_byte_size descriptor ∧
  so_attributes o = expected_attributes descriptor.

Lemma io_bind_inv {A B} (m : io A) (f : A → io B) s r s' :
  (m ≫= f) s = (r, s') →
  (∃ a s1, m s = (Ok a, s1) ∧ f a s1 = (r, s')) ∨ ∃ e, m s = (Err e, s') ∧ r = Err e.
Proof.
  unfold mbind, io_bind. destruct (m s) as [[a|e] s1]; intros Hf; [left; eauto | right].
  injection Hf as <- <-. eauto.
Qed.

Lemma io_bind_Ok {A B} (m : io A) (f : A → io B) s b s' :
  (m ≫= f) s = (Ok b, s') → ∃ a s1, m s = (Ok a, s1) ∧ f a s1 = (Ok b, s').
Proof. intros [?|(e & _ & [=])]%io_bind_inv; done. Qed.

Lemma lift_bind_inv {A B} (m : result StorageError A) (f : A → io B) s r s' :
  (lift m ≫= f) s = (r, s') → (∃ a, m = Ok a ∧ f a s = (r, s')) ∨ ∃ e, m = Err e ∧ r = Err e ∧ s' = s.
Proof. 
  unfold mbind, io_bind, lift. destruct m as [a|e]; intros Hf; [left; eauto | right].
  injection Hf as <- <-. eauto.
Qed.

Lemma verify_metadata_Ok d g u :
  verify_metadata d g = Ok u ↔
  gr_location g = k_path (od_key d) ∧ gr_size g = od_expected_byte_size d ∧ gr_attributes g = expected_attributes d.
Proof.
  unfold verify_metadata, expected_attributes. destruct g as [l sz [ct dg] rg bs]; cbn. destruct u. split.
  - intros Hv. inv_ok. rewrite ?bool_decide_eq_true, ?Z.eqb_eq in *. by subst.
  - intros (-> & -> & [= -> ->]). rewrite Z.eqb_refl, !bool_decide_true by done. cbn. by rewrite !bool_decide_true by done.
Qed.

Lemma verify_payload_Ok d b u :
  verify_payload d b = Ok u ↔
  od_expected_byte_size d = Z.of_nat (length b) ∧ Z.of_nat (length b) ≤ int_max U64 ∧ blake3 b = od_digest d.
Proof.
  unfold verify_payload, ObjectByteSize_from_usize. destruct u. split.
  - intros Hv. inv_ok. rewrite ?bool_decide_eq_true, ?Z.eqb_eq in *.
    match goal with H : narrow _ _ = _ |- _ => apply narrow_Some in H as [-> ?] end. split_and!; [congruence | lia | done].
  - intros (-> & Hb & Hd). rewrite narrow_ok by int_lia. cbn. rewrite Z.eqb_refl, bool_decide_true by done. done.
Qed.

Lemma probe_spec d kind s r s' :
  probe d kind s = (r, s') →
  view s' = view s ∧
  match r with
  | Ok Verified => ∃ o, view s !! k_path (od_key d) = Some o ∧ matches d o
  | Ok Absent => view s !! k_path (od_key d) = None
  | Err _ => True
  end.
Proof.
  unfold probe. destruct (get_opts _ _ s) as [g s1] eqn:E. apply get_law in E as [Hv Hg].
  destruct g as [g|[]]; [|by intros [= <- <-]..].
  intros [(u & Hm & [= <- <-])|(e & _ & -> & ->)]%lift_bind_inv; [|done].
  split; [done|]. apply verify_metadata_Ok in Hm as (_ & Hs & Ha).
  destruct Hg as (o & Ho & _ & Hs' & Ha' & _). exists o. split; [done|]. split; congruence.
Qed.

(** The object an upload creates. *)
Definition created (d : ObjectDescriptor) (b : bytes) : StoredObject :=
  {| so_bytes := b; so_attributes := expected_attributes d |}.

(** What an upload does to the store, whatever its result. *)
Definition created_or_kept (d : ObjectDescriptor) (b : bytes) (s s' : St) : Prop :=
  view s' = view s ∨
  (view s !! k_path (od_key d) = None ∧ view s' = <[k_path (od_key d) := created d b]> (view s) ∧
   verify_payload d b = Ok tt).

Lemma upload_effect d b limit s r s' :
  upload d b limit s = (r, s') →
  created_or_kept d b s s' ∧
  (is_ok r = true → verify_payload d b = Ok tt ∧ ∃ o, view s' !! k_path (od_key d) = Some o ∧ matches d o).
Proof.
  unfold upload. intros [(u & _ & Hu)|(e & _ & -> & ->)]%lift_bind_inv; [|split; [by left | done]].
  apply lift_bind_inv in Hu as [([] & Hp & Hu)|(e & _ & -> & ->)]; [|split; [by left | done]].
  apply io_bind_inv in Hu as [(before & s1 & Hb & Hu)|(e & Hb & ->)]; apply probe_spec in Hb as [Hv1 Hb];
    [|split; [by left | done]].
  destruct before.
  { injection Hu as <- <-. split; [by left|]. intros _. rewrite Hv1. done. }
  destruct (put_create _ _ _ s1) as [p s2] eqn:E. apply put_law in E. cbv zeta in E.
  assert (Hafter : ∀ (m : ObjectVerificationOutcome → result StorageError ObjectUploadOutcome),
    (m Absent : result _ _) = m Absent → (∃ e, m Absent = Err e) →
    (after ← probe d ObjectVerificationFailed; lift (m after)) s2 = (r, s') →
    view s' = view s2 ∧ (is_ok r = true → ∃ o, view s' !! k_path (od_key d) = Some o ∧ matches d o)).
  { intros m _ (e & He) [(after & s3 & Ha & Hm)|(e' & Ha & ->)]%io_bind_inv; apply probe_spec in Ha as [Hv3 Ha]; [|done].
    unfold lift in Hm. injection Hm as <- <-. split; [done|]. destruct after; [by rewrite Hv3|]. by rewrite He. }
  destruct p as [[]|[]].
  - apply Hafter in Hu as [Hv Ho]; [|done|by eexists]. destruct E as [En E2]. split; [|auto].
    right. rewrite Hv, E2, <- Hv1. done.
  - injection Hu as <- <-. split; [|done]. destruct E as [E|[En E2]]; [left; congruence | right; by rewrite E2, <- Hv1].
  - apply Hafter in Hu as [Hv Ho]; [|done|by eexists]. destruct E as [En E2]. split; [left; congruence | auto].
  - injection Hu as <- <-. split; [|done]. destruct E as [E|[En E2]]; [left; congruence | right; by rewrite E2, <- Hv1].
Qed.

(** An object whose digest attribute is the digest of its bytes. *)
Definition honest (o : StoredObject) : Prop := at_digest (so_attributes o) = Some (digest_to_hex (blake3 (so_bytes o))).

Definition all_honest (s : St) : Prop := map_Forall (λ _ o, honest o) (view s).

(** Uploads are create-only and verified. Whatever an upload returns, no object that
    was in the store is replaced or removed, no other key changes, and the only object it
    can add is the payload, whose length and digest are those of the descriptor; when it
    returns success the key holds an object with the length, media type and digest of the
    descriptor. In a store that holds only objects stored this way, the object under a
    successful upload has bytes of the descriptor's digest. *)
Theorem upload_create_only d b limit s r s' :
  (∀ x y, digest_to_hex x = digest_to_hex y → x = y) →
  upload d b limit s = (r, s') →
  (∀ p o, view s !! p = Some o → view s' !! p = Some o) ∧
  (∀ p, p ≠ k_path (od_key d) → view s' !! p = view s !! p) ∧
  (∀ o, view s !! k_path (od_key d) = None → view s' !! k_path (od_key d) = Some o →
     o = created d b ∧ blake3 b = od_digest d ∧ Z.of_nat (length b) = od_expected_byte_size d) ∧
  (is_ok r = true → ∃ o, view s' !! k_path (od_key d) = Some o ∧ matches d o) ∧
  (all_honest s → all_honest s' ∧
     (is_ok r = true → ∃ o, view s' !! k_path (od_key d) = Some o ∧ blake3 (so_bytes o) = od_digest d)).
Proof.
  intros Hhex Hu. apply upload_effect in Hu as [He Ho].
  assert (Hhonest : all_honest s → all_honest s').
  { intros Ha. destruct He as [E|(Hn & E & Hp)]; unfold all_honest; rewrite E; [done|].
    apply map_Forall_insert_2; [|done]. apply verify_payload_Ok in Hp as (_ & _ & Hd).
    unfold honest, created. cbn. by rewrite Hd. }
  split_and!.
  - intros p o Hp. destruct He as [->|(Hn & -> & _)]; [done|]. rewrite lookup_insert_ne; [done|]. congruence.
  - intros p Hp. destruct He as [->|(Hn & -> & _)]; [done|]. by rewrite lookup_insert_ne.
  - intros o Hn Hs. destruct He as [E|(_ & E & Hp)]; rewrite E in Hs; [congruence|].
    rewrite lookup_insert_eq in Hs. apply verify_payload_Ok in Hp as (Hl & _ & Hd). by injection Hs as <-.
  - intros Hr. by apply Ho.
  - intros Ha. split; [auto|]. intros Hr. destruct (Ho Hr) as (_ & o & Hl & _ & Hm). exists o. split; [done|].
    specialize (Hhonest Ha _ _ Hl). cbv beta in Hhonest. unfold honest in Hhonest. rewrite Hm in Hhonest. injection Hhonest as Hx.
    symmetry. by apply Hhex.
Qed.

Lemma get_spec d options s g s' :
  get d options s = (Ok g, s') → get_opts (k_path (od_key d)) options s = (Ok g, s').
Proof. unfold get. destruct (get_opts _ _ s) as [[x|[]] s1]; intros [= <- <-]; done. Qed.

Lemma read_exact_Ok d limit s b s' :
  read_exact d limit s = (Ok b, s') →
  view s' = view s ∧ od_expected_byte_size d ≤ limit ∧
  ∃ o, view s !! k_path (od_key d) = Some o ∧ matches d o ∧ so_bytes o = b ∧ blake3 b = od_digest d.
Proof.
  unfold read_exact. intros [(u & Hl & Hr)|(e & _ & [=] & _)]%lift_bind_inv.
  apply io_bind_Ok in Hr as (g & s1 & Hg & Hr).
  apply lift_bind_inv in Hr as [(u' & Hm & Hr)|(e & _ & [=] & _)].
  apply lift_bind_inv in Hr as [(b' & Hb & Hr)|(e & _ & [=] & _)].
  apply lift_bind_inv in Hr as [([] & Hp & Hr)|(e & _ & [=] & _)]. injection Hr as -> ->.
  apply get_spec, get_law in Hg as [Hv (o & Ho & _ & Hs & Ha & Hbytes)]. apply ok_or_Ok in Hb.
  apply verify_metadata_Ok in Hm as (_ & Hs' & Ha'). apply verify_payload_Ok in Hp as (_ & _ & Hd).
  unfold enforce_limit in Hl. apply check_Ok, Z.leb_le in Hl. split_and!; [done | lia |].
  exists o. split_and!; [done | split; congruence | symmetry; by apply Hbytes | done].
Qed.

(** Reads and deletes are exact. A full read that succeeds returns the stored bytes, and
    they have the length and digest of the descriptor; no read changes the store. A
    delete changes at most the descriptor's key, removes an object only when it matches
    the descriptor, and when it reports success the key is absent. *)
Theorem read_and_delete_exact d limit s :
  (∀ b s', read_exact d limit s = (Ok b, s') →
     view s' = view s ∧ od_expected_byte_size d ≤ limit ∧
     ∃ o, view s !! k_path (od_key d) = Some o ∧ matches d o ∧ so_bytes o = b ∧ blake3 b = od_digest d) ∧
  (∀ r s', delete_exact d s = (r, s') →
     (view s' = view s ∨
      (view s' = delete (k_path (od_key d)) (view s) ∧
       ∃ o, view s !! k_path (od_key d) = Some o ∧ matches d o)) ∧
     (is_ok r = true → view s' !! k_path (od_key d) = None)).
Proof.
  split; [apply read_exact_Ok|]. intros r s'.
  unfold delete_exact. intros [(before & s1 & Hb & Hd)|(e & Hb & ->)]%io_bind_inv; apply probe_spec in Hb as [Hv1 Hb];
    [|split; [by left | done]].
  destruct before.
  2:{ injection Hd as <- <-. split; [by left|]. intros _. by rewrite Hv1. }
  destruct (delete_object _ s1) as [q s2] eqn:E. apply delete_law in E.
  assert (Hafter : ∀ (m : ObjectVerificationOutcome → result StorageError ObjectDeleteOutcome),
    (∃ e, m Verified = Err e) → (after ← probe d ObjectDeleteFailed; lift (m after)) s2 = (r, s') →
    view s' = view s2 ∧ (is_ok r = true → view s' !! k_path (od_key d) = None)).
  { intros m (e & He) [(after & s3 & Ha & Hm)|(e' & Ha & ->)]%io_bind_inv; apply probe_spec in Ha as [Hv3 Ha]; [|done].
    unfold lift in Hm. injection Hm as <- <-. split; [done|]. destruct after; [by rewrite He|]. by rewrite Hv3. }
  destruct q as [[]|[]].
  - apply Hafter in Hd as [Hv Ho]; [|by eexists]. split; [right|done]. rewrite Hv, E, Hv1. done.
  - apply Hafter in Hd as [Hv Ho]; [|by eexists]. split; [left|done]. destruct E as [_ E]. congruence.
  - injection Hd as <- <-. split; [|done]. destruct E as [E|E]; [left; congruence | right; by rewrite E, Hv1].
  - injection Hd as <- <-. split; [|done]. destruct E as [E|E]; [left; congruence | right; by rewrite E, Hv1].
Qed.

End StoreTheory.

(** ** A concrete backend *)

Definition sample_backend : Backend := {|
  St := gmap string StoredObject;
  get_opts p options s :=
    (match s !! p with
     | Some o =>
         let n := Z.of_nat (length (so_bytes o)) in
         let '(a, b) := default (0, n) (go_range options) in
         Ok {| gr_location := p; gr_size := n; gr_attributes := so_attributes o; gr_range := (a, b);
               gr_bytes := Some (match go_range options with
                                 | None => so_bytes o
                                 | Some _ => slice (Z.to_nat a) (Z.to_nat (b - a)) (so_bytes o)
                                 end) |}
     | None => Err NotFound
     end, s);
  put_create p b attributes s :=
    match s !! p with
    | Some _ => (Err AlreadyExists, s)
    | None => (Ok tt, <[p := {| so_bytes := b; so_attributes := attributes |}]> s)
    end;
  delete_object p s :=
    match s !! p with Some _ => (Ok tt, delete p s) | None => (Err NotFound, s) end;
  digest_to_hex := string_of_list_ascii;
|}.

Definition sample_view : @BackendView sample_backend := λ s, s.

Lemma sample_backend_laws : @BackendLaws sample_backend sample_view.
Proof.
  split; unfold view, sample_view; cbn [St get_opts put_create delete_object sample_backend].
  - intros p options s r s' [= <- <-]. split; [done|]. destruct (s !! p) as [o|] eqn:E; [|done].
    destruct (go_range options) as [[a b]|] eqn:Er; cbn [default];
      (exists o; split_and!; [done | done | done | done |]; cbn; by intros b' [= <-]).
  - intros p b attributes s r s'. destruct (s !! p) eqn:E; by intros [= <- <-].
  - intros p s r s'. destruct (s !! p) eqn:E; by intros [= <- <-].
Qed.

Lemma string_of_list_ascii_inj x y : string_of_list_ascii x = string_of_list_ascii y → x = y.
Proof.
  intros E. apply (f_equal list_ascii_of_string) in E. by rewrite !list_ascii_of_string_of_list_ascii in E.
Qed.

Definition sample_descriptor : ObjectDescriptor :=
  {| od_key := @parquet_key sample_uuid_text sample_paths {| root_path := "elucid" |} 1 2;
     od_expected_byte_size := 2; od_digest := @blake3 sample_env (ascii_bytes "ab");
     od_media_type := ParquetMedia; od_format_version := 1 |}.

Lemma upload_create_only_witness :
  ∃ s', @upload sample_env sample_backend sample_descriptor (ascii_bytes "ab") 10 ∅ = (Ok Uploaded, s') ∧
    ∃ o, @view sample_backend sample_view s' !! k_path (od_key sample_descriptor) = Some o ∧
      @matches sample_backend sample_descriptor o.
Proof.
  destruct (@upload sample_env sample_backend sample_descriptor (ascii_bytes "ab") 10 ∅) as [r s'] eqn:E.
  assert (Hr : r = Ok Uploaded).
  { change r with (fst (r, s')). rewrite <- E. vm_compute. reflexivity. }
  subst r. exists s'. split; [reflexivity|].
  refine (proj1 (proj2 (proj2 (proj2 (@upload_create_only sample_env sample_backend sample_view sample_backend_laws
    sample_descriptor (ascii_bytes "ab") 10 ∅ (Ok Uploaded) s' string_of_list_ascii_inj E)))) eq_refl).
Defined.

Lemma read_and_delete_exact_witness :
  let s := <[k_path (od_key sample_descriptor) :=
             @created sample_backend sample_descriptor (ascii_bytes "ab")]> (∅ : gmap string StoredObject) in
  ∃ s', @delete_exact sample_backend sample_descriptor s = (Ok Deleted, s') ∧
    @view sample_backend sample_view s' !! k_path (od_key sample_descriptor) = None.
Proof.
  intros s. destruct (@delete_exact sample_backend sample_descriptor s) as [r s'] eqn:E.
  assert (Hr : r = Ok Deleted).
  { change r with (fst (r, s')). rewrite <- E. vm_compute. reflexivity. }
  subst r. exists s'. split; [reflexivity|].
  refine (proj2 (proj2 (@read_and_delete_exact sample_env sample_backend sample_view sample_backend_laws
    sample_descriptor 10 s) (Ok Deleted) s' E) eq_refl).
Defined.
