(* ===== verification/OutputRecovery.v ===== *)
(** * elucid-ingestion: output recovery records and checkpoint plans

    Models the values of src/elucid/elucid-ingestion/src/output_recovery.rs: which
    positions of which batches an output covers, the records of planned outputs, the
    decision what to do with an output found at recovery, and [plan_checkpoint], which
    decides how far the spool may be released. Also models [read_bounded_ndjson] of
    src/elucid/elucid-service/src/http/ingestion.rs, the reader that bounds the records
    of a batch. A checkpoint is its position. *)

From S2P Require Import Prelude Core CatalogTypes CatalogModel CatalogSource Floats SemExpression Bytes Frame Spool Json Normalization NormalizationCorrect Storage.

#[local] Open Scope Z_scope.

Definition MAXIMUM_COVERED_BATCHES : Z := 50000.
Definition MAXIMUM_COVERED_POSITIONS : Z := 100000.

#[export] Instance SpoolBatchRange_eq_dec : EqDecision SpoolBatchRange.
Proof. solve_decision. Defined.

Inductive OutputRecoveryModelError :=
| MetadataOutOfRange | RecoveryIdentityMustBeUuidV7 | CoveredPositionsMustNotBeEmpty
| PositionsMustIncrease | CoveredBatchLimitExceeded | CoveredPositionLimitExceeded
| CoveredBatchesOverlap | SegmentRowCoverageMismatch | DeadLetterBatchMismatch
| OutputKindCannotChange | ReplacementIdentitiesMustChange | RecoveryRevisionExhausted
| OutputIsNotPublished | RetainedSpoolBytesMissing | DuplicateBatchRequirements
| BatchRequirementsAreNotContiguous | PublishedCoverageIsUnknown | PublishedCoverageRangeMismatch
| PublishedCoverageOverlaps.

Notation recovery_model := (result OutputRecoveryModelError).

(** ** Coverage *)

Record BatchPositionCoverage := {
  bc_batch_id : Z;
  bc_spool_range : SpoolBatchRange;
  bc_positions : list Z;
}.

#[export] Instance BatchPositionCoverage_eq_dec : EqDecision BatchPositionCoverage.
Proof. solve_decision. Defined.

(** [positions.windows(2).any(|pair| pair[0] >= pair[1])] *)
Fixpoint not_increasing (positions : list Z) : bool :=
  match positions with
  | a :: ((b :: _) as rest) => (a >=? b) || not_increasing rest
  | _ => false
  end.

Definition validate_positions (positions : list Z) : recovery_model unit :=
  match positions with
  | [] => Err CoveredPositionsMustNotBeEmpty
  | _ =>
      if Z.of_nat (length positions) >? MAXIMUM_COVERED_POSITIONS then Err CoveredPositionLimitExceeded
      else if not_increasing positions then Err PositionsMustIncrease
      else Ok tt
  end.

Definition BatchPositionCoverage_new (batch_id : Z) (spool_range : SpoolBatchRange) (positions : list Z)
    : recovery_model BatchPositionCoverage :=
  _ ← validate_positions positions;
  Ok {| bc_batch_id := batch_id; bc_spool_range := spool_range; bc_positions := positions |}.

(** The loop of [validate_coverage]: the positions counted and the batches seen. *)
Fixpoint validate_items (positions : Z) (batch_ids : gset Z) (coverage : list BatchPositionCoverage)
    : recovery_model unit :=
  match coverage with
  | [] => Ok tt
  | item :: rest =>
      _ ← validate_positions (bc_positions item);
      positions ← ok_or (checked_add U64 positions (Z.of_nat (length (bc_positions item))))
                    CoveredPositionLimitExceeded;
      if (positions >? MAXIMUM_COVERED_POSITIONS) || bool_decide (bc_batch_id item ∈ batch_ids)
      then Err CoveredBatchesOverlap
      else validate_items positions ({[bc_batch_id item]} ∪ batch_ids) rest
  end.

(** [coverage.windows(2).any(|pair| pair[0].end() > pair[1].start())] *)
Fixpoint ranges_overlap (coverage : list BatchPositionCoverage) : bool :=
  match coverage with
  | a :: ((b :: _) as rest) =>
      (range_end (bc_spool_range a) >? range_start (bc_spool_range b)) || ranges_overlap rest
  | _ => false
  end.

Definition validate_coverage (coverage : list BatchPositionCoverage) : recovery_model unit :=
  match coverage with
  | [] => Err CoveredPositionsMustNotBeEmpty
  | _ =>
      if Z.of_nat (length coverage) >? MAXIMUM_COVERED_BATCHES then Err CoveredBatchLimitExceeded
      else
      _ ← validate_items 0 ∅ coverage;
      if ranges_overlap coverage then Err CoveredBatchesOverlap else Ok tt
  end.

(** ** Records *)

Inductive UnregisteredOutputBytes := UnregisteredAvailable | UnregisteredMissing.
Inductive PlannedOutputBytes := PlannedAvailable | MissingUnverified | MissingVerified | MissingAbsent.
Inductive OutputRecoveryObservation :=
| Unregistered (b : UnregisteredOutputBytes) | Planned (b : PlannedOutputBytes)
| UploadedOutput | PublishedOutputState | Abandoned.
Inductive OutputRecoveryAction :=
| Register | Rebuild | Upload | VerifyExactObject | RecordVerifiedUpload | Publish | CompleteOutput
| AbandonAndRebuild.
Inductive RetainedSpoolBytes := RetainedAvailable | RetainedMissing.

#[export] Instance UnregisteredOutputBytes_eq_dec : EqDecision UnregisteredOutputBytes.
Proof. solve_decision. Defined.
#[export] Instance PlannedOutputBytes_eq_dec : EqDecision PlannedOutputBytes.
Proof. solve_decision. Defined.
#[export] Instance OutputRecoveryObservation_eq_dec : EqDecision OutputRecoveryObservation.
Proof. solve_decision. Defined.

Section Records.
Context `{Calendar}.

Inductive RecoveryOutput := SegmentOutput (d : SegmentDescriptor) | DeadLetterOutput (d : DeadLetterDescriptor).

#[export] Instance RecoveryOutput_eq_dec : EqDecision RecoveryOutput.
Proof. solve_decision. Defined.

Definition output_object (output : RecoveryOutput) : ObjectDescriptor :=
  match output with SegmentOutput d => sd_object d | DeadLetterOutput d => dd_object d end.

Record OutputRecoveryRecord := {
  or_id : Z;
  or_revision : Z;
  or_output : RecoveryOutput;
  or_coverage : list BatchPositionCoverage;
}.

#[export] Instance OutputRecoveryRecord_eq_dec : EqDecision OutputRecoveryRecord.
Proof. solve_decision. Defined.

Definition in_i64 (value : Z) : recovery_model unit := _ ← ok_or (narrow I64 value) MetadataOutOfRange; Ok tt.

Definition validate_output_metadata (output : RecoveryOutput) : recovery_model unit :=
  let object := output_object output in
  _ ← in_i64 (od_expected_byte_size object);
  _ ← in_i64 (od_format_version object);
  match output with
  | SegmentOutput segment => _ ← in_i64 (sd_row_count segment); in_i64 (sd_uncompressed_bytes segment)
  | DeadLetterOutput _ => Ok tt
  end.

(** The key order of [sort_unstable_by_key(|item| item.spool_range)]. *)
Definition range_le (a b : BatchPositionCoverage) : Prop :=
  let ra := bc_spool_range a in let rb := bc_spool_range b in
  range_start ra < range_start rb ∨ (range_start ra = range_start rb ∧ range_end ra ≤ range_end rb).

#[export] Instance range_le_dec a b : Decision (range_le a b).
Proof. unfold range_le. apply _. Defined.

Definition covered_rows (coverage : list BatchPositionCoverage) : recovery_model Z :=
  try_fold (λ total item,
    item_positions ← ok_or (narrow U64 (Z.of_nat (length (bc_positions item)))) CoveredPositionLimitExceeded;
    ok_or (checked_add U64 total item_positions) CoveredPositionLimitExceeded) 0 coverage.

Definition record_segment (id : Z) (registration : SegmentDescriptor) (coverage : list BatchPositionCoverage)
    : recovery_model OutputRecoveryRecord :=
  let coverage := merge_sort range_le coverage in
  _ ← validate_coverage coverage;
  rows ← covered_rows coverage;
  _ ← check (rows =? sd_row_count registration) SegmentRowCoverageMismatch;
  let output := SegmentOutput registration in
  _ ← validate_output_metadata output;
  Ok {| or_id := id; or_revision := 1; or_output := output; or_coverage := coverage |}.

Definition record_dead_letter (id : Z) (registration : DeadLetterDescriptor) (coverage : BatchPositionCoverage)
    : recovery_model OutputRecoveryRecord :=
  _ ← check (dd_batch_id registration =? bc_batch_id coverage) DeadLetterBatchMismatch;
  let output := DeadLetterOutput registration in
  _ ← validate_output_metadata output;
  Ok {| or_id := id; or_revision := 1; or_output := output; or_coverage := [coverage] |}.

Definition replacement_segment (record : OutputRecoveryRecord) (registration : SegmentDescriptor)
    : recovery_model OutputRecoveryRecord :=
  match or_output record with
  | DeadLetterOutput _ => Err OutputKindCannotChange
  | SegmentOutput current =>
      if (sd_segment_id current =? sd_segment_id registration)
         || (k_object_id (od_key (sd_object current)) =? k_object_id (od_key (sd_object registration)))
      then Err ReplacementIdentitiesMustChange
      else
      revision ← ok_or (checked_add U64 (or_revision record) 1 ≫= NonZeroU64_new) RecoveryRevisionExhausted;
      replacement ← record_segment (or_id record) registration (or_coverage record);
      Ok {| or_id := or_id replacement; or_revision := revision; or_output := or_output replacement;
            or_coverage := or_coverage replacement |}
  end.

Definition recovery_action (observation : OutputRecoveryObservation) (retained_spool : RetainedSpoolBytes)
    : recovery_model OutputRecoveryAction :=
  let action :=
    match observation with
    | Unregistered UnregisteredAvailable => Register
    | Unregistered UnregisteredMissing => Rebuild
    | Planned PlannedAvailable => Upload
    | Planned MissingUnverified => VerifyExactObject
    | Planned MissingVerified => RecordVerifiedUpload
    | Planned MissingAbsent => AbandonAndRebuild
    | UploadedOutput => Publish
    | PublishedOutputState => CompleteOutput
    | Abandoned => Rebuild
    end in
  match action, retained_spool with
  | (Rebuild | AbandonAndRebuild), RetainedMissing => Err RetainedSpoolBytesMissing
  | _, _ => Ok action
  end.

(** ** Published outputs and checkpoint plans *)

Record PublishedOutput := { po_record : OutputRecoveryRecord }.

Definition PublishedOutput_resolve (record : OutputRecoveryRecord) (observation : OutputRecoveryObservation)
    : recovery_model PublishedOutput :=
  if bool_decide (observation ≠ PublishedOutputState) then Err OutputIsNotPublished
  else Ok {| po_record := record |}.

Record BatchOutputRequirements := {
  rq_batch_id : Z;
  rq_spool_range : SpoolBatchRange;
  rq_positions : list Z;
}.

Definition BatchOutputRequirements_new (batch_id : Z) (spool_range : SpoolBatchRange) (positions : list Z)
    : recovery_model BatchOutputRequirements :=
  if Z.of_nat (length positions) >? MAXIMUM_COVERED_POSITIONS then Err CoveredPositionLimitExceeded
  else if not_increasing positions then Err PositionsMustIncrease
  else Ok {| rq_batch_id := batch_id; rq_spool_range := spool_range; rq_positions := positions |}.

(** The covered occurrences collected so far, and one coverage entry of an output. *)
Fixpoint cover_positions (known : gset Z) (required : gmap (Z * Z) SpoolBatchRange)
    (covered : gmap (Z * Z) SpoolBatchRange) (batch : Z) (range : SpoolBatchRange) (positions : list Z)
    : recovery_model (gmap (Z * Z) SpoolBatchRange) :=
  match positions with
  | [] => Ok covered
  | position :: rest =>
      let key := (batch, position) in
      if bool_decide (batch ∈ known) then
        match required !! key with
        | None => Err PublishedCoverageIsUnknown
        | Some required_range =>
            if bool_decide (required_range ≠ range) then Err PublishedCoverageRangeMismatch
            else match covered !! key with
                 | Some _ => Err PublishedCoverageOverlaps
                 | None => cover_positions known required (<[key := range]> covered) batch range rest
                 end
        end
      else cover_positions known required covered batch range rest
  end.

(** The loop over the batches in order; [None] stands for the [break]. *)
Fixpoint complete_batches (covered : gmap (Z * Z) SpoolBatchRange) (target : Z)
    (batches : list BatchOutputRequirements) : recovery_model Z :=
  match batches with
  | [] => Ok target
  | batch :: rest =>
      if negb (range_start (rq_spool_range batch) =? target) then Err BatchRequirementsAreNotContiguous
      else if existsb (λ position, bool_decide (covered !! (rq_batch_id batch, position) = None)) (rq_positions batch)
      then Ok target
      else complete_batches covered (range_end (rq_spool_range batch)) rest
  end.

Definition required_positions (batches : list BatchOutputRequirements) : gmap (Z * Z) SpoolBatchRange :=
  list_to_map (reverse (batches ≫= λ batch,
    (λ position, ((rq_batch_id batch, position), rq_spool_range batch)) <$> rq_positions batch)).

Definition plan_checkpoint (current : Z) (batches : list BatchOutputRequirements) (outputs : list PublishedOutput)
    : recovery_model (option CheckpointPlan) :=
  let known_batches : gset Z := list_to_set (rq_batch_id <$> batches) in
  if negb (size known_batches =? length batches)%nat then Err DuplicateBatchRequirements
  else
  let required := required_positions batches in
  covered ← try_fold (λ covered coverage,
              cover_positions known_batches required covered (bc_batch_id coverage)
                (bc_spool_range coverage) (bc_positions coverage))
              ∅ (outputs ≫= λ output, or_coverage (po_record output));
  target ← complete_batches covered current batches;
  Ok (if target =? current then None else Some {| current := current; target := target |}).

End Records.

Section Requirements.
Context {env : SpoolEnv} {chrono : Chrono} {lib : JsonLib} {base64 : Base64}.

Definition requirements_from_normalized (batch : NormalizedBatch) (spool_range : SpoolBatchRange)
    : recovery_model BatchOutputRequirements :=
  let positions := (λ record, input_position (record_location record)) <$> nb_records batch in
  BatchOutputRequirements_new (batch_id (nb_metadata batch)) spool_range positions.

End Requirements.

(** ** The bounded reader of request bodies (http/ingestion.rs) *)

Definition MAXIMUM_HTTP_BATCH_RECORDS : Z := 100000.

Inductive BodyReadFailure := BodyInvalid | BodyLimitExceeded | BodyInternal.

(** The chunks the transport delivers; an [Err] is a failed read. A failed allocation,
    which the code reports as [Internal], is not modelled. *)
Fixpoint read_chunks (maximum_body_bytes maximum_records : Z) (chunks : list (result unit bytes))
    (b : bytes) (body_bytes framed_records : Z) : result BodyReadFailure (bytes * Z) :=
  match chunks with
  | [] => Ok (b, framed_records)
  | chunk :: rest =>
      chunk ← map_err (λ _, BodyInvalid) chunk;
      chunk_bytes ← ok_or (narrow U64 (Z.of_nat (length chunk))) BodyInternal;
      body_bytes ← ok_or (checked_add U64 body_bytes chunk_bytes) BodyLimitExceeded;
      _ ← check (negb (body_bytes >? maximum_body_bytes)) BodyLimitExceeded;
      let newlines := Z.of_nat (length (filter (λ c, c = "010"%char) chunk)) in
      chunk_records ← ok_or (narrow U64 newlines) BodyLimitExceeded;
      framed_records ← ok_or (checked_add U64 framed_records chunk_records) BodyLimitExceeded;
      _ ← check (negb (framed_records >? maximum_records)) BodyLimitExceeded;
      read_chunks maximum_body_bytes maximum_records rest (b ++ chunk) body_bytes framed_records
  end.

Definition read_bounded_ndjson (chunks : list (result unit bytes)) (maximum_body_bytes maximum_records : Z)
    : result BodyReadFailure bytes :=
  read ← read_chunks maximum_body_bytes maximum_records chunks [] 0 0;
  let '(b, framed_records) := read in
  framed_records ←
    (match last b with
     | Some c => if bool_decide (c = "010"%char) then Ok framed_records
                 else ok_or (checked_add U64 framed_records 1) BodyLimitExceeded
     | None => Ok framed_records
     end);
  _ ← check (negb (framed_records >? maximum_records)) BodyLimitExceeded;
  Ok b.
