(* ===== verification/OutputPlan.v ===== *)
(** * elucid-ingestion: correctness of checkpoint plans

    Theorems about the definitions of OutputRecovery: [plan_checkpoint] releases exactly
    the longest contiguous run of batches whose every record is in a published output;
    and a body read by the bounded reader gives requirements that can be planned. *)

From S2P Require Import Prelude Core CatalogTypes CatalogModel CatalogSource Floats SemExpression Bytes Frame Spool Json Normalization NormalizationCorrect Storage OutputRecovery.

#[local] Open Scope Z_scope.

(** ** Increasing positions *)

Lemma not_increasing_sorted l : not_increasing l = false ↔ StronglySorted Z.lt l.
Proof.
  assert (Hs : ∀ l, not_increasing l = false ↔ Sorted Z.lt l).
  { clear. induction l as [|a [|b l] IH]; [split; [constructor | done] | split; [repeat constructor | done] |].
    cbn [not_increasing] in *. rewrite orb_false_iff, IH. split.
    - intros [Hab Hl]. constructor; [done|]. constructor. lia.
    - intros [Hl Hh]%Sorted_inv. inversion Hh. split; [lia | done]. }
  rewrite Hs. split; [apply Sorted_StronglySorted; intros ???; lia | apply StronglySorted_Sorted].
Qed.

Lemma StronglySorted_lt_NoDup (l : list Z) : StronglySorted Z.lt l → NoDup l.
Proof.
  induction 1 as [|x l Hl IH Hx]; [constructor|]. constructor; [|done]. intros Hin.
  rewrite Forall_forall in Hx. specialize (Hx x Hin). lia.
Qed.

(** A set with as many elements as the list it is made of. *)
Lemma size_list_to_set_le (l : list Z) : (size (list_to_set l : gset Z) ≤ length l)%nat.
Proof.
  induction l as [|x l IH]; [done|]. cbn [list_to_set foldr length].
  rewrite size_union_alt, size_singleton. pose proof (subseteq_size (list_to_set l ∖ {[x]} : gset Z) (list_to_set l)
    ltac:(set_solver)). unfold list_to_set in *. lia.
Qed.

Lemma size_list_to_set_NoDup (l : list Z) : size (list_to_set l : gset Z) = length l ↔ NoDup l.
Proof.
  split; [|apply size_list_to_set]. induction l as [|x l IH]; [constructor|]. intros Hs.
  change (list_to_set (x :: l) : gset Z) with ({[x]} ∪ list_to_set l : gset Z) in Hs. cbn [length] in Hs.
  pose proof (size_list_to_set_le l). destruct (decide (x ∈ l)) as [Hx|Hx].
  - rewrite subseteq_union_1_L in Hs by set_solver. lia.
  - rewrite size_union, size_singleton in Hs by set_solver. constructor; [done | apply IH; lia].
Qed.

(** ** Coverage *)

Section Plans.
Context `{Calendar}.

(** An occurrence: a batch, a position and the frame of the batch. *)
Notation occurrence := (Z * Z * SpoolBatchRange)%type.

Definition coverage_occurrences (c : BatchPositionCoverage) : list occurrence :=
  (λ position, (bc_batch_id c, position, bc_spool_range c)) <$> bc_positions c.

(** What the outputs publish, in order. *)
Definition published (outputs : list PublishedOutput) : list occurrence :=
  (outputs ≫= λ output, or_coverage (po_record output)) ≫= coverage_occurrences.

(** What the batches require. *)
Definition required_occurrences (batches : list BatchOutputRequirements) : list occurrence :=
  batches ≫= λ batch, (λ position, (rq_batch_id batch, position, rq_spool_range batch)) <$> rq_positions batch.

Definition cover_step (known : gset Z) (required covered : gmap (Z * Z) SpoolBatchRange) (o : occurrence)
    : recovery_model (gmap (Z * Z) SpoolBatchRange) :=
  let '(batch, position, range) := o in cover_positions known required covered batch range [position].

Lemma cover_positions_fold known required covered batch range positions :
  cover_positions known required covered batch range positions =
  try_fold (cover_step known required) covered ((λ position, (batch, position, range)) <$> positions).
Proof.
  revert covered; induction positions as [|p ps IH]; intros covered; [done|].
  cbn [cover_positions fmap list_fmap try_fold cover_step].
  case_bool_decide; [|by rewrite bind_ret, IH].
  destruct (required !! (batch, p)) as [r|]; [|done]. case_bool_decide; [done|].
  destruct (covered !! (batch, p)); [done|]. by rewrite bind_ret, IH.
Qed.

Lemma try_fold_ext {E S A} (f g : S → A → result E S) s l :
  (∀ s x, f s x = g s x) → try_fold f s l = try_fold g s l.
Proof. intros Hfg. revert s; induction l as [|x l IH]; intros s; [done|]. cbn. rewrite Hfg. destruct (g s x); cbn; [apply IH | done]. Qed.

Lemma try_fold_bind {E S A B} (step : S → B → result E S) (f : A → list B) s (l : list A) :
  try_fold (λ s a, try_fold step s (f a)) s l = try_fold step s (l ≫= f).
Proof.
  revert s; induction l as [|a l IH]; intros s; [done|]. cbn [mbind list_bind try_fold].
  rewrite try_fold_app. destruct (try_fold step s (f a)); cbn; [apply IH | done].
Qed.

(** The occurrences of the batches at hand. *)
Definition known_occurrences (known : gset Z) (os : list occurrence) : list occurrence :=
  filter (λ o, o.1.1 ∈ known) os.

Record covers (known : gset Z) (required c0 : gmap (Z * Z) SpoolBatchRange) (os : list occurrence) : Prop := {
  cv_required o : o ∈ known_occurrences known os → required !! o.1 = Some o.2;
  cv_distinct : NoDup (fst <$> known_occurrences known os);
  cv_fresh o : o ∈ known_occurrences known os → c0 !! o.1 = None;
}.

Lemma covers_cons_known known required c0 o os :
  o.1.1 ∈ known →
  covers known required c0 (o :: os) ↔
  required !! o.1 = Some o.2 ∧ c0 !! o.1 = None ∧ covers known required (<[o.1 := o.2]> c0) os.
Proof.
  intros Hk. assert (E : known_occurrences known (o :: os) = o :: known_occurrences known os)
    by (unfold known_occurrences; by rewrite filter_cons_True).
  split.
  - intros [H1 H2 H3]. rewrite E in *. cbn [fmap list_fmap] in H2. apply NoDup_cons in H2 as [Hn H2].
    split_and!; [apply H1; set_solver | apply H3; set_solver |]. split; [|done|].
    + intros x Hx. apply H1. set_solver.
    + intros x Hx. rewrite lookup_insert_ne; [apply H3; set_solver|]. intros Eo. apply Hn. rewrite Eo.
      by apply list_elem_of_fmap_2.
  - intros (Hr & Hc & [H1 H2 H3]). split; rewrite E.
    + intros x [->|Hx]%elem_of_cons; auto.
    + cbn [fmap list_fmap]. apply NoDup_cons. split; [|done]. intros (x & Ex & Hx)%list_elem_of_fmap.
      specialize (H3 x Hx). rewrite <- Ex, lookup_insert_eq in H3. done.
    + intros x [->|Hx]%elem_of_cons; [done|]. specialize (H3 x Hx).
      destruct (decide (o.1 = x.1)) as [Eo|Eo]; [by rewrite Eo, lookup_insert_eq in H3|].
      by rewrite lookup_insert_ne in H3.
Qed.

Lemma covers_cons_unknown known required c0 o os :
  o.1.1 ∉ known → covers known required c0 (o :: os) ↔ covers known required c0 os.
Proof.
  intros Hk. assert (E : known_occurrences known (o :: os) = known_occurrences known os)
    by (unfold known_occurrences; by rewrite filter_cons_False).
  split; intros [H1 H2 H3]; split; rewrite ?E in *; auto.
Qed.

(** The loop succeeds exactly on coverage that is required, of the same frame and not
    repeated, and then the covered keys are those of the known batches. *)
Lemma cover_fold known required c0 os c :
  try_fold (cover_step known required) c0 os = Ok c ↔
  covers known required c0 os ∧
  c = foldl (λ c o, <[o.1 := o.2]> c) c0 (known_occurrences known os).
Proof.
  revert c0; induction os as [|[[b p] r] os IH]; intros c0.
  { cbn. split; [intros [= <-] | intros [_ ->]; done]. split; [split; cbn; set_solver by constructor | done]. }
  cbn [try_fold cover_step cover_positions]. destruct (decide (b ∈ known)) as [Hk|Hk].
  - rewrite bool_decide_true by done. rewrite (covers_cons_known _ _ _ (b, p, r)) by done. cbn [fst snd].
    assert (E : known_occurrences known ((b, p, r) :: os) = (b, p, r) :: known_occurrences known os)
      by (unfold known_occurrences; by rewrite filter_cons_True).
    rewrite E. cbn [foldl fst snd]. destruct (required !! (b, p)) as [r'|]; [|split; [done | naive_solver]].
    case_bool_decide as Er; [split; [done | intros [[[= <-] _] _]; done]|]. subst r'.
    destruct (c0 !! (b, p)) eqn:Ec; [split; [done | naive_solver]|]. rewrite bind_ret, IH. naive_solver.
  - rewrite bool_decide_false by done. rewrite (covers_cons_unknown _ _ _ (b, p, r)) by done.
    assert (E : known_occurrences known ((b, p, r) :: os) = known_occurrences known os)
      by (unfold known_occurrences; by rewrite filter_cons_False).
    rewrite E, bind_ret. apply IH.
Qed.

Lemma covered_lookup (os : list occurrence) (c0 : gmap (Z * Z) SpoolBatchRange) key :
  foldl (λ c o, <[o.1 := o.2]> c) c0 os !! key ≠ None ↔ c0 !! key ≠ None ∨ key ∈ os.*1.
Proof.
  revert c0; induction os as [|o os IH]; intros c0; cbn [foldl fmap list_fmap]; [set_solver|].
  rewrite IH, elem_of_cons. destruct (decide (o.1 = key)) as [<-|Hne].
  - rewrite lookup_insert_eq. naive_solver.
  - rewrite lookup_insert_ne by done. naive_solver.
Qed.

(** The nested loops of the code, over outputs, their coverage and its positions. *)
Lemma cover_fold_published known required outputs c :
  try_fold (λ covered coverage,
      cover_positions known required covered (bc_batch_id coverage) (bc_spool_range coverage) (bc_positions coverage))
    ∅ (outputs ≫= λ output, or_coverage (po_record output)) = Ok c ↔
  covers known required ∅ (published outputs) ∧
  c = foldl (λ c o, <[o.1 := o.2]> c) ∅ (known_occurrences known (published outputs)).
Proof.
  rewrite <- cover_fold.
  rewrite (try_fold_ext _ (λ s a, try_fold (cover_step known required) s (coverage_occurrences a)))
    by (intros s x; apply cover_positions_fold).
  by rewrite try_fold_bind.
Qed.

(** ** Requirements *)

(** A batch occurs once and its positions are distinct. *)
Definition distinct_requirements (batches : list BatchOutputRequirements) : Prop :=
  NoDup (rq_batch_id <$> batches) ∧ Forall (λ b, NoDup (rq_positions b)) batches.

Lemma required_keys_NoDup batches : distinct_requirements batches → NoDup (fst <$> required_occurrences batches).
Proof.
  intros [Hids Hps]. induction batches as [|b batches IH]; [constructor|].
  cbn [fmap list_fmap] in Hids. apply NoDup_cons in Hids as [Hb Hids]. apply Forall_cons in Hps as [Hp Hps].
  unfold required_occurrences. cbn [mbind list_bind]. rewrite fmap_app, <- list_fmap_compose. apply NoDup_app.
  split_and!; [| |by apply IH].
  - apply NoDup_fmap_2; [|done]. by intros x y [= ->].
  - intros key (p & -> & _)%list_elem_of_fmap (o & Eo & Ho)%list_elem_of_fmap.
    apply list_elem_of_bind in Ho as (b' & Ho & Hb'). apply list_elem_of_fmap in Ho as (p' & -> & _).
    cbn in Eo. apply Hb. injection Eo as -> _. by apply list_elem_of_fmap_2.
Qed.

Lemma required_lookup batches o :
  distinct_requirements batches → required_positions batches !! o.1 = Some o.2 ↔ o ∈ required_occurrences batches.
Proof.
  intros Hd. unfold required_positions. fold (required_occurrences batches).
  rewrite <- elem_of_list_to_map; [|rewrite fmap_reverse; rewrite reverse_Permutation; by apply required_keys_NoDup].
  rewrite elem_of_reverse. by destruct o as [[??] ?].
Qed.

(** ** The plan *)

(** The outputs publish only occurrences the batches require, in their frame, and each
    once; outputs of batches that are not at hand do not matter. *)
Definition coverage_valid (batches : list BatchOutputRequirements) (outputs : list PublishedOutput) : Prop :=
  let known := known_occurrences (list_to_set (rq_batch_id <$> batches)) (published outputs) in
  (∀ o, o ∈ known → o ∈ required_occurrences batches) ∧ NoDup (fst <$> known).

(** Every record of the batch is in a published output. *)
Definition complete (outputs : list PublishedOutput) (b : BatchOutputRequirements) : Prop :=
  ∀ p, p ∈ rq_positions b → (rq_batch_id b, p) ∈ fst <$> published outputs.

(** Consecutive frames from [start] to [end_]. *)
Fixpoint chain (start : Z) (batches : list BatchOutputRequirements) (end_ : Z) : Prop :=
  match batches with
  | [] => start = end_
  | b :: rest => range_start (rq_spool_range b) = start ∧ chain (range_end (rq_spool_range b)) rest end_
  end.

Lemma complete_batches_Ok covered start batches target :
  complete_batches covered start batches = Ok target ↔
  ∃ completed rest, batches = completed ++ rest ∧ chain start completed target ∧
    Forall (λ b, ∀ p, p ∈ rq_positions b → covered !! (rq_batch_id b, p) ≠ None) completed ∧
    match rest with
    | [] => True
    | b :: _ => range_start (rq_spool_range b) = target ∧
                ∃ p, p ∈ rq_positions b ∧ covered !! (rq_batch_id b, p) = None
    end.
Proof.
  revert start; induction batches as [|b batches IH]; intros start; cbn [complete_batches].
  { split; [intros [= ->]; by exists [], [] |]. by intros ([|] & [|] & [=] & -> & _). }
  destruct (Z.eqb_spec (range_start (rq_spool_range b)) start) as [Es|Es]; cbn [negb].
  2:{ split; [done|]. intros ([|b' completed] & rest & E & Hc & _ & Hr); cbn in E, Hc; subst; [naive_solver|].
      injection E as -> _. naive_solver. }
  destruct (existsb _ _) eqn:Ex.
  - apply existsb_exists in Ex as (p & Hp & Ec). apply bool_decide_eq_true in Ec. apply list_elem_of_In in Hp. split.
    + intros [= <-]. exists [], (b :: batches). split_and!; [done | done | constructor | done | eauto].
    + intros ([|b' completed] & rest & E & Hc & Hf & Hr); cbn in E, Hc; [by rewrite Hc|]. injection E as <- _.
      apply Forall_cons in Hf as [Hf _]. by specialize (Hf p Hp).
  - assert (Hall : ∀ p, p ∈ rq_positions b → covered !! (rq_batch_id b, p) ≠ None).
    { intros p Hp Hc. assert (existsb (λ p, bool_decide (covered !! (rq_batch_id b, p) = None)) (rq_positions b) = true);
        [|congruence]. apply existsb_exists. exists p. rewrite <- list_elem_of_In. by rewrite bool_decide_true. }
    rewrite IH. split.
    + intros (completed & rest & -> & Hc & Hf & Hr). exists (b :: completed), rest.
      split; [done|]. split; [by split|]. split; [by constructor | done].
    + intros ([|b' completed] & rest & E & Hc & Hf & Hr); cbn in E, Hc.
      * subst. destruct Hr as [_ (p & Hp & Hc')]. by specialize (Hall p Hp).
      * injection E as <- ->. destruct Hc as [_ Hc]. apply Forall_cons in Hf as [_ Hf]. eauto 10.
Qed.

(** The covered map of the loop holds exactly the published occurrences of the batches. *)
Definition covered_by (batches : list BatchOutputRequirements) (outputs : list PublishedOutput)
    : gmap (Z * Z) SpoolBatchRange :=
  foldl (λ c o, <[o.1 := o.2]> c) ∅
    (known_occurrences (list_to_set (rq_batch_id <$> batches)) (published outputs)).

Lemma cover_outputs_Ok batches outputs c :
  distinct_requirements batches →
  try_fold (λ covered coverage,
      cover_positions (list_to_set (rq_batch_id <$> batches)) (required_positions batches) covered
        (bc_batch_id coverage) (bc_spool_range coverage) (bc_positions coverage))
    ∅ (outputs ≫= λ output, or_coverage (po_record output)) = Ok c ↔
  coverage_valid batches outputs ∧ c = covered_by batches outputs.
Proof.
  intros Hd. rewrite cover_fold_published. apply and_iff_compat_r. unfold coverage_valid. split.
  - intros [H1 H2 _]. split; [|done]. intros o Ho. apply required_lookup; auto.
  - intros [H1 H2]. split; [|done | done]. intros o Ho. apply required_lookup; auto.
Qed.

Lemma covered_by_lookup batches outputs b p :
  b ∈ batches →
  covered_by batches outputs !! (rq_batch_id b, p) ≠ None ↔ (rq_batch_id b, p) ∈ fst <$> published outputs.
Proof.
  intros Hb. unfold covered_by. rewrite covered_lookup, lookup_empty. unfold known_occurrences.
  assert (Hk : rq_batch_id b ∈ (list_to_set (rq_batch_id <$> batches) : gset Z))
    by (rewrite elem_of_list_to_set; by apply list_elem_of_fmap_2).
  rewrite !list_elem_of_fmap. setoid_rewrite list_elem_of_filter. split.
  - intros [?|(o & Eo & _ & Ho)]; [done | eauto].
  - intros (o & Eo & Ho). right. exists o. rewrite <- Eo. done.
Qed.

Lemma complete_covered batches outputs b :
  b ∈ batches →
  complete outputs b ↔ ∀ p, p ∈ rq_positions b → covered_by batches outputs !! (rq_batch_id b, p) ≠ None.
Proof. intros Hb. unfold complete. by setoid_rewrite (covered_by_lookup batches outputs b _ Hb). Qed.

Lemma incomplete_covered batches outputs b :
  b ∈ batches →
  ¬ complete outputs b ↔ ∃ p, p ∈ rq_positions b ∧ covered_by batches outputs !! (rq_batch_id b, p) = None.
Proof.
  intros Hb. rewrite (complete_covered batches) by done. split; [|naive_solver]. intros Hn.
  destruct (decide (Exists (λ p, covered_by batches outputs !! (rq_batch_id b, p) = None) (rq_positions b))) as [He|He].
  - by apply Exists_exists in He.
  - destruct Hn. intros p Hp Hc. apply He, Exists_exists. eauto.
Qed.

(** The prefix of covered batches is the prefix of complete ones. *)
Lemma complete_batches_complete batches outputs start target :
  complete_batches (covered_by batches outputs) start batches = Ok target ↔
  ∃ completed rest, batches = completed ++ rest ∧ chain start completed target ∧
    Forall (complete outputs) completed ∧
    match rest with [] => True | b :: _ => range_start (rq_spool_range b) = target ∧ ¬ complete outputs b end.
Proof.
  rewrite complete_batches_Ok. split; intros (completed & rest & Eb & Hc & Hf & Hr); exists completed, rest;
    (split; [done|]; split; [done|]; split).
  - rewrite Forall_forall in Hf |- *. intros b Hb. apply (complete_covered batches); [set_solver | auto].
  - destruct rest as [|b rest]; [done|]. by rewrite (incomplete_covered batches) by set_solver.
  - rewrite Forall_forall in Hf |- *. intros b Hb. apply complete_covered; [set_solver | auto].
  - destruct rest as [|b rest]; [done|]. by rewrite <- incomplete_covered by set_solver.
Qed.

Lemma plan_checkpoint_Ok current batches outputs plan :
  Forall (λ b, NoDup (rq_positions b)) batches →
  plan_checkpoint current batches outputs = Ok plan ↔
  NoDup (rq_batch_id <$> batches) ∧ coverage_valid batches outputs ∧
  ∃ completed rest target, batches = completed ++ rest ∧ chain current completed target ∧
    Forall (complete outputs) completed ∧
    match rest with [] => True | b :: _ => range_start (rq_spool_range b) = target ∧ ¬ complete outputs b end ∧
    plan = (if target =? current then None else Some {| Spool.current := current; Spool.target := target |}).
Proof.
  intros Hps. unfold plan_checkpoint.
  assert (Hsize : (size (list_to_set (rq_batch_id <$> batches) : gset Z) =? length batches)%nat = true ↔
    NoDup (rq_batch_id <$> batches)) by (rewrite Nat.eqb_eq, <- size_list_to_set_NoDup, length_fmap; done).
  destruct (_ =? length batches)%nat eqn:Es; cbn [negb]; [|split; [done | intros [Hn _]; by apply Hsize in Hn]].
  assert (Hd : distinct_requirements batches) by (split; [by apply Hsize | done]). split.
  - intros (c & Hc & (target & Ht & [= <-])%bind_Ok)%bind_Ok. apply cover_outputs_Ok in Hc as [Hv ->]; [|done].
    apply complete_batches_complete in Ht as (completed & rest & Eb & Hch & Hf & Hr).
    split; [apply Hd|]. split; [done|]. by exists completed, rest, target.
  - intros (_ & Hv & completed & rest & target & Eb & Hch & Hf & Hr & ->).
    rewrite (proj2 (cover_outputs_Ok batches outputs _ Hd) (conj Hv eq_refl)), bind_ret.
    rewrite (proj2 (complete_batches_complete batches outputs current target)); [done|]. by exists completed, rest.
Qed.

End Plans.

(** ** The bounded reader *)

Definition newlines (b : bytes) : nat := length (filter (λ c, c = newline) b).

Lemma newlines_app a b : newlines (a ++ b) = (newlines a + newlines b)%nat.
Proof. unfold newlines. by rewrite filter_app, length_app. Qed.

(** A last line without its delimiter counts too. *)
Definition open_lines (b : bytes) : nat :=
  match last b with Some c => if decide (c = newline) then 0 else 1 | None => 0 end.

Lemma length_split_lines b : length (split_lines b) = (newlines b + open_lines b)%nat.
Proof.
  induction b as [|c b IH]; [done|]. cbn [split_lines].
  assert (Hlast : b ≠ [] → open_lines (c :: b) = open_lines b).
  { intros Hb. unfold open_lines. destruct b as [|d b]; [done|]. by rewrite last_cons_cons. }
  assert (Hnil : length (split_lines b) = 0%nat → b = []).
  { intros Hl. pose proof (lo_text _ _ (split_lines_of b)) as Ht. by destruct (split_lines b). }
  unfold newlines in *. rewrite filter_cons. destruct (decide (c = newline)) as [->|Hc].
  - cbn [length]. rewrite IH. destruct b as [|d b]; [done|]. rewrite Hlast by done. lia.
  - destruct (split_lines b) as [|l ls] eqn:Es.
    + rewrite Hnil by done. cbn. unfold open_lines. cbn. by rewrite decide_False.
    + rewrite Hlast by (intros ->; done). rewrite <- IH. done.
Qed.

Lemma read_chunks_Ok mb mr chunks b0 n0 k0 b k :
  0 ≤ n0 → 0 ≤ k0 → mb ≤ int_max U64 → mr ≤ int_max U64 →
  read_chunks mb mr chunks b0 n0 k0 = Ok (b, k) →
  ∃ bs, chunks = Ok <$> bs ∧ b = b0 ++ concat bs ∧ k = k0 + Z.of_nat (newlines (concat bs)) ∧
    (chunks ≠ [] → n0 + Z.of_nat (length (concat bs)) ≤ mb).
Proof.
  revert b0 n0 k0; induction chunks as [|chunk chunks IH]; intros b0 n0 k0 Hn0 Hk0 Hmb Hmr Hr; cbn [read_chunks] in Hr.
  { injection Hr as <- <-. exists []. cbn. rewrite app_nil_r, Z.add_0_r. done. }
  unfold checked_add in Hr. inv_ok. subst chunk.
  repeat match goal with H : narrow _ _ = Some _ |- _ => apply narrow_Some in H as [-> ?] end.
  rewrite ?Z.gtb_ltb, ?Z.ltb_ge in *.
  apply IH in Hr as (bs & -> & -> & -> & Hb); [|lia|lia|done|done].
  exists (a :: bs). cbn [fmap list_fmap concat]. rewrite newlines_app, length_app, app_assoc. split_and!; try done.
  - unfold newlines at 2. lia.
  - intros _. destruct bs as [|c bs]; [cbn; lia|]. specialize (Hb ltac:(done)). lia.
Qed.

Lemma read_chunks_complete mb mr bs b0 n0 k0 :
  0 ≤ n0 → 0 ≤ k0 → mb ≤ int_max U64 → mr ≤ int_max U64 →
  n0 + Z.of_nat (length (concat bs)) ≤ mb → k0 + Z.of_nat (newlines (concat bs)) ≤ mr →
  read_chunks mb mr (Ok <$> bs) b0 n0 k0 = Ok (b0 ++ concat bs, k0 + Z.of_nat (newlines (concat bs))).
Proof.
  revert b0 n0 k0; induction bs as [|c bs IH]; intros b0 n0 k0 Hn0 Hk0 Hmb Hmr Hb Hk.
  { cbn. by rewrite app_nil_r, Z.add_0_r. }
  cbn [concat] in *. rewrite newlines_app in *. rewrite length_app in Hb.
  cbn [fmap list_fmap read_chunks map_err]. unfold checked_add. rewrite bind_ret.
  rewrite (narrow_ok U64 (Z.of_nat (length c))), ok_or_ret, bind_ret by int_lia.
  rewrite (narrow_ok U64 (n0 + Z.of_nat (length c))), ok_or_ret, bind_ret by int_lia.
  rewrite Z.gtb_ltb, (proj2 (Z.ltb_ge _ _)) by lia. cbn [negb check]. rewrite bind_ret.
  change (length (filter (λ c0, c0 = "010"%char) c)) with (newlines c).
  rewrite (narrow_ok U64 (Z.of_nat (newlines c))), ok_or_ret, bind_ret by int_lia.
  rewrite (narrow_ok U64 (k0 + Z.of_nat (newlines c))), ok_or_ret, bind_ret by int_lia.
  rewrite Z.gtb_ltb, (proj2 (Z.ltb_ge _ _)) by lia. cbn [negb check]. rewrite bind_ret, IH by lia.
  rewrite <- app_assoc. do 2 f_equal. lia.
Qed.

Lemma read_bounded_Ok chunks mb mr b :
  0 ≤ mb ≤ int_max U64 → 0 ≤ mr < int_max U64 →
  read_bounded_ndjson chunks mb mr = Ok b ↔
  ∃ bs, chunks = Ok <$> bs ∧ b = concat bs ∧ Z.of_nat (length b) ≤ mb ∧ Z.of_nat (length (split_lines b)) ≤ mr.
Proof.
  intros Hmb Hmr. unfold read_bounded_ndjson. split.
  - intros ([b' k] & Hr & Hx)%bind_Ok. apply bind_Ok in Hx as (n & Hn & Hx). inv_ok.
    apply read_chunks_Ok in Hr as (bs & -> & -> & -> & Hlen); [|lia|lia|lia|lia]. cbn [app] in *.
    exists bs. split_and!; [done | done | |].
    + destruct bs as [|c bs]; [cbn; lia|]. specialize (Hlen ltac:(done)). lia.
    + rewrite length_split_lines. rewrite Z.gtb_ltb, Z.ltb_ge in *. unfold open_lines.
      destruct (last (concat bs)) as [c|]; [|injection Hn as <-; lia].
      case_bool_decide as Ec; [injection Hn as <-; rewrite decide_True by done; lia|].
      rewrite decide_False by done. unfold checked_add in Hn. inv_ok. apply narrow_Some in Hn as [-> _]. lia.
  - intros (bs & -> & -> & Hl & Hs). rewrite length_split_lines in Hs.
    rewrite read_chunks_complete, bind_ret by lia. cbn [app]. unfold open_lines in Hs.
    destruct (last (concat bs)) as [c|] eqn:El.
    + case_bool_decide as Ec.
      * rewrite bind_ret, Z.gtb_ltb, (proj2 (Z.ltb_ge _ _)) by lia. done.
      * rewrite decide_False in Hs by done. unfold checked_add. rewrite narrow_ok, ok_or_ret, bind_ret by int_lia.
        rewrite Z.gtb_ltb, (proj2 (Z.ltb_ge _ _)) by lia. done.
    + rewrite bind_ret, Z.gtb_ltb, (proj2 (Z.ltb_ge _ _)) by lia. done.
Qed.

(** ** Theorems *)

(** The requirements of a batch have distinct positions. *)
Lemma requirements_NoDup id range positions req :
  BatchOutputRequirements_new id range positions = Ok req →
  NoDup (rq_positions req) ∧ rq_batch_id req = id ∧ rq_spool_range req = range ∧ rq_positions req = positions.
Proof.
  unfold BatchOutputRequirements_new. destruct (_ >? _); [done|]. destruct (not_increasing positions) eqn:E; [done|].
  intros [= <-]. split; [|done]. by apply StronglySorted_lt_NoDup, not_increasing_sorted.
Qed.

(** Requirements as the code builds them. *)
Definition requirements_built (req : BatchOutputRequirements) : Prop :=
  ∃ id range positions, BatchOutputRequirements_new id range positions = Ok req.

(** C17: [plan_checkpoint] releases exactly the longest run of completed batches. It succeeds
    exactly when no batch is repeated, the published outputs cover only records the
    batches require, in their frame and at most once, and the batches are contiguous up
    to the first incomplete one; the target is then the end of the longest prefix of
    batches whose every record is in a published output, and there is no plan when that
    prefix is empty. *)
Theorem plan_checkpoint_exact `{Calendar} current batches outputs plan :
  Forall requirements_built batches →
  plan_checkpoint current batches outputs = Ok plan ↔
  NoDup (rq_batch_id <$> batches) ∧ coverage_valid batches outputs ∧
  ∃ completed rest target, batches = completed ++ rest ∧ chain current completed target ∧
    Forall (complete outputs) completed ∧
    match rest with [] => True | b :: _ => range_start (rq_spool_range b) = target ∧ ¬ complete outputs b end ∧
    plan = (if target =? current then None else Some {| Spool.current := current; Spool.target := target |}).
Proof.
  intros Hb. apply plan_checkpoint_Ok. eapply Forall_impl; [exact Hb|].
  intros b (id & range & positions & Hn). by apply requirements_NoDup in Hn as [Hn _].
Qed.

(** A batch that the bounded reader admits can always be planned. A request body read
    within the limits is the concatenation of its chunks with at most 100,000 lines, and
    once the catalog entries it is pinned to resolve, it normalizes and gives
    requirements that list the position of every line that is not blank: no admitted
    batch can stop the checkpoint. *)
Theorem admitted_batch_planned {env : SpoolEnv} {env_laws : SpoolEnvLaws} {chrono : Chrono} {lib : JsonLib}
    {base64 : Base64} chunks limit body metadata source plan range :
  0 ≤ limit < int_max U64 →
  read_bounded_ndjson chunks limit MAXIMUM_HTTP_BATCH_RECORDS = Ok body →
  resolve metadata source = Ok plan →
  (∃ bs, chunks = Ok <$> bs ∧ body = concat bs) ∧
  ∃ batch req,
    normalize_records metadata body source = Ok batch ∧
    requirements_from_normalized batch range = Ok req ∧
    rq_batch_id req = batch_id metadata ∧ rq_spool_range req = range ∧
    rq_positions req =
      (λ x, input_position x.1) <$> filter (λ x, ¬ blank_line x) (located (split_lines body)).
Proof.
  intros Hl Hr Hp. apply read_bounded_Ok in Hr as (bs & -> & -> & Hb & Hlines); [|lia|unfold MAXIMUM_HTTP_BATCH_RECORDS; int_lia].
  split; [by exists bs|].
  destruct (normalize_records_Ok metadata (concat bs) source plan Hp ltac:(lia)) as (batch & Hn & Hm & Ha).
  assert (Hpos : (λ record, input_position (record_location record)) <$> nb_records batch =
    (λ x, input_position x.1) <$> filter (λ x, ¬ blank_line x) (located (split_lines (concat bs)))).
  { pose proof (account_locations _ _ _ _ Ha) as Hlocs. apply (f_equal (fmap input_position)) in Hlocs.
    by rewrite <- !list_fmap_compose in Hlocs. }
  assert (Hcount : Z.of_nat (length (nb_records batch)) ≤ MAXIMUM_COVERED_POSITIONS).
  { rewrite (ac_length _ _ _ _ Ha). pose proof (length_filter (λ x, ¬ blank_line x) (located (split_lines (concat bs)))) as Hf.
    unfold located in Hf at 2. rewrite length_imap in Hf.
    unfold MAXIMUM_COVERED_POSITIONS, MAXIMUM_HTTP_BATCH_RECORDS in *. lia. }
  rewrite <- Hpos. exists batch, {| rq_batch_id := batch_id metadata; rq_spool_range := range;
    rq_positions := (λ record, input_position (record_location record)) <$> nb_records batch |}.
  split; [done|]. split; [|done].
  unfold requirements_from_normalized, BatchOutputRequirements_new. cbv zeta. rewrite length_fmap.
  rewrite Z.gtb_ltb, (proj2 (Z.ltb_ge _ _)) by done.
  rewrite (proj2 (not_increasing_sorted _)) by (by eapply account_sorted). by rewrite Hm.
Qed.

(** ** Concrete plans *)

Definition sample_object (kind : ManagedObjectKind) (owner : ObjectOwner) (media : ObjectMediaType) : ObjectDescriptor :=
  {| od_key := {| k_path := "key"; k_kind := kind; k_owner := owner; k_object_id := 5 |};
     od_expected_byte_size := 10; od_digest := []; od_media_type := media; od_format_version := 1 |}.

(** The dead letters of a batch, published. *)
Definition sample_output (batch : Z) (range : SpoolBatchRange) (positions : list Z) : @PublishedOutput sample_calendar :=
  {| po_record :=
       {| or_id := 3; or_revision := 1;
          or_output := DeadLetterOutput {| dd_input_id := 4; dd_batch_id := batch;
            dd_object := sample_object DeadLetterKind (DeadLetterBatch batch) DeadLetterMedia |};
          or_coverage := [ {| bc_batch_id := batch; bc_spool_range := range; bc_positions := positions |} ] |} |}.

Definition sample_range (start end_ : Z) : SpoolBatchRange := {| range_start := start; range_end := end_ |}.

Definition sample_batches : list BatchOutputRequirements :=
  [ {| rq_batch_id := 1; rq_spool_range := sample_range 0 90; rq_positions := [0; 1] |};
    {| rq_batch_id := 2; rq_spool_range := sample_range 90 200; rq_positions := [0] |} ].

Lemma plan_checkpoint_exact_witness :
  NoDup (rq_batch_id <$> sample_batches) ∧
  @plan_checkpoint sample_calendar 0 sample_batches [sample_output 1 (sample_range 0 90) [0; 1]] =
    Ok (Some {| Spool.current := 0; Spool.target := 90 |}).
Proof.
  assert (Hb : Forall requirements_built sample_batches).
  { repeat constructor; [exists 1, (sample_range 0 90), [0; 1] | exists 2, (sample_range 90 200), [0]]; reflexivity. }
  assert (Hp : @plan_checkpoint sample_calendar 0 sample_batches [sample_output 1 (sample_range 0 90) [0; 1]] =
    Ok (Some {| Spool.current := 0; Spool.target := 90 |})) by (vm_compute; reflexivity).
  split; [|exact Hp]. exact (proj1 (proj1 (plan_checkpoint_exact _ _ _ _ Hb) Hp)).
Defined.

Lemma admitted_batch_planned_witness :
  ∃ batch, @normalize_records sample_env sample_chrono sample_json sample_base64 sample_pins sample_body sample_source = Ok batch.
Proof.
  destruct (@admitted_batch_planned sample_env sample_env_laws sample_chrono sample_json sample_base64
    [Ok (take 20 sample_body); Ok (drop 20 sample_body)] 4096 sample_body sample_pins sample_source sample_plan
    (sample_range 0 90)) as (_ & batch & _ & Hn & _).
  - split; [lia | vm_compute; reflexivity].
  - vm_compute. reflexivity.
  - exact sample_resolves.
  - exists batch. exact Hn.
Defined.
