(* ===== verification/OutputLog.v ===== *)
(** * elucid-ingestion: the output recovery log

    Models the durable part of src/elucid/elucid-ingestion/src/output_recovery.rs: the
    conversion of a record to and from its stored form, the frame of a record in the log
    file, the scan of the file when the log is opened, and the operations on an open log
    with the ways their writes can fail. serde_json is a parameter. The file is its
    contents, the map of records has the identities as keys. *)

From S2P Require Import Prelude Core CatalogTypes CatalogModel CatalogSource Bytes Frame Recovery Spool Storage OutputRecovery.

#[local] Open Scope string_scope.
#[local] Open Scope list_scope.
#[local] Open Scope Z_scope.

(** ** The stored form *)

Record DurableBatchCoverage := {
  dc_batch_id : string;
  dc_spool_start : Z;
  dc_spool_end : Z;
  dc_positions : list Z;
}.

Record DurableObjectDescriptor := {
  do_object_id : string;
  do_object_key : string;
  do_expected_byte_size : Z;
  do_digest : bytes;
  do_media_type : string;
  do_format_version : Z;
}.

Inductive DurableRecoveryOutput :=
| DurableSegment
    (segment_id source_id schema_id event_day : string)
    (minimum_event_time_micros maximum_event_time_micros : Z)
    (minimum_ingestion_time_micros maximum_ingestion_time_micros : Z)
    (row_count uncompressed_bytes : Z)
    (object : DurableObjectDescriptor)
| DurableDeadLetter (input_id batch_id : string) (object : DurableObjectDescriptor).

Record DurableRecoveryRecord := {
  dr_recovery_id : string;
  dr_revision : Z;
  dr_output : DurableRecoveryOutput;
  dr_coverage : list DurableBatchCoverage;
}.

(** [serde_json::to_vec] and [serde_json::from_slice] at the stored form. *)
Class SerdeJson := {
  to_vec : DurableRecoveryRecord → option bytes;
  from_slice : bytes → option DurableRecoveryRecord;
}.

(** What is written reads back, and is not empty. *)
Class SerdeJsonLaws `{SerdeJson} : Prop :=
  from_slice_to_vec d b : to_vec d = Some b → from_slice b = Some d ∧ b ≠ [].

(** ** Errors *)

(** [Task] and [LockPoisoned] report a panic of another thread and are left out. *)
Inductive OutputRecoveryError :=
| RecoveryModel (e : OutputRecoveryModelError) | RecoveryCorrupt (message : string)
| RecoveryIo (operation : string) | RecoveryEncode | RecoveryConflict.

Notation recovery := (result OutputRecoveryError).

Definition RECOVERY_MAGIC : bytes := ascii_bytes "ELUCOR01".
Definition RECOVERY_COMMIT_MAGIC : bytes := ascii_bytes "ELUCOC01".
Definition RECOVERY_FORMAT_VERSION : Z := 1.
Definition RECOVERY_HEADER_BYTES : Z := 76.
Definition RECOVERY_FOOTER_BYTES : Z := 48.
Definition MAXIMUM_RECOVERY_PAYLOAD_BYTES : Z := 8 * 1024 * 1024.
Definition MAXIMUM_RECOVERY_RECORDS : Z := 1000000.

(** ** Opening and writing *)

Inductive OutputRecoveryRecordOutcome := RecordRecorded | RecordAlreadyRecorded.
Inductive OutputRecoveryReclamation := RecoveryDeferred | RecoveryReclaimed (records : nat).

(** How the append of a frame ends: whole and synchronized, after some of its bytes, or
    whole with a failed synchronization. *)
Inductive AppendIo := AppendDone | AppendFails (written : nat) | AppendSyncFails.

(** How the replacement of the log file ends; [replaced] when the empty file had already
    taken the place of the log. *)
Inductive ReplaceIo := ReplaceDone | ReplaceFails (operation : string) (replaced : bool).

(** How the discard of an incomplete tail ends. *)
Inductive OpenIo := OpenDone | OpenFails (operation : string) (truncated : bool).

Section Log.
Context `{SpoolEnv, Calendar, UuidText, PathLib, SerdeJson}.

Definition parse_uuid (value : string) : recovery Z :=
  ok_or (uuid_parse_str value) (RecoveryCorrupt "recovery UUID text is invalid").

Definition timestamp_from_micros (value : Z) : recovery DateTime :=
  ok_or (from_timestamp_micros value) (RecoveryCorrupt "recovery timestamp is outside UTC range").

Definition copy_array (size : nat) (b : bytes) : recovery bytes :=
  if (length b =? size)%nat then Ok b else Err (RecoveryCorrupt "fixed-size recovery field is invalid").

(** ** Conversions *)

Definition from_coverage (coverage : BatchPositionCoverage) : DurableBatchCoverage :=
  {| dc_batch_id := uuid_to_string (bc_batch_id coverage);
     dc_spool_start := range_start (bc_spool_range coverage);
     dc_spool_end := range_end (bc_spool_range coverage); dc_positions := bc_positions coverage |}.

Definition into_coverage (d : DurableBatchCoverage) : recovery BatchPositionCoverage :=
  batch_id ← parse_uuid (dc_batch_id d);
  batch_id ← map_err (λ _, RecoveryCorrupt "recovery batch identity is invalid") (BatchId_try_from batch_id);
  range ← map_err (λ _, RecoveryCorrupt "recovery spool range is invalid")
            (SpoolBatchRange_new (dc_spool_start d) (dc_spool_end d));
  map_err (λ _, RecoveryCorrupt "recovery positions are invalid")
    (BatchPositionCoverage_new batch_id range (dc_positions d)).

Definition from_descriptor (descriptor : ObjectDescriptor) : DurableObjectDescriptor :=
  {| do_object_id := uuid_to_string (k_object_id (od_key descriptor));
     do_object_key := k_path (od_key descriptor);
     do_expected_byte_size := od_expected_byte_size descriptor; do_digest := od_digest descriptor;
     do_media_type := media_type_as_str (od_media_type descriptor);
     do_format_version := od_format_version descriptor |}.

Definition durable_object_id (d : DurableObjectDescriptor) : recovery StoredObjectId := parse_uuid (do_object_id d).

Definition into_descriptor (d : DurableObjectDescriptor) (key : ManagedObjectKey) (media_type : ObjectMediaType)
    : recovery ObjectDescriptor :=
  if negb (bool_decide (do_object_key d = k_path key))
     || negb (bool_decide (do_media_type d = media_type_as_str media_type))
  then Err (RecoveryCorrupt "recovery object key or media type is inconsistent")
  else
  format_version ← map_err (λ _, RecoveryCorrupt "recovery object format is invalid")
                     (ObjectFormatVersion_new (do_format_version d));
  map_err (λ _, RecoveryCorrupt "recovery object descriptor is invalid")
    (ObjectDescriptor_new key (do_expected_byte_size d) (do_digest d) media_type format_version).

Definition from_output (output : RecoveryOutput) : DurableRecoveryOutput :=
  match output with
  | SegmentOutput registration =>
      let times := sd_times registration in
      DurableSegment (uuid_to_string (sd_segment_id registration)) (uuid_to_string (sd_source_id registration))
        (uuid_to_string (sd_schema_id registration)) (date_to_string (event_day times))
        (timestamp_micros (minimum_event_time times)) (timestamp_micros (maximum_event_time times))
        (timestamp_micros (minimum_ingestion_time times)) (timestamp_micros (maximum_ingestion_time times))
        (sd_row_count registration) (sd_uncompressed_bytes registration) (from_descriptor (sd_object registration))
  | DeadLetterOutput registration =>
      DurableDeadLetter (uuid_to_string (dd_input_id registration)) (uuid_to_string (dd_batch_id registration))
        (from_descriptor (dd_object registration))
  end.

(** [Id::try_from(parse_uuid(text)?)] of a catalog identity. *)
Definition parse_identity (value : string) (message : string) : recovery Z :=
  uuid ← parse_uuid value;
  ok_or (UuidV7.new uuid) (RecoveryCorrupt message).

Definition into_output (d : DurableRecoveryOutput) (root : ManagedRoot) : recovery RecoveryOutput :=
  match d with
  | DurableSegment segment_id source_id schema_id day min_event max_event min_ingestion max_ingestion row_count
      uncompressed_bytes object =>
      segment_id ← parse_uuid segment_id;
      source_id ← parse_identity source_id "recovery source identity is invalid";
      schema_id ← parse_identity schema_id "recovery schema identity is invalid";
      day ← ok_or (date_parse day) (RecoveryCorrupt "recovery event day is invalid");
      min_event ← timestamp_from_micros min_event;
      max_event ← timestamp_from_micros max_event;
      min_ingestion ← timestamp_from_micros min_ingestion;
      max_ingestion ← timestamp_from_micros max_ingestion;
      times ← map_err (λ _, RecoveryCorrupt "recovery segment times are invalid")
                (SegmentTimes_new day min_event max_event min_ingestion max_ingestion);
      object_id ← durable_object_id object;
      descriptor ← into_descriptor object (parquet_key root segment_id object_id) ParquetMedia;
      row_count ← map_err (λ _, RecoveryCorrupt "recovery segment row count is zero") (RowCount_new row_count);
      uncompressed ← map_err (λ _, RecoveryCorrupt "recovery segment uncompressed byte count is zero")
                       (UncompressedByteSize_new uncompressed_bytes);
      registration ← map_err (λ _, RecoveryCorrupt "recovery segment metadata is invalid")
        (SegmentDescriptor_new segment_id source_id schema_id times row_count uncompressed descriptor);
      Ok (SegmentOutput registration)
  | DurableDeadLetter input_id batch_id object =>
      input_id ← parse_identity input_id "recovery input identity is invalid";
      batch_id ← parse_uuid batch_id;
      batch_id ← map_err (λ _, RecoveryCorrupt "recovery batch identity is invalid") (BatchId_try_from batch_id);
      object_id ← durable_object_id object;
      descriptor ← into_descriptor object (dead_letter_key root batch_id object_id) DeadLetterMedia;
      map_err (λ _, RecoveryCorrupt "recovery dead-letter metadata is invalid")
        (DeadLetterOutput <$> DeadLetterDescriptor_new input_id batch_id descriptor)
  end.

Definition from_record (record : OutputRecoveryRecord) : DurableRecoveryRecord :=
  {| dr_recovery_id := uuid_to_string (or_id record); dr_revision := or_revision record;
     dr_output := from_output (or_output record); dr_coverage := from_coverage <$> or_coverage record |}.

Definition validate_record_semantics (record : OutputRecoveryRecord) : recovery unit :=
  _ ← map_err (λ _, RecoveryCorrupt "recovery output metadata is out of range")
        (validate_output_metadata (or_output record));
  match or_output record with
  | SegmentOutput registration =>
      let covered_rows := foldl (λ total coverage,
        total ≫= λ total, checked_add U64 total (Z.of_nat (length (bc_positions coverage)))) (Some 0)
        (or_coverage record) in
      check (bool_decide (covered_rows = Some (sd_row_count registration)))
        (RecoveryCorrupt "recovery segment row coverage does not match")
  | DeadLetterOutput registration =>
      match or_coverage record with
      | [coverage] =>
          check (bc_batch_id coverage =? dd_batch_id registration)
            (RecoveryCorrupt "recovery dead-letter coverage does not match")
      | _ => Err (RecoveryCorrupt "recovery dead-letter coverage does not match")
      end
  end.

Definition OutputRecoveryId_try_from (value : Z) : recovery_model Z :=
  ok_or (UuidV7.new value) RecoveryIdentityMustBeUuidV7.

Definition into_record (d : DurableRecoveryRecord) (root : ManagedRoot) : recovery OutputRecoveryRecord :=
  id ← parse_uuid (dr_recovery_id d);
  id ← map_err (λ _, RecoveryCorrupt "recovery identity is invalid") (OutputRecoveryId_try_from id);
  revision ← ok_or (NonZeroU64_new (dr_revision d)) (RecoveryCorrupt "recovery revision is zero");
  coverage ← try_map into_coverage (dr_coverage d);
  _ ← map_err (λ _, RecoveryCorrupt "recovery coverage is invalid") (validate_coverage coverage);
  output ← into_output (dr_output d) root;
  let record := {| or_id := id; or_revision := revision; or_output := output; or_coverage := coverage |} in
  _ ← validate_record_semantics record;
  Ok record.

Definition encode_record (record : OutputRecoveryRecord) : recovery bytes :=
  ok_or (to_vec (from_record record)) RecoveryEncode.

Definition decode_record (payload : bytes) (root : ManagedRoot) : recovery OutputRecoveryRecord :=
  durable ← ok_or (from_slice payload) (RecoveryCorrupt "recovery payload is not canonical metadata");
  into_record durable root.

(** ** Frames *)

Record DecodedRecoveryHeader := {
  rh_payload_bytes : Z;
  rh_recovery_id : Z;
  rh_revision : Z;
  rh_payload_digest : bytes;
}.

Definition recovery_header (record : OutputRecoveryRecord) (payload : bytes) : bytes :=
  RECOVERY_MAGIC ++ be_bytes 2 RECOVERY_FORMAT_VERSION ++ be_bytes 2 RECOVERY_HEADER_BYTES
  ++ be_bytes 8 (Z.of_nat (length payload)) ++ be_bytes 16 (or_id record) ++ be_bytes 8 (or_revision record)
  ++ blake3 payload.

Definition encode_frame (record : OutputRecoveryRecord) (payload : bytes) : recovery bytes :=
  payload_bytes ← ok_or (narrow U64 (Z.of_nat (length payload)))
                    (RecoveryCorrupt "recovery payload length exceeds u64");
  if payload_bytes >? MAXIMUM_RECOVERY_PAYLOAD_BYTES then Err RecoveryConflict
  else
  let header := recovery_header record payload in
  if negb (Z.of_nat (length header) =? RECOVERY_HEADER_BYTES)
  then Err (RecoveryCorrupt "recovery header length is inconsistent")
  else
  frame_bytes ← ok_or (checked_add U64 payload_bytes (RECOVERY_HEADER_BYTES + RECOVERY_FOOTER_BYTES))
                  (RecoveryCorrupt "recovery frame length overflows");
  Ok (header ++ payload ++ blake3 (header ++ payload) ++ RECOVERY_COMMIT_MAGIC ++ be_bytes 8 frame_bytes).

(** The unsigned big-endian integer of [size] bytes at an offset. *)
Definition read_be (size : nat) (b : bytes) (offset : nat) : recovery Z :=
  be_value <$> copy_array size (slice offset size b).

Definition decode_recovery_header (header : bytes) : recovery DecodedRecoveryHeader :=
  if negb (bool_decide (take 8 header = RECOVERY_MAGIC)) then Err (RecoveryCorrupt "recovery magic is invalid")
  else
  version ← read_be 2 header 8;
  if negb (version =? RECOVERY_FORMAT_VERSION)
  then Err (RecoveryCorrupt "recovery format version is unsupported")
  else
  header_bytes ← read_be 2 header 10;
  if negb (header_bytes =? RECOVERY_HEADER_BYTES) then Err (RecoveryCorrupt "recovery header length is invalid")
  else
  payload_bytes ← read_be 8 header 12;
  if (payload_bytes =? 0) || (payload_bytes >? MAXIMUM_RECOVERY_PAYLOAD_BYTES)
  then Err (RecoveryCorrupt "recovery payload length is invalid")
  else
  recovery_id ← read_be 16 header 20;
  revision ← read_be 8 header 36;
  payload_digest ← copy_array 32 (slice 44 32 header);
  Ok {| rh_payload_bytes := payload_bytes; rh_recovery_id := recovery_id; rh_revision := revision;
        rh_payload_digest := payload_digest |}.

(** [if prefix.len() >= n && condition { return Err(..) }] *)
Definition require_field (n : nat) (prefix : bytes) (size offset : nat) (ok : Z → bool) (message : string)
    : recovery unit :=
  if (n <=? length prefix)%nat then
    value ← read_be size prefix offset;
    check (ok value) (RecoveryCorrupt message)
  else Ok tt.

Definition validate_incomplete_recovery_header (prefix : bytes) : recovery unit :=
  let magic_bytes := Nat.min (length prefix) (length RECOVERY_MAGIC) in
  if negb (bool_decide (take magic_bytes prefix = take magic_bytes RECOVERY_MAGIC))
  then Err (RecoveryCorrupt "incomplete recovery tail is not a frame prefix")
  else
  _ ← require_field 10 prefix 2 8 (λ version, version =? RECOVERY_FORMAT_VERSION)
        "incomplete recovery tail has an unsupported version";
  _ ← require_field 12 prefix 2 10 (λ header_bytes, header_bytes =? RECOVERY_HEADER_BYTES)
        "incomplete recovery tail has invalid framing";
  require_field 20 prefix 8 12
    (λ payload_bytes, negb ((payload_bytes =? 0) || (payload_bytes >? MAXIMUM_RECOVERY_PAYLOAD_BYTES)))
    "incomplete recovery tail has an invalid payload length".

Definition validate_recovery_frame (header payload footer : bytes) (expected_frame_bytes : Z)
    (expected_payload_digest : bytes) : recovery unit :=
  if negb (bool_decide (blake3 payload = expected_payload_digest))
  then Err (RecoveryCorrupt "recovery payload digest does not match")
  else
  let mismatch := Err (RecoveryCorrupt "recovery commit footer does not match") in
  if negb (bool_decide (take 32 footer = blake3 (header ++ payload)))
     || negb (bool_decide (slice 32 8 footer = RECOVERY_COMMIT_MAGIC))
  then mismatch
  else
  frame_bytes ← read_be 8 footer 40;
  if negb (frame_bytes =? expected_frame_bytes) then mismatch else Ok tt.

(** ** Consistency of records *)

Definition object_identity (record : OutputRecoveryRecord) : StoredObjectId :=
  k_object_id (od_key (output_object (or_output record))).

Definition validate_record_root (record : OutputRecoveryRecord) (root : ManagedRoot) : recovery unit :=
  let object := output_object (or_output record) in
  let expected :=
    match or_output record with
    | SegmentOutput registration => parquet_key root (sd_segment_id registration) (k_object_id (od_key object))
    | DeadLetterOutput registration => dead_letter_key root (dd_batch_id registration) (k_object_id (od_key object))
    end in
  if bool_decide (expected ≠ od_key object) then Err RecoveryConflict else Ok tt.

(** [std::mem::discriminant] *)
Definition same_kind (a b : RecoveryOutput) : bool :=
  match a, b with
  | SegmentOutput _, SegmentOutput _ | DeadLetterOutput _, DeadLetterOutput _ => true
  | _, _ => false
  end.

Definition validate_transition (current : option OutputRecoveryRecord) (next : OutputRecoveryRecord)
    : recovery unit :=
  match current with
  | None => if negb (or_revision next =? 1) then Err RecoveryConflict else Ok tt
  | Some current =>
      if negb (bool_decide (or_coverage current = or_coverage next))
         || negb (same_kind (or_output current) (or_output next))
         || negb (bool_decide (checked_add U64 (or_revision current) 1 = Some (or_revision next)))
      then Err RecoveryConflict
      else Ok tt
  end.

Definition ensure_unique_object_identity (records : gmap Z OutputRecoveryRecord) (next : OutputRecoveryRecord)
    : recovery unit :=
  if existsb (λ x, negb (x.1 =? or_id next) && (object_identity x.2 =? object_identity next)) (map_to_list records)
  then Err RecoveryConflict
  else Ok tt.

(** ** The scan *)

(** One iteration of the loop: [inl] leaves it, [inr] continues. *)
Definition scan_record (file : bytes) (file_bytes : Z) (root : ManagedRoot) (position : Z)
    (records : gmap Z OutputRecoveryRecord)
    : recovery ((gmap Z OutputRecoveryRecord * Z) + (gmap Z OutputRecoveryRecord * Z)) :=
  let remaining := file_bytes - position in
  if remaining <? RECOVERY_HEADER_BYTES then
    prefix ← ok_or (read_exact file position remaining) (RecoveryIo "read incomplete recovery header");
    _ ← validate_incomplete_recovery_header prefix;
    Ok (inl (records, position))
  else
  header ← ok_or (read_exact file position RECOVERY_HEADER_BYTES) (RecoveryIo "read recovery header");
  decoded ← decode_recovery_header header;
  let payload_bytes := rh_payload_bytes decoded in
  frame_bytes ← ok_or (checked_add U64 RECOVERY_HEADER_BYTES payload_bytes
                         ≫= λ b, checked_add U64 b RECOVERY_FOOTER_BYTES)
                  (RecoveryCorrupt "recovery frame length overflows");
  frame_end ← ok_or (checked_add U64 position frame_bytes) (RecoveryCorrupt "recovery frame position overflows");
  if frame_end >? file_bytes then Ok (inl (records, position))
  else
  payload ← ok_or (read_exact file (position + RECOVERY_HEADER_BYTES) payload_bytes)
              (RecoveryIo "read recovery payload");
  footer ← ok_or (read_exact file (position + RECOVERY_HEADER_BYTES + payload_bytes) RECOVERY_FOOTER_BYTES)
             (RecoveryIo "read recovery footer");
  _ ← validate_recovery_frame header payload footer frame_bytes (rh_payload_digest decoded);
  record ← decode_record payload root;
  if negb (or_id record =? rh_recovery_id decoded) || negb (or_revision record =? rh_revision decoded)
  then Err (RecoveryCorrupt "recovery header and payload identities disagree")
  else
  _ ← map_err (λ _, RecoveryCorrupt "recovery revisions are inconsistent")
        (validate_transition (records !! or_id record) record);
  _ ← map_err (λ _, RecoveryCorrupt "recovery object identity is reused")
        (ensure_unique_object_identity records record);
  let records := <[or_id record := record]> records in
  if Z.of_nat (size records) >? MAXIMUM_RECOVERY_RECORDS
  then Err (RecoveryCorrupt "output recovery record limit is exceeded")
  else Ok (inr (records, frame_end)).

Fixpoint scan_records (fuel : nat) (file : bytes) (file_bytes : Z) (root : ManagedRoot) (position : Z)
    (records : gmap Z OutputRecoveryRecord) : recovery (gmap Z OutputRecoveryRecord * Z) :=
  match fuel with
  | O => Ok (records, position)
  | S fuel =>
      if position <? file_bytes then
        scanned ← scan_record file file_bytes root position records;
        match scanned with
        | inl result => Ok result
        | inr (records, position) => scan_records fuel file file_bytes root position records
        end
      else Ok (records, position)
  end.

(** Every iteration reads a frame, so the length of the file is fuel enough. *)
Definition scan_log (file : bytes) (root : ManagedRoot) : recovery (gmap Z OutputRecoveryRecord * Z) :=
  scan_records (length file) file (Z.of_nat (length file)) root 0 ∅.

(** ** The log *)

(** The file under the name of the log, and the state of an open log. A writer that is
    not attached appends to a file that has been replaced. *)
Record OutputRecoveryLog := {
  ol_root : ManagedRoot;
  ol_records : gmap Z OutputRecoveryRecord;
  ol_attached : bool;
}.

(** [recover_log]: an absent file is created empty. *)
Definition recover_log (file : option bytes) (root : ManagedRoot) (io : OpenIo)
    : recovery OutputRecoveryLog * bytes :=
  let file := default [] file in
  match scan_log file root with
  | Err e => (Err e, file)
  | Ok (records, committed_bytes) =>
      let recovered := take (Z.to_nat committed_bytes) file in
      match io with
      | OpenFails operation truncated => (Err (RecoveryIo operation), if truncated then recovered else file)
      | OpenDone => (Ok {| ol_root := root; ol_records := records; ol_attached := true |}, recovered)
      end
  end.

Definition append (log : OutputRecoveryLog) (file b : bytes) : bytes := if ol_attached log then file ++ b else file.

Definition with_record (log : OutputRecoveryLog) (record : OutputRecoveryRecord) : OutputRecoveryLog :=
  {| ol_root := ol_root log; ol_records := <[or_id record := record]> (ol_records log);
     ol_attached := ol_attached log |}.

Definition prepare_frame (log : OutputRecoveryLog) (record : OutputRecoveryRecord) : recovery bytes :=
  _ ← validate_transition (ol_records log !! or_id record) record;
  _ ← ensure_unique_object_identity (ol_records log) record;
  payload ← encode_record record;
  encode_frame record payload.

Definition record (log : OutputRecoveryLog) (file : bytes) (next : OutputRecoveryRecord) (io : AppendIo)
    : recovery OutputRecoveryRecordOutcome * OutputRecoveryLog * bytes :=
  match validate_record_root next (ol_root log) with
  | Err e => (Err e, log, file)
  | Ok _ =>
      if bool_decide (ol_records log !! or_id next = Some next) then (Ok RecordAlreadyRecorded, log, file)
      else
      match prepare_frame log next with
      | Err e => (Err e, log, file)
      | Ok frame =>
          match io with
          | AppendFails written =>
              (Err (RecoveryIo "append output recovery record"), log, append log file (take written frame))
          | AppendSyncFails => (Err (RecoveryIo "synchronize output recovery record"), log, append log file frame)
          | AppendDone => (Ok RecordRecorded, with_record log next, append log file frame)
          end
      end
  end.

(** [records]: the values of the map in the order of their identities. *)
Definition record_order (a b : OutputRecoveryRecord) : Prop := or_id a ≤ or_id b.

#[export] Instance record_order_dec a b : Decision (record_order a b).
Proof. unfold record_order. apply _. Defined.

Definition records (log : OutputRecoveryLog) : list OutputRecoveryRecord :=
  merge_sort record_order (map_to_list (ol_records log)).*2.

(** Whether a record covers a frame beyond a spool position. *)
Definition points_beyond (bytes : Z) (record : OutputRecoveryRecord) : bool :=
  existsb (λ coverage, range_end (bc_spool_range coverage) >? bytes) (or_coverage record).

Definition reclaim_log (log : OutputRecoveryLog) (file : bytes) (reclaimed_bytes : Z) (io : ReplaceIo)
    : recovery OutputRecoveryReclamation * OutputRecoveryLog * bytes :=
  if existsb (λ x, points_beyond reclaimed_bytes x.2) (map_to_list (ol_records log))
  then (Err RecoveryConflict, log, file)
  else
  match io with
  | ReplaceFails operation replaced =>
      (Err (RecoveryIo operation),
       {| ol_root := ol_root log; ol_records := ol_records log; ol_attached := ol_attached log && negb replaced |},
       if replaced then [] else file)
  | ReplaceDone =>
      (Ok (RecoveryReclaimed (size (ol_records log))),
       {| ol_root := ol_root log; ol_records := ∅; ol_attached := true |}, [])
  end.

(** [reclaim] takes the result of the spool's reclamation. *)
Definition reclaim (log : OutputRecoveryLog) (file : bytes) (reclamation : option Z) (io : ReplaceIo)
    : recovery OutputRecoveryReclamation * OutputRecoveryLog * bytes :=
  match reclamation with
  | None => (Ok RecoveryDeferred, log, file)
  | Some bytes => reclaim_log log file bytes io
  end.

End Log.
