(* ===== verification/OutputLogCorrect.v ===== *)
(** * The output recovery log is correct

    Stored records read back, the scan of a log file returns the records whose frames it
    consists of, and over appends, reclamations and crashes no recorded output is
    forgotten before its spool data is reclaimed. *)

From S2P Require Import Prelude Core CatalogTypes CatalogModel CatalogSource Bytes Frame Recovery RecoveryCorrect Spool Storage OutputRecovery OutputLog.

#[local] Open Scope string_scope.
#[local] Open Scope list_scope.
#[local] Open Scope Z_scope.

Notation len b := (Z.of_nat (length b)).

Section Correct.
Context {env : SpoolEnv} {env_laws : SpoolEnvLaws} {calendar : Calendar} {calendar_laws : CalendarLaws}.
Context {uuid_text : UuidText} {uuid_laws : UuidTextLaws} {paths : PathLib} {serde : SerdeJson} {serde_laws : SerdeJsonLaws}.
Variable root : ManagedRoot.

(** ** Records that the code builds *)

(** A version 7 UUID. *)
Definition is_v7 (u : Z) : Prop := is_uuid u ∧ UuidV7.new u = Some u.

(** A descriptor of an object of a kind under a key of its own. *)
Record object_ok (media_type : ObjectMediaType) (key : Z → ManagedObjectKey) (d : ObjectDescriptor) : Prop := {
  oo_id : is_uuid (k_object_id (od_key d));
  oo_key : od_key d = key (k_object_id (od_key d));
  oo_media : od_media_type d = media_type;
  oo_format : od_format_version d ≠ 0;
}.

Definition times_ok (t : SegmentTimes) : Prop :=
  SegmentTimes_new (event_day t) (minimum_event_time t) (maximum_event_time t) (minimum_ingestion_time t)
    (maximum_ingestion_time t) = Ok t.

Definition output_ok (output : RecoveryOutput) : Prop :=
  match output with
  | SegmentOutput d =>
      is_uuid (sd_segment_id d) ∧ is_v7 (sd_source_id d) ∧ is_v7 (sd_schema_id d) ∧ times_ok (sd_times d) ∧
      sd_row_count d ≠ 0 ∧ sd_uncompressed_bytes d ≠ 0 ∧
      object_ok ParquetMedia (parquet_key root (sd_segment_id d)) (sd_object d)
  | DeadLetterOutput d =>
      is_v7 (dd_input_id d) ∧ is_v7 (dd_batch_id d) ∧
      object_ok DeadLetterMedia (dead_letter_key root (dd_batch_id d)) (dd_object d)
  end.

Definition item_ok (c : BatchPositionCoverage) : Prop :=
  is_v7 (bc_batch_id c) ∧ range_start (bc_spool_range c) < range_end (bc_spool_range c) ∧
  validate_positions (bc_positions c) = Ok tt.

Record record_ok (r : OutputRecoveryRecord) : Prop := {
  ro_id : is_v7 (or_id r);
  ro_revision : 0 < or_revision r ≤ int_max U64;
  ro_items : Forall item_ok (or_coverage r);
  ro_coverage : validate_coverage (or_coverage r) = Ok tt;
  ro_output : output_ok (or_output r);
  ro_semantics : validate_record_semantics r = Ok tt;
}.

(** ** The stored form *)

Lemma parse_uuid_text u : is_uuid u → parse_uuid (uuid_to_string u) = Ok u.
Proof. intros Hu. unfold parse_uuid. by rewrite uuid_parse_to_string. Qed.

Lemma parse_identity_text u message : is_v7 u → parse_identity (uuid_to_string u) message = Ok u.
Proof. intros [Hu Hv]. unfold parse_identity. rewrite parse_uuid_text by done. rewrite bind_ret. by rewrite Hv. Qed.

Lemma BatchId_v7 u : is_v7 u → BatchId_try_from u = Ok u.
Proof. intros [_ Hv]. unfold BatchId_try_from. by rewrite Hv. Qed.

Lemma NonZero_some value : value ≠ 0 → NonZeroU64_new value = Some value.
Proof. intros Hv. unfold NonZeroU64_new. by rewrite (proj2 (Z.eqb_neq _ _) Hv). Qed.

Lemma into_from_coverage c : item_ok c → into_coverage (from_coverage c) = Ok c.
Proof.
  intros (Hid & Hr & Hp). unfold into_coverage, from_coverage. cbn [dc_batch_id dc_spool_start dc_spool_end dc_positions].
  rewrite parse_uuid_text by apply Hid. rewrite bind_ret, BatchId_v7 by done. cbn [map_err]. rewrite bind_ret.
  unfold SpoolBatchRange_new. destruct (Z.geb_spec (range_start (bc_spool_range c)) (range_end (bc_spool_range c))); [lia|].
  cbn [map_err]. rewrite bind_ret. unfold BatchPositionCoverage_new. rewrite Hp, bind_ret. by destruct c as [? []].
Qed.

Lemma into_from_coverages l : Forall item_ok l → try_map into_coverage (from_coverage <$> l) = Ok l.
Proof.
  induction 1 as [|c l Hc _ IH]; [done|]. cbn [fmap list_fmap try_map]. rewrite into_from_coverage by done.
  rewrite bind_ret, IH. done.
Qed.

Lemma into_from_descriptor media_type key d :
  matching_kind (k_kind (od_key d)) media_type = true → object_ok media_type key d →
  into_descriptor (from_descriptor d) (key (k_object_id (od_key d))) media_type = Ok d.
Proof.
  intros Hkind [Hid Hkey Hmedia Hformat]. unfold into_descriptor, from_descriptor.
  cbn [do_object_key do_media_type do_format_version do_expected_byte_size do_digest].
  rewrite <- Hkey, Hmedia, !bool_decide_true by done. cbn [negb orb].
  unfold ObjectFormatVersion_new. rewrite NonZero_some by done. cbn [ok_or map_err]. rewrite bind_ret.
  unfold ObjectDescriptor_new. rewrite Hkind. cbn [negb map_err]. rewrite <- Hmedia. by destruct d.
Qed.

Lemma micros_text t d :
  times_ok t → d ∈ [minimum_event_time t; maximum_event_time t; minimum_ingestion_time t; maximum_ingestion_time t] →
  timestamp_from_micros (timestamp_micros d) = Ok d.
Proof.
  unfold times_ok, SegmentTimes_new. intros Ht Hd. destruct (datetime_ltb _ _); [done|]. destruct (datetime_ltb _ _); [done|].
  destruct (_ || _) in Ht; [done|]. destruct (existsb _ _) eqn:E; [done|]. unfold timestamp_from_micros.
  rewrite micros_round_trip; [done|]. apply not_true_iff_false in E. rewrite existsb_exists in E.
  destruct (Z.eqb_spec (Z.rem (timestamp_subsec_nanos d) 1000) 0) as [|Hne]; [done|]. exfalso. apply E. exists d.
  split; [by apply list_elem_of_In|]. by rewrite (proj2 (Z.eqb_neq _ _) Hne).
Qed.

Lemma into_from_output output : output_ok output → into_output (from_output output) root = Ok output.
Proof.
  destruct output as [d|d]; unfold output_ok, from_output, into_output; cbv zeta.
  - intros (Hseg & Hsrc & Hsch & Ht & Hrow & Hunc & Hobj).
    rewrite parse_uuid_text by done. rewrite bind_ret, !parse_identity_text, !bind_ret by done.
    rewrite date_round_trip. cbn [ok_or]. rewrite bind_ret.
    rewrite (micros_text (sd_times d) (minimum_event_time (sd_times d))), bind_ret by (done || set_solver).
    rewrite (micros_text (sd_times d) (maximum_event_time (sd_times d))), bind_ret by (done || set_solver).
    rewrite (micros_text (sd_times d) (minimum_ingestion_time (sd_times d))), bind_ret by (done || set_solver).
    rewrite (micros_text (sd_times d) (maximum_ingestion_time (sd_times d))), bind_ret by (done || set_solver).
    rewrite Ht. cbn [map_err]. rewrite bind_ret. unfold durable_object_id. cbn [from_descriptor do_object_id].
    rewrite parse_uuid_text by apply Hobj. rewrite bind_ret, into_from_descriptor, bind_ret;
      [| by rewrite (oo_key _ _ _ Hobj) | done].
    unfold RowCount_new, UncompressedByteSize_new. rewrite !NonZero_some by done. cbn [ok_or map_err]. rewrite !bind_ret.
    unfold SegmentDescriptor_new. rewrite (oo_key _ _ _ Hobj). unfold parquet_key, key_new. cbn [k_owner k_kind].
    rewrite !bool_decide_true by done. cbn [negb orb map_err]. rewrite bind_ret. by destruct d.
  - intros (Hin & Hb & Hobj). rewrite parse_identity_text, bind_ret by done.
    rewrite parse_uuid_text by apply Hb. rewrite bind_ret, BatchId_v7 by done. cbn [map_err]. rewrite bind_ret.
    unfold durable_object_id. cbn [from_descriptor do_object_id]. rewrite parse_uuid_text by apply Hobj.
    rewrite bind_ret, into_from_descriptor, bind_ret; [| by rewrite (oo_key _ _ _ Hobj) | done].
    unfold DeadLetterDescriptor_new. rewrite (oo_key _ _ _ Hobj). unfold dead_letter_key, key_new. cbn [k_owner k_kind].
    rewrite !bool_decide_true by done. cbn [negb orb]. by destruct d.
Qed.

Lemma decode_encode_record r payload :
  record_ok r → encode_record r = Ok payload → decode_record payload root = Ok r ∧ payload ≠ [].
Proof.
  intros Hr He. unfold encode_record in He. apply ok_or_Ok, from_slice_to_vec in He as [He Hne]. split; [|done].
  unfold decode_record. rewrite He. cbn [ok_or]. rewrite bind_ret. destruct Hr as [[Hid Hv] Hrev Hitems Hcov Hout Hsem].
  unfold into_record, from_record. cbn [dr_recovery_id dr_revision dr_coverage dr_output].
  rewrite parse_uuid_text, bind_ret by done. unfold OutputRecoveryId_try_from. rewrite Hv. cbn [ok_or map_err].
  rewrite bind_ret, NonZero_some by lia. cbn [ok_or]. rewrite bind_ret, into_from_coverages, bind_ret by done.
  rewrite Hcov. cbn [map_err]. rewrite bind_ret, into_from_output, bind_ret by done. cbv zeta.
  destruct r as [id rev out cov]. cbn in *. by rewrite Hsem.
Qed.

(** ** Frames *)

Definition frame_bytes (payload : bytes) : Z := len payload + (RECOVERY_HEADER_BYTES + RECOVERY_FOOTER_BYTES).

Definition recovery_footer (r : OutputRecoveryRecord) (payload : bytes) : bytes :=
  blake3 (recovery_header r payload ++ payload) ++ RECOVERY_COMMIT_MAGIC ++ be_bytes 8 (frame_bytes payload).

Lemma length_recovery_header r payload : length (recovery_header r payload) = 76%nat.
Proof. unfold recovery_header. by rewrite !length_app, !length_be_bytes, length_blake3. Qed.

Lemma length_recovery_footer r payload : length (recovery_footer r payload) = 48%nat.
Proof. unfold recovery_footer. by rewrite !length_app, !length_be_bytes, length_blake3. Qed.

(** The frame of a record. *)
Definition is_frame (r : OutputRecoveryRecord) (frame : bytes) : Prop :=
  ∃ payload, encode_record r = Ok payload ∧ len payload ≤ MAXIMUM_RECOVERY_PAYLOAD_BYTES ∧
    frame = recovery_header r payload ++ payload ++ recovery_footer r payload.

Lemma encode_frame_Ok r payload frame :
  encode_record r = Ok payload → encode_frame r payload = Ok frame → is_frame r frame.
Proof.
  intros He Hf. exists payload. split; [done|]. unfold encode_frame in Hf. inv_ok.
  apply narrow_Some in Hok as [-> _]. rewrite Z.gtb_ltb in Hf.
  destruct (Z.ltb_spec MAXIMUM_RECOVERY_PAYLOAD_BYTES (len payload)); [done|]. split; [done|].
  destruct (negb _); [done|]. inv_ok. unfold checked_add in *.
  match goal with Hn : narrow _ _ = Some _ |- _ => apply narrow_Some in Hn as [-> _] end. done.
Qed.

(** Fixed fields of a header. *)
Lemma read_be_at offset n b pre field post :
  b = pre ++ field ++ post → length pre = offset → length field = n → read_be n b offset = Ok (be_value field).
Proof.
  intros -> <- Hl. unfold read_be, copy_array, slice. rewrite drop_app_length, take_app_length' by done.
  by rewrite Hl, Nat.eqb_refl.
Qed.

Lemma read_be_take n b offset k : (offset + n ≤ k)%nat → read_be n (take k b) offset = read_be n b offset.
Proof.
  intros Hk. unfold read_be, slice. rewrite skipn_firstn_comm, take_take, Nat.min_l by lia. done.
Qed.

Lemma be_value_u64 z : 0 ≤ z ≤ int_max U64 → be_value (be_bytes 8 z) = z.
Proof. intros Hz. apply be_value_exact. change (256 ^ Z.of_nat 8) with (2 ^ 64). cbn in Hz. lia. Qed.

Definition payload_ok (payload : bytes) : Prop := 0 < len payload ≤ MAXIMUM_RECOVERY_PAYLOAD_BYTES.

Section Header.
Variables (r : OutputRecoveryRecord) (payload : bytes).
Hypothesis Hpayload : payload_ok payload.

Lemma payload_u64 : 0 ≤ len payload ≤ int_max U64.
Proof. unfold payload_ok, MAXIMUM_RECOVERY_PAYLOAD_BYTES in Hpayload. cbn. lia. Qed.

Lemma header_magic : take 8 (recovery_header r payload) = RECOVERY_MAGIC.
Proof. unfold recovery_header. by apply take_app_length'. Qed.

Lemma header_version : read_be 2 (recovery_header r payload) 8 = Ok RECOVERY_FORMAT_VERSION.
Proof. by erewrite (read_be_at 8 2 _ RECOVERY_MAGIC (be_bytes 2 RECOVERY_FORMAT_VERSION)). Qed.

Lemma header_header_bytes : read_be 2 (recovery_header r payload) 10 = Ok RECOVERY_HEADER_BYTES.
Proof.
  by erewrite (read_be_at 10 2 _ (RECOVERY_MAGIC ++ be_bytes 2 RECOVERY_FORMAT_VERSION) (be_bytes 2 RECOVERY_HEADER_BYTES)).
Qed.

Lemma header_payload_bytes : read_be 8 (recovery_header r payload) 12 = Ok (len payload).
Proof.
  erewrite (read_be_at 12 8 _ (RECOVERY_MAGIC ++ be_bytes 2 RECOVERY_FORMAT_VERSION ++ be_bytes 2 RECOVERY_HEADER_BYTES)
    (be_bytes 8 (len payload))); [| unfold recovery_header; by rewrite <- !app_assoc | done | by rewrite length_be_bytes].
  by rewrite (be_value_u64 _ payload_u64).
Qed.

Lemma header_payload_valid : (len payload =? 0) || (len payload >? MAXIMUM_RECOVERY_PAYLOAD_BYTES) = false.
Proof. unfold payload_ok in Hpayload. rewrite Z.gtb_ltb. apply orb_false_iff. lia. Qed.

Lemma decode_header_of_record :
  is_uuid (or_id r) → 0 < or_revision r ≤ int_max U64 →
  decode_recovery_header (recovery_header r payload) =
    Ok {| rh_payload_bytes := len payload; rh_recovery_id := or_id r; rh_revision := or_revision r;
          rh_payload_digest := blake3 payload |}.
Proof.
  intros Hid Hrev. unfold decode_recovery_header. rewrite header_magic, bool_decide_true by done. cbn [negb].
  rewrite header_version, bind_ret, Z.eqb_refl. cbn [negb]. rewrite header_header_bytes, bind_ret, Z.eqb_refl. cbn [negb].
  rewrite header_payload_bytes, bind_ret, header_payload_valid.
  set (front := RECOVERY_MAGIC ++ be_bytes 2 RECOVERY_FORMAT_VERSION ++ be_bytes 2 RECOVERY_HEADER_BYTES
    ++ be_bytes 8 (len payload)).
  assert (Hfront : length front = 20%nat) by (unfold front; by rewrite !length_app, !length_be_bytes).
  assert (Hh : recovery_header r payload =
    front ++ be_bytes 16 (or_id r) ++ be_bytes 8 (or_revision r) ++ blake3 payload)
    by (unfold recovery_header, front; by rewrite <- !app_assoc).
  rewrite (read_be_at 20 16 _ front (be_bytes 16 (or_id r)) (be_bytes 8 (or_revision r) ++ blake3 payload));
    [| done | done | by rewrite length_be_bytes].
  rewrite bind_ret. rewrite be_value_exact by (change (256 ^ Z.of_nat 16) with (2 ^ 128); apply Hid).
  rewrite (read_be_at 36 8 _ (front ++ be_bytes 16 (or_id r)) (be_bytes 8 (or_revision r)) (blake3 payload));
    [| by rewrite Hh, <- app_assoc | by rewrite length_app, Hfront, length_be_bytes | by rewrite length_be_bytes].
  rewrite bind_ret. rewrite be_value_u64 by lia.
  assert (Hdig : slice 44 32 (recovery_header r payload) = blake3 payload).
  { rewrite Hh, !app_assoc. unfold slice. rewrite drop_app_length' by (by rewrite !length_app, Hfront, !length_be_bytes).
    apply take_ge. by rewrite length_blake3. }
  rewrite Hdig. unfold copy_array. rewrite length_blake3. done.
Qed.

Lemma validate_frame_of_record :
  validate_recovery_frame (recovery_header r payload) payload (recovery_footer r payload) (frame_bytes payload)
    (blake3 payload) = Ok tt.
Proof.
  unfold validate_recovery_frame. rewrite bool_decide_true by done. cbn [negb]. unfold recovery_footer.
  set (digest := blake3 (recovery_header r payload ++ payload)).
  assert (Hd : length digest = 32%nat) by apply length_blake3.
  rewrite take_app_length' by done. rewrite bool_decide_true by done.
  assert (Hmagic : slice 32 8 (digest ++ RECOVERY_COMMIT_MAGIC ++ be_bytes 8 (frame_bytes payload)) = RECOVERY_COMMIT_MAGIC).
  { unfold slice. rewrite drop_app_length' by done. by apply take_app_length'. }
  rewrite Hmagic, bool_decide_true by done. cbn [negb orb].
  rewrite (read_be_at 40 8 _ (digest ++ RECOVERY_COMMIT_MAGIC) (be_bytes 8 (frame_bytes payload)) []);
    [| by rewrite app_nil_r, app_assoc | by rewrite length_app, Hd | by rewrite length_be_bytes].
  rewrite bind_ret. rewrite be_value_u64; [by rewrite Z.eqb_refl|].
  unfold payload_ok, frame_bytes, MAXIMUM_RECOVERY_PAYLOAD_BYTES, RECOVERY_HEADER_BYTES, RECOVERY_FOOTER_BYTES in *. cbn. lia.
Qed.

(** A torn header passes the checks of an incomplete tail. *)
Lemma torn_recovery_header k :
  (k ≤ 76)%nat → validate_incomplete_recovery_header (take k (recovery_header r payload)) = Ok tt.
Proof.
  intros Hk. unfold validate_incomplete_recovery_header.
  assert (Hlen : length (take k (recovery_header r payload)) = k) by (rewrite length_take, length_recovery_header; lia).
  rewrite Hlen.
  change (length RECOVERY_MAGIC) with 8%nat.
  rewrite bool_decide_true by (rewrite <- header_magic, !take_take; f_equal; lia). cbn [negb].
  unfold require_field. rewrite Hlen.
  assert (Hfield : ∀ n size offset (ok : Z → bool) message value,
    (offset + size ≤ n)%nat → read_be size (recovery_header r payload) offset = Ok value → ok value = true →
    (if (n <=? k)%nat then v ← read_be size (take k (recovery_header r payload)) offset; check (ok v) (RecoveryCorrupt message)
     else Ok tt) = Ok tt).
  { intros n m o ok message value Hn Hv Hok. destruct (Nat.leb_spec n k); [|done].
    rewrite read_be_take, Hv, bind_ret, Hok by lia. done. }
  rewrite (Hfield 10%nat 2%nat 8%nat _ _ _ ltac:(lia) header_version), bind_ret by done.
  rewrite (Hfield 12%nat 2%nat 10%nat _ _ _ ltac:(lia) header_header_bytes), bind_ret by done.
  by rewrite (Hfield 20%nat 8%nat 12%nat _ _ _ ltac:(lia) header_payload_bytes) by (by rewrite header_payload_valid).
Qed.

End Header.

(** ** The scan *)

Lemma frame_parts r frame :
  record_ok r → is_frame r frame →
  ∃ payload, payload_ok payload ∧ decode_record payload root = Ok r ∧
    frame = recovery_header r payload ++ payload ++ recovery_footer r payload ∧ len frame = frame_bytes payload.
Proof.
  intros Hr (payload & He & Hmax & ->). destruct (decode_encode_record r payload Hr He) as [Hd Hne]. exists payload.
  split; [split; [destruct payload; [done | cbn; lia] | done]|]. split; [done|]. split; [done|].
  rewrite !length_app, length_recovery_header, length_recovery_footer.
  unfold frame_bytes, RECOVERY_HEADER_BYTES, RECOVERY_FOOTER_BYTES. lia.
Qed.

(** What the scan makes of a record that follows the ones before it. *)
Definition scanned (records : gmap Z OutputRecoveryRecord) (r : OutputRecoveryRecord) (position : Z)
    : recovery ((gmap Z OutputRecoveryRecord * Z) + (gmap Z OutputRecoveryRecord * Z)) :=
  if Z.of_nat (size (<[or_id r := r]> records)) >? MAXIMUM_RECOVERY_RECORDS
  then Err (RecoveryCorrupt "output recovery record limit is exceeded")
  else Ok (inr (<[or_id r := r]> records, position)).

Lemma scan_record_whole pre r frame post records :
  record_ok r → is_frame r frame → len (pre ++ frame ++ post) ≤ int_max I64 →
  validate_transition (records !! or_id r) r = Ok tt → ensure_unique_object_identity records r = Ok tt →
  scan_record (pre ++ frame ++ post) (len (pre ++ frame ++ post)) root (len pre) records =
    scanned records r (len pre + len frame).
Proof.
  intros Hr Hf Hsize Ht Hu. destruct (frame_parts r frame Hr Hf) as (payload & Hp & Hd & Hframe & Hlen).
  assert (Hb : frame_bytes payload = len payload + 124) by done. unfold scan_record.
  assert (Hfile : len (pre ++ frame ++ post) = len pre + len frame + len post) by (rewrite !length_app; lia).
  change (int_max I64) with (2 ^ 63 - 1) in Hsize. unfold RECOVERY_HEADER_BYTES, RECOVERY_FOOTER_BYTES.
  destruct (Z.ltb_spec (len (pre ++ frame ++ post) - len pre) 76); [lia|].
  rewrite Hframe at 1. rewrite <- !app_assoc, read_exact_app by (rewrite ?length_recovery_header; done).
  cbn [ok_or]. rewrite bind_ret. destruct Hr as [[Hid Hv7] Hrev _ _ _ _].
  rewrite (decode_header_of_record r payload Hp Hid Hrev), bind_ret. cbn [rh_payload_bytes rh_recovery_id rh_revision rh_payload_digest].
  unfold payload_ok, MAXIMUM_RECOVERY_PAYLOAD_BYTES in Hp.
  rewrite (checked_add_ok 76) by (cbn; lia). cbn [mbind option_bind]. rewrite checked_add_ok by (cbn; lia). cbn [ok_or]. rewrite bind_ret.
  replace (76 + len payload + 48) with (frame_bytes payload) by lia. rewrite checked_add_ok by (cbn; lia).
  cbn [ok_or]. rewrite bind_ret, Z.gtb_ltb. destruct (Z.ltb_spec (len (pre ++ frame ++ post)) (len pre + frame_bytes payload)); [lia|].
  rewrite Hframe at 1. rewrite <- !app_assoc, (app_assoc pre (recovery_header r payload)),
    (read_exact_app (pre ++ recovery_header r payload) payload (recovery_footer r payload ++ post))
    by (rewrite ?length_app, ?length_recovery_header; lia).
  cbn [ok_or]. rewrite bind_ret. rewrite Hframe at 1.
  rewrite <- !app_assoc, (app_assoc pre (recovery_header r payload)), (app_assoc (pre ++ recovery_header r payload) payload),
    (read_exact_app ((pre ++ recovery_header r payload) ++ payload) (recovery_footer r payload) post)
    by (rewrite ?length_app, ?length_recovery_header, ?length_recovery_footer; lia).
  cbn [ok_or]. rewrite bind_ret, validate_frame_of_record, bind_ret by done. rewrite Hd, bind_ret, !Z.eqb_refl. cbn [negb orb].
  rewrite Ht. cbn [map_err]. rewrite bind_ret, Hu. cbn [map_err]. rewrite bind_ret. unfold scanned. by rewrite <- Hlen.
Qed.

(** A proper prefix of a frame at the end of the file ends the scan. *)
Lemma scan_record_torn pre r frame k records :
  record_ok r → is_frame r frame → (0 < k < length frame)%nat → len (pre ++ take k frame) ≤ int_max I64 →
  scan_record (pre ++ take k frame) (len (pre ++ take k frame)) root (len pre) records = Ok (inl (records, len pre)).
Proof.
  intros Hr Hf Hk Hsize. destruct (frame_parts r frame Hr Hf) as (payload & Hp & Hd & Hframe & Hlen).
  assert (Hb : frame_bytes payload = len payload + 124) by done. unfold scan_record.
  assert (Hfile : len (pre ++ take k frame) = len pre + Z.of_nat k) by (rewrite length_app, length_take; lia).
  change (int_max I64) with (2 ^ 63 - 1) in Hsize.
  replace (len (pre ++ take k frame) - len pre) with (Z.of_nat k) by lia. unfold RECOVERY_HEADER_BYTES, RECOVERY_FOOTER_BYTES.
  destruct (Z.ltb_spec (Z.of_nat k) 76) as [Hshort|Hlong].
  - rewrite <- (app_nil_r (take k frame)) at 1. rewrite read_exact_app by (rewrite ?length_take; lia).
    cbn [ok_or]. rewrite bind_ret, Hframe, take_app_le by (rewrite length_recovery_header; lia).
    by rewrite torn_recovery_header by (done || lia).
  - assert (Htake : take k frame = recovery_header r payload ++ take (k - 76) (payload ++ recovery_footer r payload)).
    { rewrite Hframe, take_app_ge by (rewrite length_recovery_header; lia). by rewrite length_recovery_header. }
    rewrite Htake at 1. rewrite read_exact_app by (rewrite ?length_recovery_header; done). cbn [ok_or]. rewrite bind_ret.
    destruct Hr as [[Hid Hv7] Hrev _ _ _ _]. rewrite (decode_header_of_record r payload Hp Hid Hrev), bind_ret.
    cbn [rh_payload_bytes]. unfold payload_ok, MAXIMUM_RECOVERY_PAYLOAD_BYTES in Hp.
    rewrite (checked_add_ok 76) by (cbn; lia). cbn [mbind option_bind]. rewrite checked_add_ok by (cbn; lia). cbn [ok_or].
    rewrite bind_ret, checked_add_ok by (cbn; lia). cbn [ok_or]. rewrite bind_ret, Z.gtb_ltb.
    destruct (Z.ltb_spec (len (pre ++ take k frame)) (len pre + (76 + len payload + 48))); [done | lia].
Qed.

(** ** Histories *)

(** Records that follow one another, from the records of [m] to those of [m']. *)
Inductive history : gmap Z OutputRecoveryRecord → list OutputRecoveryRecord → gmap Z OutputRecoveryRecord → Prop :=
| history_nil m : history m [] m
| history_cons m r l m' :
    record_ok r → validate_transition (m !! or_id r) r = Ok tt → ensure_unique_object_identity m r = Ok tt →
    history (<[or_id r := r]> m) l m' → history m (r :: l) m'.

Lemma history_snoc m l m' r :
  history m l m' → record_ok r → validate_transition (m' !! or_id r) r = Ok tt →
  ensure_unique_object_identity m' r = Ok tt → history m (l ++ [r]) (<[or_id r := r]> m').
Proof. induction 1; intros; cbn [app]; constructor; auto. constructor. Qed.

Lemma insert_size_le (m : gmap Z OutputRecoveryRecord) k r : (size m ≤ size (<[k := r]> m))%nat.
Proof. rewrite map_size_insert. case_match; cbn; lia. Qed.

Lemma history_size m l m' : history m l m' → (size m ≤ size m')%nat.
Proof. induction 1 as [|m r l m' _ _ _ _ IH]; [done|]. etransitivity; [apply insert_size_le | exact IH]. Qed.

(** The beginning of a frame, short of its end. *)
Definition torn (tail : bytes) : Prop :=
  ∃ r frame k, record_ok r ∧ is_frame r frame ∧ (k < length frame)%nat ∧ tail = take k frame.

Lemma torn_nil r frame : record_ok r → is_frame r frame → torn [].
Proof.
  intros Hr Hf. exists r, frame, O. split; [done|]. split; [done|]. split; [|done].
  destruct (frame_parts r frame Hr Hf) as (p & Hp & _ & _ & Hl). unfold frame_bytes, RECOVERY_HEADER_BYTES, RECOVERY_FOOTER_BYTES in Hl. lia.
Qed.

(** The records of a file of whole frames and perhaps the beginning of another. *)
Definition log_file (file : bytes) (l : list OutputRecoveryRecord) (tail : bytes) : Prop :=
  ∃ frames, Forall2 is_frame l frames ∧ file = concat frames ++ tail ∧ (tail = [] ∨ torn tail).

Lemma scan_tail fuel pre tail records :
  tail = [] ∨ torn tail → len (pre ++ tail) ≤ int_max I64 → (length tail ≤ fuel)%nat →
  scan_records fuel (pre ++ tail) (len (pre ++ tail)) root (len pre) records = Ok (records, len pre).
Proof.
  intros Ht Hsize Hfuel. destruct (decide (tail = [])) as [->|Hne].
  - rewrite app_nil_r. destruct fuel; cbn [scan_records]; [done|]. by rewrite Z.ltb_irrefl.
  - destruct Ht as [?|(r & frame & k & Hr & Hf & Hk & ->)]; [done|].
    assert (Hpos : (0 < k)%nat) by (destruct k; [done | lia]).
    destruct fuel as [|fuel]; [rewrite length_take in Hfuel; lia|]. cbn [scan_records].
    destruct (Z.ltb_spec (len pre) (len (pre ++ take k frame))) as [|Hge]; [|rewrite length_app, length_take in Hge; lia].
    by rewrite (scan_record_torn pre r frame k records), bind_ret by (done || lia).
Qed.

Lemma scan_history l m m' : history m l m' →
  ∀ frames fuel pre tail,
  Z.of_nat (size m) ≤ MAXIMUM_RECOVERY_RECORDS → Forall2 is_frame l frames → tail = [] ∨ torn tail →
  len (pre ++ concat frames ++ tail) ≤ int_max I64 → (length (concat frames ++ tail) ≤ fuel)%nat →
  scan_records fuel (pre ++ concat frames ++ tail) (len (pre ++ concat frames ++ tail)) root (len pre) m =
    if Z.of_nat (size m') >? MAXIMUM_RECOVERY_RECORDS
    then Err (RecoveryCorrupt "output recovery record limit is exceeded")
    else Ok (m', len (pre ++ concat frames)).
Proof.
  induction 1 as [m|m r l m' Hr Ht Hu Hh IH]; intros frames fuel pre tail Hm Hf Htail Hsize Hfuel.
  - apply Forall2_nil_inv_l in Hf as ->. cbn [concat app] in *. rewrite scan_tail by done. rewrite app_nil_r, Z.gtb_ltb.
    destruct (Z.ltb_spec MAXIMUM_RECOVERY_RECORDS (Z.of_nat (size m))); [lia | done].
  - apply Forall2_cons_inv_l in Hf as (frame & frames' & Hfr & Hf & ->). cbn [concat] in *. rewrite <- app_assoc in *.
    pose proof (frame_parts r frame Hr Hfr) as (p & Hp & _ & _ & Hl). unfold frame_bytes, RECOVERY_HEADER_BYTES, RECOVERY_FOOTER_BYTES in Hl.
    destruct fuel as [|fuel]; [rewrite length_app in Hfuel; lia|]. cbn [scan_records].
    destruct (Z.ltb_spec (len pre) (len (pre ++ frame ++ concat frames' ++ tail))) as [|Hge]; [|rewrite !length_app in Hge; lia].
    rewrite scan_record_whole with (r := r) by done. unfold scanned. rewrite Z.gtb_ltb.
    pose proof (history_size _ _ _ Hh) as Hmono.
    destruct (Z.ltb_spec MAXIMUM_RECOVERY_RECORDS (Z.of_nat (size (<[or_id r:=r]> m)))).
    + cbn. rewrite Z.gtb_ltb. destruct (Z.ltb_spec MAXIMUM_RECOVERY_RECORDS (Z.of_nat (size m'))); [done | lia].
    + rewrite bind_ret, (app_assoc pre frame). replace (len pre + len frame) with (len (pre ++ frame)) by (rewrite length_app; lia).
      rewrite IH; try done.
      * by rewrite (app_assoc pre frame).
      * by rewrite <- app_assoc.
      * rewrite length_app in Hfuel. lia.
Qed.

(** Opening a log file returns its records, unless there are too many. *)
Lemma scan_log_file file l tail m :
  log_file file l tail → history ∅ l m → len file ≤ int_max I64 →
  scan_log file root =
    if Z.of_nat (size m) >? MAXIMUM_RECOVERY_RECORDS
    then Err (RecoveryCorrupt "output recovery record limit is exceeded")
    else Ok (m, len file - len tail).
Proof.
  intros (frames & Hf & -> & Htail) Hh Hsize. unfold scan_log.
  pose proof (scan_history l ∅ m Hh frames (length (concat frames ++ tail)) [] tail) as Hscan.
  cbn [app length] in Hscan. change (Z.of_nat 0) with 0 in Hscan. rewrite Hscan by done.
  destruct (_ >? _); [done|]. rewrite length_app. do 2 f_equal. lia.
Qed.

(** ** Records as the code builds them *)

(** Descriptors as [SegmentDescriptor::new], [DeadLetterDescriptor::new] and the typed
    identities make them. *)
Definition described (d : ObjectDescriptor) : Prop :=
  is_uuid (k_object_id (od_key d)) ∧ matching_kind (k_kind (od_key d)) (od_media_type d) = true ∧ od_format_version d ≠ 0.

Definition segment_ok (d : SegmentDescriptor) : Prop :=
  is_uuid (sd_segment_id d) ∧ is_v7 (sd_source_id d) ∧ is_v7 (sd_schema_id d) ∧ times_ok (sd_times d) ∧
  sd_row_count d ≠ 0 ∧ sd_uncompressed_bytes d ≠ 0 ∧ described (sd_object d).

Definition dead_letter_ok (d : DeadLetterDescriptor) : Prop :=
  is_v7 (dd_input_id d) ∧ is_v7 (dd_batch_id d) ∧ described (dd_object d).

Inductive built : OutputRecoveryRecord → Prop :=
| built_segment id d coverage r :
    is_v7 id → segment_ok d → Forall item_ok coverage → record_segment id d coverage = Ok r → built r
| built_dead_letter id d c r :
    is_v7 id → dead_letter_ok d → item_ok c → record_dead_letter id d c = Ok r → built r
| built_replacement r d r' : built r → segment_ok d → replacement_segment r d = Ok r' → built r'.

Lemma covered_rows_fold l t rows :
  try_fold (λ total item,
    item_positions ← ok_or (narrow U64 (Z.of_nat (length (bc_positions item)))) CoveredPositionLimitExceeded;
    ok_or (checked_add U64 total item_positions) CoveredPositionLimitExceeded) t l = Ok rows →
  foldl (λ total c, total ≫= λ total, checked_add U64 total (Z.of_nat (length (bc_positions c)))) (Some t) l = Some rows.
Proof.
  revert t; induction l as [|c l IH]; intros t Hf; cbn [try_fold foldl] in *; inv_ok; [done|].
  match goal with Hn : narrow _ _ = Some _ |- _ => apply narrow_Some in Hn as [-> _] end.
  cbn [mbind option_bind]. match goal with Hc : checked_add _ _ _ = Some _ |- _ => rewrite Hc end. by apply IH.
Qed.

Lemma validate_single c : item_ok c → validate_coverage [c] = Ok tt.
Proof.
  intros (_ & _ & Hp). unfold validate_coverage. cbn [length validate_items ranges_overlap].
  rewrite Hp, bind_ret. unfold validate_positions in Hp. destruct (bc_positions c) as [|p ps] eqn:E; [done|].
  rewrite Z.gtb_ltb in Hp. destruct (Z.ltb_spec MAXIMUM_COVERED_POSITIONS (len (p :: ps))) as [|Hle]; [done|].
  unfold MAXIMUM_COVERED_POSITIONS, MAXIMUM_COVERED_BATCHES in *. rewrite checked_add_ok by (cbn [int_max]; lia).
  cbn [ok_or]. rewrite bind_ret, !Z.gtb_ltb, bool_decide_false by set_solver.
  destruct (Z.ltb_spec 100000 (0 + len (p :: ps))); [lia | done].
Qed.

(** What the constructors check, apart from the key. *)
Lemma built_checked r :
  built r →
  is_v7 (or_id r) ∧ 0 < or_revision r ≤ int_max U64 ∧ Forall item_ok (or_coverage r) ∧
  validate_coverage (or_coverage r) = Ok tt ∧ validate_record_semantics r = Ok tt ∧
  match or_output r with SegmentOutput d => segment_ok d | DeadLetterOutput d => dead_letter_ok d end.
Proof.
  assert (Hsegment : ∀ id d coverage r, is_v7 id → segment_ok d → Forall item_ok coverage →
    record_segment id d coverage = Ok r →
    or_id r = id ∧ or_revision r = 1 ∧ Forall item_ok (or_coverage r) ∧ validate_coverage (or_coverage r) = Ok tt ∧
    or_output r = SegmentOutput d ∧ validate_output_metadata (SegmentOutput d) = Ok tt ∧
    covered_rows (or_coverage r) = Ok (sd_row_count d)).
  { clear r. intros id d coverage r Hid Hd Hc Hr. unfold record_segment in Hr. inv_ok. cbn.
    repeat match goal with u : unit |- _ => destruct u end.
    match goal with Hx : (_ =? _) = true |- _ => apply Z.eqb_eq in Hx; subst end.
    split; [done|]. split; [done|]. split; [by rewrite merge_sort_Permutation|]. done. }
  induction 1 as [id d coverage r Hid Hd Hc Hr|id d c r Hid Hd Hc Hr|r d r' _ IH Hd Hr].
  - destruct (Hsegment _ _ _ _ Hid Hd Hc Hr) as (-> & -> & Hi & Hv & Ho & Hm & Hrows). rewrite Ho.
    split; [done|]. split; [by cbn|]. split; [done|]. split; [done|]. split; [|done].
    unfold validate_record_semantics. rewrite Ho, Hm. cbn [map_err]. rewrite bind_ret.
    apply covered_rows_fold in Hrows. by rewrite Hrows, bool_decide_true.
  - unfold record_dead_letter in Hr. inv_ok. repeat match goal with u : unit |- _ => destruct u end.
    cbn [or_id or_revision or_coverage or_output]. split; [done|]. split; [by cbn|]. split; [by constructor|].
    split; [by apply validate_single|]. split; [|done]. unfold validate_record_semantics.
    cbn [or_output or_coverage]. match goal with Hm : validate_output_metadata _ = _ |- _ => rewrite Hm end.
    cbn [map_err]. rewrite bind_ret. match goal with Hx : (_ =? _) = true |- _ => rewrite Z.eqb_sym, Hx end. done.
  - destruct IH as (Hid & Hrev & Hi & _). unfold replacement_segment in Hr. destruct (or_output r) as [cur|]; [|done].
    destruct (_ || _); [done|]. inv_ok. cbn [or_id or_revision or_coverage or_output].
    match goal with Hx : record_segment _ _ _ = Ok ?x |- _ =>
      destruct (Hsegment _ _ _ _ Hid Hd Hi Hx) as (-> & _ & Hi' & Hv & Ho & Hm & Hrows) end.
    split; [done|]. split.
    { match goal with Hx : _ ≫= _ = Some _ |- _ => apply bind_Some in Hx as (v & Hv' & Hn) end.
      unfold checked_add in Hv'. apply narrow_Some in Hv' as [-> ?]. unfold NonZeroU64_new in Hn.
      destruct (Z.eqb_spec (or_revision r + 1) 0); [done|]. injection Hn as <-. lia. }
    split; [done|]. split; [done|]. rewrite Ho. split; [|done]. unfold validate_record_semantics. cbn [or_output or_coverage].
    rewrite Hm. cbn [map_err]. rewrite bind_ret. apply covered_rows_fold in Hrows. by rewrite Hrows, bool_decide_true.
Qed.

Lemma built_ok r : built r → validate_record_root r root = Ok tt → record_ok r.
Proof.
  intros (Hid & Hrev & Hi & Hv & Hs & Ho)%built_checked Hroot. split; try done. unfold validate_record_root in Hroot.
  unfold output_ok. destruct (or_output r) as [d|d]; cbn [output_object] in *.
  - destruct Ho as (H1 & H2 & H3 & H4 & H5 & H6 & H7 & H8 & H9). case_bool_decide as Hk; [done|].
    repeat (split; [done|]). split; [done | by rewrite Hk | | done]. rewrite <- Hk in H8. by destruct (od_media_type (sd_object d)).
  - destruct Ho as (H1 & H2 & H7 & H8 & H9). case_bool_decide as Hk; [done|].
    repeat (split; [done|]). split; [done | by rewrite Hk | | done]. rewrite <- Hk in H8. by destruct (od_media_type (dd_object d)).
Qed.

(** ** The log over time *)

(** The file, the log while it is open, and the records acknowledged since the last
    reclamation. *)
Record log_system := {
  ls_file : bytes;
  ls_log : option OutputRecoveryLog;
  ls_recorded : list OutputRecoveryRecord;
}.

(** The worker stops at the first error and drops the log; what was not synchronized may
    be lost then. A file has at most [i64::MAX] bytes. *)
Inductive log_step (s : log_system) : log_system → Prop :=
| log_opens io log file :
    ls_log s = None → recover_log (Some (ls_file s)) root io = (Ok log, file) →
    log_step s {| ls_file := file; ls_log := Some log; ls_recorded := ls_recorded s |}
| log_open_fails io e file :
    ls_log s = None → recover_log (Some (ls_file s)) root io = (Err e, file) →
    log_step s {| ls_file := file; ls_log := None; ls_recorded := ls_recorded s |}
| log_records log r io outcome log' file :
    ls_log s = Some log → built r → len file ≤ int_max I64 →
    record log (ls_file s) r io = (Ok outcome, log', file) →
    log_step s {| ls_file := file; ls_log := Some log';
                  ls_recorded := match outcome with
                                 | RecordRecorded => ls_recorded s ++ [r]
                                 | RecordAlreadyRecorded => ls_recorded s
                                 end |}
| log_record_fails log r io e log' file kept :
    ls_log s = Some log → built r → len file ≤ int_max I64 →
    record log (ls_file s) r io = (Err e, log', file) → (length (ls_file s) ≤ kept)%nat →
    log_step s {| ls_file := take kept file; ls_log := None; ls_recorded := ls_recorded s |}
| log_reclaims log bytes io outcome log' file :
    ls_log s = Some log → reclaim log (ls_file s) (Some bytes) io = (Ok outcome, log', file) →
    log_step s {| ls_file := file; ls_log := Some log'; ls_recorded := [] |}
| log_reclaim_conflicts log bytes io log' file :
    ls_log s = Some log → reclaim log (ls_file s) (Some bytes) io = (Err RecoveryConflict, log', file) →
    log_step s {| ls_file := file; ls_log := None; ls_recorded := ls_recorded s |}
| log_reclaim_fails log bytes io operation log' file after :
    ls_log s = Some log → reclaim log (ls_file s) (Some bytes) io = (Err (RecoveryIo operation), log', file) →
    after ∈ [file; ls_file s] →
    log_step s {| ls_file := after; ls_log := None; ls_recorded := [] |}
| log_crashes : log_step s {| ls_file := ls_file s; ls_log := None; ls_recorded := ls_recorded s |}.

Definition new_log : log_system := {| ls_file := []; ls_log := None; ls_recorded := [] |}.

Definition log_reachable : log_system → Prop := rtc log_step new_log.

Record system_ok (s : log_system) (l : list OutputRecoveryRecord) (tail : bytes) (m : gmap Z OutputRecoveryRecord) : Prop := {
  so_file : log_file (ls_file s) l tail;
  so_history : history ∅ l m;
  so_recorded : ls_recorded s `sublist_of` l;
  so_size : len (ls_file s) ≤ int_max I64;
  so_log : ∀ log, ls_log s = Some log → tail = [] ∧ log = {| ol_root := root; ol_records := m; ol_attached := true |};
}.

Lemma log_file_nil : log_file [] [] [].
Proof. exists []. split; [constructor|]. split; [done | by left]. Qed.

Lemma log_file_tail file l tail : log_file file l tail → log_file (take (length file - length tail) file) l [].
Proof.
  intros (frames & Hf & -> & _). exists frames. split; [done|]. split; [|by left].
  rewrite app_nil_r, length_app, take_app_le by lia. apply take_ge. lia.
Qed.

Lemma log_file_whole file l r frame : log_file file l [] → is_frame r frame → log_file (file ++ frame) (l ++ [r]) [].
Proof.
  intros (frames & Hf & -> & _) Hfr. exists (frames ++ [frame]). split; [by apply Forall2_app; [|constructor]|].
  split; [|by left]. by rewrite concat_app, !app_nil_r, concat_cons, app_nil_r.
Qed.

Lemma log_file_torn file l r frame k :
  log_file file l [] → record_ok r → is_frame r frame → (k < length frame)%nat →
  log_file (file ++ take k frame) l (take k frame).
Proof.
  intros (frames & Hf & -> & _) Hr Hfr Hk. exists frames. split; [done|]. rewrite app_nil_r. split; [done|]. right.
  by exists r, frame, k.
Qed.

Notation open_log m := {| ol_root := root; ol_records := m; ol_attached := true |}.

(** What [record] does: nothing, or the append of the frame of a record that follows. *)
Lemma record_effect m file r io res log' file' :
  record (open_log m) file r io = (res, log', file') →
  (file' = file ∧ log' = open_log m ∧ res ≠ Ok RecordRecorded) ∨
  ∃ frame, validate_record_root r root = Ok tt ∧ validate_transition (m !! or_id r) r = Ok tt ∧
    ensure_unique_object_identity m r = Ok tt ∧ is_frame r frame ∧
    ((res = Ok RecordRecorded ∧ log' = open_log (<[or_id r := r]> m) ∧ file' = file ++ frame) ∨
     ((∃ e, res = Err e) ∧ ∃ k, file' = file ++ take k frame)).
Proof.
  unfold record. cbn [ol_root ol_records]. destruct (validate_record_root r root) as [[]|e] eqn:Er;
    [|intros [= <- <- <-]; by left].
  case_bool_decide; [intros [= <- <- <-]; by left|].
  destruct (prepare_frame (open_log m) r) as [frame|e] eqn:Ep; [|intros [= <- <- <-]; by left].
  unfold prepare_frame in Ep. cbn [ol_records] in Ep. inv_ok. repeat match goal with u : unit |- _ => destruct u end.
  assert (Hf : is_frame r frame) by (by eapply encode_frame_Ok).
  unfold append, with_record. cbn [ol_attached ol_root ol_records]. intros Hio. right. exists frame. do 4 (split; [done|]).
  destruct io as [|k|]; injection Hio as <- <- <-; [left; done | right | right]; (split; [eauto|]); [eauto|].
  exists (length frame). by rewrite firstn_all.
Qed.

Lemma reclaim_effect m file bytes io res log' file' :
  reclaim (open_log m) file (Some bytes) io = (res, log', file') →
  (res = Err RecoveryConflict ∧ file' = file) ∨
  (∃ operation, res = Err (RecoveryIo operation) ∧ file' ∈ [file; []]) ∨
  (∃ outcome, res = Ok outcome ∧ log' = open_log ∅ ∧ file' = []).
Proof.
  unfold reclaim, reclaim_log. cbn [ol_records ol_root ol_attached]. destruct (existsb _ _); [intros [= <- <- <-]; by left|].
  destruct io as [|operation []]; intros [= <- <- <-]; right; [right; eauto | left..]; exists operation; (split; [done | set_solver]).
Qed.

Lemma recover_effect s l tail m io res file' :
  system_ok s l tail m → recover_log (Some (ls_file s)) root io = (res, file') →
  (∃ e, res = Err e ∧ (file' = ls_file s ∨ file' = take (length (ls_file s) - length tail) (ls_file s))) ∨
  (res = Ok (open_log m) ∧ file' = take (length (ls_file s) - length tail) (ls_file s)).
Proof.
  intros [Hfile Hhist _ Hsize _]. unfold recover_log. cbn [default from_option id].
  rewrite (scan_log_file _ l tail m) by done. destruct (_ >? _); [intros [= <- <-]; eauto|].
  assert (Hle : (length tail ≤ length (ls_file s))%nat) by (destruct Hfile as (fs & _ & -> & _); rewrite length_app; lia).
  replace (Z.to_nat (len (ls_file s) - len tail)) with (length (ls_file s) - length tail)%nat by lia.
  destruct io as [|operation []]; intros [= <- <-]; eauto 6.
Qed.

Lemma take_short_len (b : bytes) k : len b ≤ int_max I64 → len (take k b) ≤ int_max I64.
Proof. rewrite length_take. lia. Qed.

(** The append of part of a frame leaves a file of the same or one more record. *)
Lemma append_ok s l m r frame k :
  system_ok s l [] m → record_ok r → validate_transition (m !! or_id r) r = Ok tt →
  ensure_unique_object_identity m r = Ok tt → is_frame r frame → len (ls_file s ++ take k frame) ≤ int_max I64 →
  ∃ l' tail m', system_ok {| ls_file := ls_file s ++ take k frame; ls_log := None; ls_recorded := ls_recorded s |} l' tail m'.
Proof.
  intros [Hfile Hhist Hrec Hsize _] Hok Ht Hu Hf Hlen. destruct (decide (length frame ≤ k)%nat) as [Hk|Hk].
  - rewrite take_ge in * by done. exists (l ++ [r]), [], (<[or_id r := r]> m).
    split; cbn [ls_file ls_log ls_recorded]; [by apply log_file_whole | by apply history_snoc | | done | done].
    by apply sublist_inserts_r.
  - exists l, (take k frame), m. split; cbn [ls_file ls_log ls_recorded]; try done. apply (log_file_torn _ _ r); [done..|lia].
Qed.

(** Losing the end of what was appended is the append of less. *)
Lemma take_appended (file frame : bytes) k kept :
  (length file ≤ kept)%nat → take kept (file ++ take k frame) = file ++ take (Nat.min (kept - length file) k) frame.
Proof. intros Hk. rewrite take_app_ge by done. by rewrite take_take. Qed.

Lemma step_ok s s' l tail m :
  system_ok s l tail m → log_step s s' → ∃ l' tail' m', system_ok s' l' tail' m'.
Proof.
  intros Hs Hstep. pose proof Hs as [Hfile Hhist Hrec Hsize Hlog].
  destruct Hstep as [io log file Hnone Ho|io e file Hnone Ho|log r io outcome log' file Hl Hb Hbig Hr
    |log r io e log' file kept Hl Hb Hbig Hr Hkept|log bytes io outcome log' file Hl Hr|log bytes io log' file Hl Hr
    |log bytes io operation log' file after Hl Hr Hafter|];
    try (destruct (Hlog _ Hl) as [-> ->]).
  - destruct (recover_effect s l tail m io _ _ Hs Ho) as [(e & E & _)|[E ->]]; [done|]. injection E as ->. exists l, [], m.
    split; cbn [ls_file ls_log ls_recorded]; [by apply log_file_tail | done | done | by apply take_short_len | by intros ? [= <-]].
  - destruct (recover_effect s l tail m io _ _ Hs Ho) as [(e' & _ & [->| ->])|[E _]]; [exists l, tail, m | exists l, [], m | done];
      split; cbn [ls_file ls_log ls_recorded]; try done; [by apply log_file_tail | by apply take_short_len].
  - destruct (record_effect _ _ _ _ _ _ _ Hr) as [(-> & -> & Hne)|(frame & Hroot & Ht & Hu & Hf & [(Hres & -> & ->)|((e & E) & _)])];
      [| |done].
    + destruct outcome; [done|]. exists l, [], m. split; cbn [ls_file ls_log ls_recorded]; try done. by intros ? [= <-].
    + injection Hres as ->. exists (l ++ [r]), [], (<[or_id r := r]> m).
      split; cbn [ls_file ls_log ls_recorded]; [by apply log_file_whole | | by apply sublist_app | done | by intros ? [= <-]].
      apply history_snoc; [done | by apply built_ok | done | done].
  - destruct (record_effect _ _ _ _ _ _ _ Hr) as [(-> & _)|(frame & Hroot & Ht & Hu & Hf & [(Hres & _)|(_ & k & ->)])]; [| done |].
    + exists l, [], m. split; cbn [ls_file ls_log ls_recorded]; try done; rewrite take_ge by done; done.
    + rewrite take_appended by done. apply (append_ok s l m r); [done | by apply built_ok | done | done | done |].
      rewrite length_app, length_take in *. lia.
  - destruct (reclaim_effect _ _ _ _ _ _ _ Hr) as [[E _]|[(o & E & _)|(o & _ & -> & ->)]]; [done | done |].
    exists [], [], ∅. split; cbn [ls_file ls_log ls_recorded]; [apply log_file_nil | constructor | done | done | by intros ? [= <-]].
  - destruct (reclaim_effect _ _ _ _ _ _ _ Hr) as [[_ ->]|[(o & E & _)|(o & E & _)]]; [| done | done].
    exists l, [], m. split; cbn [ls_file ls_log ls_recorded]; done.
  - assert (Hcase : after = ls_file s ∨ after = []).
    { destruct (reclaim_effect _ _ _ _ _ _ _ Hr) as [[E _]|[(o & _ & Hf)|(o & E & _)]]; [done | set_solver | done]. }
    destruct Hcase as [->| ->]; [exists l, [], m | exists [], [], ∅]; split; cbn [ls_file ls_log ls_recorded]; try done;
      [apply sublist_nil_l | apply log_file_nil | constructor].
  - exists l, tail, m. split; cbn [ls_file ls_log ls_recorded]; done.
Qed.

Lemma reachable_system s : log_reachable s → ∃ l tail m, system_ok s l tail m.
Proof.
  intros Hr. apply (rtc_ind_r (λ s, ∃ l tail m, system_ok s l tail m)) in Hr; [done | |].
  - exists [], [], ∅. split; cbn; [apply log_file_nil | constructor | done | done | done].
  - intros x y _ Hxy (l & tail & m & Hx). by eapply step_ok.
Qed.

(** ** Theorems *)

(** A later version of a record: the same coverage, at least the revision. *)
Definition supersedes (new old : OutputRecoveryRecord) : Prop :=
  or_coverage new = or_coverage old ∧ or_revision old ≤ or_revision new.

Lemma transition_supersedes r r' : validate_transition (Some r) r' = Ok tt → supersedes r' r.
Proof.
  unfold validate_transition. destruct (_ || _) eqn:E; [done|]. intros _. rewrite !orb_false_iff, !negb_false_iff in E.
  destruct E as [[Hc%bool_decide_eq_true _] Hr%bool_decide_eq_true]. unfold checked_add in Hr. apply narrow_Some in Hr as [Hr _].
  split; [done | lia].
Qed.

Lemma history_keeps m l m' : history m l m' →
  ∀ r, (m !! or_id r = Some r ∨ r ∈ l) → ∃ r', m' !! or_id r = Some r' ∧ supersedes r' r.
Proof.
  induction 1 as [m|m x l m' Hx Ht Hu Hh IH]; intros r Hr.
  - destruct Hr as [Hr|Hr]; [|set_solver]. exists r. by repeat split.
  - assert (Hlater : ∀ y, <[or_id x := x]> m !! or_id r = Some y → or_id y = or_id r → supersedes y r →
      ∃ r', m' !! or_id r = Some r' ∧ supersedes r' r).
    { intros y Hy Hid Hs. rewrite <- Hid in Hy. destruct (IH y (or_introl Hy)) as (r' & Hr' & Hs'). exists r'.
      rewrite <- Hid. split; [done|]. destruct Hs as [Hs1 Hs2], Hs' as [Hs1' Hs2']. split; [congruence | lia]. }
    destruct Hr as [Hr|[->|Hr]%elem_of_cons].
    + destruct (decide (or_id x = or_id r)) as [E|E].
      * apply (Hlater x); [by rewrite E, lookup_insert_eq | done |]. apply transition_supersedes. by rewrite <- Hr, <- E.
      * apply (Hlater r); [by rewrite lookup_insert_ne | done | by repeat split].
    + apply (Hlater x); [by rewrite lookup_insert_eq | done | by repeat split].
    + apply IH. by right.
Qed.

(** C18: no recorded output is forgotten. In every state that opening, recording records as
    the code builds them, reclamations, torn or unsynchronized writes and crashes can
    reach, the log file consists of the frames of records that follow one another and
    perhaps the beginning of one more; opening it returns exactly these records, which
    are those of the log that is open, and among them, in the recorded or a later
    revision with the same coverage, every record acknowledged since the last
    reclamation. The exception is a log of more than 1,000,000 records, which [record]
    writes and which can then not be opened. *)
Theorem recorded_outputs_survive s :
  log_reachable s →
  ∃ m,
    (∀ r, r ∈ ls_recorded s → ∃ r', m !! or_id r = Some r' ∧ supersedes r' r) ∧
    (∀ log, ls_log s = Some log → ol_records log = m) ∧
    (recover_log (Some (ls_file s)) root OpenDone).1 =
      if Z.of_nat (size m) >? MAXIMUM_RECOVERY_RECORDS
      then Err (RecoveryCorrupt "output recovery record limit is exceeded")
      else Ok {| ol_root := root; ol_records := m; ol_attached := true |}.
Proof.
  intros (l & tail & m & [Hfile Hhist Hrec Hsize Hlog])%reachable_system. exists m. split; [|split].
  - intros r Hr. apply (history_keeps _ _ _ Hhist). right. by eapply elem_of_sublist.
  - intros log Hl. by destruct (Hlog _ Hl) as [_ ->].
  - unfold recover_log. cbn [default from_option id]. rewrite (scan_log_file _ l tail m) by done. by destruct (_ >? _).
Qed.

(** A record of the log covers spool data beyond a position. *)
Definition stale (m : gmap Z OutputRecoveryRecord) (bytes : Z) : Prop :=
  ∃ id r c, m !! id = Some r ∧ c ∈ or_coverage r ∧ bytes < range_end (bc_spool_range c).

Lemma points_beyond_stale m bytes :
  existsb (λ x, points_beyond bytes x.2) (map_to_list m) = true ↔ stale m bytes.
Proof.
  rewrite existsb_exists. unfold points_beyond, stale. split.
  - intros ([id r] & Hin & Hb). apply existsb_exists in Hb as (c & Hc & Hlt). rewrite Z.gtb_ltb, Z.ltb_lt in Hlt.
    apply list_elem_of_In, elem_of_map_to_list in Hin. apply list_elem_of_In in Hc. by exists id, r, c.
  - intros (id & r & c & Hr & Hc & Hlt). exists (id, r). split; [by apply list_elem_of_In, elem_of_map_to_list|].
    apply existsb_exists. exists c. split; [by apply list_elem_of_In|]. rewrite Z.gtb_ltb. by apply Z.ltb_lt.
Qed.

(** C19: the log is reclaimed exactly when all its records lie in the reclaimed part of the
    spool. Then the file is empty and no record is left. Otherwise the reclamation is a
    conflict that changes nothing, however its writes would end, and opening the log
    anew does not help: a crash after the spool was truncated and before the log was
    reclaimed leaves records of the old spool file, and every later reclamation of fewer
    bytes is refused, also after a restart. *)
Theorem log_reclaim_exact s log bytes :
  log_reachable s → ls_log s = Some log →
  (¬ stale (ol_records log) bytes →
     reclaim log (ls_file s) (Some bytes) ReplaceDone =
       (Ok (RecoveryReclaimed (size (ol_records log))), {| ol_root := root; ol_records := ∅; ol_attached := true |}, [])) ∧
  (stale (ol_records log) bytes → ∀ io,
     reclaim log (ls_file s) (Some bytes) io = (Err RecoveryConflict, log, ls_file s) ∧
     ∀ log' file', recover_log (Some (ls_file s)) root OpenDone = (Ok log', file') →
       reclaim log' file' (Some bytes) io = (Err RecoveryConflict, log', file')).
Proof.
  intros (l & tail & m & Hs)%reachable_system Hl. pose proof Hs as [_ _ _ _ Hlog]. destruct (Hlog _ Hl) as [-> ->].
  cbn [ol_records]. unfold reclaim, reclaim_log. split.
  - intros Hn. cbn [ol_records ol_root]. destruct (existsb _ _) eqn:E; [|done]. by apply points_beyond_stale in E.
  - intros Hst io. apply points_beyond_stale in Hst. cbn [ol_records]. rewrite Hst. split; [done|]. intros log' file' Hr.
    destruct (recover_effect s l [] m OpenDone _ _ Hs Hr) as [(e & E & _)|[E ->]]; [done|]. injection E as ->.
    cbn [ol_records]. by rewrite Hst.
Qed.

End Correct.

(** ** A sample log *)

#[local] Existing Instance sample_calendar.
#[local] Existing Instance sample_uuid_text.
#[local] Existing Instance sample_paths.

#[export] Instance DurableBatchCoverage_eq_dec : EqDecision DurableBatchCoverage.
Proof. solve_decision. Defined.
#[export] Instance DurableObjectDescriptor_eq_dec : EqDecision DurableObjectDescriptor.
Proof. solve_decision. Defined.
#[export] Instance DurableRecoveryOutput_eq_dec : EqDecision DurableRecoveryOutput.
Proof. solve_decision. Defined.
#[export] Instance DurableRecoveryRecord_eq_dec : EqDecision DurableRecoveryRecord.
Proof. solve_decision. Defined.

(** A serializer of one value. *)
Definition sample_serde (d : DurableRecoveryRecord) : SerdeJson := {|
  to_vec d' := if decide (d' = d) then Some (ascii_bytes "{}") else None;
  from_slice b := if decide (b = ascii_bytes "{}") then Some d else None;
|}.

Lemma sample_serde_laws d : @SerdeJsonLaws (sample_serde d).
Proof. intros d' b. unfold to_vec, from_slice, sample_serde. case_decide as E; [|done]. intros [= <-]. by rewrite E. Qed.

Definition sample_root : ManagedRoot := {| root_path := "elucid" |}.

(** The dead letters of a batch in the first 300 bytes of the spool. *)
Definition sample_record : OutputRecoveryRecord :=
  {| or_id := sample_uuid 20; or_revision := 1;
     or_output := DeadLetterOutput
       {| dd_input_id := sample_uuid 3; dd_batch_id := sample_uuid 1;
          dd_object := {| od_key := dead_letter_key sample_root (sample_uuid 1) (sample_uuid 21);
                          od_expected_byte_size := 10; od_digest := repeat "a"%char 32;
                          od_media_type := DeadLetterMedia; od_format_version := 1 |} |};
     or_coverage := [{| bc_batch_id := sample_uuid 1; bc_spool_range := {| range_start := 0; range_end := 300 |};
                        bc_positions := [0; 40] |}] |}.

Definition log_serde : SerdeJson := sample_serde (from_record sample_record).
#[local] Existing Instance log_serde.

Definition opened_log : OutputRecoveryLog := {| ol_root := sample_root; ol_records := ∅; ol_attached := true |}.

Definition sample_state : log_system :=
  {| ls_file := (record opened_log [] sample_record AppendDone).2; ls_log := Some (with_record opened_log sample_record);
     ls_recorded := [sample_record] |}.

Lemma recorded_log log file r log' file' :
  record log file r AppendDone = (Ok RecordRecorded, log', file') → log' = with_record log r.
Proof.
  unfold record. destruct (validate_record_root _ _); [|done]. case_bool_decide; [done|].
  destruct (prepare_frame _ _); [|done]. by intros [= <- <-].
Qed.

Lemma sample_v7 n : 0 ≤ n < 2 ^ 16 → UuidV7.new (sample_uuid n) = Some (sample_uuid n) → is_v7 (sample_uuid n).
Proof.
  intros Hn Hu. split; [|done]. unfold is_uuid, sample_uuid. rewrite !Z.shiftl_mul_pow2 by lia. lia.
Qed.

Lemma sample_record_built : built sample_record.
Proof.
  pose (d := match or_output sample_record with DeadLetterOutput d => d | _ =>
    {| dd_input_id := 0; dd_batch_id := 0; dd_object := output_object (or_output sample_record) |} end).
  pose (c := {| bc_batch_id := sample_uuid 1; bc_spool_range := {| range_start := 0; range_end := 300 |};
    bc_positions := [0; 40] |}).
  apply (built_dead_letter (sample_uuid 20) d c).
  - apply sample_v7; [lia | vm_compute; reflexivity].
  - split; [|split]; [apply sample_v7; [lia | vm_compute; reflexivity].. |]. split; [|done].
    apply sample_v7; [lia | vm_compute; reflexivity].
  - split; [apply sample_v7; [lia | vm_compute; reflexivity]|]. split; [cbn; lia | vm_compute; reflexivity].
  - reflexivity.
Qed.

Lemma sample_state_reachable : log_reachable sample_root sample_state.
Proof.
  apply (rtc_l _ _ {| ls_file := []; ls_log := Some opened_log; ls_recorded := [] |}).
  { apply (log_opens sample_root new_log OpenDone opened_log []); reflexivity. }
  apply rtc_once. unfold sample_state.
  assert (Hres : (record opened_log [] sample_record AppendDone).1.1 = Ok RecordRecorded) by (vm_compute; reflexivity).
  assert (Hlen : len (record opened_log [] sample_record AppendDone).2 ≤ int_max I64) by (vm_compute; intros [=]).
  destruct (record opened_log [] sample_record AppendDone) as [[res log] file] eqn:E. cbn [fst snd] in *. subst res.
  rewrite <- (recorded_log _ _ _ _ _ E).
  exact (log_records sample_root {| ls_file := []; ls_log := Some opened_log; ls_recorded := [] |} opened_log sample_record
    AppendDone RecordRecorded log file eq_refl sample_record_built Hlen E).
Qed.

Lemma recorded_outputs_survive_witness :
  ∃ m, (∀ r, r ∈ [sample_record] → ∃ r', m !! or_id r = Some r' ∧ supersedes r' r) ∧
    (recover_log (Some (ls_file sample_state)) sample_root OpenDone).1 =
      if Z.of_nat (size m) >? MAXIMUM_RECOVERY_RECORDS
      then Err (RecoveryCorrupt "output recovery record limit is exceeded")
      else Ok {| ol_root := sample_root; ol_records := m; ol_attached := true |}.
Proof.
  destruct (@recorded_outputs_survive sample_env sample_env_laws sample_calendar sample_calendar_laws sample_uuid_text
    sample_uuid_text_laws sample_paths log_serde (sample_serde_laws _) sample_root sample_state sample_state_reachable)
    as (m & H1 & _ & H2).
  exists m. split; [exact H1 | exact H2].
Defined.

(** The record of the sample covers 300 bytes, so the reclamation of 200 is refused. *)
Lemma log_reclaim_exact_witness :
  ∃ log, ls_log sample_state = Some log ∧
    ∀ io, reclaim log (ls_file sample_state) (Some 200) io = (Err RecoveryConflict, log, ls_file sample_state).
Proof.
  exists (with_record opened_log sample_record). split; [reflexivity|]. intros io.
  refine (proj1 (proj2 (@log_reclaim_exact sample_env sample_env_laws sample_calendar sample_calendar_laws sample_uuid_text
    sample_uuid_text_laws sample_paths log_serde (sample_serde_laws _) sample_root sample_state
    (with_record opened_log sample_record) 200 sample_state_reachable eq_refl) _ io)).
  exists (sample_uuid 20), sample_record, {| bc_batch_id := sample_uuid 1; bc_spool_range := {| range_start := 0; range_end := 300 |};
    bc_positions := [0; 40] |}.
  split; [reflexivity|]. split; [set_solver | cbn; lia].
Defined.
