(* ===== verification/Database.v ===== *)
(** * elucid-metastore: the control-plane tables

    The tables [compaction_runs], [segments] and [stored_objects] that the migrations of
    src/elucid/elucid-metastore create, with their CHECK, UNIQUE and FOREIGN KEY
    constraints, and the SQL statements the stores run on them: inserts, conditional
    updates and deletes with their affected-row counts, and ordered, limited selections
    that skip locked rows. The catalog tables are the schemas and inputs the foreign keys
    refer to. A transaction is a function of the committed tables: an error leaves them
    as they were, and the row locks of the code make each transaction one step. What a
    row lock of another transaction hides from [SKIP LOCKED] is an argument, and so is
    [CURRENT_TIMESTAMP]. *)

From S2P Require Import Prelude Core CatalogTypes CatalogModel Bytes Frame Storage.

#[local] Open Scope Z_scope.

(** ** PostgreSQL *)

(** [CURRENT_TIMESTAMP + make_interval(secs => n)]: [None] is a timestamp or interval out
    of range. *)
Class Postgres `{Calendar} := add_seconds : DateTime → Z → option DateTime.

(** A positive interval gives a later instant. *)
Class PostgresLaws `{Postgres} : Prop :=
  add_seconds_later now seconds later :
    0 < seconds → add_seconds now seconds = Some later → datetime_ltb now later = true.

(** sqlx's errors, as the code tells them apart: a row that does not decode, an error of
    the database with its SQLSTATE, or any other failure. *)
Inductive SqlError := Decode | DatabaseError (code : string) | Transport.

Definition check_violation : SqlError := DatabaseError "23514".
Definition foreign_key_violation : SqlError := DatabaseError "23503".
Definition unique_violation : SqlError := DatabaseError "23505".
Definition datetime_overflow : SqlError := DatabaseError "22008".

Notation sql := (result SqlError).

Definition is_row_decode_error (error : SqlError) : bool :=
  match error with Decode => true | _ => false end.

Definition is_database_conflict (error : SqlError) : bool :=
  match error with
  | DatabaseError code =>
      String.prefix "23" code || bool_decide (code ∈ ["22003"; "22008"; "22015"; "40001"; "40P01"]%string)
  | _ => false
  end.

Definition is_null {A} (o : option A) : bool := match o with None => true | Some _ => false end.

(** A condition on two columns holds in a CHECK unless it is false: NULL passes. *)
Definition check2 {A} (p : A → A → bool) (a b : option A) : bool :=
  match a, b with Some a, Some b => p a b | _, _ => true end.

Section Tables.
Context `{Calendar}.

Definition datetime_leb (a b : DateTime) : bool := negb (datetime_ltb b a).

(** ** Rows *)

Record RunRow := {
  rn_id : Z;
  rn_source_id : SourceId;
  rn_schema_id : SchemaId;
  rn_event_day : NaiveDate;
  rn_state : string;
  rn_failure_code : option string;
  rn_created_at : DateTime;
  rn_updated_at : DateTime;
  rn_completed_at : option DateTime;
}.

(** The columns of a segment that no statement updates. *)
Record SegmentColumns := {
  sc_segment_id : SegmentId;
  sc_source_id : SourceId;
  sc_schema_id : SchemaId;
  sc_origin : string;
  sc_produced_by : option Z;
  sc_times : SegmentTimes;
  sc_row_count : Z;
  sc_uncompressed_bytes : Z;
}.

Record SegmentRow := {
  sg_columns : SegmentColumns;
  sg_claimed_by : option Z;
  sg_data_expires_at : option DateTime;
  sg_state : string;
  sg_published_at : option DateTime;
  sg_retired_at : option DateTime;
  sg_reclaim_after : option DateTime;
  sg_created_at : DateTime;
  sg_updated_at : DateTime;
}.

(** The columns of an object that no statement updates. *)
Record ObjectColumns := {
  oc_object_id : StoredObjectId;
  oc_kind : string;
  oc_segment_id : option SegmentId;
  oc_input_id : option InputId;
  oc_batch_id : option Z;
  oc_object_key : string;
  oc_expected_byte_size : Z;
  oc_digest : bytes;
  oc_media_type : string;
  oc_format_version : Z;
}.

Record ObjectRow := {
  ob_columns : ObjectColumns;
  ob_state : string;
  ob_uploaded_at : option DateTime;
  ob_published_at : option DateTime;
  ob_retention_deadline : option DateTime;
  ob_delete_requested_at : option DateTime;
  ob_deleted_at : option DateTime;
  ob_last_error_code : option string;
  ob_created_at : DateTime;
  ob_updated_at : DateTime;
}.

#[export] Instance ObjectColumns_eq_dec : EqDecision ObjectColumns.
Proof. solve_decision. Defined.
#[export] Instance SegmentColumns_eq_dec : EqDecision SegmentColumns.
Proof. solve_decision. Defined.

Definition sg_id (r : SegmentRow) : SegmentId := sc_segment_id (sg_columns r).
Definition sg_event_day (r : SegmentRow) : NaiveDate := event_day (sc_times (sg_columns r)).
Definition sg_produced_by (r : SegmentRow) : option Z := sc_produced_by (sg_columns r).
Definition ob_id (r : ObjectRow) : StoredObjectId := oc_object_id (ob_columns r).
Definition ob_segment_id (r : ObjectRow) : option SegmentId := oc_segment_id (ob_columns r).
Definition ob_kind (r : ObjectRow) : string := oc_kind (ob_columns r).

(** The tables; the schemas are held decoded. *)
Record Database := {
  db_schemas : gmap (SourceId * SchemaId) Schema.Schema;
  db_inputs : gset Z;
  db_runs : gmap Z RunRow;
  db_segments : gmap Z SegmentRow;
  db_objects : gmap Z ObjectRow;
}.

Definition set_runs (db : Database) (t : gmap Z RunRow) : Database :=
  {| db_schemas := db_schemas db; db_inputs := db_inputs db; db_runs := t;
     db_segments := db_segments db; db_objects := db_objects db |}.
Definition set_segments (db : Database) (t : gmap Z SegmentRow) : Database :=
  {| db_schemas := db_schemas db; db_inputs := db_inputs db; db_runs := db_runs db;
     db_segments := t; db_objects := db_objects db |}.
Definition set_objects (db : Database) (t : gmap Z ObjectRow) : Database :=
  {| db_schemas := db_schemas db; db_inputs := db_inputs db; db_runs := db_runs db;
     db_segments := db_segments db; db_objects := t |}.

(** ** Constraints *)

Definition run_checks (r : RunRow) : bool :=
  let unfinished := bool_decide (rn_state r ∈ ["BUILDING"; "UPLOADING"]%string) in
  (* compaction_runs_state_check *)
  bool_decide (rn_state r ∈ ["BUILDING"; "UPLOADING"; "COMMITTED"; "FAILED"]%string) &&
  (* compaction_runs_failure_code_check *)
  match rn_failure_code r with
  | Some code => ((1 <=? String.length code) && (String.length code <=? 128))%nat | None => true
  end &&
  (* compaction_runs_lifecycle_check *)
  ((unfinished && is_null (rn_failure_code r) && is_null (rn_completed_at r))
   || (bool_decide (rn_state r = "COMMITTED"%string) && is_null (rn_failure_code r)
       && negb (is_null (rn_completed_at r)))
   || (bool_decide (rn_state r = "FAILED"%string) && negb (is_null (rn_failure_code r))
       && negb (is_null (rn_completed_at r)))) &&
  (* compaction_runs_timestamps_check *)
  datetime_leb (rn_created_at r) (rn_updated_at r) &&
  check2 datetime_leb (Some (rn_created_at r)) (rn_completed_at r).

Definition segment_lifecycle_check (r : SegmentRow) : bool :=
  let set {A} (o : option A) := negb (is_null o) in
  (bool_decide (sg_state r = "PREPARED"%string) && is_null (sg_published_at r)
   && is_null (sg_retired_at r) && is_null (sg_reclaim_after r))
  || (bool_decide (sg_state r = "ACTIVE"%string) && set (sg_data_expires_at r) && set (sg_published_at r)
      && is_null (sg_retired_at r) && is_null (sg_reclaim_after r))
  || (bool_decide (sg_state r = "SUPERSEDED"%string) && set (sg_data_expires_at r) && set (sg_published_at r)
      && set (sg_retired_at r) && set (sg_reclaim_after r) && set (sg_claimed_by r))
  || (bool_decide (sg_state r = "EXPIRED"%string) && set (sg_data_expires_at r) && set (sg_published_at r)
      && set (sg_retired_at r) && set (sg_reclaim_after r) && is_null (sg_claimed_by r))
  || (bool_decide (sg_state r = "ABANDONED"%string) && is_null (sg_published_at r)
      && set (sg_retired_at r) && set (sg_reclaim_after r) && is_null (sg_claimed_by r)).

Definition segment_timestamps_check (r : SegmentRow) : bool :=
  datetime_leb (sg_created_at r) (sg_updated_at r)
  && check2 datetime_leb (Some (sg_created_at r)) (sg_published_at r)
  && check2 datetime_leb (Some (default (sg_created_at r) (sg_published_at r))) (sg_retired_at r)
  && check2 datetime_leb (sg_retired_at r) (sg_reclaim_after r)
  && check2 datetime_leb (sg_published_at r) (sg_data_expires_at r).

Definition segment_checks (r : SegmentRow) : bool :=
  let c := sg_columns r in
  let t := sc_times c in
  (* segments_origin_check *)
  ((bool_decide (sc_origin c = "INGESTION"%string) && is_null (sc_produced_by c))
   || (bool_decide (sc_origin c = "COMPACTION"%string) && negb (is_null (sc_produced_by c)))) &&
  (* segments_state_check *)
  bool_decide (sg_state r ∈ ["PREPARED"; "ACTIVE"; "SUPERSEDED"; "EXPIRED"; "ABANDONED"]%string) &&
  (* segments_positive_counts_check *)
  (0 <? sc_row_count c) && (0 <? sc_uncompressed_bytes c) &&
  (* segments_ordered_bounds_check *)
  datetime_leb (minimum_event_time t) (maximum_event_time t)
  && datetime_leb (minimum_ingestion_time t) (maximum_ingestion_time t) &&
  (* segments_event_day_check *)
  bool_decide (date_naive (minimum_event_time t) = event_day t)
  && bool_decide (date_naive (maximum_event_time t) = event_day t) &&
  (* segments_claim_state_check *)
  (is_null (sg_claimed_by r) || bool_decide (sg_state r ∈ ["ACTIVE"; "SUPERSEDED"]%string)) &&
  segment_lifecycle_check r && segment_timestamps_check r.

(** A reference to a run must name one of the same source, schema and day. *)
Definition references_run (runs : gmap Z RunRow) (r : SegmentRow) (run : option Z) : bool :=
  match run with
  | None => true
  | Some id =>
      match runs !! id with
      | Some run => (rn_source_id run =? sc_source_id (sg_columns r))
                    && (rn_schema_id run =? sc_schema_id (sg_columns r))
                    && bool_decide (rn_event_day run = sg_event_day r)
      | None => false
      end
  end.

Definition segment_references (db : Database) (r : SegmentRow) : bool :=
  negb (is_null (db_schemas db !! (sc_source_id (sg_columns r), sc_schema_id (sg_columns r))))
  && references_run (db_runs db) r (sg_produced_by r)
  && references_run (db_runs db) r (sg_claimed_by r).

Definition object_owner_check (c : ObjectColumns) : bool :=
  (bool_decide (oc_kind c = "PARQUET_DATA"%string) && negb (is_null (oc_segment_id c))
   && is_null (oc_input_id c) && is_null (oc_batch_id c))
  || (bool_decide (oc_kind c = "DEAD_LETTER"%string) && is_null (oc_segment_id c)
      && negb (is_null (oc_input_id c)) && negb (is_null (oc_batch_id c))).

Definition object_lifecycle_check (r : ObjectRow) : bool :=
  let set {A} (o : option A) := negb (is_null o) in
  (bool_decide (ob_state r = "PLANNED"%string) && is_null (ob_uploaded_at r) && is_null (ob_published_at r)
   && is_null (ob_delete_requested_at r) && is_null (ob_deleted_at r))
  || (bool_decide (ob_state r = "UPLOADED"%string) && set (ob_uploaded_at r) && is_null (ob_published_at r)
      && is_null (ob_delete_requested_at r) && is_null (ob_deleted_at r))
  || (bool_decide (ob_state r = "PUBLISHED"%string) && set (ob_uploaded_at r) && set (ob_published_at r)
      && is_null (ob_delete_requested_at r) && is_null (ob_deleted_at r))
  || (bool_decide (ob_state r = "DELETE_PENDING"%string) && set (ob_delete_requested_at r)
      && is_null (ob_deleted_at r))
  || (bool_decide (ob_state r = "DELETED"%string) && set (ob_delete_requested_at r) && set (ob_deleted_at r)).

Definition object_timestamps_check (r : ObjectRow) : bool :=
  let requested_after := match ob_published_at r, ob_uploaded_at r with
                         | Some t, _ => t | None, Some t => t | None, None => ob_created_at r
                         end in
  datetime_leb (ob_created_at r) (ob_updated_at r)
  && check2 datetime_leb (Some (ob_created_at r)) (ob_uploaded_at r)
  && check2 datetime_leb (ob_uploaded_at r) (ob_published_at r)
  && check2 datetime_leb (Some requested_after) (ob_delete_requested_at r)
  && check2 datetime_leb (ob_delete_requested_at r) (ob_deleted_at r).

Definition object_checks (r : ObjectRow) : bool :=
  let c := ob_columns r in
  let between (lo hi : nat) (s : string) := ((lo <=? String.length s) && (String.length s <=? hi))%nat in
  (* stored_objects_owner_check, which implies stored_objects_kind_check *)
  object_owner_check c &&
  (* stored_objects_key_check *)
  between 1%nat 2048%nat (oc_object_key c) &&
  (* stored_objects_size_check *)
  (0 <=? oc_expected_byte_size c) &&
  (* stored_objects_digest_check *)
  (length (oc_digest c) =? 32)%nat &&
  (* stored_objects_media_type_check *)
  between 1%nat 255%nat (oc_media_type c) &&
  (* stored_objects_format_version_check *)
  (0 <? oc_format_version c) &&
  (* stored_objects_state_check *)
  bool_decide (ob_state r ∈ ["PLANNED"; "UPLOADED"; "PUBLISHED"; "DELETE_PENDING"; "DELETED"]%string) &&
  (* stored_objects_error_code_check *)
  match ob_last_error_code r with Some code => between 1%nat 128%nat code | None => true end &&
  (* stored_objects_retention_check *)
  eqb (negb (is_null (ob_retention_deadline r)))
    (bool_decide (oc_kind c = "DEAD_LETTER"%string) && negb (is_null (ob_published_at r))) &&
  object_lifecycle_check r && object_timestamps_check r.

Definition object_references (db : Database) (r : ObjectRow) : bool :=
  match ob_segment_id r with Some id => negb (is_null (db_segments db !! id)) | None => true end
  && match oc_input_id (ob_columns r) with Some id => bool_decide (id ∈ db_inputs db) | None => true end.

(** Equal columns in a unique index: NULLs are distinct. *)
Definition same_value (a b : option Z) : bool :=
  match a, b with Some a, Some b => a =? b | _, _ => false end.

(** The unique indexes of the objects, the primary key apart. *)
Definition objects_clash (a b : ObjectColumns) : bool :=
  bool_decide (oc_object_key a = oc_object_key b)
  || same_value (oc_segment_id a) (oc_segment_id b)
  || bool_decide (oc_kind a = "DEAD_LETTER"%string) && bool_decide (oc_kind b = "DEAD_LETTER"%string)
     && same_value (oc_input_id a) (oc_input_id b) && same_value (oc_batch_id a) (oc_batch_id b).

(** ** Statements *)

Definition rows {R} (t : gmap Z R) : list R := (map_to_list t).*2.

(** [UPDATE t SET .. WHERE p]: the rows where [p] holds, changed by [f], which is [None]
    when a timestamp overflows; the new rows must pass the constraints. *)
Definition update_rows {R} (passes : R → bool) (p : R → bool) (f : R → option R) (t : gmap Z R)
    : sql (gmap Z R * Z) :=
  let hits := filter (λ kv, p kv.2 = true) t in
  let updated := omap f hits in
  if negb (size updated =? size hits)%nat then Err datetime_overflow
  else if negb (forallb passes (rows updated)) then Err check_violation
  else Ok (updated ∪ t, Z.of_nat (size hits)).

Definition update_runs (db : Database) (p : RunRow → bool) (f : RunRow → option RunRow)
    : sql (Database * Z) :=
  x ← update_rows run_checks p f (db_runs db); Ok (set_runs db x.1, x.2).

Definition update_segments (db : Database) (p : SegmentRow → bool) (f : SegmentRow → option SegmentRow)
    : sql (Database * Z) :=
  x ← update_rows (λ r, segment_checks r && segment_references db r) p f (db_segments db);
  Ok (set_segments db x.1, x.2).

Definition update_objects (db : Database) (p : ObjectRow → bool) (f : ObjectRow → option ObjectRow)
    : sql (Database * Z) :=
  x ← update_rows object_checks p f (db_objects db); Ok (set_objects db x.1, x.2).

(** Checks of a row come before the unique indexes, and its references after them. *)
Definition insert_run (db : Database) (r : RunRow) : sql Database :=
  _ ← check (run_checks r) check_violation;
  _ ← check (is_null (db_runs db !! rn_id r)) unique_violation;
  _ ← check (negb (is_null (db_schemas db !! (rn_source_id r, rn_schema_id r)))) foreign_key_violation;
  Ok (set_runs db (<[rn_id r := r]> (db_runs db))).

Definition insert_segment (db : Database) (r : SegmentRow) : sql Database :=
  _ ← check (segment_checks r) check_violation;
  _ ← check (is_null (db_segments db !! sg_id r)) unique_violation;
  _ ← check (segment_references db r) foreign_key_violation;
  Ok (set_segments db (<[sg_id r := r]> (db_segments db))).

(** [INSERT .. ON CONFLICT DO NOTHING], with the number of rows inserted *)
Definition insert_segment_or_nothing (db : Database) (r : SegmentRow) : sql (Database * Z) :=
  _ ← check (segment_checks r) check_violation;
  if is_null (db_segments db !! sg_id r) then db' ← insert_segment db r; Ok (db', 1) else Ok (db, 0).

Definition object_unique (db : Database) (r : ObjectRow) : bool :=
  is_null (db_objects db !! ob_id r)
  && forallb (λ other, negb (objects_clash (ob_columns r) (ob_columns other))) (rows (db_objects db)).

Definition insert_object (db : Database) (r : ObjectRow) : sql Database :=
  _ ← check (object_checks r) check_violation;
  _ ← check (object_unique db r) unique_violation;
  _ ← check (object_references db r) foreign_key_violation;
  Ok (set_objects db (<[ob_id r := r]> (db_objects db))).

Definition insert_object_or_nothing (db : Database) (r : ObjectRow) : sql (Database * Z) :=
  _ ← check (object_checks r) check_violation;
  if object_unique db r then db' ← insert_object db r; Ok (db', 1) else Ok (db, 0).

(** [DELETE FROM t WHERE p]; rows that others refer to cannot be deleted. *)
Definition delete_rows {R} (p : R → bool) (t : gmap Z R) : gmap Z R * Z :=
  (filter (λ kv, p kv.2 = false) t, Z.of_nat (size (filter (λ kv, p kv.2 = true) t))).

Definition delete_objects (db : Database) (p : ObjectRow → bool) : Database * Z :=
  let x := delete_rows p (db_objects db) in (set_objects db x.1, x.2).

Definition delete_segments (db : Database) (p : SegmentRow → bool) : sql (Database * Z) :=
  let x := delete_rows p (db_segments db) in
  let db' := set_segments db x.1 in
  _ ← check (forallb (object_references db') (rows (db_objects db))) foreign_key_violation;
  Ok (db', x.2).

Definition delete_runs (db : Database) (p : RunRow → bool) : sql (Database * Z) :=
  let x := delete_rows p (db_runs db) in
  let db' := set_runs db x.1 in
  _ ← check (forallb (segment_references db') (rows (db_segments db))) foreign_key_violation;
  Ok (db', x.2).

(** The lexicographic order of two sort keys. *)
Definition time_key_le (a b : DateTime * Z) : Prop :=
  datetime_ltb a.1 b.1 = true ∨ (a.1 = b.1 ∧ a.2 ≤ b.2).

#[export] Instance time_key_le_dec a b : Decision (time_key_le a b).
Proof. unfold time_key_le. apply _. Defined.

Definition row_order {R} (key : R → DateTime * Z) (a b : R) : Prop := time_key_le (key a) (key b).

#[export] Instance row_order_dec {R} (key : R → DateTime * Z) a b : Decision (row_order key a b).
Proof. unfold row_order. apply _. Defined.

(** [SELECT .. WHERE p ORDER BY key LIMIT n FOR UPDATE SKIP LOCKED] *)
Definition select_limited {R} (p : R → bool) (key : R → DateTime * Z) (limit : Z) (locked : R → bool)
    (t : gmap Z R) : list R :=
  take (Z.to_nat limit)
    (filter (λ r, locked r = false) (merge_sort (row_order key) (filter (λ r, p r = true) (rows t)))).

(** [SELECT .. WHERE p ORDER BY id] *)
Definition id_order {R} (id : R → Z) (a b : R) : Prop := id a ≤ id b.

#[export] Instance id_order_dec {R} (id : R → Z) a b : Decision (id_order id a b).
Proof. unfold id_order. apply _. Defined.

Definition select_by_id {R} (p : R → bool) (id : R → Z) (t : gmap Z R) : list R :=
  merge_sort (id_order id) (filter (λ r, p r = true) (rows t)).

End Tables.
