(* ===== verification/Publication.v ===== *)
(** * elucid-metastore: registration and publication of outputs

    Models src/elucid/elucid-metastore/src/publication.rs and the errors of error.rs: the
    transactions that register an output, record its verified upload, publish it, resolve
    its state, abandon it, and abandon the outputs that no recovered metadata refers to. *)

From S2P Require Import Prelude Core CatalogTypes CatalogModel Bytes Frame Storage Database.

#[local] Open Scope string_scope.
#[local] Open Scope Z_scope.

(** ** Errors (error.rs) *)

Inductive PublicationErrorKind := PublicationConflict | PublicationUnavailable | PublicationCorrupt.

Inductive PublicationModelError :=
| RowCountOutOfRange | UncompressedByteCountOutOfRange | ObjectByteSizeOutOfRange
| ObjectFormatVersionOutOfRange | RetentionPeriodMustBePositive | RetentionPeriodOutOfRange
| OrphanGracePeriodMustBePositive | OrphanGracePeriodOutOfRange
| ReconciliationLimitOutOfRange (maximum : Z).

Inductive PublicationErrorSource :=
| PublicationModel (e : PublicationModelError) | PublicationDatabase (e : SqlError)
| PublicationInvariant (message : string).

Record PublicationError := { pe_kind : PublicationErrorKind; pe_source : PublicationErrorSource }.

Definition from_model (source : PublicationModelError) : PublicationError :=
  {| pe_kind := PublicationConflict; pe_source := PublicationModel source |}.
Definition publication_write (source : SqlError) : PublicationError :=
  {| pe_kind := if is_database_conflict source then PublicationConflict else PublicationUnavailable;
     pe_source := PublicationDatabase source |}.
Definition conflict (message : string) : PublicationError :=
  {| pe_kind := PublicationConflict; pe_source := PublicationInvariant message |}.
Definition corrupt (message : string) : PublicationError :=
  {| pe_kind := PublicationCorrupt; pe_source := PublicationInvariant message |}.

Notation publication := (result PublicationError).

(** ** Values *)

Definition RetentionPeriod_new (seconds : Z) : result PublicationModelError Z :=
  if seconds =? 0 then Err RetentionPeriodMustBePositive
  else ok_or (narrow I64 seconds) RetentionPeriodOutOfRange.

Definition OrphanGracePeriod_new (seconds : Z) : result PublicationModelError Z :=
  if seconds =? 0 then Err OrphanGracePeriodMustBePositive
  else ok_or (narrow I64 seconds) OrphanGracePeriodOutOfRange.

Definition MAXIMUM_RECONCILIATION_ITEMS : Z := 10000.
Definition MAXIMUM_RECONCILIATION_REFERENCES : Z := 1000000.

Definition ReconciliationLimit_new (items : Z) : result PublicationModelError Z :=
  if (items =? 0) || (items >? MAXIMUM_RECONCILIATION_ITEMS)
  then Err (ReconciliationLimitOutOfRange MAXIMUM_RECONCILIATION_ITEMS)
  else ok_or (narrow I64 items) (ReconciliationLimitOutOfRange MAXIMUM_RECONCILIATION_ITEMS).

Inductive RegistrationOutcome := Registered | AlreadyRegistered.
Inductive ObjectUploadRecordOutcome := Recorded | AlreadyRecorded.
Inductive PublicationOutcome := Published | AlreadyPublished.
Inductive ObjectPublicationState :=
| OutputUnregistered | OutputPlanned | OutputUploaded | OutputPublished | OutputAbandoned.
Inductive AbandonmentOutcome := OutputWasAbandoned | AlreadyAbandoned.

Record UnreferencedOutputReconciliation := {
  abandoned_segments : list SegmentId;
  scheduled_dead_letters : list StoredObjectId;
}.

Inductive SegmentState := SPrepared | SActive | SSuperseded | SExpired | SAbandoned.

Definition SegmentState_from_database (value : string) : publication SegmentState :=
  if decide (value = "PREPARED") then Ok SPrepared
  else if decide (value = "ACTIVE") then Ok SActive
  else if decide (value = "SUPERSEDED") then Ok SSuperseded
  else if decide (value = "EXPIRED") then Ok SExpired
  else if decide (value = "ABANDONED") then Ok SAbandoned
  else Err (corrupt "stored segment has an unknown lifecycle state").

Inductive StoredObjectState := OPlanned | OUploaded | OPublished | ODeletePending | ODeleted.

Definition StoredObjectState_as_str (state : StoredObjectState) : string :=
  match state with
  | OPlanned => "PLANNED"
  | OUploaded => "UPLOADED"
  | OPublished => "PUBLISHED"
  | ODeletePending => "DELETE_PENDING"
  | ODeleted => "DELETED"
  end.

Definition StoredObjectState_from_database (value : string) : publication StoredObjectState :=
  if decide (value = "PLANNED") then Ok OPlanned
  else if decide (value = "UPLOADED") then Ok OUploaded
  else if decide (value = "PUBLISHED") then Ok OPublished
  else if decide (value = "DELETE_PENDING") then Ok ODeletePending
  else if decide (value = "DELETED") then Ok ODeleted
  else Err (corrupt "stored object has an unknown lifecycle state").

Inductive ObjectDatabaseOwner :=
| OwnerSegment (segment_id : SegmentId) | OwnerDeadLetter (input_id : InputId) (batch_id : Z).

Section Publication.
Context `{Postgres}.

Definition segment_state (r : SegmentRow) : publication SegmentState := SegmentState_from_database (sg_state r).
Definition object_state (r : ObjectRow) : publication StoredObjectState := StoredObjectState_from_database (ob_state r).

(** ** Database ranges *)

Definition database_object_byte_size (d : ObjectDescriptor) : result PublicationModelError Z :=
  ok_or (narrow I64 (od_expected_byte_size d)) ObjectByteSizeOutOfRange.
Definition database_object_format_version (d : ObjectDescriptor) : result PublicationModelError Z :=
  ok_or (narrow I64 (od_format_version d)) ObjectFormatVersionOutOfRange.
Definition database_row_count (value : Z) : result PublicationModelError Z :=
  ok_or (narrow I64 value) RowCountOutOfRange.
Definition database_uncompressed_bytes (value : Z) : result PublicationModelError Z :=
  ok_or (narrow I64 value) UncompressedByteCountOutOfRange.

Definition validate_object_database_values (d : ObjectDescriptor) : result PublicationModelError unit :=
  _ ← database_object_byte_size d; _ ← database_object_format_version d; Ok tt.

Definition validate_segment_database_values (d : SegmentDescriptor) : result PublicationModelError unit :=
  _ ← database_row_count (sd_row_count d);
  _ ← database_uncompressed_bytes (sd_uncompressed_bytes d);
  validate_object_database_values (sd_object d).

(** ** Rows *)

Definition require_one_row (affected : Z) (message : string) : publication unit :=
  if affected =? 1 then Ok tt else Err (corrupt message).

(** The kind and owner columns of an object. *)
Definition owner_columns (owner : ObjectDatabaseOwner)
    : string * option SegmentId * option InputId * option Z :=
  match owner with
  | OwnerSegment segment_id => ("PARQUET_DATA", Some segment_id, None, None)
  | OwnerDeadLetter input_id batch_id => ("DEAD_LETTER", None, Some input_id, Some batch_id)
  end.

Definition object_columns (d : ObjectDescriptor) (owner : ObjectDatabaseOwner) (byte_size format_version : Z)
    : ObjectColumns :=
  let '(kind, segment_id, input_id, batch_id) := owner_columns owner in
  {| oc_object_id := k_object_id (od_key d); oc_kind := kind; oc_segment_id := segment_id;
     oc_input_id := input_id; oc_batch_id := batch_id; oc_object_key := k_path (od_key d);
     oc_expected_byte_size := byte_size; oc_digest := od_digest d;
     oc_media_type := media_type_as_str (od_media_type d); oc_format_version := format_version |}.

Definition planned_object (now : DateTime) (columns : ObjectColumns) : ObjectRow :=
  {| ob_columns := columns; ob_state := "PLANNED"; ob_uploaded_at := None; ob_published_at := None;
     ob_retention_deadline := None; ob_delete_requested_at := None; ob_deleted_at := None;
     ob_last_error_code := None; ob_created_at := now; ob_updated_at := now |}.

Definition insert_planned_object (now : DateTime) (db : Database) (d : ObjectDescriptor)
    (owner : ObjectDatabaseOwner) : publication (Database * Z) :=
  expected_byte_size ← map_err from_model (database_object_byte_size d);
  format_version ← map_err from_model (database_object_format_version d);
  map_err publication_write
    (insert_object_or_nothing db (planned_object now (object_columns d owner expected_byte_size format_version))).

(** [LOAD_SEGMENT_OBJECT_FOR_UPDATE] *)
Definition load_segment_object (db : Database) (segment_id : SegmentId) : option ObjectRow :=
  find (λ r, bool_decide (ob_segment_id r = Some segment_id)) (rows (db_objects db)).

Definition segment_matches_registration (row : SegmentRow) (registration : SegmentDescriptor) : publication bool :=
  let c := sg_columns row in
  let t := sc_times c in
  let d := sd_times registration in
  _ ← segment_state row;
  if (sc_segment_id c =? sd_segment_id registration)
     && (sc_source_id c =? sd_source_id registration)
     && (sc_schema_id c =? sd_schema_id registration)
     && bool_decide (sc_origin c = "INGESTION")
     && bool_decide (event_day t = event_day d)
     && bool_decide (minimum_event_time t = minimum_event_time d)
     && bool_decide (maximum_event_time t = maximum_event_time d)
     && bool_decide (minimum_ingestion_time t = minimum_ingestion_time d)
     && bool_decide (maximum_ingestion_time t = maximum_ingestion_time d)
  then
    row_count ← map_err from_model (database_row_count (sd_row_count registration));
    if sc_row_count c =? row_count then
      uncompressed ← map_err from_model (database_uncompressed_bytes (sd_uncompressed_bytes registration));
      Ok (sc_uncompressed_bytes c =? uncompressed)
    else Ok false
  else Ok false.

Definition object_matches_descriptor (row : ObjectRow) (d : ObjectDescriptor) (owner : ObjectDatabaseOwner)
    : publication bool :=
  let c := ob_columns row in
  _ ← object_state row;
  expected_byte_size ← map_err from_model (database_object_byte_size d);
  format_version ← map_err from_model (database_object_format_version d);
  let '(kind, segment_id, input_id, batch_id) := owner_columns owner in
  Ok ((oc_object_id c =? k_object_id (od_key d))
      && bool_decide (oc_kind c = kind)
      && bool_decide (oc_segment_id c = segment_id)
      && bool_decide (oc_input_id c = input_id)
      && bool_decide (oc_batch_id c = batch_id)
      && bool_decide (oc_object_key c = k_path (od_key d))
      && (oc_expected_byte_size c =? expected_byte_size)
      && bool_decide (oc_digest c = od_digest d)
      && bool_decide (oc_media_type c = media_type_as_str (od_media_type d))
      && (oc_format_version c =? format_version)).

Definition object_matches_descriptor_owner_from_key (row : ObjectRow) (d : ObjectDescriptor) : publication bool :=
  match k_owner (od_key d) with
  | SegmentOwner segment_id => object_matches_descriptor row d (OwnerSegment segment_id)
  | DeadLetterBatch batch_id =>
      match oc_input_id (ob_columns row) with
      | None => Ok false
      | Some input_id =>
          input_id ← ok_or (UuidV7.new input_id) (corrupt "stored dead-letter input identity is invalid");
          object_matches_descriptor row d (OwnerDeadLetter input_id batch_id)
      end
  end.

Definition publication_times_match (segment : SegmentRow) (object : ObjectRow) : bool :=
  negb (is_null (sg_published_at segment)) && bool_decide (sg_published_at segment = ob_published_at object).

Definition validate_registered_ingestion_states (segment : SegmentRow) (object : ObjectRow) : publication unit :=
  s ← segment_state segment;
  o ← object_state object;
  let inconsistent := Err (corrupt "registered segment and object lifecycle states are inconsistent") in
  match s, o with
  | SPrepared, (OPlanned | OUploaded) => Ok tt
  | SActive, OPublished => if publication_times_match segment object then Ok tt else inconsistent
  | (SSuperseded | SExpired), (OPublished | ODeletePending | ODeleted) =>
      if publication_times_match segment object then Ok tt else inconsistent
  | SAbandoned, _ => Err (conflict "abandoned segment registration cannot be resumed")
  | _, _ => inconsistent
  end.

Definition resolved_ingestion_state (segment : SegmentRow) (object : ObjectRow)
    : publication ObjectPublicationState :=
  s ← segment_state segment;
  o ← object_state object;
  let inconsistent := Err (corrupt "ingestion segment and object lifecycle states are inconsistent") in
  match s, o with
  | SPrepared, OPlanned => Ok OutputPlanned
  | SPrepared, OUploaded => Ok OutputUploaded
  | SActive, OPublished => if publication_times_match segment object then Ok OutputPublished else inconsistent
  | (SSuperseded | SExpired), (OPublished | ODeletePending | ODeleted) =>
      if publication_times_match segment object then Ok OutputPublished else inconsistent
  | SAbandoned, (OPlanned | OUploaded | ODeletePending | ODeleted) =>
      if is_null (sg_published_at segment) && is_null (ob_published_at object)
      then Ok OutputAbandoned else inconsistent
  | _, _ => inconsistent
  end.

Definition resolved_dead_letter_state (object : ObjectRow) : publication ObjectPublicationState :=
  o ← object_state object;
  Ok (match o with
      | OPlanned => OutputPlanned
      | OUploaded => OutputUploaded
      | OPublished => OutputPublished
      | ODeletePending | ODeleted =>
          if is_null (ob_published_at object) then OutputAbandoned else OutputPublished
      end).

Definition validate_ingestion_object_owner (object : ObjectRow) (segment_id : SegmentId) : publication unit :=
  let c := ob_columns object in
  if bool_decide (oc_kind c = "PARQUET_DATA") && bool_decide (oc_segment_id c = Some segment_id)
     && is_null (oc_input_id c) && is_null (oc_batch_id c)
  then Ok tt else Err (corrupt "ingestion segment is linked to an invalid stored object").

Definition validate_dead_letter_owner (object : ObjectRow) : publication unit :=
  let c := ob_columns object in
  if bool_decide (oc_kind c = "DEAD_LETTER") && is_null (oc_segment_id c)
     && negb (is_null (oc_input_id c)) && negb (is_null (oc_batch_id c))
  then Ok tt else Err (conflict "stored object is not a dead-letter object").

(** ** The updates *)

Definition advance_object (r : ObjectRow) (state : string) (now : DateTime)
    (uploaded_at published_at retention_deadline delete_requested_at : option DateTime) : ObjectRow :=
  {| ob_columns := ob_columns r; ob_state := state; ob_uploaded_at := uploaded_at;
     ob_published_at := published_at; ob_retention_deadline := retention_deadline;
     ob_delete_requested_at := delete_requested_at; ob_deleted_at := ob_deleted_at r;
     ob_last_error_code := ob_last_error_code r; ob_created_at := ob_created_at r; ob_updated_at := now |}.

(** [SET state = 'UPLOADED', uploaded_at = now] *)
Definition mark_uploaded (now : DateTime) (r : ObjectRow) : ObjectRow :=
  advance_object r "UPLOADED" now (Some now) (ob_published_at r) (ob_retention_deadline r)
    (ob_delete_requested_at r).

(** [SET state = 'PUBLISHED', published_at = now] *)
Definition mark_published (now : DateTime) (r : ObjectRow) : ObjectRow :=
  advance_object r "PUBLISHED" now (ob_uploaded_at r) (Some now) (ob_retention_deadline r)
    (ob_delete_requested_at r).

(** [SET state = 'PUBLISHED', published_at = now, retention_deadline = now + retention] *)
Definition mark_dead_letter_published (now : DateTime) (retention : Z) (r : ObjectRow) : option ObjectRow :=
  deadline ← add_seconds now retention;
  Some (advance_object r "PUBLISHED" now (ob_uploaded_at r) (Some now) (Some deadline)
          (ob_delete_requested_at r)).

(** [SET state = 'DELETE_PENDING', delete_requested_at = now] *)
Definition request_deletion (now : DateTime) (r : ObjectRow) : ObjectRow :=
  advance_object r "DELETE_PENDING" now (ob_uploaded_at r) (ob_published_at r) (ob_retention_deadline r)
    (Some now).

Definition advance_segment (r : SegmentRow) (claimed_by : option Z) (state : string) (now : DateTime)
    (data_expires_at published_at retired_at reclaim_after : option DateTime) : SegmentRow :=
  {| sg_columns := sg_columns r; sg_claimed_by := claimed_by; sg_data_expires_at := data_expires_at;
     sg_state := state; sg_published_at := published_at; sg_retired_at := retired_at;
     sg_reclaim_after := reclaim_after; sg_created_at := sg_created_at r; sg_updated_at := now |}.

(** [SET state = 'ACTIVE', published_at = now, data_expires_at = now + retention] *)
Definition activate_segment (now : DateTime) (retention : Z) (r : SegmentRow) : option SegmentRow :=
  deadline ← add_seconds now retention;
  Some (advance_segment r (sg_claimed_by r) "ACTIVE" now (Some deadline) (Some now) (sg_retired_at r)
          (sg_reclaim_after r)).

(** [SET state = s, retired_at = now, reclaim_after = now + grace] *)
Definition retire_segment (state : string) (now : DateTime) (grace : Z) (r : SegmentRow) : option SegmentRow :=
  deadline ← add_seconds now grace;
  Some (advance_segment r (sg_claimed_by r) state now (sg_data_expires_at r) (sg_published_at r) (Some now)
          (Some deadline)).

Definition prepared_ingestion (r : SegmentRow) : bool :=
  bool_decide (sc_origin (sg_columns r) = "INGESTION") && bool_decide (sg_state r = "PREPARED").

Definition prepared_segment (now : DateTime) (columns : SegmentColumns) (data_expires_at : option DateTime)
    : SegmentRow :=
  {| sg_columns := columns; sg_claimed_by := None; sg_data_expires_at := data_expires_at;
     sg_state := "PREPARED"; sg_published_at := None; sg_retired_at := None; sg_reclaim_after := None;
     sg_created_at := now; sg_updated_at := now |}.

(** ** Transactions *)

Definition segment_conflict : string := "segment identity or immutable object metadata conflicts".

Definition register_ingestion_segment (now : DateTime) (registration : SegmentDescriptor) (db : Database)
    : publication (Database * RegistrationOutcome) :=
  _ ← map_err from_model (validate_segment_database_values registration);
  row_count ← map_err from_model (database_row_count (sd_row_count registration));
  uncompressed ← map_err from_model (database_uncompressed_bytes (sd_uncompressed_bytes registration));
  let columns :=
    {| sc_segment_id := sd_segment_id registration; sc_source_id := sd_source_id registration;
       sc_schema_id := sd_schema_id registration; sc_origin := "INGESTION"; sc_produced_by := None;
       sc_times := sd_times registration; sc_row_count := row_count;
       sc_uncompressed_bytes := uncompressed |} in
  inserted ← map_err publication_write (insert_segment_or_nothing db (prepared_segment now columns None));
  let '(db, segment_inserted) := inserted in
  let owner := OwnerSegment (sd_segment_id registration) in
  inserted ← insert_planned_object now db (sd_object registration) owner;
  let '(db, object_inserted) := inserted in
  if (segment_inserted =? 1) && (object_inserted =? 1) then Ok (db, Registered)
  else if (segment_inserted =? 0) && (object_inserted =? 0) then
    segment ← ok_or (db_segments db !! sd_segment_id registration) (conflict segment_conflict);
    object ← ok_or (db_objects db !! k_object_id (od_key (sd_object registration))) (conflict segment_conflict);
    segment_matches ← segment_matches_registration segment registration;
    matches ← (if segment_matches : bool then object_matches_descriptor object (sd_object registration) owner
               else Ok false);
    _ ← check matches (conflict segment_conflict);
    _ ← validate_registered_ingestion_states segment object;
    Ok (db, AlreadyRegistered)
  else if ((segment_inserted =? 0) || (segment_inserted =? 1))
       && ((object_inserted =? 0) || (object_inserted =? 1)) then
    Err (conflict "segment and object registration did not resolve atomically")
  else Err (corrupt "segment registration affected an impossible number of rows").

Definition dead_letter_conflict : string :=
  "dead-letter identity, owner, or immutable object metadata conflicts".

Definition register_dead_letter (now : DateTime) (registration : DeadLetterDescriptor) (db : Database)
    : publication (Database * RegistrationOutcome) :=
  _ ← map_err from_model (validate_object_database_values (dd_object registration));
  let owner := OwnerDeadLetter (dd_input_id registration) (dd_batch_id registration) in
  inserted ← insert_planned_object now db (dd_object registration) owner;
  let '(db, inserted) := inserted in
  if inserted =? 1 then Ok (db, Registered)
  else if inserted =? 0 then
    object ← ok_or (db_objects db !! k_object_id (od_key (dd_object registration))) (conflict dead_letter_conflict);
    matches ← object_matches_descriptor object (dd_object registration) owner;
    _ ← check matches (conflict dead_letter_conflict);
    _ ← object_state object;
    Ok (db, AlreadyRegistered)
  else Err (corrupt "dead-letter registration affected an impossible number of rows").

Definition record_verified_upload (now : DateTime) (d : ObjectDescriptor) (db : Database)
    : publication (Database * ObjectUploadRecordOutcome) :=
  _ ← map_err from_model (validate_object_database_values d);
  object ← ok_or (db_objects db !! k_object_id (od_key d)) (conflict "verified object is not registered");
  matches ← object_matches_descriptor_owner_from_key object d;
  _ ← check matches (conflict "verified object does not match its registered immutable metadata");
  state ← object_state object;
  match state with
  | OPlanned =>
      updated ← map_err publication_write
        (update_objects db (λ r, (ob_id r =? ob_id object) && bool_decide (ob_state r = "PLANNED"))
           (λ r, Some (mark_uploaded now r)));
      let '(db, affected) := updated in
      _ ← require_one_row affected "locked planned object did not advance to uploaded";
      Ok (db, Recorded)
  | OUploaded | OPublished => Ok (db, AlreadyRecorded)
  | ODeletePending | ODeleted =>
      Err (conflict "object deletion has already advanced beyond upload recording")
  end.

Definition publish_ingestion_segment (now : DateTime) (segment_id : SegmentId) (retention : Z) (db : Database)
    : publication (Database * PublicationOutcome) :=
  segment ← ok_or (db_segments db !! segment_id) (conflict "ingestion segment is not registered");
  object ← ok_or (load_segment_object db segment_id)
             (corrupt "registered ingestion segment has no Parquet object");
  _ ← check (bool_decide (sc_origin (sg_columns segment) = "INGESTION"))
        (conflict "compaction segment cannot use ingestion publication");
  _ ← validate_ingestion_object_owner object segment_id;
  s ← segment_state segment;
  o ← object_state object;
  let inconsistent := Err (corrupt "segment and Parquet object lifecycle states are inconsistent") in
  match s, o with
  | SPrepared, OUploaded =>
      updated ← map_err publication_write
        (update_objects db (λ r, (ob_id r =? ob_id object) && bool_decide (ob_state r = "UPLOADED"))
           (λ r, Some (mark_published now r)));
      let '(db, affected) := updated in
      _ ← require_one_row affected "locked uploaded Parquet object did not advance to published";
      updated ← map_err publication_write
        (update_segments db (λ r, (sg_id r =? segment_id) && prepared_ingestion r)
           (activate_segment now retention));
      let '(db, affected) := updated in
      _ ← require_one_row affected "locked prepared ingestion segment did not advance to active";
      Ok (db, Published)
  | SActive, OPublished =>
      if publication_times_match segment object then Ok (db, AlreadyPublished) else inconsistent
  | (SSuperseded | SExpired), (OPublished | ODeletePending | ODeleted) =>
      if publication_times_match segment object then Ok (db, AlreadyPublished) else inconsistent
  | SPrepared, OPlanned => Err (conflict "Parquet object must be verified before segment publication")
  | SAbandoned, _ => Err (conflict "abandoned segment cannot be published")
  | _, _ => inconsistent
  end.

Definition publish_dead_letter (now : DateTime) (object_id : StoredObjectId) (retention : Z) (db : Database)
    : publication (Database * PublicationOutcome) :=
  object ← ok_or (db_objects db !! object_id) (conflict "dead-letter object is not registered");
  _ ← validate_dead_letter_owner object;
  state ← object_state object;
  match state with
  | OUploaded =>
      updated ← map_err publication_write
        (update_objects db
           (λ r, (ob_id r =? object_id) && bool_decide (ob_kind r = "DEAD_LETTER")
                 && bool_decide (ob_state r = "UPLOADED"))
           (mark_dead_letter_published now retention));
      let '(db, affected) := updated in
      _ ← require_one_row affected "locked uploaded dead-letter object did not advance to published";
      Ok (db, Published)
  | OPublished => Ok (db, AlreadyPublished)
  | OPlanned => Err (conflict "dead-letter object must be verified before publication")
  | ODeletePending | ODeleted =>
      if is_null (ob_published_at object)
      then Err (conflict "unpublished dead-letter object is already being deleted")
      else Ok (db, AlreadyPublished)
  end.

Definition ingestion_output_state (registration : SegmentDescriptor) (db : Database)
    : publication ObjectPublicationState :=
  _ ← map_err from_model (validate_segment_database_values registration);
  match db_segments db !! sd_segment_id registration,
        db_objects db !! k_object_id (od_key (sd_object registration)) with
  | None, None => Ok OutputUnregistered
  | Some segment, Some object =>
      segment_matches ← segment_matches_registration segment registration;
      matches ← (if segment_matches : bool then
                   object_matches_descriptor object (sd_object registration)
                     (OwnerSegment (sd_segment_id registration))
                 else Ok false);
      _ ← check matches (conflict "retained ingestion output metadata conflicts with PostgreSQL");
      resolved_ingestion_state segment object
  | _, _ => Err (corrupt "retained ingestion segment and object are only partially registered")
  end.

Definition dead_letter_output_state (registration : DeadLetterDescriptor) (db : Database)
    : publication ObjectPublicationState :=
  _ ← map_err from_model (validate_object_database_values (dd_object registration));
  match db_objects db !! k_object_id (od_key (dd_object registration)) with
  | None => Ok OutputUnregistered
  | Some object =>
      matches ← object_matches_descriptor object (dd_object registration)
                  (OwnerDeadLetter (dd_input_id registration) (dd_batch_id registration));
      _ ← check matches (conflict "retained dead-letter metadata conflicts with PostgreSQL");
      resolved_dead_letter_state object
  end.

Definition abandon_ingestion_output (now : DateTime) (registration : SegmentDescriptor) (grace : Z) (db : Database)
    : publication (Database * AbandonmentOutcome) :=
  _ ← map_err from_model (validate_segment_database_values registration);
  segment ← ok_or (db_segments db !! sd_segment_id registration) (conflict "ingestion output is not registered");
  object ← ok_or (db_objects db !! k_object_id (od_key (sd_object registration)))
             (corrupt "ingestion output object is missing");
  segment_matches ← segment_matches_registration segment registration;
  matches ← (if segment_matches : bool then
               object_matches_descriptor object (sd_object registration)
                 (OwnerSegment (sd_segment_id registration))
             else Ok false);
  _ ← check matches (conflict "ingestion output metadata conflicts with abandonment request");
  state ← resolved_ingestion_state segment object;
  match state with
  | OutputPlanned | OutputUploaded =>
      updated ← map_err publication_write
        (update_segments db (λ r, (sg_id r =? sd_segment_id registration) && prepared_ingestion r)
           (retire_segment "ABANDONED" now grace));
      let '(db, affected) := updated in
      _ ← require_one_row affected "locked prepared ingestion segment was not abandoned";
      Ok (db, OutputWasAbandoned)
  | OutputAbandoned => Ok (db, AlreadyAbandoned)
  | OutputPublished => Err (conflict "published ingestion output cannot be abandoned")
  | OutputUnregistered => Err (corrupt "locked ingestion output unexpectedly became unregistered")
  end.

Definition unpublished_dead_letter (r : ObjectRow) : bool :=
  bool_decide (ob_kind r = "DEAD_LETTER") && bool_decide (ob_state r ∈ ["PLANNED"; "UPLOADED"]).

(** [segments_locked] and [objects_locked] are the rows other transactions hold. *)
Definition reconcile_unreferenced_outputs (now : DateTime) (segments_locked objects_locked : gset Z)
    (referenced_segments : list SegmentId) (referenced_dead_letters : list StoredObjectId)
    (grace limit : Z) (db : Database) : publication (Database * UnreferencedOutputReconciliation) :=
  if (Z.of_nat (length referenced_segments) >? MAXIMUM_RECONCILIATION_REFERENCES)
     || (Z.of_nat (length referenced_dead_letters) >? MAXIMUM_RECONCILIATION_REFERENCES)
  then Err (conflict "output reconciliation reference set exceeds its bound")
  else
  let segment_ids := sg_id <$> select_limited
      (λ r, prepared_ingestion r && negb (bool_decide (sg_id r ∈ referenced_segments)))
      (λ r, (sg_created_at r, sg_id r)) limit (λ r, bool_decide (sg_id r ∈ segments_locked)) (db_segments db) in
  db ← (match segment_ids with
        | [] => Ok db
        | _ =>
            updated ← map_err publication_write
              (update_segments db (λ r, bool_decide (sg_id r ∈ segment_ids) && prepared_ingestion r)
                 (retire_segment "ABANDONED" now grace));
            let '(db, affected) := updated in
            _ ← check (affected =? Z.of_nat (length segment_ids))
                  (corrupt "locked unreferenced segments were not abandoned exactly once");
            Ok db
        end);
  remaining ← ok_or (checked_sub I64 limit (Z.of_nat (length segment_ids)))
                (corrupt "reconciliation item accounting underflowed");
  let dead_letter_ids :=
    if remaining =? 0 then []
    else ob_id <$> select_limited
      (λ r, unpublished_dead_letter r && negb (bool_decide (ob_id r ∈ referenced_dead_letters)))
      (λ r, (ob_created_at r, ob_id r)) remaining (λ r, bool_decide (ob_id r ∈ objects_locked)) (db_objects db) in
  db ← (match dead_letter_ids with
        | [] => Ok db
        | _ =>
            updated ← map_err publication_write
              (update_objects db (λ r, bool_decide (ob_id r ∈ dead_letter_ids) && unpublished_dead_letter r)
                 (λ r, Some (request_deletion now r)));
            let '(db, affected) := updated in
            _ ← check (affected =? Z.of_nat (length dead_letter_ids))
                  (corrupt "locked unreferenced dead letters were not scheduled exactly once");
            Ok db
        end);
  Ok (db, {| abandoned_segments := segment_ids; scheduled_dead_letters := dead_letter_ids |}).

Definition stored_object_state (object_id : StoredObjectId) (db : Database)
    : publication (option StoredObjectState) :=
  match db_objects db !! object_id with
  | None => Ok None
  | Some r => Some <$> object_state r
  end.

End Publication.
