(* ===== verification/Reclamation.v ===== *)
(** * elucid-metastore: deletion of objects

    Models src/elucid/elucid-metastore/src/reclamation.rs: which objects may be deleted,
    the claims that are handed to the worker that deletes their bytes, and the records of
    the result. *)

From S2P Require Import Prelude Core ErrorCode CatalogTypes CatalogModel Bytes Frame Storage Database Publication.

#[local] Open Scope string_scope.
#[local] Open Scope Z_scope.

(** ** Errors *)

Inductive ObjectReclamationModelError :=
| RetryDelayMustBePositive | RetryDelayOutOfRange | ReclamationLimitOutOfRange (maximum : Z).

Inductive ObjectReclamationErrorKind := ReclamationConflict | ReclamationUnavailable | ReclamationCorrupt.

Inductive ObjectReclamationErrorSource :=
| ReclamationDatabase (e : SqlError) | ReclamationStorageModel (e : StorageModelError)
| ReclamationInvariant (message : string).

Record ObjectReclamationError := {
  re_kind : ObjectReclamationErrorKind;
  re_source : ObjectReclamationErrorSource;
}.

Definition reclamation_read (source : SqlError) : ObjectReclamationError :=
  {| re_kind := if is_row_decode_error source then ReclamationCorrupt else ReclamationUnavailable;
     re_source := ReclamationDatabase source |}.
Definition reclamation_write (source : SqlError) : ObjectReclamationError :=
  {| re_kind := if is_database_conflict source then ReclamationConflict else ReclamationUnavailable;
     re_source := ReclamationDatabase source |}.
Definition reclamation_corrupt (message : string) : ObjectReclamationError :=
  {| re_kind := ReclamationCorrupt; re_source := ReclamationInvariant message |}.
Definition reclamation_conflict (message : string) : ObjectReclamationError :=
  {| re_kind := ReclamationConflict; re_source := ReclamationInvariant message |}.
Definition reclamation_storage_model (source : StorageModelError) : ObjectReclamationError :=
  {| re_kind := ReclamationCorrupt; re_source := ReclamationStorageModel source |}.

Definition ObjectReclamationError_code (e : ObjectReclamationError) : ErrorCode :=
  match re_kind e with
  | ReclamationConflict => MetastoreConflict
  | ReclamationUnavailable => MetastoreUnavailable
  | ReclamationCorrupt => MetastoreCorrupt
  end.

Notation reclamation := (result ObjectReclamationError).

(** ** Values *)

Definition MAXIMUM_OBJECT_RECLAMATION_ITEMS : Z := 1000.

Definition ObjectDeletionRetryDelay_new (seconds : Z) : result ObjectReclamationModelError Z :=
  if seconds =? 0 then Err RetryDelayMustBePositive else ok_or (narrow I64 seconds) RetryDelayOutOfRange.

Definition ObjectReclamationLimit_new (items : Z) : result ObjectReclamationModelError Z :=
  if (items =? 0) || (items >? MAXIMUM_OBJECT_RECLAMATION_ITEMS)
  then Err (ReclamationLimitOutOfRange MAXIMUM_OBJECT_RECLAMATION_ITEMS)
  else ok_or (narrow I64 items) (ReclamationLimitOutOfRange MAXIMUM_OBJECT_RECLAMATION_ITEMS).

Inductive ObjectDeletionAttempt := InitialAttempt | RetryAttempt.

Record ObjectDeletionClaim := { cl_descriptor : ObjectDescriptor; cl_attempt : ObjectDeletionAttempt }.

Inductive ObjectDeletionFailure := RetryableFailure | IntegrityFailure.

Definition ObjectDeletionFailure_error_code (failure : ObjectDeletionFailure) : ErrorCode :=
  match failure with RetryableFailure => ObjectDeleteFailed | IntegrityFailure => ObjectIntegrityError end.

Inductive ObjectDeletionCompletion := WasDeleted | AlreadyDeleted.
Inductive ObjectDeletionFailureRecording := FailureRecorded | FailureAlreadyDeleted.

Section Reclamation.
Context `{Postgres, UuidText, PathLib}.

(** ** Descriptors of rows *)

Definition materialize_descriptor (row : ObjectRow) : reclamation ObjectDescriptor :=
  let c := ob_columns row in
  let object_id := oc_object_id c in
  key_media ←
    (if decide (oc_kind c = "PARQUET_DATA") then
       match oc_segment_id c, oc_input_id c, oc_batch_id c with
       | Some segment_id, None, None =>
           key ← map_err reclamation_storage_model (parse_parquet (oc_object_key c) segment_id object_id);
           Ok (key, ParquetMedia)
       | _, _, _ => Err (reclamation_corrupt "stored object owner does not match its kind")
       end
     else if decide (oc_kind c = "DEAD_LETTER") then
       match oc_segment_id c, oc_input_id c, oc_batch_id c with
       | None, Some _, Some batch_id =>
           batch_id ← map_err reclamation_storage_model (BatchId_try_from batch_id);
           key ← map_err reclamation_storage_model (parse_dead_letter (oc_object_key c) batch_id object_id);
           Ok (key, DeadLetterMedia)
       | _, _, _ => Err (reclamation_corrupt "stored object owner does not match its kind")
       end
     else Err (reclamation_corrupt "stored object has an unknown kind"));
  let '(key, media_type) := key_media in
  _ ← check (bool_decide (oc_media_type c = media_type_as_str media_type))
        (reclamation_corrupt "stored object media type does not match its kind");
  expected_byte_size ← ok_or (narrow U64 (oc_expected_byte_size c))
                         (reclamation_corrupt "stored object byte size is negative");
  _ ← check (length (oc_digest c) =? 32)%nat (reclamation_corrupt "stored object digest is not 32 bytes");
  format_version ← ok_or (narrow U64 (oc_format_version c))
                     (reclamation_corrupt "stored object format version is negative");
  format_version ← map_err reclamation_storage_model (ObjectFormatVersion_new format_version);
  map_err reclamation_storage_model
    (ObjectDescriptor_new key expected_byte_size (oc_digest c) media_type format_version).

Definition materialize_claims (rows : list ObjectRow) (attempt : ObjectDeletionAttempt)
    : reclamation (list ObjectDeletionClaim) :=
  try_map (λ row, descriptor ← materialize_descriptor row;
                  Ok {| cl_descriptor := descriptor; cl_attempt := attempt |}) rows.

(** ** Claims *)

(** A deletion that failed for a reason that may pass, or whose worker is gone, is tried
    again after the delay. *)
Definition due_retry (due : DateTime) (r : ObjectRow) : bool :=
  bool_decide (ob_state r = "DELETE_PENDING")
  && match ob_last_error_code r with None => true | Some code => bool_decide (code = "OBJECT_DELETE_FAILED") end
  && datetime_leb (ob_updated_at r) due.

Definition load_due_retries (now : DateTime) (locked : gset Z) (retry_delay limit : Z) (db : Database)
    : reclamation (list ObjectRow) :=
  due ← map_err reclamation_read (ok_or (add_seconds now (- retry_delay)) datetime_overflow);
  Ok (select_limited (due_retry due) (λ r, (ob_updated_at r, ob_id r)) limit
        (λ r, bool_decide (ob_id r ∈ locked)) (db_objects db)).

(** [segment.state IN (..) AND segment.reclaim_after <= CURRENT_TIMESTAMP AND ..] *)
Definition segment_releases (now : DateTime) (segment : SegmentRow) (object : ObjectRow) : bool :=
  bool_decide (sg_state segment ∈ ["SUPERSEDED"; "EXPIRED"; "ABANDONED"])
  && match sg_reclaim_after segment with Some t => datetime_leb t now | None => false end
  && (bool_decide (sg_state segment ∈ ["SUPERSEDED"; "EXPIRED"]) && bool_decide (ob_state object = "PUBLISHED")
      || bool_decide (sg_state segment = "ABANDONED")
         && bool_decide (ob_state object ∈ ["PLANNED"; "UPLOADED"])).

Definition owning_segment (db : Database) (object : ObjectRow) : option SegmentRow :=
  ob_segment_id object ≫= λ id, db_segments db !! id.

Definition reclaimable (now : DateTime) (db : Database) (object : ObjectRow) : bool :=
  bool_decide (ob_kind object = "PARQUET_DATA")
  && match owning_segment db object with Some segment => segment_releases now segment object | None => false end
  || bool_decide (ob_kind object = "DEAD_LETTER") && bool_decide (ob_state object = "PUBLISHED")
     && match ob_retention_deadline object with Some t => datetime_leb t now | None => false end.

(** [COALESCE(segment.reclaim_after, object.retention_deadline)], which is not NULL for a
    reclaimable object *)
Definition reclaimable_since (now : DateTime) (db : Database) (object : ObjectRow) : DateTime :=
  match owning_segment db object ≫= sg_reclaim_after with
  | Some t => t
  | None => default now (ob_retention_deadline object)
  end.

Definition load_initial_candidates (now : DateTime) (locked : gset Z) (limit : Z) (db : Database)
    : list ObjectRow :=
  select_limited (reclaimable now db) (λ r, (reclaimable_since now db r, ob_id r)) limit
    (λ r, bool_decide (ob_id r ∈ locked)) (db_objects db).

Definition set_object (r : ObjectRow) (state : string) (now : DateTime)
    (delete_requested_at deleted_at : option DateTime) (last_error_code : option string) : ObjectRow :=
  {| ob_columns := ob_columns r; ob_state := state; ob_uploaded_at := ob_uploaded_at r;
     ob_published_at := ob_published_at r; ob_retention_deadline := ob_retention_deadline r;
     ob_delete_requested_at := delete_requested_at; ob_deleted_at := deleted_at;
     ob_last_error_code := last_error_code; ob_created_at := ob_created_at r; ob_updated_at := now |}.

(** [UPDATE stored_objects .. WHERE object_id = ANY(..) AND ..] that must change every row *)
Definition update_exactly (db : Database) (p : ObjectRow → bool) (f : ObjectRow → ObjectRow) (expected : nat)
    (message : string) : reclamation Database :=
  updated ← map_err reclamation_write (update_objects db p (λ r, Some (f r)));
  let '(db, affected) := updated in
  _ ← check (affected =? Z.of_nat expected) (reclamation_corrupt message);
  Ok db.

Definition mark_retry_attempts (now : DateTime) (rows : list ObjectRow) (db : Database) : reclamation Database :=
  match rows with
  | [] => Ok db
  | _ =>
      update_exactly db
        (λ r, bool_decide (ob_id r ∈ ob_id <$> rows) && bool_decide (ob_state r = "DELETE_PENDING"))
        (λ r, set_object r (ob_state r) now (ob_delete_requested_at r) (ob_deleted_at r) (ob_last_error_code r))
        (length rows) "locked object retries were not reserved exactly once"
  end.

Definition mark_initial_claims (now : DateTime) (rows : list ObjectRow) (db : Database) : reclamation Database :=
  match rows with
  | [] => Ok db
  | _ =>
      update_exactly db
        (λ r, bool_decide (ob_id r ∈ ob_id <$> rows)
              && bool_decide (ob_state r ∈ ["PLANNED"; "UPLOADED"; "PUBLISHED"]) && reclaimable now db r)
        (λ r, set_object r "DELETE_PENDING" now (Some now) (ob_deleted_at r) None)
        (length rows) "locked reclaimable objects were not claimed exactly once"
  end.

Definition claim (now : DateTime) (locked : gset Z) (retry_delay limit : Z) (db : Database)
    : reclamation (Database * list ObjectDeletionClaim) :=
  retry_rows ← load_due_retries now locked retry_delay limit db;
  retry_count ← ok_or (narrow I64 (Z.of_nat (length retry_rows)))
                  (reclamation_corrupt "reclamation retry count exceeds the i64 range");
  remaining ← ok_or (checked_sub I64 limit retry_count) (reclamation_corrupt "reclamation limit underflowed");
  let initial_rows := if remaining =? 0 then [] else load_initial_candidates now locked remaining db in
  db ← mark_retry_attempts now retry_rows db;
  db ← mark_initial_claims now initial_rows db;
  retries ← materialize_claims retry_rows RetryAttempt;
  initial ← materialize_claims initial_rows InitialAttempt;
  Ok (db, app retries initial).

(** ** Results *)

Definition load_claimed_object (c : ObjectDeletionClaim) (db : Database) : reclamation ObjectRow :=
  row ← ok_or (db_objects db !! k_object_id (od_key (cl_descriptor c)))
          (reclamation_corrupt "claimed object metadata is missing");
  descriptor ← materialize_descriptor row;
  if decide (descriptor = cl_descriptor c) then Ok row
  else Err (reclamation_conflict "claimed object descriptor changed before deletion completion").

Definition pending_claim (c : ObjectDeletionClaim) (r : ObjectRow) : bool :=
  (ob_id r =? k_object_id (od_key (cl_descriptor c))) && bool_decide (ob_state r = "DELETE_PENDING").

Definition record_deleted (now : DateTime) (c : ObjectDeletionClaim) (db : Database)
    : reclamation (Database * ObjectDeletionCompletion) :=
  row ← load_claimed_object c db;
  if decide (ob_state row = "DELETE_PENDING") then
    db ← update_exactly db (pending_claim c)
           (λ r, set_object r "DELETED" now (ob_delete_requested_at r) (Some now) None) 1
           "claimed object was not marked deleted";
    Ok (db, WasDeleted)
  else if decide (ob_state row = "DELETED") then Ok (db, AlreadyDeleted)
  else Err (reclamation_conflict "object is not pending deletion").

Definition record_failure (now : DateTime) (c : ObjectDeletionClaim) (failure : ObjectDeletionFailure)
    (db : Database) : reclamation (Database * ObjectDeletionFailureRecording) :=
  row ← load_claimed_object c db;
  if decide (ob_state row = "DELETE_PENDING") then
    db ← update_exactly db (pending_claim c)
           (λ r, set_object r (ob_state r) now (ob_delete_requested_at r) (ob_deleted_at r)
                   (Some (ErrorCode_as_str (ObjectDeletionFailure_error_code failure)))) 1
           "claimed object deletion failure was not recorded";
    Ok (db, FailureRecorded)
  else if decide (ob_state row = "DELETED") then Ok (db, FailureAlreadyDeleted)
  else Err (reclamation_conflict "object is not pending deletion").

End Reclamation.
