(* ===== verification/Retention.v ===== *)
(** * elucid-metastore: expiration and cleanup

    Models src/elucid/elucid-metastore/src/retention.rs: the expiration of active
    segments past their deadline and the removal of the metadata of deleted objects, their
    segments and finished compaction runs. *)

From S2P Require Import Prelude Core ErrorCode CatalogTypes CatalogModel Bytes Frame Storage Database Publication.

#[local] Open Scope string_scope.
#[local] Open Scope Z_scope.

(** ** Errors *)

Inductive RetentionModelError :=
| MaximumQueryLifetimeMustBePositive | ReclamationSafetyMarginMustBePositive | ReclamationGraceOutOfRange
| ScanLimitOutOfRange (maximum : Z) | CleanupLimitOutOfRange (maximum : Z).

Inductive RetentionErrorKind := TimestampOverflow | StateConflict | RetentionUnavailable | RetentionCorrupt.

Inductive RetentionErrorSource := RetentionDatabase (e : SqlError) | RetentionInvariant (message : string).

Record RetentionError := { te_kind : RetentionErrorKind; te_source : RetentionErrorSource }.

Definition is_timestamp_overflow (error : SqlError) : bool :=
  match error with DatabaseError code => bool_decide (code ∈ ["22008"; "22015"]) | _ => false end.

Definition retention_write (source : SqlError) : RetentionError :=
  {| te_kind := if is_timestamp_overflow source then TimestampOverflow
                else if is_database_conflict source then StateConflict else RetentionUnavailable;
     te_source := RetentionDatabase source |}.
Definition state_conflict (message : string) : RetentionError :=
  {| te_kind := StateConflict; te_source := RetentionInvariant message |}.
Definition retention_corrupt (message : string) : RetentionError :=
  {| te_kind := RetentionCorrupt; te_source := RetentionInvariant message |}.

Definition RetentionError_code (e : RetentionError) : ErrorCode :=
  match te_kind e with
  | TimestampOverflow => RetentionTimestampOverflow
  | StateConflict => RetentionStateConflict
  | RetentionUnavailable | RetentionCorrupt => RetentionCleanupFailed
  end.

Notation retention := (result RetentionError).

(** ** Values *)

Definition MAXIMUM_RETENTION_SCAN_ITEMS : Z := 1000.
Definition MAXIMUM_METADATA_CLEANUP_ROOTS : Z := 1000.

Definition ReclamationGracePeriod_new (maximum_query_lifetime_seconds safety_margin_seconds : Z)
    : result RetentionModelError Z :=
  if maximum_query_lifetime_seconds =? 0 then Err MaximumQueryLifetimeMustBePositive
  else if safety_margin_seconds =? 0 then Err ReclamationSafetyMarginMustBePositive
  else ok_or (checked_add U64 maximum_query_lifetime_seconds safety_margin_seconds ≫= narrow I64)
         ReclamationGraceOutOfRange.

Definition RetentionScanLimit_new (items : Z) : result RetentionModelError Z :=
  if (items =? 0) || (items >? MAXIMUM_RETENTION_SCAN_ITEMS)
  then Err (ScanLimitOutOfRange MAXIMUM_RETENTION_SCAN_ITEMS)
  else ok_or (narrow I64 items) (ScanLimitOutOfRange MAXIMUM_RETENTION_SCAN_ITEMS).

Definition MetadataCleanupLimit_new (roots : Z) : result RetentionModelError Z :=
  if (roots =? 0) || (roots >? MAXIMUM_METADATA_CLEANUP_ROOTS)
  then Err (CleanupLimitOutOfRange MAXIMUM_METADATA_CLEANUP_ROOTS)
  else ok_or (narrow I64 roots) (CleanupLimitOutOfRange MAXIMUM_METADATA_CLEANUP_ROOTS).

Record SegmentExpiration := { expired_segments : Z; expired_rows : Z }.

Record MetadataCleanup := {
  removed_objects : Z;
  removed_segments : Z;
  removed_compaction_runs : Z;
  removed_roots : Z;
  removed_rows : Z;
}.

Definition cleanup_count (count : nat) : retention Z :=
  ok_or (narrow U64 (Z.of_nat count)) (retention_corrupt "metadata cleanup count overflowed").

Definition MetadataCleanup_new (removed_objects removed_segments removed_compaction_runs : nat)
    : retention MetadataCleanup :=
  removed_objects ← cleanup_count removed_objects;
  removed_segments ← cleanup_count removed_segments;
  removed_compaction_runs ← cleanup_count removed_compaction_runs;
  removed_roots ← ok_or (checked_add U64 removed_objects removed_compaction_runs)
                    (retention_corrupt "metadata cleanup root count overflowed");
  removed_rows ← ok_or (checked_add U64 removed_roots removed_segments)
                   (retention_corrupt "metadata cleanup row count overflowed");
  Ok {| removed_objects := removed_objects; removed_segments := removed_segments;
        removed_compaction_runs := removed_compaction_runs; removed_roots := removed_roots;
        removed_rows := removed_rows |}.

Section Retention.
Context `{Postgres}.

(** ** Expiration *)

Definition unclaimed_active (r : SegmentRow) : bool :=
  bool_decide (sg_state r = "ACTIVE") && is_null (sg_claimed_by r).

Definition expired (now : DateTime) (r : SegmentRow) : bool :=
  unclaimed_active r && match sg_data_expires_at r with Some t => datetime_leb t now | None => false end.

(** The row counts of the rows an update returns; a [u128] sum of at most a thousand
    [i64] values cannot overflow. *)
Definition sum_rows (row_counts : list Z) : retention Z :=
  try_fold (λ total rows,
    rows ← ok_or (narrow U64 rows ≫= λ rows, if 0 <? rows then Some rows else None)
             (state_conflict "expired segment has an invalid row count");
    Ok (total + rows)) 0 row_counts.

(** The order in which an update returns its rows is not specified; the sum does not
    depend on it. *)
Definition expire_segments (now : DateTime) (locked : gset Z) (grace limit : Z) (db : Database)
    : retention (Database * SegmentExpiration) :=
  let segment_ids := sg_id <$> select_limited (expired now)
      (λ r, (default now (sg_data_expires_at r), sg_id r)) limit (λ r, bool_decide (sg_id r ∈ locked))
      (db_segments db) in
  match segment_ids with
  | [] => Ok (db, {| expired_segments := 0; expired_rows := 0 |})
  | _ =>
      let hit r := bool_decide (sg_id r ∈ segment_ids) && unclaimed_active r in
      let row_counts := (λ r, sc_row_count (sg_columns r)) <$> filter (λ r, hit r = true) (rows (db_segments db)) in
      updated ← map_err retention_write (update_segments db hit (retire_segment "EXPIRED" now grace));
      let '(db, _) := updated in
      _ ← check (length row_counts =? length segment_ids)%nat
            (state_conflict "locked retention candidates did not expire exactly once");
      expired_rows ← sum_rows row_counts;
      expired_segments ← ok_or (narrow U64 (Z.of_nat (length segment_ids)))
                           (state_conflict "expired segment count exceeds the Rust u64 range");
      Ok (db, {| expired_segments := expired_segments; expired_rows := expired_rows |})
  end.

(** ** Cleanup *)

Definition unfinished_run (db : Database) (run : option Z) : bool :=
  match run ≫= λ id, db_runs db !! id with
  | Some r => bool_decide (rn_state r ∈ ["BUILDING"; "UPLOADING"])
  | None => false
  end.

Definition terminal_segment (db : Database) (r : SegmentRow) : bool :=
  bool_decide (sg_state r ∈ ["SUPERSEDED"; "EXPIRED"; "ABANDONED"])
  && negb (unfinished_run db (sg_produced_by r) || unfinished_run db (sg_claimed_by r)).

Definition cleanup_candidate (db : Database) (r : ObjectRow) : bool :=
  bool_decide (ob_state r = "DELETED")
  && (bool_decide (ob_kind r = "DEAD_LETTER") && is_null (ob_segment_id r)
      || bool_decide (ob_kind r = "PARQUET_DATA")
         && match ob_segment_id r ≫= λ id, db_segments db !! id with
            | Some segment => terminal_segment db segment
            | None => false
            end).

(** [CleanupObjectCandidate::validate] *)
Definition validate_candidate (r : ObjectRow) : retention unit :=
  if decide (ob_kind r = "PARQUET_DATA") then
    if is_null (ob_segment_id r) then Err (retention_corrupt "terminal object owner does not match its kind") else Ok tt
  else if decide (ob_kind r = "DEAD_LETTER") then
    if is_null (ob_segment_id r) then Ok tt else Err (retention_corrupt "terminal object owner does not match its kind")
  else Err (retention_corrupt "terminal object has an unknown kind").

Definition load_cleanup_object_candidates (locked : gset Z) (limit : Z) (db : Database)
    : retention (list ObjectRow) :=
  let rows := select_limited (cleanup_candidate db) (λ r, (ob_updated_at r, ob_id r)) limit
                (λ r, bool_decide (ob_id r ∈ locked)) (db_objects db) in
  _ ← try_map validate_candidate rows;
  Ok rows.

Definition lock_cleanup_segments (locked : gset Z) (segment_ids : list Z) (db : Database) : list Z :=
  match segment_ids with
  | [] => []
  | _ =>
      sg_id <$> filter (λ r, sg_id r ∉ locked)
        (select_by_id (λ r, bool_decide (sg_id r ∈ segment_ids) && terminal_segment db r) sg_id (db_segments db))
  end.

Definition require_cleanup_rows (affected : Z) (expected : nat) (message : string) : retention unit :=
  expected ← cleanup_count expected;
  if affected =? expected then Ok tt else Err (state_conflict message).

Definition remove_cleanup_objects (object_ids : list Z) (db : Database) : retention Database :=
  match object_ids with
  | [] => Ok db
  | _ =>
      let '(db, affected) :=
        delete_objects db (λ r, bool_decide (ob_id r ∈ object_ids) && bool_decide (ob_state r = "DELETED")) in
      _ ← require_cleanup_rows affected (length object_ids)
            "locked terminal object rows were not removed exactly once";
      Ok db
  end.

Definition remove_cleanup_segments (segment_ids : list Z) (db : Database) : retention Database :=
  match segment_ids with
  | [] => Ok db
  | _ =>
      deleted ← map_err retention_write
        (delete_segments db (λ r, bool_decide (sg_id r ∈ segment_ids) && terminal_segment db r
           && negb (existsb (λ o, bool_decide (ob_segment_id o = Some (sg_id r))) (rows (db_objects db)))));
      let '(db, affected) := deleted in
      _ ← require_cleanup_rows affected (length segment_ids)
            "locked terminal segment rows were not removed exactly once";
      Ok db
  end.

Definition removable_run (db : Database) (r : RunRow) : bool :=
  bool_decide (rn_state r ∈ ["COMMITTED"; "FAILED"])
  && negb (existsb (λ s, bool_decide (sg_produced_by s = Some (rn_id r))
                         || bool_decide (sg_claimed_by s = Some (rn_id r))) (rows (db_segments db))).

Definition remove_cleanup_compaction_runs (now : DateTime) (locked : gset Z) (limit : Z) (db : Database)
    : retention (Database * nat) :=
  if limit =? 0 then Ok (db, 0%nat)
  else
  let candidates := rn_id <$> select_limited (removable_run db)
      (λ r, (default now (rn_completed_at r), rn_id r)) limit (λ r, bool_decide (rn_id r ∈ locked)) (db_runs db) in
  deleted ← map_err retention_write
    (delete_runs db (λ r, bool_decide (rn_id r ∈ candidates) && removable_run db r));
  Ok (deleted.1, Z.to_nat deleted.2).

(** [candidate.segment_id().is_none_or(|segment_id| locked_segments.contains(&segment_id))] *)
Definition is_selected (locked_segments : list Z) (candidate : ObjectRow) : bool :=
  match ob_segment_id candidate with
  | Some segment_id => bool_decide (segment_id ∈ locked_segments)
  | None => true
  end.

(** [objects_locked], [segments_locked] and [runs_locked] are the rows other transactions
    hold. *)
Definition clean_terminal_metadata (now : DateTime) (objects_locked segments_locked runs_locked : gset Z)
    (limit : Z) (db : Database) : retention (Database * MetadataCleanup) :=
  candidates ← load_cleanup_object_candidates objects_locked limit db;
  let segment_ids := omap ob_segment_id candidates in
  let locked_segment_ids := lock_cleanup_segments segments_locked segment_ids db in
  let selected := filter (λ c, is_selected locked_segment_ids c = true) candidates in
  db ← remove_cleanup_objects (ob_id <$> selected) db;
  db ← remove_cleanup_segments locked_segment_ids db;
  removed_object_roots ← ok_or (narrow I64 (Z.of_nat (length selected)))
                           (retention_corrupt "metadata cleanup object count overflowed");
  remaining_roots ← ok_or (checked_sub I64 limit removed_object_roots)
                      (retention_corrupt "metadata cleanup limit underflowed");
  removed ← remove_cleanup_compaction_runs now runs_locked remaining_roots db;
  let '(db, removed_compaction_runs) := removed in
  cleanup ← MetadataCleanup_new (length selected) (length locked_segment_ids) removed_compaction_runs;
  Ok (db, cleanup).

End Retention.
