(* ===== verification/Compaction.v ===== *)
(** * elucid-metastore: compaction claims and outputs

    Models src/elucid/elucid-metastore/src/compaction.rs: the limits of a claim, the
    choice of a group of small segments worth merging, the transaction that claims them
    for a run, and the registration of the run's outputs. The candidates are read before
    their rows are locked, so a claim has the tables of both moments as arguments. *)

From S2P Require Import Prelude Core ErrorCode CatalogTypes CatalogModel Bytes Frame Storage Database Publication.

#[local] Open Scope string_scope.
#[local] Open Scope Z_scope.

Definition MAXIMUM_COMPACTION_CANDIDATE_SEGMENTS : Z := 10000.
Definition MAXIMUM_COMPACTION_INPUT_SEGMENTS : Z := 1000.
Definition MAXIMUM_COMPACTION_OUTPUT_SEGMENTS : Z := 1000.
Definition PARQUET_FORMAT_VERSION : Z := 1.

(** ** Errors *)

Inductive CompactionModelError :=
| CandidateSegmentLimitOutOfRange (maximum : Z) | InputSegmentLimitOutOfRange (maximum : Z)
| CandidateLimitBelowInputLimit | ByteAndRowLimitsMustBePositive | LimitOutOfDatabaseRange
| MinimumRetentionMustBeWholePositiveSeconds | MinimumRetentionOutOfRange | OutputRowCountOutOfRange
| OutputUncompressedBytesOutOfRange | OutputObjectBytesOutOfRange | OutputObjectFormatVersionOutOfRange
| OutputObjectFormatVersionUnsupported | OutputRetentionPrecisionUnsupported
| RecoveryLimitOutOfRange (maximum : Z).

Inductive CompactionMetadataErrorKind := CompactionConflict | CompactionUnavailable | CompactionCorrupt.

(** [CompactionIdentity] is a catalog identity that is not a version 7 UUID. *)
Inductive CompactionMetadataErrorSource :=
| CompactionModel (e : CompactionModelError) | CompactionIdentity (value : Z)
| CompactionStorageModel (e : StorageModelError) | CompactionDatabase (e : SqlError)
| AmbiguousCommit (commit : SqlError) (resolution : CompactionMetadataErrorSource)
| CompactionInvariant (message : string).

Record CompactionMetadataError := {
  ce_kind : CompactionMetadataErrorKind;
  ce_source : CompactionMetadataErrorSource;
}.

Definition compaction_model (source : CompactionModelError) : CompactionMetadataError :=
  {| ce_kind := CompactionConflict; ce_source := CompactionModel source |}.
Definition compaction_read (source : SqlError) : CompactionMetadataError :=
  {| ce_kind := if is_row_decode_error source then CompactionCorrupt else CompactionUnavailable;
     ce_source := CompactionDatabase source |}.
Definition compaction_write (source : SqlError) : CompactionMetadataError :=
  {| ce_kind := if is_database_conflict source then CompactionConflict else CompactionUnavailable;
     ce_source := CompactionDatabase source |}.
Definition compaction_conflict (message : string) : CompactionMetadataError :=
  {| ce_kind := CompactionConflict; ce_source := CompactionInvariant message |}.
Definition compaction_corrupt (message : string) : CompactionMetadataError :=
  {| ce_kind := CompactionCorrupt; ce_source := CompactionInvariant message |}.
Definition compaction_storage_model (source : StorageModelError) : CompactionMetadataError :=
  {| ce_kind := CompactionCorrupt; ce_source := CompactionStorageModel source |}.
Definition compaction_catalog_model (value : Z) : CompactionMetadataError :=
  {| ce_kind := CompactionCorrupt; ce_source := CompactionIdentity value |}.
Definition ambiguous_commit (commit : SqlError) (resolution : CompactionMetadataError) : CompactionMetadataError :=
  {| ce_kind := CompactionUnavailable; ce_source := AmbiguousCommit commit (ce_source resolution) |}.

Definition CompactionMetadataError_code (e : CompactionMetadataError) : ErrorCode :=
  match ce_kind e with
  | CompactionConflict => MetastoreConflict
  | CompactionUnavailable => MetastoreUnavailable
  | CompactionCorrupt => MetastoreCorrupt
  end.

Notation compaction := (result CompactionMetadataError).

(** ** Limits *)

Record CompactionClaimLimitConfiguration := {
  cc_maximum_candidate_segments : Z;
  cc_maximum_input_segments : Z;
  cc_maximum_input_rows : Z;
  cc_maximum_input_parquet_bytes : Z;
  cc_maximum_input_uncompressed_bytes : Z;
  cc_target_output_rows : Z;
  cc_target_output_uncompressed_bytes : Z;
  cc_minimum_retention_seconds : Z;
  cc_minimum_retention_nanos : Z;
}.

Record CompactionClaimLimits := {
  maximum_candidate_segments : Z;
  maximum_input_segments : Z;
  maximum_input_rows : Z;
  maximum_input_parquet_bytes : Z;
  maximum_input_uncompressed_bytes : Z;
  target_output_rows : Z;
  target_output_uncompressed_bytes : Z;
  minimum_retention_seconds : Z;
}.

Definition CompactionClaimLimits_new (c : CompactionClaimLimitConfiguration)
    : result CompactionModelError CompactionClaimLimits :=
  let candidate_error := CandidateSegmentLimitOutOfRange MAXIMUM_COMPACTION_CANDIDATE_SEGMENTS in
  let input_error := InputSegmentLimitOutOfRange MAXIMUM_COMPACTION_INPUT_SEGMENTS in
  if (cc_maximum_candidate_segments c =? 0)
     || (cc_maximum_candidate_segments c >? MAXIMUM_COMPACTION_CANDIDATE_SEGMENTS) then Err candidate_error
  else if (cc_maximum_input_segments c <? 2)
     || (cc_maximum_input_segments c >? MAXIMUM_COMPACTION_INPUT_SEGMENTS) then Err input_error
  else if cc_maximum_candidate_segments c <? cc_maximum_input_segments c then Err CandidateLimitBelowInputLimit
  else if (cc_maximum_input_rows c =? 0) || (cc_maximum_input_parquet_bytes c =? 0)
     || (cc_maximum_input_uncompressed_bytes c =? 0) || (cc_target_output_rows c =? 0)
     || (cc_target_output_uncompressed_bytes c =? 0) then Err ByteAndRowLimitsMustBePositive
  else if ((cc_minimum_retention_seconds c =? 0) && (cc_minimum_retention_nanos c =? 0))
     || negb (cc_minimum_retention_nanos c =? 0) then Err MinimumRetentionMustBeWholePositiveSeconds
  else
  retention ← ok_or (narrow I64 (cc_minimum_retention_seconds c)) MinimumRetentionOutOfRange;
  candidates ← ok_or (narrow I64 (cc_maximum_candidate_segments c)) candidate_error;
  inputs ← ok_or (narrow U64 (cc_maximum_input_segments c)) input_error;
  _ ← try_map (λ value, ok_or (narrow I64 value) LimitOutOfDatabaseRange)
        [cc_maximum_input_rows c; cc_maximum_input_parquet_bytes c; cc_maximum_input_uncompressed_bytes c;
         cc_target_output_rows c; cc_target_output_uncompressed_bytes c];
  Ok {| maximum_candidate_segments := candidates; maximum_input_segments := inputs;
        maximum_input_rows := cc_maximum_input_rows c;
        maximum_input_parquet_bytes := cc_maximum_input_parquet_bytes c;
        maximum_input_uncompressed_bytes := cc_maximum_input_uncompressed_bytes c;
        target_output_rows := cc_target_output_rows c;
        target_output_uncompressed_bytes := cc_target_output_uncompressed_bytes c;
        minimum_retention_seconds := retention |}.

Definition database_i64 (value : Z) : compaction Z :=
  ok_or (narrow I64 value) (compaction_corrupt "validated limit overflowed").

Definition positive_u64 (value : Z) (message : string) : compaction Z :=
  ok_or (narrow U64 value ≫= λ value, if 0 <? value then Some value else None) (compaction_corrupt message).

Definition checked_sum (left right : Z) : compaction Z :=
  ok_or (checked_add U64 left right) (compaction_corrupt "compaction resource total overflowed").

Definition ceiling_dividend (value divisor : Z) : Z :=
  value / divisor + (if value mod divisor =? 0 then 0 else 1).

Definition require_rows (actual expected : Z) (message : string) : compaction unit :=
  if actual =? expected then Ok tt else Err (compaction_corrupt message).

Section Compaction.
Context `{Postgres, UuidText, PathLib}.

(** ** Candidates *)

Record CompactionInputSegment := {
  ci_descriptor : SegmentDescriptor;
  ci_data_expires_at : DateTime;
  ci_published_at : DateTime;
}.

#[export] Instance CompactionInputSegment_eq_dec : EqDecision CompactionInputSegment.
Proof. solve_decision. Defined.

Definition ci_rows (c : CompactionInputSegment) : Z := sd_row_count (ci_descriptor c).
Definition ci_parquet_bytes (c : CompactionInputSegment) : Z := od_expected_byte_size (sd_object (ci_descriptor c)).
Definition ci_uncompressed_bytes (c : CompactionInputSegment) : Z := sd_uncompressed_bytes (ci_descriptor c).

(** A row of the join of the segments with their objects. *)
Record CandidateRow := {
  cr_segment : SegmentRow;
  cr_object : ObjectRow;
}.

(** [segments AS segment JOIN stored_objects AS object ON object.segment_id = segment.segment_id] *)
Definition joined (db : Database) : list CandidateRow :=
  rows (db_segments db) ≫= λ segment,
    (λ object, {| cr_segment := segment; cr_object := object |}) <$>
      filter (λ object, ob_segment_id object = Some (sg_id segment)) (rows (db_objects db)).

(** [WHERE segment.state = 'ACTIVE' AND ..] *)
Definition is_candidate (limits : CompactionClaimLimits) (deadline : DateTime) (r : CandidateRow) : bool :=
  let s := cr_segment r in
  let o := cr_object r in
  bool_decide (sg_state s = "ACTIVE")
  && is_null (sg_claimed_by s)
  && (sc_row_count (sg_columns s) <? target_output_rows limits)
  && (sc_uncompressed_bytes (sg_columns s) <? target_output_uncompressed_bytes limits)
  && match sg_data_expires_at s with Some t => datetime_ltb deadline t | None => false end
  && bool_decide (ob_kind o = "PARQUET_DATA")
  && bool_decide (ob_state o = "PUBLISHED")
  && (oc_expected_byte_size (ob_columns o) <=? maximum_input_parquet_bytes limits).

(** [ORDER BY segment.published_at, segment.uncompressed_bytes, segment.segment_id]; a
    candidate has a publication time. *)
Definition candidate_order (a b : CandidateRow) : Prop :=
  let bytes r := sc_uncompressed_bytes (sg_columns (cr_segment r)) in
  let id r := sg_id (cr_segment r) in
  match sg_published_at (cr_segment a), sg_published_at (cr_segment b) with
  | Some ta, Some tb =>
      datetime_ltb ta tb = true ∨ (ta = tb ∧ (bytes a < bytes b ∨ (bytes a = bytes b ∧ id a ≤ id b)))
  | _, None => True
  | None, Some _ => False
  end.

#[export] Instance candidate_order_dec a b : Decision (candidate_order a b).
Proof. unfold candidate_order. repeat case_match; apply _. Defined.

Definition candidate_rows (limits : CompactionClaimLimits) (deadline : DateTime) (db : Database)
    : list CandidateRow :=
  merge_sort candidate_order (filter (λ r, is_candidate limits deadline r = true) (joined db)).

Definition materialize_candidate (r : CandidateRow) : compaction CompactionInputSegment :=
  let s := sg_columns (cr_segment r) in
  let o := ob_columns (cr_object r) in
  data_expires_at ← map_err compaction_read (ok_or (sg_data_expires_at (cr_segment r)) Decode);
  published_at ← map_err compaction_read (ok_or (sg_published_at (cr_segment r)) Decode);
  object_published_at ← map_err compaction_read (ok_or (ob_published_at (cr_object r)) Decode);
  source_id ← ok_or (UuidV7.new (sc_source_id s)) (compaction_catalog_model (sc_source_id s));
  schema_id ← ok_or (UuidV7.new (sc_schema_id s)) (compaction_catalog_model (sc_schema_id s));
  key ← map_err compaction_storage_model (parse_parquet (oc_object_key o) (sc_segment_id s) (oc_object_id o));
  expected_byte_size ← positive_u64 (oc_expected_byte_size o) "object byte size is invalid";
  _ ← check (length (oc_digest o) =? 32)%nat (compaction_corrupt "object digest length is invalid");
  _ ← check (bool_decide (oc_media_type o = media_type_as_str ParquetMedia))
        (compaction_corrupt "compaction input object has an invalid media type");
  format_version ← positive_u64 (oc_format_version o) "object format version is invalid";
  format_version ← map_err compaction_storage_model (ObjectFormatVersion_new format_version);
  object ← map_err compaction_storage_model
             (ObjectDescriptor_new key expected_byte_size (oc_digest o) ParquetMedia format_version);
  times ← map_err (λ _, compaction_corrupt "compaction input time bounds are invalid")
            (SegmentTimes_new (event_day (sc_times s)) (minimum_event_time (sc_times s))
               (maximum_event_time (sc_times s)) (minimum_ingestion_time (sc_times s))
               (maximum_ingestion_time (sc_times s)));
  _ ← check (bool_decide (object_published_at = published_at))
        (compaction_corrupt "compaction input segment and object publication times differ");
  row_count ← positive_u64 (sc_row_count s) "input row count is invalid";
  row_count ← map_err (λ _, compaction_corrupt "input row count is zero") (RowCount_new row_count);
  uncompressed ← positive_u64 (sc_uncompressed_bytes s) "input uncompressed byte count is invalid";
  uncompressed ← map_err (λ _, compaction_corrupt "input uncompressed byte count is zero")
                   (UncompressedByteSize_new uncompressed);
  descriptor ← map_err compaction_storage_model
    (SegmentDescriptor_new (sc_segment_id s) source_id schema_id times row_count uncompressed object);
  Ok {| ci_descriptor := descriptor; ci_data_expires_at := data_expires_at; ci_published_at := published_at |}.

Definition candidate_deadline (now : DateTime) (limits : CompactionClaimLimits) : compaction DateTime :=
  map_err compaction_read (ok_or (add_seconds now (minimum_retention_seconds limits)) datetime_overflow).

Definition load_candidates (now : DateTime) (limits : CompactionClaimLimits) (db : Database)
    : compaction (list CompactionInputSegment) :=
  _ ← database_i64 (target_output_rows limits);
  _ ← database_i64 (target_output_uncompressed_bytes limits);
  _ ← database_i64 (maximum_input_parquet_bytes limits);
  deadline ← candidate_deadline now limits;
  try_map materialize_candidate
    (take (Z.to_nat (maximum_candidate_segments limits)) (candidate_rows limits deadline db)).

Definition lock_selected_candidates (now : DateTime) (selected : list CompactionInputSegment)
    (limits : CompactionClaimLimits) (db : Database) : compaction (list CompactionInputSegment) :=
  let identities := (λ c, sd_segment_id (ci_descriptor c)) <$> selected in
  _ ← database_i64 (target_output_rows limits);
  _ ← database_i64 (target_output_uncompressed_bytes limits);
  _ ← database_i64 (maximum_input_parquet_bytes limits);
  deadline ← candidate_deadline now limits;
  try_map materialize_candidate
    (filter (λ r, sg_id (cr_segment r) ∈ identities) (candidate_rows limits deadline db)).

(** ** The choice of a group *)

Definition CandidateGroupKey : Type := SourceId * SchemaId * NaiveDate.

Definition group_key (d : SegmentDescriptor) : CandidateGroupKey :=
  (sd_source_id d, sd_schema_id d, event_day (sd_times d)).

Record CandidateGroup := {
  cg_key : CandidateGroupKey;
  cg_candidates : list CompactionInputSegment;
  cg_input_rows : Z;
  cg_input_parquet_bytes : Z;
  cg_input_uncompressed_bytes : Z;
  cg_beneficial_prefix_length : option nat;
  cg_stopped : bool;
}.

Definition CandidateGroup_new (key : CandidateGroupKey) : CandidateGroup :=
  {| cg_key := key; cg_candidates := []; cg_input_rows := 0; cg_input_parquet_bytes := 0;
     cg_input_uncompressed_bytes := 0; cg_beneficial_prefix_length := None; cg_stopped := false |}.

Definition stop (g : CandidateGroup) : CandidateGroup :=
  {| cg_key := cg_key g; cg_candidates := cg_candidates g; cg_input_rows := cg_input_rows g;
     cg_input_parquet_bytes := cg_input_parquet_bytes g;
     cg_input_uncompressed_bytes := cg_input_uncompressed_bytes g;
     cg_beneficial_prefix_length := cg_beneficial_prefix_length g; cg_stopped := true |}.

Definition consider (limits : CompactionClaimLimits) (g : CandidateGroup) (candidate : CompactionInputSegment)
    : compaction CandidateGroup :=
  if cg_stopped g then Ok g
  else if bool_decide (group_key (ci_descriptor candidate) ≠ cg_key g) then
    Err (compaction_corrupt "candidate was routed to a different compaction group")
  else if Z.of_nat (length (cg_candidates g)) =? maximum_input_segments limits then Ok (stop g)
  else
  input_rows ← checked_sum (cg_input_rows g) (ci_rows candidate);
  input_parquet_bytes ← checked_sum (cg_input_parquet_bytes g) (ci_parquet_bytes candidate);
  input_uncompressed_bytes ← checked_sum (cg_input_uncompressed_bytes g) (ci_uncompressed_bytes candidate);
  if (input_rows >? maximum_input_rows limits)
     || (input_parquet_bytes >? maximum_input_parquet_bytes limits)
     || (input_uncompressed_bytes >? maximum_input_uncompressed_bytes limits) then Ok (stop g)
  else
  let candidates := app (cg_candidates g) [candidate] in
  let expected_outputs := Z.max (ceiling_dividend input_rows (target_output_rows limits))
                            (ceiling_dividend input_uncompressed_bytes (target_output_uncompressed_bytes limits)) in
  count ← ok_or (narrow U64 (Z.of_nat (length candidates)))
            (compaction_corrupt "compaction candidate count overflowed");
  Ok {| cg_key := cg_key g; cg_candidates := candidates; cg_input_rows := input_rows;
        cg_input_parquet_bytes := input_parquet_bytes; cg_input_uncompressed_bytes := input_uncompressed_bytes;
        cg_beneficial_prefix_length :=
          if expected_outputs <? count then Some (length candidates) else cg_beneficial_prefix_length g;
        cg_stopped := cg_stopped g |}.

(** The groups in the order of their first candidate; [indexes] maps a key to the
    position of its group. *)
Definition route (limits : CompactionClaimLimits) (groups : list CandidateGroup)
    (candidate : CompactionInputSegment) : compaction (list CandidateGroup) :=
  let key := group_key (ci_descriptor candidate) in
  match list_find (λ g, cg_key g = key) groups with
  | Some (index, group) => group ← consider limits group candidate; Ok (<[index := group]> groups)
  | None => group ← consider limits (CandidateGroup_new key) candidate; Ok (app groups [group])
  end.

(** The first group with a beneficial prefix. *)
Fixpoint first_beneficial (groups : list CandidateGroup) : option (list CompactionInputSegment) :=
  match groups with
  | [] => None
  | group :: rest =>
      match cg_beneficial_prefix_length group with
      | Some length => Some (take length (cg_candidates group))
      | None => first_beneficial rest
      end
  end.

Definition choose_candidate_group (candidates : list CompactionInputSegment) (limits : CompactionClaimLimits)
    : compaction (option (list CompactionInputSegment)) :=
  groups ← try_fold (route limits) [] candidates;
  Ok (first_beneficial groups).

(** ** The claim *)

Record CompactionRunClaim := {
  rc_run_id : Z;
  rc_source_id : SourceId;
  rc_schema : Schema.Schema;
  rc_event_day : NaiveDate;
  rc_inputs : list CompactionInputSegment;
  rc_input_rows : Z;
  rc_input_parquet_bytes : Z;
  rc_input_uncompressed_bytes : Z;
  rc_data_expires_at : DateTime;
}.

Definition datetime_max (a b : DateTime) : DateTime := if datetime_ltb b a then a else b.
Definition datetime_min (a b : DateTime) : DateTime := if datetime_ltb b a then b else a.

Definition materialize_claim (run_id : Z) (schema : Schema.Schema) (selected : list CompactionInputSegment)
    : compaction CompactionRunClaim :=
  match selected with
  | [] => Err (compaction_corrupt "claimed compaction run has no input segments")
  | first :: _ =>
      let key := group_key (ci_descriptor first) in
      let '(source_id, schema_id, event_day) := key in
      if (length selected <? 2)%nat
         || negb (Schema.s_source_id schema =? source_id)
         || negb (Schema.s_id schema =? schema_id)
         || existsb (λ c, bool_decide (group_key (ci_descriptor c) ≠ key)) selected
      then Err (compaction_corrupt "claimed compaction inputs are not one homogeneous group")
      else
      totals ← try_fold (λ totals c,
          let '(input_rows, parquet_bytes, uncompressed_bytes, data_expires_at) := totals in
          input_rows ← checked_sum input_rows (ci_rows c);
          parquet_bytes ← checked_sum parquet_bytes (ci_parquet_bytes c);
          uncompressed_bytes ← checked_sum uncompressed_bytes (ci_uncompressed_bytes c);
          Ok (input_rows, parquet_bytes, uncompressed_bytes, datetime_max data_expires_at (ci_data_expires_at c)))
        (0, 0, 0, ci_data_expires_at first) selected;
      let '(input_rows, parquet_bytes, uncompressed_bytes, data_expires_at) := totals in
      Ok {| rc_run_id := run_id; rc_source_id := Schema.s_source_id schema; rc_schema := schema;
            rc_event_day := event_day; rc_inputs := selected; rc_input_rows := input_rows;
            rc_input_parquet_bytes := parquet_bytes; rc_input_uncompressed_bytes := uncompressed_bytes;
            rc_data_expires_at := data_expires_at |}
  end.

Definition building_run (now : DateTime) (run_id : Z) (key : CandidateGroupKey) : RunRow :=
  let '(source_id, schema_id, event_day) := key in
  {| rn_id := run_id; rn_source_id := source_id; rn_schema_id := schema_id; rn_event_day := event_day;
     rn_state := "BUILDING"; rn_failure_code := None; rn_created_at := now; rn_updated_at := now;
     rn_completed_at := None |}.

(** [SET claimed_by_compaction_run_id = run, updated_at = now] *)
Definition set_claim (run : option Z) (now : DateTime) (r : SegmentRow) : SegmentRow :=
  advance_segment r run (sg_state r) now (sg_data_expires_at r) (sg_published_at r) (sg_retired_at r)
    (sg_reclaim_after r).

Definition claim_compaction (now : DateTime) (run_id : Z) (limits : CompactionClaimLimits)
    (snapshot db : Database) : compaction (Database * option CompactionRunClaim) :=
  candidates ← load_candidates now limits snapshot;
  chosen ← choose_candidate_group candidates limits;
  match chosen with
  | None => Ok (db, None)
  | Some selected =>
      locked ← lock_selected_candidates now selected limits db;
      if bool_decide (locked ≠ selected) then
        Err (compaction_conflict "compaction candidates changed before their claim was locked")
      else
      first ← ok_or (head selected) (compaction_corrupt "beneficial compaction selection has no inputs");
      let key := group_key (ci_descriptor first) in
      db ← map_err compaction_write (insert_run db (building_run now run_id key));
      let selected_ids := (λ c, sd_segment_id (ci_descriptor c)) <$> selected in
      updated ← map_err compaction_write
        (update_segments db (λ r, bool_decide (sg_id r ∈ selected_ids) && bool_decide (sg_state r = "ACTIVE")
                                  && is_null (sg_claimed_by r))
           (λ r, Some (set_claim (Some run_id) now r)));
      let '(db, affected) := updated in
      _ ← require_rows affected (Z.of_nat (length selected))
            "locked compaction inputs were not claimed exactly once";
      schema ← ok_or (db_schemas db !! (sd_source_id (ci_descriptor first), sd_schema_id (ci_descriptor first)))
                 (compaction_corrupt "compaction schema is missing");
      claim ← materialize_claim run_id schema selected;
      Ok (db, Some claim)
  end.

(** ** Outputs *)

Record CompactionOutputRegistration := {
  co_run_id : Z;
  co_descriptor : SegmentDescriptor;
  co_data_expires_at : DateTime;
}.

Definition database_output_row_count (value : Z) : result CompactionModelError Z :=
  ok_or (narrow I64 value) OutputRowCountOutOfRange.
Definition database_output_uncompressed_bytes (value : Z) : result CompactionModelError Z :=
  ok_or (narrow I64 value) OutputUncompressedBytesOutOfRange.
Definition output_object_byte_size (d : ObjectDescriptor) : result CompactionModelError Z :=
  ok_or (narrow I64 (od_expected_byte_size d)) OutputObjectBytesOutOfRange.
Definition output_object_format_version (d : ObjectDescriptor) : result CompactionModelError Z :=
  ok_or (narrow I64 (od_format_version d)) OutputObjectFormatVersionOutOfRange.

Definition CompactionOutputRegistration_new (run_id : Z) (d : SegmentDescriptor) (data_expires_at : DateTime)
    : result CompactionModelError CompactionOutputRegistration :=
  if negb (od_format_version (sd_object d) =? PARQUET_FORMAT_VERSION) then Err OutputObjectFormatVersionUnsupported
  else if negb (Z.rem (timestamp_subsec_nanos data_expires_at) 1000 =? 0)
  then Err OutputRetentionPrecisionUnsupported
  else
  _ ← database_output_row_count (sd_row_count d);
  _ ← database_output_uncompressed_bytes (sd_uncompressed_bytes d);
  _ ← output_object_byte_size (sd_object d);
  _ ← output_object_format_version (sd_object d);
  Ok {| co_run_id := run_id; co_descriptor := d; co_data_expires_at := data_expires_at |}.

Inductive CompactionOutputRegistrationOutcome := OutputsRegistered | OutputsAlreadyRegistered.

Definition co_segment_id (o : CompactionOutputRegistration) : SegmentId := sd_segment_id (co_descriptor o).
Definition co_object_id (o : CompactionOutputRegistration) : StoredObjectId :=
  k_object_id (od_key (sd_object (co_descriptor o))).

Definition validate_output_identities (run_id : Z) (outputs : list CompactionOutputRegistration) : compaction unit :=
  seen ← try_fold (λ seen output,
      let '(segment_ids, object_ids) := seen in
      if negb (co_run_id output =? run_id) then
        Err (compaction_conflict "compaction output belongs to a different run")
      else if bool_decide (co_segment_id output ∈ segment_ids) || bool_decide (co_object_id output ∈ object_ids) then
        Err (compaction_conflict "compaction output identities are duplicated")
      else Ok ({[co_segment_id output]} ∪ segment_ids, {[co_object_id output]} ∪ object_ids))
    ((∅, ∅) : gset Z * gset Z) outputs;
  let _ := seen in Ok tt.

(** The bounds of a set of segments, as the loops accumulate them. *)
Record TimeBounds := {
  tb_minimum_event_time : DateTime;
  tb_maximum_event_time : DateTime;
  tb_minimum_ingestion_time : DateTime;
  tb_maximum_ingestion_time : DateTime;
}.

#[export] Instance TimeBounds_eq_dec : EqDecision TimeBounds.
Proof. solve_decision. Defined.

Definition bounds_of (t : SegmentTimes) : TimeBounds :=
  {| tb_minimum_event_time := minimum_event_time t; tb_maximum_event_time := maximum_event_time t;
     tb_minimum_ingestion_time := minimum_ingestion_time t;
     tb_maximum_ingestion_time := maximum_ingestion_time t |}.

Definition widen (b : TimeBounds) (t : SegmentTimes) : TimeBounds :=
  {| tb_minimum_event_time := datetime_min (tb_minimum_event_time b) (minimum_event_time t);
     tb_maximum_event_time := datetime_max (tb_maximum_event_time b) (maximum_event_time t);
     tb_minimum_ingestion_time := datetime_min (tb_minimum_ingestion_time b) (minimum_ingestion_time t);
     tb_maximum_ingestion_time := datetime_max (tb_maximum_ingestion_time b) (maximum_ingestion_time t) |}.

(** The outputs and inputs the code indexes are there: the caller refuses an empty list of
    outputs, and too few inputs are refused first. *)

(** The loop over the inputs: the identities seen, the rows, the bounds and the deadline. *)
Definition total_input (run : RunRow) (totals : gset Z * Z * TimeBounds * DateTime) (input : SegmentRow * DateTime)
    : compaction (gset Z * Z * TimeBounds * DateTime) :=
  let '(input_ids, input_rows, bounds, deadline) := totals in
  let '(row, data_expires_at) := input in
  let c := sg_columns row in
  if bool_decide (sc_segment_id c ∈ input_ids) || negb (bool_decide (sg_state row = "ACTIVE"))
     || negb (sc_source_id c =? rn_source_id run) || negb (sc_schema_id c =? rn_schema_id run)
     || negb (bool_decide (sg_event_day row = rn_event_day run))
  then Err (compaction_conflict "compaction inputs are no longer active and homogeneous")
  else
  count ← positive_u64 (sc_row_count c) "claimed input row count is invalid";
  input_rows ← checked_sum input_rows count;
  Ok ({[sc_segment_id c]} ∪ input_ids, input_rows, widen bounds (sc_times c), datetime_max deadline data_expires_at).

Definition total_output (run : RunRow) (input_deadline : DateTime) (totals : Z * TimeBounds)
    (output : CompactionOutputRegistration) : compaction (Z * TimeBounds) :=
  let '(output_rows, bounds) := totals in
  let d := co_descriptor output in
  if negb (sd_source_id d =? rn_source_id run) || negb (sd_schema_id d =? rn_schema_id run)
     || negb (bool_decide (event_day (sd_times d) = rn_event_day run))
     || negb (bool_decide (co_data_expires_at output = input_deadline))
  then Err (compaction_conflict "compaction output owner, day, or retention differs from its inputs")
  else
  output_rows ← checked_sum output_rows (sd_row_count d);
  Ok (output_rows, widen bounds (sd_times d)).

Definition validate_registered_output_set (run : RunRow) (inputs : list (SegmentRow * DateTime))
    (outputs : list CompactionOutputRegistration) : compaction unit :=
  first_output ← ok_or (head outputs) (compaction_corrupt "locked compaction run identity changed");
  if negb (rn_id run =? co_run_id first_output)
  then Err (compaction_corrupt "locked compaction run identity changed")
  else
  let few_inputs := compaction_conflict "compaction output count does not reduce its inputs" in
  if (length inputs <? 2)%nat || (length inputs <=? length outputs)%nat then Err few_inputs
  else
  first_input ← ok_or (head inputs) few_inputs;
  input_totals ← try_fold (total_input run)
    (∅, 0, bounds_of (sc_times (sg_columns first_input.1)), first_input.2) inputs;
  let '(_, input_rows, input_bounds, input_deadline) := input_totals in
  output_totals ← try_fold (total_output run input_deadline)
    (0, bounds_of (sd_times (co_descriptor first_output))) outputs;
  let '(output_rows, output_bounds) := output_totals in
  if negb (output_rows =? input_rows) || negb (bool_decide (output_bounds = input_bounds))
  then Err (compaction_conflict "compaction output totals or time bounds differ from its inputs")
  else Ok tt.

Definition output_segment_row (now : DateTime) (output : CompactionOutputRegistration)
    (row_count uncompressed_bytes : Z) : SegmentRow :=
  let d := co_descriptor output in
  prepared_segment now
    {| sc_segment_id := sd_segment_id d; sc_source_id := sd_source_id d; sc_schema_id := sd_schema_id d;
       sc_origin := "COMPACTION"; sc_produced_by := Some (co_run_id output); sc_times := sd_times d;
       sc_row_count := row_count; sc_uncompressed_bytes := uncompressed_bytes |}
    (Some (co_data_expires_at output)).

Definition insert_compaction_output (now : DateTime) (db : Database) (output : CompactionOutputRegistration)
    : compaction Database :=
  let d := co_descriptor output in
  row_count ← map_err compaction_model (database_output_row_count (sd_row_count d));
  uncompressed ← map_err compaction_model (database_output_uncompressed_bytes (sd_uncompressed_bytes d));
  db ← map_err compaction_write (insert_segment db (output_segment_row now output row_count uncompressed));
  byte_size ← map_err compaction_model (output_object_byte_size (sd_object d));
  format_version ← map_err compaction_model (output_object_format_version (sd_object d));
  map_err compaction_write
    (insert_object db (planned_object now
       (object_columns (sd_object d) (OwnerSegment (sd_segment_id d)) byte_size format_version))).

Definition insert_compaction_outputs (now : DateTime) (outputs : list CompactionOutputRegistration) (db : Database)
    : compaction Database :=
  try_fold (insert_compaction_output now) db outputs.

(** The comparison stops at the first difference. *)
Definition stored_output_matches (r : CandidateRow) (output : CompactionOutputRegistration) : compaction bool :=
  let s := cr_segment r in
  let c := sg_columns s in
  let o := ob_columns (cr_object r) in
  let d := co_descriptor output in
  if bool_decide (sg_state s = "PREPARED")
     && bool_decide (ob_state (cr_object r) ∈ ["PLANNED"; "UPLOADED"])
     && (sc_segment_id c =? sd_segment_id d) && (sc_source_id c =? sd_source_id d)
     && (sc_schema_id c =? sd_schema_id d) && bool_decide (sc_produced_by c = Some (co_run_id output))
     && bool_decide (sc_times c = sd_times d)
  then
    row_count ← map_err compaction_model (database_output_row_count (sd_row_count d));
    if sc_row_count c =? row_count then
      uncompressed ← map_err compaction_model (database_output_uncompressed_bytes (sd_uncompressed_bytes d));
      if (sc_uncompressed_bytes c =? uncompressed)
         && bool_decide (sg_data_expires_at s = Some (co_data_expires_at output))
         && (oc_object_id o =? co_object_id output) && bool_decide (oc_object_key o = k_path (od_key (sd_object d)))
      then
        byte_size ← map_err compaction_model (output_object_byte_size (sd_object d));
        if (oc_expected_byte_size o =? byte_size) && bool_decide (oc_digest o = od_digest (sd_object d))
           && bool_decide (oc_media_type o = media_type_as_str (od_media_type (sd_object d)))
        then
          format_version ← map_err compaction_model (output_object_format_version (sd_object d));
          Ok (oc_format_version o =? format_version)
        else Ok false
      else Ok false
    else Ok false
  else Ok false.

Definition validate_existing_outputs (run_id : Z) (outputs : list CompactionOutputRegistration) (db : Database)
    : compaction unit :=
  let stored := merge_sort (id_order (λ r, sg_id (cr_segment r)))
    (filter (λ r, sg_produced_by (cr_segment r) = Some run_id) (joined db)) in
  _ ← try_map (λ r, map_err compaction_read (ok_or (sg_data_expires_at (cr_segment r)) Decode)) stored;
  let expected := merge_sort (id_order co_segment_id) outputs in
  if negb (length stored =? length expected)%nat
  then Err (compaction_conflict "registered compaction output count differs from the retry")
  else
  _ ← try_map (λ x, matches ← stored_output_matches x.1 x.2;
                    check matches (compaction_conflict "registered compaction output metadata differs from the retry"))
        (zip stored expected);
  Ok tt.

Definition load_claimed_inputs (run_id : Z) (db : Database) : compaction (list (SegmentRow * DateTime)) :=
  try_map (λ r, deadline ← map_err compaction_read (ok_or (sg_data_expires_at r) Decode); Ok (r, deadline))
    (select_by_id (λ r, bool_decide (sg_claimed_by r = Some run_id)) sg_id (db_segments db)).

(** [SET state = s, updated_at = now] and the columns of a finished run *)
Definition set_run (r : RunRow) (state : string) (failure_code : option string) (completed_at : option DateTime)
    (now : DateTime) : RunRow :=
  {| rn_id := rn_id r; rn_source_id := rn_source_id r; rn_schema_id := rn_schema_id r;
     rn_event_day := rn_event_day r; rn_state := state; rn_failure_code := failure_code;
     rn_created_at := rn_created_at r; rn_updated_at := now; rn_completed_at := completed_at |}.

Definition register_outputs (now : DateTime) (run_id : Z) (outputs : list CompactionOutputRegistration)
    (db : Database) : compaction (Database * CompactionOutputRegistrationOutcome) :=
  if (length outputs =? 0)%nat || (Z.of_nat (length outputs) >? MAXIMUM_COMPACTION_OUTPUT_SEGMENTS)
  then Err (compaction_conflict "compaction output count is outside its bounded range")
  else
  _ ← validate_output_identities run_id outputs;
  run ← ok_or (db_runs db !! run_id) (compaction_conflict "compaction run is not registered");
  inputs ← load_claimed_inputs run_id db;
  _ ← validate_registered_output_set run inputs outputs;
  if decide (rn_state run = "BUILDING") then
    db ← insert_compaction_outputs now outputs db;
    updated ← map_err compaction_write
      (update_runs db (λ r, (rn_id r =? run_id) && bool_decide (rn_state r = "BUILDING"))
         (λ r, Some (set_run r "UPLOADING" (rn_failure_code r) (rn_completed_at r) now)));
    let '(db, affected) := updated in
    _ ← require_rows affected 1 "locked building compaction run did not advance to uploading";
    Ok (db, OutputsRegistered)
  else if decide (rn_state run = "UPLOADING") then
    _ ← validate_existing_outputs run_id outputs db;
    Ok (db, OutputsAlreadyRegistered)
  else if decide (rn_state run ∈ ["COMMITTED"; "FAILED"]) then
    Err (compaction_conflict "terminal compaction run cannot register outputs")
  else Err (compaction_corrupt "compaction run has an unknown lifecycle state").

End Compaction.
