(* ===== verification/CompactionChoice.v ===== *)
(** * elucid-metastore: the choice of a compaction group

    The loop that routes candidates into groups and stops each group at its limits, against
    a definition of what it computes: of the groups, in the order of their oldest
    candidate, the first that has a prefix worth merging, and of that group the longest
    such prefix. *)

From S2P Require Import Prelude Core ErrorCode CatalogTypes CatalogModel Bytes Frame Storage Database Publication Compaction.

#[local] Open Scope Z_scope.

Section Choice.
Context {calendar : Calendar}.

Implicit Types (c : CompactionInputSegment) (l : list CompactionInputSegment) (key : CandidateGroupKey).

(** ** The specification *)

Definition c_key c : CandidateGroupKey := group_key (ci_descriptor c).

Definition total (f : CompactionInputSegment → Z) l : Z := sum_Z (f <$> l).

(** Inputs within the limits of a run. *)
Definition within (limits : CompactionClaimLimits) l : bool :=
  (Z.of_nat (length l) <=? maximum_input_segments limits) && (total ci_rows l <=? maximum_input_rows limits)
  && (total ci_parquet_bytes l <=? maximum_input_parquet_bytes limits)
  && (total ci_uncompressed_bytes l <=? maximum_input_uncompressed_bytes limits).

(** The outputs that a merge is expected to have. *)
Definition expected_outputs (limits : CompactionClaimLimits) l : Z :=
  Z.max (ceiling_dividend (total ci_rows l) (target_output_rows limits))
        (ceiling_dividend (total ci_uncompressed_bytes l) (target_output_uncompressed_bytes limits)).

Definition beneficial (limits : CompactionClaimLimits) l : bool :=
  expected_outputs limits l <? Z.of_nat (length l).

(** The length, at most [n], of the longest prefix that fits and is worth merging. *)
Fixpoint longest (limits : CompactionClaimLimits) l (n : nat) : option nat :=
  match n with
  | O => None
  | S m => if within limits (take n l) && beneficial limits (take n l) then Some n else longest limits l m
  end.

Definition best_prefix (limits : CompactionClaimLimits) l : option (list CompactionInputSegment) :=
  (λ n, take n l) <$> longest limits l (length l).

Definition of_key key l : list CompactionInputSegment := filter (λ c, c_key c = key) l.

(** The keys in the order of their first candidate. *)
Definition add_key (keys : list CandidateGroupKey) c : list CandidateGroupKey :=
  if bool_decide (c_key c ∈ keys) then keys else app keys [c_key c].
Definition keys_of l : list CandidateGroupKey := foldl add_key [] l.

Definition chosen_group (limits : CompactionClaimLimits) l : option (list CompactionInputSegment) :=
  head (omap (λ key, best_prefix limits (of_key key l)) (keys_of l)).

(** What a stored candidate has: counts of a bigint column, positive. *)
Definition candidate_ok c : Prop :=
  0 < ci_rows c ≤ int_max I64 ∧ 0 < ci_parquet_bytes c ≤ int_max I64 ∧ 0 < ci_uncompressed_bytes c ≤ int_max I64.

(** What validated limits have. *)
Record limits_ok (limits : CompactionClaimLimits) : Prop := {
  lo_segments : 2 ≤ maximum_input_segments limits ≤ MAXIMUM_COMPACTION_INPUT_SEGMENTS;
  lo_rows : 0 < maximum_input_rows limits ≤ int_max I64;
  lo_parquet : 0 < maximum_input_parquet_bytes limits ≤ int_max I64;
  lo_uncompressed : 0 < maximum_input_uncompressed_bytes limits ≤ int_max I64;
  lo_target_rows : 0 < target_output_rows limits;
  lo_target_bytes : 0 < target_output_uncompressed_bytes limits;
}.

(** A configuration of unsigned integers. *)
Record configuration_ok (conf : CompactionClaimLimitConfiguration) : Prop := {
  cf_rows : 0 ≤ cc_maximum_input_rows conf;
  cf_parquet : 0 ≤ cc_maximum_input_parquet_bytes conf;
  cf_uncompressed : 0 ≤ cc_maximum_input_uncompressed_bytes conf;
  cf_target_rows : 0 ≤ cc_target_output_rows conf;
  cf_target_bytes : 0 ≤ cc_target_output_uncompressed_bytes conf;
}.

Lemma CompactionClaimLimits_new_ok conf limits :
  configuration_ok conf → CompactionClaimLimits_new conf = Ok limits → limits_ok limits.
Proof.
  intros [Hr Hp Hu Htr Htb] Hn. unfold CompactionClaimLimits_new in Hn.
  destruct (_ || _) eqn:E1 in Hn; [done|]. destruct (_ || _) eqn:E2 in Hn; [done|].
  destruct (_ <? _) eqn:E3 in Hn; [done|]. destruct (_ || _) eqn:E4 in Hn; [done|].
  destruct (_ || _) eqn:E5 in Hn; [done|]. rewrite !orb_false_iff in *. inv_ok. cbn [try_map] in *. inv_ok.
  repeat match goal with Hx : narrow _ _ = Some _ |- _ => apply narrow_Some in Hx as [-> ?] end.
  unfold MAXIMUM_COMPACTION_INPUT_SEGMENTS in *. rewrite ?Z.gtb_ltb in *.
  split; cbn [maximum_input_segments maximum_input_rows maximum_input_parquet_bytes maximum_input_uncompressed_bytes
    target_output_rows target_output_uncompressed_bytes]; unfold MAXIMUM_COMPACTION_INPUT_SEGMENTS in *; try lia.
Qed.

(** ** Prefixes *)

Section Proofs.
Variable limits : CompactionClaimLimits.
Hypothesis Hlimits : limits_ok limits.

Lemma total_app f l k : total f (l ++ k) = total f l + total f k.
Proof. unfold total. by rewrite fmap_app, sum_Z_app. Qed.

Lemma total_snoc f l c : total f (l ++ [c]) = total f l + f c.
Proof. rewrite total_app. unfold total. cbn. lia. Qed.

Lemma total_nonneg l : Forall candidate_ok l →
  0 ≤ total ci_rows l ∧ 0 ≤ total ci_parquet_bytes l ∧ 0 ≤ total ci_uncompressed_bytes l.
Proof.
  rewrite Forall_forall. unfold candidate_ok. intros Hl.
  split; [|split]; apply sum_Z_nonneg; intros c Hc; destruct (Hl c Hc); lia.
Qed.

Lemma within_prefix l k : Forall candidate_ok (l ++ k) → within limits (l ++ k) = true → within limits l = true.
Proof.
  intros [_ Hk%total_nonneg]%Forall_app Hw. unfold within in *. rewrite !total_app, length_app in Hw.
  rewrite !andb_true_iff, !Z.leb_le in *. lia.
Qed.

Lemma within_take l n m :
  Forall candidate_ok l → (n ≤ m)%nat → within limits (take m l) = true → within limits (take n l) = true.
Proof.
  intros Hl Hnm Hw. rewrite <- (take_drop n (take m l)), take_take, Nat.min_l in Hw by done.
  eapply within_prefix; [|exact Hw].
  rewrite <- (Nat.min_l n m) at 1 by done. rewrite <- take_take, take_drop. by apply Forall_take.
Qed.

Lemma longest_Some l n k : longest limits l n = Some k →
  (0 < k ≤ n)%nat ∧ within limits (take k l) = true ∧ beneficial limits (take k l) = true.
Proof.
  induction n as [|n IH]; [done|]. cbn [longest]. destruct (_ && _) eqn:E.
  - intros [= <-]. apply andb_true_iff in E. split; [lia | done].
  - intros Hk%IH. split; [lia | apply Hk].
Qed.

Lemma longest_app l c n : (n ≤ length l)%nat → longest limits (l ++ [c]) n = longest limits l n.
Proof. induction n as [|n IH]; intros Hn; [done|]. cbn [longest]. by rewrite take_app_le, IH by lia. Qed.

(** Beyond the first prefix over the limits there is nothing to find. *)
Lemma longest_beyond l n m :
  Forall candidate_ok l → (n ≤ m)%nat → (n < m → within limits (take (S n) l) = false)%nat →
  longest limits l m = longest limits l n.
Proof.
  intros Hl Hnm Hover. induction m as [|m IH]; [by replace n with O by lia|].
  destruct (decide (n = S m)) as [->|Hn]; [done|]. cbn [longest].
  destruct (within limits (take (S m) l)) eqn:E; cbn [andb]; [|apply IH; [lia | intros _; apply Hover; lia]].
  apply (within_take l (S n)) in E; [|done | lia]. rewrite Hover in E by lia. done.
Qed.

(** ** A group *)

(** What a group has seen of the candidates [l] of its key: their first [n], with all
    that fit. *)
Record group_inv key l (n : nat) (g : CandidateGroup) : Prop := {
  gi_key : cg_key g = key;
  gi_seen : (n ≤ length l)%nat;
  gi_candidates : cg_candidates g = take n l;
  gi_rows : cg_input_rows g = total ci_rows (take n l);
  gi_parquet : cg_input_parquet_bytes g = total ci_parquet_bytes (take n l);
  gi_uncompressed : cg_input_uncompressed_bytes g = total ci_uncompressed_bytes (take n l);
  gi_within : within limits (take n l) = true;
  gi_stopped : cg_stopped g = true ↔ (n < length l)%nat;
  gi_over : (n < length l → within limits (take (S n) l) = false)%nat;
  gi_prefix : cg_beneficial_prefix_length g = longest limits l n;
}.

Lemma group_new_inv key : group_inv key [] 0 (CandidateGroup_new key).
Proof.
  destruct Hlimits. split; try done; cbn; try lia.
  unfold within. cbn. rewrite !andb_true_iff, !Z.leb_le. unfold total. cbn. lia.
Qed.

Lemma checked_sum_fits a b : 0 ≤ a ≤ int_max I64 → 0 ≤ b ≤ int_max I64 → checked_sum a b = Ok (a + b).
Proof.
  intros Ha Hb. unfold checked_sum, checked_add. rewrite (proj2 (narrow_Some U64 (a + b) (a + b))); [done|].
  split; [done|]. cbn in *. lia.
Qed.

(** The stop of a group that the next candidate would take over the limits. *)
Lemma stop_inv key l c g :
  group_inv key l (length l) g → within limits (l ++ [c]) = false → group_inv key (l ++ [c]) (length l) (stop g).
Proof.
  intros [Hk _ Hc Hr Hp Hu Hw _ _ Hb] Hover. rewrite firstn_all in *.
  split; cbn [stop cg_key cg_candidates cg_input_rows cg_input_parquet_bytes cg_input_uncompressed_bytes cg_stopped
    cg_beneficial_prefix_length]; rewrite ?length_app, ?take_app_length; cbn [length]; try done; try lia.
  - intros _. by rewrite firstn_all2 by (rewrite length_app; cbn; lia).
  - by rewrite longest_app by lia.
Qed.

Lemma consider_inv key l n g c :
  Forall candidate_ok (l ++ [c]) → c_key c = key → group_inv key l n g →
  ∃ n' g', consider limits g c = Ok g' ∧ group_inv key (l ++ [c]) n' g'.
Proof.
  intros Hok Hkey Hg. pose proof Hg as [Hk Hn Hc Hr Hp Hu Hw Hs Ho Hb]. unfold consider.
  destruct (cg_stopped g) eqn:Es.
  { exists n, g. split; [done|]. pose proof (proj1 Hs eq_refl) as Hlt.
    split; rewrite ?length_app; cbn [length]; rewrite ?take_app_le by lia; try done; try lia.
    - rewrite Es. split; [lia | done].
    - intros _. auto.
    - by rewrite longest_app by lia. }
  assert (n = length l) as -> by (destruct (decide (n = length l)); [done|]; assert (Hx : (n < length l)%nat) by lia;
    apply Hs in Hx; done).
  rewrite firstn_all in *. rewrite bool_decide_false by (rewrite Hk; auto). rewrite Hc.
  pose proof Hok as [(H1 & H2 & H3)%total_nonneg (Hc1 & Hc2 & Hc3)%Forall_singleton]%Forall_app.
  assert (Hin := Hw). unfold within in Hin. rewrite !andb_true_iff, !Z.leb_le in Hin. destruct Hin as [[[Hl1 Hl2] Hl3] Hl4].
  pose proof Hlimits as [L1 L2 L3 L4 _ _].
  destruct (Z.eqb_spec (Z.of_nat (length l)) (maximum_input_segments limits)) as [Hmax|Hmax].
  { exists (length l), (stop g). split; [done|]. apply stop_inv; [done|]. unfold within. rewrite length_app. cbn [length].
    rewrite (proj2 (Z.leb_gt _ _)) by lia. done. }
  rewrite !checked_sum_fits by (rewrite ?Hr, ?Hp, ?Hu; lia). rewrite !bind_ret, Hr, Hp, Hu, <- !total_snoc.
  destruct (_ || _) eqn:Ew; rewrite ?Z.gtb_ltb in Ew.
  { exists (length l), (stop g). split; [done|]. apply stop_inv; [done|]. unfold within. apply not_true_iff_false.
    rewrite !andb_true_iff, !Z.leb_le. rewrite !orb_true_iff, !Z.ltb_lt in Ew. lia. }
  rewrite !orb_false_iff, !Z.ltb_ge in Ew.
  assert (Hlen : Z.of_nat (length (l ++ [c])) ≤ maximum_input_segments limits) by (rewrite length_app; cbn [length]; lia).
  assert (Hwin : within limits (l ++ [c]) = true) by (unfold within; rewrite !andb_true_iff, !Z.leb_le; lia).
  rewrite (proj2 (narrow_Some U64 (Z.of_nat (length (l ++ [c]))) (Z.of_nat (length (l ++ [c])))));
    [| split; [reflexivity|]; unfold MAXIMUM_COMPACTION_INPUT_SEGMENTS in *; cbn in *; lia].
  cbn [ok_or]. rewrite bind_ret. eexists (length (l ++ [c])), _. split; [done|].
  split; cbn [cg_key cg_candidates cg_input_rows cg_input_parquet_bytes cg_input_uncompressed_bytes cg_stopped
    cg_beneficial_prefix_length]; rewrite ?firstn_all; try done; try lia.
  assert (Hlong : longest limits (l ++ [c]) (length (l ++ [c])) =
    if beneficial limits (l ++ [c]) then Some (length (l ++ [c])) else longest limits l (length l)).
  { assert (Hlen' : length (l ++ [c]) = S (length l)) by (rewrite length_app; cbn; lia).
    rewrite Hlen' at 1. cbn [longest]. rewrite <- Hlen', firstn_all, Hwin. cbn [andb]. by rewrite longest_app by lia. }
  by rewrite Hlong, Hb.
Qed.

(** The best prefix of a group that has seen all candidates of its key. *)
Lemma group_best key l n g :
  Forall candidate_ok l → group_inv key l n g →
  (λ k, take k (cg_candidates g)) <$> cg_beneficial_prefix_length g = best_prefix limits l.
Proof.
  intros Hl Hg. destruct Hg. unfold best_prefix. rewrite (longest_beyond l n (length l)) by done.
  rewrite gi_prefix0, gi_candidates0. destruct (longest limits l n) as [k|] eqn:E; [|done]. cbn. f_equal.
  apply longest_Some in E as [[_ Hk] _]. by rewrite take_take, Nat.min_l.
Qed.

(** ** The groups *)

Lemma keys_of_snoc l c : keys_of (l ++ [c]) = add_key (keys_of l) c.
Proof. unfold keys_of. by rewrite foldl_app. Qed.

Lemma elem_of_keys_of key l : key ∈ keys_of l ↔ ∃ c, c ∈ l ∧ c_key c = key.
Proof.
  induction l as [|c l IH] using rev_ind; [set_solver|]. rewrite keys_of_snoc. unfold add_key.
  case_bool_decide; rewrite ?elem_of_app; setoid_rewrite elem_of_app; set_solver.
Qed.

Lemma NoDup_keys_of l : NoDup (keys_of l).
Proof.
  induction l as [|c l IH] using rev_ind; [constructor|]. rewrite keys_of_snoc. unfold add_key.
  case_bool_decide; [done|]. apply NoDup_app. split; [done|]. split; [set_solver | apply NoDup_singleton].
Qed.

Lemma of_key_snoc key l c : of_key key (l ++ [c]) = if decide (c_key c = key) then of_key key l ++ [c] else of_key key l.
Proof. unfold of_key. rewrite filter_app, filter_cons, filter_nil. case_decide; by rewrite ?app_nil_r. Qed.

Definition groups_inv l (gs : list CandidateGroup) : Prop :=
  Forall2 (λ key g, ∃ n, group_inv key (of_key key l) n g) (keys_of l) gs.

Lemma of_key_ok key l : Forall candidate_ok l → Forall candidate_ok (of_key key l).
Proof. rewrite !Forall_forall. intros Hl c [_ Hc]%list_elem_of_filter. auto. Qed.

Lemma of_key_other key l : key ∉ keys_of l → of_key key l = [].
Proof.
  rewrite elem_of_keys_of. intros Hk. unfold of_key. induction l as [|c l IH]; [done|].
  rewrite filter_cons_False by set_solver. apply IH. set_solver.
Qed.

Lemma groups_find l gs key index g :
  groups_inv l gs → list_find (λ g, cg_key g = key) gs = Some (index, g) →
  keys_of l !! index = Some key ∧ gs !! index = Some g ∧ ∃ n, group_inv key (of_key key l) n g.
Proof.
  intros Hg (Hi & Hk & _)%list_find_Some. destruct (Forall2_lookup_r _ _ _ _ _ Hg Hi) as (key' & Hkey & n & Hn).
  pose proof (gi_key _ _ _ _ Hn) as E. rewrite Hk in E. subst key'. eauto.
Qed.

Lemma groups_missing l gs key :
  groups_inv l gs → list_find (λ g, cg_key g = key) gs = None → key ∉ keys_of l.
Proof.
  intros Hg Hf Hin. apply list_elem_of_lookup in Hin as [i Hi].
  destruct (Forall2_lookup_l _ _ _ _ _ Hg Hi) as (g & Hgi & n & Hn). apply list_find_None in Hf.
  rewrite Forall_lookup in Hf. apply (Hf i g Hgi). by apply gi_key in Hn.
Qed.

Lemma route_inv l gs c :
  Forall candidate_ok (l ++ [c]) → groups_inv l gs →
  ∃ gs', route limits gs c = Ok gs' ∧ groups_inv (l ++ [c]) gs'.
Proof.
  intros Hok Hg. unfold route. fold (c_key c). unfold groups_inv. rewrite keys_of_snoc. unfold add_key.
  assert (Hnew : of_key (c_key c) (l ++ [c]) = of_key (c_key c) l ++ [c]) by (rewrite of_key_snoc; by rewrite decide_True).
  assert (Hokc : Forall candidate_ok (of_key (c_key c) l ++ [c])) by (rewrite <- Hnew; by apply of_key_ok).
  assert (Hold : ∀ key, key ≠ c_key c → of_key key (l ++ [c]) = of_key key l)
    by (intros key Hne; rewrite of_key_snoc; by rewrite decide_False by done).
  destruct (list_find _ gs) as [[index g]|] eqn:Ef.
  - destruct (groups_find _ _ _ _ _ Hg Ef) as (Hki & Hgi & n & Hn).
    destruct (consider_inv _ _ _ _ c Hokc eq_refl Hn) as (n' & g' & -> & Hg'). rewrite bind_ret.
    eexists. split; [done|]. rewrite bool_decide_true by (by eapply list_elem_of_lookup_2).
    apply Forall2_same_length_lookup_2; [rewrite length_insert; by eapply Forall2_length|].
    intros j key h Hj Hh. destruct (decide (index = j)) as [<-|Hne].
    + rewrite list_lookup_insert_eq in Hh by (by eapply lookup_lt_Some). injection Hh as <-.
      rewrite Hki in Hj. injection Hj as <-. rewrite Hnew. eauto.
    + rewrite list_lookup_insert_ne in Hh by done. rewrite Hold.
      * by apply (Forall2_lookup_lr _ _ _ _ _ _ Hg Hj).
      * intros ->. apply Hne. by eapply NoDup_lookup; [apply (NoDup_keys_of l) | ..].
  - pose proof (groups_missing _ _ _ Hg Ef) as Hmiss. rewrite bool_decide_false by done.
    assert (Hempty := of_key_other _ _ Hmiss). rewrite Hempty in *.
    destruct (consider_inv _ [] _ _ c Hokc eq_refl (group_new_inv (c_key c))) as (n' & g' & -> & Hg'). rewrite bind_ret.
    eexists. split; [done|]. apply Forall2_app.
    + apply Forall2_same_length_lookup_2; [by eapply Forall2_length|]. intros j key h Hj Hh. rewrite Hold.
      * by apply (Forall2_lookup_lr _ _ _ _ _ _ Hg Hj).
      * intros ->. apply Hmiss. by eapply list_elem_of_lookup_2.
    + constructor; [|constructor]. rewrite Hnew. eauto.
Qed.

Lemma routes_inv k l gs :
  Forall candidate_ok (l ++ k) → groups_inv l gs →
  ∃ gs', try_fold (route limits) gs k = Ok gs' ∧ groups_inv (l ++ k) gs'.
Proof.
  revert l gs; induction k as [|c k IH]; intros l gs Hok Hg; [exists gs; by rewrite app_nil_r|].
  change (c :: k) with ([c] ++ k) in *. rewrite app_assoc in *. cbn [app try_fold].
  destruct (route_inv l gs c) as (gs1 & Hr & Hg1); [by apply Forall_app in Hok as [? _] | done |].
  rewrite Hr, bind_ret. by apply IH.
Qed.

Lemma first_beneficial_best l gs :
  Forall candidate_ok l → groups_inv l gs → first_beneficial gs = chosen_group limits l.
Proof.
  intros Hok Hg. unfold chosen_group. unfold groups_inv in Hg.
  induction Hg as [|key g keys gs [n Hn] _ IH]; [done|]. cbn [first_beneficial omap list_omap].
  rewrite <- (group_best _ _ _ _ (of_key_ok key l Hok) Hn).
  destruct (cg_beneficial_prefix_length g) as [k|]; cbn; [done | exact IH].
Qed.

(** ** What a choice is good for *)

Lemma ceiling_positive value divisor : 0 < value → 0 < divisor → 1 ≤ ceiling_dividend value divisor.
Proof.
  intros Hv Hd. unfold ceiling_dividend. pose proof (Z.div_pos value divisor ltac:(lia) Hd).
  destruct (Z.eqb_spec (value `mod` divisor) 0) as [E|E]; [|lia].
  pose proof (Z.div_mod value divisor ltac:(lia)) as Hdm. rewrite E in Hdm. nia.
Qed.

Lemma chosen_spec l selected :
  Forall candidate_ok l → chosen_group limits l = Some selected →
  ∃ key k, selected = take k (of_key key l) ∧ within limits selected = true ∧ beneficial limits selected = true.
Proof.
  intros Hok. unfold chosen_group. generalize (keys_of l) as keys. induction keys as [|key keys IH]; [done|].
  cbn [omap list_omap]. unfold best_prefix at 1. destruct (longest limits (of_key key l) _) as [k|] eqn:E; [|exact IH].
  intros [= <-]. apply longest_Some in E as (_ & Hw & Hb). eauto.
Qed.

Lemma beneficial_two l : Forall candidate_ok l → beneficial limits l = true → (2 ≤ length l)%nat.
Proof.
  intros Hok Hb. unfold beneficial, expected_outputs in Hb. apply Z.ltb_lt in Hb. destruct Hlimits.
  destruct l as [|c l]; [change (total ci_rows []) with 0 in Hb; unfold ceiling_dividend at 1 in Hb;
    rewrite Z.div_0_l, Z.mod_0_l in Hb by lia; cbn [length Z.of_nat Z.eqb Z.add] in Hb; lia|].
  assert (Hpos : 0 < total ci_rows (c :: l)).
  { inversion Hok as [|? ? (Hc & _) Hl]; subst. pose proof (total_nonneg _ Hl). change (c :: l) with ([c] ++ l).
    rewrite total_app. unfold total at 1. cbn. lia. }
  pose proof (ceiling_positive _ _ Hpos lo_target_rows0). lia.
Qed.

End Proofs.

(** C38: the choice of a compaction group is total and exact. For limits the constructor
    accepts and candidates as the tables hold them, the loop succeeds, no resource total
    overflows, and its result is that of the definition: of the groups of one source,
    schema and day, in the order of their first candidate, the first with a prefix that
    fits the limits and whose expected outputs are fewer than its segments, and of that
    group the longest such prefix. So what is chosen are at least two candidates of one
    group in their order, within every limit of a run, and merging them is expected to
    reduce the number of segments. *)
Theorem choose_candidate_group_exact configuration limits l :
  configuration_ok configuration → CompactionClaimLimits_new configuration = Ok limits → Forall candidate_ok l →
  choose_candidate_group l limits = Ok (chosen_group limits l) ∧
  (∀ selected, chosen_group limits l = Some selected →
     selected `sublist_of` l ∧ (∃ key, ∀ c, c ∈ selected → c_key c = key) ∧ (2 ≤ length selected)%nat ∧
     within limits selected = true ∧ expected_outputs limits selected < Z.of_nat (length selected)).
Proof.
  intros Hconf Hnew Hok. pose proof (CompactionClaimLimits_new_ok _ _ Hconf Hnew) as Hl. split.
  - unfold choose_candidate_group. destruct (routes_inv limits Hl l [] [] Hok) as (gs & -> & Hg); [constructor|].
    rewrite bind_ret. f_equal. by apply first_beneficial_best.
  - intros selected Hs. destruct (chosen_spec limits l selected Hok Hs) as (key & k & -> & Hw & Hb).
    split; [|split; [|split; [|split; [done | by apply Z.ltb_lt]]]].
    + etransitivity; [apply sublist_take | apply sublist_filter].
    + exists key. intros c Hc%elem_of_take. destruct Hc as (i & Hi & _). apply list_elem_of_lookup_2 in Hi.
      by apply list_elem_of_filter in Hi as [? _].
    + apply (beneficial_two limits Hl); [|done]. by apply Forall_take, of_key_ok.
Qed.

End Choice.
