(* ===== verification/CompactionLifecycle.v ===== *)
(** * elucid-metastore: the lifecycle of compaction runs

    Models src/elucid/elucid-metastore/src/compaction_lifecycle.rs: the transaction that
    publishes the outputs of a run in place of its inputs, the one that fails a run, the
    recovery of runs left by a former owner, and how an uncertain commit is resolved from
    the durable state. *)

From S2P Require Import Prelude Core ErrorCode CatalogTypes CatalogModel Bytes Frame Storage Database Publication Compaction.

#[local] Open Scope string_scope.
#[local] Open Scope Z_scope.

Definition MAXIMUM_COMPACTION_RECOVERY_RUNS : Z := 1000.

Definition CompactionRecoveryLimit_new (runs : Z) : result CompactionModelError Z :=
  if (runs =? 0) || (runs >? MAXIMUM_COMPACTION_RECOVERY_RUNS)
  then Err (RecoveryLimitOutOfRange MAXIMUM_COMPACTION_RECOVERY_RUNS)
  else ok_or (narrow I64 runs) (RecoveryLimitOutOfRange MAXIMUM_COMPACTION_RECOVERY_RUNS).

Inductive CompactionFailureReason := InputInvalid | BuildFailed | NotBeneficial | PublicationFailed | RecoveryFailed.

Definition failure_error_code (reason : CompactionFailureReason) : ErrorCode :=
  match reason with
  | InputInvalid => CompactionInputInvalid
  | BuildFailed => CompactionBuildFailed
  | NotBeneficial => CompactionNotBeneficial
  | PublicationFailed => CompactionPublicationFailed
  | RecoveryFailed => CompactionRecoveryFailed
  end.

Definition CompactionFailureReason_as_str (reason : CompactionFailureReason) : string :=
  ErrorCode_as_str (failure_error_code reason).

Definition CompactionFailureReason_parse (value : string) : compaction CompactionFailureReason :=
  match ErrorCode_from_str value with
  | Ok CompactionInputInvalid => Ok InputInvalid
  | Ok CompactionBuildFailed => Ok BuildFailed
  | Ok CompactionNotBeneficial => Ok NotBeneficial
  | Ok CompactionPublicationFailed => Ok PublicationFailed
  | Ok CompactionRecoveryFailed => Ok RecoveryFailed
  | _ => Err (compaction_corrupt "compaction run has an unknown failure code")
  end.

Inductive CompactionPublicationOutcome := ReplacementPublished | ReplacementAlreadyPublished.
Inductive CompactionFailureOutcome := RunFailed | RunAlreadyFailed | RunAlreadyCommitted.

Inductive RunState := Building | Uploading | Committed | Failed.

(** What the client sees of a commit: success, or an error that leaves open whether the
    transaction was applied. *)
Inductive Commit := CommitSucceeds | CommitFails (e : SqlError) (applied : bool).

Section Lifecycle.
Context `{Postgres}.

(** ** Rows *)

Definition run_state (r : RunRow) : compaction RunState :=
  let failure := rn_failure_code r in
  let completed := rn_completed_at r in
  let contradicts := Err (compaction_corrupt "compaction run timestamps or failure code contradict its state") in
  if decide (rn_state r = "BUILDING") then
    if is_null failure && is_null completed then Ok Building else contradicts
  else if decide (rn_state r = "UPLOADING") then
    if is_null failure && is_null completed then Ok Uploading else contradicts
  else if decide (rn_state r = "COMMITTED") then
    if is_null failure && negb (is_null completed) then Ok Committed else contradicts
  else if decide (rn_state r = "FAILED") then
    if negb (is_null failure) && negb (is_null completed) then Ok Failed else contradicts
  else Err (compaction_corrupt "compaction run has an unknown lifecycle state").

Definition run_failure_code (r : RunRow) : compaction CompactionFailureReason :=
  code ← ok_or (rn_failure_code r) (compaction_corrupt "failed compaction run has no failure code");
  CompactionFailureReason_parse code.

Definition matches_run (run : RunRow) (s : SegmentRow) : bool :=
  (sc_source_id (sg_columns s) =? rn_source_id run)
  && (sc_schema_id (sg_columns s) =? rn_schema_id run)
  && bool_decide (sg_event_day s = rn_event_day run).

Record ReplacementRows := {
  rr_run : RunRow;
  rr_inputs : list SegmentRow;
  rr_outputs : list SegmentRow;
  rr_objects : list ObjectRow;
}.

Record ReplacementTotals := {
  rt_rows : Z;
  rt_bounds : TimeBounds;
  rt_maximum_data_expires_at : DateTime;
}.

Definition positive_rows (rows : Z) : compaction Z :=
  positive_u64 rows "compaction segment row count is invalid".

Definition segment_deadline (s : SegmentRow) : compaction DateTime :=
  ok_or (sg_data_expires_at s) (compaction_corrupt "compaction segment has no retention deadline").

Definition add_to_totals (totals : ReplacementTotals) (s : SegmentRow) : compaction ReplacementTotals :=
  rows ← positive_rows (sc_row_count (sg_columns s));
  rows ← ok_or (checked_add U64 (rt_rows totals) rows) (compaction_corrupt "compaction row total overflowed");
  deadline ← segment_deadline s;
  Ok {| rt_rows := rows; rt_bounds := widen (rt_bounds totals) (sc_times (sg_columns s));
        rt_maximum_data_expires_at := datetime_max (rt_maximum_data_expires_at totals) deadline |}.

Definition totals_from_segments (segments : list SegmentRow) : compaction ReplacementTotals :=
  match segments with
  | [] => Err (compaction_corrupt "compaction replacement has no segments")
  | first :: rest =>
      rows ← positive_rows (sc_row_count (sg_columns first));
      deadline ← segment_deadline first;
      try_fold add_to_totals
        {| rt_rows := rows; rt_bounds := bounds_of (sc_times (sg_columns first));
           rt_maximum_data_expires_at := deadline |} rest
  end.

(** ** Loading *)

Definition load_replacement (run_id : Z) (db : Database) : compaction ReplacementRows :=
  run ← ok_or (db_runs db !! run_id) (compaction_conflict "compaction run is not registered");
  let input_limit := Z.to_nat (MAXIMUM_COMPACTION_INPUT_SEGMENTS + 1) in
  let inputs := take input_limit
    (select_by_id (λ r, bool_decide (sg_claimed_by r = Some run_id)) sg_id (db_segments db)) in
  _ ← check (Z.of_nat (length inputs) <=? MAXIMUM_COMPACTION_INPUT_SEGMENTS)
        (compaction_corrupt "compaction run has too many input segments");
  let output_limit := Z.to_nat (MAXIMUM_COMPACTION_OUTPUT_SEGMENTS + 1) in
  let outputs := take output_limit
    (select_by_id (λ r, bool_decide (sg_produced_by r = Some run_id)) sg_id (db_segments db)) in
  _ ← check (Z.of_nat (length outputs) <=? MAXIMUM_COMPACTION_OUTPUT_SEGMENTS)
        (compaction_corrupt "compaction run has too many output segments");
  let output_ids := sg_id <$> outputs in
  let owned (o : ObjectRow) :=
    match ob_segment_id o with Some id => bool_decide (id ∈ output_ids) | None => false end in
  let objects := select_by_id owned (λ o, default 0 (ob_segment_id o)) (db_objects db) in
  Ok {| rr_run := run; rr_inputs := inputs; rr_outputs := outputs; rr_objects := objects |}.

(** ** Validation *)

Definition validate_common_replacement (r : ReplacementRows) : compaction unit :=
  if (length (rr_inputs r) <? 2)%nat || (length (rr_outputs r) =? 0)%nat
     || (length (rr_inputs r) <=? length (rr_outputs r))%nat
     || negb (length (rr_objects r) =? length (rr_outputs r))%nat
  then Err (compaction_corrupt "compaction replacement has invalid input or output cardinality")
  else
  _ ← check (forallb (matches_run (rr_run r)) (rr_inputs r))
        (compaction_corrupt "compaction input ownership differs from its run");
  _ ← check (forallb (λ x, matches_run (rr_run r) x.1 && bool_decide (ob_segment_id x.2 = Some (sg_id x.1)))
               (zip (rr_outputs r) (rr_objects r)))
        (compaction_corrupt "compaction output ownership differs from its run or object");
  input ← totals_from_segments (rr_inputs r);
  output ← totals_from_segments (rr_outputs r);
  if negb (rt_rows input =? rt_rows output) || negb (bool_decide (rt_bounds input = rt_bounds output))
     || existsb (λ s, negb (bool_decide (sg_data_expires_at s = Some (rt_maximum_data_expires_at input))))
          (rr_outputs r)
  then Err (compaction_corrupt "compaction replacement totals, bounds, or retention differ")
  else Ok tt.

(** Neither retired nor to be reclaimed. *)
Definition not_retired (s : SegmentRow) : bool := is_null (sg_retired_at s) && is_null (sg_reclaim_after s).

Definition active_input (s : SegmentRow) : bool :=
  bool_decide (sg_state s = "ACTIVE") && negb (is_null (sg_published_at s)) && not_retired s.

Definition prepared_output (s : SegmentRow) : bool :=
  bool_decide (sg_state s = "PREPARED") && is_null (sg_published_at s) && not_retired s.

Definition not_deleted (o : ObjectRow) : bool := is_null (ob_delete_requested_at o) && is_null (ob_deleted_at o).

Definition uploaded_output (o : ObjectRow) : bool :=
  bool_decide (ob_kind o = "PARQUET_DATA") && bool_decide (ob_state o = "UPLOADED")
  && negb (is_null (ob_uploaded_at o)) && is_null (ob_published_at o) && not_deleted o.

Definition validate_prepublication (r : ReplacementRows) : compaction unit :=
  _ ← validate_common_replacement r;
  _ ← check (forallb active_input (rr_inputs r))
        (compaction_conflict "compaction inputs are not active at publication");
  _ ← check (forallb prepared_output (rr_outputs r))
        (compaction_conflict "compaction outputs are not prepared at publication");
  check (forallb uploaded_output (rr_objects r))
    (compaction_conflict "every compaction output object must be uploaded before publication").

Definition superseded_input (completed_at : DateTime) (s : SegmentRow) : bool :=
  bool_decide (sg_state s = "SUPERSEDED") && negb (is_null (sg_published_at s))
  && bool_decide (sg_retired_at s = Some completed_at)
  && match sg_reclaim_after s with Some t => datetime_ltb completed_at t | None => false end.

Definition active_output (completed_at : DateTime) (s : SegmentRow) : bool :=
  bool_decide (sg_state s = "ACTIVE") && bool_decide (sg_published_at s = Some completed_at) && not_retired s.

Definition published_output (completed_at : DateTime) (o : ObjectRow) : bool :=
  bool_decide (ob_kind o = "PARQUET_DATA") && bool_decide (ob_state o = "PUBLISHED")
  && negb (is_null (ob_uploaded_at o)) && bool_decide (ob_published_at o = Some completed_at) && not_deleted o.

Definition validate_committed (r : ReplacementRows) : compaction unit :=
  _ ← validate_common_replacement r;
  completed_at ← ok_or (rn_completed_at (rr_run r))
                   (compaction_corrupt "committed compaction run has no completion time");
  _ ← check (forallb (superseded_input completed_at) (rr_inputs r))
        (compaction_corrupt "committed compaction inputs are not superseded atomically");
  _ ← check (forallb (active_output completed_at) (rr_outputs r))
        (compaction_corrupt "committed compaction outputs are not active atomically");
  check (forallb (published_output completed_at) (rr_objects r))
    (compaction_corrupt "committed compaction objects are not published atomically").

Definition unpublished_object (o : ObjectRow) : bool :=
  bool_decide (ob_kind o = "PARQUET_DATA")
  && (bool_decide (ob_state o = "PLANNED") && is_null (ob_uploaded_at o)
      || bool_decide (ob_state o = "UPLOADED") && negb (is_null (ob_uploaded_at o)))
  && is_null (ob_published_at o) && not_deleted o.

Definition validate_failure_safe (r : ReplacementRows) : compaction unit :=
  _ ← check (negb (length (rr_inputs r) <? 2)%nat
             && forallb (λ s, matches_run (rr_run r) s && active_input s) (rr_inputs r))
        (compaction_corrupt "unfinished compaction inputs cannot be released safely");
  state ← run_state (rr_run r);
  match state with
  | Building =>
      if (length (rr_outputs r) =? 0)%nat && (length (rr_objects r) =? 0)%nat then Ok tt
      else Err (compaction_corrupt "building compaction run already has registered outputs")
  | Uploading =>
      _ ← validate_common_replacement r;
      check (forallb prepared_output (rr_outputs r) && forallb unpublished_object (rr_objects r))
        (compaction_corrupt "unfinished compaction outputs cannot be abandoned safely")
  | Committed | Failed =>
      Err (compaction_corrupt "terminal compaction run reached pre-publication failure cleanup")
  end.

Definition abandoned_output (s : SegmentRow) : bool :=
  bool_decide (sg_state s = "ABANDONED") && is_null (sg_published_at s) && negb (is_null (sg_retired_at s))
  && match sg_reclaim_after s, sg_retired_at s with
     | Some reclaim_after, Some retired_at => datetime_ltb retired_at reclaim_after
     | _, _ => false
     end.

Definition abandoned_object (o : ObjectRow) : bool :=
  bool_decide (ob_kind o = "PARQUET_DATA")
  && bool_decide (ob_state o ∈ ["PLANNED"; "UPLOADED"; "DELETE_PENDING"; "DELETED"])
  && is_null (ob_published_at o).

Definition validate_failed (r : ReplacementRows) : compaction unit :=
  _ ← run_failure_code (rr_run r);
  check ((length (rr_inputs r) =? 0)%nat && (length (rr_objects r) =? length (rr_outputs r))%nat
         && forallb (λ s, matches_run (rr_run r) s && abandoned_output s) (rr_outputs r)
         && forallb (λ x, bool_decide (ob_segment_id x.2 = Some (sg_id x.1)) && abandoned_object x.2)
              (zip (rr_outputs r) (rr_objects r)))
    (compaction_corrupt "failed compaction run was not cleaned up atomically").

(** ** Updates *)

Definition update_segments_exactly (db : Database) (p : SegmentRow → bool) (f : SegmentRow → option SegmentRow)
    (expected : nat) (message : string) : compaction Database :=
  updated ← map_err compaction_write (update_segments db p f);
  let '(db, affected) := updated in
  _ ← require_rows affected (Z.of_nat expected) message;
  Ok db.

Definition update_run_exactly (db : Database) (p : RunRow → bool) (f : RunRow → RunRow) (message : string)
    : compaction Database :=
  updated ← map_err compaction_write (update_runs db p (λ r, Some (f r)));
  let '(db, affected) := updated in
  _ ← require_rows affected 1 message;
  Ok db.

(** [SET state = 'ACTIVE', published_at = now], the deadline set at registration *)
Definition activate_output (now : DateTime) (r : SegmentRow) : SegmentRow :=
  advance_segment r (sg_claimed_by r) "ACTIVE" now (sg_data_expires_at r) (Some now) (sg_retired_at r)
    (sg_reclaim_after r).

Definition publish_locked_replacement (now : DateTime) (r : ReplacementRows) (grace : Z) (db : Database)
    : compaction Database :=
  let object_ids := ob_id <$> rr_objects r in
  updated ← map_err compaction_write
    (update_objects db (λ o, bool_decide (ob_id o ∈ object_ids) && bool_decide (ob_state o = "UPLOADED"))
       (λ o, Some (mark_published now o)));
  let '(db, affected) := updated in
  _ ← require_rows affected (Z.of_nat (length object_ids))
        "locked compaction output objects were not published exactly once";
  let output_ids := sg_id <$> rr_outputs r in
  db ← update_segments_exactly db
         (λ s, bool_decide (sg_id s ∈ output_ids) && bool_decide (sg_state s = "PREPARED"))
         (λ s, Some (activate_output now s)) (length output_ids)
         "locked compaction output segments were not activated exactly once";
  let input_ids := sg_id <$> rr_inputs r in
  let run_id := rn_id (rr_run r) in
  db ← update_segments_exactly db
         (λ s, bool_decide (sg_id s ∈ input_ids) && bool_decide (sg_state s = "ACTIVE")
               && bool_decide (sg_claimed_by s = Some run_id))
         (retire_segment "SUPERSEDED" now grace) (length input_ids)
         "locked compaction inputs were not superseded exactly once";
  update_run_exactly db (λ x, (rn_id x =? run_id) && bool_decide (rn_state x = "UPLOADING"))
    (λ x, set_run x "COMMITTED" (rn_failure_code x) (Some now) now)
    "locked compaction run was not committed exactly once".

Definition fail_locked_run (now : DateTime) (r : ReplacementRows) (reason : CompactionFailureReason) (grace : Z)
    (db : Database) : compaction Database :=
  let run_id := rn_id (rr_run r) in
  let input_ids := sg_id <$> rr_inputs r in
  db ← update_segments_exactly db
         (λ s, bool_decide (sg_id s ∈ input_ids) && bool_decide (sg_state s = "ACTIVE")
               && bool_decide (sg_claimed_by s = Some run_id))
         (λ s, Some (set_claim None now s)) (length input_ids)
         "locked compaction input claims were not released exactly once";
  let output_ids := sg_id <$> rr_outputs r in
  db ← (match output_ids with
        | [] => Ok db
        | _ =>
            update_segments_exactly db
              (λ s, bool_decide (sg_id s ∈ output_ids) && bool_decide (sg_state s = "PREPARED"))
              (retire_segment "ABANDONED" now grace) (length output_ids)
              "locked compaction outputs were not abandoned exactly once"
        end);
  update_run_exactly db (λ x, (rn_id x =? run_id) && bool_decide (rn_state x ∈ ["BUILDING"; "UPLOADING"]))
    (λ x, set_run x "FAILED" (Some (CompactionFailureReason_as_str reason)) (Some now) now)
    "locked compaction run was not failed exactly once".

(** ** Transactions, up to their commit *)

Definition publish_replacement_transaction (now : DateTime) (run_id grace : Z) (db : Database)
    : compaction (Database * CompactionPublicationOutcome) :=
  r ← load_replacement run_id db;
  state ← run_state (rr_run r);
  match state with
  | Uploading =>
      _ ← validate_prepublication r;
      db ← publish_locked_replacement now r grace db;
      Ok (db, ReplacementPublished)
  | Committed => _ ← validate_committed r; Ok (db, ReplacementAlreadyPublished)
  | Building => Err (compaction_conflict "compaction outputs must be uploaded before publication")
  | Failed => Err (compaction_conflict "failed compaction run cannot be published")
  end.

Definition fail_run_transaction (now : DateTime) (run_id : Z) (reason : CompactionFailureReason) (grace : Z)
    (db : Database) : compaction (Database * CompactionFailureOutcome) :=
  r ← load_replacement run_id db;
  state ← run_state (rr_run r);
  match state with
  | Building | Uploading =>
      _ ← validate_failure_safe r;
      db ← fail_locked_run now r reason grace db;
      Ok (db, RunFailed)
  | Failed => _ ← validate_failed r; Ok (db, RunAlreadyFailed)
  | Committed => _ ← validate_committed r; Ok (db, RunAlreadyCommitted)
  end.

Definition recover_run (now : DateTime) (grace : Z) (db : Database) (run_id : Z) : compaction Database :=
  r ← load_replacement run_id db;
  state ← run_state (rr_run r);
  match state with
  | Building | Uploading =>
      _ ← validate_failure_safe r;
      fail_locked_run now r RecoveryFailed grace db
  | _ => Err (compaction_corrupt "locked recovery candidate unexpectedly became terminal")
  end.

Definition unfinished (r : RunRow) : bool := bool_decide (rn_state r ∈ ["BUILDING"; "UPLOADING"]).

(** [FOR UPDATE] without [SKIP LOCKED]: no row is skipped. *)
Definition recover_unfinished_transaction (now : DateTime) (grace limit : Z) (db : Database)
    : compaction (Database * list Z) :=
  let run_ids := rn_id <$> select_limited unfinished (λ r, (rn_created_at r, rn_id r)) limit
                   (λ _, false) (db_runs db) in
  db ← try_fold (recover_run now grace) db run_ids;
  Ok (db, run_ids).

(** ** The resolution of an uncertain commit *)

Definition inspect_run (run_id : Z) (db : Database) : compaction RunState :=
  r ← load_replacement run_id db;
  state ← run_state (rr_run r);
  match state with
  | Building | Uploading => Ok state
  | Committed => _ ← validate_committed r; Ok state
  | Failed => _ ← validate_failed r; Ok state
  end.

Definition inspect_recovery (run_ids : list Z) (db : Database) : compaction bool :=
  match run_ids with
  | [] => Ok (negb (existsb unfinished (rows (db_runs db))))
  | _ =>
      let failed := length (filter (λ r, rn_id r ∈ run_ids ∧ rn_state r = "FAILED"
                              ∧ rn_failure_code r = Some "COMPACTION_RECOVERY_FAILED"
                              ∧ is_null (rn_completed_at r) = false) (rows (db_runs db))) in
      Ok (failed =? length run_ids)%nat
  end.

(** The tables after a transaction, and what its caller is told. *)
Definition commit_transaction {A} (commit : Commit) (db : Database) (result : compaction (Database * A))
    (resolve : SqlError → Database → A → compaction A) : Database * compaction A :=
  match result with
  | Err e => (db, Err e)
  | Ok (db', outcome) =>
      match commit with
      | CommitSucceeds => (db', Ok outcome)
      | CommitFails e applied => let db := if applied then db' else db in (db, resolve e db outcome)
      end
  end.

Definition publish_replacement (now : DateTime) (run_id grace : Z) (commit : Commit) (db : Database)
    : Database * compaction CompactionPublicationOutcome :=
  commit_transaction commit db (publish_replacement_transaction now run_id grace db) (λ e db _,
    match inspect_run run_id db with
    | Ok Committed => Ok ReplacementAlreadyPublished
    | Ok (Building | Uploading) => Err (compaction_write e)
    | Ok Failed => Err (compaction_conflict "failed compaction run cannot be published")
    | Err resolution => Err (ambiguous_commit e resolution)
    end).

Definition fail_run (now : DateTime) (run_id : Z) (reason : CompactionFailureReason) (grace : Z) (commit : Commit)
    (db : Database) : Database * compaction CompactionFailureOutcome :=
  commit_transaction commit db (fail_run_transaction now run_id reason grace db) (λ e db _,
    match inspect_run run_id db with
    | Ok Committed => Ok RunAlreadyCommitted
    | Ok Failed => Ok RunAlreadyFailed
    | Ok (Building | Uploading) => Err (compaction_write e)
    | Err resolution => Err (ambiguous_commit e resolution)
    end).

Definition recover_unfinished (now : DateTime) (grace limit : Z) (commit : Commit) (db : Database)
    : Database * compaction (list Z) :=
  commit_transaction commit db (recover_unfinished_transaction now grace limit db) (λ e db intended,
    match inspect_recovery intended db with
    | Ok true => Ok intended
    | Ok false => Err (compaction_write e)
    | Err resolution => Err (ambiguous_commit e resolution)
    end).

End Lifecycle.
