(* ===== verification/MetastoreInvariant.v ===== *)
(** * elucid-metastore: the constraints as an invariant

    The constraints of the tables hold after every statement that succeeds: [db_wf] is the
    invariant, with what each statement leaves in its table. *)

From S2P Require Import Prelude Core ErrorCode CatalogTypes CatalogModel Bytes Frame Storage Database.

#[local] Open Scope string_scope.
#[local] Open Scope Z_scope.

(** ** Facts about the statements

    Lemmas about the statements of Database: what an update, an insert or a delete leaves
    in a table, how many rows it affects, what a selection returns, and the invariant of
    the constraints, which every statement keeps. *)

(** ** Tables *)

Lemma elem_of_rows {R} (t : gmap Z R) r : r ∈ rows t ↔ ∃ k, t !! k = Some r.
Proof.
  unfold rows. rewrite list_elem_of_fmap. split.
  - intros ([k r'] & -> & Hr). apply elem_of_map_to_list in Hr. eauto.
  - intros [k Hk]. exists (k, r). split; [done | by apply elem_of_map_to_list].
Qed.

Lemma forallb_rows {R} (p : R → bool) (t : gmap Z R) :
  forallb p (rows t) = true ↔ ∀ k r, t !! k = Some r → p r = true.
Proof.
  rewrite forallb_forall. setoid_rewrite <- list_elem_of_In. setoid_rewrite elem_of_rows. naive_solver.
Qed.

(** Keys are the identities of the rows. *)
Definition keyed {R} (id : R → Z) (t : gmap Z R) : Prop := ∀ k r, t !! k = Some r → id r = k.

Lemma keyed_rows {R} (id : R → Z) (t : gmap Z R) : keyed id t → id <$> rows t = (map_to_list t).*1.
Proof.
  intros Hk. unfold rows. rewrite <- list_fmap_compose. apply list_fmap_ext. intros i [k r] Hi.
  apply Hk, elem_of_map_to_list. by eapply list_elem_of_lookup_2.
Qed.

Lemma NoDup_rows {R} (id : R → Z) (t : gmap Z R) : keyed id t → NoDup (id <$> rows t).
Proof. intros Hk. rewrite keyed_rows by done. apply NoDup_fst_map_to_list. Qed.

Lemma lookup_row {R} (id : R → Z) (t : gmap Z R) r : keyed id t → r ∈ rows t → t !! id r = Some r.
Proof. intros Hk (k & Hr)%elem_of_rows. by rewrite (Hk _ _ Hr). Qed.

(** ** Updates *)

(** What an update makes of a row. *)
Definition updated {R} (p : R → bool) (f : R → option R) (r : R) : R := if p r then default r (f r) else r.

Lemma update_rows_Ok {R} passes p f (t t' : gmap Z R) n :
  update_rows passes p f t = Ok (t', n) →
  (∀ k r, t !! k = Some r → p r = true → ∃ r', f r = Some r' ∧ passes r' = true) ∧
  t' = updated p f <$> t ∧ n = Z.of_nat (size (filter (λ kv, p kv.2 = true) t)).
Proof.
  unfold update_rows. set (hits := filter _ t). destruct (size (omap f hits) =? size hits)%nat eqn:Es; cbn [negb]; [|done].
  destruct (forallb passes (rows (omap f hits))) eqn:Ep; cbn [negb]; [|done]. intros [= <- <-].
  apply Nat.eqb_eq in Es. rewrite forallb_rows in Ep.
  assert (Hdom : dom (omap f hits) = dom hits).
  { apply set_subseteq_size_eq; [apply dom_omap_subseteq | rewrite !size_dom; lia]. }
  assert (Hhit : ∀ k r, t !! k = Some r → p r = true → hits !! k = Some r).
  { intros k r Hk Hp. unfold hits. by apply map_lookup_filter_Some. }
  assert (Hf : ∀ k r, t !! k = Some r → p r = true → ∃ r', f r = Some r' ∧ passes r' = true).
  { intros k r Hk Hp. assert (Hin : k ∈ dom (omap f hits)) by (rewrite Hdom; apply elem_of_dom; eauto).
    apply elem_of_dom in Hin as [r' Hr']. pose proof (Ep _ _ Hr') as Hpass. rewrite lookup_omap, (Hhit _ _ Hk Hp) in Hr'.
    cbn in Hr'. eauto. }
  split; [done|]. split; [|done]. apply map_eq. intros k. rewrite lookup_fmap, lookup_union, lookup_omap.
  unfold hits. rewrite map_lookup_filter. destruct (t !! k) as [r|] eqn:Ek; cbn; [|done].
  unfold updated. destruct (p r) eqn:Epr.
  - rewrite option_guard_True by done. cbn. destruct (Hf _ _ Ek Epr) as (r' & -> & _). done.
  - rewrite option_guard_False by done. done.
Qed.

(** An update whose rows stay legal succeeds. *)
Lemma update_rows_succeeds {R} passes p f (t : gmap Z R) :
  (∀ k r, t !! k = Some r → p r = true → ∃ r', f r = Some r' ∧ passes r' = true) →
  ∃ t', update_rows passes p f t = Ok (t', Z.of_nat (size (filter (λ kv, p kv.2 = true) t))).
Proof.
  intros Hf. unfold update_rows. set (hits := filter _ t).
  assert (Hdom : dom (omap f hits) = dom hits).
  { apply set_eq. intros k. rewrite !elem_of_dom, lookup_omap. unfold hits. rewrite map_lookup_filter.
    destruct (t !! k) as [r|] eqn:Ek; cbn; [|done]. destruct (p r) eqn:Ep.
    - rewrite !option_guard_True by done. cbn. destruct (Hf _ _ Ek Ep) as (r' & -> & _). done.
    - by rewrite !option_guard_False. }
  rewrite <- (size_dom (omap f hits)), Hdom, size_dom, Nat.eqb_refl. cbn [negb].
  assert (Hp : forallb passes (rows (omap f hits)) = true); [|rewrite Hp; eauto].
  apply forallb_rows. intros k r'. rewrite lookup_omap. unfold hits. rewrite map_lookup_filter.
  destruct (t !! k) as [r|] eqn:Ek; cbn; [|done]. destruct (p r) eqn:Ep; [|by rewrite option_guard_False].
  rewrite option_guard_True by done. cbn. destruct (Hf _ _ Ek Ep) as (r'' & -> & Hpass). by intros [= <-].
Qed.

(** An update that keeps a column keeps it in every row. *)
Lemma updated_keeps {R A} (c : R → A) p f (r : R) :
  (∀ r r', f r = Some r' → c r' = c r) → c (updated p f r) = c r.
Proof.
  intros Hc. unfold updated. destruct (p r); [|done]. destruct (f r) eqn:E; cbn; [by apply Hc | done].
Qed.

Lemma fmap_keyed {R} (id : R → Z) (g : R → R) (t : gmap Z R) :
  keyed id t → (∀ r, id (g r) = id r) → keyed id (g <$> t).
Proof. intros Hk Hg k r'. rewrite lookup_fmap. intros (r & Hr & ->)%fmap_Some. rewrite Hg. by apply Hk. Qed.

(** The rows an update hits, when they are known by their identities. *)
Lemma size_hits {R} (id : R → Z) (p : R → bool) (t : gmap Z R) (ids : list Z) :
  keyed id t → NoDup ids →
  (∀ r, r ∈ rows t → p r = true → id r ∈ ids) →
  (∀ k, k ∈ ids → ∃ r, t !! k = Some r ∧ p r = true) →
  size (filter (λ kv, p kv.2 = true) t) = length ids.
Proof.
  intros Hk Hn Hp Hids. rewrite <- size_dom, <- (size_list_to_set (C := gset Z) ids) by done.
  f_equal. apply set_eq. intros k. rewrite elem_of_dom, elem_of_list_to_set. split.
  - intros [r Hr]. apply map_lookup_filter_Some in Hr as [Hr Hpr]. cbn in Hpr. rewrite <- (Hk _ _ Hr).
    apply Hp; [apply elem_of_rows; eauto | done].
  - intros Hki. destruct (Hids _ Hki) as (r & Hr & Hpr). exists r. by apply map_lookup_filter_Some.
Qed.

Lemma size_hits_inv {R} (id : R → Z) (p : R → bool) (t : gmap Z R) (ids : list Z) :
  keyed id t → (∀ r, r ∈ rows t → p r = true → id r ∈ ids) →
  size (filter (λ kv, p kv.2 = true) t) = length ids → NoDup ids →
  ∀ k, k ∈ ids → ∃ r, t !! k = Some r ∧ p r = true.
Proof.
  intros Hk Hp Hs Hn k Hki.
  assert (Hd : dom (filter (λ kv, p kv.2 = true) t) = (list_to_set ids : gset Z)).
  { apply set_subseteq_size_eq.
    - intros j [r Hr]%elem_of_dom. apply map_lookup_filter_Some in Hr as [Hr Hpr]. rewrite elem_of_list_to_set.
      rewrite <- (Hk _ _ Hr). apply Hp; [apply elem_of_rows; eauto | done].
    - rewrite size_dom, size_list_to_set by done. lia. }
  assert (Hin : k ∈ dom (filter (λ kv, p kv.2 = true) t)) by (rewrite Hd; by apply elem_of_list_to_set).
  apply elem_of_dom in Hin as [r Hr]. apply map_lookup_filter_Some in Hr. eauto.
Qed.

(** ** Selections *)

Lemma fmap_sublist {A B} (f : A → B) l k : l `sublist_of` k → (f <$> l) `sublist_of` (f <$> k).
Proof. induction 1; cbn; by constructor. Qed.

Lemma elem_of_merge_sort {A} (R : relation A) `{∀ x y, Decision (R x y)} (l : list A) x :
  x ∈ merge_sort R l ↔ x ∈ l.
Proof. by rewrite merge_sort_Permutation. Qed.

Lemma elem_of_select_by_id {R} (p : R → bool) (id : R → Z) t r :
  r ∈ select_by_id p id t ↔ p r = true ∧ r ∈ rows t.
Proof. unfold select_by_id. rewrite elem_of_merge_sort, list_elem_of_filter. done. Qed.

Lemma NoDup_select_by_id {R} (p : R → bool) (id : R → Z) t key :
  keyed key t → NoDup (key <$> select_by_id p id t).
Proof.
  intros Hk. unfold select_by_id. rewrite merge_sort_Permutation.
  eapply sublist_NoDup; [by apply (NoDup_rows key t)|]. apply fmap_sublist, sublist_filter.
Qed.

Section Facts.
Context `{Calendar}.

Lemma select_limited_spec {R} (p : R → bool) (id : R → Z) key limit locked (t : gmap Z R) :
  keyed id t →
  let selected := select_limited p key limit locked t in
  (∀ r, r ∈ selected → p r = true ∧ t !! id r = Some r ∧ locked r = false) ∧
  NoDup (id <$> selected) ∧ (length selected ≤ Z.to_nat limit)%nat.
Proof.
  intros Hk. unfold select_limited. cbv zeta. set (sorted := merge_sort _ _).
  assert (Hsub : take (Z.to_nat limit) (filter (λ r, locked r = false) sorted) `sublist_of` sorted).
  { etransitivity; [apply sublist_take | apply sublist_filter]. }
  split; [|split].
  - intros r Hr. assert (Hl : r ∈ filter (λ r, locked r = false) sorted) by (eapply elem_of_sublist; [done | apply sublist_take]).
    apply list_elem_of_filter in Hl as [Hl Hs]. unfold sorted in Hs.
    rewrite elem_of_merge_sort, list_elem_of_filter in Hs. destruct Hs as [Hp Hr'].
    split; [done|]. split; [by apply lookup_row | done].
  - eapply sublist_NoDup; [|by apply fmap_sublist]. unfold sorted. rewrite merge_sort_Permutation.
    eapply sublist_NoDup; [by apply (NoDup_rows id t)|]. apply fmap_sublist, sublist_filter.
  - rewrite length_take. lia.
Qed.

End Facts.

Section Invariant.
Context `{Postgres}.

(** ** The constraints hold *)

Record db_wf (db : Database) : Prop := {
  wf_inputs i : i ∈ db_inputs db → UuidV7.new i = Some i;
  wf_runs_keyed : keyed rn_id (db_runs db);
  wf_segments_keyed : keyed sg_id (db_segments db);
  wf_objects_keyed : keyed ob_id (db_objects db);
  wf_runs k r : db_runs db !! k = Some r → run_checks r = true;
  wf_segments k s : db_segments db !! k = Some s → segment_checks s = true;
  wf_segment_references k s : db_segments db !! k = Some s → segment_references db s = true;
  wf_objects k o : db_objects db !! k = Some o → object_checks o = true;
  wf_object_references k o : db_objects db !! k = Some o → object_references db o = true;
  wf_unique j k a b :
    j ≠ k → db_objects db !! j = Some a → db_objects db !! k = Some b →
    objects_clash (ob_columns a) (ob_columns b) = false;
}.

(** An update of the segments, which keeps their immutable columns. *)
Lemma wf_update_segments db p f db' n :
  db_wf db → (∀ s s', f s = Some s' → sg_columns s' = sg_columns s) →
  update_segments db p f = Ok (db', n) →
  db_wf db' ∧ db' = set_segments db (updated p f <$> db_segments db) ∧
  n = Z.of_nat (size (filter (λ kv, p kv.2 = true) (db_segments db))) ∧
  (∀ k s, db_segments db !! k = Some s → p s = true → ∃ s', f s = Some s' ∧ segment_checks s' = true).
Proof.
  intros Hwf Hc Hu. unfold update_segments in Hu. inv_ok. destruct a as [t' m]. cbn [fst snd].
  apply update_rows_Ok in Hok as (Hf & -> & ->).
  assert (Hf' : ∀ k s, db_segments db !! k = Some s → p s = true → ∃ s', f s = Some s' ∧ segment_checks s' = true ∧
    segment_references db s' = true).
  { intros k s Hk Hp. destruct (Hf k s Hk Hp) as (s' & Hs' & Hpass). apply andb_true_iff in Hpass. eauto. }
  split; [|split; [done | split; [done | intros k s Hk Hp; destruct (Hf' k s Hk Hp) as (s' & ? & ? & _); eauto]]].
  assert (Hcols : ∀ s, sg_columns (updated p f s) = sg_columns s) by (intros s; by apply updated_keeps).
  destruct Hwf. split; cbn [set_segments db_inputs db_runs db_segments db_objects db_schemas]; try done.
  - apply fmap_keyed; [done|]. intros s. unfold sg_id. by rewrite Hcols.
  - intros k s'. rewrite lookup_fmap. intros (s & Hs & ->)%fmap_Some. unfold updated. destruct (p s) eqn:Ep; [|eauto].
    destruct (Hf' _ _ Hs Ep) as (s' & -> & Hs' & _). done.
  - intros k s'. rewrite lookup_fmap. intros (s & Hs & ->)%fmap_Some.
    change (segment_references db (updated p f s) = true). unfold updated. destruct (p s) eqn:Ep; [|eauto].
    destruct (Hf' _ _ Hs Ep) as (s' & -> & _ & Hs'). done.
  - intros k o Ho. specialize (wf_object_references0 _ _ Ho). unfold object_references in *.
    cbn [set_segments db_segments db_inputs]. destruct (ob_segment_id o) as [id|]; [|done]. rewrite lookup_fmap.
    by destruct (db_segments db !! id).
Qed.

Lemma wf_update_objects db p f db' n :
  db_wf db → (∀ o o', f o = Some o' → ob_columns o' = ob_columns o) →
  update_objects db p f = Ok (db', n) →
  db_wf db' ∧ db' = set_objects db (updated p f <$> db_objects db) ∧
  n = Z.of_nat (size (filter (λ kv, p kv.2 = true) (db_objects db))) ∧
  (∀ k o, db_objects db !! k = Some o → p o = true → ∃ o', f o = Some o' ∧ object_checks o' = true).
Proof.
  intros Hwf Hc Hu. unfold update_objects in Hu. inv_ok. destruct a as [t' m]. cbn [fst snd].
  apply update_rows_Ok in Hok as (Hf & -> & ->). split; [|done].
  assert (Hcols : ∀ o, ob_columns (updated p f o) = ob_columns o) by (intros o; by apply updated_keeps).
  destruct Hwf. split; cbn [set_objects db_inputs db_runs db_segments db_objects db_schemas]; try done.
  - apply fmap_keyed; [done|]. intros o. unfold ob_id. by rewrite Hcols.
  - intros k o'. rewrite lookup_fmap. intros (o & Ho & ->)%fmap_Some. unfold updated. destruct (p o) eqn:Ep; [|eauto].
    destruct (Hf _ _ Ho Ep) as (o' & -> & Ho'). done.
  - intros k o'. rewrite lookup_fmap. intros (o & Ho & ->)%fmap_Some.
    unfold object_references, ob_segment_id. rewrite Hcols. by eapply wf_object_references0.
  - intros j k a b Hjk. rewrite !lookup_fmap. intros (a' & Ha & ->)%fmap_Some (b' & Hb & ->)%fmap_Some. rewrite !Hcols. eauto.
Qed.

Lemma wf_update_runs db p f db' n :
  db_wf db →
  (∀ r r', f r = Some r' → rn_id r' = rn_id r ∧ rn_source_id r' = rn_source_id r ∧ rn_schema_id r' = rn_schema_id r ∧
     rn_event_day r' = rn_event_day r) →
  update_runs db p f = Ok (db', n) →
  db_wf db' ∧ db' = set_runs db (updated p f <$> db_runs db) ∧
  n = Z.of_nat (size (filter (λ kv, p kv.2 = true) (db_runs db))).
Proof.
  intros Hwf Hc Hu. unfold update_runs in Hu. inv_ok. destruct a as [t' m]. cbn [fst snd].
  apply update_rows_Ok in Hok as (Hf & -> & ->). split; [|done].
  assert (Hid : ∀ r, rn_id (updated p f r) = rn_id r) by (intros r; apply updated_keeps; intros ?? Hr; apply (Hc _ _ Hr)).
  assert (Href : ∀ runs s run, references_run runs s run = true → references_run (updated p f <$> runs) s run = true).
  { intros runs s [id|]; [|done]. unfold references_run. rewrite lookup_fmap. destruct (runs !! id) as [r|]; [|done]. cbn.
    rewrite (updated_keeps rn_source_id p f r), (updated_keeps rn_schema_id p f r), (updated_keeps rn_event_day p f r); [done|..];
      intros ?? Hr; apply (Hc _ _ Hr). }
  destruct Hwf. split; cbn [set_runs db_inputs db_runs db_segments db_objects db_schemas]; try done.
  - by apply fmap_keyed.
  - intros k r'. rewrite lookup_fmap. intros (r & Hr & ->)%fmap_Some. unfold updated. destruct (p r) eqn:Ep; [|eauto].
    destruct (Hf _ _ Hr Ep) as (r' & -> & Hr'). done.
  - intros k s Hs. specialize (wf_segment_references0 _ _ Hs). unfold segment_references in *. cbn [set_runs db_schemas db_runs].
    rewrite !andb_true_iff in *. destruct wf_segment_references0 as [[-> ?] ?]. auto.
Qed.

(** Inserts. *)

Lemma wf_insert_segment db s db' :
  db_wf db → insert_segment db s = Ok db' →
  db_wf db' ∧ db' = set_segments db (<[sg_id s := s]> (db_segments db)) ∧ db_segments db !! sg_id s = None ∧
  segment_checks s = true.
Proof.
  intros Hwf Hi. unfold insert_segment in Hi. inv_ok.
  assert (Hnone : db_segments db !! sg_id s = None) by (by destruct (db_segments db !! sg_id s)).
  split; [|done]. destruct Hwf. split; cbn [set_segments db_inputs db_runs db_segments db_objects db_schemas]; try done.
  - intros k r. rewrite lookup_insert. case_decide; [naive_solver|]. apply wf_segments_keyed0.
  - intros k r. rewrite lookup_insert. case_decide; [naive_solver | eauto].
  - intros k r. rewrite lookup_insert. case_decide; [intros [= <-]; done | apply wf_segment_references0].
  - intros k o Ho. specialize (wf_object_references0 _ _ Ho). unfold object_references in *.
    cbn [set_segments db_segments db_inputs]. destruct (ob_segment_id o) as [id|]; [|done]. rewrite lookup_insert.
    case_decide; [|done]. apply andb_true_iff in wf_object_references0 as [_ ->]. done.
Qed.

Lemma objects_clash_comm a b : objects_clash a b = objects_clash b a.
Proof.
  unfold objects_clash, same_value. f_equal; [f_equal|].
  - apply bool_decide_ext. naive_solver.
  - destruct (oc_segment_id a), (oc_segment_id b); try done. apply Z.eqb_sym.
  - rewrite (andb_comm (bool_decide (oc_kind a = _))). f_equal; [f_equal|].
    + destruct (oc_input_id a), (oc_input_id b); try done. apply Z.eqb_sym.
    + destruct (oc_batch_id a), (oc_batch_id b); try done. apply Z.eqb_sym.
Qed.

Lemma wf_insert_object db o db' :
  db_wf db → insert_object db o = Ok db' →
  db_wf db' ∧ db' = set_objects db (<[ob_id o := o]> (db_objects db)) ∧ db_objects db !! ob_id o = None ∧
  object_checks o = true ∧ object_references db o = true.
Proof.
  intros Hwf Hi. unfold insert_object, object_unique in Hi. inv_ok. rewrite forallb_rows in *.
  assert (Hnone : db_objects db !! ob_id o = None) by (by destruct (db_objects db !! ob_id o)).
  split; [|done]. destruct Hwf. split; cbn [set_objects db_inputs db_runs db_segments db_objects db_schemas]; try done.
  - intros k r. rewrite lookup_insert. case_decide; [naive_solver|]. apply wf_objects_keyed0.
  - intros k r. rewrite lookup_insert. case_decide; [naive_solver | eauto].
  - intros k r. rewrite lookup_insert. case_decide; [intros [= <-]; done | apply wf_object_references0].
  - intros j k x y Hjk. rewrite !lookup_insert. repeat case_decide; subst; [done| | |eauto].
    + intros [= <-] Hy. match goal with Hu : ∀ k r, _ → negb _ = true |- _ => specialize (Hu _ _ Hy) end.
      by apply negb_true_iff.
    + intros Hx [= <-]. match goal with Hu : ∀ k r, _ → negb _ = true |- _ => specialize (Hu _ _ Hx) end.
      rewrite objects_clash_comm. by apply negb_true_iff.
Qed.

Lemma wf_insert_run db r db' :
  db_wf db → insert_run db r = Ok db' →
  db_wf db' ∧ db' = set_runs db (<[rn_id r := r]> (db_runs db)) ∧ db_runs db !! rn_id r = None.
Proof.
  intros Hwf Hi. unfold insert_run in Hi. inv_ok.
  assert (Hnone : db_runs db !! rn_id r = None) by (by destruct (db_runs db !! rn_id r)).
  split; [|done]. destruct Hwf. split; cbn [set_runs db_inputs db_runs db_segments db_objects db_schemas]; try done.
  - intros k x. rewrite lookup_insert. case_decide; [naive_solver|]. apply wf_runs_keyed0.
  - intros k x. rewrite lookup_insert. case_decide; [naive_solver | eauto].
  - intros k s Hs. specialize (wf_segment_references0 _ _ Hs). unfold segment_references in *. cbn [set_runs db_schemas db_runs].
    assert (Href : ∀ run, references_run (db_runs db) s run = true → references_run (<[rn_id r:=r]> (db_runs db)) s run = true).
    { intros [id|]; [|done]. unfold references_run. rewrite lookup_insert. case_decide; [|done]. subst id. by rewrite Hnone. }
    rewrite !andb_true_iff in *. destruct wf_segment_references0 as [[-> ?] ?]. auto.
Qed.

(** Deletes. *)

Lemma lookup_delete_rows {R} (p : R → bool) (t : gmap Z R) k r :
  (delete_rows p t).1 !! k = Some r ↔ t !! k = Some r ∧ p r = false.
Proof. unfold delete_rows. cbn [fst]. by rewrite map_lookup_filter_Some. Qed.

Lemma wf_delete_objects db p : db_wf db → db_wf (delete_objects db p).1.
Proof.
  intros Hwf. destruct Hwf. unfold delete_objects. cbn [fst].
  split; cbn [set_objects db_inputs db_runs db_segments db_objects db_schemas]; try done.
  - intros k r [Hr _]%lookup_delete_rows. by apply wf_objects_keyed0.
  - intros k r [Hr _]%lookup_delete_rows. eauto.
  - intros k r [Hr _]%lookup_delete_rows. by eapply wf_object_references0.
  - intros j k a b Hjk [Ha _]%lookup_delete_rows [Hb _]%lookup_delete_rows. eauto.
Qed.

Lemma wf_delete_segments db p db' n :
  db_wf db → delete_segments db p = Ok (db', n) →
  db_wf db' ∧ db' = set_segments db (delete_rows p (db_segments db)).1 ∧ n = (delete_rows p (db_segments db)).2.
Proof.
  intros Hwf Hd. unfold delete_segments in Hd. inv_ok. rewrite forallb_rows in *. split; [|done]. destruct Hwf.
  split; cbn [set_segments db_inputs db_runs db_segments db_objects db_schemas]; try done.
  - intros k r [Hr _]%lookup_delete_rows. by apply wf_segments_keyed0.
  - intros k r [Hr _]%lookup_delete_rows. eauto.
  - intros k r [Hr _]%lookup_delete_rows. by apply (wf_segment_references0 k).
Qed.

Lemma wf_delete_runs db p db' n :
  db_wf db → delete_runs db p = Ok (db', n) →
  db_wf db' ∧ db' = set_runs db (delete_rows p (db_runs db)).1.
Proof.
  intros Hwf Hd. unfold delete_runs in Hd. inv_ok. rewrite forallb_rows in *. split; [|done]. destruct Hwf.
  split; cbn [set_runs db_inputs db_runs db_segments db_objects db_schemas]; try done.
  - intros k r [Hr _]%lookup_delete_rows. by apply wf_runs_keyed0.
  - intros k r [Hr _]%lookup_delete_rows. eauto.
Qed.

End Invariant.
