(* ===== verification/MetastoreLifecycle.v ===== *)
(** * elucid-metastore: the lifecycle of outputs

    The invariant of the tables: the constraints hold and every segment has one object
    whose state fits the segment's. Every transaction of the stores keeps it, and moves
    each output along at most one edge of its lifecycle: planned, uploaded, published, or
    abandoned before publication, and finally removed. *)

From S2P Require Import Prelude Core ErrorCode CatalogTypes CatalogModel Bytes Frame Storage Database Publication Reclamation Retention Compaction CompactionLifecycle MetastoreInvariant.

#[local] Open Scope string_scope.
#[local] Open Scope Z_scope.

(** Case analysis on a state that is one of a list of literals. *)
Ltac state_cases H :=
  repeat (rewrite elem_of_cons in H || rewrite elem_of_nil in H); destruct_or! H; try done.

(** ** The abstract lifecycle *)

(** What a transaction does to outputs. *)
Inductive transition := Keep | Register | Upload | Publish | Abandon | Remove.

(** The edges between the states of an output, by what the transaction does; [None] is an
    output that is not there. A transaction takes an output along one edge, or leaves it. *)
Inductive lifecycle : transition → option ObjectPublicationState → option ObjectPublicationState → Prop :=
| lifecycle_keep t p : lifecycle t p p
| lifecycle_register : lifecycle Register None (Some OutputPlanned)
| lifecycle_upload : lifecycle Upload (Some OutputPlanned) (Some OutputUploaded)
| lifecycle_publish : lifecycle Publish (Some OutputUploaded) (Some OutputPublished)
| lifecycle_abandon_planned : lifecycle Abandon (Some OutputPlanned) (Some OutputAbandoned)
| lifecycle_abandon_uploaded : lifecycle Abandon (Some OutputUploaded) (Some OutputAbandoned)
| lifecycle_remove_published : lifecycle Remove (Some OutputPublished) None
| lifecycle_remove_abandoned : lifecycle Remove (Some OutputAbandoned) None.

(** No two edges of one kind follow each other. *)
#[export] Instance lifecycle_preorder t : PreOrder (lifecycle t).
Proof.
  split; [intros p; apply lifecycle_keep|]. intros a b c H1 H2.
  destruct H1; [done|..]; inversion H2; subst; constructor.
Qed.

(** Transactions that neither insert nor delete rows. *)
Definition updating (t : transition) : Prop := t ≠ Register ∧ t ≠ Remove.

Section Lifecycle.
Context `{Postgres}.

(** ** States that fit *)

(** The states of a segment and its object that go together, and the state of the output. *)
Inductive linked (s : SegmentRow) (o : ObjectRow) : ObjectPublicationState → Prop :=
| linked_planned : sg_state s = "PREPARED" → ob_state o = "PLANNED" → linked s o OutputPlanned
| linked_uploaded : sg_state s = "PREPARED" → ob_state o = "UPLOADED" → linked s o OutputUploaded
| linked_active :
    sg_state s = "ACTIVE" → ob_state o = "PUBLISHED" → publication_times_match s o = true →
    linked s o OutputPublished
| linked_retired :
    sg_state s ∈ ["SUPERSEDED"; "EXPIRED"] → ob_state o ∈ ["PUBLISHED"; "DELETE_PENDING"; "DELETED"] →
    publication_times_match s o = true → linked s o OutputPublished
| linked_abandoned :
    sg_state s = "ABANDONED" → ob_state o ∈ ["PLANNED"; "UPLOADED"; "DELETE_PENDING"; "DELETED"] →
    sg_published_at s = None → ob_published_at o = None → linked s o OutputAbandoned.

Lemma resolved_linked s o st : resolved_ingestion_state s o = Ok st ↔ linked s o st.
Proof.
  unfold resolved_ingestion_state, segment_state, object_state, SegmentState_from_database,
    StoredObjectState_from_database. split.
  - repeat case_decide; cbn; try done; intros Hr;
      repeat match type of Hr with context [if ?b then _ else _] => destruct b eqn:?; try done end;
      injection Hr as <-; try (apply linked_planned; done); try (apply linked_uploaded; done);
      try (apply linked_active; done);
      try (apply linked_retired; [set_solver | set_solver | done]);
      (apply linked_abandoned; [done | set_solver | |];
       repeat match goal with Hb : _ && _ = true |- _ => apply andb_true_iff in Hb as [? ?] end;
       by destruct (sg_published_at s), (ob_published_at o)).
  - intros [Hs Ho|Hs Ho|Hs Ho Ht|Hs Ho Ht|Hs Ho Ht Ht'].
    + by rewrite Hs, Ho.
    + by rewrite Hs, Ho.
    + rewrite Hs, Ho. cbn. by rewrite Ht.
    + state_cases Hs; state_cases Ho; rewrite Hs, Ho; cbn; by rewrite Ht.
    + state_cases Ho; rewrite Hs, Ho, Ht, Ht'; done.
Qed.

(** ** The invariant and the output states of the tables *)

Record db_ok (db : Database) : Prop := {
  ok_wf : db_wf db;
  ok_linked k s :
    db_segments db !! k = Some s →
    ∃ j o st, db_objects db !! j = Some o ∧ ob_segment_id o = Some k ∧ linked s o st;
}.

(** The state of the output of a segment, as the code resolves it. *)
Definition output_phase (db : Database) (k : SegmentId) : option ObjectPublicationState :=
  s ← db_segments db !! k;
  o ← load_segment_object db k;
  match resolved_ingestion_state s o with Ok st => Some st | Err _ => None end.

(** The object of a segment is unique. *)
Lemma same_segment_object db j k a b id :
  db_wf db → db_objects db !! j = Some a → db_objects db !! k = Some b →
  ob_segment_id a = Some id → ob_segment_id b = Some id → j = k ∧ a = b.
Proof.
  intros Hwf Ha Hb Ea Eb. destruct (decide (j = k)) as [->|Hjk]; [naive_solver|].
  pose proof (wf_unique _ Hwf _ _ _ _ Hjk Ha Hb) as Hc. unfold objects_clash, ob_segment_id in *.
  rewrite Ea, Eb in Hc. cbn in Hc. rewrite Z.eqb_refl, orb_true_r in Hc. done.
Qed.

Lemma load_segment_object_Some db k o :
  db_wf db → load_segment_object db k = Some o ↔ ∃ j, db_objects db !! j = Some o ∧ ob_segment_id o = Some k.
Proof.
  intros Hwf. unfold load_segment_object. split.
  - intros Hf. apply find_Some in Hf as [(j & Hj)%elem_of_rows Hb]. apply bool_decide_eq_true in Hb. eauto.
  - intros (j & Hj & Hk). destruct (find _ _) as [o'|] eqn:E.
    + apply find_Some in E as [(j' & Hj')%elem_of_rows Hb]. apply bool_decide_eq_true in Hb.
      by destruct (same_segment_object _ _ _ _ _ _ Hwf Hj Hj' Hk Hb) as [_ ->].
    + rewrite find_None in E. specialize (E o ltac:(apply elem_of_rows; eauto)).
      by rewrite bool_decide_eq_false in E.
Qed.

Lemma output_phase_Some db k s j o st :
  db_wf db → db_segments db !! k = Some s → db_objects db !! j = Some o → ob_segment_id o = Some k →
  linked s o st → output_phase db k = Some st.
Proof.
  intros Hwf Hs Ho Hk Hl. unfold output_phase. rewrite Hs. cbn.
  rewrite (proj2 (load_segment_object_Some db k o Hwf)) by eauto. cbn.
  apply resolved_linked in Hl. by rewrite Hl.
Qed.

Lemma output_phase_None db k : db_ok db → output_phase db k = None ↔ db_segments db !! k = None.
Proof.
  intros [Hwf Hl]. split.
  - intros Hp. destruct (db_segments db !! k) as [s|] eqn:Hs; [|done].
    destruct (Hl _ _ Hs) as (j & o & st & Ho & Hk & Hlk). by rewrite (output_phase_Some db k s j o st) in Hp.
  - intros Hs. unfold output_phase. by rewrite Hs.
Qed.

(** ** Evolution *)

(** What stays of the row of an object: its columns, a publication, and a request to delete
    it. *)
Record object_kept (o o' : ObjectRow) : Prop := {
  kept_columns : ob_columns o' = ob_columns o;
  kept_published : ob_published_at o ≠ None → ob_published_at o' ≠ None;
  kept_requested : ob_delete_requested_at o ≠ None → ob_delete_requested_at o' ≠ None;
}.

Definition segment_kept (s s' : SegmentRow) : Prop := sg_columns s' = sg_columns s.

#[export] Instance object_kept_preorder : PreOrder object_kept.
Proof. split; [by intros o; split|]. intros a b c [? ? ?] [? ? ?]. split; [congruence | auto..]. Qed.

#[export] Instance segment_kept_preorder : PreOrder segment_kept.
Proof. split; [by intros s|]. unfold segment_kept. intros a b c ? ?. congruence. Qed.

(** Rows of a table: a registration changes none, a removal leaves the others as they are,
    and any other transaction keeps what is fixed of every row. *)
Definition rows_kept {R} (kept : relation R) (t : transition) (a b : option R) : Prop :=
  match t with
  | Register => ∀ x, a = Some x → b = Some x
  | Remove => ∀ x, b = Some x → a = Some x
  | _ => option_Forall2 kept a b
  end.

#[export] Instance rows_kept_preorder {R} (kept : relation R) `{!PreOrder kept} t : PreOrder (rows_kept kept t).
Proof.
  split.
  - intros [x|]; destruct t; cbn; try done; by constructor.
  - intros a b c. destruct t; cbn; try (by auto); intros [x y Hxy|] Hbc; inversion Hbc; subst; constructor; by etransitivity.
Qed.

Lemma rows_kept_update {R} (kept : relation R) t (f : R → R) (m : gmap Z R) k :
  updating t → (∀ x, kept x (f x)) → rows_kept kept t (m !! k) ((f <$> m) !! k).
Proof. intros [? ?] Hf. rewrite lookup_fmap. destruct t; try done; destruct (m !! k); by constructor. Qed.

(** A transaction keeps the invariant, takes every output along at most one edge of its
    lifecycle, all of the same kind, and keeps what is fixed of the rows. *)
Record evolves (t : transition) (db db' : Database) : Prop := {
  ev_ok : db_ok db';
  ev_phase k : lifecycle t (output_phase db k) (output_phase db' k);
  ev_objects k : rows_kept object_kept t (db_objects db !! k) (db_objects db' !! k);
  ev_segments k : rows_kept segment_kept t (db_segments db !! k) (db_segments db' !! k);
}.

Lemma evolves_refl t db : db_ok db → evolves t db db.
Proof. by split. Qed.

Lemma evolves_trans t db1 db2 db3 : evolves t db1 db2 → evolves t db2 db3 → evolves t db1 db3.
Proof. intros [? H1 O1 S1] [? H2 O2 S2]. split; [done|..]; intros k; etransitivity; eauto. Qed.

(** A transaction that updates rows, by what it does to a segment and its object. *)
Lemma evolves_update t db db' (fs : SegmentRow → SegmentRow) (fo : ObjectRow → ObjectRow) :
  updating t → db_ok db → db_wf db' →
  db_segments db' = fs <$> db_segments db → db_objects db' = fo <$> db_objects db →
  (∀ s, segment_kept s (fs s)) → (∀ o, object_kept o (fo o)) →
  (∀ k s j o st,
     db_segments db !! k = Some s → db_objects db !! j = Some o → ob_segment_id o = Some k → linked s o st →
     ∃ st', linked (fs s) (fo o) st' ∧ lifecycle t (Some st) (Some st')) →
  evolves t db db'.
Proof.
  intros Ht [Hwf Hl] Hwf' Hs Ho Hcs Hc Hstep.
  assert (Hseg : ∀ o, ob_segment_id (fo o) = ob_segment_id o) by (intros o; unfold ob_segment_id; by rewrite (kept_columns _ _ (Hc o))).
  assert (Hlook : ∀ k s, db_segments db !! k = Some s → ∃ j o st st',
    db_objects db !! j = Some o ∧ ob_segment_id o = Some k ∧ linked s o st ∧ linked (fs s) (fo o) st' ∧
    lifecycle t (Some st) (Some st')).
  { intros k s Hk. destruct (Hl _ _ Hk) as (j & o & st & Hj & Hjk & Hlk).
    destruct (Hstep _ _ _ _ _ Hk Hj Hjk Hlk) as (st' & ? & ?). naive_solver. }
  assert (Hlook' : ∀ k s j o st', db_segments db !! k = Some s → db_objects db !! j = Some o →
    ob_segment_id o = Some k → linked (fs s) (fo o) st' → output_phase db' k = Some st').
  { intros k s j o st' Hk Hj Hjk Hl'. apply (output_phase_Some db' k (fs s) j (fo o)); try done.
    - by rewrite Hs, lookup_fmap, Hk.
    - by rewrite Ho, lookup_fmap, Hj.
    - by rewrite Hseg. }
  split; [split; [done|] | | |].
  - intros k s'. rewrite Hs, lookup_fmap. intros (s & Hk & ->)%fmap_Some.
    destruct (Hlook _ _ Hk) as (j & o & st & st' & Hj & Hjk & _ & Hl' & _).
    exists j, (fo o), st'. rewrite Ho, lookup_fmap, Hj, Hseg. done.
  - intros k. destruct (db_segments db !! k) as [s|] eqn:Hk.
    + destruct (Hlook _ _ Hk) as (j & o & st & st' & Hj & Hjk & Hlk & Hl' & Hr).
      rewrite (output_phase_Some db k s j o st), (Hlook' k s j o st'); done.
    + unfold output_phase. by rewrite Hs, lookup_fmap, Hk.
  - intros k. rewrite Ho. by apply rows_kept_update.
  - intros k. rewrite Hs. by apply rows_kept_update.
Qed.

Lemma updated_kept {R} (kept : relation R) `{!PreOrder kept} p (f : R → option R) x :
  (∀ y y', f y = Some y' → kept y y') → kept x (updated p f x).
Proof. intros Hf. unfold updated. destruct (p x); [|done]. destruct (f x) eqn:E; [by apply Hf | done]. Qed.

(** A statement that updates objects. *)
Lemma evolves_objects t db p f db' n :
  updating t → db_ok db → update_objects db p f = Ok (db', n) → (∀ o o', f o = Some o' → object_kept o o') →
  (∀ k s o o' st,
     db_segments db !! k = Some s → o ∈ rows (db_objects db) → ob_segment_id o = Some k → linked s o st →
     p o = true → f o = Some o' → ∃ st', linked s o' st' ∧ lifecycle t (Some st) (Some st')) →
  evolves t db db'.
Proof.
  intros Ht Hok Hu Hc Hstep.
  pose proof (wf_update_objects _ _ _ _ _ (ok_wf _ Hok) (λ o o' E, kept_columns _ _ (Hc o o' E)) Hu) as (Hwf & -> & _ & Hf).
  apply (evolves_update _ _ _ id (updated p f)); cbn [set_objects db_segments db_objects]; try done.
  - by rewrite map_fmap_id.
  - intros o. by apply (updated_kept object_kept).
  - intros k s j o st Hk Hj Hjk Hl. unfold updated. destruct (p o) eqn:Ep; [|exists st; by split].
    destruct (Hf _ _ Hj Ep) as (o' & Ho' & _). rewrite Ho'. cbn.
    apply (Hstep k s o o' st); try done. apply elem_of_rows. eauto.
Qed.

(** A statement that updates segments. *)
Lemma evolves_segments t db p f db' n :
  updating t → db_ok db → update_segments db p f = Ok (db', n) → (∀ s s', f s = Some s' → sg_columns s' = sg_columns s) →
  (∀ k s s' o st,
     db_segments db !! k = Some s → o ∈ rows (db_objects db) → ob_segment_id o = Some k → linked s o st →
     p s = true → f s = Some s' → ∃ st', linked s' o st' ∧ lifecycle t (Some st) (Some st')) →
  evolves t db db'.
Proof.
  intros Ht Hok Hu Hc Hstep. pose proof (wf_update_segments _ _ _ _ _ (ok_wf _ Hok) Hc Hu) as (Hwf & -> & _ & Hf).
  apply (evolves_update _ _ _ (updated p f) id); cbn [set_segments db_segments db_objects]; try done.
  - by rewrite map_fmap_id.
  - intros s. by apply (updated_kept segment_kept).
  - intros k s j o st Hk Hj Hjk Hl. unfold updated. destruct (p s) eqn:Ep; [|exists st; by split].
    destruct (Hf _ _ Hk Ep) as (s' & Hs' & _). rewrite Hs'. cbn.
    apply (Hstep k s s' o st); try done. apply elem_of_rows. eauto.
Qed.

(** A change of the runs, the schemas or the inputs does not touch the outputs. *)
Lemma evolves_same t db db' :
  db_ok db → db_wf db' → db_segments db' = db_segments db → db_objects db' = db_objects db → evolves t db db'.
Proof.
  intros [Hwf Hl] Hwf' Hs Ho. split; [split; [done|] | | |]; rewrite ?Hs, ?Ho; try done.
  intros k. unfold output_phase, load_segment_object. by rewrite Hs, Ho.
Qed.

(** New rows. *)
Lemma evolves_insert_object db o db' :
  db_ok db → insert_object db o = Ok db' → ob_segment_id o = None → evolves Register db db'.
Proof.
  intros [Hwf Hl] Hi Hn. destruct (wf_insert_object _ _ _ Hwf Hi) as (Hwf' & -> & Hfresh & _).
  assert (Hold : ∀ j x, db_objects db !! j = Some x → <[ob_id o := o]> (db_objects db) !! j = Some x).
  { intros j x Hj. rewrite lookup_insert_ne; congruence. }
  split; [split; [done|] | | exact Hold | done]; cbn [set_objects db_segments db_objects].
  - intros k s Hs. destruct (Hl _ _ Hs) as (j & x & st & Hj & ? & ?). exists j, x, st. auto.
  - intros k. destruct (db_segments db !! k) as [s|] eqn:Hs.
    + destruct (Hl _ _ Hs) as (j & x & st & Hj & Hjk & Hlk). rewrite (output_phase_Some db k s j x st) by done.
      rewrite (output_phase_Some (set_objects db (<[ob_id o := o]> (db_objects db))) k s j x st); try done. by apply Hold.
    + unfold output_phase. cbn [set_objects db_segments]. by rewrite Hs.
Qed.

Lemma evolves_register db s o db1 db2 :
  db_ok db → insert_segment db s = Ok db1 → insert_object db1 o = Ok db2 → ob_segment_id o = Some (sg_id s) →
  linked s o OutputPlanned → evolves Register db db2.
Proof.
  intros [Hwf Hl] Hi Hi' Hk Hlo. destruct (wf_insert_segment _ _ _ Hwf Hi) as (Hwf1 & -> & Hs0 & _).
  destruct (wf_insert_object _ _ _ Hwf1 Hi') as (Hwf2 & -> & Hfresh & _). cbn [set_segments set_objects db_objects] in *.
  assert (Hold : ∀ j x, db_objects db !! j = Some x → <[ob_id o := o]> (db_objects db) !! j = Some x).
  { intros j x Hj. rewrite lookup_insert_ne; congruence. }
  assert (Hnew : ∀ k r, <[sg_id s := s]> (db_segments db) !! k = Some r → ∃ j x st,
    <[ob_id o := o]> (db_objects db) !! j = Some x ∧ ob_segment_id x = Some k ∧ linked r x st ∧
    (k = sg_id s ∧ st = OutputPlanned ∨ k ≠ sg_id s ∧ db_objects db !! j = Some x ∧ db_segments db !! k = Some r)).
  { intros k r. rewrite lookup_insert. case_decide as Ek.
    - intros [= <-]. subst k. exists (ob_id o), o, OutputPlanned. rewrite lookup_insert_eq. auto 10.
    - intros Hr. destruct (Hl _ _ Hr) as (j & x & st & Hj & ? & ?). exists j, x, st. auto 10. }
  split; [split; [done|] | | exact Hold |]; cbn [set_segments set_objects db_segments db_objects].
  - intros k r Hr. destruct (Hnew _ _ Hr) as (j & x & st & ? & ? & ? & _). eauto 10.
  - intros k. destruct (<[sg_id s := s]> (db_segments db) !! k) as [r|] eqn:Hr.
    + destruct (Hnew _ _ Hr) as (j & x & st & Hj & Hjk & Hlk & Hcase).
      erewrite (output_phase_Some (set_objects _ _) k r j x st); [|done..].
      destruct Hcase as [[-> ->]|(Hne & Hj' & Hr')].
      * unfold output_phase. rewrite Hs0. apply lifecycle_register.
      * by rewrite (output_phase_Some db k r j x st).
    + rewrite lookup_insert in Hr. case_decide; [done|]. unfold output_phase. cbn [set_segments set_objects db_segments].
      by rewrite Hr, lookup_insert_ne, Hr.
  - intros k x Hx. cbn. rewrite lookup_insert_ne; congruence.
Qed.

(** Rows removed: a segment that stays keeps its object. *)
Lemma evolves_delete db db' :
  db_ok db → db_wf db' →
  (∀ k s, db_segments db' !! k = Some s → db_segments db !! k = Some s) →
  (∀ j o, db_objects db' !! j = Some o → db_objects db !! j = Some o) →
  (∀ k s j o, db_segments db' !! k = Some s → db_objects db !! j = Some o → ob_segment_id o = Some k →
     db_objects db' !! j = Some o) →
  (∀ k s, db_segments db !! k = Some s → db_segments db' !! k = None →
     sg_state s ∈ ["SUPERSEDED"; "EXPIRED"; "ABANDONED"]) →
  evolves Remove db db'.
Proof.
  intros [Hwf Hl] Hwf' Hsub Hsub' Hkeep Hgone. split; [split; [done|] | | exact Hsub' | exact Hsub].
  - intros k s Hs. destruct (Hl _ _ (Hsub _ _ Hs)) as (j & o & st & Hj & Hjk & Hlk). exists j, o, st. eauto.
  - intros k. destruct (db_segments db' !! k) as [s|] eqn:Hs.
    + destruct (Hl _ _ (Hsub _ _ Hs)) as (j & o & st & Hj & Hjk & Hlk).
      rewrite (output_phase_Some db k s j o st), (output_phase_Some db' k s j o st); by eauto.
    + assert (output_phase db' k = None) as -> by (unfold output_phase; by rewrite Hs).
      destruct (db_segments db !! k) as [s|] eqn:Hs'; [|unfold output_phase; by rewrite Hs'].
      destruct (Hl _ _ Hs') as (j & o & st & Hj & Hjk & Hlk). rewrite (output_phase_Some db k s j o st) by done.
      specialize (Hgone _ _ Hs' Hs). destruct Hlk as [Hc|Hc|Hc|Hc|Hc]; try (rewrite Hc in Hgone; set_solver);
        constructor.
Qed.

(** ** Rows *)

Lemma unpublished_null o : object_checks o = true → ob_state o ∈ ["PLANNED"; "UPLOADED"] → ob_published_at o = None.
Proof.
  unfold object_checks, object_lifecycle_check. intros Hc Hs. rewrite !andb_true_iff in Hc.
  destruct Hc as [[_ Hc] _]. state_cases Hs; rewrite Hs in Hc; by destruct (ob_published_at o), (ob_uploaded_at o).
Qed.

Lemma prepared_null s : segment_checks s = true → sg_state s = "PREPARED" → sg_published_at s = None.
Proof.
  unfold segment_checks, segment_lifecycle_check. intros Hc Hs. rewrite !andb_true_iff in Hc.
  destruct Hc as [[_ Hc] _]. rewrite Hs in Hc. by destruct (sg_published_at s).
Qed.

(** Only states and publication times matter. *)
Lemma linked_ext s s' o o' st :
  sg_state s' = sg_state s → sg_published_at s' = sg_published_at s → ob_state o' = ob_state o →
  ob_published_at o' = ob_published_at o → linked s o st → linked s' o' st.
Proof.
  intros Es Ep Eo Eq Hl. apply resolved_linked. apply resolved_linked in Hl. rewrite <- Hl.
  unfold resolved_ingestion_state, segment_state, object_state, publication_times_match. by rewrite Es, Ep, Eo, Eq.
Qed.

Lemma linked_uploads now s o st :
  linked s o st → ob_state o = "PLANNED" →
  ∃ st', linked s (mark_uploaded now o) st' ∧ lifecycle Upload (Some st) (Some st').
Proof.
  intros [Hs Ho|Hs Ho|Hs Ho Ht|Hs Ho Ht|Hs Ho Ht Ht'] Hp; try congruence.
  - exists OutputUploaded. split; [by apply linked_uploaded | apply lifecycle_upload].
  - rewrite Hp in Ho. set_solver.
  - exists OutputAbandoned. split; [apply linked_abandoned; try done; set_solver | done].
Qed.

Lemma linked_publishes now s s' o st :
  linked s o st → ob_state o = "UPLOADED" → sg_state s = "PREPARED" →
  sg_state s' = "ACTIVE" → sg_published_at s' = Some now →
  linked s' (mark_published now o) OutputPublished ∧ st = OutputUploaded.
Proof.
  intros Hl Ho Hs Hs' Hp. destruct Hl as [? Ho'|? Ho'|Hc Ho'|Hc Ho'|Hc Ho']; rewrite ?Hs, ?Ho in *; try congruence; try set_solver.
  split; [|done]. apply linked_active; try done. unfold publication_times_match. rewrite Hp. cbn.
  by rewrite bool_decide_true.
Qed.

(** A prepared output is abandoned. *)
Lemma linked_abandons now grace s s' o st :
  linked s o st → segment_checks s = true → object_checks o = true → sg_state s = "PREPARED" →
  retire_segment "ABANDONED" now grace s = Some s' →
  ∃ st', linked s' o st' ∧ lifecycle Abandon (Some st) (Some st').
Proof.
  intros Hl Hcs Hco Hs Hr. unfold retire_segment in Hr. apply bind_Some in Hr as (deadline & _ & [= <-]).
  exists OutputAbandoned. pose proof (prepared_null _ Hcs Hs) as Hn.
  destruct Hl as [? Ho|? Ho|Hc Ho|Hc Ho|Hc Ho]; rewrite ?Hs in *; try congruence; try set_solver;
    (split; [apply linked_abandoned; try done; [set_solver | apply unpublished_null; [done | set_solver]] | constructor]).
Qed.

(** An active output is retired. *)
Lemma linked_retires t state now grace s s' o st :
  linked s o st → sg_state s = "ACTIVE" → state ∈ ["SUPERSEDED"; "EXPIRED"] →
  retire_segment state now grace s = Some s' →
  ∃ st', linked s' o st' ∧ lifecycle t (Some st) (Some st').
Proof.
  intros Hl Hs Hstate Hr. unfold retire_segment in Hr. apply bind_Some in Hr as (deadline & _ & [= <-]).
  destruct Hl as [? Ho|? Ho|Hc Ho Ht|Hc Ho|Hc Ho]; rewrite ?Hs in *; try congruence; try set_solver.
  exists OutputPublished. split; [|done]. apply linked_retired; [done | rewrite Ho; set_solver | done].
Qed.

(** The object of a retired output is requested to be deleted, or deleted. *)
Lemma linked_deletes s o o' st :
  linked s o st → sg_state s ∈ ["SUPERSEDED"; "EXPIRED"; "ABANDONED"] →
  ob_state o' ∈ ["DELETE_PENDING"; "DELETED"] → ob_published_at o' = ob_published_at o → linked s o' st.
Proof.
  intros Hl Hs Ho' Hp. destruct Hl as [Hc Ho|Hc Ho|Hc Ho Ht|Hc Ho Ht|Hc Ho Ht Ht']; rewrite ?Hc in *; try set_solver.
  - apply linked_retired; [done | set_solver |]. unfold publication_times_match in *. by rewrite Hp.
  - apply linked_abandoned; [done | set_solver | done | congruence].
Qed.

(** An object that is being deleted belongs to a retired output. *)
Lemma deleting_retired s o st :
  linked s o st → ob_state o ∈ ["DELETE_PENDING"; "DELETED"] → sg_state s ∈ ["SUPERSEDED"; "EXPIRED"; "ABANDONED"].
Proof. intros [Hc Ho|Hc Ho|Hc Ho Ht|Hc Ho Ht|Hc Ho Ht Ht'] Hs; rewrite ?Ho in *; set_solver. Qed.

End Lifecycle.
