(* ===== verification/MetastoreSteps.v ===== *)
(** * elucid-metastore: every transaction keeps the lifecycle

    One lemma per transaction of the stores: from tables that satisfy the invariant, a
    transaction that commits gives tables that satisfy it and moves every output along
    its lifecycle. The step relation collects them. *)

From S2P Require Import Prelude Core ErrorCode CatalogTypes CatalogModel Bytes Frame Storage Database Publication Reclamation Retention Compaction CompactionLifecycle MetastoreInvariant MetastoreLifecycle.

#[local] Open Scope string_scope.
#[local] Open Scope Z_scope.

(** Decomposes a transaction that committed. *)
Ltac inv_tx :=
  inv_ok;
  repeat (match goal with
    | H : (let '(_, _) := ?x in _) = Ok _ |- _ => destruct x
    | H : (if ?b then Err _ else _) = Ok _ |- _ => destruct b eqn:?; [discriminate H|]
    | H : (if ?b then _ else Err _) = Ok _ |- _ => destruct b eqn:?; [|discriminate H]
    end; inv_ok).

Section Steps.
Context `{Postgres}.

Ltac updating := by split.

(** ** Publication *)

Lemma record_verified_upload_evolves now d db db' outcome :
  db_ok db → record_verified_upload now d db = Ok (db', outcome) → evolves Upload db db'.
Proof.
  intros Hok Hr. unfold record_verified_upload in Hr. inv_tx.
  match goal with state : StoredObjectState |- _ => destruct state end; inv_tx; try by apply evolves_refl.
  eapply evolves_objects; [updating | done | done | by intros ?? [= <-] |].
  intros k s o o' st Hk Ho Hjk Hl Hp [= <-]. apply andb_true_iff in Hp as [_ Hp%bool_decide_eq_true].
  by apply linked_uploads.
Qed.

(** Publishing keeps the links: the objects of the outputs become published and then
    their segments active, by the same instant. *)
Lemma evolves_publish now db db1 db2 po ps fs n m :
  db_ok db →
  update_objects db po (λ o, Some (mark_published now o)) = Ok (db1, n) →
  update_segments db1 ps fs = Ok (db2, m) →
  (∀ o, po o = true → ob_state o = "UPLOADED") →
  (∀ s s', fs s = Some s' → sg_columns s' = sg_columns s ∧ (ps s = true → sg_state s = "PREPARED" ∧
     sg_state s' = "ACTIVE" ∧ sg_published_at s' = Some now)) →
  (∀ k s j o, db_segments db !! k = Some s → db_objects db !! j = Some o → ob_segment_id o = Some k → ps s = po o) →
  evolves Publish db db2.
Proof.
  intros Hok Ho Hs Hpo Hps Hpair.
  assert (Hc : ∀ o o', Some (mark_published now o) = Some o' → ob_columns o' = ob_columns o) by (by intros ?? [= <-]).
  pose proof (wf_update_objects _ _ _ _ _ (ok_wf _ Hok) Hc Ho) as (Hwf1 & -> & _ & _).
  pose proof (wf_update_segments _ _ _ _ _ Hwf1 (λ s s' E, proj1 (Hps s s' E)) Hs) as (Hwf2 & -> & _ & Hf).
  cbn [set_objects db_segments] in Hf.
  apply (evolves_update _ _ _ (updated ps fs) (updated po (λ o, Some (mark_published now o)))); try done.
  - intros s. apply (updated_kept segment_kept). intros y y' E. by apply Hps.
  - intros o. by apply (updated_kept object_kept); intros ?? [= <-].
  - intros k s j o st Hk Hj Hjk Hl. unfold updated. rewrite (Hpair _ _ _ _ Hk Hj Hjk). destruct (po o) eqn:Epo; [|exists st; by split].
    assert (Eps : ps s = true) by (by rewrite (Hpair _ _ _ _ Hk Hj Hjk)).
    destruct (Hf _ _ Hk Eps) as (s' & Hs' & _). rewrite Hs'. cbn. destruct (Hps _ _ Hs') as [_ Hs2].
    destruct (Hs2 Eps) as (H1 & H2 & H3).
    destruct (linked_publishes now s s' o st Hl (Hpo _ Epo) H1 H2 H3) as [Hl' ->].
    exists OutputPublished. split; [done | apply lifecycle_publish].
Qed.

Lemma publish_ingestion_segment_evolves now id retention db db' outcome :
  db_ok db → publish_ingestion_segment now id retention db = Ok (db', outcome) → evolves Publish db db'.
Proof.
  intros Hok Hp. pose proof (ok_wf _ Hok) as Hwf. unfold publish_ingestion_segment in Hp. inv_tx.
  rename a into s, a0 into o.
  apply (load_segment_object_Some _ _ _ Hwf) in Hok1 as (j & Hj & Hjk).
  assert (Hsid : sg_id s = id) by (by apply (wf_segments_keyed _ Hwf)).
  assert (Hoid : ob_id o = j) by (by apply (wf_objects_keyed _ Hwf)).
  assert (Hstate : a3 = SPrepared → sg_state s = "PREPARED").
  { intros ->. unfold segment_state, SegmentState_from_database in Hok4. by repeat (case_decide; [try done; congruence|]). }
  assert (Hostate : a4 = OUploaded → ob_state o = "UPLOADED").
  { intros ->. unfold object_state, StoredObjectState_from_database in Hok5. by repeat (case_decide; [try done; congruence|]). }
  destruct a3, a4; inv_tx; try done; try by apply evolves_refl.
  eapply evolves_publish; [done | done | done | | |].
  - intros o' [_ ?%bool_decide_eq_true]%andb_true_iff. done.
  - intros s0 s' Hs'. unfold activate_segment in Hs'. apply bind_Some in Hs' as (dl & _ & [= <-]). split; [done|].
    intros [_ [_ ?%bool_decide_eq_true]%andb_true_iff]%andb_true_iff. done.
  - intros k s' j' o' Hk Hj' Hjk'. destruct (decide (k = sg_id s)) as [->|Hne].
    + destruct (same_segment_object _ _ _ _ _ _ Hwf Hj Hj' Hjk Hjk') as [<- <-].
      assert (s' = s) as -> by congruence. unfold prepared_ingestion.
      rewrite !Z.eqb_refl, Hok2, Hstate, Hostate by done. done.
    + assert (Hs' : sg_id s' = k) by (by apply (wf_segments_keyed _ Hwf)). rewrite Hs', (proj2 (Z.eqb_neq _ _) Hne). cbn.
      assert (ob_id o' ≠ ob_id o); [|by rewrite (proj2 (Z.eqb_neq _ _))]. intros E. apply Hne.
      rewrite (wf_objects_keyed _ Hwf _ _ Hj') in E. naive_solver.
Qed.

Lemma publish_dead_letter_evolves now id retention db db' outcome :
  db_ok db → publish_dead_letter now id retention db = Ok (db', outcome) → evolves Publish db db'.
Proof.
  intros Hok Hp. pose proof (ok_wf _ Hok) as Hwf. unfold publish_dead_letter, validate_dead_letter_owner in Hp. inv_tx.
  destruct a1; inv_tx; try by apply evolves_refl.
  eapply evolves_objects; [updating | done | done | |].
  - intros o o' Ho. unfold mark_dead_letter_published in Ho. by apply bind_Some in Ho as (dl & _ & [= <-]).
  - intros k s o o' st Hk Ho Hjk Hl Hpo _. rewrite !andb_true_iff in Hpo.
    destruct Hpo as [[_ Hkind%bool_decide_eq_true] _]. apply elem_of_rows in Ho as [j Ho].
    pose proof (wf_objects _ Hwf _ _ Ho) as Hc. unfold object_checks in Hc. rewrite !andb_true_iff in Hc.
    destruct_and! Hc. unfold object_owner_check, ob_kind, ob_segment_id in *. rewrite Hkind, Hjk in *. done.
Qed.

Lemma retire_columns state now grace s s' : retire_segment state now grace s = Some s' → sg_columns s' = sg_columns s.
Proof. unfold retire_segment. by intros (dl & _ & [= <-])%bind_Some. Qed.

(** Abandoning prepared segments. *)
Lemma evolves_abandon now grace db p db' n :
  db_ok db → (∀ s, p s = true → sg_state s = "PREPARED") →
  update_segments db p (retire_segment "ABANDONED" now grace) = Ok (db', n) → evolves Abandon db db'.
Proof.
  intros Hok Hp Hu. eapply evolves_segments; [updating | done | done | apply retire_columns |].
  intros k s s' o st Hk [j Ho]%elem_of_rows Hjk Hl Hps Hs'.
  eapply linked_abandons; [done | | | by apply Hp | done].
  - by eapply wf_segments; [apply ok_wf|].
  - by eapply wf_objects; [apply ok_wf|].
Qed.

Lemma prepared_ingestion_state s : prepared_ingestion s = true → sg_state s = "PREPARED".
Proof. unfold prepared_ingestion. by intros [_ ?%bool_decide_eq_true]%andb_true_iff. Qed.

Lemma abandon_ingestion_output_evolves now registration grace db db' outcome :
  db_ok db → abandon_ingestion_output now registration grace db = Ok (db', outcome) → evolves Abandon db db'.
Proof.
  intros Hok Ha. unfold abandon_ingestion_output in Ha. inv_tx.
  match goal with state : ObjectPublicationState |- _ => destruct state end; inv_tx; try by apply evolves_refl.
  all: eapply evolves_abandon; [done | | done]; intros s [_ Hs]%andb_true_iff; by apply prepared_ingestion_state.
Qed.

(** A dead letter has no segment. *)
Lemma dead_letter_no_segment db o k :
  db_wf db → o ∈ rows (db_objects db) → ob_kind o = "DEAD_LETTER" → ob_segment_id o ≠ Some k.
Proof.
  intros Hwf [j Ho]%elem_of_rows Hkind Hk. pose proof (wf_objects _ Hwf _ _ Ho) as Hc. unfold object_checks in Hc.
  rewrite !andb_true_iff in Hc. destruct_and! Hc. unfold object_owner_check, ob_kind, ob_segment_id in *.
  rewrite Hkind, Hk in *. done.
Qed.

Lemma reconcile_evolves now sl ol rs rd grace limit db db' outcome :
  db_ok db → reconcile_unreferenced_outputs now sl ol rs rd grace limit db = Ok (db', outcome) → evolves Abandon db db'.
Proof.
  intros Hok Hr. unfold reconcile_unreferenced_outputs in Hr. inv_tx.
  rename a into db1.
  assert (H1 : evolves Abandon db db1).
  { destruct (sg_id <$> _) as [|id ids]; inv_tx; [by apply evolves_refl|].
    eapply evolves_abandon; [done | | done]. intros s [_ Hs]%andb_true_iff. by apply prepared_ingestion_state. }
  eapply evolves_trans; [exact H1|]. clear Hok0. destruct H1 as [Hok1' _ _ _].
  match type of Hok2 with context [match ?l with _ => _ end] => destruct l as [|id ids] end; inv_tx; [by apply evolves_refl|].
  eapply evolves_objects; [updating | done | done | by intros ?? [= <-] |].
  intros k s o o' st Hk Ho Hjk Hl Hp _. exfalso. rewrite andb_true_iff in Hp. unfold unpublished_dead_letter in Hp.
  rewrite andb_true_iff in Hp. destruct Hp as [_ [Hkind%bool_decide_eq_true _]].
  by apply (dead_letter_no_segment db1 o k (ok_wf _ Hok1')).
Qed.

(** ** Registration *)

Lemma insert_planned_object_Ok now db d owner db' n :
  insert_planned_object now db d owner = Ok (db', n) →
  ∃ byte_size format_version,
    let row := planned_object now (object_columns d owner byte_size format_version) in
    (n = 1 ∧ insert_object db row = Ok db') ∨ (n = 0 ∧ db' = db).
Proof.
  intros Hi. unfold insert_planned_object, insert_object_or_nothing in Hi. inv_tx. exists a, a0. cbv zeta.
  destruct (object_unique _ _); inv_tx; auto.
Qed.

Lemma register_ingestion_segment_evolves now registration db db' outcome :
  db_ok db → register_ingestion_segment now registration db = Ok (db', outcome) → evolves Register db db'.
Proof.
  intros Hok Hr. unfold register_ingestion_segment in Hr. inv_tx. cbv zeta in *.
  match goal with Hi : insert_planned_object _ _ _ _ = _ |- _ =>
    apply insert_planned_object_Ok in Hi as (bs & fv & [[-> Hi]|[-> ->]]) end;
  match goal with Hs : insert_segment_or_nothing _ _ = _ |- _ =>
    unfold insert_segment_or_nothing in Hs; inv_tx; destruct (is_null _); inv_tx end; cbn in Hr; inv_tx; try done.
  eapply evolves_register; done || (by apply linked_planned).
Qed.

Lemma register_dead_letter_evolves now registration db db' outcome :
  db_ok db → register_dead_letter now registration db = Ok (db', outcome) → evolves Register db db'.
Proof.
  intros Hok Hr. unfold register_dead_letter in Hr. inv_tx. cbv zeta in *.
  match goal with Hi : insert_planned_object _ _ _ _ = _ |- _ =>
    apply insert_planned_object_Ok in Hi as (bs & fv & [[-> Hi]|[-> ->]]) end; cbn in Hr; inv_tx.
  - by eapply evolves_insert_object.
  - by apply evolves_refl.
Qed.

(** ** Reclamation *)

Lemma update_exactly_Ok db p f expected message db' :
  update_exactly db p f expected message = Ok db' →
  update_objects db p (λ o, Some (f o)) = Ok (db', Z.of_nat expected).
Proof. intros Hu. unfold update_exactly in Hu. inv_tx. apply Z.eqb_eq in Hok0 as ->. done. Qed.

(** Marks on an object that is being deleted. *)
Lemma evolves_deleting db p f expected message db' :
  db_ok db → update_exactly db p f expected message = Ok db' →
  (∀ o, p o = true → ob_state o = "DELETE_PENDING") →
  (∀ o, object_kept o (f o) ∧ ob_published_at (f o) = ob_published_at o ∧
        (p o = true → ob_state (f o) ∈ ["DELETE_PENDING"; "DELETED"])) →
  evolves Keep db db'.
Proof.
  intros Hok Hu%update_exactly_Ok Hp Hf.
  eapply evolves_objects; [updating | done | done | intros o o' [= <-]; apply Hf |].
  intros k s o o' st Hk Ho Hjk Hl Hpo [= <-]. exists st. split; [|done].
  eapply linked_deletes; [done | | by apply Hf | apply Hf].
  eapply deleting_retired; [done|]. rewrite (Hp _ Hpo). set_solver.
Qed.

Lemma reclaimable_parquet now db o k s :
  reclaimable now db o = true → db_wf db → o ∈ rows (db_objects db) → ob_segment_id o = Some k →
  db_segments db !! k = Some s → segment_releases now s o = true.
Proof.
  unfold reclaimable, owning_segment. intros Hr Hwf Ho Hk Hs. apply orb_true_iff in Hr as [Hr|Hr].
  - apply andb_true_iff in Hr as [_ Hr]. rewrite Hk in Hr. cbn in Hr. by rewrite Hs in Hr.
  - rewrite !andb_true_iff in Hr. destruct Hr as [[Hkind%bool_decide_eq_true _] _].
    by destruct (dead_letter_no_segment db o k Hwf Ho Hkind).
Qed.

Lemma claim_evolves `{UuidText, PathLib} now locked delay limit db db' claims :
  db_ok db → claim now locked delay limit db = Ok (db', claims) → evolves Keep db db'.
Proof.
  intros Hok Hc. unfold claim in Hc. inv_tx. rename a2 into db1.
  assert (E1 : evolves Keep db db1).
  { unfold mark_retry_attempts in Hok3. destruct a; inv_tx; [by apply evolves_refl|].
    eapply evolves_deleting; [done | done | |].
    - intros x [_ Hx%bool_decide_eq_true]%andb_true_iff. done.
    - intros x. split; [done|]. split; [done|]. intros [_ Hx%bool_decide_eq_true]%andb_true_iff.
      cbn. rewrite Hx. set_solver. }
  eapply evolves_trans; [exact E1|]. destruct E1 as [Hok1' _ _ _]. unfold mark_initial_claims in Hok4.
  match type of Hok4 with match ?l with _ => _ end = _ => destruct l end; inv_tx; [by apply evolves_refl|].
  apply update_exactly_Ok in Hok4. eapply evolves_objects; [updating | done | done | by intros ?? [= <-] |].
  intros k s o1 o' st Hk Ho Hjk Hl Hp [= <-]. exists st. split; [|done].
  apply andb_true_iff in Hp as [_ Hp]. pose proof (reclaimable_parquet _ _ _ _ _ Hp (ok_wf _ Hok1') Ho Hjk Hk) as Hr.
  unfold segment_releases in Hr. rewrite !andb_true_iff in Hr. destruct Hr as [[Hr%bool_decide_eq_true _] _].
  eapply linked_deletes; [done | done | cbn; set_solver | done].
Qed.

Lemma record_deleted_evolves `{UuidText, PathLib} now c db db' outcome :
  db_ok db → record_deleted now c db = Ok (db', outcome) → evolves Keep db db'.
Proof.
  intros Hok Hc. unfold record_deleted in Hc. inv_tx. case_decide; inv_tx; [|case_decide; inv_tx; by apply evolves_refl].
  eapply evolves_deleting; [done | done | |].
  - intros o [_ Ho%bool_decide_eq_true]%andb_true_iff. done.
  - intros o. split; [done|]. split; [done|]. intros _. cbn. set_solver.
Qed.

Lemma record_failure_evolves `{UuidText, PathLib} now c failure db db' outcome :
  db_ok db → record_failure now c failure db = Ok (db', outcome) → evolves Keep db db'.
Proof.
  intros Hok Hc. unfold record_failure in Hc. inv_tx. case_decide; inv_tx; [|case_decide; inv_tx; by apply evolves_refl].
  eapply evolves_deleting; [done | done | |].
  - intros o [_ Ho%bool_decide_eq_true]%andb_true_iff. done.
  - intros o. split; [done|]. split; [done|]. intros [_ Ho%bool_decide_eq_true]%andb_true_iff. cbn. rewrite Ho. set_solver.
Qed.

(** ** Retention *)

Lemma unclaimed_active_state s : unclaimed_active s = true → sg_state s = "ACTIVE" ∧ sg_claimed_by s = None.
Proof.
  unfold unclaimed_active. intros [Hs%bool_decide_eq_true Hc]%andb_true_iff. split; [done|]. by destruct (sg_claimed_by s).
Qed.

Lemma expire_segments_evolves now locked grace limit db db' outcome :
  db_ok db → expire_segments now locked grace limit db = Ok (db', outcome) → evolves Keep db db'.
Proof.
  intros Hok He. unfold expire_segments in He. cbv zeta in He.
  match type of He with match ?l with _ => _ end = _ => destruct l end; inv_tx; [by apply evolves_refl|].
  eapply evolves_segments; [updating | done | done | apply retire_columns |].
  intros k x x' o st Hk Ho Hjk Hl [_ [Hx _]%unclaimed_active_state]%andb_true_iff Hx'.
  eapply linked_retires; [done | done | | done]. set_solver.
Qed.

(** ** Cleanup *)

Lemma terminal_segment_state db s :
  terminal_segment db s = true → sg_state s ∈ ["SUPERSEDED"; "EXPIRED"; "ABANDONED"].
Proof. unfold terminal_segment. by intros [?%bool_decide_eq_true _]%andb_true_iff. Qed.

(** What the removal of objects and segments leaves. *)
Lemma remove_cleanup_objects_Ok ids db db' :
  db_wf db → remove_cleanup_objects ids db = Ok db' →
  db_wf db' ∧ db_segments db' = db_segments db ∧
  (∀ j o, db_objects db' !! j = Some o → db_objects db !! j = Some o) ∧
  ∀ j o, db_objects db !! j = Some o → j ∉ ids → db_objects db' !! j = Some o.
Proof.
  intros Hwf Hr. unfold remove_cleanup_objects in Hr. destruct ids as [|id ids]; [inv_tx; by split|].
  set (p := λ r, bool_decide (ob_id r ∈ id :: ids) && bool_decide (ob_state r = "DELETED")) in *.
  assert (db' = (delete_objects db p).1) as -> by (destruct (delete_objects db p); by inv_tx).
  split; [by apply wf_delete_objects|]. split; [done|].
  split; [by intros j o [? _]%lookup_delete_rows|]. intros j o Ho Hj. apply lookup_delete_rows. split; [done|].
  unfold p. rewrite (wf_objects_keyed _ Hwf _ _ Ho). by rewrite bool_decide_false.
Qed.

Lemma delete_segments_exactly p ids db db' n :
  db_wf db → NoDup ids → delete_segments db p = Ok (db', n) → n = Z.of_nat (length ids) →
  (∀ s, p s = true → sg_id s ∈ ids) →
  db_wf db' ∧ db_objects db' = db_objects db ∧
  (∀ k s, db_segments db' !! k = Some s → db_segments db !! k = Some s ∧ k ∉ ids) ∧
  (∀ k s, db_segments db !! k = Some s → db_segments db' !! k = None → p s = true).
Proof.
  intros Hwf Hnd Hd Hn Hp. apply wf_delete_segments in Hd as (Hwf' & -> & ->); [|done].
  unfold delete_rows in Hn. cbn [snd] in Hn. apply Nat2Z.inj in Hn.
  pose proof (size_hits_inv sg_id p (db_segments db) ids (wf_segments_keyed _ Hwf) (λ s _, Hp s) Hn Hnd) as Hids.
  split; [done|]. split; [done|]. cbn [set_segments db_segments]. split.
  - intros k s [Hs Hps]%lookup_delete_rows. split; [done|]. intros Hk. destruct (Hids _ Hk) as (r & Hr & Hpr). congruence.
  - intros k s Hs Hk. destruct (p s) eqn:Hps; [done|].
    assert (Hk' : (delete_rows p (db_segments db)).1 !! k = Some s) by (by apply lookup_delete_rows). congruence.
Qed.

Lemma require_cleanup_rows_Ok n count message u : require_cleanup_rows n count message = Ok u → n = Z.of_nat count.
Proof.
  intros Hn. unfold require_cleanup_rows, cleanup_count in Hn. apply bind_Ok in Hn as (m & Hm%ok_or_Ok & Hn).
  apply narrow_Some in Hm as [-> _]. by destruct (Z.eqb_spec n (Z.of_nat count)).
Qed.

Lemma remove_cleanup_segments_Ok ids db db' :
  db_wf db → NoDup ids → remove_cleanup_segments ids db = Ok db' →
  db_wf db' ∧ db_objects db' = db_objects db ∧
  (∀ k s, db_segments db' !! k = Some s → db_segments db !! k = Some s ∧ k ∉ ids) ∧
  (∀ k s, db_segments db !! k = Some s → db_segments db' !! k = None → terminal_segment db s = true).
Proof.
  intros Hwf Hnd Hr. unfold remove_cleanup_segments in Hr. destruct ids as [|id ids].
  { injection Hr as <-. split; [done|]. split; [done|]. split; [|congruence].
    intros k s Hk. split; [done | apply not_elem_of_nil]. }
  apply bind_Ok in Hr as ([d n] & Hd%map_err_Ok & (u & Hn%require_cleanup_rows_Ok & [= <-])%bind_Ok).
  destruct (delete_segments_exactly _ (id :: ids) _ _ _ Hwf Hnd Hd Hn) as (H1 & H2 & H3 & H4).
  { intros s Hs. apply andb_true_iff in Hs as [[Hs _]%andb_true_iff _]. by apply bool_decide_eq_true in Hs. }
  split; [done|]. split; [done|]. split; [done|]. intros k s Hk Hk'. specialize (H4 k s Hk Hk').
  by apply andb_true_iff in H4 as [[_ ?]%andb_true_iff _].
Qed.

Lemma NoDup_lock_cleanup_segments locked ids db : db_wf db → NoDup (lock_cleanup_segments locked ids db).
Proof.
  intros Hwf. unfold lock_cleanup_segments. destruct ids; [constructor|].
  eapply sublist_NoDup; [|apply fmap_sublist, sublist_filter]. apply NoDup_select_by_id, wf_segments_keyed, Hwf.
Qed.

Lemma clean_terminal_metadata_evolves now ol sl rl limit db db' outcome :
  db_ok db → clean_terminal_metadata now ol sl rl limit db = Ok (db', outcome) → evolves Remove db db'.
Proof.
  intros Hok Hc. pose proof (ok_wf _ Hok) as Hwf. unfold clean_terminal_metadata in Hc. inv_tx. cbv zeta in *.
  rename a0 into db1, a1 into db2. set (ids := lock_cleanup_segments _ _ _) in *.
  assert (Hnd : NoDup ids) by (by apply NoDup_lock_cleanup_segments).
  destruct (remove_cleanup_objects_Ok _ _ _ Hwf Hok1) as (Hwf1 & Hs1 & Ho0 & Ho1).
  destruct (remove_cleanup_segments_Ok _ _ _ Hwf1 Hnd Hok2) as (Hwf2 & Ho2 & Hs2 & Ht2).
  unfold remove_cleanup_compaction_runs in Hok5.
  assert (Hruns : db_wf db' ∧ db_segments db' = db_segments db2 ∧ db_objects db' = db_objects db2).
  { destruct (_ =? 0); inv_tx; [done|]. match goal with Hd : delete_runs _ _ = Ok ?x |- _ => destruct x; apply wf_delete_runs in Hd as [Hwf3 ->]; done end. }
  destruct Hruns as (Hwf3 & Hs3 & Ho3).
  apply evolves_delete; [done | done | | | |].
  - intros k s. rewrite Hs3. intros [Hk _]%Hs2. congruence.
  - intros j o. rewrite Ho3, Ho2. apply Ho0.
  - intros k s j o. rewrite Hs3, Ho3, Ho2. intros [Hk Hki]%Hs2 Hj Hjk. apply Ho1; [done|].
    intros (x & Ex & [Hx Hxa]%list_elem_of_filter)%list_elem_of_fmap.
    assert (x = o) as ->; [|unfold is_selected in Hx; rewrite Hjk in Hx; by apply bool_decide_eq_true in Hx].
    match goal with Hl : load_cleanup_object_candidates _ _ _ = Ok _ |- _ => unfold load_cleanup_object_candidates in Hl; inv_tx end.
    destruct (select_limited_spec (cleanup_candidate db) ob_id (λ r, (ob_updated_at r, ob_id r)) limit
      (λ r, bool_decide (ob_id r ∈ ol)) (db_objects db) (wf_objects_keyed _ Hwf)) as (Hsel & _).
    destruct (Hsel x Hxa) as (_ & Hx' & _). congruence.
  - intros k s Hk. rewrite Hs3. intros Hn. rewrite <- Hs1 in Hk. eapply terminal_segment_state. by eapply Ht2.
Qed.

(** ** Compaction *)

(** A claim changes neither the state of a segment nor its publication. *)
Lemma evolves_claim t run now db p db' n :
  updating t → db_ok db → update_segments db p (λ s, Some (set_claim run now s)) = Ok (db', n) → evolves t db db'.
Proof.
  intros Ht Hok Hu. eapply evolves_segments; [done | done | done | by intros ?? [= <-] |].
  intros k s s' o st Hk Ho Hjk Hl Hp [= <-]. exists st. split; [|done]. by apply (linked_ext s _ o).
Qed.

Lemma update_runs_evolves t db p f db' n :
  db_ok db → update_runs db p (λ r, Some (f r)) = Ok (db', n) →
  (∀ r, rn_id (f r) = rn_id r ∧ rn_source_id (f r) = rn_source_id r ∧ rn_schema_id (f r) = rn_schema_id r ∧
     rn_event_day (f r) = rn_event_day r) → evolves t db db'.
Proof.
  intros Hok Hu Hf. apply wf_update_runs in Hu as (Hwf & -> & _); [|by apply ok_wf | by intros r r' [= <-]].
  by apply evolves_same.
Qed.

Lemma claim_compaction_evolves `{UuidText, PathLib} now run limits snapshot db db' outcome :
  db_ok db → claim_compaction now run limits snapshot db = Ok (db', outcome) → evolves Keep db db'.
Proof.
  intros Hok Hc. unfold claim_compaction in Hc. inv_tx. destruct a0 as [selected|]; inv_tx; [|by apply evolves_refl].
  match goal with Hi : insert_run _ _ = Ok ?d |- _ => rename d into db1; apply wf_insert_run in Hi as (Hwf1 & Hdb1 & _); [|by apply ok_wf] end.
  assert (E1 : evolves Keep db db1) by (subst db1; by apply evolves_same).
  eapply evolves_trans; [exact E1|]. eapply evolves_claim; [updating | apply E1 | done].
Qed.

Lemma insert_compaction_output_evolves now db output db' :
  db_ok db → insert_compaction_output now db output = Ok db' → evolves Register db db'.
Proof.
  intros Hok Hi. unfold insert_compaction_output in Hi. inv_tx.
  eapply evolves_register; [done | done | done | done | by apply linked_planned].
Qed.

Lemma insert_compaction_outputs_evolves now outputs db db' :
  db_ok db → insert_compaction_outputs now outputs db = Ok db' → evolves Register db db'.
Proof.
  intros Hok Hi. unfold insert_compaction_outputs in Hi.
  eapply (try_fold_inv (evolves Register db)); [| by apply evolves_refl | exact Hi].
  intros d output d' _ Hd Hs. eapply evolves_trans; [exact Hd|]. eapply insert_compaction_output_evolves; [apply Hd | done].
Qed.

Lemma register_outputs_evolves now run outputs db db' outcome :
  db_ok db → register_outputs now run outputs db = Ok (db', outcome) → evolves Register db db'.
Proof.
  intros Hok Hr. unfold register_outputs in Hr. inv_tx.
  case_decide; inv_tx; [|case_decide; [inv_tx; by apply evolves_refl | by case_decide]].
  match goal with Hi : insert_compaction_outputs _ _ _ = Ok _ |- _ => apply insert_compaction_outputs_evolves in Hi as E1; [|done] end.
  eapply evolves_trans; [exact E1|]. 
  match goal with Hu : update_runs _ _ _ = Ok _ |- _ => apply (update_runs_evolves _ _ _ _ _ _ (ev_ok _ _ _ E1) Hu) end. done.
Qed.

Lemma update_segments_exactly_Ok db p f expected message db' :
  update_segments_exactly db p f expected message = Ok db' →
  update_segments db p f = Ok (db', Z.of_nat expected).
Proof.
  intros Hu. unfold update_segments_exactly, require_rows in Hu. inv_tx.
  match goal with Hb : (_ =? _) = true |- _ => apply Z.eqb_eq in Hb; subst end. done.
Qed.

Lemma update_run_exactly_evolves t db p f message db' :
  db_ok db → update_run_exactly db p f message = Ok db' →
  (∀ r, rn_id (f r) = rn_id r ∧ rn_source_id (f r) = rn_source_id r ∧ rn_schema_id (f r) = rn_schema_id r ∧
     rn_event_day (f r) = rn_event_day r) → evolves t db db'.
Proof. intros Hok Hu Hf. unfold update_run_exactly in Hu. inv_tx. by eapply update_runs_evolves. Qed.

(** The rows of a replacement. *)
Record replacement_of (db : Database) (run_id : Z) (r : ReplacementRows) : Prop := {
  rp_run : db_runs db !! run_id = Some (rr_run r);
  rp_inputs s : s ∈ rr_inputs r ↔ s ∈ rows (db_segments db) ∧ sg_claimed_by s = Some run_id;
  rp_outputs s : s ∈ rr_outputs r ↔ s ∈ rows (db_segments db) ∧ sg_produced_by s = Some run_id;
  rp_objects o :
    o ∈ rr_objects r ↔ o ∈ rows (db_objects db) ∧ ∃ s, s ∈ rr_outputs r ∧ ob_segment_id o = Some (sg_id s);
  rp_inputs_distinct : NoDup (sg_id <$> rr_inputs r);
  rp_outputs_distinct : NoDup (sg_id <$> rr_outputs r);
  rp_objects_distinct : NoDup (ob_id <$> rr_objects r);
}.

(** A list of at most a limit is whole. *)
Lemma take_short {A} (l : list A) n : (length (take (S n) l) ≤ n)%nat → take (S n) l = l.
Proof. rewrite length_take. intros Hl. apply take_ge. lia. Qed.

Lemma load_replacement_Ok run_id db r : db_wf db → load_replacement run_id db = Ok r → replacement_of db run_id r.
Proof.
  intros Hwf Hl. unfold load_replacement in Hl. cbv zeta in Hl. inv_tx.
  change (Z.to_nat (MAXIMUM_COMPACTION_INPUT_SEGMENTS + 1)) with (S 1000) in *.
  change (Z.to_nat (MAXIMUM_COMPACTION_OUTPUT_SEGMENTS + 1)) with (S 1000) in *.
  unfold MAXIMUM_COMPACTION_INPUT_SEGMENTS, MAXIMUM_COMPACTION_OUTPUT_SEGMENTS in *.
  rewrite Z.leb_le in *.
  repeat match goal with |- context [take (S 1000) ?l] => rewrite (take_short l 1000) in * by lia end.
  split; cbn [rr_run rr_inputs rr_outputs rr_objects]; try done.
  - intros s. rewrite elem_of_select_by_id, bool_decide_eq_true. tauto.
  - intros s. rewrite elem_of_select_by_id, bool_decide_eq_true. tauto.
  - intros o. rewrite elem_of_select_by_id. destruct (ob_segment_id o) as [id|].
    + rewrite bool_decide_eq_true, list_elem_of_fmap. naive_solver.
    + naive_solver.
  - apply NoDup_select_by_id, wf_segments_keyed, Hwf.
  - apply NoDup_select_by_id, wf_segments_keyed, Hwf.
  - apply NoDup_select_by_id, wf_objects_keyed, Hwf.
Qed.

(** Rows of a table are known by their identities. *)
Lemma elem_of_ids {R} (id : R → Z) (t : gmap Z R) (l : list R) k x :
  keyed id t → (∀ y, y ∈ l → y ∈ rows t) → t !! k = Some x → id x ∈ id <$> l ↔ x ∈ l.
Proof.
  intros Hk Hl Hx. rewrite list_elem_of_fmap. split; [|eauto].
  intros (y & E & Hy). pose proof (lookup_row id t y Hk (Hl _ Hy)) as Hy'.
  rewrite <- E, (Hk _ _ Hx), Hx in Hy'. by injection Hy' as ->.
Qed.

Lemma output_ids_iff db run_id r k s :
  db_wf db → replacement_of db run_id r → db_segments db !! k = Some s →
  sg_id s ∈ sg_id <$> rr_outputs r ↔ s ∈ rr_outputs r.
Proof.
  intros Hwf Hr Hk. eapply elem_of_ids; [by apply wf_segments_keyed | | done].
  intros y Hy. by apply (rp_outputs _ _ _ Hr) in Hy as [? _].
Qed.

Lemma object_ids_iff db run_id r j o :
  db_wf db → replacement_of db run_id r → db_objects db !! j = Some o →
  ob_id o ∈ ob_id <$> rr_objects r ↔ o ∈ rr_objects r.
Proof.
  intros Hwf Hr Hj. eapply elem_of_ids; [by apply wf_objects_keyed | | done].
  intros y Hy. by apply (rp_objects _ _ _ Hr) in Hy as [? _].
Qed.

(** An output and its object are both in the replacement or neither is. *)
Lemma output_object_iff db run_id r k s j o :
  db_wf db → replacement_of db run_id r → db_segments db !! k = Some s → db_objects db !! j = Some o →
  ob_segment_id o = Some k → s ∈ rr_outputs r ↔ o ∈ rr_objects r.
Proof.
  intros Hwf Hr Hk Hj Hjk. rewrite (rp_objects _ _ _ Hr). pose proof (wf_segments_keyed _ Hwf _ _ Hk) as Hid. split.
  - intros Hs. split; [apply elem_of_rows; eauto|]. exists s. by rewrite Hid.
  - intros [_ (s' & Hs' & E)]. rewrite Hjk in E. injection E as E.
    pose proof (proj1 (rp_outputs _ _ _ Hr s') Hs') as [Hrow _].
    pose proof (lookup_row sg_id _ s' (wf_segments_keyed _ Hwf) Hrow) as Hl. rewrite <- E, Hk in Hl. by injection Hl as ->.
Qed.

Lemma validate_prepublication_Ok r u :
  validate_prepublication r = Ok u →
  validate_common_replacement r = Ok tt ∧ (∀ s, s ∈ rr_inputs r → sg_state s = "ACTIVE") ∧
  (∀ s, s ∈ rr_outputs r → sg_state s = "PREPARED") ∧ (∀ o, o ∈ rr_objects r → ob_state o = "UPLOADED").
Proof.
  intros Hv. unfold validate_prepublication in Hv. inv_ok. rewrite !forallb_forall in *.
  setoid_rewrite <- list_elem_of_In in Hok0. setoid_rewrite <- list_elem_of_In in Hok1.
  setoid_rewrite <- list_elem_of_In in Hv. destruct a. split; [done|]. split; [|split].
  - intros s Hs. specialize (Hok0 _ Hs). unfold active_input in Hok0. rewrite !andb_true_iff in Hok0.
    by destruct Hok0 as [[?%bool_decide_eq_true _] _].
  - intros s Hs. specialize (Hok1 _ Hs). unfold prepared_output in Hok1. rewrite !andb_true_iff in Hok1.
    by destruct Hok1 as [[?%bool_decide_eq_true _] _].
  - intros o Ho. specialize (Hv _ Ho). unfold uploaded_output in Hv. rewrite !andb_true_iff in Hv.
    by destruct Hv as [[[[_ ?%bool_decide_eq_true] _] _] _].
Qed.

Lemma publish_locked_replacement_evolves now run_id r grace db db' :
  db_ok db → replacement_of db run_id r → validate_prepublication r = Ok tt →
  publish_locked_replacement now r grace db = Ok db' → evolves Publish db db'.
Proof.
  intros Hok Hr Hv Hp. pose proof (ok_wf _ Hok) as Hwf. apply validate_prepublication_Ok in Hv as (_ & _ & Hout & Hobj).
  unfold publish_locked_replacement in Hp. inv_tx. cbv zeta in *.
  rename a0 into db2, a1 into db3.
  match goal with Hu : update_segments_exactly _ _ _ _ _ = Ok db2 |- _ => apply update_segments_exactly_Ok in Hu as Hu2 end.
  match goal with Hu : update_segments_exactly _ _ _ _ _ = Ok db3 |- _ => apply update_segments_exactly_Ok in Hu as Hu3 end.
  assert (E2 : evolves Publish db db2).
  { eapply evolves_publish; [done | done | done | | |].
    - intros o [_ Ho%bool_decide_eq_true]%andb_true_iff. done.
    - intros s s' [= <-]. split; [done|]. intros [_ Hs%bool_decide_eq_true]%andb_true_iff. done.
    - intros k s j o Hk Hj Hjk. apply eq_true_iff_eq. rewrite !andb_true_iff, !bool_decide_eq_true.
      rewrite (output_ids_iff db run_id r k s), (object_ids_iff db run_id r j o) by done.
      rewrite (output_object_iff db run_id r k s j o) by done. split; intros [Hin _]; split; auto.
      apply Hout. by apply (output_object_iff db run_id r k s j o). }
  assert (E3 : evolves Publish db2 db3).
  { eapply evolves_segments; [updating | apply E2 | done | apply retire_columns |].
    intros k s s' o st Hk Ho Hjk Hl Hps Hs'. rewrite !andb_true_iff in Hps.
    destruct Hps as [[_ Hs%bool_decide_eq_true] _]. eapply linked_retires; [done | done | | done]. set_solver. }
  eapply evolves_trans; [exact E2|]. eapply evolves_trans; [exact E3|].
  apply (update_run_exactly_evolves _ _ _ _ _ _ (ev_ok _ _ _ E3) Hp). done.
Qed.

Lemma fail_locked_run_evolves now r reason grace db db' :
  db_ok db → fail_locked_run now r reason grace db = Ok db' → evolves Abandon db db'.
Proof.
  intros Hok Hf. unfold fail_locked_run in Hf. inv_tx. cbv zeta in *. rename a into db1, a0 into db2.
  match goal with Hu : update_segments_exactly db _ _ _ _ = Ok db1 |- _ => apply update_segments_exactly_Ok in Hu as Hu1 end.
  assert (E1 : evolves Abandon db db1) by (by eapply evolves_claim; [updating | |]).
  assert (E2 : evolves Abandon db1 db2).
  { destruct (sg_id <$> rr_outputs r); inv_tx; [apply evolves_refl, E1|].
    match goal with Hu : update_segments_exactly db1 _ _ _ _ = Ok db2 |- _ => apply update_segments_exactly_Ok in Hu as Hu2 end.
    eapply evolves_abandon; [apply E1 | | done]. intros s [_ Hs%bool_decide_eq_true]%andb_true_iff. done. }
  eapply evolves_trans; [exact E1|]. eapply evolves_trans; [exact E2|].
  apply (update_run_exactly_evolves _ _ _ _ _ _ (ev_ok _ _ _ E2) Hf). done.
Qed.

Lemma publish_replacement_transaction_evolves now run_id grace db db' outcome :
  db_ok db → publish_replacement_transaction now run_id grace db = Ok (db', outcome) → evolves Publish db db'.
Proof.
  intros Hok Hp. unfold publish_replacement_transaction in Hp. inv_tx.
  match goal with Hl : load_replacement _ _ = Ok _ |- _ => apply load_replacement_Ok in Hl as Hr; [|by apply ok_wf] end.
  match goal with state : RunState |- _ => destruct state end; inv_tx; try by apply evolves_refl.
  match goal with Hv : validate_prepublication _ = Ok ?u |- _ => destruct u; by eapply publish_locked_replacement_evolves end.
Qed.

Lemma fail_run_transaction_evolves now run_id reason grace db db' outcome :
  db_ok db → fail_run_transaction now run_id reason grace db = Ok (db', outcome) → evolves Abandon db db'.
Proof.
  intros Hok Hp. unfold fail_run_transaction in Hp. inv_tx.
  match goal with state : RunState |- _ => destruct state end; inv_tx; try (by apply evolves_refl);
    by eapply fail_locked_run_evolves.
Qed.

Lemma recover_run_evolves now grace db run_id db' :
  db_ok db → recover_run now grace db run_id = Ok db' → evolves Abandon db db'.
Proof.
  intros Hok Hp. unfold recover_run in Hp. inv_tx.
  match goal with state : RunState |- _ => destruct state end; inv_tx; try done; by eapply fail_locked_run_evolves.
Qed.

Lemma recover_unfinished_transaction_evolves now grace limit db db' outcome :
  db_ok db → recover_unfinished_transaction now grace limit db = Ok (db', outcome) → evolves Abandon db db'.
Proof.
  intros Hok Hr. unfold recover_unfinished_transaction in Hr. inv_tx. cbv zeta in *.
  eapply (try_fold_inv (evolves Abandon db)); [| by apply evolves_refl | eassumption].
  intros d id d' _ Hd Hs. eapply evolves_trans; [exact Hd|]. eapply recover_run_evolves; [apply Hd | done].
Qed.

End Steps.
