(* ===== verification/Metastore.v ===== *)
(** * elucid-metastore: the stores together

    The transactions of all the stores as one step relation on the tables, and what holds
    of every database they reach: the lifecycle of each output is followed, data that
    queries can see is never deleted, and no publication reports corrupt metadata. *)

From S2P Require Import Prelude Core ErrorCode CatalogTypes CatalogModel Bytes Frame Storage Database Publication Reclamation Retention Compaction CompactionLifecycle MetastoreInvariant MetastoreLifecycle MetastoreSteps.
#[local] Open Scope string_scope.
#[local] Open Scope Z_scope.

Section Metastore.
Context {calendar : Calendar} {postgres : Postgres} {uuid_text : UuidText} {paths : PathLib}.

(** Committed transactions. The catalog only adds schemas, and inputs with a version 7
    identity. *)
Inductive step (db : Database) : Database → Prop :=
| step_catalog schemas inputs :
    db_schemas db ⊆ schemas → db_inputs db ⊆ inputs → (∀ i, i ∈ inputs → UuidV7.new i = Some i) →
    step db {| db_schemas := schemas; db_inputs := inputs; db_runs := db_runs db;
               db_segments := db_segments db; db_objects := db_objects db |}
| step_register_segment now registration db' outcome :
    register_ingestion_segment now registration db = Ok (db', outcome) → step db db'
| step_register_dead_letter now registration db' outcome :
    register_dead_letter now registration db = Ok (db', outcome) → step db db'
| step_record_upload now d db' outcome :
    record_verified_upload now d db = Ok (db', outcome) → step db db'
| step_publish_segment now id retention db' outcome :
    publish_ingestion_segment now id retention db = Ok (db', outcome) → step db db'
| step_publish_dead_letter now id retention db' outcome :
    publish_dead_letter now id retention db = Ok (db', outcome) → step db db'
| step_abandon now registration grace db' outcome :
    abandon_ingestion_output now registration grace db = Ok (db', outcome) → step db db'
| step_reconcile now sl ol rs rd grace limit db' outcome :
    reconcile_unreferenced_outputs now sl ol rs rd grace limit db = Ok (db', outcome) → step db db'
| step_claim_deletions now locked delay limit db' claims :
    claim now locked delay limit db = Ok (db', claims) → step db db'
| step_record_deleted now c db' outcome : record_deleted now c db = Ok (db', outcome) → step db db'
| step_record_failure now c failure db' outcome : record_failure now c failure db = Ok (db', outcome) → step db db'
| step_expire now locked grace limit db' outcome :
    expire_segments now locked grace limit db = Ok (db', outcome) → step db db'
| step_clean now ol sl rl limit db' outcome :
    clean_terminal_metadata now ol sl rl limit db = Ok (db', outcome) → step db db'
| step_claim_compaction now run limits snapshot db' outcome :
    claim_compaction now run limits snapshot db = Ok (db', outcome) → step db db'
| step_register_outputs now run outputs db' outcome :
    register_outputs now run outputs db = Ok (db', outcome) → step db db'
| step_publish_replacement now run grace db' outcome :
    publish_replacement_transaction now run grace db = Ok (db', outcome) → step db db'
| step_fail_run now run reason grace db' outcome :
    fail_run_transaction now run reason grace db = Ok (db', outcome) → step db db'
| step_recover now grace limit db' outcome :
    recover_unfinished_transaction now grace limit db = Ok (db', outcome) → step db db'.

(** The tables after the migrations. *)
Definition empty_database : Database :=
  {| db_schemas := ∅; db_inputs := ∅; db_runs := ∅; db_segments := ∅; db_objects := ∅ |}.

Definition reachable : Database → Prop := rtc step empty_database.

(** ** Every step keeps the invariant *)

Lemma empty_ok : db_ok empty_database.
Proof. split; [split|]; unfold keyed, empty_database; cbn; try (intros *; rewrite ?lookup_empty; done); set_solver. Qed.

Lemma catalog_wf db schemas inputs :
  db_wf db → db_schemas db ⊆ schemas → db_inputs db ⊆ inputs → (∀ i, i ∈ inputs → UuidV7.new i = Some i) →
  db_wf {| db_schemas := schemas; db_inputs := inputs; db_runs := db_runs db;
           db_segments := db_segments db; db_objects := db_objects db |}.
Proof.
  intros Hwf Hs Hi Hv. split; cbn [db_schemas db_inputs db_runs db_segments db_objects]; try apply Hwf; try done.
  - intros k s Hk. pose proof (wf_segment_references _ Hwf _ _ Hk) as Href. unfold segment_references in *.
    cbn [db_schemas db_runs]. rewrite !andb_true_iff in *. destruct Href as [[Hx ->] ->].
    split; [split; [|done]|done]. destruct (db_schemas db !! _) as [x|] eqn:E; [|done].
    by rewrite (lookup_weaken _ _ _ _ E Hs).
  - intros k o Hk. pose proof (wf_object_references _ Hwf _ _ Hk) as Href. unfold object_references in *.
    cbn [db_segments db_inputs]. apply andb_true_iff in Href as [-> Ho]. cbn.
    destruct (oc_input_id (ob_columns o)) as [id|]; [|done]. rewrite bool_decide_eq_true in *. set_solver.
Qed.

Lemma step_evolves db db' : db_ok db → step db db' → ∃ t, evolves t db db'.
Proof.
  intros Hok [schemas inputs Hs Hi Hv|now registration d o Hr|now registration d o Hr|now x d o Hr|now id ret d o Hr
    |now id ret d o Hr|now registration g d o Hr|now sl ol rs rd g l d o Hr|now lk dl l d o Hr|now c d o Hr|now c f d o Hr
    |now lk g l d o Hr|now ol sl rl l d o Hr|now run lims sn d o Hr|now run outs d o Hr|now run g d o Hr
    |now run reason g d o Hr|now g l d o Hr]; eexists.
  - apply (evolves_same Keep); try done. apply catalog_wf; try done. by apply ok_wf.
  - by eapply register_ingestion_segment_evolves.
  - by eapply register_dead_letter_evolves.
  - by eapply record_verified_upload_evolves.
  - by eapply publish_ingestion_segment_evolves.
  - by eapply publish_dead_letter_evolves.
  - by eapply abandon_ingestion_output_evolves.
  - by eapply reconcile_evolves.
  - by eapply claim_evolves.
  - by eapply record_deleted_evolves.
  - by eapply record_failure_evolves.
  - by eapply expire_segments_evolves.
  - by eapply clean_terminal_metadata_evolves.
  - by eapply claim_compaction_evolves.
  - by eapply register_outputs_evolves.
  - by eapply publish_replacement_transaction_evolves.
  - by eapply fail_run_transaction_evolves.
  - by eapply recover_unfinished_transaction_evolves.
Qed.

Lemma reachable_ok db : reachable db → db_ok db.
Proof.
  unfold reachable. intros Hr. eapply (rtc_ind_r db_ok); [apply empty_ok | | exact Hr].
  intros x y _ Hxy Hx. destruct (step_evolves x y Hx Hxy) as [t He]. apply He.
Qed.

(** A segment that stays, and the states an output does not leave while it does. *)
Definition step_keeping (k : SegmentId) (db db' : Database) : Prop := step db db' ∧ is_Some (db_segments db' !! k).

Lemma final_phase_kept k db db' st :
  db_ok db → rtc (step_keeping k) db db' → output_phase db k = Some st → st = OutputPublished ∨ st = OutputAbandoned →
  output_phase db' k = Some st.
Proof.
  intros Hok Hr Hp Hst. revert Hok Hp. induction Hr as [|x y z [Hxy [s Hs]] _ IH]; intros Hok Hp; [done|].
  destruct (step_evolves x y Hok Hxy) as [t He]. apply IH; [apply He|]. pose proof (ev_phase _ _ _ He k) as Hph. rewrite Hp in Hph.
  assert (Hn : output_phase y k ≠ None) by (rewrite (output_phase_None _ _ (ev_ok _ _ _ He)); congruence).
  inversion Hph; subst; congruence || (by destruct Hst).
Qed.

(** ** Claims *)

Lemma published_not_deleting o :
  object_checks o = true → ob_state o = "PUBLISHED" → ob_delete_requested_at o = None.
Proof.
  unfold object_checks, object_lifecycle_check. intros Hc Hs. rewrite !andb_true_iff in Hc. destruct Hc as [[_ Hc] _].
  rewrite Hs in Hc. cbn in Hc. destruct (ob_delete_requested_at o); [|done].
  by destruct (ob_uploaded_at o), (ob_published_at o).
Qed.

Lemma materialize_claims_Ok rows attempt claims c :
  materialize_claims rows attempt = Ok claims → c ∈ claims →
  ∃ o, o ∈ rows ∧ materialize_descriptor o = Ok (cl_descriptor c) ∧ cl_attempt c = attempt.
Proof.
  unfold materialize_claims. intros Hm%try_map_Ok Hc. apply list_elem_of_lookup in Hc as [i Hi].
  destruct (Forall2_lookup_r _ _ _ _ _ Hm Hi) as (o & Ho & Hd). inv_ok. exists o.
  split; [by eapply list_elem_of_lookup_2 | done].
Qed.

(** A claim is of an object whose deletion is pending, or of a reclaimable one. *)
Lemma claims_spec now locked delay limit db db' claims c :
  db_wf db → claim now locked delay limit db = Ok (db', claims) → c ∈ claims →
  ∃ o, o ∈ rows (db_objects db) ∧ materialize_descriptor o = Ok (cl_descriptor c) ∧
    (cl_attempt c = RetryAttempt ∧ ob_state o = "DELETE_PENDING" ∨
     cl_attempt c = InitialAttempt ∧ reclaimable now db o = true).
Proof.
  intros Hwf Hc Hin. unfold claim in Hc. inv_ok. cbv zeta in *. apply elem_of_app in Hin as [Hin|Hin].
  - match goal with Hm : materialize_claims _ RetryAttempt = _ |- _ => destruct (materialize_claims_Ok _ _ _ _ Hm Hin) as (o & Ho & Hd & Ha) end.
    exists o. unfold load_due_retries in Hok. apply bind_Ok in Hok as (due & _ & [= <-]).
    destruct (select_limited_spec (due_retry due) ob_id (λ r, (ob_updated_at r, ob_id r)) limit
      (λ r, bool_decide (ob_id r ∈ locked)) (db_objects db) (wf_objects_keyed _ Hwf)) as (Hsel & _).
    destruct (Hsel o Ho) as (Hp & Hl & _). split; [apply elem_of_rows; eauto|]. split; [done|]. left. split; [done|].
    unfold due_retry in Hp. rewrite !andb_true_iff in Hp. by destruct Hp as [[?%bool_decide_eq_true _] _].
  - match goal with Hm : materialize_claims _ InitialAttempt = _ |- _ => destruct (materialize_claims_Ok _ _ _ _ Hm Hin) as (o & Ho & Hd & Ha) end.
    exists o. destruct (_ =? 0); [by apply elem_of_nil in Ho|]. unfold load_initial_candidates in Ho.
    match type of Ho with o ∈ select_limited _ ?key ?lim ?lk _ =>
      destruct (select_limited_spec (reclaimable now db) ob_id key lim lk (db_objects db) (wf_objects_keyed _ Hwf)) as (Hsel & _) end.
    destruct (Hsel o Ho) as (Hp & Hl & _). split; [apply elem_of_rows; eauto|]. auto.
Qed.

(** ** Theorems *)

(** C9: the metastore implements the lifecycle of outputs. In every database the
    transactions of the stores reach, a segment has a state that the code resolves from
    its row and the row of its one object. A further transaction, of whatever store, takes
    outputs along edges of one kind, and each of them along at most one: it registers
    outputs as planned, or uploads planned ones, publishes uploaded ones, abandons planned
    or uploaded ones, or removes published or abandoned ones. As long as a segment is in
    the tables, a published output stays published and an abandoned one abandoned, over
    any number of transactions. *)
Theorem metastore_refines_lifecycle db :
  reachable db →
  (∀ k, output_phase db k = None ↔ db_segments db !! k = None) ∧
  (∀ db', step db db' → ∃ t, ∀ k, lifecycle t (output_phase db k) (output_phase db' k)) ∧
  (∀ k st db', rtc (step_keeping k) db db' → output_phase db k = Some st → st = OutputPublished ∨ st = OutputAbandoned →
     output_phase db' k = Some st).
Proof.
  intros Hr%reachable_ok. split_and!.
  - intros k. by apply output_phase_None.
  - intros db' Hs. destruct (step_evolves db db' Hr Hs) as [t He]. exists t. apply He.
  - intros k st db'. by apply final_phase_kept.
Qed.

(** C10: data that queries can see is never deleted. In a reachable database the object of
    an active segment is published at the instant of the segment and no deletion of it has
    been requested; and a claim hands out for deletion only objects of rows in the
    tables whose segment, if they have one, is superseded, expired or abandoned, and on a
    first attempt only after the instant the segment may be reclaimed. *)
Theorem visible_data_kept db now locked delay limit db' claims :
  reachable db → claim now locked delay limit db = Ok (db', claims) →
  (∀ k s, db_segments db !! k = Some s → sg_state s = "ACTIVE" →
     ∃ o, load_segment_object db k = Some o ∧ ob_state o = "PUBLISHED" ∧ ob_published_at o = sg_published_at s ∧
       ob_delete_requested_at o = None) ∧
  (∀ c, c ∈ claims → ∃ o, o ∈ rows (db_objects db) ∧ materialize_descriptor o = Ok (cl_descriptor c) ∧
     ∀ k s, ob_segment_id o = Some k → db_segments db !! k = Some s →
       sg_state s ∈ ["SUPERSEDED"; "EXPIRED"; "ABANDONED"] ∧
       (cl_attempt c = InitialAttempt → ∃ t, sg_reclaim_after s = Some t ∧ datetime_leb t now = true)).
Proof.
  intros Hr Hc. apply reachable_ok in Hr as Hok. pose proof (ok_wf _ Hok) as Hwf. split.
  - intros k s Hk Hs. destruct (ok_linked _ Hok _ _ Hk) as (j & o & st & Hj & Hjk & Hl). exists o.
    split; [apply load_segment_object_Some; eauto|].
    destruct Hl as [Hc'|Hc'|Hc' Ho Ht|Hc'|Hc']; rewrite Hs in Hc'; try done; try set_solver.
    unfold publication_times_match in Ht. apply andb_true_iff in Ht as [_ Ht%bool_decide_eq_true].
    split; [done|]. split; [done|]. by apply (published_not_deleting o); [apply (wf_objects _ Hwf _ _ Hj)|].
  - intros c Hcin. apply (claims_spec _ _ _ _ _ _ _ _ Hwf Hc) in Hcin as (o & Ho & Hm & Hcase). exists o. split; [done|].
    split; [done|]. intros k s Hjk Hk. apply elem_of_rows in Ho as Ho'. destruct Ho' as [j Hj].
    destruct (ok_linked _ Hok _ _ Hk) as (j' & o' & st & Hj' & Hjk' & Hl).
    destruct (same_segment_object _ _ _ _ _ _ Hwf Hj Hj' Hjk Hjk') as [<- <-].
    destruct Hcase as [[Hre Hd]|[Hin Hrec]].
    + split; [eapply deleting_retired; [done|]; rewrite Hd; set_solver | congruence].
    + pose proof (reclaimable_parquet _ _ _ _ _ Hrec Hwf Ho Hjk Hk) as Hrel. unfold segment_releases in Hrel.
      rewrite !andb_true_iff in Hrel. destruct Hrel as [[Hst%bool_decide_eq_true Ht] _]. split; [done|]. intros _.
      destruct (sg_reclaim_after s) as [t|]; [|done]. eauto.
Qed.

End Metastore.

(** ** No publication reports corrupt metadata

    The publication store reports corrupt metadata when rows contradict each other. On
    the databases that the transactions reach, it does so only for a registration that
    pairs a registered identity with an unknown one. *)

(** ** Results that are not corrupt *)

Definition not_corrupt {A} (r : publication A) : Prop := ∀ e, r = Err e → pe_kind e ≠ PublicationCorrupt.

Lemma not_corrupt_Ok {A} (a : A) : not_corrupt (Ok a).
Proof. by intros e. Qed.

Lemma not_corrupt_Err {A} e : pe_kind e ≠ PublicationCorrupt → not_corrupt (A := A) (Err e).
Proof. by intros He e' [= <-]. Qed.

Lemma not_corrupt_bind {A B} (m : publication A) (f : A → publication B) :
  not_corrupt m → (∀ a, m = Ok a → not_corrupt (f a)) → not_corrupt (m ≫= f).
Proof. intros Hm Hf. destruct m as [a|e]; cbn; [by apply Hf | intros e' [= <-]; by apply Hm]. Qed.

Lemma not_corrupt_ok_or {A} (o : option A) e : pe_kind e ≠ PublicationCorrupt → not_corrupt (ok_or o e).
Proof. destruct o; [intros _; apply not_corrupt_Ok | apply not_corrupt_Err]. Qed.

Lemma not_corrupt_ok_or_Some {A} (o : option A) e : is_Some o → not_corrupt (ok_or o e).
Proof. intros [a ->]. apply not_corrupt_Ok. Qed.

Lemma not_corrupt_check b e : pe_kind e ≠ PublicationCorrupt → not_corrupt (check b e).
Proof. destruct b; [intros _; apply not_corrupt_Ok | apply not_corrupt_Err]. Qed.

Lemma not_corrupt_model {A} (r : result PublicationModelError A) : not_corrupt (map_err from_model r).
Proof. destruct r; [apply not_corrupt_Ok | by apply not_corrupt_Err]. Qed.

Lemma not_corrupt_write {A} (r : sql A) : not_corrupt (map_err publication_write r).
Proof. destruct r; [apply not_corrupt_Ok|]. apply not_corrupt_Err. unfold publication_write. cbn. by destruct (is_database_conflict _). Qed.

Create HintDb corrupt.
#[local] Hint Resolve not_corrupt_Ok not_corrupt_model not_corrupt_write : corrupt.
#[local] Hint Extern 1 (not_corrupt (check _ _)) => by apply not_corrupt_check : corrupt.
#[local] Hint Extern 1 (not_corrupt (Err _)) => by apply not_corrupt_Err : corrupt.
#[local] Hint Extern 2 (not_corrupt (ok_or _ _)) => by apply not_corrupt_ok_or : corrupt.

(** Walks down a transaction. *)
Ltac walk := repeat (apply not_corrupt_bind; [by auto with corrupt|]; intros ? ?).

Section Errors.
Context {calendar : Calendar} {postgres : Postgres} {uuid_text : UuidText} {paths : PathLib}.

Lemma segment_state_known s : segment_checks s = true → ∃ st, segment_state s = Ok st.
Proof.
  unfold segment_checks. intros Hc. rewrite !andb_true_iff in Hc. destruct_and! Hc. rewrite bool_decide_eq_true in *.
  match goal with Hs : sg_state s ∈ _ |- _ => state_cases Hs; unfold segment_state; rewrite Hs; by eexists end.
Qed.

Lemma object_state_known o : object_checks o = true → ∃ st, object_state o = Ok st.
Proof.
  unfold object_checks. intros Hc. rewrite !andb_true_iff in Hc. destruct_and! Hc. rewrite bool_decide_eq_true in *.
  match goal with Ho : ob_state o ∈ _ |- _ => state_cases Ho; unfold object_state; rewrite Ho; by eexists end.
Qed.

Lemma not_corrupt_segment_state db k s : db_wf db → db_segments db !! k = Some s → not_corrupt (segment_state s).
Proof. intros Hwf Hk. destruct (segment_state_known s) as [st ->]; [by eapply wf_segments | apply not_corrupt_Ok]. Qed.

Lemma not_corrupt_object_state db k o : db_wf db → db_objects db !! k = Some o → not_corrupt (object_state o).
Proof. intros Hwf Hk. destruct (object_state_known o) as [st ->]; [by eapply wf_objects | apply not_corrupt_Ok]. Qed.

Lemma not_corrupt_segment_matches db k s registration :
  db_wf db → db_segments db !! k = Some s → not_corrupt (segment_matches_registration s registration).
Proof.
  intros Hwf Hk. unfold segment_matches_registration. cbv zeta.
  apply not_corrupt_bind; [by eapply not_corrupt_segment_state|]. intros _ _.
  destruct (_ && _); [|apply not_corrupt_Ok]. walk. destruct (_ =? _); [|apply not_corrupt_Ok]. walk. apply not_corrupt_Ok.
Qed.

Lemma not_corrupt_object_matches db k o d owner :
  db_wf db → db_objects db !! k = Some o → not_corrupt (object_matches_descriptor o d owner).
Proof.
  intros Hwf Hk. unfold object_matches_descriptor. cbv zeta.
  apply not_corrupt_bind; [by eapply not_corrupt_object_state|]. intros _ _. walk. destruct (owner_columns owner) as [[[??]?]?].
  apply not_corrupt_Ok.
Qed.

(** An object that matches a descriptor has its owner. *)
Lemma matches_segment o d id : object_matches_descriptor o d (OwnerSegment id) = Ok true → ob_segment_id o = Some id.
Proof.
  unfold object_matches_descriptor. cbv zeta. intros Hm. inv_ok. cbn in Hm. injection Hm as Hm. rewrite !andb_true_iff in Hm.
  destruct_and! Hm. rewrite !bool_decide_eq_true in *. done.
Qed.

(** The object of a segment is linked to it. *)
Lemma linked_of db k s j o :
  db_ok db → db_segments db !! k = Some s → db_objects db !! j = Some o → ob_segment_id o = Some k →
  ∃ st, linked s o st.
Proof.
  intros Hok Hk Hj Hjk. destruct (ok_linked _ Hok _ _ Hk) as (j' & o' & st & Hj' & Hjk' & Hl).
  destruct (same_segment_object _ _ _ _ _ _ (ok_wf _ Hok) Hj Hj' Hjk Hjk') as [<- <-]. eauto.
Qed.

Lemma validate_registered_linked s o st : linked s o st → not_corrupt (validate_registered_ingestion_states s o).
Proof.
  unfold validate_registered_ingestion_states, segment_state, object_state, SegmentState_from_database,
    StoredObjectState_from_database. intros [Hs Ho|Hs Ho|Hs Ho Ht|Hs Ho Ht|Hs Ho Ht Ht'].
  - rewrite Hs, Ho. apply not_corrupt_Ok.
  - rewrite Hs, Ho. apply not_corrupt_Ok.
  - rewrite Hs, Ho. cbn. rewrite Ht. apply not_corrupt_Ok.
  - state_cases Hs; state_cases Ho; rewrite Hs, Ho; cbn; rewrite Ht; apply not_corrupt_Ok.
  - rewrite Hs. state_cases Ho; rewrite Ho; cbn; by apply not_corrupt_Err.
Qed.

(** The one row with an identity and a property. *)
Lemma one_hit {R} (id : R → Z) (q : R → bool) (t : gmap Z R) k r :
  keyed id t → t !! k = Some r → q r = true → size (filter (λ kv, (id kv.2 =? k) && q kv.2 = true) t) = 1%nat.
Proof.
  intros Hk Hr Hq. apply (size_hits id (λ r, (id r =? k) && q r) t [k]); [done | by apply NoDup_singleton | |].
  - intros x _ [Hx%Z.eqb_eq _]%andb_true_iff. rewrite Hx. set_solver.
  - intros j ->%list_elem_of_singleton. exists r. split; [done|]. by rewrite (Hk _ _ Hr), Z.eqb_refl.
Qed.

Lemma one_hit_assoc {R} (id : R → Z) (q q' : R → bool) (t : gmap Z R) k r :
  keyed id t → t !! k = Some r → q r = true → q' r = true →
  size (filter (λ kv, (id kv.2 =? k) && q kv.2 && q' kv.2 = true) t) = 1%nat.
Proof.
  intros Hk Hr Hq Hq'. rewrite <- (one_hit id (λ r, q r && q' r) t k r) by (done || by rewrite Hq, Hq').
  f_equal. apply map_filter_ext. intros i x _. cbn. by rewrite andb_assoc.
Qed.

Lemma register_ingestion_segment_not_corrupt now registration db :
  db_ok db → not_corrupt (register_ingestion_segment now registration db).
Proof.
  intros Hok. pose proof (ok_wf _ Hok) as Hwf. unfold register_ingestion_segment. cbv zeta. walk.
  destruct a2 as [db1 n1]. apply map_err_Ok in H2. unfold insert_segment_or_nothing in H2. apply bind_Ok in H2 as (_ & _ & H2).
  apply not_corrupt_bind; [unfold insert_planned_object; walk; auto with corrupt|]. intros [db2 n2] Hi.
  apply insert_planned_object_Ok in Hi as (bs & fv & [[-> Hi]|[-> ->]]); destruct (is_null _); inv_ok; cbn;
    try (by apply not_corrupt_Err); try apply not_corrupt_Ok.
  walk. apply ok_or_Ok in H2, H3. apply not_corrupt_bind; [by eapply not_corrupt_segment_matches|]. intros m Hm.
  apply not_corrupt_bind; [destruct m; [by eapply not_corrupt_object_matches | apply not_corrupt_Ok]|]. intros m' Hm'.
  walk. apply check_Ok in H4. subst m'. destruct m; [|done]. apply matches_segment in Hm'.
  destruct (linked_of db1 _ _ _ _ Hok H2 H3 Hm') as [st Hl].
  apply not_corrupt_bind; [by eapply validate_registered_linked | intros _ _; apply not_corrupt_Ok].
Qed.

Lemma register_dead_letter_not_corrupt now registration db :
  db_ok db → not_corrupt (register_dead_letter now registration db).
Proof.
  intros Hok. pose proof (ok_wf _ Hok) as Hwf. unfold register_dead_letter. cbv zeta. walk.
  apply not_corrupt_bind; [unfold insert_planned_object; walk; auto with corrupt|]. intros [db2 n2] Hi.
  apply insert_planned_object_Ok in Hi as (bs & fv & [[-> Hi]|[-> ->]]); cbn; [apply not_corrupt_Ok|]. walk.
  apply ok_or_Ok in H0. apply not_corrupt_bind; [by eapply not_corrupt_object_matches|]. intros m Hm. walk.
  apply not_corrupt_bind; [by eapply not_corrupt_object_state | intros _ _; apply not_corrupt_Ok].
Qed.

Lemma require_one_row_hit n message : n = 1 → not_corrupt (require_one_row n message).
Proof. intros ->. apply not_corrupt_Ok. Qed.

(** The update of the one row with an identity and a property affects one row. *)
Lemma update_object_hit db q k o f db' n :
  db_wf db → (∀ o o', f o = Some o' → ob_columns o' = ob_columns o) →
  update_objects db (λ r, (ob_id r =? k) && q r) f = Ok (db', n) →
  db_objects db !! k = Some o → q o = true → n = 1.
Proof.
  intros Hwf Hc Hu Hk Hq. apply wf_update_objects in Hu as (_ & _ & -> & _); [|done | done].
  by rewrite (one_hit ob_id q _ k o (wf_objects_keyed _ Hwf) Hk Hq).
Qed.

Lemma update_segment_hit db q k s f db' n :
  db_wf db → (∀ s s', f s = Some s' → sg_columns s' = sg_columns s) →
  update_segments db (λ r, (sg_id r =? k) && q r) f = Ok (db', n) →
  db_segments db !! k = Some s → q s = true → n = 1.
Proof.
  intros Hwf Hc Hu Hk Hq. apply wf_update_segments in Hu as (_ & _ & -> & _); [|done | done].
  by rewrite (one_hit sg_id q _ k s (wf_segments_keyed _ Hwf) Hk Hq).
Qed.

Lemma object_state_str o st : object_state o = Ok st → ob_state o = StoredObjectState_as_str st.
Proof. unfold object_state, StoredObjectState_from_database. intros Ho. by repeat (case_decide; [by injection Ho as <-|]). Qed.

Lemma segment_state_prepared s : segment_state s = Ok SPrepared → sg_state s = "PREPARED".
Proof. unfold segment_state, SegmentState_from_database. intros Hs. by repeat (case_decide; [done|]). Qed.

Lemma not_corrupt_owner_from_key db k o d :
  db_wf db → db_objects db !! k = Some o → not_corrupt (object_matches_descriptor_owner_from_key o d).
Proof.
  intros Hwf Hk. unfold object_matches_descriptor_owner_from_key. destruct (k_owner _); [by eapply not_corrupt_object_matches|].
  destruct (oc_input_id (ob_columns o)) as [i|] eqn:Hi; [|apply not_corrupt_Ok].
  pose proof (wf_object_references _ Hwf _ _ Hk) as Href. unfold object_references in Href. rewrite Hi in Href.
  apply andb_true_iff in Href as [_ Hin%bool_decide_eq_true]. apply (wf_inputs _ Hwf) in Hin. rewrite Hin. cbn.
  by eapply not_corrupt_object_matches.
Qed.

Lemma record_verified_upload_not_corrupt now d db : db_ok db → not_corrupt (record_verified_upload now d db).
Proof.
  intros Hok. pose proof (ok_wf _ Hok) as Hwf. unfold record_verified_upload. walk. apply ok_or_Ok in H0 as Ho.
  apply not_corrupt_bind; [by eapply not_corrupt_owner_from_key|]. intros m Hm. walk.
  apply not_corrupt_bind; [by eapply not_corrupt_object_state|]. intros st Hst.
  destruct st; try apply not_corrupt_Ok; try by apply not_corrupt_Err. walk. match goal with x : Database * Z |- _ => destruct x as [db1 n] end.
  apply map_err_Ok in H2. rewrite (wf_objects_keyed _ Hwf _ _ Ho) in H2.
  apply not_corrupt_bind; [|intros; apply not_corrupt_Ok]. apply require_one_row_hit.
  assert (Hmark : ∀ o o', Some (mark_uploaded now o) = Some o' → ob_columns o' = ob_columns o) by (by intros ?? [= <-]).
  apply (update_object_hit _ (λ r, bool_decide (ob_state r = "PLANNED")) _ _ _ _ _ Hwf Hmark H2 Ho).
  apply object_state_str in Hst. by rewrite Hst.
Qed.

Lemma publish_ingestion_segment_not_corrupt now id retention db :
  db_ok db → not_corrupt (publish_ingestion_segment now id retention db).
Proof.
  intros Hok. pose proof (ok_wf _ Hok) as Hwf. unfold publish_ingestion_segment. walk. apply ok_or_Ok in H as Hs.
  destruct (ok_linked _ Hok _ _ Hs) as (j & o & st & Hj & Hjk & Hl).
  rewrite (proj2 (load_segment_object_Some db id o Hwf)) by eauto. rewrite ok_or_ret, bind_ret. walk.
  apply not_corrupt_bind.
  { unfold validate_ingestion_object_owner. cbv zeta. pose proof (wf_objects _ Hwf _ _ Hj) as Hc. unfold object_checks in Hc.
    rewrite !andb_true_iff in Hc. destruct_and! Hc. unfold object_owner_check, ob_segment_id in *. rewrite Hjk in *.
    destruct (oc_input_id (ob_columns o)), (oc_batch_id (ob_columns o)); cbn in *; rewrite ?andb_false_r in *; try done.
    rewrite !andb_true_r, orb_false_r in *.
    match goal with Hb : bool_decide (oc_kind _ = _) = true |- _ => rewrite Hb end. rewrite bool_decide_true by done. apply not_corrupt_Ok. }
  intros _ _. apply not_corrupt_bind; [by eapply not_corrupt_segment_state|]. intros ss Hss.
  apply not_corrupt_bind; [by eapply not_corrupt_object_state|]. intros os Hos.
  apply resolved_linked in Hl. unfold resolved_ingestion_state in Hl. rewrite Hss, bind_ret, Hos, bind_ret in Hl.
  destruct ss, os; try done; try (by apply not_corrupt_Err); try (destruct (publication_times_match a o); [apply not_corrupt_Ok | done]).
  pose proof (object_state_str _ _ Hos) as Hos'. apply segment_state_prepared in Hss.
  walk. match goal with x : Database * Z |- _ => destruct x as [db1 n1] end. apply map_err_Ok in H1. rewrite (wf_objects_keyed _ Hwf _ _ Hj) in H1.
  assert (Hmark : ∀ o o', Some (mark_published now o) = Some o' → ob_columns o' = ob_columns o) by (by intros ?? [= <-]).
  apply not_corrupt_bind; [apply require_one_row_hit,
    (update_object_hit _ (λ r, bool_decide (ob_state r = "UPLOADED")) _ _ _ _ _ Hwf Hmark H1 Hj); by rewrite Hos'|].
  intros _ _. walk. match goal with x : Database * Z |- _ => destruct x as [db2 n2] end. apply map_err_Ok in H2.
  apply wf_update_objects in H1 as (Hwf1 & -> & _); [|done | done].
  apply not_corrupt_bind; [|intros; apply not_corrupt_Ok]. apply require_one_row_hit.
  eapply (update_segment_hit _ prepared_ingestion id a _ _ _ Hwf1); [| exact H2 | done |].
  - intros s s' Hs'. unfold activate_segment in Hs'. by apply bind_Some in Hs' as (dl & _ & [= <-]).
  - unfold prepared_ingestion. apply check_Ok in H0. rewrite H0, Hss. done.
Qed.

Lemma publish_dead_letter_not_corrupt now id retention db :
  db_ok db → not_corrupt (publish_dead_letter now id retention db).
Proof.
  intros Hok. pose proof (ok_wf _ Hok) as Hwf. unfold publish_dead_letter. walk. apply ok_or_Ok in H as Ho.
  unfold validate_dead_letter_owner. cbv zeta. destruct (_ && _) eqn:Eowner; [|by apply not_corrupt_Err]. rewrite bind_ret.
  apply not_corrupt_bind; [by eapply not_corrupt_object_state|]. intros st Hst.
  destruct st; try apply not_corrupt_Ok; try (by apply not_corrupt_Err); try (destruct (is_null (ob_published_at a)); [by apply not_corrupt_Err | apply not_corrupt_Ok]).
  walk. match goal with x : Database * Z |- _ => destruct x as [db1 n] end. apply map_err_Ok in H0. apply not_corrupt_bind; [|intros; apply not_corrupt_Ok].
  apply require_one_row_hit. rewrite !andb_true_iff in Eowner. destruct Eowner as [[[Hkind _] _] _].
  apply wf_update_objects in H0 as (_ & _ & -> & _); [|done|].
  - apply object_state_str in Hst.
    assert (Hup : bool_decide (ob_state a = "UPLOADED") = true) by (by rewrite Hst).
    exact (f_equal Z.of_nat (one_hit_assoc ob_id (λ r, bool_decide (ob_kind r = "DEAD_LETTER"))
      (λ r, bool_decide (ob_state r = "UPLOADED")) _ id a (wf_objects_keyed _ Hwf) Ho Hkind Hup)).
  - intros o o' Ho'. unfold mark_dead_letter_published in Ho'. by apply bind_Some in Ho' as (dl & _ & [= <-]).
Qed.

(** Resolving a registration reports corruption only when one of its identities is
    registered and the other is not. *)
Lemma ingestion_output_state_corrupt registration db e :
  db_ok db → ingestion_output_state registration db = Err e → pe_kind e = PublicationCorrupt →
  is_Some (db_segments db !! sd_segment_id registration) ↔
  db_objects db !! k_object_id (od_key (sd_object registration)) = None.
Proof.
  intros Hok He Hc. pose proof (ok_wf _ Hok) as Hwf. unfold ingestion_output_state in He.
  destruct (validate_segment_database_values registration) as [u|m] eqn:Ev; cbn in He; [|by injection He as <-].
  destruct (db_segments db !! _) as [s|] eqn:Hs, (db_objects db !! _) as [o|] eqn:Ho; try done.
  exfalso. revert e He Hc. change (not_corrupt (x ← segment_matches_registration s registration;
      y ← (if x : bool then object_matches_descriptor o (sd_object registration) (OwnerSegment (sd_segment_id registration)) else Ok false);
      _ ← check y (conflict "retained ingestion output metadata conflicts with PostgreSQL"); resolved_ingestion_state s o)).
    apply not_corrupt_bind; [by eapply not_corrupt_segment_matches|]. intros m Hm.
    apply not_corrupt_bind; [destruct m; [by eapply not_corrupt_object_matches | apply not_corrupt_Ok]|]. intros m' Hm'.
    walk. apply check_Ok in H. subst m'. destruct m; [|done]. apply matches_segment in Hm'.
    destruct (linked_of db _ _ _ _ Hok Hs Ho Hm') as [st Hl]. apply resolved_linked in Hl. rewrite Hl. apply not_corrupt_Ok.
Qed.

Lemma ingestion_output_state_partial registration db :
  db_ok db → is_ok (validate_segment_database_values registration) = true →
  (∃ e, ingestion_output_state registration db = Err e ∧ pe_kind e = PublicationCorrupt) ↔
  (is_Some (db_segments db !! sd_segment_id registration) ↔
   db_objects db !! k_object_id (od_key (sd_object registration)) = None).
Proof.
  intros Hok Hv. split; [intros (e & He & Hc); by eapply ingestion_output_state_corrupt|].
  intros Hpartial. unfold ingestion_output_state. destruct (validate_segment_database_values registration); [|done].
  cbn [map_err]. rewrite bind_ret.
  destruct (db_segments db !! _) as [s|], (db_objects db !! _) as [o|]; try (eexists; split; [done | done]).
  - destruct Hpartial as [Hp _]. by specialize (Hp ltac:(eauto)).
  - destruct Hpartial as [_ Hp]. destruct (Hp eq_refl) as [? [=]].
Qed.

Lemma matches_ingestion s registration :
  segment_matches_registration s registration = Ok true → sc_origin (sg_columns s) = "INGESTION".
Proof.
  unfold segment_matches_registration. cbv zeta. intros (st & _ & Hm)%bind_Ok. destruct (_ && _) eqn:E; [|done].
  rewrite !andb_true_iff in E. destruct_and! E. by rewrite bool_decide_eq_true in *.
Qed.

(** Abandoning a registered output reports no corruption. *)
Lemma abandon_registered_not_corrupt now registration grace db s o :
  db_ok db → db_segments db !! sd_segment_id registration = Some s →
  db_objects db !! k_object_id (od_key (sd_object registration)) = Some o →
  not_corrupt (abandon_ingestion_output now registration grace db).
Proof.
  intros Hok Hs Ho. pose proof (ok_wf _ Hok) as Hwf. unfold abandon_ingestion_output.
  apply not_corrupt_bind; [auto with corrupt|]. intros _ _. rewrite Hs, ok_or_ret, bind_ret, Ho, ok_or_ret, bind_ret.
  apply not_corrupt_bind; [by eapply not_corrupt_segment_matches|]. intros m Hm.
  apply not_corrupt_bind; [destruct m; [by eapply not_corrupt_object_matches | apply not_corrupt_Ok]|]. intros m' Hm'.
  walk. apply check_Ok in H. subst m'. destruct m; [|done]. apply matches_segment in Hm'. apply matches_ingestion in Hm.
  destruct (linked_of db _ _ _ _ Hok Hs Ho Hm') as [st Hl]. pose proof Hl as Hr. apply resolved_linked in Hr. rewrite Hr, bind_ret.
  assert (Hup : sg_state s = "PREPARED" → not_corrupt (updated ← map_err publication_write
        (update_segments db (λ r, (sg_id r =? sd_segment_id registration) && prepared_ingestion r)
           (retire_segment "ABANDONED" now grace));
      let '(db, affected) := updated in
      _ ← require_one_row affected "locked prepared ingestion segment was not abandoned";
      Ok (db, OutputWasAbandoned))).
  { intros Hp. walk. match goal with x : Database * Z |- _ => destruct x as [db1 n] end. apply map_err_Ok in H.
    apply not_corrupt_bind; [|intros; apply not_corrupt_Ok]. apply require_one_row_hit.
    eapply (update_segment_hit _ prepared_ingestion _ s _ _ _ Hwf (retire_columns _ _ _) H Hs).
    unfold prepared_ingestion. by rewrite Hm, Hp. }
  destruct Hl; try apply not_corrupt_Ok; try (by apply not_corrupt_Err); auto.
Qed.

Lemma abandon_ingestion_output_partial now registration grace db :
  db_ok db → is_ok (validate_segment_database_values registration) = true →
  (∃ e, abandon_ingestion_output now registration grace db = Err e ∧ pe_kind e = PublicationCorrupt) ↔
  is_Some (db_segments db !! sd_segment_id registration) ∧
  db_objects db !! k_object_id (od_key (sd_object registration)) = None.
Proof.
  intros Hok Hv. destruct (db_segments db !! sd_segment_id registration) as [s|] eqn:Hs,
    (db_objects db !! k_object_id (od_key (sd_object registration))) as [o|] eqn:Ho.
  1: { split; [|by intros []]. intros (e & He & Hc). by destruct (abandon_registered_not_corrupt now registration grace db s o Hok Hs Ho e He). }
  all: unfold abandon_ingestion_output; destruct (validate_segment_database_values registration); [|done]; cbn [map_err];
    rewrite bind_ret, Hs, ?Ho; cbn.
  - split; [intros _; by split; [eexists|] | intros _; by eexists].
  - split; [by intros (e & [= <-] & ?) | by intros [[? [=]] _]].
  - split; [by intros (e & [= <-] & ?) | by intros [[? [=]] _]].
Qed.

Lemma dead_letter_output_state_not_corrupt registration db :
  db_ok db → not_corrupt (dead_letter_output_state registration db).
Proof.
  intros Hok. pose proof (ok_wf _ Hok) as Hwf. unfold dead_letter_output_state. walk.
  destruct (db_objects db !! _) as [o|] eqn:Ho; [|apply not_corrupt_Ok].
  apply not_corrupt_bind; [by eapply not_corrupt_object_matches|]. intros m Hm. walk. unfold resolved_dead_letter_state.
  apply not_corrupt_bind; [by eapply not_corrupt_object_state | intros; apply not_corrupt_Ok].
Qed.

Lemma stored_object_state_not_corrupt id db : db_ok db → not_corrupt (stored_object_state id db).
Proof.
  intros Hok. unfold stored_object_state. destruct (db_objects db !! id) as [o|] eqn:Ho; [|apply not_corrupt_Ok].
  apply not_corrupt_bind; [by eapply not_corrupt_object_state; [apply ok_wf|] | intros; apply not_corrupt_Ok].
Qed.

(** The rows a selection gives are those an update by their identities hits. *)
Lemma selected_hits {R} (id : R → Z) (p q : R → bool) key limit locked (t : gmap Z R) :
  keyed id t → (∀ r, p r = true → q r = true) →
  let ids := id <$> select_limited p key limit locked t in
  size (filter (λ kv, bool_decide (id kv.2 ∈ ids) && q kv.2 = true) t) = length ids.
Proof.
  intros Hk Hpq ids. destruct (select_limited_spec p id key limit locked t Hk) as (Hsel & Hnd & _).
  pose (q' := λ r, bool_decide (id r ∈ ids) && q r). apply (size_hits id q' t ids); [done | done | |].
  - intros r _ [Hr%bool_decide_eq_true _]%andb_true_iff. done.
  - intros k (r & -> & Hr)%list_elem_of_fmap. destruct (Hsel r Hr) as (Hp & Hl & _). exists r. split; [done|].
    unfold q'. rewrite bool_decide_true by (by apply list_elem_of_fmap_2). by apply Hpq.
Qed.

Lemma not_corrupt_case_list {A B} (l : list A) (x y : publication B) :
  not_corrupt x → not_corrupt y → not_corrupt (match l with [] => x | _ => y end).
Proof. by destruct l. Qed.

Lemma reconcile_not_corrupt now sl ol rs rd grace limit db :
  db_ok db → 0 < limit ≤ MAXIMUM_RECONCILIATION_ITEMS →
  not_corrupt (reconcile_unreferenced_outputs now sl ol rs rd grace limit db).
Proof.
  intros Hok Hlim. pose proof (ok_wf _ Hok) as Hwf. unfold reconcile_unreferenced_outputs. cbv zeta.
  destruct (_ || _); [by apply not_corrupt_Err|].
  destruct (select_limited_spec (λ r, prepared_ingestion r && negb (bool_decide (sg_id r ∈ rs))) sg_id
    (λ r, (sg_created_at r, sg_id r)) limit (λ r, bool_decide (sg_id r ∈ sl)) (db_segments db)
    (wf_segments_keyed _ Hwf)) as (_ & _ & Hlen).
  set (segment_ids := sg_id <$> _) in *.
  assert (Hlen' : (length segment_ids ≤ Z.to_nat limit)%nat) by (unfold segment_ids; by rewrite length_fmap).
  assert (Hhits : size (filter (λ kv, bool_decide (sg_id kv.2 ∈ segment_ids) && prepared_ingestion kv.2 = true) (db_segments db)) =
    length segment_ids).
  { apply selected_hits; [by apply wf_segments_keyed|]. by intros r [? _]%andb_true_iff. }
  clearbody segment_ids. apply not_corrupt_bind.
  { apply not_corrupt_case_list; [apply not_corrupt_Ok|]. walk. match goal with x : Database * Z |- _ => destruct x as [db1 n] end.
    apply map_err_Ok in H. apply wf_update_segments in H as (_ & _ & -> & _); [|done | apply retire_columns].
    rewrite Hhits, Z.eqb_refl. apply not_corrupt_Ok. }
  intros db1 H1. assert (Hwf1 : db_wf db1).
  { destruct segment_ids; [injection H1 as <-; done|]. inv_tx.
    match goal with Hu : update_segments _ _ _ = Ok _ |- _ => by apply wf_update_segments in Hu as (? & _); [| |apply retire_columns] end. }
  unfold checked_sub. rewrite narrow_ok, ok_or_ret, bind_ret by (unfold MAXIMUM_RECONCILIATION_ITEMS in *; int_lia).
  apply not_corrupt_bind; [|intros; apply not_corrupt_Ok].
  apply not_corrupt_case_list; [apply not_corrupt_Ok|]. walk. match goal with x : Database * Z |- _ => destruct x as [db2 n] end.
  apply map_err_Ok in H. apply wf_update_objects in H as (_ & _ & -> & _); [|done | by intros ?? [= <-]].
  apply not_corrupt_bind; [|intros; apply not_corrupt_Ok].
  match goal with |- context [if ?b then _ else _] => destruct b end.
  - assert (Hz : size (filter (λ kv, bool_decide (ob_id kv.2 ∈ []) && unpublished_dead_letter kv.2 = true) (db_objects db1)) = 0%nat).
    { pose (q := λ r, bool_decide (ob_id r ∈ []) && unpublished_dead_letter r). apply (size_hits ob_id q (db_objects db1) []);
        [by apply wf_objects_keyed | constructor | | by intros k ?%elem_of_nil].
      intros r _ [Hr%bool_decide_eq_true _]%andb_true_iff. done. }
    rewrite Hz. apply not_corrupt_Ok.
  - rewrite selected_hits, Z.eqb_refl; [apply not_corrupt_Ok | by apply wf_objects_keyed |].
    by intros r [? _]%andb_true_iff.
Qed.

(** ** Theorem *)

(** C40: on reachable databases the publication store reports corrupt metadata only for
    registrations that are known in part. Registering, recording an upload, publishing,
    resolving a dead letter, reading the state of an object and reconciling never do. Resolving a segment's registration
    does exactly when only one of its two identities is known, and abandoning one exactly
    when its segment is known and its object is not. *)
Theorem publication_never_corrupt db :
  reachable db →
  (∀ now registration, not_corrupt (register_ingestion_segment now registration db)) ∧
  (∀ now registration, not_corrupt (register_dead_letter now registration db)) ∧
  (∀ now d, not_corrupt (record_verified_upload now d db)) ∧
  (∀ now id retention, not_corrupt (publish_ingestion_segment now id retention db)) ∧
  (∀ now id retention, not_corrupt (publish_dead_letter now id retention db)) ∧
  (∀ registration, not_corrupt (dead_letter_output_state registration db)) ∧
  (∀ id, not_corrupt (stored_object_state id db)) ∧
  (∀ now sl ol rs rd grace items limit, ReconciliationLimit_new items = Ok limit → 0 ≤ items →
     not_corrupt (reconcile_unreferenced_outputs now sl ol rs rd grace limit db)) ∧
  (∀ registration, is_ok (validate_segment_database_values registration) = true →
     (∃ e, ingestion_output_state registration db = Err e ∧ pe_kind e = PublicationCorrupt) ↔
     (is_Some (db_segments db !! sd_segment_id registration) ↔
      db_objects db !! k_object_id (od_key (sd_object registration)) = None)) ∧
  (∀ now registration grace, is_ok (validate_segment_database_values registration) = true →
     (∃ e, abandon_ingestion_output now registration grace db = Err e ∧ pe_kind e = PublicationCorrupt) ↔
     is_Some (db_segments db !! sd_segment_id registration) ∧
     db_objects db !! k_object_id (od_key (sd_object registration)) = None).
Proof.
  intros Hok%reachable_ok. split; [intros; by apply register_ingestion_segment_not_corrupt|].
  split; [intros; by apply register_dead_letter_not_corrupt|].
  split; [intros; by apply record_verified_upload_not_corrupt|].
  split; [intros; by apply publish_ingestion_segment_not_corrupt|].
  split; [intros; by apply publish_dead_letter_not_corrupt|].
  split; [intros; by apply dead_letter_output_state_not_corrupt|].
  split; [intros; by apply stored_object_state_not_corrupt|].
  split; [|split; intros; [by apply ingestion_output_state_partial | by apply abandon_ingestion_output_partial]].
  intros now sl ol rs rd grace items limit Hl H0. apply reconcile_not_corrupt; [done|].
  unfold ReconciliationLimit_new in Hl. destruct (_ || _) eqn:E; [done|]. inv_ok. apply narrow_Some in Hl as [-> _].
  apply orb_false_iff in E as [E1%Z.eqb_neq E2]. rewrite Z.gtb_ltb, Z.ltb_ge in E2. lia.
Qed.

End Errors.
