(* ===== verification/CompactionCorrect.v ===== *)
(** * elucid-metastore: compaction loses no rows

    What queries can see are the rows of active segments. The transactions of a
    compaction run leave the number of visible rows of every source, schema and day as it
    is: the outputs become visible at the instant the inputs cease to be. *)

From S2P Require Import Prelude Core ErrorCode CatalogTypes CatalogModel Bytes Frame Storage Database Publication Reclamation Retention Compaction CompactionLifecycle MetastoreInvariant MetastoreLifecycle MetastoreSteps Metastore.

#[local] Open Scope string_scope.
#[local] Open Scope Z_scope.

Lemma rows_fmap {R} (g : R → R) (t : gmap Z R) : rows (g <$> t) ≡ₚ g <$> rows t.
Proof.
  unfold rows. rewrite map_to_list_fmap, <- !list_fmap_compose. reflexivity.
Qed.

Lemma rows_insert {R} (t : gmap Z R) k r : t !! k = None → rows (<[k := r]> t) ≡ₚ r :: rows t.
Proof. intros Hk. unfold rows. by rewrite (map_to_list_insert t k r Hk). Qed.

Section Correct.
Context {calendar : Calendar} {postgres : Postgres} {uuid_text : UuidText} {paths : PathLib}.

(** ** Visible rows *)

Definition segment_key (s : SegmentRow) : CandidateGroupKey :=
  (sc_source_id (sg_columns s), sc_schema_id (sg_columns s), sg_event_day s).

(** The rows of a segment that queries over a source, schema and day see. *)
Definition weight (key : CandidateGroupKey) (s : SegmentRow) : Z :=
  if bool_decide (sg_state s = "ACTIVE") && bool_decide (segment_key s = key) then sc_row_count (sg_columns s) else 0.

Definition visible_rows (key : CandidateGroupKey) (db : Database) : Z :=
  sum_Z (weight key <$> rows (db_segments db)).

(** An update changes the visible rows by what it changes of the rows it hits. *)
Lemma visible_updated key db p f db' n :
  db_wf db → (∀ s s', f s = Some s' → sg_columns s' = sg_columns s) → update_segments db p f = Ok (db', n) →
  visible_rows key db' = visible_rows key db +
    sum_Z ((λ s, weight key (updated p f s) - weight key s) <$> filter (λ s, p s = true) (rows (db_segments db))).
Proof.
  intros Hwf Hc Hu. apply wf_update_segments in Hu as (_ & -> & _); [|done | done]. unfold visible_rows.
  cbn [set_segments db_segments]. rewrite rows_fmap, <- list_fmap_compose.
  apply (sum_Z_updated (weight key) p (updated p f)). intros s Hs. unfold updated. by rewrite Hs.
Qed.

(** An update that leaves what queries see of the rows it hits. *)
Lemma visible_kept key db p f db' n :
  db_wf db → (∀ s s', f s = Some s' → sg_columns s' = sg_columns s) → update_segments db p f = Ok (db', n) →
  (∀ s s', p s = true → f s = Some s' → weight key s' = weight key s) →
  visible_rows key db' = visible_rows key db.
Proof.
  intros Hwf Hc Hu Hw. rewrite (visible_updated key db p f db' n) by done. rewrite sum_Z_zero; [lia|].
  intros s [Hp _]%list_elem_of_filter. unfold updated. rewrite Hp. destruct (f s) as [s'|] eqn:E; cbn; [|lia].
  rewrite (Hw s s') by done. lia.
Qed.

Lemma weight_key key s s' : sg_columns s' = sg_columns s → sg_state s' = sg_state s → weight key s' = weight key s.
Proof. intros Hc Hs. unfold weight, segment_key, sg_event_day. by rewrite Hc, Hs. Qed.

Lemma weight_hidden key s : sg_state s ≠ "ACTIVE" → weight key s = 0.
Proof. intros Hs. unfold weight. by rewrite bool_decide_false. Qed.

(** ** Claims, outputs and failures *)

Lemma claim_visible key run now db p db' n :
  db_wf db → update_segments db p (λ s, Some (set_claim run now s)) = Ok (db', n) →
  visible_rows key db' = visible_rows key db.
Proof.
  intros Hwf Hu. eapply visible_kept; [done | | done |]; [by intros ?? [= <-]|]. intros s s' _ [= <-]. by apply weight_key.
Qed.

Lemma claim_compaction_visible key now run limits snapshot db db' outcome :
  db_wf db → claim_compaction now run limits snapshot db = Ok (db', outcome) → visible_rows key db' = visible_rows key db.
Proof.
  intros Hwf Hc. unfold claim_compaction in Hc. inv_tx. destruct a0 as [selected|]; inv_tx; [|done].
  match goal with Hi : insert_run _ _ = Ok ?d |- _ => rename d into db1; apply wf_insert_run in Hi as (Hwf1 & Hdb1 & _); [|done] end.
  transitivity (visible_rows key db1); [by eapply claim_visible|]. by rewrite Hdb1.
Qed.

Lemma insert_compaction_output_visible key now db output db' :
  db_wf db → insert_compaction_output now db output = Ok db' → db_wf db' ∧ visible_rows key db' = visible_rows key db.
Proof.
  intros Hwf Hi. unfold insert_compaction_output in Hi. inv_tx.
  match goal with Hs : insert_segment _ _ = Ok _ |- _ => apply wf_insert_segment in Hs as (Hwf1 & -> & Hfresh & _); [|done] end.
  apply wf_insert_object in Hi as (Hwf2 & -> & _); [|done]. split; [done|].
  unfold visible_rows. cbn [set_segments set_objects db_segments]. rewrite rows_insert by done. cbn [fmap list_fmap].
  by rewrite sum_Z_cons, weight_hidden.
Qed.

Lemma register_outputs_visible key now run outputs db db' outcome :
  db_wf db → register_outputs now run outputs db = Ok (db', outcome) → visible_rows key db' = visible_rows key db.
Proof.
  intros Hwf Hr. unfold register_outputs in Hr. inv_tx.
  case_decide; inv_tx; [|case_decide; [by inv_tx | by case_decide]].
  match goal with Hi : insert_compaction_outputs _ _ _ = Ok ?d |- _ => rename d into db1; rename Hi into Hins end.
  assert (H1 : db_wf db1 ∧ visible_rows key db1 = visible_rows key db).
  { unfold insert_compaction_outputs in Hins.
    apply (try_fold_inv (λ d, db_wf d ∧ visible_rows key d = visible_rows key db) (insert_compaction_output now) outputs db); [| done | done].
    intros d o d' _ [Hd Hv] Hs. apply (insert_compaction_output_visible key) in Hs as [? ?]; [|done]. by split; [|congruence]. }
  destruct H1 as [Hwf1 H1]. rewrite <- H1.
  match goal with Hu : update_runs _ _ _ = Ok _ |- _ => apply wf_update_runs in Hu as (_ & -> & _); [done | done | by intros r r' [= <-]] end.
Qed.

Lemma update_run_exactly_segments db p f message db' :
  update_run_exactly db p f message = Ok db' → db_segments db' = db_segments db ∧ db_objects db' = db_objects db.
Proof. intros Hu. unfold update_run_exactly, update_runs in Hu. inv_tx. done. Qed.

Lemma fail_locked_run_visible key now r reason grace db db' :
  db_wf db → fail_locked_run now r reason grace db = Ok db' → visible_rows key db' = visible_rows key db.
Proof.
  intros Hwf Hf. unfold fail_locked_run in Hf. inv_tx. cbv zeta in *. rename a into db1, a0 into db2.
  match goal with Hu : update_segments_exactly db _ _ _ _ = Ok db1 |- _ => apply update_segments_exactly_Ok in Hu as Hu1 end.
  assert (Hwf1 : db_wf db1) by (by apply wf_update_segments in Hu1 as (? & _); [| |intros ?? [= <-]]).
  apply update_run_exactly_segments in Hf as [Hs _]. unfold visible_rows at 1. rewrite Hs. fold (visible_rows key db2).
  transitivity (visible_rows key db1); [|by eapply claim_visible].
  destruct (sg_id <$> rr_outputs r); inv_tx; [done|].
  match goal with Hu : update_segments_exactly db1 _ _ _ _ = Ok db2 |- _ => apply update_segments_exactly_Ok in Hu as Hu2 end.
  eapply visible_kept; [done | apply retire_columns | done |].
  intros x x' [_ Hx%bool_decide_eq_true]%andb_true_iff Hx'. unfold retire_segment in Hx'.
  apply bind_Some in Hx' as (dl & _ & [= <-]). rewrite !weight_hidden; [done | by rewrite Hx | done].
Qed.

(** ** Publication *)

Definition row_count (s : SegmentRow) : Z := sc_row_count (sg_columns s).

Lemma positive_u64_Ok value message v : positive_u64 value message = Ok v → v = value ∧ 0 < value.
Proof.
  unfold positive_u64. intros (x & [-> _]%narrow_Some & Hx)%ok_or_Ok%bind_Some.
  destruct (Z.ltb_spec 0 value); [|done]. by injection Hx as <-.
Qed.

Lemma totals_rows l t : totals_from_segments l = Ok t → rt_rows t = sum_Z (row_count <$> l).
Proof.
  unfold totals_from_segments. destruct l as [|x l]; [done|]. intros Ht. inv_ok.
  apply positive_u64_Ok in Hok as [-> _]. cbn [fmap list_fmap]. rewrite sum_Z_cons.
  assert (Hfold : ∀ l t0 t, try_fold add_to_totals t0 l = Ok t → rt_rows t = rt_rows t0 + sum_Z (row_count <$> l)).
  { clear. induction l as [|x l IH]; intros t0 t Hf; cbn [try_fold] in Hf; inv_ok; [cbn; lia|].
    rewrite (IH _ _ Hf). unfold add_to_totals in *. inv_ok. unfold checked_add in *.
    match goal with Hn : narrow _ _ = Some _ |- _ => apply narrow_Some in Hn as [-> _] end.
    match goal with Hp : positive_rows _ = Ok _ |- _ => apply positive_u64_Ok in Hp as [-> _] end.
    cbn [rt_rows fmap list_fmap]. rewrite sum_Z_cons. unfold row_count. lia. }
  rewrite (Hfold _ _ _ Ht). done.
Qed.

Lemma validate_common_Ok r :
  validate_common_replacement r = Ok tt →
  (∀ s, s ∈ rr_inputs r → matches_run (rr_run r) s = true) ∧
  (∀ s, s ∈ rr_outputs r → matches_run (rr_run r) s = true) ∧
  sum_Z (row_count <$> rr_inputs r) = sum_Z (row_count <$> rr_outputs r).
Proof.
  unfold validate_common_replacement. destruct (_ || _ || _ || _) eqn:Ec; [done|]. intros Hv. inv_tx.
  match goal with Hb : _ || _ = false |- _ =>
    rewrite !orb_false_iff, !negb_false_iff in Hb; destruct Hb as [[Hrows%Z.eqb_eq _] _] end || idtac.
  rewrite !forallb_forall in *. setoid_rewrite <- list_elem_of_In in Hok. setoid_rewrite <- list_elem_of_In in Hok0.
  apply orb_false_iff in Ec as [_ Hlen]. apply negb_false_iff, Nat.eqb_eq in Hlen.
  split; [done|]. split.
  - intros s Hs. apply list_elem_of_lookup in Hs as [i Hi].
    destruct (lookup_lt_is_Some_2 (rr_objects r) i) as [o Ho]; [rewrite Hlen; by eapply lookup_lt_Some|].
    assert (Hz : (s, o) ∈ zip (rr_outputs r) (rr_objects r)).
    { apply list_elem_of_lookup. exists i. rewrite lookup_zip_with, Hi, Ho. done. }
    specialize (Hok0 _ Hz). by apply andb_true_iff in Hok0 as [? _].
  - match goal with Hi : totals_from_segments (rr_inputs r) = _, Ho : totals_from_segments (rr_outputs r) = _ |- _ =>
      apply totals_rows in Hi, Ho end. congruence.
Qed.

(** The rows an update by identities hits are the rows of the list. *)
Lemma hits_Permutation (t : gmap Z SegmentRow) (p : SegmentRow → bool) l :
  keyed sg_id t → NoDup (sg_id <$> l) → (∀ s, s ∈ rows t ∧ p s = true ↔ s ∈ l) →
  filter (λ s, p s = true) (rows t) ≡ₚ l.
Proof.
  intros Hk Hnd Hp. apply NoDup_Permutation; [apply NoDup_filter | | ].
  - eapply NoDup_fmap_1. by apply (NoDup_rows sg_id).
  - by eapply NoDup_fmap_1.
  - intros s. rewrite list_elem_of_filter, <- Hp. tauto.
Qed.

(** Rows that become visible, or cease to be, all of one key. *)
Lemma sum_Z_weights (w : SegmentRow → Z) run key l sign :
  (∀ s, s ∈ l → matches_run run s = true) →
  (∀ s, s ∈ l → w s = if bool_decide (segment_key s = key) then sign * row_count s else 0) →
  sum_Z (w <$> l) =
    if bool_decide ((rn_source_id run, rn_schema_id run, rn_event_day run) = key) then sign * sum_Z (row_count <$> l) else 0.
Proof.
  induction l as [|s l IH]; intros Hm Hw; [case_bool_decide; cbn [fmap list_fmap]; rewrite ?sum_Z_nil; lia|].
  cbn [fmap list_fmap]. rewrite !sum_Z_cons, IH by set_solver.
  rewrite (Hw s) by set_solver. assert (Hk : segment_key s = (rn_source_id run, rn_schema_id run, rn_event_day run)).
  { specialize (Hm s ltac:(set_solver)). unfold matches_run in Hm. rewrite !andb_true_iff in Hm.
    destruct Hm as [[H1%Z.eqb_eq H2%Z.eqb_eq] H3%bool_decide_eq_true]. unfold segment_key. by rewrite H1, H2, H3. }
  rewrite Hk. repeat case_bool_decide; try done; lia.
Qed.

(** An update of the rows of one run by their identities. *)
Lemma visible_changed key run sign db p f l db' n :
  db_wf db → (∀ s s', f s = Some s' → sg_columns s' = sg_columns s) → update_segments db p f = Ok (db', n) →
  NoDup (sg_id <$> l) → (∀ s, s ∈ rows (db_segments db) ∧ p s = true ↔ s ∈ l) →
  (∀ s, s ∈ l → matches_run run s = true) →
  (∀ s s', s ∈ l → f s = Some s' →
     weight key s' - weight key s = if bool_decide (segment_key s = key) then sign * row_count s else 0) →
  visible_rows key db' = visible_rows key db +
    if bool_decide ((rn_source_id run, rn_schema_id run, rn_event_day run) = key) then sign * sum_Z (row_count <$> l) else 0.
Proof.
  intros Hwf Hc Hu Hnd Hp Hm Hw. rewrite (visible_updated key db p f db' n) by done. f_equal.
  rewrite (hits_Permutation (db_segments db) p l) by (done || by apply wf_segments_keyed).
  apply sum_Z_weights; [done|]. intros s Hs. apply wf_update_segments in Hu as (_ & _ & _ & Hf); [|done | done].
  pose proof (proj2 (Hp s) Hs) as [(k & Hk)%elem_of_rows Hps]. destruct (Hf k s Hk Hps) as (s' & Hs' & _).
  unfold updated. rewrite Hps, Hs'. by apply Hw.
Qed.

Lemma weight_change key s s' :
  sg_columns s' = sg_columns s →
  weight key s' - weight key s =
    if bool_decide (segment_key s = key)
    then (Z.b2z (bool_decide (sg_state s' = "ACTIVE")) - Z.b2z (bool_decide (sg_state s = "ACTIVE"))) * row_count s else 0.
Proof.
  intros Hc. unfold weight, segment_key, sg_event_day, row_count. rewrite Hc.
  repeat case_bool_decide; cbn [andb Z.b2z]; lia.
Qed.

(** The rows that the activation hits are the outputs. *)
Lemma activated_outputs db run_id r s :
  db_wf db → replacement_of db run_id r → (∀ s, s ∈ rr_outputs r → sg_state s = "PREPARED") →
  s ∈ rows (db_segments db) ∧
    bool_decide (sg_id s ∈ sg_id <$> rr_outputs r) && bool_decide (sg_state s = "PREPARED") = true ↔ s ∈ rr_outputs r.
Proof.
  intros Hwf Hr Hout. rewrite andb_true_iff, !bool_decide_eq_true. split.
  - intros ((k & Hk)%elem_of_rows & Hid & _). by apply (output_ids_iff db run_id r k s).
  - intros Hs. pose proof (proj1 (rp_outputs _ _ _ Hr s) Hs) as [Hrow _].
    split; [done|]. split; [by apply list_elem_of_fmap_2 | by apply Hout].
Qed.

(** After the activation the rows that the retirement hits are the inputs. *)
Lemma retired_inputs db run_id r p f s :
  db_wf db → replacement_of db run_id r → (∀ s, s ∈ rr_inputs r → sg_state s = "ACTIVE") →
  (∀ s s', p s = true → f s = Some s' → sg_state s = "PREPARED" ∧ sg_claimed_by s' = sg_claimed_by s) →
  (∀ s, p s = true → sg_state s = "PREPARED") →
  s ∈ rows (updated p f <$> db_segments db) ∧
    bool_decide (sg_id s ∈ sg_id <$> rr_inputs r) && bool_decide (sg_state s = "ACTIVE")
      && bool_decide (sg_claimed_by s = Some (rn_id (rr_run r))) = true ↔ s ∈ rr_inputs r.
Proof.
  intros Hwf Hr Hin Hf Hp. rewrite !andb_true_iff, !bool_decide_eq_true.
  rewrite (wf_runs_keyed _ Hwf _ _ (rp_run _ _ _ Hr)), rows_fmap, list_elem_of_fmap. split.
  - intros ((s0 & -> & Hs0) & (Hid & _) & Hcl). unfold updated in *. destruct (p s0) eqn:Ep; [|by apply (rp_inputs _ _ _ Hr)].
    exfalso. destruct (f s0) as [s1|] eqn:Ef; cbn [default from_option id] in Hcl.
    + destruct (Hf s0 s1 Ep Ef) as [Hst Hc]. rewrite Hc in Hcl.
      assert (Hi : s0 ∈ rr_inputs r) by (by apply (rp_inputs _ _ _ Hr)). apply Hin in Hi. congruence.
    + assert (Hi : s0 ∈ rr_inputs r) by (by apply (rp_inputs _ _ _ Hr)). apply Hin in Hi. apply Hp in Ep. congruence.
  - intros Hs. pose proof (proj1 (rp_inputs _ _ _ Hr s) Hs) as [Hrow Hcl]. split.
    + exists s. split; [|done]. unfold updated. destruct (p s) eqn:Ep; [|done]. apply Hp in Ep. apply Hin in Hs. congruence.
    + split; [|done]. split; [by apply list_elem_of_fmap_2 | by apply Hin].
Qed.

Lemma publish_locked_replacement_visible key now run_id r grace db db' :
  db_wf db → replacement_of db run_id r → validate_prepublication r = Ok tt →
  publish_locked_replacement now r grace db = Ok db' → visible_rows key db' = visible_rows key db.
Proof.
  intros Hwf Hr Hv Hp. apply validate_prepublication_Ok in Hv as (Hcom & Hin & Hout & _).
  apply validate_common_Ok in Hcom as (Hmi & Hmo & Hsum).
  unfold publish_locked_replacement in Hp. inv_tx. cbv zeta in *. rename a0 into db2, a1 into db3.
  match goal with Hu : update_objects _ _ _ = Ok (?d, _) |- _ => rename d into db1; apply wf_update_objects in Hu as (Hwf1 & Hdb1 & _);
    [|done | by intros ?? [= <-]] end.
  match goal with Hu : update_segments_exactly _ _ _ _ _ = Ok db2 |- _ => apply update_segments_exactly_Ok in Hu as Hu2 end.
  match goal with Hu : update_segments_exactly _ _ _ _ _ = Ok db3 |- _ => apply update_segments_exactly_Ok in Hu as Hu3 end.
  apply update_run_exactly_segments in Hp as [Hs _]. unfold visible_rows at 1. rewrite Hs. fold (visible_rows key db3).
  assert (Hact : ∀ s s', Some (activate_output now s) = Some s' → sg_columns s' = sg_columns s) by (by intros ?? [= <-]).
  pose proof (wf_update_segments _ _ _ _ _ Hwf1 Hact Hu2) as (Hwf2 & Hdb2 & _).
  assert (Hseg1 : db_segments db1 = db_segments db) by (by rewrite Hdb1).
  assert (Hvis1 : visible_rows key db1 = visible_rows key db) by (unfold visible_rows; by rewrite Hseg1).
  assert (Hseg2 := f_equal db_segments Hdb2). cbn [set_segments db_segments] in Hseg2. rewrite Hseg1 in Hseg2.
  rewrite (visible_changed key (rr_run r) (-1) _ _ _ (rr_inputs r) _ _ Hwf2 (retire_columns "SUPERSEDED" now grace) Hu3);
    [| apply Hr | | done |].
  - rewrite (visible_changed key (rr_run r) 1 _ _ _ (rr_outputs r) _ _ Hwf1 Hact Hu2); [| apply Hr | | done |].
    + rewrite Hvis1, Hsum. case_bool_decide; lia.
    + intros s. rewrite Hseg1. by apply (activated_outputs db run_id r s).
    + intros s s' Hs' [= <-]. rewrite weight_change by done. by rewrite (Hout s Hs').
  - intros s. rewrite Hseg2. apply (retired_inputs db run_id r); [done | done | done | |].
    + intros x x' [_ Hx%bool_decide_eq_true]%andb_true_iff [= <-]. done.
    + intros x [_ Hx%bool_decide_eq_true]%andb_true_iff. done.
  - intros s s' Hs' Hret. rewrite weight_change by (by eapply retire_columns).
    rewrite (Hin s Hs'). unfold retire_segment in Hret. by apply bind_Some in Hret as (d & _ & [= <-]).
Qed.

(** ** The transactions of a compaction run *)

Lemma publish_replacement_visible key now run_id grace db db' outcome :
  db_wf db → publish_replacement_transaction now run_id grace db = Ok (db', outcome) →
  visible_rows key db' = visible_rows key db.
Proof.
  intros Hwf Hp. unfold publish_replacement_transaction in Hp. inv_tx.
  match goal with Hl : load_replacement _ _ = Ok _ |- _ => apply load_replacement_Ok in Hl as Hr; [|done] end.
  match goal with state : RunState |- _ => destruct state end; inv_tx; try done.
  match goal with Hv : validate_prepublication _ = Ok ?u |- _ => destruct u; by eapply publish_locked_replacement_visible end.
Qed.

Lemma fail_run_visible key now run_id reason grace db db' outcome :
  db_wf db → fail_run_transaction now run_id reason grace db = Ok (db', outcome) →
  visible_rows key db' = visible_rows key db.
Proof.
  intros Hwf Hp. unfold fail_run_transaction in Hp. inv_tx.
  match goal with state : RunState |- _ => destruct state end; inv_tx; try done; by eapply fail_locked_run_visible.
Qed.

Lemma recover_visible key now grace limit db db' ids :
  db_ok db → recover_unfinished_transaction now grace limit db = Ok (db', ids) →
  visible_rows key db' = visible_rows key db.
Proof.
  intros Hok Hp. unfold recover_unfinished_transaction in Hp. cbv zeta in Hp. inv_tx.
  match goal with Hf : try_fold _ db ?l = Ok _ |- _ =>
    apply (try_fold_inv (λ d, db_ok d ∧ visible_rows key d = visible_rows key db) (recover_run now grace) l db) in Hf end;
    [tauto | | done].
  intros d id d' _ [Hd Hv] Hs. pose proof (recover_run_evolves _ _ _ _ _ Hd Hs) as He. split; [apply He|].
  rewrite <- Hv. unfold recover_run in Hs. inv_tx.
  match goal with state : RunState |- _ => destruct state end; inv_tx; eapply fail_locked_run_visible; try done; by apply ok_wf.
Qed.

(** The committed transactions of a compaction run. *)
Inductive compaction_step (db : Database) : Database → Prop :=
| compaction_claims now run limits snapshot db' outcome :
    claim_compaction now run limits snapshot db = Ok (db', outcome) → compaction_step db db'
| compaction_registers now run outputs db' outcome :
    register_outputs now run outputs db = Ok (db', outcome) → compaction_step db db'
| compaction_publishes now run grace db' outcome :
    publish_replacement_transaction now run grace db = Ok (db', outcome) → compaction_step db db'
| compaction_fails now run reason grace db' outcome :
    fail_run_transaction now run reason grace db = Ok (db', outcome) → compaction_step db db'
| compaction_recovers now grace limit db' outcome :
    recover_unfinished_transaction now grace limit db = Ok (db', outcome) → compaction_step db db'.

(** C11: compaction loses no rows and duplicates none. Each transaction of a compaction
    run, committed in a database that the stores reach, leaves the number of rows that
    queries see of every source, schema and day as it was: the replacement makes the
    outputs visible at the instant the inputs cease to be, and neither a claim, nor the
    registration of outputs, nor a failure or its recovery changes what is visible. *)
Theorem compaction_conserves_rows db db' key :
  reachable db → compaction_step db db' → visible_rows key db' = visible_rows key db.
Proof.
  intros Hok%reachable_ok Hs. pose proof (ok_wf _ Hok) as Hwf.
  destruct Hs; [by eapply claim_compaction_visible | by eapply register_outputs_visible
    | by eapply publish_replacement_visible | by eapply fail_run_visible | by eapply recover_visible].
Qed.

End Correct.
