(* ===== verification/MetastoreSamples.v ===== *)
(** * elucid-metastore: a sample history

    A history of the metastore that exercises every store: two segments are ingested and
    published, a compaction run claims and replaces them, and the replaced ones become
    reclaimable. The theorems on the metastore are instantiated at its databases. *)

From S2P Require Import Prelude Core ErrorCode CatalogTypes CatalogModel Bytes Frame Storage Database Publication Reclamation Retention Compaction CompactionChoice CompactionLifecycle MetastoreInvariant MetastoreLifecycle MetastoreSteps Metastore CompactionCorrect.

#[local] Open Scope string_scope.
#[local] Open Scope Z_scope.

#[local] Existing Instance sample_calendar.
#[local] Existing Instance sample_uuid_text.
#[local] Existing Instance sample_paths.

Definition sample_postgres : Postgres := λ now seconds, Some (now + seconds * 1000000).

#[local] Existing Instance sample_postgres.

Lemma sample_postgres_laws : PostgresLaws.
Proof. intros now seconds later Hs [= <-]. cbn. lia. Qed.

(** ** Outputs *)

Definition sample_source_id : Z := sample_uuid 2.
Definition sample_schema_id : Z := sample_uuid 5.

Definition metastore_schema : Schema.Schema :=
  {| Schema.s_id := sample_schema_id; Schema.s_source_id := sample_source_id; Schema.s_version := 1;
     Schema.s_declaration_digest := []; Schema.s_materialized_digest := [];
     Schema.s_fields := Schema.layout Schema.sample_fields |}.

Definition sample_times : SegmentTimes :=
  {| event_day := "0"; minimum_event_time := 1000; maximum_event_time := 2000;
     minimum_ingestion_time := 3000; maximum_ingestion_time := 4000 |}.

Definition sample_segment (id rows : Z) : SegmentDescriptor :=
  {| sd_segment_id := id; sd_source_id := sample_source_id; sd_schema_id := sample_schema_id;
     sd_times := sample_times; sd_row_count := rows; sd_uncompressed_bytes := 100;
     sd_object :=
       {| od_key := parquet_key {| root_path := "elucid" |} id (1000 + id); od_expected_byte_size := 50;
          od_digest := repeat "a"%char 32; od_media_type := ParquetMedia; od_format_version := 1 |} |}.

Definition sample_limits : CompactionClaimLimits :=
  {| maximum_candidate_segments := 10; maximum_input_segments := 5; maximum_input_rows := 1000;
     maximum_input_parquet_bytes := 1000; maximum_input_uncompressed_bytes := 1000; target_output_rows := 100;
     target_output_uncompressed_bytes := 500; minimum_retention_seconds := 10 |}.

(** The replacement has the later deadline of the inputs. *)
Definition sample_output : CompactionOutputRegistration :=
  {| co_run_id := 7; co_descriptor := sample_segment 3 30; co_data_expires_at := 3600010000 |}.

(** ** The history *)

Definition catalogued : Database :=
  {| db_schemas := {[ (sample_source_id, sample_schema_id) := metastore_schema ]}; db_inputs := ∅; db_runs := ∅;
     db_segments := ∅; db_objects := ∅ |}.

(** The tables after a committed transaction. *)
Definition after {E A} (r : result E (Database * A)) : Database :=
  match r with Ok (db, _) => db | Err _ => empty_database end.

Definition registered : Database :=
  let db := after (register_ingestion_segment 5000 (sample_segment 1 10) catalogued) in
  after (register_ingestion_segment 6000 (sample_segment 2 20) db).
Definition uploaded : Database :=
  let db := after (record_verified_upload 7000 (sd_object (sample_segment 1 10)) registered) in
  after (record_verified_upload 8000 (sd_object (sample_segment 2 20)) db).
Definition published : Database :=
  let db := after (publish_ingestion_segment 9000 1 3600 uploaded) in
  after (publish_ingestion_segment 10000 2 3600 db).
Definition claimed : Database := after (claim_compaction 11000 7 sample_limits published published).
Definition output_registered : Database := after (register_outputs 12000 7 [sample_output] claimed).
Definition output_uploaded : Database :=
  after (record_verified_upload 13000 (sd_object (sample_segment 3 30)) output_registered).
Definition replaced : Database := after (publish_replacement_transaction 14000 7 60 output_uploaded).

(** A transaction that succeeds leads to the tables after it. *)
Lemma committed {E A} (r : result E (Database * A)) : is_ok r = true → ∃ o, r = Ok (after r, o).
Proof. destruct r as [[db o]|]; [by exists o | done]. Qed.

Lemma reachable_step db db' : reachable db → step db db' → reachable db'.
Proof. apply rtc_r. Qed.

(** The last transaction of a history, [r], by the rule of the step relation for it. *)
Ltac last_step r rule :=
  let o := fresh "o" in let Ho := fresh "Ho" in
  destruct (committed r ltac:(vm_compute; reflexivity)) as [o Ho];
  refine (reachable_step _ _ _ (rule _ _ Ho)); clear o Ho.

Lemma reachable_catalogued : reachable catalogued.
Proof.
  eapply reachable_step; [apply rtc_refl|]. apply (step_catalog empty_database); [apply map_empty_subseteq | set_solver..].
Qed.

Lemma reachable_published : reachable published.
Proof.
  unfold published.
  last_step (publish_ingestion_segment 10000 2 3600 (after (publish_ingestion_segment 9000 1 3600 uploaded)))
    (step_publish_segment (after (publish_ingestion_segment 9000 1 3600 uploaded)) 10000 2 3600).
  last_step (publish_ingestion_segment 9000 1 3600 uploaded) (step_publish_segment uploaded 9000 1 3600).
  pose (o1 := sd_object (sample_segment 1 10)). pose (o2 := sd_object (sample_segment 2 20)).
  last_step (record_verified_upload 8000 o2 (after (record_verified_upload 7000 o1 registered)))
    (step_record_upload (after (record_verified_upload 7000 o1 registered)) 8000 o2).
  last_step (record_verified_upload 7000 o1 registered) (step_record_upload registered 7000 o1).
  pose (s1 := sample_segment 1 10). pose (s2 := sample_segment 2 20).
  last_step (register_ingestion_segment 6000 s2 (after (register_ingestion_segment 5000 s1 catalogued)))
    (step_register_segment (after (register_ingestion_segment 5000 s1 catalogued)) 6000 s2).
  last_step (register_ingestion_segment 5000 s1 catalogued) (step_register_segment catalogued 5000 s1).
  exact reachable_catalogued.
Qed.

Lemma reachable_output_uploaded : reachable output_uploaded.
Proof.
  pose (o3 := sd_object (sample_segment 3 30)).
  last_step (record_verified_upload 13000 o3 output_registered) (step_record_upload output_registered 13000 o3).
  last_step (register_outputs 12000 7 [sample_output] claimed) (step_register_outputs claimed 12000 7 [sample_output]).
  last_step (claim_compaction 11000 7 sample_limits published published)
    (step_claim_compaction published 11000 7 sample_limits published).
  exact reachable_published.
Qed.

Lemma publish_replaced : ∃ o, publish_replacement_transaction 14000 7 60 output_uploaded = Ok (replaced, o).
Proof. apply committed. vm_compute. reflexivity. Qed.

Lemma step_replaced : step output_uploaded replaced.
Proof. destruct publish_replaced as [o Ho]. exact (step_publish_replacement _ _ _ _ _ _ Ho). Qed.

Lemma reachable_replaced : reachable replaced.
Proof. exact (reachable_step _ _ reachable_output_uploaded step_replaced). Qed.

(** ** Witnesses *)

Lemma metastore_refines_lifecycle_witness :
  output_phase output_uploaded 3 = Some OutputUploaded ∧ output_phase replaced 3 = Some OutputPublished ∧
  ∃ t, ∀ k, lifecycle t (output_phase output_uploaded k) (output_phase replaced k).
Proof.
  split; [vm_compute; reflexivity|]. split; [vm_compute; reflexivity|].
  exact (proj1 (proj2 (metastore_refines_lifecycle output_uploaded reachable_output_uploaded)) replaced step_replaced).
Defined.

Lemma compaction_conserves_rows_witness :
  let key := (sample_source_id, sample_schema_id, "0") in
  visible_rows key output_uploaded = 30 ∧ visible_rows key replaced = visible_rows key output_uploaded.
Proof.
  intros key. split; [vm_compute; reflexivity|]. apply (compaction_conserves_rows output_uploaded replaced key).
  - exact reachable_output_uploaded.
  - destruct publish_replaced as [o Ho]. exact (compaction_publishes _ _ _ _ _ _ Ho).
Defined.

Lemma publication_never_corrupt_witness :
  not_corrupt (publish_ingestion_segment 15000 3 60 replaced) ∧
  is_ok (publish_ingestion_segment 15000 1 60 replaced) = true.
Proof.
  split; [|vm_compute; reflexivity].
  exact (proj1 (proj2 (proj2 (proj2 (publication_never_corrupt replaced reachable_replaced)))) 15000 3 60).
Defined.

(** The claims an hour later. *)
Definition reclaim_time : DateTime := 3700000000.
Definition sample_claims : list ObjectDeletionClaim :=
  match claim reclaim_time ∅ 60 10 replaced with Ok (_, claims) => claims | Err _ => [] end.

Lemma claim_succeeds {E A} (r : result E (Database * list A)) :
  is_ok r = true → r = Ok (after r, match r with Ok (_, claims) => claims | Err _ => [] end).
Proof. by destruct r as [[db o]|]. Qed.

Lemma visible_data_kept_witness :
  (cl_attempt <$> sample_claims) = [InitialAttempt; InitialAttempt] ∧
  ∀ c, c ∈ sample_claims →
    ∃ o, o ∈ rows (db_objects replaced) ∧ materialize_descriptor o = Ok (cl_descriptor c) ∧
      ∀ k s, ob_segment_id o = Some k → db_segments replaced !! k = Some s →
        sg_state s ∈ ["SUPERSEDED"; "EXPIRED"; "ABANDONED"] ∧
        (cl_attempt c = InitialAttempt → ∃ t, sg_reclaim_after s = Some t ∧ datetime_leb t reclaim_time = true).
Proof.
  split; [vm_compute; reflexivity|].
  refine (proj2 (visible_data_kept replaced reclaim_time ∅ 60 10 _ sample_claims reachable_replaced _)).
  apply claim_succeeds. vm_compute. reflexivity.
Defined.

Definition sample_configuration : CompactionClaimLimitConfiguration :=
  {| cc_maximum_candidate_segments := 10; cc_maximum_input_segments := 5; cc_maximum_input_rows := 1000;
     cc_maximum_input_parquet_bytes := 1000; cc_maximum_input_uncompressed_bytes := 1000; cc_target_output_rows := 100;
     cc_target_output_uncompressed_bytes := 500; cc_minimum_retention_seconds := 10;
     cc_minimum_retention_nanos := 0 |}.

Definition sample_candidate (id rows : Z) : CompactionInputSegment :=
  {| ci_descriptor := sample_segment id rows; ci_data_expires_at := 3600010000; ci_published_at := 9000 |}.

Lemma choose_candidate_group_exact_witness :
  let l := [sample_candidate 1 10; sample_candidate 2 20; sample_candidate 4 980] in
  choose_candidate_group l sample_limits = Ok (chosen_group sample_limits l) ∧
  map (sd_segment_id ∘ ci_descriptor) <$> chosen_group sample_limits l = Some [1; 2].
Proof.
  intros l. split; [|vm_compute; reflexivity].
  refine (proj1 (choose_candidate_group_exact sample_configuration sample_limits l _ _ _)).
  - split; cbn; lia.
  - vm_compute. reflexivity.
  - repeat constructor; vm_compute; by intros [=].
Defined.
