(* ===== verification/Segment.v ===== *)
(** * elucid-ingestion: segment builders

    Models src/elucid/elucid-ingestion/src/segment.rs: normalized rows are collected in
    open builders, one per source, schema and event day; a builder is sealed when it
    reaches its row or byte target, its maximal age, when another day needs its place,
    or when the memory or staging budget is exhausted, and sealed segments wait in a
    queue for the staging writer.

    The [BTreeMap] of open builders is a [gmap] whose entries are visited in the order
    of their keys. [Instant] and [Duration] are nanoseconds. An operation of
    [SegmentBuilders] returns its result with the state it leaves behind, also when it
    fails; [Panicked] stands for the panic of [EventDay::from_event_time] outside the
    range of chrono. The sizes and capacities of values in memory and the chunks that
    serde_json writes are parameters. *)

From S2P Require Import Prelude Core CatalogTypes Bytes Frame Json Normalization.

#[local] Open Scope Z_scope.

(** [size_of] of the types of the accounting, the capacities of strings and arrays, and
    the buffers [serde_json::to_writer] hands to the writer. *)
Class SegmentLayout `{JsonLib} := {
  size_of_SegmentRow : Z;
  size_of_NormalizedField : Z;
  size_of_entry : Z;
  size_of_Value : Z;
  string_capacity : string → Z;
  array_capacity : list Value → Z;
  json_to_writer : list (string * Value) → list bytes;
}.

Definition TARGET_SEGMENT_ROWS : Z := 50000.
Definition TARGET_SEGMENT_ESTIMATED_BYTES : Z := 64 * 1024 * 1024.
Definition MAXIMUM_SEGMENT_OPEN_DURATION : Z := 10 * 1000000000.
Definition MAXIMUM_OPEN_SEGMENT_BUILDERS : Z := 32.
Definition MAXIMUM_SEGMENT_BUILDER_MEMORY_BYTES : Z := 256 * 1024 * 1024.
Definition SEGMENT_ROW_VECTOR_CAPACITY_HEADROOM : Z := 2.
Definition HEAP_ALLOCATION_HEADROOM_BYTES : Z := 32.
Definition JSON_OBJECT_ENTRY_HEADROOM_BYTES : Z := 64.

(** ** Data *)

(** An [EventDay] is the number of days since 1970-01-01. *)
Record SegmentKey := { k_source_id : SourceId; k_schema_id : SchemaId; k_event_day : Z }.

#[export] Instance SegmentKey_eq_dec : EqDecision SegmentKey.
Proof. solve_decision. Defined.

#[export] Instance SegmentKey_countable : Countable SegmentKey.
Proof.
  refine (inj_countable' (λ k, (k_source_id k, k_schema_id k, k_event_day k))
            (λ t, {| k_source_id := t.1.1; k_schema_id := t.1.2; k_event_day := t.2 |}) _); by intros [].
Defined.

(** The derived order compares the fields in turn. *)
Definition key_le (a b : SegmentKey) : Prop :=
  k_source_id a < k_source_id b ∨
  (k_source_id a = k_source_id b ∧
   (k_schema_id a < k_schema_id b ∨ (k_schema_id a = k_schema_id b ∧ k_event_day a ≤ k_event_day b))).

#[export] Instance key_le_dec a b : Decision (key_le a b).
Proof. unfold key_le. apply _. Defined.

Inductive SegmentCapacity := ResidentMemory | Staging.

Inductive SealingReason :=
| RowTarget | ByteTarget | MaximumAge | BuilderLimit | CapacityPressure (capacity : SegmentCapacity) | Flush.

Record SegmentTimeBounds := {
  minimum_event_time : Z;
  maximum_event_time : Z;
  minimum_ingestion_time : Z;
  maximum_ingestion_time : Z;
}.

Record SegmentBuildLimits := {
  target_rows : Z;
  target_estimated_bytes : Z;
  maximum_open_duration : Z;
  maximum_open_builders : Z;
  maximum_estimated_resident_bytes : Z;
  maximum_staging_bytes : Z;
}.

Inductive SegmentBuildError :=
| EstimatedBytesOverflow
| ClockMovedBackwards
| AccessSequenceExhausted
| BatchExceedsCapacity (capacity : SegmentCapacity) (estimated_bytes maximum_bytes : Z)
| StateInconsistent
| Panicked.

Definition SegmentStagingCapacity_new (value : Z) : option Z := if value =? 0 then None else Some value.

Definition limits_standard (staging_capacity : Z) : SegmentBuildLimits :=
  {| target_rows := TARGET_SEGMENT_ROWS;
     target_estimated_bytes := TARGET_SEGMENT_ESTIMATED_BYTES;
     maximum_open_duration := MAXIMUM_SEGMENT_OPEN_DURATION;
     maximum_open_builders := MAXIMUM_OPEN_SEGMENT_BUILDERS;
     maximum_estimated_resident_bytes := MAXIMUM_SEGMENT_BUILDER_MEMORY_BYTES;
     maximum_staging_bytes := staging_capacity |}.

Definition is_valid (l : SegmentBuildLimits) : bool :=
  (target_rows l >? 0) && (target_estimated_bytes l >? 0) && negb (maximum_open_duration l =? 0)
  && (maximum_open_builders l >? 0) && (maximum_estimated_resident_bytes l >? 0)
  && (maximum_staging_bytes l >? 0).

(** [observed_at.checked_duration_since(earlier)] *)
Definition checked_duration_since (observed_at earlier : Z) : option Z :=
  if observed_at <? earlier then None else Some (observed_at - earlier).

Section Segment.
Context {env : SpoolEnv} {lib : JsonLib} {layout : SegmentLayout}.

Definition EventDay_from_event_time (event_time : Z) : result SegmentBuildError Z :=
  milliseconds ← ok_or (utc_milliseconds event_time) Panicked;
  Ok (milliseconds / MILLISECONDS_PER_DAY).

Record SegmentRow := {
  sr_batch_id : Z;
  sr_row : AcceptedRow;
  sr_uncompressed : Z;
  sr_resident : Z;
}.

Record SealedSegment := {
  ss_key : SegmentKey;
  ss_rows : list SegmentRow;
  ss_uncompressed : Z;
  ss_resident : Z;
  ss_bounds : SegmentTimeBounds;
  ss_reason : SealingReason;
}.

Record SegmentBuildSummary := {
  sb_metadata : BatchMetadata;
  sb_dead_letters : list DeadLetterEntry;
  sb_ignored_records : Z;
}.

Inductive SegmentBuildOutcome :=
| BatchAccepted (summary : SegmentBuildSummary)
| BatchDeferred (batch : NormalizedBatch) (capacity : SegmentCapacity).

Record OpenSegment := {
  os_rows : list SegmentRow;
  os_uncompressed : Z;
  os_resident : Z;
  os_opened_at : Z;
  os_touched : Z;
}.

Record SegmentBuilders := {
  limits : SegmentBuildLimits;
  open : gmap SegmentKey OpenSegment;
  sealed : list SealedSegment;
  resident_bytes : Z;
  staging_bytes : Z;
  access_sequence : Z;
  last_observed_at : option Z;
}.

Record SegmentBuilderUsage := {
  us_open_builders : Z;
  us_sealed_segments : Z;
  us_resident_bytes : Z;
  us_staging_bytes : Z;
  us_maximum_resident_bytes : Z;
  us_maximum_staging_bytes : Z;
}.

Record PlannedSegmentRow := { pr_event_day : Z; pr_uncompressed : Z; pr_resident : Z }.

Record BatchRowPlan := { total_uncompressed : Z; total_resident : Z; plan_rows : list PlannedSegmentRow }.

(** ** Row estimates *)

Definition add_bytes (a b : Z) : result SegmentBuildError Z := ok_or (checked_add U64 a b) EstimatedBytesOverflow.

Definition usize_bytes (bytes : Z) : result SegmentBuildError Z := ok_or (narrow U64 bytes) EstimatedBytesOverflow.

Definition bytes_for_items (count item_bytes : Z) : result SegmentBuildError Z :=
  count ← usize_bytes count;
  item ← usize_bytes item_bytes;
  ok_or (checked_mul U64 count item) EstimatedBytesOverflow.

Definition estimated_allocation (bytes : Z) : result SegmentBuildError Z :=
  if bytes =? 0 then Ok 0 else add_bytes bytes HEAP_ALLOCATION_HEADROOM_BYTES.

(** [estimated_allocation(usize_bytes(value.capacity())?)?] *)
Definition string_allocation (s : string) : result SegmentBuildError Z :=
  bytes ← usize_bytes (string_capacity s); estimated_allocation bytes.

(** The bytes of the entries of a map before their keys and values. *)
Definition map_entries_resident (count : Z) : result SegmentBuildError Z :=
  entry_bytes ← bytes_for_items count size_of_entry;
  count ← usize_bytes count;
  entry_overhead ← ok_or (checked_mul U64 count JSON_OBJECT_ENTRY_HEADROOM_BYTES) EstimatedBytesOverflow;
  add_bytes entry_bytes entry_overhead.

(** The loop over the entries of a map. *)
Definition estimate_members (value_resident : Value → result SegmentBuildError Z) (bytes : Z)
    (members : list (string * Value)) : result SegmentBuildError Z :=
  try_fold (λ bytes member,
      key_bytes ← string_allocation member.1;
      bytes ← add_bytes bytes key_bytes;
      value_bytes ← value_resident member.2;
      add_bytes bytes value_bytes) bytes members.

Fixpoint estimate_json_value_resident (value : Value) : result SegmentBuildError Z :=
  match value with
  | VNull | VBool _ | VNumber _ => Ok 0
  | VString s => string_allocation s
  | VArray values =>
      inline_bytes ← bytes_for_items (array_capacity values) size_of_Value;
      start ← estimated_allocation inline_bytes;
      try_fold (λ resident_bytes value,
          bytes ← estimate_json_value_resident value; add_bytes resident_bytes bytes) start values
  | VObject members =>
      start ← map_entries_resident (Z.of_nat (length members));
      estimate_members estimate_json_value_resident start members
  end.

Definition estimate_json_map_resident (members : list (string * Value)) : result SegmentBuildError Z :=
  start ← map_entries_resident (Z.of_nat (length members));
  estimate_members estimate_json_value_resident start members.

(** [ByteCounter::write] over the chunks of the serialized object. *)
Definition estimate_json (members : list (string * Value)) : result SegmentBuildError Z :=
  try_fold (λ counted buffer,
      bytes ← usize_bytes (Z.of_nat (length buffer)); add_bytes counted bytes) 0 (json_to_writer members).

Definition estimate_uncompressed_value (value : NormalizedValue) : result SegmentBuildError Z :=
  match value with
  | NvNull => Ok 1
  | NvBool _ => Ok 2
  | NvInt32 _ | NvUInt32 _ | NvFloat32 _ => Ok 5
  | NvInt64 _ | NvUInt64 _ | NvFloat64 _ | NvDatetime _ => Ok 9
  | NvUtf8 s => bytes ← usize_bytes (Z.of_nat (String.length s)); add_bytes bytes 5
  end.

Definition estimate_resident_row (row : AcceptedRow) : result SegmentBuildError Z :=
  segment_row_bytes ← bytes_for_items SEGMENT_ROW_VECTOR_CAPACITY_HEADROOM size_of_SegmentRow;
  field_bytes ← bytes_for_items (Z.of_nat (length (ar_fields row))) size_of_NormalizedField;
  field_allocation ← estimated_allocation field_bytes;
  bytes ← add_bytes segment_row_bytes field_allocation;
  bytes ← try_fold (λ bytes field,
      match nf_value field with
      | NvUtf8 s => allocation ← string_allocation s; add_bytes bytes allocation
      | _ => Ok bytes
      end) bytes (ar_fields row);
  match ar_remainder row with
  | Some remainder => more ← estimate_json_map_resident remainder; add_bytes bytes more
  | None => Ok bytes
  end.

(** The estimated uncompressed and resident bytes of a row. *)
Definition estimate_row (row : AcceptedRow) : result SegmentBuildError (Z * Z) :=
  uncompressed ← try_fold (λ total field,
      bytes ← estimate_uncompressed_value (nf_value field); add_bytes total bytes) 32 (ar_fields row);
  remainder ← match ar_remainder row with
              | Some remainder => bytes ← estimate_json remainder; add_bytes bytes 5
              | None => Ok 1
              end;
  uncompressed ← add_bytes uncompressed remainder;
  resident ← estimate_resident_row row;
  Ok (uncompressed, resident).

(** One round of the loop of [plan_batch_rows]. *)
Definition plan_record (plan : BatchRowPlan) (record : NormalizedRecord) : result SegmentBuildError BatchRowPlan :=
  match record with
  | DeadLetter _ => Ok plan
  | Accepted row =>
      '(uncompressed, resident) ← estimate_row row;
      unc ← add_bytes (total_uncompressed plan) uncompressed;
      res ← add_bytes (total_resident plan) resident;
      day ← EventDay_from_event_time (ar_event_time row);
      Ok {| total_uncompressed := unc; total_resident := res;
            plan_rows := plan_rows plan ++
              [{| pr_event_day := day; pr_uncompressed := uncompressed; pr_resident := resident |}] |}
  end.

Definition plan_batch_rows (batch : NormalizedBatch) : result SegmentBuildError BatchRowPlan :=
  try_fold plan_record {| total_uncompressed := 0; total_resident := 0; plan_rows := [] |} (nb_records batch).

(** ** One open builder *)

Definition OpenSegment_new (row : SegmentRow) (opened_at access_sequence : Z) : OpenSegment :=
  {| os_rows := [row]; os_uncompressed := sr_uncompressed row; os_resident := sr_resident row;
     os_opened_at := opened_at; os_touched := access_sequence |}.

Definition OpenSegment_push (b : OpenSegment) (row : SegmentRow) (access_sequence : Z)
    : result SegmentBuildError OpenSegment :=
  uncompressed ← add_bytes (os_uncompressed b) (sr_uncompressed row);
  resident ← add_bytes (os_resident b) (sr_resident row);
  Ok {| os_rows := os_rows b ++ [row]; os_uncompressed := uncompressed; os_resident := resident;
        os_opened_at := os_opened_at b; os_touched := access_sequence |}.

(** The order of the rows of a segment; [sort_by] is stable, as is [merge_sort]. *)
Definition row_le (left right : SegmentRow) : Prop :=
  match ar_event_time (sr_row left) ?= ar_event_time (sr_row right) with
  | Lt => True
  | Eq => EventId.compare (ar_event_id (sr_row left)) (ar_event_id (sr_row right)) ≠ Gt
  | Gt => False
  end.

#[export] Instance row_le_dec a b : Decision (row_le a b).
Proof. unfold row_le. destruct (_ ?= _); [destruct (EventId.compare _ _)|..]; apply _ || (right; congruence) || (left; congruence). Defined.

Definition OpenSegment_seal (b : OpenSegment) (key : SegmentKey) (reason : SealingReason)
    : result SegmentBuildError SealedSegment :=
  _ ← check (negb (bool_decide (length (os_rows b) = 0%nat))) StateInconsistent;
  let rows := merge_sort row_le (os_rows b) in
  first ← ok_or (head rows) StateInconsistent;
  last ← ok_or (last rows) StateInconsistent;
  let times := (ar_ingestion_time ∘ sr_row) <$> drop 1 rows in
  Ok {| ss_key := key; ss_rows := rows;
        ss_uncompressed := os_uncompressed b; ss_resident := os_resident b;
        ss_bounds :=
          {| minimum_event_time := ar_event_time (sr_row first);
             maximum_event_time := ar_event_time (sr_row last);
             minimum_ingestion_time := fold_left Z.min times (ar_ingestion_time (sr_row first));
             maximum_ingestion_time := fold_left Z.max times (ar_ingestion_time (sr_row first)) |};
        ss_reason := reason |}.

(** ** Operations on the builders *)

Definition M (A : Type) : Type := SegmentBuilders → result SegmentBuildError A * SegmentBuilders.

#[export] Instance M_ret : MRet M := λ A a s, (Ok a, s).
#[export] Instance M_bind : MBind M := λ A B f m s,
  match m s with
  | (Ok a, s') => f a s'
  | (Err e, s') => (Err e, s')
  end.

Definition lift {A} (r : result SegmentBuildError A) : M A := λ s, (r, s).
Definition get : M SegmentBuilders := λ s, (Ok s, s).

Fixpoint for_each {A} (f : A → M unit) (l : list A) : M unit :=
  match l with
  | [] => mret tt
  | x :: l => f x ≫= λ _, for_each f l
  end.

Definition with_open (s : SegmentBuilders) (o : gmap SegmentKey OpenSegment) : SegmentBuilders :=
  {| limits := limits s; open := o; sealed := sealed s; resident_bytes := resident_bytes s;
     staging_bytes := staging_bytes s; access_sequence := access_sequence s;
     last_observed_at := last_observed_at s |}.

Definition with_sealed (s : SegmentBuilders) (q : list SealedSegment) : SegmentBuilders :=
  {| limits := limits s; open := open s; sealed := q; resident_bytes := resident_bytes s;
     staging_bytes := staging_bytes s; access_sequence := access_sequence s;
     last_observed_at := last_observed_at s |}.

Definition with_bytes (s : SegmentBuilders) (resident staging : Z) : SegmentBuilders :=
  {| limits := limits s; open := open s; sealed := sealed s; resident_bytes := resident;
     staging_bytes := staging; access_sequence := access_sequence s;
     last_observed_at := last_observed_at s |}.

Definition with_sequence (s : SegmentBuilders) (n : Z) : SegmentBuilders :=
  {| limits := limits s; open := open s; sealed := sealed s; resident_bytes := resident_bytes s;
     staging_bytes := staging_bytes s; access_sequence := n; last_observed_at := last_observed_at s |}.

Definition with_observed (s : SegmentBuilders) (t : Z) : SegmentBuilders :=
  {| limits := limits s; open := open s; sealed := sealed s; resident_bytes := resident_bytes s;
     staging_bytes := staging_bytes s; access_sequence := access_sequence s; last_observed_at := Some t |}.

Definition with_limits (l : SegmentBuildLimits) : option SegmentBuilders :=
  if is_valid l then
    Some {| limits := l; open := ∅; sealed := []; resident_bytes := 0; staging_bytes := 0;
            access_sequence := 0; last_observed_at := None |}
  else None.

Definition SegmentBuilders_new (staging_capacity : Z) : option SegmentBuilders :=
  with_limits (limits_standard staging_capacity).

Definition usage (s : SegmentBuilders) : SegmentBuilderUsage :=
  {| us_open_builders := Z.of_nat (size (open s)); us_sealed_segments := Z.of_nat (length (sealed s));
     us_resident_bytes := resident_bytes s; us_staging_bytes := staging_bytes s;
     us_maximum_resident_bytes := maximum_estimated_resident_bytes (limits s);
     us_maximum_staging_bytes := maximum_staging_bytes (limits s) |}.

(** The entries of the map in the order of their keys. *)
Definition entries (o : gmap SegmentKey OpenSegment) : list (SegmentKey * OpenSegment) :=
  merge_sort (λ a b, key_le a.1 b.1) (map_to_list o).

Definition clock_moved_backwards (s : SegmentBuilders) (observed_at : Z) : bool :=
  match last_observed_at s with Some previous => observed_at <? previous | None => false end.

Definition next_expiration_in (s : SegmentBuilders) (observed_at : Z) : result SegmentBuildError (option Z) :=
  if clock_moved_backwards s observed_at then Err ClockMovedBackwards else
  try_fold (λ earliest builder,
      age ← ok_or (checked_duration_since observed_at (os_opened_at builder)) ClockMovedBackwards;
      let remaining := saturating_sub (maximum_open_duration (limits s)) age in
      Ok (Some (match earliest with Some current => Z.min current remaining | None => remaining end)))
    None (entries (open s)).*2.

Definition observe_time (observed_at : Z) : M unit := λ s,
  if clock_moved_backwards s observed_at then (Err ClockMovedBackwards, s)
  else (Ok tt, with_observed s observed_at).

Definition seal (key : SegmentKey) (reason : SealingReason) : M unit := λ s,
  match open s !! key with
  | None => (Err StateInconsistent, s)
  | Some builder =>
      let s := with_open s (delete key (open s)) in
      match OpenSegment_seal builder key reason with
      | Ok segment => (Ok tt, with_sealed s (sealed s ++ [segment]))
      | Err e => (Err e, s)
      end
  end.

(** The keys that [seal_expired_at] collects. *)
Definition is_expired (l : SegmentBuildLimits) (observed_at : Z) (builder : OpenSegment) : bool :=
  match checked_duration_since observed_at (os_opened_at builder) with
  | Some age => age >=? maximum_open_duration l
  | None => false
  end.

Definition expired_keys (s : SegmentBuilders) (observed_at : Z) : list SegmentKey :=
  (filter (λ e, is_expired (limits s) observed_at e.2 = true) (entries (open s))).*1.

Definition seal_keys (keys : list SegmentKey) (reason : SealingReason) : M Z :=
  count ← lift (ok_or (narrow U64 (Z.of_nat (length keys))) StateInconsistent);
  _ ← for_each (λ key, seal key reason) keys;
  mret count.

Definition seal_expired_at (observed_at : Z) : M Z :=
  s ← get; seal_keys (expired_keys s observed_at) MaximumAge.

Definition seal_all_with_reason (reason : SealingReason) : M Z :=
  s ← get; seal_keys (entries (open s)).*1 reason.

Definition seal_expired (observed_at : Z) : M Z :=
  _ ← observe_time observed_at; seal_expired_at observed_at.

Definition flush_all : M Z := seal_all_with_reason Flush.

(** [min_by_key]: the first entry of the least touch sequence and key. *)
Definition touched_before (a b : SegmentKey * OpenSegment) : bool :=
  (os_touched a.2 <? os_touched b.2)
  || ((os_touched a.2 =? os_touched b.2) && bool_decide (key_le a.1 b.1 ∧ a.1 ≠ b.1)).

Definition lru_key (o : gmap SegmentKey OpenSegment) : option SegmentKey :=
  fst <$> fold_left (λ best e, match best with
                               | None => Some e
                               | Some b => if touched_before e b then Some e else Some b
                               end) (entries o) None.

(** The builder of [key] is sealed first when the row would exceed its byte target. *)
Definition make_room_in_builder (key : SegmentKey) (planned : PlannedSegmentRow) : M unit :=
  s ← get;
  match open s !! key with
  | Some builder =>
      projected_bytes ← lift (add_bytes (os_uncompressed builder) (pr_uncompressed planned));
      if projected_bytes >? target_estimated_bytes (limits s) then seal key ByteTarget else mret tt
  | None => mret tt
  end.

(** The least recently used builder is sealed when a new one has no place. *)
Definition make_room_for_builder (key : SegmentKey) : M unit :=
  s ← get;
  if bool_decide (open s !! key = None) && (Z.of_nat (size (open s)) =? maximum_open_builders (limits s)) then
    lru ← lift (ok_or (lru_key (open s)) StateInconsistent);
    seal lru BuilderLimit
  else mret tt.

(** The row is added to its builder, and its bytes to the totals. *)
Definition add_row (key : SegmentKey) (segment_row : SegmentRow) (observed_at : Z) : M unit :=
  s ← get;
  sequence ← lift (ok_or (checked_add U64 (access_sequence s) 1) AccessSequenceExhausted);
  _ ← (λ s, (Ok tt, with_sequence s sequence)) : M unit;
  _ ← match open s !! key with
      | Some builder =>
          builder ← lift (OpenSegment_push builder segment_row sequence);
          (λ s, (Ok tt, with_open s (<[key := builder]> (open s)))) : M unit
      | None =>
          (λ s, (Ok tt, with_open s (<[key := OpenSegment_new segment_row observed_at sequence]> (open s)))) : M unit
      end;
  resident ← lift (add_bytes (resident_bytes s) (sr_resident segment_row));
  _ ← (λ s, (Ok tt, with_bytes s resident (staging_bytes s))) : M unit;
  staging ← lift (add_bytes (staging_bytes s) (sr_uncompressed segment_row));
  (λ s, (Ok tt, with_bytes s (resident_bytes s) staging)) : M unit.

(** A builder that has reached a target is sealed. *)
Definition seal_if_full (key : SegmentKey) : M unit :=
  s ← get;
  builder ← lift (ok_or (open s !! key) StateInconsistent);
  if Z.of_nat (length (os_rows builder)) >=? target_rows (limits s) then seal key RowTarget
  else if os_uncompressed builder >=? target_estimated_bytes (limits s) then seal key ByteTarget
  else mret tt.

Definition row_key (metadata : BatchMetadata) (planned : PlannedSegmentRow) : SegmentKey :=
  {| k_source_id := source_id (Frame.catalog metadata); k_schema_id := target_schema_id (Frame.catalog metadata);
     k_event_day := pr_event_day planned |}.

Definition segment_row (metadata : BatchMetadata) (row : AcceptedRow) (planned : PlannedSegmentRow) : SegmentRow :=
  {| sr_batch_id := batch_id metadata; sr_row := row;
     sr_uncompressed := pr_uncompressed planned; sr_resident := pr_resident planned |}.

Definition push_row (metadata : BatchMetadata) (row : AcceptedRow) (planned : PlannedSegmentRow)
    (observed_at : Z) : M unit :=
  let key := row_key metadata planned in
  _ ← make_room_in_builder key planned;
  _ ← make_room_for_builder key;
  _ ← add_row key (segment_row metadata row planned) observed_at;
  seal_if_full key.

(** The loop over the records of an accepted batch; [dead_letters] and [planned_rows] are
    its variables. *)
Fixpoint push_records (metadata : BatchMetadata) (observed_at : Z) (records : list NormalizedRecord)
    (dead_letters : list DeadLetterEntry) (planned_rows : list PlannedSegmentRow)
    : M (list DeadLetterEntry) :=
  match records with
  | [] => match planned_rows with [] => mret dead_letters | _ :: _ => lift (Err StateInconsistent) end
  | Accepted row :: records =>
      match planned_rows with
      | [] => lift (Err StateInconsistent)
      | planned :: planned_rows =>
          _ ← push_row metadata row planned observed_at;
          push_records metadata observed_at records dead_letters planned_rows
      end
  | DeadLetter entry :: records =>
      push_records metadata observed_at records (dead_letters ++ [entry]) planned_rows
  end.

Definition capacity_pressure (l : SegmentBuildLimits) (projected_resident projected_staging : Z)
    : option SegmentCapacity :=
  if projected_resident >? maximum_estimated_resident_bytes l then Some ResidentMemory
  else if projected_staging >? maximum_staging_bytes l then Some Staging
  else None.

(** [push_batch] after its rows are planned. *)
Definition place_batch (batch : NormalizedBatch) (row_plan : BatchRowPlan) (observed_at : Z)
    : M SegmentBuildOutcome :=
  s ← get;
  _ ← lift (check (total_resident row_plan <=? maximum_estimated_resident_bytes (limits s))
             (BatchExceedsCapacity ResidentMemory (total_resident row_plan)
                (maximum_estimated_resident_bytes (limits s))));
  _ ← lift (check (total_uncompressed row_plan <=? maximum_staging_bytes (limits s))
             (BatchExceedsCapacity Staging (total_uncompressed row_plan) (maximum_staging_bytes (limits s))));
  projected_resident ← lift (add_bytes (resident_bytes s) (total_resident row_plan));
  projected_staging ← lift (add_bytes (staging_bytes s) (total_uncompressed row_plan));
  match capacity_pressure (limits s) projected_resident projected_staging with
  | Some capacity =>
      _ ← seal_all_with_reason (CapacityPressure capacity);
      mret (BatchDeferred batch capacity)
  | None =>
      accepted_rows ← lift (ok_or (narrow U64 (Z.of_nat (length (plan_rows row_plan)))) AccessSequenceExhausted);
      _ ← lift (ok_or (checked_add U64 (access_sequence s) accepted_rows) AccessSequenceExhausted);
      dead_letters ← push_records (nb_metadata batch) observed_at (nb_records batch) [] (plan_rows row_plan);
      mret (BatchAccepted {| sb_metadata := nb_metadata batch; sb_dead_letters := dead_letters;
                             sb_ignored_records := nb_ignored_records batch |})
  end.

Definition push_batch (batch : NormalizedBatch) (observed_at : Z) : M SegmentBuildOutcome :=
  _ ← observe_time observed_at;
  _ ← seal_expired_at observed_at;
  row_plan ← lift (plan_batch_rows batch);
  place_batch batch row_plan observed_at.

Definition take_next_sealed : M (option SealedSegment) := λ s,
  match sealed s with
  | [] => (Ok None, s)
  | segment :: rest =>
      match checked_sub U64 (resident_bytes s) (ss_resident segment),
            checked_sub U64 (staging_bytes s) (ss_uncompressed segment) with
      | Some resident, Some staging => (Ok (Some segment), with_bytes (with_sealed s rest) resident staging)
      | _, _ => (Err StateInconsistent, s)
      end
  end.

End Segment.
