(* ===== verification/SegmentCorrect.v ===== *)
(** * Segment builders: accounting, conservation and progress

    The builders of Segment hold every accepted row exactly once until its sealed
    segment is taken, their byte totals are the sums over the rows they hold, the limits
    are never exceeded, and no operation finds them inconsistent. A batch that is
    deferred for capacity is accepted after the sealed segments are drained, and the time
    to the next expiration is exact. *)

From S2P Require Import Prelude Core CatalogTypes Bytes Frame Json Normalization Segment.

#[local] Open Scope Z_scope.

(** ** Orders *)

#[export] Instance row_le_total `{SegmentLayout} : Total row_le.
Proof.
  intros a b. unfold row_le. rewrite (Z.compare_antisym (ar_event_time (sr_row a))).
  rewrite (EventId.compare_antisym (ar_event_id (sr_row a))).
  destruct (_ ?= _); simpl; [|by left|by right]. destruct (EventId.compare _ _); simpl; naive_solver.
Qed.

#[export] Instance row_le_trans `{SegmentLayout} : Transitive row_le.
Proof.
  intros a b c. unfold row_le.
  destruct (Z.compare_spec (ar_event_time (sr_row a)) (ar_event_time (sr_row b))) as [E1|E1|E1],
    (Z.compare_spec (ar_event_time (sr_row b)) (ar_event_time (sr_row c))) as [E2|E2|E2],
    (Z.compare_spec (ar_event_time (sr_row a)) (ar_event_time (sr_row c))) as [E3|E3|E3]; try done; try lia.
  set (x := ar_event_id (sr_row a)). set (y := ar_event_id (sr_row b)). set (z := ar_event_id (sr_row c)).
  intros Hxy Hyz.
  destruct (EventId.compare x y) eqn:Exy; [| |done].
  - apply EventId.compare_eq in Exy as ->. done.
  - destruct (EventId.compare y z) eqn:Eyz; [| |done].
    + apply EventId.compare_eq in Eyz as <-. by rewrite Exy.
    + by rewrite (EventId.compare_lt_trans x y z).
Qed.

Lemma fold_min_spec (l : list Z) a :
  fold_left Z.min l a ∈ a :: l ∧ ∀ x, x ∈ a :: l → fold_left Z.min l a ≤ x.
Proof.
  revert a; induction l as [|y l IH]; intros a; cbn [fold_left]; [set_solver by lia|].
  destruct (IH (Z.min a y)) as [Hin Hle]. split.
  - destruct (Z.min_spec a y) as [[_ E]|[_ E]]; rewrite E in Hin |- *; set_solver.
  - pose proof (Hle (Z.min a y) ltac:(set_solver)).
    intros x [-> |[-> |Hx]%elem_of_cons]%elem_of_cons; [lia..|]. apply Hle. set_solver.
Qed.

Lemma fold_max_spec (l : list Z) a :
  fold_left Z.max l a ∈ a :: l ∧ ∀ x, x ∈ a :: l → x ≤ fold_left Z.max l a.
Proof.
  revert a; induction l as [|y l IH]; intros a; cbn [fold_left]; [set_solver by lia|].
  destruct (IH (Z.max a y)) as [Hin Hle]. split.
  - destruct (Z.max_spec a y) as [[_ E]|[_ E]]; rewrite E in Hin |- *; set_solver.
  - pose proof (Hle (Z.max a y) ltac:(set_solver)).
    intros x [-> |[-> |Hx]%elem_of_cons]%elem_of_cons; [lia..|]. apply Hle. set_solver.
Qed.

Lemma StronglySorted_last {A} (R : relation A) `{!Reflexive R} (l : list A) x y :
  StronglySorted R l → last l = Some y → x ∈ l → R x y.
Proof.
  induction l as [|z l IH]; [done|]. intros Hs Hl Hx. inversion Hs as [|? ? Hs' Hz]; subst.
  destruct l as [|w l].
  - cbn in Hl. injection Hl as <-. assert (x = z) as -> by set_solver. reflexivity.
  - rewrite last_cons_cons in Hl. apply elem_of_cons in Hx as [-> |Hx]; [|by apply IH].
    rewrite Forall_forall in Hz. apply Hz. by apply last_Some_elem_of.
Qed.

Section Segment.
Context {env : SpoolEnv} {lib : JsonLib} {layout : SegmentLayout}.

Lemma row_le_event_time a b : row_le a b → ar_event_time (sr_row a) ≤ ar_event_time (sr_row b).
Proof.
  unfold row_le. destruct (Z.compare_spec (ar_event_time (sr_row a)) (ar_event_time (sr_row b))); [lia..|done].
Qed.

#[local] Instance row_le_refl : Reflexive row_le.
Proof. intros a. destruct (total row_le a a); done. Qed.

(** ** What the builders hold *)

Notation uncompressed_of rows := (sum_Z (sr_uncompressed <$> rows)).
Notation resident_of rows := (sum_Z (sr_resident <$> rows)).

Definition segment_entries (seg : SealedSegment) : list (SegmentKey * SegmentRow) := pair (ss_key seg) <$> ss_rows seg.
Definition builder_entries (e : SegmentKey * OpenSegment) : list (SegmentKey * SegmentRow) := pair e.1 <$> os_rows e.2.
Definition sealed_entries (q : list SealedSegment) : list (SegmentKey * SegmentRow) := q ≫= segment_entries.
Definition open_entries (o : gmap SegmentKey OpenSegment) : list (SegmentKey * SegmentRow) :=
  map_to_list o ≫= builder_entries.

(** Every row the builders hold, with the key of its builder. *)
Definition held (s : SegmentBuilders) : list (SegmentKey * SegmentRow) := sealed_entries (sealed s) ++ open_entries (open s).

(** ** Invariants *)

(** Neither target is exceeded, but by a single row that alone exceeds the byte target. *)
Definition within_targets (l : SegmentBuildLimits) (rows : list SegmentRow) : Prop :=
  Z.of_nat (length rows) ≤ target_rows l ∧
  (uncompressed_of rows ≤ target_estimated_bytes l ∨ length rows = 1%nat).

Record segment_ok (l : SegmentBuildLimits) (seg : SealedSegment) : Prop := {
  sk_nonempty : ss_rows seg ≠ [];
  sk_uncompressed : ss_uncompressed seg = uncompressed_of (ss_rows seg);
  sk_resident : ss_resident seg = resident_of (ss_rows seg);
  sk_targets : within_targets l (ss_rows seg);
  sk_sorted : StronglySorted row_le (ss_rows seg);
  sk_event_times r : r ∈ ss_rows seg →
    minimum_event_time (ss_bounds seg) ≤ ar_event_time (sr_row r) ≤ maximum_event_time (ss_bounds seg);
  sk_event_attained : ∃ first last, first ∈ ss_rows seg ∧ last ∈ ss_rows seg ∧
    ar_event_time (sr_row first) = minimum_event_time (ss_bounds seg) ∧
    ar_event_time (sr_row last) = maximum_event_time (ss_bounds seg);
  sk_ingestion_times r : r ∈ ss_rows seg →
    minimum_ingestion_time (ss_bounds seg) ≤ ar_ingestion_time (sr_row r) ≤ maximum_ingestion_time (ss_bounds seg);
  sk_ingestion_attained : ∃ first last, first ∈ ss_rows seg ∧ last ∈ ss_rows seg ∧
    ar_ingestion_time (sr_row first) = minimum_ingestion_time (ss_bounds seg) ∧
    ar_ingestion_time (sr_row last) = maximum_ingestion_time (ss_bounds seg);
}.

Record builder_ok (s : SegmentBuilders) (b : OpenSegment) : Prop := {
  bk_nonempty : os_rows b ≠ [];
  bk_uncompressed : os_uncompressed b = uncompressed_of (os_rows b);
  bk_resident : os_resident b = resident_of (os_rows b);
  bk_targets : within_targets (limits s) (os_rows b);
  bk_touched : os_touched b ≤ access_sequence s;
  bk_opened : ∃ t, last_observed_at s = Some t ∧ os_opened_at b ≤ t;
}.

(** A builder that still has place for a row and is below its byte target. *)
Definition not_full (l : SegmentBuildLimits) (b : OpenSegment) : Prop :=
  Z.of_nat (length (os_rows b)) < target_rows l ∧ os_uncompressed b < target_estimated_bytes l.

(** A held row carries the estimates of its content and is filed under its event day. *)
Definition row_ok (e : SegmentKey * SegmentRow) : Prop :=
  estimate_row (sr_row e.2) = Ok (sr_uncompressed e.2, sr_resident e.2) ∧
  k_event_day e.1 = event_day (sr_row e.2) ∧ 0 ≤ sr_uncompressed e.2 ∧ 0 ≤ sr_resident e.2.

Record limits_ok (l : SegmentBuildLimits) : Prop := {
  lk_valid : is_valid l = true;
  lk_duration : 0 ≤ maximum_open_duration l;
  lk_open : fits U64 (maximum_open_builders l) = true;
  lk_resident : fits U64 (maximum_estimated_resident_bytes l) = true;
  lk_staging : fits U64 (maximum_staging_bytes l) = true;
}.

Record wf (s : SegmentBuilders) : Prop := {
  wf_limits : limits_ok (limits s);
  wf_builders k b : open s !! k = Some b → builder_ok s b;
  wf_sealed : Forall (segment_ok (limits s)) (sealed s);
  wf_rows : Forall row_ok (held s);
  wf_resident : resident_bytes s = resident_of (held s).*2;
  wf_staging : staging_bytes s = uncompressed_of (held s).*2;
  wf_resident_max : resident_bytes s ≤ maximum_estimated_resident_bytes (limits s);
  wf_staging_max : staging_bytes s ≤ maximum_staging_bytes (limits s);
  wf_open_max : Z.of_nat (size (open s)) ≤ maximum_open_builders (limits s);
  wf_sequence : fits U64 (access_sequence s) = true;
  wf_touched k1 k2 b1 b2 : open s !! k1 = Some b1 → open s !! k2 = Some b2 → os_touched b1 = os_touched b2 → k1 = k2;
}.

Definition roomy (s : SegmentBuilders) : Prop := ∀ k b, open s !! k = Some b → not_full (limits s) b.

(** ** Held rows *)

Lemma open_entries_delete o k b :
  o !! k = Some b → open_entries o ≡ₚ builder_entries (k, b) ++ open_entries (delete k o).
Proof. intros Hk. unfold open_entries. by rewrite <- (map_to_list_delete o k b Hk). Qed.

Lemma open_entries_insert o k b :
  o !! k = None → open_entries (<[k := b]> o) ≡ₚ builder_entries (k, b) ++ open_entries o.
Proof. intros Hk. unfold open_entries. by rewrite map_to_list_insert. Qed.

Lemma open_entries_update o k b b' r :
  o !! k = Some b → os_rows b' = os_rows b ++ [r] → open_entries (<[k := b']> o) ≡ₚ (k, r) :: open_entries o.
Proof.
  intros Hk Hr. rewrite <- insert_delete_eq, open_entries_insert by apply lookup_delete_eq.
  rewrite (open_entries_delete o k b Hk). unfold builder_entries. cbn [fst snd]. rewrite Hr, fmap_app. cbn.
  rewrite <- app_assoc. symmetry. apply Permutation_middle.
Qed.

Lemma builder_entries_snd e : (builder_entries e).*2 = os_rows e.2.
Proof. unfold builder_entries. rewrite <- list_fmap_compose. by apply list_fmap_id. Qed.

Lemma segment_entries_snd seg : (segment_entries seg).*2 = ss_rows seg.
Proof. unfold segment_entries. rewrite <- list_fmap_compose. by apply list_fmap_id. Qed.

(** ** Sealing a builder *)

Lemma OpenSegment_seal_ok s b k reason :
  builder_ok s b →
  ∃ seg, OpenSegment_seal b k reason = Ok seg ∧ segment_ok (limits s) seg ∧
    ss_key seg = k ∧ ss_reason seg = reason ∧ ss_rows seg ≡ₚ os_rows b.
Proof.
  intros Hb. destruct Hb as [Hne Hu Hr Ht _ _].
  assert (Hp : merge_sort row_le (os_rows b) ≡ₚ os_rows b) by apply merge_sort_Permutation.
  assert (Hs : StronglySorted row_le (merge_sort row_le (os_rows b))) by (apply StronglySorted_merge_sort; apply _).
  unfold OpenSegment_seal.
  assert (length (os_rows b) ≠ 0%nat) as Hlen by (by destruct (os_rows b)).
  rewrite bool_decide_eq_false_2 by done. cbn [negb check mbind result_bind].
  destruct (merge_sort row_le (os_rows b)) as [|first rest] eqn:E.
  { apply Permutation_length in Hp. cbn in Hp. lia. }
  destruct (last (first :: rest)) as [final|] eqn:El; [|by apply last_None in El].
  cbn -[last fold_left]. eexists. split; [done|]. cbn -[last fold_left]. split; [|done].
  set (times := (ar_ingestion_time ∘ sr_row) <$> rest).
  assert (Htimes : (ar_ingestion_time ∘ sr_row) <$> drop 0 rest = times) by done.
  assert (Hin : ∀ z, z ∈ ar_ingestion_time (sr_row first) :: times ↔
                     ∃ r, r ∈ first :: rest ∧ ar_ingestion_time (sr_row r) = z).
  { intros z. change (z ∈ (ar_ingestion_time ∘ sr_row) <$> (first :: rest) ↔ ∃ r, r ∈ first :: rest ∧ ar_ingestion_time (sr_row r) = z). rewrite list_elem_of_fmap. cbn. naive_solver. }
  pose proof (fold_min_spec times (ar_ingestion_time (sr_row first))) as [Hmin Hmin'].
  pose proof (fold_max_spec times (ar_ingestion_time (sr_row first))) as [Hmax Hmax'].
  assert (final ∈ first :: rest) by (by apply last_Some_elem_of).
  constructor; cbn [ss_rows ss_uncompressed ss_resident ss_bounds minimum_event_time maximum_event_time
                    minimum_ingestion_time maximum_ingestion_time]; rewrite ?Htimes.
  - done.
  - by rewrite Hp.
  - by rewrite Hp.
  - unfold within_targets. by rewrite Hp.
  - done.
  - intros r Hx. split; [|by apply row_le_event_time, (StronglySorted_last row_le (first :: rest))].
    apply elem_of_cons in Hx as [-> |Hx]; [done|]. apply row_le_event_time.
    inversion Hs as [|? ? _ Hf]; subst. rewrite Forall_forall in Hf. by apply Hf.
  - exists first, final. set_solver.
  - intros r Hx. split; [apply Hmin' | apply Hmax']; apply Hin; eauto.
  - apply Hin in Hmin as (r1 & ? & ?), Hmax as (r2 & ? & ?). eauto 10.
Qed.

(** Builders are moved to the queue; nothing else changes. *)
Record seals (s s' : SegmentBuilders) : Prop := {
  se_limits : limits s' = limits s;
  se_resident : resident_bytes s' = resident_bytes s;
  se_staging : staging_bytes s' = staging_bytes s;
  se_sequence : access_sequence s' = access_sequence s;
  se_observed : last_observed_at s' = last_observed_at s;
  se_open : open s' ⊆ open s;
  se_held : held s' ≡ₚ held s;
  se_sealed : ∃ q, sealed s' = sealed s ++ q ∧ Forall (segment_ok (limits s)) q;
}.

#[local] Instance seals_preorder : PreOrder seals.
Proof.
  split.
  - intros s. constructor; try done. exists []. by rewrite app_nil_r.
  - intros s1 s2 s3 [A1 A2 A3 A4 A5 A6 A7 (q & A8 & A9)] [B1 B2 B3 B4 B5 B6 B7 (q' & B8 & B9)].
    constructor; try congruence; [by etrans | by etrans |].
    exists (q ++ q'). rewrite B8, A8, app_assoc. split; [done|]. apply Forall_app. by rewrite <- A1 at 2.
Qed.

Lemma seals_lookup s s' k b : seals s s' → open s' !! k = Some b → open s !! k = Some b.
Proof. intros Hs Hk. by eapply lookup_weaken; [|apply (se_open _ _ Hs)]. Qed.

Lemma seals_builder_ok s s' b : seals s s' → builder_ok s b → builder_ok s' b.
Proof. intros [] []. constructor; rewrite ?se_limits0, ?se_sequence0, ?se_observed0; done. Qed.

Lemma seals_wf s s' : seals s s' → wf s → wf s'.
Proof.
  intros Hs Hw. pose proof Hs as [El Er Et Eq Eo Ho Hh (q & Hq & Hqs)]. destruct Hw.
  constructor; rewrite ?El, ?Er, ?Et, ?Eq, ?Hh; try done.
  - intros k b Hk. eapply seals_builder_ok; [done|]. eapply wf_builders0, seals_lookup; done.
  - rewrite Hq. by apply Forall_app.
  - assert (size (open s') ≤ size (open s))%nat by (by apply map_size_mono || by apply map_subseteq_size). lia.
  - intros k1 k2 b1 b2 H1 H2. by eapply wf_touched0; eapply seals_lookup.
Qed.

Lemma seals_roomy s s' : seals s s' → roomy s → roomy s'.
Proof. intros Hs Hr k b Hk. rewrite (se_limits _ _ Hs). eapply Hr, seals_lookup; done. Qed.

Lemma seal_spec s k b reason :
  wf s → open s !! k = Some b →
  ∃ s', seal k reason s = (Ok tt, s') ∧ seals s s' ∧ open s' = delete k (open s).
Proof.
  intros Hw Hk. unfold seal. rewrite Hk.
  destruct (OpenSegment_seal_ok s b k reason (wf_builders _ Hw k b Hk)) as (seg & -> & Hseg & Hsk & _ & Hp).
  eexists. split; [done|]. split; [|done]. constructor; cbn; try done.
  - apply delete_subseteq.
  - unfold held. cbn. unfold sealed_entries. rewrite bind_app, <- app_assoc. f_equiv.
    rewrite (open_entries_delete _ _ _ Hk). f_equiv. cbn. rewrite app_nil_r.
    unfold segment_entries, builder_entries. cbn. by rewrite Hsk, Hp.
  - exists [seg]. auto.
Qed.

(** ** The entries of the map *)

Lemma elem_of_entries o k b : (k, b) ∈ entries o ↔ o !! k = Some b.
Proof. unfold entries. by rewrite merge_sort_Permutation, elem_of_map_to_list. Qed.

Lemma entries_NoDup o : NoDup (entries o).*1.
Proof. unfold entries. rewrite merge_sort_Permutation. apply NoDup_fst_map_to_list. Qed.

Lemma length_entries o : length (entries o) = size o.
Proof. unfold entries. by rewrite merge_sort_Permutation, length_map_to_list. Qed.

Lemma seal_keys_spec s keys reason :
  wf s → NoDup keys → (∀ k, k ∈ keys → is_Some (open s !! k)) →
  ∃ s', seal_keys keys reason s = (Ok (Z.of_nat (length keys)), s') ∧ seals s s' ∧
    ∀ k, open s' !! k = if decide (k ∈ keys) then None else open s !! k.
Proof.
  intros Hw Hnd Hin.
  assert (Hloop : ∀ keys s, wf s → NoDup keys → (∀ k, k ∈ keys → is_Some (open s !! k)) →
    ∃ s', for_each (λ key, seal key reason) keys s = (Ok tt, s') ∧ seals s s' ∧
      ∀ k, open s' !! k = if decide (k ∈ keys) then None else open s !! k).
  { clear s keys Hw Hnd Hin. induction keys as [|k keys IH]; intros s Hw Hnd Hin.
    - exists s. split; [done|]. split; [done|]. intros k. by rewrite decide_False by set_solver.
    - apply NoDup_cons in Hnd as [Hk Hnd]. destruct (Hin k ltac:(set_solver)) as [b Hb].
      destruct (seal_spec s k b reason Hw Hb) as (s1 & E1 & Hs1 & Ho1).
      destruct (IH s1) as (s2 & E2 & Hs2 & Ho2); [by eapply seals_wf | done | |].
      { intros k' Hk'. rewrite Ho1, lookup_delete_ne by set_solver. apply Hin. set_solver. }
      exists s2. split; [|split; [by etrans|]].
      + cbn [for_each]. unfold mbind, M_bind. by rewrite E1.
      + intros k'. rewrite Ho2, Ho1. destruct (decide (k' = k)) as [-> |Hne].
        * rewrite decide_False by done. rewrite decide_True by set_solver. by rewrite lookup_delete_eq.
        * rewrite lookup_delete_ne by done. destruct (decide (k' ∈ keys)); [rewrite decide_True by set_solver; done|].
          by rewrite decide_False by set_solver. }
  destruct (Hloop keys s Hw Hnd Hin) as (s' & E & Hs & Ho). exists s'. split; [|done].
  unfold seal_keys, mbind, M_bind, lift.
  assert (narrow U64 (Z.of_nat (length keys)) = Some (Z.of_nat (length keys))) as ->.
  { apply narrow_ok. pose proof (wf_open_max _ Hw). pose proof (proj1 (fits_spec _ _) (lk_open _ (wf_limits _ Hw))).
    assert (length keys ≤ size (open s))%nat; [|int_lia].
    rewrite <- size_dom, <- (size_list_to_set (C := gset SegmentKey) keys Hnd). apply subseteq_size.
    intros k Hk%elem_of_list_to_set. apply elem_of_dom, Hin, Hk. }
  cbn. by rewrite E.
Qed.

Lemma seal_all_spec s reason :
  wf s →
  ∃ s', seal_all_with_reason reason s = (Ok (Z.of_nat (size (open s))), s') ∧ seals s s' ∧ open s' = ∅.
Proof.
  intros Hw. destruct (seal_keys_spec s (entries (open s)).*1 reason Hw (entries_NoDup _)) as (s' & E & Hs & Ho).
  { intros k ([k' b] & -> & Hb)%list_elem_of_fmap. apply elem_of_entries in Hb. eauto. }
  rewrite length_fmap, length_entries in E. exists s'. split; [done|]. split; [done|].
  apply map_eq. intros k. rewrite Ho, lookup_empty. destruct (decide _) as [|Hn]; [done|].
  destruct (open s !! k) as [b|] eqn:Hk; [|done]. destruct Hn. apply elem_of_entries in Hk.
  apply list_elem_of_fmap. by exists (k, b).
Qed.

(** The age of a builder; no builder was opened after the last observation. *)
Definition expired (s : SegmentBuilders) (t : Z) (b : OpenSegment) : Prop :=
  maximum_open_duration (limits s) ≤ t - os_opened_at b.

#[local] Instance expired_dec s t b : Decision (expired s t b).
Proof. unfold expired. apply _. Defined.

Lemma is_expired_spec s t b :
  wf s → is_expired (limits s) t b = true ↔ expired s t b.
Proof.
  intros Hw. unfold is_expired, expired, checked_duration_since.
  pose proof (lk_duration _ (wf_limits _ Hw)).
  pose proof (lk_valid _ (wf_limits _ Hw)) as Hv. unfold is_valid in Hv. inv_ok.
  destruct (Z.ltb_spec t (os_opened_at b)); [|destruct (Z.geb_spec (t - os_opened_at b) (maximum_open_duration (limits s)))];
    split; try done; try lia.
Qed.

Lemma seal_expired_at_spec s t :
  wf s →
  ∃ n s', seal_expired_at t s = (Ok n, s') ∧ seals s s' ∧
    n = Z.of_nat (length (expired_keys s t)) ∧
    (∀ k, k ∈ expired_keys s t ↔ ∃ b, open s !! k = Some b ∧ expired s t b) ∧
    (∀ k b, open s' !! k = Some b ↔ open s !! k = Some b ∧ ¬ expired s t b).
Proof.
  intros Hw.
  assert (Hin : ∀ k, k ∈ expired_keys s t ↔ ∃ b, open s !! k = Some b ∧ expired s t b).
  { intros k. unfold expired_keys. rewrite list_elem_of_fmap. split.
    - intros ([k' b] & -> & [Hx He]%list_elem_of_filter). apply elem_of_entries in He.
      apply is_expired_spec in Hx; [|done]. by exists b.
    - intros (b & Hk & Hx). exists (k, b). split; [done|]. apply list_elem_of_filter.
      split; [by apply is_expired_spec | by apply elem_of_entries]. }
  destruct (seal_keys_spec s (expired_keys s t) MaximumAge Hw) as (s' & E & Hs & Ho).
  { eapply sublist_NoDup; [apply entries_NoDup|]. apply fmap_sublist, sublist_filter. }
  { intros k (b & Hk & _)%Hin. eauto. }
  exists (Z.of_nat (length (expired_keys s t))), s'. split; [done|]. split; [done|]. split; [done|]. split; [done|].
  intros k b. rewrite Ho. destruct (decide _) as [(b' & Hk & Hx)%Hin|Hn].
  - split; [done|]. intros [Hb Hnx]. by simplify_eq.
  - split; [|naive_solver]. intros Hk. split; [done|]. intros Hx. apply Hn, Hin. eauto.
Qed.

Lemma observe_wf s t : wf s → clock_moved_backwards s t = false → wf (with_observed s t).
Proof.
  intros Hw Hc. destruct Hw. constructor; try done. intros k b Hk.
  destruct (wf_builders0 k b Hk) as [? ? ? ? ? (t0 & Ht0 & ?)]. constructor; try done.
  exists t. split; [done|]. unfold clock_moved_backwards in Hc. rewrite Ht0 in Hc. lia.
Qed.

Lemma seal_expired_spec s t :
  wf s → clock_moved_backwards s t = false →
  ∃ n s', seal_expired t s = (Ok n, s') ∧ seals (with_observed s t) s' ∧
    n = Z.of_nat (length (expired_keys s t)) ∧
    (∀ k, k ∈ expired_keys s t ↔ ∃ b, open s !! k = Some b ∧ expired s t b) ∧
    (∀ k b, open s' !! k = Some b ↔ open s !! k = Some b ∧ ¬ expired s t b).
Proof.
  intros Hw Hc. unfold seal_expired, observe_time, mbind, M_bind. rewrite Hc.
  exact (seal_expired_at_spec (with_observed s t) t (observe_wf s t Hw Hc)).
Qed.

(** ** Taking a sealed segment *)

Lemma take_spec s seg rest :
  wf s → sealed s = seg :: rest →
  ∃ s', take_next_sealed s = (Ok (Some seg), s') ∧ wf s' ∧ segment_ok (limits s) seg ∧
    held s = segment_entries seg ++ held s' ∧ sealed s' = rest ∧ open s' = open s ∧ limits s' = limits s ∧
    access_sequence s' = access_sequence s ∧ last_observed_at s' = last_observed_at s.
Proof.
  intros Hw Hq. pose proof Hw as [Hl Hb Hse Hro Hre Hst Hrm Hsm Hom Hsq Hto].
  assert (Hheld : held s = segment_entries seg ++ sealed_entries rest ++ open_entries (open s)).
  { unfold held. rewrite Hq. unfold sealed_entries. cbn. by rewrite <- app_assoc. }
  rewrite Hq in Hse. apply Forall_cons in Hse as [Hseg Hse].
  rewrite Hheld in Hro. apply Forall_app in Hro as [Hr1 Hr2].
  set (after := sealed_entries rest ++ open_entries (open s)) in *.
  assert (Hsum : resident_bytes s = ss_resident seg + resident_of after.*2 ∧
                 staging_bytes s = ss_uncompressed seg + uncompressed_of after.*2).
  { rewrite Hre, Hst, Hheld, (sk_resident _ _ Hseg), (sk_uncompressed _ _ Hseg), !fmap_app, !sum_Z_app,
      segment_entries_snd. done. }
  assert (Hnn : ∀ l, Forall row_ok l → 0 ≤ resident_of l.*2 ∧ 0 ≤ uncompressed_of l.*2).
  { intros l Hl'. rewrite Forall_forall in Hl'.
    split; apply sum_Z_nonneg; intros r (e & -> & He)%list_elem_of_fmap; apply Hl' in He; apply He. }
  pose proof (Hnn _ Hr1) as H1. rewrite segment_entries_snd, <- (sk_resident _ _ Hseg), <- (sk_uncompressed _ _ Hseg) in H1.
  pose proof (Hnn _ Hr2) as H2.
  pose proof (proj1 (fits_spec _ _) (lk_resident _ Hl)). pose proof (proj1 (fits_spec _ _) (lk_staging _ Hl)).
  unfold take_next_sealed. rewrite Hq. unfold checked_sub. rewrite !narrow_ok by int_lia.
  eexists. split; [done|]. split; [|split; [done|]; split; [done|]; done].
  assert (Hh : held (with_bytes (with_sealed s rest) (resident_bytes s - ss_resident seg)
                       (staging_bytes s - ss_uncompressed seg)) = after) by done.
  constructor; rewrite ?Hh; cbn [limits open sealed resident_bytes staging_bytes access_sequence with_bytes with_sealed];
    try done; try lia.
  intros k b Hk. destruct (Hb k b Hk). by constructor.
Qed.

(** ** Adding a row *)

Lemma lru_key_spec o :
  o ≠ ∅ → ∃ k b, lru_key o = Some k ∧ o !! k = Some b ∧ ∀ k' b', o !! k' = Some b' → os_touched b ≤ os_touched b'.
Proof.
  intros Hne. unfold lru_key.
  assert (Hfold : ∀ l best, ∃ e,
    fold_left (λ best e, match best with
                         | None => Some e
                         | Some b => if touched_before e b then Some e else Some b
                         end) l (Some best) = Some e ∧
    e ∈ best :: l ∧ ∀ e', e' ∈ best :: l → os_touched e.2 ≤ os_touched e'.2).
  { induction l as [|x l IH]; intros best; cbn [fold_left]; [exists best; set_solver by lia|].
    destruct (touched_before x best) eqn:Hx;
      [destruct (IH x) as (e & -> & Hin & Hle) | destruct (IH best) as (e & -> & Hin & Hle)];
      exists e; (split; [done|]; split; [set_solver|]);
      intros e' [-> |[-> |He']%elem_of_cons]%elem_of_cons; try (apply Hle; set_solver).
    - pose proof (Hle x ltac:(set_solver)). unfold touched_before in Hx.
      apply orb_true_iff in Hx as [Hx|Hx]; [|apply andb_true_iff in Hx as [Hx _]]; lia.
    - pose proof (Hle best ltac:(set_solver)). unfold touched_before in Hx.
      apply orb_false_iff in Hx as [Hx _]. lia. }
  destruct (entries o) as [|e l] eqn:E.
  { destruct Hne. apply map_empty. intros k. destruct (o !! k) as [b|] eqn:Hk; [|done].
    apply elem_of_entries in Hk. rewrite E in Hk. set_solver. }
  cbn [fold_left]. destruct (Hfold l e) as ([k b] & -> & Hin & Hle). exists k, b. split; [done|].
  rewrite <- E in *. split; [by apply elem_of_entries|]. intros k' b' Hk'. apply elem_of_entries in Hk'. apply (Hle _ Hk').
Qed.

Lemma row_ok_sums l : Forall row_ok l → 0 ≤ resident_of l.*2 ∧ 0 ≤ uncompressed_of l.*2.
Proof.
  intros Hl. rewrite Forall_forall in Hl.
  split; apply sum_Z_nonneg; intros r (e & -> & He)%list_elem_of_fmap; apply Hl in He; apply He.
Qed.

Lemma builder_bytes s k b :
  wf s → open s !! k = Some b → os_uncompressed b ≤ staging_bytes s ∧ os_resident b ≤ resident_bytes s.
Proof.
  intros Hw Hk. pose proof (wf_builders _ Hw k b Hk) as Hb.
  assert (Hh : held s ≡ₚ builder_entries (k, b) ++ sealed_entries (sealed s) ++ open_entries (delete k (open s))).
  { unfold held. rewrite (open_entries_delete _ _ _ Hk). apply Permutation_app_swap_app. }
  pose proof (wf_rows _ Hw) as Hr. rewrite Hh in Hr. apply Forall_app in Hr as [_ Hr]. apply row_ok_sums in Hr.
  rewrite (wf_staging _ Hw), (wf_resident _ Hw), Hh, (bk_uncompressed _ _ Hb), (bk_resident _ _ Hb), !fmap_app,
    !sum_Z_app, builder_entries_snd. rewrite !fmap_app, !sum_Z_app in Hr. cbn [snd]. lia.
Qed.

Lemma staging_u64 s : wf s → maximum_staging_bytes (limits s) ≤ int_max U64 ∧ 0 ≤ staging_bytes s.
Proof.
  intros Hw. pose proof (proj1 (fits_spec _ _) (lk_staging _ (wf_limits _ Hw))).
  pose proof (row_ok_sums _ (wf_rows _ Hw)). rewrite (wf_staging _ Hw). lia.
Qed.

Lemma resident_u64 s : wf s → maximum_estimated_resident_bytes (limits s) ≤ int_max U64 ∧ 0 ≤ resident_bytes s.
Proof.
  intros Hw. pose proof (proj1 (fits_spec _ _) (lk_resident _ (wf_limits _ Hw))).
  pose proof (row_ok_sums _ (wf_rows _ Hw)). rewrite (wf_resident _ Hw). lia.
Qed.

Lemma builder_nonneg s k b : wf s → open s !! k = Some b → 0 ≤ os_uncompressed b ∧ 0 ≤ os_resident b.
Proof.
  intros Hw Hk. pose proof (wf_builders _ Hw k b Hk) as Hb.
  pose proof (wf_rows _ Hw) as Hr. unfold held in Hr. rewrite (open_entries_delete _ _ _ Hk) in Hr.
  rewrite !Forall_app in Hr. destruct Hr as (_ & Hr & _). apply row_ok_sums in Hr. rewrite builder_entries_snd in Hr.
  rewrite (bk_uncompressed _ _ Hb), (bk_resident _ _ Hb). cbn [snd] in Hr. lia.
Qed.

Lemma add_bytes_ok a b : 0 ≤ a + b ≤ int_max U64 → add_bytes a b = Ok (a + b).
Proof. intros ?. unfold add_bytes, checked_add. by rewrite narrow_ok. Qed.

Lemma make_room_in_builder_spec s k planned :
  wf s → 0 ≤ pr_uncompressed planned → staging_bytes s + pr_uncompressed planned ≤ maximum_staging_bytes (limits s) →
  ∃ s', make_room_in_builder k planned s = (Ok tt, s') ∧ seals s s' ∧
    ∀ b, open s' !! k = Some b → os_uncompressed b + pr_uncompressed planned ≤ target_estimated_bytes (limits s).
Proof.
  intros Hw Hp Hcap. unfold make_room_in_builder, mbind, M_bind, get.
  destruct (open s !! k) as [b|] eqn:Hk; [|exists s; split; [done|]; split; [done|]; congruence].
  pose proof (builder_bytes s k b Hw Hk). pose proof (builder_nonneg s k b Hw Hk). pose proof (staging_u64 s Hw).
  unfold lift. rewrite add_bytes_ok by lia. cbv iota beta.
  destruct (Z.gtb_spec (os_uncompressed b + pr_uncompressed planned) (target_estimated_bytes (limits s))).
  - destruct (seal_spec s k b ByteTarget Hw Hk) as (s' & E & Hs & Ho). exists s'. split; [done|]. split; [done|].
    intros b'. by rewrite Ho, lookup_delete_eq.
  - exists s. split; [done|]. split; [done|]. intros b' Hb'. rewrite Hk in Hb'. injection Hb' as <-. lia.
Qed.

Lemma make_room_for_builder_spec s k :
  wf s →
  ∃ s', make_room_for_builder k s = (Ok tt, s') ∧ seals s s' ∧ (is_Some (open s !! k) → s' = s) ∧
    (open s' !! k = None → Z.of_nat (size (open s')) < maximum_open_builders (limits s)).
Proof.
  intros Hw. unfold make_room_for_builder, mbind, M_bind, get. pose proof (wf_open_max _ Hw) as Hmax.
  destruct (open s !! k) as [b|] eqn:Hk.
  { rewrite bool_decide_eq_false_2 by done. exists s. split; [done|]. split; [done|]. split; [done|]. congruence. }
  rewrite bool_decide_eq_true_2 by done. cbn [andb].
  destruct (Z.eqb_spec (Z.of_nat (size (open s))) (maximum_open_builders (limits s))) as [E|E];
    [|exists s; split; [done|]; split; [done|]; split; [by intros []|]; lia].
  pose proof (lk_valid _ (wf_limits _ Hw)) as Hv. unfold is_valid in Hv. inv_ok.
  destruct (lru_key_spec (open s)) as (k' & b & -> & Hb & _).
  { intros Ho. rewrite Ho, map_size_empty in E. lia. }
  destruct (seal_spec s k' b BuilderLimit Hw Hb) as (s' & Es & Hs & Ho). exists s'. split; [done|]. split; [done|].
  split; [by intros []|]. intros _. rewrite Ho, map_size_delete, Hb. cbn.
  destruct (size (open s)); lia.
Qed.

Lemma add_row_spec s k r t :
  wf s → roomy s → row_ok (k, r) → last_observed_at s = Some t →
  resident_bytes s + sr_resident r ≤ maximum_estimated_resident_bytes (limits s) →
  staging_bytes s + sr_uncompressed r ≤ maximum_staging_bytes (limits s) →
  access_sequence s + 1 ≤ int_max U64 →
  (∀ b, open s !! k = Some b → os_uncompressed b + sr_uncompressed r ≤ target_estimated_bytes (limits s)) →
  (open s !! k = None → Z.of_nat (size (open s)) < maximum_open_builders (limits s)) →
  ∃ b s', add_row k r t s = (Ok tt, s') ∧ wf s' ∧ open s' = <[k := b]> (open s) ∧ held s' ≡ₚ (k, r) :: held s ∧
    limits s' = limits s ∧ sealed s' = sealed s ∧ resident_bytes s' = resident_bytes s + sr_resident r ∧
    staging_bytes s' = staging_bytes s + sr_uncompressed r ∧ access_sequence s' = access_sequence s + 1 ∧
    last_observed_at s' = last_observed_at s.
Proof.
  intros Hw Hroom Hr Ht Hres Hstg Hseq Hfit Hplace.
  pose proof (resident_u64 s Hw). pose proof (staging_u64 s Hw).
  pose proof (proj1 (fits_spec _ _) (wf_sequence _ Hw)) as Hsq. pose proof Hr as (_ & _ & Hu & Hrr). cbn [snd] in Hu, Hrr.
  set (n := access_sequence s + 1) in *.
  assert (∃ b, (match open s !! k with
     | Some builder => OpenSegment_push builder r n
     | None => Ok (OpenSegment_new r t n) end) = Ok b ∧
    builder_ok (with_sequence s n) b ∧ os_touched b = n ∧ open_entries (<[k := b]> (open s)) ≡ₚ (k, r) :: open_entries (open s))
    as (b & Eb & Hb & Htouch & Hopen).
  { destruct (open s !! k) as [b|] eqn:Hk.
    - pose proof (builder_bytes s k b Hw Hk). pose proof (builder_nonneg s k b Hw Hk). pose proof (Hfit b eq_refl).
      destruct (wf_builders _ Hw k b Hk) as [Hne Hbu Hbr Hbt _ Hbo]. destruct (Hroom k b Hk) as [Hlen _].
      unfold OpenSegment_push. rewrite !add_bytes_ok by lia. cbn. eexists. split; [done|].
      split; [|split; [done|]; by eapply open_entries_update].
      constructor; cbn [os_rows os_uncompressed os_resident os_touched os_opened_at]; try done.
      + by destruct (os_rows b).
      + rewrite fmap_app, sum_Z_app, Hbu. cbn. lia.
      + rewrite fmap_app, sum_Z_app, Hbr. cbn. lia.
      + split; [rewrite length_app; cbn in *; lia|]. left. rewrite fmap_app, sum_Z_app. cbn in *. lia.
    - eexists. split; [done|]. split; [|split; [done|]; by rewrite open_entries_insert].
      pose proof (lk_valid _ (wf_limits _ Hw)) as Hv. unfold is_valid in Hv. inv_ok.
      constructor; cbn [os_rows os_uncompressed os_resident os_touched os_opened_at OpenSegment_new]; try done; try (cbn; lia).
      + split; [cbn in *; lia | by right].
      + exists t. split; [done | lia]. }
  set (s' := with_bytes (with_open (with_sequence s n) (<[k := b]> (open s)))
               (resident_bytes s + sr_resident r) (staging_bytes s + sr_uncompressed r)).
  assert (Erun : add_row k r t s = (Ok tt, s')).
  { unfold add_row, mbind, M_bind, get, lift, checked_add. fold n. rewrite narrow_ok by int_lia. cbn -[narrow add_bytes OpenSegment_push].
    destruct (open s !! k) as [b0|]; cbn in Eb |- *; [rewrite Eb | injection Eb as ->]; cbn -[add_bytes];
      rewrite !add_bytes_ok by lia; done. }
  assert (Hh : held s' ≡ₚ (k, r) :: held s).
  { unfold held. cbn [sealed open s' with_bytes with_open with_sequence]. rewrite Hopen. symmetry. apply Permutation_middle. }
  exists b, s'. split; [done|]. split; [|done].
  destruct Hw. constructor; rewrite ?Hh; cbn [limits open sealed resident_bytes staging_bytes access_sequence s' with_bytes with_open with_sequence fmap list_fmap snd];
    rewrite ?sum_Z_cons; try done; try lia.
  - intros k' b'. destruct (decide (k' = k)) as [-> |Hne].
    + rewrite lookup_insert_eq. intros [= <-]. destruct Hb. by constructor.
    + rewrite lookup_insert_ne by done. intros Hk'. destruct (wf_builders0 k' b' Hk'). constructor; try done. cbn. lia.
  - constructor; done.
  - rewrite map_size_insert. destruct (open s !! k) eqn:E; cbn; [done|]. specialize (Hplace eq_refl). lia.
  - apply fits_spec. int_lia.
  - intros k1 k2 b1 b2.
    assert (Hold : ∀ k b, open s !! k = Some b → os_touched b < n).
    { intros ?? Hk. pose proof (bk_touched _ _ (wf_builders0 _ _ Hk)). lia. }
    destruct (decide (k1 = k)) as [-> |?], (decide (k2 = k)) as [-> |?]; rewrite ?lookup_insert_eq, ?lookup_insert_ne by done;
      [done | intros [= <-] H2 | intros H1' [= <-] | by eauto]; rewrite Htouch; intros Heq;
      [apply Hold in H2 | apply Hold in H1']; lia.
Qed.

Lemma seal_if_full_spec s k b :
  wf s → open s !! k = Some b → (∀ k' b', k' ≠ k → open s !! k' = Some b' → not_full (limits s) b') →
  ∃ s', seal_if_full k s = (Ok tt, s') ∧ seals s s' ∧ roomy s'.
Proof.
  intros Hw Hk Hroom. unfold seal_if_full, mbind, M_bind, get, lift. rewrite Hk. cbn.
  assert (Hsealed : ∀ reason, ∃ s', seal k reason s = (Ok tt, s') ∧ seals s s' ∧ roomy s').
  { intros reason. destruct (seal_spec s k b reason Hw Hk) as (s' & E & Hs & Ho). exists s'. split; [done|].
    split; [done|]. intros k' b'. rewrite Ho, (se_limits _ _ Hs). intros [Hne Hk']%lookup_delete_Some. by eapply Hroom. }
  destruct (Z.geb_spec (Z.of_nat (length (os_rows b))) (target_rows (limits s))); [apply Hsealed|].
  destruct (Z.geb_spec (os_uncompressed b) (target_estimated_bytes (limits s))); [apply Hsealed|].
  exists s. split; [done|]. split; [done|]. intros k' b' Hk'. destruct (decide (k' = k)) as [-> |Hne]; [|by eapply Hroom].
  simplify_eq. split; lia.
Qed.

Lemma push_row_spec s metadata row planned t :
  let k := row_key metadata planned in
  let r := segment_row metadata row planned in
  wf s → roomy s → row_ok (k, r) → last_observed_at s = Some t →
  resident_bytes s + sr_resident r ≤ maximum_estimated_resident_bytes (limits s) →
  staging_bytes s + sr_uncompressed r ≤ maximum_staging_bytes (limits s) →
  access_sequence s + 1 ≤ int_max U64 →
  ∃ s', push_row metadata row planned t s = (Ok tt, s') ∧ wf s' ∧ roomy s' ∧ held s' ≡ₚ (k, r) :: held s ∧
    limits s' = limits s ∧ resident_bytes s' = resident_bytes s + sr_resident r ∧
    staging_bytes s' = staging_bytes s + sr_uncompressed r ∧ access_sequence s' = access_sequence s + 1 ∧
    last_observed_at s' = Some t.
Proof.
  intros k r Hw Hroom Hr Ht Hres Hstg Hseq. pose proof Hr as (_ & _ & Hu & _).
  destruct (make_room_in_builder_spec s k planned Hw Hu Hstg) as (s1 & E1 & Hs1 & Hfit1).
  pose proof (seals_wf _ _ Hs1 Hw) as Hw1.
  destruct (make_room_for_builder_spec s1 k Hw1) as (s2 & E2 & Hs2 & Hsame & Hplace).
  pose proof (seals_wf _ _ Hs2 Hw1) as Hw2. assert (Hs12 : seals s s2) by (by etrans).
  pose proof Hs12 as [El Er Et Eq Eo _ Hh _].
  destruct (add_row_spec s2 k r t) as (b & s3 & E3 & Hw3 & Ho3 & Hh3 & Hl3 & _ & Hr3 & Ht3 & Hq3 & Hob3);
    rewrite ?El, ?Er, ?Et, ?Eq, ?Eo; try done.
  { by eapply seals_roomy. }
  { intros b Hb. apply (Hfit1 b), (seals_lookup s1 s2 k b Hs2 Hb). }
  { intros Hn. rewrite <- (se_limits _ _ Hs1). by apply Hplace. }
  destruct (seal_if_full_spec s3 k b Hw3) as (s4 & E4 & Hs4 & Hroom4).
  { by rewrite Ho3, lookup_insert_eq. }
  { intros k' b' Hne. rewrite Ho3, lookup_insert_ne by done. intros Hk'. rewrite Hl3, El.
    eapply Hroom, seals_lookup; [exact Hs12 | done]. }
  exists s4. split.
  { unfold push_row, mbind, M_bind. fold k r. by rewrite E1, E2, E3. }
  split; [by eapply seals_wf|]. split; [done|]. destruct Hs4. rewrite se_held0, Hh3, Hh.
  split; [done|]. split; [congruence|]. split; [congruence|]. split; [congruence|]. split; congruence.
Qed.

(** ** The plan of a batch *)

Definition accepted_rows (records : list NormalizedRecord) : list AcceptedRow :=
  omap (λ record, match record with Accepted row => Some row | DeadLetter _ => None end) records.

Definition dead_letters (records : list NormalizedRecord) : list DeadLetterEntry :=
  omap (λ record, match record with Accepted _ => None | DeadLetter entry => Some entry end) records.

(** An accepted row with the identities of its batch, under its source, schema and day. *)
Definition routed (metadata : BatchMetadata) (row : AcceptedRow) : SegmentKey * SegmentRow :=
  let '(uncompressed, resident) := match estimate_row row with Ok e => e | Err _ => (0, 0) end in
  ({| k_source_id := source_id (Frame.catalog metadata); k_schema_id := target_schema_id (Frame.catalog metadata);
      k_event_day := event_day row |},
   {| sr_batch_id := batch_id metadata; sr_row := row; sr_uncompressed := uncompressed; sr_resident := resident |}).

Definition batch_rows (batch : NormalizedBatch) : list (SegmentKey * SegmentRow) :=
  routed (nb_metadata batch) <$> accepted_rows (nb_records batch).

Definition plans (row : AcceptedRow) (p : PlannedSegmentRow) : Prop :=
  estimate_row row = Ok (pr_uncompressed p, pr_resident p) ∧ pr_event_day p = event_day row ∧
  0 ≤ pr_uncompressed p ∧ 0 ≤ pr_resident p.

Lemma add_bytes_Ok a b c : add_bytes a b = Ok c → c = a + b ∧ 0 ≤ c.
Proof. unfold add_bytes. intros H. inv_ok. apply narrow_Some in H as [-> H]. int_lia. Qed.

Lemma estimate_nonneg row u r : estimate_row row = Ok (u, r) → 0 ≤ u ∧ 0 ≤ r.
Proof.
  unfold estimate_row. intros H. inv_ok. apply add_bytes_Ok in Hok1 as [_ Hu]. split; [done|].
  unfold estimate_resident_row in Hok2. inv_ok.
  match goal with H : add_bytes _ _ = Ok ?x, Hf : try_fold _ ?x _ = Ok ?y |- _ =>
    rename x into first, y into summed, Hf into Hfold; apply add_bytes_Ok in H as [_ H]; rename H into Hfirst end.
  assert (0 ≤ summed).
  { eapply (try_fold_inv (λ x, 0 ≤ x)); [|exact Hfirst|exact Hfold]. intros x f x' _ Hx Hf.
    cbv beta in Hf. destruct (nf_value f); inv_ok; try done. by apply add_bytes_Ok in Hf as [_ ?]. }
  destruct (ar_remainder row); inv_ok; [|done].
  by match goal with H : add_bytes _ _ = Ok r |- _ => apply add_bytes_Ok in H as [_ ?] end.
Qed.

Lemma plan_batch_rows_spec batch plan :
  plan_batch_rows batch = Ok plan →
  Forall2 plans (accepted_rows (nb_records batch)) (plan_rows plan) ∧
  total_uncompressed plan = sum_Z (pr_uncompressed <$> plan_rows plan) ∧
  total_resident plan = sum_Z (pr_resident <$> plan_rows plan).
Proof.
  unfold plan_batch_rows. generalize (nb_records batch) as records. intros records.
  assert (Hgen : ∀ records done p, Forall2 plans (accepted_rows done) (plan_rows p) →
    total_uncompressed p = sum_Z (pr_uncompressed <$> plan_rows p) →
    total_resident p = sum_Z (pr_resident <$> plan_rows p) →
    try_fold plan_record p records = Ok plan →
    Forall2 plans (accepted_rows (done ++ records)) (plan_rows plan) ∧
    total_uncompressed plan = sum_Z (pr_uncompressed <$> plan_rows plan) ∧
    total_resident plan = sum_Z (pr_resident <$> plan_rows plan)); [|by apply (Hgen records [])].
  clear. induction records as [|record records IH]; intros done p Hf Hu Hr H; cbn in H.
  { inv_ok. by rewrite app_nil_r. }
  apply bind_Ok in H as (p' & Hp & H). change (record :: records) with ([record] ++ records).
  rewrite (app_assoc done [record] records). apply (IH _ p'); [..|exact H]; clear IH H.
  all: unfold plan_record in Hp; destruct record as [row|entry]; inv_ok; try done.
  all: unfold accepted_rows; rewrite ?omap_app; cbn; rewrite ?app_nil_r; try done.
  all: destruct a as [u r]; inv_ok; pose proof (estimate_nonneg _ _ _ Hok);
       apply add_bytes_Ok in Hok0 as [-> _], Hok1 as [-> _]; cbn;
       rewrite ?fmap_app, ?sum_Z_app; cbn; try lia.
  apply Forall2_app; [done|]. constructor; [|done]. split; [done|]. split; [|done].
  unfold EventDay_from_event_time, utc_milliseconds in Hok2.
  destruct (from_timestamp_millis _); [|done]. cbn in Hok2. by injection Hok2 as <-.
Qed.

(** ** Pushing a batch *)

Lemma routed_planned metadata row p :
  plans row p → (row_key metadata p, segment_row metadata row p) = routed metadata row ∧ row_ok (routed metadata row).
Proof.
  intros (He & Hd & Hu & Hr). unfold routed, row_key, segment_row. rewrite He, Hd. split; [done|]. by repeat split.
Qed.

Lemma push_records_spec metadata t records : ∀ letters planned s,
  Forall2 plans (accepted_rows records) planned → wf s → roomy s → last_observed_at s = Some t →
  resident_bytes s + sum_Z (pr_resident <$> planned) ≤ maximum_estimated_resident_bytes (limits s) →
  staging_bytes s + sum_Z (pr_uncompressed <$> planned) ≤ maximum_staging_bytes (limits s) →
  access_sequence s + Z.of_nat (length planned) ≤ int_max U64 →
  ∃ s', push_records metadata t records letters planned s = (Ok (letters ++ dead_letters records), s') ∧
    wf s' ∧ roomy s' ∧ held s' ≡ₚ (routed metadata <$> accepted_rows records) ++ held s ∧ limits s' = limits s ∧
    access_sequence s' = access_sequence s + Z.of_nat (length planned) ∧ last_observed_at s' = Some t.
Proof.
  induction records as [|[row|entry] records IH]; intros letters planned s Hp Hw Hroom Ht Hres Hstg Hseq.
  - apply Forall2_nil_inv_l in Hp as ->. exists s. cbn. rewrite app_nil_r, Z.add_0_r. done.
  - change (accepted_rows (Accepted row :: records)) with (row :: accepted_rows records) in *.
    apply Forall2_cons_inv_l in Hp as (p & planned' & Hrow & Hp & ->).
    assert (Hnn : 0 ≤ sum_Z (pr_resident <$> planned') ∧ 0 ≤ sum_Z (pr_uncompressed <$> planned')).
    { split; apply sum_Z_nonneg; intros q Hq; apply list_elem_of_lookup in Hq as [i Hi];
        destruct (Forall2_lookup_r _ _ _ _ _ Hp Hi) as (? & _ & Hpl); apply Hpl. }
    cbn [fmap list_fmap length] in Hres, Hstg, Hseq. rewrite !sum_Z_cons in *.
    destruct (routed_planned metadata row p Hrow) as [Hroute Hok].
    destruct (push_row_spec s metadata row p t Hw Hroom) as (s1 & E1 & Hw1 & Hroom1 & Hh1 & Hl1 & Hr1 & Hs1 & Hq1 & Ht1);
      [by rewrite Hroute | done | cbn [sr_resident sr_uncompressed segment_row]; lia.. |].
    destruct (IH letters planned' s1) as (s2 & E2 & Hw2 & Hroom2 & Hh2 & Hl2 & Hq2 & Ht2);
      [done | done | done | done | rewrite ?Hl1, ?Hr1, ?Hs1, ?Hq1; cbn [sr_resident sr_uncompressed segment_row]; lia .. |].
    exists s2. split; [|split; [done|]; split; [done|]; split; [|split; [congruence|]; split; [cbn [length]; lia|done]]].
    + cbn [push_records]. unfold mbind, M_bind. rewrite E1. exact E2.
    + rewrite Hh2, Hh1, Hroute. cbn. symmetry. apply Permutation_middle.
  - destruct (IH (letters ++ [entry]) planned s) as (s' & E & Hrest); try done. exists s'. split; [|done].
    cbn [push_records]. rewrite E, <- app_assoc. done.
Qed.

(** What [push_batch] returns for a batch with this plan. *)
Definition push_result (s : SegmentBuilders) (batch : NormalizedBatch) (plan : BatchRowPlan) : result SegmentBuildError SegmentBuildOutcome :=
  let l := limits s in
  if total_resident plan >? maximum_estimated_resident_bytes l
  then Err (BatchExceedsCapacity ResidentMemory (total_resident plan) (maximum_estimated_resident_bytes l))
  else if total_uncompressed plan >? maximum_staging_bytes l
  then Err (BatchExceedsCapacity Staging (total_uncompressed plan) (maximum_staging_bytes l))
  else if (resident_bytes s + total_resident plan >? int_max U64) || (staging_bytes s + total_uncompressed plan >? int_max U64)
  then Err EstimatedBytesOverflow
  else match capacity_pressure l (resident_bytes s + total_resident plan) (staging_bytes s + total_uncompressed plan) with
       | Some capacity => Ok (BatchDeferred batch capacity)
       | None =>
           if access_sequence s + Z.of_nat (length (plan_rows plan)) >? int_max U64 then Err AccessSequenceExhausted
           else Ok (BatchAccepted {| sb_metadata := nb_metadata batch; sb_dead_letters := dead_letters (nb_records batch);
                                     sb_ignored_records := nb_ignored_records batch |})
       end.

Lemma held_nil_sealed s : wf s → resident_bytes s ≠ 0 ∨ staging_bytes s ≠ 0 → open s = ∅ → sealed s ≠ [].
Proof.
  intros Hw Hb Ho Hq. assert (Hh : held s = []) by (unfold held; by rewrite Ho, Hq).
  rewrite (wf_resident _ Hw), (wf_staging _ Hw), Hh in Hb. cbn in Hb. lia.
Qed.

Lemma pressure_cases l r g :
  match capacity_pressure l r g with
  | Some ResidentMemory => maximum_estimated_resident_bytes l < r
  | Some Staging => r ≤ maximum_estimated_resident_bytes l ∧ maximum_staging_bytes l < g
  | None => r ≤ maximum_estimated_resident_bytes l ∧ g ≤ maximum_staging_bytes l
  end.
Proof.
  unfold capacity_pressure. destruct (Z.gtb_spec r (maximum_estimated_resident_bytes l)); [lia|].
  destruct (Z.gtb_spec g (maximum_staging_bytes l)); lia.
Qed.

(** What a push leaves behind, by its result. *)
Definition push_effect (batch : NormalizedBatch) (s : SegmentBuilders) (r : result SegmentBuildError SegmentBuildOutcome)
    (s' : SegmentBuilders) : Prop :=
  match r with
  | Ok (BatchAccepted _) => held s' ≡ₚ batch_rows batch ++ held s
  | Ok (BatchDeferred _ _) =>
      held s' ≡ₚ held s ∧ open s' = ∅ ∧ sealed s' ≠ [] ∧ access_sequence s' = access_sequence s
  | Err _ => held s' ≡ₚ held s
  end.

Lemma plan_totals_nonneg batch plan :
  plan_batch_rows batch = Ok plan → 0 ≤ total_resident plan ∧ 0 ≤ total_uncompressed plan.
Proof.
  intros Hplan. destruct (plan_batch_rows_spec batch plan Hplan) as (Hplans & -> & ->).
  split; apply sum_Z_nonneg; intros q Hq; apply list_elem_of_lookup in Hq as [i Hi];
    destruct (Forall2_lookup_r _ _ _ _ _ Hplans Hi) as (? & _ & Hpl); apply Hpl.
Qed.

Lemma add_bytes_overflow a b : int_max U64 < a + b → add_bytes a b = Err EstimatedBytesOverflow.
Proof. intros ?. unfold add_bytes, checked_add. by rewrite (proj2 (narrow_None U64 (a + b))) by lia. Qed.

(** Closes a branch in which the builders stay as they are and the push fails. *)
Ltac unchanged s := exists s; do 5 (split; [done|]); cbn [orb]; unfold push_effect; done.

Lemma place_batch_spec s batch plan t :
  plan_batch_rows batch = Ok plan → wf s → roomy s → last_observed_at s = Some t →
  ∃ s', place_batch batch plan t s = (push_result s batch plan, s') ∧ wf s' ∧ roomy s' ∧ limits s' = limits s ∧
    last_observed_at s' = Some t ∧ push_effect batch s (push_result s batch plan) s'.
Proof.
  intros Hplan Hw Hroom Ht. pose proof (plan_totals_nonneg batch plan Hplan) as [Hnr Hnu].
  destruct (plan_batch_rows_spec batch plan Hplan) as (Hplans & Htu & Htr).
  pose proof (resident_u64 s Hw) as [Hru Hr0]. pose proof (staging_u64 s Hw) as [Hsu Hs0].
  pose proof (proj1 (fits_spec _ _) (wf_sequence _ Hw)) as Hsq.
  unfold place_batch, push_result, mbind, M_bind, get, lift.
  rewrite !Z.leb_antisym, !Z.gtb_ltb.
  destruct (Z.ltb_spec (maximum_estimated_resident_bytes (limits s)) (total_resident plan)); [unchanged s|].
  destruct (Z.ltb_spec (maximum_staging_bytes (limits s)) (total_uncompressed plan)); [unchanged s|].
  cbn [negb check]. cbv iota beta.
  destruct (Z.ltb_spec (int_max U64) (resident_bytes s + total_resident plan)) as [Ho|Ho].
  { rewrite add_bytes_overflow by done. unchanged s. }
  rewrite add_bytes_ok by lia. cbn [orb].
  destruct (Z.ltb_spec (int_max U64) (staging_bytes s + total_uncompressed plan)) as [Hu|Hu].
  { rewrite add_bytes_overflow by done. unchanged s. }
  rewrite add_bytes_ok by lia. cbv iota beta.
  pose proof (pressure_cases (limits s) (resident_bytes s + total_resident plan) (staging_bytes s + total_uncompressed plan)) as Hpr.
  destruct (capacity_pressure _ _ _) as [capacity|].
  - destruct (seal_all_spec s (CapacityPressure capacity) Hw) as (s' & E & Hs & Hopen).
    rewrite E. exists s'. split; [done|]. pose proof (seals_wf _ _ Hs Hw) as Hw'.
    split; [done|]. split; [by eapply seals_roomy|]. destruct Hs as [El Er Et Eq Eo _ Hh _].
    split; [done|]. split; [congruence|]. split; [done|]. split; [done|]. split; [|done].
    apply (held_nil_sealed s' Hw'); [|done]. rewrite Er, Et. destruct capacity; lia.
  - destruct (Z.ltb_spec (int_max U64) (access_sequence s + Z.of_nat (length (plan_rows plan)))) as [Hq|Hq].
    { destruct (narrow U64 (Z.of_nat (length (plan_rows plan)))) as [n|] eqn:En; cbn [ok_or]; [|unchanged s].
      apply narrow_Some in En as [-> _]. unfold checked_add. rewrite (proj2 (narrow_None U64 _)) by lia. unchanged s. }
    rewrite narrow_ok by int_lia. cbn [ok_or]. unfold checked_add. rewrite narrow_ok by int_lia. cbn [ok_or].
    destruct (push_records_spec (nb_metadata batch) t (nb_records batch) [] (plan_rows plan) s Hplans Hw Hroom Ht)
      as (s' & E & Hw' & Hroom' & Hh & Hl & _ & Ht'); [lia..|].
    rewrite E. exists s'. done.
Qed.

Definition push_answer (batch : NormalizedBatch) (t : Z) (s : SegmentBuilders) : result SegmentBuildError SegmentBuildOutcome :=
  if clock_moved_backwards s t then Err ClockMovedBackwards
  else plan ← plan_batch_rows batch; push_result s batch plan.

Lemma push_result_seals s s' batch plan t : seals (with_observed s t) s' → push_result s' batch plan = push_result s batch plan.
Proof. intros [El Er Et Eq _ _ _ _]. cbn in El, Er, Et, Eq. unfold push_result. by rewrite El, Er, Et, Eq. Qed.

Lemma push_batch_spec s batch t :
  wf s → roomy s →
  ∃ s', push_batch batch t s = (push_answer batch t s, s') ∧ wf s' ∧ roomy s' ∧ limits s' = limits s ∧
    push_effect batch s (push_answer batch t s) s' ∧
    (∀ o, push_answer batch t s = Ok o → last_observed_at s' = Some t).
Proof.
  intros Hw Hroom. unfold push_answer. destruct (clock_moved_backwards s t) eqn:Hc.
  { exists s. unfold push_batch, mbind, M_bind, observe_time. rewrite Hc. do 4 (split; [done|]). by split; [unfold push_effect|]. }
  pose proof (observe_wf s t Hw Hc) as Hwo.
  destruct (seal_expired_at_spec (with_observed s t) t Hwo) as (n & s1 & E & Hs & _).
  pose proof (seals_wf _ _ Hs Hwo) as Hw1.
  assert (Hroom1 : roomy s1) by (eapply seals_roomy; [exact Hs | exact Hroom]).
  assert (Ht1 : last_observed_at s1 = Some t) by (by rewrite (se_observed _ _ Hs)).
  assert (Hl1 : limits s1 = limits s) by (by rewrite (se_limits _ _ Hs)).
  assert (Hh1 : held s1 ≡ₚ held s) by apply (se_held _ _ Hs).
  assert (Hrun : push_batch batch t s =
    match plan_batch_rows batch with Ok plan => place_batch batch plan t s1 | Err e => (Err e, s1) end).
  { unfold push_batch, mbind, M_bind, observe_time, lift. rewrite Hc, E. by destruct (plan_batch_rows batch). }
  rewrite Hrun. destruct (plan_batch_rows batch) as [plan|e] eqn:Hplan; cbn [mbind result_bind];
    [|exists s1; do 4 (split; [done|]); by split; [unfold push_effect|]].
  destruct (place_batch_spec s1 batch plan t Hplan Hw1 Hroom1 Ht1) as (s' & E' & Hw' & Hroom' & Hl' & Ht' & Heff).
  rewrite (push_result_seals _ _ _ _ _ Hs) in E', Heff. exists s'. split; [done|]. split; [done|]. split; [done|].
  split; [congruence|]. split; [|done]. pose proof (se_sequence _ _ Hs) as Hq1. cbn in Hq1. unfold push_effect in *.
  destruct (push_result s batch plan) as [[]|]; rewrite <- Hh1, <- ?Hq1; done.
Qed.

(** ** Histories of the builders

    Any sequence of operations with any outcome, with the rows of the batches that were
    accepted and the segments that were taken. *)

Inductive history (l : SegmentBuildLimits) :
  SegmentBuilders → list (SegmentKey * SegmentRow) → list SealedSegment → Prop :=
| history_new s : with_limits l = Some s → history l s [] []
| history_accepted s accepted taken batch t summary s' :
    history l s accepted taken → push_batch batch t s = (Ok (BatchAccepted summary), s') →
    history l s' (batch_rows batch ++ accepted) taken
| history_deferred s accepted taken batch t batch' capacity s' :
    history l s accepted taken → push_batch batch t s = (Ok (BatchDeferred batch' capacity), s') →
    history l s' accepted taken
| history_push_failed s accepted taken batch t e s' :
    history l s accepted taken → push_batch batch t s = (Err e, s') → history l s' accepted taken
| history_expire s accepted taken t r s' :
    history l s accepted taken → seal_expired t s = (r, s') → history l s' accepted taken
| history_flush s accepted taken r s' :
    history l s accepted taken → flush_all s = (r, s') → history l s' accepted taken
| history_take s accepted taken segment s' :
    history l s accepted taken → take_next_sealed s = (Ok (Some segment), s') →
    history l s' accepted (taken ++ [segment])
| history_take_none s accepted taken s' :
    history l s accepted taken → take_next_sealed s = (Ok None, s') → history l s' accepted taken.

Lemma new_wf l s : limits_ok l → with_limits l = Some s → wf s ∧ roomy s ∧ limits s = l ∧ held s = [].
Proof.
  intros Hl. unfold with_limits. rewrite (lk_valid _ Hl). intros [= <-]. pose proof (lk_valid _ Hl) as Hv.
  unfold is_valid in Hv. inv_ok. split; [|done]. constructor; cbn; try done; try lia.
  rewrite map_size_empty. lia.
Qed.

Lemma history_wf l s accepted taken :
  limits_ok l → history l s accepted taken →
  wf s ∧ roomy s ∧ limits s = l ∧ accepted ≡ₚ sealed_entries taken ++ held s ∧ Forall (segment_ok l) taken.
Proof.
  intros Hl H. induction H as [s Hnew | s accepted taken batch t summary s' _ IH E | s accepted taken batch t batch' c s' _ IH E
    | s accepted taken batch t e s' _ IH E | s accepted taken t r s' _ IH E | s accepted taken r s' _ IH E
    | s accepted taken segment s' _ IH E | s accepted taken s' _ IH E].
  { destruct (new_wf l s Hl Hnew) as (? & ? & ? & ->). done. }
  all: destruct IH as (Hw & Hroom & Hlim & Hp & Htaken).
  1-3: destruct (push_batch_spec s batch t Hw Hroom) as (s1 & E1 & Hw1 & Hroom1 & Hl1 & Heff & _);
    rewrite E in E1; injection E1 as Ea <-; rewrite <- Ea in Heff; cbn in Heff;
    (split; [done|]; split; [done|]; split; [congruence|]; split; [|done]).
  - rewrite Heff, Hp. apply Permutation_app_swap_app.
  - destruct Heff as [-> _]. done.
  - by rewrite Heff.
  - destruct (clock_moved_backwards s t) eqn:Hc.
    { unfold seal_expired, mbind, M_bind, observe_time in E. rewrite Hc in E. by injection E as <- <-. }
    destruct (seal_expired_spec s t Hw Hc) as (n & s1 & E1 & Hs & _). rewrite E in E1. injection E1 as -> <-.
    split; [by eapply seals_wf, observe_wf|]. split; [by eapply (seals_roomy (with_observed s t))|].
    split; [by rewrite (se_limits _ _ Hs)|]. split; [|done]. rewrite (se_held _ _ Hs). done.
  - destruct (seal_all_spec s Flush Hw) as (s1 & E1 & Hs & _). unfold flush_all in E. rewrite E in E1. injection E1 as -> <-.
    split; [by eapply seals_wf|]. split; [by eapply seals_roomy|]. split; [by rewrite (se_limits _ _ Hs)|].
    split; [|done]. by rewrite (se_held _ _ Hs).
  - destruct (sealed s) as [|seg rest] eqn:Hq; [unfold take_next_sealed in E; by rewrite Hq in E|].
    destruct (take_spec s seg rest Hw Hq) as (s1 & E1 & Hw1 & Hseg & Hh & _ & Ho & Hl1 & _). rewrite E in E1.
    injection E1 as <- <-. split; [done|]. split; [intros k b; rewrite Ho, Hl1; apply Hroom|]. split; [congruence|].
    split; [|apply Forall_app; subst l; auto]. rewrite Hp, Hh. unfold sealed_entries. rewrite bind_app. cbn.
    by rewrite app_nil_r, <- app_assoc.
  - destruct (sealed s) as [|seg rest] eqn:Hq; [unfold take_next_sealed in E; rewrite Hq in E; by injection E as <-|].
    destruct (take_spec s seg rest Hw Hq) as (s1 & E1 & _). by rewrite E in E1.
Qed.

(** C20: The segment builders neither lose nor duplicate a row and stay within their
    limits: whatever pushes, expirations, flushes and takes have happened, with whatever
    results, the rows of the accepted batches are exactly the rows of the segments taken
    and of the builders and queued segments still held, each under the source, schema and
    event day of its batch and time; every segment taken is sorted by event time and
    identity, has exact time bounds and byte totals, at most the target number of rows,
    and at most the target bytes unless it is a single row; and the reported usage is the
    sum over the rows held and never exceeds a limit. *)
Theorem builders_conserve_rows l s accepted taken :
  limits_ok l → history l s accepted taken →
  accepted ≡ₚ sealed_entries taken ++ held s ∧ Forall (segment_ok l) taken ∧
  us_resident_bytes (usage s) = sum_Z (sr_resident <$> (held s).*2) ∧
  us_staging_bytes (usage s) = sum_Z (sr_uncompressed <$> (held s).*2) ∧
  us_resident_bytes (usage s) ≤ maximum_estimated_resident_bytes l ∧
  us_staging_bytes (usage s) ≤ maximum_staging_bytes l ∧
  us_open_builders (usage s) ≤ maximum_open_builders l ∧
  ∀ k b, open s !! k = Some b →
    os_rows b ≠ [] ∧ Z.of_nat (length (os_rows b)) < target_rows l ∧ os_uncompressed b < target_estimated_bytes l ∧
    ∀ r, r ∈ os_rows b → k_event_day k = event_day (sr_row r).
Proof.
  intros Hl Hh. destruct (history_wf l s accepted taken Hl Hh) as (Hw & Hroom & <- & Hp & Ht). pose proof Hw as [].
  do 7 (split; [done|]). intros k b Hk. split; [apply (wf_builders0 k b Hk)|]. destruct (Hroom k b Hk).
  split; [done|]. split; [done|]. intros r Hr. rewrite Forall_forall in wf_rows0. apply (wf_rows0 (k, r)).
  unfold held. rewrite (open_entries_delete _ _ _ Hk), !elem_of_app. right. left. by apply list_elem_of_fmap_2.
Qed.

End Segment.
