(* ===== verification/SegmentProgress.v ===== *)
(** * Segment builders: progress of the processing loop

    The part of the processing loop that drives the builders
    (src/elucid/elucid-service/src/processing.rs): sealed segments are taken until the
    queue is empty, a deferred batch is pushed again after that, and the loop sleeps until
    the next expiration. Theorems: the exact result of every push, acceptance of a
    deferred batch by the second push, and the exact time of the next expiration. *)

From S2P Require Import Prelude Core CatalogTypes Bytes Frame Json Normalization NormalizationCorrect Segment SegmentCorrect.

#[local] Open Scope Z_scope.

Section Progress.
Context {env : SpoolEnv} {lib : JsonLib} {layout : SegmentLayout}.

(** ** The loops *)

(** [while let Some(segment) = self.builders.take_next_sealed()?], with the segments in the
    order in which they are staged. *)
Fixpoint drain (fuel : nat) : M (list SealedSegment) :=
  match fuel with
  | 0%nat => mret []
  | S fuel =>
      next ← take_next_sealed;
      match next with
      | None => mret []
      | Some segment => rest ← drain fuel; mret (segment :: rest)
      end
  end.

(** The loop of [process_batch]; each round reads the clock. It ends with the summary of
    the accepted batch and the segments that were drained before. *)
Fixpoint submit (instants : list Z) (candidate : NormalizedBatch) : M (option SegmentBuildSummary * list SealedSegment) :=
  match instants with
  | [] => mret (None, [])
  | now :: instants =>
      outcome ← push_batch candidate now;
      match outcome with
      | BatchAccepted summary => mret (Some summary, [])
      | BatchDeferred batch _ =>
          s ← get;
          drained ← drain (S (length (sealed s)));
          rest ← submit instants batch;
          mret (rest.1, drained ++ rest.2)
      end
  end.

(** ** Pushing *)

(** A push on reachable builders returns exactly what [push_answer] says: an error for
    a clock that moved backwards, for an estimate that overflows, for a batch larger than
    a whole budget or for an exhausted sequence; a deferral when the rows held leave too
    little of a budget; and otherwise the summary with the dead letters of the batch in
    order. An accepted batch adds exactly its rows; a deferral seals every builder, keeps
    every row and leaves a segment to drain; an error keeps every row. The builders never
    report an inconsistent state. *)
Theorem push_batch_exact l s accepted taken batch t :
  limits_ok l → history l s accepted taken →
  ∃ s', push_batch batch t s = (push_answer batch t s, s') ∧
    push_effect batch s (push_answer batch t s) s' ∧
    (∀ plan, plan_batch_rows batch = Ok plan → push_answer batch t s ≠ Err StateInconsistent) ∧
    (∀ segment_result s'', take_next_sealed s = (segment_result, s'') → ∃ o, segment_result = Ok o) ∧
    flush_all s = (Ok (us_open_builders (usage s)), snd (flush_all s)).
Proof.
  intros Hl Hh. destruct (history_wf _ _ _ _ Hl Hh) as (Hw & Hroom & _).
  destruct (push_batch_spec s batch t Hw Hroom) as (s' & E & _ & _ & _ & Heff & _).
  exists s'. split; [done|]. split; [done|]. split; [|split].
  - intros plan Hplan. unfold push_answer. destruct (clock_moved_backwards s t); [done|]. rewrite Hplan. cbn.
    unfold push_result. repeat case_match; done.
  - intros r s'' Et. destruct (sealed s) as [|seg rest] eqn:Hq.
    + unfold take_next_sealed in Et. rewrite Hq in Et. injection Et as <- _. eauto.
    + destruct (take_spec s seg rest Hw Hq) as (s1 & E1 & _). rewrite E1 in Et. injection Et as <- _. eauto.
  - destruct (seal_all_spec s Flush Hw) as (s1 & E1 & _). unfold flush_all. by rewrite E1.
Qed.

(** ** Draining *)

Lemma drain_spec fuel s :
  wf s → (length (sealed s) < fuel)%nat →
  ∃ s', drain fuel s = (Ok (sealed s), s') ∧ wf s' ∧ sealed s' = [] ∧ open s' = open s ∧ limits s' = limits s ∧
    access_sequence s' = access_sequence s ∧ last_observed_at s' = last_observed_at s ∧
    held s = sealed_entries (sealed s) ++ held s'.
Proof.
  revert s; induction fuel as [|fuel IH]; intros s Hw Hlen; [lia|]. cbn [drain]. unfold mbind, M_bind.
  destruct (sealed s) as [|seg rest] eqn:Hq.
  - exists s. unfold take_next_sealed. by rewrite Hq.
  - destruct (take_spec s seg rest Hw Hq) as (s1 & -> & Hw1 & _ & Hh & Hq1 & Ho1 & Hl1 & Ha1 & Ht1).
    destruct (IH s1 Hw1) as (s2 & E2 & Hw2 & Hq2 & Ho2 & Hl2 & Ha2 & Ht2 & Hh2); [rewrite Hq1; cbn in Hlen; lia|].
    rewrite E2. exists s2. rewrite Hq1 in *. split; [done|]. split; [done|]. split; [done|]. split; [congruence|].
    split; [congruence|]. split; [congruence|]. split; [congruence|].
    rewrite Hh, Hh2. unfold sealed_entries. cbn. by rewrite <- app_assoc.
Qed.

(** C21: No batch within the budgets is deferred forever: the loop that pushes a batch,
    drains the sealed segments when it is deferred and pushes it again has the batch
    accepted by its second push at the latest, whatever the builders held, and no row is
    lost or duplicated on the way. *)
Theorem deferred_batch_accepted l s accepted taken batch plan t1 t2 :
  limits_ok l → history l s accepted taken →
  plan_batch_rows batch = Ok plan →
  total_resident plan ≤ maximum_estimated_resident_bytes l → total_uncompressed plan ≤ maximum_staging_bytes l →
  resident_bytes s + total_resident plan ≤ int_max U64 → staging_bytes s + total_uncompressed plan ≤ int_max U64 →
  access_sequence s + Z.of_nat (length (plan_rows plan)) ≤ int_max U64 →
  clock_moved_backwards s t1 = false → t1 ≤ t2 →
  ∃ drained s',
    submit [t1; t2] batch s =
      (Ok (Some {| sb_metadata := nb_metadata batch; sb_dead_letters := dead_letters (nb_records batch);
                   sb_ignored_records := nb_ignored_records batch |}, drained), s') ∧
    sealed_entries drained ++ held s' ≡ₚ batch_rows batch ++ held s.
Proof.
  intros Hl Hh Hplan Hr Hu Hro Huo Hseq Hc Ht. destruct (history_wf _ _ _ _ Hl Hh) as (Hw & Hroom & Hlim & _).
  assert (Hans : ∀ s t, limits s = l → clock_moved_backwards s t = false →
    resident_bytes s + total_resident plan ≤ int_max U64 → staging_bytes s + total_uncompressed plan ≤ int_max U64 →
    access_sequence s + Z.of_nat (length (plan_rows plan)) ≤ int_max U64 →
    push_answer batch t s = match capacity_pressure l (resident_bytes s + total_resident plan) (staging_bytes s + total_uncompressed plan) with
      | Some capacity => Ok (BatchDeferred batch capacity)
      | None => Ok (BatchAccepted {| sb_metadata := nb_metadata batch; sb_dead_letters := dead_letters (nb_records batch);
                                     sb_ignored_records := nb_ignored_records batch |})
      end).
  { intros s0 t El Ec H1 H2 H3. unfold push_answer. rewrite Ec, Hplan. cbn. unfold push_result. rewrite El, !Z.gtb_ltb.
    rewrite (proj2 (Z.ltb_ge _ _) Hr), (proj2 (Z.ltb_ge _ _) Hu), (proj2 (Z.ltb_ge _ _) H1), (proj2 (Z.ltb_ge _ _) H2). cbn [orb].
    by rewrite (proj2 (Z.ltb_ge _ _) H3). }
  destruct (push_batch_spec s batch t1 Hw Hroom) as (s1 & E1 & Hw1 & Hroom1 & Hl1 & Heff1 & Hobs1).
  rewrite (Hans s t1) in E1, Heff1, Hobs1 by done. cbn [submit]. unfold mbind, M_bind. rewrite E1.
  destruct (capacity_pressure _ _ _) as [capacity|]; [|exists [], s1; done].
  destruct Heff1 as (Hp1 & Hopen1 & _ & Hseq1). unfold get.
  destruct (drain_spec (S (length (sealed s1))) s1 Hw1) as (s2 & E2 & Hw2 & Hq2 & Ho2 & Hl2 & Ha2 & Ht2 & Hh2); [lia|].
  rewrite E2.
  assert (Hheld2 : held s2 = []) by (unfold held; by rewrite Hq2, Ho2, Hopen1).
  assert (Hz : resident_bytes s2 = 0 ∧ staging_bytes s2 = 0).
  { rewrite (wf_resident _ Hw2), (wf_staging _ Hw2), Hheld2. done. }
  assert (Hroom2 : roomy s2) by (intros k b; rewrite Ho2, Hopen1; by rewrite lookup_empty).
  pose proof (resident_u64 s Hw). pose proof (staging_u64 s Hw).
  destruct (push_batch_spec s2 batch t2 Hw2 Hroom2) as (s3 & E3 & _ & _ & _ & Heff3 & _).
  assert (Hclock : clock_moved_backwards s2 t2 = false).
  { unfold clock_moved_backwards. rewrite Ht2, (Hobs1 _ eq_refl). lia. }
  rewrite (Hans s2 t2 ltac:(congruence) Hclock ltac:(lia) ltac:(lia) ltac:(by rewrite Ha2, Hseq1)) in E3, Heff3.
  pose proof (pressure_cases l (resident_bytes s2 + total_resident plan) (staging_bytes s2 + total_uncompressed plan)) as Hpr.
  destruct (capacity_pressure l (resident_bytes s2 + total_resident plan) (staging_bytes s2 + total_uncompressed plan)) as [[]|];
    [lia..|].
  cbn [submit]. unfold mbind, M_bind. rewrite E3. exists (sealed s1), s3. split; [cbn; by rewrite app_nil_r|].
  cbn in Heff3. rewrite Heff3, Hheld2, app_nil_r, <- Hp1, Hh2, Hheld2, app_nil_r. apply Permutation_app_comm.
Qed.

(** ** Expiration *)

Definition remaining (l : SegmentBuildLimits) (t : Z) (b : OpenSegment) : Z :=
  saturating_sub (maximum_open_duration l) (t - os_opened_at b).

Lemma next_expiration_fold l t builders : ∀ earliest,
  (∀ b, b ∈ builders → os_opened_at b ≤ t) →
  ∃ r, try_fold (λ earliest builder,
      age ← ok_or (checked_duration_since t (os_opened_at builder)) ClockMovedBackwards;
      let remaining := saturating_sub (maximum_open_duration l) age in
      Ok (Some (match earliest with Some current => Z.min current remaining | None => remaining end)))
    earliest builders = Ok r ∧
  (r = None → earliest = None ∧ builders = []) ∧
  ∀ d, r = Some d → (earliest = Some d ∨ ∃ b, b ∈ builders ∧ d = remaining l t b) ∧
    (∀ e, earliest = Some e → d ≤ e) ∧ ∀ b, b ∈ builders → d ≤ remaining l t b.
Proof.
  induction builders as [|b builders IH]; intros earliest Hopened; cbn [try_fold].
  { exists earliest. split; [done|]. split; [done|]. intros d ->. split; [by left|]. set_solver. }
  pose proof (Hopened b ltac:(set_solver)).
  assert (Hage : checked_duration_since t (os_opened_at b) = Some (t - os_opened_at b)).
  { unfold checked_duration_since. by rewrite (proj2 (Z.ltb_ge _ _)). }
  rewrite Hage. cbn [ok_or mbind result_bind]. fold (remaining l t b).
  set (first := match earliest with Some current => Z.min current (remaining l t b) | None => remaining l t b end).
  destruct (IH (Some first)) as (r & E & Hnone & Hsome); [set_solver|]. exists r. split; [exact E|].
  assert (Hfirst : first ≤ remaining l t b ∧ (earliest = Some first ∨ first = remaining l t b) ∧
                   ∀ e, earliest = Some e → first ≤ e).
  { subst first. destruct earliest as [e|]; [|split; [lia|]; split; [by right|done]].
    split; [lia|]. split; [destruct (Z.min_spec e (remaining l t b)) as [[_ ->]|[_ ->]]; auto|]. intros ? [= ->]. lia. }
  destruct Hfirst as (Hle & Hfrom & Hearliest). split; [by intros [??]%Hnone|]. intros d Hd.
  destruct (Hsome d Hd) as (Hin & Hmin & Hall). pose proof (Hmin first eq_refl). split; [|split].
  - destruct Hin as [[= ->]|(b' & Hb' & ->)]; [|right; exists b'; set_solver].
    destruct Hfrom as [?|?]; [by left | right; exists b; set_solver].
  - intros e He. pose proof (Hearliest e He). lia.
  - intros b' [-> |Hb']%elem_of_cons; [lia | by apply Hall].
Qed.

(** The time to the next expiration is exact: it is absent exactly when nothing is
    open, and otherwise sealing at an instant after the observation seals a builder
    exactly when that much time has passed; sealing at any instant seals exactly the
    builders that have reached the maximal age, so the processing loop neither misses an
    expiration nor spins. *)
Theorem next_expiration_exact l s accepted taken t :
  limits_ok l → history l s accepted taken → clock_moved_backwards s t = false →
  match next_expiration_in s t with
  | Ok None => open s = ∅
  | Ok (Some d) =>
      open s ≠ ∅ ∧ 0 ≤ d ≤ maximum_open_duration l ∧
      ∀ t', t ≤ t' → ∃ n s', seal_expired t' s = (Ok n, s') ∧ (0 < n ↔ t + d ≤ t') ∧
        ∀ k b, open s' !! k = Some b ↔ open s !! k = Some b ∧ t' - os_opened_at b < maximum_open_duration l
  | Err _ => False
  end.
Proof.
  intros Hl Hh Hc. destruct (history_wf _ _ _ _ Hl Hh) as (Hw & _ & Hlim & _).
  assert (Hopened : ∀ k b, open s !! k = Some b → os_opened_at b ≤ t).
  { intros k b Hk. destruct (bk_opened _ _ (wf_builders _ Hw k b Hk)) as (t0 & Ht0 & Hle).
    unfold clock_moved_backwards in Hc. rewrite Ht0 in Hc. lia. }
  assert (Hin : ∀ b, b ∈ (entries (open s)).*2 ↔ ∃ k, open s !! k = Some b).
  { intros b. rewrite list_elem_of_fmap. split.
    - intros ([k b'] & -> & Hb%elem_of_entries). eauto.
    - intros (k & Hk). exists (k, b). split; [done | by apply elem_of_entries]. }
  destruct (next_expiration_fold (limits s) t (entries (open s)).*2 None) as (r & E & Hnone & Hsome).
  { intros b (k & Hk)%Hin. eauto. }
  assert (Hrun : next_expiration_in s t = Ok r) by (unfold next_expiration_in; rewrite Hc; exact E).
  rewrite Hrun. clear E Hrun.
  pose proof (lk_duration _ Hl). rewrite Hlim in *. destruct r as [d|].
  - destruct (Hsome d eq_refl) as ([?|(b0 & Hb0 & Hd)] & _ & Hmin); [done|]. apply Hin in Hb0 as (k0 & Hk0).
    pose proof (Hopened k0 b0 Hk0). assert (Hd' : 0 ≤ d ≤ maximum_open_duration l) by (unfold remaining, saturating_sub in Hd; lia).
    split; [intros Ho; by rewrite Ho, lookup_empty in Hk0|]. split; [done|]. intros t' Ht.
    assert (Hc' : clock_moved_backwards s t' = false).
    { unfold clock_moved_backwards in *. destruct (last_observed_at s); [lia | done]. }
    destruct (seal_expired_spec s t' Hw Hc') as (n & s' & E & _ & Hn & Hkeys & Hopen). exists n, s'. split; [done|].
    split.
    + assert (Hpos : 0 < n ↔ ∃ k b, open s !! k = Some b ∧ expired s t' b).
      { rewrite Hn. destruct (expired_keys s t') as [|k keys]; cbn [length].
        - split; [lia|]. intros (k & b & Hk). assert (k ∈ []) by (apply Hkeys; eauto). set_solver.
        - split; [|lia]. intros _. destruct (proj1 (Hkeys k) ltac:(set_solver)) as (b & Hk). eauto. }
      rewrite Hpos. unfold expired. rewrite Hlim. split.
      * intros (k & b & Hk & Hx). pose proof (Hmin b (proj2 (Hin b) (ex_intro _ k Hk))) as Hle.
        unfold remaining, saturating_sub in Hle. lia.
      * intros Hle. exists k0, b0. split; [done|]. unfold remaining, saturating_sub in Hd. lia.
    + intros k b. rewrite Hopen. unfold expired. rewrite Hlim. rewrite Z.nle_gt. done.
  - destruct (Hnone eq_refl) as [_ Hnil]. apply map_eq. intros k. rewrite lookup_empty.
    destruct (open s !! k) as [b|] eqn:Hk; [|done].
    assert (Hb : b ∈ []) by (rewrite <- Hnil; apply Hin; eauto). set_solver.
Qed.

End Progress.

(** ** Example

    Budgets for four rows and builders of at most three; a batch of three rows of two days
    fits, a second one does not. *)

#[local] Existing Instance sample_env.
#[local] Existing Instance sample_json.

Definition sample_layout : SegmentLayout := {|
  size_of_SegmentRow := 100; size_of_NormalizedField := 40; size_of_entry := 56; size_of_Value := 32;
  string_capacity s := Z.of_nat (String.length s); array_capacity values := Z.of_nat (length values);
  json_to_writer members := [ascii_bytes "{}"];
|}.

#[local] Existing Instance sample_layout.

Definition sample_limits : SegmentBuildLimits := {|
  target_rows := 3; target_estimated_bytes := 1000; maximum_open_duration := 10; maximum_open_builders := 2;
  maximum_estimated_resident_bytes := 1000; maximum_staging_bytes := 1000;
|}.

Lemma sample_limits_ok : limits_ok sample_limits.
Proof. by constructor. Qed.

Definition sample_row (position time : Z) : AcceptedRow := {|
  ar_location := {| line_number := 1; input_position := position |};
  ar_event_time := time; ar_ingestion_time := 5; ar_event_id := [position]; ar_fields := []; ar_remainder := None;
|}.

Definition sample_normalized : NormalizedBatch := {|
  nb_metadata := sample_pins;
  nb_records := [Accepted (sample_row 0 20); Accepted (sample_row 10 86400000); Accepted (sample_row 20 10)];
  nb_ignored_records := 0;
|}.

Definition sample_builders : SegmentBuilders := {|
  limits := sample_limits; open := ∅; sealed := []; resident_bytes := 0; staging_bytes := 0;
  access_sequence := 0; last_observed_at := None;
|}.

(** Small results of the operations, so that evaluation stays on them. *)
Definition verdict {A} (r : result SegmentBuildError SegmentBuildOutcome * A) : option (option SegmentCapacity) :=
  match r.1 with
  | Ok (BatchAccepted _) => Some None
  | Ok (BatchDeferred _ capacity) => Some (Some capacity)
  | Err _ => None
  end.

Lemma history_push l s accepted taken batch t :
  history l s accepted taken → verdict (push_batch batch t s) = Some None →
  history l (snd (push_batch batch t s)) (batch_rows batch ++ accepted) taken.
Proof.
  intros Hh Hv. destruct (push_batch batch t s) as [r s'] eqn:E. unfold verdict in Hv. cbn in Hv.
  destruct r as [[summary|]|]; try done. by eapply history_accepted.
Qed.

Definition pushed : SegmentBuilders := snd (push_batch sample_normalized 0 sample_builders).
Definition flushed : SegmentBuilders := snd (flush_all pushed).

Lemma pushed_history : history sample_limits pushed (batch_rows sample_normalized ++ []) [].
Proof. apply history_push; [by apply history_new | by vm_compute]. Qed.

Lemma push_batch_exact_witness :
  verdict (push_batch sample_normalized 3 pushed) = Some (Some ResidentMemory) ∧
  ∃ r s', push_batch sample_normalized 3 pushed = (r, s') ∧ push_effect sample_normalized pushed r s'.
Proof.
  split; [by vm_compute|].
  destruct (push_batch_exact sample_limits pushed _ _ sample_normalized 3 sample_limits_ok pushed_history)
    as (s' & E & Heff & _). eauto.
Defined.

Lemma builders_conserve_rows_witness :
  ∃ segment s', take_next_sealed flushed = (Ok (Some segment), s') ∧ segment_ok sample_limits segment.
Proof.
  assert (Hf : history sample_limits flushed (batch_rows sample_normalized ++ []) []).
  { eapply (history_flush _ pushed); [apply pushed_history | apply surjective_pairing]. }
  assert (Ht : match (take_next_sealed flushed).1 with Ok (Some segment) => length (ss_rows segment) | _ => 0%nat end = 2%nat)
    by (by vm_compute).
  destruct (take_next_sealed flushed) as [[[segment|]|] s'] eqn:E; [|discriminate Ht|discriminate Ht]. exists segment, s'. split; [reflexivity|].
  destruct (builders_conserve_rows sample_limits s' _ _ sample_limits_ok (history_take _ _ _ _ _ _ Hf E)) as (_ & Hok & _).
  apply (Forall_inv Hok).
Defined.

Lemma sample_plan_rows :
  ∃ plan, plan_batch_rows sample_normalized = Ok plan ∧ total_resident plan = 600 ∧ total_uncompressed plan = 99 ∧
    length (plan_rows plan) = 3%nat.
Proof. eexists. split; [reflexivity|]. done. Qed.

Lemma deferred_batch_accepted_witness :
  ∃ summary drained s', submit [3; 4] sample_normalized pushed = (Ok (Some summary, drained), s') ∧
    sealed_entries drained ++ held s' ≡ₚ batch_rows sample_normalized ++ held pushed.
Proof.
  destruct sample_plan_rows as (plan & Hplan & Hr & Hu & Hn).
  assert (Hb : resident_bytes pushed = 600 ∧ staging_bytes pushed = 99 ∧ access_sequence pushed = 3) by (by vm_compute).
  destruct Hb as (Hbr & Hbs & Hba).
  assert (Hc : clock_moved_backwards pushed 3 = false) by (by vm_compute).
  assert (Hfits : total_resident plan ≤ 1000 ∧ total_uncompressed plan ≤ 1000 ∧
    resident_bytes pushed + total_resident plan ≤ int_max U64 ∧ staging_bytes pushed + total_uncompressed plan ≤ int_max U64 ∧
    access_sequence pushed + Z.of_nat (length (plan_rows plan)) ≤ int_max U64).
  { rewrite Hr, Hu, Hn, Hbr, Hbs, Hba. clear. int_lia. }
  destruct Hfits as (F1 & F2 & F3 & F4 & F5).
  destruct (deferred_batch_accepted sample_limits pushed _ _ sample_normalized plan 3 4 sample_limits_ok pushed_history Hplan
    F1 F2 F3 F4 F5 Hc ltac:(lia)) as (drained & s' & E & Hp).
  do 3 eexists. split; [exact E | exact Hp].
Defined.

Lemma next_expiration_exact_witness :
  next_expiration_in pushed 4 = Ok (Some 6) ∧
  ∀ t', 4 ≤ t' → ∃ n s', seal_expired t' pushed = (Ok n, s') ∧ (0 < n ↔ 10 ≤ t').
Proof.
  pose proof (next_expiration_exact sample_limits pushed _ _ 4 sample_limits_ok pushed_history) as H.
  assert (E : next_expiration_in pushed 4 = Ok (Some 6)) by (by vm_compute).
  assert (Hc : clock_moved_backwards pushed 4 = false) by (by vm_compute).
  rewrite E in H. destruct (H Hc) as (_ & _ & Hseal). split; [exact E|].
  intros t' Ht. destruct (Hseal t' Ht) as (n & s' & Hrun & Hn & _). exists n, s'. split; [exact Hrun | exact Hn].
Defined.
