(* ===== verification/Canonical.v ===== *)
(** * elucid-catalog: manifests as data and canonical documents

    The data of a decoded manifest and the errors of the catalog, and then a model of
    src/elucid/elucid-catalog/src/canonical.rs: the JSON documents that declare and
    materialize schemas, inputs and ingestion profiles, and their digests. A serde_json
    map is a [BTreeMap], an association list sorted by key. Rendering and parsing of JSON
    text and the number of a [u64] are parameters, like the text of a UUID and BLAKE3. *)

From S2P Require Import Prelude Core ErrorCode CatalogTypes CatalogModel CatalogSource Bytes Frame Json Storage.
From stdpp Require Export pretty.
Import Schema.

#[local] Open Scope string_scope.
#[local] Open Scope list_scope.
#[local] Open Scope Z_scope.

(** ** Manifests and their errors

    The data of src/elucid/elucid-catalog/src/manifest.rs (a decoded manifest), the errors
    of application_error.rs and the spellings of the catalog's enumerations
    (logical_type.rs, input.rs) that documents contain. Error messages are left out; the
    path of an error is kept. *)

(** ** Errors *)

Inductive CatalogErrorKind := ManifestInvalidKind | DefinitionConflictKind | SchemaIncompatibleKind | ProfileInvalidKind | CorruptKind.

Definition CatalogErrorKind_error_code (kind : CatalogErrorKind) : ErrorCode :=
  match kind with
  | ManifestInvalidKind => CatalogManifestInvalid
  | DefinitionConflictKind => CatalogDefinitionConflict
  | SchemaIncompatibleKind => CatalogSchemaIncompatible
  | ProfileInvalidKind => CatalogProfileInvalid
  | CorruptKind => CatalogCorrupt
  end.

Inductive CatalogApplicationError :=
| ManifestNotUtf8 (path : string)
| ManifestYamlSyntax (path : string)
| ManifestYamlDecode (path : string)
| ManifestInvalid (path : string)
| ManifestModelInvalid (path : string) (source : CatalogModelError)
| DefinitionConflict (path : string)
| HistoryDiverged (path : string)
| ProfileInvalid (path : string)
| SchemaIncompatible (path : string) (earlier_schema_version later_schema_version : Z) (reason : SchemaIncompatibility)
| Corruption (path : string)
| CanonicalJsonEncoding (path : string).

Definition application_error_kind (e : CatalogApplicationError) : CatalogErrorKind :=
  match e with
  | ManifestNotUtf8 _ | ManifestYamlSyntax _ | ManifestYamlDecode _ | ManifestInvalid _
  | ManifestModelInvalid _ _ => ManifestInvalidKind
  | DefinitionConflict _ => DefinitionConflictKind
  | HistoryDiverged _ => DefinitionConflictKind
  | ProfileInvalid _ => ProfileInvalidKind
  | SchemaIncompatible _ _ _ _ => SchemaIncompatibleKind
  | Corruption _ | CanonicalJsonEncoding _ => CorruptKind
  end.

Notation catalog_result := (result CatalogApplicationError).

(** [format!("{prefix}[{index}]")] *)
Definition indexed (prefix : string) (index : nat) : string := prefix +:+ "[" +:+ pretty index +:+ "]".

(** [.map_err(|source| CatalogApplicationError::manifest_model(path, source))] *)
Definition manifest_model {A} (path : string) (r : result CatalogModelError A) : catalog_result A :=
  map_err (ManifestModelInvalid path) r.

(** ** Spellings *)

Definition LogicalType_as_str (t : LogicalType) : string :=
  match t with
  | Bool => "bool" | Int32 => "int32" | Int64 => "int64" | UInt32 => "uint32" | UInt64 => "uint64"
  | Float32 => "float32" | Float64 => "float64" | Utf8 => "utf8" | Datetime => "datetime"
  | Eid => "eid" | Json => "json"
  end.

Definition metadata_value (t : LogicalType) : option string :=
  match t with Eid => Some "eid" | Json => Some "json" | _ => None end.

Definition UserLogicalType_as_str (t : UserLogicalType) : string :=
  match t with
  | UBool => "bool" | UInt32_ => "int32" | UInt64_ => "int64" | UUInt32 => "uint32" | UUInt64 => "uint64"
  | UFloat32 => "float32" | UFloat64 => "float64" | UUtf8 => "utf8" | UDatetime => "datetime"
  end.

Definition Nullability_as_str (n : Nullability) : string :=
  match n with NonNull => "NON_NULL" | Nullable => "NULLABLE" end.

Definition is_nullable (n : Nullability) : bool := match n with NonNull => false | Nullable => true end.

Definition FieldRole_as_str (role : FieldRole) : string :=
  match role with
  | EventTimeRole => "EVENT_TIME" | IngestionTimeRole => "INGESTION_TIME" | EventIdRole => "EVENT_ID"
  | DataRole => "DATA" | RemainderRole => "REMAINDER"
  end.

Definition EventTimeFormat_as_str (format : EventTimeFormat) : string :=
  match format with Rfc3339 => "RFC3339" | UnixMilliseconds => "UNIX_MILLISECONDS" end.

(** ** Manifests *)

Record ManifestUserField := {
  mf_name : string;
  mf_logical_type : UserLogicalType;
  mf_nullability : Nullability;
  mf_description : option string;
  mf_historical_remainder_pointer : option JsonPointer;
}.

Record ManifestSchema := { mh_version : Z; mh_fields : list ManifestUserField }.

Record ManifestEventTimeMapping := { mt_json_pointer : JsonPointer; mt_format : EventTimeFormat }.

Record ManifestFieldMapping := { mm_target_field : string; mm_json_pointer : JsonPointer }.

Record ManifestIngestionProfileRevision := {
  mr_revision : Z;
  mr_target_schema_version : Z;
  mr_maximum_record_bytes : Z;
  mr_event_time : ManifestEventTimeMapping;
  mr_mappings : list ManifestFieldMapping;
}.

Record ManifestInput := {
  mi_name : string;
  mi_active_ingestion_profile_revision : Z;
  mi_ingestion_profile_revisions : list ManifestIngestionProfileRevision;
}.

Record ManifestSource := {
  ms_name : string;
  ms_display_name : string;
  ms_active_schema_version : Z;
  ms_schemas : list ManifestSchema;
  ms_inputs : list ManifestInput;
}.

(** ** Parameters: serde_json *)

Class JsonText `{JsonLib} := {
  (** [serde_json::to_string] and [serde_json::from_str] *)
  json_to_string : Value → option string;
  json_from_str : string → option Value;
  (** [Number::from] of a [u64] *)
  Number_from_u64 : Z → Number;
}.

Definition SOURCE_DECLARATION_DOMAIN : string := "elucid:catalog:source:v1".
Definition SCHEMA_DECLARATION_DOMAIN : string := "elucid:catalog:schema:v1".
Definition INPUT_DECLARATION_DOMAIN : string := "elucid:catalog:input:v1".
Definition INGESTION_PROFILE_DECLARATION_DOMAIN : string := "elucid:catalog:ingestion-profile:v1".
Definition SCHEMA_MATERIALIZED_DOMAIN : string := "elucid:catalog:schema-materialized:v1".
Definition INPUT_MATERIALIZED_DOMAIN : string := "elucid:catalog:input-materialized:v1".
Definition INGESTION_PROFILE_MATERIALIZED_DOMAIN : string := "elucid:catalog:ingestion-profile-materialized:v1".

(** A [DeclarationDocument] or a [MaterializedDocument]: the canonical text and its digest. *)
Record Document := { doc_json : string; doc_digest : Digest }.

Section Canonical.
Context {env : SpoolEnv} {lib : JsonLib} {text : JsonText} {uuid : UuidText}.

(** ** Objects *)

(** [BTreeMap::insert] *)
Fixpoint map_insert (key : string) (v : Value) (m : list (string * Value)) : list (string * Value) :=
  match m with
  | [] => [(key, v)]
  | (k, w) :: rest =>
      match String.compare key k with
      | Lt => (key, v) :: m
      | Eq => (key, v) :: rest
      | Gt => (k, w) :: map_insert key v rest
      end
  end.

Definition map_of (entries : list (string * Value)) : list (string * Value) :=
  fold_left (λ m e, map_insert e.1 e.2 m) entries [].

Definition object (entries : list (string * Value)) : Value := VObject (map_of entries).

Definition unsigned (z : Z) : Value := VNumber (Number_from_u64 z).

Definition id_string (id : Z) : Value := VString (uuid_to_string id).

Definition pointer_string (p : JsonPointer) : Value := VString (Pointer.to_string p).

Definition pointer_tokens (p : JsonPointer) : Value := VArray (VString <$> p).

(** [if let Some(value) = …  { fields.insert(…) }] *)
Definition optional {A} (key : string) (f : A → Value) (o : option A) : list (string * Value) :=
  match o with Some a => [(key, f a)] | None => [] end.

(** ** Text and digest *)

Definition key_le (a b : string * Value) : Prop := String.compare a.1 b.1 ≠ Gt.

#[export] Instance key_le_dec a b : Decision (key_le a b).
Proof. unfold key_le. destruct (String.compare _ _); [left|left|right]; congruence. Defined.

Fixpoint sort_objects (value : Value) : Value :=
  match value with
  | VArray values => VArray (sort_objects <$> values)
  | VObject members =>
      VObject (map_of (merge_sort key_le ((λ m, (m.1, sort_objects m.2)) <$> members)))
  | scalar => scalar
  end.

Definition encode_canonical_json (value : Value) (path : string) : catalog_result string :=
  ok_or (json_to_string (sort_objects value)) (CanonicalJsonEncoding path).

(** The domains end in a NUL byte. *)
Definition digest (domain document : string) : Digest :=
  byte_of_ascii <$> (blake3 (ascii_bytes domain ++ ["000"%char] ++ ascii_bytes document)).

(** [declaration_document] and [materialized_document] *)
Definition document (domain : string) (value : Value) (path : string) : catalog_result Document :=
  json ← encode_canonical_json value path;
  Ok {| doc_json := json; doc_digest := digest domain json |}.

(** ** Schemas *)

Definition field_declaration (name logical_type nullability role : string) (description : option string)
    (historical_remainder_pointer : option JsonPointer) : Value :=
  object (optional "description" VString description
          ++ optional "historical_remainder_pointer" pointer_string historical_remainder_pointer
          ++ [("logical_type", VString logical_type); ("name", VString name);
              ("nullability", VString nullability); ("role", VString role)]).

Definition schema_declaration_value (version : Z) (fields : list Value) : Value :=
  object [("fields", VArray fields); ("format_version", unsigned 1); ("version", unsigned version)].

Definition schema_declaration (version : Z) (fields : list Value) (path : string) : catalog_result Document :=
  document SCHEMA_DECLARATION_DOMAIN (schema_declaration_value version fields) path.

Definition manifest_field_declaration (field : ManifestUserField) : Value :=
  field_declaration (mf_name field) (UserLogicalType_as_str (mf_logical_type field))
    (Nullability_as_str (mf_nullability field)) (FieldRole_as_str DataRole) (mf_description field)
    (mf_historical_remainder_pointer field).

Definition stored_field_declaration (field : Field) : Value :=
  field_declaration (f_name field) (LogicalType_as_str (f_logical_type field))
    (Nullability_as_str (f_nullability field)) (FieldRole_as_str (f_role field)) (f_description field)
    (f_historical_remainder_pointer field).

Definition manifest_schema_declaration (schema : ManifestSchema) (path : string) : catalog_result Document :=
  schema_declaration (mh_version schema) (manifest_field_declaration <$> mh_fields schema) path.

Definition stored_schema_declaration (schema : Schema) (path : string) : catalog_result Document :=
  schema_declaration (s_version schema) (stored_field_declaration <$> data_fields schema) path.

Definition logical_metadata (t : LogicalType) : Value :=
  object (optional "elucid.logical_type" VString (metadata_value t)).

Definition materialized_field (field : Field) : Value :=
  object (optional "description" VString (f_description field)
          ++ optional "historical_remainder_pointer" pointer_string (f_historical_remainder_pointer field)
          ++ optional "historical_remainder_pointer_tokens" pointer_tokens (f_historical_remainder_pointer field)
          ++ [("field_id", id_string (f_id field));
              ("logical_metadata", logical_metadata (f_logical_type field));
              ("logical_type", VString (LogicalType_as_str (f_logical_type field)));
              ("name", VString (f_name field));
              ("nullability", VString (Nullability_as_str (f_nullability field)));
              ("ordinal", unsigned (f_ordinal field));
              ("role", VString (FieldRole_as_str (f_role field)))]).

Definition arrow_type_descriptor (t : LogicalType) : Value :=
  match t with
  | Bool => object [("kind", VString "BOOLEAN")]
  | Int32 => object [("kind", VString "INT32")]
  | Int64 => object [("kind", VString "INT64")]
  | UInt32 => object [("kind", VString "UINT32")]
  | UInt64 => object [("kind", VString "UINT64")]
  | Float32 => object [("kind", VString "FLOAT32")]
  | Float64 => object [("kind", VString "FLOAT64")]
  | Utf8 | Json => object [("kind", VString "UTF8")]
  | Datetime =>
      object [("kind", VString "TIMESTAMP"); ("time_unit", VString "MILLISECOND"); ("timezone", VString "UTC")]
  | Eid => object [("byte_width", unsigned 16); ("kind", VString "FIXED_SIZE_BINARY")]
  end.

Definition arrow_field_descriptor (field : Field) : Value :=
  object [("metadata", object (("elucid.field_id", id_string (f_id field))
                               :: optional "elucid.logical_type" VString (metadata_value (f_logical_type field))));
          ("name", VString (f_name field));
          ("nullable", VBool (is_nullable (f_nullability field)));
          ("type", arrow_type_descriptor (f_logical_type field))].

Definition schema_materialized_value (schema_id source_id version : Z) (fields : list Field) : Value :=
  object [("arrow_schema_descriptor", object [("fields", VArray (arrow_field_descriptor <$> fields))]);
          ("fields", VArray (materialized_field <$> fields));
          ("schema_id", id_string schema_id);
          ("source_id", id_string source_id);
          ("version", unsigned version)].

Definition schema_materialized_parts (schema_id source_id version : Z) (fields : list Field) (path : string)
    : catalog_result Document :=
  document SCHEMA_MATERIALIZED_DOMAIN (schema_materialized_value schema_id source_id version fields) path.

Definition schema_materialized (schema : Schema) (path : string) : catalog_result Document :=
  schema_materialized_parts (s_id schema) (s_source_id schema) (s_version schema) (s_fields schema) path.

(** ** Sources and inputs *)

Definition source_declaration (name : string) : catalog_result Document :=
  document SOURCE_DECLARATION_DOMAIN (object [("name", VString name)]) "source".

Definition input_declaration (name path : string) : catalog_result Document :=
  document INPUT_DECLARATION_DOMAIN (object [("name", VString name)]) path.

Definition input_materialized (input_id source_id : Z) (name path : string) : catalog_result Document :=
  document INPUT_MATERIALIZED_DOMAIN
    (object [("input_id", id_string input_id); ("name", VString name); ("source_id", id_string source_id)]) path.

Definition stored_input_materialized (input : Input) (path : string) : catalog_result Document :=
  input_materialized (i_id input) (i_source_id input) (i_name input) path.

(** ** Ingestion profiles *)

Definition mapping_declaration (pointer : JsonPointer) (target_field : string) : Value :=
  object [("json_pointer", pointer_string pointer); ("target_field", VString target_field)].

Definition profile_declaration_value (format : EventTimeFormat) (pointer : JsonPointer) (mappings : list Value)
    (maximum_record_bytes revision target_schema_version : Z) : Value :=
  object [("event_time", object [("format", VString (EventTimeFormat_as_str format));
                                 ("json_pointer", pointer_string pointer)]);
          ("mappings", VArray mappings);
          ("maximum_record_bytes", unsigned maximum_record_bytes);
          ("revision", unsigned revision);
          ("target_schema_version", unsigned target_schema_version)].

Definition manifest_profile_declaration (revision : ManifestIngestionProfileRevision) (path : string)
    : catalog_result Document :=
  document INGESTION_PROFILE_DECLARATION_DOMAIN
    (profile_declaration_value (mt_format (mr_event_time revision)) (mt_json_pointer (mr_event_time revision))
       ((λ m, mapping_declaration (mm_json_pointer m) (mm_target_field m)) <$> mr_mappings revision)
       (mr_maximum_record_bytes revision) (mr_revision revision) (mr_target_schema_version revision)) path.

(** [target_schema.field(id).filter(|field| field.role() == FieldRole::Data)] *)
Definition data_field (schema : Schema) (field_id : FieldId) : option Field :=
  field ← schema_field schema field_id;
  if bool_decide (f_role field = DataRole) then Some field else None.

Definition stored_mapping_declaration (target_schema : Schema) (path : string) (mapping : FieldMapping)
    : catalog_result Value :=
  target ← ok_or (data_field target_schema (m_target_field_id mapping)) (Corruption path);
  Ok (mapping_declaration (m_json_pointer mapping) (f_name target)).

Definition stored_profile_declaration (revision : IngestionProfileRevision) (target_schema : Schema) (path : string)
    : catalog_result Document :=
  let profile := r_profile revision in
  mappings ← try_map (stored_mapping_declaration target_schema path) (p_mappings profile);
  document INGESTION_PROFILE_DECLARATION_DOMAIN
    (profile_declaration_value (et_format (p_event_time profile)) (et_json_pointer (p_event_time profile))
       mappings (p_maximum_record_bytes profile) (r_revision revision) (s_version target_schema)) path.

Definition materialized_mapping (mapping : FieldMapping) : Value :=
  object [("json_pointer", pointer_string (m_json_pointer mapping));
          ("json_pointer_tokens", pointer_tokens (m_json_pointer mapping));
          ("target_field_id", id_string (m_target_field_id mapping))].

Definition profile_materialized_value (revision_id input_id revision target_schema_id : Z) (profile : IngestionProfile)
    : Value :=
  object [("event_time", object [("format", VString (EventTimeFormat_as_str (et_format (p_event_time profile))));
                                 ("json_pointer", pointer_string (et_json_pointer (p_event_time profile)));
                                 ("json_pointer_tokens", pointer_tokens (et_json_pointer (p_event_time profile)))]);
          ("ingestion_profile_revision_id", id_string revision_id);
          ("input_id", id_string input_id);
          ("mappings", VArray (materialized_mapping <$> p_mappings profile));
          ("maximum_record_bytes", unsigned (p_maximum_record_bytes profile));
          ("revision", unsigned revision);
          ("target_schema_id", id_string target_schema_id)].

Definition profile_materialized_parts (revision_id input_id revision target_schema_id : Z) (profile : IngestionProfile)
    (path : string) : catalog_result Document :=
  document INGESTION_PROFILE_MATERIALIZED_DOMAIN
    (profile_materialized_value revision_id input_id revision target_schema_id profile) path.

Definition profile_materialized (revision : IngestionProfileRevision) (path : string) : catalog_result Document :=
  profile_materialized_parts (r_id revision) (r_input_id revision) (r_revision revision)
    (r_target_schema_id revision) (r_profile revision) path.

End Canonical.
