(* ===== verification/Manifest.v ===== *)
(** * elucid-catalog: decoding of manifests

    Models src/elucid/elucid-catalog/src/manifest.rs: the audit of the YAML tokens, the
    validation of a decoded document and the declarations that a manifest carries. The
    scanner of yaml-rust2 and serde_yaml's decoding into the raw document are parameters;
    the raw document holds the model's enumerations in place of their renamed copies. *)

From S2P Require Import Core CatalogTypes CatalogModel CatalogSource Bytes Frame Json Storage Canonical Prelude.

#[local] Open Scope string_scope.
#[local] Open Scope list_scope.
#[local] Open Scope Z_scope.

Definition MANIFEST_FORMAT_VERSION : Z := 1.

(** ** The raw document *)

Record RawUserField := {
  rf_name : string;
  rf_logical_type : UserLogicalType;
  rf_nullability : Nullability;
  rf_description : option string;
  rf_historical_remainder_pointer : option string;
}.

Record RawSchema := { rh_version : Z; rh_fields : list RawUserField }.

Record RawEventTimeMapping := { rt_json_pointer : string; rt_format : EventTimeFormat }.

Record RawFieldMapping := { rm_target_field : string; rm_json_pointer : string }.

Record RawIngestionProfileRevision := {
  rr_revision : Z;
  rr_target_schema_version : Z;
  rr_maximum_record_bytes : Z;
  rr_event_time : RawEventTimeMapping;
  rr_mappings : list RawFieldMapping;
}.

Record RawInput := {
  ri_name : string;
  ri_active_ingestion_profile_revision : Z;
  ri_ingestion_profile_revisions : list RawIngestionProfileRevision;
}.

Record RawSource := {
  rs_name : string;
  rs_display_name : string;
  rs_active_schema_version : Z;
  rs_schemas : list RawSchema;
  rs_inputs : list RawInput;
}.

Record RawManifest := { raw_format_version : Z; raw_source : RawSource }.

(** The tokens the audit tells apart. *)
Inductive YamlToken := VersionDirective (major minor : Z) | Alias | Tag | OtherToken.

(** The tokens of a document up to its end or to the first error of the scanner, and
    [serde_yaml::from_str]. *)
Class YamlLib := {
  yaml_tokens : bytes → list YamlToken * bool;
  yaml_decode : bytes → option RawManifest;
}.

(** ** Declarations *)

Record ManifestInputDeclarations := { di_input : Document; di_ingestion_profiles : list Document }.

Record ManifestDeclarations := {
  de_source : Document;
  de_schemas : list Document;
  de_inputs : list ManifestInputDeclarations;
}.

Record CatalogManifest := { cm_source : ManifestSource; cm_declarations : ManifestDeclarations }.

Section Manifest.
Context {env : SpoolEnv} {lib : JsonLib} {text : JsonText} {yaml : YamlLib}.

(** [iter().enumerate().map(f).collect()] without a state *)
Definition try_enumerate {A B} (f : nat → A → catalog_result B) (l : list A) : catalog_result (list B) :=
  '(ys, _) ← try_collect (λ index (_ : unit) x, y ← f index x; Ok (y, tt)) 0 tt l; Ok ys.

Definition schema_path (index : nat) : string := indexed "source.schemas" index.
Definition input_path (index : nat) : string := indexed "source.inputs" index.
Definition revision_path (input_index revision_index : nat) : string :=
  indexed (input_path input_index +:+ ".ingestion_profile_revisions") revision_index.

Definition input_declarations (input_index : nat) (input : ManifestInput) : catalog_result ManifestInputDeclarations :=
  input_declaration ← input_declaration (mi_name input) (input_path input_index);
  ingestion_profiles ← try_enumerate (λ revision_index revision,
      manifest_profile_declaration revision (revision_path input_index revision_index))
    (mi_ingestion_profile_revisions input);
  Ok {| di_input := input_declaration; di_ingestion_profiles := ingestion_profiles |}.

Definition ManifestDeclarations_new (source : ManifestSource) : catalog_result ManifestDeclarations :=
  source_declaration ← source_declaration (ms_name source);
  schemas ← try_enumerate (λ index schema, manifest_schema_declaration schema (schema_path index)) (ms_schemas source);
  inputs ← try_enumerate input_declarations (ms_inputs source);
  Ok {| de_source := source_declaration; de_schemas := schemas; de_inputs := inputs |}.

(** ** Validation *)

(** The loops over versions and revisions: each number is greater than the previous. *)
Fixpoint check_increasing (path : nat → string) (index : nat) (previous : option Z) (numbers : list Z)
    : catalog_result unit :=
  match numbers with
  | [] => Ok tt
  | actual :: rest =>
      _ ← check (match previous with Some previous => negb (actual <=? previous) | None => true end)
            (ManifestInvalid (path index));
      check_increasing path (S index) (Some actual) rest
  end.

Definition raw_pointer (value : option string) (path : string) : catalog_result (option JsonPointer) :=
  match value with
  | None => Ok None
  | Some value => pointer ← manifest_model path (Pointer.parse value); Ok (Some pointer)
  end.

Definition field_try_from_raw (path : string) (field_index : nat) (names : gset string) (field : RawUserField)
    : catalog_result (ManifestUserField * gset string) :=
  let field_path := indexed (path +:+ ".fields") field_index in
  name ← manifest_model (field_path +:+ ".name") (try_name UserFieldKind (rf_name field));
  _ ← check (bool_decide (name ∉ names)) (ManifestInvalid (field_path +:+ ".name"));
  pointer ← raw_pointer (rf_historical_remainder_pointer field) (field_path +:+ ".historical_remainder_pointer");
  Ok ({| mf_name := name; mf_logical_type := rf_logical_type field; mf_nullability := rf_nullability field;
         mf_description := rf_description field; mf_historical_remainder_pointer := pointer |},
      {[name]} ∪ names).

Definition ManifestSchema_try_from_raw (index : nat) (raw : RawSchema) : catalog_result ManifestSchema :=
  let path := schema_path index in
  version ← manifest_model (path +:+ ".version") (SchemaVersion_new (rh_version raw));
  '(fields, _) ← try_collect (field_try_from_raw path) 0 ∅ (rh_fields raw);
  Ok {| mh_version := version; mh_fields := fields |}.

Definition mapping_try_from_raw (path : string) (target_names : gset string) (mapping_index : nat)
    (mapped_names : gset string) (mapping : RawFieldMapping) : catalog_result (ManifestFieldMapping * gset string) :=
  let mapping_path := indexed (path +:+ ".mappings") mapping_index in
  target_field ← manifest_model (mapping_path +:+ ".target_field") (try_name UserFieldKind (rm_target_field mapping));
  _ ← check (bool_decide (target_field ∈ target_names)) (ProfileInvalid (mapping_path +:+ ".target_field"));
  _ ← check (bool_decide (target_field ∉ mapped_names)) (ProfileInvalid (mapping_path +:+ ".target_field"));
  json_pointer ← manifest_model (mapping_path +:+ ".json_pointer") (Pointer.parse (rm_json_pointer mapping));
  Ok ({| mm_target_field := target_field; mm_json_pointer := json_pointer |}, {[target_field]} ∪ mapped_names).

Definition field_names (schema : ManifestSchema) : gset string := list_to_set (mf_name <$> mh_fields schema).

(** Whether a field of the target schema has to be mapped and is not. *)
Definition unmapped (mapped_names : gset string) (field : ManifestUserField) : bool :=
  bool_decide (mf_nullability field = NonNull) && bool_decide (mf_name field ∉ mapped_names).

Definition ManifestIngestionProfileRevision_try_from_raw (input_index : nat) (schemas : list ManifestSchema)
    (revision_index : nat) (raw : RawIngestionProfileRevision) : catalog_result ManifestIngestionProfileRevision :=
  let path := revision_path input_index revision_index in
  revision ← manifest_model (path +:+ ".revision") (ProfileRevision_new (rr_revision raw));
  target_schema_version ← manifest_model (path +:+ ".target_schema_version")
                            (SchemaVersion_new (rr_target_schema_version raw));
  target_schema ← ok_or (find (λ schema, mh_version schema =? target_schema_version) schemas)
                    (ProfileInvalid (path +:+ ".target_schema_version"));
  event_pointer ← manifest_model (path +:+ ".event_time.json_pointer")
                    (Pointer.parse (rt_json_pointer (rr_event_time raw)));
  let event_time := {| mt_json_pointer := event_pointer; mt_format := rt_format (rr_event_time raw) |} in
  '(mappings, mapped_names) ← try_collect (mapping_try_from_raw path (field_names target_schema)) 0 ∅ (rr_mappings raw);
  _ ← check (negb (existsb (unmapped mapped_names) (mh_fields target_schema))) (ProfileInvalid (path +:+ ".mappings"));
  maximum_record_bytes ← manifest_model (path +:+ ".maximum_record_bytes")
                           (MaximumRecordBytes_new (rr_maximum_record_bytes raw));
  Ok {| mr_revision := revision; mr_target_schema_version := target_schema_version;
        mr_maximum_record_bytes := maximum_record_bytes; mr_event_time := event_time; mr_mappings := mappings |}.

Definition ManifestInput_try_from_raw (schemas : list ManifestSchema) (input_index : nat) (raw : RawInput)
    : catalog_result ManifestInput :=
  let path := input_path input_index in
  name ← manifest_model (path +:+ ".name") (try_name InputKind (ri_name raw));
  _ ← check (negb (bool_decide (length (ri_ingestion_profile_revisions raw) = 0%nat)))
        (ManifestInvalid (path +:+ ".ingestion_profile_revisions"));
  revisions ← try_enumerate (ManifestIngestionProfileRevision_try_from_raw input_index schemas)
                (ri_ingestion_profile_revisions raw);
  _ ← check_increasing (λ index, revision_path input_index index +:+ ".revision") 0 None (mr_revision <$> revisions);
  active ← manifest_model (path +:+ ".active_ingestion_profile_revision")
             (ProfileRevision_new (ri_active_ingestion_profile_revision raw));
  _ ← check (existsb (λ revision, mr_revision revision =? active) revisions)
        (ManifestInvalid (path +:+ ".active_ingestion_profile_revision"));
  Ok {| mi_name := name; mi_active_ingestion_profile_revision := active;
        mi_ingestion_profile_revisions := revisions |}.

Definition input_step (schemas : list ManifestSchema) (index : nat) (input_names : gset string) (raw : RawInput)
    : catalog_result (ManifestInput * gset string) :=
  input ← ManifestInput_try_from_raw schemas index raw;
  _ ← check (bool_decide (mi_name input ∉ input_names)) (ManifestInvalid (input_path index +:+ ".name"));
  Ok (input, {[mi_name input]} ∪ input_names).

Definition ManifestSource_try_from (raw : RawSource) : catalog_result ManifestSource :=
  name ← manifest_model "source.name" (try_name SourceKind (rs_name raw));
  _ ← check (negb (bool_decide (length (rs_schemas raw) = 0%nat))) (ManifestInvalid "source.schemas");
  schemas ← try_enumerate ManifestSchema_try_from_raw (rs_schemas raw);
  _ ← check_increasing (λ index, schema_path index +:+ ".version") 0 None (mh_version <$> schemas);
  active_schema_version ← manifest_model "source.active_schema_version"
                            (SchemaVersion_new (rs_active_schema_version raw));
  _ ← check (existsb (λ schema, mh_version schema =? active_schema_version) schemas)
        (ManifestInvalid "source.active_schema_version");
  '(inputs, _) ← try_collect (input_step schemas) 0 ∅ (rs_inputs raw);
  Ok {| ms_name := name; ms_display_name := rs_display_name raw;
        ms_active_schema_version := active_schema_version; ms_schemas := schemas; ms_inputs := inputs |}.

Definition CatalogManifest_try_from (raw : RawManifest) : catalog_result CatalogManifest :=
  _ ← check (raw_format_version raw =? MANIFEST_FORMAT_VERSION) (ManifestInvalid "format_version");
  source ← ManifestSource_try_from (raw_source raw);
  declarations ← ManifestDeclarations_new source;
  Ok {| cm_source := source; cm_declarations := declarations |}.

(** ** Decoding *)

Definition audit_token (token : YamlToken) : bool :=
  match token with
  | VersionDirective major minor => (major =? 1) && (minor =? 2)
  | Alias | Tag => false
  | OtherToken => true
  end.

Definition audit_yaml_syntax (document : bytes) : catalog_result unit :=
  let '(tokens, complete) := yaml_tokens document in
  _ ← check (forallb audit_token tokens) (ManifestInvalid "$");
  check complete (ManifestYamlSyntax "$").

Definition decode (b : bytes) : catalog_result CatalogManifest :=
  _ ← check (utf8_valid b) (ManifestNotUtf8 "$");
  _ ← audit_yaml_syntax b;
  raw ← ok_or (yaml_decode b) (ManifestYamlDecode "$");
  CatalogManifest_try_from raw.

End Manifest.
