(* ===== verification/Application.v ===== *)
(** * elucid-catalog: planning the application of a manifest

    Models src/elucid/elucid-catalog/src/application.rs: a manifest is compared with the
    stored source of its name, definitions that are already stored must be declared
    unchanged, and what is new receives identities from a generator. The generator is a
    parameter with its own state. The declarations of a manifest are indexed like the
    definitions they declare, so the lookups are total. *)

From S2P Require Import Core CatalogTypes CatalogModel CatalogSource Bytes Frame Json Storage Canonical Manifest Prelude.
Import Schema.

#[local] Open Scope string_scope.
#[local] Open Scope list_scope.
#[local] Open Scope Z_scope.

(** ** Data *)

Inductive CatalogApplicationOutcome := Created | Updated | Unchanged.

Inductive CatalogEntityDisposition := Existing | Create.

#[export] Instance CatalogEntityDisposition_eq_dec : EqDecision CatalogEntityDisposition.
Proof. solve_decision. Defined.

#[export] Instance CatalogApplicationOutcome_eq_dec : EqDecision CatalogApplicationOutcome.
Proof. solve_decision. Defined.

Definition CatalogApplicationOutcome_as_str (outcome : CatalogApplicationOutcome) : string :=
  match outcome with Created => "CREATED" | Updated => "UPDATED" | Unchanged => "UNCHANGED" end.

(** The trait [CatalogIdentityGenerator]: the generator is consumed and replaced. *)
Class CatalogIdentityGenerator (G : Type) := {
  generate_source_id : G → SourceId * G;
  generate_schema_id : G → SchemaId * G;
  generate_field_id : G → FieldId * G;
  generate_input_id : G → InputId * G;
  generate_ingestion_profile_revision_id : G → IngestionProfileRevisionId * G;
}.

Record PlannedSourceDefinition := {
  ps_source_id : SourceId;
  ps_disposition : CatalogEntityDisposition;
  ps_declaration : Document;
}.

Record PlannedSchemaDefinition := {
  ph_schema_id : SchemaId;
  ph_schema_version : Z;
  ph_disposition : CatalogEntityDisposition;
  ph_declaration : Document;
  ph_materialized : Document;
}.

Record PlannedIngestionProfileDefinition := {
  pp_ingestion_profile_revision_id : IngestionProfileRevisionId;
  pp_revision : Z;
  pp_disposition : CatalogEntityDisposition;
  pp_declaration : Document;
  pp_materialized : Document;
}.

Record PlannedInputDefinition := {
  pi_input_id : InputId;
  pi_disposition : CatalogEntityDisposition;
  pi_declaration : Document;
  pi_materialized : Document;
}.

Record CatalogApplicationPlan := {
  plan_outcome : CatalogApplicationOutcome;
  plan_source : Source;
  plan_source_definition : PlannedSourceDefinition;
  plan_schema_definitions : list PlannedSchemaDefinition;
  plan_input_definitions : list PlannedInputDefinition;
  plan_ingestion_profile_definitions : list PlannedIngestionProfileDefinition;
}.

#[export] Instance Document_inhabited : Inhabited Document := populate {| doc_json := ""; doc_digest := [] |}.
#[export] Instance ManifestInputDeclarations_inhabited : Inhabited ManifestInputDeclarations :=
  populate {| di_input := inhabitant; di_ingestion_profiles := [] |}.

Section Application.
Context {env : SpoolEnv} {lib : JsonLib} {text : JsonText} {uuid : UuidText}.
Context {G : Type} {generator : CatalogIdentityGenerator G}.

(** ** Verification of stored definitions *)

(** [verify_declaration_digest] and [verify_materialized_digest] *)
Definition verify_digest (path : string) (stored computed : Digest) : catalog_result unit :=
  check (bool_decide (stored = computed)) (Corruption path).

Definition verify_stored_schema (schema : Schema) (path : string) : catalog_result unit :=
  declaration ← stored_schema_declaration schema path;
  _ ← verify_digest path (s_declaration_digest schema) (doc_digest declaration);
  materialized ← schema_materialized schema path;
  verify_digest path (s_materialized_digest schema) (doc_digest materialized).

Definition verify_stored_input (input : Input) (path : string) : catalog_result unit :=
  declaration ← input_declaration (i_name input) path;
  _ ← verify_digest path (i_declaration_digest input) (doc_digest declaration);
  materialized ← stored_input_materialized input path;
  verify_digest path (i_materialized_digest input) (doc_digest materialized).

Definition verify_stored_profile (revision : IngestionProfileRevision) (target_schema : Schema) (path : string)
    : catalog_result unit :=
  declaration ← stored_profile_declaration revision target_schema path;
  _ ← verify_digest path (r_declaration_digest revision) (doc_digest declaration);
  materialized ← profile_materialized revision path;
  verify_digest path (r_materialized_digest revision) (doc_digest materialized).

Definition validate_current_source_name (manifest : CatalogManifest) (current : option Source) : catalog_result unit :=
  match current with
  | Some source => check (bool_decide (src_name source = ms_name (cm_source manifest))) (Corruption "source.name")
  | None => Ok tt
  end.

(** ** Schemas *)

(** The user field of a declared field, with the identity its name already has. *)
Definition plan_user_field (path : string) (field_id_by_name : gmap string FieldId) (_ : nat) (g : G)
    (field : ManifestUserField) : catalog_result (UserField * G) :=
  let '(field_id, g) :=
    match field_id_by_name !! mf_name field with Some id => (id, g) | None => generate_field_id g end in
  user_field ← manifest_model (path +:+ ".fields")
                 (UserField_new field_id (mf_name field) (mf_logical_type field) (mf_nullability field));
  let user_field := match mf_description field with
                    | Some description => with_description user_field description
                    | None => user_field
                    end in
  user_field ← match mf_historical_remainder_pointer field with
               | Some pointer => manifest_model (path +:+ ".fields") (with_historical_remainder_pointer user_field pointer)
               | None => Ok user_field
               end;
  Ok (user_field, g).

(** [field_id_by_name.insert(…)] for every data field *)
Definition remember_fields (field_id_by_name : gmap string FieldId) (schema : Schema) : gmap string FieldId :=
  fold_left (λ m f, <[f_name f := f_id f]> m) (data_fields schema) field_id_by_name.

Definition create_schema (source_id : SourceId) (path : string) (declaration : Document)
    (field_id_by_name : gmap string FieldId) (g : G) (declared : ManifestSchema)
    : catalog_result (Schema * Document * G) :=
  let '(schema_id, g) := generate_schema_id g in
  '(user_fields, g) ← try_collect (plan_user_field path field_id_by_name) 0 g (mh_fields declared);
  fields ← manifest_model path (materialize_user_fields user_fields);
  materialized ← schema_materialized_parts schema_id source_id (mh_version declared) fields path;
  Ok ({| s_id := schema_id; s_source_id := source_id; s_version := mh_version declared;
         s_declaration_digest := doc_digest declaration; s_materialized_digest := doc_digest materialized;
         s_fields := fields |}, materialized, g).

Definition plan_schema (declarations : list Document) (current_schemas : list Schema) (source_id : SourceId)
    (index : nat) (state : gmap string FieldId * G) (declared : ManifestSchema)
    : catalog_result ((Schema * PlannedSchemaDefinition) * (gmap string FieldId * G)) :=
  let '(field_id_by_name, g) := state in
  let path := schema_path index in
  let declaration := declarations !!! index in
  '(schema, materialized, disposition, g) ←
    match current_schemas !! index with
    | Some stored =>
        _ ← verify_stored_schema stored path;
        _ ← check (bool_decide (s_declaration_digest stored = doc_digest declaration)) (DefinitionConflict path);
        materialized ← schema_materialized stored path;
        Ok (stored, materialized, Existing, g)
    | None =>
        '(schema, materialized, g) ← create_schema source_id path declaration field_id_by_name g declared;
        Ok (schema, materialized, Create, g)
    end;
  Ok ((schema, {| ph_schema_id := s_id schema; ph_schema_version := s_version schema; ph_disposition := disposition;
                  ph_declaration := declaration; ph_materialized := materialized |}),
      (remember_fields field_id_by_name schema, g)).

Definition current_schemas (current : option Source) : list Schema :=
  match current with Some source => src_schemas source | None => [] end.

Definition plan_schemas (manifest : CatalogManifest) (current : option Source) (source_id : SourceId) (g : G)
    : catalog_result (list (Schema * PlannedSchemaDefinition) * G) :=
  let declared := ms_schemas (cm_source manifest) in
  _ ← check (length (current_schemas current) <=? length declared)%nat (HistoryDiverged "source.schemas");
  '(planned, (_, g)) ← try_collect (plan_schema (de_schemas (cm_declarations manifest)) (current_schemas current) source_id)
                         0 (∅, g) declared;
  Ok (planned, g).

(** ** Ingestion profiles *)

Definition schema_by_version (schemas : list Schema) (version : Z) : option Schema :=
  find (λ schema, s_version schema =? version) schemas.

Definition materialize_mapping (target_schema : Schema) (path : string) (mapping : ManifestFieldMapping)
    : catalog_result FieldMapping :=
  field ← ok_or (find (λ field, bool_decide (f_role field = DataRole) && bool_decide (f_name field = mm_target_field mapping))
                   (s_fields target_schema)) (ProfileInvalid path);
  manifest_model path (FieldMapping_new (f_id field) (mm_json_pointer mapping)).

Definition materialize_profile (revision : ManifestIngestionProfileRevision) (target_schema : Schema) (path : string)
    : catalog_result IngestionProfile :=
  mappings ← try_map (materialize_mapping target_schema path) (mr_mappings revision);
  manifest_model path
    (IngestionProfile_new (mr_maximum_record_bytes revision)
       {| et_json_pointer := mt_json_pointer (mr_event_time revision); et_format := mt_format (mr_event_time revision) |}
       mappings).

Definition plan_profile (declarations : list Document) (stored_revisions : list IngestionProfileRevision)
    (input_id : InputId) (schemas : list Schema) (input_path : string)
    (index : nat) (g : G) (declared : ManifestIngestionProfileRevision)
    : catalog_result ((IngestionProfileRevision * PlannedIngestionProfileDefinition) * G) :=
  let path := indexed (input_path +:+ ".ingestion_profile_revisions") index in
  let declaration := declarations !!! index in
  target_schema ← ok_or (schema_by_version schemas (mr_target_schema_version declared)) (Corruption path);
  '(revision, materialized, disposition, g) ←
    match stored_revisions !! index with
    | Some stored =>
        stored_target ← ok_or (find (λ schema, s_id schema =? r_target_schema_id stored) schemas) (Corruption path);
        _ ← verify_stored_profile stored stored_target path;
        _ ← check (bool_decide (r_declaration_digest stored = doc_digest declaration)) (DefinitionConflict path);
        materialized ← profile_materialized stored path;
        Ok (stored, materialized, Existing, g)
    | None =>
        let '(revision_id, g) := generate_ingestion_profile_revision_id g in
        profile ← materialize_profile declared target_schema path;
        materialized ← profile_materialized_parts revision_id input_id (mr_revision declared) (s_id target_schema)
                         profile path;
        Ok ({| r_id := revision_id; r_input_id := input_id; r_revision := mr_revision declared;
               r_target_schema_id := s_id target_schema; r_declaration_digest := doc_digest declaration;
               r_materialized_digest := doc_digest materialized; r_profile := profile |}, materialized, Create, g)
    end;
  Ok ((revision, {| pp_ingestion_profile_revision_id := r_id revision; pp_revision := r_revision revision;
                    pp_disposition := disposition; pp_declaration := declaration; pp_materialized := materialized |}), g).

Definition stored_revisions (stored_input : option Input) : list IngestionProfileRevision :=
  match stored_input with Some input => i_profile_revisions input | None => [] end.

Definition plan_profiles (declared_input : ManifestInput) (declarations : list Document) (stored_input : option Input)
    (input_id : InputId) (schemas : list Schema) (input_path : string) (g : G)
    : catalog_result (list (IngestionProfileRevision * PlannedIngestionProfileDefinition) * G) :=
  let declared := mi_ingestion_profile_revisions declared_input in
  _ ← check (length (stored_revisions stored_input) <=? length declared)%nat
        (HistoryDiverged (input_path +:+ ".ingestion_profile_revisions"));
  try_collect (plan_profile declarations (stored_revisions stored_input) input_id schemas input_path) 0 g declared.

(** ** Inputs *)

Definition current_inputs (current : option Source) : list Input :=
  match current with Some source => src_inputs source | None => [] end.

(** [current_by_name.get(name)]: the map keeps the last input of a name. *)
Definition input_by_name (inputs : list Input) (name : string) : option Input :=
  find (λ input, bool_decide (i_name input = name)) (reverse inputs).

(** [format!("source.inputs[{:?}]", name)] *)
Definition input_name_path (name : string) : string :=
  "source.inputs[" +:+ String "034" (name +:+ String "034" "]").

Definition plan_input (manifest : CatalogManifest) (current : option Source) (source_id : SourceId) (schemas : list Schema)
    (_ : nat) (g : G) (declared : nat * ManifestInput)
    : catalog_result ((Input * PlannedInputDefinition * list PlannedIngestionProfileDefinition) * G) :=
  let '(input_index, declared_input) := declared in
  let path := input_name_path (mi_name declared_input) in
  let declarations := de_inputs (cm_declarations manifest) !!! input_index in
  let declaration := di_input declarations in
  let stored := input_by_name (current_inputs current) (mi_name declared_input) in
  '(input_id, input_disposition, g) ←
    match stored with
    | Some stored =>
        _ ← verify_stored_input stored path;
        _ ← check (bool_decide (i_declaration_digest stored = doc_digest declaration)) (DefinitionConflict path);
        Ok (i_id stored, Existing, g)
    | None => let '(id, g) := generate_input_id g in Ok (id, Create, g)
    end;
  materialized ← input_materialized input_id source_id (mi_name declared_input) path;
  _ ← match stored with
      | Some stored => verify_digest path (i_materialized_digest stored) (doc_digest materialized)
      | None => Ok tt
      end;
  '(planned, g) ← plan_profiles declared_input (di_ingestion_profiles declarations) stored input_id schemas path g;
  let revisions := planned.*1 in
  active ← ok_or (find (λ revision, r_revision revision =? mi_active_ingestion_profile_revision declared_input) revisions)
             (Corruption path);
  input ← manifest_model path
            (Input_new input_id source_id (mi_name declared_input) (doc_digest declaration) (doc_digest materialized)
               (r_id active) revisions);
  Ok ((input, {| pi_input_id := input_id; pi_disposition := input_disposition;
                 pi_declaration := declaration; pi_materialized := materialized |}, planned.*2), g).

(** [declared_inputs.sort_unstable_by(|(_, left), (_, right)| left.name.cmp(&right.name))] *)
Definition input_name_le (a b : nat * ManifestInput) : Prop := String.compare (mi_name a.2) (mi_name b.2) ≠ Gt.

#[export] Instance input_name_le_dec a b : Decision (input_name_le a b).
Proof. unfold input_name_le. destruct (String.compare _ _); [left|left|right]; congruence. Defined.

Definition declared_inputs (manifest : CatalogManifest) : list (nat * ManifestInput) :=
  merge_sort input_name_le (imap pair (ms_inputs (cm_source manifest))).

Definition plan_inputs (manifest : CatalogManifest) (current : option Source) (source_id : SourceId)
    (schemas : list Schema) (g : G)
    : catalog_result (list (Input * PlannedInputDefinition * list PlannedIngestionProfileDefinition) * G) :=
  let declared_names : gset string := list_to_set (mi_name <$> ms_inputs (cm_source manifest)) in
  _ ← check (forallb (λ input, bool_decide (i_name input ∈ declared_names)) (current_inputs current))
        (HistoryDiverged "source.inputs");
  try_collect (plan_input manifest current source_id schemas) 0 g (declared_inputs manifest).

(** ** The plan *)

Definition active_profile_pointer_changed (current : Source) (desired_inputs : list Input) : bool :=
  existsb (λ desired,
      match find (λ stored, bool_decide (i_name stored = i_name desired)) (src_inputs current) with
      | Some stored => bool_decide (r_id <$> active_profile_revision stored ≠ r_id <$> active_profile_revision desired)
      | None => false
      end) desired_inputs.

Definition catalog_source_error (error : CatalogModelError) : CatalogApplicationError :=
  match error with
  | SchemaHistoryIncompatible earlier later reason => SchemaIncompatible "source.schemas" earlier later reason
  | _ => Corruption "source"
  end.

Definition is_create (disposition : CatalogEntityDisposition) : bool := bool_decide (disposition = Create).

Definition outcome_of (created_immutable mutable_change : bool) : CatalogApplicationOutcome :=
  if created_immutable then Created else if mutable_change then Updated else Unchanged.

Definition plan_catalog_application (manifest : CatalogManifest) (current : option Source) (g : G)
    : catalog_result (CatalogApplicationPlan * G) :=
  _ ← validate_current_source_name manifest current;
  let declared := cm_source manifest in
  let source_declaration := de_source (cm_declarations manifest) in
  '(source_id, source_disposition, g) ←
    match current with
    | Some source =>
        _ ← verify_digest "source" (src_declaration_digest source) (doc_digest source_declaration);
        Ok (src_id source, Existing, g)
    | None => let '(id, g) := generate_source_id g in Ok (id, Create, g)
    end;
  '(planned_schemas, g) ← plan_schemas manifest current source_id g;
  let schemas := planned_schemas.*1 in
  active_schema ← ok_or (schema_by_version schemas (ms_active_schema_version declared))
                    (Corruption "source.active_schema_version");
  '(planned_inputs, g) ← plan_inputs manifest current source_id schemas g;
  let inputs := planned_inputs.*1.*1 in
  let mutable_change :=
    match current with
    | Some source =>
        negb (bool_decide (src_display_name source = ms_display_name declared))
        || negb (bool_decide (s_id <$> CatalogSource.active_schema source = Some (s_id active_schema)))
        || active_profile_pointer_changed source inputs
    | None => false
    end in
  source ← map_err catalog_source_error
             (Source_new source_id (ms_name declared) (ms_display_name declared) (doc_digest source_declaration)
                (s_id active_schema) schemas inputs);
  let schema_definitions := planned_schemas.*2 in
  let input_definitions := planned_inputs.*1.*2 in
  let profile_definitions := concat planned_inputs.*2 in
  let created_immutable :=
    is_create source_disposition
    || existsb (λ d, is_create (ph_disposition d)) schema_definitions
    || existsb (λ d, is_create (pi_disposition d)) input_definitions
    || existsb (λ d, is_create (pp_disposition d)) profile_definitions in
  Ok ({| plan_outcome := outcome_of created_immutable mutable_change;
         plan_source := source;
         plan_source_definition := {| ps_source_id := source_id; ps_disposition := source_disposition;
                                      ps_declaration := source_declaration |};
         plan_schema_definitions := schema_definitions;
         plan_input_definitions := input_definitions;
         plan_ingestion_profile_definitions := profile_definitions |}, g).

End Application.
