(* ===== verification/ApplicationCorrect.v ===== *)
(** * Catalog application: stored definitions are permanent

    Applying a manifest keeps every stored definition and its identity and only appends;
    a definition that is kept is declared exactly as it is stored, unless two documents
    have the same BLAKE3 digest; and applying a manifest again changes nothing. *)

From S2P Require Import Core CatalogTypes CatalogModel CatalogSource Bytes Frame Json Storage Canonical Manifest Application Prelude.
Import Schema.

#[local] Open Scope string_scope.
#[local] Open Scope list_scope.
#[local] Open Scope Z_scope.

(** ** Traversals *)

Lemma try_collect_lookup {E T A B} (f : nat → T → A → result E (B * T)) l : ∀ i s ys s',
  try_collect f i s l = Ok (ys, s') →
  length ys = length l ∧
  ∀ k x, l !! k = Some x → ∃ y t t', ys !! k = Some y ∧ f (i + k)%nat t x = Ok (y, t').
Proof.
  induction l as [|x l IH]; intros i s ys s' H; cbn in H.
  { injection H as <- <-. split; [done|]. intros k y. by rewrite lookup_nil. }
  apply bind_Ok in H as ([y t] & Hf & H). apply bind_Ok in H as ([ys' t'] & Hc & H). injection H as <- <-.
  destruct (IH _ _ _ _ Hc) as [Hlen Hall]. split; [cbn; lia|]. intros [|k] z Hz; cbn in Hz.
  - injection Hz as ->. exists y, s, t. by rewrite Nat.add_0_r.
  - destruct (Hall k z Hz) as (y' & t1 & t2 & Hy & Hr). exists y', t1, t2. split; [done|].
    by replace (i + S k)%nat with (S i + k)%nat by lia.
Qed.

(** A traversal succeeds with given results when every round does from every state it can
    be in. *)
Lemma try_collect_total {E T A B} (P : T → Prop) (f : nat → T → A → result E (B * T)) l : ∀ i s ys,
  length ys = length l → P s →
  (∀ k x y t, l !! k = Some x → ys !! k = Some y → P t → ∃ t', f (i + k)%nat t x = Ok (y, t') ∧ P t') →
  ∃ s', try_collect f i s l = Ok (ys, s') ∧ P s'.
Proof.
  induction l as [|x l IH]; intros i s ys Hlen Hs Hf.
  { destruct ys; [|done]. by exists s. }
  destruct ys as [|y ys]; [done|]. cbn.
  destruct (Hf 0%nat x y s eq_refl eq_refl Hs) as (t & E1 & Ht). rewrite Nat.add_0_r in E1. rewrite E1. cbn.
  destruct (IH (S i) t ys) as (s' & E2 & Hs'); [by injection Hlen | done | |].
  - intros k x' y' t0 Hx Hy Ht0. replace (S i + k)%nat with (i + S k)%nat by lia. by apply Hf.
  - rewrite E2. cbn. by exists s'.
Qed.

Lemma try_enumerate_lookup {A B} (f : nat → A → catalog_result B) l ys :
  try_enumerate f l = Ok ys →
  length ys = length l ∧ ∀ k x, l !! k = Some x → ∃ y, ys !! k = Some y ∧ f k x = Ok y.
Proof.
  unfold try_enumerate. intros H. apply bind_Ok in H as ([ys' t] & H & Hy). injection Hy as <-.
  destruct (try_collect_lookup _ _ _ _ _ _ H) as [Hlen Hall]. split; [done|]. intros k x Hx.
  destruct (Hall k x Hx) as (y & t1 & t2 & Hy & Hf). apply bind_Ok in Hf as (y' & Hf & E). injection E as <- _. eauto.
Qed.

(** ** Searches *)

Lemma find_unique {A K} `{EqDecision K} (key : A → K) (p : A → bool) (l : list A) x :
  NoDup (key <$> l) → x ∈ l → (∀ y, y ∈ l → p y = true ↔ key y = key x) → find p l = Some x.
Proof.
  intros Hnd Hx Hp. destruct (find_is_Some p l x Hx) as [y Hy]; [by apply Hp|]. rewrite ?Hy.
  apply find_Some in Hy as [Hin Hy]. apply Hp in Hy; [|done]. f_equal.
  apply list_elem_of_lookup in Hin as [i Hi], Hx as [j Hj].
  assert (i = j) by (eapply (NoDup_lookup _ i j (key x) Hnd); apply list_lookup_fmap_Some; eauto). congruence.
Qed.

Lemma prefix_of_lookup {A} (l k : list A) : (∀ i x, l !! i = Some x → k !! i = Some x) → l `prefix_of` k.
Proof.
  revert k; induction l as [|x l IH]; intros k H; [apply prefix_nil|].
  destruct k as [|y k]; [by specialize (H 0%nat x eq_refl)|]. specialize (H 0%nat x eq_refl) as E. injection E as ->.
  apply prefix_cons, IH. intros i z Hz. by apply (H (S i)).
Qed.

Section Application.
Context {env : SpoolEnv} {lib : JsonLib} {text : JsonText} {uuid : UuidText}.
Context {G : Type} {generator : CatalogIdentityGenerator G}.

(** ** Documents *)

(** A document does not depend on the path that its errors name. *)
Lemma document_path domain v p1 p2 d : document domain v p1 = Ok d → document domain v p2 = Ok d.
Proof.
  unfold document, encode_canonical_json. destruct (json_to_string _); intros H; [exact H | discriminate H].
Qed.

(** A manifest as [decode] builds it: the declarations are those of the source. *)
Definition manifest_consistent (m : CatalogManifest) : Prop :=
  ManifestDeclarations_new (cm_source m) = Ok (cm_declarations m).

Lemma consistent_source m :
  manifest_consistent m → source_declaration (ms_name (cm_source m)) = Ok (de_source (cm_declarations m)).
Proof. unfold manifest_consistent, ManifestDeclarations_new. intros H. inv_ok. by rewrite <- H. Qed.

Lemma lookup_total_eq {A} `{Inhabited A} (l : list A) i x : l !! i = Some x → l !!! i = x.
Proof. intros. by rewrite list_lookup_total_alt, H0. Qed.

Lemma consistent_schema m i declared path :
  manifest_consistent m → ms_schemas (cm_source m) !! i = Some declared →
  manifest_schema_declaration declared path = Ok (de_schemas (cm_declarations m) !!! i).
Proof.
  unfold manifest_consistent, ManifestDeclarations_new. intros H Hi. inv_ok. rewrite <- H. cbn.
  match goal with H : try_enumerate _ (ms_schemas _) = Ok _ |- _ =>
    destruct (try_enumerate_lookup _ _ _ H) as [_ Hall] end.
  destruct (Hall i declared Hi) as (y & Hy & Hd). rewrite (lookup_total_eq _ _ _ Hy).
  unfold manifest_schema_declaration, schema_declaration in *. by eapply document_path.
Qed.

Lemma consistent_input m i declared path :
  manifest_consistent m → ms_inputs (cm_source m) !! i = Some declared →
  input_declaration (mi_name declared) path = Ok (di_input (de_inputs (cm_declarations m) !!! i)) ∧
  ∀ k revision path', mi_ingestion_profile_revisions declared !! k = Some revision →
    manifest_profile_declaration revision path' = Ok (di_ingestion_profiles (de_inputs (cm_declarations m) !!! i) !!! k).
Proof.
  unfold manifest_consistent, ManifestDeclarations_new. intros H Hi. inv_ok. rewrite <- H. cbn.
  match goal with H : try_enumerate _ (ms_inputs _) = Ok _ |- _ =>
    destruct (try_enumerate_lookup _ _ _ H) as [_ Hall] end.
  destruct (Hall i declared Hi) as (y & Hy & Hd). rewrite (lookup_total_eq _ _ _ Hy).
  unfold input_declarations in Hd. apply bind_Ok in Hd as (d & Hd & Hp). apply bind_Ok in Hp as (ps & Hp & Hr).
  injection Hr as <-. cbn. split; [by eapply document_path|]. intros k revision path' Hk.
  destruct (try_enumerate_lookup _ _ _ Hp) as [_ Hps]. destruct (Hps k revision Hk) as (y' & Hy' & Hd').
  rewrite (lookup_total_eq _ _ _ Hy'). by eapply document_path.
Qed.

(** ** Created schemas *)

(** A user field as it was declared. *)
Record declared_as (f : ManifestUserField) (u : UserField) : Prop := {
  da_name : uf_name u = mf_name f;
  da_type : uf_logical_type u = mf_logical_type f;
  da_nullability : uf_nullability u = mf_nullability f;
  da_description : uf_description u = mf_description f;
  da_pointer : uf_historical_remainder_pointer u = mf_historical_remainder_pointer f;
  da_not_system : is_system (uf_id u) = false;
  da_nullable : is_Some (uf_historical_remainder_pointer u) → uf_nullability u = Nullable;
}.

Lemma plan_user_field_declared path ids k g f u g' :
  plan_user_field path ids k g f = Ok (u, g') → declared_as f u.
Proof.
  unfold plan_user_field, UserField_new, with_historical_remainder_pointer, manifest_model.
  destruct (match ids !! mf_name f with Some id => (id, g) | None => generate_field_id g end) as [id g1].
  destruct (is_system id) eqn:Hsys; [done|]. cbn [map_err mbind result_bind].
  destruct (mf_description f) as [d|] eqn:Hd, (mf_historical_remainder_pointer f) as [p|] eqn:Hp;
    cbn [with_description uf_nullability]; try case_bool_decide as Hn; cbn; intros H; try done; injection H as <- <-;
    constructor; cbn; try done; try congruence; intros [? ?]; try done; by apply dec_stable.
Qed.

Lemma user_logical_type_str t : LogicalType_as_str (logical_type_of_user t) = UserLogicalType_as_str t.
Proof. by destruct t. Qed.

(** The declaration of a materialized schema is the one it was made from. *)
Lemma created_declaration fields users version path schema :
  Forall2 declared_as fields users → s_fields schema = layout users → s_version schema = version →
  stored_schema_declaration schema path =
  manifest_schema_declaration {| mh_version := version; mh_fields := fields |} path.
Proof.
  intros Hf Hs <-. unfold stored_schema_declaration, manifest_schema_declaration, data_fields. cbn. f_equal.
  rewrite Hs, layout_data. rewrite (fmap_user_fields stored_field_declaration
    (λ u, stored_field_declaration (field_of_user u 0)) users 3) by done. clear Hs.
  induction Hf as [|f u fields users [] Hf IH]; [done|]. rewrite !fmap_cons, IH. f_equal.
  unfold stored_field_declaration, manifest_field_declaration. cbn.
  by rewrite da_name0, da_type0, da_nullability0, da_description0, da_pointer0, user_logical_type_str.
Qed.


(** ** Planning what is planned already *)

(** A definition as it is planned when it is stored. *)
Definition schema_definition_stored (d : PlannedSchemaDefinition) : PlannedSchemaDefinition :=
  {| ph_schema_id := ph_schema_id d; ph_schema_version := ph_schema_version d; ph_disposition := Existing;
     ph_declaration := ph_declaration d; ph_materialized := ph_materialized d |}.

Definition profile_definition_stored (d : PlannedIngestionProfileDefinition) : PlannedIngestionProfileDefinition :=
  {| pp_ingestion_profile_revision_id := pp_ingestion_profile_revision_id d; pp_revision := pp_revision d;
     pp_disposition := Existing; pp_declaration := pp_declaration d; pp_materialized := pp_materialized d |}.

Definition input_definition_stored (d : PlannedInputDefinition) : PlannedInputDefinition :=
  {| pi_input_id := pi_input_id d; pi_disposition := Existing;
     pi_declaration := pi_declaration d; pi_materialized := pi_materialized d |}.

Lemma verify_digest_same path (d : Digest) : verify_digest path d d = Ok tt.
Proof. unfold verify_digest. by rewrite bool_decide_true. Qed.

Lemma plan_user_fields_declared path ids i g fields users g' :
  try_collect (plan_user_field path ids) i g fields = Ok (users, g') → Forall2 declared_as fields users.
Proof.
  intros H. destruct (try_collect_lookup _ _ _ _ _ _ H) as [Hlen Hall]. apply Forall2_same_length_lookup_2; [done|].
  intros k f u Hf Hu. destruct (Hall k f Hf) as (u' & t & t' & Hu' & Hp). simplify_eq. by eapply plan_user_field_declared.
Qed.

(** What planning gives for a declared schema: the definition as it is stored, which
    verifies and is declared like this. *)
Record schema_planned (declaration : Document) (path : string) (schema : Schema) (d : PlannedSchemaDefinition) : Prop := {
  sp_verified : verify_stored_schema schema path = Ok tt;
  sp_digest : s_declaration_digest schema = doc_digest declaration;
  sp_materialized : schema_materialized schema path = Ok (ph_materialized d);
  sp_id : ph_schema_id d = s_id schema;
  sp_version : ph_schema_version d = s_version schema;
  sp_declaration : ph_declaration d = declaration;
}.

Lemma create_schema_planned source_id path declaration ids g declared schema materialized g' :
  manifest_schema_declaration declared path = Ok declaration →
  create_schema source_id path declaration ids g declared = Ok (schema, materialized, g') →
  verify_stored_schema schema path = Ok tt ∧ s_declaration_digest schema = doc_digest declaration ∧
  schema_materialized schema path = Ok materialized ∧ NoDup (f_id <$> s_fields schema).
Proof.
  intros Hd. unfold create_schema. destruct (generate_schema_id g) as [id g1]. intros H.
  apply bind_Ok in H as ([users g2] & Hu & H). apply bind_Ok in H as (fields & Hf & H). apply bind_Ok in H as (mat & Hm & H).
  injection H as <- <- <-. apply map_err_Ok, materialize_Ok in Hf as (Hid & _ & _ & ->).
  apply plan_user_fields_declared in Hu. unfold verify_stored_schema.
  rewrite (created_declaration (mh_fields declared) users (mh_version declared)) by done.
  replace {| mh_version := _; mh_fields := _ |} with declared by (by destruct declared). rewrite Hd, bind_ret.
  unfold schema_materialized. cbn [s_declaration_digest s_id s_source_id s_version s_fields s_materialized_digest].
  rewrite verify_digest_same, bind_ret, Hm, bind_ret, verify_digest_same. split_and!; try done.
  apply (layout_NoDup f_id uf_id); [done | apply (bool_decide_unpack _); vm_compute; done | | done].
  intros u s Hin Hs. assert (Hns : is_system (uf_id u) = false).
  { apply list_elem_of_lookup_1 in Hin as [k Hk]. destruct (Forall2_lookup_r _ _ _ _ _ Hu Hk) as (f & _ & Hda). apply Hda. }
  eapply (system_cases s _ (λ s, uf_id u ≠ f_id s) Hs); [repeat constructor|];
    intros E; simpl in E; rewrite E in Hns; vm_compute in Hns; done.
Qed.

Lemma plan_schema_planned declarations stored source_id k st declared schema d st' :
  manifest_schema_declaration declared (schema_path k) = Ok (declarations !!! k) →
  Forall (λ s, NoDup (f_id <$> s_fields s)) stored →
  plan_schema declarations stored source_id k st declared = Ok ((schema, d), st') →
  schema_planned (declarations !!! k) (schema_path k) schema d ∧ NoDup (f_id <$> s_fields schema).
Proof.
  intros Hd Hst. unfold plan_schema. destruct st as [ids g]. intros H.
  apply bind_Ok in H as ([[[s mat] disp] g1] & Hs & H). injection H as <- <- <-.
  destruct (stored !! k) as [old|] eqn:Hold.
  - apply bind_Ok in Hs as ([] & Hv & Hs). apply bind_Ok in Hs as ([] & Hc & Hs). apply check_Ok, bool_decide_eq_true in Hc.
    apply bind_Ok in Hs as (m & Hm & Hs). injection Hs as <- <- <- <-. split; [by constructor|].
    rewrite Forall_forall in Hst. apply Hst. by eapply list_elem_of_lookup_2.
  - apply bind_Ok in Hs as ([[s' m] g2] & Hc & Hs). injection Hs as <- <- <- <-.
    destruct (create_schema_planned _ _ _ _ _ _ _ _ _ Hd Hc) as (Hv & Hdd & Hm & Hn). split; [by constructor | done].
Qed.

Lemma replan_schema declarations stored source_id k ids g declared schema d :
  schema_planned (declarations !!! k) (schema_path k) schema d → stored !! k = Some schema →
  plan_schema declarations stored source_id k (ids, g) declared =
  Ok ((schema, schema_definition_stored d), (remember_fields ids schema, g)).
Proof.
  intros [] Hs. unfold plan_schema. rewrite Hs, sp_verified0, bind_ret, bool_decide_true by done. cbn [check].
  rewrite bind_ret, sp_materialized0, !bind_ret. unfold schema_definition_stored. by rewrite sp_id0, sp_version0, sp_declaration0.
Qed.


(** ** Ingestion profiles *)

Record profile_planned (declaration : Document) (schemas : list Schema) (path : string)
    (revision : IngestionProfileRevision) (d : PlannedIngestionProfileDefinition) : Prop := {
  pp_target : ∃ target, find (λ schema, s_id schema =? r_target_schema_id revision) schemas = Some target ∧
    verify_stored_profile revision target path = Ok tt;
  pp_digest : r_declaration_digest revision = doc_digest declaration;
  pp_document : profile_materialized revision path = Ok (pp_materialized d);
  pp_id : pp_ingestion_profile_revision_id d = r_id revision;
  pp_number : pp_revision d = r_revision revision;
  pp_declared : pp_declaration d = declaration;
}.

Lemma materialize_mapping_declaration target path path' m mapping :
  NoDup (f_id <$> s_fields target) → materialize_mapping target path m = Ok mapping →
  stored_mapping_declaration target path' mapping = Ok (mapping_declaration (mm_json_pointer m) (mm_target_field m)).
Proof.
  intros Hnd. unfold materialize_mapping, FieldMapping_new, manifest_model. intros H.
  apply bind_Ok in H as (field & Hf & H). apply ok_or_Ok, find_Some in Hf as [Hin Hf].
  apply andb_true_iff in Hf as [Hr Hn]. apply bool_decide_eq_true in Hr, Hn. apply map_err_Ok in H.
  destruct (is_system (f_id field)); [done|]. injection H as <-.
  unfold stored_mapping_declaration, data_field, schema_field. cbn [m_target_field_id m_json_pointer].
  rewrite (find_unique f_id _ _ field Hnd Hin) by (intros; apply Z.eqb_eq). cbn. rewrite bool_decide_true by done. cbn. by rewrite Hn.
Qed.

(** The declaration of a materialized profile is the one it was made from. *)
Lemma materialize_profile_declaration declared target path profile revision declaration :
  NoDup (f_id <$> s_fields target) → s_version target = mr_target_schema_version declared →
  materialize_profile declared target path = Ok profile → r_profile revision = profile →
  r_revision revision = mr_revision declared →
  manifest_profile_declaration declared path = Ok declaration →
  stored_profile_declaration revision target path = Ok declaration.
Proof.
  intros Hnd Hv Hm <- Hr Hd. unfold materialize_profile, IngestionProfile_new, manifest_model in Hm.
  apply bind_Ok in Hm as (mappings & Hms & Hm). apply map_err_Ok in Hm. apply bind_Ok in Hm as (u & _ & Hm).
  injection Hm as Hm. unfold stored_profile_declaration. rewrite <- Hm. cbn [p_mappings p_event_time p_maximum_record_bytes et_format et_json_pointer].
  assert (Hall : try_map (stored_mapping_declaration target path) mappings =
    Ok ((λ m, mapping_declaration (mm_json_pointer m) (mm_target_field m)) <$> mr_mappings declared)).
  { apply try_map_Ok. apply try_map_Ok in Hms. clear Hm. induction Hms; [constructor|]. rewrite fmap_cons. constructor; [|done].
    by eapply materialize_mapping_declaration. }
  rewrite Hall, bind_ret, Hr, Hv. exact Hd.
Qed.

Lemma schema_by_version_Some schemas v target :
  schema_by_version schemas v = Some target → target ∈ schemas ∧ s_version target = v.
Proof. intros [? H]%find_Some. split; [done|]. by apply Z.eqb_eq. Qed.

Definition profile_path (input_path : string) (k : nat) : string := indexed (input_path +:+ ".ingestion_profile_revisions") k.

Lemma plan_profile_planned declarations stored input_id schemas path k g declared revision d g' :
  NoDup (s_id <$> schemas) → Forall (λ s, NoDup (f_id <$> s_fields s)) schemas →
  manifest_profile_declaration declared (profile_path path k) = Ok (declarations !!! k) →
  plan_profile declarations stored input_id schemas path k g declared = Ok ((revision, d), g') →
  profile_planned (declarations !!! k) schemas (profile_path path k) revision d.
Proof.
  intros Hids Hfs Hd. unfold plan_profile. fold (profile_path path k). intros H.
  apply bind_Ok in H as (target & Ht & H). apply ok_or_Ok, schema_by_version_Some in Ht as [Hin Hv].
  apply bind_Ok in H as ([[[r mat] disp] g1] & Hs & H). injection H as <- <- <-.
  destruct (stored !! k) as [old|].
  - apply bind_Ok in Hs as (st & Hst & Hs). apply ok_or_Ok in Hst. apply bind_Ok in Hs as ([] & Hver & Hs).
    apply bind_Ok in Hs as ([] & Hc & Hs). apply check_Ok, bool_decide_eq_true in Hc.
    apply bind_Ok in Hs as (m & Hm & Hs). injection Hs as <- <- <- <-. constructor; eauto.
  - destruct (generate_ingestion_profile_revision_id g) as [rid g2].
    apply bind_Ok in Hs as (profile & Hp & Hs). apply bind_Ok in Hs as (m & Hm & Hs). injection Hs as <- <- <- <-.
    constructor; try done. exists target. cbn [r_target_schema_id].
    rewrite (find_unique s_id _ _ target Hids Hin) by (intros; apply Z.eqb_eq). split; [done|].
    unfold verify_stored_profile. rewrite Forall_forall in Hfs.
    erewrite (materialize_profile_declaration declared target _ profile _ _ (Hfs _ Hin) Hv Hp); [|done..|exact Hd]. rewrite bind_ret.
    unfold profile_materialized. cbn [r_declaration_digest r_id r_input_id r_revision r_target_schema_id r_profile r_materialized_digest].
    by rewrite verify_digest_same, bind_ret, Hm, bind_ret, verify_digest_same.
Qed.

Lemma replan_profile declarations stored input_id schemas path k g declared revision d :
  profile_planned (declarations !!! k) schemas (profile_path path k) revision d →
  is_Some (schema_by_version schemas (mr_target_schema_version declared)) → stored !! k = Some revision →
  plan_profile declarations stored input_id schemas path k g declared = Ok ((revision, profile_definition_stored d), g).
Proof.
  intros [(target & Ht & Hv) Hdig Hdoc Hid Hnum Hdec] [t' Ht'] Hs. unfold plan_profile. fold (profile_path path k).
  rewrite Ht'. cbn [ok_or]. rewrite bind_ret, Hs, Ht. cbn [ok_or]. rewrite bind_ret, Hv, bind_ret, bool_decide_true by done. cbn [check].
  rewrite bind_ret, Hdoc, !bind_ret. unfold profile_definition_stored. by rewrite Hid, Hnum, Hdec.
Qed.


(** ** Inputs *)

Record input_planned (declared : ManifestInput) (declarations : ManifestInputDeclarations) (source_id : SourceId)
    (schemas : list Schema) (input : Input) (d : PlannedInputDefinition)
    (ds : list PlannedIngestionProfileDefinition) : Prop := {
  ip_id : pi_input_id d = i_id input;
  ip_source : i_source_id input = source_id;
  ip_name : i_name input = mi_name declared;
  ip_declaration : pi_declaration d = di_input declarations;
  ip_declared : input_declaration (i_name input) (input_name_path (mi_name declared)) = Ok (di_input declarations);
  ip_digest : i_declaration_digest input = doc_digest (di_input declarations);
  ip_document : stored_input_materialized input (input_name_path (mi_name declared)) = Ok (pi_materialized d);
  ip_materialized : i_materialized_digest input = doc_digest (pi_materialized d);
  ip_length : length (i_profile_revisions input) = length (mi_ingestion_profile_revisions declared);
  ip_length_definitions : length ds = length (mi_ingestion_profile_revisions declared);
  ip_profiles : ∀ k r pd, i_profile_revisions input !! k = Some r → ds !! k = Some pd →
    profile_planned (di_ingestion_profiles declarations !!! k) schemas (profile_path (input_name_path (mi_name declared)) k) r pd;
  ip_targets : ∀ k revision, mi_ingestion_profile_revisions declared !! k = Some revision →
    is_Some (schema_by_version schemas (mr_target_schema_version revision));
  ip_active : ∃ active,
    find (λ revision, r_revision revision =? mi_active_ingestion_profile_revision declared) (i_profile_revisions input) = Some active ∧
    Input_new (i_id input) source_id (mi_name declared) (doc_digest (di_input declarations)) (doc_digest (pi_materialized d))
      (r_id active) (i_profile_revisions input) = Ok input;
}.

(** [Input::new] keeps its arguments. *)
Lemma Input_new_fields id source_id name d m active rs input :
  Input_new id source_id name d m active rs = Ok input →
  i_id input = id ∧ i_source_id input = source_id ∧ i_name input = name ∧ i_declaration_digest input = d ∧
  i_materialized_digest input = m ∧ i_profile_revisions input = rs.
Proof. unfold Input_new. destruct rs; [done|]. intros H. by inv_ok. Qed.

Lemma plan_input_planned m current source_id schemas k g idx declared input d ds g' :
  NoDup (s_id <$> schemas) → Forall (λ s, NoDup (f_id <$> s_fields s)) schemas →
  manifest_consistent m → ms_inputs (cm_source m) !! idx = Some declared →
  plan_input m current source_id schemas k g (idx, declared) = Ok ((input, d, ds), g') →
  input_planned declared (de_inputs (cm_declarations m) !!! idx) source_id schemas input d ds.
Proof.
  intros Hids Hfs Hm Hidx. unfold plan_input. cbv zeta. intros H.
  apply bind_Ok in H as ([[iid disp] g1] & _ & H). apply bind_Ok in H as (mat & Hmat & H).
  apply bind_Ok in H as (u & _ & H). apply bind_Ok in H as ([planned g2] & Hp & H).
  apply bind_Ok in H as (active & Ha & H). apply ok_or_Ok in Ha.
  apply bind_Ok in H as (input' & Hin & H). injection H as <- <- <- <-. apply map_err_Ok in Hin.
  destruct (Input_new_fields _ _ _ _ _ _ _ _ Hin) as (E1 & E2 & E3 & E4 & E5 & E6).
  unfold plan_profiles in Hp. apply bind_Ok in Hp as (u' & _ & Hp).
  destruct (try_collect_lookup _ _ _ _ _ _ Hp) as [Hlen Hall].
  destruct (consistent_input m idx declared (input_name_path (mi_name declared)) Hm Hidx) as [Hdi Hdp].
  constructor; cbn [pi_input_id pi_declaration pi_materialized]; try done.
  - by rewrite E3.
  - unfold stored_input_materialized. by rewrite E1, E2, E3.
  - by rewrite E6, length_fmap.
  - by rewrite length_fmap.
  - rewrite E6. intros j r pd Hr Hd. apply list_lookup_fmap_Some in Hr as ([r' d'] & -> & Hj).
    apply list_lookup_fmap_Some in Hd as ([r'' d''] & -> & Hj'). simplify_eq. cbn [fst snd].
    destruct (lookup_lt_is_Some_2 (mi_ingestion_profile_revisions declared) j) as [rev Hrev].
    { rewrite <- Hlen. by eapply lookup_lt_Some. }
    destruct (Hall j rev Hrev) as (y & t & t' & Hy & Hpp). simplify_eq.
    eapply plan_profile_planned; [done | done | | exact Hpp]. by apply Hdp.
  - intros j rev Hrev. destruct (Hall j rev Hrev) as (y & t & t' & Hy & Hpp).
    unfold plan_profile in Hpp. apply bind_Ok in Hpp as (target & Ht & _). apply ok_or_Ok in Ht. by eexists.
  - exists active. by rewrite E1, E6.
Qed.

Lemma verify_planned_input declared declarations source_id schemas input d ds :
  input_planned declared declarations source_id schemas input d ds →
  verify_stored_input input (input_name_path (mi_name declared)) = Ok tt.
Proof.
  intros []. unfold verify_stored_input. rewrite ip_declared0, bind_ret, ip_digest0, verify_digest_same, bind_ret, ip_document0, bind_ret.
  rewrite ip_materialized0. apply verify_digest_same.
Qed.

Lemma replan_profiles declared declarations source_id schemas input d ds g :
  input_planned declared declarations source_id schemas input d ds →
  plan_profiles declared (di_ingestion_profiles declarations) (Some input) (i_id input) schemas
    (input_name_path (mi_name declared)) g =
  Ok (zip (i_profile_revisions input) (profile_definition_stored <$> ds), g).
Proof.
  intros []. unfold plan_profiles. cbn [stored_revisions]. rewrite ip_length0, Nat.leb_refl. cbn [check]. rewrite bind_ret.
  edestruct (try_collect_total (λ t, t = g)
    (plan_profile (di_ingestion_profiles declarations) (i_profile_revisions input) (i_id input) schemas (input_name_path (mi_name declared)))
    (mi_ingestion_profile_revisions declared) 0 g (zip (i_profile_revisions input) (profile_definition_stored <$> ds)))
    as (s' & E & ->); [| done | | exact E].
  - rewrite length_zip_with, length_fmap. lia.
  - intros k x [r pd] t Hx Hy ->. exists g. split; [|done].
    apply lookup_zip_with_Some in Hy as (r' & pd' & [= -> ->] & Hr & Hpd).
    apply list_lookup_fmap_Some in Hpd as (pd0 & -> & Hpd). apply replan_profile; [|eauto..]. cbn [Nat.add]. eauto.
Qed.

Lemma replan_input m current source_id schemas k g idx declared input d ds :
  input_planned declared (de_inputs (cm_declarations m) !!! idx) source_id schemas input d ds →
  input_by_name (current_inputs current) (mi_name declared) = Some input →
  plan_input m current source_id schemas k g (idx, declared) =
  Ok ((input, input_definition_stored d, profile_definition_stored <$> ds), g).
Proof.
  intros Hp Hs. pose proof Hp as []. destruct ip_active0 as (active & Ha & Hin). unfold plan_input. cbv zeta.
  rewrite Hs, (verify_planned_input _ _ _ _ _ _ _ Hp), bind_ret, bool_decide_true by done. cbn [check]. rewrite !bind_ret.
  unfold stored_input_materialized in ip_document0. rewrite ip_source0, ip_name0 in ip_document0. rewrite ip_document0, bind_ret.
  rewrite ip_materialized0, verify_digest_same, bind_ret, (replan_profiles _ _ _ _ _ _ _ _ Hp), bind_ret.
  assert (Hf : (zip (i_profile_revisions input) (profile_definition_stored <$> ds)).*1 = i_profile_revisions input)
    by (apply fst_zip; rewrite length_fmap; lia).
  assert (Hs2 : (zip (i_profile_revisions input) (profile_definition_stored <$> ds)).*2 = (profile_definition_stored <$> ds))
    by (apply snd_zip; rewrite length_fmap; lia).
  rewrite Hf, Hs2, Ha. cbn [ok_or]. rewrite bind_ret. unfold manifest_model. rewrite Hin. cbn [map_err]. rewrite bind_ret.
  unfold input_definition_stored. by rewrite ip_id0, ip_declaration0.
Qed.


(** ** Plans *)

Lemma Source_new_fields id name display_name declaration active schemas inputs source :
  Source_new id name display_name declaration active schemas inputs = Ok source →
  src_id source = id ∧ src_name source = name ∧ src_display_name source = display_name ∧
  src_declaration_digest source = declaration ∧ src_schemas source = schemas ∧ src_inputs source = inputs.
Proof. unfold Source_new. destruct schemas; [done|]. intros H. by inv_ok. Qed.

(** The parts of a successful plan. *)
Record plan_parts (m : CatalogManifest) (current : option Source) (p : CatalogApplicationPlan)
    (planned_schemas : list (Schema * PlannedSchemaDefinition))
    (planned_inputs : list (Input * PlannedInputDefinition * list PlannedIngestionProfileDefinition)) (active : Schema) : Prop := {
  pl_name : ∀ source, current = Some source → src_name source = ms_name (cm_source m);
  pl_id : ∀ source, current = Some source → src_id source = src_id (plan_source p);
  pl_schemas : ∃ g g', plan_schemas m current (src_id (plan_source p)) g = Ok (planned_schemas, g');
  pl_inputs : ∃ g g', plan_inputs m current (src_id (plan_source p)) planned_schemas.*1 g = Ok (planned_inputs, g');
  pl_active : schema_by_version planned_schemas.*1 (ms_active_schema_version (cm_source m)) = Some active;
  pl_source : Source_new (src_id (plan_source p)) (ms_name (cm_source m)) (ms_display_name (cm_source m))
    (doc_digest (de_source (cm_declarations m))) (s_id active) planned_schemas.*1 planned_inputs.*1.*1 = Ok (plan_source p);
  pl_source_definition : ps_source_id (plan_source_definition p) = src_id (plan_source p) ∧
    ps_declaration (plan_source_definition p) = de_source (cm_declarations m);
  pl_schema_definitions : plan_schema_definitions p = planned_schemas.*2;
  pl_input_definitions : plan_input_definitions p = planned_inputs.*1.*2;
  pl_profile_definitions : plan_ingestion_profile_definitions p = concat planned_inputs.*2;
}.

Lemma plan_parts_of m current g p g' :
  plan_catalog_application m current g = Ok (p, g') → ∃ ps pis active, plan_parts m current p ps pis active.
Proof.
  unfold plan_catalog_application. intros H. apply bind_Ok in H as ([] & Hn & H).
  apply bind_Ok in H as ([[sid disp] g1] & Hid & H). apply bind_Ok in H as ([ps g2] & Hps & H).
  apply bind_Ok in H as (active & Ha & H). apply ok_or_Ok in Ha. apply bind_Ok in H as ([pis g3] & Hpi & H).
  apply bind_Ok in H as (source & Hs & H). apply map_err_Ok in Hs. injection H as <- <-.
  destruct (Source_new_fields _ _ _ _ _ _ _ _ Hs) as (E1 & E2 & _).
  exists ps, pis, active. constructor; cbn; rewrite ?E1; eauto.
  - intros s ->. by apply check_Ok, bool_decide_eq_true in Hn.
  - intros s ->. apply bind_Ok in Hid as (u & _ & Hid). by injection Hid.
Qed.

(** Every schema of a source has distinct field identities, as [Schema::new] ensures. *)
Definition fields_distinct (source : Source) : Prop := Forall (λ s, NoDup (f_id <$> s_fields s)) (src_schemas source).

Definition current_distinct (current : option Source) : Prop := ∀ source, current = Some source → fields_distinct source.

Lemma plan_schemas_planned m current source_id g ps g' :
  manifest_consistent m → current_distinct current → plan_schemas m current source_id g = Ok (ps, g') →
  length ps = length (ms_schemas (cm_source m)) ∧
  ∀ k schema d, ps !! k = Some (schema, d) →
    schema_planned (de_schemas (cm_declarations m) !!! k) (schema_path k) schema d ∧ NoDup (f_id <$> s_fields schema).
Proof.
  intros Hm Hc. unfold plan_schemas. intros H. apply bind_Ok in H as ([] & _ & H).
  apply bind_Ok in H as ([planned [ids g2]] & Hp & H). injection H as <- <-.
  destruct (try_collect_lookup _ _ _ _ _ _ Hp) as [Hlen Hall]. split; [done|]. intros k schema d Hk.
  destruct (lookup_lt_is_Some_2 (ms_schemas (cm_source m)) k) as [declared Hd]; [rewrite <- Hlen; by eapply lookup_lt_Some|].
  destruct (Hall k declared Hd) as (y & t & t' & Hy & Hpp). simplify_eq. cbn [Nat.add] in Hpp.
  eapply plan_schema_planned; [by apply consistent_schema | | exact Hpp].
  destruct current as [source|]; [by apply Hc | constructor].
Qed.

Lemma replan_schemas m source ps g :
  src_schemas source = ps.*1 → length ps = length (ms_schemas (cm_source m)) →
  (∀ k schema d, ps !! k = Some (schema, d) → schema_planned (de_schemas (cm_declarations m) !!! k) (schema_path k) schema d) →
  plan_schemas m (Some source) (src_id source) g = Ok (prod_map id schema_definition_stored <$> ps, g).
Proof.
  intros Hs Hlen Hps. unfold plan_schemas. cbn [current_schemas].
  rewrite Hs, length_fmap, Hlen, Nat.leb_refl. cbn [check]. rewrite bind_ret.
  edestruct (try_collect_total (λ t, t.2 = g)
    (plan_schema (de_schemas (cm_declarations m)) ps.*1 (src_id source))
    (ms_schemas (cm_source m)) 0 (∅, g) (prod_map id schema_definition_stored <$> ps)) as ([ids g1] & E & E2).
  - by rewrite length_fmap.
  - done.
  - intros k x y [ids g1] _ Hy E. cbn in E. cbn [Nat.add]. subst g1. apply list_lookup_fmap_Some in Hy as ([schema d] & -> & Hk).
    eexists (_, g). split; [|done]. apply replan_schema; [by apply Hps|]. by rewrite list_lookup_fmap, Hk.
  - cbn in E2. subst g1. by rewrite E.
Qed.

Lemma declared_inputs_lookup m k idx declared :
  declared_inputs m !! k = Some (idx, declared) → ms_inputs (cm_source m) !! idx = Some declared.
Proof.
  intros H%list_elem_of_lookup_2. unfold declared_inputs in H. rewrite merge_sort_Permutation in H.
  apply elem_of_lookup_imap_1 in H as (i & x & [= -> ->] & Hx). done.
Qed.

Lemma plan_inputs_planned m current source_id schemas g pis g' :
  NoDup (s_id <$> schemas) → Forall (λ s, NoDup (f_id <$> s_fields s)) schemas → manifest_consistent m →
  plan_inputs m current source_id schemas g = Ok (pis, g') →
  length pis = length (declared_inputs m) ∧
  ∀ k input d ds idx declared, pis !! k = Some (input, d, ds) → declared_inputs m !! k = Some (idx, declared) →
    input_planned declared (de_inputs (cm_declarations m) !!! idx) source_id schemas input d ds.
Proof.
  intros Hids Hfs Hm. unfold plan_inputs. cbv zeta. intros H. apply bind_Ok in H as ([] & _ & H).
  destruct (try_collect_lookup _ _ _ _ _ _ H) as [Hlen Hall]. split; [done|].
  intros k input d ds idx declared Hk Hd. destruct (Hall k _ Hd) as (y & t & t' & Hy & Hpp). simplify_eq.
  eapply plan_input_planned; [done | done | done | by eapply declared_inputs_lookup | exact Hpp].
Qed.

Lemma input_by_name_unique inputs input :
  NoDup (i_name <$> inputs) → input ∈ inputs → input_by_name inputs (i_name input) = Some input.
Proof.
  intros Hnd Hin. unfold input_by_name. apply (find_unique i_name).
  - by rewrite (reverse_Permutation inputs).
  - by rewrite elem_of_reverse.
  - intros y _. apply bool_decide_eq_true.
Qed.

Definition planned_input_stored (x : Input * PlannedInputDefinition * list PlannedIngestionProfileDefinition)
    : Input * PlannedInputDefinition * list PlannedIngestionProfileDefinition :=
  let '(input, d, ds) := x in (input, input_definition_stored d, profile_definition_stored <$> ds).

Lemma replan_inputs m source schemas pis g :
  src_inputs source = pis.*1.*1 → length pis = length (declared_inputs m) → NoDup (i_name <$> src_inputs source) →
  (∀ k input d ds idx declared, pis !! k = Some (input, d, ds) → declared_inputs m !! k = Some (idx, declared) →
    input_planned declared (de_inputs (cm_declarations m) !!! idx) (src_id source) schemas input d ds) →
  plan_inputs m (Some source) (src_id source) schemas g = Ok (planned_input_stored <$> pis, g).
Proof.
  intros Hs Hlen Hnd Hall. unfold plan_inputs. cbv zeta.
  assert (Hin : ∀ k input d ds, pis !! k = Some (input, d, ds) → input ∈ src_inputs source).
  { intros k input d ds Hk. rewrite Hs. apply list_elem_of_fmap. exists (input, d). split; [done|].
    apply list_elem_of_fmap. exists (input, d, ds). split; [done|]. by eapply list_elem_of_lookup_2. }
  assert (Hc : forallb (λ input, bool_decide (i_name input ∈ (list_to_set (mi_name <$> ms_inputs (cm_source m)) : gset string)))
    (current_inputs (Some source)) = true).
  { apply forallb_forall. intros input Hi%list_elem_of_In. cbn [current_inputs] in Hi. rewrite Hs in Hi.
    apply list_elem_of_fmap in Hi as ([i' d] & -> & Hi). apply list_elem_of_fmap in Hi as ([[i'' d'] ds] & [= -> ->] & Hi).
    apply list_elem_of_lookup_1 in Hi as [k Hk]. cbn [fst].
    destruct (lookup_lt_is_Some_2 (declared_inputs m) k) as [[idx declared] Hd]; [rewrite <- Hlen; by eapply lookup_lt_Some|].
    apply bool_decide_eq_true. rewrite elem_of_list_to_set, (ip_name _ _ _ _ _ _ _ (Hall _ _ _ _ _ _ Hk Hd)).
    apply list_elem_of_fmap. exists declared. split; [done|]. eapply list_elem_of_lookup_2, declared_inputs_lookup, Hd. }
  rewrite Hc. cbn [check]. rewrite bind_ret.
  edestruct (try_collect_total (λ t, t = g) (plan_input m (Some source) (src_id source) schemas)
    (declared_inputs m) 0 g (planned_input_stored <$> pis)) as (s' & E & ->).
  - by rewrite length_fmap.
  - done.
  - intros k [idx declared] y t Hd Hy ->. apply list_lookup_fmap_Some in Hy as ([[input d] ds] & -> & Hk).
    exists g. split; [|done]. pose proof (Hall _ _ _ _ _ _ Hk Hd) as Hp. apply replan_input; [done|].
    rewrite <- (ip_name _ _ _ _ _ _ _ Hp). apply input_by_name_unique; [done | by eapply Hin].
  - exact E.
Qed.


(** A plan when everything it contains is stored. *)
Definition plan_stored (p : CatalogApplicationPlan) : CatalogApplicationPlan :=
  {| plan_outcome := Unchanged;
     plan_source := plan_source p;
     plan_source_definition := {| ps_source_id := ps_source_id (plan_source_definition p); ps_disposition := Existing;
                                  ps_declaration := ps_declaration (plan_source_definition p) |};
     plan_schema_definitions := schema_definition_stored <$> plan_schema_definitions p;
     plan_input_definitions := input_definition_stored <$> plan_input_definitions p;
     plan_ingestion_profile_definitions := profile_definition_stored <$> plan_ingestion_profile_definitions p |}.

Lemma existsb_is_create {A} (f : A → CatalogEntityDisposition) (g : A → A) l :
  (∀ x, f (g x) = Existing) → existsb (λ d, is_create (f d)) (g <$> l) = false.
Proof. intros H. induction l as [|x l IH]; [done|]. cbn. by rewrite H, IH. Qed.

Lemma active_profile_pointer_same source :
  NoDup (i_name <$> src_inputs source) → active_profile_pointer_changed source (src_inputs source) = false.
Proof.
  intros Hnd. unfold active_profile_pointer_changed. apply not_true_iff_false. intros H.
  apply existsb_exists in H as (i & Hi%list_elem_of_In & H).
  rewrite (find_unique i_name _ _ i Hnd Hi) in H by (intros; apply bool_decide_eq_true).
  by apply bool_decide_eq_true in H.
Qed.

Lemma planned_stored_fst (pis : list (Input * PlannedInputDefinition * list PlannedIngestionProfileDefinition)) :
  (planned_input_stored <$> pis).*1.*1 = pis.*1.*1.
Proof. induction pis as [|[[]] pis IH]; [done|]. by rewrite !fmap_cons, IH. Qed.

Lemma planned_stored_definitions (pis : list (Input * PlannedInputDefinition * list PlannedIngestionProfileDefinition)) :
  (planned_input_stored <$> pis).*1.*2 = (input_definition_stored <$> pis.*1.*2).
Proof. induction pis as [|[[]] pis IH]; [done|]. by rewrite !fmap_cons, IH. Qed.

Lemma planned_stored_profiles (pis : list (Input * PlannedInputDefinition * list PlannedIngestionProfileDefinition)) :
  concat (planned_input_stored <$> pis).*2 = (profile_definition_stored <$> concat pis.*2).
Proof. induction pis as [|[[]] pis IH]; [done|]. rewrite !fmap_cons. cbn [concat planned_input_stored snd]. by rewrite IH, fmap_app. Qed.

Lemma plan_distinct m current g p g' :
  manifest_consistent m → current_distinct current → plan_catalog_application m current g = Ok (p, g') →
  fields_distinct (plan_source p).
Proof.
  intros Hm Hc H. destruct (plan_parts_of _ _ _ _ _ H) as (ps & pis & active & []).
  destruct (Source_new_fields _ _ _ _ _ _ _ _ pl_source0) as (_ & _ & _ & _ & Es & _).
  destruct pl_schemas0 as (g1 & g2 & Hps). destruct (plan_schemas_planned _ _ _ _ _ _ Hm Hc Hps) as [_ Hall].
  unfold fields_distinct. rewrite Es, Forall_forall. intros s Hs. apply list_elem_of_fmap in Hs as ([s' d] & -> & Hs).
  apply list_elem_of_lookup_1 in Hs as [k Hk]. by apply Hall in Hk as [_ ?].
Qed.

Lemma replan m current g p g1 g2 :
  manifest_consistent m → current_distinct current → plan_catalog_application m current g = Ok (p, g1) →
  plan_catalog_application m (Some (plan_source p)) g2 = Ok (plan_stored p, g2).
Proof.
  intros Hm Hc H. pose proof (plan_distinct _ _ _ _ _ Hm Hc H) as Hfd.
  destruct (plan_parts_of _ _ _ _ _ H) as (ps & pis & active & []). clear H.
  destruct (Source_new_fields _ _ _ _ _ _ _ _ pl_source0) as (_ & En & Ed & Eg & Es & Ei).
  destruct (Source_new_invariant _ _ _ _ _ _ _ _ pl_source0) as [Hwf (a & Ha & Hida)].
  destruct pl_schemas0 as (h1 & h2 & Hps). destruct (plan_schemas_planned _ _ _ _ _ _ Hm Hc Hps) as [Hlen Hall].
  pose proof (swf_schema_ids _ Hwf) as Hids. rewrite Es in Hids. unfold fields_distinct in Hfd. rewrite Es in Hfd.
  destruct pl_inputs0 as (h3 & h4 & Hpi).
  destruct (plan_inputs_planned _ _ _ _ _ _ _ Hids Hfd Hm Hpi) as [Hlen' Hall'].
  unfold plan_catalog_application, validate_current_source_name. rewrite (bool_decide_true (src_name _ = _)) by done. cbn [check].
  rewrite bind_ret, Eg, verify_digest_same, !bind_ret.
  rewrite (replan_schemas m (plan_source p) ps g2 Es Hlen), bind_ret by (intros; by apply Hall).
  assert (E1 : (prod_map id schema_definition_stored <$> ps).*1 = ps.*1) by (rewrite <- list_fmap_compose; by apply list_fmap_ext).
  rewrite E1, pl_active0. cbn [ok_or]. rewrite bind_ret.
  rewrite (replan_inputs m (plan_source p) ps.*1 pis g2 Ei Hlen' (swf_input_names _ Hwf) Hall'), bind_ret.
  rewrite planned_stored_fst, planned_stored_definitions, planned_stored_profiles, pl_source0. cbn [map_err].
  rewrite bind_ret, <- Ei, (active_profile_pointer_same _ (swf_input_names _ Hwf)).
  rewrite Ha, (bool_decide_true (src_display_name _ = _)) by done. cbn [fmap option_fmap option_map].
  rewrite bool_decide_true by congruence. cbn [negb orb].
  assert (E2 : (prod_map id schema_definition_stored <$> ps).*2 = (schema_definition_stored <$> ps.*2))
    by (rewrite <- !list_fmap_compose; by apply list_fmap_ext).
  rewrite E2, !existsb_is_create by done. unfold plan_stored.
  destruct pl_source_definition0 as [-> ->]. by rewrite pl_schema_definitions0, pl_input_definitions0, pl_profile_definitions0.
Qed.


(** ** What is stored stays *)

Lemma plan_schema_keeps declarations stored source_id k st declared schema d st' old :
  plan_schema declarations stored source_id k st declared = Ok ((schema, d), st') → stored !! k = Some old → schema = old.
Proof.
  unfold plan_schema. destruct st as [ids g]. intros H Hk. apply bind_Ok in H as ([[[s mat] disp] g1] & Hs & H).
  injection H as <- _ _. rewrite Hk in Hs. inv_ok. congruence.
Qed.

Lemma plan_schemas_keeps m current source_id g ps g' :
  plan_schemas m current source_id g = Ok (ps, g') → current_schemas current `prefix_of` ps.*1.
Proof.
  unfold plan_schemas. intros H. apply bind_Ok in H as (u & Hc & H). apply check_Ok, Nat.leb_le in Hc.
  apply bind_Ok in H as ([planned [ids g2]] & Hp & H). injection H as <- <-.
  destruct (try_collect_lookup _ _ _ _ _ _ Hp) as [Hlen Hall]. apply prefix_of_lookup.
  intros k old Hk. destruct (lookup_lt_is_Some_2 (ms_schemas (cm_source m)) k) as [declared Hd].
  { apply lookup_lt_Some in Hk. lia. }
  destruct (Hall k declared Hd) as ([schema d] & t & t' & Hy & Hpp).
  rewrite list_lookup_fmap, Hy. cbn. f_equal. by eapply plan_schema_keeps.
Qed.

Lemma plan_profiles_keeps declared declarations stored input_id schemas path g planned g' :
  plan_profiles declared declarations stored input_id schemas path g = Ok (planned, g') →
  stored_revisions stored `prefix_of` planned.*1.
Proof.
  unfold plan_profiles. intros H. apply bind_Ok in H as (u & Hc & H). apply check_Ok, Nat.leb_le in Hc.
  destruct (try_collect_lookup _ _ _ _ _ _ H) as [Hlen Hall]. apply prefix_of_lookup.
  intros k old Hk. destruct (lookup_lt_is_Some_2 (mi_ingestion_profile_revisions declared) k) as [rev Hd].
  { apply lookup_lt_Some in Hk. lia. }
  destruct (Hall k rev Hd) as ([r d] & t & t' & Hy & Hpp). rewrite list_lookup_fmap, Hy. cbn. f_equal.
  unfold plan_profile in Hpp. apply bind_Ok in Hpp as (target & _ & Hpp). apply bind_Ok in Hpp as ([[[r' mat] disp] g1] & Hs & Hpp).
  injection Hpp as <- _ _. cbn [Nat.add] in Hs. rewrite Hk in Hs. inv_ok. congruence.
Qed.

(** A stored input as an application keeps it. *)
Record input_extended (stored input : Input) : Prop := {
  ie_id : i_id input = i_id stored;
  ie_source : i_source_id input = i_source_id stored;
  ie_name : i_name input = i_name stored;
  ie_declaration : i_declaration_digest input = i_declaration_digest stored;
  ie_materialized : i_materialized_digest input = i_materialized_digest stored;
  ie_revisions : i_profile_revisions stored `prefix_of` i_profile_revisions input;
}.

Lemma plan_input_keeps m current source_id schemas k g idx declared input d ds g' stored :
  plan_input m current source_id schemas k g (idx, declared) = Ok ((input, d, ds), g') →
  input_by_name (current_inputs current) (mi_name declared) = Some stored → i_name stored = mi_name declared →
  i_source_id stored = source_id → input_extended stored input.
Proof.
  unfold plan_input. cbv zeta. intros H Hs Hn Hsrc. rewrite Hs in H.
  apply bind_Ok in H as ([[iid disp] g1] & Hid & H). apply bind_Ok in Hid as ([] & _ & Hid). apply bind_Ok in Hid as ([] & Hdig & Hid).
  apply check_Ok, bool_decide_eq_true in Hdig. injection Hid as <- <- <-. apply bind_Ok in H as (mat & Hmat & H).
  apply bind_Ok in H as ([] & Hv & H). apply check_Ok, bool_decide_eq_true in Hv.
  apply bind_Ok in H as ([planned g2] & Hp & H).
  apply bind_Ok in H as (active & _ & H). apply bind_Ok in H as (input' & Hin & H). injection H as <- <- <- <-.
  apply map_err_Ok in Hin. destruct (Input_new_fields _ _ _ _ _ _ _ _ Hin) as (E1 & E2 & E3 & E4 & E5 & E6).
  apply plan_profiles_keeps in Hp. constructor; try congruence. by rewrite E6.
Qed.

Lemma plan_inputs_keeps m source source_id schemas g pis g' stored :
  NoDup (i_name <$> src_inputs source) → stored ∈ src_inputs source → i_source_id stored = source_id →
  plan_inputs m (Some source) source_id schemas g = Ok (pis, g') →
  ∃ input, input ∈ pis.*1.*1 ∧ input_extended stored input.
Proof.
  intros Hnd Hst Hsrc. unfold plan_inputs. cbv zeta. intros H. apply bind_Ok in H as (u & Hc & H). apply check_Ok in Hc.
  rewrite forallb_forall in Hc. specialize (Hc stored (proj1 (list_elem_of_In _ _) Hst)). apply bool_decide_eq_true in Hc.
  rewrite elem_of_list_to_set, list_elem_of_fmap in Hc. destruct Hc as (declared & Hn & Hd).
  apply list_elem_of_lookup_1 in Hd as [idx Hidx].
  assert (Hin : (idx, declared) ∈ declared_inputs m).
  { unfold declared_inputs. rewrite merge_sort_Permutation. by apply (elem_of_lookup_imap_2 pair _ declared idx). }
  apply list_elem_of_lookup_1 in Hin as [k Hk]. destruct (try_collect_lookup _ _ _ _ _ _ H) as [_ Hall].
  destruct (Hall k _ Hk) as ([[input d] ds] & t & t' & Hy & Hpp). exists input. split.
  - apply list_elem_of_lookup_2 in Hy. apply list_elem_of_fmap. exists (input, d). split; [done|]. apply list_elem_of_fmap. by eexists (_, _).
  - eapply plan_input_keeps; [exact Hpp | | done | done]. rewrite <- Hn. cbn [current_inputs]. by apply input_by_name_unique.
Qed.

Lemma plan_keeps m source g p g' :
  Source_wf source → plan_catalog_application m (Some source) g = Ok (p, g') →
  src_id (plan_source p) = src_id source ∧ src_name (plan_source p) = src_name source ∧
  src_schemas source `prefix_of` src_schemas (plan_source p) ∧
  ∀ stored, stored ∈ src_inputs source → ∃ input, input ∈ src_inputs (plan_source p) ∧ input_extended stored input.
Proof.
  intros Hwf H. destruct (plan_parts_of _ _ _ _ _ H) as (ps & pis & active & []).
  destruct (Source_new_fields _ _ _ _ _ _ _ _ pl_source0) as (_ & En & _ & _ & Es & Ei).
  rewrite En, Es, Ei, <- (pl_id0 source eq_refl), (pl_name0 source eq_refl). split_and!; [done | done | |].
  - destruct pl_schemas0 as (g1 & g2 & Hps). apply (plan_schemas_keeps _ _ _ _ _ _ Hps).
  - intros stored Hst. destruct pl_inputs0 as (g1 & g2 & Hpi).
    pose proof (swf_inputs_owned _ Hwf) as Ho. rewrite Forall_forall in Ho.
    eapply plan_inputs_keeps; [apply Hwf | done | | exact Hpi]. rewrite (Ho _ Hst). by apply pl_id0.
Qed.

Lemma decode_consistent {yaml : YamlLib} b m : Manifest.decode b = Ok m → manifest_consistent m.
Proof.
  unfold Manifest.decode. intros H. apply bind_Ok in H as (u & _ & H). apply bind_Ok in H as (u' & _ & H). apply bind_Ok in H as (raw & _ & H).
  unfold CatalogManifest_try_from in H. apply bind_Ok in H as (u'' & _ & H). apply bind_Ok in H as (source & _ & H).
  apply bind_Ok in H as (declarations & Hd & H). by injection H as <-.
Qed.

(** C24: Applying a manifest is idempotent: once a plan for it has been made, planning the
    same manifest over the source of that plan succeeds, takes no identity, creates nothing,
    and reports the catalog unchanged with the same source. *)
Theorem reapply_unchanged {yaml : YamlLib} b m current g p g1 g2 :
  Manifest.decode b = Ok m → current_distinct current → plan_catalog_application m current g = Ok (p, g1) →
  plan_catalog_application m (Some (plan_source p)) g2 = Ok (plan_stored p, g2) ∧
  plan_source (plan_stored p) = plan_source p ∧ plan_outcome (plan_stored p) = Unchanged.
Proof. intros Hm%decode_consistent Hc H. split_and!; [by eapply replan | done | done]. Qed.

(** Applying a manifest never rewrites history: the source keeps its identity and its
    name, the stored schemas remain, in place, the first ones, and every stored input
    remains under its identity and name with its profile revisions as the first ones. *)
Theorem application_extends m source g p g' :
  Source_wf source → plan_catalog_application m (Some source) g = Ok (p, g') →
  src_id (plan_source p) = src_id source ∧ src_name (plan_source p) = src_name source ∧
  src_schemas source `prefix_of` src_schemas (plan_source p) ∧
  ∀ stored, stored ∈ src_inputs source → ∃ input, input ∈ src_inputs (plan_source p) ∧ input_extended stored input.
Proof. apply plan_keeps. Qed.

End Application.
