(* ===== verification/Stored.v ===== *)
(** * elucid-catalog: stored definitions

    Models src/elucid/elucid-catalog/src/stored.rs: a definition that the metastore holds is
    decoded, its schema or profile is built anew and its canonical document must be the one
    that is stored. The derived deserialization of a struct from a JSON value takes an
    object without unknown keys or an array with one element per field. *)

From S2P Require Import Core CatalogTypes CatalogModel CatalogSource Bytes Frame Json Storage Canonical Manifest Prelude.
Import Schema.

#[local] Open Scope string_scope.
#[local] Open Scope list_scope.
#[local] Open Scope Z_scope.

(** Equality of two numbers in serde_json. *)
Class NumberEq `{JsonLib} := number_eq : Number → Number → bool.

(** ** Documents *)

Section Data.
Context {lib : JsonLib}.

Record StoredFieldDocument := {
  sf_field_id : string;
  sf_logical_metadata : Value;
  sf_logical_type : string;
  sf_name : string;
  sf_nullability : string;
  sf_ordinal : Z;
  sf_role : string;
  sf_description : option string;
  sf_historical_remainder_pointer : option string;
  sf_historical_remainder_pointer_tokens : option Value;
}.

Record StoredSchemaDocument := {
  sd_arrow_schema_descriptor : Value;
  sd_fields : list StoredFieldDocument;
  sd_schema_id : string;
  sd_source_id : string;
  sd_version : Z;
}.

Record StoredEventTimeDocument := {
  se_format : string;
  se_json_pointer : string;
  se_json_pointer_tokens : Value;
}.

Record StoredMappingDocument := {
  sm_json_pointer : string;
  sm_json_pointer_tokens : Value;
  sm_target_field_id : string;
}.

Record StoredProfileDocument := {
  sp_event_time : StoredEventTimeDocument;
  sp_ingestion_profile_revision_id : string;
  sp_input_id : string;
  sp_mappings : list StoredMappingDocument;
  sp_maximum_record_bytes : Z;
  sp_revision : Z;
  sp_target_schema_id : string;
}.

End Data.

Section Stored.
Context {env : SpoolEnv} {lib : JsonLib} {text : JsonText} {uuid : UuidText} {number_equality : NumberEq}.

(** ** Derived deserialization *)

Fixpoint map_get (key : string) (m : list (string * Value)) : option Value :=
  match m with
  | [] => None
  | (k, v) :: rest => if String.eqb k key then Some v else map_get key rest
  end.

(** The values of the fields of a struct with [#[serde(deny_unknown_fields)]]. *)
Definition struct_fields (names : list string) (v : Value) : option (list (option Value)) :=
  match v with
  | VObject members =>
      if forallb (λ m, existsb (String.eqb m.1) names) members then Some ((λ name, map_get name members) <$> names)
      else None
  | VArray values => if (length values =? length names)%nat then Some (Some <$> values) else None
  | _ => None
  end.

Definition as_string (o : option Value) : option string := match o with Some (VString s) => Some s | _ => None end.

Definition as_unsigned (o : option Value) : option Z := match o with Some (VNumber n) => as_u64 n | _ => None end.

(** An [Option] is absent, null or a value. *)
Definition as_option {A} (f : option Value → option A) (o : option Value) : option (option A) :=
  match o with None | Some VNull => Some None | _ => Some <$> f o end.

Definition as_vec {A} (f : Value → option A) (o : option Value) : option (list A) :=
  match o with Some (VArray values) => mapM f values | _ => None end.

Definition FIELD_DOCUMENT_FIELDS : list string :=
  ["field_id"; "logical_metadata"; "logical_type"; "name"; "nullability"; "ordinal"; "role"; "description";
   "historical_remainder_pointer"; "historical_remainder_pointer_tokens"].

Definition field_document (v : Value) : option StoredFieldDocument :=
  values ← struct_fields FIELD_DOCUMENT_FIELDS v;
  match values with
  | [field_id; logical_metadata; logical_type; name; nullability; ordinal; role; description; pointer; tokens] =>
      field_id ← as_string field_id;
      logical_metadata ← logical_metadata;
      logical_type ← as_string logical_type;
      name ← as_string name;
      nullability ← as_string nullability;
      ordinal ← as_unsigned ordinal;
      role ← as_string role;
      description ← as_option as_string description;
      pointer ← as_option as_string pointer;
      tokens ← as_option id tokens;
      Some {| sf_field_id := field_id; sf_logical_metadata := logical_metadata; sf_logical_type := logical_type;
              sf_name := name; sf_nullability := nullability; sf_ordinal := ordinal; sf_role := role;
              sf_description := description; sf_historical_remainder_pointer := pointer;
              sf_historical_remainder_pointer_tokens := tokens |}
  | _ => None
  end.

Definition schema_document (v : Value) : option StoredSchemaDocument :=
  values ← struct_fields ["arrow_schema_descriptor"; "fields"; "schema_id"; "source_id"; "version"] v;
  match values with
  | [descriptor; fields; schema_id; source_id; version] =>
      descriptor ← descriptor;
      fields ← as_vec field_document fields;
      schema_id ← as_string schema_id;
      source_id ← as_string source_id;
      version ← as_unsigned version;
      Some {| sd_arrow_schema_descriptor := descriptor; sd_fields := fields; sd_schema_id := schema_id;
              sd_source_id := source_id; sd_version := version |}
  | _ => None
  end.

Definition event_time_document (v : Value) : option StoredEventTimeDocument :=
  values ← struct_fields ["format"; "json_pointer"; "json_pointer_tokens"] v;
  match values with
  | [format; json_pointer; tokens] =>
      format ← as_string format;
      json_pointer ← as_string json_pointer;
      tokens ← tokens;
      Some {| se_format := format; se_json_pointer := json_pointer; se_json_pointer_tokens := tokens |}
  | _ => None
  end.

Definition mapping_document (v : Value) : option StoredMappingDocument :=
  values ← struct_fields ["json_pointer"; "json_pointer_tokens"; "target_field_id"] v;
  match values with
  | [json_pointer; tokens; target_field_id] =>
      json_pointer ← as_string json_pointer;
      tokens ← tokens;
      target_field_id ← as_string target_field_id;
      Some {| sm_json_pointer := json_pointer; sm_json_pointer_tokens := tokens; sm_target_field_id := target_field_id |}
  | _ => None
  end.

Definition profile_document (v : Value) : option StoredProfileDocument :=
  values ← struct_fields ["event_time"; "ingestion_profile_revision_id"; "input_id"; "mappings"; "maximum_record_bytes";
                          "revision"; "target_schema_id"] v;
  match values with
  | [event_time; revision_id; input_id; mappings; maximum_record_bytes; revision; target_schema_id] =>
      event_time ← event_time ≫= event_time_document;
      revision_id ← as_string revision_id;
      input_id ← as_string input_id;
      mappings ← as_vec mapping_document mappings;
      maximum_record_bytes ← as_unsigned maximum_record_bytes;
      revision ← as_unsigned revision;
      target_schema_id ← as_string target_schema_id;
      Some {| sp_event_time := event_time; sp_ingestion_profile_revision_id := revision_id; sp_input_id := input_id;
              sp_mappings := mappings; sp_maximum_record_bytes := maximum_record_bytes; sp_revision := revision;
              sp_target_schema_id := target_schema_id |}
  | _ => None
  end.

(** ** Values of a document *)

(** [stored_model_error]: an error of the model is a corruption. *)
Definition stored_model {E A} (path : string) (r : result E A) : catalog_result A := map_err (λ _, Corruption path) r.

Definition decode_user_logical_type (value path : string) : catalog_result UserLogicalType :=
  if String.eqb value "bool" then Ok UBool
  else if String.eqb value "int32" then Ok UInt32_
  else if String.eqb value "int64" then Ok UInt64_
  else if String.eqb value "uint32" then Ok UUInt32
  else if String.eqb value "uint64" then Ok UUInt64
  else if String.eqb value "float32" then Ok UFloat32
  else if String.eqb value "float64" then Ok UFloat64
  else if String.eqb value "utf8" then Ok UUtf8
  else if String.eqb value "datetime" then Ok UDatetime
  else Err (Corruption path).

Definition decode_nullability (value path : string) : catalog_result Nullability :=
  if String.eqb value "NON_NULL" then Ok NonNull
  else if String.eqb value "NULLABLE" then Ok Nullable
  else Err (Corruption path).

Definition decode_event_time_format (value path : string) : catalog_result EventTimeFormat :=
  if String.eqb value "RFC3339" then Ok Rfc3339
  else if String.eqb value "UNIX_MILLISECONDS" then Ok UnixMilliseconds
  else Err (Corruption path).

Definition parse_field_id (value path : string) : catalog_result FieldId :=
  uuid ← ok_or (uuid_parse_str value) (Corruption path);
  ok_or (UuidV7.new uuid) (Corruption path).

Definition verify_uuid (value : string) (expected : Z) (path : string) : catalog_result unit :=
  actual ← ok_or (uuid_parse_str value) (Corruption path);
  check (actual =? expected) (Corruption path).

Definition decode_user_field (path : string) (indexed_field : nat * StoredFieldDocument) : catalog_result UserField :=
  let '(index, field) := indexed_field in
  let path := indexed (path +:+ ".fields") index in
  id ← parse_field_id (sf_field_id field) path;
  name ← stored_model path (try_name UserFieldKind (sf_name field));
  logical_type ← decode_user_logical_type (sf_logical_type field) path;
  nullability ← decode_nullability (sf_nullability field) path;
  user_field ← stored_model path (UserField_new id name logical_type nullability);
  let user_field := match sf_description field with
                    | Some description => with_description user_field description
                    | None => user_field
                    end in
  match sf_historical_remainder_pointer field with
  | Some pointer =>
      pointer ← stored_model path (Pointer.parse pointer);
      stored_model path (with_historical_remainder_pointer user_field pointer)
  | None => Ok user_field
  end.

(** ** Comparison with the canonical document *)

Fixpoint value_eqb (a b : Value) {struct a} : bool :=
  match a, b with
  | VNull, VNull => true
  | VBool x, VBool y => Bool.eqb x y
  | VNumber x, VNumber y => number_eq x y
  | VString x, VString y => String.eqb x y
  | VArray xs, VArray ys =>
      (fix loop (xs ys : list Value) : bool :=
         match xs, ys with
         | [], [] => true
         | x :: xs, y :: ys => value_eqb x y && loop xs ys
         | _, _ => false
         end) xs ys
  | VObject xs, VObject ys =>
      (fix loop (xs ys : list (string * Value)) : bool :=
         match xs, ys with
         | [], [] => true
         | (k, x) :: xs, (l, y) :: ys => String.eqb k l && value_eqb x y && loop xs ys
         | _, _ => false
         end) xs ys
  | _, _ => false
  end.

Definition verify_materialized_document (stored : Value) (canonical path : string) : catalog_result unit :=
  canonical ← ok_or (json_from_str canonical) (Corruption path);
  check (value_eqb stored canonical) (Corruption path).

Definition empty_digest : Digest := replicate 32 0.

(** ** Definitions *)

Definition stored_schema_path (schema_id : SchemaId) : string :=
  "schema_versions[" +:+ uuid_to_string schema_id +:+ "].definition".

Definition decode_stored_schema_definition (schema_id : SchemaId) (source_id : SourceId) (version : Z)
    (definition : Value) : catalog_result Schema :=
  let path := stored_schema_path schema_id in
  document ← ok_or (schema_document definition) (Corruption path);
  _ ← verify_uuid (sd_schema_id document) schema_id path;
  _ ← verify_uuid (sd_source_id document) source_id path;
  _ ← check (sd_version document =? version) (Corruption path);
  user_fields ← try_map (decode_user_field path)
                  (filter (λ f, sf_role f.2 = "DATA") (imap pair (sd_fields document)));
  provisional ← stored_model path (Schema_new schema_id source_id version empty_digest empty_digest user_fields);
  declaration ← stored_schema_declaration provisional path;
  materialized ← schema_materialized provisional path;
  _ ← verify_materialized_document definition (doc_json materialized) path;
  stored_model path
    (Schema_new schema_id source_id version (doc_digest declaration) (doc_digest materialized) user_fields).

Definition decode_mapping (path : string) (index : nat) (mapping : StoredMappingDocument) : catalog_result FieldMapping :=
  let mapping_path := indexed (path +:+ ".mappings") index in
  field_id ← parse_field_id (sm_target_field_id mapping) mapping_path;
  pointer ← stored_model mapping_path (Pointer.parse (sm_json_pointer mapping));
  stored_model mapping_path (FieldMapping_new field_id pointer).

Definition stored_profile_path (revision_id : IngestionProfileRevisionId) : string :=
  "ingestion_profile_revisions[" +:+ uuid_to_string revision_id +:+ "].definition".

Definition decode_stored_profile_definition (revision_id : IngestionProfileRevisionId) (input_id : InputId) (revision : Z)
    (target_schema : Schema) (definition : Value) : catalog_result IngestionProfileRevision :=
  let path := stored_profile_path revision_id in
  document ← ok_or (profile_document definition) (Corruption path);
  _ ← verify_uuid (sp_ingestion_profile_revision_id document) revision_id path;
  _ ← verify_uuid (sp_input_id document) input_id path;
  _ ← verify_uuid (sp_target_schema_id document) (s_id target_schema) path;
  _ ← check (sp_revision document =? revision) (Corruption path);
  maximum_record_bytes ← stored_model path (MaximumRecordBytes_new (sp_maximum_record_bytes document));
  event_pointer ← stored_model path (Pointer.parse (se_json_pointer (sp_event_time document)));
  event_format ← decode_event_time_format (se_format (sp_event_time document)) path;
  let event_time := {| et_json_pointer := event_pointer; et_format := event_format |} in
  mappings ← try_enumerate (decode_mapping path) (sp_mappings document);
  profile ← stored_model path (IngestionProfile_new maximum_record_bytes event_time mappings);
  let provisional :=
    {| r_id := revision_id; r_input_id := input_id; r_revision := revision; r_target_schema_id := s_id target_schema;
       r_declaration_digest := empty_digest; r_materialized_digest := empty_digest; r_profile := profile |} in
  declaration ← stored_profile_declaration provisional target_schema path;
  materialized ← profile_materialized provisional path;
  _ ← verify_materialized_document definition (doc_json materialized) path;
  Ok {| r_id := revision_id; r_input_id := input_id; r_revision := revision; r_target_schema_id := s_id target_schema;
        r_declaration_digest := doc_digest declaration; r_materialized_digest := doc_digest materialized;
        r_profile := profile |}.

Definition assemble_stored_input (input_id : InputId) (source_id : SourceId) (name : string)
    (active_profile_revision_id : IngestionProfileRevisionId) (profile_revisions : list IngestionProfileRevision)
    : catalog_result Input :=
  let path := "inputs[" +:+ uuid_to_string input_id +:+ "]" in
  declaration ← input_declaration name path;
  materialized ← input_materialized input_id source_id name path;
  stored_model path
    (Input_new input_id source_id name (doc_digest declaration) (doc_digest materialized)
       active_profile_revision_id profile_revisions).

Definition assemble_stored_source (source_id : SourceId) (name display_name : string) (active_schema_id : SchemaId)
    (schemas : list Schema) (inputs : list Input) : catalog_result Source :=
  let path := "sources[" +:+ uuid_to_string source_id +:+ "]" in
  declaration ← source_declaration name;
  stored_model path
    (Source_new source_id name display_name (doc_digest declaration) active_schema_id schemas inputs).

End Stored.
