(* ===== verification/StoredCorrect.v ===== *)
(** * Stored definitions: round trips

    The definition that the application of a manifest materializes is decoded to the
    schema or the profile it was made from, with the same digests. *)

From S2P Require Import Prelude Core CatalogTypes CatalogModel CatalogSource Bytes Frame Json Storage Canonical Manifest Application Stored ApplicationCorrect.
Import Schema.
#[local] Open Scope string_scope.
#[local] Open Scope list_scope.
#[local] Open Scope Z_scope.

(** ** Canonical documents

    Maps as sorted association lists, values that canonical encoding leaves alone, and the
    laws of serde_json that the proofs about stored documents use. *)

(** ** The order of strings *)

Lemma ascii_compare_trans a b c : Ascii.compare a b = Lt → Ascii.compare b c = Lt → Ascii.compare a c = Lt.
Proof. unfold Ascii.compare. rewrite !N.compare_lt_iff. lia. Qed.

Lemma string_compare_trans a : ∀ b c, String.compare a b = Lt → String.compare b c = Lt → String.compare a c = Lt.
Proof.
  induction a as [|x a IH]; intros [|y b] [|z c]; cbn; try done.
  destruct (Ascii.compare x y) eqn:E1, (Ascii.compare y z) eqn:E2; try done; intros H1 H2.
  - apply Ascii.compare_eq_iff in E1, E2. subst. assert (Ascii.compare z z = Eq) as ->; [|by eapply IH].
    unfold Ascii.compare. apply N.compare_refl.
  - apply Ascii.compare_eq_iff in E1. subst. by rewrite E2.
  - apply Ascii.compare_eq_iff in E2. subst. by rewrite E1.
  - by rewrite (ascii_compare_trans _ _ _ E1 E2).
Qed.

Lemma string_compare_refl a : String.compare a a = Eq.
Proof.
  destruct (String.compare a a) eqn:E; [done|..]; pose proof (String.compare_antisym a a) as H; rewrite E in H; done.
Qed.

Lemma string_compare_gt a b : String.compare a b = Gt → String.compare b a = Lt.
Proof. intros H. rewrite String.compare_antisym, H. done. Qed.

Section Facts.
Context {env : SpoolEnv} {lib : JsonLib} {text : JsonText} {uuid : UuidText} {number_equality : NumberEq}.

(** ** Maps *)

Definition key_lt (a b : string * Value) : Prop := String.compare a.1 b.1 = Lt.

Lemma key_lt_trans a b c : key_lt a b → key_lt b c → key_lt a c.
Proof. apply string_compare_trans. Qed.

Lemma map_insert_elem k v m e : e ∈ map_insert k v m → e = (k, v) ∨ e ∈ m.
Proof.
  induction m as [|[k' w] m IH]; cbn [map_insert]; [set_solver|]. destruct (String.compare k k'); set_solver.
Qed.

Lemma map_insert_sorted k v m : StronglySorted key_lt m → StronglySorted key_lt (map_insert k v m).
Proof.
  induction 1 as [|[k' w] m Hs IH Hall]; cbn [map_insert]; [by repeat constructor|]. rewrite Forall_forall in Hall.
  destruct (String.compare k k') eqn:E.
  - apply String.compare_eq_iff in E as ->. constructor; [done|]. apply Forall_forall. intros e He. by apply Hall in He.
  - constructor; [by constructor; [|apply Forall_forall]|]. rewrite Forall_cons, Forall_forall. split; [exact E|].
    intros e He. by eapply (key_lt_trans (k, v) (k', w)); [exact E | apply Hall].
  - constructor; [done|]. apply Forall_forall. intros e He. apply map_insert_elem in He as [->|He]; [|by apply Hall].
    by apply string_compare_gt.
Qed.

Lemma map_insert_perm k v m : k ∉ m.*1 → map_insert k v m ≡ₚ (k, v) :: m.
Proof.
  induction m as [|[k' w] m IH]; cbn [map_insert]; [done|]. rewrite fmap_cons, not_elem_of_cons. intros [Hk Hm].
  destruct (String.compare k k') eqn:E; [by apply String.compare_eq_iff in E | done |]. rewrite IH by done. by constructor.
Qed.

Lemma map_of_sorted l : StronglySorted key_lt (map_of l).
Proof.
  unfold map_of. generalize (SSorted_nil key_lt). generalize (@nil (string * Value)).
  induction l as [|e l IH]; intros m Hm; [done|]. cbn [fold_left]. apply IH. by apply map_insert_sorted.
Qed.

Lemma map_of_perm l : NoDup l.*1 → map_of l ≡ₚ l.
Proof.
  unfold map_of. intros Hnd.
  assert (H : ∀ m, NoDup (l.*1 ++ m.*1) → fold_left (λ m e, map_insert e.1 e.2 m) l m ≡ₚ l ++ m);
    [|rewrite H, app_nil_r; by rewrite ?app_nil_r].
  clear Hnd. induction l as [|[k v] l IH]; intros m Hm; [done|]. cbn [fold_left fst snd].
  rewrite fmap_cons in Hm. cbn [fst app] in Hm. apply NoDup_cons in Hm as [Hk Hm].
  assert (Hp : map_insert k v m ≡ₚ (k, v) :: m) by (apply map_insert_perm; set_solver).
  rewrite IH, Hp.
  - by rewrite <- Permutation_middle.
  - rewrite Hp, fmap_cons. cbn [fst]. rewrite <- Permutation_middle. by apply NoDup_cons.
Qed.

Lemma map_of_elem l e : e ∈ map_of l → e ∈ l.
Proof.
  unfold map_of. assert (H : ∀ m, e ∈ fold_left (λ m e, map_insert e.1 e.2 m) l m → e ∈ l ∨ e ∈ m);
    [|intros He; destruct (H _ He); [done | set_solver]].
  induction l as [|[k v] l IH]; intros m He; [by right|]. cbn [fold_left] in He. apply IH in He as [He|He]; [set_solver|].
  apply map_insert_elem in He. set_solver.
Qed.

Lemma sorted_keys_NoDup l : StronglySorted key_lt l → NoDup l.*1.
Proof.
  induction 1 as [|e l Hs IH Hall]; [constructor|]. rewrite fmap_cons. apply NoDup_cons. split; [|done].
  rewrite list_elem_of_fmap. intros (e' & E & He). rewrite Forall_forall in Hall. apply Hall in He. unfold key_lt in He.
  by rewrite E, string_compare_refl in He.
Qed.

Lemma map_of_sorted_id l : StronglySorted key_lt l → map_of l = l.
Proof.
  intros Hl. apply (StronglySorted_unique_strong key_lt); [|apply map_of_sorted | done | apply map_of_perm, sorted_keys_NoDup, Hl].
  intros x y _ _ Hxy Hyx. pose proof (key_lt_trans _ _ _ Hxy Hyx) as H. unfold key_lt in H. by rewrite string_compare_refl in H.
Qed.

(** Sorting an association list with distinct keys and collecting it in a map is
    collecting it. *)
Lemma map_of_Permutation l k : l ≡ₚ k → NoDup l.*1 → map_of l = map_of k.
Proof.
  intros Hp Hl. assert (Hk : NoDup k.*1) by (by rewrite <- Hp).
  apply (StronglySorted_unique_strong key_lt); [| apply map_of_sorted | apply map_of_sorted | by rewrite !map_of_perm].
  intros x y _ _ Hxy Hyx. pose proof (key_lt_trans _ _ _ Hxy Hyx) as H. unfold key_lt in H. by rewrite string_compare_refl in H.
Qed.

(** ** Plain values *)

(** The values of documents: no number but a [u64], keys in order, at most [depth]
    containers in each other. *)
Fixpoint plain (depth : nat) (v : Value) : Prop :=
  match v with
  | VNull | VBool _ | VString _ => True
  | VNumber n => ∃ z, fits U64 z = true ∧ n = Number_from_u64 z
  | VArray values => match depth with O => False | S depth => Forall (plain depth) values end
  | VObject members =>
      match depth with
      | O => False
      | S depth => StronglySorted key_lt members ∧ Forall (λ m, plain depth m.2) members
      end
  end.

Lemma plain_mono d d' v : (d ≤ d')%nat → plain d v → plain d' v.
Proof.
  revert d' v. induction d as [|d IH]; intros d' v Hd Hv; destruct v; try (by destruct d'); destruct d' as [|d']; try lia; cbn in *.
  - eapply Forall_impl; [exact Hv|]. intros x. apply IH. lia.
  - destruct Hv as [Hs Hv]. split; [done|]. eapply Forall_impl; [exact Hv|]. intros x. apply IH. lia.
Qed.

Lemma sort_objects_plain d v : plain d v → sort_objects v = v.
Proof.
  revert v. induction d as [|d IH]; intros v Hv; destruct v; try done; cbn in Hv |- *.
  - f_equal. rewrite Forall_forall in Hv. rewrite <- (list_fmap_id values) at 2. apply list_fmap_ext. intros i x Hx.
    apply IH, Hv. by eapply list_elem_of_lookup_2.
  - destruct Hv as [Hs Hv]. rewrite Forall_forall in Hv.
    assert (E : ((λ m, (m.1, sort_objects m.2)) <$> members) = members).
    { rewrite <- (list_fmap_id members) at 2. apply list_fmap_ext. intros i [k x] Hx. cbn. f_equal.
      apply (IH x). apply list_elem_of_lookup_2 in Hx. by apply (Hv _ Hx). }
    rewrite E, (map_of_Permutation (merge_sort key_le members) members).
    + by rewrite map_of_sorted_id.
    + apply merge_sort_Permutation.
    + rewrite merge_sort_Permutation. by apply sorted_keys_NoDup.
Qed.

Lemma plain_object d entries : Forall (λ e, plain d e.2) entries → plain (S d) (object entries).
Proof.
  intros H. rewrite Forall_forall in H. split; [apply map_of_sorted|]. apply Forall_forall. intros e He. by apply H, map_of_elem.
Qed.

Lemma plain_array d values : Forall (plain d) values → plain (S d) (VArray values).
Proof. done. Qed.

Lemma plain_unsigned d z : fits U64 z = true → plain d (unsigned z).
Proof. intros H. destruct d; by exists z. Qed.

Lemma plain_string d s : plain d (VString s).
Proof. by destruct d. Qed.

Lemma plain_optional {A} d key (f : A → Value) (o : option A) :
  (∀ a, plain d (f a)) → Forall (λ e, plain d e.2) (optional key f o).
Proof. intros H. destruct o; repeat constructor. apply H. Qed.

(** ** serde_json *)

(** A document is read back as it was written; serde_json reads at most 127 containers in
    each other. *)
Class JsonTextLaws : Prop := {
  as_u64_from_u64 z : fits U64 z = true → as_u64 (Number_from_u64 z) = Some z;
  json_round_trip v s : plain 127 v → json_to_string v = Some s → json_from_str s = Some v;
  number_eq_refl n : number_eq n n = true;
}.

Lemma value_eqb_refl `{!JsonTextLaws} d v : plain d v → value_eqb v v = true.
Proof.
  revert v. induction d as [|d IH]; intros v Hv; destruct v; cbn in Hv |- *; try done;
    try (by apply eqb_reflx); try (by apply number_eq_refl); try (by apply String.eqb_refl).
  - induction Hv as [|x vs Hx Hvs IHv]; [done|]. rewrite (IH x Hx). exact IHv.
  - destruct Hv as [_ Hv]. induction Hv as [|[k x] ms Hx Hms IHm]; [done|]. rewrite String.eqb_refl, (IH x Hx). exact IHm.
Qed.

(** ** Structs *)

Lemma map_get_perm key l k : l ≡ₚ k → NoDup l.*1 → map_get key l = map_get key k.
Proof.
  induction 1 as [|[k1 v1] l k Hp IH|[k1 v1] [k2 v2] l|l k m H1 IH1 H2 IH2]; intros Hnd; cbn.
  - done.
  - rewrite fmap_cons in Hnd. apply NoDup_cons in Hnd as [_ Hnd]. by rewrite IH.
  - rewrite !fmap_cons, !NoDup_cons in Hnd. destruct Hnd as [Hne _]. cbn in Hne.
    destruct (String.eqb_spec k2 key), (String.eqb_spec k1 key); try done. subst. set_solver.
  - rewrite IH1 by done. apply IH2. by rewrite <- H1.
Qed.

Lemma struct_fields_object names entries :
  NoDup entries.*1 → forallb (λ e, existsb (String.eqb e) names) entries.*1 = true →
  struct_fields names (object entries) = Some ((λ name, map_get name entries) <$> names).
Proof.
  intros Hnd Hall. unfold struct_fields, object.
  assert (Hf : forallb (λ m, existsb (String.eqb m.1) names) (map_of entries) = true).
  { apply forallb_forall. intros e He%list_elem_of_In%map_of_elem. rewrite forallb_forall in Hall. apply Hall, list_elem_of_In.
    apply list_elem_of_fmap. by exists e. }
  rewrite Hf. f_equal. apply list_fmap_ext. intros i name _. apply map_get_perm; [by apply map_of_perm|]. by rewrite map_of_perm.
Qed.

End Facts.

#[export] Hint Resolve plain_unsigned plain_string plain_optional : elucid.

(** The entries of an object one by one; texts are plain. *)
Ltac plain_entries :=
  repeat (apply Forall_cons; split); cbn [snd]; unfold id_string, pointer_string;
  try apply plain_string; try apply Forall_nil; try exact I.

Lemma imap_twice {A B C} (f : nat → B → C) (g : nat → A → B) l : imap f (imap g l) = imap (λ n x, f n (g n x)) l.
Proof. apply list_eq. intros i. rewrite !list_lookup_imap. by destruct (l !! i). Qed.

Section Stored.
Context {env : SpoolEnv} {lib : JsonLib} {text : JsonText} {uuid : UuidText} {number_equality : NumberEq}.
Context {json_laws : JsonTextLaws} {uuid_laws : UuidTextLaws}.

(** A catalog identity: a version 7 UUID. *)
Definition identity_ok (u : Z) : Prop := is_uuid u ∧ UuidV7.new u = Some u.

(** ** Documents *)

(** A plain document is read back from its text. *)
Lemma document_read domain v path d :
  plain 127 v → document domain v path = Ok d → json_from_str (doc_json d) = Some v.
Proof.
  intros Hv. unfold document, encode_canonical_json. rewrite (sort_objects_plain _ _ Hv).
  destruct (json_to_string v) as [s|] eqn:E; cbn; intros H; [|done]. injection H as <-. cbn. by apply json_round_trip.
Qed.

Lemma verify_uuid_ok u path : is_uuid u → verify_uuid (uuid_to_string u) u path = Ok tt.
Proof. intros Hu. unfold verify_uuid. rewrite uuid_parse_to_string by done. cbn. by rewrite Z.eqb_refl. Qed.

Lemma parse_field_id_ok u path : identity_ok u → parse_field_id (uuid_to_string u) path = Ok u.
Proof. intros [Hu Hv]. unfold parse_field_id. rewrite uuid_parse_to_string by done. cbn. by rewrite Hv. Qed.

Lemma verify_document_ok domain v path d path' :
  plain 127 v → document domain v path = Ok d → verify_materialized_document v (doc_json d) path' = Ok tt.
Proof.
  intros Hv Hd. unfold verify_materialized_document. rewrite (document_read _ _ _ _ Hv Hd). cbn.
  by rewrite (value_eqb_refl _ _ Hv).
Qed.

Lemma parse_pointer p : Pointer.parse (Pointer.to_string p) = Ok p.
Proof. destruct p as [|t p]; [done|]. unfold Pointer.parse. cbn [Pointer.to_string]. rewrite Pointer.split_to_string. apply (Pointer.decode_tokens_escape 0 (t :: p)). Qed.

(** ** Fields *)

(** The document of a field. *)
Definition document_of_field (f : Field) : StoredFieldDocument :=
  {| sf_field_id := uuid_to_string (f_id f); sf_logical_metadata := logical_metadata (f_logical_type f);
     sf_logical_type := LogicalType_as_str (f_logical_type f); sf_name := f_name f;
     sf_nullability := Nullability_as_str (f_nullability f); sf_ordinal := f_ordinal f;
     sf_role := FieldRole_as_str (f_role f); sf_description := f_description f;
     sf_historical_remainder_pointer := Pointer.to_string <$> f_historical_remainder_pointer f;
     sf_historical_remainder_pointer_tokens := pointer_tokens <$> f_historical_remainder_pointer f |}.

Lemma field_document_of_field f :
  fits U64 (f_ordinal f) = true → field_document (materialized_field f) = Some (document_of_field f).
Proof.
  intros Ho. unfold field_document, materialized_field.
  rewrite struct_fields_object;
    [| destruct (f_description f), (f_historical_remainder_pointer f); apply (bool_decide_unpack _); vm_compute; done
     | destruct (f_description f), (f_historical_remainder_pointer f); reflexivity].
  destruct (f_description f) eqn:Ed, (f_historical_remainder_pointer f) eqn:Ep; cbn -[as_u64 Number_from_u64 uuid_to_string Pointer.to_string];
    rewrite as_u64_from_u64 by done; cbn -[uuid_to_string Pointer.to_string]; unfold document_of_field; by rewrite Ed, Ep.
Qed.

Lemma plain_pointer_tokens p : plain 1 (pointer_tokens p).
Proof. apply plain_array, Forall_fmap, Forall_forall. intros s _. apply plain_string. Qed.

Lemma plain_logical_metadata t : plain 1 (logical_metadata t).
Proof. apply plain_object, plain_optional. intros. apply plain_string. Qed.

Lemma plain_materialized_field f : fits U64 (f_ordinal f) = true → plain 2 (materialized_field f).
Proof.
  intros Ho. apply plain_object. rewrite !Forall_app. split_and!.
  - apply plain_optional. intros. apply plain_string.
  - apply plain_optional. intros. apply plain_string.
  - apply plain_optional. apply plain_pointer_tokens.
  - plain_entries; [apply plain_logical_metadata | by apply plain_unsigned].
Qed.

Lemma plain_arrow_field f : plain 2 (arrow_field_descriptor f).
Proof.
  apply plain_object. plain_entries.
  - apply plain_object. apply Forall_cons; split; [apply plain_string|]. apply plain_optional. intros. apply plain_string.
  - destruct (f_logical_type f); apply plain_object; plain_entries. by apply plain_unsigned.
Qed.

Lemma plain_schema_materialized schema_id source_id version fields :
  fits U64 version = true → Forall (λ f, fits U64 (f_ordinal f) = true) fields →
  plain 127 (schema_materialized_value schema_id source_id version fields).
Proof.
  intros Hv Hf. eapply (plain_mono 5); [lia|]. apply plain_object. plain_entries.
  - apply (plain_object 3). plain_entries. apply plain_array, Forall_fmap, Forall_forall. intros f _. apply plain_arrow_field.
  - apply plain_array, Forall_fmap. eapply Forall_impl; [exact Hf|]. intros f H. eapply plain_mono, plain_materialized_field, H. lia.
  - by apply plain_unsigned.
Qed.

(** A user field as planning and decoding build it. *)
Record user_field_ok (u : UserField) : Prop := {
  uo_id : identity_ok (uf_id u);
  uo_wf : UserField_wf u;
}.

Lemma decode_logical_type t path : decode_user_logical_type (UserLogicalType_as_str t) path = Ok t.
Proof. by destruct t. Qed.

Lemma decode_nullability_ok n path : decode_nullability (Nullability_as_str n) path = Ok n.
Proof. by destruct n. Qed.

Lemma decode_user_field_ok u path index k :
  user_field_ok u → decode_user_field path (index, document_of_field (field_of_user u k)) = Ok u.
Proof.
  intros [Hid [Hns Hname Hptr]]. unfold decode_user_field, document_of_field, field_of_user, stored_model, try_name, UserField_new.
  cbn [sf_field_id sf_name sf_logical_type sf_nullability sf_description sf_historical_remainder_pointer
       f_id f_name f_logical_type f_nullability f_description f_historical_remainder_pointer].
  rewrite parse_field_id_ok, bind_ret, Hname, user_logical_type_str, decode_logical_type, decode_nullability_ok, Hns by done.
  cbn [map_err]. rewrite !bind_ret. unfold with_historical_remainder_pointer. destruct u as [id name type null desc ptr]; cbn in *.
  destruct desc as [d|], ptr as [p|]; cbn; rewrite ?parse_pointer; cbn; try done;
    (rewrite bool_decide_false; [done|]; intros Hn; apply Hn, Hptr; by eexists).
Qed.

Lemma decode_user_fields users path :
  Forall user_field_ok users →
  try_map (decode_user_field path)
    (filter (λ f, sf_role f.2 = "DATA") (imap pair (document_of_field <$> layout users))) = Ok users.
Proof.
  intros Hall. apply try_map_Ok.
  assert (E : filter (λ f, sf_role f.2 = "DATA") (imap pair (document_of_field <$> layout users)) =
    imap (λ k u, ((3 + k)%nat, document_of_field (field_of_user u (3 + k)))) users).
  { unfold layout. rewrite !fmap_app, !imap_app, !filter_app. cbn [system_prefix fmap list_fmap length Nat.add].
    assert (filter (λ f, sf_role f.2 = "DATA") (imap pair (document_of_field <$> system_prefix)) = []) as E1 by reflexivity.
    cbn [system_prefix fmap list_fmap] in E1. rewrite E1. cbn [app].
    rewrite fmap_imap, imap_twice.
    match goal with |- ?a ++ ?b = _ => assert (b = []) as -> by reflexivity end.
    rewrite app_nil_r. apply filter_all, Forall_forall. intros x Hx.
    apply elem_of_lookup_imap_1 in Hx as (k & u & -> & _). done. }
  rewrite E. clear E. assert (H : ∀ n, Forall2 (λ x y, decode_user_field path x = Ok y)
    (imap (λ k u, ((n + k)%nat, document_of_field (field_of_user u (n + k)))) users) users); [|apply H].
  induction Hall as [|u users Hu Hus IH]; intros n; [constructor|]. rewrite imap_cons. constructor.
  - by apply decode_user_field_ok.
  - eapply Forall2_impl; [|intros ?? H; exact H]. erewrite imap_ext; [apply (IH (S n))|]. intros k x _. cbn. by rewrite Nat.add_succ_r.
Qed.


(** ** Schemas *)

(** A schema as planning and decoding build it. *)
Record schema_ok (s : Schema) (users : list UserField) : Prop := {
  so_fields : s_fields s = layout users;
  so_users : Forall user_field_ok users;
  so_ids : NoDup (uf_id <$> users);
  so_names : NoDup (uf_name <$> users);
  so_room : Z.of_nat (length users) + 3 ≤ int_max I32;
  so_id : is_uuid (s_id s);
  so_source : is_uuid (s_source_id s);
  so_version : fits U64 (s_version s) = true;
}.

Lemma layout_ordinals_fit users :
  Z.of_nat (length users) + 3 ≤ int_max I32 → Forall (λ f, fits U64 (f_ordinal f) = true) (layout users).
Proof.
  intros Hl. unfold layout. rewrite !Forall_app. split_and!.
  - by repeat constructor.
  - apply Forall_forall. intros f Hf. apply elem_of_lookup_imap_1 in Hf as (k & u & -> & Hu%lookup_lt_Some). cbn [f_ordinal field_of_user].
    apply fits_spec. int_lia.
  - constructor; [|constructor]. cbn [f_ordinal remainder_field]. apply fits_spec. int_lia.
Qed.

Lemma field_documents fields :
  Forall (λ f, fits U64 (f_ordinal f) = true) fields →
  mapM field_document (materialized_field <$> fields) = Some (document_of_field <$> fields).
Proof.
  intros H. induction H as [|f fields Hf Hfs IH]; [done|]. rewrite !fmap_cons. cbn [mapM]. rewrite field_document_of_field by done. cbn.
  by rewrite IH.
Qed.

Lemma schema_document_ok schema_id source_id version fields :
  fits U64 version = true → Forall (λ f, fits U64 (f_ordinal f) = true) fields →
  ∃ descriptor, schema_document (schema_materialized_value schema_id source_id version fields) =
    Some {| sd_arrow_schema_descriptor := descriptor; sd_fields := document_of_field <$> fields;
            sd_schema_id := uuid_to_string schema_id; sd_source_id := uuid_to_string source_id; sd_version := version |}.
Proof.
  intros Hv Hf. eexists. unfold schema_document, schema_materialized_value.
  rewrite struct_fields_object; [| apply (bool_decide_unpack _); vm_compute; done | reflexivity].
  cbn -[as_u64 Number_from_u64 uuid_to_string mapM materialized_field arrow_field_descriptor].
  rewrite field_documents by done. cbn -[as_u64 Number_from_u64 uuid_to_string arrow_field_descriptor].
  rewrite as_u64_from_u64 by done. reflexivity.
Qed.

Lemma schema_round_trip s users path d :
  schema_ok s users → verify_stored_schema s path = Ok tt → schema_materialized s path = Ok d →
  ∃ definition, json_from_str (doc_json d) = Some definition ∧
    decode_stored_schema_definition (s_id s) (s_source_id s) (s_version s) definition = Ok s.
Proof.
  intros [Hf Hu Hids Hnames Hroom Hid Hsrc Hv] Hver Hd.
  pose proof (layout_ordinals_fit _ Hroom) as Hord. rewrite <- Hf in Hord.
  pose proof (plain_schema_materialized (s_id s) (s_source_id s) (s_version s) (s_fields s) Hv Hord) as Hplain.
  unfold schema_materialized, schema_materialized_parts in Hd.
  exists (schema_materialized_value (s_id s) (s_source_id s) (s_version s) (s_fields s)). split; [by eapply document_read|].
  destruct (schema_document_ok (s_id s) (s_source_id s) (s_version s) (s_fields s) Hv Hord) as [descriptor Hdoc].
  unfold decode_stored_schema_definition. rewrite Hdoc. cbn [ok_or]. rewrite bind_ret.
  cbn [sd_schema_id sd_source_id sd_version sd_fields].
  rewrite !verify_uuid_ok, !bind_ret, Z.eqb_refl by done. cbn [check]. rewrite bind_ret, Hf, decode_user_fields, bind_ret by done.
  assert (Hnew : ∀ d1 d2, Schema_new (s_id s) (s_source_id s) (s_version s) d1 d2 users =
    Ok {| s_id := s_id s; s_source_id := s_source_id s; s_version := s_version s; s_declaration_digest := d1;
          s_materialized_digest := d2; s_fields := s_fields s |}).
  { intros d1 d2. unfold Schema_new. rewrite (proj2 (materialize_Ok users (layout users))) by done. by rewrite Hf. }
  unfold verify_stored_schema in Hver. apply bind_Ok in Hver as (decl & Hdecl & Hver). apply bind_Ok in Hver as ([] & Hdd & Hver).
  apply bind_Ok in Hver as (mat & Hmat & Hmd). apply check_Ok, bool_decide_eq_true in Hdd, Hmd.
  unfold schema_materialized, schema_materialized_parts in Hmat. assert (mat = d) as -> by congruence.
  rewrite !Hnew. unfold stored_model. cbn [map_err]. rewrite bind_ret.
  unfold stored_schema_declaration, schema_declaration, data_fields, schema_materialized, schema_materialized_parts in *.
  cbn [s_id s_source_id s_version s_fields].
  rewrite (document_path _ _ _ (stored_schema_path (s_id s)) _ Hdecl), bind_ret.
  rewrite (document_path _ _ _ (stored_schema_path (s_id s)) _ Hd), bind_ret, <- Hf.
  rewrite (verify_document_ok _ _ _ _ _ Hplain Hd), bind_ret, Hnew. cbn [map_err]. rewrite <- Hdd, <- Hmd. by destruct s.
Qed.

(** ** Ingestion profiles *)

Definition document_of_mapping (m : FieldMapping) : StoredMappingDocument :=
  {| sm_json_pointer := Pointer.to_string (m_json_pointer m); sm_json_pointer_tokens := pointer_tokens (m_json_pointer m);
     sm_target_field_id := uuid_to_string (m_target_field_id m) |}.

(** A profile as planning and decoding build it. *)
Record profile_ok (r : IngestionProfileRevision) : Prop := {
  po_id : is_uuid (r_id r);
  po_input : is_uuid (r_input_id r);
  po_schema : is_uuid (r_target_schema_id r);
  po_revision : fits U64 (r_revision r) = true;
  po_maximum : fits U64 (p_maximum_record_bytes (r_profile r)) = true ∧ p_maximum_record_bytes (r_profile r) ≠ 0;
  po_mappings : Forall (λ m, identity_ok (m_target_field_id m) ∧ is_system (m_target_field_id m) = false) (p_mappings (r_profile r));
  po_targets : unique_targets ∅ (p_mappings (r_profile r)) = Ok tt;
}.

Lemma mapping_document_ok m : mapping_document (materialized_mapping m) = Some (document_of_mapping m).
Proof.
  unfold mapping_document, materialized_mapping.
  rewrite struct_fields_object; [reflexivity | apply (bool_decide_unpack _); vm_compute; done | reflexivity].
Qed.

Lemma mapping_documents ms : mapM mapping_document (materialized_mapping <$> ms) = Some (document_of_mapping <$> ms).
Proof.
  induction ms as [|m ms IH]; [done|]. rewrite !fmap_cons. cbn [mapM]. rewrite mapping_document_ok. cbn -[document_of_mapping].
  by rewrite IH.
Qed.

Lemma decode_mapping_ok path index m :
  identity_ok (m_target_field_id m) → is_system (m_target_field_id m) = false →
  decode_mapping path index (document_of_mapping m) = Ok m.
Proof.
  intros Hi Hs. unfold decode_mapping, document_of_mapping, FieldMapping_new, stored_model.
  cbn [sm_target_field_id sm_json_pointer]. rewrite parse_field_id_ok, bind_ret, parse_pointer by done. cbn [map_err].
  rewrite bind_ret, Hs. by destruct m.
Qed.

Lemma try_enumerate_Ok {A B} (f : nat → A → catalog_result B) l ys :
  length ys = length l → (∀ k x y, l !! k = Some x → ys !! k = Some y → f k x = Ok y) → try_enumerate f l = Ok ys.
Proof.
  intros Hlen Hf. unfold try_enumerate.
  edestruct (try_collect_total (λ _ : unit, True) (λ index (_ : unit) x, y ← f index x; Ok (y, tt)) l 0 tt ys)
    as (s & E & _); [done | done | | by rewrite E].
  intros k x y [] Hx Hy _. exists tt. cbn [Nat.add]. by rewrite (Hf k x y Hx Hy).
Qed.

Lemma plain_profile_materialized revision_id input_id revision target profile :
  fits U64 revision = true → fits U64 (p_maximum_record_bytes profile) = true →
  plain 127 (profile_materialized_value revision_id input_id revision target profile).
Proof.
  intros Hr Hm. eapply (plain_mono 5); [lia|]. apply plain_object. plain_entries.
  - apply (plain_object 3). plain_entries. eapply plain_mono, plain_pointer_tokens. lia.
  - apply plain_array, Forall_fmap, Forall_forall. intros m _. apply (plain_object 2). plain_entries.
    eapply plain_mono, plain_pointer_tokens. lia.
  - by apply plain_unsigned.
  - by apply plain_unsigned.
Qed.

Lemma profile_document_ok revision_id input_id revision target profile :
  fits U64 revision = true → fits U64 (p_maximum_record_bytes profile) = true →
  profile_document (profile_materialized_value revision_id input_id revision target profile) =
    Some {| sp_event_time := {| se_format := EventTimeFormat_as_str (et_format (p_event_time profile));
                                se_json_pointer := Pointer.to_string (et_json_pointer (p_event_time profile));
                                se_json_pointer_tokens := pointer_tokens (et_json_pointer (p_event_time profile)) |};
            sp_ingestion_profile_revision_id := uuid_to_string revision_id; sp_input_id := uuid_to_string input_id;
            sp_mappings := document_of_mapping <$> p_mappings profile;
            sp_maximum_record_bytes := p_maximum_record_bytes profile; sp_revision := revision;
            sp_target_schema_id := uuid_to_string target |}.
Proof.
  intros Hr Hm. unfold profile_document, profile_materialized_value.
  rewrite struct_fields_object; [| apply (bool_decide_unpack _); vm_compute; done | reflexivity].
  cbn -[as_u64 Number_from_u64 uuid_to_string mapM materialized_mapping event_time_document object Pointer.to_string].
  unfold event_time_document. rewrite struct_fields_object; [| apply (bool_decide_unpack _); vm_compute; done | reflexivity].
  cbn -[as_u64 Number_from_u64 uuid_to_string mapM materialized_mapping Pointer.to_string].
  rewrite mapping_documents. cbn -[as_u64 Number_from_u64 uuid_to_string Pointer.to_string]. by rewrite !as_u64_from_u64.
Qed.


Lemma try_map_path target path path' ms values :
  try_map (stored_mapping_declaration target path) ms = Ok values → try_map (stored_mapping_declaration target path') ms = Ok values.
Proof.
  rewrite !try_map_Ok. intros H. eapply Forall2_impl; [exact H|]. intros m v. unfold stored_mapping_declaration.
  destruct (data_field target (m_target_field_id m)); [done|]. discriminate.
Qed.

Lemma profile_round_trip r target path d :
  profile_ok r → s_id target = r_target_schema_id r → verify_stored_profile r target path = Ok tt →
  profile_materialized r path = Ok d →
  ∃ definition, json_from_str (doc_json d) = Some definition ∧
    decode_stored_profile_definition (r_id r) (r_input_id r) (r_revision r) target definition = Ok r.
Proof.
  intros [Hid Hin Hsch Hrev [Hmax Hmax0] Hms Hun] Ht Hver Hd.
  pose proof (plain_profile_materialized (r_id r) (r_input_id r) (r_revision r) (r_target_schema_id r) (r_profile r) Hrev Hmax) as Hplain.
  unfold profile_materialized, profile_materialized_parts in Hd.
  eexists. split; [by eapply document_read|].
  unfold decode_stored_profile_definition. rewrite profile_document_ok by done. cbn [ok_or]. rewrite bind_ret.
  cbn [sp_ingestion_profile_revision_id sp_input_id sp_target_schema_id sp_revision sp_maximum_record_bytes sp_event_time sp_mappings
       se_json_pointer se_format].
  rewrite Ht, !verify_uuid_ok, !bind_ret, Z.eqb_refl by done. cbn [check]. rewrite bind_ret.
  unfold MaximumRecordBytes_new. rewrite (proj2 (Z.eqb_neq _ _) Hmax0). cbn [stored_model map_err]. rewrite bind_ret, parse_pointer.
  cbn [stored_model map_err]. rewrite bind_ret.
  replace (decode_event_time_format _ _) with (Ok (E := CatalogApplicationError) (et_format (p_event_time (r_profile r))))
    by (by destruct (et_format _)).
  rewrite bind_ret, (try_enumerate_Ok _ _ (p_mappings (r_profile r))), bind_ret.
  2: { by rewrite length_fmap. }
  2: { intros k x m Hx Hm. apply list_lookup_fmap_Some in Hx as (m' & -> & Hm'). assert (m' = m) as -> by congruence.
       rewrite Forall_forall in Hms. destruct (Hms m) as [??]; [by eapply list_elem_of_lookup_2|]. by apply decode_mapping_ok. }
  unfold IngestionProfile_new. rewrite Hun. cbn [stored_model map_err mbind result_bind].
  replace {| p_maximum_record_bytes := _; p_event_time := _; p_mappings := _ |} with (r_profile r)
    by (by destruct (r_profile r) as [? [] ?]).
  unfold verify_stored_profile in Hver. apply bind_Ok in Hver as (decl & Hdecl & Hver). apply bind_Ok in Hver as ([] & Hdd & Hver).
  apply bind_Ok in Hver as (mat & Hmat & Hmd). apply check_Ok, bool_decide_eq_true in Hdd, Hmd.
  unfold profile_materialized, profile_materialized_parts in Hmat. assert (mat = d) as -> by congruence.
  unfold stored_profile_declaration, profile_materialized, profile_materialized_parts in *.
  cbn [r_id r_input_id r_revision r_target_schema_id r_profile] in *.
  apply bind_Ok in Hdecl as (ms & Hmaps & Hdecl).
  rewrite (try_map_path target path (stored_profile_path (r_id r)) _ _ Hmaps), bind_ret.
  rewrite (document_path _ _ _ (stored_profile_path (r_id r)) _ Hdecl), bind_ret.
  rewrite (document_path _ _ _ (stored_profile_path (r_id r)) _ Hd), bind_ret.
  rewrite (verify_document_ok _ _ _ _ _ Hplain Hd), bind_ret, <- Hdd, <- Hmd. by destruct r.
Qed.

End Stored.
