(* ===== verification/CatalogStore.v ===== *)
(** * elucid-metastore: the catalog store

    Models src/elucid/elucid-metastore/src/catalog.rs with the tables [sources],
    [schema_versions], [inputs] and [ingestion_profile_revisions] of the migrations:
    loading and assembling a snapshot, applying a manifest in one transaction and the
    snapshot in memory. Tables are maps from primary keys to rows without timestamps; an
    error leaves them as they were, unless it is that the answer to the commit is lost. The order of texts in the database is a parameter, and
    so is what a JSONB column makes of a value. *)

From S2P Require Import Core ErrorCode CatalogTypes CatalogModel CatalogSource Bytes Frame Json Storage Database Canonical Manifest Application Stored Prelude.
Import Schema.

#[local] Open Scope string_scope.
#[local] Open Scope list_scope.
#[local] Open Scope Z_scope.

(** ** Errors (error.rs) *)

Inductive CatalogPersistenceErrorKind := CatalogConflictKind | CatalogUnavailableKind | CatalogCorruptKind.

Inductive CatalogPersistenceErrorSource :=
| CatalogSourceError (source : CatalogApplicationError)
| DatabaseSourceError (source : SqlError)
| ModelSourceError
| InvariantSourceError (message : string).

Record CatalogPersistenceError := { ce_kind : CatalogPersistenceErrorKind; ce_source : CatalogPersistenceErrorSource }.

Definition catalog_error (e : CatalogPersistenceError) : option CatalogApplicationError :=
  match ce_source e with CatalogSourceError source => Some source | _ => None end.

Definition CatalogPersistenceError_error_code (e : CatalogPersistenceError) : ErrorCode :=
  match ce_kind e with
  | CatalogConflictKind => MetastoreConflict
  | CatalogUnavailableKind => MetastoreUnavailable
  | CatalogCorruptKind => MetastoreCorrupt
  end.

Definition from_catalog (source : CatalogApplicationError) : CatalogPersistenceError :=
  {| ce_kind := match application_error_kind source with
                | CorruptKind => CatalogCorruptKind
                | _ => CatalogConflictKind
                end;
     ce_source := CatalogSourceError source |}.

Definition catalog_write (source : SqlError) : CatalogPersistenceError :=
  {| ce_kind := if is_database_conflict source then CatalogConflictKind else CatalogUnavailableKind;
     ce_source := DatabaseSourceError source |}.

Definition catalog_unavailable (source : SqlError) : CatalogPersistenceError :=
  {| ce_kind := CatalogUnavailableKind; ce_source := DatabaseSourceError source |}.

Definition corrupt_model : CatalogPersistenceError :=
  {| ce_kind := CatalogCorruptKind; ce_source := ModelSourceError |}.

Definition catalog_conflict (message : string) : CatalogPersistenceError :=
  {| ce_kind := CatalogConflictKind; ce_source := InvariantSourceError message |}.

Definition catalog_corrupt (message : string) : CatalogPersistenceError :=
  {| ce_kind := CatalogCorruptKind; ce_source := InvariantSourceError message |}.

Notation persistence := (result CatalogPersistenceError).

(** ** Snapshots *)

(** [CatalogSnapshot]: the sources in the order of their names *)
Definition CatalogSnapshot := list Source.

Definition source_by_name (snapshot : CatalogSnapshot) (name : string) : option Source :=
  find (λ source, bool_decide (src_name source = name)) snapshot.

Definition source_by_id (snapshot : CatalogSnapshot) (source_id : SourceId) : option Source :=
  find (λ source, src_id source =? source_id) snapshot.

Definition source_name_le (a b : Source) : Prop := String.compare (src_name a) (src_name b) ≠ Gt.

#[export] Instance source_name_le_dec a b : Decision (source_name_le a b).
Proof. unfold source_name_le. destruct (String.compare _ _); [left|left|right]; congruence. Defined.

Fixpoint check_distinct (identities : gset Z) (names : gset string) (sources : list Source) : persistence unit :=
  match sources with
  | [] => Ok tt
  | source :: rest =>
      _ ← check (bool_decide (src_id source ∉ identities))
            (catalog_corrupt "stored catalog contains a duplicate source identity");
      _ ← check (bool_decide (src_name source ∉ names))
            (catalog_corrupt "stored catalog contains a duplicate source name");
      check_distinct ({[src_id source]} ∪ identities) ({[src_name source]} ∪ names) rest
  end.

Definition CatalogSnapshot_new (sources : list Source) : persistence CatalogSnapshot :=
  let sources := merge_sort source_name_le sources in
  _ ← check_distinct ∅ ∅ sources;
  Ok sources.

(** The source of the same name is replaced where it is, a new one is added. *)
Fixpoint replace_source (source : Source) (sources : list Source) : persistence (list Source) :=
  match sources with
  | [] => Ok [source]
  | current :: rest =>
      if bool_decide (src_name current = src_name source) then
        _ ← check (src_id current =? src_id source) (catalog_corrupt "source name changed its immutable identity");
        Ok (source :: rest)
      else rest ← replace_source source rest; Ok (current :: rest)
  end.

Definition replacing (snapshot : CatalogSnapshot) (source : Source) : persistence CatalogSnapshot :=
  _ ← check (negb (existsb (λ current, (src_id current =? src_id source) &&
                                       negb (bool_decide (src_name current = src_name source))) snapshot))
        (catalog_corrupt "source identity changed its immutable name");
  sources ← replace_source source snapshot;
  CatalogSnapshot_new sources.

(** ** Rows *)

Section Rows.
Context {lib : JsonLib}.

Record SourceRow := { so_source_id : Z; so_name : string; so_display_name : string; so_active_schema_id : Z }.

Record SchemaRow := { sv_schema_id : Z; sv_source_id : Z; sv_version : Z; sv_definition : Value }.

Record InputRow := { in_input_id : Z; in_source_id : Z; in_name : string; in_active_profile_revision_id : Z }.

Record ProfileRow := {
  pr_profile_revision_id : Z;
  pr_input_id : Z;
  pr_source_id : Z;
  pr_revision : Z;
  pr_target_schema_id : Z;
  pr_definition : Value;
}.

Record CatalogRows := {
  cr_sources : list SourceRow;
  cr_schemas : list SchemaRow;
  cr_inputs : list InputRow;
  cr_profiles : list ProfileRow;
}.

Record CatalogTables := {
  ct_sources : gmap Z SourceRow;
  ct_schemas : gmap Z SchemaRow;
  ct_inputs : gmap Z InputRow;
  ct_profiles : gmap Z ProfileRow;
}.

End Rows.

(** PostgreSQL: whether a text sorts before another, and the value of a JSONB column. *)
Class CatalogPostgres `{JsonLib} := {
  collate_le : string → string → bool;
  jsonb : Value → sql Value;
}.

Section Store.
Context {env : SpoolEnv} {lib : JsonLib} {text : JsonText} {uuid : UuidText} {number_equality : NumberEq}.
Context {postgres : CatalogPostgres}.

(** ** Assembling a snapshot *)

Definition group_by {T} (key : T → Z) (values : list T) : gmap Z (list T) :=
  fold_left (λ grouped value, <[key value := default [] (grouped !! key value) ++ [value]]> grouped) values ∅.

Definition identity (value : Z) : persistence Z := ok_or (UuidV7.new value) corrupt_model.

Definition stored_version (message : string) (new : Z → result CatalogModelError Z) (version : Z) : persistence Z :=
  _ ← check (0 <=? version) (catalog_corrupt message);
  map_err (λ _, corrupt_model) (new version).

Definition stored_schema_version : Z → persistence Z :=
  stored_version "stored schema version is negative" SchemaVersion_new.

Definition stored_profile_revision : Z → persistence Z :=
  stored_version "stored ingestion profile revision is negative" ProfileRevision_new.

Definition decode_schema_row (row : SchemaRow) : persistence Schema :=
  schema_id ← identity (sv_schema_id row);
  source_id ← identity (sv_source_id row);
  version ← stored_schema_version (sv_version row);
  map_err from_catalog (decode_stored_schema_definition schema_id source_id version (sv_definition row)).

(** [schemas.iter().map(|schema| (schema.id(), schema)).collect::<HashMap<_, _>>()] *)
Definition schemas_by_id (schemas : list Schema) : gmap Z Schema :=
  fold_left (λ m schema, <[s_id schema := schema]> m) schemas ∅.

Definition decode_profile_row (expected_input_id expected_source_id : Z) (schemas : gmap Z Schema) (row : ProfileRow)
    : persistence IngestionProfileRevision :=
  revision_id ← identity (pr_profile_revision_id row);
  input_id ← identity (pr_input_id row);
  source_id ← identity (pr_source_id row);
  _ ← check ((input_id =? expected_input_id) && (source_id =? expected_source_id))
        (catalog_corrupt "stored ingestion profile belongs to the wrong input or source");
  revision ← stored_profile_revision (pr_revision row);
  target_schema_id ← identity (pr_target_schema_id row);
  target_schema ← ok_or (schemas !! target_schema_id)
                    (catalog_corrupt "stored ingestion profile targets a missing schema");
  map_err from_catalog (decode_stored_profile_definition revision_id input_id revision target_schema (pr_definition row)).

Definition decode_input_row (expected_source_id : Z) (schemas : gmap Z Schema) (_ : nat)
    (profile_rows : gmap Z (list ProfileRow)) (row : InputRow) : persistence (Input * gmap Z (list ProfileRow)) :=
  input_id ← identity (in_input_id row);
  source_id ← identity (in_source_id row);
  _ ← check (source_id =? expected_source_id) (catalog_corrupt "stored input belongs to the wrong source");
  name ← map_err (λ _, corrupt_model) (try_name InputKind (in_name row));
  active_profile_revision_id ← identity (in_active_profile_revision_id row);
  revisions ← try_map (decode_profile_row input_id source_id schemas) (default [] (profile_rows !! in_input_id row));
  input ← map_err from_catalog (assemble_stored_input input_id source_id name active_profile_revision_id revisions);
  Ok (input, delete (in_input_id row) profile_rows).

(** The three maps of rows that are not assembled yet. *)
Definition pending_rows : Type := gmap Z (list SchemaRow) * gmap Z (list InputRow) * gmap Z (list ProfileRow).

Definition assemble_source (_ : nat) (pending : pending_rows) (row : SourceRow) : persistence (Source * pending_rows) :=
  let '(schema_rows, input_rows, profile_rows) := pending in
  source_id ← identity (so_source_id row);
  source_name ← map_err (λ _, corrupt_model) (try_name SourceKind (so_name row));
  active_schema_id ← identity (so_active_schema_id row);
  schemas ← try_map decode_schema_row (default [] (schema_rows !! so_source_id row));
  '(inputs, profile_rows) ← try_collect (decode_input_row source_id (schemas_by_id schemas)) 0 profile_rows
                              (default [] (input_rows !! so_source_id row));
  source ← map_err from_catalog
             (assemble_stored_source source_id source_name (so_display_name row) active_schema_id schemas inputs);
  Ok (source, (delete (so_source_id row) schema_rows, delete (so_source_id row) input_rows, profile_rows)).

Definition assemble_snapshot (rows : CatalogRows) : persistence CatalogSnapshot :=
  '(sources, (schema_rows, input_rows, profile_rows)) ←
    try_collect assemble_source 0
      (group_by sv_source_id (cr_schemas rows), group_by in_source_id (cr_inputs rows), group_by pr_input_id (cr_profiles rows))
      (cr_sources rows);
  _ ← check (bool_decide (schema_rows = ∅) && bool_decide (input_rows = ∅) && bool_decide (profile_rows = ∅))
        (catalog_corrupt "stored catalog contains orphaned child rows");
  CatalogSnapshot_new sources.

(** ** Reading *)

Definition collate (a b : string) : comparison :=
  if collate_le a b then if collate_le b a then Eq else Lt else Gt.

(** The comparison of the next column decides between equal ones. *)
Definition then_by (c d : comparison) : comparison := match c with Eq => d | _ => c end.

Definition not_after {A} (compare : A → A → comparison) (a b : A) : Prop := compare a b ≠ Gt.

#[export] Instance not_after_dec {A} (compare : A → A → comparison) a b : Decision (not_after compare a b).
Proof. unfold not_after. destruct (compare a b); [left|left|right]; congruence. Defined.

(** [SELECT … WHERE p ORDER BY compare] *)
Definition select {A} (p : A → bool) (compare : A → A → comparison) (table : gmap Z A) : list A :=
  merge_sort (not_after compare) (filter (λ row, p row = true) (map_to_list table).*2).

Definition load_all_rows (tables : CatalogTables) : CatalogRows :=
  {| cr_sources := select (λ _, true) (λ a b, collate (so_name a) (so_name b)) (ct_sources tables);
     cr_schemas := select (λ _, true)
                     (λ a b, then_by (sv_source_id a ?= sv_source_id b) (sv_version a ?= sv_version b)) (ct_schemas tables);
     cr_inputs := select (λ _, true)
                    (λ a b, then_by (in_source_id a ?= in_source_id b) (collate (in_name a) (in_name b))) (ct_inputs tables);
     cr_profiles := select (λ _, true)
                      (λ a b, then_by (pr_source_id a ?= pr_source_id b)
                                (then_by (pr_input_id a ?= pr_input_id b) (pr_revision a ?= pr_revision b)))
                      (ct_profiles tables) |}.

Definition load_consistent_snapshot (tables : CatalogTables) : persistence CatalogSnapshot :=
  assemble_snapshot (load_all_rows tables).

(** The rows that [load_source_for_update] reads for a row of [sources]. *)
Definition source_rows (tables : CatalogTables) (source : SourceRow) : CatalogRows :=
  let source_id := so_source_id source in
  {| cr_sources := [source];
     cr_schemas := select (λ row, sv_source_id row =? source_id) (λ a b, sv_version a ?= sv_version b) (ct_schemas tables);
     cr_inputs := select (λ row, in_source_id row =? source_id) (λ a b, collate (in_name a) (in_name b)) (ct_inputs tables);
     cr_profiles := select (λ row, pr_source_id row =? source_id)
                      (λ a b, then_by (pr_input_id a ?= pr_input_id b) (pr_revision a ?= pr_revision b))
                      (ct_profiles tables) |}.

Definition source_row_by_name (tables : CatalogTables) (name : string) : option SourceRow :=
  find (λ row, bool_decide (so_name row = name)) (map_to_list (ct_sources tables)).*2.

Definition load_source_for_update (tables : CatalogTables) (source_name : string) : persistence (option Source) :=
  match source_row_by_name tables source_name with
  | None => Ok None
  | Some source => snapshot ← assemble_snapshot (source_rows tables source); Ok (head snapshot)
  end.

(** ** Writing *)

Definition rows {A} (table : gmap Z A) : list A := (map_to_list table).*2.

Definition is_object (v : Value) : bool := match v with VObject _ => true | _ => false end.

Definition insert_source (row : SourceRow) (tables : CatalogTables) : sql CatalogTables :=
  _ ← check (is_valid_name (so_name row)) check_violation;
  _ ← check (is_null (ct_sources tables !! so_source_id row)) unique_violation;
  _ ← check (negb (existsb (λ other, String.eqb (so_name other) (so_name row)) (rows (ct_sources tables)))) unique_violation;
  Ok {| ct_sources := <[so_source_id row := row]> (ct_sources tables); ct_schemas := ct_schemas tables;
        ct_inputs := ct_inputs tables; ct_profiles := ct_profiles tables |}.

(** The row is updated when it is there; the result has the number of rows. *)
Definition update_source (source_id : Z) (display_name : string) (active_schema_id : Z) (tables : CatalogTables)
    : CatalogTables * nat :=
  match ct_sources tables !! source_id with
  | Some row =>
      ({| ct_sources := <[source_id := {| so_source_id := so_source_id row; so_name := so_name row;
                                          so_display_name := display_name; so_active_schema_id := active_schema_id |}]>
                          (ct_sources tables);
          ct_schemas := ct_schemas tables; ct_inputs := ct_inputs tables; ct_profiles := ct_profiles tables |}, 1%nat)
  | None => (tables, 0%nat)
  end.

Definition insert_schema (row : SchemaRow) (tables : CatalogTables) : sql CatalogTables :=
  definition ← jsonb (sv_definition row);
  let row := {| sv_schema_id := sv_schema_id row; sv_source_id := sv_source_id row; sv_version := sv_version row;
                sv_definition := definition |} in
  _ ← check ((0 <? sv_version row) && is_object definition) check_violation;
  _ ← check (is_null (ct_schemas tables !! sv_schema_id row)) unique_violation;
  _ ← check (negb (existsb (λ other, (sv_source_id other =? sv_source_id row) && (sv_version other =? sv_version row))
                     (rows (ct_schemas tables)))) unique_violation;
  Ok {| ct_sources := ct_sources tables; ct_schemas := <[sv_schema_id row := row]> (ct_schemas tables);
        ct_inputs := ct_inputs tables; ct_profiles := ct_profiles tables |}.

(** [inputs_source_fkey] is not deferred. *)
Definition insert_input (row : InputRow) (tables : CatalogTables) : sql CatalogTables :=
  _ ← check (is_valid_name (in_name row)) check_violation;
  _ ← check (is_null (ct_inputs tables !! in_input_id row)) unique_violation;
  _ ← check (negb (existsb (λ other, (in_source_id other =? in_source_id row) && String.eqb (in_name other) (in_name row))
                     (rows (ct_inputs tables)))) unique_violation;
  _ ← check (negb (is_null (ct_sources tables !! in_source_id row))) foreign_key_violation;
  Ok {| ct_sources := ct_sources tables; ct_schemas := ct_schemas tables;
        ct_inputs := <[in_input_id row := row]> (ct_inputs tables); ct_profiles := ct_profiles tables |}.

Definition update_input (input_id active_profile_revision_id : Z) (tables : CatalogTables) : CatalogTables * nat :=
  match ct_inputs tables !! input_id with
  | Some row =>
      ({| ct_sources := ct_sources tables; ct_schemas := ct_schemas tables;
          ct_inputs := <[input_id := {| in_input_id := in_input_id row; in_source_id := in_source_id row;
                                        in_name := in_name row;
                                        in_active_profile_revision_id := active_profile_revision_id |}]> (ct_inputs tables);
          ct_profiles := ct_profiles tables |}, 1%nat)
  | None => (tables, 0%nat)
  end.

Definition insert_profile (row : ProfileRow) (tables : CatalogTables) : sql CatalogTables :=
  definition ← jsonb (pr_definition row);
  let row := {| pr_profile_revision_id := pr_profile_revision_id row; pr_input_id := pr_input_id row;
                pr_source_id := pr_source_id row; pr_revision := pr_revision row;
                pr_target_schema_id := pr_target_schema_id row; pr_definition := definition |} in
  _ ← check ((0 <? pr_revision row) && is_object definition) check_violation;
  _ ← check (is_null (ct_profiles tables !! pr_profile_revision_id row)) unique_violation;
  _ ← check (negb (existsb (λ other, (pr_input_id other =? pr_input_id row) && (pr_revision other =? pr_revision row))
                     (rows (ct_profiles tables)))) unique_violation;
  Ok {| ct_sources := ct_sources tables; ct_schemas := ct_schemas tables; ct_inputs := ct_inputs tables;
        ct_profiles := <[pr_profile_revision_id row := row]> (ct_profiles tables) |}.

(** The foreign keys that are checked when the transaction commits. *)
Definition foreign_keys (tables : CatalogTables) : bool :=
  forallb (λ row, match ct_schemas tables !! so_active_schema_id row with
                  | Some schema => sv_source_id schema =? so_source_id row
                  | None => false
                  end) (rows (ct_sources tables)) &&
  forallb (λ row, negb (is_null (ct_sources tables !! sv_source_id row))) (rows (ct_schemas tables)) &&
  forallb (λ row, match ct_profiles tables !! in_active_profile_revision_id row with
                  | Some profile => (pr_input_id profile =? in_input_id row) && (pr_source_id profile =? in_source_id row)
                  | None => false
                  end) (rows (ct_inputs tables)) &&
  forallb (λ row, match ct_inputs tables !! pr_input_id row with
                  | Some input => in_source_id input =? pr_source_id row
                  | None => false
                  end &&
                  match ct_schemas tables !! pr_target_schema_id row with
                  | Some schema => sv_source_id schema =? pr_source_id row
                  | None => false
                  end) (rows (ct_profiles tables)).

Definition catalog_commit (tables : CatalogTables) : sql CatalogTables :=
  _ ← check (foreign_keys tables) foreign_key_violation;
  Ok tables.

(** ** Persisting a plan *)

Definition require_one_row (message : string) (r : CatalogTables * nat) : persistence CatalogTables :=
  _ ← check (r.2 =? 1)%nat (catalog_conflict message);
  Ok r.1.

Definition canonical_json_value (document : string) : persistence Value :=
  ok_or (json_from_str document) (catalog_corrupt "generated catalog JSON is invalid").

Definition database_version (version : Z) : persistence Z :=
  ok_or (narrow I64 version) (catalog_conflict "catalog version exceeds BIGINT").

(** [active_schema().id()]; the index of a source is in range. *)
Definition active_schema_id (source : Source) : Z :=
  match CatalogSource.active_schema source with Some schema => s_id schema | None => 0 end.

Definition active_profile_revision_id (input : Input) : Z :=
  match active_profile_revision input with Some revision => r_id revision | None => 0 end.

Definition persist_source (plan : CatalogApplicationPlan) (tables : CatalogTables) : persistence CatalogTables :=
  let source := plan_source plan in
  match ps_disposition (plan_source_definition plan) with
  | Create =>
      map_err catalog_write
        (insert_source {| so_source_id := src_id source; so_name := src_name source;
                          so_display_name := src_display_name source; so_active_schema_id := active_schema_id source |} tables)
  | Existing =>
      if bool_decide (plan_outcome plan = Unchanged) then Ok tables
      else require_one_row "source update lost its locked row"
             (update_source (src_id source) (src_display_name source) (active_schema_id source) tables)
  end.

Definition persist_schema (source : Source) (tables : CatalogTables) (definition : PlannedSchemaDefinition)
    : persistence CatalogTables :=
  match ph_disposition definition with
  | Existing => Ok tables
  | Create =>
      schema ← ok_or (source_schema source (ph_schema_id definition)) (catalog_corrupt "planned schema is absent");
      document ← canonical_json_value (doc_json (ph_materialized definition));
      version ← database_version (s_version schema);
      map_err catalog_write
        (insert_schema {| sv_schema_id := s_id schema; sv_source_id := src_id source; sv_version := version;
                          sv_definition := document |} tables)
  end.

Definition input_active_pointer_changed (current : option Source) (desired : Input) : bool :=
  match current ≫= λ source, source_input source (i_id desired) with
  | Some stored => negb (active_profile_revision_id stored =? active_profile_revision_id desired)
  | None => true
  end.

Definition persist_input (source : Source) (current : option Source) (tables : CatalogTables)
    (definition : PlannedInputDefinition) : persistence CatalogTables :=
  input ← ok_or (source_input source (pi_input_id definition)) (catalog_corrupt "planned input is absent");
  match pi_disposition definition with
  | Create =>
      map_err catalog_write
        (insert_input {| in_input_id := i_id input; in_source_id := src_id source; in_name := i_name input;
                         in_active_profile_revision_id := active_profile_revision_id input |} tables)
  | Existing =>
      if input_active_pointer_changed current input
      then require_one_row "input update lost its row" (update_input (i_id input) (active_profile_revision_id input) tables)
      else Ok tables
  end.

Definition persist_profile (source : Source) (tables : CatalogTables) (definition : PlannedIngestionProfileDefinition)
    : persistence CatalogTables :=
  match pp_disposition definition with
  | Existing => Ok tables
  | Create =>
      revision ← ok_or (find (λ revision, r_id revision =? pp_ingestion_profile_revision_id definition)
                          (concat (i_profile_revisions <$> src_inputs source))) (catalog_corrupt "planned profile is absent");
      document ← canonical_json_value (doc_json (pp_materialized definition));
      number ← database_version (r_revision revision);
      map_err catalog_write
        (insert_profile {| pr_profile_revision_id := r_id revision; pr_input_id := r_input_id revision;
                           pr_source_id := src_id source; pr_revision := number;
                           pr_target_schema_id := r_target_schema_id revision; pr_definition := document |} tables)
  end.

Definition persist_plan (plan : CatalogApplicationPlan) (current : option Source) (tables : CatalogTables)
    : persistence CatalogTables :=
  let source := plan_source plan in
  tables ← persist_source plan tables;
  tables ← try_fold (persist_schema source) tables (plan_schema_definitions plan);
  tables ← try_fold (persist_input source current) tables (plan_input_definitions plan);
  try_fold (persist_profile source) tables (plan_ingestion_profile_definitions plan).

(** ** The store *)

Inductive CatalogApplyOutcome := AppliedOutcome (source : Source) | UnchangedOutcome (source : Source).

Definition outcome_source (outcome : CatalogApplyOutcome) : Source :=
  match outcome with AppliedOutcome source | UnchangedOutcome source => source end.

(** [classify_application_outcome] *)
Definition classify_outcome (outcome : CatalogApplicationOutcome) (source : Source) : CatalogApplyOutcome :=
  match outcome with Created | Updated => AppliedOutcome source | Unchanged => UnchangedOutcome source end.

(** The transaction of [apply]. *)
Definition apply_transaction {G} `{CatalogIdentityGenerator G} (manifest : CatalogManifest) (g : G) (tables : CatalogTables)
    : persistence (CatalogApplicationPlan * CatalogTables) :=
  current ← load_source_for_update tables (ms_name (cm_source manifest));
  '(plan, _) ← map_err from_catalog (plan_catalog_application manifest current g);
  tables ← persist_plan plan current tables;
  tables ← map_err catalog_write (catalog_commit tables);
  Ok (plan, tables).

(** The database and the snapshot in memory. *)
Record CatalogStore := { store_tables : CatalogTables; store_snapshot : CatalogSnapshot }.

Definition store_load (tables : CatalogTables) : persistence CatalogStore :=
  snapshot ← load_consistent_snapshot tables;
  Ok {| store_tables := tables; store_snapshot := snapshot |}.

(** How the database serves a call: it answers every statement; a statement before the
    commit fails with an error and the transaction is rolled back; or the transaction is
    committed and the answer to the commit is lost. *)
Inductive Exchange := Answered | Failed (error : CatalogPersistenceError) | Unanswered.

(** Loading only reads: without the answer to its commit it fails all the same. *)
Definition store_refresh (exchange : Exchange) (store : CatalogStore) : persistence unit * CatalogStore :=
  match exchange with
  | Failed e => (Err e, store)
  | _ =>
      match load_consistent_snapshot (store_tables store) with
      | Err e => (Err e, store)
      | Ok snapshot =>
          match exchange with
          | Unanswered => (Err (catalog_unavailable Transport), store)
          | _ => (Ok tt, {| store_tables := store_tables store; store_snapshot := snapshot |})
          end
      end
  end.

Definition merge_source (source : Source) (store : CatalogStore) : persistence unit * CatalogStore :=
  match replacing (store_snapshot store) source with
  | Err e => (Err e, store)
  | Ok snapshot => (Ok tt, {| store_tables := store_tables store; store_snapshot := snapshot |})
  end.

(** The snapshot is merged after the commit was answered. *)
Definition store_apply {G} `{CatalogIdentityGenerator G} (exchange : Exchange) (manifest : CatalogManifest) (g : G)
    (store : CatalogStore) : persistence CatalogApplyOutcome * CatalogStore :=
  match exchange with
  | Failed e => (Err e, store)
  | _ =>
      match apply_transaction manifest g (store_tables store) with
      | Err e => (Err e, store)
      | Ok (plan, tables) =>
          let committed := {| store_tables := tables; store_snapshot := store_snapshot store |} in
          match exchange with
          | Unanswered => (Err (catalog_write Transport), committed)
          | _ =>
              match merge_source (plan_source plan) committed with
              | (Err e, store) => (Err e, store)
              | (Ok _, store) => (Ok (classify_outcome (plan_outcome plan) (plan_source plan)), store)
              end
          end
      end
  end.

End Store.
