(* ===== verification/CatalogLoad.v ===== *)
(** * Catalog store: loading what is stored

    [represents tables source] says that the rows of a source are those of the source, with
    the definitions that its schemas and profiles materialize to. Loading a represented
    source gives it back; the inputs come in the order of the database. *)

From S2P Require Import Core ErrorCode CatalogTypes CatalogModel CatalogSource Bytes Frame Json Storage Database Canonical Manifest Application Stored ApplicationCorrect StoredCorrect CatalogStore Prelude.
Import Schema.

#[local] Open Scope string_scope.
#[local] Open Scope list_scope.
#[local] Open Scope Z_scope.

(** ** Sources up to the order of their inputs *)

Record source_equiv (a b : Source) : Prop := {
  eq_id : src_id a = src_id b;
  eq_name : src_name a = src_name b;
  eq_display : src_display_name a = src_display_name b;
  eq_declaration : src_declaration_digest a = src_declaration_digest b;
  eq_schemas : src_schemas a = src_schemas b;
  eq_active : src_active_schema_index a = src_active_schema_index b;
  eq_inputs : src_inputs a ≡ₚ src_inputs b;
}.

#[export] Instance source_equiv_equivalence : Equivalence source_equiv.
Proof.
  split.
  - intros a. by constructor.
  - intros a b []. by constructor.
  - intros a b c [] []. constructor; by etrans.
Qed.

(** ** Groups *)

Lemma filter_snoc {A} (P : A → Prop) `{∀ x, Decision (P x)} (l : list A) x :
  filter P (l ++ [x]) = filter P l ++ (if decide (P x) then [x] else []).
Proof. rewrite filter_app, filter_cons, filter_nil. by case_decide. Qed.

Lemma group_by_lookup {T} (key : T → Z) (l : list T) k :
  group_by key l !! k =
  match filter (λ x, key x = k) l with [] => None | rows => Some rows end.
Proof.
  unfold group_by. induction l as [|x l IH] using rev_ind; [apply lookup_empty|].
  rewrite fold_left_app, filter_snoc. cbn [fold_left]. destruct (decide (key x = k)) as [<-|Hne].
  - rewrite lookup_insert_eq, IH. destruct (filter _ l); done.
  - rewrite lookup_insert_ne, IH, app_nil_r by done. done.
Qed.

Lemma group_by_default {T} (key : T → Z) (l : list T) k :
  default [] (group_by key l !! k) = filter (λ x, key x = k) l.
Proof. rewrite group_by_lookup. by destruct (filter _ l). Qed.

Lemma group_by_None {T} (key : T → Z) (l : list T) k :
  group_by key l !! k = None ↔ ∀ x, x ∈ l → key x ≠ k.
Proof.
  rewrite group_by_lookup. destruct (filter (λ x, key x = k) l) as [|y ys] eqn:E.
  - split; [|done]. intros _ x Hx Hk. assert (x ∈ filter (λ x, key x = k) l) by (by apply list_elem_of_filter). rewrite E in *. set_solver.
  - split; [done|]. intros H. assert (Hy : y ∈ filter (λ x, key x = k) l) by (rewrite E; set_solver).
    apply list_elem_of_filter in Hy as [Hk Hy]. by apply H in Hy.
Qed.

(** ** Orders *)

Lemma then_by_spec a b c : then_by (a ?= b) c ≠ Gt ↔ a < b ∨ (a = b ∧ c ≠ Gt).
Proof. destruct (Z.compare_spec a b); cbn; split; intros H'; try lia; try done; [right; done|]. destruct H' as [|[_ H']]; [lia | done]. Qed.

Lemma compare_spec_le a b : (a ?= b) ≠ Gt ↔ a ≤ b.
Proof. apply Z.compare_le_iff. Qed.

(** A group of a sorted list whose members the order compares by number is the list with
    its elements and increasing numbers. *)
Lemma sorted_group {A} (R : relation A) (num : A → Z) (P : A → Prop) `{∀ x, Decision (P x)} l target :
  StronglySorted R l → (∀ a b, a ∈ l → b ∈ l → P a → P b → R a b → num a ≤ num b) →
  filter P l ≡ₚ target → StronglySorted Z.lt (num <$> target) → filter P l = target.
Proof.
  intros Hs HR Hp Ht.
  assert (Hfs : StronglySorted (λ a b, num a ≤ num b) (filter P l)).
  { clear Hp. induction Hs as [|x l Hs IH Hx]; [constructor|]. rewrite filter_cons. case_decide as Hd.
    - constructor; [apply IH; set_solver|]. rewrite Forall_forall in Hx |- *. intros y [Hy Hin]%list_elem_of_filter. apply HR; set_solver.
    - apply IH. set_solver. }
  assert (Hts : StronglySorted (λ a b, num a ≤ num b) target).
  { clear -Ht. induction target as [|x t IH]; [constructor|]. rewrite fmap_cons in Ht. inversion_clear Ht as [|? ? Hs Hx].
    constructor; [by apply IH|]. rewrite Forall_fmap in Hx. eapply Forall_impl; [exact Hx|]. cbn. lia. }
  apply (StronglySorted_unique_strong (λ a b, num a ≤ num b)); [|done..].
  intros x y Hx Hy Hxy Hyx. rewrite Hp in Hx.
  apply list_elem_of_lookup in Hx as [i Hi], Hy as [j Hj].
  assert (Hnd : NoDup (num <$> target)).
  { clear -Ht. induction Ht as [|z t Hs IH Hz]; [constructor|]. apply NoDup_cons. split; [|done]. intros Hin.
    rewrite Forall_forall in Hz. apply Hz in Hin. lia. }
  assert (i = j); [|congruence]. eapply (NoDup_lookup _ i j (num x) Hnd); apply list_lookup_fmap_Some; [eauto|].
  exists y. split; [lia | done].
Qed.

(** Identities are integers: the key of a table is one. *)
#[local] Notation at_key m k := (@lookup Z _ _ _ k m).

Section Load.
Context {env : SpoolEnv} {lib : JsonLib} {text : JsonText} {uuid : UuidText} {number_equality : NumberEq}.
Context {postgres : CatalogPostgres}.
Context {json_laws : JsonTextLaws} {uuid_laws : UuidTextLaws}.

(** ** Rows of a source *)

Definition source_row (s : Source) : SourceRow :=
  {| so_source_id := src_id s; so_name := src_name s; so_display_name := src_display_name s;
     so_active_schema_id := active_schema_id s |}.

Definition schema_row (s : Schema) : SchemaRow :=
  {| sv_schema_id := s_id s; sv_source_id := s_source_id s; sv_version := s_version s;
     sv_definition := schema_materialized_value (s_id s) (s_source_id s) (s_version s) (s_fields s) |}.

Definition input_row (i : Input) : InputRow :=
  {| in_input_id := i_id i; in_source_id := i_source_id i; in_name := i_name i;
     in_active_profile_revision_id := active_profile_revision_id i |}.

Definition profile_row (source_id : Z) (r : IngestionProfileRevision) : ProfileRow :=
  {| pr_profile_revision_id := r_id r; pr_input_id := r_input_id r; pr_source_id := source_id;
     pr_revision := r_revision r; pr_target_schema_id := r_target_schema_id r;
     pr_definition := profile_materialized_value (r_id r) (r_input_id r) (r_revision r) (r_target_schema_id r) (r_profile r) |}.

(** ** Sources that the store builds *)

(** A schema of a source: it is built from user fields and carries the digests of its
    documents. *)
Record schema_sound (s : Schema) : Prop := {
  ss_ok : ∃ users, schema_ok s users;
  ss_id : identity_ok (s_id s);
  ss_source : identity_ok (s_source_id s);
  ss_version : 0 < s_version s;
  ss_verified : ∃ path, verify_stored_schema s path = Ok tt;
}.

Record revision_sound (schemas : list Schema) (r : IngestionProfileRevision) : Prop := {
  rs_ok : profile_ok r;
  rs_id : identity_ok (r_id r);
  rs_schema : identity_ok (r_target_schema_id r);
  rs_revision : 0 < r_revision r;
  rs_verified : ∃ path target, find (λ schema, s_id schema =? r_target_schema_id r) schemas = Some target ∧
    verify_stored_profile r target path = Ok tt;
}.

Record input_sound (schemas : list Schema) (i : Input) : Prop := {
  is_id : identity_ok (i_id i);
  is_name : is_valid_name (i_name i) = true;
  is_declaration : ∃ path d, input_declaration (i_name i) path = Ok d ∧ i_declaration_digest i = doc_digest d;
  is_materialized : ∃ path d, stored_input_materialized i path = Ok d ∧ i_materialized_digest i = doc_digest d;
  is_built : Input_new (i_id i) (i_source_id i) (i_name i) (i_declaration_digest i) (i_materialized_digest i)
    (active_profile_revision_id i) (i_profile_revisions i) = Ok i;
  is_active : identity_ok (active_profile_revision_id i);
  is_revisions : Forall (revision_sound schemas) (i_profile_revisions i);
}.

Record source_sound (s : Source) : Prop := {
  sc_id : identity_ok (src_id s);
  sc_name : is_valid_name (src_name s) = true;
  sc_declaration : ∃ d, source_declaration (src_name s) = Ok d ∧ src_declaration_digest s = doc_digest d;
  sc_active : identity_ok (active_schema_id s);
  sc_built : Source_new (src_id s) (src_name s) (src_display_name s) (src_declaration_digest s) (active_schema_id s)
    (src_schemas s) (src_inputs s) = Ok s;
  sc_schemas : Forall schema_sound (src_schemas s);
  sc_inputs : Forall (input_sound (src_schemas s)) (src_inputs s);
}.

Record represents (tables : CatalogTables) (s : Source) : Prop := {
  rp_sound : source_sound s;
  rp_source : at_key (ct_sources tables) (src_id s) = Some (source_row s);
  rp_schemas : ∀ (k : Z) row, ct_schemas tables !! k = Some row ∧ sv_source_id row = src_id s ↔
    ∃ schema, schema ∈ src_schemas s ∧ k = s_id schema ∧ row = schema_row schema;
  rp_inputs : ∀ (k : Z) row, ct_inputs tables !! k = Some row ∧ in_source_id row = src_id s ↔
    ∃ input, input ∈ src_inputs s ∧ k = i_id input ∧ row = input_row input;
  rp_profiles : ∀ (k : Z) row, ct_profiles tables !! k = Some row ∧ pr_source_id row = src_id s ↔
    ∃ input r, input ∈ src_inputs s ∧ r ∈ i_profile_revisions input ∧ k = r_id r ∧ row = profile_row (src_id s) r;
}.

(** ** Decoding rows *)

Lemma identity_Ok u : identity_ok u → identity u = Ok u.
Proof. intros [_ H]. unfold identity. by rewrite H. Qed.

Lemma stored_schema_version_Ok v : 0 < v → stored_schema_version v = Ok v.
Proof.
  intros Hv. unfold stored_schema_version, stored_version. rewrite (proj2 (Z.leb_le 0 v)) by lia. cbn.
  unfold SchemaVersion_new. by rewrite (proj2 (Z.eqb_neq v 0)) by lia.
Qed.

Lemma stored_profile_revision_Ok v : 0 < v → stored_profile_revision v = Ok v.
Proof.
  intros Hv. unfold stored_profile_revision, stored_version. rewrite (proj2 (Z.leb_le 0 v)) by lia. cbn.
  unfold ProfileRevision_new. by rewrite (proj2 (Z.eqb_neq v 0)) by lia.
Qed.

Lemma schema_ok_plain s users : schema_ok s users → plain 127 (sv_definition (schema_row s)).
Proof.
  intros []. apply plain_schema_materialized; [done|]. rewrite so_fields. by apply layout_ordinals_fit.
Qed.

Lemma decode_schema_row_Ok s : schema_sound s → decode_schema_row (schema_row s) = Ok s.
Proof.
  intros [[users Hok] Hid Hsrc Hv [path Hver]]. unfold decode_schema_row, schema_row. cbn [sv_schema_id sv_source_id sv_version sv_definition].
  rewrite !identity_Ok, !bind_ret, stored_schema_version_Ok, bind_ret by done.
  pose proof Hver as H. unfold verify_stored_schema in H. apply bind_Ok in H as (decl & _ & H). apply bind_Ok in H as (u & _ & H).
  apply bind_Ok in H as (d & Hd & _).
  destruct (schema_round_trip s users path d Hok Hver Hd) as (definition & Hdef & Hdec).
  unfold schema_materialized, schema_materialized_parts in Hd.
  rewrite (document_read _ _ _ _ (schema_ok_plain _ _ Hok) Hd) in Hdef. injection Hdef as <-. by rewrite Hdec.
Qed.

Lemma schemas_by_id_lookup schemas s :
  NoDup (s_id <$> schemas) → s ∈ schemas → at_key (schemas_by_id schemas) (s_id s) = Some s.
Proof.
  unfold schemas_by_id. induction schemas as [|x l IH] using rev_ind; [set_solver|].
  rewrite fmap_app, NoDup_app, fold_left_app, elem_of_app, list_elem_of_singleton. intros (Hl & Hd & _) [Hs| ->]; cbn [fold_left].
  - rewrite lookup_insert_ne; [by apply IH|]. intros E. apply (Hd (s_id s)); [by apply list_elem_of_fmap_2|]. rewrite <- E. cbn. set_solver.
  - by rewrite lookup_insert_eq.
Qed.

Lemma decode_profile_row_Ok source_id schemas r :
  identity_ok source_id → identity_ok (r_input_id r) → NoDup (s_id <$> schemas) → revision_sound schemas r →
  decode_profile_row (r_input_id r) source_id (schemas_by_id schemas) (profile_row source_id r) = Ok r.
Proof.
  intros Hsrc Hin Hnd [Hok Hid Hsch Hrev (path & target & Ht & Hver)]. unfold decode_profile_row, profile_row.
  cbn [pr_profile_revision_id pr_input_id pr_source_id pr_revision pr_target_schema_id pr_definition].
  rewrite !identity_Ok, !bind_ret, !Z.eqb_refl by done. cbn [andb check]. rewrite bind_ret, stored_profile_revision_Ok, bind_ret by done.
  apply find_Some in Ht as [Hin' Hid'%Z.eqb_eq]. rewrite bind_ret, <- Hid', schemas_by_id_lookup by done. cbn [ok_or]. rewrite bind_ret.
  pose proof Hver as H. unfold verify_stored_profile in H. apply bind_Ok in H as (decl & _ & H). apply bind_Ok in H as (u & _ & H).
  apply bind_Ok in H as (d & Hd & _).
  destruct (profile_round_trip r target path d Hok Hid' Hver Hd) as (definition & Hdef & Hdec).
  unfold profile_materialized, profile_materialized_parts in Hd.
  erewrite document_read in Hdef; [| |exact Hd]; [|apply plain_profile_materialized; apply Hok].
  injection Hdef as <-. rewrite Hid'. by rewrite Hdec.
Qed.


Lemma decode_input_row_Ok source_id schemas n (rows : gmap Z (list ProfileRow)) i :
  identity_ok source_id → i_source_id i = source_id → NoDup (s_id <$> schemas) → input_sound schemas i →
  default [] (at_key rows (i_id i)) = (profile_row source_id <$> i_profile_revisions i) →
  decode_input_row source_id (schemas_by_id schemas) n rows (input_row i) = Ok (i, delete (i_id i) rows).
Proof.
  intros Hsrc Hi Hnd [Hid Hname (p1 & d1 & Hd1 & E1) (p2 & d2 & Hd2 & E2) Hbuilt Hact Hrs] Hrows.
  unfold decode_input_row, input_row. cbn [in_input_id in_source_id in_name in_active_profile_revision_id].
  rewrite Hi, !identity_Ok, !bind_ret, Z.eqb_refl by done. cbn [check]. unfold try_name. rewrite bind_ret, Hname. cbn [map_err].
  rewrite !bind_ret, Hrows.
  assert (Hmap : try_map (decode_profile_row (i_id i) source_id (schemas_by_id schemas)) (profile_row source_id <$> i_profile_revisions i) =
    Ok (i_profile_revisions i)).
  { apply try_map_Ok. destruct (Input_new_wf _ _ _ _ _ _ _ _ Hbuilt) as (Hown & _). clear Hrows Hbuilt.
    induction Hown as [|r rs Hr Hown IH]; [constructor|]. inversion_clear Hrs as [|? ? Hr' Hrs']. rewrite fmap_cons. constructor; [|by apply IH].
    rewrite <- Hr. apply decode_profile_row_Ok; try done. by rewrite Hr. }
  rewrite Hmap, bind_ret. unfold assemble_stored_input, input_declaration.
  rewrite (document_path _ _ _ ("inputs[" +:+ uuid_to_string (i_id i) +:+ "]") _ Hd1), bind_ret.
  unfold stored_input_materialized, input_materialized in Hd2. rewrite Hi in Hd2.
  unfold input_materialized. rewrite (document_path _ _ _ ("inputs[" +:+ uuid_to_string (i_id i) +:+ "]") _ Hd2), bind_ret.
  rewrite Hi, E1, E2 in Hbuilt. unfold stored_model. rewrite Hbuilt. done.
Qed.

(** The rows that are left when inputs are decoded. *)
Definition without_inputs (inputs : list Input) (rows : gmap Z (list ProfileRow)) : gmap Z (list ProfileRow) :=
  fold_left (λ m i, delete (i_id i) m) inputs rows.

Lemma without_inputs_lookup inputs (rows : gmap Z (list ProfileRow)) k :
  without_inputs inputs rows !! k = if decide (k ∈ i_id <$> inputs) then None else rows !! k.
Proof.
  unfold without_inputs. revert rows. induction inputs as [|i inputs IH]; intros rows; cbn [fold_left].
  - case_decide; [set_solver | done].
  - rewrite IH, fmap_cons. case_decide; case_decide; try set_solver.
    + assert (k = i_id i) as -> by set_solver. by rewrite lookup_delete_eq.
    + by rewrite lookup_delete_ne by set_solver.
Qed.

Lemma collect_inputs source_id schemas inputs : ∀ n (rows : gmap Z (list ProfileRow)),
  identity_ok source_id → NoDup (s_id <$> schemas) → NoDup (i_id <$> inputs) →
  Forall (λ i, i_source_id i = source_id) inputs → Forall (input_sound schemas) inputs →
  (∀ i, i ∈ inputs → default [] (at_key rows (i_id i)) = (profile_row source_id <$> i_profile_revisions i)) →
  try_collect (decode_input_row source_id (schemas_by_id schemas)) n rows (input_row <$> inputs) =
  Ok (inputs, without_inputs inputs rows).
Proof.
  induction inputs as [|i inputs IH]; intros n rows Hsrc Hnd Hids Hown Hsound Hrows; [done|].
  rewrite fmap_cons in Hids. rewrite fmap_cons. apply NoDup_cons in Hids as [Hi Hids]. inversion_clear Hown. inversion_clear Hsound.
  cbn [try_collect]. rewrite decode_input_row_Ok by (try done; apply Hrows; set_solver). rewrite bind_ret, IH; try done.
  intros j Hj. rewrite lookup_delete_ne; [apply Hrows; set_solver|]. intros E. apply Hi. rewrite E. by apply list_elem_of_fmap_2.
Qed.

(** ** Sources *)

Definition with_inputs (s : Source) (inputs : list Input) : Source :=
  {| src_id := src_id s; src_name := src_name s; src_display_name := src_display_name s;
     src_declaration_digest := src_declaration_digest s; src_schemas := src_schemas s;
     src_active_schema_index := src_active_schema_index s; src_inputs := inputs |}.

Lemma with_inputs_equiv s inputs : src_inputs s ≡ₚ inputs → source_equiv s (with_inputs s inputs).
Proof. intros. by constructor. Qed.

Lemma validate_inputs_loop_total src idx schemas l : ∀ ids names,
  NoDup (i_id <$> l) → NoDup (i_name <$> l) →
  Forall (λ i, i_id i ∉ ids ∧ i_name i ∉ names ∧ i_source_id i = src ∧
               validate_revisions idx schemas (i_profile_revisions i) = Ok tt) l →
  validate_inputs_loop src idx schemas ids names l = Ok tt.
Proof.
  induction l as [|i l IH]; intros ids names H1 H2 H3; [done|]. rewrite fmap_cons in H1. rewrite fmap_cons in H2.
  apply NoDup_cons in H1 as [Hi1 H1], H2 as [Hi2 H2]. apply Forall_cons in H3 as [(Ha & Hb & Hc & Hd) H3'].
  cbn [validate_inputs_loop]. rewrite Hc, Z.eqb_refl. cbn [negb]. case_decide; [done|]. case_decide; [done|]. rewrite Hd, bind_ret.
  apply IH; [done | done|]. rewrite Forall_forall in H3' |- *. intros j Hj. destruct (H3' j Hj) as (? & ? & ? & ?).
  split_and!; try done.
  - rewrite not_elem_of_union, not_elem_of_singleton. split; [|done]. intros E. apply Hi1. rewrite <- E. by apply list_elem_of_fmap_2.
  - rewrite not_elem_of_union, not_elem_of_singleton. split; [|done]. intros E. apply Hi2. rewrite <- E. by apply list_elem_of_fmap_2.
Qed.

Lemma Source_new_Permutation id name display declaration active schemas inputs inputs' s :
  Source_new id name display declaration active schemas inputs = Ok s → inputs ≡ₚ inputs' →
  Source_new id name display declaration active schemas inputs' = Ok (with_inputs s inputs').
Proof.
  unfold Source_new. destruct schemas as [|x l]; [done|]. intros H Hp. apply bind_Ok in H as (indexes & Hh & H).
  apply bind_Ok in H as ([] & Hv & H). injection H as <-. rewrite Hh, bind_ret. unfold validate_inputs in *.
  apply validate_inputs_loop_Ok in Hv as (H1 & H2 & H3). rewrite validate_inputs_loop_total; [done|..].
  - by rewrite <- Hp.
  - by rewrite <- Hp.
  - by rewrite <- Hp.
Qed.

Lemma assemble_source_Ok n s inputs (schema_rows : gmap Z (list SchemaRow)) (input_rows : gmap Z (list InputRow))
    (profile_rows : gmap Z (list ProfileRow)) :
  source_sound s → src_inputs s ≡ₚ inputs →
  default [] (at_key schema_rows (src_id s)) = (schema_row <$> src_schemas s) →
  default [] (at_key input_rows (src_id s)) = (input_row <$> inputs) →
  (∀ i, i ∈ inputs → default [] (at_key profile_rows (i_id i)) = (profile_row (src_id s) <$> i_profile_revisions i)) →
  assemble_source n (schema_rows, input_rows, profile_rows) (source_row s) =
  Ok (with_inputs s inputs, (delete (src_id s) schema_rows, delete (src_id s) input_rows, without_inputs inputs profile_rows)).
Proof.
  intros [Hid Hname (d & Hd & Ed) Hact Hbuilt Hschemas Hinputs] Hp Hs Hi Hr.
  destruct (Source_new_invariant _ _ _ _ _ _ _ _ Hbuilt) as [Hwf _].
  unfold assemble_source, source_row. cbn [so_source_id so_name so_display_name so_active_schema_id].
  rewrite !identity_Ok by done. unfold try_name. rewrite Hname. cbn [map_err]. rewrite !bind_ret.
  assert (Hmap : try_map decode_schema_row (schema_row <$> src_schemas s) = Ok (src_schemas s)).
  { apply try_map_Ok. clear -Hschemas json_laws uuid_laws. induction Hschemas; [constructor|]. rewrite fmap_cons. constructor; [|done].
    by apply decode_schema_row_Ok. }
  rewrite Hs, Hmap, bind_ret, Hi, collect_inputs, bind_ret.
  - unfold assemble_stored_source. rewrite Hd, bind_ret, <- Ed. rewrite (Source_new_Permutation _ _ _ _ _ _ _ _ _ Hbuilt Hp). done.
  - done.
  - apply Hwf.
  - rewrite <- Hp. apply Hwf.
  - rewrite <- Hp. apply Hwf.
  - by rewrite <- Hp.
  - done.
Qed.


(** ** Selections *)

Lemma select_perm {A} (p : A → bool) compare (table : gmap Z A) :
  select p compare table ≡ₚ filter (λ row, p row = true) (map_to_list table).*2.
Proof. apply merge_sort_Permutation. Qed.

Lemma elem_of_select {A} (p : A → bool) compare (table : gmap Z A) row :
  row ∈ select p compare table ↔ ∃ k, table !! k = Some row ∧ p row = true.
Proof.
  rewrite select_perm, list_elem_of_filter, list_elem_of_fmap. split.
  - intros [Hp ([k r] & -> & Hin)]. apply elem_of_map_to_list in Hin. eauto.
  - intros (k & Hk & Hp). split; [done|]. exists (k, row). split; [done|]. by apply elem_of_map_to_list.
Qed.

Lemma NoDup_select {A} (key : A → Z) (p : A → bool) compare (table : gmap Z A) :
  (∀ (k : Z) row, table !! k = Some row → key row = k) → NoDup (select p compare table).
Proof.
  intros Hkey. rewrite select_perm. apply NoDup_filter, (NoDup_fmap_1 key).
  replace (key <$> (map_to_list table).*2) with (map_to_list table).*1; [apply NoDup_fst_map_to_list|].
  rewrite <- list_fmap_compose. apply list_fmap_ext. intros i [k row] Hi. cbn.
  symmetry. apply Hkey, elem_of_map_to_list. by eapply list_elem_of_lookup_2.
Qed.

(** A group of a selection consists of the rows of some values. *)
Lemma select_group {A B} (key group : A → Z) (p : A → bool) compare (table : gmap Z A) (k : Z) (row : B → A) (values : list B) :
  (∀ (j : Z) r, table !! j = Some r → key r = j) → NoDup (row <$> values) →
  (∀ r, (∃ j, table !! j = Some r ∧ p r = true) ∧ group r = k ↔ ∃ v, v ∈ values ∧ r = row v) →
  filter (λ r, group r = k) (select p compare table) ≡ₚ row <$> values.
Proof.
  intros Hkey Hnd Hiff. apply NoDup_Permutation; [by apply NoDup_filter, (NoDup_select key) | done |].
  intros r. rewrite list_elem_of_filter, elem_of_select, list_elem_of_fmap, (and_comm (group r = k)), Hiff. naive_solver.
Qed.

Lemma select_sorted {A} (p : A → bool) (compare : A → A → comparison) (table : gmap Z A) :
  (∀ a b c, compare a b ≠ Gt → compare b c ≠ Gt → compare a c ≠ Gt) → (∀ a b, compare a b ≠ Gt ∨ compare b a ≠ Gt) →
  StronglySorted (not_after compare) (select p compare table).
Proof.
  intros Htr Htot. assert (Transitive (not_after compare)) by exact Htr.
  assert (Total (not_after compare)) by exact Htot. by apply StronglySorted_merge_sort.
Qed.

(** ** The catalog *)

(** Every source of the catalog is represented and every row belongs to one. *)
Record catalog_inv (t : CatalogTables) : Prop := {
  ci_represented : ∀ (k : Z) row, ct_sources t !! k = Some row → ∃ s, represents t s ∧ src_id s = k;
  ci_names : ∀ (j k : Z) a b, ct_sources t !! j = Some a → ct_sources t !! k = Some b → so_name a = so_name b → j = k;
  ci_schemas : ∀ (k : Z) row, ct_schemas t !! k = Some row → is_Some (ct_sources t !! sv_source_id row);
  ci_inputs : ∀ (k : Z) row, ct_inputs t !! k = Some row → is_Some (ct_sources t !! in_source_id row);
  ci_profiles : ∀ (k : Z) row, ct_profiles t !! k = Some row → is_Some (ct_sources t !! pr_source_id row);
}.

Lemma source_key t k row : catalog_inv t → ct_sources t !! k = Some row → so_source_id row = k.
Proof.
  intros Hinv Hk. destruct (ci_represented _ Hinv _ _ Hk) as (s & Hs & <-). pose proof (rp_source _ _ Hs) as E. simpl in *.
  assert (row = source_row s) as -> by congruence. done.
Qed.

Lemma schema_key t k row : catalog_inv t → ct_schemas t !! k = Some row → sv_schema_id row = k.
Proof.
  intros Hinv Hk. destruct (ci_schemas _ Hinv _ _ Hk) as [srow Hsrow]. destruct (ci_represented _ Hinv _ _ Hsrow) as (s & Hs & E).
  destruct (proj1 (rp_schemas _ _ Hs k row) (conj Hk (eq_sym E))) as (schema & _ & -> & ->). done.
Qed.

Lemma input_key t k row : catalog_inv t → ct_inputs t !! k = Some row → in_input_id row = k.
Proof.
  intros Hinv Hk. destruct (ci_inputs _ Hinv _ _ Hk) as [srow Hsrow]. destruct (ci_represented _ Hinv _ _ Hsrow) as (s & Hs & E).
  destruct (proj1 (rp_inputs _ _ Hs k row) (conj Hk (eq_sym E))) as (input & _ & -> & ->). done.
Qed.

Lemma profile_key t k row : catalog_inv t → ct_profiles t !! k = Some row → pr_profile_revision_id row = k.
Proof.
  intros Hinv Hk. destruct (ci_profiles _ Hinv _ _ Hk) as [srow Hsrow]. destruct (ci_represented _ Hinv _ _ Hsrow) as (s & Hs & E).
  destruct (proj1 (rp_profiles _ _ Hs k row) (conj Hk (eq_sym E))) as (input & r & _ & _ & -> & ->). done.
Qed.


(** ** Assembling *)

(** The rows of a selection that belong to a source with its inputs in an order. *)
Record rows_of (R : CatalogRows) (s : Source) (inputs : list Input) : Prop := {
  ro_sound : source_sound s;
  ro_schemas : filter (λ r, sv_source_id r = src_id s) (cr_schemas R) = (schema_row <$> src_schemas s);
  ro_inputs : filter (λ r, in_source_id r = src_id s) (cr_inputs R) = (input_row <$> inputs);
  ro_perm : src_inputs s ≡ₚ inputs;
  ro_profiles : ∀ i, i ∈ inputs → filter (λ r, pr_input_id r = i_id i) (cr_profiles R) =
    (profile_row (src_id s) <$> i_profile_revisions i);
}.

Definition source_ids (srcs : list (Source * list Input)) : list Z := (λ x, src_id x.1) <$> srcs.

Definition input_ids (srcs : list (Source * list Input)) : list Z :=
  concat ((λ x : Source * list Input, (i_id : Input → Z) <$> x.2) <$> srcs).

(** The pending rows without those of the sources that are assembled. *)
Definition pending_without (srcs : list (Source * list Input)) (pending : pending_rows) : pending_rows :=
  fold_left (λ '(schema_rows, input_rows, profile_rows) x,
    (delete (src_id x.1 : Z) schema_rows, delete (src_id x.1 : Z) input_rows, without_inputs x.2 profile_rows)) srcs pending.

Lemma assemble_sources R srcs : ∀ n schema_rows input_rows profile_rows,
  NoDup (source_ids srcs) → NoDup (input_ids srcs) →
  Forall (λ x, rows_of R x.1 x.2) srcs →
  (∀ x, x ∈ srcs → at_key schema_rows (src_id x.1) = at_key (group_by sv_source_id (cr_schemas R)) (src_id x.1)) →
  (∀ x, x ∈ srcs → at_key input_rows (src_id x.1) = at_key (group_by in_source_id (cr_inputs R)) (src_id x.1)) →
  (∀ x i, x ∈ srcs → i ∈ x.2 → at_key profile_rows (i_id i) = at_key (group_by pr_input_id (cr_profiles R)) (i_id i)) →
  try_collect assemble_source n (schema_rows, input_rows, profile_rows) (source_row ∘ fst <$> srcs) =
  Ok ((λ x, with_inputs x.1 x.2) <$> srcs, pending_without srcs (schema_rows, input_rows, profile_rows)).
Proof.
  induction srcs as [|[s inputs] srcs IH]; intros n sm im pm Hids Hins Hall Hs Hi Hp; [done|].
  apply Forall_cons in Hall as [[Hsound Hrs Hri Hperm Hrp] Hall]. cbn [fst snd] in *.
  unfold source_ids in Hids. unfold input_ids in Hins. rewrite fmap_cons in Hids. rewrite fmap_cons in Hins.
  apply NoDup_cons in Hids as [Hid Hids]. cbn [concat] in Hins. fold (source_ids srcs) in *. fold (input_ids srcs) in *.
  apply NoDup_app in Hins as (Hin1 & Hin2 & Hins). rewrite !fmap_cons. cbn [try_collect compose fst].
  assert (Hhead : (s, inputs) ∈ (s, inputs) :: srcs) by set_solver.
  rewrite (assemble_source_Ok n s inputs); [| done | done | | |].
  - rewrite bind_ret, IH; [done | done | done | done | | |].
    + intros x Hx. rewrite lookup_delete_ne; [apply Hs; set_solver|]. intros E. apply Hid. apply list_elem_of_fmap. by exists x.
    + intros x Hx. rewrite lookup_delete_ne; [apply Hi; set_solver|]. intros E. apply Hid. apply list_elem_of_fmap. by exists x.
    + intros x i Hx Hix. rewrite without_inputs_lookup, decide_False; [apply (Hp x); set_solver|].
      intros Hin. apply (Hin2 _ Hin). apply list_elem_of_In, in_concat. exists (i_id <$> x.2). split; apply list_elem_of_In.
      * apply list_elem_of_fmap. by exists x.
      * by apply list_elem_of_fmap_2.
  - pose proof (Hs _ Hhead) as E. cbn [fst] in E. by rewrite E, group_by_default.
  - pose proof (Hi _ Hhead) as E. cbn [fst] in E. by rewrite E, group_by_default.
  - intros i Hix. pose proof (Hp _ i Hhead Hix) as E. by rewrite E, group_by_default, Hrp.
Qed.

Lemma delete_lookup_if {A} (m : gmap Z A) (i k : Z) (l : list Z) :
  (if decide (k ∈ l) then None else delete i m !! k) = if decide (k ∈ i :: l) then None else m !! k.
Proof.
  destruct (decide (k = i)) as [->|Hne].
  - rewrite lookup_delete_eq, (decide_True (P := i ∈ i :: l)) by set_solver. by case_decide.
  - rewrite lookup_delete_ne by done. repeat case_decide; set_solver.
Qed.

Lemma pending_without_lookup srcs k : ∀ sm im pm,
  let '(sm', im', pm') := pending_without srcs (sm, im, pm) in
  (sm' !! k = if decide (k ∈ source_ids srcs) then None else sm !! k) ∧
  (im' !! k = if decide (k ∈ source_ids srcs) then None else im !! k) ∧
  (pm' !! k = if decide (k ∈ input_ids srcs) then None else pm !! k).
Proof.
  induction srcs as [|[s inputs] srcs IH]; intros sm im pm.
  - cbn [pending_without fold_left]. rewrite !decide_False by set_solver. done.
  - specialize (IH (delete (src_id s : Z) sm) (delete (src_id s : Z) im) (without_inputs inputs pm)).
    unfold pending_without in *. cbn [fold_left fst snd]. destruct (fold_left _ srcs _) as [[sm' im'] pm']. destruct IH as (H1 & H2 & H3).
    rewrite H1, H2, H3, without_inputs_lookup. unfold source_ids, input_ids. rewrite !fmap_cons. cbn [concat snd fst].
    fold (source_ids srcs) (input_ids srcs).
    split_and!; [apply delete_lookup_if | apply delete_lookup_if |].
    repeat case_decide; set_solver.
Qed.

Lemma assemble_snapshot_Ok R srcs :
  cr_sources R = (source_row ∘ fst <$> srcs) → NoDup (source_ids srcs) → NoDup (input_ids srcs) →
  Forall (λ x, rows_of R x.1 x.2) srcs →
  (∀ r, r ∈ cr_schemas R → sv_source_id r ∈ source_ids srcs) →
  (∀ r, r ∈ cr_inputs R → in_source_id r ∈ source_ids srcs) →
  (∀ r, r ∈ cr_profiles R → pr_input_id r ∈ input_ids srcs) →
  assemble_snapshot R = CatalogSnapshot_new ((λ x, with_inputs x.1 x.2) <$> srcs).
Proof.
  intros Hsrc Hids Hins Hall Hs Hi Hp. unfold assemble_snapshot. rewrite Hsrc.
  rewrite (assemble_sources R) by (try done). rewrite bind_ret.
  pose proof (λ k, pending_without_lookup srcs k (group_by sv_source_id (cr_schemas R)) (group_by in_source_id (cr_inputs R))
    (group_by pr_input_id (cr_profiles R))) as Hk.
  destruct (pending_without srcs _) as [[sm im] pm].
  rewrite !bool_decide_true; [done|..]; apply map_empty; intros k; destruct (Hk k) as (H1 & H2 & H3).
  - rewrite H3. clear H1 H2 H3 Hk. case_decide; [done|]. apply group_by_None. intros r Hr E. rewrite <- E in *. by apply Hp in Hr.
  - rewrite H2. clear H1 H2 H3 Hk. case_decide; [done|]. apply group_by_None. intros r Hr E. rewrite <- E in *. by apply Hi in Hr.
  - rewrite H1. clear H1 H2 H3 Hk. case_decide; [done|]. apply group_by_None. intros r Hr E. rewrite <- E in *. by apply Hs in Hr.
Qed.


(** ** From tables to rows *)

Lemma NoDup_fmap_inj_on {A B} (f : A → B) (l : list A) :
  (∀ x y, x ∈ l → y ∈ l → f x = f y → x = y) → NoDup l → NoDup (f <$> l).
Proof.
  induction l as [|x l IH]; intros Hinj Hnd; [constructor|]. apply NoDup_cons in Hnd as [Hx Hnd]. rewrite fmap_cons. apply NoDup_cons. split.
  - rewrite list_elem_of_fmap. intros (y & E & Hy). apply Hinj in E; [by subst | set_solver..].
  - apply IH; [set_solver | done].
Qed.

Lemma NoDup_row_keys {A B} (row : A → B) (key : A → Z) (key' : B → Z) (l : list A) :
  (∀ x, key' (row x) = key x) → NoDup (key <$> l) → NoDup (row <$> l).
Proof.
  intros Hk Hnd. apply (NoDup_fmap_1 key'). rewrite <- list_fmap_compose. erewrite list_fmap_ext; [exact Hnd|]. intros i x _. apply Hk.
Qed.

Lemma sound_wf s : source_sound s → Source_wf s.
Proof. intros H. by destruct (Source_new_invariant _ _ _ _ _ _ _ _ (sc_built _ H)). Qed.

(** What the two selections have in common. *)
Record selects (t : CatalogTables) (s : Source) (R : CatalogRows) : Prop := {
  sl_schemas : ∃ p compare, cr_schemas R = select p compare (ct_schemas t) ∧
    (∀ r, sv_source_id r = src_id s → p r = true) ∧ StronglySorted (not_after compare) (cr_schemas R) ∧
    ∀ a b, sv_source_id a = src_id s → sv_source_id b = src_id s → compare a b ≠ Gt → sv_version a ≤ sv_version b;
  sl_inputs : ∃ p compare, cr_inputs R = select p compare (ct_inputs t) ∧ (∀ r, in_source_id r = src_id s → p r = true);
  sl_profiles : ∃ p compare, cr_profiles R = select p compare (ct_profiles t) ∧
    (∀ r, pr_source_id r = src_id s → p r = true) ∧ StronglySorted (not_after compare) (cr_profiles R) ∧
    ∀ a b, pr_source_id a = src_id s → pr_source_id b = src_id s → pr_input_id a = pr_input_id b → compare a b ≠ Gt →
      pr_revision a ≤ pr_revision b;
}.

(** An input belongs to one source. *)
Lemma profile_of_input t s k row i :
  catalog_inv t → represents t s → i ∈ src_inputs s → ct_profiles t !! k = Some row → pr_input_id row = i_id i →
  pr_source_id row = src_id s ∧ ∃ r, r ∈ i_profile_revisions i ∧ k = r_id r ∧ row = profile_row (src_id s) r.
Proof.
  intros Hinv Hs Hi Hk E. destruct (ci_profiles _ Hinv _ _ Hk) as [srow Hsrow].
  destruct (ci_represented _ Hinv _ _ Hsrow) as (s' & Hs' & E').
  destruct (proj1 (rp_profiles _ _ Hs' k row) (conj Hk (eq_sym E'))) as (i' & r & Hi' & Hr & -> & ->).
  pose proof (sc_inputs _ (rp_sound _ _ Hs')) as Hsound. rewrite Forall_forall in Hsound.
  destruct (Input_new_wf _ _ _ _ _ _ _ _ (is_built _ _ (Hsound _ Hi'))) as (Hown & _). rewrite Forall_forall in Hown.
  cbn [pr_input_id profile_row] in E. rewrite (Hown _ Hr) in E.
  destruct (proj2 (rp_inputs _ _ Hs (i_id i) (input_row i)) (ex_intro _ i (conj Hi (conj eq_refl eq_refl)))) as [Hrow _].
  destruct (proj2 (rp_inputs _ _ Hs' (i_id i') (input_row i')) (ex_intro _ i' (conj Hi' (conj eq_refl eq_refl)))) as [Hrow' _].
  rewrite E in Hrow'. assert (Eq : input_row i = input_row i') by congruence.
  assert (Esrc : src_id s = src_id s').
  { apply (f_equal in_source_id) in Eq. cbn in Eq.
    pose proof (swf_inputs_owned _ (sound_wf _ (rp_sound _ _ Hs))) as O1. pose proof (swf_inputs_owned _ (sound_wf _ (rp_sound _ _ Hs'))) as O2.
    rewrite Forall_forall in O1. rewrite Forall_forall in O2. by rewrite <- (O1 _ Hi), <- (O2 _ Hi'). }
  split; [by rewrite Esrc|].
  destruct (proj1 (rp_profiles _ _ Hs (r_id r) (profile_row (src_id s') r)) (conj Hk (eq_sym Esrc))) as (i2 & r2 & Hi2 & Hr2 & E2 & Erow).
  pose proof (sc_inputs _ (rp_sound _ _ Hs)) as Hsound2. rewrite Forall_forall in Hsound2.
  destruct (Input_new_wf _ _ _ _ _ _ _ _ (is_built _ _ (Hsound2 _ Hi2))) as (Hown2 & _). rewrite Forall_forall in Hown2.
  exists r2. split_and!; [|done|done].
  assert (i2 = i) as <-; [|done]. pose proof (swf_input_ids _ (sound_wf _ (rp_sound _ _ Hs))) as Hnd.
  assert (E3 : i_id i2 = i_id i).
  { rewrite <- (Hown2 _ Hr2). apply (f_equal pr_input_id) in Erow. cbn in Erow. rewrite <- Erow, (Hown _ Hr). done. }
  apply list_elem_of_lookup in Hi as [a Ha], Hi2 as [b Hb].
  assert (a = b) by (eapply (NoDup_lookup _ a b (i_id i) Hnd); apply list_lookup_fmap_Some; eauto). congruence.
Qed.

Lemma selects_rows t s R :
  catalog_inv t → represents t s → selects t s R → ∃ inputs, rows_of R s inputs.
Proof.
  intros Hinv Hs [(ps & cs & Es & Hps & Hss & Hcs) (pi & ci & Ei & Hpi) (pp & cp & Ep & Hpp & Hsp & Hcp)].
  pose proof (sound_wf _ (rp_sound _ _ Hs)) as Hwf.
  assert (Hin : filter (λ r, in_source_id r = src_id s) (cr_inputs R) ≡ₚ (input_row <$> src_inputs s)).
  { rewrite Ei. apply (select_group in_input_id).
    - intros j r. by apply input_key.
    - apply (NoDup_row_keys _ i_id in_input_id); [done | apply Hwf].
    - intros r. split.
      + intros [(j & Hj & _) Er]. destruct (proj1 (rp_inputs _ _ Hs j r) (conj Hj Er)) as (i & Hi & -> & ->). eauto.
      + intros (i & Hi & ->). destruct (proj2 (rp_inputs _ _ Hs (i_id i) (input_row i)) (ex_intro _ i (conj Hi (conj eq_refl eq_refl)))) as [Hj Er].
        split; [|done]. exists (i_id i). split; [done|]. by apply Hpi. }
  destruct (Permutation_map_inv _ _ Hin) as (inputs & Hinputs & Hperm). exists inputs. constructor; [apply Hs | | done | done |].
  - apply (sorted_group (not_after cs) sv_version); [done | intros; by apply Hcs | |].
    + rewrite Es. apply (select_group sv_schema_id).
      * intros j r. by apply schema_key.
      * apply (NoDup_row_keys _ s_id sv_schema_id); [done | apply Hwf].
      * intros r. split.
        -- intros [(j & Hj & _) Er]. destruct (proj1 (rp_schemas _ _ Hs j r) (conj Hj Er)) as (x & Hx & -> & ->). eauto.
        -- intros (x & Hx & ->).
           destruct (proj2 (rp_schemas _ _ Hs (s_id x) (schema_row x)) (ex_intro _ x (conj Hx (conj eq_refl eq_refl)))) as [Hj Er].
           split; [|done]. exists (s_id x). split; [done|]. by apply Hps.
    + rewrite <- list_fmap_compose. apply Hwf.
  - intros i Hi. rewrite <- Hperm in Hi. pose proof (sc_inputs _ (rp_sound _ _ Hs)) as Hsound. rewrite Forall_forall in Hsound.
    destruct (Input_new_wf _ _ _ _ _ _ _ _ (is_built _ _ (Hsound _ Hi))) as (Hown & Hsorted & Hrid & _). rewrite Forall_forall in Hown.
    assert (Hfil : filter (λ r, pr_input_id r = i_id i) (cr_profiles R) ≡ₚ (profile_row (src_id s) <$> i_profile_revisions i)).
    { rewrite Ep. apply (select_group pr_profile_revision_id).
      - intros j r. by apply profile_key.
      - apply (NoDup_row_keys _ r_id pr_profile_revision_id); [done | apply Hrid].
      - intros r. split.
        + intros [(j & Hj & _) Er]. destruct (profile_of_input _ _ _ _ _ Hinv Hs Hi Hj Er) as (_ & x & Hx & -> & ->). eauto.
        + intros (x & Hx & ->). destruct (proj2 (rp_profiles _ _ Hs (r_id x) (profile_row (src_id s) x))) as [Hj Er]; [eauto 10|].
          split; [|by apply Hown]. exists (r_id x). split; [done|]. by apply Hpp. }
    apply (sorted_group (not_after cp) pr_revision (λ r, pr_input_id r = i_id i) _ _ Hsp); [|done|].
    + intros a b Ha Hb Hia Hib Hc.
      assert (Hsrc : ∀ r, r ∈ cr_profiles R → pr_input_id r = i_id i → pr_source_id r = src_id s).
      { intros r Hr Er. assert (Hr' : r ∈ filter (λ r, pr_input_id r = i_id i) (cr_profiles R)) by (by apply list_elem_of_filter).
        rewrite Hfil in Hr'. apply list_elem_of_fmap in Hr' as (x & -> & _). done. }
      apply Hcp; try done; [by apply Hsrc | by apply Hsrc | congruence].
    + rewrite <- list_fmap_compose. apply Hsorted.
Qed.


(** ** The two selections *)

Lemma not_gt_total_Z {A} (f : A → Z) a b : (f a ?= f b) ≠ Gt ∨ (f b ?= f a) ≠ Gt.
Proof. rewrite !compare_spec_le. lia. Qed.

Lemma selects_source t s : selects t s (source_rows t (source_row s)).
Proof.
  constructor; cbn [cr_schemas cr_inputs cr_profiles source_rows source_row so_source_id].
  - do 2 eexists. split; [done|]. split_and!; [intros r Hr; cbn; rewrite Hr; apply Z.eqb_refl | | intros a b _ _; by rewrite compare_spec_le].
    apply select_sorted; intros *; rewrite !compare_spec_le; lia.
  - do 2 eexists. split; [done|]. intros r Hr. cbn. rewrite Hr. apply Z.eqb_refl.
  - do 2 eexists. split; [done|]. split_and!; [intros r Hr; cbn; rewrite Hr; apply Z.eqb_refl | | ].
    + apply select_sorted; intros *; rewrite !then_by_spec, !compare_spec_le; lia.
    + intros a b _ _ E. rewrite then_by_spec, compare_spec_le. lia.
Qed.

Lemma selects_all t s : selects t s (load_all_rows t).
Proof.
  constructor; cbn [cr_schemas cr_inputs cr_profiles load_all_rows].
  - do 2 eexists. split; [done|]. split_and!; [done | | intros a b Ea Eb; rewrite then_by_spec, compare_spec_le; lia].
    apply select_sorted; intros *; rewrite !then_by_spec, !compare_spec_le; lia.
  - by do 2 eexists.
  - do 2 eexists. split; [done|]. split_and!; [done | | ].
    + apply select_sorted; intros *; rewrite !then_by_spec, !compare_spec_le; lia.
    + intros a b Ea Eb E. rewrite !then_by_spec, compare_spec_le. lia.
Qed.

(** ** Sources with another order of inputs *)

Lemma sound_with_inputs s inputs : src_inputs s ≡ₚ inputs → source_sound s → source_sound (with_inputs s inputs).
Proof.
  intros Hp []. constructor; try done.
  - by eapply Source_new_Permutation.
  - cbn [with_inputs src_inputs src_schemas]. by rewrite <- Hp.
Qed.

Lemma represents_with_inputs t s inputs : src_inputs s ≡ₚ inputs → represents t s → represents t (with_inputs s inputs).
Proof.
  intros Hp []. constructor; try done.
  - by apply sound_with_inputs.
  - cbn [with_inputs src_inputs src_id]. intros k row. rewrite rp_inputs0. by setoid_rewrite Hp.
  - cbn [with_inputs src_inputs src_id]. intros k row. rewrite rp_profiles0. by setoid_rewrite Hp.
Qed.

(** ** Loading *)

Lemma find_source_row t k row :
  catalog_inv t → ct_sources t !! k = Some row → source_row_by_name t (so_name row) = Some row.
Proof.
  intros Hinv Hk. unfold source_row_by_name.
  destruct (find_is_Some (λ r, bool_decide (so_name r = so_name row)) (map_to_list (ct_sources t)).*2 row) as [r Hr].
  - apply list_elem_of_fmap. exists (k, row). split; [done|]. by apply elem_of_map_to_list.
  - by apply bool_decide_eq_true.
  - rewrite Hr. f_equal. apply find_Some in Hr as [Hin Hn%bool_decide_eq_true].
    apply list_elem_of_fmap in Hin as ([k' r'] & -> & Hin). apply elem_of_map_to_list in Hin. cbn [snd] in *.
    assert (k' = k) as -> by (by eapply (ci_names _ Hinv)). congruence.
Qed.

Lemma load_source_Ok t s :
  catalog_inv t → represents t s →
  ∃ inputs, src_inputs s ≡ₚ inputs ∧ load_source_for_update t (src_name s) = Ok (Some (with_inputs s inputs)).
Proof.
  intros Hinv Hs. destruct (selects_rows _ _ _ Hinv Hs (selects_source t s)) as (inputs & Hrows). exists inputs.
  split; [apply Hrows|]. unfold load_source_for_update.
  change (src_name s) with (so_name (source_row s)). rewrite (find_source_row t (src_id s)) by (try done; apply Hs).
  rewrite (assemble_snapshot_Ok _ [(s, inputs)]).
  - cbn [fmap list_fmap fst snd]. done.
  - done.
  - cbn. constructor; [set_solver | constructor].
  - cbn. rewrite app_nil_r. pose proof (swf_input_ids _ (sound_wf _ (rp_sound _ _ Hs))) as H. by rewrite (ro_perm _ _ _ Hrows) in H.
  - apply Forall_cons; split; [done | constructor].
  - cbn [cr_schemas source_rows]. intros r (k & _ & E%Z.eqb_eq)%elem_of_select. cbn in *. rewrite E. set_solver.
  - cbn [cr_inputs source_rows]. intros r (k & _ & E%Z.eqb_eq)%elem_of_select. cbn in *. rewrite E. set_solver.
  - cbn [cr_profiles source_rows]. intros r (k & Hk & E%Z.eqb_eq)%elem_of_select. cbn in E.
    destruct (proj1 (rp_profiles _ _ Hs k r) (conj Hk E)) as (i & x & Hi & Hx & -> & ->). cbn. rewrite app_nil_r.
    pose proof (sc_inputs _ (rp_sound _ _ Hs)) as Hsound. rewrite Forall_forall in Hsound.
    destruct (Input_new_wf _ _ _ _ _ _ _ _ (is_built _ _ (Hsound _ Hi))) as (Hown & _). rewrite Forall_forall in Hown.
    rewrite (Hown _ Hx). rewrite (ro_perm _ _ _ Hrows) in Hi. by apply (list_elem_of_fmap_2 i_id).
Qed.

Lemma load_source_absent t name :
  (∀ (k : Z) row, ct_sources t !! k = Some row → so_name row ≠ name) → load_source_for_update t name = Ok None.
Proof.
  intros H. unfold load_source_for_update, source_row_by_name.
  destruct (find _ _) as [r|] eqn:E; [|done]. apply find_Some in E as [Hin Hn%bool_decide_eq_true].
  apply list_elem_of_fmap in Hin as ([k' r'] & -> & Hin). apply elem_of_map_to_list in Hin. by apply H in Hin.
Qed.


(** A snapshot holds every source of the catalog, in the order of names. *)
Record snapshot_of (t : CatalogTables) (snapshot : CatalogSnapshot) : Prop := {
  sn_represents : Forall (represents t) snapshot;
  sn_complete : ∀ (k : Z) row, ct_sources t !! k = Some row → ∃ s, s ∈ snapshot ∧ src_id s = k;
  sn_sorted : StronglySorted source_name_le snapshot;
  sn_ids : NoDup (src_id <$> snapshot);
}.

Lemma check_distinct_Ok l : ∀ ids names,
  NoDup (src_id <$> l) → NoDup (src_name <$> l) → (∀ s, s ∈ l → src_id s ∉ ids ∧ src_name s ∉ names) →
  check_distinct ids names l = Ok tt.
Proof.
  induction l as [|s l IH]; intros ids names H1 H2 H3; [done|]. rewrite fmap_cons in H1. rewrite fmap_cons in H2.
  apply NoDup_cons in H1 as [Hi H1], H2 as [Hn H2]. destruct (H3 s) as [Ha Hb]; [set_solver|].
  cbn [check_distinct]. rewrite !bool_decide_true by done. cbn [check]. rewrite !bind_ret. apply IH; [done | done|].
  intros x Hx. destruct (H3 x) as [Hc Hd]; [set_solver|]. rewrite !not_elem_of_union, !not_elem_of_singleton. split_and!; try done.
  - intros E. apply Hi. rewrite <- E. by apply list_elem_of_fmap_2.
  - intros E. apply Hn. rewrite <- E. by apply list_elem_of_fmap_2.
Qed.

#[export] Instance source_name_le_transitive : Transitive source_name_le.
Proof.
  intros a b c. unfold source_name_le. destruct (String.compare (src_name a) (src_name b)) eqn:E1; [| |done];
    destruct (String.compare (src_name b) (src_name c)) eqn:E2; try done; intros _ _.
  - apply String.compare_eq_iff in E1, E2. by rewrite E1, E2, string_compare_refl.
  - apply String.compare_eq_iff in E1. by rewrite E1, E2.
  - apply String.compare_eq_iff in E2. by rewrite <- E2, E1.
  - by rewrite (string_compare_trans _ _ _ E1 E2).
Qed.

#[export] Instance source_name_le_total : Total source_name_le.
Proof.
  intros a b. unfold source_name_le. rewrite (String.compare_antisym (src_name b)).
  destruct (String.compare (src_name a) (src_name b)); cbn; [left | left | right]; congruence.
Qed.

Lemma CatalogSnapshot_new_Ok l :
  NoDup (src_id <$> l) → NoDup (src_name <$> l) → CatalogSnapshot_new l = Ok (merge_sort source_name_le l).
Proof.
  intros H1 H2. unfold CatalogSnapshot_new. rewrite check_distinct_Ok; [done | | | set_solver]; by rewrite merge_sort_Permutation.
Qed.

(** Sources with a name each. *)
Lemma represented_names t l :
  catalog_inv t → Forall (represents t) l → NoDup (src_id <$> l) → NoDup (src_name <$> l).
Proof.
  intros Hinv Hl Hnd. rewrite Forall_forall in Hl. apply NoDup_fmap_inj_on; [|by eapply NoDup_fmap_1].
  intros x y Hx Hy E.
  assert (Eid : src_id x = src_id y).
  { eapply (ci_names _ Hinv); [apply (Hl _ Hx) | apply (Hl _ Hy) | done]. }
  apply list_elem_of_lookup in Hx as [a Ha], Hy as [b Hb].
  assert (a = b) by (eapply (NoDup_lookup _ a b (src_id x) Hnd); apply list_lookup_fmap_Some; eauto). congruence.
Qed.

Lemma represented_input_ids t srcs R :
  catalog_inv t → NoDup (source_ids srcs) → Forall (λ x, represents t x.1 ∧ rows_of R x.1 x.2) srcs → NoDup (input_ids srcs).
Proof.
  intros Hinv. induction srcs as [|[s inputs] srcs IH]; intros Hnd Hall; [constructor|].
  apply Forall_cons in Hall as [[Hs Hr] Hall]. unfold source_ids in Hnd. rewrite fmap_cons in Hnd. apply NoDup_cons in Hnd as [Hid Hnd].
  unfold input_ids. rewrite fmap_cons. cbn [concat fst snd]. fold (input_ids srcs). apply NoDup_app. split_and!; [| |by apply IH].
  - pose proof (swf_input_ids _ (sound_wf _ (rp_sound _ _ Hs))) as H. by rewrite (ro_perm _ _ _ Hr) in H.
  - intros k Hk Hk'. apply list_elem_of_fmap in Hk as (i & -> & Hi). cbn [fst snd] in *. rewrite <- (ro_perm _ _ _ Hr) in Hi.
    apply list_elem_of_In, in_concat in Hk' as (l & Hl & Hk'). apply list_elem_of_In in Hl, Hk'.
    apply list_elem_of_fmap in Hl as ([s' inputs'] & -> & Hin). apply list_elem_of_fmap in Hk' as (i' & E & Hi').
    rewrite Forall_forall in Hall. destruct (Hall _ Hin) as [Hs' Hr']. cbn [fst snd] in *. rewrite <- (ro_perm _ _ _ Hr') in Hi'.
    destruct (proj2 (rp_inputs _ _ Hs (i_id i) (input_row i)) (ex_intro _ i (conj Hi (conj eq_refl eq_refl)))) as [Hrow E1].
    destruct (proj2 (rp_inputs _ _ Hs' (i_id i') (input_row i')) (ex_intro _ i' (conj Hi' (conj eq_refl eq_refl)))) as [Hrow' E2].
    rewrite E in Hrow. assert (Er : input_row i = input_row i') by congruence. rewrite Er in E1.
    apply Hid, list_elem_of_fmap. exists (s', inputs'). split; [|done]. cbn. congruence.
Qed.

Lemma load_all_Ok t : catalog_inv t → ∃ snapshot, load_consistent_snapshot t = Ok snapshot ∧ snapshot_of t snapshot.
Proof.
  intros Hinv. unfold load_consistent_snapshot.
  assert (Hsrcs : ∃ srcs, cr_sources (load_all_rows t) = ((λ x, source_row x.1) <$> srcs) ∧
    Forall (λ x, represents t x.1 ∧ rows_of (load_all_rows t) x.1 x.2) srcs).
  { assert (Hall : ∀ r, r ∈ cr_sources (load_all_rows t) → ∃ x, r = source_row x.1 ∧ represents t x.1 ∧ rows_of (load_all_rows t) x.1 x.2).
    { intros r (k & Hk & _)%elem_of_select. destruct (ci_represented _ Hinv _ _ Hk) as (s & Hs & <-).
      pose proof (rp_source _ _ Hs) as E. destruct (selects_rows _ _ _ Hinv Hs (selects_all t s)) as (inputs & Hrows).
      exists (s, inputs). split; [|done]. cbn. congruence. }
    induction (cr_sources (load_all_rows t)) as [|r l IH]; [exists []; split; [done | constructor]|].
    destruct IH as (srcs & E & Hf); [intros; apply Hall; set_solver|]. destruct (Hall r) as (x & -> & Hx); [set_solver|].
    exists (x :: srcs). split; [by rewrite fmap_cons, E | by constructor]. }
  destruct Hsrcs as (srcs & Esrcs & Hall).
  assert (Hids : source_ids srcs = (so_source_id <$> cr_sources (load_all_rows t))).
  { rewrite Esrcs, <- list_fmap_compose. done. }
  assert (Hnd : NoDup (source_ids srcs)).
  { rewrite Hids. apply NoDup_fmap_inj_on.
    - intros a b (j & Ha & _)%elem_of_select (k & Hb & _)%elem_of_select E. pose proof (source_key _ _ _ Hinv Ha). pose proof (source_key _ _ _ Hinv Hb).
      subst. rewrite E in Ha. congruence.
    - apply (NoDup_select so_source_id). intros k r. by apply source_key. }
  assert (Hcov : ∀ k : Z, is_Some (ct_sources t !! k) → k ∈ source_ids srcs).
  { intros k [r Hr]. rewrite Hids. apply list_elem_of_fmap. exists r. split; [by erewrite source_key|]. apply elem_of_select. eauto. }
  assert (Hin : ∀ x, x ∈ srcs → represents t x.1 ∧ rows_of (load_all_rows t) x.1 x.2) by (by apply Forall_forall).
  pose (l := (λ x, with_inputs x.1 x.2) <$> srcs).
  assert (Hrep : Forall (represents t) l).
  { apply Forall_fmap, Forall_forall. intros x Hx. destruct (Hin x Hx) as [Hs Hr]. apply represents_with_inputs; [apply Hr | done]. }
  assert (Hndl : NoDup (src_id <$> l)) by (unfold l; rewrite <- list_fmap_compose; exact Hnd).
  exists (merge_sort source_name_le l). rewrite (assemble_snapshot_Ok _ srcs).
  - split; [by apply CatalogSnapshot_new_Ok; [|eapply represented_names]|]. constructor.
    + by rewrite merge_sort_Permutation.
    + intros k row Hk. destruct (proj1 (list_elem_of_fmap _ _ _) (Hcov k (ex_intro _ row Hk))) as (x & -> & Hx).
      exists (with_inputs x.1 x.2). split; [|done]. rewrite merge_sort_Permutation. by apply (list_elem_of_fmap_2 (λ x, with_inputs x.1 x.2)).
    + apply StronglySorted_merge_sort; apply _.
    + by rewrite merge_sort_Permutation.
  - done.
  - done.
  - by eapply represented_input_ids.
  - eapply Forall_impl; [exact Hall|]. by intros x [].
  - intros r (k & Hk & _)%elem_of_select. apply Hcov. by eapply ci_schemas.
  - intros r (k & Hk & _)%elem_of_select. apply Hcov. by eapply ci_inputs.
  - intros r (k & Hk & _)%elem_of_select.
    destruct (proj1 (list_elem_of_fmap _ _ _) (Hcov _ (ci_profiles _ Hinv _ _ Hk))) as (x & Ex & Hx). destruct (Hin x Hx) as [Hs Hr].
    destruct (proj1 (rp_profiles _ _ Hs k r) (conj Hk Ex)) as (i & rev & Hi & Hrev & -> & ->).
    pose proof (sc_inputs _ (rp_sound _ _ Hs)) as Hsound. rewrite Forall_forall in Hsound.
    destruct (Input_new_wf _ _ _ _ _ _ _ _ (is_built _ _ (Hsound _ Hi))) as (Hown & _). rewrite Forall_forall in Hown.
    cbn [pr_input_id profile_row]. rewrite (Hown _ Hrev). apply list_elem_of_In, in_concat. rewrite (ro_perm _ _ _ Hr) in Hi.
    exists (i_id <$> x.2). split; apply list_elem_of_In; [|by apply (list_elem_of_fmap_2 i_id)].
    by apply (list_elem_of_fmap_2 (λ x : Source * list Input, (i_id : Input → Z) <$> x.2)).
Qed.

End Load.
