(* ===== verification/ManifestCorrect.v ===== *)
(** * Decoding of manifests: what a manifest satisfies

    A manifest that [decode] returns has valid and distinct names, positive and increasing
    versions and revisions, active versions that it declares, and profiles whose mappings
    cover their target schema. *)

From S2P Require Import Core CatalogTypes CatalogModel CatalogSource Bytes Frame Json Storage Canonical Manifest Application ApplicationCorrect Prelude.
Import Schema.

#[local] Open Scope string_scope.
#[local] Open Scope list_scope.
#[local] Open Scope Z_scope.

(** ** Well-formed manifests *)

(** A positive [u64] *)
Definition positive_u64 (z : Z) : Prop := 0 < z ∧ fits U64 z = true.

Record manifest_schema_ok (s : ManifestSchema) : Prop := {
  mo_version : positive_u64 (mh_version s);
  mo_field_names : Forall (λ f, is_valid_name (mf_name f) = true) (mh_fields s);
  mo_fields_distinct : NoDup (mf_name <$> mh_fields s);
}.

Record manifest_revision_ok (schemas : list ManifestSchema) (r : ManifestIngestionProfileRevision) : Prop := {
  mo_revision : positive_u64 (mr_revision r);
  mo_maximum : positive_u64 (mr_maximum_record_bytes r);
  mo_target : ∃ schema, find (λ s, mh_version s =? mr_target_schema_version r) schemas = Some schema ∧
    Forall (λ m, ∃ f, f ∈ mh_fields schema ∧ mf_name f = mm_target_field m) (mr_mappings r) ∧
    (∀ f, f ∈ mh_fields schema → mf_nullability f = NonNull → mf_name f ∈ mm_target_field <$> mr_mappings r);
  mo_targets_distinct : NoDup (mm_target_field <$> mr_mappings r);
}.

Record manifest_input_ok (schemas : list ManifestSchema) (i : ManifestInput) : Prop := {
  mo_input_name : is_valid_name (mi_name i) = true;
  mo_revisions : Forall (manifest_revision_ok schemas) (mi_ingestion_profile_revisions i);
  mo_revisions_increase : StronglySorted Z.lt (mr_revision <$> mi_ingestion_profile_revisions i);
  mo_active_revision : mi_active_ingestion_profile_revision i ∈ (mr_revision <$> mi_ingestion_profile_revisions i);
}.

Record manifest_ok (s : ManifestSource) : Prop := {
  mo_name : is_valid_name (ms_name s) = true;
  mo_schemas : Forall manifest_schema_ok (ms_schemas s);
  mo_versions_increase : StronglySorted Z.lt (mh_version <$> ms_schemas s);
  mo_active_version : ms_active_schema_version s ∈ (mh_version <$> ms_schemas s);
  mo_inputs : Forall (manifest_input_ok (ms_schemas s)) (ms_inputs s);
  mo_inputs_distinct : NoDup (mi_name <$> ms_inputs s);
}.

(** ** Raw documents *)

(** serde_yaml decodes a [u64] within its range. *)
Record raw_revision_fits (r : RawIngestionProfileRevision) : Prop := {
  rw_revision : fits U64 (rr_revision r) = true;
  rw_target : fits U64 (rr_target_schema_version r) = true;
  rw_maximum : fits U64 (rr_maximum_record_bytes r) = true;
}.

Record raw_fits (s : RawSource) : Prop := {
  rw_active : fits U64 (rs_active_schema_version s) = true;
  rw_schemas : Forall (λ h, fits U64 (rh_version h) = true) (rs_schemas s);
  rw_inputs : Forall (λ i, fits U64 (ri_active_ingestion_profile_revision i) = true ∧
    Forall raw_revision_fits (ri_ingestion_profile_revisions i)) (rs_inputs s);
}.

Class YamlLaws `{YamlLib} : Prop := yaml_decode_fits b raw : yaml_decode b = Some raw → raw_fits (raw_source raw).

(** ** Traversals with a set of names *)

Lemma try_collect_inv {E T A B} (P : T → list B → Prop) (f : nat → T → A → result E (B * T)) l : ∀ i s done ys s',
  P s done → (∀ k x t prev y t', l !! k = Some x → P t prev → f (i + k)%nat t x = Ok (y, t') → P t' (prev ++ [y])) →
  try_collect f i s l = Ok (ys, s') → P s' (done ++ ys).
Proof.
  induction l as [|x l IH]; intros i s prev ys s' Hs Hf H; cbn in H.
  { injection H as <- <-. by rewrite app_nil_r. }
  apply bind_Ok in H as ([y t] & Hy & H). apply bind_Ok in H as ([ys' t'] & Hc & H). injection H as <- <-.
  rewrite cons_middle, app_assoc. eapply (IH (S i) t); [| |exact Hc].
  - eapply (Hf 0%nat x); [done | exact Hs|]. by rewrite Nat.add_0_r.
  - intros k x' t0 prev' y' t0' Hx HP Hr. apply (Hf (S k) x' t0 prev' y' t0' Hx HP). by replace (i + S k)%nat with (S i + k)%nat by lia.
Qed.

Lemma check_increasing_Ok path numbers : ∀ i previous,
  check_increasing path i previous numbers = Ok tt →
  StronglySorted Z.lt numbers ∧ ∀ p, previous = Some p → Forall (λ z, p < z) numbers.
Proof.
  induction numbers as [|z l IH]; intros i previous H; [split; [constructor | intros; constructor]|].
  cbn in H. apply bind_Ok in H as ([] & Hc & H). apply check_Ok in Hc. apply IH in H as [Hs Hf]. specialize (Hf z eq_refl).
  split; [by constructor|]. intros p ->. apply negb_true_iff, Z.leb_gt in Hc. apply Forall_cons. split; [done|].
  eapply Forall_impl; [exact Hf|]. cbn. lia.
Qed.

Section Manifest.
Context {env : SpoolEnv} {lib : JsonLib} {text : JsonText} {yaml : YamlLib}.

Lemma try_name_Ok kind value name path : manifest_model path (try_name kind value) = Ok name → name = value ∧ is_valid_name name = true.
Proof. unfold manifest_model, try_name. destruct (is_valid_name value) eqn:E; [|done]. cbn. by intros [= <-]. Qed.

Lemma version_Ok (new : Z → result CatalogModelError Z) e value v path :
  (new = λ value, if value =? 0 then Err e else Ok value) → fits U64 value = true →
  manifest_model path (new value) = Ok v → v = value ∧ positive_u64 v.
Proof.
  intros -> Hf. unfold manifest_model. destruct (Z.eqb_spec value 0); [done|]. cbn. intros [= <-]. split; [done|]. split; [|done].
  apply fits_spec in Hf. cbn in Hf. lia.
Qed.

Lemma SchemaVersion_Ok value v path :
  fits U64 value = true → manifest_model path (SchemaVersion_new value) = Ok v → v = value ∧ positive_u64 v.
Proof. by apply (version_Ok SchemaVersion_new (VersionMustBePositive SchemaVersionKind)). Qed.

Lemma ProfileRevision_Ok value v path :
  fits U64 value = true → manifest_model path (ProfileRevision_new value) = Ok v → v = value ∧ positive_u64 v.
Proof. by apply (version_Ok ProfileRevision_new (VersionMustBePositive ProfileRevisionKind)). Qed.

Lemma MaximumRecordBytes_Ok value v path :
  fits U64 value = true → manifest_model path (MaximumRecordBytes_new value) = Ok v → v = value ∧ positive_u64 v.
Proof. by apply (version_Ok MaximumRecordBytes_new MaximumRecordBytesMustBePositive). Qed.

(** ** Schemas *)

Lemma schema_try_from_ok index raw schema :
  fits U64 (rh_version raw) = true → ManifestSchema_try_from_raw index raw = Ok schema → manifest_schema_ok schema.
Proof.
  intros Hf. unfold ManifestSchema_try_from_raw. intros H. apply bind_Ok in H as (version & Hv & H).
  apply SchemaVersion_Ok in Hv as [_ Hv]; [|done]. apply bind_Ok in H as ([fields names] & Hc & H). injection H as <-.
  eapply (try_collect_inv (λ names fields, names = list_to_set (mf_name <$> fields) ∧ NoDup (mf_name <$> fields) ∧
    Forall (λ f, is_valid_name (mf_name f) = true) fields) _ _ _ _ []) in Hc as (_ & Hnd & Hval).
  - by constructor.
  - cbn. split_and!; [done | constructor | constructor].
  - intros k x t prev y t' _ (-> & Hnd & Hval) Hy. unfold field_try_from_raw in Hy.
    apply bind_Ok in Hy as (name & Hn & Hy). apply try_name_Ok in Hn as [_ Hn]. apply bind_Ok in Hy as ([] & Hd & Hy).
    apply check_Ok, bool_decide_eq_true in Hd. apply bind_Ok in Hy as (pointer & _ & Hy). injection Hy as <- <-.
    rewrite fmap_app, Forall_app, list_to_set_app_L, NoDup_app. cbn [fmap list_fmap mf_name]. rewrite elem_of_list_to_set in Hd.
    split_and!; try done; [set_solver | set_solver | apply NoDup_singleton | by repeat constructor].
Qed.

(** ** Ingestion profiles *)

Lemma revision_try_from_ok input_index schemas index raw revision :
  raw_revision_fits raw → ManifestIngestionProfileRevision_try_from_raw input_index schemas index raw = Ok revision →
  manifest_revision_ok schemas revision.
Proof.
  intros [Hr Ht Hm]. unfold ManifestIngestionProfileRevision_try_from_raw. cbv zeta. intros H.
  apply bind_Ok in H as (number & Hn & H). apply ProfileRevision_Ok in Hn as [_ Hn]; [|done].
  apply bind_Ok in H as (target & Htv & H). apply SchemaVersion_Ok in Htv as [-> Htv]; [|done].
  apply bind_Ok in H as (schema & Hs & H). apply ok_or_Ok in Hs.
  apply bind_Ok in H as (pointer & _ & H). apply bind_Ok in H as ([mappings mapped] & Hc & H).
  apply bind_Ok in H as ([] & Hun & H). apply check_Ok, negb_true_iff in Hun.
  apply bind_Ok in H as (maximum & Hmax & H). apply MaximumRecordBytes_Ok in Hmax as [_ Hmax]; [|done]. injection H as <-.
  eapply (try_collect_inv (λ names ms, names = list_to_set (mm_target_field <$> ms) ∧ NoDup (mm_target_field <$> ms) ∧
    Forall (λ m, ∃ f, f ∈ mh_fields schema ∧ mf_name f = mm_target_field m) ms) _ _ _ _ []) in Hc as (-> & Hnd & Hall).
  - constructor; cbn; [done | done | | done]. exists schema. split_and!; [done | done|]. intros f Hf Hnull.
    destruct (decide (mf_name f ∈ mm_target_field <$> mappings)) as [|Hno]; [done|]. exfalso.
    apply not_true_iff_false in Hun. apply Hun, existsb_exists. exists f. split; [by apply list_elem_of_In|].
    unfold unmapped. rewrite !bool_decide_true; [done | | done]. by rewrite elem_of_list_to_set.
  - cbn. split_and!; [done | constructor | constructor].
  - intros k x t prev y t' _ (-> & Hnd & Hall) Hy. unfold mapping_try_from_raw in Hy.
    apply bind_Ok in Hy as (name & Hname & Hy). apply bind_Ok in Hy as ([] & Hin & Hy). apply check_Ok, bool_decide_eq_true in Hin.
    apply bind_Ok in Hy as ([] & Hd & Hy). apply check_Ok, bool_decide_eq_true in Hd.
    apply bind_Ok in Hy as (p & _ & Hy). injection Hy as <- <-. unfold field_names in Hin. rewrite elem_of_list_to_set in Hd, Hin.
    apply list_elem_of_fmap in Hin as (f & -> & Hf).
    rewrite fmap_app, Forall_app, list_to_set_app_L, NoDup_app. cbn [fmap list_fmap mm_target_field].
    split_and!; try done; [set_solver | set_solver | apply NoDup_singleton |]. constructor; [|constructor]. by exists f.
Qed.

(** ** Inputs and the source *)

Lemma input_try_from_ok schemas index raw input :
  fits U64 (ri_active_ingestion_profile_revision raw) = true → Forall raw_revision_fits (ri_ingestion_profile_revisions raw) →
  ManifestInput_try_from_raw schemas index raw = Ok input → manifest_input_ok schemas input.
Proof.
  intros Ha Hr. unfold ManifestInput_try_from_raw. cbv zeta. intros H. apply bind_Ok in H as (name & Hn & H).
  apply try_name_Ok in Hn as [_ Hn]. apply bind_Ok in H as (u & _ & H). apply bind_Ok in H as (revisions & Hrs & H).
  apply bind_Ok in H as ([] & Hi & H). apply bind_Ok in H as (active & Hact & H). apply ProfileRevision_Ok in Hact as [-> _]; [|done].
  apply bind_Ok in H as ([] & He & H). injection H as <-. apply check_Ok, existsb_exists in He as (r & Hin & Er%Z.eqb_eq).
  destruct (try_enumerate_lookup _ _ _ Hrs) as [Hlen Hall]. constructor; cbn; [done | | by eapply check_increasing_Ok |].
  - apply Forall_forall. intros rev Hrev. apply list_elem_of_lookup in Hrev as [k Hk].
    destruct (lookup_lt_is_Some_2 (ri_ingestion_profile_revisions raw) k) as [rr Hrr]; [rewrite <- Hlen; by eapply lookup_lt_Some|].
    destruct (Hall k rr Hrr) as (y & Hy & Hf). simplify_eq. eapply revision_try_from_ok; [|exact Hf].
    rewrite Forall_forall in Hr. apply Hr. by eapply list_elem_of_lookup_2.
  - apply list_elem_of_fmap. exists r. split; [done|]. by apply list_elem_of_In.
Qed.

Lemma source_try_from_ok raw source : raw_fits raw → ManifestSource_try_from raw = Ok source → manifest_ok source.
Proof.
  intros [Hfa Hfs Hfi]. unfold ManifestSource_try_from. intros H. apply bind_Ok in H as (name & Hn & H).
  apply try_name_Ok in Hn as [_ Hn]. apply bind_Ok in H as (u & _ & H). apply bind_Ok in H as (schemas & Hs & H).
  apply bind_Ok in H as ([] & Hi & H). apply bind_Ok in H as (active & Hact & H). apply SchemaVersion_Ok in Hact as [-> _]; [|done].
  apply bind_Ok in H as ([] & He & H). apply check_Ok, existsb_exists in He as (x & Hin & Ex%Z.eqb_eq).
  apply bind_Ok in H as ([inputs names] & Hc & H). injection H as <-.
  eapply (try_collect_inv (λ names inputs, names = list_to_set (mi_name <$> inputs) ∧ NoDup (mi_name <$> inputs) ∧
    Forall (manifest_input_ok schemas) inputs) _ _ _ _ []) in Hc as (_ & Hnd & Hinputs).
  - constructor; cbn; try done; [| by eapply check_increasing_Ok |].
    + destruct (try_enumerate_lookup _ _ _ Hs) as [Hlen Hall]. apply Forall_forall. intros s Hk. apply list_elem_of_lookup in Hk as [k Hk].
      destruct (lookup_lt_is_Some_2 (rs_schemas raw) k) as [rh Hrh]; [rewrite <- Hlen; by eapply lookup_lt_Some|].
      destruct (Hall k rh Hrh) as (y & Hy & Hf). simplify_eq. eapply schema_try_from_ok; [|exact Hf].
      rewrite Forall_forall in Hfs. apply Hfs. by eapply list_elem_of_lookup_2.
    + apply list_elem_of_fmap. exists x. split; [done|]. by apply list_elem_of_In.
  - cbn. split_and!; [done | constructor | constructor].
  - intros k ri t prev y t' Hk (-> & Hnd & Hall) Hy. unfold input_step in Hy. apply bind_Ok in Hy as (input & Hin' & Hy).
    apply bind_Ok in Hy as ([] & Hd & Hy). apply check_Ok, bool_decide_eq_true in Hd. injection Hy as <- <-.
    rewrite elem_of_list_to_set in Hd. rewrite Forall_forall in Hfi. destruct (Hfi ri) as [H1 H2]; [by eapply list_elem_of_lookup_2|].
    rewrite fmap_app, Forall_app, list_to_set_app_L, NoDup_app. cbn [fmap list_fmap].
    split_and!; try done; [set_solver | set_solver | apply NoDup_singleton |]. constructor; [|constructor]. by eapply input_try_from_ok.
Qed.

Lemma decode_ok {yaml_laws : YamlLaws} b m : Manifest.decode b = Ok m → manifest_ok (cm_source m) ∧ manifest_consistent m.
Proof.
  unfold Manifest.decode. intros H. apply bind_Ok in H as (u & _ & H). apply bind_Ok in H as (u' & _ & H). apply bind_Ok in H as (raw & Hraw & H).
  apply ok_or_Ok, yaml_decode_fits in Hraw. unfold CatalogManifest_try_from in H. apply bind_Ok in H as (u'' & _ & H).
  apply bind_Ok in H as (source & Hs & H). apply bind_Ok in H as (declarations & Hd & H). injection H as <-.
  split; [by eapply source_try_from_ok | done].
Qed.


(** ** Every well-formed manifest is accepted *)

Definition raw_field (f : ManifestUserField) : RawUserField :=
  {| rf_name := mf_name f; rf_logical_type := mf_logical_type f; rf_nullability := mf_nullability f;
     rf_description := mf_description f; rf_historical_remainder_pointer := Pointer.to_string <$> mf_historical_remainder_pointer f |}.

Definition raw_schema (s : ManifestSchema) : RawSchema := {| rh_version := mh_version s; rh_fields := raw_field <$> mh_fields s |}.

Definition raw_mapping (m : ManifestFieldMapping) : RawFieldMapping :=
  {| rm_target_field := mm_target_field m; rm_json_pointer := Pointer.to_string (mm_json_pointer m) |}.

Definition raw_revision (r : ManifestIngestionProfileRevision) : RawIngestionProfileRevision :=
  {| rr_revision := mr_revision r; rr_target_schema_version := mr_target_schema_version r;
     rr_maximum_record_bytes := mr_maximum_record_bytes r;
     rr_event_time := {| rt_json_pointer := Pointer.to_string (mt_json_pointer (mr_event_time r)); rt_format := mt_format (mr_event_time r) |};
     rr_mappings := raw_mapping <$> mr_mappings r |}.

Definition raw_input (i : ManifestInput) : RawInput :=
  {| ri_name := mi_name i; ri_active_ingestion_profile_revision := mi_active_ingestion_profile_revision i;
     ri_ingestion_profile_revisions := raw_revision <$> mi_ingestion_profile_revisions i |}.

(** The document that declares a manifest. *)
Definition raw_source_of (s : ManifestSource) : RawSource :=
  {| rs_name := ms_name s; rs_display_name := ms_display_name s; rs_active_schema_version := ms_active_schema_version s;
     rs_schemas := raw_schema <$> ms_schemas s; rs_inputs := raw_input <$> ms_inputs s |}.

Lemma parse_pointer_text p : Pointer.parse (Pointer.to_string p) = Ok p.
Proof.
  destruct p as [|t p]; [done|]. unfold Pointer.parse. cbn [Pointer.to_string]. rewrite Pointer.split_to_string.
  apply (Pointer.decode_tokens_escape 0 (t :: p)).
Qed.

(** A traversal that collects names from elements with distinct names. *)
Lemma collect_named {A B} (name : B → string) (raw : B → A) (f : nat → gset string → A → catalog_result (B * gset string)) l : ∀ i names,
  NoDup (name <$> l) → (∀ x, x ∈ l → name x ∉ names) →
  (∀ k x names, x ∈ l → name x ∉ names → f k names (raw x) = Ok (x, {[name x]} ∪ names)) →
  ∃ names', try_collect f i names (raw <$> l) = Ok (l, names') ∧ names' = list_to_set (name <$> l) ∪ names.
Proof.
  induction l as [|x l IH]; intros i names Hnd Hno Hf; [exists names; split; [done | set_solver]|].
  rewrite fmap_cons in Hnd. apply NoDup_cons in Hnd as [Hx Hnd]. rewrite fmap_cons. cbn [try_collect].
  rewrite Hf, bind_ret by (try apply Hno; set_solver).
  destruct (IH (S i) ({[name x]} ∪ names) Hnd) as (names' & E & En).
  - intros y Hy. rewrite not_elem_of_union, not_elem_of_singleton. split; [|apply Hno; set_solver]. intros Ey. apply Hx. rewrite <- Ey.
    by apply list_elem_of_fmap_2.
  - intros k y ns Hy. apply Hf. set_solver.
  - rewrite E. cbn. exists names'. split; [done|]. rewrite En. set_solver.
Qed.

Lemma check_increasing_total path numbers : ∀ i previous,
  StronglySorted Z.lt numbers → (∀ p, previous = Some p → Forall (λ z, p < z) numbers) → check_increasing path i previous numbers = Ok tt.
Proof.
  induction numbers as [|z l IH]; intros i previous Hs Hp; [done|]. inversion_clear Hs as [|? ? Hl Hz]. cbn.
  assert (match previous with Some p => negb (z <=? p) | None => true end = true) as ->.
  { destruct previous as [p|]; [|done]. specialize (Hp p eq_refl). apply Forall_cons in Hp as [Hp _]. apply negb_true_iff, Z.leb_gt. done. }
  cbn [check]. rewrite bind_ret. apply IH; [done|]. by intros p [= <-].
Qed.

Lemma schema_accepted index s : manifest_schema_ok s → ManifestSchema_try_from_raw index (raw_schema s) = Ok s.
Proof.
  intros [[Hv _] Hn Hd]. unfold ManifestSchema_try_from_raw, raw_schema. cbn [rh_version rh_fields]. unfold SchemaVersion_new.
  rewrite (proj2 (Z.eqb_neq (mh_version s) 0)) by lia. cbn [manifest_model map_err]. rewrite bind_ret.
  edestruct (collect_named mf_name raw_field (field_try_from_raw (schema_path index)) (mh_fields s) 0 ∅) as (names & E & _);
    [done | set_solver | | rewrite E; by destruct s].
  intros k f ns Hf Hno. rewrite Forall_forall in Hn. unfold field_try_from_raw, raw_field, try_name, raw_pointer.
  cbn [rf_name rf_historical_remainder_pointer rf_logical_type rf_nullability rf_description]. rewrite (Hn _ Hf). cbn [manifest_model map_err].
  rewrite bind_ret, bool_decide_true by done. cbn [check]. rewrite bind_ret. destruct f as [fn ft fnl fd [p|]]; cbn; [|done].
  by rewrite parse_pointer_text.
Qed.

Lemma revision_accepted input_index schemas index r :
  Forall manifest_schema_ok schemas → manifest_revision_ok schemas r →
  ManifestIngestionProfileRevision_try_from_raw input_index schemas index (raw_revision r) = Ok r.
Proof.
  intros Hs [[Hr _] [Hm _] (schema & Hf & Hmaps & Hcov) Hd]. unfold ManifestIngestionProfileRevision_try_from_raw, raw_revision. cbv zeta.
  cbn [rr_revision rr_target_schema_version rr_event_time rr_mappings rr_maximum_record_bytes rt_json_pointer rt_format].
  rewrite Forall_forall in Hs. pose proof Hf as Hf'. apply find_Some in Hf' as [Hin Ev%Z.eqb_eq]. destruct (Hs _ Hin) as [[Hv _] Hnames _].
  unfold ProfileRevision_new, SchemaVersion_new, MaximumRecordBytes_new.
  rewrite !(proj2 (Z.eqb_neq _ 0)) by lia. cbn [manifest_model map_err]. rewrite !bind_ret, Hf. cbn [ok_or].
  rewrite bind_ret, parse_pointer_text. cbn [manifest_model map_err]. rewrite bind_ret.
  edestruct (collect_named mm_target_field raw_mapping
    (mapping_try_from_raw (revision_path input_index index) (field_names schema)) (mr_mappings r) 0 ∅) as (names & E & En); [done | set_solver | |].
  - intros k m ns Hmm Hno. unfold mapping_try_from_raw, raw_mapping, try_name. cbn [rm_target_field rm_json_pointer].
    rewrite Forall_forall in Hmaps. destruct (Hmaps _ Hmm) as (f & Hff & Ef). rewrite Forall_forall in Hnames.
    assert (Hval : is_valid_name (mm_target_field m) = true) by (rewrite <- Ef; by apply Hnames). rewrite Hval. cbn [manifest_model map_err]. rewrite bind_ret.
    rewrite (bool_decide_true (_ ∈ field_names schema)) by (unfold field_names; rewrite elem_of_list_to_set, <- Ef; by apply list_elem_of_fmap_2).
    rewrite bool_decide_true by done. cbn [check]. rewrite !bind_ret, parse_pointer_text. by destruct m.
  - rewrite E, bind_ret.
    assert (existsb (unmapped names) (mh_fields schema) = false) as ->.
    { apply not_true_iff_false. intros (f & Hff%list_elem_of_In & Hu)%existsb_exists. apply andb_true_iff in Hu as [H1 H2].
      apply bool_decide_eq_true in H1, H2. apply H2. rewrite En. apply elem_of_union_l, elem_of_list_to_set. by apply Hcov. }
    cbn. by destruct r as [? ? ? [] ?].
Qed.

Lemma input_accepted schemas index i :
  Forall manifest_schema_ok schemas → manifest_input_ok schemas i →
  ManifestInput_try_from_raw schemas index (raw_input i) = Ok i.
Proof.
  intros Hs [Hn Hr Hi Ha]. unfold ManifestInput_try_from_raw, raw_input, try_name. cbv zeta.
  cbn [ri_name ri_ingestion_profile_revisions ri_active_ingestion_profile_revision]. rewrite Hn. cbn [manifest_model map_err].
  apply list_elem_of_fmap in Ha as (r & Er & Hin). rewrite Forall_forall in Hr.
  rewrite bind_ret, length_fmap, bool_decide_false by (destruct (mi_ingestion_profile_revisions i); [set_solver | done]). cbn [negb check].
  rewrite bind_ret.
  assert (Henum : try_enumerate (ManifestIngestionProfileRevision_try_from_raw index schemas) (raw_revision <$> mi_ingestion_profile_revisions i) =
    Ok (mi_ingestion_profile_revisions i)).
  { unfold try_enumerate. edestruct (try_collect_total (λ _ : unit, True)
      (λ k (_ : unit) x, y ← ManifestIngestionProfileRevision_try_from_raw index schemas k x; Ok (y, tt)) (raw_revision <$> mi_ingestion_profile_revisions i)
      0 tt (mi_ingestion_profile_revisions i)) as (s & E & _); [by rewrite length_fmap | done | | by rewrite E].
    intros k x y [] Hx Hy _. exists tt. apply list_lookup_fmap_Some in Hx as (y' & -> & Hy'). simplify_eq.
    rewrite revision_accepted; [done | done|]. apply Hr. by eapply list_elem_of_lookup_2. }
  rewrite Henum, bind_ret, check_increasing_total, bind_ret by done.
  destruct (Hr r Hin) as [[Hpos _] _ _ _]. unfold ProfileRevision_new. rewrite Er, (proj2 (Z.eqb_neq (mr_revision r) 0)) by lia.
  cbn [manifest_model map_err]. rewrite bind_ret.
  assert (existsb (λ x, mr_revision x =? mr_revision r) (mi_ingestion_profile_revisions i) = true) as ->.
  { apply existsb_exists. exists r. split; [by apply list_elem_of_In | apply Z.eqb_refl]. }
  cbn. rewrite <- Er. by destruct i.
Qed.

Lemma source_accepted s : manifest_ok s → ManifestSource_try_from (raw_source_of s) = Ok s.
Proof.
  intros [Hn Hs Hv Ha Hi Hd]. unfold ManifestSource_try_from, raw_source_of, try_name.
  cbn [rs_name rs_display_name rs_schemas rs_inputs rs_active_schema_version]. rewrite Hn. cbn [manifest_model map_err].
  apply list_elem_of_fmap in Ha as (x & Ex & Hin).
  rewrite bind_ret, length_fmap, bool_decide_false by (destruct (ms_schemas s); [set_solver | done]). cbn [negb check]. rewrite bind_ret.
  assert (Henum : try_enumerate ManifestSchema_try_from_raw (raw_schema <$> ms_schemas s) = Ok (ms_schemas s)).
  { unfold try_enumerate. edestruct (try_collect_total (λ _ : unit, True)
      (λ k (_ : unit) x, y ← ManifestSchema_try_from_raw k x; Ok (y, tt)) (raw_schema <$> ms_schemas s)
      0 tt (ms_schemas s)) as (st & E & _); [by rewrite length_fmap | done | | by rewrite E].
    intros k z y [] Hx Hy _. exists tt. apply list_lookup_fmap_Some in Hx as (y' & -> & Hy'). simplify_eq.
    rewrite Forall_forall in Hs. rewrite schema_accepted; [done|]. apply Hs. by eapply list_elem_of_lookup_2. }
  rewrite Henum, bind_ret, check_increasing_total, bind_ret by done.
  pose proof Hs as Hs'. rewrite Forall_forall in Hs'. destruct (Hs' x Hin) as [[Hpos _] _ _].
  unfold SchemaVersion_new. rewrite Ex, (proj2 (Z.eqb_neq (mh_version x) 0)) by lia. cbn [manifest_model map_err]. rewrite bind_ret.
  assert (existsb (λ y, mh_version y =? mh_version x) (ms_schemas s) = true) as ->.
  { apply existsb_exists. exists x. split; [by apply list_elem_of_In | apply Z.eqb_refl]. }
  cbn [check]. rewrite bind_ret.
  edestruct (collect_named mi_name raw_input (input_step (ms_schemas s)) (ms_inputs s) 0 ∅) as (names & E & _); [done | set_solver | |].
  - intros k i ns Hii Hno. unfold input_step. rewrite Forall_forall in Hi. rewrite input_accepted, bind_ret by (try done; by apply Hi).
    by rewrite bool_decide_true.
  - rewrite E. cbn. rewrite <- Ex. by destruct s.
Qed.

Lemma raw_source_of_fits s : manifest_ok s → raw_fits (raw_source_of s).
Proof.
  intros [_ Hs _ Ha Hi _]. constructor; cbn.
  - apply list_elem_of_fmap in Ha as (x & -> & Hx). rewrite Forall_forall in Hs. by destruct (Hs x Hx) as [[] _ _].
  - apply Forall_fmap. eapply Forall_impl; [exact Hs|]. by intros x [[] _ _].
  - apply Forall_fmap. eapply Forall_impl; [exact Hi|]. intros i [_ Hr _ Hact]. cbn. split.
    + apply list_elem_of_fmap in Hact as (r & -> & Hin). rewrite Forall_forall in Hr. by destruct (Hr r Hin) as [[] _ _ _].
    + apply Forall_fmap. eapply Forall_impl; [exact Hr|]. intros r [[] [] (schema & Hf & _) _]. constructor; cbn; try done.
      apply find_Some in Hf as [Hin <-%Z.eqb_eq]. rewrite Forall_forall in Hs. by destruct (Hs _ Hin) as [[] _ _].
Qed.

(** ** A manifest has what its document declares *)

(** A traversal whose results determine the elements they come from. *)
Lemma collect_raw {E T A B} (raw : B → A) (f : nat → T → A → result E (B * T)) l : ∀ i t ys t',
  (∀ k t x y t', f k t x = Ok (y, t') → x = raw y) → try_collect f i t l = Ok (ys, t') → l = raw <$> ys.
Proof.
  induction l as [|x l IH]; intros i t ys t' Hf H; cbn in H; [by injection H as <- <-|].
  apply bind_Ok in H as ([y t1] & Hy & H). apply bind_Ok in H as ([ys' t2] & Hc & H). injection H as <- <-.
  rewrite fmap_cons. f_equal; [by eapply Hf | by eapply IH].
Qed.

Lemma enumerate_raw {A B} (raw : B → A) (f : nat → A → catalog_result B) l ys :
  (∀ k x y, f k x = Ok y → x = raw y) → try_enumerate f l = Ok ys → l = raw <$> ys.
Proof.
  intros Hf H. unfold try_enumerate in H. apply bind_Ok in H as ([ys' t] & H & Hy). injection Hy as <-.
  eapply (collect_raw raw); [|exact H]. intros k u x y u' Hx. apply bind_Ok in Hx as (z & Hz & Hx). injection Hx as <- <-. by eapply Hf.
Qed.

Lemma model_Ok {A} path (r : result CatalogModelError A) x : manifest_model path r = Ok x → r = Ok x.
Proof. unfold manifest_model. destruct r; cbn; by intros [= ->]. Qed.

Lemma positive_value (new : Z → result CatalogModelError Z) e value v :
  (new = λ value, if value =? 0 then Err e else Ok value) → new value = Ok v → v = value.
Proof. intros ->. destruct (value =? 0); [done|]. by intros [= <-]. Qed.

Lemma try_name_value kind value name : try_name kind value = Ok name → name = value.
Proof. unfold try_name. destruct (is_valid_name value); [|done]. by intros [= <-]. Qed.

Ltac model_value H :=
  apply model_Ok in H;
  first [ apply try_name_value in H as ->
        | apply Pointer.parse_to_string in H
        | apply (positive_value _ _ _ _ eq_refl) in H as -> ].

Lemma raw_field_of path k names x f names' : field_try_from_raw path k names x = Ok (f, names') → x = raw_field f.
Proof.
  unfold field_try_from_raw. cbv zeta. intros H. apply bind_Ok in H as (name & Hn & H). model_value Hn.
  apply bind_Ok in H as (u & _ & H). apply bind_Ok in H as (pointer & Hp & H). injection H as <- _.
  destruct x as [xn xt xnl xd xp]. unfold raw_field, raw_pointer in *. cbn in *. f_equal. destruct xp as [xt'|]; [|by injection Hp as <-].
  apply bind_Ok in Hp as (p & Ht & Hp). injection Hp as <-. model_value Ht. cbn. by f_equal.
Qed.

Lemma raw_schema_of index x schema : ManifestSchema_try_from_raw index x = Ok schema → x = raw_schema schema.
Proof.
  unfold ManifestSchema_try_from_raw. cbv zeta. intros H. apply bind_Ok in H as (version & Hv & H). model_value Hv.
  apply bind_Ok in H as ([fields names] & Hc & H). injection H as <-. apply (collect_raw raw_field) in Hc; [|apply raw_field_of].
  destruct x. unfold raw_schema. cbn in *. by f_equal.
Qed.

Lemma raw_mapping_of path targets k names x m names' :
  mapping_try_from_raw path targets k names x = Ok (m, names') → x = raw_mapping m.
Proof.
  unfold mapping_try_from_raw. cbv zeta. intros H. apply bind_Ok in H as (target & Ht & H). model_value Ht.
  apply bind_Ok in H as (u & _ & H). apply bind_Ok in H as (u' & _ & H). apply bind_Ok in H as (p & Hp & H). injection H as <- _.
  model_value Hp. destruct x. unfold raw_mapping. cbn in *. by f_equal.
Qed.

Lemma raw_revision_of input_index schemas index x r :
  ManifestIngestionProfileRevision_try_from_raw input_index schemas index x = Ok r → x = raw_revision r.
Proof.
  unfold ManifestIngestionProfileRevision_try_from_raw. cbv zeta. intros H. apply bind_Ok in H as (number & Hn & H). model_value Hn.
  apply bind_Ok in H as (target & Ht & H). model_value Ht. apply bind_Ok in H as (schema & _ & H).
  apply bind_Ok in H as (pointer & Hp & H). model_value Hp. apply bind_Ok in H as ([mappings mapped] & Hc & H).
  apply (collect_raw raw_mapping) in Hc; [|apply raw_mapping_of]. apply bind_Ok in H as (u & _ & H).
  apply bind_Ok in H as (maximum & Hm & H). model_value Hm. injection H as <-.
  destruct x as [? ? ? [] ?]. unfold raw_revision. cbn in *. by repeat f_equal.
Qed.

Lemma raw_input_of schemas index x input : ManifestInput_try_from_raw schemas index x = Ok input → x = raw_input input.
Proof.
  unfold ManifestInput_try_from_raw. cbv zeta. intros H. apply bind_Ok in H as (name & Hn & H). model_value Hn.
  apply bind_Ok in H as (u & _ & H). apply bind_Ok in H as (revisions & Hr & H).
  apply (enumerate_raw raw_revision) in Hr; [|apply raw_revision_of]. apply bind_Ok in H as (u' & _ & H).
  apply bind_Ok in H as (active & Ha & H). model_value Ha. apply bind_Ok in H as (u'' & _ & H). injection H as <-.
  destruct x. unfold raw_input. cbn in *. by f_equal.
Qed.

Lemma raw_source_declared x source : ManifestSource_try_from x = Ok source → x = raw_source_of source.
Proof.
  unfold ManifestSource_try_from. intros H. apply bind_Ok in H as (name & Hn & H). model_value Hn.
  apply bind_Ok in H as (u & _ & H). apply bind_Ok in H as (schemas & Hs & H). apply (enumerate_raw raw_schema) in Hs; [|apply raw_schema_of].
  apply bind_Ok in H as (u' & _ & H). apply bind_Ok in H as (active & Ha & H). model_value Ha. apply bind_Ok in H as (u'' & _ & H).
  apply bind_Ok in H as ([inputs names] & Hi & H). injection H as <-. apply (collect_raw raw_input) in Hi.
  - destruct x. unfold raw_source_of. cbn in *. by f_equal.
  - intros k t ri y t' Hy. unfold input_step in Hy. apply bind_Ok in Hy as (input & Hin & Hy). apply bind_Ok in Hy as (v & _ & Hy).
    injection Hy as <- _. by eapply raw_input_of.
Qed.

(** C26: The validation of a decoded document, whose integers fit in 64 bits, returns a manifest exactly when the document
    is the one that declares it, field by field: every name, type, nullability, description,
    version, active version, limit, format and mapping is the declared one and a pointer is
    the one that its text writes; and the manifest is well-formed: valid names, distinct
    fields, inputs and mapping targets, positive versions and revisions in increasing order,
    the active ones among them, and profiles that map every required field of a declared
    schema to one of its fields. *)
Theorem manifest_validation_exact (raw : RawSource) (s : ManifestSource) :
  raw_fits raw ∧ ManifestSource_try_from raw = Ok s ↔ raw = raw_source_of s ∧ manifest_ok s.
Proof.
  split.
  - intros [Hf H]. split; [by apply raw_source_declared | by eapply source_try_from_ok].
  - intros [-> Hok]. split; [by apply raw_source_of_fits | by apply source_accepted].
Qed.

End Manifest.
