(* ===== verification/Declarations.v ===== *)
(** * Catalog application: kept definitions are declared

    A manifest keeps a stored definition when the digests of their declarations agree. Then
    the manifest declares exactly what is stored, or BLAKE3 has a collision. *)

From S2P Require Import Core ErrorCode CatalogTypes CatalogModel CatalogSource Bytes Frame Json Storage Database Canonical Manifest Application Stored ApplicationCorrect StoredCorrect ManifestCorrect CatalogStore CatalogLoad Prelude.
Import Schema.
#[local] Open Scope string_scope.
#[local] Open Scope list_scope.
#[local] Open Scope Z_scope.

(** ** Planned sources can be stored

    A plan made from a decoded manifest and a source as the store builds it contains a
    source as the store builds it, and each planned definition is either the stored one or
    is created with the definition its document holds. *)

(** The identities of a generator are version 7 UUIDs. *)
Class IdentityGeneratorLaws {G} `{CatalogIdentityGenerator G} : Prop := {
  generate_source_ok g : identity_ok (generate_source_id g).1;
  generate_schema_ok g : identity_ok (generate_schema_id g).1;
  generate_field_ok g : identity_ok (generate_field_id g).1;
  generate_input_ok g : identity_ok (generate_input_id g).1;
  generate_revision_ok g : identity_ok (generate_ingestion_profile_revision_id g).1;
}.

Section Sound.
Context {env : SpoolEnv} {lib : JsonLib} {text : JsonText} {uuid : UuidText} {number_equality : NumberEq}.
Context {postgres : CatalogPostgres}.
Context {json_laws : JsonTextLaws} {uuid_laws : UuidTextLaws}.
Context {G : Type} {generator : CatalogIdentityGenerator G} {generator_laws : IdentityGeneratorLaws}.

(** ** Schemas *)

(** The identities that names have are identities of fields. *)
Definition ids_ok (ids : gmap string FieldId) : Prop := ∀ name id, ids !! name = Some id → identity_ok id.

Lemma plan_user_field_ok path ids k g f u g' :
  ids_ok ids → is_valid_name (mf_name f) = true → plan_user_field path ids k g f = Ok (u, g') → user_field_ok u.
Proof.
  intros Hids Hn H. pose proof (plan_user_field_declared _ _ _ _ _ _ _ H) as [].
  constructor; [|constructor; [done | by rewrite da_name | done]].
  unfold plan_user_field in H.
  destruct (match ids !! mf_name f with Some id => (id, g) | None => generate_field_id g end) as [id g1] eqn:E.
  assert (Hid : identity_ok id).
  { destruct (ids !! mf_name f) as [id'|] eqn:E'; [injection E as <- <-; by eapply Hids|].
    pose proof (generate_field_ok g) as Hg. by rewrite E in Hg. }
  unfold UserField_new, with_historical_remainder_pointer, manifest_model in H.
  destruct (is_system id); [done|]. cbn [map_err mbind result_bind] in H.
  destruct (mf_description f), (mf_historical_remainder_pointer f); cbn in H; try case_bool_decide; cbn in H; try done; by injection H as <- _.
Qed.

Lemma remember_fields_ok ids schema users :
  ids_ok ids → schema_ok schema users → ids_ok (remember_fields ids schema).
Proof.
  intros Hids [Hf Hu _ _ _ _ _ _]. unfold remember_fields, data_fields. rewrite Hf, layout_data.
  assert (Hall : Forall (λ f, identity_ok (f_id f)) (imap (λ k u, field_of_user u (3 + k)) users)).
  { apply Forall_forall. intros x Hx. apply elem_of_lookup_imap_1 in Hx as (k & u & -> & Hk). rewrite Forall_forall in Hu.
    apply (Hu u). by eapply list_elem_of_lookup_2. }
  clear Hu Hf. revert ids Hids. induction Hall as [|f l Hf Hl IH]; intros ids Hids; [done|]. cbn [fold_left]. apply IH.
  intros name id. rewrite lookup_insert_Some. intros [[_ <-]|[_ H]]; [done | by eapply Hids].
Qed.

Lemma create_schema_ok source_id path declaration ids g declared schema materialized g' :
  ids_ok ids → identity_ok source_id → manifest_schema_ok declared →
  create_schema source_id path declaration ids g declared = Ok (schema, materialized, g') →
  (∃ users, schema_ok schema users) ∧ identity_ok (s_id schema) ∧ s_source_id schema = source_id ∧ 0 < s_version schema.
Proof.
  intros Hids Hsrc [[Hv Hfit] Hnames _]. unfold create_schema. destruct (generate_schema_id g) as [id g1] eqn:Eid.
  pose proof (generate_schema_ok g) as Hid. rewrite Eid in Hid. cbn in Hid. intros H.
  apply bind_Ok in H as ([users g2] & Hu & H). apply bind_Ok in H as (fields & Hf & H). apply bind_Ok in H as (mat & Hm & H).
  injection H as <- <- <-. apply map_err_Ok, materialize_Ok in Hf as (Hi & Hn & Hroom & ->). cbn. split_and!; try done.
  exists users. constructor; cbn; try done; [| apply Hid | apply Hsrc].
  destruct (try_collect_lookup _ _ _ _ _ _ Hu) as [Hlen Hall]. apply Forall_forall. intros u Hin.
  apply list_elem_of_lookup in Hin as [k Hk].
  destruct (lookup_lt_is_Some_2 (mh_fields declared) k) as [f Hf]; [rewrite <- Hlen; by eapply lookup_lt_Some|].
  destruct (Hall k f Hf) as (y & t & t' & Hy & Hp). simplify_eq. eapply plan_user_field_ok; [done | | exact Hp].
  rewrite Forall_forall in Hnames. apply Hnames. by eapply list_elem_of_lookup_2.
Qed.

(** Whether a planned schema is stored. *)
Definition schema_disposition (stored : list Schema) (k : nat) (schema : Schema) (d : PlannedSchemaDefinition) : Prop :=
  (ph_disposition d = Existing ∧ stored !! k = Some schema) ∨ (ph_disposition d = Create ∧ stored !! k = None).

Lemma plan_schemas_disposition m current source_id g ps g' :
  plan_schemas m current source_id g = Ok (ps, g') →
  ∀ k schema d, ps !! k = Some (schema, d) → schema_disposition (current_schemas current) k schema d.
Proof.
  unfold plan_schemas. intros H. apply bind_Ok in H as ([] & _ & H). apply bind_Ok in H as ([planned [ids g2]] & Hp & H). injection H as <- <-.
  destruct (try_collect_lookup _ _ _ _ _ _ Hp) as [Hlen Hall]. intros k schema d Hk.
  destruct (lookup_lt_is_Some_2 (ms_schemas (cm_source m)) k) as [declared Hd]; [rewrite <- Hlen; by eapply lookup_lt_Some|].
  destruct (Hall k declared Hd) as (y & [ids' t] & t' & Hy & Hpp). simplify_eq. cbn [Nat.add] in Hpp.
  unfold plan_schema in Hpp. apply bind_Ok in Hpp as ([[[s mat] disp] g1] & Hs & Hpp). injection Hpp as <- <- _.
  destruct (current_schemas current !! k) as [old|] eqn:E.
  - apply bind_Ok in Hs as (u & _ & Hs). apply bind_Ok in Hs as (u' & _ & Hs). apply bind_Ok in Hs as (m' & _ & Hs). injection Hs as <- <- <- <-. by left.
  - apply bind_Ok in Hs as ([[s' m'] g2'] & _ & Hs). injection Hs as <- <- <- <-. by right.
Qed.

(** The schemas of the source that is stored. *)
Definition current_sound (current : option Source) (source_id : Z) : Prop :=
  ∀ s, current = Some s → source_sound s ∧ src_id s = source_id.

Lemma current_schemas_sound current source_id :
  current_sound current source_id → Forall (λ s, schema_sound s ∧ s_source_id s = source_id) (current_schemas current).
Proof.
  intros Hcur. apply Forall_forall. intros s Hs. destruct current as [src|]; cbn in Hs; [|set_solver].
  destruct (Hcur src eq_refl) as [Hsound <-].
  split; [pose proof (sc_schemas _ Hsound) as Ha; rewrite Forall_forall in Ha; by apply Ha|].
  pose proof (swf_owned _ (sound_wf _ Hsound)) as Ho. rewrite Forall_forall in Ho. by apply Ho.
Qed.

Lemma schema_ok_distinct s users : schema_ok s users → NoDup (f_id <$> s_fields s).
Proof.
  intros []. rewrite so_fields. assert (Hw : Fields_wf (layout users)); [|apply Hw]. apply layout_wf; [|done..].
  eapply Forall_impl; [exact so_users|]. by intros u [].
Qed.

Lemma current_sound_distinct current source_id : current_sound current source_id → current_distinct current.
Proof.
  intros Hcur src ->. pose proof (current_schemas_sound _ _ Hcur) as H. cbn in H. eapply Forall_impl; [exact H|].
  intros s [[[users Hok] _ _ _ _] _]. by eapply schema_ok_distinct.
Qed.

Lemma plan_schemas_built m current source_id g ps g' :
  manifest_ok (cm_source m) → identity_ok source_id → current_sound current source_id →
  plan_schemas m current source_id g = Ok (ps, g') →
  ∀ k schema d, ps !! k = Some (schema, d) →
    (∃ users, schema_ok schema users) ∧ identity_ok (s_id schema) ∧ s_source_id schema = source_id ∧ 0 < s_version schema.
Proof.
  intros Hok Hsrc Hcur H. unfold plan_schemas in H. apply bind_Ok in H as ([] & _ & H).
  apply bind_Ok in H as ([planned [ids g2]] & Hp & H). injection H as <- <-.
  pose proof (current_schemas_sound _ _ Hcur) as Hstored. rewrite Forall_forall in Hstored.
  eapply (try_collect_inv (λ st done, ids_ok st.1 ∧ ∀ k schema d, done !! k = Some (schema, d) →
    (∃ users, schema_ok schema users) ∧ identity_ok (s_id schema) ∧ s_source_id schema = source_id ∧ 0 < s_version schema)
    _ _ _ _ []) in Hp as [_ Hall]; [done | by split |].
  intros k declared [ids' t] prev [schema d] st' Hd [Hids Hprev] Hpp. cbn [Nat.add fst] in *.
  unfold plan_schema in Hpp. apply bind_Ok in Hpp as ([[[s mat] disp] g1] & Hs & Hpp). injection Hpp as <- <- <-.
  assert (Hs' : (∃ users, schema_ok s users) ∧ identity_ok (s_id s) ∧ s_source_id s = source_id ∧ 0 < s_version s).
  { destruct (current_schemas current !! k) as [old|] eqn:E.
    - apply bind_Ok in Hs as (u & _ & Hs). apply bind_Ok in Hs as (u' & _ & Hs). apply bind_Ok in Hs as (m' & _ & Hs).
      injection Hs as <- <- <- <-. destruct (Hstored old) as [[] ?]; [by eapply list_elem_of_lookup_2 | done].
    - apply bind_Ok in Hs as ([[s' m'] g2'] & Hcr & Hs). injection Hs as <- <- <- <-. eapply create_schema_ok; [done | done | | exact Hcr].
      pose proof (mo_schemas _ Hok) as Hms. rewrite Forall_forall in Hms. apply Hms. by eapply list_elem_of_lookup_2. }
  cbn [fst]. split; [destruct Hs' as [[users ?] _]; by eapply remember_fields_ok|].
  intros j schema d Hj. apply lookup_snoc_Some in Hj as [[_ Hj]|[_ Hj]]; [by eapply Hprev | by injection Hj as <- <-].
Qed.

Lemma plan_schemas_sound m current source_id g ps g' :
  manifest_ok (cm_source m) → manifest_consistent m → identity_ok source_id → current_sound current source_id →
  plan_schemas m current source_id g = Ok (ps, g') →
  ∀ k schema d, ps !! k = Some (schema, d) →
    schema_sound schema ∧ s_source_id schema = source_id ∧ schema_disposition (current_schemas current) k schema d ∧
    schema_planned (de_schemas (cm_declarations m) !!! k) (schema_path k) schema d.
Proof.
  intros Hok Hcon Hsrc Hcur H k schema d Hk.
  destruct (plan_schemas_planned _ _ _ _ _ _ Hcon (current_sound_distinct _ _ Hcur) H) as [_ Hplanned].
  destruct (plan_schemas_built _ _ _ _ _ _ Hok Hsrc Hcur H k schema d Hk) as (Hu & Hid & Es & Hv).
  destruct (Hplanned k schema d Hk) as [Hp _]. split_and!; [|done| by eapply plan_schemas_disposition |done].
  constructor; try done; [by rewrite Es|]. exists (schema_path k). apply Hp.
Qed.


(** ** Ingestion profiles *)

Lemma data_field_identity s users f :
  schema_ok s users → f ∈ s_fields s → f_role f = DataRole → identity_ok (f_id f).
Proof.
  intros [Hf Hu _ _ _ _ _ _] Hin Hrole. rewrite Hf in Hin.
  assert (Hd : f ∈ filter is_data (layout users)) by (apply list_elem_of_filter; split; [by apply bool_decide_pack | done]).
  rewrite layout_data in Hd. apply elem_of_lookup_imap_1 in Hd as (k & u & -> & Hk). rewrite Forall_forall in Hu.
  apply (Hu u). by eapply list_elem_of_lookup_2.
Qed.

Lemma materialize_profile_ok declared target path profile users :
  schema_ok target users → positive_u64 (mr_maximum_record_bytes declared) →
  materialize_profile declared target path = Ok profile →
  (fits U64 (p_maximum_record_bytes profile) = true ∧ p_maximum_record_bytes profile ≠ 0) ∧
  Forall (λ m, identity_ok (m_target_field_id m) ∧ is_system (m_target_field_id m) = false) (p_mappings profile) ∧
  unique_targets ∅ (p_mappings profile) = Ok tt.
Proof.
  intros Hok [Hpos Hfit] H. unfold materialize_profile, IngestionProfile_new, manifest_model in H.
  apply bind_Ok in H as (mappings & Hms & H). apply map_err_Ok in H. apply bind_Ok in H as ([] & Hun & H). injection H as <-. cbn.
  split_and!; [done | lia | | done]. apply try_map_Ok in Hms. clear Hun. induction Hms as [|x m l ms Hm Hms IH]; [constructor|].
  constructor; [|done]. unfold materialize_mapping, FieldMapping_new, manifest_model in Hm.
  apply bind_Ok in Hm as (f & Hf & Hm). apply ok_or_Ok, find_Some in Hf as [Hin Hf]. apply andb_true_iff in Hf as [Hr%bool_decide_eq_true _].
  apply map_err_Ok in Hm. destruct (is_system (f_id f)) eqn:Es; [done|]. injection Hm as <-. cbn. split; [|done].
  by eapply data_field_identity.
Qed.

Definition profile_disposition (stored : list IngestionProfileRevision) (k : nat) (r : IngestionProfileRevision)
    (d : PlannedIngestionProfileDefinition) : Prop :=
  (pp_disposition d = Existing ∧ stored !! k = Some r) ∨ (pp_disposition d = Create ∧ stored !! k = None).

Lemma plan_profile_sound declarations stored input_id schemas path k g declared r d g' :
  NoDup (s_id <$> schemas) → Forall schema_sound schemas → identity_ok input_id →
  positive_u64 (mr_revision declared) → positive_u64 (mr_maximum_record_bytes declared) →
  Forall (revision_sound schemas) stored →
  manifest_profile_declaration declared (profile_path path k) = Ok (declarations !!! k) →
  plan_profile declarations stored input_id schemas path k g declared = Ok ((r, d), g') →
  revision_sound schemas r ∧ profile_disposition stored k r d.
Proof.
  intros Hids Hsch Hin [Hrev Hfit] Hmax Hst Hdecl H.
  assert (Hfs : Forall (λ s, NoDup (f_id <$> s_fields s)) schemas).
  { eapply Forall_impl; [exact Hsch|]. intros s [[users Hu] _ _ _ _]. by eapply schema_ok_distinct. }
  pose proof (plan_profile_planned _ _ _ _ _ _ _ _ _ _ _ Hids Hfs Hdecl H) as [(target & Ht & Hver) _ _ _ _ _].
  unfold plan_profile in H. apply bind_Ok in H as (ts & Hts & H). apply ok_or_Ok, schema_by_version_Some in Hts as [Hin' _].
  apply bind_Ok in H as ([[[r' mat] disp] g1] & Hs & H). injection H as <- <- <-.
  destruct (stored !! k) as [old|] eqn:E.
  - apply bind_Ok in Hs as (st & _ & Hs). apply bind_Ok in Hs as (u & _ & Hs). apply bind_Ok in Hs as (u' & _ & Hs).
    apply bind_Ok in Hs as (m' & _ & Hs). injection Hs as <- <- <- <-. split; [|by left].
    rewrite Forall_forall in Hst. apply Hst. by eapply list_elem_of_lookup_2.
  - destruct (generate_ingestion_profile_revision_id g) as [rid g2] eqn:Eid. pose proof (generate_revision_ok g) as Hid. rewrite Eid in Hid.
    apply bind_Ok in Hs as (profile & Hp & Hs). apply bind_Ok in Hs as (m' & _ & Hs). injection Hs as <- <- <- <-.
    split; [|by right]. rewrite Forall_forall in Hsch. destruct (Hsch _ Hin') as [[users Hu] Hsid _ _ _].
    destruct (materialize_profile_ok _ _ _ _ _ Hu Hmax Hp) as (Hb & Hms & Hun). cbn in Hid.
    constructor; try done; [constructor; cbn; try done; [apply Hid | apply Hin | apply Hsid] | eauto].
Qed.

Lemma revision_sound_extend old new r :
  old `prefix_of` new → NoDup (s_id <$> new) → revision_sound old r → revision_sound new r.
Proof.
  intros Hp Hnd []. destruct rs_verified as (path & target & Ht & Hver). constructor; try done. exists path, target. split; [|done].
  apply find_Some in Ht as [Hin Hid%Z.eqb_eq]. apply (find_unique s_id); [done | |].
  - destruct Hp as [l ->]. set_solver.
  - intros y _. rewrite Z.eqb_eq, Hid. done.
Qed.

(** ** Inputs *)

Definition input_disposition (current : option Source) (input : Input) (d : PlannedInputDefinition) : Prop :=
  (pi_disposition d = Existing ∧ ∃ stored, stored ∈ current_inputs current ∧ input_by_name (current_inputs current) (i_name input) = Some stored ∧
     input_extended stored input) ∨
  (pi_disposition d = Create ∧ input_by_name (current_inputs current) (i_name input) = None).

Lemma input_by_name_Some inputs name i : input_by_name inputs name = Some i → i ∈ inputs ∧ i_name i = name.
Proof. intros [H1 H2%bool_decide_eq_true]%find_Some. by rewrite elem_of_reverse in H1. Qed.

Lemma plan_input_disposition m current source_id schemas k g idx declared input d ds g' :
  (∀ s, current = Some s → Forall (λ i, i_source_id i = source_id) (src_inputs s)) →
  plan_input m current source_id schemas k g (idx, declared) = Ok ((input, d, ds), g') →
  input_disposition current input d.
Proof.
  intros Hown H. pose proof H as H0. unfold plan_input in H. cbv zeta in H.
  apply bind_Ok in H as ([[iid disp] g1] & Hid & H). apply bind_Ok in H as (mat & Hmat & H).
  apply bind_Ok in H as (u & _ & H). apply bind_Ok in H as ([planned g2] & Hp & H).
  apply bind_Ok in H as (active & Ha & H). apply bind_Ok in H as (input' & Hin & H). injection H as <- <- <- <-. apply map_err_Ok in Hin.
  destruct (Input_new_fields _ _ _ _ _ _ _ _ Hin) as (_ & _ & En & _). unfold input_disposition. rewrite En.
  destruct (input_by_name (current_inputs current) (mi_name declared)) as [stored|] eqn:E.
  - left. apply bind_Ok in Hid as (u1 & _ & Hid). apply bind_Ok in Hid as (u2 & _ & Hid). injection Hid as <- <- <-. cbn. split; [done|].
    exists stored. destruct (input_by_name_Some _ _ _ E) as [Hst Hsn]. split_and!; [done | done|].
    eapply plan_input_keeps; [exact H0 | done | done|]. destruct current as [s|]; cbn in Hst; [|set_solver].
    specialize (Hown s eq_refl). rewrite Forall_forall in Hown. by apply Hown.
  - right. destruct (generate_input_id g) as [id g3]. by injection Hid as <- <- <-.
Qed.

(** What a planned input is: it can be stored, and so is each of its profiles. *)
Record input_plan_sound (current : option Source) (source_id : Z) (schemas : list Schema) (input : Input)
    (d : PlannedInputDefinition) (ds : list PlannedIngestionProfileDefinition) : Prop := {
  ips_sound : input_sound schemas input;
  ips_source : i_source_id input = source_id;
  ips_disposition : input_disposition current input d;
  ips_profiles : ∀ k r pd, i_profile_revisions input !! k = Some r → ds !! k = Some pd →
    profile_disposition (stored_revisions (input_by_name (current_inputs current) (i_name input))) k r pd;
}.

Lemma plan_input_sound m current source_id schemas k g idx declared input d ds g' :
  NoDup (s_id <$> schemas) → Forall schema_sound schemas → identity_ok source_id → current_sound current source_id →
  current_schemas current `prefix_of` schemas → manifest_ok (cm_source m) → manifest_consistent m →
  ms_inputs (cm_source m) !! idx = Some declared →
  plan_input m current source_id schemas k g (idx, declared) = Ok ((input, d, ds), g') →
  input_plan_sound current source_id schemas input d ds.
Proof.
  intros Hids Hsch Hsrc Hcur Hpre Hok Hcon Hidx H0.
  assert (Hfs : Forall (λ s, NoDup (f_id <$> s_fields s)) schemas).
  { eapply Forall_impl; [exact Hsch|]. intros s [[users Hu] _ _ _ _]. by eapply schema_ok_distinct. }
  pose proof (plan_input_planned _ _ _ _ _ _ _ _ _ _ _ _ Hids Hfs Hcon Hidx H0) as Hplan.
  assert (Hown : ∀ s, current = Some s → Forall (λ i, i_source_id i = source_id) (src_inputs s)).
  { intros s Hs. destruct (Hcur s Hs) as [Hsound <-]. apply sound_wf in Hsound. apply Hsound. }
  pose proof (plan_input_disposition _ _ _ _ _ _ _ _ _ _ _ _ Hown H0) as Hdisp.
  pose proof (mo_inputs _ Hok) as Hmi. rewrite Forall_forall in Hmi. specialize (Hmi declared (list_elem_of_lookup_2 _ _ _ Hidx)).
  assert (Hstored : ∀ stored, stored ∈ current_inputs current → input_sound schemas stored).
  { intros stored Hst. destruct current as [s|] eqn:Ec; cbn in Hst; [|set_solver]. destruct (Hcur s eq_refl) as [Hsound _].
    pose proof (sc_inputs _ Hsound) as Hi. rewrite Forall_forall in Hi. destruct (Hi _ Hst). constructor; try done.
    eapply Forall_impl; [exact is_revisions|]. intros r. by apply revision_sound_extend. }
  assert (Hid : identity_ok (i_id input)).
  { destruct Hdisp as [[_ (stored & Hst & _ & [])]|[Hc Hnone]]; [rewrite ie_id; by apply (Hstored stored)|].
    unfold plan_input in H0. cbv zeta in H0. apply bind_Ok in H0 as ([[iid disp] g1] & Hid & H). apply bind_Ok in H as (mat & _ & H).
    apply bind_Ok in H as (u & _ & H). apply bind_Ok in H as ([planned g2] & _ & H).
    apply bind_Ok in H as (active & _ & H). apply bind_Ok in H as (input' & Hin & H). injection H as <- <- <- <-. apply map_err_Ok in Hin.
    destruct (Input_new_fields _ _ _ _ _ _ _ _ Hin) as (-> & _ & En & _). rewrite En in Hnone. rewrite Hnone in Hid.
    pose proof (generate_input_ok g) as Hg. destruct (generate_input_id g). by injection Hid as <- _ _. }
  assert (Hrevs : ∀ j r pd, i_profile_revisions input !! j = Some r → ds !! j = Some pd →
    revision_sound schemas r ∧ profile_disposition (stored_revisions (input_by_name (current_inputs current) (i_name input))) j r pd).
  { intros j r pd Hr Hpd. unfold plan_input in H0. cbv zeta in H0. apply bind_Ok in H0 as ([[iid disp] g1] & _ & H). apply bind_Ok in H as (mat & _ & H).
    apply bind_Ok in H as (u & _ & H). apply bind_Ok in H as ([planned g2] & Hp & H).
    apply bind_Ok in H as (active & _ & H). apply bind_Ok in H as (input' & Hin & H). injection H as <- <- <- <-. apply map_err_Ok in Hin.
    destruct (Input_new_fields _ _ _ _ _ _ _ _ Hin) as (Eid & _ & En & _ & _ & Er). rewrite Er in Hr. rewrite Eid in Hid. rewrite En.
    apply list_lookup_fmap_Some in Hr as ([r1 d1] & -> & Hj). apply list_lookup_fmap_Some in Hpd as ([r2 d2] & -> & Hj'). simplify_eq. cbn [fst snd].
    unfold plan_profiles in Hp. apply bind_Ok in Hp as (u' & _ & Hp). destruct (try_collect_lookup _ _ _ _ _ _ Hp) as [Hlen Hall].
    destruct (lookup_lt_is_Some_2 (mi_ingestion_profile_revisions declared) j) as [rev Hrev]; [rewrite <- Hlen; by eapply lookup_lt_Some|].
    destruct (Hall j rev Hrev) as (y & t & t' & Hy & Hpp). simplify_eq.
    pose proof (mo_revisions _ _ Hmi) as Hmr. rewrite Forall_forall in Hmr. destruct (Hmr rev (list_elem_of_lookup_2 _ _ _ Hrev)).
    destruct (consistent_input m idx declared (input_name_path (mi_name declared)) Hcon Hidx) as [_ Hdp].
    eapply plan_profile_sound; [done | done | exact Hid | done | done | | | exact Hpp]; [|by apply Hdp].
    destruct (input_by_name (current_inputs current) (mi_name declared)) as [stored|] eqn:E; cbn [stored_revisions]; [|constructor].
    apply input_by_name_Some in E as [Hst _]. by destruct (Hstored stored Hst). }
  destruct Hplan. assert (Hall : Forall (revision_sound schemas) (i_profile_revisions input)).
  { apply Forall_forall. intros r Hr. apply list_elem_of_lookup in Hr as [j Hj].
    destruct (lookup_lt_is_Some_2 ds j) as [pd Hpd]; [rewrite ip_length_definitions, <- ip_length; by eapply lookup_lt_Some|].
    by destruct (Hrevs j r pd Hj Hpd). }
  constructor; [|done | done | intros; by eapply Hrevs].
  destruct ip_active as (active & Ha & Hnew). destruct (Input_new_wf _ _ _ _ _ _ _ _ Hnew) as (_ & _ & _ & r & Hact & Er).
  constructor; try done.
  - rewrite ip_name. apply Hmi.
  - eauto.
  - eauto.
  - unfold active_profile_revision_id. rewrite Hact, Er, ip_source, ip_name, ip_digest, ip_materialized. done.
  - unfold active_profile_revision_id. rewrite Hact. unfold active_profile_revision in Hact. apply list_elem_of_lookup_2 in Hact.
    rewrite Forall_forall in Hall. by apply Hall.
Qed.


(** ** Plans *)

Lemma active_schema_id_new id name display declaration active schemas inputs s :
  Source_new id name display declaration active schemas inputs = Ok s → active_schema_id s = active.
Proof.
  intros H. destruct (Source_new_invariant _ _ _ _ _ _ _ _ H) as [_ (a & Ha & Hid)]. unfold active_schema_id. by rewrite Ha.
Qed.

(** How the source itself is planned. *)
Definition source_disposition (current : option Source) (p : CatalogApplicationPlan) : Prop :=
  match current with
  | None => ps_disposition (plan_source_definition p) = Create
  | Some s => ps_disposition (plan_source_definition p) = Existing ∧
      src_id s = src_id (plan_source p) ∧ src_name s = src_name (plan_source p) ∧
      (plan_outcome p = Unchanged → src_display_name s = src_display_name (plan_source p) ∧
         active_schema_id s = active_schema_id (plan_source p))
  end.

Lemma plan_source_disposition m current g p g' :
  plan_catalog_application m current g = Ok (p, g') → source_disposition current p.
Proof.
  unfold plan_catalog_application. intros H. apply bind_Ok in H as ([] & Hn & H).
  apply bind_Ok in H as ([[sid disp] g1] & Hid & H). apply bind_Ok in H as ([ps g2] & Hps & H).
  apply bind_Ok in H as (active & Ha & H). apply bind_Ok in H as ([pis g3] & Hpi & H).
  apply bind_Ok in H as (source & Hs & H). apply map_err_Ok in Hs. injection H as <- <-.
  destruct (Source_new_fields _ _ _ _ _ _ _ _ Hs) as (E1 & E2 & E3 & _). pose proof (active_schema_id_new _ _ _ _ _ _ _ _ Hs) as E4.
  destruct current as [s|]; cbn.
  - apply bind_Ok in Hid as ([] & _ & Hid). injection Hid as <- <- <-. apply check_Ok, bool_decide_eq_true in Hn.
    split_and!; [done | done | congruence|]. unfold outcome_of. destruct (_ || _ || _ || _); [done|].
    destruct (negb _ || negb _ || _) eqn:Em; [done|]. intros _. apply orb_false_iff in Em as [Em _]. apply orb_false_iff in Em as [Ed Eact].
    apply negb_false_iff, bool_decide_eq_true in Ed, Eact. split; [congruence|]. rewrite E4. unfold active_schema_id.
    destruct (CatalogSource.active_schema s); [|done]. cbn in Eact. by injection Eact.
  - destruct (generate_source_id g) as [id g4]. by injection Hid as <- <- <-.
Qed.

(** What persisting a plan needs to know of it. *)
Record plan_effect (current : option Source) (p : CatalogApplicationPlan) : Prop := {
  pe_sound : source_sound (plan_source p);
  pe_source : source_disposition current p;
  pe_schema_count : length (plan_schema_definitions p) = length (src_schemas (plan_source p));
  pe_schemas : ∀ k schema d, src_schemas (plan_source p) !! k = Some schema → plan_schema_definitions p !! k = Some d →
    schema_disposition (current_schemas current) k schema d ∧ ph_schema_id d = s_id schema ∧
    ∃ path, schema_materialized schema path = Ok (ph_materialized d);
  pe_input_count : length (plan_input_definitions p) = length (src_inputs (plan_source p));
  pe_inputs : ∀ k input d, src_inputs (plan_source p) !! k = Some input → plan_input_definitions p !! k = Some d →
    input_disposition current input d ∧ pi_input_id d = i_id input;
  pe_profiles : ∃ dss, plan_ingestion_profile_definitions p = concat dss ∧ length dss = length (src_inputs (plan_source p)) ∧
    ∀ j input ds, src_inputs (plan_source p) !! j = Some input → dss !! j = Some ds →
      length ds = length (i_profile_revisions input) ∧
      ∀ k r d, i_profile_revisions input !! k = Some r → ds !! k = Some d →
        profile_disposition (stored_revisions (input_by_name (current_inputs current) (i_name input))) k r d ∧
        pp_ingestion_profile_revision_id d = r_id r ∧ ∃ path, profile_materialized r path = Ok (pp_materialized d);
  pe_prefix : current_schemas current `prefix_of` src_schemas (plan_source p);
  pe_stored : ∀ stored, stored ∈ current_inputs current →
    ∃ input, input ∈ src_inputs (plan_source p) ∧ input_extended stored input;
}.

Lemma plan_source_id_ok m current g p g' :
  (∀ s, current = Some s → source_sound s) → plan_catalog_application m current g = Ok (p, g') → identity_ok (src_id (plan_source p)).
Proof.
  intros Hcur H. pose proof (plan_source_disposition _ _ _ _ _ H) as Hd. destruct current as [s|].
  - destruct Hd as (_ & <- & _). by apply sc_id, Hcur.
  - unfold plan_catalog_application in H. apply bind_Ok in H as ([] & _ & H). pose proof (generate_source_ok g) as Hg.
    destruct (generate_source_id g) as [id g1]. apply bind_Ok in H as ([[sid disp] g2] & Hid & H). injection Hid as <- <- <-.
    apply bind_Ok in H as ([ps g3] & _ & H). apply bind_Ok in H as (active & _ & H). apply bind_Ok in H as ([pis g4] & _ & H).
    apply bind_Ok in H as (source & Hs & H). injection H as <- <-. apply map_err_Ok in Hs.
    destruct (Source_new_fields _ _ _ _ _ _ _ _ Hs) as (E & _). by rewrite <- E in Hg.
Qed.

Lemma lookup_fst {A B} (l : list (A * B)) k a : l.*1 !! k = Some a → ∃ b, l !! k = Some (a, b).
Proof. rewrite list_lookup_fmap_Some. intros ([a' b] & -> & H). by exists b. Qed.

Lemma lookup_snd {A B} (l : list (A * B)) k b : l.*2 !! k = Some b → ∃ a, l !! k = Some (a, b).
Proof. rewrite list_lookup_fmap_Some. intros ([a b'] & -> & H). by exists a. Qed.

(** The planned inputs of a plan, by their position. *)
Lemma plan_inputs_sound m current source_id schemas g pis g' :
  NoDup (s_id <$> schemas) → Forall schema_sound schemas → identity_ok source_id → current_sound current source_id →
  current_schemas current `prefix_of` schemas → manifest_ok (cm_source m) → manifest_consistent m →
  plan_inputs m current source_id schemas g = Ok (pis, g') →
  ∀ k input d ds, pis !! k = Some (input, d, ds) →
    input_plan_sound current source_id schemas input d ds ∧ pi_input_id d = i_id input ∧
    length ds = length (i_profile_revisions input) ∧
    ∀ j r pd, i_profile_revisions input !! j = Some r → ds !! j = Some pd →
      pp_ingestion_profile_revision_id pd = r_id r ∧ ∃ path, profile_materialized r path = Ok (pp_materialized pd).
Proof.
  intros Hids Hsch Hsrc Hcur Hpre Hok Hcon H k input d ds Hk.
  assert (Hfs : Forall (λ s, NoDup (f_id <$> s_fields s)) schemas).
  { eapply Forall_impl; [exact Hsch|]. intros s [[users Hu] _ _ _ _]. by eapply schema_ok_distinct. }
  destruct (plan_inputs_planned _ _ _ _ _ _ _ Hids Hfs Hcon H) as [Hlen Hplanned].
  destruct (lookup_lt_is_Some_2 (declared_inputs m) k) as [[idx declared] Hd]; [rewrite <- Hlen; by eapply lookup_lt_Some|].
  pose proof (Hplanned _ _ _ _ _ _ Hk Hd) as []. unfold plan_inputs in H. cbv zeta in H. apply bind_Ok in H as (u & _ & H).
  destruct (try_collect_lookup _ _ _ _ _ _ H) as [_ Hall]. destruct (Hall k _ Hd) as (y & t & t' & Hy & Hpp). simplify_eq.
  split_and!; [|done | by rewrite ip_length_definitions, ip_length|].
  - eapply plan_input_sound; [done.. | by eapply declared_inputs_lookup | exact Hpp].
  - intros j r pd Hr Hpd. destruct (ip_profiles j r pd Hr Hpd). split; [done|]. eauto.
Qed.

Lemma plan_effect_of m current g p g' :
  manifest_ok (cm_source m) → manifest_consistent m → (∀ s, current = Some s → source_sound s) →
  plan_catalog_application m current g = Ok (p, g') → plan_effect current p.
Proof.
  intros Hok Hcon Hcur H. pose proof (plan_source_id_ok _ _ _ _ _ Hcur H) as Hsid.
  pose proof (plan_source_disposition _ _ _ _ _ H) as Hdisp.
  assert (Hcs : current_sound current (src_id (plan_source p))).
  { intros s ->. split; [by apply Hcur|]. apply Hdisp. }
  destruct (plan_parts_of _ _ _ _ _ H) as (ps & pis & active & []).
  destruct (Source_new_fields _ _ _ _ _ _ _ _ pl_source) as (_ & En & Ed & Eg & Es & Ei).
  destruct (Source_new_invariant _ _ _ _ _ _ _ _ pl_source) as [Hwf _].
  pose proof (swf_schema_ids _ Hwf) as Hids. rewrite Es in Hids.
  destruct pl_schemas as (h1 & h2 & Hps). pose proof (plan_schemas_sound _ _ _ _ _ _ Hok Hcon Hsid Hcs Hps) as Hschemas.
  pose proof (plan_schemas_keeps _ _ _ _ _ _ Hps) as Hpre.
  assert (Hsch : Forall schema_sound ps.*1).
  { apply Forall_forall. intros x Hx. apply list_elem_of_lookup in Hx as [k Hk]. apply lookup_fst in Hk as [d Hk]. by apply (Hschemas k x d). }
  destruct pl_inputs as (h3 & h4 & Hpi).
  pose proof (plan_inputs_sound _ _ _ _ _ _ _ Hids Hsch Hsid Hcs Hpre Hok Hcon Hpi) as Hinputs.
  constructor; rewrite ?Es, ?Ei, ?pl_schema_definitions, ?pl_input_definitions; try done.
  - constructor; rewrite ?Es, ?Ei, ?En, ?Ed, ?Eg; try done.
    + apply Hok.
    + exists (de_source (cm_declarations m)). split; [|done]. by apply consistent_source.
    + rewrite (active_schema_id_new _ _ _ _ _ _ _ _ pl_source). apply schema_by_version_Some in pl_active as [Hin _].
      rewrite Forall_forall in Hsch. by apply Hsch.
    + by rewrite (active_schema_id_new _ _ _ _ _ _ _ _ pl_source).
    + apply Forall_forall. intros x Hx. apply list_elem_of_lookup in Hx as [k Hk]. apply lookup_fst in Hk as [d Hk].
      apply lookup_fst in Hk as [ds Hk]. by destruct (Hinputs _ _ _ _ Hk) as [[] _].
  - by rewrite !length_fmap.
  - intros k schema d Hk Hd. apply lookup_fst in Hk as [d' Hk]. apply lookup_snd in Hd as [s' Hd]. simplify_eq.
    destruct (Hschemas k _ _ Hk) as (_ & _ & Hdisp' & []). eauto.
  - by rewrite !length_fmap.
  - intros k input d Hk Hd. apply lookup_fst in Hk as [d' Hk]. apply lookup_fst in Hk as [ds Hk].
    apply lookup_snd in Hd as [i' Hd]. apply lookup_fst in Hd as [ds' Hd]. simplify_eq.
    by destruct (Hinputs _ _ _ _ Hk) as ([] & ? & _).
  - exists pis.*2. split_and!; [done | by rewrite !length_fmap|]. intros j input ds Hj Hds.
    apply lookup_fst in Hj as [d' Hj]. apply lookup_fst in Hj as [ds' Hj]. apply lookup_snd in Hds as [x Hds]. simplify_eq.
    destruct (Hinputs _ _ _ _ Hj) as ([] & _ & Hl & Hr). split; [done|]. intros k r d Hk Hd. split; [by eapply ips_profiles0 | by eapply Hr].
  - intros stored Hst. destruct current as [s|]; cbn in Hst; [|set_solver].
    destruct (plan_keeps _ _ _ _ _ (sound_wf _ (Hcur s eq_refl)) H) as (_ & _ & _ & Hk). rewrite Ei in Hk. by apply Hk.
Qed.

(** ** Documents *)

Definition schema_reads (schema : Schema) (d : PlannedSchemaDefinition) : Prop :=
  ∃ v, json_from_str (doc_json (ph_materialized d)) = Some v ∧
    decode_stored_schema_definition (s_id schema) (s_source_id schema) (s_version schema) v = Ok schema.

Definition profile_reads (source : Source) (r : IngestionProfileRevision) (d : PlannedIngestionProfileDefinition) : Prop :=
  ∃ target v, source_schema source (r_target_schema_id r) = Some target ∧ json_from_str (doc_json (pp_materialized d)) = Some v ∧
    decode_stored_profile_definition (r_id r) (r_input_id r) (r_revision r) target v = Ok r.

Lemma Forall2_concat {A B} (R : A → B → Prop) ls ks : Forall2 (Forall2 R) ls ks → Forall2 R (concat ls) (concat ks).
Proof. induction 1 as [|l k ls ks Hl _ IH]; cbn; [constructor | by apply Forall2_app]. Qed.

Lemma sound_profile_reads source input r d path :
  source_sound source → input ∈ src_inputs source → r ∈ i_profile_revisions input → profile_materialized r path = Ok (pp_materialized d) →
  profile_reads source r d.
Proof.
  intros Hs Hin Hr Hm. pose proof (sc_inputs _ Hs) as Hi. rewrite Forall_forall in Hi. destruct (Hi _ Hin) as [_ _ _ _ _ _ Hrs].
  rewrite Forall_forall in Hrs. destruct (Hrs _ Hr) as [Hok _ _ _ (path' & target & Ht & Hv)]. exists target.
  pose proof Ht as [_ E%Z.eqb_eq]%find_Some. apply (document_path _ _ _ path') in Hm. destruct (profile_round_trip _ _ _ _ Hok E Hv Hm) as (v & Hj & Hd). by exists v.
Qed.

(** Every definition of a plan is stored as a text that holds all of it: parsing the
    JSON of a planned schema, or of a planned ingestion profile revision, and decoding it as
    a stored definition gives back the schema or the revision, with its digests. *)
Theorem planned_definitions_round_trip {yaml : YamlLib} {yaml_laws : YamlLaws} b m current g p g' :
  Manifest.decode b = Ok m → (∀ s, current = Some s → source_sound s) → plan_catalog_application m current g = Ok (p, g') →
  Forall2 schema_reads (src_schemas (plan_source p)) (plan_schema_definitions p) ∧
  Forall2 (profile_reads (plan_source p)) (concat (i_profile_revisions <$> src_inputs (plan_source p))) (plan_ingestion_profile_definitions p).
Proof.
  intros [Hok Hcon]%decode_ok Hcur H. destruct (plan_effect_of _ _ _ _ _ Hok Hcon Hcur H) as [Hs _ Hlen Hschemas _ _ (dss & -> & Hlen' & Hps) _ _].
  split.
  - apply Forall2_same_length_lookup_2; [done|]. intros k schema d Hk Hd. destruct (Hschemas _ _ _ Hk Hd) as (_ & _ & path & Hm).
    pose proof (sc_schemas _ Hs) as Hss. rewrite Forall_forall in Hss. destruct (Hss _ (list_elem_of_lookup_2 _ _ _ Hk)) as [[users Hu] _ _ _ [path' Hv]].
    apply (document_path _ _ _ path') in Hm. by eapply schema_round_trip.
  - apply Forall2_concat, Forall2_fmap_l, Forall2_same_length_lookup_2; [done|]. intros j input ds Hj Hds.
    destruct (Hps _ _ _ Hj Hds) as [Hl Hr]. apply Forall2_same_length_lookup_2; [done|]. intros k r d Hk Hd.
    destruct (Hr _ _ _ Hk Hd) as (_ & _ & path & Hm). eapply sound_profile_reads; [done | by eapply list_elem_of_lookup_2..| done].
Qed.

End Sound.

Section Declarations.
Context {env : SpoolEnv} {lib : JsonLib} {text : JsonText} {uuid : UuidText} {number_equality : NumberEq}.
Context {json_laws : JsonTextLaws}.

(** ** Digests *)

(** Two documents with different texts and one digest; the paths are those of errors. *)
Definition documents_collide (a b : string → catalog_result Document) : Prop :=
  ∃ p q d e, a p = Ok d ∧ b q = Ok e ∧ doc_json d ≠ doc_json e ∧ doc_digest d = doc_digest e.

(** Two plain documents with the same text are made from the same value. *)
Lemma document_equal domain v w p q d e :
  plain 127 v → plain 127 w → document domain v p = Ok d → document domain w q = Ok e → doc_json d = doc_json e → v = w.
Proof.
  intros Hv Hw Hd He E. pose proof (document_read _ _ _ _ Hv Hd) as Rd. pose proof (document_read _ _ _ _ Hw He) as Re.
  rewrite E, Re in Rd. by injection Rd.
Qed.

(** ** Objects *)

Lemma object_get a b : object a = object b → NoDup a.*1 → NoDup b.*1 → ∀ key, map_get key a = map_get key b.
Proof.
  intros [= E] Ha Hb key. rewrite <- (map_get_perm key (map_of a) a), <- (map_get_perm key (map_of b) b), E; try done.
  - by apply map_of_perm.
  - by rewrite map_of_perm.
  - by apply map_of_perm.
  - by rewrite map_of_perm.
Qed.

Lemma unsigned_inj a b : fits U64 a = true → fits U64 b = true → unsigned a = unsigned b → a = b.
Proof. intros Ha Hb [= E]. apply (f_equal as_u64) in E. rewrite !as_u64_from_u64 in E by done. by injection E. Qed.

Lemma to_string_inj p q : Pointer.to_string p = Pointer.to_string q → p = q.
Proof. intros H. apply (f_equal Pointer.parse) in H. rewrite !parse_pointer in H. by injection H. Qed.

Ltac distinct_keys := apply (bool_decide_unpack _); vm_compute; done.

(** ** Schemas *)

Lemma field_declaration_inj n1 t1 u1 r1 d1 p1 n2 t2 u2 r2 d2 p2 :
  field_declaration n1 t1 u1 r1 d1 p1 = field_declaration n2 t2 u2 r2 d2 p2 →
  n1 = n2 ∧ t1 = t2 ∧ u1 = u2 ∧ r1 = r2 ∧ d1 = d2 ∧ p1 = p2.
Proof.
  intros E. unfold field_declaration in E.
  assert (H : ∀ key, map_get key (optional "description" VString d1 ++ optional "historical_remainder_pointer" pointer_string p1 ++
      [("logical_type", VString t1); ("name", VString n1); ("nullability", VString u1); ("role", VString r1)]) =
    map_get key (optional "description" VString d2 ++ optional "historical_remainder_pointer" pointer_string p2 ++
      [("logical_type", VString t2); ("name", VString n2); ("nullability", VString u2); ("role", VString r2)])).
  { apply object_get; [done | destruct d1, p1; distinct_keys | destruct d2, p2; distinct_keys]. }
  pose proof (H "name") as Hn. pose proof (H "logical_type") as Ht. pose proof (H "nullability") as Hu. pose proof (H "role") as Hr.
  pose proof (H "description") as Hd. pose proof (H "historical_remainder_pointer") as Hp. clear H E.
  destruct d1, d2, p1, p2; cbn in Hn, Ht, Hu, Hr, Hd, Hp; try discriminate; simplify_eq; split_and!; try done;
    f_equal; by apply to_string_inj.
Qed.

(** The manifest declares the field as it is stored. *)
Record declares_field (declared : ManifestUserField) (stored : Field) : Prop := {
  df_name : f_name stored = mf_name declared;
  df_type : f_logical_type stored = logical_type_of_user (mf_logical_type declared);
  df_nullability : f_nullability stored = mf_nullability declared;
  df_description : f_description stored = mf_description declared;
  df_pointer : f_historical_remainder_pointer stored = mf_historical_remainder_pointer declared;
}.

Lemma LogicalType_as_str_inj a b : LogicalType_as_str a = LogicalType_as_str b → a = b.
Proof. destruct a, b; done. Qed.

Lemma Nullability_as_str_inj a b : Nullability_as_str a = Nullability_as_str b → a = b.
Proof. destruct a, b; done. Qed.

Lemma declaration_field stored declared :
  stored_field_declaration stored = manifest_field_declaration declared → declares_field declared stored.
Proof.
  intros (En & Et & Eu & _ & Ed & Ep)%field_declaration_inj. constructor; try done.
  - apply LogicalType_as_str_inj. by rewrite Et, user_logical_type_str.
  - by apply Nullability_as_str_inj.
Qed.

Lemma plain_field_declaration n t u r d p : plain 1 (field_declaration n t u r d p).
Proof.
  apply plain_object. rewrite !Forall_app. split_and!.
  - apply plain_optional. intros. apply plain_string.
  - apply plain_optional. intros. apply plain_string.
  - plain_entries.
Qed.

Lemma plain_schema_declaration version fields :
  fits U64 version = true → Forall (plain 1) fields → plain 127 (schema_declaration_value version fields).
Proof.
  intros Hv Hf. eapply (plain_mono 4); [lia|]. apply plain_object. plain_entries; [| by apply plain_unsigned | by apply plain_unsigned].
  apply plain_array. eapply Forall_impl; [exact Hf|]. intros v. apply plain_mono. lia.
Qed.

Lemma schema_declaration_inj v1 f1 v2 f2 :
  fits U64 v1 = true → fits U64 v2 = true → schema_declaration_value v1 f1 = schema_declaration_value v2 f2 → v1 = v2 ∧ f1 = f2.
Proof.
  intros H1 H2 E. unfold schema_declaration_value in E.
  pose proof (object_get _ _ E) as H. specialize (H ltac:(distinct_keys) ltac:(distinct_keys)).
  pose proof (H "version") as Ev. pose proof (H "fields") as Ef. cbn -[unsigned] in Ev, Ef.
  split; [injection Ev; intros En; apply unsigned_inj; [done | done | by unfold unsigned; f_equal] | by injection Ef].
Qed.

(** A stored schema with the declaration digest of a declared one is declared by it. *)
Lemma schema_kept stored declared path q d :
  fits U64 (s_version stored) = true → fits U64 (mh_version declared) = true →
  verify_stored_schema stored path = Ok tt → manifest_schema_declaration declared q = Ok d →
  s_declaration_digest stored = doc_digest d →
  (s_version stored = mh_version declared ∧ Forall2 declares_field (mh_fields declared) (data_fields stored)) ∨
  documents_collide (stored_schema_declaration stored) (manifest_schema_declaration declared).
Proof.
  intros Hv Hw Hver Hd Heq. unfold verify_stored_schema in Hver. apply bind_Ok in Hver as (e & He & Hver).
  apply bind_Ok in Hver as (u & Hdig & _). apply check_Ok, bool_decide_eq_true in Hdig.
  assert (Hed : doc_digest e = doc_digest d) by congruence.
  destruct (decide (doc_json e = doc_json d)) as [Ej|Hne]; [left | right; by exists path, q, e, d].
  unfold stored_schema_declaration, manifest_schema_declaration, schema_declaration in *.
  assert (Hp1 : plain 127 (schema_declaration_value (s_version stored) (stored_field_declaration <$> data_fields stored))).
  { apply plain_schema_declaration; [done|]. apply Forall_fmap, Forall_forall. intros f _. apply plain_field_declaration. }
  assert (Hp2 : plain 127 (schema_declaration_value (mh_version declared) (manifest_field_declaration <$> mh_fields declared))).
  { apply plain_schema_declaration; [done|]. apply Forall_fmap, Forall_forall. intros f _. apply plain_field_declaration. }
  pose proof (document_equal _ _ _ _ _ _ _ Hp1 Hp2 He Hd Ej) as E. clear Hp1 Hp2.
  apply schema_declaration_inj in E as [Ev Ef]; [|done|done]. split; [done|]. clear -Ef json_laws. revert Ef. generalize (mh_fields declared).
  induction (data_fields stored) as [|f l IH]; intros [|g k] E; [constructor | done | done |]. rewrite !fmap_cons in E.
  pose proof (f_equal (hd VNull) E) as E1. pose proof (f_equal (@tl Value) E) as E2. cbn [hd tl] in E1, E2.
  constructor; [by apply declaration_field | by apply IH].
Qed.


(** ** Ingestion profiles *)

(** The manifest declares the mapping as it is stored, by the name of its field. *)
Definition declares_mapping (target : Schema) (declared : ManifestFieldMapping) (stored : FieldMapping) : Prop :=
  m_json_pointer stored = mm_json_pointer declared ∧
  ∃ field, data_field target (m_target_field_id stored) = Some field ∧ f_name field = mm_target_field declared.

Record declares_profile (target : Schema) (declared : ManifestIngestionProfileRevision) (stored : IngestionProfileRevision) : Prop := {
  dp_revision : r_revision stored = mr_revision declared;
  dp_target : s_version target = mr_target_schema_version declared;
  dp_maximum : p_maximum_record_bytes (r_profile stored) = mr_maximum_record_bytes declared;
  dp_pointer : et_json_pointer (p_event_time (r_profile stored)) = mt_json_pointer (mr_event_time declared);
  dp_format : et_format (p_event_time (r_profile stored)) = mt_format (mr_event_time declared);
  dp_mappings : Forall2 (declares_mapping target) (mr_mappings declared) (p_mappings (r_profile stored));
}.

Lemma EventTimeFormat_as_str_inj a b : EventTimeFormat_as_str a = EventTimeFormat_as_str b → a = b.
Proof. destruct a, b; done. Qed.

Lemma profile_declaration_inj fa pa ma xa ra ta fb pb mb xb rb tb :
  fits U64 xa = true → fits U64 ra = true → fits U64 ta = true → fits U64 xb = true → fits U64 rb = true → fits U64 tb = true →
  profile_declaration_value fa pa ma xa ra ta = profile_declaration_value fb pb mb xb rb tb →
  fa = fb ∧ pa = pb ∧ ma = mb ∧ xa = xb ∧ ra = rb ∧ ta = tb.
Proof.
  intros H1 H2 H3 H4 H5 H6 E. unfold profile_declaration_value in E. pose proof (object_get _ _ E) as H.
  specialize (H ltac:(distinct_keys) ltac:(distinct_keys)). clear E.
  pose proof (H "event_time") as Ee. pose proof (H "mappings") as Em. pose proof (H "maximum_record_bytes") as Ex.
  pose proof (H "revision") as Er. pose proof (H "target_schema_version") as Et. clear H.
  cbn -[unsigned object] in Ee, Em, Ex, Er, Et.
  assert (Hu : ∀ a b, fits U64 a = true → fits U64 b = true → Some (unsigned a) = Some (unsigned b) → a = b).
  { intros a b Ha Hb Hab. apply unsigned_inj; [done | done | congruence]. }
  assert (Ee' : object [("format", VString (EventTimeFormat_as_str fa)); ("json_pointer", pointer_string pa)] =
                object [("format", VString (EventTimeFormat_as_str fb)); ("json_pointer", pointer_string pb)]) by congruence.
  pose proof (object_get _ _ Ee') as He. specialize (He ltac:(distinct_keys) ltac:(distinct_keys)).
  pose proof (He "format") as Ef. pose proof (He "json_pointer") as Ep. cbn in Ef, Ep. unfold pointer_string in Ep.
  split_and!; [apply EventTimeFormat_as_str_inj; congruence | apply to_string_inj; congruence | congruence | by apply Hu..].
Qed.

Lemma mapping_declaration_inj p1 n1 p2 n2 : mapping_declaration p1 n1 = mapping_declaration p2 n2 → p1 = p2 ∧ n1 = n2.
Proof.
  intros E. unfold mapping_declaration in E. pose proof (object_get _ _ E) as H. specialize (H ltac:(distinct_keys) ltac:(distinct_keys)).
  pose proof (H "json_pointer") as Ep. pose proof (H "target_field") as En. cbn in Ep, En. unfold pointer_string in Ep. split; [apply to_string_inj; congruence | congruence].
Qed.

Lemma plain_profile_declaration format p mappings maximum revision version :
  fits U64 maximum = true → fits U64 revision = true → fits U64 version = true → Forall (plain 1) mappings →
  plain 127 (profile_declaration_value format p mappings maximum revision version).
Proof.
  intros Hx Hr Hv Hm. eapply (plain_mono 4); [lia|]. apply plain_object. plain_entries; [| | by apply plain_unsigned..].
  - apply (plain_object 2). plain_entries.
  - apply plain_array. eapply Forall_impl; [exact Hm|]. intros v. apply plain_mono. lia.
Qed.

Lemma plain_mapping_declaration p n : plain 1 (mapping_declaration p n).
Proof. apply plain_object. plain_entries. Qed.

Lemma stored_mappings_declaration target path stored values :
  try_map (stored_mapping_declaration target path) stored = Ok values → Forall (plain 1) values ∧
  ∀ declared, values = ((λ m, mapping_declaration (mm_json_pointer m) (mm_target_field m)) <$> declared) →
    Forall2 (declares_mapping target) declared stored.
Proof.
  rewrite try_map_Ok. induction 1 as [|m v stored values Hv Hvs [IHp IH]]; [split; [constructor | by intros [|]]|].
  unfold stored_mapping_declaration in Hv. apply bind_Ok in Hv as (f & Hf & Hv). apply ok_or_Ok in Hf. injection Hv as <-.
  split; [constructor; [apply plain_mapping_declaration | done]|]. intros [|d declared] E; [done|]. rewrite fmap_cons in E.
  pose proof (f_equal (hd VNull) E) as E1. pose proof (f_equal (@tl Value) E) as E2. cbn [hd tl] in E1, E2.
  apply mapping_declaration_inj in E1 as [Ep En]. constructor; [|by apply IH]. split; [done|]. by exists f.
Qed.

Lemma profile_kept stored target declared path q d :
  fits U64 (r_revision stored) = true → fits U64 (p_maximum_record_bytes (r_profile stored)) = true → fits U64 (s_version target) = true →
  fits U64 (mr_revision declared) = true → fits U64 (mr_maximum_record_bytes declared) = true →
  fits U64 (mr_target_schema_version declared) = true →
  verify_stored_profile stored target path = Ok tt → manifest_profile_declaration declared q = Ok d →
  r_declaration_digest stored = doc_digest d →
  declares_profile target declared stored ∨
  documents_collide (stored_profile_declaration stored target) (manifest_profile_declaration declared).
Proof.
  intros H1 H2 H3 H4 H5 H6 Hver Hd Heq. unfold verify_stored_profile in Hver. apply bind_Ok in Hver as (e & He & Hver).
  apply bind_Ok in Hver as (u & Hdig & _). apply check_Ok, bool_decide_eq_true in Hdig.
  assert (Hed : doc_digest e = doc_digest d) by congruence.
  destruct (decide (doc_json e = doc_json d)) as [Ej|Hne]; [left | right; by exists path, q, e, d].
  unfold stored_profile_declaration in He. apply bind_Ok in He as (values & Hvs & He). unfold manifest_profile_declaration in Hd.
  destruct (stored_mappings_declaration _ _ _ _ Hvs) as [Hpl Hmaps].
  assert (Hp2 : Forall (plain 1) ((λ m, mapping_declaration (mm_json_pointer m) (mm_target_field m)) <$> mr_mappings declared)).
  { apply Forall_fmap, Forall_forall. intros m _. apply plain_mapping_declaration. }
  pose proof (document_equal _ _ _ _ _ _ _ (plain_profile_declaration _ _ _ _ _ _ H2 H1 H3 Hpl)
    (plain_profile_declaration _ _ _ _ _ _ H5 H4 H6 Hp2) He Hd Ej) as E.
  apply profile_declaration_inj in E as (Ef & Ep & Em & Ex & Er & Et); [|done..]. constructor; try done. by apply Hmaps.
Qed.

(** ** Plans *)

Context {uuid_laws : UuidTextLaws} {yaml : YamlLib} {yaml_laws : YamlLaws}.
Context {G : Type} {generator : CatalogIdentityGenerator G}.

Lemma plan_schema_stored declarations stored source_id k st declared schema d st' old :
  plan_schema declarations stored source_id k st declared = Ok ((schema, d), st') → stored !! k = Some old →
  verify_stored_schema old (schema_path k) = Ok tt ∧ s_declaration_digest old = doc_digest (declarations !!! k).
Proof.
  unfold plan_schema. destruct st as [ids g]. intros H Hk. apply bind_Ok in H as ([[[s mat] disp] g1] & Hs & _). rewrite Hk in Hs.
  apply bind_Ok in Hs as ([] & Hv & Hs). apply bind_Ok in Hs as ([] & Hc & _). by apply check_Ok, bool_decide_eq_true in Hc.
Qed.

Lemma plan_kept_schema m source g p g' k stored :
  manifest_ok (cm_source m) → manifest_consistent m → source_sound source →
  plan_catalog_application m (Some source) g = Ok (p, g') → src_schemas source !! k = Some stored →
  ∃ declared, ms_schemas (cm_source m) !! k = Some declared ∧
    ((s_version stored = mh_version declared ∧ Forall2 declares_field (mh_fields declared) (data_fields stored)) ∨
     documents_collide (stored_schema_declaration stored) (manifest_schema_declaration declared)).
Proof.
  intros Hok Hcon Hsound H Hk. destruct (plan_parts_of _ _ _ _ _ H) as (ps & pis & active & []). destruct pl_schemas as (h1 & h2 & Hps).
  unfold plan_schemas in Hps. apply bind_Ok in Hps as (u & Hc & Hps). apply check_Ok, Nat.leb_le in Hc.
  apply bind_Ok in Hps as ([planned [ids g2]] & Hp & _). destruct (try_collect_lookup _ _ _ _ _ _ Hp) as [_ Hall]. cbn in Hc.
  destruct (lookup_lt_is_Some_2 (ms_schemas (cm_source m)) k) as [declared Hd]; [apply lookup_lt_Some in Hk; lia|].
  exists declared. split; [done|]. destruct (Hall k declared Hd) as ([schema d] & t & t' & _ & Hpp).
  destruct (plan_schema_stored _ _ _ _ _ _ _ _ _ _ Hpp Hk) as [Hv Hdig].
  pose proof (sc_schemas _ Hsound) as Hs. rewrite Forall_forall in Hs. destruct (Hs stored (list_elem_of_lookup_2 _ _ _ Hk)) as [[users []] _ _ _ _].
  pose proof (mo_schemas _ Hok) as Hm. rewrite Forall_forall in Hm. destruct (Hm declared (list_elem_of_lookup_2 _ _ _ Hd)) as [[_ Hfit] _ _].
  eapply schema_kept; [done | done | exact Hv | by apply (consistent_schema m k declared "") | done].
Qed.

(** The declared input of a stored one, with what planning verified of its revisions. *)
Lemma plan_stored_input m source g p g' input :
  source_sound source → plan_catalog_application m (Some source) g = Ok (p, g') → input ∈ src_inputs source →
  ∃ idx declared, ms_inputs (cm_source m) !! idx = Some declared ∧ mi_name declared = i_name input ∧
    ∀ k r, i_profile_revisions input !! k = Some r → ∃ revision target path,
      mi_ingestion_profile_revisions declared !! k = Some revision ∧
      find (λ s, s_id s =? r_target_schema_id r) (src_schemas (plan_source p)) = Some target ∧
      verify_stored_profile r target path = Ok tt ∧
      r_declaration_digest r = doc_digest (di_ingestion_profiles (de_inputs (cm_declarations m) !!! idx) !!! k).
Proof.
  intros Hsound H Hin. pose proof (sound_wf _ Hsound) as Hwf. destruct (plan_parts_of _ _ _ _ _ H) as (ps & pis & active & []).
  destruct (Source_new_fields _ _ _ _ _ _ _ _ pl_source) as (_ & _ & _ & _ & Es & _). destruct pl_inputs as (h1 & h2 & Hpi).
  unfold plan_inputs in Hpi. cbv zeta in Hpi. apply bind_Ok in Hpi as (u & Hc & Hpi). apply check_Ok in Hc.
  rewrite forallb_forall in Hc. specialize (Hc input (proj1 (list_elem_of_In _ _) Hin)). apply bool_decide_eq_true in Hc.
  rewrite elem_of_list_to_set, list_elem_of_fmap in Hc. destruct Hc as (declared & Hn & Hd). apply list_elem_of_lookup_1 in Hd as [idx Hidx].
  exists idx, declared. split_and!; [done | done|]. intros k r Hr.
  assert (Hdi : (idx, declared) ∈ declared_inputs m).
  { unfold declared_inputs. rewrite merge_sort_Permutation. by apply (elem_of_lookup_imap_2 pair _ declared idx). }
  apply list_elem_of_lookup_1 in Hdi as [n Hdn]. destruct (try_collect_lookup _ _ _ _ _ _ Hpi) as [_ Hall].
  destruct (Hall n _ Hdn) as (y & t & t' & _ & Hpp). unfold plan_input in Hpp. cbv zeta in Hpp.
  apply bind_Ok in Hpp as ([[iid disp] g1] & _ & Hpp). apply bind_Ok in Hpp as (mat & _ & Hpp). apply bind_Ok in Hpp as (u1 & _ & Hpp).
  apply bind_Ok in Hpp as ([planned g2] & Hpl & _). unfold plan_profiles in Hpl. cbn [current_inputs] in Hpl.
  rewrite <- Hn, input_by_name_unique in Hpl by (try done; apply Hwf). cbn [stored_revisions] in Hpl.
  apply bind_Ok in Hpl as (u2 & Hlen & Hpl). apply check_Ok, Nat.leb_le in Hlen. destruct (try_collect_lookup _ _ _ _ _ _ Hpl) as [_ Hallp].
  destruct (lookup_lt_is_Some_2 (mi_ingestion_profile_revisions declared) k) as [revision Hrev]; [apply lookup_lt_Some in Hr; lia|].
  destruct (Hallp k revision Hrev) as (y' & t1 & t1' & _ & Hp). unfold plan_profile in Hp. apply bind_Ok in Hp as (ts & _ & Hp).
  apply bind_Ok in Hp as ([[[r' mat'] disp'] g3] & Hs & _). cbn [Nat.add] in Hs. rewrite Hr in Hs.
  apply bind_Ok in Hs as (target & Ht & Hs). apply ok_or_Ok in Ht. apply bind_Ok in Hs as ([] & Hv & Hs).
  apply bind_Ok in Hs as ([] & Hdig & _). apply check_Ok, bool_decide_eq_true in Hdig.
  exists revision, target. rewrite Es. eauto.
Qed.

Lemma plan_kept_profile {generator_laws : IdentityGeneratorLaws} m source g p g' input k r :
  manifest_ok (cm_source m) → manifest_consistent m → source_sound source →
  plan_catalog_application m (Some source) g = Ok (p, g') → input ∈ src_inputs source → i_profile_revisions input !! k = Some r →
  ∃ declared revision target, declared ∈ ms_inputs (cm_source m) ∧ mi_name declared = i_name input ∧
    mi_ingestion_profile_revisions declared !! k = Some revision ∧ source_schema (plan_source p) (r_target_schema_id r) = Some target ∧
    (declares_profile target revision r ∨ documents_collide (stored_profile_declaration r target) (manifest_profile_declaration revision)).
Proof.
  intros Hok Hcon Hsound H Hin Hr. destruct (plan_stored_input _ _ _ _ _ _ Hsound H Hin) as (idx & declared & Hidx & Hn & Hall).
  destruct (Hall k r Hr) as (revision & target & path & Hrev & Ht & Hv & Hdig). exists declared, revision, target.
  split_and!; [by eapply list_elem_of_lookup_2 | done | done | done|].
  destruct (consistent_input m idx declared "" Hcon Hidx) as [_ Hdp].
  pose proof (sc_inputs _ Hsound) as Hs. rewrite Forall_forall in Hs. destruct (Hs _ Hin).
  rewrite Forall_forall in is_revisions. destruct (is_revisions r (list_elem_of_lookup_2 _ _ _ Hr)) as [[] _ _ _ _].
  assert (Hcur : ∀ s, Some source = Some s → source_sound s) by (by intros s [= <-]).
  pose proof (plan_effect_of _ _ _ _ _ Hok Hcon Hcur H) as He. pose proof (sc_schemas _ (pe_sound _ _ He)) as Hss. rewrite Forall_forall in Hss.
  apply find_Some in Ht as [Htin _]. destruct (Hss _ Htin) as [[users []] _ _ _ _].
  pose proof (mo_inputs _ Hok) as Hmi. rewrite Forall_forall in Hmi. destruct (Hmi declared (list_elem_of_lookup_2 _ _ _ Hidx)) as [_ Hmr _ _].
  rewrite Forall_forall in Hmr. destruct (Hmr revision (list_elem_of_lookup_2 _ _ _ Hrev)) as [[_ F1] [_ F2] (ms & Hms & _) _].
  apply find_Some in Hms as [Hms HF%Z.eqb_eq]. pose proof (mo_schemas _ Hok) as Hm. rewrite Forall_forall in Hm. destruct (Hm _ Hms) as [[_ F3] _ _]. rewrite HF in F3.
  eapply profile_kept; [done | apply po_maximum | done | done | done | exact F3 | exact Hv | by apply (Hdp k revision "") | done].
Qed.

(** C23: A manifest that is applied over a stored source declares what is stored exactly as
    it is stored: of each schema the version and the name, type, nullability, description
    and historical pointer of every data field; of each ingestion profile revision its
    number, target schema, limit, event time and mappings. The only exception is a stored
    and a declared definition whose own canonical documents have different texts and the
    same BLAKE3 digest. No property of the hash function is assumed. *)
Theorem kept_definitions_declared {generator_laws : IdentityGeneratorLaws} b m source g p g' :
  Manifest.decode b = Ok m → source_sound source → plan_catalog_application m (Some source) g = Ok (p, g') →
  (∀ k stored, src_schemas source !! k = Some stored → ∃ declared, ms_schemas (cm_source m) !! k = Some declared ∧
     ((s_version stored = mh_version declared ∧ Forall2 declares_field (mh_fields declared) (data_fields stored)) ∨
     documents_collide (stored_schema_declaration stored) (manifest_schema_declaration declared))) ∧
  (∀ input k r, input ∈ src_inputs source → i_profile_revisions input !! k = Some r →
     ∃ declared revision target, declared ∈ ms_inputs (cm_source m) ∧ mi_name declared = i_name input ∧
       mi_ingestion_profile_revisions declared !! k = Some revision ∧ source_schema (plan_source p) (r_target_schema_id r) = Some target ∧
       (declares_profile target revision r ∨ documents_collide (stored_profile_declaration r target) (manifest_profile_declaration revision))).
Proof.
  intros [Hok Hcon]%decode_ok Hsound H. split.
  - intros k stored. by eapply plan_kept_schema.
  - intros input k r. by eapply plan_kept_profile.
Qed.

End Declarations.
