(* ===== verification/CatalogApply.v ===== *)
(** * Catalog store: applying a manifest is durable

    After a manifest is applied, loading its source gives the planned source, the other
    sources are as they were, and the snapshot in memory is the one that loading the
    database would give. *)

From S2P Require Import Core ErrorCode CatalogTypes CatalogModel CatalogSource Bytes Frame Json Storage Database Canonical Manifest Application Stored ApplicationCorrect StoredCorrect ManifestCorrect CatalogStore CatalogLoad Declarations Prelude.
Import Schema.

#[local] Open Scope string_scope.
#[local] Open Scope list_scope.
#[local] Open Scope Z_scope.

#[local] Notation at_key m k := (@lookup Z _ _ _ k m).

(** PostgreSQL keeps a plain value in a JSONB column as it is, or rejects it. *)
Class CatalogPostgresLaws `{JsonText} `{!CatalogPostgres} : Prop :=
  jsonb_keeps v w : plain 127 v → jsonb v = Ok w → w = v.

(** ** Concatenated lists *)

Lemma fmap_concat {A B} (f : A → B) (ls : list (list A)) : f <$> concat ls = concat ((λ l : list A, f <$> l) <$> ls).
Proof. induction ls as [|l ls IH]; [done|]. cbn [concat]. by rewrite fmap_app, IH, fmap_cons. Qed.

Lemma NoDup_concat {A} (ls : list (list A)) :
  (∀ l, l ∈ ls → NoDup l) →
  (∀ i j li lj x, ls !! i = Some li → ls !! j = Some lj → x ∈ li → x ∈ lj → i = j) → NoDup (concat ls).
Proof.
  induction ls as [|l ls IH]; intros Hnd Hd; [constructor|]. cbn. apply NoDup_app. split_and!; [apply Hnd; set_solver | |].
  - intros x Hx Hc. apply list_elem_of_In, in_concat in Hc as (l' & Hl' & Hx'). apply list_elem_of_In in Hl', Hx'.
    apply list_elem_of_lookup in Hl' as [j Hj]. by specialize (Hd 0%nat (S j) l l' x eq_refl Hj Hx Hx').
  - apply IH; [set_solver|]. intros i j li lj x Hi Hj Hxi Hxj. by specialize (Hd (S i) (S j) li lj x Hi Hj Hxi Hxj) as [= ->].
Qed.

Lemma NoDup_concat_inv {A} (ls : list (list A)) i j li lj x :
  NoDup (concat ls) → ls !! i = Some li → ls !! j = Some lj → x ∈ li → x ∈ lj → i = j.
Proof.
  revert i j. induction ls as [|l ls IH]; intros i j Hnd Hi Hj Hxi Hxj; [done|]. cbn in Hnd. apply NoDup_app in Hnd as (_ & Hd & Hnd).
  assert (Hin : ∀ k lk, ls !! k = Some lk → x ∈ lk → x ∈ concat ls).
  { intros k lk Hk Hx. apply list_elem_of_In, in_concat. exists lk. split; apply list_elem_of_In; [by eapply list_elem_of_lookup_2 | done]. }
  destruct i as [|i], j as [|j]; cbn in Hi, Hj; [done | | | f_equal; by eapply IH].
  - injection Hi as ->. exfalso. eapply (Hd x); eauto.
  - injection Hj as ->. exfalso. eapply (Hd x); eauto.
Qed.

(** Pairs of the elements of two lists of lists of the same shape. *)
Definition zip_all {A B} (ls : list (list A)) (ks : list (list B)) : list (A * B) := concat (zip_with zip ls ks).

Lemma zip_all_fst {A B} (ls : list (list A)) (ks : list (list B)) :
  Forall2 (λ l k, length l = length k) ls ks → (zip_all ls ks).*1 = concat ls.
Proof.
  unfold zip_all. induction 1 as [|l k ls ks E Hf IH]; [done|]. cbn. rewrite fmap_app, IH. f_equal. apply fst_zip. lia.
Qed.

Lemma zip_all_snd {A B} (ls : list (list A)) (ks : list (list B)) :
  Forall2 (λ l k, length l = length k) ls ks → (zip_all ls ks).*2 = concat ks.
Proof.
  unfold zip_all. induction 1 as [|l k ls ks E Hf IH]; [done|]. cbn. rewrite fmap_app, IH. f_equal. apply snd_zip. lia.
Qed.

Lemma elem_of_zip_all {A B} (ls : list (list A)) (ks : list (list B)) a b :
  (a, b) ∈ zip_all ls ks ↔ ∃ i j l k, ls !! i = Some l ∧ ks !! i = Some k ∧ l !! j = Some a ∧ k !! j = Some b.
Proof.
  unfold zip_all. rewrite list_elem_of_In, in_concat. setoid_rewrite <- list_elem_of_In. split.
  - intros (x & Hx & Hab). apply list_elem_of_lookup in Hx as [i Hi]. apply lookup_zip_with_Some in Hi as (l & k & -> & Hl & Hk).
    apply list_elem_of_lookup in Hab as [j Hj]. apply lookup_zip_with_Some in Hj as (a' & b' & [= -> ->] & Ha & Hb). eauto 10.
  - intros (i & j & l & k & Hl & Hk & Ha & Hb). exists (zip l k). split.
    + eapply (list_elem_of_lookup_2 _ i). by apply lookup_zip_with_Some; eauto.
    + eapply (list_elem_of_lookup_2 _ j). apply lookup_zip_with_Some. eauto 10.
Qed.

Section Apply.
Context {env : SpoolEnv} {lib : JsonLib} {text : JsonText} {uuid : UuidText} {number_equality : NumberEq}.
Context {postgres : CatalogPostgres} {postgres_laws : CatalogPostgresLaws}.
Context {json_laws : JsonTextLaws} {uuid_laws : UuidTextLaws}.
Context {G : Type} {generator : CatalogIdentityGenerator G} {generator_laws : IdentityGeneratorLaws}.

(** ** Schemas *)

(** A planned schema and its definition, as [persist_schema] finds them. *)
Record schema_pair (source : Source) (schema : Schema) (d : PlannedSchemaDefinition) : Prop := {
  sr_id : ph_schema_id d = s_id schema;
  sr_found : source_schema source (s_id schema) = Some schema;
  sr_source : s_source_id schema = src_id source;
  sr_plain : plain 127 (sv_definition (schema_row schema));
  sr_read : json_from_str (doc_json (ph_materialized d)) = Some (sv_definition (schema_row schema));
}.

Lemma is_null_None {A} (o : option A) : is_null o = true ↔ o = None.
Proof. by destruct o. Qed.

Lemma persist_schema_step source schema d t t' :
  schema_pair source schema d → ph_disposition d = Create → persist_schema source t d = Ok t' →
  at_key (ct_schemas t) (s_id schema) = None ∧
  t' = {| ct_sources := ct_sources t; ct_schemas := <[(s_id schema : Z) := schema_row schema]> (ct_schemas t);
          ct_inputs := ct_inputs t; ct_profiles := ct_profiles t |}.
Proof.
  intros [Hid Hf Hsrc Hp Hr] Hc H. unfold persist_schema in H. rewrite Hc, Hid, Hf in H. cbn [ok_or] in H. rewrite bind_ret in H.
  unfold canonical_json_value in H. rewrite Hr in H. cbn [ok_or] in H. rewrite bind_ret in H. apply bind_Ok in H as (v & Hv & H).
  apply ok_or_Ok, narrow_Some in Hv as [-> _]. apply map_err_Ok in H. unfold insert_schema in H.
  apply bind_Ok in H as (w & Hw & H). apply (jsonb_keeps _ _ Hp) in Hw as ->. cbn [sv_schema_id sv_source_id sv_version] in H.
  apply bind_Ok in H as ([] & _ & H). apply bind_Ok in H as ([] & Hn & H). apply bind_Ok in H as ([] & _ & H).
  apply check_Ok, is_null_None in Hn. injection H as <-. split; [done|]. rewrite <- Hsrc. done.
Qed.

Lemma persist_schemas_spec source pairs : ∀ t t',
  Forall (λ x, schema_pair source x.1 x.2) pairs → try_fold (persist_schema source) t pairs.*2 = Ok t' →
  ct_sources t' = ct_sources t ∧ ct_inputs t' = ct_inputs t ∧ ct_profiles t' = ct_profiles t ∧
  ∀ (k : Z) row, ct_schemas t' !! k = Some row ↔ ct_schemas t !! k = Some row ∨
    ∃ schema d, (schema, d) ∈ pairs ∧ ph_disposition d = Create ∧ k = s_id schema ∧ row = schema_row schema.
Proof.
  induction pairs as [|[schema d] pairs IH]; intros t t' Hp H.
  { cbn in H. injection H as <-. split_and!; try done. intros k row. split; [by left|]. intros [?|(s & d & Hin & _)]; [done | set_solver]. }
  apply Forall_cons in Hp as [Hs Hp]. rewrite fmap_cons in H. cbn [try_fold snd] in H. apply bind_Ok in H as (t1 & H1 & H).
  destruct (IH _ _ Hp H) as (E1 & E2 & E3 & Hk). cbn [fst snd] in *. destruct (ph_disposition d) eqn:Hc.
  - unfold persist_schema in H1. rewrite Hc in H1. injection H1 as <-. split_and!; [done..|]. intros k row. rewrite Hk.
    split; [intros [?|(s & d' & Hin & ?)]; [by left | right; exists s, d'; set_solver]|].
    intros [?|(s & d' & Hin & Hd' & ?)]; [by left|]. apply elem_of_cons in Hin as [[= -> ->]|Hin]; [congruence | right; eauto 10].
  - destruct (persist_schema_step _ _ _ _ _ Hs Hc H1) as [Hn ->]. cbn in *. split_and!; [done..|]. intros k row. rewrite Hk, lookup_insert_Some.
    split.
    + intros [[[<- <-]|[_ ?]]|(s & d' & Hin & ?)]; [right; exists schema, d; set_solver | by left | right; exists s, d'; set_solver].
    + intros [Hr|(s & d' & Hin & Hd' & Ek & Er)].
      * left. right. split; [|done]. intros E. rewrite E in Hn. congruence.
      * apply elem_of_cons in Hin as [[= -> ->]|Hin]; [by left; left | right; eauto 10].
Qed.

(** ** Inputs *)

Record input_pair (source : Source) (current : option Source) (t : CatalogTables) (input : Input) (d : PlannedInputDefinition) : Prop := {
  ir_id : pi_input_id d = i_id input;
  ir_found : source_input source (i_id input) = Some input;
  ir_source : i_source_id input = src_id source;
  ir_stored : pi_disposition d = Existing → ∃ stored, (current ≫= λ s, source_input s (i_id input)) = Some stored ∧
    input_extended stored input ∧ at_key (ct_inputs t) (i_id input) = Some (input_row stored);
}.

Lemma persist_input_step source current input d t t' :
  input_pair source current t input d → persist_input source current t d = Ok t' →
  (pi_disposition d = Create → at_key (ct_inputs t) (i_id input) = None) ∧
  ct_sources t' = ct_sources t ∧ ct_schemas t' = ct_schemas t ∧ ct_profiles t' = ct_profiles t ∧
  ∀ k, ct_inputs t' !! k = <[(i_id input : Z) := input_row input]> (ct_inputs t) !! k.
Proof.
  intros [Hid Hf Hsrc Hst] H. unfold persist_input in H. rewrite Hid, Hf in H. cbn [ok_or] in H. rewrite bind_ret in H.
  destruct (pi_disposition d) eqn:Hd.
  - destruct (Hst eq_refl) as (stored & Hcur & [] & Hrow).
    unfold input_active_pointer_changed in H. rewrite Hcur in H.
    assert (Erow : ∀ a, a = active_profile_revision_id input →
      {| in_input_id := i_id stored; in_source_id := i_source_id stored; in_name := i_name stored; in_active_profile_revision_id := a |} = input_row input).
    { intros a ->. unfold input_row. by rewrite ie_id, ie_source, ie_name. }
    destruct (Z.eqb_spec (active_profile_revision_id stored) (active_profile_revision_id input)) as [E|E]; cbn [negb] in H.
    + injection H as <-. split_and!; try done. intros k.
      destruct (decide (k = i_id input)) as [->|Hne]; [|by rewrite lookup_insert_ne]. rewrite lookup_insert_eq, Hrow. f_equal. by apply Erow.
    + unfold update_input in H. rewrite Hrow in H. unfold require_one_row in H. cbn in H. injection H as <-. split_and!; try done.
      intros k. cbn. by rewrite Erow.
  - apply map_err_Ok in H. unfold insert_input in H. inv_ok. apply is_null_None in Hok0. cbn in *. split_and!; try done. intros k. by rewrite <- Hsrc.
Qed.

Lemma persist_inputs_spec source current pairs : ∀ t t',
  NoDup (i_id <$> pairs.*1) → Forall (λ x, input_pair source current t x.1 x.2) pairs →
  try_fold (persist_input source current) t pairs.*2 = Ok t' →
  ct_sources t' = ct_sources t ∧ ct_schemas t' = ct_schemas t ∧ ct_profiles t' = ct_profiles t ∧
  (∀ input d, (input, d) ∈ pairs → pi_disposition d = Create → at_key (ct_inputs t) (i_id input) = None) ∧
  ∀ (k : Z) row, ct_inputs t' !! k = Some row ↔
    (∃ input, input ∈ pairs.*1 ∧ k = i_id input ∧ row = input_row input) ∨
    (ct_inputs t !! k = Some row ∧ ∀ input, input ∈ pairs.*1 → k ≠ i_id input).
Proof.
  induction pairs as [|[input d] pairs IH]; intros t t' Hnd Hp H.
  { cbn in H. injection H as <-. split_and!; try done; [set_solver|]. intros k row. split; [intros; right; set_solver|].
    intros [(i & Hi & _)|[? _]]; [set_solver | done]. }
  apply Forall_cons in Hp as [Hi Hp]. rewrite !fmap_cons in Hnd. apply NoDup_cons in Hnd as [Hni Hnd].
  rewrite fmap_cons in H. cbn [try_fold snd fst] in *. apply bind_Ok in H as (t1 & H1 & H).
  destruct (persist_input_step _ _ _ _ _ _ Hi H1) as (Hnew & E1 & E2 & E3 & Hk1).
  assert (Hother : ∀ x, x ∈ pairs → i_id x.1 ≠ i_id input).
  { intros x Hx E. apply Hni. rewrite <- E. apply list_elem_of_fmap_2. by apply (list_elem_of_fmap_2 fst). }
  destruct (IH t1 t' Hnd) as (F1 & F2 & F3 & Hc & Hk); [|done|].
  { rewrite Forall_forall in Hp |- *. intros x Hx. destruct (Hp x Hx) as [Ha Hb Hc Hd]. constructor; try done. intros He.
    destruct (Hd He) as (stored & ? & ? & Hr). exists stored. split_and!; [done | done|]. rewrite Hk1, lookup_insert_ne; [done|]. by apply not_eq_sym, Hother. }
  split_and!; [congruence.. | |].
  - intros i d' [[= -> ->]|Hin]%elem_of_cons Hd'; [by apply Hnew|]. specialize (Hc i d' Hin Hd').
    rewrite Hk1, lookup_insert_ne in Hc; [done|]. by apply not_eq_sym, (Hother (i, d')).
  - intros k row. rewrite Hk, Hk1, lookup_insert_Some, fmap_cons. cbn [fst]. setoid_rewrite elem_of_cons. split.
    + intros [(i & Hin & ->  & ->)|[[[<- <-]|[Hne Hr]] Hall]].
      * left. exists i. naive_solver.
      * left. exists input. naive_solver.
      * right. split; [done|]. intros i [->|Hin]; [by apply not_eq_sym | by apply Hall].
    + intros [(i & [->|Hin] & -> & ->)|[Hr Hall]].
      * right. split; [by left|]. intros j Hj. apply list_elem_of_fmap in Hj as (x & -> & Hx). by apply not_eq_sym, Hother.
      * left. eauto.
      * right. split; [right; split; [|done]; apply not_eq_sym, Hall; by left | intros j Hj; apply Hall; by right].
Qed.


(** ** Ingestion profiles *)

Definition revisions_of (source : Source) : list IngestionProfileRevision := concat (i_profile_revisions <$> src_inputs source).

(** A created profile receives an identity that no row has. *)
Lemma persist_profile_fresh source d t t' :
  pp_disposition d = Create → persist_profile source t d = Ok t' →
  at_key (ct_profiles t) (pp_ingestion_profile_revision_id d) = None ∧
  is_Some (at_key (ct_profiles t') (pp_ingestion_profile_revision_id d)) ∧
  ∀ k : Z, is_Some (ct_profiles t !! k) → is_Some (ct_profiles t' !! k).
Proof.
  intros Hc H. unfold persist_profile in H. rewrite Hc in H. apply bind_Ok in H as (r & Hr & H). apply ok_or_Ok, find_Some in Hr as [_ Er%Z.eqb_eq].
  apply bind_Ok in H as (v & _ & H). apply bind_Ok in H as (number & _ & H). apply map_err_Ok in H. unfold insert_profile in H.
  apply bind_Ok in H as (w & _ & H). cbn [pr_profile_revision_id pr_input_id pr_source_id pr_revision pr_target_schema_id] in H.
  apply bind_Ok in H as ([] & _ & H). apply bind_Ok in H as ([] & Hn & H). apply bind_Ok in H as ([] & _ & H). injection H as <-.
  apply check_Ok, is_null_None in Hn. rewrite <- Er. cbn. split_and!; [done | by rewrite lookup_insert_eq|].
  intros k Hk. destruct (decide (k = r_id r)) as [->|Hne]; [by rewrite lookup_insert_eq | by rewrite lookup_insert_ne].
Qed.

Lemma persist_profile_existing source d t t' : pp_disposition d = Existing → persist_profile source t d = Ok t' → t' = t.
Proof. intros He H. unfold persist_profile in H. rewrite He in H. by injection H. Qed.

(** The identities of created profiles among definitions. *)
Definition created_ids (ds : list PlannedIngestionProfileDefinition) : list Z :=
  pp_ingestion_profile_revision_id <$> filter (λ d, pp_disposition d = Create) ds.

Lemma persist_profiles_fresh source ds : ∀ t t',
  try_fold (persist_profile source) t ds = Ok t' →
  NoDup (created_ids ds) ∧ ∀ id, id ∈ created_ids ds → ct_profiles t !! id = None.
Proof.
  unfold created_ids. induction ds as [|d ds IH]; intros t t' H; [split; [constructor | set_solver]|]. cbn [try_fold] in H.
  apply bind_Ok in H as (t1 & H1 & H). destruct (IH _ _ H) as [Hnd Hfresh]. rewrite filter_cons. case_decide as Hd.
  - destruct (persist_profile_fresh _ _ _ _ Hd H1) as (Hn & Hs & Hmono). rewrite fmap_cons. split.
    + apply NoDup_cons. split; [|done]. intros Hin. apply Hfresh in Hin. rewrite Hin in Hs. by destruct Hs.
    + intros id [->|Hin]%elem_of_cons; [done|]. apply Hfresh in Hin. destruct (ct_profiles t !! id) eqn:E; [|done].
      destruct (Hmono id (ex_intro _ _ E)) as [? E']. congruence.
  - assert (He : pp_disposition d = Existing) by (destruct (pp_disposition d); [done | by destruct Hd]).
    apply (persist_profile_existing _ _ _ _ He) in H1 as ->. done.
Qed.

Record profile_pair (source : Source) (r : IngestionProfileRevision) (d : PlannedIngestionProfileDefinition) : Prop := {
  pr_id : pp_ingestion_profile_revision_id d = r_id r;
  pr_found : find (λ x, r_id x =? r_id r) (revisions_of source) = Some r;
  pr_plain : plain 127 (pr_definition (profile_row (src_id source) r));
  pr_read : json_from_str (doc_json (pp_materialized d)) = Some (pr_definition (profile_row (src_id source) r));
}.

Lemma persist_profile_step source r d t t' :
  profile_pair source r d → pp_disposition d = Create → persist_profile source t d = Ok t' →
  at_key (ct_profiles t) (r_id r) = None ∧
  t' = {| ct_sources := ct_sources t; ct_schemas := ct_schemas t; ct_inputs := ct_inputs t;
          ct_profiles := <[(r_id r : Z) := profile_row (src_id source) r]> (ct_profiles t) |}.
Proof.
  intros [Hid Hf Hp Hr] Hc H. unfold persist_profile in H. rewrite Hc, Hid in H. fold (revisions_of source) in H. rewrite Hf in H.
  cbn [ok_or] in H. rewrite bind_ret in H. unfold canonical_json_value in H. rewrite Hr in H. cbn [ok_or] in H. rewrite bind_ret in H.
  apply bind_Ok in H as (v & Hv & H). apply ok_or_Ok, narrow_Some in Hv as [-> _]. apply map_err_Ok in H. unfold insert_profile in H.
  apply bind_Ok in H as (w & Hw & H). apply (jsonb_keeps _ _ Hp) in Hw as ->.
  cbn [pr_profile_revision_id pr_input_id pr_source_id pr_revision pr_target_schema_id] in H.
  apply bind_Ok in H as ([] & _ & H). apply bind_Ok in H as ([] & Hn & H). apply bind_Ok in H as ([] & _ & H). injection H as <-.
  by apply check_Ok, is_null_None in Hn.
Qed.

Lemma persist_profiles_spec source pairs : ∀ t t',
  Forall (λ x, profile_pair source x.1 x.2) pairs → try_fold (persist_profile source) t pairs.*2 = Ok t' →
  ct_sources t' = ct_sources t ∧ ct_schemas t' = ct_schemas t ∧ ct_inputs t' = ct_inputs t ∧
  ∀ (k : Z) row, ct_profiles t' !! k = Some row ↔ ct_profiles t !! k = Some row ∨
    ∃ r d, (r, d) ∈ pairs ∧ pp_disposition d = Create ∧ k = r_id r ∧ row = profile_row (src_id source) r.
Proof.
  induction pairs as [|[r d] pairs IH]; intros t t' Hp H.
  { cbn in H. injection H as <-. split_and!; try done. intros k row. split; [by left|]. intros [?|(s & d & Hin & _)]; [done | set_solver]. }
  apply Forall_cons in Hp as [Hs Hp]. rewrite fmap_cons in H. cbn [try_fold snd] in H. apply bind_Ok in H as (t1 & H1 & H).
  destruct (IH _ _ Hp H) as (E1 & E2 & E3 & Hk). cbn [fst snd] in *. destruct (pp_disposition d) eqn:Hc.
  - rewrite (persist_profile_existing _ _ _ _ Hc H1) in *. split_and!; [done..|]. intros k row. rewrite Hk.
    split; [intros [?|(s & d' & Hin & ?)]; [by left | right; exists s, d'; set_solver]|].
    intros [?|(s & d' & Hin & Hd' & ?)]; [by left|]. apply elem_of_cons in Hin as [[= -> ->]|Hin]; [congruence | right; eauto 10].
  - destruct (persist_profile_step _ _ _ _ _ Hs Hc H1) as [Hn ->]. cbn in *. split_and!; [done..|]. intros k row. rewrite Hk, lookup_insert_Some.
    split.
    + intros [[[<- <-]|[_ ?]]|(s & d' & Hin & ?)]; [right; exists r, d; set_solver | by left | right; exists s, d'; set_solver].
    + intros [Hr|(s & d' & Hin & Hd' & Ek & Er)].
      * left. right. split; [|done]. intros E. rewrite E in Hn. congruence.
      * apply elem_of_cons in Hin as [[= -> ->]|Hin]; [by left; left | right; eauto 10].
Qed.

(** ** The source *)

Lemma persist_source_spec current p t t' :
  catalog_inv t → source_disposition current p → is_valid_name (src_name (plan_source p)) = true →
  (∀ s, current = Some s → represents t s) → (current = None → ∀ (k : Z) row, ct_sources t !! k = Some row → so_name row ≠ src_name (plan_source p)) →
  persist_source p t = Ok t' →
  ct_schemas t' = ct_schemas t ∧ ct_inputs t' = ct_inputs t ∧ ct_profiles t' = ct_profiles t ∧
  (current = None → at_key (ct_sources t) (src_id (plan_source p)) = None) ∧
  ∀ k : Z, ct_sources t' !! k = <[(src_id (plan_source p) : Z) := source_row (plan_source p)]> (ct_sources t) !! k.
Proof.
  intros Hinv Hd Hname Hcur Hnone H. unfold persist_source in H. unfold source_disposition in Hd. destruct current as [s|].
  - destruct Hd as (Hd & Eid & En & Hun). rewrite Hd in H. pose proof (rp_source _ _ (Hcur s eq_refl)) as Hrow. rewrite Eid in Hrow.
    case_bool_decide as Ho.
    + injection H as <-. destruct (Hun Ho) as [E1 E2]. split_and!; try done. intros k.
      destruct (decide (k = src_id (plan_source p))) as [->|Hne]; [|by rewrite lookup_insert_ne]. rewrite lookup_insert_eq, Hrow. f_equal.
      unfold source_row. by rewrite Eid, En, E1, E2.
    + unfold update_source in H. rewrite Hrow in H. unfold require_one_row in H. cbn in H. injection H as <-. split_and!; try done.
      intros k. cbn. unfold source_row. by rewrite Eid, En.
  - rewrite Hd in H. apply map_err_Ok in H. unfold insert_source in H. apply bind_Ok in H as ([] & _ & H). apply bind_Ok in H as ([] & Hn & H).
    apply bind_Ok in H as ([] & _ & H). injection H as <-. apply check_Ok, is_null_None in Hn. done.
Qed.


(** ** Plans *)

(** What persisting starts from. *)
Record persist_context (t : CatalogTables) (current : option Source) (p : CatalogApplicationPlan) : Prop := {
  px_inv : catalog_inv t;
  px_effect : plan_effect current p;
  px_current : ∀ s, current = Some s → represents t s;
  px_absent : current = None → ∀ (k : Z) row, ct_sources t !! k = Some row → so_name row ≠ src_name (plan_source p);
}.

Section Plan.
Context (t : CatalogTables) (current : option Source) (p : CatalogApplicationPlan).
Context (context : persist_context t current p).
#[local] Notation source := (plan_source p).

Lemma planned_wf : Source_wf source.
Proof. apply sound_wf, context. Qed.

Lemma schema_pairs : Forall (λ x, schema_pair source x.1 x.2) (zip (src_schemas source) (plan_schema_definitions p)).
Proof.
  destruct context as [_ He _ _]. apply Forall_forall. intros [schema d] Hin. apply list_elem_of_lookup in Hin as [k Hk].
  apply lookup_zip_with_Some in Hk as (? & ? & [= <- <-] & Hs & Hd). cbn.
  destruct (pe_schemas _ _ He k schema d Hs Hd) as (_ & Hid & path & Hm). apply list_elem_of_lookup_2 in Hs.
  pose proof (sc_schemas _ (pe_sound _ _ He)) as Hsound. rewrite Forall_forall in Hsound. destruct (Hsound _ Hs) as [[users Hok] _ _ _ _].
  pose proof (schema_ok_plain _ _ Hok) as Hplain. constructor; try done.
  - apply (find_unique s_id); [apply planned_wf | done |]. intros y _. apply Z.eqb_eq.
  - pose proof (swf_owned _ planned_wf) as Ho. rewrite Forall_forall in Ho. by apply Ho.
  - by eapply document_read.
Qed.

Lemma input_pairs t' :
  ct_inputs t' = ct_inputs t →
  Forall (λ x, input_pair source current t' x.1 x.2) (zip (src_inputs source) (plan_input_definitions p)).
Proof.
  intros Et. destruct context as [_ He Hcur _]. apply Forall_forall. intros [input d] Hin. apply list_elem_of_lookup in Hin as [k Hk].
  apply lookup_zip_with_Some in Hk as (? & ? & [= <- <-] & Hs & Hd). cbn.
  destruct (pe_inputs _ _ He k input d Hs Hd) as (Hdisp & Hid). apply list_elem_of_lookup_2 in Hs. constructor; try done.
  - apply (find_unique i_id); [apply planned_wf | done |]. intros y _. apply Z.eqb_eq.
  - pose proof (swf_inputs_owned _ planned_wf) as Ho. rewrite Forall_forall in Ho. by apply Ho.
  - intros Hex. destruct Hdisp as [[_ (stored & Hst & _ & Hext)]|[Hc _]]; [|congruence].
    destruct current as [s|] eqn:Ec; cbn in Hst; [|set_solver]. exists stored. split_and!; [| done |].
    + cbn. apply (find_unique i_id); [apply sound_wf, (Hcur s eq_refl) | done |]. intros y _. rewrite Z.eqb_eq, (ie_id _ _ Hext). done.
    + rewrite Et. apply (rp_inputs _ _ (Hcur s eq_refl)). exists stored. by rewrite (ie_id _ _ Hext).
Qed.

Lemma revision_owner input r : input ∈ src_inputs source → r ∈ i_profile_revisions input → r_input_id r = i_id input.
Proof.
  intros Hi Hr. destruct context as [_ He _ _]. pose proof (sc_inputs _ (pe_sound _ _ He)) as Hs. rewrite Forall_forall in Hs.
  destruct (Input_new_wf _ _ _ _ _ _ _ _ (is_built _ _ (Hs _ Hi))) as (Ho & _). rewrite Forall_forall in Ho. by apply Ho.
Qed.

(** A stored revision that is kept has its row. *)
Lemma stored_revision_row input k r :
  stored_revisions (input_by_name (current_inputs current) (i_name input)) !! k = Some r →
  at_key (ct_profiles t) (r_id r) = Some (profile_row (src_id source) r).
Proof.
  intros Hr. destruct context as [_ He Hcur _]. destruct (input_by_name (current_inputs current) (i_name input)) as [stored|] eqn:E; cbn in Hr; [|done].
  apply input_by_name_Some in E as [Hst _]. destruct current as [s|]; cbn in Hst; [|set_solver].
  pose proof (pe_source _ _ He) as (_ & Eid & _). rewrite <- Eid.
  apply (rp_profiles _ _ (Hcur s eq_refl)). exists stored, r. split_and!; try done. by eapply list_elem_of_lookup_2.
Qed.

Lemma revision_ids_distinct dss t1 t2 :
  ct_profiles t1 = ct_profiles t → try_fold (persist_profile source) t1 (concat dss) = Ok t2 →
  length dss = length (src_inputs source) →
  (∀ j input ds, src_inputs source !! j = Some input → dss !! j = Some ds → length ds = length (i_profile_revisions input) ∧
     ∀ k r d, i_profile_revisions input !! k = Some r → ds !! k = Some d →
       profile_disposition (stored_revisions (input_by_name (current_inputs current) (i_name input))) k r d ∧
       pp_ingestion_profile_revision_id d = r_id r) →
  NoDup (r_id <$> revisions_of source).
Proof.
  intros Et Hfold Hlen Hall. destruct (persist_profiles_fresh _ _ _ _ Hfold) as [Hnd Hfresh]. rewrite Et in Hfresh.
  assert (Hcr : created_ids (concat dss) = concat (created_ids <$> dss)).
  { clear. unfold created_ids. induction dss as [|ds dss IH]; [done|]. cbn [concat]. by rewrite filter_app, fmap_app, IH, fmap_cons. }
  unfold revisions_of. rewrite fmap_concat. apply NoDup_concat.
  - intros l Hl. rewrite <- list_fmap_compose in Hl. apply list_elem_of_fmap in Hl as (input & -> & Hin).
    pose proof (sc_inputs _ (pe_sound _ _ (px_effect _ _ _ context))) as Hs. rewrite Forall_forall in Hs.
    by destruct (Input_new_wf _ _ _ _ _ _ _ _ (is_built _ _ (Hs _ Hin))) as (_ & _ & ? & _).
  - intros i j li lj x Hi Hj Hxi Hxj. rewrite <- list_fmap_compose in Hi, Hj.
    apply list_lookup_fmap_Some in Hi as (a & -> & Ha), Hj as (b & -> & Hb). cbn in Hxi, Hxj.
    apply list_elem_of_fmap in Hxi as (ra & -> & Hra), Hxj as (rb & Eab & Hrb).
    pose proof (revision_owner a ra (list_elem_of_lookup_2 _ _ _ Ha) Hra) as Oa.
    pose proof (revision_owner b rb (list_elem_of_lookup_2 _ _ _ Hb) Hrb) as Ob.
    apply list_elem_of_lookup in Hra as [ka Hka], Hrb as [kb Hkb].
    destruct (lookup_lt_is_Some_2 dss i) as [dsa Hdsa]; [rewrite Hlen; by eapply lookup_lt_Some|].
    destruct (lookup_lt_is_Some_2 dss j) as [dsb Hdsb]; [rewrite Hlen; by eapply lookup_lt_Some|].
    destruct (Hall _ _ _ Ha Hdsa) as [La Pa]. destruct (Hall _ _ _ Hb Hdsb) as [Lb Pb].
    destruct (lookup_lt_is_Some_2 dsa ka) as [da Hda]; [rewrite La; by eapply lookup_lt_Some|].
    destruct (lookup_lt_is_Some_2 dsb kb) as [db Hdb]; [rewrite Lb; by eapply lookup_lt_Some|].
    destruct (Pa _ _ _ Hka Hda) as [Da Ia]. destruct (Pb _ _ _ Hkb Hdb) as [Db Ib].
    assert (Hcreated : ∀ n ds k d, dss !! n = Some ds → ds !! k = Some d → pp_disposition d = Create →
      (pp_ingestion_profile_revision_id d : Z) ∈ created_ids ds ∧ (pp_ingestion_profile_revision_id d : Z) ∈ created_ids (concat dss)).
    { intros n ds k d Hn Hk Hd. assert (Hin : (pp_ingestion_profile_revision_id d : Z) ∈ created_ids ds).
      { apply list_elem_of_fmap_2, list_elem_of_filter. split; [done|]. by eapply list_elem_of_lookup_2. }
      split; [done|]. rewrite Hcr. apply list_elem_of_In, in_concat. exists (created_ids ds). split; apply list_elem_of_In; [|done].
      apply list_elem_of_fmap_2. by eapply list_elem_of_lookup_2. }
    destruct Da as [[Da Sa]|[Da Sa]], Db as [[Db Sb]|[Db Sb]].
    + apply stored_revision_row in Sa, Sb. rewrite Eab in Sa. rewrite Sa in Sb. injection Sb as E. pose proof (swf_input_ids _ planned_wf) as Hii.
      eapply (NoDup_lookup _ i j (i_id a) Hii); apply list_lookup_fmap_Some; [eauto|]. exists b. split; [|done]. by rewrite <- Oa, <- Ob.
    + apply stored_revision_row in Sa. destruct (Hcreated _ _ _ _ Hdsb Hdb Db) as [_ Hin]. apply Hfresh in Hin. rewrite Ib, <- Eab in Hin. congruence.
    + apply stored_revision_row in Sb. destruct (Hcreated _ _ _ _ Hdsa Hda Da) as [_ Hin]. apply Hfresh in Hin. rewrite Ia, Eab in Hin. congruence.
    + destruct (Hcreated _ _ _ _ Hdsa Hda Da) as [Hina _]. destruct (Hcreated _ _ _ _ Hdsb Hdb Db) as [Hinb _]. rewrite Hcr in Hnd.
      rewrite Ib, <- Eab, <- Ia in Hinb.
      eapply (NoDup_concat_inv (created_ids <$> dss) i j); [exact Hnd | | | exact Hina | exact Hinb]; rewrite list_lookup_fmap;
        [by rewrite Hdsa | by rewrite Hdsb].
Qed.


(** The tables after the plan is persisted: the row of the source is replaced, and rows are
    added for what is created. *)
Record persisted (t' : CatalogTables) : Prop := {
  pd_sources : ∀ k : Z, ct_sources t' !! k = <[(src_id source : Z) := source_row source]> (ct_sources t) !! k;
  pd_absent : current = None → at_key (ct_sources t) (src_id source) = None;
  pd_schemas : ∀ (k : Z) row, ct_schemas t' !! k = Some row ↔ ct_schemas t !! k = Some row ∨
    ∃ schema, schema ∈ src_schemas source ∧ k = s_id schema ∧ row = schema_row schema;
  pd_inputs : ∀ (k : Z) row, ct_inputs t' !! k = Some row ↔
    (∃ input, input ∈ src_inputs source ∧ k = i_id input ∧ row = input_row input) ∨
    (ct_inputs t !! k = Some row ∧ ∀ input, input ∈ src_inputs source → k ≠ i_id input);
  pd_input_owner : ∀ input row, input ∈ src_inputs source → at_key (ct_inputs t) (i_id input) = Some row → in_source_id row = src_id source;
  pd_profiles : ∀ (k : Z) row, ct_profiles t' !! k = Some row ↔ ct_profiles t !! k = Some row ∨
    ∃ input r, input ∈ src_inputs source ∧ r ∈ i_profile_revisions input ∧ k = r_id r ∧ row = profile_row (src_id source) r;
}.

Lemma zip_lookup {A B} (l : list A) (k : list B) i a :
  length k = length l → l !! i = Some a → ∃ b, k !! i = Some b ∧ (a, b) ∈ zip l k.
Proof.
  intros Hlen Ha. destruct (lookup_lt_is_Some_2 k i) as [b Hb]; [rewrite Hlen; by eapply lookup_lt_Some|]. exists b. split; [done|].
  eapply (list_elem_of_lookup_2 _ i), lookup_zip_with_Some. eauto.
Qed.

Lemma zip_lookup_inv {A B} (l : list A) (k : list B) a b : (a, b) ∈ zip l k → ∃ i, l !! i = Some a ∧ k !! i = Some b.
Proof. intros [i Hi]%list_elem_of_lookup. apply lookup_zip_with_Some in Hi as (? & ? & [= <- <-] & ? & ?). eauto. Qed.

(** A planned schema is stored already or its row is added. *)
Lemma schemas_persisted t1 t2 :
  ct_schemas t1 = ct_schemas t → try_fold (persist_schema source) t1 (plan_schema_definitions p) = Ok t2 →
  (ct_sources t2 = ct_sources t1 ∧ ct_inputs t2 = ct_inputs t1 ∧ ct_profiles t2 = ct_profiles t1) ∧
  ∀ (k : Z) row, ct_schemas t2 !! k = Some row ↔ ct_schemas t !! k = Some row ∨
    ∃ schema, schema ∈ src_schemas source ∧ k = s_id schema ∧ row = schema_row schema.
Proof.
  intros Et H. pose proof context as [_ He Hcur _]. pose proof (pe_schema_count _ _ He) as Hlen.
  rewrite <- (snd_zip (src_schemas source) (plan_schema_definitions p)) in H by lia.
  destruct (persist_schemas_spec _ _ _ _ schema_pairs H) as (E1 & E2 & E3 & Hk). split; [done|].
  intros k row. rewrite Hk, Et. split.
  - intros [Hr|(schema & d & Hin & _ & -> & ->)]; [by left|]. right. apply zip_lookup_inv in Hin as (i & Hi & _).
    exists schema. split; [by eapply list_elem_of_lookup_2 | done].
  - intros [Hr|(schema & Hs & -> & ->)]; [by left|]. apply list_elem_of_lookup in Hs as [i Hi].
    destruct (zip_lookup _ _ _ _ Hlen Hi) as (d & Hd & Hin).
    destruct (pe_schemas _ _ He _ _ _ Hi Hd) as ([[_ Hst]|[Hc _]] & _); [|right; eauto 10]. left.
    destruct current as [s|]; cbn in Hst; [|done]. apply (rp_schemas _ _ (Hcur s eq_refl)). exists schema.
    split; [by eapply list_elem_of_lookup_2 | done].
Qed.

Lemma inputs_persisted t1 t2 :
  ct_inputs t1 = ct_inputs t → try_fold (persist_input source current) t1 (plan_input_definitions p) = Ok t2 →
  (ct_sources t2 = ct_sources t1 ∧ ct_schemas t2 = ct_schemas t1 ∧ ct_profiles t2 = ct_profiles t1) ∧
  (∀ (k : Z) row, ct_inputs t2 !! k = Some row ↔
    (∃ input, input ∈ src_inputs source ∧ k = i_id input ∧ row = input_row input) ∨
    (ct_inputs t !! k = Some row ∧ ∀ input, input ∈ src_inputs source → k ≠ i_id input)) ∧
  ∀ input row, input ∈ src_inputs source → at_key (ct_inputs t) (i_id input) = Some row → in_source_id row = src_id source.
Proof.
  intros Et H. pose proof context as [_ He _ _]. pose proof (pe_input_count _ _ He) as Hlen.
  assert (Hf : (zip (src_inputs source) (plan_input_definitions p)).*1 = src_inputs source) by (apply fst_zip; lia).
  rewrite <- (snd_zip (src_inputs source) (plan_input_definitions p)) in H by lia.
  destruct (persist_inputs_spec _ _ _ _ _ ltac:(rewrite Hf; apply planned_wf) (input_pairs _ Et) H) as (E1 & E2 & E3 & Hc & Hk).
  rewrite Hf, Et in Hk. rewrite Et in Hc. split_and!; [done.. | done |].
  intros input row Hin Hrow. apply list_elem_of_lookup in Hin as [i Hi]. destruct (zip_lookup _ _ _ _ Hlen Hi) as (d & Hd & Hz).
  pose proof (input_pairs _ Et) as Hp. rewrite Forall_forall in Hp. specialize (Hp _ Hz). cbn [fst snd] in Hp.
  destruct (pi_disposition d) eqn:Hdd; [|by rewrite (Hc _ _ Hz Hdd) in Hrow].
  destruct (ir_stored _ _ _ _ _ Hp Hdd) as (stored & _ & Hext & Hr). rewrite Et in Hr. rewrite Hr in Hrow. injection Hrow as <-. cbn.
  rewrite <- (ie_source _ _ Hext). apply Hp.
Qed.

Lemma profiles_persisted t1 t2 :
  ct_profiles t1 = ct_profiles t → try_fold (persist_profile source) t1 (plan_ingestion_profile_definitions p) = Ok t2 →
  (ct_sources t2 = ct_sources t1 ∧ ct_schemas t2 = ct_schemas t1 ∧ ct_inputs t2 = ct_inputs t1) ∧
  ∀ (k : Z) row, ct_profiles t2 !! k = Some row ↔ ct_profiles t !! k = Some row ∨
    ∃ input r, input ∈ src_inputs source ∧ r ∈ i_profile_revisions input ∧ k = r_id r ∧ row = profile_row (src_id source) r.
Proof.
  intros Et H. pose proof context as [_ He _ _]. destruct (pe_profiles _ _ He) as (dss & Edss & Hlen & Hall). rewrite Edss in H.
  assert (Hnd : NoDup (r_id <$> revisions_of source)).
  { eapply revision_ids_distinct; [exact Et | exact H | done|]. intros j input ds Hj Hds. destruct (Hall _ _ _ Hj Hds) as [Hl Hk]. split; [done|].
    intros k r d Hr Hd. by destruct (Hk _ _ _ Hr Hd) as (? & ? & _). }
  assert (Hshape : Forall2 (λ l k, length l = length k) (i_profile_revisions <$> src_inputs source) dss).
  { apply Forall2_same_length_lookup_2; [by rewrite length_fmap|]. intros j l ds Hl Hds. apply list_lookup_fmap_Some in Hl as (input & -> & Hj).
    by destruct (Hall _ _ _ Hj Hds) as [-> _]. }
  assert (Hpairs : ∀ r d, (r, d) ∈ zip_all (i_profile_revisions <$> src_inputs source) dss → ∃ j k input ds,
    src_inputs source !! j = Some input ∧ dss !! j = Some ds ∧ i_profile_revisions input !! k = Some r ∧ ds !! k = Some d).
  { intros r d (j & k & l & ds & Hl & Hds & Hr & Hd)%elem_of_zip_all. apply list_lookup_fmap_Some in Hl as (input & -> & Hj). eauto 10. }
  assert (Hp : Forall (λ x, profile_pair source x.1 x.2) (zip_all (i_profile_revisions <$> src_inputs source) dss)).
  { apply Forall_forall. intros [r d] Hin. destruct (Hpairs _ _ Hin) as (j & k & input & ds & Hj & Hds & Hr & Hd). cbn [fst snd].
    destruct (Hall _ _ _ Hj Hds) as [_ Hk]. destruct (Hk _ _ _ Hr Hd) as (_ & Hid & path & Hm).
    apply list_elem_of_lookup_2 in Hj. apply list_elem_of_lookup_2 in Hr.
    pose proof (sc_inputs _ (pe_sound _ _ He)) as Hs. rewrite Forall_forall in Hs. destruct (Hs _ Hj).
    rewrite Forall_forall in is_revisions. destruct (is_revisions _ Hr) as [[] _ _ _ _].
    assert (Hplain : plain 127 (pr_definition (profile_row (src_id source) r))) by (apply plain_profile_materialized; [done | apply po_maximum]).
    constructor; try done; [|by eapply document_read].
    apply (find_unique r_id); [done | | intros y _; apply Z.eqb_eq].
    apply list_elem_of_In, in_concat. exists (i_profile_revisions input). split; apply list_elem_of_In; [by apply list_elem_of_fmap_2 | done]. }
  rewrite <- (zip_all_snd _ _ Hshape) in H. destruct (persist_profiles_spec _ _ _ _ Hp H) as (E1 & E2 & E3 & Hk). split; [done|].
  intros k row. rewrite Hk, Et. split.
  - intros [Hr|(r & d & Hin & _ & -> & ->)]; [by left|]. right. destruct (Hpairs _ _ Hin) as (j & k & input & ds & Hj & Hds & Hr & Hd).
    exists input, r. split_and!; try done; by eapply list_elem_of_lookup_2.
  - intros [Hr|(input & r & Hi & Hr & -> & ->)]; [by left|]. apply list_elem_of_lookup in Hi as [j Hj], Hr as [k Hr].
    destruct (lookup_lt_is_Some_2 dss j) as [ds Hds]; [rewrite Hlen; by eapply lookup_lt_Some|]. destruct (Hall _ _ _ Hj Hds) as [Hl Hkk].
    destruct (lookup_lt_is_Some_2 ds k) as [d Hd]; [rewrite Hl; by eapply lookup_lt_Some|].
    destruct (Hkk _ _ _ Hr Hd) as ([[_ Hst]|[Hc _]] & _).
    + left. by eapply stored_revision_row.
    + right. exists r, d. split_and!; try done. apply elem_of_zip_all. exists j, k, (i_profile_revisions input), ds. split_and!; try done.
      by rewrite list_lookup_fmap, Hj.
Qed.

Lemma persist_plan_persisted t' : persist_plan p current t = Ok t' → persisted t'.
Proof.
  intros H. unfold persist_plan in H. apply bind_Ok in H as (t1 & H1 & H). apply bind_Ok in H as (t2 & H2 & H).
  apply bind_Ok in H as (t3 & H3 & H). pose proof context as [Hinv He Hcur Habs].
  destruct (persist_source_spec _ _ _ _ Hinv (pe_source _ _ He) (sc_name _ (pe_sound _ _ He)) Hcur Habs H1) as (A1 & A2 & A3 & A4 & A5).
  destruct (schemas_persisted _ _ A1 H2) as [(B1 & B2 & B3) B4].
  destruct (inputs_persisted _ _ (eq_trans B2 A2) H3) as ((C1 & C2 & C3) & C4 & C5).
  destruct (profiles_persisted _ _ (eq_trans C3 (eq_trans B3 A3)) H) as [(D1 & D2 & D3) D4].
  constructor; try done.
  - intros k. by rewrite D1, C1, B1.
  - intros k row. by rewrite D2, C2.
  - intros k row. by rewrite D3.
Qed.


(** ** The catalog afterwards *)

(** A row of the source that was there belongs to the source that was stored. *)
Lemma old_row_current (row_source : Z) : is_Some (ct_sources t !! row_source) → row_source = src_id source →
  (current = None → at_key (ct_sources t) (src_id source) = None) → ∃ s, current = Some s ∧ represents t s ∧ src_id s = src_id source.
Proof.
  intros Hrow -> Habs. destruct context as [_ He Hcur _]. destruct current as [s|] eqn:Ec.
  - exists s. split_and!; [done | by apply Hcur|]. by destruct (pe_source _ _ He) as (_ & ? & _).
  - rewrite (Habs eq_refl) in Hrow. by destruct Hrow.
Qed.

Lemma represents_new t' : persisted t' → represents t' source.
Proof.
  intros [Hs Habs Hsch Hin Hown Hpr]. pose proof context as [Hinv He Hcur _]. constructor.
  - apply He.
  - by rewrite Hs, lookup_insert_eq.
  - intros k row. rewrite Hsch. split.
    + intros [[Hr|?] Hsrc]; [|done].
      destruct (old_row_current _ (ci_schemas _ Hinv _ _ Hr) Hsrc Habs) as (s & Ec & Hrep & Eid).
      destruct (proj1 (rp_schemas _ _ Hrep k row) (conj Hr (eq_trans Hsrc (eq_sym Eid)))) as (schema & Hm & ? & ?).
      exists schema. split; [|done]. pose proof (pe_prefix _ _ He) as [l ->]. rewrite Ec. cbn. set_solver.
    + intros (schema & Hm & -> & ->). split; [right; eauto|]. pose proof (swf_owned _ planned_wf) as Ho. rewrite Forall_forall in Ho. by apply Ho.
  - intros k row. rewrite Hin. split.
    + intros [[?|[Hr Hne]] Hsrc]; [done|]. exfalso.
      destruct (old_row_current _ (ci_inputs _ Hinv _ _ Hr) Hsrc Habs) as (s & Ec & Hrep & Eid).
      destruct (proj1 (rp_inputs _ _ Hrep k row) (conj Hr (eq_trans Hsrc (eq_sym Eid)))) as (stored & Hm & -> & ->).
      destruct (pe_stored _ _ He stored) as (input & Hi & Hext); [by rewrite Ec|]. apply (Hne input Hi). by rewrite (ie_id _ _ Hext).
    + intros (input & Hi & -> & ->). split; [left; eauto|]. pose proof (swf_inputs_owned _ planned_wf) as Ho. rewrite Forall_forall in Ho. by apply Ho.
  - intros k row. rewrite Hpr. split.
    + intros [[Hr|?] Hsrc]; [|done].
      destruct (old_row_current _ (ci_profiles _ Hinv _ _ Hr) Hsrc Habs) as (s & Ec & Hrep & Eid).
      destruct (proj1 (rp_profiles _ _ Hrep k row) (conj Hr (eq_trans Hsrc (eq_sym Eid)))) as (stored & r & Hm & Hrev & -> & ->).
      destruct (pe_stored _ _ He stored) as (input & Hi & Hext); [by rewrite Ec|]. exists input, r. split_and!; [done | | done | by rewrite Eid].
      destruct (ie_revisions _ _ Hext) as [l ->]. set_solver.
    + intros (input & r & Hi & Hr & -> & ->). split; [right; eauto 10 | done].
Qed.

Lemma represents_other t' s : persisted t' → represents t s → src_id s ≠ src_id source → represents t' s.
Proof.
  intros [Hs Habs Hsch Hin Hown Hpr] Hrep Hne. constructor.
  - apply Hrep.
  - rewrite Hs, lookup_insert_ne by done. apply Hrep.
  - intros k row. rewrite <- (rp_schemas _ _ Hrep), Hsch. split; [|by intros [? ?]; split; [left|]].
    intros [[?|(schema & Hm & -> & ->)] Hsrc]; [done|]. exfalso. pose proof (swf_owned _ planned_wf) as Ho. rewrite Forall_forall in Ho.
    cbn in Hsrc. rewrite (Ho _ Hm) in Hsrc. by apply Hne.
  - intros k row. rewrite <- (rp_inputs _ _ Hrep), Hin. split.
    + intros [[(input & Hi & -> & ->)|[? _]] Hsrc]; [|done]. exfalso. pose proof (swf_inputs_owned _ planned_wf) as Ho. rewrite Forall_forall in Ho.
      cbn in Hsrc. rewrite (Ho _ Hi) in Hsrc. by apply Hne.
    + intros [Hr Hsrc]. split; [|done]. right. split; [done|]. intros input Hi ->. apply Hne. rewrite <- Hsrc. by eapply Hown.
  - intros k row. rewrite <- (rp_profiles _ _ Hrep), Hpr. split; [|by intros [? ?]; split; [left|]].
    intros [[?|(input & r & Hi & Hr & -> & ->)] Hsrc]; [done|]. exfalso. cbn in Hsrc. by apply Hne.
Qed.

Lemma new_source_name (k : Z) row :
  ct_sources t !! k = Some row → so_name row = src_name source → k = src_id source.
Proof.
  intros Hk Hn. destruct context as [Hinv He Hcur Habs]. destruct current as [s|].
  - destruct (pe_source _ _ He) as (_ & Eid & En & _). pose proof (rp_source _ _ (Hcur s eq_refl)) as Hrow. rewrite Eid in Hrow.
    eapply (ci_names _ Hinv); [exact Hk | exact Hrow |]. by rewrite Hn, <- En.
  - by apply (Habs eq_refl) in Hk.
Qed.

Lemma catalog_inv_persisted t' : persisted t' → catalog_inv t'.
Proof.
  intros Hp. pose proof (represents_new _ Hp) as Hnew. pose proof Hp as [Hs Habs Hsch Hin Hown Hpr]. pose proof context as [Hinv He Hcur _].
  assert (Hsome : ∀ k : Z, is_Some (ct_sources t !! k) → is_Some (ct_sources t' !! k)).
  { intros k Hk. rewrite Hs. destruct (decide (k = src_id source)) as [->|]; [by rewrite lookup_insert_eq | by rewrite lookup_insert_ne]. }
  assert (Hself : is_Some (at_key (ct_sources t') (src_id source))) by (by rewrite Hs, lookup_insert_eq).
  constructor.
  - intros k row Hk. rewrite Hs in Hk. destruct (decide (k = src_id source)) as [->|Hne]; [by exists source|].
    rewrite lookup_insert_ne in Hk by done. destruct (ci_represented _ Hinv _ _ Hk) as (s & Hrep & <-). exists s. split; [|done].
    by apply represents_other.
  - intros j k a b Ha Hb En. rewrite Hs in Ha, Hb. apply lookup_insert_Some in Ha as [[<- <-]|[Hj Ha]], Hb as [[<- <-]|[Hk Hb]]; [done | | |].
    + symmetry. by eapply new_source_name.
    + by eapply new_source_name.
    + by eapply (ci_names _ Hinv).
  - intros k row. rewrite Hsch. intros [Hr|(schema & Hm & -> & ->)]; [by apply Hsome, (ci_schemas _ Hinv k)|].
    pose proof (swf_owned _ planned_wf) as Ho. rewrite Forall_forall in Ho. cbn. by rewrite (Ho _ Hm).
  - intros k row. rewrite Hin. intros [(input & Hi & -> & ->)|[Hr _]]; [|by apply Hsome, (ci_inputs _ Hinv k)].
    pose proof (swf_inputs_owned _ planned_wf) as Ho. rewrite Forall_forall in Ho. cbn. by rewrite (Ho _ Hi).
  - intros k row. rewrite Hpr. intros [Hr|(input & r & _ & _ & -> & ->)]; [by apply Hsome, (ci_profiles _ Hinv k) | done].
Qed.

End Plan.

(** ** Applying a manifest *)

Lemma load_cases t name :
  catalog_inv t →
  (load_source_for_update t name = Ok None ∧ ∀ (k : Z) row, ct_sources t !! k = Some row → so_name row ≠ name) ∨
  (∃ s, load_source_for_update t name = Ok (Some s) ∧ represents t s ∧ src_name s = name).
Proof.
  intros Hinv. destruct (source_row_by_name t name) as [row|] eqn:E.
  - right. unfold source_row_by_name in E. apply find_Some in E as [Hin Hn%bool_decide_eq_true].
    apply list_elem_of_fmap in Hin as ([k r] & -> & Hin). apply elem_of_map_to_list in Hin. cbn [snd] in *.
    destruct (ci_represented _ Hinv _ _ Hin) as (s & Hs & <-). pose proof (rp_source _ _ Hs) as Hr.
    assert (En : src_name s = name) by (rewrite <- Hn; assert (r = source_row s) as -> by congruence; done).
    destruct (load_source_Ok _ _ Hinv Hs) as (inputs & Hp & Hl). rewrite En in Hl. exists (with_inputs s inputs). split_and!; [done | | done].
    by apply represents_with_inputs.
  - left. assert (Hno : ∀ (k : Z) row, ct_sources t !! k = Some row → so_name row ≠ name).
    { intros k row Hk En. unfold source_row_by_name in E. rewrite find_None in E. specialize (E row).
      apply (bool_decide_eq_false (so_name row = name)) in E; [done|]. apply list_elem_of_fmap. exists (k, row). split; [done|]. by apply elem_of_map_to_list. }
    split; [|done]. by apply load_source_absent.
Qed.

Lemma apply_effect m g t plan t' :
  catalog_inv t → manifest_ok (cm_source m) → manifest_consistent m → apply_transaction m g t = Ok (plan, t') →
  ∃ current, persist_context t current plan ∧ persisted t current plan t' ∧ src_name (plan_source plan) = ms_name (cm_source m).
Proof.
  intros Hinv Hok Hcon H. unfold apply_transaction in H. apply bind_Ok in H as (current & Hload & H).
  apply bind_Ok in H as ([p g'] & Hplan & H). apply map_err_Ok in Hplan. apply bind_Ok in H as (t1 & Hp & H).
  apply bind_Ok in H as (t2 & Hc & H). apply map_err_Ok in Hc. injection H as <- <-.
  unfold catalog_commit in Hc. apply bind_Ok in Hc as (u & _ & Hc). injection Hc as <-.
  assert (Hname : src_name (plan_source p) = ms_name (cm_source m)).
  { destruct (plan_parts_of _ _ _ _ _ Hplan) as (ps & pis & active & []). by destruct (Source_new_fields _ _ _ _ _ _ _ _ pl_source) as (_ & ? & _). }
  exists current. assert (Hctx : persist_context t current p); [|split_and!; [done | by apply persist_plan_persisted | done]].
  destruct (load_cases t (ms_name (cm_source m)) Hinv) as [[Hl Hno]|(s & Hl & Hs & En)]; rewrite Hl in Hload; injection Hload as <-.
  - constructor; [done | | done | by rewrite Hname]. eapply plan_effect_of; [done | done | done | exact Hplan].
  - constructor; [done | | by intros ? [= <-] | done]. eapply plan_effect_of; [done | done | | exact Hplan]. intros ? [= <-]. apply Hs.
Qed.

End Apply.
