(* ===== verification/CatalogStoreCorrect.v ===== *)
(** * Catalog store: the store as a whole

    Applying a manifest makes its source durable and leaves the others alone; a failure
    changes nothing but for a commit whose answer is lost; and in every state that the store
    reaches, the snapshot in memory is the one that loading the database gives, except for the
    sources of such commits until they are applied again or the catalog is loaded. *)

From S2P Require Import Core ErrorCode CatalogTypes CatalogModel CatalogSource Bytes Frame Json Storage Database Canonical Manifest Application Stored ApplicationCorrect StoredCorrect ManifestCorrect CatalogStore CatalogLoad Declarations CatalogApply Prelude.
Import Schema.

#[local] Open Scope string_scope.
#[local] Open Scope list_scope.
#[local] Open Scope Z_scope.

#[local] Notation at_key m k := (@lookup Z _ _ _ k m).

Section Store.
Context {env : SpoolEnv} {lib : JsonLib} {text : JsonText} {uuid : UuidText} {number_equality : NumberEq}.
Context {postgres : CatalogPostgres} {postgres_laws : CatalogPostgresLaws}.
Context {json_laws : JsonTextLaws} {uuid_laws : UuidTextLaws}.
Context {yaml : YamlLib} {yaml_laws : YamlLaws}.
Context {G : Type} {generator : CatalogIdentityGenerator G} {generator_laws : IdentityGeneratorLaws}.

(** ** One source per row *)

Lemma represents_name t s s' : represents t s → represents t s' → src_id s = src_id s' → src_name s = src_name s'.
Proof.
  intros Hs Hs' E. pose proof (rp_source _ _ Hs) as Hr. pose proof (rp_source _ _ Hs') as Hr'. rewrite E in Hr.
  assert (Er : source_row s = source_row s') by congruence. by apply (f_equal so_name) in Er.
Qed.

Lemma represents_unique t s s' :
  catalog_inv t → represents t s → represents t s' → src_id s = src_id s' → source_equiv s s'.
Proof.
  intros Hinv Hs Hs' E. pose proof (represents_name _ _ _ Hs Hs' E) as En.
  destruct (load_source_Ok _ _ Hinv Hs) as (i & Hi & Hl). destruct (load_source_Ok _ _ Hinv Hs') as (i' & Hi' & Hl').
  rewrite En, Hl' in Hl. injection Hl as F1 F2 F3 F4 F5 F6 F7. constructor; try done. by rewrite Hi, Hi', F7.
Qed.

Lemma load_represented t s :
  catalog_inv t → represents t s → ∃ s', load_source_for_update t (src_name s) = Ok (Some s') ∧ source_equiv s s'.
Proof.
  intros Hinv Hs. destruct (load_source_Ok _ _ Hinv Hs) as (i & Hi & Hl). exists (with_inputs s i). split; [done|]. by apply with_inputs_equiv.
Qed.

(** ** Applying a manifest *)

(** A stored row with the identity of the planned source has its name. *)
Lemma same_identity t current plan t' row :
  persist_context t current plan → persisted t current plan t' → at_key (ct_sources t) (src_id (plan_source plan)) = Some row →
  so_name row = src_name (plan_source plan).
Proof.
  intros [_ He Hcur _] Hp Hr. destruct current as [c|].
  - destruct (pe_source _ _ He) as (_ & Eid & En & _). pose proof (rp_source _ _ (Hcur c eq_refl)) as Hc.
    rewrite Eid in Hc. apply (eq_trans (eq_sym Hr)) in Hc as [= ->]. exact En.
  - rewrite (pd_absent _ _ _ _ Hp eq_refl) in Hr. done.
Qed.

Lemma apply_others m g t plan t' name :
  catalog_inv t → manifest_ok (cm_source m) → manifest_consistent m → apply_transaction m g t = Ok (plan, t') →
  catalog_inv t' → name ≠ ms_name (cm_source m) →
  (load_source_for_update t name = Ok None ∧ load_source_for_update t' name = Ok None) ∨
  ∃ s s', load_source_for_update t name = Ok (Some s) ∧ load_source_for_update t' name = Ok (Some s') ∧ source_equiv s s'.
Proof.
  intros Hinv Hok Hcon H Hinv' Hne. destruct (apply_effect _ _ _ _ _ Hinv Hok Hcon H) as (current & Hctx & Hp & En).
  destruct (load_cases t name Hinv) as [[Hl Hno]|(s & Hl & Hs & Ens)].
  - left. split; [done|]. apply load_source_absent. intros k row Hk. rewrite (pd_sources _ _ _ _ Hp) in Hk.
    apply lookup_insert_Some in Hk as [[_ <-]|[_ Hk]]; [cbn; by rewrite En | by eapply Hno].
  - right. assert (Hs' : represents t' s).
    { eapply represents_other; [exact Hctx | done | done|]. intros E. apply Hne. rewrite <- Ens, <- En.
      apply (same_identity _ _ _ _ (source_row s) Hctx Hp). rewrite <- E. apply Hs. }
    destruct (load_represented _ _ Hinv' Hs') as (s' & Hl' & He). rewrite Ens in Hl'. eauto.
Qed.

(** C22: Applying a decoded manifest in a catalog of stored sources keeps the catalog
    consistent and is durable: loading the source afterwards gives exactly the source of the
    plan, whatever the order in which the database returns its inputs, and every other
    source loads as before. *)
Theorem apply_durable b m g t plan t' :
  catalog_inv t → Manifest.decode b = Ok m → apply_transaction m g t = Ok (plan, t') →
  catalog_inv t' ∧
  (∃ s, load_source_for_update t' (ms_name (cm_source m)) = Ok (Some s) ∧ source_equiv (plan_source plan) s) ∧
  ∀ name, name ≠ ms_name (cm_source m) →
    (load_source_for_update t name = Ok None ∧ load_source_for_update t' name = Ok None) ∨
    ∃ s s', load_source_for_update t name = Ok (Some s) ∧ load_source_for_update t' name = Ok (Some s') ∧ source_equiv s s'.
Proof.
  intros Hinv [Hok Hcon]%decode_ok H. destruct (apply_effect _ _ _ _ _ Hinv Hok Hcon H) as (current & Hctx & Hp & En).
  pose proof (catalog_inv_persisted _ _ _ Hctx _ Hp) as Hinv'. split_and!; [done | |].
  - rewrite <- En. apply load_represented; [done|]. by eapply represents_new.
  - intros name. by eapply apply_others.
Qed.

(** ** The snapshot in memory *)

Lemma replace_source_Ok source l :
  NoDup (src_id <$> l) → NoDup (src_name <$> l) →
  (∀ x, x ∈ l → src_name x = src_name source ↔ src_id x = src_id source) →
  ∃ l', replace_source source l = Ok l' ∧ NoDup (src_id <$> l') ∧
    ∀ x, x ∈ l' ↔ x = source ∨ (x ∈ l ∧ src_id x ≠ src_id source).
Proof.
  induction l as [|y l IH]; intros Hids Hnames Hl.
  { exists [source]. split_and!; [done | apply NoDup_singleton | set_solver]. }
  rewrite fmap_cons in Hids. rewrite fmap_cons in Hnames. apply NoDup_cons in Hids as [Hyi Hids], Hnames as [Hyn Hnames].
  cbn [replace_source]. pose proof (Hl y ltac:(set_solver)) as Hy. case_bool_decide as En.
  - pose proof (proj1 Hy En) as Ei. rewrite Ei, Z.eqb_refl. cbn [check]. rewrite bind_ret. eexists. split; [done|].
    assert (Hne : ∀ x, x ∈ l → src_id x ≠ src_id source).
    { intros x Hx E. apply Hyi. rewrite Ei, <- E. by apply list_elem_of_fmap_2. }
    split; [rewrite fmap_cons, <- Ei; by apply NoDup_cons|]. intros x. rewrite !elem_of_cons. split.
    + intros [->|Hx]; [by left | right; split; [by right | by apply Hne]].
    + intros [->|[[->|Hx] E]]; [by left | done | by right].
  - destruct IH as (l' & -> & Hnd & Hin); [done | done | intros; apply Hl; set_solver|]. cbn. eexists. split; [done|]. split.
    + rewrite fmap_cons. apply NoDup_cons. split; [|done]. intros (x & E & Hx)%list_elem_of_fmap. apply Hin in Hx as [->|[Hx _]].
      * by apply En, Hy.
      * apply Hyi. rewrite E. by apply list_elem_of_fmap_2.
    + intros x. rewrite !elem_of_cons, Hin. split; [|naive_solver].
      intros [->|[->|[Hx E]]]; [right; split; [by left|]; intros E; by apply En, Hy | by left | right; split; [by right | done]].
Qed.

(** A source has the name of the row of its identity. *)
Definition identified (t : CatalogTables) (s : Source) : Prop :=
  ∃ row, at_key (ct_sources t) (src_id s) = Some row ∧ so_name row = src_name s.

Lemma represents_identified t s : represents t s → identified t s.
Proof. intros Hs. exists (source_row s). split; [apply Hs | done]. Qed.

Lemma identified_eq t x y : catalog_inv t → identified t x → identified t y → src_name x = src_name y → src_id x = src_id y.
Proof. intros Hinv (a & Ha & Na) (b & Hb & Nb) E. eapply (ci_names _ Hinv); [exact Ha | exact Hb | congruence]. Qed.

Lemma identified_names t l : catalog_inv t → Forall (identified t) l → NoDup (src_id <$> l) → NoDup (src_name <$> l).
Proof.
  intros Hinv Hl Hnd. rewrite Forall_forall in Hl. apply NoDup_fmap_inj_on; [|by eapply NoDup_fmap_1]. intros x y Hx Hy E.
  pose proof (identified_eq _ _ _ Hinv (Hl _ Hx) (Hl _ Hy) E) as Eid. apply list_elem_of_lookup in Hx as [a Ha], Hy as [b Hb].
  assert (a = b) by (eapply (NoDup_lookup _ a b (src_id x) Hnd); apply list_lookup_fmap_Some; eauto). congruence.
Qed.

(** The snapshot has the sources of the tables, except that those named [stale] may be
    missing or older. *)
Record snapshot_but (stale : gset string) (t : CatalogTables) (snapshot : CatalogSnapshot) : Prop := {
  sb_identified : Forall (identified t) snapshot;
  sb_represents : ∀ s, s ∈ snapshot → src_name s ∉ stale → represents t s;
  sb_complete : ∀ (k : Z) row, ct_sources t !! k = Some row → so_name row ∉ stale → ∃ s, s ∈ snapshot ∧ src_id s = k;
  sb_sorted : StronglySorted source_name_le snapshot;
  sb_ids : NoDup (src_id <$> snapshot);
}.

Lemma snapshot_of_but t snapshot : snapshot_of t snapshot ↔ snapshot_but ∅ t snapshot.
Proof.
  split.
  - intros [Hr Hc Hs Hi]. constructor; [|intros s Hin _; rewrite Forall_forall in Hr; by apply Hr | intros k row Hk _; by eapply Hc | done | done].
    eapply Forall_impl; [exact Hr | apply represents_identified].
  - intros [_ Hr Hc Hs Hi]. constructor; [apply Forall_forall; intros s Hin; apply Hr; set_solver | | done | done].
    intros k row Hk. eapply Hc; [exact Hk | set_solver].
Qed.

Section Merging.
Context t current plan t' (context : persist_context t current plan) (written : persisted t current plan t').
Notation planned := (plan_source plan).

Lemma identified_planned x : identified t x → src_name x = src_name planned ↔ src_id x = src_id planned.
Proof.
  intros (row & Hr & En). split; intros E.
  - eapply (new_source_name _ _ _ context); [exact Hr | congruence].
  - rewrite <- En. apply (same_identity _ _ _ _ _ context written). by rewrite <- E.
Qed.

Lemma identified_kept x : identified t x → identified t' x.
Proof.
  intros Hx. unfold identified. rewrite (pd_sources _ _ _ _ written). destruct (decide (src_id x = src_id planned)) as [E|Hne].
  - rewrite E, lookup_insert_eq. eexists. split; [done|]. cbn. symmetry. by apply identified_planned.
  - by rewrite lookup_insert_ne.
Qed.

Lemma represents_kept x : represents t x → src_name x ≠ src_name planned → represents t' x.
Proof.
  intros Hx Hne. eapply represents_other; [exact context | done | done|]. intros E. apply Hne.
  by apply (identified_planned _ (represents_identified _ _ Hx)).
Qed.

Lemma written_row (k : Z) row :
  ct_sources t' !! k = Some row → (k = src_id planned ∧ so_name row = src_name planned) ∨
    (k ≠ src_id planned ∧ ct_sources t !! k = Some row ∧ so_name row ≠ src_name planned).
Proof.
  rewrite (pd_sources _ _ _ _ written). intros [[<- <-]|[Hne Hk]]%lookup_insert_Some; [by left | right]. split_and!; [done | done|].
  intros E. apply Hne. symmetry. by eapply (new_source_name _ _ _ context).
Qed.

(** The snapshot of before the commit is stale in the planned source. *)
Lemma committed_stale stale snapshot :
  snapshot_but stale t snapshot → snapshot_but ({[src_name planned]} ∪ stale) t' snapshot.
Proof.
  intros [Hid Hr Hc Hs Hi]. constructor; [by eapply Forall_impl; [exact Hid | apply identified_kept] | | | done | done].
  - intros s Hin Hne. apply represents_kept; [apply Hr; set_solver | set_solver].
  - intros k row [[_ E]|(_ & Hk & _)]%written_row Hne; [set_solver | eapply Hc; [exact Hk | set_solver]].
Qed.

(** Merging the planned source makes it current. *)
Lemma merged_current stale snapshot :
  snapshot_but stale t snapshot →
  ∃ snapshot', replacing snapshot planned = Ok snapshot' ∧ snapshot_but (stale ∖ {[src_name planned]}) t' snapshot' ∧
    planned ∈ snapshot'.
Proof.
  intros [Hid Hr Hc Hs Hi]. pose proof (px_inv _ _ _ context) as Hinv. pose proof (catalog_inv_persisted _ _ _ context _ written) as Hinv'.
  pose proof (identified_names _ _ Hinv Hid Hi) as Hnames. rewrite Forall_forall in Hid.
  pose proof (λ x Hx, identified_planned x (Hid x Hx)) as Hiff. unfold replacing.
  assert (Hno : existsb (λ x, (src_id x =? src_id planned) && negb (bool_decide (src_name x = src_name planned))) snapshot = false).
  { apply not_true_iff_false. intros (x & Hx%list_elem_of_In & E)%existsb_exists. apply andb_true_iff in E as [E1%Z.eqb_eq E2].
    apply negb_true_iff, bool_decide_eq_false in E2. by apply E2, Hiff. }
  rewrite Hno. cbn [negb check]. rewrite bind_ret. destruct (replace_source_Ok _ _ Hi Hnames Hiff) as (l' & -> & Hnd & Hin). rewrite bind_ret.
  pose proof (represents_new _ _ _ context _ written) as Hnew.
  assert (Hid' : Forall (identified t') l').
  { apply Forall_forall. intros x [->|[Hx _]]%Hin; [by apply represents_identified | by apply identified_kept, Hid]. }
  rewrite CatalogSnapshot_new_Ok; [|done | by eapply identified_names]. eexists. split; [done|]. split; [|rewrite merge_sort_Permutation; apply Hin; by left].
  constructor; [by rewrite merge_sort_Permutation | | | apply StronglySorted_merge_sort; apply _ | by rewrite merge_sort_Permutation];
    setoid_rewrite merge_sort_Permutation.
  - intros x [->|[Hx Hne]]%Hin Hst; [done|]. assert (src_name x ≠ src_name planned) by (intros E; by apply Hne, Hiff).
    apply represents_kept; [apply Hr; set_solver | done].
  - intros k row [[-> _]|(Hne & Hk & Hn)]%written_row Hst; [exists planned; split; [apply Hin; by left | done]|].
    destruct (Hc _ _ Hk ltac:(set_solver)) as (x & Hx & <-). exists x. split; [|done]. apply Hin. by right.
Qed.

End Merging.

(** ** States of the store *)

Definition store_inv (stale : gset string) (store : CatalogStore) : Prop :=
  catalog_inv (store_tables store) ∧ snapshot_but stale (store_tables store) (store_snapshot store).

(** The stale sources after [CatalogStore::apply] returned. *)
Definition stale_after (exchange : Exchange) (name : string) (r : persistence CatalogApplyOutcome) (stale : gset string) : gset string :=
  match r, exchange with
  | Ok _, _ => stale ∖ {[name]}
  | Err _, Unanswered => {[name]} ∪ stale
  | Err _, _ => stale
  end.

Lemma snapshot_but_mono stale stale' t snapshot : stale ⊆ stale' → snapshot_but stale t snapshot → snapshot_but stale' t snapshot.
Proof. intros Hsub [Hid Hr Hc Hs Hi]. constructor; [done | | | done | done]; [intros; apply Hr; set_solver | intros; eapply Hc; [done | set_solver]]. Qed.

Lemma store_apply_cases exchange m g stale store :
  store_inv stale store → manifest_ok (cm_source m) → manifest_consistent m →
  (∃ e, store_apply exchange m g store = (Err e, store)) ∨
  ∃ plan tables snapshot, apply_transaction m g (store_tables store) = Ok (plan, tables) ∧ src_name (plan_source plan) = ms_name (cm_source m) ∧
    catalog_inv tables ∧
    ((exchange = Answered ∧ store_apply exchange m g store =
        (Ok (classify_outcome (plan_outcome plan) (plan_source plan)), {| store_tables := tables; store_snapshot := snapshot |}) ∧
      snapshot_but (stale ∖ {[ms_name (cm_source m)]}) tables snapshot) ∨
     (exchange = Unanswered ∧ store_apply exchange m g store =
        (Err (catalog_write Transport), {| store_tables := tables; store_snapshot := store_snapshot store |}) ∧
      snapshot_but ({[ms_name (cm_source m)]} ∪ stale) tables (store_snapshot store))).
Proof.
  intros [Hinv Hsn] Hok Hcon. unfold store_apply. destruct exchange as [|e|]; [|left; by exists e|];
    (destruct (apply_transaction m g (store_tables store)) as [[plan t']|e] eqn:E; [|left; by exists e]); right; exists plan, t';
    destruct (apply_effect _ _ _ _ _ Hinv Hok Hcon E) as (current & Hctx & Hp & En); rewrite <- En.
  - destruct (merged_current _ _ _ _ Hctx Hp _ _ Hsn) as (snapshot & Hr & Hsn' & _). exists snapshot. unfold merge_source. cbn [store_snapshot].
    rewrite Hr. split_and!; [done | done | by eapply catalog_inv_persisted | by left].
  - exists (store_snapshot store). split_and!; [done | done | by eapply catalog_inv_persisted | right; split_and!; [done | done|]].
    by eapply committed_stale.
Qed.

(** An error of [CatalogStore::apply] leaves the snapshot in memory as it was, and the
    database too unless the answer to the commit was lost; it is never one of merging the
    applied source. *)
Lemma apply_error_kept exchange b m g stale store e :
  store_inv stale store → Manifest.decode b = Ok m → (store_apply exchange m g store).1 = Err e →
  store_snapshot (store_apply exchange m g store).2 = store_snapshot store ∧
  (store_tables (store_apply exchange m g store).2 = store_tables store ∨
   (exchange = Unanswered ∧ ∃ plan, apply_transaction m g (store_tables store) = Ok (plan, store_tables (store_apply exchange m g store).2))).
Proof.
  intros Hinv [Hok Hcon]%decode_ok H.
  destruct (store_apply_cases exchange m g stale store Hinv Hok Hcon)
    as [[e' ->]|(p & t & sn & Ht & _ & _ & [(_ & E & _)|(Hx & E & _)])]; [by split; [|left] | by rewrite E in H|].
  rewrite E. split; [done | right]. split; [done | by exists p].
Qed.

(** The states a store reaches with the sources it is stale in: it loads an empty catalog,
    applies manifests, refreshes and restarts, and the database may fail or not answer at
    any point. *)
Inductive store_reaches : gset string → CatalogStore → Prop :=
| reaches_empty store :
    store_load {| ct_sources := ∅; ct_schemas := ∅; ct_inputs := ∅; ct_profiles := ∅ |} = Ok store → store_reaches ∅ store
| reaches_apply exchange b m g stale store :
    store_reaches stale store → Manifest.decode b = Ok m →
    store_reaches (stale_after exchange (ms_name (cm_source m)) (store_apply exchange m g store).1 stale)
      (store_apply exchange m g store).2
| reaches_refresh exchange stale store :
    store_reaches stale store →
    store_reaches (if is_ok (store_refresh exchange store).1 then ∅ else stale) (store_refresh exchange store).2
| reaches_restart stale store store' :
    store_reaches stale store → store_load (store_tables store) = Ok store' → store_reaches ∅ store'.

Lemma store_load_inv t store : catalog_inv t → store_load t = Ok store → store_inv ∅ store.
Proof.
  intros Hinv H. unfold store_load in H. destruct (load_all_Ok _ Hinv) as (sn & Hl & Hsn). rewrite Hl in H. cbn in H. injection H as <-.
  split; [done | by apply snapshot_of_but].
Qed.

Lemma store_refresh_cases exchange stale store :
  store_inv stale store → ∃ snapshot, snapshot_of (store_tables store) snapshot ∧
    load_consistent_snapshot (store_tables store) = Ok snapshot ∧
    ((∃ e, store_refresh exchange store = (Err e, store)) ∨
     store_refresh exchange store = (Ok tt, {| store_tables := store_tables store; store_snapshot := snapshot |})).
Proof.
  intros [Hinv _]. destruct (load_all_Ok _ Hinv) as (sn & Hl & Hsn). exists sn. split_and!; [done | done|]. unfold store_refresh. rewrite Hl.
  destruct exchange; eauto.
Qed.

Lemma reaches_inv stale store : store_reaches stale store → store_inv stale store.
Proof.
  induction 1 as [store H|exchange b m g stale store _ IH Hd|exchange stale store _ IH|stale store store' _ IH H].
  - eapply store_load_inv; [|exact H]. constructor; cbn; intros *; by rewrite lookup_empty.
  - apply decode_ok in Hd as [Hok Hcon].
    destruct (store_apply_cases exchange m g stale store IH Hok Hcon)
      as [[e ->]|(p & t & sn & _ & _ & Hinv & [(-> & -> & Hsn)|(-> & -> & Hsn)])]; [|by split..].
    destruct exchange; [exact IH..|]. split; [apply IH|]. eapply snapshot_but_mono; [|apply IH]. set_solver.
  - destruct (store_refresh_cases exchange _ _ IH) as (sn & Hsn & _ & [[e ->]| ->]); [exact IH|]. split; [apply IH | by apply snapshot_of_but].
  - eapply store_load_inv; [apply IH | exact H].
Qed.

Lemma sorted_names_equal a b :
  StronglySorted source_name_le a → StronglySorted source_name_le b → src_name <$> a ≡ₚ src_name <$> b → (src_name <$> a) = (src_name <$> b).
Proof.
  intros Ha Hb Hp. pose (R := λ x y : string, String.compare x y ≠ Gt).
  assert (Hs : ∀ l, StronglySorted source_name_le l → StronglySorted R (src_name <$> l)).
  { intros l. induction 1 as [|x l Hl IH Hx]; [constructor|]. rewrite fmap_cons. constructor; [done|]. by apply Forall_fmap. }
  apply (StronglySorted_unique_strong R); [|by apply Hs..| done]. intros x y _ _ Hxy Hyx. unfold R in *.
  rewrite (String.compare_antisym y x) in Hyx. destruct (String.compare x y) eqn:E; try done. by apply String.compare_eq_iff.
Qed.

Lemma snapshots_equiv t a b : catalog_inv t → snapshot_of t a → snapshot_of t b → Forall2 source_equiv a b.
Proof.
  intros Hinv [Ra Ca Sa Na] [Rb Cb Sb Nb].
  pose proof (represented_names _ _ Hinv Ra Na) as Nna. pose proof (represented_names _ _ Hinv Rb Nb) as Nnb.
  rewrite Forall_forall in Ra. rewrite Forall_forall in Rb.
  assert (Hsub : ∀ x (l : list Source), represents t x → (∀ (k : Z) row, ct_sources t !! k = Some row → ∃ s, s ∈ l ∧ src_id s = k) →
    (∀ s, s ∈ l → represents t s) → src_name x ∈ src_name <$> l).
  { intros x l Hx Hc Hr. destruct (Hc _ _ (rp_source _ _ Hx)) as (s & Hs & E). apply list_elem_of_fmap. exists s. split; [|done].
    eapply represents_name; [exact Hx | by apply Hr | done]. }
  assert (En : (src_name <$> a) = (src_name <$> b)).
  { apply sorted_names_equal; [done | done|]. apply NoDup_Permutation; [done | done|]. intros n. split; intros (x & -> & Hx)%list_elem_of_fmap.
    - apply Hsub; [by apply Ra | exact Cb | exact Rb].
    - apply Hsub; [by apply Rb | exact Ca | exact Ra]. }
  apply Forall2_same_length_lookup_2; [by apply (f_equal length) in En; rewrite !length_fmap in En|].
  intros i x y Hx Hy. assert (Exy : src_name x = src_name y).
  { apply (f_equal (.!! i)) in En. rewrite !list_lookup_fmap, Hx, Hy in En. by injection En. }
  apply list_elem_of_lookup_2 in Hx, Hy. eapply represents_unique; [done | by apply Ra | by apply Rb|].
  eapply (ci_names _ Hinv); [apply (Ra _ Hx) | apply (Rb _ Hy) | done].
Qed.

(** What loading gives of a source, and what the snapshot has of it. *)
Definition source_current (t : CatalogTables) (snapshot : CatalogSnapshot) (name : string) : Prop :=
  (load_source_for_update t name = Ok None ∧ source_by_name snapshot name = None) ∨
  ∃ stored known, load_source_for_update t name = Ok (Some stored) ∧ source_by_name snapshot name = Some known ∧
    source_equiv known stored.

Lemma not_stale_current stale t snapshot name :
  catalog_inv t → snapshot_but stale t snapshot → name ∉ stale → source_current t snapshot name.
Proof.
  intros Hinv [Hid Hr Hc _ _] Hst. rewrite Forall_forall in Hid. unfold source_current.
  destruct (source_by_name snapshot name) as [x|] eqn:Ex.
  - apply find_Some in Ex as [Hx En%bool_decide_eq_true]. pose proof (Hr _ Hx ltac:(congruence)) as Hrep.
    destruct (load_represented _ _ Hinv Hrep) as (s & Hl & He). rewrite En in Hl. right. eauto.
  - destruct (load_cases t name Hinv) as [[Hl _]|(s & Hl & Hs & En)]; [by left | exfalso].
    destruct (Hc _ _ (rp_source _ _ Hs)) as (x & Hx & Eid); [cbn; congruence|]. destruct (Hid _ Hx) as (row & Hrow & Nr).
    rewrite Eid in Hrow. pose proof (rp_source _ _ Hs) as Hs'. apply (eq_trans (eq_sym Hrow)) in Hs' as [= ->].
    apply (proj1 (find_None _ _)) with (x := x) in Ex; [|done]. apply bool_decide_eq_false in Ex. apply Ex. by rewrite <- Nr.
Qed.

(** C25: In every state that a store reaches by loading, applying manifests, refreshing and
    restarting, with the database failing or losing the answer to a commit at any point,
    loading the database succeeds, and the snapshot in memory has every source exactly as
    it loads, up to the order of its inputs, except those whose last commit was not
    answered. When there are none, which holds after a load, a refresh or once each of them
    is applied again, the snapshot is the one that loading gives. *)
Theorem snapshot_is_current stale store :
  store_reaches stale store →
  (∀ name, name ∉ stale → source_current (store_tables store) (store_snapshot store) name) ∧
  ∃ snapshot, load_consistent_snapshot (store_tables store) = Ok snapshot ∧
    (stale = ∅ → Forall2 source_equiv (store_snapshot store) snapshot) ∧
    store_refresh Answered store = (Ok tt, {| store_tables := store_tables store; store_snapshot := snapshot |}).
Proof.
  intros Hinv%reaches_inv. split; [intros name; apply not_stale_current; apply Hinv|].
  destruct (load_all_Ok _ (proj1 Hinv)) as (sn & Hl & Hsn). exists sn. split; [done|]. split.
  - intros ->. eapply snapshots_equiv; [apply Hinv | apply snapshot_of_but, Hinv | done].
  - unfold store_refresh. by rewrite Hl.
Qed.

End Store.
