(* ===== verification/CatalogSamples.v ===== *)
(** * Catalog: concrete runs

    The parameters of the catalog as concrete functions that satisfy their laws, two
    manifests of one source, and the theorems of the catalog at the runs that apply them. *)

From stdpp Require Import countable.
From S2P Require Import Core ErrorCode CatalogTypes CatalogModel CatalogSource Bytes Frame Json Storage Database Canonical Manifest Application Stored ApplicationCorrect StoredCorrect ManifestCorrect CatalogStore CatalogLoad Declarations CatalogApply CatalogStoreCorrect Prelude.
Import Schema.

#[local] Open Scope string_scope.
#[local] Open Scope list_scope.
#[local] Open Scope Z_scope.

(** ** Parameters *)

(** The last 32 bytes in place of the hash. *)
#[local] Instance catalog_env : SpoolEnv := {
  blake3 b := take 32 (rev_append b (repeat "0"%char 32));
  from_timestamp_millis z := (-8334601228800000 <=? z) && (z <=? 8210266876799999);
}.

(** Numbers are integers. *)
#[local] Instance catalog_json : JsonLib := {
  Number := Z;
  Number_from_str t := None;
  as_i64 n := if fits I64 n then Some n else None;
  as_u64 n := if fits U64 n then Some n else None;
  number_to_string n := pretty n;
  string_from_slice t := None;
}.

#[local] Instance catalog_number_eq : NumberEq := Z.eqb.

(** A value as a tree of leaves, and back. *)
Definition leaf : Type := option bool + (Z + string).

Fixpoint tree_of_value (v : Value) : gen_tree leaf :=
  match v with
  | VNull => GenLeaf (inl None)
  | VBool b => GenLeaf (inl (Some b))
  | VNumber n => GenLeaf (inr (inl n))
  | VString s => GenLeaf (inr (inr s))
  | VArray vs => GenNode 0 (map tree_of_value vs)
  | VObject ms => GenNode 1 [GenNode 0 (map (λ m, GenLeaf (inr (inr m.1))) ms); GenNode 0 (map (λ m, tree_of_value m.2) ms)]
  end.

Definition key_of_tree (t : gen_tree leaf) : string := match t with GenLeaf (inr (inr s)) => s | _ => "" end.

Fixpoint value_of_tree (t : gen_tree leaf) : Value :=
  match t with
  | GenLeaf (inl None) => VNull
  | GenLeaf (inl (Some b)) => VBool b
  | GenLeaf (inr (inl n)) => VNumber n
  | GenLeaf (inr (inr s)) => VString s
  | GenNode 0 ts => VArray (map value_of_tree ts)
  | GenNode _ [GenNode _ keys; GenNode _ values] => VObject (zip (map key_of_tree keys) (map value_of_tree values))
  | GenNode _ _ => VNull
  end.

(** The bits of a code. *)
Fixpoint bits (p : positive) : string :=
  match p with xH => "" | xO p => String "0" (bits p) | xI p => String "1" (bits p) end.

Fixpoint of_bits (s : string) : positive :=
  match s with EmptyString => xH | String c s => if decide (c = "0"%char) then xO (of_bits s) else xI (of_bits s) end.

Lemma of_bits_bits p : of_bits (bits p) = p.
Proof. induction p as [p IH|p IH|]; cbn; [by rewrite IH..|done]. Qed.

#[local] Instance catalog_text : JsonText := {
  json_to_string v := Some (bits (encode (tree_of_value v)));
  json_from_str s := value_of_tree <$> countable.decode (of_bits s);
  Number_from_u64 z := z;
}.

Lemma tree_round_trip d v : plain d v → value_of_tree (tree_of_value v) = v.
Proof.
  revert v. induction d as [|d IH]; intros [|b|n|s|vs|ms] Hv; cbn in Hv |- *; try done.
  - f_equal. rewrite map_map. induction Hv as [|v vs Hv _ IHv]; [done|]. cbn. by rewrite IH, IHv.
  - f_equal. destruct Hv as [_ Hv]. rewrite !map_map. induction Hv as [|[k v] ms Hv _ IHv]; [done|]. cbn in *. by rewrite IH, IHv.
Qed.

#[local] Instance catalog_text_laws : JsonTextLaws.
Proof.
  split.
  - intros z Hz. cbn. by rewrite Hz.
  - intros v s Hv [= <-]. cbn. rewrite of_bits_bits, decode_encode. cbn. by rewrite (tree_round_trip 127).
  - apply Z.eqb_refl.
Qed.

#[local] Existing Instance sample_uuid_text.
#[local] Existing Instance sample_uuid_text_laws.

#[local] Instance catalog_postgres : CatalogPostgres := {
  collate_le a b := match String.compare a b with Gt => false | _ => true end;
  jsonb v := Ok v;
}.

#[local] Instance catalog_postgres_laws : CatalogPostgresLaws.
Proof. by intros v w _ [= <-]. Qed.

(** Identities in the order of a counter. *)
Definition draw (g : Z) : Z * Z := (sample_uuid (g `mod` 65536), g + 1).

#[local] Instance catalog_generator : CatalogIdentityGenerator Z := {
  generate_source_id := draw;
  generate_schema_id := draw;
  generate_field_id := draw;
  generate_input_id := draw;
  generate_ingestion_profile_revision_id := draw;
}.

Lemma draw_ok g : identity_ok (draw g).1.
Proof.
  cbn. pose proof (Z.mod_pos_bound g 65536 ltac:(lia)) as Hn. generalize dependent (g `mod` 65536). intros n Hn.
  split; [unfold is_uuid, sample_uuid; rewrite !Z.shiftl_mul_pow2 by lia; lia|].
  unfold UuidV7.new, UuidV7.version, UuidV7.variant, sample_uuid. change 15 with (Z.ones 4). change 3 with (Z.ones 2).
  rewrite !Z.land_ones, !Z.shiftr_div_pow2, !Z.shiftl_mul_pow2 by lia.
  replace ((7 * 2 ^ 76 + 2 * 2 ^ 62 + n) `div` 2 ^ 76 `mod` 2 ^ 4) with 7
    by (apply Z.mod_unique with 0; [lia|]; symmetry; apply Z.div_unique with (2 * 2 ^ 62 + n); lia).
  replace ((7 * 2 ^ 76 + 2 * 2 ^ 62 + n) `div` 2 ^ 62 `mod` 2 ^ 2) with 2; [done|].
  apply Z.mod_unique with (7 * 2 ^ 12); [lia|]. symmetry. apply Z.div_unique with n; lia.
Qed.

#[local] Instance catalog_generator_laws : IdentityGeneratorLaws.
Proof. split; apply draw_ok. Qed.

(** ** Two manifests *)

Definition sample_field (name : string) (t : UserLogicalType) : RawUserField :=
  {| rf_name := name; rf_logical_type := t; rf_nullability := Nullable; rf_description := None;
     rf_historical_remainder_pointer := Some ("/" +:+ name) |}.

Definition sample_revision (n : Z) (fields : list string) : RawIngestionProfileRevision :=
  {| rr_revision := n; rr_target_schema_version := n; rr_maximum_record_bytes := 1024;
     rr_event_time := {| rt_json_pointer := "/time"; rt_format := Rfc3339 |};
     rr_mappings := (λ f, {| rm_target_field := f; rm_json_pointer := "/" +:+ f |}) <$> fields |}.

Definition raw_1 : RawSource :=
  {| rs_name := "web"; rs_display_name := "Web"; rs_active_schema_version := 1;
     rs_schemas := [{| rh_version := 1; rh_fields := [sample_field "status" UInt64_] |}];
     rs_inputs := [{| ri_name := "http"; ri_active_ingestion_profile_revision := 1;
                      ri_ingestion_profile_revisions := [sample_revision 1 ["status"]] |}] |}.

(** A second schema with another field, a second revision, and a second input. *)
Definition raw_2 : RawSource :=
  {| rs_name := "web"; rs_display_name := "Web"; rs_active_schema_version := 2;
     rs_schemas := [{| rh_version := 1; rh_fields := [sample_field "status" UInt64_] |};
                    {| rh_version := 2; rh_fields := [sample_field "status" UInt64_; sample_field "path" UUtf8] |}];
     rs_inputs := [{| ri_name := "http"; ri_active_ingestion_profile_revision := 2;
                      ri_ingestion_profile_revisions := [sample_revision 1 ["status"]; sample_revision 2 ["status"; "path"]] |};
                   {| ri_name := "batch"; ri_active_ingestion_profile_revision := 1;
                      ri_ingestion_profile_revisions := [sample_revision 1 ["status"]] |}] |}.

(** Documents that stand for them. *)
#[local] Instance catalog_yaml : YamlLib := {
  yaml_tokens b := ([OtherToken], true);
  yaml_decode b :=
    if decide (b = ["1"%char]) then Some {| raw_format_version := 1; raw_source := raw_1 |}
    else if decide (b = ["2"%char]) then Some {| raw_format_version := 1; raw_source := raw_2 |} else None;
}.

#[local] Instance catalog_yaml_laws : YamlLaws.
Proof.
  intros b raw H. cbn in H. repeat case_decide; [..|done]; injection H as <-; constructor; cbn; repeat constructor.
Qed.

Definition empty_source : ManifestSource :=
  {| ms_name := ""; ms_display_name := ""; ms_active_schema_version := 0; ms_schemas := []; ms_inputs := [] |}.

Definition manifest_of (b : bytes) : CatalogManifest :=
  match Manifest.decode b with
  | Ok m => m
  | Err _ => {| cm_source := empty_source;
                cm_declarations := {| de_source := {| doc_json := ""; doc_digest := [] |}; de_schemas := []; de_inputs := [] |} |}
  end.

Lemma is_ok_Ok {E A} (r : result E A) : is_ok r = true → ∃ a, r = Ok a.
Proof. destruct r as [a|]; [by exists a | done]. Qed.

Lemma manifest_of_decodes b : is_ok (Manifest.decode b) = true → Manifest.decode b = Ok (manifest_of b).
Proof. unfold manifest_of. by destruct (Manifest.decode b). Qed.

Definition first : CatalogManifest := manifest_of ["1"%char].
Definition second : CatalogManifest := manifest_of ["2"%char].

Lemma first_decodes : Manifest.decode ["1"%char] = Ok first.
Proof. apply manifest_of_decodes. by vm_compute. Qed.

Lemma second_decodes : Manifest.decode ["2"%char] = Ok second.
Proof. apply manifest_of_decodes. by vm_compute. Qed.

(** The store before and after the first one is applied. *)
Definition empty_store : CatalogStore :=
  {| store_tables := {| ct_sources := ∅; ct_schemas := ∅; ct_inputs := ∅; ct_profiles := ∅ |}; store_snapshot := [] |}.
Definition first_store : CatalogStore := (store_apply Answered first 100 empty_store).2.

Lemma first_reached : store_reaches ∅ first_store.
Proof.
  pose proof (reaches_apply Answered ["1"%char] first 100 ∅ empty_store ltac:(by apply reaches_empty) first_decodes) as H.
  refine (eq_rect _ (λ stale, store_reaches stale first_store) H _ _). vm_compute. reflexivity.
Qed.

Lemma first_inv : catalog_inv (store_tables first_store).
Proof. exact (proj1 (reaches_inv ∅ first_store first_reached)). Qed.

(** The stored source that the second manifest finds. *)
Definition loaded : option Source :=
  match load_source_for_update (store_tables first_store) "web" with Ok s => s | Err _ => None end.

Lemma plan_found m current g :
  is_ok (plan_catalog_application m current g) && bool_decide (is_Some current) = true →
  ∃ s p g', current = Some s ∧ plan_catalog_application m (Some s) g = Ok (p, g').
Proof.
  intros [[[p g'] Hp]%is_ok_Ok [s ->]%bool_decide_eq_true]%andb_true_iff. by exists s, p, g'.
Qed.

Lemma load_sound stale store name s :
  store_reaches stale store → load_source_for_update (store_tables store) name = Ok (Some s) → source_sound s.
Proof.
  intros [Hinv _]%reaches_inv H. destruct (load_cases _ name Hinv) as [[E _]|(s' & E & Hs & _)]; rewrite E in H; [done|].
  injection H as <-. apply Hs.
Qed.

(** It is sound, and the second manifest has a plan over it. *)
Lemma second_planned :
  ∃ s p g, source_sound s ∧ loaded = Some s ∧ plan_catalog_application second (Some s) 200 = Ok (p, g).
Proof.
  destruct (plan_found second loaded 200 ltac:(by vm_compute)) as (s & p & g & Hl & Hp). exists s, p, g. split_and!; [|exact Hl | exact Hp].
  apply (load_sound ∅ first_store "web"); [exact first_reached|]. unfold loaded in Hl.
  destruct (load_source_for_update (store_tables first_store) "web"); [by f_equal | discriminate Hl].
Qed.

(** ** Witnesses *)

Lemma reapply_unchanged_witness :
  ∃ s p g, loaded = Some s ∧ plan_catalog_application second (Some s) 200 = Ok (p, g) ∧
    plan_catalog_application second (Some (plan_source p)) 300 = Ok (plan_stored p, 300).
Proof.
  destruct second_planned as (s & p & g & Hs & Hl & H). exists s, p, g. split; [exact Hl|]. split; [exact H|].
  refine (proj1 (reapply_unchanged ["2"%char] second (Some s) 200 p g 300 second_decodes _ H)).
  apply (current_sound_distinct (Some s) (src_id s)). intros s' [= <-]. by split.
Defined.

Lemma application_extends_witness :
  ∃ s p g, plan_catalog_application second (Some s) 200 = Ok (p, g) ∧ src_schemas s `prefix_of` src_schemas (plan_source p).
Proof.
  destruct second_planned as (s & p & g & Hs & Hl & H). exists s, p, g. split; [exact H|].
  exact (proj1 (proj2 (proj2 (application_extends second s 200 p g (sound_wf s Hs) H)))).
Defined.

Lemma planned_definitions_round_trip_witness :
  ∃ s p g, plan_catalog_application second (Some s) 200 = Ok (p, g) ∧
    Forall2 schema_reads (src_schemas (plan_source p)) (plan_schema_definitions p).
Proof.
  destruct second_planned as (s & p & g & Hs & Hl & H). exists s, p, g. split; [exact H|].
  refine (proj1 (planned_definitions_round_trip ["2"%char] second (Some s) 200 p g second_decodes _ H)). by intros s' [= <-].
Defined.

Lemma kept_definitions_declared_witness :
  ∃ s p g, plan_catalog_application second (Some s) 200 = Ok (p, g) ∧
    ∀ k stored, src_schemas s !! k = Some stored → ∃ declared, ms_schemas (cm_source second) !! k = Some declared ∧
      ((s_version stored = mh_version declared ∧ Forall2 declares_field (mh_fields declared) (data_fields stored)) ∨
       documents_collide (stored_schema_declaration stored) (manifest_schema_declaration declared)).
Proof.
  destruct second_planned as (s & p & g & Hs & Hl & H). exists s, p, g. split; [exact H|].
  exact (proj1 (kept_definitions_declared ["2"%char] second s 200 p g second_decodes Hs H)).
Defined.

Lemma apply_durable_witness :
  ∃ plan t', apply_transaction second 200 (store_tables first_store) = Ok (plan, t') ∧ catalog_inv t'.
Proof.
  assert (Hok : is_ok (apply_transaction second 200 (store_tables first_store)) = true) by (by vm_compute).
  apply is_ok_Ok in Hok as [[plan t'] H]. exists plan, t'. split; [exact H|].
  exact (proj1 (apply_durable ["2"%char] second 200 (store_tables first_store) plan t'
    (proj1 (reaches_inv ∅ first_store first_reached)) second_decodes H)).
Defined.

(** The answer to the commit of the second manifest is lost: the snapshot still has the
    source of the first one; applying the manifest again makes it current. *)
Definition unanswered_store : CatalogStore := (store_apply Unanswered second 200 first_store).2.
Definition repaired_store : CatalogStore := (store_apply Answered second 300 unanswered_store).2.

Lemma unanswered_stale :
  store_snapshot unanswered_store = store_snapshot first_store ∧
  (length ∘ src_schemas <$> source_by_name (store_snapshot unanswered_store) "web") ≠
    (length ∘ src_schemas <$> source_by_name (store_snapshot repaired_store) "web").
Proof. split; [vm_compute; reflexivity | vm_compute; discriminate]. Qed.

Lemma unanswered_reached : store_reaches {["web"]} unanswered_store.
Proof.
  pose proof (reaches_apply Unanswered ["2"%char] second 200 ∅ first_store first_reached second_decodes) as H.
  refine (eq_rect _ (λ stale, store_reaches stale unanswered_store) H _ _). vm_compute. reflexivity.
Qed.

Lemma repaired_reached : store_reaches ∅ repaired_store.
Proof.
  pose proof (reaches_apply Answered ["2"%char] second 300 _ unanswered_store unanswered_reached second_decodes) as H.
  refine (eq_rect _ (λ stale, store_reaches stale repaired_store) H _ _). vm_compute. reflexivity.
Qed.

Lemma snapshot_is_current_witness :
  ∃ snapshot, load_consistent_snapshot (store_tables repaired_store) = Ok snapshot ∧
    Forall2 source_equiv (store_snapshot repaired_store) snapshot.
Proof.
  destruct (snapshot_is_current ∅ repaired_store repaired_reached) as (_ & snapshot & Hl & He & _).
  exists snapshot. split; [exact Hl | exact (He eq_refl)].
Defined.
