(* ===== verification/Query.v ===== *)
(** * elucid-metastore: query snapshots

    Models src/elucid/elucid-metastore/src/query.rs: resolving a query text and the Parquet
    objects it reads under one snapshot of the database. The transaction is REPEATABLE READ
    and READ ONLY, so it is a function of the committed tables; the failures of its
    statements and the clock of the database are arguments. *)

From S2P Require Import Core CatalogTypes CatalogModel CatalogSource Syntax Floats Parser IR SemExpression SemPipeline Language Bytes Frame Json Canonical Stored Storage Database CatalogStore Prelude.
Import Schema.

#[local] Open Scope string_scope.
#[local] Open Scope list_scope.
#[local] Open Scope Z_scope.

(** ** Parameters: chrono and PostgreSQL *)

Class QueryCalendar `{Calendar} := {
  (** the order of dates *)
  date_ltb : NaiveDate → NaiveDate → bool;
  (** [timestamp_millis] and [from_timestamp_millis] *)
  instant_millis : DateTime → Z;
  from_timestamp_millis : Z → option DateTime;
  (** [checked_sub_signed(TimeDelta::milliseconds(1))] *)
  sub_millisecond : DateTime → option DateTime;
  (** PostgreSQL accepts the instant, and its date, as parameters of a statement *)
  binds : DateTime → bool;
}.

(** ** Requests and limits *)

Definition MAXIMUM_QUERY_SNAPSHOT_SEGMENTS : Z := 10000.
Definition QUERY_SNAPSHOT_ROW_LIMIT : Z := 10001.

Inductive QuerySnapshotModelError :=
| RequestTimeRangeNotOrdered | RequestTimestampPrecisionUnsupported | MaximumParquetBytesMustBePositive.

Definition QuerySnapshotLimits_new (maximum_parquet_bytes : Z) : result QuerySnapshotModelError Z :=
  ok_or (NonZeroU64_new maximum_parquet_bytes) MaximumParquetBytesMustBePositive.

(** ** Errors *)

Inductive QuerySnapshotLimitExceeded := SegmentCount (maximum : Z) | ParquetBytes (maximum : Z).

Inductive QuerySnapshotErrorKind := QueryAnalysis | QueryResourceLimit | QueryUnavailable | QueryCorrupt.

Inductive QuerySnapshotErrorSource :=
| AnalysisSource (e : AnalyzeError)
| LimitSource (e : QuerySnapshotLimitExceeded)
| CatalogApplicationSource (e : CatalogApplicationError)
| CatalogModelSource
| StorageModelSource (e : StorageModelError)
| DatabaseSource (e : SqlError)
| InvariantSource (message : string).

Record QuerySnapshotError := { qe_kind : QuerySnapshotErrorKind; qe_source : QuerySnapshotErrorSource }.

Definition analysis_error (e : QuerySnapshotError) : option AnalyzeError :=
  match qe_source e with AnalysisSource source => Some source | _ => None end.

Definition limit_exceeded (e : QuerySnapshotError) : option QuerySnapshotLimitExceeded :=
  match qe_source e with LimitSource source => Some source | _ => None end.

Definition query_analysis (source : AnalyzeError) : QuerySnapshotError :=
  {| qe_kind := QueryAnalysis; qe_source := AnalysisSource source |}.
Definition query_resource_limit (source : QuerySnapshotLimitExceeded) : QuerySnapshotError :=
  {| qe_kind := QueryResourceLimit; qe_source := LimitSource source |}.
Definition query_catalog_model : QuerySnapshotError :=
  {| qe_kind := QueryCorrupt; qe_source := CatalogModelSource |}.
Definition query_catalog_application (source : CatalogApplicationError) : QuerySnapshotError :=
  {| qe_kind := QueryCorrupt; qe_source := CatalogApplicationSource source |}.
Definition query_storage_model (source : StorageModelError) : QuerySnapshotError :=
  {| qe_kind := QueryCorrupt; qe_source := StorageModelSource source |}.
Definition query_unavailable (source : SqlError) : QuerySnapshotError :=
  {| qe_kind := QueryUnavailable; qe_source := DatabaseSource source |}.
Definition query_read (source : SqlError) : QuerySnapshotError :=
  {| qe_kind := if is_row_decode_error source then QueryCorrupt else QueryUnavailable;
     qe_source := DatabaseSource source |}.
Definition query_corrupt (message : string) : QuerySnapshotError :=
  {| qe_kind := QueryCorrupt; qe_source := InvariantSource message |}.

Notation snapshot_result := (result QuerySnapshotError).

Section Query.
Context {env : SpoolEnv} {lib : JsonLib} {text : JsonText} {uuid : UuidText} {number_equality : NumberEq}.
Context {paths : PathLib} {chrono : Chrono} {calendar : Calendar} {query_calendar : QueryCalendar}.

Record QueryRequestTimeRange := { qt_start_inclusive : DateTime; qt_end_exclusive : DateTime }.

Definition millisecond_precision (timestamp : DateTime) : bool :=
  Z.rem (timestamp_subsec_nanos timestamp) 1000000 =? 0.

Definition QueryRequestTimeRange_new (start_inclusive end_exclusive : DateTime)
    : result QuerySnapshotModelError QueryRequestTimeRange :=
  if existsb (λ timestamp, negb (millisecond_precision timestamp)) [start_inclusive; end_exclusive]
  then Err RequestTimestampPrecisionUnsupported
  else if datetime_leb end_exclusive start_inclusive then Err RequestTimeRangeNotOrdered
  else Ok {| qt_start_inclusive := start_inclusive; qt_end_exclusive := end_exclusive |}.

Record QuerySegment := { qs_descriptor : SegmentDescriptor; qs_published_at : DateTime }.

Record QuerySnapshot := {
  qn_analysis : Analysis;
  qn_reference_time : Z;
  qn_active_schema : Schema;
  qn_stored_schemas : list Schema;
  qn_segments : list QuerySegment;
  qn_selected_parquet_bytes : Z;
}.

Definition qn_time_range (snapshot : QuerySnapshot) : ir.TimeRange :=
  ir.pl_time_range (an_pipeline (qn_analysis snapshot)).

Definition qn_source_id (snapshot : QuerySnapshot) : Z :=
  ir.source_id (ir.pl_source (an_pipeline (qn_analysis snapshot))).

(** ** The statements *)

(** What the statements of one transaction do: the failure of each, and the time. *)
Record SnapshotIo := {
  io_begin : option SqlError;
  io_isolation : option SqlError;
  io_reference_time : sql DateTime;
  io_source : option SqlError;
  io_active_schema : option SqlError;
  io_segments : option SqlError;
  io_schemas : option SqlError;
  io_commit : option SqlError;
}.

Definition attempt_read {A} (failure : option SqlError) (rows : A) : snapshot_result A :=
  match failure with Some e => Err (query_read e) | None => Ok rows end.

Definition attempt_execute (failure : option SqlError) : snapshot_result unit :=
  match failure with Some e => Err (query_unavailable e) | None => Ok tt end.

(** ** The catalog of the query *)

Definition query_identity (value : Z) : snapshot_result Z := ok_or (UuidV7.new value) query_catalog_model.

Definition materialize_schema (row : SchemaRow) : snapshot_result Schema :=
  schema_id ← query_identity (sv_schema_id row);
  source_id ← query_identity (sv_source_id row);
  _ ← check (0 <=? sv_version row) (query_corrupt "stored schema version is negative");
  version ← map_err (λ _, query_catalog_model) (SchemaVersion_new (sv_version row));
  map_err query_catalog_application (decode_stored_schema_definition schema_id source_id version (sv_definition row)).

(** [SELECT … FROM schema_versions WHERE source_id = $1 AND schema_id = $2] *)
Definition schema_row_by_id (tables : CatalogTables) (source_id schema_id : Z) : option SchemaRow :=
  find (λ row, (sv_source_id row =? source_id) && (sv_schema_id row =? schema_id)) (map_to_list (ct_schemas tables)).*2.

Definition load_analysis_source (tables : CatalogTables) (io : SnapshotIo) (source_name : string)
    : snapshot_result (option Source) :=
  source ← attempt_read (io_source io) (source_row_by_name tables source_name);
  match source with
  | None => Ok None
  | Some source =>
      row ← attempt_read (io_active_schema io)
              (schema_row_by_id tables (so_source_id source) (so_active_schema_id source));
      row ← ok_or row (query_corrupt "captured source references a missing active schema");
      source_id ← query_identity (so_source_id source);
      active_schema_id ← query_identity (so_active_schema_id source);
      name ← map_err (λ _, query_catalog_model) (try_name SourceKind (so_name source));
      schema ← materialize_schema row;
      source ← map_err query_catalog_application
                 (assemble_stored_source source_id name (so_display_name source) active_schema_id [schema] []);
      Ok (Some source)
  end.

Definition version_le (a b : Schema) : Prop := s_version a ≤ s_version b.

#[export] Instance version_le_dec a b : Decision (version_le a b).
Proof. unfold version_le. apply _. Defined.

(** [active] is the active schema of the source. *)
Definition validate_schema_adapters (source : Source) (active : Schema) (stored_schemas : list Schema)
    : snapshot_result unit :=
  let schemas :=
    if existsb (λ schema, s_id schema =? s_id active) stored_schemas then stored_schemas
    else stored_schemas ++ [active] in
  _ ← map_err query_catalog_application
        (assemble_stored_source (src_id source) (src_name source) (src_display_name source) (s_id active)
           (merge_sort version_le schemas) []);
  Ok tt.

Definition validate_analysis_source (analysis : Analysis) (source : Source) (active : Schema) : snapshot_result unit :=
  let analyzed := ir.pl_source (an_pipeline analysis) in
  check ((ir.source_id analyzed =? src_id source) && (ir.active_schema_id analyzed =? s_id active))
    (query_corrupt "typed query source does not match the captured catalog source").

(** ** The time range of the segments *)

Inductive DatabaseTimestamp := BeforeSupportedRange | SupportedValue (value : DateTime) | AfterSupportedRange.

Definition from_instant (milliseconds : ir.UtcInstant) : DatabaseTimestamp :=
  match from_timestamp_millis milliseconds with
  | Some value => SupportedValue value
  | None => if milliseconds <? 0 then BeforeSupportedRange else AfterSupportedRange
  end.

Record SegmentTimeBounds := { tb_start_inclusive : option DateTime; tb_end_exclusive : option DateTime }.

Inductive SegmentTimeSelection := EmptySelection | Bounds (bounds : SegmentTimeBounds).

Definition from_range (range : ir.TimeRange) : SegmentTimeSelection :=
  match from_instant (ir.start_inclusive range), from_instant (ir.end_exclusive range) with
  | AfterSupportedRange, _ | _, BeforeSupportedRange => EmptySelection
  | BeforeSupportedRange, AfterSupportedRange => Bounds {| tb_start_inclusive := None; tb_end_exclusive := None |}
  | BeforeSupportedRange, SupportedValue e => Bounds {| tb_start_inclusive := None; tb_end_exclusive := Some e |}
  | SupportedValue s, AfterSupportedRange => Bounds {| tb_start_inclusive := Some s; tb_end_exclusive := None |}
  | SupportedValue s, SupportedValue e => Bounds {| tb_start_inclusive := Some s; tb_end_exclusive := Some e |}
  end.

(** [s.event_day >= date(start) AND s.maximum_event_time >= start] and
    [s.event_day <= date(end - 1ms) AND s.minimum_event_time < end] *)
Definition within_bounds (bounds : SegmentTimeBounds) (r : SegmentRow) : bool :=
  let times := sc_times (sg_columns r) in
  match tb_start_inclusive bounds with
  | Some start => negb (date_ltb (sg_event_day r) (date_naive start))
                  && negb (datetime_ltb (maximum_event_time times) start)
  | None => true
  end
  && match tb_end_exclusive bounds with
     | Some end_ =>
         match sub_millisecond end_ with
         | Some last => negb (date_ltb (date_naive last) (sg_event_day r))
         | None => true
         end
         && datetime_ltb (minimum_event_time times) end_
     | None => true
     end.

Definition bounds_bind (bounds : SegmentTimeBounds) : bool :=
  match tb_start_inclusive bounds with Some start => binds start | None => true end
  && match tb_end_exclusive bounds with
     | Some end_ => match sub_millisecond end_ with Some last => binds last | None => true end && binds end_
     | None => true
     end.

(** ** The segments *)

Record QuerySegmentRow := {
  qr_segment : SegmentColumns;
  qr_segment_published_at : DateTime;
  qr_object : option ObjectRow;
}.

(** [segments AS s LEFT JOIN stored_objects AS o ON o.segment_id = s.segment_id] *)
Definition joined_objects (db : Database) (segment : SegmentRow) : list (SegmentRow * option ObjectRow) :=
  match filter (λ object, ob_segment_id object = Some (sg_id segment)) (rows (db_objects db)) with
  | [] => [(segment, None)]
  | objects => (λ object, (segment, Some object)) <$> objects
  end.

Definition left_joined (db : Database) : list (SegmentRow * option ObjectRow) :=
  rows (db_segments db) ≫= joined_objects db.

(** [ORDER BY s.event_day, s.segment_id, o.object_id]: NULL comes last. *)
Definition segment_order (a b : SegmentRow * option ObjectRow) : Prop :=
  date_ltb (sg_event_day a.1) (sg_event_day b.1) = true ∨
  (sg_event_day a.1 = sg_event_day b.1 ∧
   (sg_id a.1 < sg_id b.1 ∨
    (sg_id a.1 = sg_id b.1 ∧
     match a.2, b.2 with
     | Some x, Some y => ob_id x ≤ ob_id y
     | _, None => True
     | None, Some _ => False
     end))).

#[export] Instance segment_order_dec a b : Decision (segment_order a b).
Proof. unfold segment_order. destruct (a.2), (b.2); apply _. Defined.

Definition selects_segment (source_id : SourceId) (bounds : SegmentTimeBounds) (r : SegmentRow) : bool :=
  (sc_source_id (sg_columns r) =? source_id) && bool_decide (sg_state r = "ACTIVE") && within_bounds bounds r.

(** [segment_published_at] is decoded as a value that is not NULL. *)
Definition decode_segment_row (r : SegmentRow * option ObjectRow) : snapshot_result QuerySegmentRow :=
  published_at ← map_err query_read (ok_or (sg_published_at r.1) Decode);
  Ok {| qr_segment := sg_columns r.1; qr_segment_published_at := published_at; qr_object := r.2 |}.

Definition select_segment_rows (db : Database) (io : SnapshotIo) (source_id : SourceId) (time_range : ir.TimeRange)
    : snapshot_result (list QuerySegmentRow) :=
  match from_range time_range with
  | EmptySelection => Ok []
  | Bounds bounds =>
      _ ← check (bounds_bind bounds) (query_read datetime_overflow);
      selected ← attempt_read (io_segments io)
        (take (Z.to_nat QUERY_SNAPSHOT_ROW_LIMIT)
           (merge_sort segment_order (filter (λ r, selects_segment source_id bounds r.1 = true) (left_joined db))));
      try_map decode_segment_row selected
  end.

Definition required_object {A} (value : option A) : snapshot_result A :=
  ok_or value (query_corrupt "active segment has no complete stored object descriptor").

Definition materialize_object (row : QuerySegmentRow) (segment_id : SegmentId) : snapshot_result ObjectDescriptor :=
  let mismatch := query_corrupt "active segment does not own one published Parquet object" in
  object ← required_object (qr_object row);
  let columns := ob_columns object in
  _ ← check (bool_decide (oc_kind columns = "PARQUET_DATA")) mismatch;
  owner ← required_object (oc_segment_id columns);
  _ ← check (owner =? segment_id) mismatch;
  _ ← check (bool_decide (ob_state object = "PUBLISHED")) mismatch;
  published_at ← required_object (ob_published_at object);
  _ ← check (bool_decide (published_at = qr_segment_published_at row))
        (query_corrupt "segment and object publication times differ");
  key ← map_err query_storage_model (parse_parquet (oc_object_key columns) segment_id (oc_object_id columns));
  _ ← check (0 <=? oc_expected_byte_size columns) (query_corrupt "stored object byte size is negative");
  _ ← check (length (oc_digest columns) =? 32)%nat (query_corrupt "stored object digest is not 32 bytes");
  _ ← check (bool_decide (oc_media_type columns = media_type_as_str ParquetMedia))
        (query_corrupt "stored Parquet object has an unexpected media type");
  _ ← check (0 <=? oc_format_version columns) (query_corrupt "stored object format version is negative");
  format_version ← map_err query_storage_model (ObjectFormatVersion_new (oc_format_version columns));
  map_err query_storage_model
    (ObjectDescriptor_new key (oc_expected_byte_size columns) (oc_digest columns) ParquetMedia format_version).

(** [u64::try_from(value).ok().and_then(|value| new(value).ok()).ok_or(..)] *)
Definition positive_count (new : Z → storage_model Z) (value : Z) (message : string) : snapshot_result Z :=
  _ ← check (0 <=? value) (query_corrupt message);
  map_err (λ _, query_corrupt message) (new value).

Definition materialize_segment (source : Source) (row : QuerySegmentRow) : snapshot_result QuerySegment :=
  let columns := qr_segment row in
  let times := sc_times columns in
  source_id ← query_identity (sc_source_id columns);
  _ ← check (source_id =? src_id source) (query_corrupt "selected segment belongs to the wrong source");
  schema_id ← query_identity (sc_schema_id columns);
  times ← map_err query_storage_model
            (SegmentTimes_new (event_day times) (minimum_event_time times) (maximum_event_time times)
               (minimum_ingestion_time times) (maximum_ingestion_time times));
  row_count ← positive_count RowCount_new (sc_row_count columns) "selected segment has a non-positive row count";
  uncompressed_bytes ← positive_count UncompressedByteSize_new (sc_uncompressed_bytes columns)
                         "selected segment has a non-positive uncompressed byte count";
  object ← materialize_object row (sc_segment_id columns);
  descriptor ← map_err query_storage_model
    (SegmentDescriptor_new (sc_segment_id columns) source_id schema_id times row_count uncompressed_bytes object);
  Ok {| qs_descriptor := descriptor; qs_published_at := qr_segment_published_at row |}.

Definition qs_parquet_bytes (segment : QuerySegment) : Z := od_expected_byte_size (sd_object (qs_descriptor segment)).

Definition add_segment (source : Source) (state : list QuerySegment * Z) (row : QuerySegmentRow)
    : snapshot_result (list QuerySegment * Z) :=
  segment ← materialize_segment source row;
  selected_parquet_bytes ← ok_or (checked_add U64 state.2 (qs_parquet_bytes segment))
                             (query_corrupt "selected Parquet byte count overflowed");
  Ok (state.1 ++ [segment], selected_parquet_bytes).

Definition materialize_segments (rows : list QuerySegmentRow) (source : Source) : snapshot_result (list QuerySegment * Z) :=
  try_fold (add_segment source) ([], 0) rows.

Definition required_schemas (segments : list QuerySegment) : gset Z :=
  list_to_set ((λ segment, sd_schema_id (qs_descriptor segment)) <$> segments).

Definition load_stored_schemas (tables : CatalogTables) (io : SnapshotIo) (source : Source) (active : Schema)
    (segments : list QuerySegment) : snapshot_result (list Schema) :=
  let required := required_schemas segments in
  if bool_decide (required = ∅) then Ok []
  else
    schema_rows ← attempt_read (io_schemas io)
      (select (λ row, (sv_source_id row =? src_id source) && bool_decide (sv_schema_id row ∈ required))
         (λ a b, sv_version a ?= sv_version b) (ct_schemas tables));
    stored_schemas ← try_map materialize_schema schema_rows;
    _ ← check (bool_decide (length stored_schemas = size required)
               && forallb (λ schema, bool_decide (s_id schema ∈ required)) stored_schemas)
          (query_corrupt "selected segment schema is absent from the captured catalog");
    _ ← validate_schema_adapters source active stored_schemas;
    Ok stored_schemas.

(** ** [QuerySnapshotStore::select] *)

Section Select.
(** Decoding of a string token, and the span of the library's syntax error. *)
Context (decode_string : string → option string) (error_span : string → Span).

Definition time_context (reference_time : DateTime) (range : QueryRequestTimeRange) : QueryTimeContext :=
  {| reference_time := instant_millis reference_time;
     request_start_inclusive := Some (instant_millis (qt_start_inclusive range));
     request_end_exclusive := Some (instant_millis (qt_end_exclusive range)) |}.

(** The reference time and the source, up to the analysis. *)
Definition capture_source (tables : CatalogTables) (io : SnapshotIo) (source_name : string)
    : snapshot_result (DateTime * option Source) :=
  _ ← attempt_execute (io_begin io);
  _ ← attempt_execute (io_isolation io);
  reference_time ← map_err query_read (io_reference_time io);
  _ ← check (millisecond_precision reference_time)
        (query_corrupt "PostgreSQL returned a query reference time below millisecond precision");
  source ← load_analysis_source tables io source_name;
  Ok (reference_time, source).

(** The objects of an analyzed query. *)
Definition capture_segments (tables : CatalogTables) (db : Database) (io : SnapshotIo) (maximum_parquet_bytes : Z)
    (reference_time : DateTime) (analysis : Analysis) (source : Source) (active : Schema) : snapshot_result QuerySnapshot :=
  _ ← validate_analysis_source analysis source active;
  rows ← select_segment_rows db io (src_id source) (ir.pl_time_range (an_pipeline analysis));
  _ ← check (Z.of_nat (length rows) <=? MAXIMUM_QUERY_SNAPSHOT_SEGMENTS)
        (query_resource_limit (SegmentCount MAXIMUM_QUERY_SNAPSHOT_SEGMENTS));
  '(segments, selected_parquet_bytes) ← materialize_segments rows source;
  _ ← check (selected_parquet_bytes <=? maximum_parquet_bytes) (query_resource_limit (ParquetBytes maximum_parquet_bytes));
  stored_schemas ← load_stored_schemas tables io source active segments;
  _ ← attempt_execute (io_commit io);
  Ok {| qn_analysis := analysis; qn_reference_time := instant_millis reference_time; qn_active_schema := active;
        qn_stored_schemas := stored_schemas; qn_segments := segments;
        qn_selected_parquet_bytes := selected_parquet_bytes |}.

(** [None] is the panic of [active_schema], which no constructed source has. *)
Definition select_snapshot (tables : CatalogTables) (db : Database) (io : SnapshotIo) (query : string)
    (request_range : QueryRequestTimeRange) (maximum_parquet_bytes : Z) : option (snapshot_result QuerySnapshot) :=
  match map_err query_analysis (parse_query decode_string error_span query) with
  | Err e => Some (Err e)
  | Ok parsed =>
      match capture_source tables io (ast.id_value (ast.se_name (ast.q_source parsed))) with
      | Err e => Some (Err e)
      | Ok (reference_time, source) =>
          match analyze_parsed query parsed {| snapshot_source := source |} (time_context reference_time request_range) with
          | None => None
          | Some (Err e) => Some (Err (query_analysis e))
          | Some (Ok analysis) =>
              match source with
              | None => Some (Err (query_corrupt "analysis accepted a source absent from its catalog"))
              | Some source =>
                  match active_schema source with
                  | None => None
                  | Some active =>
                      Some (capture_segments tables db io maximum_parquet_bytes reference_time analysis source active)
                  end
              end
          end
      end
  end.

End Select.
End Query.
