(* ===== verification/QueryCorrect.v ===== *)
(** * Query snapshots: what a query reads

    The conditions that let PostgreSQL use its indexes select exactly the active segments
    that overlap the time range; a snapshot holds these segments with the published
    objects and the schemas they need; and on intact tables a snapshot is refused only for
    the analysis of the query, its limits, or a time the database cannot hold. *)

From S2P Require Import Core ErrorCode CatalogTypes CatalogModel CatalogSource Syntax Floats Parser IR SemExpression SemPipeline Language Bytes Frame Json Canonical Manifest Application Stored Storage Database Publication MetastoreInvariant MetastoreLifecycle ApplicationCorrect StoredCorrect CatalogStore CatalogLoad Query Prelude.
Import Schema.

#[local] Open Scope string_scope.
#[local] Open Scope list_scope.
#[local] Open Scope Z_scope.

(** ** The calendar *)

(** An instant at a whole millisecond comes after the instants whose floor is smaller;
    what chrono cannot represent lies before or after every instant; days begin at a whole
    millisecond, so dates follow the milliseconds. *)
Class QueryCalendarLaws `{QueryCalendar} : Prop := {
  millis_ltb z d t : from_timestamp_millis z = Some d → datetime_ltb t d = true ↔ instant_millis t < z;
  millis_before z t : from_timestamp_millis z = None → z < 0 → z < instant_millis t;
  millis_after z t : from_timestamp_millis z = None → 0 ≤ z → instant_millis t < z;
  millis_exact z d : from_timestamp_millis z = Some d → instant_millis d = z;
  millis_sub d d' : sub_millisecond d = Some d' → instant_millis d' = instant_millis d - 1;
  date_monotone a b : instant_millis a ≤ instant_millis b → date_ltb (date_naive b) (date_naive a) = false;
  date_irreflexive a : date_ltb a a = false;
  date_transitive a b c : date_ltb a b = true → date_ltb b c = true → date_ltb a c = true;
  date_total a b : date_ltb a b = true ∨ a = b ∨ date_ltb b a = true;
}.

(** ** Histories that [Source::new] accepts *)

(** What the constructor asks of the schemas of a source. *)
Record history_ok (id : SourceId) (schemas : list Schema) : Prop := {
  ho_owned : Forall (λ x, s_source_id x = id) schemas;
  ho_versions : StronglySorted Z.lt (s_version <$> schemas);
  ho_ids : NoDup (s_id <$> schemas);
  ho_evolves : StronglySorted Evolves schemas;
  ho_identity : ∀ a b f g, a ∈ schemas → b ∈ schemas → f ∈ data_fields a → g ∈ data_fields b →
    f_id f = f_id g ↔ f_name f = f_name g;
}.

Lemma StronglySorted_sublist {A} (R : relation A) l k : StronglySorted R k → l `sublist_of` k → StronglySorted R l.
Proof.
  intros Hs Hl. induction Hl as [|x l k Hl IH|x l k Hl IH]; [constructor| |].
  - inversion_clear Hs as [|? ? Hk Hx]. constructor; [by apply IH|]. rewrite Forall_forall in Hx |- *. intros y Hy.
    apply Hx. by eapply elem_of_sublist.
  - inversion_clear Hs. by apply IH.
Qed.

Lemma StronglySorted_lookups {A} (R : relation A) l :
  (∀ i j a b, (i ≤ j)%nat → l !! i = Some a → l !! j = Some b → R a b) → StronglySorted R l.
Proof.
  induction l as [|x l IH]; intros H; [constructor|]. constructor.
  - apply IH. intros i j a b Hij Ha Hb. apply (H (S i) (S j)); [lia | done..].
  - rewrite Forall_forall. intros y [j Hj]%list_elem_of_lookup. by apply (H O (S j)); [lia|..].
Qed.

(** The schemas of a source that are left out do not matter. *)
Lemma history_sublist s l : Source_wf s → l `sublist_of` src_schemas s → history_ok (src_id s) l.
Proof.
  intros [Hown Hver Hids Hev Hid _ _ _ _ _] Hl. constructor.
  - rewrite Forall_forall in Hown |- *. intros x Hx. apply Hown. by eapply elem_of_sublist.
  - eapply StronglySorted_sublist; [exact Hver|]. by apply fmap_sublist.
  - eapply sublist_NoDup; [exact Hids|]. by apply fmap_sublist.
  - eapply StronglySorted_sublist; [by apply StronglySorted_lookups | done].
  - intros a b f g Ha Hb. apply Hid; by eapply elem_of_sublist.
Qed.

Lemma validate_windows_complete l : StronglySorted Evolves l → validate_windows l = Ok tt.
Proof.
  induction 1 as [|x l Hs IH Hx]; [done|]. destruct l as [|y l]; [done|]. inversion_clear Hx as [|? ? Hxy _].
  change (validate_windows (x :: y :: l)) with (_ ← validate_additive_schema_evolution x y; validate_windows (y :: l)).
  by rewrite (proj2 (validate_additive_Ok x y) Hxy), bind_ret.
Qed.

(** Fields whose identities and names determine each other extend the two maps. *)
Lemma identity_fields_complete fs : ∀ n m,
  inverse_maps n m →
  (∀ f, f ∈ fs → ∀ name, n !! f_id f = Some name → name = f_name f) →
  (∀ f, f ∈ fs → ∀ id, m !! f_name f = Some id → id = f_id f) →
  (∀ f g, f ∈ fs → g ∈ fs → f_id f = f_id g ↔ f_name f = f_name g) →
  ∃ n' m', validate_identity_fields n m fs = Ok (n', m') ∧
    ∀ id name, n' !! id = Some name → n !! id = Some name ∨ ∃ f, f ∈ fs ∧ f_id f = id ∧ f_name f = name.
Proof.
  induction fs as [|f fs IH]; intros n m Hinv Hn Hm Hfg; [exists n, m; split; [done | by left]|].
  cbn [validate_identity_fields]. destruct (n !! f_id f) as [name|] eqn:En.
  - assert (name = f_name f) as -> by (apply (Hn f); [set_solver | done]). rewrite decide_True, bind_ret by done.
    rewrite (proj1 (Hinv _ _) En), decide_True, bind_ret by done.
    destruct (IH n m) as (n' & m' & -> & Hex); [done | set_solver.. |]. exists n', m'. split; [done|].
    intros id nm [|(g & ? & ?)]%Hex; [by left|]. right. exists g. set_solver.
  - rewrite bind_ret. destruct (m !! f_name f) as [id|] eqn:Em.
    { assert (id = f_id f) as -> by (apply (Hm f); [set_solver | done]). apply Hinv in Em. congruence. }
    rewrite bind_ret. destruct (IH (<[f_id f := f_name f]> n) (<[f_name f := f_id f]> m)) as (n' & m' & -> & Hex).
    + intros id name. rewrite !lookup_insert. specialize (Hinv id name). repeat case_decide; naive_solver.
    + intros g Hg name. rewrite lookup_insert. case_decide as E; [|apply Hn; set_solver].
      intros [= <-]. apply (Hfg f g); set_solver.
    + intros g Hg id. rewrite lookup_insert. case_decide as E; [|apply Hm; set_solver].
      intros [= <-]. apply (Hfg f g); set_solver.
    + intros g h Hg Hh. apply Hfg; set_solver.
    + exists n', m'. split; [done|]. intros id name [Hid|(g & ? & ?)]%Hex; [|right; exists g; set_solver].
      rewrite lookup_insert in Hid. case_decide; [|by left]. right. exists f. naive_solver set_solver.
Qed.

(** The names that the scan remembers are those of the schemas it has seen. *)
Definition names_seen (seen : list Schema) (st : history_scan) : Prop :=
  ∀ id name, h_names_by_id st !! id = Some name → ∃ a f, a ∈ seen ∧ f ∈ data_fields a ∧ f_id f = id ∧ f_name f = name.

Lemma versions_last_lt (l : list Z) x y k : StronglySorted Z.lt (l ++ x :: k) → last l = Some y → y < x.
Proof.
  intros Hs Hl%last_Some_elem_of. induction l as [|z l IH]; [set_solver|]. inversion_clear Hs as [|? ? Hs' Hz].
  apply elem_of_cons in Hl as [->|Hl]; [|by apply IH]. rewrite Forall_app, Forall_cons in Hz. by destruct Hz as (_ & ? & _).
Qed.

Lemma history_step_complete id act seen st schema rest :
  history_inv id act seen st → names_seen seen st → history_ok id (seen ++ schema :: rest) →
  ∃ st', history_step id act st (length seen, schema) = Ok st' ∧ names_seen (seen ++ [schema]) st' ∧
    h_active_schema_index st' = (if s_id schema =? act then Some (length seen) else h_active_schema_index st).
Proof.
  intros Hi Hn [Hown Hver Hids Hev Hid]. unfold history_step.
  rewrite Forall_app, Forall_cons in Hown. destruct Hown as (_ & Ho & _). rewrite Ho, Z.eqb_refl. cbn [negb].
  assert (Hv : ∀ A (k : result CatalogModelError A), (_ ← match h_previous_version st with
       | Some previous => if s_version schema <=? previous then Err (SchemaVersionsMustIncrease previous (s_version schema)) else Ok tt
       | None => Ok tt end; k) = k).
  { intros A k. rewrite (hi_previous _ _ _ _ Hi). destruct (last (s_version <$> seen)) as [y|] eqn:El; [|done].
    rewrite fmap_app, fmap_cons in Hver. pose proof (versions_last_lt _ _ _ _ Hver El).
    by rewrite (proj2 (Z.leb_gt _ _)). }
  rewrite Hv. destruct (h_schema_indexes st !! s_id schema) as [i|] eqn:Ei.
  { apply (hi_indexes _ _ _ _ Hi) in Ei as (a & Ha & E). rewrite fmap_app, fmap_cons, NoDup_app in Hids. destruct Hids as (_ & Hd & _).
    destruct (Hd (s_id a)); [by apply list_elem_of_fmap_2, list_elem_of_lookup_2 in Ha || apply list_elem_of_fmap_2; eapply list_elem_of_lookup_2|].
    rewrite E. set_solver. }
  unfold validate_historical_field_identity.
  destruct (identity_fields_complete (data_fields schema) (h_names_by_id st) (h_ids_by_name st)) as (n' & m' & -> & Hex).
  - apply (hi_maps _ _ _ _ Hi).
  - intros f Hf name (a & g & Ha & Hg & E & <-)%Hn. apply (Hid a schema g f); set_solver.
  - intros f Hf i Hname. apply (hi_maps _ _ _ _ Hi) in Hname. apply Hn in Hname as (a & g & Ha & Hg & <- & E).
    apply (Hid a schema g f); set_solver.
  - intros f g Hf Hg. apply (Hid schema schema f g); set_solver.
  - rewrite bind_ret. eexists. split; [done|]. cbn. split; [|done]. intros i name [Hs|(f & Hf & E)]%Hex.
    + apply Hn in Hs as (a & f & Ha & Hf). exists a, f. set_solver.
    + exists schema, f. set_solver.
Qed.

Lemma history_fold_complete id act l : ∀ seen st,
  history_inv id act seen st → names_seen seen st → history_ok id (seen ++ l) →
  ∃ st', try_fold (history_step id act) st (imap (λ i s, (length seen + i, s)%nat) l) = Ok st' ∧
    (is_Some (h_active_schema_index st) ∨ act ∈ s_id <$> l → is_Some (h_active_schema_index st')).
Proof.
  induction l as [|x l IH]; intros seen st Hi Hn Hok.
  - exists st. split; [done|]. intros [|]; [done | set_solver].
  - destruct (history_step_complete _ _ _ _ _ _ Hi Hn Hok) as (st1 & Hst & Hn1 & Ha).
    rewrite imap_cons. cbn [try_fold]. rewrite Nat.add_0_r, Hst, bind_ret.
    destruct (IH (seen ++ [x]) st1) as (st' & Hf & Hact).
    + by eapply history_step_inv.
    + done.
    + by rewrite <- app_assoc.
    + exists st'. split.
      * rewrite <- Hf. f_equal. apply imap_ext. intros. rewrite length_app. cbn. f_equal. lia.
      * intros H. apply Hact. rewrite Ha. rewrite fmap_cons, elem_of_cons in H.
        destruct (Z.eqb_spec (s_id x) act); [left; eauto|]. destruct H as [|[|]]; [by left | congruence | by right].
Qed.

(** [Source::new] builds a source without inputs from every such history. *)
Lemma Source_new_complete id name display declaration act schemas a :
  history_ok id schemas → a ∈ schemas → s_id a = act →
  ∃ s, Source_new id name display declaration act schemas [] = Ok s ∧
    src_id s = id ∧ src_name s = name ∧ src_display_name s = display ∧ active_schema s = Some a.
Proof.
  intros Hok Ha <-.
  destruct (history_fold_complete id (s_id a) schemas [] history_start) as (st & Hf & Hact);
    [apply history_start_inv | intros ? ? H; cbn in H; by rewrite lookup_empty in H | done |].
  destruct Hact as [i Hi]; [right; by apply list_elem_of_fmap_2|].
  assert (Hn : Source_new id name display declaration (s_id a) schemas [] =
    Ok {| src_id := id; src_name := name; src_display_name := display; src_declaration_digest := declaration;
          src_schemas := schemas; src_active_schema_index := i; src_inputs := [] |}).
  { unfold Source_new, validate_schema_history. destruct schemas as [|x l]; [set_solver|].
    change (imap pair (x :: l)) with (imap (λ i s, (length (@nil Schema) + i, s)%nat) (x :: l)).
    rewrite Hf, bind_ret, (validate_windows_complete _ (ho_evolves _ _ Hok)), bind_ret, Hi. done. }
  eexists. split; [exact Hn|]. split_and!; [done..|].
  destruct (Source_new_invariant _ _ _ _ _ _ _ _ Hn) as [_ (b & Hb & E)]. rewrite Hb. f_equal.
  unfold active_schema in Hb. cbn in Hb. apply list_elem_of_lookup_2 in Hb.
  pose proof (ho_ids _ _ Hok) as Hnd. apply list_elem_of_lookup in Ha as [j Hj], Hb as [k Hk].
  assert (j = k); [|congruence]. eapply (NoDup_lookup (s_id <$> schemas)); [done | |];
    apply list_lookup_fmap_Some; eauto.
Qed.

Section QueryCorrect.
Context {env : SpoolEnv} {lib : JsonLib} {text : JsonText} {uuid : UuidText} {number_equality : NumberEq}.
Context {paths : PathLib} {chrono : Chrono} {calendar : Calendar} {query_calendar : QueryCalendar} {pg : Postgres}.
Context {calendar_laws : QueryCalendarLaws}.

(** ** The segments of a range *)

(** Rows of the segment may lie in the range: its events are not all before or all after
    it. *)
Definition overlaps (range : ir.TimeRange) (s : SegmentRow) : Prop :=
  ir.start_inclusive range ≤ instant_millis (maximum_event_time (sc_times (sg_columns s))) ∧
  instant_millis (minimum_event_time (sc_times (sg_columns s))) < ir.end_exclusive range.

(** The segments a query over the range has to read. *)
Definition visible (source_id : SourceId) (range : ir.TimeRange) (s : SegmentRow) : Prop :=
  sc_source_id (sg_columns s) = source_id ∧ sg_state s = "ACTIVE" ∧ overlaps range s.

Lemma segment_days db k s :
  db_wf db → db_segments db !! k = Some s →
  date_naive (minimum_event_time (sc_times (sg_columns s))) = sg_event_day s ∧
  date_naive (maximum_event_time (sc_times (sg_columns s))) = sg_event_day s.
Proof.
  intros Hwf Hk. pose proof (wf_segments _ Hwf _ _ Hk) as Hc. unfold segment_checks in Hc.
  rewrite !andb_true_iff in Hc. destruct Hc as [[[[[[_ _] Hmin] Hmax] _] _] _].
  by apply bool_decide_eq_true in Hmin, Hmax.
Qed.

Lemma start_condition z start s :
  from_timestamp_millis z = Some start → date_naive (maximum_event_time (sc_times (sg_columns s))) = sg_event_day s →
  negb (date_ltb (sg_event_day s) (date_naive start)) && negb (datetime_ltb (maximum_event_time (sc_times (sg_columns s))) start)
    = true ↔ z ≤ instant_millis (maximum_event_time (sc_times (sg_columns s))).
Proof.
  intros Hz Hd. pose proof (millis_ltb _ _ (maximum_event_time (sc_times (sg_columns s))) Hz) as Hlt.
  rewrite andb_true_iff, !negb_true_iff. split.
  - intros [_ H]. destruct (Z.le_gt_cases z (instant_millis (maximum_event_time (sc_times (sg_columns s))))) as [|Hgt]; [done|].
    apply Hlt in Hgt. congruence.
  - intros Hle. split.
    + rewrite <- Hd. apply date_monotone. by rewrite (millis_exact _ _ Hz).
    + apply not_true_is_false. rewrite Hlt. lia.
Qed.

Lemma end_condition z end_ s :
  from_timestamp_millis z = Some end_ → date_naive (minimum_event_time (sc_times (sg_columns s))) = sg_event_day s →
  match sub_millisecond end_ with Some last => negb (date_ltb (date_naive last) (sg_event_day s)) | None => true end
  && datetime_ltb (minimum_event_time (sc_times (sg_columns s))) end_ = true
  ↔ instant_millis (minimum_event_time (sc_times (sg_columns s))) < z.
Proof.
  intros Hz Hd. rewrite andb_true_iff, (millis_ltb _ _ _ Hz). split; [by intros [_ H]|]. intros Hlt. split; [|done].
  destruct (sub_millisecond end_) as [last|] eqn:E; [|done]. rewrite <- Hd, date_monotone; [done|].
  rewrite (millis_sub _ _ E), (millis_exact _ _ Hz). lia.
Qed.

(** The condition of the statement decides the overlap. *)
Lemma selects_visible db k s source_id range :
  db_wf db → db_segments db !! k = Some s →
  match from_range range with
  | Bounds bounds => selects_segment source_id bounds s = true ↔ visible source_id range s
  | EmptySelection => ¬ visible source_id range s
  end.
Proof.
  intros Hwf Hk. destruct (segment_days _ _ _ Hwf Hk) as [Hmin Hmax].
  unfold from_range, from_instant.
  set (lo := ir.start_inclusive range). set (hi := ir.end_exclusive range).
  assert (Hsel : ∀ bounds, (within_bounds bounds s = true ↔ overlaps range s) →
    (selects_segment source_id bounds s = true ↔ visible source_id range s)).
  { intros bounds Hb. unfold selects_segment, visible. rewrite !andb_true_iff, Z.eqb_eq, bool_decide_eq_true, Hb. tauto. }
  destruct (from_timestamp_millis lo) as [start|] eqn:Elo, (from_timestamp_millis hi) as [end_|] eqn:Ehi;
    repeat match goal with |- context [?z <? 0] => destruct (Z.ltb_spec z 0) end;
    try (apply Hsel; unfold within_bounds, overlaps; cbn [tb_start_inclusive tb_end_exclusive];
         fold lo; fold hi; rewrite ?andb_true_l, ?andb_true_r).
  - by rewrite andb_true_iff, (start_condition _ _ _ Elo Hmax), (end_condition _ _ _ Ehi Hmin).
  - intros (_ & _ & _ & Ho). fold hi in Ho. pose proof (millis_before _ (minimum_event_time (sc_times (sg_columns s))) Ehi). lia.
  - rewrite (start_condition _ _ _ Elo Hmax). pose proof (millis_after _ (minimum_event_time (sc_times (sg_columns s))) Ehi). naive_solver lia.
  - rewrite (end_condition _ _ _ Ehi Hmin). pose proof (millis_before _ (maximum_event_time (sc_times (sg_columns s))) Elo). naive_solver lia.
  - intros (_ & _ & Ho & _). fold lo in Ho. pose proof (millis_after _ (maximum_event_time (sc_times (sg_columns s))) Elo). lia.
  - intros (_ & _ & _ & Ho). fold hi in Ho. pose proof (millis_before _ (minimum_event_time (sc_times (sg_columns s))) Ehi). lia.
  - pose proof (millis_before _ (maximum_event_time (sc_times (sg_columns s))) Elo).
    pose proof (millis_after _ (minimum_event_time (sc_times (sg_columns s))) Ehi). split; [|done]. intros _. lia.
  - intros (_ & _ & Ho & _). fold lo in Ho. pose proof (millis_after _ (maximum_event_time (sc_times (sg_columns s))) Elo). lia.
Qed.

(** ** Segments with their objects *)

(** A list in which at most one element satisfies the test. *)
Lemma filter_unique {A} (P : A → Prop) `{∀ x, Decision (P x)} (l : list A) x :
  NoDup l → x ∈ l → P x → (∀ y, y ∈ l → P y → y = x) → filter P l = [x].
Proof.
  intros Hnd Hx HP Hu. induction Hnd as [|y l Hy Hnd IH]; [set_solver|]. rewrite filter_cons.
  destruct (decide (P y)) as [HPy|HPy].
  - assert (y = x) as -> by (apply Hu; set_solver). f_equal. apply elem_of_nil_inv.
    intros z [HPz Hz]%list_elem_of_filter. apply Hy. rewrite <- (Hu z); set_solver.
  - apply IH; [set_solver|]. set_solver.
Qed.

(** Each segment is joined with its one object. *)
Lemma left_joined_ok db :
  db_ok db → left_joined db = (λ s, (s, load_segment_object db (sg_id s))) <$> rows (db_segments db).
Proof.
  intros Hok. pose proof (ok_wf _ Hok) as Hwf. unfold left_joined.
  assert (Hone : ∀ s, s ∈ rows (db_segments db) → joined_objects db s = [(s, load_segment_object db (sg_id s))]).
  { intros s [k Hk]%elem_of_rows. pose proof (wf_segments_keyed _ Hwf _ _ Hk) as Hid.
    destruct (ok_linked _ Hok _ _ Hk) as (j & o & st & Hj & Ho & _). unfold joined_objects. rewrite Hid.
    rewrite (filter_unique _ _ o).
    - by rewrite (proj2 (load_segment_object_Some db k o Hwf)) by eauto.
    - eapply NoDup_fmap_1, (NoDup_rows ob_id). apply (wf_objects_keyed _ Hwf).
    - apply elem_of_rows. eauto.
    - done.
    - intros o' [j' Hj']%elem_of_rows Ho'. by destruct (same_segment_object _ _ _ _ _ _ Hwf Hj' Hj Ho' Ho). }
  induction (rows (db_segments db)) as [|s l IH]; [done|]. cbn. rewrite Hone by set_solver. cbn. f_equal. apply IH. set_solver.
Qed.

#[export] Instance segment_order_trans : Transitive segment_order.
Proof.
  intros [a x] [b y] [c z]. unfold segment_order. cbn. intros [Hab|(Eab & Hab)] [Hbc|(Ebc & Hbc)].
  - left. by eapply date_transitive.
  - left. by rewrite <- Ebc.
  - left. by rewrite Eab.
  - right. split; [congruence|]. destruct Hab as [|[? Hab]], Hbc as [|[? Hbc]]; try (left; lia).
    right. split; [congruence|]. destruct x, y, z; try done; lia.
Qed.

#[export] Instance segment_order_total : Total segment_order.
Proof.
  intros [a x] [b y]. unfold segment_order. cbn. destruct (date_total (sg_event_day a) (sg_event_day b)) as [|[E|]]; [tauto| |tauto].
  pose proof (eq_sym E). destruct (Z.lt_total (sg_id a) (sg_id b)) as [|[E'|]]; [tauto| |tauto]. pose proof (eq_sym E').
  destruct x as [x|], y as [y|]; try tauto. destruct (Z.le_ge_cases (ob_id x) (ob_id y)); [left | right]; right; split; try done; right; done.
Qed.

(** Segments by day and identity. *)
Definition segment_before (a b : SegmentRow) : Prop :=
  date_ltb (sg_event_day a) (sg_event_day b) = true ∨ (sg_event_day a = sg_event_day b ∧ sg_id a < sg_id b).

(** The row that is selected for a segment. *)
Record row_of (db : Database) (s : SegmentRow) (r : QuerySegmentRow) : Prop := {
  ro_columns : qr_segment r = sg_columns s;
  ro_published : sg_published_at s = Some (qr_segment_published_at r);
  ro_object : qr_object r = load_segment_object db (sg_id s);
}.

Definition exact_segments (db : Database) (source_id : SourceId) (range : ir.TimeRange) (segs : list SegmentRow) : Prop :=
  (∀ s, s ∈ segs ↔ s ∈ rows (db_segments db) ∧ visible source_id range s) ∧
  NoDup (sg_id <$> segs) ∧ StronglySorted segment_before segs.

Lemma sorted_segments (pairs : list (SegmentRow * option ObjectRow)) :
  StronglySorted segment_order pairs → NoDup (sg_id <$> pairs.*1) → StronglySorted segment_before pairs.*1.
Proof.
  induction 1 as [|p l Hs IH Hp]; [constructor|]. cbn. rewrite NoDup_cons. intros [Hn Hnd]. constructor; [by apply IH|].
  rewrite Forall_fmap. rewrite Forall_forall in Hp |- *. intros q Hq. destruct (Hp q Hq) as [|(E & [|[E' _]])]; [by left | by right |].
  destruct Hn. rewrite E'. by apply list_elem_of_fmap_2, list_elem_of_fmap_2.
Qed.

Lemma paired_sublist {A B} (P : A * B → Prop) `{∀ x, Decision (P x)} (f : A → B) (l : list A) :
  (filter P ((λ s, (s, f s)) <$> l)).*1 `sublist_of` l.
Proof.
  induction l as [|s l IH]; [constructor|]. rewrite fmap_cons, filter_cons.
  case_decide; cbn; [by apply sublist_skip | by apply sublist_cons].
Qed.

(** The segments that satisfy the conditions of the statement. *)
Lemma selected_segments db source_id range bounds :
  db_ok db → from_range range = Bounds bounds →
  let pairs := merge_sort segment_order (filter (λ r, selects_segment source_id bounds r.1 = true) (left_joined db)) in
  exact_segments db source_id range pairs.*1 ∧ Forall (λ r, r.2 = load_segment_object db (sg_id r.1)) pairs.
Proof.
  intros Hok Hr. cbn zeta. pose proof (ok_wf _ Hok) as Hwf. rewrite (left_joined_ok _ Hok).
  set (all := filter _ _). pose proof (merge_sort_Permutation segment_order all) as Hp.
  assert (Hin : ∀ r, r ∈ all ↔ r.1 ∈ rows (db_segments db) ∧ visible source_id range r.1 ∧ r.2 = load_segment_object db (sg_id r.1)).
  { intros [s o]. unfold all. rewrite list_elem_of_filter, list_elem_of_fmap. cbn. split.
    - intros (Hsel & s' & [= -> ->] & Hs). split; [done|]. apply elem_of_rows in Hs as Hk. destruct Hk as [k Hk].
      pose proof (selects_visible db k s' source_id range Hwf Hk) as Hv. rewrite Hr in Hv. split; [by apply Hv | done].
    - intros (Hs & Hvis & ->). apply elem_of_rows in Hs as Hk. destruct Hk as [k Hk].
      pose proof (selects_visible db k s source_id range Hwf Hk) as Hv. rewrite Hr in Hv. split; [by apply Hv | eauto]. }
  split; [split_and!|].
  - intros s. rewrite Hp, list_elem_of_fmap. split.
    + intros ([s' o] & -> & Hs). apply Hin in Hs. naive_solver.
    + intros [Hs Hv]. exists (s, load_segment_object db (sg_id s)). split; [done|]. by apply Hin.
  - rewrite Hp. eapply sublist_NoDup; [apply (NoDup_rows sg_id), (wf_segments_keyed _ Hwf)|]. apply fmap_sublist, paired_sublist.
  - apply sorted_segments; [apply StronglySorted_merge_sort; apply _|]. rewrite Hp.
    eapply sublist_NoDup; [apply (NoDup_rows sg_id), (wf_segments_keyed _ Hwf)|]. apply fmap_sublist, paired_sublist.
  - rewrite Hp, Forall_forall. intros r Hr'. by apply Hin.
Qed.

(** ** Rows *)

Lemma decode_rows db pairs selected :
  Forall (λ r, r.2 = load_segment_object db (sg_id r.1)) pairs → try_map decode_segment_row pairs = Ok selected →
  Forall2 (row_of db) pairs.*1 selected.
Proof.
  intros Hp Hm. apply try_map_Ok in Hm. induction Hm as [|p r pairs selected Hr _ IH]; [constructor|].
  inversion_clear Hp as [|? ? Ho Hps]. cbn. constructor; [|by apply IH]. unfold decode_segment_row in Hr. inv_ok. by constructor.
Qed.

(** Fewer rows than the limit of the statement are all rows. *)
Lemma limited_rows {A} (l : list A) :
  Z.of_nat (length (take (Z.to_nat QUERY_SNAPSHOT_ROW_LIMIT) l)) ≤ MAXIMUM_QUERY_SNAPSHOT_SEGMENTS →
  take (Z.to_nat QUERY_SNAPSHOT_ROW_LIMIT) l = l.
Proof.
  rewrite length_take. unfold QUERY_SNAPSHOT_ROW_LIMIT, MAXIMUM_QUERY_SNAPSHOT_SEGMENTS. intros H. apply take_ge. lia.
Qed.

Lemma select_rows_exact db io source_id range selected :
  db_ok db → select_segment_rows db io source_id range = Ok selected →
  Z.of_nat (length selected) ≤ MAXIMUM_QUERY_SNAPSHOT_SEGMENTS →
  ∃ segs, exact_segments db source_id range segs ∧ Forall2 (row_of db) segs selected.
Proof.
  intros Hok Hsel Hlen. unfold select_segment_rows in Hsel. destruct (from_range range) as [|bounds] eqn:Hr.
  - injection Hsel as <-. exists []. split; [|constructor]. split_and!; [|constructor..]. intros s. split; [set_solver|].
    intros [[k Hk]%elem_of_rows Hv]. pose proof (selects_visible db k s source_id range (ok_wf _ Hok) Hk) as H. by rewrite Hr in H.
  - apply bind_Ok in Hsel as (? & _ & Hsel). apply bind_Ok in Hsel as (pairs & Hp & Hm).
    unfold attempt_read in Hp. destruct (io_segments io); [done|]. injection Hp as <-.
    apply try_map_Ok in Hm as Hl. apply Forall2_length in Hl. rewrite limited_rows in Hm by (rewrite Hl; exact Hlen).
    destruct (selected_segments db source_id range bounds Hok Hr) as [Hex Hobj]. eexists. split; [exact Hex | by apply decode_rows].
Qed.

(** ** Descriptors *)

(** What a snapshot says about a segment and its object. *)
Record reads (s : SegmentRow) (o : ObjectRow) (q : QuerySegment) : Prop := {
  rd_segment : sd_segment_id (qs_descriptor q) = sg_id s;
  rd_source : sd_source_id (qs_descriptor q) = sc_source_id (sg_columns s);
  rd_schema : sd_schema_id (qs_descriptor q) = sc_schema_id (sg_columns s);
  rd_times : sd_times (qs_descriptor q) = sc_times (sg_columns s);
  rd_row_count : sd_row_count (qs_descriptor q) = sc_row_count (sg_columns s);
  rd_object_id : k_object_id (od_key (sd_object (qs_descriptor q))) = ob_id o;
  rd_owner : k_owner (od_key (sd_object (qs_descriptor q))) = SegmentOwner (sg_id s);
  rd_key : k_path (od_key (sd_object (qs_descriptor q))) = oc_object_key (ob_columns o);
  rd_byte_size : qs_parquet_bytes q = oc_expected_byte_size (ob_columns o);
  rd_digest : od_digest (sd_object (qs_descriptor q)) = oc_digest (ob_columns o);
  rd_state : ob_state o = "PUBLISHED";
  rd_published : sg_published_at s = Some (qs_published_at q) ∧ ob_published_at o = Some (qs_published_at q);
}.

Lemma SegmentTimes_exact t t' :
  SegmentTimes_new (event_day t) (minimum_event_time t) (maximum_event_time t) (minimum_ingestion_time t)
    (maximum_ingestion_time t) = Ok t' → t' = t.
Proof. unfold SegmentTimes_new. repeat case_match; try done. intros [= <-]. by destruct t. Qed.

Lemma positive_exact new value message n :
  (∀ v m, new v = Ok m → m = v) → positive_count new value message = Ok n → n = value.
Proof. intros Hn H. unfold positive_count in H. inv_ok. by eapply Hn. Qed.

Lemma nonzero_exact {E} (e : E) v m : ok_or (NonZeroU64_new v) e = Ok m → m = v.
Proof. unfold NonZeroU64_new. by destruct (v =? 0); intros [= <-]. Qed.

Lemma uuid_exact v u : UuidV7.new v = Some u → u = v.
Proof. unfold UuidV7.new. by destruct (_ && _); intros [= <-]. Qed.

Lemma parse_parquet_key value segment_id object_id key :
  parse_parquet value segment_id object_id = Ok key →
  k_path key = value ∧ k_owner key = SegmentOwner segment_id ∧ k_object_id key = object_id.
Proof. unfold parse_parquet. intros H. inv_ok. case_decide; [|done]. by injection H as <-. Qed.

Lemma materialize_object_Ok row o segment_id d :
  qr_object row = Some o → materialize_object row segment_id = Ok d →
  k_object_id (od_key d) = ob_id o ∧ k_path (od_key d) = oc_object_key (ob_columns o) ∧
  od_expected_byte_size d = oc_expected_byte_size (ob_columns o) ∧ od_digest d = oc_digest (ob_columns o) ∧
  ob_state o = "PUBLISHED" ∧ ob_published_at o = Some (qr_segment_published_at row).
Proof.
  intros Ho H. unfold materialize_object, required_object in H. rewrite Ho in H. cbn [ok_or] in H. rewrite bind_ret in H. inv_ok.
  repeat match goal with Hb : bool_decide _ = true |- _ => apply bool_decide_eq_true in Hb end.
  match goal with Hk : parse_parquet _ _ _ = Ok _ |- _ => apply parse_parquet_key in Hk as (Hpath & Hown & Hid) end.
  unfold ObjectDescriptor_new in *. case_match; [done|]. inv_ok. cbn. split_and!; try congruence. exact Hid.
Qed.

Lemma materialize_segment_Ok db source s row q :
  row_of db s row → materialize_segment source row = Ok q →
  src_id source = sc_source_id (sg_columns s) ∧ ∃ o, load_segment_object db (sg_id s) = Some o ∧ reads s o q.
Proof.
  intros [Hcol Hpub Hobj] H. unfold materialize_segment in H. rewrite Hcol in H. inv_ok.
  unfold query_identity in *. inv_ok.
  repeat match goal with Hu : UuidV7.new _ = Some _ |- _ => apply uuid_exact in Hu; subst end.
  repeat match goal with
  | Hz : (_ =? _) = true |- _ => apply Z.eqb_eq in Hz
  | Ht : SegmentTimes_new _ _ _ _ _ = Ok _ |- _ => apply SegmentTimes_exact in Ht; subst
  | Hc : positive_count _ _ _ = Ok _ |- _ => apply positive_exact in Hc; [subst | by apply nonzero_exact]
  end.
  match goal with Hm : materialize_object _ _ = Ok _ |- _ => rename Hm into Hmo end.
  destruct (qr_object row) as [o|] eqn:Eo; [|by unfold materialize_object in Hmo; rewrite Eo in Hmo].
  apply (materialize_object_Ok _ o) in Hmo as (Hoid & Hkey & Hsize & Hdig & Hst & Hop); [|done].
  match goal with Hd : SegmentDescriptor_new _ _ _ _ _ _ _ = Ok _ |- _ => rename Hd into Hsd end.
  unfold SegmentDescriptor_new in Hsd. case_match eqn:Eown; [done|]. injection Hsd as <-.
  apply orb_false_iff in Eown as [Hown _]. apply negb_false_iff, bool_decide_eq_true in Hown.
  split; [done|]. exists o. split; [by rewrite <- Hobj|]. by constructor.
Qed.

Lemma materialize_segments_Ok source selected segments bytes :
  materialize_segments selected source = Ok (segments, bytes) →
  Forall2 (λ row q, materialize_segment source row = Ok q) selected segments ∧ bytes = sum_Z (qs_parquet_bytes <$> segments).
Proof.
  unfold materialize_segments. revert segments bytes. induction selected as [|row l IH] using rev_ind; intros segments bytes H.
  - injection H as <- <-. split; [constructor | done].
  - rewrite try_fold_app in H. apply bind_Ok in H as ([before total] & Hb & H). cbn [try_fold] in H.
    apply bind_Ok in H as (st & Hadd & H). injection H as ->. unfold add_segment in Hadd. inv_ok. cbn [fst snd] in *.
    destruct (IH _ _ Hb) as [Hf ->]. match goal with Hc : checked_add _ _ _ = Some _ |- _ => apply narrow_Some in Hc as [-> _] end.
    split; [by apply Forall2_app; [|repeat constructor]|]. rewrite fmap_app, sum_Z_app. cbn. lia.
Qed.


(** ** The catalog of a query *)

Context {json_laws : JsonTextLaws} {uuid_laws : UuidTextLaws}.

Lemma materialize_schema_Ok s : schema_sound s → materialize_schema (schema_row s) = Ok s.
Proof.
  intros Hs. pose proof (decode_schema_row_Ok s Hs) as H. unfold decode_schema_row, CatalogStore.identity in H.
  unfold materialize_schema, query_identity. inv_ok. unfold stored_schema_version, stored_version in *. inv_ok.
  repeat match goal with E : _ = Some _ |- _ => rewrite E; cbn [ok_or]; rewrite bind_ret; clear E end.
  repeat match goal with E : (_ <=? _) = true |- _ => rewrite E; cbn [check]; rewrite bind_ret; clear E end.
  match goal with E : SchemaVersion_new _ = Ok _ |- _ => rewrite E; cbn [map_err]; rewrite bind_ret end.
  by rewrite H.
Qed.

Lemma active_schema_spec t s :
  represents t s → ∃ a, active_schema s = Some a ∧ a ∈ src_schemas s ∧ active_schema_id s = s_id a.
Proof.
  intros Hs. destruct (swf_active _ (sound_wf _ (rp_sound _ _ Hs))) as [a Ha]. exists a. split; [done|].
  split; [by eapply list_elem_of_lookup_2|]. unfold active_schema_id. by rewrite Ha.
Qed.

Lemma schema_row_found t s a :
  catalog_inv t → represents t s → a ∈ src_schemas s → schema_row_by_id t (src_id s) (s_id a) = Some (schema_row a).
Proof.
  intros Hinv Hs Ha. unfold schema_row_by_id.
  pose proof (swf_owned _ (sound_wf _ (rp_sound _ _ Hs))) as Hown. rewrite Forall_forall in Hown.
  destruct (proj2 (rp_schemas _ _ Hs (s_id a) (schema_row a)) (ex_intro _ a (conj Ha (conj eq_refl eq_refl)))) as [Hk _].
  destruct (find_is_Some (λ row, (sv_source_id row =? src_id s) && (sv_schema_id row =? s_id a))
    (map_to_list (ct_schemas t)).*2 (schema_row a)) as [r Hr].
  - apply list_elem_of_fmap. exists (s_id a, schema_row a). split; [done|]. by apply elem_of_map_to_list.
  - cbn. by rewrite (Hown _ Ha), !Z.eqb_refl.
  - rewrite Hr. f_equal. apply find_Some in Hr as [Hin Hb]. apply andb_true_iff in Hb as [_ Hb%Z.eqb_eq].
    apply list_elem_of_fmap in Hin as ([k' r'] & -> & Hin). apply elem_of_map_to_list in Hin. cbn [snd] in *.
    pose proof (schema_key _ _ _ Hinv Hin) as Hkey. congruence.
Qed.

(** The source that the analysis sees: the stored one, with its active schema only. *)
Record captured (t : CatalogTables) (s source : Source) (active : Schema) : Prop := {
  cp_represented : represents t s;
  cp_id : src_id source = src_id s;
  cp_name : src_name source = src_name s;
  cp_display : src_display_name source = src_display_name s;
  cp_active : active_schema source = Some active;
  cp_stored : active_schema s = Some active;
  cp_member : active ∈ src_schemas s;
}.

Lemma assemble_schemas t s schemas a :
  represents t s → schemas `sublist_of` src_schemas s → a ∈ schemas →
  ∃ source, assemble_stored_source (src_id s) (src_name s) (src_display_name s) (s_id a) schemas [] = Ok source ∧
    src_id source = src_id s ∧ src_name source = src_name s ∧ src_display_name source = src_display_name s ∧
    active_schema source = Some a.
Proof.
  intros Hs Hl Ha. pose proof (sound_wf _ (rp_sound _ _ Hs)) as Hwf. destruct (sc_declaration _ (rp_sound _ _ Hs)) as (d & Hd & _).
  destruct (Source_new_complete (src_id s) (src_name s) (src_display_name s) (doc_digest d) (s_id a) schemas a) as (source & Hn & Hrest);
    [by apply history_sublist | done | done |].
  exists source. split; [|done]. unfold assemble_stored_source, stored_model. by rewrite Hd, bind_ret, Hn.
Qed.

Lemma load_source_spec t io name :
  catalog_inv t →
  match load_analysis_source t io name with
  | Ok None => ∀ (k : Z) row, ct_sources t !! k = Some row → so_name row ≠ name
  | Ok (Some source) => ∃ s active, captured t s source active ∧ src_name s = name
  | Err e => ∃ e', e = query_read e' ∧ (io_source io = Some e' ∨ io_active_schema io = Some e')
  end.
Proof.
  intros Hinv. unfold load_analysis_source, attempt_read. destruct (io_source io) as [e|]; cbn [mbind result_bind]; [eauto|].
  destruct (source_row_by_name t name) as [row|] eqn:Er.
  - unfold source_row_by_name in Er. apply find_Some in Er as [Hin Hn%bool_decide_eq_true].
    apply list_elem_of_fmap in Hin as ([k r] & -> & Hin). apply elem_of_map_to_list in Hin. cbn [snd] in *.
    destruct (ci_represented _ Hinv _ _ Hin) as (s & Hs & <-). pose proof (rp_source _ _ Hs) as Hrow. cbn in Hrow.
    assert (r = source_row s) as -> by congruence. cbn [source_row so_source_id so_active_schema_id so_name so_display_name] in *.
    destruct (io_active_schema io) as [e|]; cbn [mbind result_bind]; [eauto|].
    destruct (active_schema_spec _ _ Hs) as (a & Ha & Hin' & Hid). pose proof (rp_sound _ _ Hs) as Hsound.
    rewrite Hid, (schema_row_found t s a) by done. cbn [ok_or].
    assert (Huuid : UuidV7.new (s_id a) = Some (s_id a)) by (rewrite <- Hid; apply (sc_active _ Hsound)).
    unfold query_identity, try_name. rewrite bind_ret, (proj2 (sc_id _ Hsound)). cbn [ok_or]. rewrite bind_ret, Huuid. cbn [ok_or].
    rewrite bind_ret, (sc_name _ Hsound). cbn [map_err].
    pose proof (sc_schemas _ Hsound) as Hss. rewrite Forall_forall in Hss.
    rewrite !bind_ret, (materialize_schema_Ok a) by (by apply Hss). rewrite bind_ret.
    destruct (assemble_schemas t s [a] a) as (source & -> & H1 & H2 & H3 & H4);
      [done | by apply singleton_sublist_l | set_solver |]. cbn [map_err]. rewrite bind_ret. exists s, a. by split.
  - intros k row Hk Hn. subst name. by rewrite (find_source_row t k row) in Er.
Qed.

(** ** The schemas of the segments *)

(** A sorted list is determined by its elements when their numbers differ. *)
Lemma sorted_by {A} (R : relation A) (num : A → Z) l target :
  StronglySorted R l → (∀ a b, R a b → num a ≤ num b) → l ≡ₚ target → StronglySorted Z.lt (num <$> target) → l = target.
Proof.
  intros Hs HR Hp Ht. rewrite <- (filter_all (λ _, True) l) by (apply Forall_true; done).
  eapply sorted_group; [done | by intros a b _ _ _ _; apply HR | | done].
  by rewrite filter_all by (apply Forall_true; done).
Qed.

(** The schemas of the source that were written with one of the identities. *)
Definition needed (s : Source) (required : gset Z) : list Schema := filter (λ schema, s_id schema ∈ required) (src_schemas s).

Lemma filter_sorted (s : Source) (P : Schema → Prop) `{∀ x, Decision (P x)} :
  Source_wf s → StronglySorted Z.lt (s_version <$> filter P (src_schemas s)).
Proof. intros Hwf. eapply StronglySorted_sublist; [apply (swf_versions _ Hwf) | apply fmap_sublist, sublist_filter]. Qed.

Lemma select_needed t s required :
  catalog_inv t → represents t s →
  select (λ row, (sv_source_id row =? src_id s) && bool_decide (sv_schema_id row ∈ required))
    (λ a b, sv_version a ?= sv_version b) (ct_schemas t) = (schema_row <$> needed s required).
Proof.
  intros Hinv Hs. pose proof (sound_wf _ (rp_sound _ _ Hs)) as Hwf.
  assert (Hids : NoDup (s_id <$> needed s required)).
  { eapply sublist_NoDup; [apply (swf_schema_ids _ Hwf) | apply fmap_sublist, sublist_filter]. }
  apply (sorted_by (not_after (λ a b, sv_version a ?= sv_version b)) sv_version).
  - apply select_sorted; intros a b; rewrite ?compare_spec_le; intros; rewrite ?compare_spec_le in *; lia.
  - intros a b. unfold not_after. by rewrite compare_spec_le.
  - apply NoDup_Permutation.
    + apply (NoDup_select sv_schema_id). intros k row. by apply schema_key.
    + apply (NoDup_fmap_1 sv_schema_id). by rewrite <- list_fmap_compose.
    + intros row. rewrite elem_of_select, list_elem_of_fmap. split.
      * intros (k & Hk & Hb). apply andb_true_iff in Hb as [Hsrc%Z.eqb_eq Hreq%bool_decide_eq_true].
        destruct (proj1 (rp_schemas _ _ Hs k row) (conj Hk Hsrc)) as (schema & Hin & -> & ->). exists schema. split; [done|].
        by apply list_elem_of_filter.
      * intros (schema & -> & [Hreq Hin]%list_elem_of_filter). exists (s_id schema).
        destruct (proj2 (rp_schemas _ _ Hs (s_id schema) (schema_row schema)) (ex_intro _ schema (conj Hin (conj eq_refl eq_refl)))) as [Hk Hsrc].
        split; [done|]. rewrite Hsrc, Z.eqb_refl. cbn. by apply bool_decide_eq_true.
  - rewrite <- list_fmap_compose. by apply filter_sorted.
Qed.

#[local] Instance version_le_trans : Transitive version_le.
Proof. intros a b c. unfold version_le. lia. Qed.
#[local] Instance version_le_total : Total version_le.
Proof. intros a b. unfold version_le. lia. Qed.

(** Any schemas of the source evolve into one another, together with the active one. *)
Lemma adapters_valid t s source active required :
  captured t s source active → validate_schema_adapters source active (needed s required) = Ok tt.
Proof.
  intros [Hs Hid Hn Hd Ha Hst Hin]. pose proof (sound_wf _ (rp_sound _ _ Hs)) as Hwf. unfold validate_schema_adapters.
  set (schemas := if existsb _ _ then _ else _).
  assert (Hp : schemas ≡ₚ filter (λ schema, s_id schema ∈ required ∨ s_id schema = s_id active) (src_schemas s)).
  { apply NoDup_Permutation.
    - subst schemas. assert (NoDup (needed s required)) by (apply NoDup_filter, (NoDup_fmap_1 s_id), (swf_schema_ids _ Hwf)).
      destruct (existsb _ _) eqn:E; [done|]. apply NoDup_app. split; [done|]. split; [|apply NoDup_singleton].
      intros x Hx ->%list_elem_of_singleton. assert (existsb (λ schema, s_id schema =? s_id active) (needed s required) = true); [|congruence].
      apply existsb_exists. exists active. split; [by apply list_elem_of_In | apply Z.eqb_refl].
    - apply NoDup_filter, (NoDup_fmap_1 s_id), (swf_schema_ids _ Hwf).
    - intros x. rewrite list_elem_of_filter. subst schemas. destruct (existsb _ _) eqn:E.
      + apply existsb_exists in E as (y & Hy%list_elem_of_In & Ey%Z.eqb_eq). unfold needed in *. rewrite list_elem_of_filter in *.
        split; [tauto|]. intros [[|Ex] Hx]; [tauto|]. split; [|done]. rewrite Ex, <- Ey. tauto.
      + unfold needed. rewrite elem_of_app, list_elem_of_filter, list_elem_of_singleton. split; [intros [?| ->]; tauto|].
        intros [[|Ex] Hx]; [tauto|]. right. pose proof (swf_schema_ids _ Hwf) as Hnd.
        apply list_elem_of_lookup in Hx as [i Hi], Hin as [j Hj]. assert (i = j); [|congruence].
        eapply (NoDup_lookup (s_id <$> src_schemas s)); [done | |]; apply list_lookup_fmap_Some; eauto. }
  assert (Hsort : merge_sort version_le schemas = filter (λ schema, s_id schema ∈ required ∨ s_id schema = s_id active) (src_schemas s)).
  { eapply (sorted_by version_le s_version); [apply StronglySorted_merge_sort; apply _ | done | by rewrite merge_sort_Permutation | by apply filter_sorted]. }
  rewrite Hsort, Hid, Hn, Hd.
  destruct (assemble_schemas t s (filter (λ schema, s_id schema ∈ required ∨ s_id schema = s_id active) (src_schemas s)) active)
    as (x & -> & _); [done | apply sublist_filter | by apply list_elem_of_filter; auto | done].
Qed.

Lemma stored_schemas_spec t io s source active segments :
  catalog_inv t → captured t s source active →
  match load_stored_schemas t io source active segments with
  | Ok schemas => schemas = needed s (required_schemas segments) ∧ required_schemas segments ⊆ list_to_set (s_id <$> schemas)
  | Err e => (∃ e', e = query_read e' ∧ io_schemas io = Some e') ∨
      ¬ required_schemas segments ⊆ list_to_set (s_id <$> src_schemas s)
  end.
Proof.
  intros Hinv Hc. pose proof Hc as [Hs Hid Hn Hd Ha Hst Hin]. pose proof (sound_wf _ (rp_sound _ _ Hs)) as Hwf.
  unfold load_stored_schemas. set (required := required_schemas segments). case_bool_decide as He.
  { split; [|set_solver]. unfold needed. symmetry. apply elem_of_nil_inv. intros x [Hx _]%list_elem_of_filter. set_solver. }
  unfold attempt_read. destruct (io_schemas io) as [e|]; cbn [mbind result_bind]; [eauto|].
  rewrite Hid, select_needed by done.
  assert (Hmap : try_map materialize_schema (schema_row <$> needed s required) = Ok (needed s required)).
  { apply try_map_Ok. pose proof (sc_schemas _ (rp_sound _ _ Hs)) as Hss. rewrite Forall_forall in Hss.
    assert (Hall : ∀ x, x ∈ needed s required → schema_sound x) by (intros x [_ Hx]%list_elem_of_filter; by apply Hss).
    induction (needed s required) as [|x l IH]; [constructor|]. rewrite fmap_cons. constructor; [|apply IH; set_solver].
    apply materialize_schema_Ok, Hall. set_solver. }
  rewrite Hmap, bind_ret, (adapters_valid t s) by done.
  assert (Hset : list_to_set (s_id <$> needed s required) = (required ∩ list_to_set (s_id <$> src_schemas s) : gset Z)).
  { apply set_eq. intros id. rewrite elem_of_intersection, !elem_of_list_to_set, !list_elem_of_fmap. unfold needed.
    setoid_rewrite list_elem_of_filter. naive_solver. }
  assert (Hlen : length (needed s required) = size (required ∩ list_to_set (s_id <$> src_schemas s))).
  { rewrite <- Hset, size_list_to_set, length_fmap; [done|].
    eapply sublist_NoDup; [apply (swf_schema_ids _ Hwf) | apply fmap_sublist, sublist_filter]. }
  destruct (_ && _) eqn:Eb; cbn [check].
  - rewrite !bind_ret. split; [done|]. apply andb_true_iff in Eb as [E%bool_decide_eq_true _]. rewrite Hset.
    rewrite Hlen in E. assert (required ∩ list_to_set (s_id <$> src_schemas s) = required) as ->; [|done].
    apply leibniz_equiv, set_subseteq_size_equiv; [set_solver | lia].
  - right. intros Hsub. apply andb_false_iff in Eb as [E%bool_decide_eq_false|E].
    + apply E. rewrite Hlen. f_equal. set_solver.
    + apply not_true_iff_false in E. apply E, forallb_forall. intros x [Hx _]%list_elem_of_In%list_elem_of_filter.
      by apply bool_decide_eq_true.
Qed.

(** ** Intact tables *)

(** What registering the descriptor of an output stores: version 7 identities of a schema
    of the catalog, times of a supported precision, and the key of the segment's object. *)
Record described (tables : CatalogTables) (db : Database) : Prop := {
  ds_source k s : db_segments db !! k = Some s → UuidV7.new (sc_source_id (sg_columns s)) = Some (sc_source_id (sg_columns s));
  ds_schema k s : db_segments db !! k = Some s → UuidV7.new (sc_schema_id (sg_columns s)) = Some (sc_schema_id (sg_columns s));
  ds_foreign k s : db_segments db !! k = Some s →
    ∃ row, ct_schemas tables !! sc_schema_id (sg_columns s) = Some row ∧ sv_source_id row = sc_source_id (sg_columns s);
  ds_times k s : db_segments db !! k = Some s →
    let t := sc_times (sg_columns s) in
    SegmentTimes_new (event_day t) (minimum_event_time t) (maximum_event_time t) (minimum_ingestion_time t)
      (maximum_ingestion_time t) = Ok t;
  ds_key k o : load_segment_object db k = Some o →
    ∃ root, parse_parquet (oc_object_key (ob_columns o)) k (ob_id o) = Ok (parquet_key root k (ob_id o));
  ds_media k o : load_segment_object db k = Some o → oc_media_type (ob_columns o) = media_type_as_str ParquetMedia;
}.

(** The published object of an active segment. *)
Lemma active_object db k s :
  db_ok db → db_segments db !! k = Some s → sg_state s = "ACTIVE" →
  ∃ o t, load_segment_object db k = Some o ∧ ob_segment_id o = Some k ∧ ob_state o = "PUBLISHED" ∧
    ob_published_at o = Some t ∧ sg_published_at s = Some t ∧ object_checks o = true.
Proof.
  intros Hok Hk Hs. pose proof (ok_wf _ Hok) as Hwf. destruct (ok_linked _ Hok _ _ Hk) as (j & o & st & Hj & Ho & Hl).
  assert (ob_state o = "PUBLISHED" ∧ publication_times_match s o = true) as [Hst Ht].
  { destruct Hl as [Hc|Hc|Hc Hp Ht|Hc|Hc]; rewrite Hs in Hc; try done; set_solver. }
  unfold publication_times_match in Ht. apply andb_true_iff in Ht as [Hn Ht%bool_decide_eq_true].
  destruct (sg_published_at s) as [t|] eqn:E; [|done]. exists o, t. split_and!; try done.
  - apply load_segment_object_Some; eauto.
  - apply (wf_objects _ Hwf _ _ Hj).
Qed.

Lemma object_checks_spec o k :
  object_checks o = true → ob_segment_id o = Some k →
  oc_kind (ob_columns o) = "PARQUET_DATA" ∧ 0 ≤ oc_expected_byte_size (ob_columns o) ∧ length (oc_digest (ob_columns o)) = 32%nat ∧
  0 < oc_format_version (ob_columns o).
Proof.
  unfold object_checks, object_owner_check, ob_segment_id. intros Hc Hk. rewrite Hk in Hc. rewrite !andb_true_iff in Hc.
  destruct Hc as [[[[[[[[[[Hown _] Hsize] Hdig] _] Hver] _] _] _] _] _].
  apply Z.leb_le in Hsize. apply Nat.eqb_eq in Hdig. apply Z.ltb_lt in Hver. cbn [is_null negb] in Hown.
  rewrite !andb_false_r, orb_false_r, !andb_true_r, !andb_true_iff in Hown. destruct Hown as [[Hkind%bool_decide_eq_true _] _]. done.
Qed.

Lemma materialize_complete tables db source k s row :
  db_ok db → described tables db → db_segments db !! k = Some s → sg_state s = "ACTIVE" → row_of db s row →
  src_id source = sc_source_id (sg_columns s) → ∃ q, materialize_segment source row = Ok q.
Proof.
  intros Hok Hd Hk Hs [Hcol Hpub Hobj] Hsrc. pose proof (wf_segments_keyed _ (ok_wf _ Hok) _ _ Hk) as Hid.
  destruct (active_object db k s Hok Hk Hs) as (o & t & Ho & Hseg & Hst & Hop & Hsp & Hchk).
  destruct (object_checks_spec _ _ Hchk Hseg) as (Hkind & Hsize & Hdig & Hver). rewrite Hid, Ho in Hobj.
  assert (t = qr_segment_published_at row) as -> by congruence.
  assert (Hc : segment_checks s = true) by apply (wf_segments _ (ok_wf _ Hok) _ _ Hk). unfold segment_checks in Hc.
  rewrite !andb_true_iff in Hc. destruct Hc as [[[[[[[[[_ Hrows%Z.ltb_lt] Hbytes%Z.ltb_lt] _] _] _] _] _] _] _].
  unfold materialize_segment, query_identity. rewrite Hcol, (ds_source _ _ Hd _ _ Hk). cbn [ok_or]. rewrite bind_ret, Hsrc, Z.eqb_refl.
  cbn [check]. rewrite bind_ret, (ds_schema _ _ Hd _ _ Hk). cbn [ok_or]. rewrite bind_ret, (ds_times _ _ Hd _ _ Hk). cbn [map_err]. rewrite bind_ret.
  unfold positive_count, RowCount_new, UncompressedByteSize_new, NonZeroU64_new.
  rewrite (proj2 (Z.leb_le 0 (sc_row_count (sg_columns s)))), (proj2 (Z.eqb_neq (sc_row_count (sg_columns s)) 0)) by lia.
  rewrite (proj2 (Z.leb_le 0 (sc_uncompressed_bytes (sg_columns s)))), (proj2 (Z.eqb_neq (sc_uncompressed_bytes (sg_columns s)) 0)) by lia.
  cbn [check ok_or map_err mbind result_bind].
  unfold materialize_object, required_object. rewrite Hobj. cbn [ok_or mbind result_bind].
  rewrite (bool_decide_eq_true_2 _ Hkind). cbn [check mbind result_bind]. unfold ob_segment_id in Hseg. rewrite Hseg. cbn [ok_or mbind result_bind].
  change (sc_segment_id (sg_columns s)) with (sg_id s). rewrite Hid, Z.eqb_refl. cbn [check mbind result_bind].
  rewrite (bool_decide_eq_true_2 _ Hst). cbn [check mbind result_bind]. rewrite Hop. cbn [ok_or mbind result_bind].
  rewrite (bool_decide_eq_true_2 _ eq_refl). cbn [check mbind result_bind].
  destruct (ds_key _ _ Hd _ _ Ho) as (root & Hkey). unfold ob_id in Hkey. rewrite Hkey. cbn [map_err mbind result_bind].
  rewrite (proj2 (Z.leb_le 0 _) Hsize), (proj2 (Nat.eqb_eq _ _) Hdig). cbn [check mbind result_bind].
  rewrite (bool_decide_eq_true_2 _ (ds_media _ _ Hd _ _ Ho)). cbn [check mbind result_bind].
  rewrite (proj2 (Z.leb_le 0 (oc_format_version (ob_columns o)))) by lia. unfold ObjectFormatVersion_new, NonZeroU64_new.
  rewrite (proj2 (Z.eqb_neq (oc_format_version (ob_columns o)) 0)) by lia. cbn [check ok_or map_err mbind result_bind].
  unfold ObjectDescriptor_new. cbn [parquet_key key_new k_kind matching_kind negb map_err mbind result_bind].
  unfold SegmentDescriptor_new. cbn [od_key parquet_key key_new k_owner k_kind].
  rewrite !(bool_decide_eq_true_2 _ eq_refl). cbn. eauto.
Qed.

Lemma try_map_is_ok {E A B} (f : A → result E B) (l : list A) :
  (∀ x, x ∈ l → is_ok (f x) = true) → ∃ k, try_map f l = Ok k.
Proof.
  induction l as [|x l IH]; intros H; [by exists []|]. pose proof (H x (list_elem_of_here _ _)) as Hx. cbn.
  destruct (f x) as [y|]; [|done]. destruct IH as [k ->]; [intros z Hz; apply H; by apply list_elem_of_further|]. by exists (y :: k).
Qed.

(** Without failures of the connection, the statement returns the segments unless a bound
    of the range cannot be bound. *)
Lemma select_rows_healthy db io source_id range :
  db_ok db → io_segments io = None →
  match select_segment_rows db io source_id range with
  | Ok selected => ∃ segs, exact_segments db source_id range segs ∧
      if decide (Z.of_nat (length selected) ≤ MAXIMUM_QUERY_SNAPSHOT_SEGMENTS) then Forall2 (row_of db) segs selected
      else MAXIMUM_QUERY_SNAPSHOT_SEGMENTS < Z.of_nat (length segs)
  | Err e => ∃ bounds, from_range range = Bounds bounds ∧ bounds_bind bounds = false ∧ e = query_read datetime_overflow
  end.
Proof.
  intros Hok Hio. destruct (select_segment_rows db io source_id range) as [selected|e] eqn:Hsel.
  - destruct (decide _) as [Hlen|Hlen]; [by apply select_rows_exact with io|].
    unfold select_segment_rows in Hsel. destruct (from_range range) as [|bounds] eqn:Hr; [by injection Hsel as <-; destruct Hlen|].
    apply bind_Ok in Hsel as (? & _ & Hsel). apply bind_Ok in Hsel as (pairs & Hp & Hm).
    unfold attempt_read in Hp. rewrite Hio in Hp. injection Hp as <-.
    apply try_map_Ok, Forall2_length in Hm. destruct (selected_segments db source_id range bounds Hok Hr) as [Hex _].
    eexists. split; [exact Hex|]. rewrite length_fmap. rewrite <- Hm, length_take in Hlen. lia.
  - unfold select_segment_rows in Hsel. destruct (from_range range) as [|bounds] eqn:Hr; [done|]. exists bounds. split; [done|].
    destruct (bounds_bind bounds) eqn:Eb; cbn [check] in Hsel; [|by injection Hsel as <-]. exfalso. rewrite bind_ret in Hsel.
    unfold attempt_read in Hsel. rewrite Hio, bind_ret in Hsel.
    destruct (selected_segments db source_id range bounds Hok Hr) as [(Hex & _ & _) _].
    assert (Hall : ∀ p, p ∈ merge_sort segment_order (filter (λ r, selects_segment source_id bounds r.1 = true) (left_joined db)) →
      is_ok (decode_segment_row p) = true).
    { intros p Hp. assert (Hp1 : p.1 ∈ rows (db_segments db) ∧ visible source_id range p.1) by (apply Hex; by apply list_elem_of_fmap_2).
      destruct Hp1 as [[k Hk]%elem_of_rows (_ & Hst & _)]. destruct (active_object db k _ Hok Hk Hst) as (o & t & _ & _ & _ & _ & Hpub & _).
      unfold decode_segment_row. by rewrite Hpub. }
    destruct (try_map_is_ok decode_segment_row (take (Z.to_nat QUERY_SNAPSHOT_ROW_LIMIT) (merge_sort segment_order
      (filter (λ r, selects_segment source_id bounds r.1 = true) (left_joined db))))) as [rs Hrs]; [|by rewrite Hrs in Hsel].
    intros p Hp. apply Hall. by eapply elem_of_sublist, sublist_take.
Qed.

(** The size of the object of a segment. *)
Definition segment_bytes (db : Database) (s : SegmentRow) : Z :=
  match load_segment_object db (sg_id s) with Some o => oc_expected_byte_size (ob_columns o) | None => 0 end.

Lemma segment_bytes_nonneg db k s : db_ok db → db_segments db !! k = Some s → sg_state s = "ACTIVE" → 0 ≤ segment_bytes db s.
Proof.
  intros Hok Hk Hst. unfold segment_bytes. rewrite (wf_segments_keyed _ (ok_wf _ Hok) _ _ Hk).
  destruct (active_object db k s Hok Hk Hst) as (o & t & -> & Hseg & _ & _ & _ & Hchk).
  by destruct (object_checks_spec _ _ Hchk Hseg) as (_ & ? & _).
Qed.

Lemma sum_bytes_nonneg db segs :
  db_ok db → (∀ s, s ∈ segs → s ∈ rows (db_segments db) ∧ sg_state s = "ACTIVE") → 0 ≤ sum_Z (segment_bytes db <$> segs).
Proof.
  intros Hok. induction segs as [|x l IH]; intros Hall; [done|]. rewrite fmap_cons, sum_Z_cons.
  destruct (Hall x (list_elem_of_here _ _)) as [[k Hk]%elem_of_rows Hst].
  pose proof (segment_bytes_nonneg db k x Hok Hk Hst). specialize (IH (λ s Hs, Hall s (list_elem_of_further _ _ _ Hs))). lia.
Qed.

(** The total is computed unless it does not fit. *)
Lemma materialize_segments_healthy tables db source source_id range segs selected :
  db_ok db → described tables db → exact_segments db source_id range segs → src_id source = source_id →
  Forall2 (row_of db) segs selected →
  (∃ segments, materialize_segments selected source = Ok (segments, sum_Z (segment_bytes db <$> segs)) ∧
     ∀ q, q ∈ segments → ∃ s, s ∈ segs ∧ sd_schema_id (qs_descriptor q) = sc_schema_id (sg_columns s)) ∨
  (materialize_segments selected source = Err (query_corrupt "selected Parquet byte count overflowed") ∧
     int_max U64 < sum_Z (segment_bytes db <$> segs)).
Proof.
  intros Hok Hd (Hex & _ & _) Hsrc. unfold materialize_segments. revert selected.
  assert (Hall : ∀ s, s ∈ segs → s ∈ rows (db_segments db) ∧ visible source_id range s) by (intros s; apply Hex). clear Hex.
  induction segs as [|s segs IH] using rev_ind; intros selected Hrows.
  { apply Forall2_nil_inv_l in Hrows as ->. left. exists []. split; [done|]. intros q Hq. by apply not_elem_of_nil in Hq. }
  apply Forall2_app_inv_l in Hrows as (before & last & Hb & Hl & ->). apply Forall2_cons_inv_l in Hl as (row & rest & Hrow & Hnil & ->).
  apply Forall2_nil_inv_l in Hnil as ->.
  assert (Hin : s ∈ segs ++ [s]) by (apply elem_of_app; right; by apply list_elem_of_singleton).
  destruct (Hall s Hin) as [[k Hk]%elem_of_rows (Hsid & Hst & _)].
  destruct (materialize_complete tables db source k s row) as [q Hq]; [done..|congruence|].
  destruct (materialize_segment_Ok db source s row q Hrow Hq) as (_ & o & Ho & Hread).
  assert (Hsize : segment_bytes db s = qs_parquet_bytes q) by (unfold segment_bytes; rewrite Ho; symmetry; apply Hread).
  pose proof (segment_bytes_nonneg db k s Hok Hk Hst) as Hpos.
  rewrite try_fold_app, fmap_app, sum_Z_app. cbn [fmap list_fmap]. rewrite sum_Z_cons, sum_Z_nil.
  assert (Hall' : ∀ x, x ∈ segs → x ∈ rows (db_segments db) ∧ visible source_id range x) by (intros x Hx; apply Hall, elem_of_app; by left).
  destruct (IH Hall' before Hb) as [(segments & -> & Hsch)|[-> Hover]].
  - rewrite bind_ret. cbn [try_fold]. unfold add_segment. rewrite Hq, bind_ret. cbn [fst snd]. rewrite <- Hsize.
    unfold checked_add, narrow. destruct (fits U64 _) eqn:Ef; cbn [ok_or mbind result_bind].
    + left. eexists. split; [by rewrite Z.add_0_r|]. intros q' Hq'. apply elem_of_app in Hq' as [Hq'|Hq'].
      * destruct (Hsch q' Hq') as (s' & ? & ?). exists s'. split; [apply elem_of_app; by left | done].
      * apply list_elem_of_singleton in Hq' as ->. exists s. split; [done | apply Hread].
    + right. split; [done|]. apply not_true_iff_false in Ef. rewrite fits_spec in Ef.
      pose proof (sum_bytes_nonneg db segs Hok (λ x Hx, conj (proj1 (Hall' x Hx)) (proj1 (proj2 (proj2 (Hall' x Hx)))))).
      cbn in Ef. cbn. lia.
  - right. split; [done | lia].
Qed.

(** ** The analysis *)

Section Snapshots.
Context (decode_string : string → option string) (error_span : string → Span).

Lemma analyzed_source query parsed source context analysis :
  analyze_parsed query parsed {| snapshot_source := source |} context = Some (Ok analysis) →
  ∃ x active, source = Some x ∧ active_schema x = Some active ∧
    ir.source_id (ir.pl_source (an_pipeline analysis)) = src_id x ∧
    ir.active_schema_id (ir.pl_source (an_pipeline analysis)) = s_id active.
Proof.
  unfold analyze_parsed, convert_query, CatalogSnapshot_source. cbn [snapshot_source]. destruct source as [x|]; [|done].
  destruct (String.eqb _ _); [|done]. destruct (active_schema x) as [active|] eqn:Ea; [|done]. intros H.
  destruct (resolve_time_range _ _) as [range|]; [|done]. cbn [mbind result_bind] in H.
  destruct (convert_stages _ _ _) as [stages|]; [|done]. cbn in H. injection H as <-. cbn. eauto 10.
Qed.

(** The analysis of a text that parses. *)
Lemma analyze_parses query parsed catalog context :
  parse_query decode_string error_span query = Ok parsed →
  analyze decode_string error_span query catalog context = analyze_parsed query parsed catalog context.
Proof. intros H. unfold analyze. by rewrite H. Qed.

(** ** What a snapshot holds *)

(** C15: a query snapshot is exact. When [select] returns a snapshot of intact tables, the
    query has been analyzed against the stored source it names, with its active schema; the
    segments are exactly the active segments of that source whose events overlap the time
    range of the query, each once, by day and identity, with the published object and the
    columns that are stored; their number and their total size are within the limits; and
    the schemas are exactly the ones of the source that these segments were written with,
    by version. *)
Theorem snapshot_exact tables db io query request maximum snapshot :
  catalog_inv tables → db_ok db →
  select_snapshot decode_string error_span tables db io query request maximum = Some (Ok snapshot) →
  ∃ s source now segs,
    captured tables s source (qn_active_schema snapshot) ∧ src_id s = qn_source_id snapshot ∧
    io_reference_time io = Ok now ∧
    analyze decode_string error_span query {| snapshot_source := Some source |} (time_context now request) =
      Some (Ok (qn_analysis snapshot)) ∧
    exact_segments db (src_id s) (qn_time_range snapshot) segs ∧
    Forall2 (λ seg q, ∃ o, load_segment_object db (sg_id seg) = Some o ∧ reads seg o q) segs (qn_segments snapshot) ∧
    Z.of_nat (length segs) ≤ MAXIMUM_QUERY_SNAPSHOT_SEGMENTS ∧
    qn_selected_parquet_bytes snapshot = sum_Z (qs_parquet_bytes <$> qn_segments snapshot) ∧
    qn_selected_parquet_bytes snapshot ≤ maximum ∧
    qn_stored_schemas snapshot = needed s (required_schemas (qn_segments snapshot)) ∧
    required_schemas (qn_segments snapshot) ⊆ list_to_set (s_id <$> qn_stored_schemas snapshot).
Proof.
  intros Hinv Hok H. unfold select_snapshot in H.
  destruct (parse_query decode_string error_span query) as [parsed|] eqn:Hp; [|done]. cbn [map_err] in H.
  destruct (capture_source _ _ _) as [[now source]|] eqn:Hc; [|done].
  destruct (analyze_parsed _ _ _ _) as [[analysis|]|] eqn:Ha; [|done..].
  destruct (analyzed_source _ _ _ _ _ Ha) as (x & active & -> & Hact & Hsid & _). rewrite Hact in H. injection H as H.
  unfold capture_source in Hc. apply bind_Ok in Hc as (? & _ & Hc). apply bind_Ok in Hc as (? & _ & Hc).
  apply bind_Ok in Hc as (now' & Hnow & Hc). apply bind_Ok in Hc as (? & _ & Hc). apply bind_Ok in Hc as (src & Hload & Hc).
  injection Hc as -> ->. apply map_err_Ok in Hnow.
  pose proof (load_source_spec tables io (ast.id_value (ast.se_name (ast.q_source parsed))) Hinv) as Hspec. rewrite Hload in Hspec.
  destruct Hspec as (s & active' & Hcap & _). pose proof (cp_active _ _ _ _ Hcap) as Hact'.
  assert (active' = active) as -> by congruence. clear Hact'. unfold capture_segments in H.
  apply bind_Ok in H as (? & _ & H). apply bind_Ok in H as (selected & Hsel & H). apply bind_Ok in H as (? & Hlen & H).
  apply check_Ok, Z.leb_le in Hlen. apply bind_Ok in H as ([segments bytes] & Hmat & H). apply bind_Ok in H as (? & Hmax & H).
  apply check_Ok, Z.leb_le in Hmax. apply bind_Ok in H as (schemas & Hsch & H). apply bind_Ok in H as (? & _ & H). injection H as <-.
  destruct (select_rows_exact _ _ _ _ _ Hok Hsel Hlen) as (segs & Hex & Hrows). rewrite (cp_id _ _ _ _ Hcap) in *.
  apply materialize_segments_Ok in Hmat as [Hmat ->].
  pose proof (stored_schemas_spec tables io s x active segments Hinv Hcap) as Hstored. rewrite Hsch in Hstored.
  exists s, x, now, segs. unfold qn_source_id, qn_time_range. cbn.
  split_and!; try done.
  - by rewrite (analyze_parses _ _ _ _ Hp).
  - clear -Hrows Hmat. revert segs Hrows. induction Hmat as [|row q rows qs Hq Hqs IH]; intros segs Hrows.
    + apply Forall2_nil_inv_r in Hrows as ->. constructor.
    + apply Forall2_cons_inv_r in Hrows as (seg & segs' & Hrow & Hrows & ->). constructor; [|by apply IH].
      by apply (materialize_segment_Ok db) with (s := seg) in Hq as [_ ?].
  - by rewrite (Forall2_length _ _ _ Hrows).
  - apply Hstored.
  - apply Hstored.
Qed.

(** ** When a snapshot is refused *)

(** No statement fails. *)
Record healthy (io : SnapshotIo) (now : DateTime) : Prop := {
  hy_begin : io_begin io = None;
  hy_isolation : io_isolation io = None;
  hy_time : io_reference_time io = Ok now;
  hy_precision : millisecond_precision now = true;
  hy_source : io_source io = None;
  hy_active_schema : io_active_schema io = None;
  hy_segments : io_segments io = None;
  hy_schemas : io_schemas io = None;
  hy_commit : io_commit io = None;
}.

(** The catalog that a text is analyzed against: the source it names, if it is stored. *)
Definition analyzed_against (tables : CatalogTables) (query : string) (catalog : IR.CatalogSnapshot) : Prop :=
  ∀ parsed, parse_query decode_string error_span query = Ok parsed →
    let name := ast.id_value (ast.se_name (ast.q_source parsed)) in
    match snapshot_source catalog with
    | Some source => ∃ s active, captured tables s source active ∧ src_name s = name
    | None => ∀ (k : Z) row, ct_sources tables !! k = Some row → so_name row ≠ name
    end.

(** The reasons to refuse the objects of a range. *)
Inductive refused (db : Database) (maximum : Z) (source_id : SourceId) (range : ir.TimeRange) : QuerySnapshotError → Prop :=
| refused_time bounds :
    from_range range = Bounds bounds → bounds_bind bounds = false →
    refused db maximum source_id range (query_read datetime_overflow)
| refused_count segs :
    exact_segments db source_id range segs → MAXIMUM_QUERY_SNAPSHOT_SEGMENTS < Z.of_nat (length segs) →
    refused db maximum source_id range (query_resource_limit (SegmentCount MAXIMUM_QUERY_SNAPSHOT_SEGMENTS))
| refused_bytes segs :
    exact_segments db source_id range segs → maximum < sum_Z (segment_bytes db <$> segs) →
    refused db maximum source_id range (query_resource_limit (ParquetBytes maximum))
| refused_total segs :
    exact_segments db source_id range segs → int_max U64 < sum_Z (segment_bytes db <$> segs) →
    refused db maximum source_id range (query_corrupt "selected Parquet byte count overflowed").

Lemma capture_segments_healthy tables db io maximum now analysis s source active :
  catalog_inv tables → db_ok db → described tables db → healthy io now → captured tables s source active →
  ir.source_id (ir.pl_source (an_pipeline analysis)) = src_id source →
  ir.active_schema_id (ir.pl_source (an_pipeline analysis)) = s_id active →
  ∀ e, capture_segments tables db io maximum now analysis source active = Err e →
  refused db maximum (src_id s) (ir.pl_time_range (an_pipeline analysis)) e.
Proof.
  intros Hinv Hok Hd [] Hcap Hsid Haid e. unfold capture_segments, validate_analysis_source. rewrite Hsid, Haid, !Z.eqb_refl.
  cbn [andb check]. rewrite bind_ret, (cp_id _ _ _ _ Hcap).
  pose proof (select_rows_healthy db io (src_id s) (ir.pl_time_range (an_pipeline analysis)) Hok hy_segments0) as Hsel.
  destruct (select_segment_rows _ _ _ _) as [selected|e'].
  - rewrite bind_ret. destruct Hsel as (segs & Hex & Hlen). destruct (decide _) as [Hle|Hgt].
    + rewrite (proj2 (Z.leb_le _ _) Hle). cbn [check]. rewrite bind_ret.
      destruct (materialize_segments_healthy tables db source (src_id s) _ segs selected Hok Hd Hex (cp_id _ _ _ _ Hcap) Hlen)
        as [(segments & -> & Hsch)|[-> Hover]]; [|intros [= <-]; by eapply refused_total].
      rewrite bind_ret. destruct (Z.leb_spec (sum_Z (segment_bytes db <$> segs)) maximum); cbn [check].
      * rewrite bind_ret. pose proof (stored_schemas_spec tables io s source active segments Hinv Hcap) as Hst.
        destruct (load_stored_schemas _ _ _ _ _) as [schemas|e'].
        -- rewrite bind_ret. unfold attempt_execute. by rewrite hy_commit0.
        -- exfalso. destruct Hst as [(e'' & _ & Hf)|Hn]; [congruence|]. apply Hn. intros id Hid.
           apply elem_of_list_to_set, list_elem_of_fmap in Hid as (q & -> & Hq). destruct (Hsch q Hq) as (seg & Hseg & ->).
           destruct Hex as (Hex & _ & _). apply Hex in Hseg as [[k Hk]%elem_of_rows (Hsrc & _)].
           destruct (ds_foreign _ _ Hd _ _ Hk) as (row & Hrow & Hrs). rewrite Hsrc in Hrs.
           destruct (proj1 (rp_schemas _ _ (cp_represented _ _ _ _ Hcap) _ _) (conj Hrow Hrs)) as (schema & Hin & -> & _).
           apply elem_of_list_to_set. by apply list_elem_of_fmap_2.
      * intros [= <-]. by eapply refused_bytes.
    + rewrite (proj2 (Z.leb_gt _ _)) by lia. intros [= <-]. by eapply refused_count.
  - intros [= <-]. destruct Hsel as (bounds & Hr & Hb & ->). by eapply refused_time.
Qed.

(** C16: on intact tables, and while the database answers, [select] always returns, and it
    refuses a query only for a reason: the text does not parse or its analysis against the
    stored source fails; the segments to read are more than 10,000 or larger than the
    limit; their total size overflows; or a bound of the time range, which chrono can
    represent, is one that PostgreSQL does not accept. It never reports corrupt metadata
    but for that overflow. *)
Theorem snapshot_decided tables db io now query request maximum :
  catalog_inv tables → db_ok db → described tables db → healthy io now →
  ∃ r, select_snapshot decode_string error_span tables db io query request maximum = Some r ∧
    ∀ e, r = Err e → ∃ catalog, analyzed_against tables query catalog ∧
      match analyze decode_string error_span query catalog (time_context now request) with
      | Some (Err cause) => e = query_analysis cause
      | Some (Ok analysis) =>
          refused db maximum (ir.source_id (ir.pl_source (an_pipeline analysis))) (ir.pl_time_range (an_pipeline analysis)) e
      | None => False
      end.
Proof.
  intros Hinv Hok Hd Hio. unfold select_snapshot. destruct (parse_query decode_string error_span query) as [parsed|cause] eqn:Hp.
  2: { eexists. split; [done|]. intros e [= <-]. exists {| snapshot_source := None |}. split; [intros parsed' Hp'; congruence|].
    unfold analyze. by rewrite Hp. }
  cbn [map_err]. set (name := ast.id_value _). pose proof (load_source_spec tables io name Hinv) as Hspec.
  unfold capture_source, attempt_execute. rewrite (hy_begin _ _ Hio), (hy_isolation _ _ Hio), (hy_time _ _ Hio). cbn [map_err].
  rewrite !bind_ret, (hy_precision _ _ Hio). cbn [check]. rewrite bind_ret.
  destruct (load_analysis_source tables io name) as [source|e].
  2: { destruct Hspec as (e' & _ & [Hf|Hf]); [rewrite (hy_source _ _ Hio) in Hf | rewrite (hy_active_schema _ _ Hio) in Hf]; done. }
  rewrite bind_ret. assert (Hag : analyzed_against tables query {| snapshot_source := source |}).
  { intros parsed' Hp'. assert (parsed' = parsed) as -> by congruence. cbn. by destruct source. }
  pose proof (analyze_parses query parsed {| snapshot_source := source |} (time_context now request) Hp) as Han.
  destruct (analyze_parsed _ _ _ _) as [[analysis|cause]|] eqn:Ha.
  - destruct (analyzed_source _ _ _ _ _ Ha) as (x & active & -> & Hact & Hsid & Haid). rewrite Hact. eexists. split; [done|].
    intros e He. exists {| snapshot_source := Some x |}. split; [done|]. rewrite Han.
    destruct Hspec as (s & active' & Hcap & _). assert (active' = active) as -> by (pose proof (cp_active _ _ _ _ Hcap); congruence).
    rewrite Hsid, (cp_id _ _ _ _ Hcap). by eapply capture_segments_healthy.
  - eexists. split; [done|]. intros e [= <-]. exists {| snapshot_source := source |}. split; [done|]. by rewrite Han.
  - exfalso. clear Han. unfold analyze_parsed, convert_query, CatalogSnapshot_source in Ha. cbn [snapshot_source] in Ha.
    destruct source as [x|]; [|done]. destruct Hspec as (s & active & Hcap & _). destruct (String.eqb _ _); [|done].
    rewrite (cp_active _ _ _ _ Hcap) in Ha. destruct (resolve_time_range _ _); [|done]. cbn in Ha. by destruct (convert_stages _ _ _).
Qed.
End Snapshots.
End QueryCorrect.
