(* ===== verification/QuerySamples.v ===== *)
(** * Query snapshots: a concrete run

    A catalog with one source, a metastore with one published segment of it, and a query
    over the time of its events. *)

From S2P Require Import Core ErrorCode CatalogTypes CatalogModel CatalogSource Syntax Floats Parser IR SemExpression SemTyping SemPipeline SemQuery Language Bytes Frame Json Canonical Manifest Application Stored Storage Database Publication MetastoreInvariant MetastoreLifecycle Metastore ApplicationCorrect StoredCorrect CatalogStore CatalogLoad CatalogStoreCorrect CatalogSamples Query QueryCorrect Prelude.
Import Schema.

#[local] Open Scope string_scope.
#[local] Open Scope list_scope.
#[local] Open Scope Z_scope.

#[local] Existing Instance catalog_env.
#[local] Existing Instance catalog_json.
#[local] Existing Instance catalog_text.
#[local] Existing Instance catalog_text_laws.
#[local] Existing Instance catalog_number_eq.
#[local] Existing Instance sample_uuid_text.
#[local] Existing Instance sample_uuid_text_laws.
#[local] Existing Instance sample_paths.
#[local] Existing Instance epoch_chrono.

(** Instants as microseconds and days as their number; the database holds no instant
    before the epoch. *)
#[local] Instance query_sample_calendar : Calendar := {|
  DateTime := Z;
  datetime_ltb := Z.ltb;
  timestamp_subsec_nanos z := (z `mod` 1000000) * 1000;
  timestamp_micros z := z;
  from_timestamp_micros z := Some z;
  NaiveDate := Z;
  date_naive z := z `div` 86400000000;
  date_to_string z := pretty z;
  date_parse s := None;
|}.

#[local] Instance query_sample : QueryCalendar := {|
  date_ltb := Z.ltb;
  instant_millis z := z `div` 1000;
  Query.from_timestamp_millis z := Some (z * 1000);
  sub_millisecond z := Some (z - 1000);
  binds z := 0 <=? z;
|}.

#[local] Instance query_sample_laws : QueryCalendarLaws.
Proof.
  split; cbn.
  - intros z d t [= <-]. rewrite Z.ltb_lt. pose proof (Z.div_mod t 1000). pose proof (Z.mod_pos_bound t 1000). lia.
  - done.
  - done.
  - intros z d [= <-]. apply Z.div_mul. lia.
  - intros d d' [= <-]. replace (d - 1000) with (d + (-1) * 1000) by lia. rewrite Z.div_add by lia. lia.
  - intros a b Hab. apply Z.ltb_ge. change 86400000000 with (1000 * 86400000).
    rewrite <- !Z.div_div by lia. by apply Z.div_le_mono.
  - intros a. apply Z.ltb_irrefl.
  - intros a b c. rewrite !Z.ltb_lt. lia.
  - intros a b. rewrite !Z.ltb_lt. lia.
Qed.

#[local] Instance query_sample_postgres : Postgres := λ now seconds, Some (now + seconds * 1000000).

(** ** The tables *)

Definition at_micros (z : Z) : DateTime := z.

Definition query_tables : CatalogTables := store_tables first_store.

Lemma query_tables_inv : catalog_inv query_tables.
Proof. exact first_inv. Qed.

Definition query_schema : Schema :=
  {| s_id := sample_uuid 101; s_source_id := sample_uuid 100; s_version := 1; s_declaration_digest := [];
     s_materialized_digest := []; s_fields := layout [] |}.

Definition query_catalogued : Database :=
  {| db_schemas := {[ (sample_uuid 100, sample_uuid 101) := query_schema ]}; db_inputs := ∅; db_runs := ∅;
     db_segments := ∅; db_objects := ∅ |}.

Definition query_segment : SegmentDescriptor :=
  {| sd_segment_id := 1; sd_source_id := sample_uuid 100; sd_schema_id := sample_uuid 101;
     sd_times := {| event_day := 0; minimum_event_time := 1000000; maximum_event_time := 2000000;
                    minimum_ingestion_time := 3000000; maximum_ingestion_time := 4000000 |};
     sd_row_count := 10; sd_uncompressed_bytes := 100;
     sd_object :=
       {| od_key := parquet_key {| root_path := "elucid" |} 1 1001; od_expected_byte_size := 50;
          od_digest := repeat "a"%char 32; od_media_type := ParquetMedia; od_format_version := 1 |} |}.

Definition tables_after {E A} (r : result E (Database * A)) : Database :=
  match r with Ok (db, _) => db | Err _ => query_catalogued end.

Lemma tables_committed {E A} (r : result E (Database * A)) : is_ok r = true → ∃ o, r = Ok (tables_after r, o).
Proof. destruct r as [[db o]|]; [by exists o | done]. Qed.

Definition query_registered : Database := tables_after (register_ingestion_segment (at_micros 5000000) query_segment query_catalogued).
Definition query_uploaded : Database := tables_after (record_verified_upload (at_micros 6000000) (sd_object query_segment) query_registered).
Definition query_published : Database := tables_after (publish_ingestion_segment (at_micros 7000000) 1 3600 query_uploaded).

Lemma registered_step : step query_catalogued query_registered.
Proof.
  destruct (tables_committed (register_ingestion_segment (at_micros 5000000) query_segment query_catalogued)) as [o H]; [vm_compute; reflexivity|].
  exact (step_register_segment _ _ _ _ _ H).
Qed.

Lemma uploaded_step : step query_registered query_uploaded.
Proof.
  destruct (tables_committed (record_verified_upload (at_micros 6000000) (sd_object query_segment) query_registered)) as [o H]; [vm_compute; reflexivity|].
  exact (step_record_upload _ _ _ _ _ H).
Qed.

Lemma published_step : step query_uploaded query_published.
Proof.
  destruct (tables_committed (publish_ingestion_segment (at_micros 7000000) 1 3600 query_uploaded)) as [o H];
    [vm_compute; reflexivity|]. exact (step_publish_segment _ _ _ _ _ _ H).
Qed.

Lemma query_published_ok : db_ok query_published.
Proof.
  apply reachable_ok. eapply rtc_r; [|exact published_step]. eapply rtc_r; [|exact uploaded_step].
  eapply rtc_r; [|exact registered_step]. eapply rtc_r; [apply rtc_refl|].
  apply (step_catalog empty_database); [apply map_empty_subseteq | set_solver..].
Qed.

(** ** The query *)

Definition query_text : string := "source web | take 10".

Definition query_io : SnapshotIo :=
  {| io_begin := None; io_isolation := None; io_reference_time := Ok 8000000; io_source := None; io_active_schema := None;
     io_segments := None; io_schemas := None; io_commit := None |}.

Definition query_request : QueryRequestTimeRange := {| qt_start_inclusive := 0; qt_end_exclusive := 2000000 |}.

Definition query_run : option (snapshot_result QuerySnapshot) :=
  select_snapshot no_strings at_start query_tables query_published query_io query_text query_request 1000.

Definition found_segments (r : option (snapshot_result QuerySnapshot)) : nat :=
  match r with Some (Ok snapshot) => length (qn_segments snapshot) | _ => O end.

Lemma one_segment : ∃ snapshot, query_run = Some (Ok snapshot) ∧ length (qn_segments snapshot) = 1%nat.
Proof.
  assert (H : found_segments query_run = 1%nat) by (vm_compute; reflexivity).
  destruct query_run as [[snapshot|e]|]; [|discriminate H..]. exists snapshot. split; [reflexivity | exact H].
Qed.

(** ** Witnesses *)

Lemma snapshot_exact_witness :
  ∃ snapshot, query_run = Some (Ok snapshot) ∧
    ∃ s source now segs, captured query_tables s source (qn_active_schema snapshot) ∧
      io_reference_time query_io = Ok now ∧
      exact_segments query_published (src_id s) (qn_time_range snapshot) segs ∧ length segs = 1%nat.
Proof.
  destruct one_segment as (snapshot & E & El). exists snapshot. split; [exact E|].
  destruct (snapshot_exact no_strings at_start query_tables query_published query_io query_text query_request 1000 snapshot
    query_tables_inv query_published_ok E) as (s & source & now & segs & H1 & _ & H2 & _ & H3 & H4 & _).
  exists s, source, now, segs. split; [exact H1|]. split; [exact H2|]. split; [exact H3|].
  rewrite (Forall2_length _ _ _ H4). exact El.
Defined.

(** The stored rows are those of the descriptor. *)
Definition is_described (s : SegmentRow) : bool :=
  let c := sg_columns s in
  let t := sc_times c in
  bool_decide (UuidV7.new (sc_source_id c) = Some (sc_source_id c))
  && bool_decide (UuidV7.new (sc_schema_id c) = Some (sc_schema_id c))
  && match ct_schemas query_tables !! sc_schema_id c with Some row => sv_source_id row =? sc_source_id c | None => false end
  && match SegmentTimes_new (event_day t) (minimum_event_time t) (maximum_event_time t) (minimum_ingestion_time t)
             (maximum_ingestion_time t) with Ok t' => bool_decide (t' = t) | Err _ => false end.

Definition query_root : ManagedRoot := {| root_path := "elucid" |}.

Definition has_key (o : ObjectRow) : bool :=
  match ob_segment_id o with
  | Some k =>
      match parse_parquet (oc_object_key (ob_columns o)) k (ob_id o) with
      | Ok key => bool_decide (key = parquet_key query_root k (ob_id o))
      | Err _ => false
      end && bool_decide (oc_media_type (ob_columns o) = media_type_as_str ParquetMedia)
  | None => false
  end.

Lemma query_described : described query_tables query_published.
Proof.
  assert (Hs : ∀ k s, db_segments query_published !! k = Some s → is_described s = true).
  { apply forallb_rows. vm_compute. reflexivity. }
  assert (Ho : ∀ k o, db_objects query_published !! k = Some o → has_key o = true).
  { apply forallb_rows. vm_compute. reflexivity. }
  assert (Hk : ∀ k o, load_segment_object query_published k = Some o → ob_segment_id o = Some k ∧ has_key o = true).
  { intros k o (j & Hj & Hseg)%load_segment_object_Some; [|apply query_published_ok]. split; [exact Hseg | by apply (Ho j)]. }
  clear Ho. unfold is_described in Hs. unfold has_key in Hk. split.
  - intros k s H%Hs. rewrite !andb_true_iff in H. destruct H as [[[H _] _] _]. by apply bool_decide_eq_true in H.
  - intros k s H%Hs. rewrite !andb_true_iff in H. destruct H as [[[_ H] _] _]. by apply bool_decide_eq_true in H.
  - intros k s H%Hs. rewrite !andb_true_iff in H. destruct H as [[_ H] _].
    destruct (ct_schemas query_tables !! _) as [row|]; [|discriminate H]. apply Z.eqb_eq in H. by exists row.
  - intros k s H%Hs. rewrite !andb_true_iff in H. destruct H as [_ H]. cbv zeta in *.
    destruct (SegmentTimes_new _ _ _ _ _) as [t'|]; [|discriminate H]. apply bool_decide_eq_true in H. rewrite H. reflexivity.
  - intros k o [E H]%Hk. rewrite E in H. apply andb_true_iff in H as [H _]. exists query_root.
    destruct (parse_parquet _ _ _) as [key|]; [|discriminate H]. apply bool_decide_eq_true in H. rewrite H. reflexivity.
  - intros k o [E H]%Hk. rewrite E in H. apply andb_true_iff in H as [_ H]. by apply bool_decide_eq_true in H.
Qed.

Lemma query_healthy : healthy query_io (at_micros 8000000).
Proof. by split. Qed.

(** A range that begins before the epoch is refused by the sample database. *)
Definition early_request : QueryRequestTimeRange := {| qt_start_inclusive := -1000000; qt_end_exclusive := 2000000 |}.

Lemma snapshot_decided_witness :
  ∃ e, select_snapshot no_strings at_start query_tables query_published query_io query_text early_request 1000 = Some (Err e) ∧
    ∃ catalog, analyzed_against no_strings at_start query_tables query_text catalog ∧
      match analyze no_strings at_start query_text catalog (time_context (at_micros 8000000) early_request) with
      | Some (Err cause) => e = query_analysis cause
      | Some (Ok analysis) =>
          refused query_published 1000 (ir.source_id (ir.pl_source (an_pipeline analysis)))
            (ir.pl_time_range (an_pipeline analysis)) e
      | None => False
      end.
Proof.
  destruct (snapshot_decided no_strings at_start query_tables query_published query_io (at_micros 8000000) query_text early_request 1000
    query_tables_inv query_published_ok query_described query_healthy) as (r & Hr & He).
  assert (Hf : match select_snapshot no_strings at_start query_tables query_published query_io query_text early_request 1000 with
    Some (Err _) => true | _ => false end = true) by (vm_compute; reflexivity).
  rewrite Hr in Hf. destruct r as [x|e]; [discriminate Hf|]. exists e. split; [exact Hr | exact (He e eq_refl)].
Defined.
