(* ===== verification/Arrow.v ===== *)
(** * elucid-ingestion: columns

    Models src/elucid/elucid-ingestion/src/parquet.rs, which turns the rows of a sealed
    segment into the columns of its stored schema, and the Arrow schema that
    src/elucid/elucid-catalog/src/schema.rs derives from a catalog schema.

    An Arrow array is the list of its optional values, and a builder the list of the
    values appended so far. [RecordBatch::try_new] is a parameter. *)

From S2P Require Import Prelude Core CatalogTypes CatalogModel Floats Bytes Frame Json Storage Normalization Segment Canonical.
Import Schema.

#[local] Open Scope string_scope.
#[local] Open Scope list_scope.
#[local] Open Scope Z_scope.

(** ** Arrow *)

Inductive DataType :=
| TBoolean | TInt32 | TInt64 | TUInt32 | TUInt64 | TFloat32 | TFloat64 | TUtf8
| TTimestampMillisecond (timezone : option string) | TFixedSizeBinary (width : Z).

#[export] Instance DataType_eq_dec : EqDecision DataType.
Proof. solve_decision. Defined.

Record ArrowField := { af_name : string; af_data_type : DataType; af_nullable : bool; af_metadata : gmap string string }.

#[export] Instance ArrowField_eq_dec : EqDecision ArrowField.
Proof. solve_decision. Defined.

Inductive ArrowArray :=
| BooleanArray (values : list (option bool))
| Int32Array (values : list (option Z))
| Int64Array (values : list (option Z))
| UInt32Array (values : list (option Z))
| UInt64Array (values : list (option Z))
| Float32Array (values : list (option float))
| Float64Array (values : list (option float))
| StringArray (values : list (option string))
| TimestampMillisecondArray (timezone : option string) (values : list (option Z))
| FixedSizeBinaryArray (width : Z) (values : list (option (list Z))).

Definition array_data_type (a : ArrowArray) : DataType :=
  match a with
  | BooleanArray _ => TBoolean
  | Int32Array _ => TInt32
  | Int64Array _ => TInt64
  | UInt32Array _ => TUInt32
  | UInt64Array _ => TUInt64
  | Float32Array _ => TFloat32
  | Float64Array _ => TFloat64
  | StringArray _ => TUtf8
  | TimestampMillisecondArray timezone _ => TTimestampMillisecond timezone
  | FixedSizeBinaryArray width _ => TFixedSizeBinary width
  end.

Definition absent {A} (o : option A) : bool := match o with None => true | Some _ => false end.

(** Which entries are null. *)
Definition array_nulls (a : ArrowArray) : list bool :=
  match a with
  | BooleanArray vs => absent <$> vs
  | Int32Array vs | Int64Array vs | UInt32Array vs | UInt64Array vs | TimestampMillisecondArray _ vs => absent <$> vs
  | Float32Array vs | Float64Array vs => absent <$> vs
  | StringArray vs => absent <$> vs
  | FixedSizeBinaryArray _ vs => absent <$> vs
  end.

Definition array_len (a : ArrowArray) : nat := length (array_nulls a).

Definition null_count (a : ArrowArray) : nat := length (filter (λ b : bool, b = true) (array_nulls a)).

Record RecordBatch := { rb_fields : list ArrowField; rb_columns : list ArrowArray }.

(** [RecordBatch::num_rows] *)
Definition num_rows (b : RecordBatch) : nat := match rb_columns b with a :: _ => array_len a | [] => 0%nat end.

(** [RecordBatch::try_new] *)
Class ArrowLib := record_batch_try_new : list ArrowField → list ArrowArray → option RecordBatch.

(** A column fits its field. *)
Definition column_fits (f : ArrowField) (a : ArrowArray) : Prop :=
  array_data_type a = af_data_type f ∧ (af_nullable f = false → null_count a = 0%nat).

(** A batch holds the fields and columns it is made of, and columns of one length that fit
    their fields make a batch. *)
Class ArrowLaws `{ArrowLib} : Prop := {
  try_new_exact fields columns b :
    record_batch_try_new fields columns = Some b → b = {| rb_fields := fields; rb_columns := columns |};
  try_new_fits fields columns n :
    fields ≠ [] → Forall2 column_fits fields columns → Forall (λ a, array_len a = n) columns →
    is_Some (record_batch_try_new fields columns);
}.

(** ** The Arrow schema of a stored schema *)

Definition FIELD_ID_METADATA_KEY : string := "elucid.field_id".
Definition LOGICAL_TYPE_METADATA_KEY : string := "elucid.logical_type".

Definition arrow_data_type (t : LogicalType) : DataType :=
  match t with
  | Bool => TBoolean
  | Int32 => TInt32
  | Int64 => TInt64
  | UInt32 => TUInt32
  | UInt64 => TUInt64
  | Float32 => TFloat32
  | Float64 => TFloat64
  | Utf8 | CatalogTypes.Json => TUtf8
  | Datetime => TTimestampMillisecond (Some "UTC")
  | Eid => TFixedSizeBinary 16
  end.

Definition to_arrow `{UuidText} (f : Field) : ArrowField :=
  {| af_name := f_name f;
     af_data_type := arrow_data_type (f_logical_type f);
     af_nullable := is_nullable (f_nullability f);
     af_metadata :=
       match metadata_value (f_logical_type f) with
       | Some value => <[LOGICAL_TYPE_METADATA_KEY := value]> {[FIELD_ID_METADATA_KEY := uuid_to_string (f_id f)]}
       | None => {[FIELD_ID_METADATA_KEY := uuid_to_string (f_id f)]}
       end |}.

Definition arrow_schema `{UuidText} (schema : Schema) : list ArrowField := to_arrow <$> s_fields schema.

(** ** Materialization *)

Inductive SegmentMaterializationError :=
| StoredSchemaSourceMismatch (segment_source_id schema_source_id : SourceId)
| StoredSchemaIdentityMismatch (segment_schema_id stored_schema_id : SchemaId)
| UnsupportedDataFieldType (field_id : FieldId) (logical_type : LogicalType)
| NormalizedFieldCountMismatch (expected_fields actual_fields : nat)
| NormalizedFieldIdentityMismatch (expected_field_id actual_field_id : FieldId)
| NonNullFieldContainsNull (field_id : FieldId)
| NormalizedFieldTypeMismatch (field_id : FieldId) (logical_type : LogicalType)
| NormalizedFloatNotFinite (field_id : FieldId)
| EventIdentityInvalid
| RemainderSerializationFailed
| RecordBatchInvalid.

Notation materialization := (result SegmentMaterializationError).

(** A builder and the values appended to it. *)
Inductive DataColumnBuilder :=
| BBool (values : list (option bool))
| BInt32 (values : list (option Z))
| BInt64 (values : list (option Z))
| BUInt32 (values : list (option Z))
| BUInt64 (values : list (option Z))
| BFloat32 (values : list (option float))
| BFloat64 (values : list (option float))
| BUtf8 (values : list (option string))
| BDatetime (values : list (option Z)).

Definition DataColumnBuilder_new (f : Field) : materialization DataColumnBuilder :=
  match f_logical_type f with
  | Bool => Ok (BBool [])
  | Int32 => Ok (BInt32 [])
  | Int64 => Ok (BInt64 [])
  | UInt32 => Ok (BUInt32 [])
  | UInt64 => Ok (BUInt64 [])
  | Float32 => Ok (BFloat32 [])
  | Float64 => Ok (BFloat64 [])
  | Utf8 => Ok (BUtf8 [])
  | Datetime => Ok (BDatetime [])
  | logical_type => Err (UnsupportedDataFieldType (f_id f) logical_type)
  end.

Definition append_null (b : DataColumnBuilder) : DataColumnBuilder :=
  match b with
  | BBool vs => BBool (vs ++ [None])
  | BInt32 vs => BInt32 (vs ++ [None])
  | BInt64 vs => BInt64 (vs ++ [None])
  | BUInt32 vs => BUInt32 (vs ++ [None])
  | BUInt64 vs => BUInt64 (vs ++ [None])
  | BFloat32 vs => BFloat32 (vs ++ [None])
  | BFloat64 vs => BFloat64 (vs ++ [None])
  | BUtf8 vs => BUtf8 (vs ++ [None])
  | BDatetime vs => BDatetime (vs ++ [None])
  end.

Definition append (b : DataColumnBuilder) (f : Field) (value : NormalizedValue) : materialization DataColumnBuilder :=
  match b, value with
  | _, NvNull =>
      match f_nullability f with
      | NonNull => Err (NonNullFieldContainsNull (f_id f))
      | Nullable => Ok (append_null b)
      end
  | BBool vs, NvBool v => Ok (BBool (vs ++ [Some v]))
  | BInt32 vs, NvInt32 v => Ok (BInt32 (vs ++ [Some v]))
  | BInt64 vs, NvInt64 v => Ok (BInt64 (vs ++ [Some v]))
  | BUInt32 vs, NvUInt32 v => Ok (BUInt32 (vs ++ [Some v]))
  | BUInt64 vs, NvUInt64 v => Ok (BUInt64 (vs ++ [Some v]))
  | BFloat32 vs, NvFloat32 v => if is_finite v then Ok (BFloat32 (vs ++ [Some v])) else Err (NormalizedFloatNotFinite (f_id f))
  | BFloat64 vs, NvFloat64 v => if is_finite v then Ok (BFloat64 (vs ++ [Some v])) else Err (NormalizedFloatNotFinite (f_id f))
  | BUtf8 vs, NvUtf8 v => Ok (BUtf8 (vs ++ [Some v]))
  | BDatetime vs, NvDatetime v => Ok (BDatetime (vs ++ [Some v]))
  | _, _ => Err (NormalizedFieldTypeMismatch (f_id f) (f_logical_type f))
  end.

Definition finish (b : DataColumnBuilder) : ArrowArray :=
  match b with
  | BBool vs => BooleanArray vs
  | BInt32 vs => Int32Array vs
  | BInt64 vs => Int64Array vs
  | BUInt32 vs => UInt32Array vs
  | BUInt64 vs => UInt64Array vs
  | BFloat32 vs => Float32Array vs
  | BFloat64 vs => Float64Array vs
  | BUtf8 vs => StringArray vs
  | BDatetime vs => TimestampMillisecondArray (Some "UTC") vs
  end.

Section Materialize.
Context {lib : JsonLib} {text : JsonText} {uuid : UuidText} {arrow : ArrowLib}.

Definition validate_stored_schema (segment : SealedSegment) (stored_schema : Schema) : materialization unit :=
  let segment_source_id := k_source_id (ss_key segment) in
  let segment_schema_id := k_schema_id (ss_key segment) in
  _ ← check (segment_source_id =? s_source_id stored_schema)
        (StoredSchemaSourceMismatch segment_source_id (s_source_id stored_schema));
  check (segment_schema_id =? s_id stored_schema) (StoredSchemaIdentityMismatch segment_schema_id (s_id stored_schema)).

(** The builders of a segment: the data columns and the system columns. *)
Record ColumnBuilders := {
  cb_data : list DataColumnBuilder;
  cb_event_times : list (option Z);
  cb_ingestion_times : list (option Z);
  cb_event_ids : list (option (list Z));
  cb_remainders : list (option string);
}.

(** The loop over the fields of a row. *)
Fixpoint append_fields (builders : list DataColumnBuilder) (fields : list NormalizedField) (data_fields : list Field)
    : materialization (list DataColumnBuilder) :=
  match builders, fields, data_fields with
  | b :: builders, normalized :: fields, field :: data_fields =>
      _ ← check (nf_field_id normalized =? f_id field) (NormalizedFieldIdentityMismatch (f_id field) (nf_field_id normalized));
      b ← append b field (nf_value normalized);
      builders ← append_fields builders fields data_fields;
      Ok (b :: builders)
  | _, _, _ => Ok builders
  end.

Definition append_row (data_fields : list Field) (c : ColumnBuilders) (segment_row : SegmentRow) : materialization ColumnBuilders :=
  let row := sr_row segment_row in
  _ ← check (length (ar_event_id row) =? 16)%nat EventIdentityInvalid;
  _ ← check (length (ar_fields row) =? length data_fields)%nat
        (NormalizedFieldCountMismatch (length data_fields) (length (ar_fields row)));
  data ← append_fields (cb_data c) (ar_fields row) data_fields;
  remainder ← match ar_remainder row with
              | Some remainder => json ← ok_or (json_to_string (VObject remainder)) RemainderSerializationFailed; Ok (Some json)
              | None => Ok None
              end;
  Ok {| cb_data := data;
        cb_event_times := cb_event_times c ++ [Some (ar_event_time row)];
        cb_ingestion_times := cb_ingestion_times c ++ [Some (ar_ingestion_time row)];
        cb_event_ids := cb_event_ids c ++ [Some (ar_event_id row)];
        cb_remainders := cb_remainders c ++ [remainder] |}.

Definition columns_of (c : ColumnBuilders) : list ArrowArray :=
  [TimestampMillisecondArray (Some "UTC") (cb_event_times c);
   TimestampMillisecondArray (Some "UTC") (cb_ingestion_times c);
   FixedSizeBinaryArray 16 (cb_event_ids c)] ++
  (finish <$> cb_data c) ++ [StringArray (cb_remainders c)].

Definition materialize_segment_record_batch (segment : SealedSegment) (stored_schema : Schema) : materialization RecordBatch :=
  _ ← validate_stored_schema segment stored_schema;
  let fields := data_fields stored_schema in
  data_builders ← try_map DataColumnBuilder_new fields;
  columns ← try_fold (append_row fields)
    {| cb_data := data_builders; cb_event_times := []; cb_ingestion_times := []; cb_event_ids := []; cb_remainders := [] |}
    (ss_rows segment);
  ok_or (record_batch_try_new (arrow_schema stored_schema) (columns_of columns)) RecordBatchInvalid.

End Materialize.
