(* ===== verification/ParquetSegment.v ===== *)
(** * elucid-storage: Parquet segments and staged objects

    Models src/elucid/elucid-storage/src/parquet_segment.rs and staged.rs: a segment is
    written to a local file of its own within a byte limit, the file is opened again,
    validated against the identity of the segment and hashed, and is later read back for
    the upload.

    The local files are a map from paths to contents; which file operations fail is an
    argument. The Parquet writer and reader are parameters: the buffers that the writer
    hands to its output, and the metadata that the reader finds in a file. *)

From S2P Require Import Prelude Core CatalogTypes CatalogModel Bytes Frame Json Storage ObjectStore Canonical Arrow.
Import Schema.

#[local] Open Scope string_scope.
#[local] Open Scope list_scope.
#[local] Open Scope Z_scope.

Definition PARQUET_FORMAT_VERSION : Z := 1.
Definition PARQUET_MAX_ROW_GROUP_ROWS : Z := 8192.
Definition EVENT_TIME_ORDINAL : nat := 0.
Definition EVENT_ID_ORDINAL : nat := 2.
Definition MILLISECONDS_PER_DAY : Z := 86400000.
Definition SEGMENT_ID_FOOTER_KEY : string := "elucid.segment_id".
Definition SOURCE_ID_FOOTER_KEY : string := "elucid.source_id".
Definition SCHEMA_ID_FOOTER_KEY : string := "elucid.schema_id".
Definition ROW_COUNT_FOOTER_KEY : string := "elucid.row_count".
Definition FIELD_IDS_FOOTER_KEY : string := "elucid.field_ids".
Definition FORMAT_VERSION_FOOTER_KEY : string := "elucid.format_version".

(** ** Parameters: parquet *)

(** What the code sets of the writer's properties, and what it reads of a file. *)
Record WriterProperties := { wp_max_row_group_size : Z; wp_compressed : bool; wp_key_values : list (string * string) }.

Record RowGroup := { rg_num_rows : Z; rg_compressed : list bool }.

Record ParquetMetadata := {
  pm_fields : list ArrowField;
  pm_num_rows : Z;
  pm_key_values : option (list (string * option string));
  pm_row_groups : list RowGroup;
}.

Class ParquetLib := {
  (** the buffers that [ArrowWriter] writes for a batch up to [close], and whether it ends
      without an error of its own *)
  parquet_write : list ArrowField → WriterProperties → RecordBatch → list bytes * bool;
  (** [ParquetRecordBatchReaderBuilder::try_new] *)
  parquet_open : bytes → option ParquetMetadata;
}.

(** [Path::join] *)
Definition path_join (path component : string) : string := path +:+ "/" +:+ component.

Definition ParquetWriteLimit_new (value : Z) : storage_model Z := ok_or (NonZeroU64_new value) ParquetWriteLimitMustBePositive.

(** ** Expectations *)

Record ParquetSegmentExpectation := {
  px_key : ManagedObjectKey;
  px_segment_id : SegmentId;
  px_source_id : SourceId;
  px_schema_id : SchemaId;
  px_row_count : Z;
  px_arrow_schema : list ArrowField;
  px_field_ids : string;
}.

Definition parquet_segment_id (key : ManagedObjectKey) : storage_model SegmentId :=
  _ ← check (bool_decide (k_kind key = ParquetKind)) ParquetManagedKeyRequired;
  match k_owner key with
  | SegmentOwner segment_id => Ok segment_id
  | _ => Err ParquetManagedKeyRequired
  end.

Section Parquet.
Context {env : SpoolEnv} {uuid : UuidText} {parquet : ParquetLib}.

Definition ParquetSegmentExpectation_new (key : ManagedObjectKey) (stored_schema : Schema) (row_count : Z)
    : storage_model ParquetSegmentExpectation :=
  segment_id ← parquet_segment_id key;
  _ ← check (negb (row_count =? 0)) ParquetRowCountMustBePositive;
  _ ← ok_or (narrow I64 row_count) ParquetRowCountOutOfRange;
  Ok {| px_key := key; px_segment_id := segment_id; px_source_id := s_source_id stored_schema;
        px_schema_id := s_id stored_schema; px_row_count := row_count;
        px_arrow_schema := arrow_schema stored_schema;
        px_field_ids := String.concat "," ((λ f, uuid_to_string (f_id f)) <$> s_fields stored_schema) |}.

Definition staging_path (root : string) (expectation : ParquetSegmentExpectation) : string :=
  path_join (path_join (path_join root "parquet") (uuid_to_string (px_segment_id expectation)))
    (uuid_to_string (k_object_id (px_key expectation)) +:+ ".parquet").

(** ** Inputs *)

Record ParquetSegmentInput := { pi_expectation : ParquetSegmentExpectation; pi_batch : RecordBatch }.

Fixpoint validate_non_null (ordinal : nat) (fields : list ArrowField) (columns : list ArrowArray) : storage_model unit :=
  match fields, columns with
  | field :: fields, column :: columns =>
      if negb (af_nullable field) && negb (null_count column =? 0)%nat then Err (ParquetNonNullFieldContainsNull ordinal)
      else validate_non_null (S ordinal) fields columns
  | _, _ => Ok tt
  end.

Definition validate_non_null_columns (batch : RecordBatch) : storage_model unit :=
  validate_non_null 0 (rb_fields batch) (rb_columns batch).

(** [value(index)] of a primitive array: zero where it is null. *)
Definition time_value (o : option Z) : Z := default 0 o.
Definition id_value (o : option (list Z)) : list Z := default (replicate 16 0) o.

(** The loop over the rows after the first. *)
Fixpoint validate_order_and_day (event_day previous_time : Z) (previous_id : list Z) (rows : list (Z * list Z)) : storage_model unit :=
  match rows with
  | [] => Ok tt
  | (time, id) :: rows =>
      _ ← check (time / MILLISECONDS_PER_DAY =? event_day) ParquetRowsSpanEventDays;
      if (previous_time >? time) || ((previous_time =? time) && bool_decide (EventId.compare previous_id id = Gt))
      then Err ParquetRowsNotOrdered
      else validate_order_and_day event_day time id rows
  end.

Definition validate_segment_order_and_day (batch : RecordBatch) : storage_model unit :=
  match rb_columns batch !! EVENT_TIME_ORDINAL, rb_columns batch !! EVENT_ID_ORDINAL with
  | Some (TimestampMillisecondArray _ event_times), Some (FixedSizeBinaryArray _ event_ids) =>
      if negb (length event_times =? length event_ids)%nat then Err ParquetSystemColumnsInvalid
      else match zip (time_value <$> event_times) (id_value <$> event_ids) with
           | [] => Err ParquetSystemColumnsInvalid
           | (time, id) :: rows => validate_order_and_day (time / MILLISECONDS_PER_DAY) time id rows
           end
  | _, _ => Err ParquetSystemColumnsInvalid
  end.

Definition ParquetSegmentInput_new (key : ManagedObjectKey) (stored_schema : Schema) (batch : RecordBatch)
    : storage_model ParquetSegmentInput :=
  row_count ← ok_or (narrow U64 (Z.of_nat (num_rows batch))) ParquetRowCountOutOfRange;
  expectation ← ParquetSegmentExpectation_new key stored_schema row_count;
  _ ← check (bool_decide (rb_fields batch = px_arrow_schema expectation)) ParquetSchemaMismatch;
  _ ← validate_non_null_columns batch;
  _ ← validate_segment_order_and_day batch;
  Ok {| pi_expectation := expectation; pi_batch := batch |}.

(** ** Validation *)

Definition parquet_build (source : StorageErrorSource) : StorageError := {| se_kind := ParquetBuildFailed; se_source := source |}.
Definition parquet_invalid (source : StorageErrorSource) : StorageError := {| se_kind := ParquetInvalid; se_source := source |}.
Definition parquet_invalid_invariant (message : string) : StorageError := parquet_invalid (Invariant message).
Definition with_cleanup_failure (e : StorageError) : StorageError := {| se_kind := se_kind e; se_source := Cleanup (se_source e) |}.

Definition footer_metadata (expectation : ParquetSegmentExpectation) : list (string * string) :=
  [(SEGMENT_ID_FOOTER_KEY, uuid_to_string (px_segment_id expectation));
   (SOURCE_ID_FOOTER_KEY, uuid_to_string (px_source_id expectation));
   (SCHEMA_ID_FOOTER_KEY, uuid_to_string (px_schema_id expectation));
   (ROW_COUNT_FOOTER_KEY, pretty (px_row_count expectation));
   (FIELD_IDS_FOOTER_KEY, px_field_ids expectation);
   (FORMAT_VERSION_FOOTER_KEY, pretty PARQUET_FORMAT_VERSION)].

Definition writer_properties (expectation : ParquetSegmentExpectation) : WriterProperties :=
  {| wp_max_row_group_size := PARQUET_MAX_ROW_GROUP_ROWS; wp_compressed := true; wp_key_values := footer_metadata expectation |}.

(** The first entry of a key holds the value and there is no second one. *)
Definition footer_entry_valid (metadata : list (string * option string)) (entry : string * string) : bool :=
  match filter (λ m, m.1 = entry.1) metadata with
  | [(_, Some value)] => bool_decide (value = entry.2)
  | _ => false
  end.

Definition validate_footer (metadata : option (list (string * option string))) (expectation : ParquetSegmentExpectation)
    : result StorageError unit :=
  metadata ← ok_or metadata (parquet_invalid_invariant "Parquet footer has no key-value metadata");
  check (forallb (footer_entry_valid metadata) (footer_metadata expectation))
    (parquet_invalid_invariant "Parquet footer identity metadata is missing, duplicated, or mismatched").

Definition add_row_group (total_rows : Z) (row_group : RowGroup) : result StorageError Z :=
  _ ← check ((0 <? rg_num_rows row_group) && (rg_num_rows row_group <=? PARQUET_MAX_ROW_GROUP_ROWS))
        (parquet_invalid_invariant "Parquet row group exceeds the implementation row bound");
  _ ← check (forallb id (rg_compressed row_group)) (parquet_invalid_invariant "Parquet column is not compressed");
  ok_or (narrow I64 (total_rows + rg_num_rows row_group)) (parquet_invalid_invariant "Parquet row-group count overflow").

Definition validate_row_groups (row_groups : list RowGroup) (expected_rows : Z) : result StorageError unit :=
  _ ← check (negb (bool_decide (length row_groups = 0%nat))) (parquet_invalid_invariant "Parquet segment has no row groups");
  total_rows ← try_fold add_row_group 0 row_groups;
  check (total_rows =? expected_rows) (parquet_invalid_invariant "Parquet row-group counts do not match the segment").

Definition validate_parquet_segment_metadata (metadata : ParquetMetadata) (expectation : ParquetSegmentExpectation)
    : result StorageError nat :=
  _ ← check (bool_decide (pm_fields metadata = px_arrow_schema expectation))
        (parquet_invalid_invariant "Parquet Arrow schema does not match the stored schema");
  expected_rows ← ok_or (narrow I64 (px_row_count expectation))
        (parquet_invalid_invariant "expected Parquet row count is out of range");
  _ ← check (pm_num_rows metadata =? expected_rows)
        (parquet_invalid_invariant "Parquet footer row count does not match the segment");
  _ ← validate_footer (pm_key_values metadata) expectation;
  _ ← validate_row_groups (pm_row_groups metadata) expected_rows;
  Ok (length (pm_row_groups metadata)).

(** ** Files *)

Notation Files := (gmap string bytes).

Record StagedParquetSegment := {
  ps_path : string;
  ps_expectation : ParquetSegmentExpectation;
  ps_object_descriptor : ObjectDescriptor;
  ps_row_group_count : nat;
}.

(** [Some content] when no operation on the file fails. *)
Definition read_file (files : Files) (path : string) (fails : bool) : result StorageError bytes :=
  if fails then Err (parquet_invalid FromIo) else ok_or (files !! path) (parquet_invalid FromIo).

Definition hash_exact_file (files : Files) (path : string) (fails : bool) : result StorageError (Z * bytes) :=
  b ← read_file files path fails;
  Ok (Z.of_nat (length b), blake3 b).

(** [fails]: opening the file for the reader, and opening or reading it for the hash. *)
Definition validate_parquet_segment (files : Files) (path : string) (expectation : ParquetSegmentExpectation)
    (fails : bool * bool) : result StorageError StagedParquetSegment :=
  b ← read_file files path fails.1;
  reader ← ok_or (parquet_open b) (parquet_invalid FromParquet);
  row_group_count ← validate_parquet_segment_metadata reader expectation;
  '(byte_size, digest) ← hash_exact_file files path fails.2;
  format_version ← map_err (λ _, parquet_invalid_invariant "Parquet format version is not positive")
    (ObjectFormatVersion_new PARQUET_FORMAT_VERSION);
  object_descriptor ← map_err (λ _, parquet_invalid_invariant "validated Parquet key does not match its media type")
    (ObjectDescriptor_new (px_key expectation) byte_size digest ParquetMedia format_version);
  Ok {| ps_path := path; ps_expectation := expectation; ps_object_descriptor := object_descriptor;
        ps_row_group_count := row_group_count |}.

(** [LimitedWriter]: what is written of the buffers, and [Some true] when the limit stops
    them or [Some false] when the file system does, after some buffers and bytes. *)
Fixpoint limited_write (limit written : Z) (fails : option (nat * nat)) (buffers : list bytes) : bytes * option bool :=
  match buffers with
  | [] => ([], None)
  | b :: buffers =>
      if written + Z.of_nat (length b) >? limit then ([], Some true)
      else match fails with
           | Some (O, n) => (take n b, Some false)
           | _ =>
               let '(rest, failure) :=
                 limited_write limit (written + Z.of_nat (length b)) (prod_map pred id <$> fails) buffers in
               (b ++ rest, failure)
           end
  end.

(** Which file operations of a write fail. *)
Record WriteIo := {
  wi_create_fails : bool;
  wi_buffers : option (nat * nat);
  wi_validation_fails : bool * bool;
  wi_remove_fails : bool;
}.

Definition remove_incomplete (files : Files) (path : string) (fails : bool) (e : StorageError) : StorageError * Files :=
  if fails then (with_cleanup_failure e, files) else (e, delete path files).

Definition write_parquet_segment (root : string) (input : ParquetSegmentInput) (limit : Z) (io : WriteIo) (files : Files)
    : result StorageError StagedParquetSegment * Files :=
  let expectation := pi_expectation input in
  let path := staging_path root expectation in
  if wi_create_fails io || bool_decide (is_Some (files !! path)) then (Err (parquet_build FromIo), files)
  else
    let '(buffers, complete) := parquet_write (px_arrow_schema expectation) (writer_properties expectation) (pi_batch input) in
    let '(content, failure) := limited_write limit 0 (wi_buffers io) buffers in
    let files := <[path := content]> files in
    let failed (e : StorageError) := let '(e, files) := remove_incomplete files path (wi_remove_fails io) e in (Err e, files) in
    match failure with
    | Some true => failed (invariant_error LocalCapacityExhausted "Parquet file exceeds the caller's local write limit")
    | Some false => failed (parquet_build FromParquet)
    | None =>
        if complete then
          match validate_parquet_segment files path expectation (wi_validation_fails io) with
          | Ok staged => (Ok staged, files)
          | Err e => failed e
          end
        else failed (parquet_build FromParquet)
    end.

(** ** Reading a staged object (staged.rs) *)

Inductive StagedObjectReadError := StagedCapacityExceeded | StagedSizeMismatch | StagedDigestMismatch | StagedIo.

(** [fails]: an I/O error or an allocation that is refused. *)
Definition read_staged_object (files : Files) (path : string) (descriptor : ObjectDescriptor) (limit : Z)
    (fails : option StagedObjectReadError) : result StagedObjectReadError bytes :=
  let expected := od_expected_byte_size descriptor in
  _ ← check (negb (expected >? limit)) StagedCapacityExceeded;
  _ ← match fails with Some e => Err e | None => Ok tt end;
  b ← ok_or (files !! path) StagedIo;
  _ ← check (Z.of_nat (length b) =? expected) StagedSizeMismatch;
  _ ← check (bool_decide (blake3 b = od_digest descriptor)) StagedDigestMismatch;
  Ok b.

End Parquet.
