(* ===== verification/StagingCorrect.v ===== *)
(** * Staging: from sealed segments to files

    Every sealed segment of the builders becomes columns that hold its rows exactly, those
    columns are accepted as a Parquet segment, and the file that is written holds what its
    descriptor says or is gone. *)

From S2P Require Import Prelude Core CatalogTypes CatalogModel CatalogSource SemExpression Floats Bytes Frame Json Storage ObjectStore Normalization NormalizationCorrect Segment SegmentCorrect Canonical Arrow ParquetSegment.
Import Schema.

#[local] Open Scope string_scope.
#[local] Open Scope list_scope.
#[local] Open Scope Z_scope.

(** ** Columns *)

(** An entry of a column as a normalized value; binary columns have none. *)
Definition cell (a : ArrowArray) (i : nat) : option NormalizedValue :=
  match a with
  | BooleanArray vs => from_option NvBool NvNull <$> vs !! i
  | Int32Array vs => from_option NvInt32 NvNull <$> vs !! i
  | Int64Array vs => from_option NvInt64 NvNull <$> vs !! i
  | UInt32Array vs => from_option NvUInt32 NvNull <$> vs !! i
  | UInt64Array vs => from_option NvUInt64 NvNull <$> vs !! i
  | Float32Array vs => from_option NvFloat32 NvNull <$> vs !! i
  | Float64Array vs => from_option NvFloat64 NvNull <$> vs !! i
  | StringArray vs => from_option NvUtf8 NvNull <$> vs !! i
  | TimestampMillisecondArray _ vs => from_option NvDatetime NvNull <$> vs !! i
  | FixedSizeBinaryArray _ _ => None
  end.

(** A value of the type of a field. *)
Definition typed (t : LogicalType) (v : NormalizedValue) : bool :=
  match t, v with
  | Bool, NvBool _ | Int32, NvInt32 _ | Int64, NvInt64 _ | UInt32, NvUInt32 _ | UInt64, NvUInt64 _
  | Utf8, NvUtf8 _ | Datetime, NvDatetime _ => true
  | Float32, NvFloat32 x | Float64, NvFloat64 x => is_finite x
  | _, _ => false
  end.

Definition value_fits (f : Field) (v : NormalizedValue) : Prop :=
  (v = NvNull ∧ f_nullability f = Nullable) ∨ typed (f_logical_type f) v = true.

(** The builder of a column after some values. *)
Definition builder_of (t : LogicalType) (vs : list NormalizedValue) : DataColumnBuilder :=
  match t with
  | Bool => BBool ((λ v, match v with NvBool b => Some b | _ => None end) <$> vs)
  | Int32 => BInt32 ((λ v, match v with NvInt32 z => Some z | _ => None end) <$> vs)
  | Int64 => BInt64 ((λ v, match v with NvInt64 z => Some z | _ => None end) <$> vs)
  | UInt32 => BUInt32 ((λ v, match v with NvUInt32 z => Some z | _ => None end) <$> vs)
  | UInt64 => BUInt64 ((λ v, match v with NvUInt64 z => Some z | _ => None end) <$> vs)
  | Float32 => BFloat32 ((λ v, match v with NvFloat32 x => Some x | _ => None end) <$> vs)
  | Float64 => BFloat64 ((λ v, match v with NvFloat64 x => Some x | _ => None end) <$> vs)
  | Datetime => BDatetime ((λ v, match v with NvDatetime z => Some z | _ => None end) <$> vs)
  | _ => BUtf8 ((λ v, match v with NvUtf8 s => Some s | _ => None end) <$> vs)
  end.

(** The types that a data field can have. *)
Definition data_type (t : LogicalType) : bool := match t with Eid | CatalogTypes.Json => false | _ => true end.

Lemma builder_new f : data_type (f_logical_type f) = true → DataColumnBuilder_new f = Ok (builder_of (f_logical_type f) []).
Proof. unfold DataColumnBuilder_new. by destruct (f_logical_type f). Qed.

Lemma append_fits f vs v :
  data_type (f_logical_type f) = true → value_fits f v →
  append (builder_of (f_logical_type f) vs) f v = Ok (builder_of (f_logical_type f) (vs ++ [v])).
Proof.
  intros Hd [[-> Hn]|Ht].
  - unfold append. rewrite Hn. destruct (f_logical_type f); try done; cbn; by rewrite fmap_app.
  - destruct (f_logical_type f), v; try done; cbn in Ht |- *; rewrite ?fmap_app; try done; by rewrite Ht.
Qed.

Lemma builder_cell f vs i v :
  data_type (f_logical_type f) = true → value_fits f v → vs !! i = Some v →
  cell (finish (builder_of (f_logical_type f) vs)) i = Some v.
Proof.
  intros Hd Hf Hi. destruct Hf as [[-> _]|Ht].
  - destruct (f_logical_type f); try done; cbn; by rewrite list_lookup_fmap, Hi.
  - destruct (f_logical_type f), v; try done; cbn; by rewrite list_lookup_fmap, Hi.
Qed.

Lemma builder_fits `{UuidText} f vs :
  data_type (f_logical_type f) = true → Forall (value_fits f) vs → column_fits (to_arrow f) (finish (builder_of (f_logical_type f) vs)).
Proof.
  intros Hd Hvs. split; [cbn [to_arrow af_data_type]; by destruct (f_logical_type f)|]. cbn [to_arrow af_nullable]. intros Hn.
  assert (Hb : ∀ {A} (g : NormalizedValue → option A), (∀ v, typed (f_logical_type f) v = true → is_Some (g v)) →
    length (filter (λ b : bool, b = true) (absent <$> (g <$> vs))) = 0%nat).
  { intros A g Hg. induction Hvs as [|v vs Hv _ IH]; [done|]. rewrite !fmap_cons, filter_cons.
    destruct Hv as [[_ Hv]|Hv]; [by rewrite Hv in Hn|]. destruct (Hg _ Hv) as [x ->]. cbn. by rewrite decide_False. }
  unfold null_count. destruct (f_logical_type f); try done; cbn; apply Hb; intros []; try done; eauto.
Qed.

Lemma builder_len t vs : array_len (finish (builder_of t vs)) = length vs.
Proof. unfold array_len. destruct t; cbn; by rewrite !length_fmap. Qed.

(** ** Rows *)

(** The columns of the values of some rows. *)
Definition snoc_row (columns : list (list NormalizedValue)) (row : list NormalizedValue) : list (list NormalizedValue) :=
  zip_with (λ c v, c ++ [v]) columns row.

Definition transpose (width : nat) (rows : list (list NormalizedValue)) : list (list NormalizedValue) :=
  fold_left snoc_row rows (replicate width []).

Lemma transpose_snoc width rows row : transpose width (rows ++ [row]) = snoc_row (transpose width rows) row.
Proof. unfold transpose. by rewrite fold_left_app. Qed.

(** Entry [i] of column [j] is entry [j] of row [i]. *)
Lemma transpose_lookup width rows :
  Forall (λ r, length r = width) rows →
  length (transpose width rows) = width ∧
  ∀ j, (j < width)%nat → ∃ c, transpose width rows !! j = Some c ∧ length c = length rows ∧ ∀ i, c !! i = rows !! i ≫= (.!! j).
Proof.
  induction rows as [|row rows IH] using rev_ind; intros Hall.
  - split; [apply length_replicate|]. intros j Hj. exists []. split_and!; [by apply lookup_replicate_2 | done | done].
  - apply Forall_app in Hall as [Hall Hr]. apply Forall_cons in Hr as [Hr _]. destruct (IH Hall) as [Hlen Hlook]. rewrite transpose_snoc.
    unfold snoc_row. split; [rewrite length_zip_with; lia|]. intros j Hj. destruct (Hlook j Hj) as (c & Hc & Hcl & Hci).
    destruct (lookup_lt_is_Some_2 row j) as [v Hv]; [lia|]. exists (c ++ [v]). split_and!.
    + apply lookup_zip_with_Some. eauto.
    + rewrite !length_app. cbn. lia.
    + intros i. destruct (decide (i < length rows)%nat) as [Hi|Hi].
      * rewrite !lookup_app_l by lia. apply Hci.
      * rewrite !lookup_app_r by lia. rewrite Hcl. destruct (i - length rows)%nat as [|n]; [symmetry; exact Hv | done].
Qed.

Section Rows.
Context {lib : JsonLib} {text : JsonText} {uuid : UuidText} {arrow : ArrowLib}.

Definition row_values (r : SegmentRow) : list NormalizedValue := nf_value <$> ar_fields (sr_row r).

(** The text of a remainder. *)
Definition remainder_text (r : SegmentRow) : option string := ar_remainder (sr_row r) ≫= λ members, json_to_string (VObject members).

(** A row of a schema, as normalization makes it. *)
Record row_fits (fields : list Field) (r : SegmentRow) : Prop := {
  rf_event_id : length (ar_event_id (sr_row r)) = 16%nat;
  rf_fields : Forall2 (λ f nf, nf_field_id nf = f_id f ∧ value_fits f (nf_value nf)) fields (ar_fields (sr_row r));
  rf_remainder members : ar_remainder (sr_row r) = Some members → is_Some (json_to_string (VObject members));
}.

Lemma append_fields_fits fields columns normalized :
  Forall (λ f, data_type (f_logical_type f) = true) fields → length columns = length fields →
  Forall2 (λ f nf, nf_field_id nf = f_id f ∧ value_fits f (nf_value nf)) fields normalized →
  append_fields (zip_with (λ f c, builder_of (f_logical_type f) c) fields columns) normalized fields =
  Ok (zip_with (λ f c, builder_of (f_logical_type f) c) fields (snoc_row columns (nf_value <$> normalized))).
Proof.
  intros Ht Hlen Hf. revert columns Hlen. induction Hf as [|f nf fields normalized [Hid Hv] Hf IH]; intros [|c columns] Hlen; try done.
  apply Forall_cons in Ht as [Ht Hts]. cbn [zip_with append_fields]. rewrite Hid, Z.eqb_refl. cbn [check]. rewrite bind_ret.
  rewrite append_fits, bind_ret by done. rewrite IH by (try done; cbn in Hlen; lia). cbn. done.
Qed.

(** The builders after some rows. *)
Definition builders_of (fields : list Field) (rows : list SegmentRow) : ColumnBuilders :=
  {| cb_data := zip_with (λ f c, builder_of (f_logical_type f) c) fields (transpose (length fields) (row_values <$> rows));
     cb_event_times := (λ r, Some (ar_event_time (sr_row r))) <$> rows;
     cb_ingestion_times := (λ r, Some (ar_ingestion_time (sr_row r))) <$> rows;
     cb_event_ids := (λ r, Some (ar_event_id (sr_row r))) <$> rows;
     cb_remainders := remainder_text <$> rows |}.

Lemma row_values_width fields r : row_fits fields r → length (row_values r) = length fields.
Proof. intros []. unfold row_values. rewrite length_fmap. symmetry. by eapply Forall2_length. Qed.

Lemma append_rows fields rows : ∀ seen,
  Forall (λ f, data_type (f_logical_type f) = true) fields → Forall (row_fits fields) seen → Forall (row_fits fields) rows →
  try_fold (append_row fields) (builders_of fields seen) rows = Ok (builders_of fields (seen ++ rows)).
Proof.
  induction rows as [|r rows IH]; intros seen Ht Hs Hr; cbn [try_fold]; [by rewrite app_nil_r|].
  apply Forall_cons in Hr as [Hr Hrs]. assert (Hw : Forall (λ x, length x = length fields) (row_values <$> seen)).
  { apply Forall_fmap. eapply Forall_impl; [exact Hs|]. intros x. apply row_values_width. }
  destruct (transpose_lookup _ _ Hw) as [Hl _]. pose proof Hr as []. unfold append_row. cbv zeta. rewrite rf_event_id0. cbn [check Nat.eqb].
  rewrite bind_ret, <- (Forall2_length _ _ _ rf_fields0), Nat.eqb_refl. cbn [check]. rewrite bind_ret. cbn [cb_data builders_of].
  rewrite append_fields_fits, bind_ret by done.
  assert (Hrem : match ar_remainder (sr_row r) with
    | Some remainder => json ← ok_or (json_to_string (VObject remainder)) RemainderSerializationFailed; Ok (Some json)
    | None => Ok None end = Ok (remainder_text r)).
  { unfold remainder_text. destruct (ar_remainder (sr_row r)) as [members|] eqn:E; [|done]. cbn.
    by destruct (rf_remainder0 members eq_refl) as [json ->]. }
  rewrite Hrem, bind_ret. rewrite (cons_middle r seen rows), app_assoc, <- IH; [|done | apply Forall_app; auto | done].
  unfold builders_of. rewrite !fmap_app. change (row_values <$> [r]) with [row_values r]. by rewrite transpose_snoc.
Qed.

Lemma user_data_type t : data_type (logical_type_of_user t) = true.
Proof. by destruct t. Qed.

Lemma data_types schema users :
  s_fields schema = layout users → Forall (λ f, data_type (f_logical_type f) = true) (data_fields schema).
Proof.
  intros Hs. unfold data_fields. rewrite Hs, layout_data. apply Forall_forall. intros f (k & u & -> & _)%elem_of_lookup_imap_1.
  apply user_data_type.
Qed.

Lemma builders_new fields :
  Forall (λ f, data_type (f_logical_type f) = true) fields →
  try_map DataColumnBuilder_new fields = Ok (zip_with (λ f c, builder_of (f_logical_type f) c) fields (transpose (length fields) [])).
Proof.
  intros Ht. apply try_map_Ok. unfold transpose. cbn [fold_left]. induction Ht as [|f fields Hf _ IH]; [constructor|].
  cbn [length replicate zip_with]. constructor; [by apply builder_new | exact IH].
Qed.

(** Column [j] of the data columns, of rows that fit. *)
Lemma data_column fields rows j f :
  Forall (row_fits fields) rows → fields !! j = Some f →
  ∃ c, cb_data (builders_of fields rows) !! j = Some (builder_of (f_logical_type f) c) ∧ length c = length rows ∧
    Forall (value_fits f) c ∧ ∀ i, c !! i = rows !! i ≫= λ r, row_values r !! j.
Proof.
  intros Hr Hf. assert (Hw : Forall (λ x, length x = length fields) (row_values <$> rows)).
  { apply Forall_fmap. eapply Forall_impl; [exact Hr|]. intros x. apply row_values_width. }
  destruct (transpose_lookup _ _ Hw) as [Hl Hlook]. destruct (Hlook j) as (c & Hc & Hcl & Hci); [by eapply lookup_lt_Some|].
  assert (Hi : ∀ i, c !! i = rows !! i ≫= λ r, row_values r !! j).
  { intros i. rewrite Hci, list_lookup_fmap. by destruct (rows !! i). }
  exists c. split_and!; [|by rewrite Hcl, length_fmap| |done].
  - cbn [cb_data builders_of]. apply lookup_zip_with_Some. eauto.
  - apply Forall_lookup. intros i v Hv. rewrite Hi in Hv. apply bind_Some in Hv as (r & Hri & Hv).
    rewrite Forall_lookup in Hr. destruct (Hr _ _ Hri). unfold row_values in Hv. apply list_lookup_fmap_Some in Hv as (nf & -> & Hnf).
    by destruct (Forall2_lookup_lr _ _ _ _ _ _ rf_fields0 Hf Hnf).
Qed.

Lemma no_nulls {A B} (g : A → B) (l : list A) : length (filter (λ b : bool, b = true) (absent <$> ((λ a, Some (g a)) <$> l))) = 0%nat.
Proof. induction l as [|a l IH]; [done|]. rewrite !fmap_cons, filter_cons. cbn. by rewrite decide_False. Qed.

(** The columns of rows that fit have the types of the stored schema. *)
Lemma columns_fit schema users rows :
  s_fields schema = layout users → Forall (row_fits (data_fields schema)) rows →
  let columns := columns_of (builders_of (data_fields schema) rows) in
  Forall2 column_fits (arrow_schema schema) columns ∧ Forall (λ a, array_len a = length rows) columns.
Proof.
  intros Hs Hr columns. unfold arrow_schema. rewrite Hs. pose proof (data_types _ _ Hs) as Ht.
  assert (Ed : data_fields schema = imap (λ k u, field_of_user u (3 + k)) users) by (unfold data_fields; by rewrite Hs, layout_data).
  unfold layout, system_prefix. rewrite <- Ed. set (fields := data_fields schema) in *.
  assert (Hdata : Forall2 (λ f b, column_fits (to_arrow f) (finish b) ∧ array_len (finish b) = length rows) fields
    (cb_data (builders_of fields rows))).
  { apply Forall2_same_length_lookup_2.
    - cbn [cb_data builders_of]. rewrite length_zip_with. destruct (transpose_lookup (length fields) (row_values <$> rows)) as [-> _]; [|lia].
      apply Forall_fmap. eapply Forall_impl; [exact Hr|]. intros x. apply row_values_width.
    - intros j f b Hf Hb. destruct (data_column _ _ _ _ Hr Hf) as (c & Hc & Hl & Hv & _). simplify_eq.
      rewrite Forall_lookup in Ht. split; [apply builder_fits; [by eapply Ht | done] | by rewrite builder_len]. }
  split.
  - unfold columns, columns_of. rewrite !fmap_app. apply Forall2_app; [|apply Forall2_app].
    + repeat constructor; intros _; apply no_nulls.
    + apply Forall2_fmap. eapply Forall2_impl; [exact Hdata|]. by intros f b [].
    + repeat constructor. intros [=].
  - unfold columns, columns_of. apply Forall_app. split; [|apply Forall_app; split].
    + rewrite !Forall_cons, Forall_nil. unfold array_len. cbn [array_nulls builders_of cb_event_times cb_ingestion_times cb_event_ids cb_remainders]. by rewrite !length_fmap.
    + apply Forall_fmap, Forall_lookup. intros j b Hb. destruct (Forall2_lookup_r _ _ _ _ _ Hdata Hb) as (f & _ & _ & Hl). exact Hl.
    + rewrite !Forall_cons, Forall_nil. unfold array_len. cbn [array_nulls builders_of cb_event_times cb_ingestion_times cb_event_ids cb_remainders]. by rewrite !length_fmap.
Qed.

Lemma materialize_fits {arrow_laws : ArrowLaws} seg schema users :
  s_fields schema = layout users → k_source_id (ss_key seg) = s_source_id schema → k_schema_id (ss_key seg) = s_id schema →
  Forall (row_fits (data_fields schema)) (ss_rows seg) →
  materialize_segment_record_batch seg schema =
  Ok {| rb_fields := arrow_schema schema; rb_columns := columns_of (builders_of (data_fields schema) (ss_rows seg)) |}.
Proof.
  intros Hs Hsrc Hid Hr. unfold materialize_segment_record_batch, validate_stored_schema. rewrite Hsrc, Hid, !Z.eqb_refl. cbn [check].
  rewrite !bind_ret. pose proof (data_types _ _ Hs) as Ht. rewrite builders_new by done. rewrite bind_ret.
  change (zip_with _ _ _) with (cb_data (builders_of (data_fields schema) [])).
  change {| cb_data := _; cb_event_times := []; cb_ingestion_times := []; cb_event_ids := []; cb_remainders := [] |}
    with (builders_of (data_fields schema) []).
  rewrite append_rows, bind_ret by done. cbn [app]. destruct (columns_fit _ _ _ Hs Hr) as [Hf Hl].
  assert (Hne : arrow_schema schema ≠ []) by (unfold arrow_schema; by rewrite Hs).
  destruct (try_new_fits _ _ _ Hne Hf Hl) as [b Hb]. rewrite Hb. cbn. f_equal. by apply try_new_exact.
Qed.

End Rows.

(** ** Inputs *)

Section Inputs.
Context {env : SpoolEnv} {lib : JsonLib} {text : JsonText} {uuid : UuidText} {arrow : ArrowLib} {segment_layout : SegmentLayout}.

Lemma validate_non_null_fits fields columns : ∀ n, Forall2 column_fits fields columns → validate_non_null n fields columns = Ok tt.
Proof.
  intros n H. revert n. induction H as [|f a fields columns [_ Hn] _ IH]; intros n; [done|]. cbn [validate_non_null].
  destruct (af_nullable f); cbn [negb andb]; [apply IH|]. rewrite Hn by done. apply IH.
Qed.

Definition sort_key (r : SegmentRow) : Z * list Z := (ar_event_time (sr_row r), ar_event_id (sr_row r)).

Lemma validate_sorted day r rows :
  StronglySorted row_le (r :: rows) → Forall (λ x, event_day (sr_row x) = day) rows →
  validate_order_and_day day (ar_event_time (sr_row r)) (ar_event_id (sr_row r)) (sort_key <$> rows) = Ok tt.
Proof.
  revert r. induction rows as [|x rows IH]; intros r Hs Hd; [done|]. apply StronglySorted_inv in Hs as [Hs Hr].
  apply Forall_cons in Hd as [Hx Hd], Hr as [Hr _]. rewrite fmap_cons. unfold sort_key at 1. cbn [validate_order_and_day].
  unfold event_day, Normalization.MILLISECONDS_PER_DAY in Hx. unfold MILLISECONDS_PER_DAY. rewrite Hx, Z.eqb_refl. cbn [check]. rewrite bind_ret.
  unfold row_le in Hr. rewrite Z.gtb_ltb. destruct (Z.compare_spec (ar_event_time (sr_row r)) (ar_event_time (sr_row x))) as [E|E|E]; [| |done].
  - rewrite E, Z.ltb_irrefl, Z.eqb_refl. cbn [orb andb]. rewrite bool_decide_false by done. by apply IH.
  - rewrite (proj2 (Z.ltb_ge _ _)), (proj2 (Z.eqb_neq _ _)) by lia. cbn [orb andb]. by apply IH.
Qed.

Lemma zip_sort_keys rows :
  zip (time_value <$> ((λ r, Some (ar_event_time (sr_row r))) <$> rows)) (id_value <$> ((λ r, Some (ar_event_id (sr_row r))) <$> rows)) =
  (sort_key <$> rows).
Proof. induction rows as [|r rows IH]; [done|]. rewrite !fmap_cons. cbn [zip_with]. by f_equal. Qed.

Lemma order_accepted schema_fields fields rows day :
  rows ≠ [] → StronglySorted row_le rows → Forall (λ r, event_day (sr_row r) = day) rows →
  validate_segment_order_and_day {| rb_fields := schema_fields; rb_columns := columns_of (builders_of fields rows) |} = Ok tt.
Proof.
  intros Hne Hs Hd. unfold validate_segment_order_and_day.
  cbn [rb_columns columns_of app lookup list_lookup EVENT_TIME_ORDINAL EVENT_ID_ORDINAL builders_of cb_event_times cb_event_ids].
  rewrite !length_fmap, Nat.eqb_refl. cbn [negb]. rewrite zip_sort_keys. destruct rows as [|r rows]; [done|]. rewrite fmap_cons.
  apply Forall_cons in Hd as [Hd Hds].
  assert (Hv : validate_order_and_day (event_day (sr_row r)) (ar_event_time (sr_row r)) (ar_event_id (sr_row r)) (sort_key <$> rows) = Ok tt).
  { apply validate_sorted; [done|]. eapply Forall_impl; [exact Hds|]. intros x Hx. congruence. }
  exact Hv.
Qed.

Lemma segment_input_accepted seg schema users key segment_id l :
  s_fields schema = layout users → Forall (row_fits (data_fields schema)) (ss_rows seg) → segment_ok l seg →
  target_rows l ≤ int_max I64 → Forall (λ r, event_day (sr_row r) = k_event_day (ss_key seg)) (ss_rows seg) →
  k_kind key = ParquetKind → k_owner key = SegmentOwner segment_id →
  let batch := {| rb_fields := arrow_schema schema; rb_columns := columns_of (builders_of (data_fields schema) (ss_rows seg)) |} in
  ∃ expectation, ParquetSegmentExpectation_new key schema (Z.of_nat (length (ss_rows seg))) = Ok expectation ∧
    ParquetSegmentInput_new key schema batch = Ok {| pi_expectation := expectation; pi_batch := batch |}.
Proof.
  intros Hs Hr [Hne _ _ [Ht _] Hsort _ _ _ _] Hmax Hd Hk Ho batch.
  destruct (columns_fit _ _ _ Hs Hr) as [Hf Hl].
  assert (Hn : num_rows batch = length (ss_rows seg)) by (apply Forall_cons in Hl as [Hl _]; exact Hl).
  assert (Hpos : 0 < Z.of_nat (length (ss_rows seg))) by (destruct (ss_rows seg); [done | cbn; lia]).
  assert (Hi : narrow I64 (Z.of_nat (length (ss_rows seg))) = Some (Z.of_nat (length (ss_rows seg)))).
  { apply narrow_Some. split; [done|]. split; [unfold int_min; cbn; lia | lia]. }
  assert (Hu : narrow U64 (Z.of_nat (length (ss_rows seg))) = Some (Z.of_nat (length (ss_rows seg)))).
  { apply narrow_Some. split; [done|]. apply narrow_Some in Hi as [_ Hi]. int_lia. }
  assert (He : ∃ expectation, ParquetSegmentExpectation_new key schema (Z.of_nat (length (ss_rows seg))) = Ok expectation ∧
    px_arrow_schema expectation = arrow_schema schema).
  { unfold ParquetSegmentExpectation_new, parquet_segment_id. rewrite bool_decide_true by done. cbn [check]. rewrite bind_ret, Ho, bind_ret.
    rewrite (proj2 (Z.eqb_neq _ 0)) by lia. cbn [check negb]. rewrite bind_ret, Hi. cbn. eauto. }
  destruct He as (expectation & He & Ha). exists expectation. split; [done|]. unfold ParquetSegmentInput_new. rewrite Hn, Hu. cbn [ok_or].
  rewrite bind_ret, He, bind_ret, Ha, bool_decide_true by done. cbn [check]. rewrite bind_ret. unfold validate_non_null_columns.
  cbn [rb_fields rb_columns batch]. rewrite validate_non_null_fits, bind_ret by done. unfold batch. by rewrite (order_accepted _ _ _ _ Hne Hsort Hd).
Qed.

End Inputs.

(** ** Files *)

Section Files.
Context {env : SpoolEnv} {uuid : UuidText} {parquet : ParquetLib}.

Lemma limited_write_complete limit buffers : ∀ written fails content,
  limited_write limit written fails buffers = (content, None) → written ≤ limit →
  content = concat buffers ∧ written + Z.of_nat (length content) ≤ limit.
Proof.
  induction buffers as [|b buffers IH]; intros written fails content H Hw; cbn [limited_write] in H.
  { injection H as <-. split; [done | cbn; lia]. }
  destruct (_ >? _) eqn:E; [done|]. rewrite Z.gtb_ltb, Z.ltb_ge in E.
  destruct fails as [[[|n] k]|]; [done| |];
    destruct (limited_write limit _ _ buffers) as [rest failure] eqn:Hr; injection H as <- ->;
    apply IH in Hr as [-> Hl]; [|lia | |lia]; (split; [done|]); rewrite length_app; lia.
Qed.

Lemma limited_write_fits limit buffers : ∀ written,
  written + Z.of_nat (length (concat buffers)) ≤ limit → limited_write limit written None buffers = (concat buffers, None).
Proof.
  induction buffers as [|b buffers IH]; intros written Hl; [done|]. cbn [concat] in *. rewrite length_app in Hl. cbn [limited_write].
  rewrite Z.gtb_ltb, (proj2 (Z.ltb_ge _ _)) by lia. cbn [fmap option_fmap option_map]. by rewrite IH by lia.
Qed.

(** The descriptor of the content of a file. *)
Definition describes (d : ObjectDescriptor) (b : bytes) : Prop :=
  od_expected_byte_size d = Z.of_nat (length b) ∧ od_digest d = blake3 b.

Lemma read_staged_Ok files path d limit b :
  read_staged_object files path d limit None = Ok b ↔
  od_expected_byte_size d ≤ limit ∧ files !! path = Some b ∧ describes d b.
Proof.
  unfold read_staged_object, describes. cbv zeta. split.
  - intros H. apply bind_Ok in H as (u & Hl & H). apply check_Ok, negb_true_iff in Hl. rewrite Z.gtb_ltb, Z.ltb_ge in Hl. rewrite bind_ret in H.
    apply bind_Ok in H as (b' & Hb & H). apply ok_or_Ok in Hb. apply bind_Ok in H as (u1 & Hs & H). apply check_Ok, Z.eqb_eq in Hs.
    apply bind_Ok in H as (u2 & Hd & H). apply check_Ok, bool_decide_eq_true in Hd. injection H as <-. done.
  - intros (Hl & Hb & Hs & Hd). rewrite Z.gtb_ltb, (proj2 (Z.ltb_ge _ _)) by done. cbn [negb check]. rewrite !bind_ret, Hb. cbn [ok_or].
    by rewrite bind_ret, Hs, Z.eqb_refl, Hd, bool_decide_true by done.
Qed.

Lemma validate_Ok files path expectation fails staged :
  validate_parquet_segment files path expectation fails = Ok staged →
  ∃ b metadata, files !! path = Some b ∧ parquet_open b = Some metadata ∧
    validate_parquet_segment_metadata metadata expectation = Ok (ps_row_group_count staged) ∧
    ps_path staged = path ∧ ps_expectation staged = expectation ∧ od_key (ps_object_descriptor staged) = px_key expectation ∧
    describes (ps_object_descriptor staged) b.
Proof.
  unfold validate_parquet_segment, hash_exact_file, read_file. intros H. apply bind_Ok in H as (b & Hb & H). destruct fails.1; [done|].
  apply ok_or_Ok in Hb. apply bind_Ok in H as (metadata & Hm & H). apply ok_or_Ok in Hm. apply bind_Ok in H as (n & Hn & H).
  destruct fails.2; [done|]. rewrite Hb in H. cbn [ok_or] in H. rewrite !bind_ret in H. cbn in H.
  unfold ObjectDescriptor_new in H. destruct (negb _); [done|]. cbn in H. injection H as <-. exists b, metadata. done.
Qed.

(** What a validated file says of itself. *)
Lemma metadata_Ok metadata expectation n :
  validate_parquet_segment_metadata metadata expectation = Ok n →
  pm_fields metadata = px_arrow_schema expectation ∧ pm_num_rows metadata = px_row_count expectation.
Proof.
  unfold validate_parquet_segment_metadata. intros H. apply bind_Ok in H as (u & Hf & H). apply check_Ok, bool_decide_eq_true in Hf.
  apply bind_Ok in H as (rows & Hr & H). apply ok_or_Ok, narrow_Some in Hr as [-> _]. apply bind_Ok in H as (u1 & Hn & _).
  by apply check_Ok, Z.eqb_eq in Hn.
Qed.

(** C28: Staging a Parquet segment is create-only and exact. Whatever fails, no other file
    changes and a file that is already there is kept; on success the new file is within
    the byte limit, opens as a Parquet file with the schema and the row count of the
    segment, and the descriptor has its length and digest, so that reading it back for the
    upload returns its bytes; after a failure no incomplete file is left, unless removing
    it failed too. *)
Theorem staged_file_exact root input limit io files r files' :
  0 < limit → write_parquet_segment root input limit io files = (r, files') →
  let path := staging_path root (pi_expectation input) in
  (∀ p, p ≠ path → files' !! p = files !! p) ∧
  (is_Some (files !! path) → files' = files ∧ is_ok r = false) ∧
  match r with
  | Ok staged => ∃ b metadata, files' !! path = Some b ∧ Z.of_nat (length b) ≤ limit ∧ parquet_open b = Some metadata ∧
      pm_fields metadata = px_arrow_schema (pi_expectation input) ∧ pm_num_rows metadata = px_row_count (pi_expectation input) ∧
      od_key (ps_object_descriptor staged) = px_key (pi_expectation input) ∧
      read_staged_object files' path (ps_object_descriptor staged) limit None = Ok b
  | Err _ => files !! path = None → wi_remove_fails io = false → files' !! path = None
  end.
Proof.
  intros Hlim H path. unfold write_parquet_segment in H. cbv zeta in H. fold path in H.
  destruct (wi_create_fails io); cbn [orb] in H; [by injection H as <- <-|].
  case_bool_decide as Hex; [injection H as <- <-; split_and!; [done | done|]; intros E; destruct Hex; congruence|].
  assert (Hfiles : ∀ content p, p ≠ path → <[path := content]> files !! p = files !! p) by (intros; by rewrite lookup_insert_ne).
  destruct (parquet_write _ _ _) as [buffers complete]. destruct (limited_write limit 0 (wi_buffers io) buffers) as [content failure] eqn:Hw.
  assert (Hfail : ∀ e, (let '(e, files) := remove_incomplete (<[path := content]> files) path (wi_remove_fails io) e in (Err e, files)) = (r, files') →
    (∀ p, p ≠ path → files' !! p = files !! p) ∧ (is_Some (files !! path) → files' = files ∧ is_ok r = false) ∧
    match r with
    | Ok _ => False
    | Err _ => files !! path = None → wi_remove_fails io = false → files' !! path = None
    end).
  { unfold remove_incomplete. intros e. destruct (wi_remove_fails io) eqn:Er; intros [= <- <-];
      (split_and!; [intros p Hp; rewrite ?lookup_delete_ne by congruence; by apply Hfiles | done|]); intros _ E; [done|]. apply lookup_delete_eq. }
  destruct failure as [[]|]; [apply Hfail in H; by destruct r; destruct_and? H | apply Hfail in H; by destruct r; destruct_and? H|].
  destruct complete; [|apply Hfail in H; by destruct r; destruct_and? H].
  destruct (validate_parquet_segment _ _ _ _) as [staged|e] eqn:Hv; [|apply Hfail in H; by destruct r; destruct_and? H].
  injection H as <- <-. apply limited_write_complete in Hw as [-> Hl]; [|lia].
  destruct (validate_Ok _ _ _ _ _ Hv) as (b & metadata & Hb & Ho & Hm & _ & _ & Hk & Hd). pose proof (metadata_Ok _ _ _ Hm) as [Hf Hn].
  rewrite lookup_insert_eq in Hb. injection Hb as <-. split_and!; [intros; by apply Hfiles | done|].
  exists (concat buffers), metadata. split_and!; try done; [by rewrite lookup_insert_eq|]. apply read_staged_Ok.
  split_and!; [destruct Hd as [-> _]; lia | by rewrite lookup_insert_eq | done].
Qed.

End Files.

(** ** From the builders to a file *)

(** The writer honours its properties: the file it finishes opens, with the fields and the
    number of rows of the batch, each key of the footer once, row groups within the
    maximum that hold all rows, and compressed columns. *)
Class ParquetLaws `{ParquetLib} : Prop :=
  parquet_written fields properties batch buffers :
    rb_fields batch = fields → NoDup (wp_key_values properties).*1 → parquet_write fields properties batch = (buffers, true) →
    ∃ entries groups,
      parquet_open (concat buffers) = Some {| pm_fields := fields; pm_num_rows := Z.of_nat (num_rows batch);
                                              pm_key_values := Some entries; pm_row_groups := groups |} ∧
      (∀ key value, (key, value) ∈ wp_key_values properties → filter (λ m, m.1 = key) entries = [(key, Some value)]) ∧
      Forall (λ g, 0 < rg_num_rows g ≤ wp_max_row_group_size properties) groups ∧
      sum_Z (rg_num_rows <$> groups) = Z.of_nat (num_rows batch) ∧
      (wp_compressed properties = true → Forall (λ g, forallb id (rg_compressed g) = true) groups).

Section Staging.
Context {env : SpoolEnv} {env_laws : SpoolEnvLaws} {chrono : Chrono} {lib : JsonLib} {laws : JsonLibLaws} {base64 : Base64}.
Context {text : JsonText} {uuid : UuidText} {arrow : ArrowLib} {arrow_laws : ArrowLaws} {segment_layout : SegmentLayout}.
Context {parquet : ParquetLib} {parquet_laws : ParquetLaws}.

Lemma row_groups_total groups : ∀ total,
  0 ≤ total → Forall (λ g, 0 < rg_num_rows g ≤ PARQUET_MAX_ROW_GROUP_ROWS) groups →
  Forall (λ g, forallb id (rg_compressed g) = true) groups → total + sum_Z (rg_num_rows <$> groups) ≤ int_max I64 →
  try_fold add_row_group total groups = Ok (total + sum_Z (rg_num_rows <$> groups)).
Proof.
  induction groups as [|g groups IH]; intros total Ht Hg Hc Hm; [cbn; by rewrite Z.add_0_r|].
  apply Forall_cons in Hg as [Hg Hgs], Hc as [Hc Hcs]. rewrite fmap_cons, sum_Z_cons in Hm |- *.
  assert (Hs : 0 ≤ sum_Z (rg_num_rows <$> groups)).
  { clear -Hgs. induction Hgs as [|x l Hx _ IH]; [done|]. rewrite fmap_cons, sum_Z_cons. lia. }
  assert (Ha : add_row_group total g = Ok (total + rg_num_rows g)).
  { unfold add_row_group. rewrite (proj2 (Z.ltb_lt _ _)), (proj2 (Z.leb_le _ _)) by lia. cbn [andb check]. rewrite bind_ret, Hc. cbn [check].
    rewrite bind_ret, (proj2 (narrow_Some I64 _ (total + rg_num_rows g))); [done|]. split; [done | int_lia]. }
  cbn [try_fold]. rewrite Ha, bind_ret, IH by (try done; lia). f_equal. lia.
Qed.

(** A file of the writer validates. *)
Lemma written_validates expectation batch buffers path files :
  rb_fields batch = px_arrow_schema expectation → px_row_count expectation = Z.of_nat (num_rows batch) →
  0 < px_row_count expectation ≤ int_max I64 → k_kind (px_key expectation) = ParquetKind →
  parquet_write (px_arrow_schema expectation) (writer_properties expectation) batch = (buffers, true) →
  files !! path = Some (concat buffers) →
  ∃ staged, validate_parquet_segment files path expectation (false, false) = Ok staged ∧ describes (ps_object_descriptor staged) (concat buffers).
Proof.
  intros Hf Hn Hpos Hk Hw Hfile. assert (Hnd : NoDup (wp_key_values (writer_properties expectation)).*1).
  { apply (bool_decide_unpack _). vm_compute. done. }
  destruct (parquet_written _ _ _ _ Hf Hnd Hw) as (entries & groups & Ho & Hkv & Hg & Hsum & Hc). specialize (Hc eq_refl).
  assert (Hm : validate_parquet_segment_metadata {| pm_fields := px_arrow_schema expectation; pm_num_rows := Z.of_nat (num_rows batch);
    pm_key_values := Some entries; pm_row_groups := groups |} expectation = Ok (length groups)).
  { unfold validate_parquet_segment_metadata. cbn [pm_fields pm_num_rows pm_key_values pm_row_groups]. rewrite bool_decide_true by done. cbn [check].
    rewrite bind_ret, (proj2 (narrow_Some I64 _ (px_row_count expectation))) by (split; [done | int_lia]). cbn [ok_or].
    rewrite bind_ret, Hn, Z.eqb_refl. cbn [check]. rewrite bind_ret. unfold validate_footer. cbn [ok_or]. rewrite bind_ret.
    assert (He : forallb (footer_entry_valid entries) (footer_metadata expectation) = true).
    { apply forallb_forall. intros [key value] Hin%list_elem_of_In. unfold footer_entry_valid. cbn [fst snd]. rewrite (Hkv key value Hin).
      by apply bool_decide_true. }
    rewrite He. cbn [check]. rewrite bind_ret. unfold validate_row_groups. rewrite bool_decide_false.
    - cbn [negb check]. rewrite bind_ret, row_groups_total, bind_ret; [|done..|rewrite Hsum; lia]. rewrite Z.add_0_l, Hsum, Z.eqb_refl. done.
    - destruct groups; [|done]. cbn in Hsum. lia. }
  unfold validate_parquet_segment, hash_exact_file, read_file. cbn [fst snd]. rewrite Hfile. cbn [ok_or]. rewrite !bind_ret, Ho. cbn [ok_or].
  rewrite !bind_ret, Hm, bind_ret. unfold ObjectDescriptor_new. rewrite Hk. cbn.
  eexists. split; [reflexivity | by split].
Qed.

(** A row that normalization made for a schema. *)
Definition normalized_for (schema : Schema) (row : AcceptedRow) : Prop :=
  ∃ metadata source plan record location,
    resolve metadata source = Ok plan ∧ source_schema source (target_schema_id (Frame.catalog metadata)) = Some schema ∧
    normalize_record plan record location = Ok row.

Lemma exact_value_typed format t v nv : exact_value format t v nv → typed t nv = true.
Proof. destruct t, nv; try done; by intros (n & _ & _ & [? _]). Qed.

Lemma normalized_fits schema r :
  (∀ members, is_Some (json_to_string (VObject members))) → normalized_for schema (sr_row r) → row_fits (data_fields schema) r.
Proof.
  intros Hj (metadata & source & plan & record & location & Hres & Hschema & Hn).
  apply resolve_Ok in Hres as (input & revision & schema' & plans & _ & Hs & Hplans & ->). rewrite Hschema in Hs. injection Hs as <-.
  apply normalize_record_Ok in Hn as (object & time & fields & _ & _ & Hf & Hrow). cbn [np_fields np_profile] in *. constructor.
  - rewrite Hrow. apply event_id_wf.
  - rewrite Hrow. cbn [row_of ar_fields].
    match type of Hf with Forall2 (λ _ _, normalize_field ?plan _ _ = _) _ _ => pose proof (normalize_fields_value plan _ _ _ _ Hplans Hf) as Hv end.
    eapply Forall2_impl; [exact Hv|]. intros f nf [Hid Hval]. split; [done|]. unfold value_fits.
    destruct (pointed _ object f) as [v|]; [|left; done]. destruct v; try (right; by eapply exact_value_typed). by left.
  - intros members _. apply Hj.
Qed.

Lemma history_days l s accepted taken :
  history l s accepted taken → Forall (λ e, k_event_day e.1 = event_day (sr_row e.2)) accepted.
Proof.
  induction 1; try done. apply Forall_app. split; [|done]. unfold batch_rows. apply Forall_fmap, Forall_forall. intros row _. unfold routed.
  cbn. by destruct (match estimate_row row with Ok e => e | Err _ => (0, 0) end).
Qed.

Lemma taken_days l s accepted taken seg :
  limits_ok l → history l s accepted taken → seg ∈ taken → Forall (λ r, event_day (sr_row r) = k_event_day (ss_key seg)) (ss_rows seg).
Proof.
  intros Hl Hh Hin. destruct (history_wf _ _ _ _ Hl Hh) as (_ & _ & _ & Hp & _). pose proof (history_days _ _ _ _ Hh) as Hd.
  rewrite Hp in Hd. apply Forall_app in Hd as [Hd _]. rewrite Forall_forall in Hd. apply Forall_forall. intros r Hr. symmetry.
  apply (Hd (ss_key seg, r)). unfold sealed_entries. apply list_elem_of_bind. exists seg. split; [|done]. unfold segment_entries.
  by apply list_elem_of_fmap_2.
Qed.

Lemma staged_cells schema users rows i j r nf :
  s_fields schema = layout users → Forall (row_fits (data_fields schema)) rows → rows !! i = Some r → ar_fields (sr_row r) !! j = Some nf →
  ∃ a, columns_of (builders_of (data_fields schema) rows) !! (3 + j)%nat = Some a ∧ cell a i = Some (nf_value nf).
Proof.
  intros Hs Hfit Hi Hj. pose proof (data_types _ _ Hs) as Ht. rewrite Forall_lookup in Ht. pose proof Hfit as Hf. rewrite Forall_lookup in Hf.
  destruct (Hf _ _ Hi) as [_ Hff _]. destruct (Forall2_lookup_r _ _ _ _ _ Hff Hj) as (f & Hfj & _ & Hv).
  destruct (data_column _ _ _ _ Hfit Hfj) as (c & Hc & _ & _ & Hci). exists (finish (builder_of (f_logical_type f) c)). split.
  - unfold columns_of. rewrite lookup_app_r by (cbn; lia). replace (3 + j - _)%nat with j by (cbn; lia).
    apply lookup_app_l_Some. by rewrite list_lookup_fmap, Hc.
  - apply builder_cell; [by eapply Ht | done|]. rewrite Hci, Hi. cbn. unfold row_values. by rewrite list_lookup_fmap, Hj.
Qed.

Lemma expectation_fields key schema n expectation :
  ParquetSegmentExpectation_new key schema (Z.of_nat n) = Ok expectation →
  px_arrow_schema expectation = arrow_schema schema ∧ px_key expectation = key ∧ px_row_count expectation = Z.of_nat n ∧
  0 < px_row_count expectation ≤ int_max I64.
Proof.
  unfold ParquetSegmentExpectation_new. intros H. apply bind_Ok in H as (id & _ & H). apply bind_Ok in H as (u & Hz & H).
  apply check_Ok, negb_true_iff, Z.eqb_neq in Hz. apply bind_Ok in H as (m & Hm & H). apply ok_or_Ok, narrow_Some in Hm as [_ Hm].
  injection H as <-. cbn. split_and!; [done | done | done | lia | int_lia].
Qed.

(** C27: Every segment that the builders hand out can be staged, and nothing is lost on the
    way. When its rows were normalized for a schema of the catalog, they become columns in
    which entry [i] of column [3 + j] is field [j] of row [i]; the columns are accepted as a
    Parquet segment; and when the writer finishes within the limit and no file operation
    fails, the staged file validates and reading it back by its descriptor returns exactly
    what was written. *)
Theorem sealed_segment_staged l s accepted taken seg schema users key segment_id root limit buffers files :
  limits_ok l → target_rows l ≤ int_max I64 → history l s accepted taken → seg ∈ taken →
  s_fields schema = layout users → k_source_id (ss_key seg) = s_source_id schema → k_schema_id (ss_key seg) = s_id schema →
  (∀ r, r ∈ ss_rows seg → normalized_for schema (sr_row r)) → (∀ members, is_Some (json_to_string (VObject members))) →
  k_kind key = ParquetKind → k_owner key = SegmentOwner segment_id →
  ∃ batch input,
    materialize_segment_record_batch seg schema = Ok batch ∧ ParquetSegmentInput_new key schema batch = Ok input ∧
    (∀ i j r nf, ss_rows seg !! i = Some r → ar_fields (sr_row r) !! j = Some nf →
       ∃ a, rb_columns batch !! (3 + j)%nat = Some a ∧ cell a i = Some (nf_value nf)) ∧
    let path := staging_path root (pi_expectation input) in
    (parquet_write (arrow_schema schema) (writer_properties (pi_expectation input)) batch = (buffers, true) →
     0 < limit → Z.of_nat (length (concat buffers)) ≤ limit → files !! path = None →
     ∃ staged files',
       write_parquet_segment root input limit
         {| wi_create_fails := false; wi_buffers := None; wi_validation_fails := (false, false); wi_remove_fails := false |} files =
       (Ok staged, files') ∧
       read_staged_object files' path (ps_object_descriptor staged) limit None = Ok (concat buffers)).
Proof.
  intros Hl Hmax Hh Hin Hs Hsrc Hid Hnorm Hj Hk Ho. destruct (history_wf _ _ _ _ Hl Hh) as (_ & _ & _ & _ & Hok).
  rewrite Forall_forall in Hok. specialize (Hok _ Hin).
  assert (Hfit : Forall (row_fits (data_fields schema)) (ss_rows seg)) by (apply Forall_forall; intros r Hr; apply normalized_fits; auto).
  destruct (segment_input_accepted seg schema users key segment_id l Hs Hfit Hok Hmax (taken_days _ _ _ _ _ Hl Hh Hin) Hk Ho) as (expectation & He & Hi).
  exists {| rb_fields := arrow_schema schema; rb_columns := columns_of (builders_of (data_fields schema) (ss_rows seg)) |}. eexists.
  split; [by eapply materialize_fits|]. split; [exact Hi|]. split; [intros i j r nf; by apply (staged_cells _ users)|].
  cbn [pi_expectation]. set (path := staging_path root expectation). intros Hw Hlim Hsize Hfree. assert (Hx : px_arrow_schema expectation = arrow_schema schema ∧ px_key expectation = key ∧
    px_row_count expectation = Z.of_nat (length (ss_rows seg)) ∧ 0 < px_row_count expectation ≤ int_max I64) by (by eapply expectation_fields).
  destruct Hx as (Ha & Hkey & Hn & Hpos).
  destruct (written_validates expectation {| rb_fields := arrow_schema schema; rb_columns := columns_of (builders_of (data_fields schema) (ss_rows seg)) |}
    buffers path (<[path := concat buffers]> files)) as (staged & Hv & Hd); try done.
  - rewrite Hn. f_equal. symmetry. destruct (columns_fit _ _ _ Hs Hfit) as [_ [Hlen _]%Forall_cons]. exact Hlen.
  - by rewrite Hkey.
  - by rewrite Ha.
  - by rewrite lookup_insert_eq.
  - exists staged, (<[path := concat buffers]> files). split.
    + unfold write_parquet_segment. cbn [wi_create_fails pi_expectation pi_batch wi_buffers wi_validation_fails wi_remove_fails orb].
      change (staging_path root expectation) with path.
      rewrite Ha, bool_decide_false by (rewrite Hfree; by intros [? [=]]). rewrite Hw, limited_write_fits by lia. by rewrite Hv.
    + apply read_staged_Ok. split_and!; [destruct Hd as [-> _]; lia | by rewrite lookup_insert_eq | done].
Qed.

End Staging.
