(* ===== verification/DeadLetterObject.v ===== *)
(** * elucid-service: dead-letter objects

    Models src/elucid/elucid-service/src/dead_letter.rs: the rejected records of a batch are
    written as one JSON document per line to a staged file of their own, and read back
    before they are published.

    The JSON text of a document and the hexadecimal text of a digest are parameters. *)

From S2P Require Import Prelude Core CatalogTypes Bytes Frame Json Storage Normalization ParquetSegment.

#[local] Open Scope string_scope.
#[local] Open Scope list_scope.
#[local] Open Scope Z_scope.

#[local] Notation newline := "010"%char.

Definition DEAD_LETTER_FORMAT_VERSION : Z := 1.

Inductive DeadLetterObjectError :=
| DeadLettersEmpty | DeadLetterCapacityExceeded | DeadLetterEncode | DeadLetterDecode | DeadLetterInvalid
| DeadLetterModel (source : StorageModelError) | DeadLetterIo.

(** [DeadLetterCode::message] of normalization.rs *)
Definition DeadLetterCode_message (code : DeadLetterCode) : string :=
  match code with
  | InvalidUtf8 => "record is not valid UTF-8"
  | TooLarge => "record exceeds the pinned profile byte limit"
  | ParseFailed => "record is not exactly one JSON object with unique keys"
  | FieldMissing => "a required mapped field is absent"
  | FieldNull => "a required mapped field is null"
  | ConversionFailed => "a mapped field cannot be converted to its declared type"
  | EventTimeInvalid => "event time is absent, null, or invalid"
  | EventDayLimitExceeded => "record introduces too many distinct event days"
  end.

(** ** Documents *)

Inductive DeadLetterDocumentCode :=
| DocInvalidUtf8 | DocTooLarge | DocParseFailed | DocFieldMissing | DocFieldNull | DocConversionFailed
| DocEventTimeInvalid | DocEventDayLimitExceeded.

Definition document_code_message (code : DeadLetterDocumentCode) : string :=
  match code with
  | DocInvalidUtf8 => "record is not valid UTF-8"
  | DocTooLarge => "record exceeds the pinned profile byte limit"
  | DocParseFailed => "record is not exactly one JSON object with unique keys"
  | DocFieldMissing => "a required mapped field is absent"
  | DocFieldNull => "a required mapped field is null"
  | DocConversionFailed => "a mapped field cannot be converted to its declared type"
  | DocEventTimeInvalid => "event time is absent, null, or invalid"
  | DocEventDayLimitExceeded => "record introduces too many distinct event days"
  end.

(** [TryFrom<DeadLetterCode>]: every code of normalization has one. *)
Definition document_code (code : DeadLetterCode) : DeadLetterDocumentCode :=
  match code with
  | InvalidUtf8 => DocInvalidUtf8
  | TooLarge => DocTooLarge
  | ParseFailed => DocParseFailed
  | FieldMissing => DocFieldMissing
  | FieldNull => DocFieldNull
  | ConversionFailed => DocConversionFailed
  | EventTimeInvalid => DocEventTimeInvalid
  | EventDayLimitExceeded => DocEventDayLimitExceeded
  end.

Inductive DeadLetterDocumentEncoding := DocUtf8 | DocBase64.
Inductive DeadLetterDocumentExtent := DocComplete | DocPrefix.

Definition document_encoding (encoding : PayloadEncoding) : DeadLetterDocumentEncoding :=
  match encoding with EncodedUtf8 => DocUtf8 | EncodedBase64 => DocBase64 end.

Definition document_extent (extent : PayloadExtent) : DeadLetterDocumentExtent :=
  match extent with Complete => DocComplete | Prefix => DocPrefix end.

Record DeadLetterDocumentPayload := {
  dp_encoding : DeadLetterDocumentEncoding;
  dp_extent : DeadLetterDocumentExtent;
  dp_content : string;
}.

Record DeadLetterDocumentEntry := {
  de_batch_id : string;
  de_line_number : Z;
  de_input_position : Z;
  de_code : DeadLetterDocumentCode;
  de_message : string;
  de_payload_byte_count : Z;
  de_payload_blake3 : string;
  de_payload : DeadLetterDocumentPayload;
}.

(** serde_json's text of a document, and [Hash::to_hex]. *)
Class DeadLetterJson := {
  entry_to_vec : DeadLetterDocumentEntry → option bytes;
  entry_from_slice : bytes → option DeadLetterDocumentEntry;
  to_hex : bytes → string;
}.

Definition is_lower_hex (c : ascii) : bool :=
  let n := Z.of_N (Ascii.N_of_ascii c) in ((48 <=? n) && (n <=? 57)) || ((97 <=? n) && (n <=? 102)).

(** The text of a document is not empty, has no line break, and is read back; the text of a
    digest has two digits per byte. *)
Class DeadLetterJsonLaws `{DeadLetterJson} : Prop := {
  entry_round_trip e b : entry_to_vec e = Some b → entry_from_slice b = Some e;
  entry_one_line e b : entry_to_vec e = Some b → b ≠ [] ∧ newline ∉ b;
  to_hex_digits b : String.length (to_hex b) = (2 * length b)%nat ∧ string_forallb is_lower_hex (to_hex b) = true;
}.

Section DeadLetters.
Context {env : SpoolEnv} {uuid : UuidText} {documents : DeadLetterJson}.

Definition from_entry (entry : DeadLetterEntry) : DeadLetterDocumentEntry :=
  {| de_batch_id := uuid_to_string (dl_batch_id entry);
     de_line_number := line_number (dl_location entry);
     de_input_position := input_position (dl_location entry);
     de_code := document_code (dl_code entry);
     de_message := DeadLetterCode_message (dl_code entry);
     de_payload_byte_count := dl_payload_byte_count entry;
     de_payload_blake3 := to_hex (dl_payload_digest entry);
     de_payload := {| dp_encoding := document_encoding (pl_encoding (dl_payload entry));
                      dp_extent := document_extent (pl_extent (dl_payload entry));
                      dp_content := pl_content (dl_payload entry) |} |}.

Definition validate (e : DeadLetterDocumentEntry) : bool :=
  bool_decide (de_message e = document_code_message (de_code e))
  && bool_decide (is_Some (uuid_parse_str (de_batch_id e)))
  && (String.length (de_payload_blake3 e) =? 64)%nat
  && string_forallb is_lower_hex (de_payload_blake3 e).

(** ** Encoding and decoding *)

Definition encode_entry (maximum_bytes : Z) (output : bytes) (entry : DeadLetterEntry) : result DeadLetterObjectError bytes :=
  encoded ← ok_or (entry_to_vec (from_entry entry)) DeadLetterEncode;
  projected ← ok_or (narrow U64 (Z.of_nat (length output) + Z.of_nat (length encoded) + 1)) DeadLetterCapacityExceeded;
  _ ← check (negb (projected >? maximum_bytes)) DeadLetterCapacityExceeded;
  Ok (output ++ encoded ++ [newline]).

Definition encode_dead_letters (entries : list DeadLetterEntry) (maximum_bytes : Z) : result DeadLetterObjectError bytes :=
  _ ← check (negb (bool_decide (length entries = 0%nat))) DeadLettersEmpty;
  try_fold (encode_entry maximum_bytes) [] entries.

(** [split(|byte| *byte == b'\n')] *)
Fixpoint split_lines (b : bytes) : list bytes :=
  match b with
  | [] => [[]]
  | c :: b =>
      match split_lines b with
      | line :: lines => if decide (c = newline) then [] :: line :: lines else (c :: line) :: lines
      | [] => []
      end
  end.

Definition decode_line (line : bytes) : result DeadLetterObjectError DeadLetterDocumentEntry :=
  _ ← check (negb (bool_decide (length line = 0%nat))) DeadLetterInvalid;
  entry ← ok_or (entry_from_slice line) DeadLetterDecode;
  _ ← check (validate entry) DeadLetterInvalid;
  Ok entry.

Definition decode_dead_letters (b : bytes) : result DeadLetterObjectError (list DeadLetterDocumentEntry) :=
  _ ← check (bool_decide (last b = Some newline)) DeadLetterInvalid;
  entries ← try_map decode_line (split_lines (take (length b - 1) b));
  _ ← check (negb (bool_decide (length entries = 0%nat))) DeadLettersEmpty;
  Ok entries.

(** ** Staging *)

Definition dead_letter_staging_path (root : string) (descriptor : ObjectDescriptor) : string :=
  path_join (path_join (path_join root "dead-letters") (uuid_to_string (k_object_id (od_key descriptor)))) "entries.ndjson".

(** What fails of the file operations: creating the directories or the file, or writing or
    synchronizing it after some bytes. *)
Inductive StageIo := StageDone | StageCreateFails | StageWriteFails (written : nat).

Definition stage_dead_letters (root : string) (key : ManagedObjectKey) (entries : list DeadLetterEntry) (maximum_bytes : Z)
    (io : StageIo) (files : gmap string bytes) : result DeadLetterObjectError ObjectDescriptor * gmap string bytes :=
  match b ← encode_dead_letters entries maximum_bytes;
        version ← map_err DeadLetterModel (ObjectFormatVersion_new DEAD_LETTER_FORMAT_VERSION);
        descriptor ← map_err DeadLetterModel (ObjectDescriptor_for_bytes key b DeadLetterMedia version);
        Ok (b, descriptor) with
  | Err e => (Err e, files)
  | Ok (b, descriptor) =>
      let path := dead_letter_staging_path root descriptor in
      match io with
      | StageCreateFails => (Err DeadLetterIo, files)
      | _ =>
          if bool_decide (is_Some (files !! path)) then (Err DeadLetterIo, files)
          else match io with
               | StageWriteFails n => (Err DeadLetterIo, <[path := take n b]> files)
               | _ => (Ok descriptor, <[path := b]> files)
               end
      end
  end.

(** ** Theorems *)

Context {uuid_laws : UuidTextLaws} {documents_laws : DeadLetterJsonLaws}.

Lemma split_lines_nonempty b : split_lines b ≠ [].
Proof. induction b as [|c b IH]; [done|]. cbn. destruct (split_lines b); [done|]. by destruct (decide _). Qed.

Lemma split_lines_one line : newline ∉ line → split_lines line = [line].
Proof.
  induction line as [|c line IH]; intros Hn; [done|]. apply not_elem_of_cons in Hn as [Hc Hn]. cbn. rewrite IH by done. by rewrite decide_False.
Qed.

Lemma split_lines_cons line rest : newline ∉ line → split_lines (line ++ newline :: rest) = line :: split_lines rest.
Proof.
  induction line as [|c line IH]; intros Hn.
  - cbn. destruct (split_lines rest) eqn:E; [by apply split_lines_nonempty in E | done].
  - apply not_elem_of_cons in Hn as [Hc Hn]. cbn. rewrite IH by done. by rewrite decide_False.
Qed.

(** Lines and the line breaks after them. *)
Definition unlines (lines : list bytes) : bytes := concat ((λ line, line ++ [newline]) <$> lines).

Lemma unlines_last lines : lines ≠ [] → last (unlines lines) = Some newline.
Proof.
  destruct lines as [|line lines] using rev_ind; [done|]. intros _. unfold unlines. rewrite fmap_app, concat_app. cbn. rewrite app_nil_r.
  by rewrite app_assoc, last_snoc.
Qed.

Lemma split_unlines lines :
  lines ≠ [] → Forall (λ line, newline ∉ line) lines → split_lines (take (length (unlines lines) - 1) (unlines lines)) = lines.
Proof.
  intros Hne Hn. induction Hn as [|line lines Hl Hn IH]; [done|]. destruct lines as [|next lines].
  - unfold unlines. cbn. rewrite app_nil_r, length_app. cbn. replace (length line + 1 - 1)%nat with (length line) by lia.
    rewrite take_app_length. by apply split_lines_one.
  - assert (Hpos : (0 < length (unlines (next :: lines)))%nat) by (unfold unlines; cbn; rewrite !length_app; cbn; lia).
    change (unlines (line :: next :: lines)) with ((line ++ [newline]) ++ unlines (next :: lines)).
    rewrite <- app_assoc, length_app. cbn [length app]. replace (length line + S (length (unlines (next :: lines))) - 1)%nat
      with (length line + S (length (unlines (next :: lines)) - 1))%nat by lia.
    rewrite take_app_add. cbn [take]. rewrite split_lines_cons by done. by rewrite IH.
Qed.

Lemma encode_Ok maximum entries : ∀ output b,
  try_fold (encode_entry maximum) output entries = Ok b → Z.of_nat (length output) ≤ maximum →
  ∃ lines, Forall2 (λ e line, entry_to_vec (from_entry e) = Some line) entries lines ∧ b = output ++ unlines lines ∧
    Z.of_nat (length b) ≤ maximum.
Proof.
  induction entries as [|e entries IH]; intros output b H Hm; cbn [try_fold] in H.
  { injection H as <-. exists []. split_and!; [constructor | by rewrite app_nil_r | done]. }
  apply bind_Ok in H as (output' & He & H). unfold encode_entry in He. apply bind_Ok in He as (line & Hl & He). apply ok_or_Ok in Hl.
  apply bind_Ok in He as (projected & Hp & He). apply ok_or_Ok, narrow_Some in Hp as [-> _]. apply bind_Ok in He as (u & Hc & He).
  apply check_Ok, negb_true_iff in Hc. rewrite Z.gtb_ltb, Z.ltb_ge in Hc. injection He as <-.
  apply IH in H as (lines & Hls & -> & Hb); [|rewrite !length_app; cbn; lia]. exists (line :: lines).
  split_and!; [by constructor | | done]. unfold unlines. cbn. by rewrite <- !app_assoc.
Qed.

Lemma from_entry_valid e : is_uuid (dl_batch_id e) → length (dl_payload_digest e) = 32%nat → validate (from_entry e) = true.
Proof.
  intros Hu Hd. unfold validate, from_entry. cbn [de_message de_code de_batch_id de_payload_blake3].
  destruct (to_hex_digits (dl_payload_digest e)) as [-> ->]. rewrite Hd, uuid_parse_to_string by done. rewrite !bool_decide_true; [done | done|].
  by destruct (dl_code e).
Qed.

(** C29: A dead-letter object holds its entries: whatever [encode_dead_letters] writes for
    entries of normalization, within the byte limit, [decode_dead_letters] reads back as
    the documents of those entries in order, each with its position, code, message, digest
    and payload. *)
Theorem dead_letters_round_trip entries maximum b :
  0 ≤ maximum → Forall (λ e, is_uuid (dl_batch_id e) ∧ length (dl_payload_digest e) = 32%nat) entries →
  encode_dead_letters entries maximum = Ok b →
  Z.of_nat (length b) ≤ maximum ∧ decode_dead_letters b = Ok (from_entry <$> entries).
Proof.
  intros Hm Hwf H. unfold encode_dead_letters in H. apply bind_Ok in H as (u & Hne & H). apply check_Ok, negb_true_iff, bool_decide_eq_false in Hne.
  apply encode_Ok in H as (lines & Hls & -> & Hb); [|cbn; lia]. cbn [app] in *. split; [done|].
  pose proof (Forall2_length _ _ _ Hls) as Hlen. assert (Hnl : lines ≠ []) by (intros ->; cbn in Hlen; lia).
  assert (Hone : Forall (λ line, newline ∉ line) lines).
  { apply Forall_lookup. intros i line Hi. destruct (Forall2_lookup_r _ _ _ _ _ Hls Hi) as (e & _ & He). by apply entry_one_line in He as [_ He]. }
  unfold decode_dead_letters. rewrite bool_decide_true by (by apply unlines_last). cbn [check]. rewrite bind_ret, split_unlines by done.
  assert (Hd : try_map decode_line lines = Ok (from_entry <$> entries)).
  { apply try_map_Ok, Forall2_fmap_r. apply Forall2_same_length_lookup_2; [done|]. intros i line e Hl He.
    rewrite Forall2_lookup in Hls. specialize (Hls i). rewrite He, Hl in Hls. inversion Hls as [x y Hv|]; subst. unfold decode_line.
    destruct (entry_one_line _ _ Hv) as [Hnil _]. rewrite bool_decide_false by (by destruct line). cbn [negb check].
    rewrite bind_ret, (entry_round_trip _ _ Hv). cbn [ok_or]. rewrite bind_ret. rewrite Forall_lookup in Hwf. destruct (Hwf _ _ He) as [Hu Hdig].
    by rewrite from_entry_valid. }
  rewrite Hd, bind_ret, length_fmap, bool_decide_false by done. done.
Qed.

End DeadLetters.
