(* ===== verification/StagingSamples.v ===== *)
(** * Staging: concrete runs

    A record that is normalized, collected into a segment, turned into columns and staged as
    a file, and a dead letter that is written and read back, with concrete functions for the
    Arrow, Parquet and JSON libraries that satisfy their laws. *)

From S2P Require Import Core CatalogTypes CatalogModel CatalogSource SemExpression Floats Bytes Frame Json Storage ObjectStore Normalization NormalizationCorrect Segment SegmentCorrect SegmentProgress Canonical Arrow ParquetSegment StagingCorrect DeadLetterObject Prelude.
Import Schema.

#[local] Open Scope string_scope.
#[local] Open Scope list_scope.
#[local] Open Scope Z_scope.

(** ** Parameters *)

#[local] Existing Instance sample_json.
#[local] Existing Instance sample_json_laws.
#[local] Existing Instance sample_base64.
#[local] Existing Instance sample_chrono.
#[local] Existing Instance sample_layout.
#[local] Existing Instance sample_uuid_text.
#[local] Existing Instance sample_uuid_text_laws.

#[local] Instance sample_json_text : JsonText := {
  json_to_string v := Some "{}";
  json_from_str s := None;
  Number_from_u64 z := [];
}.

#[local] Instance sample_arrow : ArrowLib := λ fields columns, Some {| rb_fields := fields; rb_columns := columns |}.

#[local] Instance sample_arrow_laws : ArrowLaws.
Proof. split; [by intros ?? b [= <-] | by eexists]. Qed.

(** A writer for batches of one kind: the fields, the footer and the number of rows are
    given, and the file is a fixed text. *)
Definition file_text : bytes := ascii_bytes "PAR1".

Definition sample_parquet (fields : list ArrowField) (footer : list (string * string)) (rows : nat) : ParquetLib := {|
  parquet_write fields' properties batch :=
    if decide (fields' = fields ∧ wp_key_values properties = footer ∧ num_rows batch = rows ∧
               0 < Z.of_nat rows ≤ wp_max_row_group_size properties)
    then ([file_text], true) else ([], false);
  parquet_open b :=
    if decide (b = file_text)
    then Some {| pm_fields := fields; pm_num_rows := Z.of_nat rows; pm_key_values := Some (prod_map id Some <$> footer);
                 pm_row_groups := [{| rg_num_rows := Z.of_nat rows; rg_compressed := [true] |}] |}
    else None;
|}.

Lemma filter_footer (footer : list (string * string)) key value :
  NoDup footer.*1 → (key, value) ∈ footer →
  filter (λ m : string * option string, m.1 = key) (prod_map id Some <$> footer) = [(key, Some value)].
Proof.
  induction footer as [|[k v] footer IH]; intros Hn Hin; [set_solver|]. cbn in Hn. apply NoDup_cons in Hn as [Hk Hn].
  rewrite fmap_cons, filter_cons. cbn [prod_map id fst]. apply elem_of_cons in Hin as [[= -> ->]|Hin].
  - rewrite decide_True by done. f_equal. clear IH Hn. induction footer as [|[k' v'] footer IH]; [done|].
    apply not_elem_of_cons in Hk as [Hk Hks]. rewrite fmap_cons, filter_cons, decide_False by (cbn in *; congruence). by apply IH.
  - rewrite decide_False; [by apply IH|]. intros ->. apply Hk. apply list_elem_of_fmap. by exists (key, value).
Qed.

Lemma sample_parquet_laws fields footer rows : @ParquetLaws (sample_parquet fields footer rows).
Proof.
  intros fields' properties batch buffers <- Hn Hw. cbn [parquet_write sample_parquet] in Hw. case_decide as Hd; [|done].
  destruct Hd as (Hf & <- & <- & Hr). injection Hw as <-. eexists _, _. cbn [parquet_open sample_parquet concat].
  rewrite app_nil_r, decide_True by done. split; [by rewrite Hf|]. split; [intros key value; by apply filter_footer|].
  split; [by rewrite Forall_singleton|]. split; [cbn; lia|]. intros _. by rewrite Forall_singleton.
Qed.

(** ** A staged segment *)

Definition staging_limits : SegmentBuildLimits := {|
  target_rows := 3; target_estimated_bytes := 10000; maximum_open_duration := 10; maximum_open_builders := 2;
  maximum_estimated_resident_bytes := 10000; maximum_staging_bytes := 10000;
|}.

Lemma staging_limits_ok : limits_ok staging_limits.
Proof. by constructor. Qed.

Definition staged_batch : NormalizedBatch :=
  match normalize_records sample_pins sample_body sample_source with
  | Ok batch => batch
  | Err _ => {| nb_metadata := sample_pins; nb_records := []; nb_ignored_records := 0 |}
  end.

Definition empty_builders : SegmentBuilders := {|
  limits := staging_limits; open := ∅; sealed := []; resident_bytes := 0; staging_bytes := 0;
  access_sequence := 0; last_observed_at := None;
|}.

Definition filled : SegmentBuilders := snd (flush_all (snd (push_batch staged_batch 0 empty_builders))).

Lemma filled_history : history staging_limits filled (batch_rows staged_batch ++ []) [].
Proof.
  eapply (history_flush _ (snd (push_batch staged_batch 0 empty_builders))); [|apply surjective_pairing].
  apply history_push; [by apply history_new | by vm_compute].
Qed.

Definition taken_rows (r : result SegmentBuildError (option SealedSegment)) : list AcceptedRow :=
  match r with Ok (Some segment) => sr_row <$> ss_rows segment | _ => [] end.

Definition row_list (r : result DeadLetterCode AcceptedRow) : list AcceptedRow := match r with Ok row => [row] | Err _ => [] end.

Lemma taken_rows_normalized :
  taken_rows (take_next_sealed filled).1 = row_list (normalize_record sample_plan sample_record {| line_number := 1; input_position := 0 |}).
Proof. vm_cast_no_check (eq_refl (row_list (normalize_record sample_plan sample_record {| line_number := 1; input_position := 0 |}))). Qed.

(** The segment in the queue holds the row of the first line of the body. *)
Lemma sealed_row :
  ∃ segment s' row r, take_next_sealed filled = (Ok (Some segment), s') ∧ k_source_id (ss_key segment) = 2 ∧ k_schema_id (ss_key segment) = 1 ∧
    ss_rows segment = [r] ∧ sr_row r = row ∧
    normalize_record sample_plan sample_record {| line_number := 1; input_position := 0 |} = Ok row.
Proof.
  assert (Hk : match (take_next_sealed filled).1 with
    | Ok (Some segment) => Some (k_source_id (ss_key segment), k_schema_id (ss_key segment))
    | _ => None
    end = Some (2, 1)) by (vm_compute; reflexivity).
  pose proof taken_rows_normalized as Hr.
  assert (Hn : is_ok (normalize_record sample_plan sample_record {| line_number := 1; input_position := 0 |}) = true) by (vm_compute; reflexivity).
  revert Hk Hr Hn. destruct (take_next_sealed filled) as [q s'] eqn:E.
  destruct (normalize_record sample_plan sample_record {| line_number := 1; input_position := 0 |}) as [row|e] eqn:Er;
    intros Hk Hr Hn; [|discriminate Hn].
  cbn [fst] in Hk, Hr. destruct q as [[segment|]|]; [|discriminate Hk|discriminate Hk]. cbn [taken_rows row_list] in Hr.
  injection Hk as H1 H2. destruct (ss_rows segment) as [|r [|]] eqn:Es; [discriminate Hr | | discriminate Hr].
  injection Hr as H3. exists segment, s', row, r. split; [reflexivity|]. auto.
Qed.

Definition staging_key : ManagedObjectKey := @parquet_key sample_uuid_text sample_paths {| root_path := "elucid" |} 1 2.

Definition staging_expectation : ParquetSegmentExpectation := {|
  px_key := staging_key; px_segment_id := 1; px_source_id := 2; px_schema_id := 1; px_row_count := 1;
  px_arrow_schema := arrow_schema sample_earlier;
  px_field_ids := String.concat "," ((λ f, uuid_to_string (f_id f)) <$> s_fields sample_earlier);
|}.

#[local] Instance staging_parquet : ParquetLib :=
  sample_parquet (arrow_schema sample_earlier) (footer_metadata staging_expectation) 1.

#[local] Instance staging_parquet_laws : ParquetLaws := sample_parquet_laws _ _ _.

(** A batch of one row is what the writer accepts. *)
Lemma one_row_written batch input :
  num_rows batch = 1%nat → ParquetSegmentInput_new staging_key sample_earlier batch = Ok input →
  parquet_write (arrow_schema sample_earlier) (writer_properties (pi_expectation input)) batch = ([file_text], true).
Proof.
  intros Hn Hi. unfold ParquetSegmentInput_new in Hi. rewrite Hn in Hi. apply bind_Ok in Hi as (n & [= <-] & Hi).
  apply bind_Ok in Hi as (expectation & [= <-] & Hi). apply bind_Ok in Hi as (u & _ & Hi). apply bind_Ok in Hi as (u' & _ & Hi).
  apply bind_Ok in Hi as (u'' & _ & [= <-]). cbn [pi_expectation parquet_write staging_parquet sample_parquet].
  rewrite decide_True; [done|]. split; [done|]. split; [reflexivity|]. split; [done|]. by vm_compute.
Qed.

Lemma sealed_segment_staged_witness :
  ∃ batch input staged files',
    ParquetSegmentInput_new staging_key sample_earlier batch = Ok input ∧
    write_parquet_segment "scratch" input 100
      {| wi_create_fails := false; wi_buffers := None; wi_validation_fails := (false, false); wi_remove_fails := false |} ∅ =
    (Ok staged, files') ∧
    read_staged_object files' (staging_path "scratch" (pi_expectation input)) (ps_object_descriptor staged) 100 None = Ok file_text.
Proof.
  destruct sealed_row as (segment & s' & row & r & Ht & Hsrc & Hsch & Hrows & Hrow & Hn).
  pose proof (history_take _ _ _ _ _ _ filled_history Ht) as Hh.
  destruct (sealed_segment_staged staging_limits s' (batch_rows staged_batch ++ []) ([] ++ [segment]) segment sample_earlier (take 1 sample_fields) staging_key 1 "scratch" 100
    [file_text] ∅ staging_limits_ok) as (batch & input & Hm & Hi & Hcells & Hstage).
  - by cbn.
  - exact Hh.
  - by apply list_elem_of_here.
  - reflexivity.
  - exact Hsrc.
  - exact Hsch.
  - rewrite Hrows. intros r' ->%list_elem_of_singleton. rewrite Hrow. eexists _, _, _, _, _. split; [exact sample_resolves|].
    split; [reflexivity | exact Hn].
  - intros members. by eexists.
  - reflexivity.
  - reflexivity.
  - assert (Hone : num_rows batch = 1%nat).
    { assert (Hfit : Forall (row_fits (data_fields sample_earlier)) (ss_rows segment)).
      { rewrite Hrows, Forall_singleton. apply normalized_fits; [intros members; by eexists|]. rewrite Hrow.
        eexists _, _, _, _, _. split; [exact sample_resolves|]. split; [reflexivity | exact Hn]. }
      rewrite (materialize_fits segment sample_earlier (take 1 sample_fields) eq_refl Hsrc Hsch Hfit) in Hm. injection Hm as <-.
      destruct (columns_fit sample_earlier (take 1 sample_fields) (ss_rows segment) eq_refl Hfit) as [_ Hl].
      apply Forall_cons in Hl as [Hl _]. rewrite Hrows in Hl at 2. exact Hl. }
    exists batch, input. destruct Hstage as (staged & files' & Hw & Hr).
    + by apply one_row_written.
    + lia.
    + vm_compute. done.
    + done.
    + exists staged, files'. split; [exact Hi|]. split; [exact Hw | exact Hr].
Defined.

(** ** A segment that does not fit *)

(** A batch without columns stands for the rows: only the writer looks at them. *)
Definition staging_input : ParquetSegmentInput :=
  {| pi_expectation := staging_expectation;
     pi_batch := {| rb_fields := arrow_schema sample_earlier; rb_columns := [TimestampMillisecondArray (Some "UTC") [Some 0]] |} |}.

Lemma staged_file_exact_witness :
  (∃ staged files', write_parquet_segment "scratch" staging_input 100
      {| wi_create_fails := false; wi_buffers := None; wi_validation_fails := (false, false); wi_remove_fails := false |} ∅ =
      (Ok staged, files') ∧ files' !! staging_path "scratch" staging_expectation = Some file_text) ∧
  (∃ e files', write_parquet_segment "scratch" staging_input 3
      {| wi_create_fails := false; wi_buffers := None; wi_validation_fails := (false, false); wi_remove_fails := false |} ∅ =
      (Err e, files') ∧ files' !! staging_path "scratch" staging_expectation = None).
Proof.
  split.
  - destruct (write_parquet_segment "scratch" staging_input 100 _ ∅) as [r files'] eqn:E.
    assert (Hr : is_ok r = true) by (change r with (fst (r, files')); rewrite <- E; vm_compute; reflexivity).
    destruct r as [staged|]; [|discriminate Hr]. exists staged, files'. split; [reflexivity|].
    destruct (staged_file_exact "scratch" staging_input 100 _ ∅ _ _ eq_refl E) as (_ & _ & b & metadata & Hb & _ & Ho & _).
    cbn [parquet_open staging_parquet sample_parquet] in Ho. case_decide as Hd; [|discriminate Ho]. by rewrite <- Hd.
  - destruct (write_parquet_segment "scratch" staging_input 3 _ ∅) as [r files'] eqn:E.
    assert (Hr : is_ok r = false) by (change r with (fst (r, files')); rewrite <- E; vm_compute; reflexivity).
    destruct r as [staged|e]; [discriminate Hr|]. exists e, files'. split; [reflexivity|].
    destruct (staged_file_exact "scratch" staging_input 3 _ ∅ _ _ eq_refl E) as (_ & _ & Hn). by apply Hn.
Defined.

(** ** Dead letters *)

(** Hexadecimal digits of a byte. *)
Definition hex_digit (n : N) : ascii := Ascii.ascii_of_N (if (n <? 10)%N then 48 + n else 87 + n)%N.

Fixpoint hex (b : bytes) : string :=
  match b with
  | [] => ""
  | c :: b => let n := Ascii.N_of_ascii c in String (hex_digit (n / 16)) (String (hex_digit (n mod 16)) (hex b))
  end.

Lemma hex_digit_lower n : (n < 16)%N → is_lower_hex (hex_digit n) = true.
Proof.
  intros Hn. assert (Hc : (n = 0 ∨ n = 1 ∨ n = 2 ∨ n = 3 ∨ n = 4 ∨ n = 5 ∨ n = 6 ∨ n = 7 ∨ n = 8 ∨ n = 9 ∨ n = 10 ∨ n = 11 ∨ n = 12 ∨
    n = 13 ∨ n = 14 ∨ n = 15)%N) by lia. by destruct_or! Hc; subst n.
Qed.

Lemma hex_digits b : String.length (hex b) = (2 * length b)%nat ∧ string_forallb is_lower_hex (hex b) = true.
Proof.
  induction b as [|c b [IHl IHd]]; [done|]. pose proof (Ascii.N_ascii_bounded c) as Hc. cbn [hex String.length length string_forallb].
  rewrite IHl, IHd, !hex_digit_lower; [split; [lia | done] | apply N.mod_lt; lia | apply N.Div0.div_lt_upper_bound; lia].
Qed.

#[local] Instance document_eq_dec : EqDecision DeadLetterDocumentEntry.
Proof.
  assert (EqDecision DeadLetterDocumentCode) by solve_decision. assert (EqDecision DeadLetterDocumentEncoding) by solve_decision.
  assert (EqDecision DeadLetterDocumentExtent) by solve_decision. assert (EqDecision DeadLetterDocumentPayload) by solve_decision.
  solve_decision.
Defined.

(** A serializer for one document. *)
Definition letters_json (document : option DeadLetterDocumentEntry) : DeadLetterJson := {|
  entry_to_vec e := if decide (Some e = document) then Some (ascii_bytes "{}") else None;
  entry_from_slice b := document;
  to_hex := hex;
|}.

Lemma letters_json_laws document : @DeadLetterJsonLaws (letters_json document).
Proof.
  split; cbn; [| | apply hex_digits]; intros e b; (case_decide as Hd; [|done]); intros [= <-].
  - done.
  - split; [done|]. apply (bool_decide_unpack _). by vm_compute.
Qed.

(** The dead letter of the second line of the body. *)
Definition rejected : list DeadLetterEntry :=
  omap (λ record, match record with DeadLetter entry => Some entry | Accepted _ => None end) (nb_records staged_batch).

#[local] Instance rejected_json : DeadLetterJson := letters_json (@from_entry sample_uuid_text (letters_json None) <$> head rejected).

Lemma dead_letters_round_trip_witness :
  ∃ b, encode_dead_letters rejected 100 = Ok b ∧ length rejected = 1%nat ∧ decode_dead_letters b = Ok (from_entry <$> rejected).
Proof.
  assert (Hlen : length rejected = 1%nat) by (vm_compute; reflexivity).
  assert (Hwf : Forall (λ e, is_uuid (dl_batch_id e) ∧ length (dl_payload_digest e) = 32%nat) rejected).
  { apply Forall_forall. intros e He.
    assert (Hall : forallb (λ e, (0 <=? dl_batch_id e) && (dl_batch_id e <? 2 ^ 128) && (length (dl_payload_digest e) =? 32)%nat) rejected = true)
      by (vm_compute; reflexivity).
    rewrite forallb_forall in Hall. apply list_elem_of_In in He. specialize (Hall e He). rewrite !andb_true_iff in Hall.
    destruct Hall as [[H1%Z.leb_le H2%Z.ltb_lt] H3%Nat.eqb_eq]. split; [split; [exact H1 | exact H2] | exact H3]. }
  assert (Hok : is_ok (encode_dead_letters rejected 100) = true) by (vm_compute; reflexivity).
  destruct (encode_dead_letters rejected 100) as [b|] eqn:E; [|discriminate Hok]. exists b. split; [reflexivity|]. split; [exact Hlen|].
  apply (@dead_letters_round_trip sample_uuid_text rejected_json sample_uuid_text_laws (letters_json_laws _) rejected 100 b ltac:(lia) Hwf E).
Defined.
