(* ===== verification/Turns.v ===== *)
(** * elucid-service: asynchronous operations

    The monad of the ingestion worker. Between two operations of the worker everything
    else runs: other transactions on the metastore, other writers of the object store, the
    catalog. A turn is what happens until the next operation of the worker, and what the
    environment does to that operation; a schedule is a list of turns, and a worker whose
    schedule ends is interrupted, by a crash or because the process exits. The rules of the
    weakest precondition hold for any type of turns and of states. *)

From S2P Require Import Prelude.

#[local] Open Scope Z_scope.

(** ** Operations *)

Section Turns.
Context {Turn Outside Error : Type}.
Variable others : Turn → Outside → Outside.

Inductive Stop := Failed (e : Error) | Interrupted.

Definition World : Type := Outside * list Turn.

Definition proc (A : Type) := World → result Stop A * World.

#[export] Instance proc_ret : MRet proc := λ A a w, (Ok a, w).
#[export] Instance proc_bind : MBind proc := λ A B f m w,
  match m w with
  | (Ok a, w') => f a w'
  | (Err e, w') => (Err e, w')
  end.

(** One operation: the others first, then the operation itself. *)
Definition await {A} (f : Turn → Outside → A * Outside) : proc A := λ w,
  match w with
  | (o, []) => (Err Interrupted, (o, []))
  | (o, turn :: turns) => let '(a, o) := f turn (others turn o) in (Ok a, (o, turns))
  end.

Definition raise {A} (e : Error) : proc A := λ w, (Err (Failed e), w).

(** The operator [?] *)
Definition lift_result {A} (r : result Error A) : proc A := λ w,
  match r with Ok a => (Ok a, w) | Err e => (Err (Failed e), w) end.

(** The result of a call as a value. *)
Definition attempt {A} (m : proc A) : proc (result Error A) := λ w,
  match m w with
  | (Ok a, w) => (Ok (Ok a), w)
  | (Err (Failed e), w) => (Ok (Err e), w)
  | (Err Interrupted, w) => (Err Interrupted, w)
  end.

(** [loop]: the body returns a value, or [None] to continue. *)
Fixpoint loop_fuel {A} (fuel : nat) (body : proc (option A)) : proc A :=
  match fuel with
  | O => λ w, (Err Interrupted, w)
  | S fuel => r ← body; match r with Some a => mret a | None => loop_fuel fuel body end
  end.

(** Every iteration uses a turn. *)
Definition loop {A} (body : proc (option A)) : proc A := λ w, loop_fuel (S (length w.2)) body w.

(** ** Weakest preconditions *)

Definition wp {A} (m : proc A) (w : World) (Q : result Stop A → World → Prop) : Prop := Q (m w).1 (m w).2.

Lemma wp_run {A} (m : proc A) w Q r w' : wp m w Q → m w = (r, w') → Q r w'.
Proof. unfold wp. intros HQ E. by rewrite E in HQ. Qed.

Lemma wp_intro {A} (m : proc A) w (Q : result Stop A → World → Prop) :
  (∀ r w', m w = (r, w') → Q r w') → wp m w Q.
Proof. intros HQ. apply HQ. apply surjective_pairing. Qed.

Lemma wp_mono {A} (m : proc A) w (P Q : result Stop A → World → Prop) :
  wp m w P → (∀ r w', P r w' → Q r w') → wp m w Q.
Proof. intros HP HPQ. by apply HPQ. Qed.

Lemma wp_ret {A} (a : A) w Q : Q (Ok a) w → wp (mret a) w Q.
Proof. done. Qed.

Lemma wp_raise {A} e w Q : Q (Err (Failed e)) w → wp (A := A) (raise e) w Q.
Proof. done. Qed.

Lemma wp_bind {A B} (m : proc A) (f : A → proc B) w (Q : result Stop B → World → Prop) :
  wp m w (λ r w', match r with Ok a => wp (f a) w' Q | Err e => Q (Err e) w' end) → wp (m ≫= f) w Q.
Proof. unfold wp, mbind, proc_bind. by destruct (m w) as [[a|e] w']. Qed.

Lemma wp_lift {A} (r : result Error A) w Q :
  match r with Ok a => Q (Ok a) w | Err e => Q (Err (Failed e)) w end → wp (lift_result r) w Q.
Proof. by destruct r. Qed.

Lemma wp_attempt {A} (m : proc A) w (Q : result Stop (result Error A) → World → Prop) :
  wp m w (λ r w', match r with
                  | Ok a => Q (Ok (Ok a)) w'
                  | Err (Failed e) => Q (Ok (Err e)) w'
                  | Err Interrupted => Q (Err Interrupted) w'
                  end) → wp (attempt m) w Q.
Proof. unfold wp, attempt. by destruct (m w) as [[a|[e|]] w']. Qed.

Lemma wp_await {A} (f : Turn → Outside → A * Outside) o turns (Q : result Stop A → World → Prop) :
  match turns with
  | [] => Q (Err Interrupted) (o, [])
  | turn :: turns => let '(a, o') := f turn (others turn o) in Q (Ok a) (o', turns)
  end → wp (await f) (o, turns) Q.
Proof. unfold wp, await. destruct turns as [|turn turns]; [done|]. by destruct (f turn (others turn o)). Qed.

(** A loop keeps the invariant of its body. *)
Lemma wp_loop_fuel {A} (J : World → Prop) (body : proc (option A)) (Q : result Stop A → World → Prop) :
  (∀ w, J w → Q (Err Interrupted) w) →
  (∀ w, J w → wp body w (λ r w', match r with
                                 | Ok (Some a) => Q (Ok a) w'
                                 | Ok None => J w'
                                 | Err e => Q (Err e) w'
                                 end)) →
  ∀ fuel w, J w → wp (loop_fuel fuel body) w Q.
Proof.
  intros Hi Hb. induction fuel as [|fuel IH]; intros w Hw; cbn [loop_fuel]; [by apply Hi|].
  apply wp_bind. eapply wp_mono; [by apply Hb|]. intros [[a|]|e] w'; [done | apply IH | done].
Qed.

Lemma wp_loop {A} (J : World → Prop) (body : proc (option A)) w (Q : result Stop A → World → Prop) :
  (∀ w, J w → Q (Err Interrupted) w) →
  (∀ w, J w → wp body w (λ r w', match r with
                                 | Ok (Some a) => Q (Ok a) w'
                                 | Ok None => J w'
                                 | Err e => Q (Err e) w'
                                 end)) →
  J w → wp (loop body) w Q.
Proof. intros Hi Hb Hw. by eapply wp_loop_fuel. Qed.

(** A loop whose body uses a turn whenever it continues stops only when its body does. *)
Lemma wp_loop_total {A} (J : World → Prop) (body : proc (option A)) w (Q : result Stop A → World → Prop) :
  (∀ w, J w → wp body w (λ r w', match r with
                                 | Ok (Some a) => Q (Ok a) w'
                                 | Ok None => J w' ∧ (length w'.2 < length w.2)%nat
                                 | Err e => Q (Err e) w'
                                 end)) →
  J w → wp (loop body) w Q.
Proof.
  intros Hb. change (wp (loop body) w Q) with (wp (loop_fuel (S (length w.2)) body) w Q). set (fuel := S (length w.2)).
  assert (Hf : (length w.2 < fuel)%nat) by (unfold fuel; lia). clearbody fuel. revert w Hf.
  induction fuel as [|fuel IH]; intros w Hf Hw; [lia|]. cbn [loop_fuel]. apply wp_bind.
  eapply wp_mono; [by apply Hb|]. intros [[a|]|e] w'; [done | | done]. intros [Hj Hl]. apply IH; [lia | done].
Qed.

(** ** Rely and guarantee

    [inv] holds between the operations, whatever happens; [rely] is what the others keep. *)

Variable inv : Outside → Prop.
Variable rely : Outside → Outside → Prop.

Definition tame (turn : Turn) : Prop := ∀ o, inv o → inv (others turn o) ∧ rely o (others turn o).

Definition safe (w : World) : Prop := inv w.1 ∧ Forall tame w.2.

(** [Q] holds of what is returned and [E] after a failure. *)
Definition spec {A} (E P : Outside → Prop) (m : proc A) (Q : A → Outside → Prop) : Prop :=
  ∀ w, safe w → P w.1 →
    wp m w (λ r w', safe w' ∧ match r with
                              | Ok a => Q a w'.1
                              | Err (Failed _) => E w'.1
                              | Err Interrupted => True
                              end).

Lemma spec_mono {A} (E P P' : Outside → Prop) (m : proc A) (Q Q' : A → Outside → Prop) :
  spec E P m Q → (∀ o, P' o → P o) → (∀ a o, Q a o → Q' a o) → spec E P' m Q'.
Proof.
  intros Hm HP HQ w Hs Hw. eapply wp_mono; [by apply Hm; [|apply HP]|]. intros [a|[e|]] w' [? ?]; split; auto.
Qed.

Lemma spec_fail {A} (E E' P : Outside → Prop) (m : proc A) (Q : A → Outside → Prop) :
  (∀ o, E o → E' o) → spec E P m Q → spec E' P m Q.
Proof. intros HE Hm w Hs Hw. eapply wp_mono; [by apply Hm|]. intros [a|[e|]] w' [? ?]; split; auto. Qed.

Lemma bind_lift_Ok {A B} (a : A) (f : A → proc B) : lift_result (Ok a) ≫= f = f a.
Proof. reflexivity. Qed.

Lemma spec_pure {A} (φ : Prop) (E P : Outside → Prop) (m : proc A) (Q : A → Outside → Prop) :
  (φ → spec E P m Q) → spec E (λ o, P o ∧ φ) m Q.
Proof. intros Hm w Hs [Hw Hφ]. by apply Hm. Qed.

Lemma spec_ret {A} (E P : Outside → Prop) (a : A) (Q : A → Outside → Prop) :
  (∀ o, inv o → P o → Q a o) → spec E P (mret a) Q.
Proof. intros HQ w [Hi Ht] Hw. apply wp_ret. split; [done | auto]. Qed.

Lemma spec_raise {A} (E P : Outside → Prop) e (Q : A → Outside → Prop) : (∀ o, P o → E o) → spec E P (raise e) Q.
Proof. intros HE w Hs Hw. apply wp_raise. auto. Qed.

Lemma spec_bind {A B} E P (m : proc A) (f : A → proc B) (R : A → Outside → Prop) (Q : B → Outside → Prop) :
  spec E P m R → (∀ a, spec E (R a) (f a) Q) → spec E P (m ≫= f) Q.
Proof.
  intros Hm Hf w Hs Hw. apply wp_bind. eapply wp_mono; [by apply Hm|]. intros [a|[e|]] w' [Hs' Hr]; [by apply Hf | done | done].
Qed.

Lemma spec_lift {A} (E P : Outside → Prop) (r : result Error A) (Q : A → Outside → Prop) :
  (∀ o, P o → E o) → (∀ a o, r = Ok a → P o → Q a o) → spec E P (lift_result r) Q.
Proof. intros HE HQ w Hs Hw. apply wp_lift. destruct r; split; auto. Qed.

Lemma spec_attempt {A} (E E' P : Outside → Prop) (m : proc A) (Q : A → Outside → Prop) :
  spec E P m Q → spec E' P (attempt m) (λ r o, match r with Ok a => Q a o | Err _ => E o end).
Proof.
  intros Hm w Hs Hw. apply wp_attempt. eapply wp_mono; [by apply Hm|]. by intros [a|[e|]] w' [? ?].
Qed.

Lemma spec_loop {A} (E P : Outside → Prop) (body : proc (option A)) (Q : A → Outside → Prop) :
  spec E P body (λ r o, match r with Some a => Q a o | None => P o end) → spec E P (loop body) Q.
Proof.
  intros Hb w Hs Hw. apply (wp_loop (λ w, safe w ∧ P w.1)); [by intros ? [? ?] | | done].
  intros w' [Hs' Hw']. eapply wp_mono; [by apply Hb|]. by intros [[a|]|[e|]] w'' [? ?].
Qed.

Lemma spec_await {A} (E P : Outside → Prop) (f : Turn → Outside → A * Outside) (Q : A → Outside → Prop) :
  (∀ o o', P o → rely o o' → P o') →
  (∀ turn o, inv o → P o → inv (f turn o).2 ∧ Q (f turn o).1 (f turn o).2) → spec E P (await f) Q.
Proof.
  intros Hst Hf [o turns] [Hi Ht] Hw. apply wp_await. destruct turns as [|turn turns]; [done|].
  apply Forall_cons in Ht as [Ht Hts]. cbn in Hi, Hw. destruct (Ht o Hi) as [Hi' Hr].
  destruct (Hf turn (others turn o) Hi') as [Hf1 Hf2]; [by eapply Hst|]. by destruct (f turn (others turn o)).
Qed.

End Turns.

Arguments Stop Error : clear implicits.
Arguments World Turn Outside : clear implicits.
