(* ===== verification/Processor.v ===== *)
(** * elucid-service: the publisher of the ingestion worker

    Models the part of src/elucid/elucid-service/src/processing.rs that carries a recorded
    output to publication and resumes the outputs of an earlier run: [publish_record] with
    the calls it makes, [recovery_disposition], [recover_outputs] and [remember_coverage].
    The metrics it counts are left out. Each asynchronous call is one operation of [Turns];
    a lost connection aborts a transaction or hides that it was committed. *)

From S2P Require Import Core CatalogTypes CatalogModel CatalogSource Bytes Frame Storage ObjectStore OutputRecovery OutputLog Database Publication CatalogStore ParquetSegment DeadLetterObject Turns Prelude Normalization Segment Arrow.
#[local] Open Scope string_scope.
#[local] Open Scope Z_scope.

(** ** Errors of ingestion processing

    Models [IngestionProcessingError] of src/elucid/elucid-service/src/processing.rs and
    which errors the publisher retries. *)

Inductive IngestionProcessingError :=
| ProcessingCancelled
| ProcessingSpool (source : SpoolError)
| ProcessingRecovery (source : OutputRecoveryError)
| ProcessingRecoveryModel (source : OutputRecoveryModelError)
| ProcessingNormalization (source : NormalizationError)
| ProcessingSegmentBuild (source : SegmentBuildError)
| ProcessingMaterialization (source : SegmentMaterializationError)
| ProcessingDeadLetter (source : DeadLetterObjectError)
| ProcessingLocalStaging (operation : string)
| ProcessingStorage (source : StorageError)
| ProcessingStagedRead (source : StagedObjectReadError)
| ProcessingPublication (source : PublicationError)
| ProcessingInvariant (reason : string).

Definition reason (e : IngestionProcessingError) : string :=
  match e with
  | ProcessingCancelled => "ingestion processing was cancelled"
  | ProcessingSpool _ => "ingestion spool processing failed"
  | ProcessingRecovery _ => "ingestion output recovery failed"
  | ProcessingRecoveryModel _ => "ingestion output recovery model is invalid"
  | ProcessingNormalization _ => "spooled batch normalization failed"
  | ProcessingSegmentBuild _ => "segment building failed"
  | ProcessingMaterialization _ => "segment materialization failed"
  | ProcessingDeadLetter _ => "dead-letter staging failed"
  | ProcessingLocalStaging _ | ProcessingStagedRead _ => "local output staging failed"
  | ProcessingStorage _ => "immutable output storage failed"
  | ProcessingPublication _ => "publication metadata failed"
  | ProcessingInvariant reason => reason
  end.

Definition transient_storage (e : StorageError) : bool :=
  match se_kind e with
  | ObjectStoreUnavailable | ObjectUploadFailed | ObjectVerificationFailed => true
  | _ => false
  end.

(** [error.kind() == PublicationErrorKind::Unavailable] *)
Definition unavailable (e : PublicationError) : bool :=
  match pe_kind e with PublicationUnavailable => true | _ => false end.

Definition transient_publication (e : IngestionProcessingError) : bool :=
  match e with ProcessingPublication e => unavailable e | _ => false end.

(** ** The environment *)

(** What a connection to PostgreSQL does to one call: the last two abort the transaction,
    or commit it and lose the answer. *)
Inductive Connection := Connected | Refused | AnswerLost.

(** The failures of the local file system during one call. *)
Record FileFaults := {
  ff_exists : bool;
  ff_validate : bool * bool;
  ff_read : option StagedObjectReadError;
  ff_remove : bool;
}.

Record ProcessorConfig := {
  pc_scratch_path : string;
  pc_event_retention : Z;
  pc_dead_letter_retention : Z;
  pc_transfer_limit : Z;
}.

Inductive RecoveryDisposition := Resume | RebuildOutput.

(** The fields of [Processor] that recovery fills. *)
Record Recovered `{Calendar} := {
  rc_published : list PublishedOutput;
  rc_coverage : gmap Z (gset Z);
}.

Section Processor.
Context {calendar : Calendar} {postgres : Postgres} {env : SpoolEnv} {uuid : UuidText} {backend : Backend}.
Context {parquet : ParquetLib} {documents : DeadLetterJson}.

Record Outside := {
  w_db : Database;
  w_catalog : CatalogSnapshot;
  w_objects : St;
  w_files : gmap string bytes;
}.

Record Turn := {
  tn_others : Outside → Outside;
  tn_now : DateTime;
  tn_connection : Connection;
  tn_locked : gset Z * gset Z;
  tn_files : FileFaults;
  tn_cancelled : bool;
}.

Definition set_db (db : Database) (o : Outside) : Outside :=
  {| w_db := db; w_catalog := w_catalog o; w_objects := w_objects o; w_files := w_files o |}.
Definition set_store (s : St) (o : Outside) : Outside :=
  {| w_db := w_db o; w_catalog := w_catalog o; w_objects := s; w_files := w_files o |}.
Definition set_files (files : gmap string bytes) (o : Outside) : Outside :=
  {| w_db := w_db o; w_catalog := w_catalog o; w_objects := w_objects o; w_files := files |}.

Notation proc := (proc (Turn := Turn) (Outside := Outside) (Error := IngestionProcessingError)).

Definition call {A} (f : Turn → Outside → A * Outside) : proc A := await tn_others f.

(** A local operation that changes nothing. *)
Definition local {A} (f : Turn → Outside → result IngestionProcessingError A) : proc A :=
  r ← call (λ turn o, (f turn o, o)); lift_result r.

(** ** Calls of the metastore and the object store *)

Definition connection_lost : PublicationError :=
  {| pe_kind := PublicationUnavailable; pe_source := PublicationDatabase Transport |}.

Definition db_read {A} (query : Database → publication A) : proc (publication A) :=
  call (λ turn o,
    (match tn_connection turn with Connected => query (w_db o) | _ => Err connection_lost end, o)).

Definition db_write {A} (transaction : Turn → Database → publication (Database * A)) : proc (publication A) :=
  call (λ turn o,
    match tn_connection turn with
    | Refused => (Err connection_lost, o)
    | connection =>
        match transaction turn (w_db o) with
        | Err e => (Err e, o)
        | Ok (db, a) => (match connection with Connected => Ok a | _ => Err connection_lost end, set_db db o)
        end
    end).

Definition object_call {A} (m : io A) : proc (result StorageError A) :=
  call (λ _ o, let '(r, s) := m (w_objects o) in (r, set_store s o)).

Definition retry_delay : proc unit :=
  cancelled ← call (λ turn o, (tn_cancelled turn, o));
  if cancelled : bool then raise ProcessingCancelled else mret tt.

(** [continue] after a failure that is retried. *)
Definition retry {A} : proc (option A) := _ ← retry_delay; mret None.

Section Publisher.
Variable config : ProcessorConfig.

(** ** Calls for one output *)

(** The query and the transactions for the kind of the output. *)
Definition query_state (record : OutputRecoveryRecord) (db : Database) : publication ObjectPublicationState :=
  match or_output record with
  | SegmentOutput registration => ingestion_output_state registration db
  | DeadLetterOutput registration => dead_letter_output_state registration db
  end.

Definition register_transaction (record : OutputRecoveryRecord) (now : DateTime) (db : Database)
    : publication (Database * RegistrationOutcome) :=
  match or_output record with
  | SegmentOutput registration => register_ingestion_segment now registration db
  | DeadLetterOutput registration => register_dead_letter now registration db
  end.

Definition publish_transaction (record : OutputRecoveryRecord) (now : DateTime) (db : Database)
    : publication (Database * PublicationOutcome) :=
  match or_output record with
  | SegmentOutput registration =>
      publish_ingestion_segment now (sd_segment_id registration) (pc_event_retention config) db
  | DeadLetterOutput registration =>
      publish_dead_letter now (k_object_id (od_key (dd_object registration))) (pc_dead_letter_retention config) db
  end.

Definition output_state (record : OutputRecoveryRecord) : proc ObjectPublicationState :=
  r ← db_read (query_state record);
  lift_result (map_err ProcessingPublication r).

Definition register_output (record : OutputRecoveryRecord) : proc unit :=
  r ← db_write (λ turn, register_transaction record (tn_now turn));
  _ ← lift_result (map_err ProcessingPublication r);
  mret tt.

Definition record_verified_upload (record : OutputRecoveryRecord) : proc unit :=
  loop (r ← db_write (λ turn, Publication.record_verified_upload (tn_now turn) (output_object (or_output record)));
        match r with
        | Ok _ => mret (Some tt)
        | Err e => if unavailable e then retry else raise (ProcessingPublication e)
        end).

Definition publish_output (record : OutputRecoveryRecord) : proc unit :=
  r ← db_write (λ turn, publish_transaction record (tn_now turn));
  _ ← lift_result (map_err ProcessingPublication r);
  mret tt.

(** ** Staged bytes *)

Definition segment_expectation (registration : SegmentDescriptor) (catalog : CatalogSnapshot)
    : result IngestionProcessingError ParquetSegmentExpectation :=
  source ← ok_or (source_by_id catalog (sd_source_id registration))
             (ProcessingInvariant "recovered segment source is absent from the catalog");
  schema ← ok_or (source_schema source (sd_schema_id registration))
             (ProcessingInvariant "recovered segment schema is absent from the catalog");
  map_err (λ _, ProcessingInvariant "recovered Parquet expectation is invalid")
    (ParquetSegmentExpectation_new (od_key (sd_object registration)) schema (sd_row_count registration)).

Definition staged_output_path (record : OutputRecoveryRecord) (catalog : CatalogSnapshot)
    : result IngestionProcessingError string :=
  match or_output record with
  | SegmentOutput registration =>
      expectation ← segment_expectation registration catalog;
      Ok (staging_path (pc_scratch_path config) expectation)
  | DeadLetterOutput registration => Ok (dead_letter_staging_path (pc_scratch_path config) (dd_object registration))
  end.

Definition staged_output_exists (record : OutputRecoveryRecord) : proc bool :=
  local (λ turn o,
    path ← staged_output_path record (w_catalog o);
    if ff_exists (tn_files turn) then Err (ProcessingDeadLetter DeadLetterIo)
    else Ok (bool_decide (is_Some (w_files o !! path)))).

Definition remove_staged_output (record : OutputRecoveryRecord) : proc unit :=
  r ← call (λ turn o,
        match staged_output_path record (w_catalog o) with
        | Err e => (Err e, o)
        | Ok path =>
            if ff_remove (tn_files turn) then (Err (ProcessingLocalStaging "removing a published output"), o)
            else (Ok tt, set_files (delete path (w_files o)) o)
        end);
  lift_result r.

Definition read_staged (path : string) (descriptor : ObjectDescriptor) : proc bytes :=
  local (λ turn o,
    map_err ProcessingStagedRead
      (read_staged_object (w_files o) path descriptor (pc_transfer_limit config) (ff_read (tn_files turn)))).

Definition read_staged_output (record : OutputRecoveryRecord) : proc bytes :=
  match or_output record with
  | SegmentOutput registration =>
      staged ← local (λ turn o,
        expectation ← segment_expectation registration (w_catalog o);
        map_err ProcessingStorage
          (validate_parquet_segment (w_files o) (staging_path (pc_scratch_path config) expectation) expectation
             (ff_validate (tn_files turn))));
      _ ← lift_result (check (bool_decide (ps_object_descriptor staged = sd_object registration))
             (ProcessingInvariant "recovered Parquet bytes do not match durable output metadata"));
      read_staged (ps_path staged) (sd_object registration)
  | DeadLetterOutput registration =>
      b ← read_staged (dead_letter_staging_path (pc_scratch_path config) (dd_object registration)) (dd_object registration);
      _ ← lift_result (map_err ProcessingDeadLetter (decode_dead_letters b));
      mret b
  end.

(** ** Publication *)

(** The branch of [publish_record] for a planned output. *)
Definition publish_planned (record : OutputRecoveryRecord) : proc (option PublishedOutput) :=
  staged ← staged_output_exists record;
  if negb staged then
    r ← object_call (verify (output_object (or_output record)));
    match r with
    | Ok Verified => _ ← record_verified_upload record; mret None
    | Ok Absent => raise (ProcessingInvariant "planned recovery output has neither staged nor uploaded bytes")
    | Err e => if transient_storage e then retry else raise (ProcessingStorage e)
    end
  else
    b ← read_staged_output record;
    r ← object_call (upload (output_object (or_output record)) b (pc_transfer_limit config));
    match r with
    | Ok _ => _ ← record_verified_upload record; mret None
    | Err e => if transient_storage e then retry else raise (ProcessingStorage e)
    end.

(** Continues when the call succeeds or its failure is retried. *)
Definition continue_after (m : proc unit) : proc (option PublishedOutput) :=
  r ← attempt m;
  match r with
  | Ok _ => mret None
  | Err e => if transient_publication e then retry else raise e
  end.

Definition publish_step (record : OutputRecoveryRecord) : proc (option PublishedOutput) :=
  state ← attempt (output_state record);
  match state with
  | Err e => if transient_publication e then retry else raise e
  | Ok OutputUnregistered =>
      staged ← staged_output_exists record;
      if negb staged then raise (ProcessingInvariant "unregistered recovery output has no staged bytes")
      else continue_after (register_output record)
  | Ok OutputPlanned => publish_planned record
  | Ok OutputUploaded => continue_after (publish_output record)
  | Ok OutputPublished =>
      published ← lift_result (map_err (λ e, ProcessingRecovery (RecoveryModel e))
                                 (PublishedOutput_resolve record PublishedOutputState));
      _ ← remove_staged_output record;
      mret (Some published)
  | Ok OutputAbandoned => raise (ProcessingInvariant "retained output was abandoned before publication")
  end.

Definition publish_record (record : OutputRecoveryRecord) : proc PublishedOutput := loop (publish_step record).

(** ** Recovery *)

Definition resolve_action (observation : OutputRecoveryObservation) : result IngestionProcessingError OutputRecoveryAction :=
  map_err ProcessingRecoveryModel (recovery_action observation RetainedAvailable).

(** The state of an output, read until the metastore answers. *)
Definition resolve_state (record : OutputRecoveryRecord) : proc ObjectPublicationState :=
  loop (r ← attempt (output_state record);
        match r with
        | Ok state => mret (Some state)
        | Err e => if transient_publication e then retry else raise e
        end).

Definition observe (state : ObjectPublicationState) (staged : option bool)
    : result IngestionProcessingError OutputRecoveryObservation :=
  match state, staged with
  | OutputUnregistered, Some true => Ok (Unregistered UnregisteredAvailable)
  | OutputUnregistered, Some false => Ok (Unregistered UnregisteredMissing)
  | OutputPlanned, Some true => Ok (Planned PlannedAvailable)
  | OutputPlanned, Some false => Ok (Planned MissingUnverified)
  | OutputUploaded, None => Ok UploadedOutput
  | OutputPublished, None => Ok PublishedOutputState
  | OutputAbandoned, None => Ok Abandoned
  | _, _ => Err (ProcessingInvariant "publication state and staged output disagree")
  end.

(** The loop of the action [VerifyExactObject]. *)
Definition verify_disposition (record : OutputRecoveryRecord) : proc RecoveryDisposition :=
  loop (r ← object_call (verify (output_object (or_output record)));
        match r with
        | Ok Verified =>
            action ← lift_result (resolve_action (Planned MissingVerified));
            match action with
            | RecordVerifiedUpload => _ ← record_verified_upload record; mret (Some Resume)
            | _ => raise (ProcessingInvariant "verified output produced an invalid recovery action")
            end
        | Ok Absent =>
            action ← lift_result (resolve_action (Planned MissingAbsent));
            match action with
            | AbandonAndRebuild => mret (Some RebuildOutput)
            | _ => raise (ProcessingInvariant "absent output produced an invalid recovery action")
            end
        | Err e => if transient_storage e then retry else raise (ProcessingStorage e)
        end).

Definition recovery_disposition (record : OutputRecoveryRecord) : proc RecoveryDisposition :=
  state ← resolve_state record;
  staged ← (match state with
            | OutputUnregistered | OutputPlanned => staged ← staged_output_exists record; mret (Some staged)
            | OutputUploaded | OutputPublished | OutputAbandoned => mret None
            end : proc (option bool));
  observation ← lift_result (observe state staged);
  action ← lift_result (resolve_action observation);
  match action with
  | Register | Upload | Publish | CompleteOutput => mret Resume
  | Rebuild | AbandonAndRebuild => mret RebuildOutput
  | VerifyExactObject => verify_disposition record
  | RecordVerifiedUpload => raise (ProcessingInvariant "unverified output requested an upload-state transition")
  end.

(** The records to resume, in order. *)
Fixpoint select_resumable (records : list OutputRecoveryRecord) : proc (list OutputRecoveryRecord) :=
  match records with
  | [] => mret []
  | record :: records =>
      disposition ← recovery_disposition record;
      resumable ← select_resumable records;
      mret (match disposition with Resume => record :: resumable | RebuildOutput => resumable end)
  end.

Definition referenced_segments (records : list OutputRecoveryRecord) : list SegmentId :=
  omap (λ record, match or_output record with
                  | SegmentOutput registration => Some (sd_segment_id registration)
                  | DeadLetterOutput _ => None
                  end) records.

Definition referenced_dead_letters (records : list OutputRecoveryRecord) : list StoredObjectId :=
  omap (λ record, match or_output record with
                  | DeadLetterOutput registration => Some (k_object_id (od_key (dd_object registration)))
                  | SegmentOutput _ => None
                  end) records.

Definition ORPHAN_GRACE_SECONDS : Z := 300.
Definition RECONCILIATION_ITEMS : Z := 1000.

Definition reconcile (resumable : list OutputRecoveryRecord) : proc unit :=
  grace ← lift_result (map_err (λ _, ProcessingInvariant "orphan grace is invalid")
                         (OrphanGracePeriod_new ORPHAN_GRACE_SECONDS));
  limit ← lift_result (map_err (λ _, ProcessingInvariant "reconciliation limit is invalid")
                         (ReconciliationLimit_new RECONCILIATION_ITEMS));
  loop (r ← db_write (λ turn db,
              reconcile_unreferenced_outputs (tn_now turn) (tn_locked turn).1 (tn_locked turn).2
                (referenced_segments resumable) (referenced_dead_letters resumable) grace limit db);
        match r with
        | Ok _ => mret (Some tt)
        | Err e => if unavailable e then retry else raise (ProcessingPublication e)
        end).

(** The loop over the positions of one coverage entry. *)
Definition remember_position (positions : gset Z) (position : Z) : result IngestionProcessingError (gset Z) :=
  if bool_decide (position ∈ positions) then Err (ProcessingInvariant "recovered output coverage overlaps")
  else Ok ({[position]} ∪ positions).

Definition remember_entry (coverage : gmap Z (gset Z)) (entry : BatchPositionCoverage)
    : result IngestionProcessingError (gmap Z (gset Z)) :=
  positions ← try_fold remember_position (default ∅ (coverage !! bc_batch_id entry)) (bc_positions entry);
  Ok (<[bc_batch_id entry := positions]> coverage).

Definition remember_coverage (record : OutputRecoveryRecord) (coverage : gmap Z (gset Z))
    : result IngestionProcessingError (gmap Z (gset Z)) :=
  try_fold remember_entry coverage (or_coverage record).

Fixpoint publish_all (records : list OutputRecoveryRecord) (recovered : Recovered) : proc Recovered :=
  match records with
  | [] => mret recovered
  | record :: records =>
      published ← publish_record record;
      coverage ← lift_result (remember_coverage record (rc_coverage recovered));
      publish_all records {| rc_published := rc_published recovered ++ [published]; rc_coverage := coverage |}
  end.

(** [records]: what the output log returns when it is opened. *)
Definition recover_outputs (records : list OutputRecoveryRecord) : proc Recovered :=
  resumable ← select_resumable records;
  _ ← reconcile resumable;
  publish_all resumable {| rc_published := []; rc_coverage := ∅ |}.

End Publisher.
End Processor.
