(* ===== verification/ProcessorFacts.v ===== *)
(** * elucid-service: what the worker's transactions touch

    The transactions that the ingestion worker runs leave alone every row that is published;
    only the recording of an upload marks an object as uploaded, and only the publication of
    an output makes it published. *)

From S2P Require Import Prelude Core ErrorCode CatalogTypes CatalogModel Bytes Frame Storage ObjectStore OutputRecovery Database Publication MetastoreInvariant MetastoreLifecycle MetastoreSteps Metastore Processor.

#[local] Open Scope string_scope.
#[local] Open Scope Z_scope.

Section Facts.
Context {calendar : Calendar} {postgres : Postgres}.

(** The upload of the object was recorded. *)
Definition past_upload (r : ObjectRow) : bool := negb (is_null (ob_uploaded_at r) && is_null (ob_published_at r)).

Definition final_object (r : ObjectRow) : Prop := ob_published_at r ≠ None.
Definition final_segment (r : SegmentRow) : Prop := sg_published_at r ≠ None.

Definition nothing (k : Z) : Prop := False.

(** [up]: the objects whose upload the transaction may record; [po] and [ps]: the objects
    and segments it may publish. *)
Record touches (up po ps : Z → Prop) (db db' : Database) : Prop := {
  touches_segments k s : db_segments db !! k = Some s → final_segment s → db_segments db' !! k = Some s;
  touches_objects k o : db_objects db !! k = Some o → final_object o → db_objects db' !! k = Some o;
  touches_uploads k o' :
    db_objects db' !! k = Some o' → past_upload o' = true → ¬ up k →
    ∃ o, db_objects db !! k = Some o ∧ past_upload o = true;
  touches_back_segments k s' : db_segments db' !! k = Some s' → final_segment s' → ¬ ps k → db_segments db !! k = Some s';
  touches_back_objects k o' : db_objects db' !! k = Some o' → final_object o' → ¬ po k → db_objects db !! k = Some o';
}.

Lemma touches_refl up po ps db : touches up po ps db db.
Proof. split; eauto. Qed.

Lemma touches_trans up po ps db1 db2 db3 : touches up po ps db1 db2 → touches up po ps db2 db3 → touches up po ps db1 db3.
Proof.
  intros H12 H23. split.
  - intros k s Hs Hf. eapply touches_segments, Hf; [done|]. by eapply touches_segments.
  - intros k o Ho Hf. eapply touches_objects, Hf; [done|]. by eapply touches_objects.
  - intros k o Ho Hp Hk. destruct (touches_uploads _ _ _ _ _ H23 k o Ho Hp Hk) as (o' & Ho' & Hp'). by eapply touches_uploads.
  - intros k s Hs Hf Hk. eapply touches_back_segments, Hk; [done | | done]. by eapply touches_back_segments.
  - intros k o Ho Hf Hk. eapply touches_back_objects, Hk; [done | | done]. by eapply touches_back_objects.
Qed.

(** Rows that an update may change are not published yet. *)
Lemma update_objects_touches (up po ps : Z → Prop) db p f db' n :
  update_objects db p f = Ok (db', n) → db_wf db →
  (∀ o, p o = true → ob_state o ∈ ["PLANNED"; "UPLOADED"]) →
  (∀ k o o', db_objects db !! k = Some o → p o = true → f o = Some o' → past_upload o' = true → ¬ up k → past_upload o = true) →
  (∀ k o o', db_objects db !! k = Some o → p o = true → f o = Some o' → ¬ po k → ob_published_at o' = ob_published_at o) →
  touches up po ps db db'.
Proof.
  unfold update_objects. intros (x & Hu & [= <- <-])%bind_Ok Hwf Hp Hup Hpo. destruct x as [t m].
  apply update_rows_Ok in Hu as (Hsome & -> & _).
  assert (Hnull : ∀ k o, db_objects db !! k = Some o → p o = true → ob_published_at o = None).
  { intros k o Ho Hpo'. apply unpublished_null; [by eapply wf_objects | by apply Hp]. }
  split; cbn; [done | | | done |].
  - intros k o Ho Hfin. rewrite lookup_fmap, Ho. cbn. unfold updated. destruct (p o) eqn:Ep; [|done]. by apply (Hnull _ _ Ho) in Ep.
  - intros k o'. rewrite lookup_fmap. intros (o & Ho & ->)%fmap_Some Hpast Hk. exists o. split; [done|].
    unfold updated in Hpast. destruct (p o) eqn:Ep; [|done]. destruct (Hsome _ _ Ho Ep) as (o' & Ho' & _). rewrite Ho' in Hpast.
    by eapply Hup.
  - intros k o'. rewrite lookup_fmap. intros (o & Ho & ->)%fmap_Some Hfin Hk. unfold updated in *. destruct (p o) eqn:Ep; [|done].
    destruct (Hsome _ _ Ho Ep) as (o' & Ho' & _). rewrite Ho' in Hfin. cbn in Hfin. unfold final_object in Hfin.
    by rewrite (Hpo _ _ _ Ho Ep Ho' Hk), (Hnull _ _ Ho Ep) in Hfin.
Qed.

Lemma update_segments_touches (up po ps : Z → Prop) db p f db' n :
  update_segments db p f = Ok (db', n) → db_wf db →
  (∀ s, p s = true → sg_state s = "PREPARED") →
  (∀ k s s', db_segments db !! k = Some s → p s = true → f s = Some s' → ¬ ps k → sg_published_at s' = sg_published_at s) →
  touches up po ps db db'.
Proof.
  unfold update_segments. intros (x & Hu & [= <- <-])%bind_Ok Hwf Hp Hps. destruct x as [t m].
  apply update_rows_Ok in Hu as (Hsome & -> & _).
  assert (Hnull : ∀ k s, db_segments db !! k = Some s → p s = true → sg_published_at s = None).
  { intros k s Hs Hps'. apply prepared_null; [by eapply wf_segments | by apply Hp]. }
  split; cbn; [|done | eauto | |done].
  - intros k s Hs Hfin. rewrite lookup_fmap, Hs. cbn. unfold updated. destruct (p s) eqn:Ep; [|done]. by apply (Hnull _ _ Hs) in Ep.
  - intros k s'. rewrite lookup_fmap. intros (s & Hs & ->)%fmap_Some Hfin Hk. unfold updated in *. destruct (p s) eqn:Ep; [|done].
    destruct (Hsome _ _ Hs Ep) as (s' & Hs' & _). rewrite Hs' in Hfin. cbn in Hfin. unfold final_segment in Hfin.
    by rewrite (Hps _ _ _ Hs Ep Hs' Hk), (Hnull _ _ Hs Ep) in Hfin.
Qed.

Lemma insert_object_touches up po ps db o db' :
  insert_object db o = Ok db' → past_upload o = false → touches up po ps db db'.
Proof.
  unfold insert_object. intros Hi Hp. inv_ok.
  assert (Hfin : ob_published_at o = None).
  { unfold past_upload in Hp. destruct (ob_published_at o); [|done]. by rewrite andb_false_r in Hp. }
  match goal with Hu : object_unique _ _ = true |- _ => unfold object_unique in Hu; apply andb_true_iff in Hu as [Hn _] end.
  split; cbn; [done | | | done |].
  - intros k o' Ho' _. rewrite lookup_insert_ne; [done|]. intros <-. by rewrite Ho' in Hn.
  - intros k o' Ho' Hp' _. destruct (decide (ob_id o = k)) as [<-|Hne].
    + rewrite lookup_insert_eq in Ho'. congruence.
    + rewrite lookup_insert_ne in Ho' by done. eauto.
  - intros k o' Ho' Hf _. destruct (decide (ob_id o = k)) as [<-|Hne].
    + rewrite lookup_insert_eq in Ho'. unfold final_object in Hf. congruence.
    + by rewrite lookup_insert_ne in Ho' by done.
Qed.

Lemma insert_segment_touches up po ps db s db' :
  insert_segment db s = Ok db' → sg_published_at s = None → touches up po ps db db'.
Proof.
  unfold insert_segment. intros Hi Hnull. inv_ok. split; cbn; [|done | eauto | |done].
  - intros k s' Hs' _. rewrite lookup_insert_ne; [done|]. intros <-.
    match goal with Hn : is_null _ = true |- _ => by rewrite Hs' in Hn end.
  - intros k s' Hs' Hf _. destruct (decide (sg_id s = k)) as [<-|Hne].
    + rewrite lookup_insert_eq in Hs'. unfold final_segment in Hf. congruence.
    + by rewrite lookup_insert_ne in Hs' by done.
Qed.

Lemma insert_planned_touches up po ps now db d owner db' n :
  insert_planned_object now db d owner = Ok (db', n) → touches up po ps db db'.
Proof.
  intros (bs & fv & [[_ Hi]|[_ ->]])%insert_planned_object_Ok; [|apply touches_refl]. by eapply insert_object_touches.
Qed.

Lemma insert_segment_or_nothing_touches up po ps db s db' n :
  insert_segment_or_nothing db s = Ok (db', n) → sg_published_at s = None → touches up po ps db db'.
Proof.
  unfold insert_segment_or_nothing. intros Hi Hnull. inv_ok.
  destruct (is_null _); inv_ok; [by eapply insert_segment_touches | apply touches_refl].
Qed.

(** ** The transactions *)

Lemma uploaded_past k o db : db_wf db → db_objects db !! k = Some o → ob_state o ∈ ["UPLOADED"; "PUBLISHED"] → past_upload o = true.
Proof.
  intros Hwf Ho Hs. pose proof (wf_objects _ Hwf _ _ Ho) as Hc. unfold object_checks, object_lifecycle_check in Hc.
  rewrite !andb_true_iff in Hc. destruct Hc as [[_ Hc] _]. unfold past_upload.
  state_cases Hs; rewrite Hs in Hc; cbn in Hc; by destruct (ob_uploaded_at o).
Qed.

Lemma register_touches record now db db' outcome :
  register_transaction record now db = Ok (db', outcome) → touches nothing nothing nothing db db'.
Proof.
  unfold register_transaction. destruct (or_output record) as [d|d]; intros Hr.
  - unfold register_ingestion_segment in Hr. inv_tx. cbv zeta in *.
    match goal with Hs : insert_segment_or_nothing _ _ = Ok _, Ho : insert_planned_object _ _ _ _ = Ok _ |- _ =>
      apply (insert_segment_or_nothing_touches nothing nothing nothing) in Hs; [|done];
      apply (insert_planned_touches nothing nothing nothing) in Ho; pose proof (touches_trans _ _ _ _ _ _ Hs Ho) end.
    repeat (case_match; inv_tx); done.
  - unfold register_dead_letter in Hr. inv_tx. cbv zeta in *.
    match goal with Ho : insert_planned_object _ _ _ _ = Ok _ |- _ => apply (insert_planned_touches nothing nothing nothing) in Ho end.
    repeat (case_match; inv_tx); done.
Qed.

Lemma upload_touches now d db db' outcome :
  Publication.record_verified_upload now d db = Ok (db', outcome) → db_wf db →
  touches (λ k, k = k_object_id (od_key d)) nothing nothing db db'.
Proof.
  intros Hr Hwf. unfold Publication.record_verified_upload in Hr. inv_tx.
  match goal with state : StoredObjectState |- _ => destruct state end; inv_tx; try apply touches_refl.
  match goal with Hu : update_objects _ _ _ = _ |- _ => eapply update_objects_touches; [exact Hu | done | | |] end.
  - intros o [_ Hs%bool_decide_eq_true]%andb_true_iff. rewrite Hs. set_solver.
  - intros k o o' Ho [Hk%Z.eqb_eq _]%andb_true_iff _ _ Hne. destruct Hne.
    rewrite <- (wf_objects_keyed _ Hwf _ _ Ho), Hk. by apply (wf_objects_keyed _ Hwf).
  - by intros k o o' _ _ [= <-] _.
Qed.

(** What the publication of an output may publish. *)
Definition publishes_object (record : OutputRecoveryRecord) (db : Database) (k : Z) : Prop :=
  match or_output record with
  | SegmentOutput d => ∃ o, db_objects db !! k = Some o ∧ ob_segment_id o = Some (sd_segment_id d)
  | DeadLetterOutput d => k = k_object_id (od_key (dd_object d))
  end.

Definition publishes_segment (record : OutputRecoveryRecord) (k : Z) : Prop :=
  match or_output record with SegmentOutput d => k = sd_segment_id d | DeadLetterOutput _ => False end.

Lemma publish_touches config record now db db' outcome :
  publish_transaction config record now db = Ok (db', outcome) → db_wf db →
  touches nothing (publishes_object record db) (publishes_segment record) db db'.
Proof.
  unfold publish_transaction, publishes_object, publishes_segment. destruct (or_output record) as [d|d]; intros Hr Hwf.
  - unfold publish_ingestion_segment in Hr. inv_tx.
    match goal with Hl : load_segment_object _ _ = Some _ |- _ => apply (load_segment_object_Some _ _ _ Hwf) in Hl as (j & Hj & Hjk) end.
    match goal with a : SegmentState, b : StoredObjectState |- _ => destruct a, b end; inv_tx; try done; try apply touches_refl.
    match goal with Ho : update_objects _ _ _ = _, Hs : update_segments _ _ _ = _ |- _ =>
      assert (Hwf1 := Ho); apply wf_update_objects in Hwf1 as (Hwf1 & _); [|done | by intros ?? [= <-]];
      eapply touches_trans; [eapply update_objects_touches; [exact Ho | done | | |] | eapply update_segments_touches; [exact Hs | done | |]] end.
    + intros o [_ Hs%bool_decide_eq_true]%andb_true_iff. rewrite Hs. set_solver.
    + intros k o o' Ho [_ Hs%bool_decide_eq_true]%andb_true_iff _ _ _. apply (uploaded_past _ _ _ Hwf Ho). rewrite Hs. set_solver.
    + intros k o o' Ho [Hk%Z.eqb_eq _]%andb_true_iff _ Hne. destruct Hne. exists o. split; [done|].
      rewrite (wf_objects_keyed _ Hwf _ _ Ho), (wf_objects_keyed _ Hwf _ _ Hj) in Hk. congruence.
    + by intros s [_ Hs%prepared_ingestion_state]%andb_true_iff.
    + intros k s s' Hs [Hk%Z.eqb_eq _]%andb_true_iff _ Hne. destruct Hne. rewrite <- Hk. symmetry. by apply (wf_segments_keyed _ Hwf1).
  - unfold publish_dead_letter in Hr. inv_tx.
    match goal with b : StoredObjectState |- _ => destruct b end; inv_tx; try apply touches_refl.
    match goal with Ho : update_objects _ _ _ = _ |- _ => eapply update_objects_touches; [exact Ho | done | | |] end.
    + intros o [_ Hs%bool_decide_eq_true]%andb_true_iff. rewrite Hs. set_solver.
    + intros k o o' Ho [_ Hs%bool_decide_eq_true]%andb_true_iff _ _ _. apply (uploaded_past _ _ _ Hwf Ho). rewrite Hs. set_solver.
    + intros k o o' Ho [[Hk%Z.eqb_eq _]%andb_true_iff _]%andb_true_iff _ Hne. destruct Hne. rewrite <- Hk. symmetry. by apply (wf_objects_keyed _ Hwf).
Qed.

Lemma reconcile_touches now sl ol rs rd grace limit db db' outcome :
  reconcile_unreferenced_outputs now sl ol rs rd grace limit db = Ok (db', outcome) → db_wf db →
  touches nothing nothing nothing db db'.
Proof.
  intros Hr Hwf. unfold reconcile_unreferenced_outputs in Hr. inv_tx. rename a into db1.
  assert (H1 : touches nothing nothing nothing db db1 ∧ db_wf db1).
  { destruct (sg_id <$> _) as [|i ids]; inv_tx; [split; [apply touches_refl | done]|]. split.
    - eapply update_segments_touches; [done | done | |].
      + by intros s [_ Hs%prepared_ingestion_state]%andb_true_iff.
      + intros k s s' _ _ (t & _ & [= <-])%bind_Some _. done.
    - by eapply wf_update_segments; [| apply retire_columns |]. }
  destruct H1 as [H1 Hwf1]. eapply touches_trans; [exact H1|]. clear Hok.
  match goal with Hm : context [match ?l with _ => _ end] |- _ => destruct l as [|i ids] end; inv_tx; [apply touches_refl|].
  eapply update_objects_touches; [done | done | | |].
  - by intros o [_ [_ Hs%bool_decide_eq_true]%andb_true_iff]%andb_true_iff.
  - by intros k o o' _ _ [= <-].
  - by intros k o o' _ _ [= <-].
Qed.

(** ** Published outputs *)

Lemma published_segment_final s o : resolved_ingestion_state s o = Ok OutputPublished → final_segment s ∧ final_object o.
Proof.
  intros Hl%resolved_linked. unfold final_segment, final_object.
  inversion Hl as [| |_ _ Ht|_ _ Ht|]; subst; unfold publication_times_match in Ht;
    apply andb_true_iff in Ht as [Hn Ht%bool_decide_eq_true]; rewrite <- Ht; by destruct (sg_published_at s).
Qed.

Lemma published_dead_letter_final k o db :
  db_wf db → db_objects db !! k = Some o → resolved_dead_letter_state o = Ok OutputPublished → final_object o.
Proof.
  intros Hwf Ho. unfold resolved_dead_letter_state. intros (st & Hst & Hr)%bind_Ok. apply object_state_str in Hst. unfold final_object.
  destruct st; try done; try (by destruct (ob_published_at o)).
  pose proof (wf_objects _ Hwf _ _ Ho) as Hc. unfold object_checks, object_lifecycle_check in Hc.
  rewrite !andb_true_iff, Hst in Hc. destruct Hc as [[_ Hc] _]. cbn in Hc.
  destruct (ob_published_at o); [done|]. by destruct (ob_uploaded_at o).
Qed.

(** The state of an output depends on its rows. *)
Lemma query_published record db :
  db_wf db → query_state record db = Ok OutputPublished →
  match or_output record with
  | SegmentOutput d =>
      ∃ s o, db_segments db !! sd_segment_id d = Some s ∧ db_objects db !! k_object_id (od_key (sd_object d)) = Some o ∧
        final_segment s ∧ final_object o ∧ ob_segment_id o = Some (sd_segment_id d) ∧
        ∀ db', db_segments db' !! sd_segment_id d = Some s → db_objects db' !! k_object_id (od_key (sd_object d)) = Some o →
          query_state record db' = Ok OutputPublished
  | DeadLetterOutput d =>
      ∃ o, db_objects db !! k_object_id (od_key (dd_object d)) = Some o ∧ final_object o ∧ ob_segment_id o = None ∧
        ∀ db', db_objects db' !! k_object_id (od_key (dd_object d)) = Some o → query_state record db' = Ok OutputPublished
  end.
Proof.
  intros Hwf. unfold query_state. destruct (or_output record) as [d|d].
  - intros Hq. pose proof Hq as Hq'. unfold ingestion_output_state in Hq. inv_ok.
    destruct (db_segments db !! _) as [s|] eqn:Es, (db_objects db !! _) as [o|] eqn:Eo; try done.
    exists s, o. split; [done|]. split; [done|]. inv_ok. destruct (published_segment_final _ _ Hq) as [Hfs Hfo].
    split; [done|]. split; [done|]. subst. split; [destruct a0; [by eapply matches_segment | done]|].
    intros db' Hs Ho. unfold ingestion_output_state in *. rewrite Hs, Ho. by rewrite Es, Eo in Hq'.
  - intros Hq. pose proof Hq as Hq'. unfold dead_letter_output_state in Hq. inv_ok.
    destruct (db_objects db !! _) as [o|] eqn:Eo; [|done]. exists o. split; [done|]. inv_ok.
    split; [by eapply published_dead_letter_final|]. split.
    + subst. unfold object_matches_descriptor in *. inv_ok. cbn in *. simplify_eq.
      match goal with Hm : _ = true |- _ => rewrite !andb_true_iff in Hm; destruct_and! Hm end. by rewrite !bool_decide_eq_true in *.
    + intros db' Ho. unfold dead_letter_output_state in *. rewrite Ho. by rewrite Eo in Hq'.
Qed.

Lemma published_kept record up po ps db db' :
  db_wf db → touches up po ps db db' → query_state record db = Ok OutputPublished → query_state record db' = Ok OutputPublished.
Proof.
  intros Hwf Ht Hq%query_published; [|done]. destruct (or_output record).
  - destruct Hq as (s & o & Hs & Ho & Hfs & Hfo & _ & Hrows). apply Hrows; [by eapply touches_segments | by eapply touches_objects].
  - destruct Hq as (o & Ho & Hfo & _ & Hrows). apply Hrows. by eapply touches_objects.
Qed.

(** The identities of an output. *)
Definition object_id_of (record : OutputRecoveryRecord) : Z := k_object_id (od_key (output_object (or_output record))).
Definition segment_id_of (record : OutputRecoveryRecord) : option Z :=
  match or_output record with SegmentOutput d => Some (sd_segment_id d) | DeadLetterOutput _ => None end.

(** Two outputs that share an identity. *)
Definition shares (r1 r2 : OutputRecoveryRecord) : Prop :=
  object_id_of r1 = object_id_of r2 ∨ ∃ k, segment_id_of r1 = Some k ∧ segment_id_of r2 = Some k.

Lemma unpublished_kept record up db db' :
  db_wf db' → touches up nothing nothing db db' →
  query_state record db' = Ok OutputPublished → query_state record db = Ok OutputPublished.
Proof.
  intros Hwf Ht Hq%query_published; [|done]. destruct (or_output record).
  - destruct Hq as (s & o & Hs & Ho & Hfs & Hfo & _ & Hrows).
    apply Hrows; [by eapply touches_back_segments; eauto | by eapply touches_back_objects; eauto].
  - destruct Hq as (o & Ho & Hfo & _ & Hrows). apply Hrows. by eapply touches_back_objects; eauto.
Qed.

(** ** Outputs that stay *)

Lemma rows_kept_kept {R} (kept : relation R) `{!PreOrder kept} t x y : rows_kept kept t (Some x) (Some y) → kept x y.
Proof. destruct t; cbn; [inversion 1; subst; done | | inversion 1; subst; done.. |]; intros Hk; by injection (Hk _ eq_refl) as ->. Qed.

Lemma object_matches_kept db k o o' d owner b :
  db_wf db → db_objects db !! k = Some o' → ob_columns o' = ob_columns o →
  object_matches_descriptor o d owner = Ok b → object_matches_descriptor o' d owner = Ok b.
Proof.
  intros Hwf Ho Hc Hm. unfold object_matches_descriptor in *. cbv zeta in *. apply bind_Ok in Hm as (st & _ & Hm).
  destruct (object_state_known o') as [st' ->]; [by eapply wf_objects|]. by rewrite bind_ret, Hc.
Qed.

Lemma segment_matches_kept db k s s' registration b :
  db_wf db → db_segments db !! k = Some s' → sg_columns s' = sg_columns s →
  segment_matches_registration s registration = Ok b → segment_matches_registration s' registration = Ok b.
Proof.
  intros Hwf Hs Hc Hm. unfold segment_matches_registration in *. cbv zeta in *. apply bind_Ok in Hm as (st & _ & Hm).
  destruct (segment_state_known s') as [st' ->]; [by eapply wf_segments|]. by rewrite bind_ret, Hc.
Qed.

(** A published output whose rows a transaction does not remove stays published. *)
Lemma published_survives record t db db' :
  db_ok db → evolves t db db' → query_state record db = Ok OutputPublished →
  is_Some (db_objects db' !! object_id_of record) → (∀ k, segment_id_of record = Some k → is_Some (db_segments db' !! k)) →
  query_state record db' = Ok OutputPublished.
Proof.
  intros Hok He. pose proof (ok_wf _ Hok) as Hwf. pose proof (ok_wf _ (ev_ok _ _ _ He)) as Hwf'.
  unfold query_state, object_id_of, segment_id_of, output_object. destruct (or_output record) as [d|d]; intros Hq [o' Ho'] Hseg.
  - destruct (Hseg _ eq_refl) as [s' Hs']. unfold ingestion_output_state in *. inv_ok. rewrite Hs', Ho'.
    destruct (db_segments db !! _) as [s|] eqn:Es, (db_objects db !! _) as [o|] eqn:Eo; try done. inv_ok.
    pose proof (ev_objects _ _ _ He (k_object_id (od_key (sd_object d)))) as Hko. rewrite Eo, Ho' in Hko. apply rows_kept_kept in Hko; [|apply _].
    pose proof (ev_segments _ _ _ He (sd_segment_id d)) as Hks. rewrite Es, Hs' in Hks. apply rows_kept_kept in Hks; [|apply _].
    rewrite Hok0. cbn [map_err]. rewrite bind_ret, (segment_matches_kept _ _ _ _ _ _ Hwf' Hs' Hks Hok1), bind_ret. subst.
    destruct a0; [|done]. rewrite (object_matches_kept _ _ _ _ _ _ _ Hwf' Ho' (kept_columns _ _ Hko) Hok2), bind_ret. cbn [check].
    apply matches_segment in Hok2 as Hj. apply resolved_linked in Hq.
    pose proof (ev_phase _ _ _ He (sd_segment_id d)) as Hph. rewrite (output_phase_Some db _ s _ o _ Hwf Es Eo Hj Hq) in Hph.
    assert (Hj' : ob_segment_id o' = Some (sd_segment_id d)) by (unfold ob_segment_id in *; by rewrite (kept_columns _ _ Hko)).
    destruct (linked_of db' _ _ _ _ (ev_ok _ _ _ He) Hs' Ho' Hj') as [st Hl].
    rewrite (output_phase_Some db' _ s' _ o' _ Hwf' Hs' Ho' Hj' Hl) in Hph. inversion Hph; subst. by apply resolved_linked.
  - unfold dead_letter_output_state in *. inv_ok. rewrite Ho'. destruct (db_objects db !! _) as [o|] eqn:Eo; [|done]. inv_ok.
    pose proof (ev_objects _ _ _ He (k_object_id (od_key (dd_object d)))) as Hko. rewrite Eo, Ho' in Hko. apply rows_kept_kept in Hko; [|apply _].
    rewrite Hok0. cbn [map_err]. rewrite bind_ret, (object_matches_kept _ _ _ _ _ _ _ Hwf' Ho' (kept_columns _ _ Hko) Hok1), bind_ret. subst. cbn [check].
    pose proof (kept_published _ _ Hko (published_dead_letter_final _ _ _ Hwf Eo Hq)) as Hp'.
    unfold resolved_dead_letter_state. destruct (object_state_known o') as [st' Hst']; [by eapply wf_objects|]. rewrite Hst', !bind_ret.
    apply object_state_str in Hst'. f_equal. destruct st'; try done; try (by destruct (ob_published_at o'));
      (destruct Hp'; apply unpublished_null; [by eapply wf_objects | rewrite Hst'; set_solver]).
Qed.

(** A request to delete an object stays with its row. *)
Lemma requested_kept t db db' k o o' :
  evolves t db db' → db_objects db !! k = Some o → db_objects db' !! k = Some o' →
  ob_delete_requested_at o ≠ None → ob_delete_requested_at o' ≠ None.
Proof.
  intros He Ho Ho'. pose proof (ev_objects _ _ _ He k) as Hk. rewrite Ho, Ho' in Hk.
  apply rows_kept_kept in Hk; [apply Hk | apply _].
Qed.

(** Only a removal takes rows away. *)
Lemma object_stays t db db' k o : t ≠ Remove → evolves t db db' → db_objects db !! k = Some o → is_Some (db_objects db' !! k).
Proof.
  intros Ht He Ho. pose proof (ev_objects _ _ _ He k) as Hk. rewrite Ho in Hk.
  destruct t; cbn in Hk; try done; try (inversion Hk; subst; by eexists). by eexists; apply Hk.
Qed.

(** Publishing keeps the columns of the objects. *)
Lemma publish_columns config record now db db' outcome :
  publish_transaction config record now db = Ok (db', outcome) → db_wf db →
  ∀ k o, db_objects db !! k = Some o → ∃ o', db_objects db' !! k = Some o' ∧ ob_columns o' = ob_columns o.
Proof.
  intros Hp Hwf k o Hk. unfold publish_transaction in Hp. destruct (or_output record).
  - unfold publish_ingestion_segment in Hp. inv_tx.
    match goal with a : SegmentState, b : StoredObjectState |- _ => destruct a, b end; inv_tx; try done; eauto.
    match goal with Ho : update_objects _ _ _ = _, Hs : update_segments _ _ _ = _ |- _ =>
      apply wf_update_objects in Ho as (Hwf1 & -> & _); [|done | by intros ?? [= <-]]; apply wf_update_segments in Hs as (_ & -> & _);
        [|done | by intros ?? (? & _ & [= <-])%bind_Some] end.
    cbn. rewrite lookup_fmap, Hk. cbn. eexists. split; [done|]. apply (updated_keeps ob_columns). by intros ?? [= <-].
  - unfold publish_dead_letter in Hp. inv_tx. match goal with b : StoredObjectState |- _ => destruct b end; inv_tx; eauto.
    assert (Hc : ∀ r o o', mark_dead_letter_published now r o = Some o' → ob_columns o' = ob_columns o)
      by (by intros ??? (? & _ & [= <-])%bind_Some).
    match goal with Ho : update_objects _ _ _ = _ |- _ => apply wf_update_objects in Ho as (_ & -> & _); [|done | apply Hc] end.
    cbn. rewrite lookup_fmap, Hk. cbn. eexists. split; [done|]. apply (updated_keeps ob_columns), Hc.
Qed.

(** Publishing an output publishes no other. *)
Lemma publish_other config record other now db db' outcome :
  publish_transaction config record now db = Ok (db', outcome) → db_wf db → db_wf db' → ¬ shares record other →
  query_state other db' = Ok OutputPublished → query_state other db = Ok OutputPublished.
Proof.
  intros Hp Hwf Hwf' Hsh Hq%query_published; [|done]. apply publish_touches in Hp as Ht; [|done].
  pose proof (publish_columns _ _ _ _ _ _ Hp Hwf) as Hc'. clear Hp. rename Hc' into Hp. unfold shares, object_id_of, segment_id_of, publishes_object, publishes_segment in *.
  destruct (or_output other) as [e|e] eqn:Ee.
  - destruct Hq as (s & o & Hs & Ho & Hfs & Hfo & Hseg & Hrows). apply Hrows.
    + eapply touches_back_segments; [done.. |]. intros Hx. cbn in Hx. apply Hsh. destruct (or_output record); [|done].
      right. eexists. split; [done | by f_equal].
    + eapply touches_back_objects; [done.. |]. intros Hx. cbn in Hx. apply Hsh. destruct (or_output record); [|by left].
      destruct Hx as (o0 & Ho0 & Hseg0). destruct (Hp _ _ Ho0) as (o1 & Ho1 & Hc). right. exists (sd_segment_id d).
      split; [done|]. unfold ob_segment_id in *. congruence.
  - destruct Hq as (o & Ho & Hfo & Hseg & Hrows). apply Hrows. eapply touches_back_objects; [done.. |]. intros Hx. cbn in Hx.
    destruct (or_output record); [|by apply Hsh; left]. destruct Hx as (o0 & Ho0 & Hseg0).
    destruct (Hp _ _ Ho0) as (o1 & Ho1 & Hc). unfold ob_segment_id in *. congruence.
Qed.

(** ** Uploads that the state of an output implies *)

(** The upload of an object is recorded in the tables. *)
Definition recorded (d : ObjectDescriptor) (db : Database) : Prop :=
  ∃ o, db_objects db !! k_object_id (od_key d) = Some o ∧ past_upload o = true.

Lemma recorded_back up po ps d db db' :
  touches up po ps db db' → ¬ up (k_object_id (od_key d)) → recorded d db' → recorded d db.
Proof. intros Ht Hid (o & Ho & Hp). by apply (touches_uploads _ _ _ _ _ Ht _ _ Ho Hp). Qed.

Lemma resolved_recorded db record st :
  db_wf db → query_state record db = Ok st → st = OutputUploaded ∨ st = OutputPublished → recorded (output_object (or_output record)) db.
Proof.
  intros Hwf. unfold query_state, output_object. destruct (or_output record) as [d|d]; intros Hq Hst.
  - unfold ingestion_output_state in Hq. inv_ok. destruct (db_segments db !! _) as [s|] eqn:Es, (db_objects db !! _) as [o|] eqn:Eo; inv_ok; try (by destruct Hst).
    exists o. split; [done|]. apply resolved_linked in Hq.
    destruct Hq as [|Hs Ho|Hs Ho _|Hs Ho Ht|]; try (by destruct Hst); try (by eapply uploaded_past; [done | done | rewrite Ho; set_solver]).
    unfold publication_times_match in Ht. apply andb_true_iff in Ht as [Hn Ht%bool_decide_eq_true]. unfold past_upload. rewrite <- Ht.
    destruct (sg_published_at s); [|done]. by rewrite andb_false_r.
  - unfold dead_letter_output_state in Hq. inv_ok. destruct (db_objects db !! _) as [o|] eqn:Eo; inv_ok; [|by destruct Hst].
    exists o. split; [done|]. unfold resolved_dead_letter_state in Hq. apply bind_Ok in Hq as (os & Hos%object_state_str & [= <-]).
    destruct os; cbn in Hos; try (by destruct Hst); try (by eapply uploaded_past; [done | done | rewrite Hos; set_solver]);
      (unfold past_upload; destruct (ob_published_at o); cbn in Hst; [by rewrite andb_false_r | by destruct Hst]).
Qed.

End Facts.
