(* ===== verification/ProcessorSafe.v ===== *)
(** * elucid-service: published outputs are stored

    The publisher under interference. Between its operations the other parts of the system
    run transactions of every store, write and delete objects and change files; they leave
    the publication of the worker's outputs to the worker, and delete an object of the
    worker only after its deletion has been requested in the tables. Then an upload is
    recorded only when its object is in the store, at every operation and after every
    interruption; an output that [publish_record] returns is published and stored; and
    recovery returns published outputs together with exactly the positions they cover. *)

From S2P Require Import Core ErrorCode CatalogTypes CatalogModel CatalogSource Bytes Frame Storage ObjectStore OutputRecovery OutputLog Database Publication MetastoreInvariant MetastoreLifecycle MetastoreSteps Metastore CatalogStore ParquetSegment DeadLetterObject Turns Processor ProcessorFacts Prelude.

#[local] Open Scope string_scope.
#[local] Open Scope list_scope.
#[local] Open Scope Z_scope.

Section Safe.
Context {calendar : Calendar} {postgres : Postgres} {env : SpoolEnv} {uuid : UuidText}.
Context {backend : Backend} {backend_view : BackendView} {backend_laws : BackendLaws}.
Context {parquet : ParquetLib} {documents : DeadLetterJson} {paths : PathLib}.
Variable config : ProcessorConfig.

(** The records the worker is responsible for. *)
Variable records : list OutputRecoveryRecord.

(** An object that matches the descriptor is in the store. *)
Definition stored (d : ObjectDescriptor) (o : Outside) : Prop :=
  ∃ object, view (w_objects o) !! k_path (od_key d) = Some object ∧ matches d object.

Definition object_of (record : OutputRecoveryRecord) : ObjectDescriptor := output_object (or_output record).

Definition is_published (record : OutputRecoveryRecord) (o : Outside) : Prop :=
  query_state record (w_db o) = Ok OutputPublished.

(** The deletion of the object has been requested, by reclamation. *)
Definition deleting (d : ObjectDescriptor) (o : Outside) : Prop :=
  ∃ row, db_objects (w_db o) !! k_object_id (od_key d) = Some row ∧ ob_delete_requested_at row ≠ None.

Definition secured (d : ObjectDescriptor) (o : Outside) : Prop := stored d o ∨ deleting d o.

(** The tables satisfy their invariant and every recorded upload is in the store, unless
    its deletion has been requested. *)
Definition inv (o : Outside) : Prop :=
  db_ok (w_db o) ∧ ∀ record, record ∈ records → recorded (object_of record) (w_db o) → secured (object_of record) o.

(** What the others keep: the objects until their deletion is requested, and the
    publication of the worker's outputs. *)
Definition rely (o o' : Outside) : Prop :=
  ∀ record, record ∈ records →
    (secured (object_of record) o → secured (object_of record) o') ∧ (is_published record o ↔ is_published record o').

(** ** The others *)

(** A transaction leaves the worker's outputs to the worker: it does not record their
    uploads, does not publish them and does not remove their rows. *)
Record hands_off (db db' : Database) (record : OutputRecoveryRecord) : Prop := {
  ho_uploads : recorded (object_of record) db' → recorded (object_of record) db;
  ho_publishes : query_state record db' = Ok OutputPublished → query_state record db = Ok OutputPublished;
  ho_objects : is_Some (db_objects db !! object_id_of record) → is_Some (db_objects db' !! object_id_of record);
  ho_segments k : segment_id_of record = Some k → is_Some (db_segments db !! k) → is_Some (db_segments db' !! k);
}.

(** What the others do: a transaction of any store; changes of the object store, which lose
    an object of the worker only when its deletion has been requested; and changes of the
    files and the catalog. *)
Inductive others (o : Outside) : Outside → Prop :=
| others_transaction db' :
    step (w_db o) db' → (∀ record, record ∈ records → hands_off (w_db o) db' record) → others o (set_db db' o)
| others_objects s' :
    (∀ record object, record ∈ records → view (w_objects o) !! k_path (od_key (object_of record)) = Some object →
       view s' !! k_path (od_key (object_of record)) = Some object ∨ deleting (object_of record) o) →
    others o (set_store s' o)
| others_local o' : w_db o' = w_db o → w_objects o' = w_objects o → others o o'.

Lemma rely_refl o : rely o o.
Proof. by intros record _. Qed.

Lemma rely_trans o1 o2 o3 : rely o1 o2 → rely o2 o3 → rely o1 o3.
Proof. intros H1 H2 record Hin. destruct (H1 _ Hin) as [? ->], (H2 _ Hin) as [? ->]. auto. Qed.

Lemma deleting_transaction t d o db' :
  evolves t (w_db o) db' → is_Some (db_objects db' !! k_object_id (od_key d)) → deleting d o → deleting d (set_db db' o).
Proof. intros He [row' Hrow'] (row & Hrow & Hd). exists row'. split; [done|]. by eapply requested_kept. Qed.

Lemma others_rely o o' : inv o → others o o' → inv o' ∧ rely o o'.
Proof.
  intros [Hok Hi] [db' Hs Hoff|s' Hs|o'' Hdb Hob].
  - destruct (step_evolves _ _ Hok Hs) as [t He].
    assert (Hr : rely o (set_db db' o)).
    { intros record Hin. destruct (Hoff _ Hin) as [Hu Hp Hro Hrs]. split.
      - intros [Hst|Hd]; [by left | right]. destruct Hd as (row & Hrow & Hdel).
        apply (deleting_transaction t); [done | apply Hro; by eexists | by exists row].
      - split; [|apply Hp]. intros Hpub. pose proof Hpub as Hq. apply query_published in Hq; [|by apply ok_wf].
        eapply published_survives; [done | done | done | |]; unfold object_id_of, segment_id_of, output_object in *.
        + apply Hro. destruct (or_output record); [destruct Hq as (s & row & _ & Hrow & _) | destruct Hq as (row & Hrow & _)]; by eexists.
        + intros k Hk. apply (Hrs k Hk). destruct (or_output record); [|done]. injection Hk as <-.
          destruct Hq as (s & row & Hseg & _). by eexists. }
    split; [|done]. split; [apply He|]. intros record Hin Hrec. apply Hr, Hi, (Hoff _ Hin); done.
  - assert (Hr : rely o (set_store s' o)).
    { intros record Hin. split; [|done]. intros [(object & Hobj & Hm)|Hd]; [|by right].
      destruct (Hs _ _ Hin Hobj) as [Hobj'|Hd]; [left; by exists object | by right]. }
    split; [|done]. split; [done|]. intros record Hin Hrec. by apply Hr, Hi.
  - assert (Hr : rely o o'') by (intros record Hin; unfold secured, stored, deleting, is_published; by rewrite Hdb, Hob).
    split; [|done]. split; [by rewrite Hdb|]. intros record Hin Hrec. apply Hr, Hi; [done | done|]. by rewrite <- Hdb.
Qed.

(** A schedule in which the others only do that. *)
Definition interferes (turn : Turn) : Prop := ∀ o, inv o → rtc others o (tn_others turn o).

Lemma interferes_tame turns : Forall interferes turns → Forall (tame tn_others inv rely) turns.
Proof.
  intros Hts. eapply Forall_impl; [exact Hts|]. intros turn Ht o Hi. specialize (Ht o Hi). induction Ht as [o|o1 o2 o3 H12 _ IH]; [split; [done | apply rely_refl]|].
  destruct (others_rely _ _ Hi H12) as [Hi2 Hr]. destruct (IH Hi2) as [Hi3 Hr']. split; [done | by eapply rely_trans].
Qed.

(** The records have identities of their own. *)
Definition identified : Prop := ∀ r1 r2, r1 ∈ records → r2 ∈ records → shares r1 r2 → r1 = r2.

Hypothesis distinct : identified.

Notation spec := (Turns.spec tn_others inv rely).

(** The outputs [l] are published and stored, unless their deletion has been requested, and
    the outputs [u] are not published. *)
Definition done (l u : list OutputRecoveryRecord) (o : Outside) : Prop :=
  (∀ record, record ∈ l → record ∈ records ∧ is_published record o ∧ secured (object_of record) o) ∧
  (∀ record, record ∈ u → record ∈ records ∧ ¬ is_published record o).

Lemma done_nil o : done [] [] o.
Proof. split; intros record H; set_solver. Qed.

(** Predicates that the others keep. *)
Definition stable (P : Outside → Prop) : Prop := ∀ o o', P o → rely o o' → P o'.

Lemma done_stable l u : stable (done l u).
Proof.
  intros o o' [Hl Hu] Hr. split.
  - intros record (Hin & Hp & Hs)%Hl. split; [done|]. destruct (Hr _ Hin) as [H1 H2]. split; [by apply H2 | auto].
  - intros record (Hin & Hp)%Hu. split; [done|]. destruct (Hr _ Hin) as [H1 H2]. by rewrite <- H2.
Qed.

Lemma secured_stable record : record ∈ records → stable (secured (object_of record)).
Proof. intros Hin o o' Hs Hr. by apply Hr. Qed.

Lemma and_stable P Q : stable P → stable Q → stable (λ o, P o ∧ Q o).
Proof. intros HP HQ o o' [? ?] Hr. split; [by eapply HP | by eapply HQ]. Qed.

Hint Resolve done_stable secured_stable and_stable : core.

(** ** The worker's own effects *)

Lemma advance_db t o db' up po ps :
  t ≠ Remove → inv o → evolves t (w_db o) db' → touches up po ps (w_db o) db' →
  (∀ record, record ∈ records → secured (object_of record) o ∨ ¬ up (object_id_of record)) →
  inv (set_db db' o) ∧
  (∀ d, secured d o → secured d (set_db db' o)) ∧
  ∀ l u, (∀ record, record ∈ u → is_published record (set_db db' o) → is_published record o) →
    done l u o → done l u (set_db db' o).
Proof.
  intros Hrem [Hok Hi] He Ht Hid.
  assert (Hsec : ∀ d, secured d o → secured d (set_db db' o)).
  { intros d [Hs|Hd]; [by left | right]. apply (deleting_transaction t); [done | | done].
    destruct Hd as (row & Hrow & _). by eapply object_stays. }
  split; [split; [apply He|]|split; [done|]].
  - intros record Hin Hr. destruct (Hid _ Hin) as [Hs|Hn]; [by apply Hsec|].
    apply (recorded_back _ _ _ _ _ _ Ht Hn) in Hr. by apply Hsec, Hi.
  - intros l u Hback [Hl Hu]. split.
    + intros record (Hin & Hp & Hs)%Hl. split; [done|]. split; [|by apply Hsec]. exact (published_kept record _ _ _ _ _ (ok_wf _ Hok) Ht Hp).
    + intros record Hin. destruct (Hu _ Hin) as [Hr Hn]. split; [done|]. intros Hp. by apply Hn, Hback.
Qed.

Lemma view_grows o s' :
  inv o → (∀ p x, view (w_objects o) !! p = Some x → view s' !! p = Some x) →
  inv (set_store s' o) ∧ (∀ l u, done l u o → done l u (set_store s' o)) ∧
  ∀ d, stored d o → stored d (set_store s' o).
Proof.
  intros [Hok Hi] Hv.
  assert (Hst : ∀ d, stored d o → stored d (set_store s' o)).
  { intros d (object & Ho & Hm). exists object. split; [by apply Hv | done]. }
  assert (Hstored : ∀ d, secured d o → secured d (set_store s' o)).
  { intros d [Hs|Hd]; [left; by apply Hst | by right]. }
  split; [split; [done|]; intros record Hin Hr; by apply Hstored, Hi|]. split; [|done].
  intros l u [Hl Hu]. split; [|done]. intros record (Hin & Hp & Hs)%Hl. split; [done|]. split; [done|]. by apply Hstored.
Qed.

(** ** Calls *)

Section Calls.
Variable E : Outside → Prop.

Lemma spec_db_read {A} (P : Outside → Prop) (query : Database → publication A) :
  stable P → spec E P (db_read query) (λ r o, P o ∧ inv o ∧ ∀ a, r = Ok a → query (w_db o) = Ok a).
Proof.
  intros Hst. apply spec_await; [done|]. intros turn o Hi HP. cbn. split; [done|]. split; [done|]. split; [done|].
  by destruct (tn_connection turn).
Qed.

Lemma spec_db_write {A} (P : Outside → Prop) (transaction : Turn → Database → publication (Database * A)) :
  stable P →
  (∀ turn o db' a, inv o → P o → transaction turn (w_db o) = Ok (db', a) → inv (set_db db' o) ∧ P (set_db db' o)) →
  spec E P (db_write transaction) (λ _ o, P o).
Proof.
  intros Hst Ht. apply spec_await; [done|]. intros turn o Hi HP.
  destruct (transaction turn (w_db o)) as [[db' a]|e] eqn:Etx; destruct (tn_connection turn); cbn; eauto.
Qed.

Lemma spec_local {A} (P : Outside → Prop) (f : Turn → Outside → result IngestionProcessingError A) :
  stable P → (∀ o, P o → E o) → spec E P (local f) (λ _, P).
Proof.
  intros Hst HE. unfold local. eapply (spec_bind _ _ _ _ _ _ _ (λ _, P)).
  - apply spec_await; [done|]. by intros turn o Hi HP.
  - intros r. by apply spec_lift.
Qed.

Lemma spec_verify l u record :
  spec E (done l u) (object_call (verify (object_of record))) (λ r o, done l u o ∧ (r = Ok Verified → secured (object_of record) o)).
Proof.
  apply spec_await; [apply done_stable|]. intros turn o Hi Hd.
  destruct (verify _ _) as [r s'] eqn:Ev. apply probe_spec in Ev as [Hv Hr]. cbn.
  destruct (view_grows o s' Hi) as (Hi' & Hd' & Hs); [by rewrite Hv|]. split; [done|]. split; [by apply Hd'|].
  intros ->. left. apply Hs. exact Hr.
Qed.

Lemma spec_upload l u record b :
  spec E (done l u) (object_call (upload (object_of record) b (pc_transfer_limit config)))
    (λ r o, done l u o ∧ (is_ok r = true → secured (object_of record) o)).
Proof.
  apply spec_await; [apply done_stable|]. intros turn o Hi HP. destruct (upload _ _ _ _) as [r s'] eqn:Eu.
  apply upload_effect in Eu as [He Ho]. cbn. destruct (view_grows o s' Hi) as (Hi' & Hd & _).
  { intros p x Hx. destruct He as [->|(Hn & -> & _)]; [done|]. rewrite lookup_insert_ne; [done|]. congruence. }
  split; [done|]. split; [by apply Hd|]. intros [_ Hs]%Ho. left. exact Hs.
Qed.

Lemma spec_retry {A} (P : Outside → Prop) :
  stable P → (∀ o, P o → E o) → spec E P (retry (A := A)) (λ r o, r = None ∧ P o).
Proof.
  intros Hst HE. unfold retry, retry_delay. eapply (spec_bind _ _ _ _ _ _ _ (λ _ o, P o)).
  - eapply (spec_bind _ _ _ _ _ _ _ (λ _ o, P o)); [apply spec_await; [done|]; by intros turn o Hi HP|].
    intros [|]; [by apply spec_raise | by apply spec_ret].
  - intros _. by apply spec_ret.
Qed.

End Calls.

(** ** The calls for one output

    [l] are the outputs published before, [u] are left unpublished. *)

Section Record.
Variable record : OutputRecoveryRecord.
Hypothesis member : record ∈ records.
Variables l u : list OutputRecoveryRecord.
Hypothesis apart : record ∉ u.

Notation object := (object_of record).
Notation spec := (Turns.spec tn_others inv rely (done l u)).

Lemma spec_state :
  spec (done l u) (output_state record) (λ state o, done l u o ∧ inv o ∧ query_state record (w_db o) = Ok state).
Proof.
  unfold output_state. eapply spec_bind; [by apply spec_db_read|]. intros r. apply spec_lift; [by intros o []|].
  intros a o Ha%map_err_Ok (Hd & Hi & Hq). auto.
Qed.

Lemma spec_unit {A} (r : result IngestionProcessingError A) : spec (done l u) (_ ← lift_result r; mret tt) (λ _, done l u).
Proof. eapply (spec_bind _ _ _ _ _ _ _ (λ _, done l u)); [by apply spec_lift|]. intros _. by apply spec_ret. Qed.

Lemma spec_register : spec (done l u) (register_output record) (λ _, done l u).
Proof.
  unfold register_output. eapply spec_bind; [apply spec_db_write; [apply done_stable|] | intros r; apply spec_unit].
  intros turn o db' a Hi Hd Hr.
  assert (He : evolves Register (w_db o) db').
  { unfold register_transaction in Hr. destruct Hi as [Hok _]. destruct (or_output record);
      [by eapply register_ingestion_segment_evolves | by eapply register_dead_letter_evolves]. }
  apply register_touches in Hr as Ht. destruct (advance_db Register o db' _ _ _ ltac:(done) Hi He Ht) as (Hi' & _ & Hd'); [by right; intros []|].
  split; [done|]. apply Hd'; [|done]. intros r _. by apply (unpublished_kept _ _ _ _ (ok_wf _ (ev_ok _ _ _ He)) Ht).
Qed.

Lemma spec_publish : spec (done l u) (publish_output config record) (λ _, done l u).
Proof.
  unfold publish_output. eapply spec_bind; [apply spec_db_write; [apply done_stable|] | intros r; apply spec_unit].
  intros turn o db' a Hi Hd Hr. pose proof (ok_wf _ (proj1 Hi)) as Hwf.
  assert (He : evolves Publish (w_db o) db').
  { unfold publish_transaction in Hr. destruct Hi as [Hok _]. destruct (or_output record);
      [by eapply publish_ingestion_segment_evolves | by eapply publish_dead_letter_evolves]. }
  destruct (advance_db Publish o db' _ _ _ ltac:(done) Hi He (publish_touches _ _ _ _ _ _ Hr Hwf)) as (Hi' & _ & Hd'); [by right; intros []|].
  split; [done|]. apply Hd'; [|done]. intros r Hin. apply (publish_other _ _ _ _ _ _ _ Hr Hwf (ok_wf _ (ev_ok _ _ _ He))).
  intros Hs. apply apart. rewrite (distinct _ _ member (proj1 (proj2 Hd _ Hin)) Hs). done.
Qed.

Lemma spec_record_upload :
  spec (λ o, done l u o ∧ secured object o) (record_verified_upload record) (λ _, done l u).
Proof.
  unfold record_verified_upload. apply spec_loop. eapply spec_bind; [apply spec_db_write; [auto|]|].
  - intros turn o db' a Hi [Hd Hs] Hr. pose proof (ok_wf _ (proj1 Hi)) as Hwf.
    assert (He : evolves Upload (w_db o) db') by (by eapply record_verified_upload_evolves; [apply Hi|]).
    apply upload_touches in Hr as Ht; [|done]. destruct (advance_db Upload o db' _ _ _ ltac:(done) Hi He Ht) as (Hi' & Hsec & Hd').
    { intros r Hin. destruct (decide (object_id_of r = k_object_id (od_key object))) as [E|E]; [left | by right].
      by rewrite (distinct r record Hin member (or_introl E)). }
    split; [done|]. split; [|by apply Hsec]. apply Hd'; [|done]. intros r _. by apply (unpublished_kept _ _ _ _ (ok_wf _ (ev_ok _ _ _ He)) Ht).
  - intros [a|e]; [by apply spec_ret; intros o _ []|].
    destruct (unavailable e); [|by apply spec_raise; intros o []].
    eapply spec_mono; [apply (spec_retry _ (λ o, done l u o ∧ secured object o)); [auto | by intros o []] | done|]. by intros a o [-> Hp].
Qed.

Lemma spec_read_staged : spec (done l u) (read_staged_output config record) (λ _, done l u).
Proof.
  unfold read_staged_output, read_staged.
  destruct (or_output record); (eapply spec_bind; [by apply spec_local|]; intros x).
  - eapply (spec_bind _ _ _ _ _ _ _ (λ _, done l u)); [by apply spec_lift|]. intros _. by apply spec_local.
  - eapply (spec_bind _ _ _ _ _ _ _ (λ _, done l u)); [by apply spec_lift|]. intros _. by apply spec_ret.
Qed.

(** The staged file of the output is gone. *)
Definition unstaged (o : Outside) : Prop :=
  ∃ path, staged_output_path config record (w_catalog o) = Ok path ∧ w_files o !! path = None.

Lemma done_cons o : done l u o → is_published record o → secured object o → done (record :: l) u o.
Proof. intros [Hl Hu] Hp Hs. split; [|done]. intros r [->|Hr]%elem_of_cons; [done | by apply Hl]. Qed.

Lemma spec_remove : spec (done (record :: l) u) (remove_staged_output config record) (λ _ o, done (record :: l) u o ∧ unstaged o).
Proof.
  assert (Hsub : ∀ o, done (record :: l) u o → done l u o) by (intros o [Hl Hu]; split; [|done]; intros r Hr; apply Hl; set_solver).
  unfold remove_staged_output. eapply (spec_bind _ _ _ _ _ _ _ (λ r o, done (record :: l) u o ∧ (is_ok r = true → unstaged o))).
  - apply spec_await; [apply done_stable|]. intros turn o Hi Hd. destruct (staged_output_path _ _ _) as [path|e] eqn:E; [|done].
    destruct (ff_remove _); [done|]. cbn. split; [done|]. split; [done|]. intros _. exists path. split; [done|]. cbn. apply lookup_delete_eq.
  - intros r. apply spec_lift; [intros o [Hd _]; auto|]. intros a o -> [Hd Hu]. auto.
Qed.

(** What an iteration of the loop leaves. *)
Definition stepped (r : option PublishedOutput) (o : Outside) : Prop :=
  match r with
  | Some published => done (record :: l) u o ∧ po_record published = record ∧ unstaged o
  | None => done l u o
  end.

Lemma spec_again : spec (done l u) retry stepped.
Proof. eapply spec_mono; [by apply (spec_retry _ (done l u)) | done|]. by intros r o [-> Hd]. Qed.

Lemma spec_recorded : spec (λ o, done l u o ∧ secured object o) (_ ← record_verified_upload record; mret None) stepped.
Proof. eapply spec_bind; [apply spec_record_upload|]. intros x. by apply spec_ret. Qed.

Lemma spec_storage_error e : spec (done l u) (if transient_storage e then retry else raise (ProcessingStorage e)) stepped.
Proof. destruct (transient_storage e); [apply spec_again | by apply spec_raise]. Qed.

Lemma spec_publication_error e : spec (done l u) (if transient_publication e then retry else raise e) stepped.
Proof. destruct (transient_publication e); [apply spec_again | by apply spec_raise]. Qed.

Lemma spec_publish_planned : spec (done l u) (publish_planned config record) stepped.
Proof.
  unfold publish_planned. eapply spec_bind; [by apply spec_local|]. intros [|]; cbn [negb].
  - eapply spec_bind; [apply spec_read_staged|]. intros b. eapply spec_bind; [apply spec_upload|]. intros [outcome|e].
    + eapply spec_mono; [apply spec_recorded | | done]. intros o [Hd Hs]. auto.
    + eapply spec_mono; [apply spec_storage_error | by intros o [] | done].
  - eapply spec_bind; [apply spec_verify|]. intros [[|]|e].
    + eapply spec_mono; [apply spec_recorded | | done]. intros o [Hd Hs]. auto.
    + apply spec_raise. by intros o [].
    + eapply spec_mono; [apply spec_storage_error | by intros o [] | done].
Qed.

Lemma spec_continue m : spec (done l u) m (λ _, done l u) → spec (done l u) (continue_after m) stepped.
Proof.
  intros Hm. unfold continue_after. eapply spec_bind; [apply spec_attempt, Hm|].
  intros [x|e]; [by apply spec_ret | apply spec_publication_error].
Qed.

Lemma spec_publish_step : spec (done l u) (publish_step config record) stepped.
Proof.
  unfold publish_step. eapply spec_bind; [apply spec_attempt, spec_state|]. intros [state|e]; [|apply spec_publication_error].
  destruct state; try (by apply spec_raise; intros o []).
  - eapply spec_mono with (P := done l u); [|by intros o [] | done]. eapply spec_bind; [by apply spec_local|].
    intros [|]; cbn [negb]; [apply spec_continue, spec_register | by apply spec_raise].
  - eapply spec_mono; [apply spec_publish_planned | by intros o [] | done].
  - eapply spec_mono; [apply spec_continue, spec_publish | by intros o [] | done].
  - eapply spec_bind.
    { apply (spec_lift _ _ _ _ _ _ (λ p o, done (record :: l) u o ∧ po_record p = record)); [by intros o []|].
      intros p o Hp%map_err_Ok (Hd & [Hok Hi] & Hq). unfold PublishedOutput_resolve in Hp. rewrite bool_decide_false in Hp by naive_solver.
      injection Hp as <-. split; [|done]. apply done_cons; [done | done|]. apply Hi; [done|].
      eapply resolved_recorded; [by apply ok_wf | done | by right]. }
    intros p. apply spec_pure. intros Hp. eapply spec_bind; [apply spec_remove|]. intros x. apply spec_ret. by intros o _ [Hd Hu].
Qed.

Lemma spec_publish_record :
  spec (done l u) (publish_record config record) (λ p o, done (record :: l) u o ∧ po_record p = record ∧ unstaged o).
Proof. apply spec_loop. eapply spec_mono; [apply spec_publish_step | done|]. by intros [p|] o. Qed.

End Record.

(** ** Recovery *)

Section Recovery.
Notation spec := (Turns.spec tn_others inv rely (λ _, True)).
Notation proc := (Turns.proc (Turn := Turn) (Outside := Outside) (Error := IngestionProcessingError)).

Lemma spec_any {A} (E P : Outside → Prop) (m : proc A) (Q : A → Outside → Prop) :
  Turns.spec tn_others inv rely E P m Q → spec P m Q.
Proof. by apply spec_fail. Qed.

Lemma spec_resolve_state record l u :
  spec (done l u) (resolve_state record) (λ state o, done l u o ∧ inv o ∧ query_state record (w_db o) = Ok state).
Proof.
  apply (spec_any (done l u)), spec_loop. eapply spec_bind; [apply spec_attempt, spec_state|].
  intros [state|e]; [by apply spec_ret|]. destruct (transient_publication e); [|by apply spec_raise].
  eapply spec_mono; [by apply (spec_retry _ (done l u)) | done|]. by intros r o [-> Hd].
Qed.

Lemma spec_verify_disposition record l u :
  record ∈ records → record ∈ u →
  spec (done l u) (verify_disposition record) (λ _, done l u).
Proof.
  intros Hin Hu. apply (spec_any (done l u)), spec_loop. eapply spec_bind; [apply spec_verify|]. intros [[|]|e].
  - change (resolve_action (Planned MissingVerified)) with (@Ok IngestionProcessingError _ RecordVerifiedUpload).
    rewrite bind_lift_Ok. eapply spec_mono with (P := λ o, done l u o ∧ secured (object_of record) o);
      [eapply spec_bind; [by apply spec_record_upload|]; intros x | by intros o [Hd Hs]; auto | by intros r o Hr; exact Hr].
    by apply spec_ret.
  - change (resolve_action (Planned MissingAbsent)) with (@Ok IngestionProcessingError _ AbandonAndRebuild).
    rewrite bind_lift_Ok. apply spec_ret. by intros o _ [].
  - destruct (transient_storage e); [|by apply spec_raise; intros o []].
    eapply spec_mono; [by apply (spec_retry _ (done l u)) | by intros o [] |]. by intros r o [-> Hd].
Qed.

(** What a disposition says of an output. *)
Definition disposed (record : OutputRecoveryRecord) (u : list OutputRecoveryRecord) (d : RecoveryDisposition)
    : list OutputRecoveryRecord :=
  match d with Resume => u | RebuildOutput => record :: u end.

Lemma spec_disposition record l u :
  record ∈ records → spec (done l u) (recovery_disposition config record) (λ d, done l (disposed record u d)).
Proof.
  intros Hin. unfold recovery_disposition. eapply spec_bind; [apply spec_resolve_state|]. intros state. cbn beta.
  assert (Hnot : ∀ o, state ≠ OutputPublished → done l u o ∧ inv o ∧ query_state record (w_db o) = Ok state → done l (record :: u) o).
  { intros o Hs ([Hl Hu] & _ & Hq). split; [done|]. intros r [->|Hr]%elem_of_cons; [|by apply Hu]. split; [done|]. unfold is_published. congruence. }
  assert (Hsub : ∀ o, done l (record :: u) o → done l u o).
  { intros o [Hl Hu]. split; [done|]. intros r Hr. apply Hu. set_solver. }
  assert (Hstaged : ∀ m : option bool → proc RecoveryDisposition, state ≠ OutputPublished →
    (∀ staged, spec (done l (record :: u)) (m (Some staged)) (λ d, done l (disposed record u d))) →
    spec (λ o, done l u o ∧ inv o ∧ query_state record (w_db o) = Ok state)
      ((staged ← staged_output_exists config record; mret (Some staged)) ≫= m) (λ d, done l (disposed record u d))).
  { intros m Hs Hm. eapply spec_mono with (P := done l (record :: u)); [|intros o Ho; by apply Hnot | intros d o Hd; exact Hd].
    eapply (spec_bind _ _ _ _ _ _ _ (λ staged o, done l (record :: u) o ∧ ∃ b, staged = Some b)).
    - eapply spec_bind; [by apply spec_local|]. intros b. apply spec_ret. eauto.
    - intros staged. apply spec_pure. intros [b ->]. apply Hm. }
  destruct state.
  - apply Hstaged; [done|]. intros [|]; cbn [observe]; rewrite bind_lift_Ok; cbv [resolve_action recovery_action map_err]; rewrite bind_lift_Ok; apply spec_ret; intros o _ Ho; cbn; auto.
  - apply Hstaged; [done|]. intros [|]; cbn [observe]; rewrite bind_lift_Ok; cbv [resolve_action recovery_action map_err]; rewrite bind_lift_Ok; [apply spec_ret; intros o _ Ho; cbn; auto|].
    eapply spec_mono; [apply (spec_verify_disposition record l (record :: u)); set_solver | done|]. intros [|] o; cbn; auto.
  - cbn. by apply spec_ret; intros o _ [].
  - by apply spec_ret; intros o _ [].
  - apply spec_ret. intros o _ Ho. by apply Hnot.
Qed.

Lemma spec_select rs : ∀ u,
  (∀ r, r ∈ rs → r ∈ records) →
  spec (done [] u) (select_resumable config rs) (λ resumed o, ∃ rebuilt, done [] (rebuilt ++ u) o ∧ rs ≡ₚ resumed ++ rebuilt).
Proof.
  induction rs as [|record rs IH]; intros u Hrs; cbn [select_resumable].
  { apply spec_ret. intros o _ Hd. by exists []. }
  eapply spec_bind; [apply spec_disposition; set_solver|]. intros d. eapply spec_bind; [apply IH; set_solver|].
  intros resumed. apply spec_ret. intros o _ (rebuilt & Hd & Hp). destruct d; cbn [disposed] in Hd.
  - exists rebuilt. split; [done|]. by rewrite Hp.
  - exists (rebuilt ++ [record]). split; [by rewrite <- app_assoc|]. rewrite Hp, app_assoc. by rewrite Permutation_cons_append.
Qed.

Lemma spec_reconcile resumed l u : spec (done l u) (reconcile resumed) (λ _, done l u).
Proof.
  unfold reconcile. change (OrphanGracePeriod_new ORPHAN_GRACE_SECONDS) with (@Ok PublicationModelError _ ORPHAN_GRACE_SECONDS).
  change (ReconciliationLimit_new RECONCILIATION_ITEMS) with (@Ok PublicationModelError _ RECONCILIATION_ITEMS).
  cbn [map_err]. rewrite !bind_lift_Ok. apply (spec_any (done l u)), spec_loop. eapply spec_bind; [apply spec_db_write; [apply done_stable|]|].
  - intros turn o db' a Hi Hd Hr. pose proof (ok_wf _ (proj1 Hi)) as Hwf.
    assert (He : evolves Abandon (w_db o) db') by (by eapply reconcile_evolves; [apply Hi|]).
    apply reconcile_touches in Hr as Ht; [|done]. destruct (advance_db Abandon o db' _ _ _ ltac:(done) Hi He Ht) as (Hi' & _ & Hd'); [by right; intros []|].
    split; [done|]. apply Hd'; [|done]. intros r _. by apply (unpublished_kept _ _ _ _ (ok_wf _ (ev_ok _ _ _ He)) Ht).
  - intros [x|e]; [by apply spec_ret|]. destruct (unavailable e); [|by apply spec_raise].
    eapply spec_mono; [by apply (spec_retry _ (done l u)) | done|]. by intros r o [-> Hd].
Qed.

(** ** Remembered coverage *)

(** The occurrences that outputs cover, with their multiplicity. *)
Definition entry_positions (entry : BatchPositionCoverage) : list (Z * Z) := pair (bc_batch_id entry) <$> bc_positions entry.
Definition covered_positions (rs : list OutputRecoveryRecord) : list (Z * Z) :=
  rs ≫= λ record, or_coverage record ≫= entry_positions.

(** The map holds the pairs of the list, each of which occurs once. *)
Definition remembers (pairs : list (Z * Z)) (coverage : gmap Z (gset Z)) : Prop :=
  NoDup pairs ∧ ∀ batch position, position ∈ default ∅ (coverage !! batch) ↔ (batch, position) ∈ pairs.

Lemma remember_positions_Ok ps : ∀ s s',
  try_fold remember_position s ps = Ok s' → NoDup ps ∧ (∀ p, p ∈ ps → p ∉ s) ∧ s' = list_to_set ps ∪ s.
Proof.
  induction ps as [|p ps IH]; intros s s' Hf; cbn [try_fold] in Hf.
  { injection Hf as <-. split; [constructor|]. split; set_solver. }
  apply bind_Ok in Hf as (s1 & Hp & Hf). unfold remember_position in Hp. case_bool_decide as Hin; [done|]. injection Hp as <-.
  apply IH in Hf as (Hn & Hd & ->). split; [constructor; [|done]; intros Hp; by apply (Hd p Hp); set_solver|]. split; set_solver.
Qed.

Lemma remember_entry_Ok pairs coverage entry coverage' :
  remember_entry coverage entry = Ok coverage' → remembers pairs coverage → remembers (pairs ++ entry_positions entry) coverage'.
Proof.
  unfold remember_entry, entry_positions. intros (s & Hs & [= <-])%bind_Ok [Hn Hc]. apply remember_positions_Ok in Hs as (Hnd & Hd & ->). split.
  - apply NoDup_app. split; [done|]. split; [|apply NoDup_fmap_2; [intros ? ? [= ?] | ]; done].
    intros [b p] Hbp (p' & [= -> ->] & Hp)%list_elem_of_fmap. apply (Hd _ Hp). by apply Hc.
  - intros b p. rewrite elem_of_app, list_elem_of_fmap, <- Hc. destruct (decide (bc_batch_id entry = b)) as [<-|Hne].
    + rewrite lookup_insert_eq. cbn. rewrite elem_of_union, elem_of_list_to_set. naive_solver.
    + rewrite lookup_insert_ne by done. naive_solver.
Qed.

Lemma remember_coverage_Ok rs coverage record coverage' :
  remember_coverage record coverage = Ok coverage' → remembers (covered_positions rs) coverage →
  remembers (covered_positions (rs ++ [record])) coverage'.
Proof.
  unfold remember_coverage, covered_positions. rewrite bind_app. cbn. rewrite app_nil_r.
  generalize (rs ≫= λ record, or_coverage record ≫= entry_positions). revert coverage.
  induction (or_coverage record) as [|entry entries IH]; intros coverage pairs Hf Hr; cbn [try_fold] in Hf.
  { injection Hf as <-. by rewrite app_nil_r. }
  apply bind_Ok in Hf as (coverage1 & He & Hf). apply (remember_entry_Ok pairs) in He; [|done].
  cbn. rewrite app_assoc. by eapply IH.
Qed.

(** What recovery returns. *)
Definition outputs (recovered : Recovered) : list OutputRecoveryRecord := po_record <$> rc_published recovered.

Lemma spec_publish_all rs u : ∀ recovered,
  (∀ r, r ∈ rs → r ∈ records ∧ r ∉ u) → remembers (covered_positions (outputs recovered)) (rc_coverage recovered) →
  spec (done (outputs recovered) u) (publish_all config rs recovered)
    (λ result o, done (outputs result) u o ∧ outputs result = outputs recovered ++ rs ∧
       remembers (covered_positions (outputs result)) (rc_coverage result)).
Proof.
  induction rs as [|record rs IH]; intros recovered Hrs Hc; cbn [publish_all].
  { apply spec_ret. intros o _ Hd. by rewrite app_nil_r. }
  destruct (Hrs record) as [Hin Hap]; [set_solver|]. eapply spec_bind; [eapply spec_any, spec_publish_record; done|]. intros p. cbn beta.
  eapply spec_mono with (P := λ o, done (record :: outputs recovered) u o ∧ po_record p = record);
    [|by intros o (Hd & Hp & _) | intros x o Hx; exact Hx].
  apply spec_pure. intros Hp. eapply (spec_bind _ _ _ _ _ _ _ (λ coverage o, done (record :: outputs recovered) u o ∧
    remember_coverage record (rc_coverage recovered) = Ok coverage)); [by apply spec_lift|].
  intros coverage. apply spec_pure. intros Hr. set (next := {| rc_published := _ |}).
  assert (Hnext : outputs next = outputs recovered ++ [record]) by (unfold outputs, next; cbn; by rewrite fmap_app, <- Hp).
  eapply spec_mono; [apply (IH next); [set_solver | rewrite Hnext; by eapply remember_coverage_Ok] | |].
  - intros o [Hl Hu]. split; [|done]. rewrite Hnext. intros r Hr'. apply Hl. set_solver.
  - intros result o (Hd & Ho & Hres). split; [done|]. split; [|done]. by rewrite Ho, Hnext, <- app_assoc.
Qed.

End Recovery.

(** ** Theorems *)

(** C4: publishing is safe under interference and interruption. Let the worker publish a
    recorded output while, between any two of its operations, the others run any
    transactions of any store of the metastore, change the object store, the files and the
    catalog; except that they do not record uploads of the worker's outputs, publish them
    or remove their rows, and delete an object of the worker only when its deletion has
    been requested. Let connections be refused or break after a commit, the store fail,
    and the worker be interrupted anywhere. Then at the end the tables satisfy their
    invariant and every recorded upload of the worker whose deletion has not been requested
    is in the store with the length, media type and digest of its descriptor; and when
    [publish_record] returns, its output is published, its object is stored or its deletion
    has been requested, and its staged file is gone. *)
Theorem publish_record_safe record o turns r o' turns' :
  record ∈ records → inv o → Forall interferes turns →
  publish_record config record (o, turns) = (r, (o', turns')) →
  inv o' ∧
  ∀ published, r = Ok published →
    po_record published = record ∧ is_published record o' ∧ secured (object_of record) o' ∧ unstaged record o'.
Proof.
  intros Hin Hi Ht%interferes_tame Hrun. assert (Hap : record ∉ []) by set_solver.
  destruct (wp_run _ _ _ _ _ (spec_publish_record record Hin [] [] Hap (o, turns) (conj Hi Ht) (done_nil o)) Hrun) as [[Hi' _] Hr].
  split; [done|]. intros published ->. destruct Hr as ([Hl _] & Hp & Hu).
  destruct (Hl record) as (_ & Hpub & Hs); [set_solver | done].
Qed.

(** C3: recovery publishes each output once. Under the same interference, let the worker
    recover the records of its log. Whatever happens, every recorded upload whose deletion
    has not been requested is in the store. When it succeeds, the records are split into
    those whose outputs it returns, all published and stored unless their deletion has been
    requested, and those it leaves to be built again from the spool, none of which is
    published; no occurrence of a record is covered by two returned outputs, and the
    coverage it remembers, which keeps those occurrences from being built again, is exactly
    what the returned outputs cover. *)
Theorem recovery_publishes_once o turns r o' turns' :
  NoDup records → inv o → Forall interferes turns →
  recover_outputs config records (o, turns) = (r, (o', turns')) →
  inv o' ∧
  ∀ recovered, r = Ok recovered →
    ∃ rebuilt, records ≡ₚ outputs recovered ++ rebuilt ∧ done (outputs recovered) rebuilt o' ∧
      remembers (covered_positions (outputs recovered)) (rc_coverage recovered).
Proof.
  intros Hnd Hi Ht%interferes_tame Hrun.
  assert (Hspec : Turns.spec tn_others inv rely (λ _, True) (done [] []) (recover_outputs config records) (λ recovered o,
    ∃ rebuilt, records ≡ₚ outputs recovered ++ rebuilt ∧ done (outputs recovered) rebuilt o ∧
      remembers (covered_positions (outputs recovered)) (rc_coverage recovered))).
  { unfold recover_outputs. eapply spec_bind; [by apply spec_select|]. intros resumed.
    intros w Hs (rebuilt & Hd & Hp). rewrite app_nil_r in Hd. revert w Hs Hd.
    change (Turns.spec tn_others inv rely (λ _, True) (done [] rebuilt) (_ ← reconcile resumed; publish_all config resumed
      {| rc_published := []; rc_coverage := ∅ |}) (λ recovered o, ∃ rebuilt, records ≡ₚ outputs recovered ++ rebuilt ∧
      done (outputs recovered) rebuilt o ∧ remembers (covered_positions (outputs recovered)) (rc_coverage recovered))).
    eapply spec_bind; [apply spec_reconcile|]. intros x. eapply spec_mono; [apply (spec_publish_all resumed rebuilt {| rc_published := []; rc_coverage := ∅ |}) | |].
    - rewrite Hp in Hnd. apply NoDup_app in Hnd as (_ & Hd & _). intros r' Hr. split; [rewrite Hp; set_solver | auto].
    - split; [constructor|]. intros b p. cbn. rewrite lookup_empty. set_solver.
    - done.
    - intros recovered o'' (Hd & Ho & Hr). exists rebuilt. split; [by rewrite Ho | done]. }
  destruct (wp_run _ _ _ _ _ (Hspec (o, turns) (conj Hi Ht) (done_nil o)) Hrun) as [[Hi' _] Hr].
  split; [done|]. by intros recovered ->.
Qed.

End Safe.
