(* ===== verification/ProcessorReturns.v ===== *)
(** * elucid-service: publication ends

    [publish_record] loops until its output is published. With a metastore and a store that
    answer, all but a few times, and while nobody moves the output backwards, it returns
    within a number of operations linear in the number of failures. *)

From S2P Require Import Core ErrorCode CatalogTypes CatalogModel CatalogSource Bytes Frame Storage ObjectStore OutputRecovery OutputLog Database Publication MetastoreInvariant MetastoreLifecycle MetastoreSteps Metastore CatalogStore ParquetSegment DeadLetterObject Turns Processor Prelude.

#[local] Open Scope string_scope.
#[local] Open Scope Z_scope.

(** ** Errors of the metastore that are not retried *)

Definition available {A} (r : publication A) : Prop := ∀ e, r = Err e → unavailable e = false.

Lemma available_Ok {A} (a : A) : available (Ok a).
Proof. by intros e. Qed.

Lemma available_Err {A} e : unavailable e = false → available (A := A) (Err e).
Proof. by intros He e' [= <-]. Qed.

Lemma available_bind {A B} (m : publication A) (f : A → publication B) :
  available m → (∀ a, available (f a)) → available (m ≫= f).
Proof. intros Hm Hf. destruct m as [a|e]; cbn; [by apply Hf | intros e' [= <-]; by apply Hm]. Qed.

Lemma available_ok_or {A} (o : option A) e : unavailable e = false → available (ok_or o e).
Proof. destruct o; [intros _; apply available_Ok | apply available_Err]. Qed.

Lemma available_check b e : unavailable e = false → available (check b e).
Proof. destruct b; [intros _; apply available_Ok | apply available_Err]. Qed.

Lemma available_model {A} (r : result PublicationModelError A) : available (map_err from_model r).
Proof. destruct r; [apply available_Ok | by apply available_Err]. Qed.

(** Statements that fail only with a conflict. *)
Definition conflicting {A} (r : sql A) : Prop := ∀ e, r = Err e → is_database_conflict e = true.

Lemma available_write {A} (r : sql A) : conflicting r → available (map_err publication_write r).
Proof.
  intros Hc e He. apply map_err_Err in He as (e' & He & ->). unfold publication_write, unavailable. cbn. by rewrite (Hc _ He).
Qed.

Lemma conflicting_bind {A B} (m : sql A) (f : A → sql B) : conflicting m → (∀ a, conflicting (f a)) → conflicting (m ≫= f).
Proof. intros Hm Hf. destruct m as [a|e]; cbn; [by apply Hf | intros e' [= <-]; by apply Hm]. Qed.

Lemma conflicting_check b e : is_database_conflict e = true → conflicting (check b e).
Proof. destruct b; [by intros _ e' | by intros He e' [= <-]]. Qed.

Lemma conflicting_Ok {A} (a : A) : conflicting (Ok a).
Proof. by intros e. Qed.

Create HintDb available.
#[local] Hint Resolve available_Ok available_model conflicting_Ok : available.
#[local] Hint Extern 1 (available (check _ _)) => by apply available_check : available.
#[local] Hint Extern 1 (available (Err _)) => by apply available_Err : available.
#[local] Hint Extern 1 (available (ok_or _ _)) => by apply available_ok_or : available.
#[local] Hint Extern 1 (conflicting (check _ _)) => by apply conflicting_check : available.

(** Walks down a transaction and its branches. *)
Ltac walk_available :=
  repeat first
    [ progress auto with available
    | apply available_bind; [|intros ?]
    | apply available_write
    | apply conflicting_bind; [|intros ?]
    | match goal with
      | |- available (let '(_, _) := ?x in _) => destruct x
      | |- available (if ?b then _ else _) => destruct b
      | |- available (match ?x with _ => _ end) => destruct x
      | |- conflicting (if ?b then _ else _) => destruct b
      end ].

Section Available.
Context {calendar : Calendar} {postgres : Postgres}.

Lemma conflicting_update_rows {R} (passes : R → bool) p f (t : gmap Z R) : conflicting (update_rows passes p f t).
Proof. unfold update_rows. intros e. repeat case_match; by intros [= <-]. Qed.

Hint Resolve conflicting_update_rows : available.

Lemma available_object_state o : available (object_state o).
Proof. unfold object_state, StoredObjectState_from_database. walk_available. Qed.

Lemma available_segment_state s : available (segment_state s).
Proof. unfold segment_state, SegmentState_from_database. walk_available. Qed.

Hint Resolve available_object_state available_segment_state : available.

Lemma available_object_matches o d owner : available (object_matches_descriptor o d owner).
Proof. unfold object_matches_descriptor. cbv zeta. walk_available. Qed.

Lemma available_segment_matches s d : available (segment_matches_registration s d).
Proof. unfold segment_matches_registration. cbv zeta. walk_available. Qed.

Hint Resolve available_object_matches available_segment_matches : available.

Lemma available_query record db : available (query_state record db).
Proof.
  unfold query_state, ingestion_output_state, dead_letter_output_state, resolved_ingestion_state, resolved_dead_letter_state.
  cbv zeta. walk_available.
Qed.

Lemma available_register record now db : available (register_transaction record now db).
Proof.
  unfold register_transaction, register_ingestion_segment, register_dead_letter, insert_planned_object,
    insert_object_or_nothing, insert_segment_or_nothing, insert_object, insert_segment, validate_registered_ingestion_states.
  cbv zeta. walk_available.
Qed.

Lemma available_upload now d db : available (Publication.record_verified_upload now d db).
Proof.
  unfold Publication.record_verified_upload, object_matches_descriptor_owner_from_key, update_objects, Publication.require_one_row.
  walk_available.
Qed.

Lemma available_publish config record now db : available (publish_transaction config record now db).
Proof.
  unfold publish_transaction, publish_ingestion_segment, publish_dead_letter, validate_ingestion_object_owner,
    validate_dead_letter_owner, update_objects, update_segments, Publication.require_one_row. cbv zeta. walk_available.
Qed.

End Available.

(** ** Progress *)

Section Ranks.
Context {calendar : Calendar} {postgres : Postgres}.

(** How far an output is from publication. *)
Definition state_rank (state : ObjectPublicationState) : Z :=
  match state with
  | OutputUnregistered => 3
  | OutputPlanned => 2
  | OutputUploaded => 1
  | OutputPublished | OutputAbandoned => 0
  end.

Definition rank (record : OutputRecoveryRecord) (db : Database) : Z :=
  match query_state record db with Ok state => state_rank state | Err _ => 0 end.

Lemma rank_bounds record db : 0 ≤ rank record db ≤ 3.
Proof. unfold rank. destruct (query_state record db) as [[]|]; cbn; lia. Qed.

(** The rows behind a state before publication. *)
Lemma query_unfinished record db state :
  query_state record db = Ok state → 0 < state_rank state →
  (match db_objects db !! k_object_id (od_key (output_object (or_output record))) with
   | None => state = OutputUnregistered
   | Some o => state = OutputPlanned ∧ ob_state o = "PLANNED" ∨ state = OutputUploaded ∧ ob_state o = "UPLOADED"
   end) ∧
  (∀ d s, or_output record = SegmentOutput d → db_segments db !! sd_segment_id d = Some s → sg_state s = "PREPARED").
Proof.
  unfold query_state, output_object. destruct (or_output record) as [d|d]; intros Hq Hr.
  - unfold ingestion_output_state in Hq. inv_ok.
    destruct (db_segments db !! sd_segment_id d) as [s|] eqn:Es, (db_objects db !! _) as [o|] eqn:Eo; inv_ok; try done.
    + apply resolved_linked in Hq. destruct Hq as [Hs Ho|Hs Ho| | |]; cbn in Hr; try lia;
        (split; [by auto | intros d' s' [= <-] Hs'; congruence]).
    + split; [done|]. intros d' s' [= <-] Hs'. congruence.
  - unfold dead_letter_output_state in Hq. inv_ok. split; [|by intros d' s' [=]].
    destruct (db_objects db !! _) as [o|] eqn:Eo; inv_ok; [|done].
    unfold resolved_dead_letter_state in Hq. apply bind_Ok in Hq as (st & Hst%object_state_str & [= <-]).
    destruct st; cbn in *; auto; try lia; (destruct (is_null _); cbn in Hr; lia).
Qed.

Lemma register_progress record now db db' outcome :
  register_transaction record now db = Ok (db', outcome) → rank record db' ≤ 2.
Proof.
  intros Hr. assert (Ho : is_Some (db_objects db' !! k_object_id (od_key (output_object (or_output record))))).
  { unfold register_transaction, output_object in *. destruct (or_output record) as [d|d].
    - unfold register_ingestion_segment in Hr. inv_tx. cbv zeta in *.
      match goal with Hi : insert_planned_object _ _ _ _ = _ |- _ =>
        apply insert_planned_object_Ok in Hi as (bs & fv & [[-> Hins]|[-> ->]]) end.
      + unfold insert_object in Hins. inv_ok. repeat (case_match; inv_tx); try done; cbn; apply lookup_insert_is_Some'; auto.
      + repeat (case_match; inv_tx); try done; try (rewrite andb_false_r in *; done); eauto.
    - unfold register_dead_letter in Hr. inv_tx. cbv zeta in *.
      match goal with Hi : insert_planned_object _ _ _ _ = _ |- _ =>
        apply insert_planned_object_Ok in Hi as (bs & fv & [[-> Hins]|[-> ->]]) end.
      + unfold insert_object in Hins. inv_ok. cbn in Hr. inv_ok. cbn. apply lookup_insert_is_Some'; auto.
      + cbn in Hr. inv_ok. eauto. }
  unfold rank. destruct (query_state record db') as [state|] eqn:Hq; [|lia]. destruct state; cbn; try lia.
  apply query_unfinished in Hq as [Hq _]; [|cbn; lia]. destruct Ho as [o Ho]. rewrite Ho in Hq. naive_solver.
Qed.

Lemma upload_progress record now db db' outcome :
  Publication.record_verified_upload now (output_object (or_output record)) db = Ok (db', outcome) → rank record db' ≤ 1.
Proof.
  intros Hr. assert (Ho : ∃ o, db_objects db' !! k_object_id (od_key (output_object (or_output record))) = Some o ∧ ob_state o ≠ "PLANNED").
  { unfold Publication.record_verified_upload in Hr. inv_tx.
    match goal with Hst : object_state _ = Ok ?state |- _ => apply object_state_str in Hst; destruct state end; inv_tx;
      try (eexists; split; [done|]; match goal with Hst : ob_state _ = _ |- _ => by rewrite Hst end).
    match goal with Hu : update_objects _ _ _ = _ |- _ => unfold update_objects in Hu; apply bind_Ok in Hu as ([t m] & Hu & [= <- <-]) end.
    match goal with Hu : update_rows _ _ _ _ = _ |- _ => apply update_rows_Ok in Hu as (_ & -> & _) end.
    cbn. eexists. rewrite lookup_fmap. match goal with Hl : db_objects db !! _ = Some _ |- _ => rewrite Hl end. split; [reflexivity|].
    unfold updated. match goal with Hst : ob_state _ = _ |- _ => rewrite Z.eqb_refl, Hst end. done. }
  destruct Ho as (o & Ho & Hs). unfold rank. destruct (query_state record db') as [state|] eqn:Hq; [|lia].
  destruct state; cbn; try lia; (apply query_unfinished in Hq as [Hq _]; [|cbn; lia]); rewrite Ho in Hq; naive_solver.
Qed.

Lemma publish_progress config record now db db' outcome :
  db_wf db → publish_transaction config record now db = Ok (db', outcome) → rank record db' ≤ 0.
Proof.
  intros Hwf Hp.
  assert (Hdone : ∀ state, query_state record db' = Ok state → 0 < state_rank state → False).
  { intros state Hq Hr. apply query_unfinished in Hq as [Hq1 Hq2]; [|done]. unfold publish_transaction, output_object in *.
    destruct (or_output record) as [d|d].
    - unfold publish_ingestion_segment in Hp. inv_tx. rename a into s.
      match goal with Hss : segment_state s = Ok ?x, Hos : object_state _ = Ok ?y |- _ => destruct x, y; inv_tx; try done end;
        try (specialize (Hq2 d s eq_refl Hok); unfold segment_state, SegmentState_from_database in *; rewrite Hq2 in *; done).
      match goal with Ho : update_objects _ _ _ = _, Hs : update_segments _ _ _ = _ |- _ =>
        apply wf_update_objects in Ho as (Hwf1 & -> & _); [|done | by intros ?? [= <-]];
        apply wf_update_segments in Hs as (Hwf2 & -> & _ & Hf); [|done | by intros ?? (? & _ & [= <-])%bind_Some] end.
      cbn [set_objects db_segments] in Hf. specialize (Hf _ _ Hok).
      assert (Hhit : (sg_id s =? sd_segment_id d) && prepared_ingestion s = true).
      { rewrite (wf_segments_keyed _ Hwf _ _ Hok), Z.eqb_refl. unfold prepared_ingestion.
        match goal with Hss : segment_state s = Ok SPrepared |- _ => rewrite (segment_state_prepared _ Hss) end.
        by match goal with Ho : bool_decide (sc_origin _ = _) = true |- _ => rewrite Ho end. }
      destruct (Hf Hhit) as (s' & Hs' & _). specialize (Hq2 d s' eq_refl). cbn [set_segments set_objects db_segments] in Hq2.
      rewrite lookup_fmap, Hok in Hq2. cbn in Hq2. unfold updated in Hq2. rewrite Hhit, Hs' in Hq2. specialize (Hq2 eq_refl).
      apply bind_Some in Hs' as (t & _ & [= <-]). done.
    - unfold publish_dead_letter in Hp. inv_tx. rename a into o.
      match goal with Hos : object_state o = Ok ?x |- _ => apply object_state_str in Hos; destruct x end; inv_tx; try done;
        try (rewrite Hok in Hq1; destruct Hq1 as [[_ Hs]|[_ Hs]]; match goal with Hos : ob_state o = _ |- _ => by rewrite Hos in Hs end).
      assert (Hc : ∀ o o', mark_dead_letter_published now (pc_dead_letter_retention config) o = Some o' → ob_columns o' = ob_columns o)
        by (by intros ?? (? & _ & [= <-])%bind_Some).
      match goal with Ho : update_objects _ _ _ = _ |- _ => apply wf_update_objects in Ho as (_ & -> & _ & Hf); [|done | apply Hc] end.
      specialize (Hf _ _ Hok).
      assert (Hhit : (ob_id o =? k_object_id (od_key (dd_object d))) && bool_decide (ob_kind o = "DEAD_LETTER") && bool_decide (ob_state o = "UPLOADED") = true).
      { rewrite (wf_objects_keyed _ Hwf _ _ Hok), Z.eqb_refl. unfold validate_dead_letter_owner in *.
        match goal with Hv : (if ?b then _ else _) = Ok _ |- _ => destruct b eqn:Eb; [|done] end. rewrite !andb_true_iff in Eb.
        destruct Eb as [[[Hk _] _] _]. change (ob_kind o) with (oc_kind (ob_columns o)). rewrite Hk. by rewrite bool_decide_true. }
      destruct (Hf Hhit) as (o' & Ho' & _). cbn [set_objects db_objects] in Hq1. rewrite lookup_fmap, Hok in Hq1. cbn in Hq1.
      unfold updated in Hq1. rewrite Hhit, Ho' in Hq1. cbn in Hq1. apply bind_Some in Ho' as (t & _ & [= <-]). cbn in Hq1. naive_solver. }
  unfold rank. destruct (query_state record db') as [state|] eqn:Hq; [|lia]. destruct (decide (0 < state_rank state)) as [Hr|Hr]; [|lia].
  by destruct (Hdone state eq_refl Hr).
Qed.

End Ranks.

(** ** A store that answers *)

(** [reliable]: in such a state the backend answers, and stays so. *)
Class ReliableBackend `{Backend} := {
  reliable : St → Prop;
  reliable_get p options s r s' :
    reliable s → get_opts p options s = (r, s') → reliable s' ∧ (is_ok r = true ∨ r = Err NotFound);
  reliable_put p b attributes s r s' :
    reliable s → put_create p b attributes s = (r, s') → reliable s' ∧ (is_ok r = true ∨ r = Err AlreadyExists);
}.

Section Reliable.
Context {env : SpoolEnv} {backend : Backend} {backend_view : BackendView} {backend_laws : BackendLaws}.
Context {backend_reliable : ReliableBackend}.

(** The failures of an operation on such a store are not transient. *)
Definition steady {A} (r : result StorageError A) : Prop := ∀ e, r = Err e → transient_storage e = false.

Lemma steady_bind {A B} (m : result StorageError A) (f : A → result StorageError B) :
  steady m → (∀ a, steady (f a)) → steady (m ≫= f).
Proof. intros Hm Hf. destruct m as [a|e]; cbn; [by apply Hf | intros e' [= <-]; by apply Hm]. Qed.

Lemma steady_check b message : steady (check b (integrity message)).
Proof. destruct b; by intros e [= <-]. Qed.

Lemma steady_ok_or {A} (o : option A) message : steady (ok_or o (integrity message)).
Proof. destruct o; by intros e [= <-]. Qed.

Lemma verify_metadata_steady d g : steady (verify_metadata d g).
Proof.
  unfold verify_metadata. repeat (apply steady_bind; [apply steady_check || apply steady_ok_or|]; intros ?). apply steady_check.
Qed.

Lemma verify_payload_steady d b : steady (verify_payload d b).
Proof.
  unfold verify_payload. apply steady_bind; [intros e (e' & _ & ->)%map_err_Err; done|]. intros size.
  apply steady_bind; [apply steady_check|]. intros _. apply steady_check.
Qed.

Lemma reliable_probe d kind s r s' : reliable s → probe d kind s = (r, s') → reliable s' ∧ steady r.
Proof.
  unfold probe. intros Hs. destruct (get_opts _ _ s) as [g s1] eqn:E. destruct (reliable_get _ _ _ _ _ Hs E) as [Hs1 [Hg| ->]].
  - destruct g as [g|]; [|done]. intros [(u & Hm & [= <- <-])|(e & He & -> & ->)]%lift_bind_inv; [done|]. split; [done|].
    intros e' [= <-]. by eapply verify_metadata_steady.
  - by intros [= <- <-].
Qed.

Lemma reliable_upload d b limit s r s' : reliable s → upload d b limit s = (r, s') → reliable s' ∧ steady r.
Proof.
  intros Hs. unfold upload. intros [(u & _ & Hu)|(e & He & -> & ->)]%lift_bind_inv.
  2:{ split; [done|]. intros e' [= <-]. unfold enforce_limit, check in He. destruct (_ <=? _); [done|]. by injection He as <-. }
  apply lift_bind_inv in Hu as [([] & Hp & Hu)|(e & He & -> & ->)].
  2:{ split; [done|]. intros e' [= <-]. by eapply verify_payload_steady. }
  apply io_bind_inv in Hu as [(before & s1 & Hb & Hu)|(e & Hb & ->)]; destruct (reliable_probe _ _ _ _ _ Hs Hb) as [Hs1 He];
    [|split; [done|]; intros e' [= <-]; by apply He].
  destruct before; [by injection Hu as <- <-|].
  destruct (put_create _ _ _ s1) as [p s2] eqn:E. destruct (reliable_put _ _ _ _ _ _ Hs1 E) as [Hs2 Hput]. apply put_law in E. cbv zeta in E.
  assert (Hafter : ∀ (m : ObjectVerificationOutcome → result StorageError ObjectUploadOutcome),
    is_ok (m Verified) = true → view s2 !! k_path (od_key d) ≠ None →
    (after ← probe d ObjectVerificationFailed; lift (m after)) s2 = (r, s') → reliable s' ∧ steady r).
  { intros m Hm Hv [(after & s3 & Ha & Hl)|(e & Ha & ->)]%io_bind_inv; destruct (reliable_probe _ _ _ _ _ Hs2 Ha) as [Hs3 Hst];
      [|split; [done|]; intros e' [= <-]; by apply Hst].
    injection Hl as <- <-. split; [done|]. apply probe_spec in Ha as [_ Ha]. destruct after; [|done]. intros e Ee. by rewrite Ee in Hm. }
  destruct p as [[]|[]]; [| by destruct Hput | | by destruct Hput].
  - apply Hafter in Hu; [done | done|]. destruct E as [_ ->]. by rewrite lookup_insert_eq.
  - apply Hafter in Hu; [done | done|]. by destruct E as [E ->].
Qed.

End Reliable.

(** ** Turns as a budget *)

Section Returns.
Context {calendar : Calendar} {postgres : Postgres} {env : SpoolEnv} {uuid : UuidText}.
Context {backend : Backend} {backend_view : BackendView} {backend_laws : BackendLaws} {backend_reliable : ReliableBackend}.
Context {parquet : ParquetLib} {documents : DeadLetterJson}.
Variable config : ProcessorConfig.
Variable record : OutputRecoveryRecord.

(** The turns in which a connection or the store may fail. *)
Variable faulty : Turn → bool.

Definition rank_of (o : Outside) : Z := rank record (w_db o).

(** The others keep the tables sound and do not move the output backwards; a turn that is
    not faulty has a connection and a store that answers. *)
Definition forward (turn : Turn) : Prop :=
  (∀ o, db_ok (w_db o) → db_ok (w_db (tn_others turn o)) ∧ rank_of (tn_others turn o) ≤ rank_of o) ∧
  (faulty turn = false → tn_connection turn = Connected ∧ ∀ o, reliable (w_objects (tn_others turn o))).

Definition faults (turns : list Turn) : Z := Z.of_nat (length (filter (λ turn, faulty turn = true) turns)).

(** Operations of an iteration of the loop. *)
Definition STEP : Z := 6.

(** What is left after paying an iteration for every failure to come. *)
Definition budget (turns : list Turn) : Z := Z.of_nat (length turns) - STEP * faults turns.

Definition has (n k : Z) (l : nat) (w : World Turn Outside) : Prop :=
  Forall forward w.2 ∧ db_ok (w_db w.1) ∧ rank_of w.1 ≤ k ∧ n ≤ budget w.2 ∧ (length w.2 ≤ l)%nat.

Lemma has_mono n n' k k' l l' w : has n k l w → n' ≤ n → k ≤ k' → (l ≤ l')%nat → has n' k' l' w.
Proof. unfold has. intros (? & ? & ? & ? & ?) ? ? ?. split_and!; [done | done | lia..]. Qed.

Lemma has_length n k l w : has n k l w → 1 ≤ n → (1 ≤ l)%nat.
Proof. intros (_ & _ & _ & Hb & Hl) Hn. unfold budget, faults, STEP in Hb. lia. Qed.

Lemma wp_turn {A} (f : Turn → Outside → A * Outside) n k l w (Q : result (Stop IngestionProcessingError) A → World Turn Outside → Prop) :
  has n k l w → 1 ≤ n →
  (∀ turn o turns n',
     (faulty turn = false → tn_connection turn = Connected ∧ reliable (w_objects o)) → db_ok (w_db o) → rank_of o ≤ k →
     n' = n - 1 + (if faulty turn then STEP else 0) →
     (∀ o' k', db_ok (w_db o') → rank_of o' ≤ k' → has n' k' (pred l) (o', turns)) →
     Q (Ok (f turn o).1) ((f turn o).2, turns)) →
  wp (call f) w Q.
Proof.
  intros (Hf & Hok & Hr & Hb & Hl) Hn HQ. destruct w as [o turns]. cbn in *. apply wp_await.
  destruct turns as [|turn turns]; [unfold budget, faults, STEP in Hb; cbn in Hb; lia|].
  apply Forall_cons in Hf as [[Ho Hc] Hf]. destruct (Ho o Hok) as [Hok' Hr'].
  specialize (HQ turn (tn_others turn o) turns _ ltac:(intros Ht; destruct (Hc Ht); auto) Hok' ltac:(lia) eq_refl).
  destruct (f turn (tn_others turn o)) as [a o'] eqn:E. apply HQ. intros o'' k' Hok'' Hk'. split_and!; [done | done | done | | cbn in *; lia].
  unfold budget, faults, STEP in *. cbn [length snd] in *. rewrite filter_cons in Hb. destruct (faulty turn) eqn:Et.
  - rewrite decide_True in Hb by done. cbn [length] in Hb. lia.
  - rewrite decide_False in Hb by done. lia.
Qed.

(** A run that was not interrupted. *)
Definition returns {A} (Q : A → World Turn Outside → Prop) (r : result (Stop IngestionProcessingError) A) (w : World Turn Outside) : Prop :=
  match r with Ok a => Q a w | Err (Failed _) => True | Err Interrupted => False end.

(** A call whose failures are values. *)
Definition answers {A} (Q : A → World Turn Outside → Prop) (r : result (Stop IngestionProcessingError) A) (w : World Turn Outside) : Prop :=
  match r with Ok a => Q a w | Err _ => False end.

Lemma answers_returns {A} (m : proc A) w (Q : A → World Turn Outside → Prop) : wp m w (answers Q) → wp m w (returns Q).
Proof. intros Hm. eapply wp_mono; [exact Hm|]. by intros [a|e] w'. Qed.

Lemma returns_bind {A B} (m : proc A) (f : A → proc B) w (P : A → World Turn Outside → Prop) Q :
  wp m w (returns P) → (∀ a w', P a w' → wp (f a) w' (returns Q)) → wp (m ≫= f) w (returns Q).
Proof. intros Hm Hf. apply wp_bind. eapply wp_mono; [exact Hm|]. intros [a|[e|]] w' Hr; [by apply Hf | done | done]. Qed.

Lemma returns_mono {A} (m : proc A) w (P Q : A → World Turn Outside → Prop) :
  wp m w (returns P) → (∀ a w', P a w' → Q a w') → wp m w (returns Q).
Proof. intros Hm HPQ. eapply wp_mono; [exact Hm|]. intros [a|[e|]] w' Hr; [by apply HPQ | done | done]. Qed.

Lemma returns_lift {A} (r : result IngestionProcessingError A) w (Q : A → World Turn Outside → Prop) :
  (∀ a, r = Ok a → Q a w) → wp (lift_result r) w (returns Q).
Proof. intros HQ. apply wp_lift. destruct r; [by apply HQ | done]. Qed.

(** A failure that is retried happens in a faulty turn. *)

Lemma returns_write {A} (transaction : Turn → Database → publication (Database * A)) n k k' l w :
  has n k l w → 1 ≤ n → k' ≤ k →
  (∀ turn db, available (transaction turn db)) →
  (∀ turn db db' a, db_ok db → transaction turn db = Ok (db', a) → db_ok db' ∧ rank record db' ≤ k') →
  wp (db_write transaction) w (answers (λ r w',
    match r with
    | Ok _ => has (n - 1) k' (pred l) w'
    | Err e => unavailable e = true → has (n - 1 + STEP) k (pred l) w'
    end)).
Proof.
  intros Hh Hn Hk Hav Htx. eapply wp_turn; [done | done|]. intros turn o turns n' Hcalm Hok Hr Hn' Hhas.
  specialize (Hav turn (w_db o)). specialize (Htx turn (w_db o)). unfold answers.
  destruct (tn_connection turn) eqn:Ec.
  - destruct (transaction turn (w_db o)) as [[db' a]|e] eqn:E; cbn.
    + destruct (Htx db' a Hok eq_refl) as [Hok' Hr']. eapply has_mono; [apply (Hhas (set_db db' o) k' Hok' Hr') | | lia | lia].
      subst n'. unfold STEP. destruct (faulty turn); lia.
    + intros Hu. by rewrite (Hav e eq_refl) in Hu.
  - cbn. intros _. eapply has_mono; [apply (Hhas o k Hok Hr) | | lia | lia]. destruct (faulty turn) eqn:Et; [lia|].
    by destruct (Hcalm eq_refl) as [? _].
  - assert (Hf : n' = n - 1 + STEP) by (destruct (faulty turn) eqn:Et; [done | by destruct (Hcalm eq_refl) as [? _]]).
    destruct (transaction turn (w_db o)) as [[db' a]|e] eqn:E; cbn.
    + intros _. destruct (Htx db' a Hok eq_refl) as [Hok' Hr']. eapply has_mono; [apply (Hhas (set_db db' o) k' Hok' Hr') | lia | lia | lia].
    + intros Hu. by rewrite (Hav e eq_refl) in Hu.
Qed.

Lemma returns_state n k l w :
  has n k l w → 1 ≤ n →
  wp (attempt (output_state record)) w (returns (λ r w',
    match r with
    | Ok state => state_rank state ≤ k ∧ has (n - 1) (state_rank state) (pred l) w'
    | Err e => transient_publication e = true → has (n - 1 + STEP) k (pred l) w'
    end)).
Proof.
  intros Hh Hn. apply wp_attempt. unfold output_state, db_read. apply wp_bind. eapply wp_turn; [done | done|].
  intros turn o turns n' Hcalm Hok Hr Hn' Hhas. cbn [fst snd]. apply wp_lift. unfold returns.
  destruct (tn_connection turn) eqn:Ec; cbn.
  - destruct (query_state record (w_db o)) as [state|e] eqn:Eq; cbn.
    + assert (Hst : rank_of o = state_rank state) by (unfold rank_of, rank; by rewrite Eq). split; [lia|].
      eapply has_mono; [apply (Hhas o (state_rank state) Hok); lia | | lia | lia]. subst n'. unfold STEP. destruct (faulty turn); lia.
    + intros Hu. by rewrite (available_query _ _ _ Eq) in Hu.
  - intros _. eapply has_mono; [apply (Hhas o k Hok Hr) | | lia | lia]. destruct (faulty turn) eqn:Et; [lia|]. by destruct (Hcalm eq_refl).
  - intros _. eapply has_mono; [apply (Hhas o k Hok Hr) | | lia | lia]. destruct (faulty turn) eqn:Et; [lia|]. by destruct (Hcalm eq_refl).
Qed.

(** A turn that changes neither the tables nor the result of the others. *)
Lemma returns_keep {A} (f : Turn → Outside → A * Outside) n k l w :
  has n k l w → 1 ≤ n → (∀ turn o, w_db (f turn o).2 = w_db o) →
  wp (call f) w (returns (λ _, has (n - 1) k (pred l))).
Proof.
  intros Hh Hn Hf. eapply wp_turn; [done | done|]. intros turn o turns n' _ Hok Hr Hn' Hhas. cbn.
  eapply has_mono; [apply (Hhas (f turn o).2 k); [by rewrite Hf | unfold rank_of; by rewrite Hf] | | lia | lia].
  subst n'. unfold STEP. destruct (faulty turn); lia.
Qed.

Lemma returns_local {A} (f : Turn → Outside → result IngestionProcessingError A) n k l w :
  has n k l w → 1 ≤ n → wp (local f) w (returns (λ _, has (n - 1) k (pred l))).
Proof. intros Hh Hn. eapply returns_bind; [by apply (returns_keep _ n k l)|]. intros r w' Hw'. by apply returns_lift. Qed.

Lemma returns_object {A} (m : io A) n k l w :
  has n k l w → 1 ≤ n → (∀ s r s', reliable s → m s = (r, s') → steady r) →
  wp (object_call m) w (returns (λ r w',
    match r with
    | Ok _ => has (n - 1) k (pred l) w'
    | Err e => transient_storage e = true → has (n - 1 + STEP) k (pred l) w'
    end)).
Proof.
  intros Hh Hn Hm. eapply wp_turn; [done | done|]. intros turn o turns n' Hcalm Hok Hr Hn' Hhas.
  destruct (m (w_objects o)) as [r s'] eqn:E. cbn. destruct r as [a|e].
  - eapply has_mono; [apply (Hhas (set_store s' o) k Hok Hr) | | lia | lia]. subst n'. unfold STEP. destruct (faulty turn); lia.
  - intros Ht. eapply has_mono; [apply (Hhas (set_store s' o) k Hok Hr) | | lia | lia]. destruct (faulty turn) eqn:Et; [lia|].
    destruct (Hcalm eq_refl) as [_ Hs]. by rewrite (Hm _ _ _ Hs E e eq_refl) in Ht.
Qed.

Lemma returns_retry {A} n k l w :
  has n k l w → 1 ≤ n → wp (retry (A := A)) w (returns (λ r w', r = None ∧ has (n - 1) k (pred l) w')).
Proof.
  intros Hh Hn. unfold retry, retry_delay. eapply (returns_bind _ _ _ (λ _, has (n - 1) k (pred l))).
  - eapply returns_bind; [by apply (returns_keep _ n k l)|]. intros [|] w' Hw'; [by apply wp_raise | by apply wp_ret].
  - intros _ w' Hw'. by apply wp_ret.
Qed.

Lemma has_self n k l w : has n k l w → has n k (length w.2) w.
Proof. unfold has. intros (? & ? & ? & ? & ?). auto. Qed.

Lemma has_shorter n k l w : has n k l w → 1 ≤ n → ∀ n' k' w', has n' k' (pred (length w.2)) w' → (length w'.2 < length w.2)%nat.
Proof.
  intros (_ & _ & _ & Hb & _) Hn n' k' w' (_ & _ & _ & _ & Hl). unfold budget, faults, STEP in Hb. lia.
Qed.

Lemma returns_record_upload n k l w :
  has n k l w → 1 ≤ n → 1 ≤ k → wp (record_verified_upload record) w (returns (λ _, has (n - 1) 1 (pred l))).
Proof.
  intros Hh Hn Hk. apply (wp_loop_total (has n k l)); [|done]. intros w0 H0.
  eapply (wp_mono _ _ (returns (λ r w', match r with Some _ => has (n - 1) 1 (pred l) w' | None => has n k (pred (length w0.2)) w' end))).
  - eapply returns_bind.
    { apply answers_returns, (returns_write _ n k 1 (length w0.2)); [by eapply has_self | done | done | intros; apply available_upload |].
      intros turn db db' a Hok Hr. split; [by eapply ev_ok, record_verified_upload_evolves | by eapply upload_progress]. }
    pose proof (has_length _ _ _ _ H0 Hn) as Hl. assert (Hl0 : (length w0.2 ≤ l)%nat) by apply H0.
    intros [a|e] w' Hw'; [apply wp_ret; cbn; eapply has_mono; [exact Hw' | lia..]|].
    destruct (unavailable e); [|by apply wp_raise]. eapply returns_mono; [by apply (returns_retry (n - 1 + STEP) k (pred (length w0.2))); [auto | unfold STEP; lia]|].
    intros r w'' [-> Hw'']. eapply has_mono; [exact Hw'' | unfold STEP; lia | lia | lia].
  - intros [[a|]|[e|]] w' Hr; [done | | done | done]. cbn in Hr. split.
    + eapply has_mono; [exact Hr | lia | lia |]. assert (length w0.2 ≤ l)%nat by apply H0. lia.
    + by eapply has_shorter.
Qed.

(** After an operation that started with [c + 1] operations to spare on rank [k]: either the
    output moved on, or the failure of a faulty turn is paid back. *)
Definition continues (k : Z) (l : nat) (w : World Turn Outside) : Prop :=
  ∃ k', 0 ≤ k' ≤ k ∧ has (STEP * (k' + 1)) k' l w.

Lemma continues_mono k k' l l' w : continues k l w → k ≤ k' → (l ≤ l')%nat → continues k' l' w.
Proof. intros (k0 & Hk & Hh) ? ?. exists k0. split; [lia|]. eapply has_mono; [exact Hh | lia..]. Qed.

Lemma continues_lower k k' l w n : has n k' l w → STEP * k ≤ n → 0 ≤ k' < k → continues k l w.
Proof. intros Hh Hn Hk. exists k'. split; [lia|]. eapply has_mono; [exact Hh | unfold STEP in *; lia | lia | lia]. Qed.

Lemma returns_again {A} k l w n :
  has n k l w → STEP * (k + 1) + 1 ≤ n → 0 ≤ k → wp (retry (A := A)) w (returns (λ r w', r = None ∧ continues k l w')).
Proof.
  intros Hh Hn Hk. eapply returns_mono; [apply (returns_retry n k l); [done | unfold STEP in *; lia]|].
  intros r w' [-> Hw']. split; [done|]. exists k. split; [lia|]. eapply has_mono; [exact Hw' | lia..].
Qed.

(** What an iteration returns. *)
Definition iterated (k : Z) (l : nat) (r : option PublishedOutput) (w : World Turn Outside) : Prop :=
  match r with Some _ => True | None => continues k l w end.

Lemma returns_iterated k l w n :
  has n k l w → STEP * (k + 1) + 1 ≤ n → 0 ≤ k → wp retry w (returns (iterated k l)).
Proof. intros Hh Hn Hk. eapply returns_mono; [by eapply returns_again|]. by intros r w' [-> Hc]. Qed.

Lemma returns_recorded k l w n :
  has n k l w → STEP * k + 1 ≤ n → 2 ≤ k → wp (_ ← record_verified_upload record; mret None) w (returns (iterated k l)).
Proof.
  intros Hh Hn Hk. eapply returns_bind; [apply (returns_record_upload n k l); [done | unfold STEP in *; lia | lia]|].
  intros x w' Hw'. apply wp_ret. cbn. apply (continues_lower _ 1 _ _ (n - 1)); [eapply has_mono; [exact Hw' | lia..] | lia | lia].
Qed.

Lemma returns_continue (m : proc unit) k k' l w n :
  has n k l w → 0 ≤ k' < k → STEP * k ≤ n - 1 →
  wp m w (λ r w', match r with
                  | Ok _ => has (n - 1) k' (pred l) w'
                  | Err (Failed e) => transient_publication e = true → has (n - 1 + STEP) k (pred l) w'
                  | Err Interrupted => False
                  end) →
  2 + STEP * k ≤ n → wp (continue_after m) w (returns (iterated k l)).
Proof.
  intros Hh Hk Hn Hm Hn2. unfold continue_after. apply wp_bind, wp_attempt. eapply wp_mono; [exact Hm|].
  intros [x|[e|]] w' Hr; cbn; [| |done].
  - apply (continues_lower _ k' _ _ (n - 1)); [eapply has_mono; [exact Hr | lia..] | lia | lia].
  - destruct (transient_publication e); [|by apply wp_raise]. apply (returns_iterated k l w' (n - 1 + STEP)); [eapply has_mono; [by apply Hr | lia | lia | lia] | unfold STEP in *; lia | lia].
Qed.

Lemma returns_register k l w n :
  has n k l w → 1 ≤ n → 2 ≤ k →
  wp (register_output record) w (λ r w', match r with
    | Ok _ => has (n - 1) 2 (pred l) w'
    | Err (Failed e) => transient_publication e = true → has (n - 1 + STEP) k (pred l) w'
    | Err Interrupted => False
    end).
Proof.
  intros Hh Hn Hk. unfold register_output. apply wp_bind. eapply wp_mono.
  { apply (returns_write _ n k 2 l); [done | done | done | intros; apply available_register|].
    intros turn db db' a Hok Hr. split; [|by eapply register_progress]. unfold register_transaction in Hr.
    destruct (or_output record); [by eapply ev_ok, register_ingestion_segment_evolves | by eapply ev_ok, register_dead_letter_evolves]. }
  intros [[a|e]|[e|]] w' Hr; [exact Hr | exact Hr | done | done].
Qed.

Lemma returns_publish k l w n :
  has n k l w → 1 ≤ n → 0 ≤ k →
  wp (publish_output config record) w (λ r w', match r with
    | Ok _ => has (n - 1) 0 (pred l) w'
    | Err (Failed e) => transient_publication e = true → has (n - 1 + STEP) k (pred l) w'
    | Err Interrupted => False
    end).
Proof.
  intros Hh Hn Hk. unfold publish_output. apply wp_bind. eapply wp_mono.
  { apply (returns_write _ n k 0 l); [done | done | done | intros; apply available_publish|].
    intros turn db db' a Hok Hr. split; [|by eapply publish_progress; [apply ok_wf|]]. unfold publish_transaction in Hr.
    destruct (or_output record); [by eapply ev_ok, publish_ingestion_segment_evolves | by eapply ev_ok, publish_dead_letter_evolves]. }
  intros [[a|e]|[e|]] w' Hr; [exact Hr | exact Hr | done | done].
Qed.

Lemma returns_read_staged k l w n :
  has n k l w → 2 ≤ n → wp (read_staged_output config record) w (returns (λ _, has (n - 2) k l)).
Proof.
  intros Hh Hn. unfold read_staged_output, read_staged. destruct (or_output record).
  - eapply returns_bind; [by apply (returns_local _ n k l); [|lia]|]. intros staged w1 H1.
    eapply (returns_bind _ _ _ (λ _, has (n - 1) k (pred l))); [by apply returns_lift|]. intros x w2 H2.
    eapply returns_mono; [by apply (returns_local _ (n - 1) k (pred l)); [|lia]|]. intros b w3 H3. eapply has_mono; [exact H3 | lia..].
  - eapply returns_bind; [by apply (returns_local _ n k l); [|lia]|]. intros b w1 H1.
    eapply (returns_bind _ _ _ (λ _, has (n - 1) k (pred l))); [by apply returns_lift|]. intros x w2 H2.
    apply wp_ret. cbn. eapply has_mono; [exact H2 | lia..].
Qed.

Lemma returns_storage_error e k l w n :
  (transient_storage e = true → has n k l w) → STEP * (k + 1) + 1 ≤ n → 0 ≤ k →
  wp (if transient_storage e then retry else raise (ProcessingStorage e)) w (returns (iterated k l)).
Proof. intros Hh Hn Hk. destruct (transient_storage e); [eapply returns_iterated; [by apply Hh | done | done] | by apply wp_raise]. Qed.

Lemma returns_planned l w :
  has (STEP * 2 + 5) 2 l w → wp (publish_planned config record) w (returns (iterated 2 l)).
Proof.
  unfold STEP. intros Hh. unfold publish_planned. eapply returns_bind; [by apply (returns_local _ 17 2 l)|].
  intros staged w1 H1. cbn in H1. destruct staged; cbn [negb].
  - eapply returns_bind; [by apply (returns_read_staged 2 (pred l) w1 16); [|lia]|]. intros b w2 H2. cbn in H2.
    eapply returns_bind; [apply (returns_object _ 14 2 (pred l)); [done | lia | intros s r s' Hs Hu; by eapply reliable_upload]|].
    intros [outcome|e] w3 H3; cbn in H3.
    + apply (returns_recorded 2 l w3 13); [eapply has_mono; [exact H3 | lia..] | done | done].
    + apply (returns_storage_error e 2 l w3 19); [intros Ht; eapply has_mono; [by apply H3 | unfold STEP; lia | lia | lia] | unfold STEP; lia | lia].
  - eapply returns_bind; [apply (returns_object _ 16 2 (pred l)); [done | lia | intros s r s' Hs Hu; by eapply reliable_probe]|].
    intros [[|]|e] w3 H3; cbn in H3.
    + apply (returns_recorded 2 l w3 13); [eapply has_mono; [exact H3 | lia..] | done | done].
    + by apply wp_raise.
    + apply (returns_storage_error e 2 l w3 19); [intros Ht; eapply has_mono; [by apply H3 | unfold STEP; lia | lia | lia] | unfold STEP; lia | lia].
Qed.

Lemma returns_step k l w :
  has (STEP * (k + 1)) k l w → 0 ≤ k → wp (publish_step config record) w (returns (iterated k (pred l))).
Proof.
  intros Hh Hk. unfold publish_step. eapply returns_bind; [apply (returns_state (STEP * (k + 1)) k l); [done | unfold STEP; lia]|].
  intros [state|e] w1 H1.
  - destruct H1 as [Hs H1].
    assert (H2 : has (STEP * state_rank state + 5) (state_rank state) (pred l) w1)
      by (eapply has_mono; [exact H1 | unfold STEP; lia | lia | lia]). clear H1.
    eapply (returns_mono _ _ (iterated (state_rank state) (pred l)));
      [|intros [p|] w' Hw'; [done | cbn in *; eapply continues_mono; [exact Hw' | lia | lia]]].
    destruct state; cbn [state_rank] in *.
    + eapply returns_bind; [apply (returns_local _ 23 3 (pred l)); [exact H2 | lia]|]. intros staged w2 H3. cbn in H3.
      destruct staged; cbn [negb]; [|by apply wp_raise].
      assert (H4 : has 22 3 (pred l) w2) by (eapply has_mono; [exact H3 | lia..]).
      apply (returns_continue _ 3 2 (pred l) w2 22); [done | lia | unfold STEP; lia | by apply returns_register | unfold STEP; lia].
    + by apply returns_planned.
    + apply (returns_continue _ 1 0 (pred l) w1 11); [done | lia | unfold STEP; lia | by apply returns_publish | unfold STEP; lia].
    + eapply (returns_bind _ _ _ (λ _, has 5 0 (pred l))); [by apply returns_lift; intros; exact H2|]. intros p w2 H3.
      eapply (returns_bind _ _ _ (λ _ _, True)); [|intros x w' _; by apply wp_ret].
      unfold remove_staged_output. eapply returns_bind; [apply (returns_keep _ 5 0 (pred l)); [exact H3 | lia|]|].
      * intros turn o. destruct (staged_output_path _ _ _); [|done]. by destruct (ff_remove _).
      * intros r w' _. by apply returns_lift.
    + by apply wp_raise.
  - destruct (transient_publication e); [|by apply wp_raise].
    eapply returns_iterated; [by apply H1 | unfold STEP; lia | done].
Qed.

(** C5: publication ends. Let every turn keep the tables sound and never move the output
    backwards, and let all turns but those marked faulty have a connection and a store that
    answers. If the schedule has 24 turns, and 6 more for every faulty turn, then
    [publish_record] is not interrupted before it returns a published output or an error
    that is not retried: it stops after a number of operations linear in the number of
    failures, whichever calls they hit and whether or not the transactions they hit were
    committed. *)
Theorem publish_record_returns o turns :
  db_ok (w_db o) → Forall forward turns → STEP * (4 + faults turns) ≤ Z.of_nat (length turns) →
  ∃ r w', publish_record config record (o, turns) = (r, w') ∧ r ≠ Err Interrupted.
Proof.
  intros Hok Hf Hlen. destruct (publish_record config record (o, turns)) as [r w'] eqn:E. exists r, w'. split; [done|].
  assert (Hw : wp (publish_record config record) (o, turns) (returns (λ _ _, True))).
  { apply (wp_loop_total (λ w, ∃ k, 0 ≤ k ∧ has (STEP * (k + 1)) k (length w.2) w)).
    - intros w0 (k & Hk & Hh). eapply wp_mono; [by apply (returns_step k (length w0.2))|].
      intros [[p|]|[e|]] w1 Hr; [done | | done | done]. destruct Hr as (k' & Hk' & Hh'). split.
      + exists k'. split; [lia|]. by eapply has_self.
      + eapply has_shorter; [exact Hh | unfold STEP; lia | exact Hh'].
    - exists 3. split; [lia|]. split_and!; [done | done | apply rank_bounds | cbn [snd]; unfold budget, STEP in *; lia | done]. }
  intros ->. apply (wp_run _ _ _ _ _ Hw) in E. done.
Qed.

End Returns.
