(* ===== verification/ProcessorSamples.v ===== *)
(** * The publisher: concrete runs

    A dead letter that is staged and recorded is published over a connection that refuses a
    call and loses the answer to another, and is recovered after a restart. *)

From S2P Require Import Core ErrorCode CatalogTypes CatalogModel CatalogSource Bytes Frame Storage ObjectStore OutputRecovery OutputLog Database Publication MetastoreInvariant MetastoreLifecycle MetastoreSteps Metastore MetastoreSamples CatalogStore ParquetSegment DeadLetterObject StagingSamples Turns Processor ProcessorFacts ProcessorSafe ProcessorReturns Prelude.

#[local] Open Scope string_scope.
#[local] Open Scope list_scope.
#[local] Open Scope Z_scope.

#[local] Existing Instance sample_calendar.
#[local] Existing Instance sample_postgres.
#[local] Existing Instance sample_uuid_text.
#[local] Existing Instance sample_paths.
#[local] Existing Instance sample_backend.
#[local] Existing Instance sample_view.
#[local] Existing Instance sample_backend_laws.
#[local] Existing Instance staging_parquet.
#[local] Existing Instance rejected_json.

#[local] Instance sample_reliable : ReliableBackend.
Proof.
  refine {| reliable := λ _, True |}.
  - intros p options s r s' _. cbn. intros [= <- <-]. split; [done|]. case_match; [left | by right]. by destruct (default _ _).
  - intros p b attributes s r s' _. cbn. case_match; intros [= <- <-]; (split; [done|]); [by right | by left].
Defined.

(** ** The output *)

Definition letters : bytes := ascii_bytes "{}" ++ ["010"%char].

Definition letters_object : ObjectDescriptor :=
  {| od_key := @dead_letter_key sample_uuid_text sample_paths {| root_path := "elucid" |} (sample_uuid 1) (sample_uuid 3);
     od_expected_byte_size := 3; od_digest := blake3 letters; od_media_type := DeadLetterMedia; od_format_version := 1 |}.

Definition letters_record : OutputRecoveryRecord :=
  {| or_id := sample_uuid 4; or_revision := 1;
     or_output := DeadLetterOutput {| dd_input_id := sample_uuid 10; dd_batch_id := sample_uuid 1; dd_object := letters_object |};
     or_coverage := [{| bc_batch_id := sample_uuid 1; bc_spool_range := {| range_start := 0; range_end := 100 |}; bc_positions := [5] |}] |}.

Definition publisher_config : ProcessorConfig :=
  {| pc_scratch_path := "scratch"; pc_event_retention := 3600; pc_dead_letter_retention := 3600; pc_transfer_limit := 100 |}.

(** ** The environment *)

Definition started : Outside :=
  {| w_db := {| db_schemas := ∅; db_inputs := {[ sample_uuid 10 ]}; db_runs := ∅; db_segments := ∅; db_objects := ∅ |};
     w_catalog := []; w_objects := (∅ : @St sample_backend);
     w_files := {[ dead_letter_staging_path "scratch" letters_object := letters ]} |}.

Definition no_faults : FileFaults := {| ff_exists := false; ff_validate := (false, false); ff_read := None; ff_remove := false |}.

(** Another writer of the object store. *)
Definition other_writer (o : Outside) : Outside :=
  set_store (<["elsewhere" := {| so_bytes := []; so_attributes := {| at_content_type := None; at_digest := None |} |}]> (w_objects o : gmap string StoredObject)) o.

Definition turn_at (now : Z) (connection : Connection) : Turn :=
  {| tn_others := other_writer; tn_now := now; tn_connection := connection; tn_locked := (∅, ∅); tn_files := no_faults; tn_cancelled := false |}.

(** The first call is refused, and the answer to a later one is lost. *)
Definition schedule : list Turn :=
  [turn_at 1000 Refused; turn_at 2000 Connected; turn_at 3000 Connected; turn_at 4000 Connected; turn_at 5000 AnswerLost] ++
  replicate 35 (turn_at 6000 Connected).

Lemma schedule_all (P : Turn → Prop) : (∀ now connection, P (turn_at now connection)) → Forall P schedule.
Proof. intros HP. apply Forall_app. split; [by repeat constructor | apply Forall_replicate, HP]. Qed.

Lemma started_ok : db_ok (w_db started).
Proof.
  apply reachable_ok. eapply reachable_step; [apply rtc_refl|].
  apply (step_catalog empty_database ∅ {[ sample_uuid 10 ]}); [done | set_solver|]. by intros i ->%elem_of_singleton.
Qed.

Lemma started_inv : inv [letters_record] started.
Proof. split; [apply started_ok|]. intros record _ (o & Ho & _). cbn in Ho. by rewrite lookup_empty in Ho. Qed.

Lemma schedule_interferes : Forall (interferes [letters_record]) schedule.
Proof.
  apply schedule_all. intros now connection o _. apply rtc_once, others_objects. intros record object Hin Ho. left.
  apply list_elem_of_singleton in Hin as ->. change (view ?s) with (s : gmap string StoredObject). rewrite lookup_insert_ne; [exact Ho|].
  vm_compute. discriminate.
Qed.

Lemma alone : identified [letters_record].
Proof. intros r1 r2 ->%list_elem_of_singleton ->%list_elem_of_singleton _. reflexivity. Qed.

(** The result of a run, without the state. *)
Definition completed {A} (r : result (Stop IngestionProcessingError) A * World Turn Outside) : bool := is_ok r.1.

Lemma publish_record_safe_witness :
  ∃ published o' turns', publish_record publisher_config letters_record (started, schedule) = (Ok published, (o', turns')) ∧
    is_published letters_record o' ∧ secured letters_object o'.
Proof.
  assert (Hc : completed (publish_record publisher_config letters_record (started, schedule)) = true) by (vm_compute; reflexivity).
  destruct (publish_record publisher_config letters_record (started, schedule)) as [r [o' turns']] eqn:E.
  destruct r as [published|]; [|discriminate Hc]. exists published, o', turns'. split; [reflexivity|].
  destruct (publish_record_safe publisher_config [letters_record] alone letters_record started schedule _ _ _
    (list_elem_of_here _ _) started_inv schedule_interferes E) as [_ Hp].
  destruct (Hp published eq_refl) as (_ & Hpub & Hs & _). split; [exact Hpub | exact Hs].
Defined.

Lemma recovery_publishes_once_witness :
  ∃ recovered o' turns', recover_outputs publisher_config [letters_record] (started, schedule) = (Ok recovered, (o', turns')) ∧
    ∃ rebuilt, [letters_record] ≡ₚ outputs recovered ++ rebuilt ∧
      remembers (covered_positions (outputs recovered)) (rc_coverage recovered).
Proof.
  assert (Hc : completed (recover_outputs publisher_config [letters_record] (started, schedule)) = true) by (vm_compute; reflexivity).
  destruct (recover_outputs publisher_config [letters_record] (started, schedule)) as [r [o' turns']] eqn:E.
  destruct r as [recovered|]; [|discriminate Hc]. exists recovered, o', turns'. split; [reflexivity|].
  destruct (recovery_publishes_once publisher_config [letters_record] alone started schedule _ _ _
    (NoDup_singleton _) started_inv schedule_interferes E) as [_ Hr].
  destruct (Hr recovered eq_refl) as (rebuilt & Hp & _ & Hc'). exists rebuilt. split; [exact Hp | exact Hc'].
Defined.

(** The turns without a connection. *)
Definition disconnected (turn : Turn) : bool := match tn_connection turn with Connected => false | _ => true end.

Lemma publish_record_returns_witness :
  faults disconnected schedule = 2 ∧
  ∃ r w', publish_record publisher_config letters_record (started, schedule) = (r, w') ∧ r ≠ Err Interrupted.
Proof.
  split; [vm_compute; reflexivity|].
  apply (publish_record_returns publisher_config letters_record disconnected started schedule started_ok).
  - apply schedule_all. intros now connection. split; [intros o Hok; split; [exact Hok | reflexivity]|].
    unfold disconnected. cbn. destruct connection; [|discriminate|discriminate]. intros _. split; [reflexivity | done].
  - vm_compute. discriminate.
Defined.
