(* ===== verification/CompactionWorker.v ===== *)
(** * elucid-compaction: the worker

    Models src/elucid/elucid-compaction/src: the limits of a build (limits.rs), its errors
    (error.rs), and the worker (worker.rs) that reads the claimed segments with one cursor
    each, merges their rows by a heap into outputs of bounded size, stages, registers and
    uploads them.

    Each asynchronous call is one operation of [Turns], made within the deadline of the
    build: a call that the deadline stops may still take effect. The streams that the
    parquet crate reads from the object store, the identities and the clock are parameters.
    A heap is the list of its entries; all of them differ. *)

From S2P Require Import Core ErrorCode CatalogTypes CatalogModel CatalogSource Bytes Frame Storage ObjectStore Database Publication CatalogStore Query Arrow ParquetSegment Turns Processor Compaction CompactionLifecycle Prelude.
Import Schema.

#[local] Open Scope string_scope.
#[local] Open Scope list_scope.
#[local] Open Scope Z_scope.

(** ** Errors *)

(** An error of the parquet crate: for each cause, outermost first, the error of the object
    store that it is, if it is one. *)
Record ParquetError := { pq_causes : list (option BackendError) }.

Inductive CompactionErrorKind := KindInputInvalid | KindBuildFailed | KindNotBeneficial.

#[export] Instance CompactionErrorKind_eq_dec : EqDecision CompactionErrorKind.
Proof. solve_decision. Defined.

(** [SourcePanic] is a panic of Arrow, not a value of the code. *)
Inductive CompactionErrorSource :=
| SourceStagedRead (e : StagedObjectReadError)
| SourceStorage (e : StorageError)
| SourceStorageModel (e : StorageModelError)
| SourceParquet (e : ParquetError)
| SourceArrow
| SourceMetadata (e : CompactionMetadataError)
| SourceMetadataModel (e : CompactionModelError)
| SourcePublication (e : PublicationError)
| SourceIo (operation : string)
| SourceCleanup (kind : CompactionErrorKind) (original : CompactionErrorSource)
| SourceInvariant (message : string)
| SourcePanic.

Record CompactionError := { bx_kind : CompactionErrorKind; bx_source : CompactionErrorSource }.

Notation build := (result CompactionError).

Definition failure_reason (kind : CompactionErrorKind) : CompactionFailureReason :=
  match kind with
  | KindInputInvalid => InputInvalid
  | KindBuildFailed => BuildFailed
  | KindNotBeneficial => NotBeneficial
  end.

Definition CompactionError_code (e : CompactionError) : ErrorCode :=
  match bx_kind e with
  | KindInputInvalid => CompactionInputInvalid
  | KindBuildFailed => CompactionBuildFailed
  | KindNotBeneficial => CompactionNotBeneficial
  end.

Definition input_error (message : string) : CompactionError :=
  {| bx_kind := KindInputInvalid; bx_source := SourceInvariant message |}.
Definition build_error (message : string) : CompactionError :=
  {| bx_kind := KindBuildFailed; bx_source := SourceInvariant message |}.
Definition not_beneficial (message : string) : CompactionError :=
  {| bx_kind := KindNotBeneficial; bx_source := SourceInvariant message |}.
Definition panicked : CompactionError := {| bx_kind := KindBuildFailed; bx_source := SourcePanic |}.

Definition storage_error (source : StorageError) : CompactionError :=
  {| bx_kind := match se_kind source with
                | ObjectIntegrityError | ParquetInvalid => KindInputInvalid
                | _ => KindBuildFailed
                end;
     bx_source := SourceStorage source |}.

Definition staged_read_error (source : StagedObjectReadError) : CompactionError :=
  {| bx_kind := KindBuildFailed; bx_source := SourceStagedRead source |}.
Definition output_storage (source : StorageError) : CompactionError :=
  {| bx_kind := KindBuildFailed; bx_source := SourceStorage source |}.
Definition input_storage_model (source : StorageModelError) : CompactionError :=
  {| bx_kind := KindInputInvalid; bx_source := SourceStorageModel source |}.
Definition output_storage_model (source : StorageModelError) : CompactionError :=
  {| bx_kind := KindBuildFailed; bx_source := SourceStorageModel source |}.
Definition metadata_model (source : CompactionModelError) : CompactionError :=
  {| bx_kind := KindBuildFailed; bx_source := SourceMetadataModel source |}.

Fixpoint parquet_failure_kind (causes : list (option BackendError)) : CompactionErrorKind :=
  match causes with
  | [] => KindInputInvalid
  | Some NotFound :: _ => KindInputInvalid
  | Some _ :: _ => KindBuildFailed
  | None :: causes => parquet_failure_kind causes
  end.

Definition parquet_input (source : ParquetError) : CompactionError :=
  {| bx_kind := parquet_failure_kind (pq_causes source); bx_source := SourceParquet source |}.

Definition arrow_error : CompactionError := {| bx_kind := KindBuildFailed; bx_source := SourceArrow |}.
Definition metadata_error (source : CompactionMetadataError) : CompactionError :=
  {| bx_kind := KindBuildFailed; bx_source := SourceMetadata source |}.
Definition publication_error (source : PublicationError) : CompactionError :=
  {| bx_kind := KindBuildFailed; bx_source := SourcePublication source |}.
Definition io_error (operation : string) : CompactionError :=
  {| bx_kind := KindBuildFailed; bx_source := SourceIo operation |}.
Definition timeout_error : CompactionError := build_error "compaction run exceeded its duration limit".
Definition cleanup_failure (e : CompactionError) : CompactionError :=
  {| bx_kind := KindBuildFailed; bx_source := SourceCleanup (bx_kind e) (bx_source e) |}.

(** ** Limits *)

Definition MAXIMUM_BUILD_INPUT_SEGMENTS : Z := 1000.

Record CompactionBuildLimits := {
  bl_maximum_input_segments : Z;
  bl_maximum_input_rows : Z;
  bl_maximum_input_parquet_bytes : Z;
  bl_maximum_input_uncompressed_bytes : Z;
  bl_reader_batch_rows : Z;
  bl_target_output_rows : Z;
  bl_target_output_uncompressed_bytes : Z;
  bl_maximum_output_parquet_bytes : Z;
  bl_maximum_staging_bytes : Z;
  bl_maximum_duration : Z;
}.

Inductive CompactionBuildModelError :=
| InputSegmentLimitOutOfRange (maximum : Z) | ByteAndRowLimitsMustBePositive | ReaderBatchRowsOutOfRange (maximum : Z)
| OutputTargetExceedsInputLimit | OutputObjectExceedsStagingLimit | OutputRowTargetOutOfRange | MaximumDurationInvalid.

(** [addable]: the duration can be added to the present instant. *)
Definition CompactionBuildLimits_new (addable : bool) (c : CompactionBuildLimits)
    : result CompactionBuildModelError CompactionBuildLimits :=
  if (bl_maximum_input_segments c <? 2) || (bl_maximum_input_segments c >? MAXIMUM_BUILD_INPUT_SEGMENTS)
  then Err (InputSegmentLimitOutOfRange MAXIMUM_BUILD_INPUT_SEGMENTS)
  else if (bl_maximum_input_rows c =? 0) || (bl_maximum_input_parquet_bytes c =? 0)
       || (bl_maximum_input_uncompressed_bytes c =? 0) || (bl_target_output_rows c =? 0)
       || (bl_target_output_uncompressed_bytes c =? 0) || (bl_maximum_output_parquet_bytes c =? 0)
       || (bl_maximum_staging_bytes c =? 0)
  then Err ByteAndRowLimitsMustBePositive
  else
  maximum_reader_batch_rows ← ok_or (narrow U64 PARQUET_MAX_ROW_GROUP_ROWS) (ReaderBatchRowsOutOfRange (int_max U64));
  if (bl_reader_batch_rows c =? 0) || (bl_reader_batch_rows c >? maximum_reader_batch_rows)
  then Err (ReaderBatchRowsOutOfRange maximum_reader_batch_rows)
  else if (bl_target_output_rows c >? bl_maximum_input_rows c)
       || (bl_target_output_uncompressed_bytes c >? bl_maximum_input_uncompressed_bytes c)
  then Err OutputTargetExceedsInputLimit
  else if bl_maximum_output_parquet_bytes c >? bl_maximum_staging_bytes c then Err OutputObjectExceedsStagingLimit
  else if (bl_maximum_duration c =? 0) || negb addable then Err MaximumDurationInvalid
  else
  _ ← ok_or (narrow U64 (bl_maximum_input_segments c)) (InputSegmentLimitOutOfRange MAXIMUM_BUILD_INPUT_SEGMENTS);
  _ ← ok_or (narrow U64 (bl_reader_batch_rows c)) (ReaderBatchRowsOutOfRange maximum_reader_batch_rows);
  _ ← ok_or (narrow U64 (bl_target_output_rows c)) OutputRowTargetOutOfRange;
  Ok c.

(** ** Arrays *)

Definition array_map (f : ∀ A, list A → list A) (a : ArrowArray) : ArrowArray :=
  match a with
  | BooleanArray vs => BooleanArray (f _ vs)
  | Int32Array vs => Int32Array (f _ vs)
  | Int64Array vs => Int64Array (f _ vs)
  | UInt32Array vs => UInt32Array (f _ vs)
  | UInt64Array vs => UInt64Array (f _ vs)
  | Float32Array vs => Float32Array (f _ vs)
  | Float64Array vs => Float64Array (f _ vs)
  | StringArray vs => StringArray (f _ vs)
  | TimestampMillisecondArray timezone vs => TimestampMillisecondArray timezone (f _ vs)
  | FixedSizeBinaryArray width vs => FixedSizeBinaryArray width (f _ vs)
  end.

Definition array_slice (a : ArrowArray) (start len : nat) : ArrowArray :=
  array_map (λ _ vs, take len (drop start vs)) a.

Definition array_append (a b : ArrowArray) : option ArrowArray :=
  match a, b with
  | BooleanArray vs, BooleanArray ws => Some (BooleanArray (vs ++ ws))
  | Int32Array vs, Int32Array ws => Some (Int32Array (vs ++ ws))
  | Int64Array vs, Int64Array ws => Some (Int64Array (vs ++ ws))
  | UInt32Array vs, UInt32Array ws => Some (UInt32Array (vs ++ ws))
  | UInt64Array vs, UInt64Array ws => Some (UInt64Array (vs ++ ws))
  | Float32Array vs, Float32Array ws => Some (Float32Array (vs ++ ws))
  | Float64Array vs, Float64Array ws => Some (Float64Array (vs ++ ws))
  | StringArray vs, StringArray ws => Some (StringArray (vs ++ ws))
  | TimestampMillisecondArray tz vs, TimestampMillisecondArray tz' ws =>
      if decide (tz = tz') then Some (TimestampMillisecondArray tz (vs ++ ws)) else None
  | FixedSizeBinaryArray width vs, FixedSizeBinaryArray width' ws =>
      if decide (width = width') then Some (FixedSizeBinaryArray width (vs ++ ws)) else None
  | _, _ => None
  end.

(** [MutableArrayData::new], [extend] and [freeze]: no source, sources of different types and
    ranges outside of a source are panics. *)
Definition mutable_array_extend (sources : list ArrowArray) (output : option ArrowArray) (selection : nat * nat)
    : option ArrowArray :=
  let '(source_index, row_index) := selection in
  output ← output;
  source ← sources !! source_index;
  if (row_index <? array_len source)%nat then array_append output (array_slice source row_index 1) else None.

Definition mutable_array (sources : list ArrowArray) (selections : list (nat * nat)) : option ArrowArray :=
  match sources with
  | [] => None
  | first :: _ =>
      if forallb (λ a, bool_decide (array_data_type a = array_data_type first)) sources
      then foldl (mutable_array_extend sources) (Some (array_slice first 0 0)) selections
      else None
  end.

(** ** The columns of a batch *)

Definition INGESTION_TIME_ORDINAL : nat := 1.

(** A column index outside of a batch is a panic. *)
Definition time_column (ordinal : nat) (message : string) (batch : RecordBatch) : build (list (option Z)) :=
  column ← ok_or (rb_columns batch !! ordinal) panicked;
  match column with TimestampMillisecondArray _ values => Ok values | _ => Err (input_error message) end.

Definition event_times : RecordBatch → build (list (option Z)) :=
  time_column EVENT_TIME_ORDINAL "compaction event-time column has an invalid type".

Definition ingestion_times : RecordBatch → build (list (option Z)) :=
  time_column INGESTION_TIME_ORDINAL "compaction ingestion-time column has an invalid type".

Definition event_ids (batch : RecordBatch) : build (list (option (list Z))) :=
  column ← ok_or (rb_columns batch !! EVENT_ID_ORDINAL) panicked;
  match column with
  | FixedSizeBinaryArray _ values => Ok values
  | _ => Err (input_error "compaction event-id column has an invalid type")
  end.

(** [value(index)]: an index outside of the array is a panic. *)
Definition time_at (values : list (option Z)) (index : nat) : build Z :=
  value ← ok_or (values !! index) panicked; Ok (time_value value).

(** [EventId::try_from] of the value. *)
Definition event_id_at (values : list (option (list Z))) (index : nat) : build EventId.t :=
  value ← ok_or (values !! index) panicked;
  _ ← check (length (id_value value) =? 16)%nat (input_error "event identity is not 16 bytes");
  Ok (id_value value).

Record RowKey := { rk_event_time : Z; rk_event_id : EventId.t }.

#[export] Instance RowKey_eq_dec : EqDecision RowKey.
Proof. solve_decision. Defined.

Definition row_key_compare (a b : RowKey) : comparison :=
  match rk_event_time a ?= rk_event_time b with
  | Eq => EventId.compare (rk_event_id a) (rk_event_id b)
  | c => c
  end.

Definition row_key (batch : RecordBatch) (index : nat) : build RowKey :=
  times ← event_times batch;
  ids ← event_ids batch;
  _ ← check (index <? num_rows batch)%nat (input_error "compaction input cursor is outside its batch");
  event_time ← time_at times index;
  event_id ← event_id_at ids index;
  Ok {| rk_event_time := event_time; rk_event_id := event_id |}.

(** ** Parameters: chrono and the streams of the parquet crate *)

(** [and_hms_opt(0, 0, 0)], [and_utc] and [timestamp_millis] of a date *)
Class DayStart `{Calendar} := midnight_millis : NaiveDate → Z.

(** Reading an object of the given key and size in batches of the given number of rows. *)
Class ParquetStream `{Backend} := {
  (** [ParquetRecordBatchStreamBuilder::new] *)
  stream_open : string → Z → St → result ParquetError ParquetMetadata * St;
  (** [build] *)
  stream_build : string → Z → Z → St → option ParquetError;
  (** [next], after a number of batches *)
  stream_next : string → Z → Z → nat → St → option (result ParquetError RecordBatch) * St;
}.

Section Cursors.
Context {calendar : Calendar} {query_calendar : QueryCalendar} {postgres : Postgres} {day_start : DayStart}.
Context {env : SpoolEnv} {uuid : UuidText} {backend : Backend} {parquet : ParquetLib} {arrow : ArrowLib}.

Definition event_day_bounds (event_day : NaiveDate) : build (Z * Z) :=
  let start := midnight_millis event_day in
  end_ ← ok_or (checked_add I64 start 86400000) (input_error "compaction event day overflows UTC");
  Ok (start, end_).

Definition timestamp (value : option Z) : build DateTime :=
  ok_or (value ≫= from_timestamp_millis) (build_error "compaction output timestamp is invalid").

(** ** Cursors *)

(** The stream is its position: the number of batches that have been read. *)
Record InputCursor := {
  ic_input : CompactionInputSegment;
  ic_stream : nat;
  ic_batch : option RecordBatch;
  ic_row_index : nat;
  ic_batch_generation : Z;
  ic_rows_loaded : Z;
  ic_rows_emitted : Z;
  ic_minimum_event_time : option Z;
  ic_maximum_event_time : option Z;
  ic_minimum_ingestion_time : option Z;
  ic_maximum_ingestion_time : option Z;
  ic_last_loaded_key : option RowKey;
}.

Definition InputCursor_new (input : CompactionInputSegment) : InputCursor :=
  {| ic_input := input; ic_stream := 0; ic_batch := None; ic_row_index := 0; ic_batch_generation := 0;
     ic_rows_loaded := 0; ic_rows_emitted := 0; ic_minimum_event_time := None; ic_maximum_event_time := None;
     ic_minimum_ingestion_time := None; ic_maximum_ingestion_time := None; ic_last_loaded_key := None |}.

Definition ic_registered_rows (c : InputCursor) : Z := ci_rows (ic_input c).

Definition opt_min (o : option Z) (z : Z) : option Z := Some (from_option (λ m, Z.min m z) z o).
Definition opt_max (o : option Z) (z : Z) : option Z := Some (from_option (λ m, Z.max m z) z o).

(** One round of the loop over the rows of a batch. *)
Definition observe_row (bounds : Z * Z) (times ingestion : list (option Z)) (ids : list (option (list Z)))
    (c : InputCursor) (index : nat) : build InputCursor :=
  event_time ← time_at times index;
  _ ← check (negb ((event_time <? bounds.1) || (event_time >=? bounds.2)))
        (input_error "compaction input rows cross their UTC event day");
  event_id ← event_id_at ids index;
  let key := {| rk_event_time := event_time; rk_event_id := event_id |} in
  _ ← check (negb (from_option (λ previous, bool_decide (row_key_compare previous key = Gt)) false (ic_last_loaded_key c)))
        (input_error "compaction input rows are not ordered");
  ingestion_time ← time_at ingestion index;
  Ok {| ic_input := ic_input c; ic_stream := ic_stream c; ic_batch := ic_batch c; ic_row_index := ic_row_index c;
        ic_batch_generation := ic_batch_generation c; ic_rows_loaded := ic_rows_loaded c;
        ic_rows_emitted := ic_rows_emitted c;
        ic_minimum_event_time := opt_min (ic_minimum_event_time c) event_time;
        ic_maximum_event_time := opt_max (ic_maximum_event_time c) event_time;
        ic_minimum_ingestion_time := opt_min (ic_minimum_ingestion_time c) ingestion_time;
        ic_maximum_ingestion_time := opt_max (ic_maximum_ingestion_time c) ingestion_time;
        ic_last_loaded_key := Some key |}.

Definition set_rows_loaded (c : InputCursor) (rows_loaded : Z) : InputCursor :=
  {| ic_input := ic_input c; ic_stream := ic_stream c; ic_batch := ic_batch c; ic_row_index := ic_row_index c;
     ic_batch_generation := ic_batch_generation c; ic_rows_loaded := rows_loaded; ic_rows_emitted := ic_rows_emitted c;
     ic_minimum_event_time := ic_minimum_event_time c; ic_maximum_event_time := ic_maximum_event_time c;
     ic_minimum_ingestion_time := ic_minimum_ingestion_time c; ic_maximum_ingestion_time := ic_maximum_ingestion_time c;
     ic_last_loaded_key := ic_last_loaded_key c |}.

Definition validate_batch (c : InputCursor) (batch : RecordBatch) (schema : Schema) (event_day : NaiveDate)
    : build InputCursor :=
  _ ← check (negb ((num_rows batch =? 0)%nat || bool_decide (rb_fields batch ≠ arrow_schema schema)))
        (input_error "compaction input batch has an invalid schema or row count");
  _ ← check (forallb (λ x, af_nullable x.1 || (null_count x.2 =? 0)%nat) (zip (rb_fields batch) (rb_columns batch)))
        (input_error "compaction input has nulls in a non-null field");
  times ← event_times batch;
  ingestion ← ingestion_times batch;
  ids ← event_ids batch;
  _ ← check ((length times =? num_rows batch)%nat && (length ingestion =? num_rows batch)%nat
             && (length ids =? num_rows batch)%nat)
        (input_error "compaction system columns have inconsistent lengths");
  bounds ← event_day_bounds event_day;
  c ← try_fold (observe_row bounds times ingestion ids) c (seq 0 (num_rows batch));
  rows ← ok_or (narrow U64 (Z.of_nat (num_rows batch))) (input_error "input batch row count overflowed");
  rows_loaded ← ok_or (checked_add U64 (ic_rows_loaded c) rows) (input_error "compaction input row count overflowed");
  _ ← check (rows_loaded <=? ic_registered_rows c) (input_error "compaction input contains more rows than registered");
  Ok (set_rows_loaded c rows_loaded).

Definition validate_complete (c : InputCursor) : build unit :=
  let times := sd_times (ci_descriptor (ic_input c)) in
  check ((ic_rows_loaded c =? ic_registered_rows c) && (ic_rows_emitted c =? ic_registered_rows c)
         && bool_decide (ic_minimum_event_time c = Some (instant_millis (minimum_event_time times)))
         && bool_decide (ic_maximum_event_time c = Some (instant_millis (maximum_event_time times)))
         && bool_decide (ic_minimum_ingestion_time c = Some (instant_millis (minimum_ingestion_time times)))
         && bool_decide (ic_maximum_ingestion_time c = Some (instant_millis (maximum_ingestion_time times))))
    (input_error "compaction input rows contradict registered counts or time bounds").

Definition estimated_row_bytes (c : InputCursor) : build Z :=
  let registered := ic_registered_rows c in
  _ ← check (ic_rows_emitted c <? registered) (input_error "compaction input row estimate is past the registered count");
  let total := Z.max (ci_uncompressed_bytes (ic_input c)) registered in
  Ok (total / registered + (if ic_rows_emitted c <? total mod registered then 1 else 0)).

Definition current_key (c : InputCursor) : build RowKey :=
  batch ← ok_or (ic_batch c) (input_error "compaction input cursor is exhausted");
  row_key batch (ic_row_index c).

Record SelectedRow := {
  sl_input_index : nat;
  sl_batch_generation : Z;
  sl_batch : RecordBatch;
  sl_row_index : nat;
  sl_key : RowKey;
  sl_event_time : Z;
  sl_ingestion_time : Z;
  sl_estimated_uncompressed_bytes : Z;
}.

Definition selected_row (c : InputCursor) (input_index : nat) : build SelectedRow :=
  batch ← ok_or (ic_batch c) (input_error "compaction input cursor is exhausted");
  times ← event_times batch;
  ingestion ← ingestion_times batch;
  estimated ← estimated_row_bytes c;
  key ← row_key batch (ic_row_index c);
  event_time ← time_at times (ic_row_index c);
  ingestion_time ← time_at ingestion (ic_row_index c);
  Ok {| sl_input_index := input_index; sl_batch_generation := ic_batch_generation c; sl_batch := batch;
        sl_row_index := ic_row_index c; sl_key := key; sl_event_time := event_time;
        sl_ingestion_time := ingestion_time; sl_estimated_uncompressed_bytes := estimated |}.

(** The cursor after a batch, and at the end of the stream. *)
Definition with_batch (c : InputCursor) (generation : Z) (batch : RecordBatch) : InputCursor :=
  {| ic_input := ic_input c; ic_stream := S (ic_stream c); ic_batch := Some batch; ic_row_index := 0;
     ic_batch_generation := generation; ic_rows_loaded := ic_rows_loaded c; ic_rows_emitted := ic_rows_emitted c;
     ic_minimum_event_time := ic_minimum_event_time c; ic_maximum_event_time := ic_maximum_event_time c;
     ic_minimum_ingestion_time := ic_minimum_ingestion_time c; ic_maximum_ingestion_time := ic_maximum_ingestion_time c;
     ic_last_loaded_key := ic_last_loaded_key c |}.

Definition without_batch (c : InputCursor) : InputCursor :=
  {| ic_input := ic_input c; ic_stream := ic_stream c; ic_batch := None; ic_row_index := ic_row_index c;
     ic_batch_generation := ic_batch_generation c; ic_rows_loaded := ic_rows_loaded c; ic_rows_emitted := ic_rows_emitted c;
     ic_minimum_event_time := ic_minimum_event_time c; ic_maximum_event_time := ic_maximum_event_time c;
     ic_minimum_ingestion_time := ic_minimum_ingestion_time c; ic_maximum_ingestion_time := ic_maximum_ingestion_time c;
     ic_last_loaded_key := ic_last_loaded_key c |}.

(** What [load_next_batch] does with the answer of the stream. *)
Definition take_batch (c : InputCursor) (schema : Schema) (event_day : NaiveDate)
    (next : option (result ParquetError RecordBatch)) : build (InputCursor * bool) :=
  match next with
  | Some (Ok batch) =>
      c ← validate_batch c batch schema event_day;
      generation ← ok_or (checked_add U64 (ic_batch_generation c) 1)
                     (input_error "compaction input batch generation overflowed");
      Ok (with_batch c generation batch, true)
  | Some (Err source) => Err (parquet_input source)
  | None =>
      let c := without_batch c in
      _ ← validate_complete c;
      Ok (c, false)
  end.

(** [advance] up to the next batch: the cursor and whether a row of the batch is left. *)
Definition next_row (c : InputCursor) : build (InputCursor * bool) :=
  rows_emitted ← ok_or (checked_add U64 (ic_rows_emitted c) 1) (input_error "compaction input row count overflowed");
  row_index ← ok_or (narrow U64 (Z.of_nat (S (ic_row_index c)))) (input_error "compaction cursor index overflowed");
  batch ← ok_or (ic_batch c) (input_error "compaction input cursor is exhausted");
  let c := {| ic_input := ic_input c; ic_stream := ic_stream c; ic_batch := ic_batch c; ic_row_index := Z.to_nat row_index;
     ic_batch_generation := ic_batch_generation c; ic_rows_loaded := ic_rows_loaded c; ic_rows_emitted := rows_emitted;
     ic_minimum_event_time := ic_minimum_event_time c; ic_maximum_event_time := ic_maximum_event_time c;
     ic_minimum_ingestion_time := ic_minimum_ingestion_time c; ic_maximum_ingestion_time := ic_maximum_ingestion_time c;
     ic_last_loaded_key := ic_last_loaded_key c |} in
  Ok (c, (ic_row_index c <? num_rows batch)%nat).

(** ** The heap *)

Record HeapEntry := { he_key : RowKey; he_input_index : nat }.

#[export] Instance HeapEntry_eq_dec : EqDecision HeapEntry.
Proof. solve_decision. Defined.

Definition heap_entry_compare (a b : HeapEntry) : comparison :=
  match row_key_compare (he_key a) (he_key b) with
  | Eq => (he_input_index a ?= he_input_index b)%nat
  | c => c
  end.

(** [peek] of a heap of [Reverse] entries: a least one. *)
Fixpoint heap_peek (heap : list HeapEntry) : option HeapEntry :=
  match heap with
  | [] => None
  | e :: heap =>
      match heap_peek heap with
      | Some least => Some (match heap_entry_compare least e with Lt => least | _ => e end)
      | None => Some e
      end
  end.

Definition heap_push (e : HeapEntry) (heap : list HeapEntry) : list HeapEntry := e :: heap.

Definition heap_pop (heap : list HeapEntry) : list HeapEntry :=
  match heap_peek heap with
  | Some least => filter (λ e, e ≠ least) heap
  | None => heap
  end.

(** ** Outputs *)

Record OutputAccumulator := {
  oa_event_day : NaiveDate;
  oa_target_rows : Z;
  oa_target_uncompressed_bytes : Z;
  oa_source_batches : list RecordBatch;
  oa_source_indexes : gmap (nat * Z) nat;
  oa_selections : list (nat * nat);
  oa_estimated_uncompressed_bytes : Z;
  oa_minimum_event_time : option Z;
  oa_maximum_event_time : option Z;
  oa_minimum_ingestion_time : option Z;
  oa_maximum_ingestion_time : option Z;
}.

Definition OutputAccumulator_new (event_day : NaiveDate) (target_rows target_uncompressed_bytes : Z) : OutputAccumulator :=
  {| oa_event_day := event_day; oa_target_rows := target_rows; oa_target_uncompressed_bytes := target_uncompressed_bytes;
     oa_source_batches := []; oa_source_indexes := ∅; oa_selections := []; oa_estimated_uncompressed_bytes := 0;
     oa_minimum_event_time := None; oa_maximum_event_time := None; oa_minimum_ingestion_time := None;
     oa_maximum_ingestion_time := None |}.

Definition can_accept (a : OutputAccumulator) (estimated_bytes : Z) : build bool :=
  _ ← check (negb ((estimated_bytes =? 0) || (estimated_bytes >? oa_target_uncompressed_bytes a)))
        (input_error "one compaction row exceeds the output byte target");
  if (length (oa_selections a) =? 0)%nat then Ok true
  else
  projected ← ok_or (checked_add U64 (oa_estimated_uncompressed_bytes a) estimated_bytes)
                (build_error "compaction output byte estimate overflowed");
  Ok ((Z.of_nat (length (oa_selections a)) <? oa_target_rows a) && (projected <=? oa_target_uncompressed_bytes a)).

Definition append_selected (a : OutputAccumulator) (row : SelectedRow) : build OutputAccumulator :=
  let key := (sl_input_index row, sl_batch_generation row) in
  let '(source_index, source_batches, source_indexes) :=
    match oa_source_indexes a !! key with
    | Some index => (index, oa_source_batches a, oa_source_indexes a)
    | None =>
        let index := length (oa_source_batches a) in
        (index, oa_source_batches a ++ [sl_batch row], <[key := index]> (oa_source_indexes a))
    end in
  estimated ← ok_or (checked_add U64 (oa_estimated_uncompressed_bytes a) (sl_estimated_uncompressed_bytes row))
                (build_error "compaction output byte estimate overflowed");
  Ok {| oa_event_day := oa_event_day a; oa_target_rows := oa_target_rows a;
        oa_target_uncompressed_bytes := oa_target_uncompressed_bytes a; oa_source_batches := source_batches;
        oa_source_indexes := source_indexes; oa_selections := oa_selections a ++ [(source_index, sl_row_index row)];
        oa_estimated_uncompressed_bytes := estimated;
        oa_minimum_event_time := opt_min (oa_minimum_event_time a) (sl_event_time row);
        oa_maximum_event_time := opt_max (oa_maximum_event_time a) (sl_event_time row);
        oa_minimum_ingestion_time := opt_min (oa_minimum_ingestion_time a) (sl_ingestion_time row);
        oa_maximum_ingestion_time := opt_max (oa_maximum_ingestion_time a) (sl_ingestion_time row) |}.

Record OutputBatch := { ob_batch : RecordBatch; ob_times : SegmentTimes; ob_estimated_uncompressed_bytes : Z }.

(** One column of the output; [column(index)] outside of a batch is a panic. *)
Definition output_column (a : OutputAccumulator) (column_index : nat) : build ArrowArray :=
  sources ← try_map (λ batch, ok_or (rb_columns batch !! column_index) panicked) (oa_source_batches a);
  _ ← try_map (λ selection : nat * nat, ok_or (narrow U64 (Z.of_nat (S selection.2)))
                 (build_error "compaction row selection overflowed")) (oa_selections a);
  ok_or (mutable_array sources (oa_selections a)) panicked.

Definition finish_output (a : OutputAccumulator) (schema : Schema) : build OutputBatch :=
  _ ← check (negb ((length (oa_selections a) =? 0)%nat || (length (oa_source_batches a) =? 0)%nat))
        (build_error "compaction attempted to materialize an empty output");
  columns ← try_map (output_column a) (seq 0 (length (arrow_schema schema)));
  batch ← ok_or (record_batch_try_new (arrow_schema schema) columns) arrow_error;
  minimum_event_time ← timestamp (oa_minimum_event_time a);
  maximum_event_time ← timestamp (oa_maximum_event_time a);
  minimum_ingestion_time ← timestamp (oa_minimum_ingestion_time a);
  maximum_ingestion_time ← timestamp (oa_maximum_ingestion_time a);
  times ← map_err (λ _, build_error "compaction output time bounds are invalid")
    (SegmentTimes_new (oa_event_day a) minimum_event_time maximum_event_time minimum_ingestion_time maximum_ingestion_time);
  Ok {| ob_batch := batch; ob_times := times; ob_estimated_uncompressed_bytes := oa_estimated_uncompressed_bytes a |}.

(** ** Claims *)

Definition total_of (f : CompactionInputSegment → Z) (message : string) (inputs : list CompactionInputSegment) : build Z :=
  try_fold (λ total input, ok_or (checked_add U64 total (f input)) (input_error message)) 0 inputs.

Definition maximum_expiration (inputs : list CompactionInputSegment) : option DateTime :=
  match inputs with
  | [] => None
  | first :: rest => Some (foldl (λ latest input, datetime_max latest (ci_data_expires_at input)) (ci_data_expires_at first) rest)
  end.

Definition validate_claim (claim : CompactionRunClaim) (limits : CompactionBuildLimits) : build unit :=
  let inputs := rc_inputs claim in
  if (length inputs <? 2)%nat || (Z.of_nat (length inputs) >? bl_maximum_input_segments limits)
  then Err (input_error "compaction claim has an invalid input segment count")
  else if negb (s_source_id (rc_schema claim) =? rc_source_id claim)
       || existsb (λ input, negb (bool_decide (event_day (sd_times (ci_descriptor input)) = rc_event_day claim))
                            || negb (bool_decide (k_owner (od_key (sd_object (ci_descriptor input)))
                                                  = SegmentOwner (sd_segment_id (ci_descriptor input))))) inputs
  then Err (input_error "compaction claim is not homogeneous or has invalid object ownership")
  else
  input_segments ← ok_or (narrow U64 (Z.of_nat (length inputs))) (input_error "compaction input count overflowed");
  rows ← total_of ci_rows "compaction input row total overflowed" inputs;
  parquet_bytes ← total_of ci_parquet_bytes "compaction input byte total overflowed" inputs;
  uncompressed_bytes ← total_of ci_uncompressed_bytes "compaction input uncompressed total overflowed" inputs;
  maximum_deadline ← ok_or (maximum_expiration inputs) (input_error "compaction claim has no retention deadline");
  target_output_rows ← ok_or (narrow U64 (bl_target_output_rows limits)) (build_error "compaction output row target overflowed");
  if existsb (λ input, (ci_rows input >=? target_output_rows)
                       || (ci_uncompressed_bytes input >=? bl_target_output_uncompressed_bytes limits)) inputs
  then Err (input_error "compaction claim contains a segment at or above the output target")
  else
  let expected_outputs := Z.max (ceiling_dividend rows target_output_rows)
                                (ceiling_dividend uncompressed_bytes (bl_target_output_uncompressed_bytes limits)) in
  if (input_segments =? 0) || negb (rows =? rc_input_rows claim) || negb (parquet_bytes =? rc_input_parquet_bytes claim)
     || negb (uncompressed_bytes =? rc_input_uncompressed_bytes claim) || (rows >? bl_maximum_input_rows limits)
     || (parquet_bytes >? bl_maximum_input_parquet_bytes limits)
     || (uncompressed_bytes >? bl_maximum_input_uncompressed_bytes limits)
     || negb (bool_decide (maximum_deadline = rc_data_expires_at claim))
  then Err (input_error "compaction claim totals exceed limits or contradict its inputs")
  else check (negb (expected_outputs >=? input_segments))
         (not_beneficial "compaction claim cannot produce fewer target-sized outputs").

Record LocalOutput := { lo_registration : CompactionOutputRegistration; lo_staged : StagedParquetSegment }.

Definition lo_object (output : LocalOutput) : ObjectDescriptor := ps_object_descriptor (lo_staged output).

Record CompactionRunBuild := {
  rb_run_id : Z;
  rb_input_segments : nat;
  rb_output_segments : nat;
  rb_rows : Z;
  rb_input_parquet_bytes : Z;
  rb_output_parquet_bytes : Z;
}.

End Cursors.

(** ** The environment *)

(** Whether a call ends before the deadline; one that does not is dropped, and may take
    effect all the same. *)
Inductive DeadlineState := InTime | Elapsed (completed : bool).

(** [while] loops that carry a state: the body continues with a state or ends the loop. *)
Section Iterate.
Context {Turn Outside Error S A : Type}.

Notation proc := (proc (Turn := Turn) (Outside := Outside) (Error := Error)).

Fixpoint iterate_fuel (fuel : nat) (body : S → proc (S + A)) (s : S) : proc A :=
  match fuel with
  | O => λ w, (Err Interrupted, w)
  | Datatypes.S fuel => r ← body s; match r with inl s => iterate_fuel fuel body s | inr a => mret a end
  end.

(** Every iteration but the last uses a turn. *)
Definition iterate (body : S → proc (S + A)) (s : S) : proc A := λ w, iterate_fuel (Datatypes.S (length w.2)) body s w.

End Iterate.

Section Worker.
Context {calendar : Calendar} {query_calendar : QueryCalendar} {postgres : Postgres} {day_start : DayStart}.
Context {env : SpoolEnv} {uuid : UuidText} {backend : Backend} {parquet : ParquetLib} {arrow : ArrowLib}.
Context {paths : PathLib} {streams : ParquetStream}.

Record BuildTurn := {
  bt_others : Outside → Outside;
  bt_now : DateTime;
  bt_deadline : DeadlineState;
  bt_addable : bool;
  bt_connection : Connection;
  bt_identities : SegmentId * StoredObjectId;
  bt_write : WriteIo;
  bt_read : option StagedObjectReadError;
  bt_remove_fails : bool;
}.

Record WorkerConfig := {
  wc_root : ManagedRoot;
  wc_staging_root : string;
  wc_limits : CompactionBuildLimits;
}.

Notation proc := (proc (Turn := BuildTurn) (Outside := Outside) (Error := CompactionError)).

Definition worker_call {A} (f : BuildTurn → Outside → A * Outside) : proc A := await bt_others f.

(** [Deadline::new], [ensure_active] and [run] *)
Definition Deadline_new : proc unit :=
  r ← worker_call (λ turn o,
        (check (bt_addable turn) (build_error "compaction duration deadline overflowed"), o));
  lift_result r.

Definition ensure_active : proc unit :=
  r ← worker_call (λ turn o, (match bt_deadline turn with InTime => Ok tt | Elapsed _ => Err timeout_error end, o));
  lift_result r.

Definition deadline_run {A} (f : BuildTurn → Outside → A * Outside) : proc A :=
  r ← worker_call (λ turn o,
        match bt_deadline turn with
        | InTime => let '(a, o) := f turn o in (Ok a, o)
        | Elapsed completed => (Err timeout_error, if completed : bool then (f turn o).2 else o)
        end);
  lift_result r.

Definition store_run {A} (m : St → A * St) : proc A :=
  deadline_run (λ _ o, let '(a, s) := m (w_objects o) in (a, set_store s o)).

(** Transactions: a lost connection aborts them, or hides that they were committed. *)
Definition db_run {E A} (lost : E) (transaction : BuildTurn → Database → result E (Database * A)) : proc (result E A) :=
  deadline_run (λ turn o,
    match bt_connection turn with
    | Refused => (Err lost, o)
    | connection =>
        match transaction turn (w_db o) with
        | Err e => (Err e, o)
        | Ok (db, a) => (match connection with Connected => Ok a | _ => Err lost end, set_db db o)
        end
    end).

(** Removing a staged file; a file that is not there is not an error. *)
Definition remove_staged (path : string) : proc bool :=
  worker_call (λ turn o,
    if bt_remove_fails turn then (false, o) else (true, set_files (delete path (w_files o)) o)).

(** Stops at the first failure. *)
Fixpoint cleanup_outputs (outputs : list LocalOutput) : proc bool :=
  match outputs with
  | [] => mret true
  | output :: outputs =>
      removed ← remove_staged (ps_path (lo_staged output));
      if removed : bool then cleanup_outputs outputs else mret false
  end.

Definition fail_after_cleanup {A} (e : CompactionError) (outputs : list LocalOutput) : proc A :=
  cleaned ← cleanup_outputs outputs;
  raise (if cleaned : bool then e else cleanup_failure e).

Section Run.
Variable config : WorkerConfig.

(** ** Reading *)

Definition stream_path (input : CompactionInputSegment) : string := k_path (od_key (sd_object (ci_descriptor input))).

Definition load_next_batch (c : InputCursor) (schema : Schema) (event_day : NaiveDate) : proc (InputCursor * bool) :=
  next ← store_run (stream_next (stream_path (ic_input c)) (ci_parquet_bytes (ic_input c))
                      (bl_reader_batch_rows (wc_limits config)) (ic_stream c));
  lift_result (take_batch c schema event_day next).

Definition InputCursor_open (input : CompactionInputSegment) (schema : Schema) (event_day : NaiveDate) : proc InputCursor :=
  let object := sd_object (ci_descriptor input) in
  _ ← lift_result (check (od_format_version object =? ParquetSegment.PARQUET_FORMAT_VERSION)
        (input_error "compaction input has an unsupported Parquet format version"));
  verified ← store_run (verify object);
  outcome ← lift_result (map_err storage_error verified);
  _ ← lift_result (match outcome with
                   | Verified => Ok tt
                   | Absent => Err (input_error "registered compaction input object is absent")
                   end);
  expectation ← lift_result (map_err input_storage_model
        (ParquetSegmentExpectation_new (od_key object) schema (ci_rows input)));
  _ ← lift_result (check (px_segment_id expectation =? sd_segment_id (ci_descriptor input))
        (input_error "compaction input identity contradicts its object key"));
  opened ← store_run (stream_open (stream_path input) (ci_parquet_bytes input));
  metadata ← lift_result (map_err parquet_input opened);
  _ ← lift_result (map_err storage_error (validate_parquet_segment_metadata metadata expectation));
  built ← worker_call (λ _ o, (stream_build (stream_path input) (ci_parquet_bytes input)
                                 (bl_reader_batch_rows (wc_limits config)) (w_objects o), o));
  _ ← lift_result (match built with Some source => Err (parquet_input source) | None => Ok tt end);
  '(cursor, loaded) ← load_next_batch (InputCursor_new input) schema event_day;
  _ ← lift_result (check loaded (input_error "compaction input Parquet stream is empty"));
  mret cursor.

Definition advance (c : InputCursor) (schema : Schema) (event_day : NaiveDate) : proc (InputCursor * bool) :=
  '(c, more) ← lift_result (next_row c);
  if more : bool then mret (c, true) else load_next_batch c schema event_day.

Fixpoint open_cursors (inputs : list CompactionInputSegment) (schema : Schema) (event_day : NaiveDate)
    : proc (list InputCursor) :=
  match inputs with
  | [] => mret []
  | input :: inputs =>
      cursor ← InputCursor_open input schema event_day;
      cursors ← open_cursors inputs schema event_day;
      mret (cursor :: cursors)
  end.

Definition heap_entry (cursors : list InputCursor) (input_index : nat) : build HeapEntry :=
  cursor ← ok_or (cursors !! input_index) panicked;
  key ← current_key cursor;
  Ok {| he_key := key; he_input_index := input_index |}.

Definition initial_heap (cursors : list InputCursor) : build (list HeapEntry) :=
  try_fold (λ heap input_index, entry ← heap_entry cursors input_index; Ok (heap_push entry heap)) []
    (seq 0 (length cursors)).

(** ** Merging *)

Record MergeState := {
  ms_cursors : list InputCursor;
  ms_heap : list HeapEntry;
  ms_total_rows : Z;
}.

(** The body of the inner loop. *)
Definition merge_row (claim : CompactionRunClaim) (state : MergeState * OutputAccumulator)
    : proc ((MergeState * OutputAccumulator) + (MergeState * OutputAccumulator)) :=
  let '(ms, accumulator) := state in
  match heap_peek (ms_heap ms) with
  | None => mret (inr (ms, accumulator))
  | Some entry =>
      cursor ← lift_result (ok_or (ms_cursors ms !! he_input_index entry) panicked);
      selected ← lift_result (selected_row cursor (he_input_index entry));
      _ ← lift_result (check (bool_decide (sl_key selected = he_key entry))
             (input_error "compaction merge heap differs from its input cursor"));
      accepted ← lift_result (can_accept accumulator (sl_estimated_uncompressed_bytes selected));
      if negb accepted then mret (inr (ms, accumulator))
      else
      accumulator ← lift_result (append_selected accumulator selected);
      total_rows ← lift_result (ok_or (checked_add U64 (ms_total_rows ms) 1)
             (build_error "compaction row total overflowed"));
      '(cursor, more) ← advance cursor (rc_schema claim) (rc_event_day claim);
      let cursors := <[he_input_index entry := cursor]> (ms_cursors ms) in
      heap ← lift_result (if more : bool
             then entry ← heap_entry cursors (he_input_index entry); Ok (heap_push entry (heap_pop (ms_heap ms)))
             else Ok (heap_pop (ms_heap ms)));
      _ ← ensure_active;
      mret (inl ({| ms_cursors := cursors; ms_heap := heap; ms_total_rows := total_rows |}, accumulator))
  end.

Definition write_output (claim : CompactionRunClaim) (accumulator : OutputAccumulator) : proc LocalOutput :=
  let schema := rc_schema claim in
  output ← lift_result (finish_output accumulator schema);
  identities ← worker_call (λ turn o, (bt_identities turn, o));
  let '(segment_id, object_id) := identities in
  let key := parquet_key (wc_root config) segment_id object_id in
  input ← lift_result (map_err output_storage_model (ParquetSegmentInput_new key schema (ob_batch output)));
  write_limit ← lift_result (map_err output_storage_model
        (ParquetWriteLimit_new (bl_maximum_output_parquet_bytes (wc_limits config))));
  written ← deadline_run (λ turn o,
        let '(r, files) := write_parquet_segment (wc_staging_root config) input write_limit (bt_write turn) (w_files o) in
        (r, set_files files o));
  staged ← lift_result (map_err output_storage written);
  row_count ← lift_result (map_err (λ _, build_error "compaction output is empty")
        (RowCount_new (px_row_count (ps_expectation staged))));
  uncompressed_bytes ← lift_result (map_err (λ _, build_error "compaction output has no estimated bytes")
        (UncompressedByteSize_new (ob_estimated_uncompressed_bytes output)));
  let registration :=
    descriptor ← map_err output_storage_model
      (SegmentDescriptor_new segment_id (rc_source_id claim) (s_id schema) (ob_times output) row_count uncompressed_bytes
         (ps_object_descriptor staged));
    map_err metadata_model (CompactionOutputRegistration_new (rc_run_id claim) descriptor (rc_data_expires_at claim)) in
  match registration with
  | Ok registration => mret {| lo_registration := registration; lo_staged := staged |}
  | Err e =>
      removed ← remove_staged (ps_path staged);
      raise (if removed : bool then e else cleanup_failure e)
  end.

(** One output: the merge until it is full, and the file. *)
Definition build_output (claim : CompactionRunClaim) (ms : MergeState) : proc (MergeState * LocalOutput) :=
  _ ← ensure_active;
  '(ms, accumulator) ← iterate (merge_row claim)
    (ms, OutputAccumulator_new (rc_event_day claim) (bl_target_output_rows (wc_limits config))
           (bl_target_output_uncompressed_bytes (wc_limits config)));
  output ← write_output claim accumulator;
  mret (ms, output).

(** The body of the outer loop: the outputs so far are kept for the cleanup. *)
Definition build_next (claim : CompactionRunClaim) (state : MergeState * Z * list LocalOutput)
    : proc ((MergeState * Z * list LocalOutput) + (build Z * list LocalOutput)) :=
  let '(ms, total_staging_bytes, outputs) := state in
  if (length (ms_heap ms) =? 0)%nat then mret (inr (Ok (ms_total_rows ms), outputs))
  else
  r ← attempt (build_output claim ms);
  match r with
  | Err e => mret (inr (Err e, outputs))
  | Ok (ms, output) =>
      match checked_add U64 total_staging_bytes (od_expected_byte_size (lo_object output)) with
      | None => mret (inr (Err (build_error "compaction staging byte total overflowed"), outputs))
      | Some total_staging_bytes =>
          let outputs := outputs ++ [output] in
          if total_staging_bytes >? bl_maximum_staging_bytes (wc_limits config)
          then mret (inr (Err (build_error "compaction outputs exceed their total staging limit"), outputs))
          else if (length (rc_inputs claim) <=? length outputs)%nat
          then mret (inr (Err (not_beneficial "compaction did not reduce its segment count"), outputs))
          else mret (inl (ms, total_staging_bytes, outputs))
      end
  end.

(** The checks after the loop. *)
Definition validate_outputs (claim : CompactionRunClaim) (total_rows : Z) (outputs : list LocalOutput) : build unit :=
  _ ← check (total_rows =? rc_input_rows claim) (input_error "compaction merge row count differs from its claim");
  check (negb ((length outputs =? 0)%nat || (length (rc_inputs claim) <=? length outputs)%nat))
    (not_beneficial "compaction did not produce fewer non-empty segments").

Definition start_merge (claim : CompactionRunClaim) : proc MergeState :=
  cursors ← open_cursors (rc_inputs claim) (rc_schema claim) (rc_event_day claim);
  heap ← lift_result (initial_heap cursors);
  mret {| ms_cursors := cursors; ms_heap := heap; ms_total_rows := 0 |}.

(** The result and the outputs that are staged. *)
Definition build_outputs_inner (claim : CompactionRunClaim) : proc (build unit * list LocalOutput) :=
  started ← attempt (start_merge claim);
  match started with
  | Err e => mret (Err e, [])
  | Ok ms =>
      '(r, outputs) ← iterate (build_next claim) (ms, 0, []);
      mret (total_rows ← r; validate_outputs claim total_rows outputs, outputs)
  end.

Definition build_outputs (claim : CompactionRunClaim) : proc (list LocalOutput) :=
  _ ← lift_result (validate_claim claim (wc_limits config));
  '(r, outputs) ← build_outputs_inner claim;
  match r with
  | Ok _ => mret outputs
  | Err e => fail_after_cleanup e outputs
  end.

(** ** Registration and upload *)

Definition metadata_lost : CompactionMetadataError := compaction_write Transport.

Definition upload_output (transfer_limit : Z) (output : LocalOutput) : proc unit :=
  let descriptor := lo_object output in
  read ← deadline_run (λ turn o,
        (read_staged_object (w_files o) (ps_path (lo_staged output)) descriptor transfer_limit (bt_read turn), o));
  bytes ← lift_result (map_err staged_read_error read);
  uploaded ← store_run (upload descriptor bytes transfer_limit);
  _ ← lift_result (map_err output_storage uploaded);
  recorded ← db_run connection_lost (λ turn, Publication.record_verified_upload (bt_now turn) descriptor);
  _ ← lift_result (map_err publication_error recorded);
  mret tt.

Fixpoint upload_outputs (transfer_limit : Z) (outputs : list LocalOutput) : proc unit :=
  match outputs with
  | [] => mret tt
  | output :: outputs => _ ← upload_output transfer_limit output; upload_outputs transfer_limit outputs
  end.

Definition register_and_upload (claim : CompactionRunClaim) (outputs : list LocalOutput)
    (registrations : list CompactionOutputRegistration) : proc unit :=
  registered ← db_run metadata_lost (λ turn, register_outputs (bt_now turn) (rc_run_id claim) registrations);
  _ ← lift_result (map_err metadata_error registered);
  transfer_limit ← lift_result (map_err output_storage_model
        (TransferLimit_new (bl_maximum_output_parquet_bytes (wc_limits config))));
  upload_outputs transfer_limit outputs.

Definition build_register_and_upload (claim : CompactionRunClaim) : proc CompactionRunBuild :=
  _ ← Deadline_new;
  outputs ← build_outputs claim;
  operation ← attempt (register_and_upload claim outputs (lo_registration <$> outputs));
  match operation with
  | Err e => fail_after_cleanup e outputs
  | Ok _ =>
      cleaned ← cleanup_outputs outputs;
      _ ← lift_result (check cleaned (io_error "removing uploaded compaction staging"));
      output_parquet_bytes ← lift_result (try_fold (λ total output,
          ok_or (checked_add U64 total (od_expected_byte_size (lo_object output)))
            (build_error "compaction output byte total overflowed")) 0 outputs);
      mret {| rb_run_id := rc_run_id claim; rb_input_segments := length (rc_inputs claim);
              rb_output_segments := length outputs; rb_rows := rc_input_rows claim;
              rb_input_parquet_bytes := rc_input_parquet_bytes claim; rb_output_parquet_bytes := output_parquet_bytes |}
  end.

End Run.
End Worker.
