(* ===== verification/CompactionMerge.v ===== *)
(** * elucid-compaction: the merge is exact

    The outputs of a build hold exactly the rows of the claimed segments, in the order in
    which a stable sort of the concatenated inputs puts them; each output is described
    exactly and is within the targets of the build. *)

From S2P Require Import Core ErrorCode CatalogTypes CatalogModel CatalogSource Bytes Frame Storage ObjectStore Database Publication CatalogStore Query Arrow ParquetSegment StagingCorrect Turns Processor Compaction CompactionLifecycle QueryCorrect CompactionWorker Prelude.
Import Schema.

#[local] Open Scope string_scope.
#[local] Open Scope list_scope.
#[local] Open Scope Z_scope.

(** ** The order of keys *)

Lemma row_key_compare_refl a : row_key_compare a a = Eq.
Proof. unfold row_key_compare. by rewrite Z.compare_refl, EventId.compare_refl. Qed.

Lemma row_key_compare_antisym a b : row_key_compare b a = CompOpp (row_key_compare a b).
Proof.
  unfold row_key_compare. rewrite (Z.compare_antisym (rk_event_time a)), (EventId.compare_antisym (rk_event_id a)).
  by destruct (_ ?= _).
Qed.

Lemma row_key_compare_eq a b : row_key_compare a b = Eq ↔ a = b.
Proof.
  split; [|intros ->; apply row_key_compare_refl]. destruct a as [t i], b as [t' i']. unfold row_key_compare. cbn.
  destruct (Z.compare_spec t t') as [->|?|?]; try done. intros ->%EventId.compare_eq. done.
Qed.

Lemma row_key_compare_lt_trans a b c : row_key_compare a b = Lt → row_key_compare b c = Lt → row_key_compare a c = Lt.
Proof.
  unfold row_key_compare.
  destruct (Z.compare_spec (rk_event_time a) (rk_event_time b)), (Z.compare_spec (rk_event_time b) (rk_event_time c)),
    (Z.compare_spec (rk_event_time a) (rk_event_time c)); try done; try lia. apply EventId.compare_lt_trans.
Qed.

Definition key_le (a b : RowKey) : Prop := row_key_compare a b ≠ Gt.
Definition key_lt (a b : RowKey) : Prop := row_key_compare a b = Lt.

#[export] Instance key_le_dec a b : Decision (key_le a b).
Proof. unfold key_le. apply _. Defined.

Lemma key_le_refl a : key_le a a.
Proof. unfold key_le. by rewrite row_key_compare_refl. Qed.

Lemma key_lt_le a b : key_lt a b → key_le a b.
Proof. unfold key_lt, key_le. by intros ->. Qed.

Lemma key_le_cases a b : key_le a b ↔ key_lt a b ∨ a = b.
Proof.
  unfold key_le, key_lt. rewrite <- row_key_compare_eq. destruct (row_key_compare a b); naive_solver.
Qed.

Lemma key_lt_not_le a b : key_lt a b ↔ ¬ key_le b a.
Proof. unfold key_lt, key_le. rewrite (row_key_compare_antisym a b). destruct (row_key_compare a b); naive_solver. Qed.

Lemma row_key_lt_trans a b c : key_lt a b → key_lt b c → key_lt a c.
Proof. apply row_key_compare_lt_trans. Qed.

Lemma key_lt_le_trans a b c : key_lt a b → key_le b c → key_lt a c.
Proof. rewrite key_le_cases. intros H [H'| <-]; [by eapply row_key_lt_trans | done]. Qed.

Lemma key_le_lt_trans a b c : key_le a b → key_lt b c → key_lt a c.
Proof. rewrite key_le_cases. intros [H| ->] H'; [by eapply row_key_lt_trans | done]. Qed.

Lemma key_le_trans a b c : key_le a b → key_le b c → key_le a c.
Proof. rewrite (key_le_cases a b). intros [H| ->] H'; [by eapply key_lt_le, key_lt_le_trans | done]. Qed.

(** ** The reference: a stable sort *)

Section Sort.
Context {A : Type} (key : A → RowKey).

Fixpoint insert_row (x : A) (l : list A) : list A :=
  match l with
  | [] => [x]
  | y :: l => if decide (key_le (key x) (key y)) then x :: y :: l else y :: insert_row x l
  end.

Definition stable_sort (l : list A) : list A := foldr insert_row [] l.

Lemma insert_row_perm x l : insert_row x l ≡ₚ x :: l.
Proof. induction l as [|y l IH]; cbn; [done|]. case_decide; [done|]. rewrite IH. apply Permutation_swap. Qed.

Lemma stable_sort_perm l : stable_sort l ≡ₚ l.
Proof. induction l as [|x l IH]; cbn; [done|]. by rewrite insert_row_perm, IH. Qed.

Lemma insert_row_sorted x l :
  StronglySorted (λ a b, key_le (key a) (key b)) l → StronglySorted (λ a b, key_le (key a) (key b)) (insert_row x l).
Proof.
  induction 1 as [|y l Hl IH Hy]; cbn; [by repeat constructor|]. case_decide as Hd.
  - constructor; [by constructor|]. constructor; [done|]. eapply Forall_impl; [done|]. intros z Hz. by eapply key_le_trans.
  - constructor; [done|]. rewrite insert_row_perm. constructor; [|done]. apply key_lt_le, key_lt_not_le. done.
Qed.

Lemma stable_sort_sorted l : StronglySorted (λ a b, key_le (key a) (key b)) (stable_sort l).
Proof. induction l as [|x l IH]; [constructor | by apply insert_row_sorted]. Qed.

Lemma insert_row_last x l : Forall (λ y, key_lt (key y) (key x)) l → insert_row x l = l ++ [x].
Proof. induction 1 as [|y l Hy Hl IH]; cbn; [done|]. rewrite decide_False by by apply key_lt_not_le. by rewrite IH. Qed.

Lemma insert_row_snoc y x l : key_le (key y) (key x) → insert_row y (l ++ [x]) = insert_row y l ++ [x].
Proof.
  intros Hy. induction l as [|z l IH]; cbn; [by rewrite decide_True|]. case_decide; [done|]. by rewrite IH.
Qed.

(** A row that nothing before it exceeds, and that exceeds everything after it, is last. *)
Lemma stable_sort_last x l1 l2 :
  Forall (λ y, key_le (key y) (key x)) l1 → Forall (λ y, key_lt (key y) (key x)) l2 →
  stable_sort (l1 ++ x :: l2) = stable_sort (l1 ++ l2) ++ [x].
Proof.
  intros H1 H2. induction H1 as [|y l1 Hy Hl IH]; cbn.
  - apply insert_row_last. by rewrite stable_sort_perm.
  - fold (stable_sort (l1 ++ x :: l2)). rewrite IH. by apply insert_row_snoc.
Qed.

End Sort.

(** ** The heap *)

Definition entry_le (a b : HeapEntry) : Prop :=
  key_lt (he_key a) (he_key b) ∨ he_key a = he_key b ∧ (he_input_index a ≤ he_input_index b)%nat.

Lemma entry_compare_le a b : heap_entry_compare a b ≠ Gt ↔ entry_le a b.
Proof.
  unfold heap_entry_compare, entry_le, key_lt. rewrite <- row_key_compare_eq. destruct (row_key_compare _ _) eqn:E.
  - destruct (Nat.compare_spec (he_input_index a) (he_input_index b)); split; intros; try naive_solver lia.
  - naive_solver.
  - naive_solver.
Qed.

Lemma entry_le_trans a b c : entry_le a b → entry_le b c → entry_le a c.
Proof.
  unfold entry_le. intros [H|[H H']] [G|[G G']].
  - left. by eapply row_key_lt_trans.
  - left. by rewrite <- G.
  - left. by rewrite H.
  - right. rewrite H, G. split; [done | lia].
Qed.

Lemma entry_lt_le a b : heap_entry_compare a b ≠ Lt → entry_le b a.
Proof.
  intros H. apply entry_compare_le. intros E. apply H. unfold heap_entry_compare in *.
  rewrite (row_key_compare_antisym (he_key a) (he_key b)) in E.
  destruct (row_key_compare (he_key a) (he_key b)); cbn in E; try done. by apply nat_compare_lt, nat_compare_gt.
Qed.

Lemma heap_peek_least heap e : heap_peek heap = Some e → e ∈ heap ∧ Forall (entry_le e) heap.
Proof.
  assert (Hrefl : ∀ x, entry_le x x) by (intros x; right; split; [done | lia]).
  revert e. induction heap as [|x heap IH]; intros e; cbn; [done|]. destruct (heap_peek heap) as [least|] eqn:E.
  - destruct (IH _ eq_refl) as [Hin Hall]. destruct (heap_entry_compare least x) eqn:Ec; intros [= <-].
    + assert (entry_le x least) by (apply entry_lt_le; by rewrite Ec). split; [by left|]. constructor; [done|].
      eapply Forall_impl; [done|]. intros. by eapply entry_le_trans.
    + assert (entry_le least x) by (apply entry_compare_le; by rewrite Ec). split; [by right | by constructor].
    + assert (entry_le x least) by (apply entry_lt_le; by rewrite Ec). split; [by left|]. constructor; [done|].
      eapply Forall_impl; [done|]. intros. by eapply entry_le_trans.
  - intros [= <-]. destruct heap as [|y heap]; [split; [by left | by constructor]|]. cbn in E. by destruct (heap_peek heap).
Qed.

Lemma heap_peek_None heap : heap_peek heap = None → heap = [].
Proof. destruct heap as [|x heap]; cbn; [done|]. by destruct (heap_peek heap). Qed.

(** ** Arrays and rows *)

Lemma array_len_map f a : (∀ A (l : list A), length (f A l) = length l) → array_len (array_map f a) = array_len a.
Proof. intros Hf. unfold array_len. destruct a; cbn; by rewrite !length_fmap, Hf. Qed.

Lemma array_type_map f a : array_data_type (array_map f a) = array_data_type a.
Proof. by destruct a. Qed.

Lemma array_len_slice a i n : array_len (array_slice a i n) = (n `min` (array_len a - i))%nat.
Proof. unfold array_len, array_slice. destruct a; cbn; by rewrite !length_fmap, length_take, length_drop. Qed.

Lemma take_drop_app_l {A} (vs ws : list A) i : (i < length vs)%nat → take 1 (drop i (vs ++ ws)) = take 1 (drop i vs).
Proof. intros Hi. rewrite drop_app_le by lia. rewrite take_app_le; [done|]. rewrite length_drop. lia. Qed.

Lemma take_drop_app_r {A} (vs ws : list A) i : take 1 (drop (length vs + i) (vs ++ ws)) = take 1 (drop i ws).
Proof. rewrite drop_app_ge by lia. by replace (length vs + i - length vs)%nat with i by lia. Qed.

Lemma array_append_spec a b :
  array_data_type a = array_data_type b →
  ∃ c, array_append a b = Some c ∧ array_data_type c = array_data_type a ∧ array_len c = (array_len a + array_len b)%nat ∧
    (∀ i, (i < array_len a)%nat → array_slice c i 1 = array_slice a i 1) ∧
    (∀ i, array_slice c (array_len a + i) 1 = array_slice b i 1).
Proof.
  unfold array_len, array_slice. destruct a, b; cbn; intros H; try done;
    try (injection H as <-; rewrite decide_True by done);
    (eexists; split; [done|]; cbn; rewrite !length_fmap;
     split_and!; [done | by rewrite length_app | intros; by rewrite take_drop_app_l | intros; by rewrite take_drop_app_r]).
Qed.

(** The column made of selected entries. *)
Definition selected_from (sources : list ArrowArray) (t : DataType) (selections : list (nat * nat)) (column : ArrowArray) : Prop :=
  array_data_type column = t ∧ array_len column = length selections ∧
  ∀ k s r, selections !! k = Some (s, r) → ∃ source, sources !! s = Some source ∧ array_slice column k 1 = array_slice source r 1.

Lemma mutable_fold sources t selections : ∀ done_ column,
  Forall (λ a, array_data_type a = t) sources →
  Forall (λ x, ∃ source, sources !! x.1 = Some source ∧ (x.2 < array_len source)%nat) selections →
  selected_from sources t done_ column →
  ∃ column', foldl (mutable_array_extend sources) (Some column) selections = Some column' ∧
    selected_from sources t (done_ ++ selections) column'.
Proof.
  induction selections as [|[s r] selections IH]; intros done_ column Ht Hs Hc; cbn [foldl].
  { exists column. by rewrite app_nil_r. }
  apply Forall_cons in Hs as [(source & Hsource & Hr) Hs]. cbn [fst snd] in Hsource, Hr.
  cbn [mutable_array_extend mbind option_bind]. rewrite Hsource. cbn [mbind option_bind]. rewrite (proj2 (Nat.ltb_lt _ _) Hr). destruct Hc as (Hct & Hcl & Hcs).
  assert (Hty : array_data_type source = t) by (rewrite Forall_forall in Ht; by eapply Ht, list_elem_of_lookup_2).
  destruct (array_append_spec column (array_slice source r 1)) as (c & -> & Hct' & Hcl' & Hl & Hr').
  { unfold array_slice. rewrite array_type_map. congruence. }
  destruct (IH (done_ ++ [(s, r)]) c Ht Hs) as (c' & -> & Hc').
  { rewrite array_len_slice in Hcl'. split_and!; [congruence | rewrite length_app; cbn; lia|].
    intros k s' r' [Hk|[Hk Hk']]%lookup_app_Some.
    - destruct (Hcs _ _ _ Hk) as (x & Hx & Ex). exists x. split; [done|]. rewrite Hl; [done|]. apply lookup_lt_Some in Hk. lia.
    - apply list_lookup_singleton_Some in Hk' as [Hk' [= <- <-]]. exists source. split; [done|].
      replace k with (array_len column + 0)%nat by lia. rewrite Hr'. unfold array_slice. by destruct source; cbn; rewrite drop_0, take_take. }
  exists c'. by rewrite <- app_assoc in Hc'.
Qed.

Lemma mutable_array_spec sources t selections :
  sources ≠ [] → Forall (λ a, array_data_type a = t) sources →
  Forall (λ x, ∃ source, sources !! x.1 = Some source ∧ (x.2 < array_len source)%nat) selections →
  ∃ column, mutable_array sources selections = Some column ∧ selected_from sources t selections column.
Proof.
  intros Hne Ht Hs. unfold mutable_array. destruct sources as [|first rest] eqn:Es; [done|]. rewrite <- Es in *.
  assert (Hf : array_data_type first = t) by (rewrite Forall_forall in Ht; apply Ht; subst; by left).
  rewrite (proj2 (forallb_forall _ _)).
  2: { intros x Hx%list_elem_of_In. rewrite Forall_forall in Ht. apply bool_decide_eq_true. rewrite Hf. by apply Ht. }
  apply (mutable_fold sources t selections []); [done | done|]. split_and!; [|by rewrite array_len_slice | done].
  unfold array_slice. by rewrite array_type_map.
Qed.

(** A row is the list of its one-element columns. *)
Notation Row := (list ArrowArray).

Definition row_of (b : RecordBatch) (i : nat) : Row := (λ a, array_slice a i 1) <$> rb_columns b.
Definition rows_of (b : RecordBatch) : list Row := row_of b <$> seq 0 (num_rows b).

(** Arrow's invariant of a batch: columns of the types of their fields and of one length. *)
Record batch_ok (b : RecordBatch) : Prop := {
  bo_types : Forall2 (λ f a, array_data_type a = af_data_type f) (rb_fields b) (rb_columns b);
  bo_lengths : Forall (λ a, array_len a = num_rows b) (rb_columns b);
}.

Definition row_time (ordinal : nat) (r : Row) : Z :=
  match r !! ordinal with Some (TimestampMillisecondArray _ [v]) => time_value v | _ => 0 end.
Definition row_id (r : Row) : list Z :=
  match r !! EVENT_ID_ORDINAL with Some (FixedSizeBinaryArray _ [v]) => id_value v | _ => [] end.
Definition row_event_time : Row → Z := row_time EVENT_TIME_ORDINAL.
Definition row_ingestion_time : Row → Z := row_time INGESTION_TIME_ORDINAL.
Definition key_of (r : Row) : RowKey := {| rk_event_time := row_event_time r; rk_event_id := row_id r |}.

Lemma rows_of_length b : length (rows_of b) = num_rows b.
Proof. unfold rows_of. by rewrite length_fmap, length_seq. Qed.

Lemma rows_of_lookup b i : (i < num_rows b)%nat → rows_of b !! i = Some (row_of b i).
Proof. intros Hi. unfold rows_of. rewrite list_lookup_fmap, lookup_seq_lt by done. done. Qed.

Lemma drop_rows b i : (i < num_rows b)%nat → drop i (rows_of b) = row_of b i :: drop (S i) (rows_of b).
Proof. intros Hi. apply drop_S. by apply rows_of_lookup. Qed.

Lemma take_1_drop {A} (l : list A) i x : l !! i = Some x → take 1 (drop i l) = [x].
Proof. intros H. by rewrite (drop_S _ _ _ H), firstn_cons, take_0. Qed.

Lemma time_at_row ordinal message b values i t :
  time_column ordinal message b = Ok values → time_at values i = Ok t → row_time ordinal (row_of b i) = t.
Proof.
  unfold time_column, time_at, row_time, row_of. intros H Ht. apply bind_Ok in H as (column & Hc%ok_or_Ok & H).
  apply bind_Ok in Ht as (v & Hv%ok_or_Ok & [= <-]). rewrite list_lookup_fmap, Hc. cbn.
  destruct column; try done. injection H as ->. cbn. by rewrite (take_1_drop _ _ _ Hv).
Qed.

Lemma event_id_at_row b values i id : event_ids b = Ok values → event_id_at values i = Ok id → row_id (row_of b i) = id.
Proof.
  unfold event_ids, event_id_at, row_id, row_of. intros H Ht. apply bind_Ok in H as (column & Hc%ok_or_Ok & H).
  apply bind_Ok in Ht as (v & Hv%ok_or_Ok & Ht). apply bind_Ok in Ht as (u & _ & [= <-]). rewrite list_lookup_fmap, Hc. cbn.
  destruct column; try done. injection H as ->. cbn. by rewrite (take_1_drop _ _ _ Hv).
Qed.

Lemma row_key_row b i k : row_key b i = Ok k → k = key_of (row_of b i) ∧ (i < num_rows b)%nat.
Proof.
  unfold row_key, event_times. intros H. apply bind_Ok in H as (times & Ht & H). apply bind_Ok in H as (ids & Hi & H).
  apply bind_Ok in H as (u & Hl%check_Ok%Nat.ltb_lt & H). apply bind_Ok in H as (t & Ht' & H).
  apply bind_Ok in H as (id & Hid & [= <-]). split; [|done]. unfold key_of, row_event_time.
  by rewrite (time_at_row _ _ _ _ _ _ Ht Ht'), (event_id_at_row _ _ _ _ Hi Hid).
Qed.

(** ** Cursors *)

Definition content_rows (content : list RecordBatch) : list Row := content ≫= rows_of.

Definition keys_sorted (rows : list Row) : Prop := StronglySorted (λ a b, key_le (key_of a) (key_of b)) rows.

Lemma keys_sorted_snoc rows r :
  keys_sorted rows → (∀ k, last (key_of <$> rows) = Some k → key_le k (key_of r)) → keys_sorted (rows ++ [r]).
Proof.
  unfold keys_sorted. induction 1 as [|x rows Hs IH Hx]; intros Hl; cbn; [by repeat constructor|].
  assert (Hr : key_le (key_of x) (key_of r)).
  { destruct rows as [|y rows] using rev_ind; [by apply Hl|]. clear IHrows.
    rewrite fmap_cons, fmap_app, app_comm_cons in Hl. change (key_of <$> [y]) with [key_of y] in Hl. specialize (Hl (key_of y)). rewrite last_snoc in Hl.
    apply Forall_app in Hx as [_ Hx]. apply Forall_cons in Hx as [Hx _]. eapply key_le_trans; [done | by apply Hl]. }
  constructor; [|apply Forall_app; split; [done | by constructor]]. apply IH. intros k Hk. apply Hl. rewrite fmap_cons.
  destruct rows; [done|]. done.
Qed.

Lemma keys_sorted_lookup rows i j a b :
  keys_sorted rows → rows !! i = Some a → rows !! j = Some b → (i ≤ j)%nat → key_le (key_of a) (key_of b).
Proof.
  intros Hs Hi Hj Hij. destruct (decide (i = j)) as [->|]; [rewrite Hi in Hj; injection Hj as ->; apply key_le_refl|].
  assert (Hlt : (i < j)%nat) by lia. clear Hij n. revert i j Hi Hj Hlt.
  induction Hs as [|x rows Hs IH Hx]; intros [|i] [|j] Hi Hj Hlt; try done; try lia.
  - injection Hi as ->. rewrite Forall_forall in Hx. by eapply Hx, list_elem_of_lookup_2.
  - eapply IH; [done | done | lia].
Qed.

Section CursorFacts.
Context {calendar : Calendar} {query_calendar : QueryCalendar} {postgres : Postgres} {day_start : DayStart}.
Context {env : SpoolEnv} {uuid : UuidText} {backend : Backend} {parquet : ParquetLib} {arrow : ArrowLib}.
Context (schema : Schema) (day : NaiveDate).

(** What the cursor remembers of the rows it has loaded. *)
Record observed (rows : list Row) (c : InputCursor) : Prop := {
  od_sorted : keys_sorted rows;
  od_last : ic_last_loaded_key c = last (key_of <$> rows);
  od_minimum_event : ic_minimum_event_time c = foldl opt_min None (row_event_time <$> rows);
  od_maximum_event : ic_maximum_event_time c = foldl opt_max None (row_event_time <$> rows);
  od_minimum_ingestion : ic_minimum_ingestion_time c = foldl opt_min None (row_ingestion_time <$> rows);
  od_maximum_ingestion : ic_maximum_ingestion_time c = foldl opt_max None (row_ingestion_time <$> rows);
}.

(** The fields that loading rows does not touch. *)
Definition position (c : InputCursor) : CompactionInputSegment * nat * option RecordBatch * nat * Z * Z :=
  (ic_input c, ic_stream c, ic_batch c, ic_row_index c, ic_batch_generation c, ic_rows_emitted c).

Lemma observe_row_Ok b bounds times ingestion ids rows c i c' :
  event_times b = Ok times → ingestion_times b = Ok ingestion → event_ids b = Ok ids →
  observed rows c → observe_row bounds times ingestion ids c i = Ok c' →
  observed (rows ++ [row_of b i]) c' ∧ position c' = position c ∧ ic_rows_loaded c' = ic_rows_loaded c.
Proof.
  intros Ht Hg Hi Ho H. unfold observe_row in H. apply bind_Ok in H as (t & Ht' & H). apply bind_Ok in H as (u & _ & H).
  apply bind_Ok in H as (id & Hid & H). apply bind_Ok in H as (u' & Hord%check_Ok & H). apply bind_Ok in H as (g & Hg' & [= <-]).
  pose proof (time_at_row _ _ _ _ _ _ Ht Ht') as Et. pose proof (time_at_row _ _ _ _ _ _ Hg Hg') as Eg.
  pose proof (event_id_at_row _ _ _ _ Hi Hid) as Eid.
  assert (Ek : key_of (row_of b i) = {| rk_event_time := t; rk_event_id := id |}).
  { unfold key_of, row_event_time. by rewrite Et, Eid. }
  destruct Ho as [Hs Hl H1 H2 H3 H4]. split; [|done]. split; cbn.
  - apply keys_sorted_snoc; [done|]. intros k Hk. rewrite Hl, Hk in Hord. cbn in Hord. rewrite Ek.
    apply negb_true_iff, bool_decide_eq_false in Hord. done.
  - rewrite fmap_app. change (key_of <$> [row_of b i]) with [key_of (row_of b i)]. by rewrite last_snoc, Ek.
  - rewrite fmap_app, foldl_app. cbn. unfold row_event_time at 2. by rewrite Et, H1.
  - rewrite fmap_app, foldl_app. cbn. unfold row_event_time at 2. by rewrite Et, H2.
  - rewrite fmap_app, foldl_app. cbn. unfold row_ingestion_time at 2. by rewrite Eg, H3.
  - rewrite fmap_app, foldl_app. cbn. unfold row_ingestion_time at 2. by rewrite Eg, H4.
Qed.

Lemma observe_rows_Ok b bounds times ingestion ids : ∀ n i rows c c',
  event_times b = Ok times → ingestion_times b = Ok ingestion → event_ids b = Ok ids →
  observed rows c → try_fold (observe_row bounds times ingestion ids) c (seq i n) = Ok c' →
  observed (rows ++ (row_of b <$> seq i n)) c' ∧ position c' = position c ∧ ic_rows_loaded c' = ic_rows_loaded c.
Proof.
  induction n as [|n IH]; intros i rows c c' Ht Hg Hi Ho H; cbn [seq] in *; cbn [try_fold] in H.
  { injection H as <-. by rewrite app_nil_r. }
  apply bind_Ok in H as (c1 & H1 & H). destruct (observe_row_Ok _ _ _ _ _ _ _ _ _ Ht Hg Hi Ho H1) as (Ho1 & Hp1 & Hl1).
  destruct (IH _ _ _ _ Ht Hg Hi Ho1 H) as (Ho2 & Hp2 & Hl2). rewrite <- app_assoc in Ho2. split_and!; [done | congruence | congruence].
Qed.

Lemma validate_batch_Ok rows c b c' :
  observed rows c → validate_batch c b schema day = Ok c' →
  observed (rows ++ rows_of b) c' ∧ position c' = position c ∧ rb_fields b = arrow_schema schema ∧ (0 < num_rows b)%nat ∧
  ic_rows_loaded c' = ic_rows_loaded c + Z.of_nat (num_rows b) ∧ ic_rows_loaded c' ≤ ic_registered_rows c.
Proof.
  intros Ho H. unfold validate_batch in H. apply bind_Ok in H as (u & Hn%check_Ok%negb_true_iff & H).
  apply orb_false_iff in Hn as [Hn Hf]. apply Nat.eqb_neq in Hn. apply bool_decide_eq_false in Hf. apply dec_stable in Hf.
  apply bind_Ok in H as (u1 & _ & H). apply bind_Ok in H as (times & Ht & H). apply bind_Ok in H as (ingestion & Hg & H).
  apply bind_Ok in H as (ids & Hi & H). apply bind_Ok in H as (u2 & _ & H). apply bind_Ok in H as (bounds & _ & H).
  apply bind_Ok in H as (c1 & H1 & H). apply bind_Ok in H as (n & Hnn%ok_or_Ok & H). apply bind_Ok in H as (l & Hl%ok_or_Ok & H).
  apply bind_Ok in H as (u3 & Hr%check_Ok%Z.leb_le & [= <-]). apply narrow_Some in Hnn as [-> _]. apply narrow_Some in Hl as [-> _].
  destruct (observe_rows_Ok _ _ _ _ _ _ _ _ _ _ Ht Hg Hi Ho H1) as ([] & Hp & Hl). fold (rows_of b) in *.
  unfold ic_registered_rows in *. assert (ic_input c1 = ic_input c) by by injection Hp. rewrite Hl in *.
  split_and!; [by split | done | done | lia | done | cbn; congruence].
Qed.

Definition loaded (content : list RecordBatch) (c : InputCursor) : list Row := content_rows (take (ic_stream c) content).

(** The registered metadata agree with the content of the object. *)
Definition content_registered (content : list RecordBatch) (input : CompactionInputSegment) : Prop :=
  let rows := content_rows content in
  let times := sd_times (ci_descriptor input) in
  keys_sorted rows ∧ Z.of_nat (length rows) = ci_rows input ∧ Forall (λ b, rb_fields b = arrow_schema schema) content ∧
  foldl opt_min None (row_event_time <$> rows) = Some (instant_millis (minimum_event_time times)) ∧
  foldl opt_max None (row_event_time <$> rows) = Some (instant_millis (maximum_event_time times)) ∧
  foldl opt_min None (row_ingestion_time <$> rows) = Some (instant_millis (minimum_ingestion_time times)) ∧
  foldl opt_max None (row_ingestion_time <$> rows) = Some (instant_millis (maximum_ingestion_time times)).

(** A cursor over the content of its object, between two batches. *)
Record between (content : list RecordBatch) (c : InputCursor) : Prop := {
  bw_observed : observed (loaded content c) c;
  bw_stream : (ic_stream c ≤ length content)%nat;
  bw_loaded : ic_rows_loaded c = Z.of_nat (length (loaded content c));
  bw_registered : ic_rows_loaded c ≤ ic_registered_rows c;
  bw_generation : ic_batch_generation c = Z.of_nat (ic_stream c);
  bw_fields : Forall (λ b, rb_fields b = arrow_schema schema) (take (ic_stream c) content);
}.

(** A cursor at a row, or at the end of the object. *)
Record at_row (content : list RecordBatch) (c : InputCursor) : Prop := {
  ar_between : between content c;
  ar_batch : match ic_batch c with
             | Some b => ∃ k, ic_stream c = S k ∧ content !! k = Some b ∧ (ic_row_index c < num_rows b)%nat ∧
                 ic_rows_emitted c = Z.of_nat (length (content_rows (take k content)) + ic_row_index c)
             | None => ic_rows_emitted c = ci_rows (ic_input c) ∧ content_registered content (ic_input c)
             end;
}.

Lemma content_rows_app a b : content_rows (a ++ b) = content_rows a ++ content_rows b.
Proof. unfold content_rows. apply bind_app. Qed.

Lemma content_rows_snoc content k b :
  content !! k = Some b → content_rows (take (S k) content) = content_rows (take k content) ++ rows_of b.
Proof. intros H. rewrite (take_S_r _ _ _ H), content_rows_app. f_equal. unfold content_rows. cbn. apply app_nil_r. Qed.

Lemma take_batch_Ok content c next c' more :
  between content c → ic_rows_emitted c = ic_rows_loaded c →
  match next with
  | Some (Ok b) => content !! ic_stream c = Some b
  | Some (Err _) => True
  | None => content !! ic_stream c = None
  end →
  take_batch c schema day next = Ok (c', more) →
  at_row content c' ∧ ic_input c' = ic_input c ∧ ic_rows_emitted c' = ic_rows_emitted c ∧ more = bool_decide (is_Some (ic_batch c')).
Proof.
  intros [Ho Hst Hld Hreg Hgen Hf] He Hnext H. unfold take_batch in H. destruct next as [[b|]|]; [|done|].
  - apply bind_Ok in H as (c1 & Hv & H). apply bind_Ok in H as (g & Hg%ok_or_Ok & [= <- <-]). apply narrow_Some in Hg as [-> _].
    destruct (validate_batch_Ok _ _ _ _ Ho Hv) as (Ho1 & Hp & Hfields & Hn & Hl & Hr). injection Hp as E1 E2 E3 E4 E5 E6.
    assert (Hrows : loaded content (with_batch c1 (ic_batch_generation c1 + 1) b) = loaded content c ++ rows_of b).
    { unfold loaded. cbn. rewrite E2. by apply content_rows_snoc. }
    split_and!; [|done|done|done]. split; [split|].
    + rewrite Hrows. destruct Ho1. by split.
    + cbn. rewrite E2. apply lookup_lt_Some in Hnext. lia.
    + rewrite Hrows, length_app, rows_of_length. cbn. lia.
    + unfold ic_registered_rows in *. cbn. by rewrite E1.
    + cbn. rewrite E5, E2, Hgen. lia.
    + cbn. rewrite E2. rewrite (take_S_r _ _ _ Hnext). apply Forall_app. split; [done | by constructor].
    + cbn. exists (ic_stream c). rewrite E2, E6. split_and!; [done | done | done|]. unfold loaded in Hld. lia.
  - apply bind_Ok in H as (u & Hc%check_Ok & [= <- <-]). apply lookup_ge_None_1 in Hnext.
    rewrite !andb_true_iff in Hc. destruct Hc as [[[[[H1 H2] H3] H4] H5] H6]. cbn in *.
    apply Z.eqb_eq in H1, H2. apply bool_decide_eq_true in H3, H4, H5, H6.
    unfold loaded in *. rewrite take_ge in Ho, Hld, Hf by done. split_and!; [|done|done|done]. split; [split|]; cbn.
    + unfold loaded. cbn. rewrite take_ge by done. destruct Ho. by split.
    + done.
    + unfold loaded. cbn. rewrite take_ge by done. done.
    + done.
    + done.
    + by rewrite take_ge.
    + split; [done|]. destruct Ho as [Hs _ G1 G2 G3 G4]. unfold ic_registered_rows in H1. cbn in H1.
      rewrite G1 in H3. rewrite G2 in H4. rewrite G3 in H5. rewrite G4 in H6. split_and!; done || congruence.
Qed.

Lemma loaded_prefix content c p r : loaded content c !! p = Some r → content_rows content !! p = Some r.
Proof.
  intros H. rewrite <- (take_drop (ic_stream c) content) at 1. rewrite content_rows_app. by apply lookup_app_l_Some.
Qed.

(** The row under a cursor, and the rows before it. *)
Definition emitted (c : InputCursor) : nat := Z.to_nat (ic_rows_emitted c).

Lemma at_row_head content c b :
  at_row content c → ic_batch c = Some b →
  ic_rows_emitted c = Z.of_nat (emitted c) ∧
  loaded content c !! emitted c = Some (row_of b (ic_row_index c)) ∧
  content_rows content !! emitted c = Some (row_of b (ic_row_index c)).
Proof.
  intros [Hb Hat] Eb. rewrite Eb in Hat. destruct Hat as (k & Hk & Hc & Hi & He).
  assert (Ee : emitted c = (length (content_rows (take k content)) + ic_row_index c)%nat) by (unfold emitted; lia).
  assert (Hl : loaded content c !! emitted c = Some (row_of b (ic_row_index c))).
  { unfold loaded. rewrite Hk, (content_rows_snoc _ _ _ Hc), Ee, lookup_app_r by lia.
    replace (_ + _ - _)%nat with (ic_row_index c) by lia. by apply rows_of_lookup. }
  split_and!; [unfold emitted; lia | done | by eapply loaded_prefix].
Qed.

Lemma at_row_end content c : at_row content c → ic_batch c = None → emitted c = length (content_rows content).
Proof.
  intros [_ Hat] Eb. rewrite Eb in Hat. destruct Hat as (He & _ & Hn & _). unfold emitted. lia.
Qed.

(** The rows before the one under the cursor do not exceed it. *)
Lemma at_row_before content c b :
  at_row content c → ic_batch c = Some b →
  Forall (λ y, key_le (key_of y) (key_of (row_of b (ic_row_index c)))) (take (emitted c) (content_rows content)).
Proof.
  intros Hat Eb. destruct (at_row_head _ _ _ Hat Eb) as (_ & Hl & _). apply Forall_lookup. intros j y [Hy Hj]%lookup_take_Some.
  apply lookup_lt_Some in Hl as Hlt. destruct (lookup_lt_is_Some_2 (loaded content c) j) as [z Hz]; [lia|].
  pose proof (loaded_prefix _ _ _ _ Hz) as Hz'. rewrite Hy in Hz'. injection Hz' as <-.
  eapply keys_sorted_lookup; [apply (od_sorted _ _ (bw_observed _ _ (ar_between _ _ Hat))) | exact Hz | exact Hl | lia].
Qed.

Lemma next_row_Ok content c c' more :
  at_row content c → next_row c = Ok (c', more) →
  ic_input c' = ic_input c ∧ is_Some (ic_batch c) ∧ ic_rows_emitted c' = ic_rows_emitted c + 1 ∧
  if more then at_row content c' ∧ is_Some (ic_batch c') else between content c' ∧ ic_rows_emitted c' = ic_rows_loaded c'.
Proof.
  intros [[Ho Hst Hld Hreg Hgen Hf] Hat] H. unfold next_row in H. apply bind_Ok in H as (e & He%ok_or_Ok & H).
  apply bind_Ok in H as (i & Hi%ok_or_Ok & H). apply bind_Ok in H as (b & Hb%ok_or_Ok & [= <- <-]).
  apply narrow_Some in He as [-> _]. apply narrow_Some in Hi as [-> _]. rewrite Hb in Hat.
  destruct Hat as (k & Hk & Hc & Hlt & He). rewrite Nat2Z.id. cbn [ic_row_index]. split_and!; [done | by rewrite Hb | done|].
  assert (Hbw : ∀ c', position c' = (ic_input c, ic_stream c, ic_batch c, S (ic_row_index c), ic_batch_generation c, ic_rows_emitted c + 1) →
    observed (loaded content c) c' → ic_rows_loaded c' = ic_rows_loaded c → between content c').
  { intros c' [= E1 E2 E3 E4 E5 E6] Ho' El. split; unfold loaded, ic_registered_rows in *; rewrite ?E2, ?El, ?E1, ?E5; done. }
  destruct (Nat.ltb_spec (S (ic_row_index c)) (num_rows b)) as [Hm|Hm].
  - split; [split|]; [apply Hbw; [done | by destruct Ho; split | done] | | by rewrite Hb]. cbn. rewrite Hb.
    exists k. split_and!; [done | done | done | lia].
  - split; [apply Hbw; [done | by destruct Ho; split | done]|]. cbn. rewrite Hld. unfold loaded.
    rewrite Hk, (content_rows_snoc _ _ _ Hc), length_app, rows_of_length. lia.
Qed.

(** The bytes that the row at a position is counted with. *)
Definition row_estimate (input : CompactionInputSegment) (k : Z) : Z :=
  let total := Z.max (ci_uncompressed_bytes input) (ci_rows input) in
  total / ci_rows input + (if k <? total mod ci_rows input then 1 else 0).

(** What each row of a segment is estimated at least. *)
Definition row_floor (input : CompactionInputSegment) : Z :=
  Z.max (ci_uncompressed_bytes input) (ci_rows input) / ci_rows input.

Lemma row_estimate_floor input k : row_floor input ≤ row_estimate input k.
Proof. unfold row_floor, row_estimate. cbv zeta. destruct (_ <? _); lia. Qed.

Lemma selected_row_Ok content c i s :
  at_row content c → selected_row c i = Ok s →
  ∃ b, ic_batch c = Some b ∧ s = {| sl_input_index := i; sl_batch_generation := Z.of_nat (ic_stream c); sl_batch := b;
    sl_row_index := ic_row_index c; sl_key := key_of (row_of b (ic_row_index c));
    sl_event_time := row_event_time (row_of b (ic_row_index c)); sl_ingestion_time := row_ingestion_time (row_of b (ic_row_index c));
    sl_estimated_uncompressed_bytes := row_estimate (ic_input c) (ic_rows_emitted c) |}.
Proof.
  intros Hat H. unfold selected_row in H. apply bind_Ok in H as (b & Hb%ok_or_Ok & H). exists b. split; [done|].
  apply bind_Ok in H as (times & Ht & H). apply bind_Ok in H as (ingestion & Hg & H). apply bind_Ok in H as (e & He & H).
  apply bind_Ok in H as (k & Hk & H). apply bind_Ok in H as (t & Ht' & H). apply bind_Ok in H as (g & Hg' & [= <-]).
  unfold estimated_row_bytes in He. apply bind_Ok in He as (u & _ & [= <-]).
  rewrite (bw_generation _ _ (ar_between _ _ Hat)). apply row_key_row in Hk as [-> _].
  unfold row_event_time, row_ingestion_time. by rewrite (time_at_row _ _ _ _ _ _ Ht Ht'), (time_at_row _ _ _ _ _ _ Hg Hg').
Qed.

Lemma current_key_Ok content c k :
  at_row content c → current_key c = Ok k → ∃ b, ic_batch c = Some b ∧ k = key_of (row_of b (ic_row_index c)).
Proof.
  intros Hat H. unfold current_key in H. apply bind_Ok in H as (b & Hb%ok_or_Ok & H). apply row_key_row in H as [-> _]. by exists b.
Qed.

Lemma InputCursor_new_between content input : 0 ≤ ci_rows input → between content (InputCursor_new input).
Proof. intros Hr. split; try done; [split; try done; constructor | cbn; lia]. Qed.

End CursorFacts.

(** ** The merge *)

Section MergeFacts.
Context {calendar : Calendar} {query_calendar : QueryCalendar} {postgres : Postgres} {day_start : DayStart}.
Context {env : SpoolEnv} {uuid : UuidText} {backend : Backend} {parquet : ParquetLib} {arrow : ArrowLib}.
Context (schema : Schema) (day : NaiveDate) (inputs : list CompactionInputSegment) (contents : list (list RecordBatch)).

Definition taken_of (c : InputCursor) (content : list RecordBatch) : list Row := take (emitted c) (content_rows content).

(** The rows taken from the inputs, in the order of the inputs. *)
Definition taken (cursors : list InputCursor) : list Row := concat (zip_with taken_of cursors contents).

Lemma taken_split cursors i c content :
  cursors !! i = Some c → contents !! i = Some content →
  ∃ before after, (∀ c', taken (<[i := c']> cursors) = before ++ taken_of c' content ++ after) ∧
    (∀ y, y ∈ before → ∃ j cj k, (j < i)%nat ∧ cursors !! j = Some cj ∧ contents !! j = Some k ∧ y ∈ taken_of cj k) ∧
    (∀ y, y ∈ after → ∃ j cj k, (i < j)%nat ∧ cursors !! j = Some cj ∧ contents !! j = Some k ∧ y ∈ taken_of cj k).
Proof.
  intros Hc Hk. apply lookup_lt_Some in Hc as Hlc. apply lookup_lt_Some in Hk as Hlk.
  exists (concat (zip_with taken_of (take i cursors) (take i contents))),
         (concat (zip_with taken_of (drop (S i) cursors) (drop (S i) contents))). split_and!.
  - intros c'. unfold taken. rewrite <- (take_drop_middle _ _ _ Hk) at 1. rewrite insert_take_drop by done.
    rewrite zip_with_app by (rewrite !length_take; lia). rewrite concat_app. done.
  - intros y (l & Hl%list_elem_of_In & Hy%list_elem_of_In)%list_elem_of_In%in_concat. apply list_elem_of_lookup_1 in Hl as [j Hl].
    apply lookup_zip_with_Some in Hl as (cj & k & -> & [Hj ?]%lookup_take_Some & [Hk' _]%lookup_take_Some). by exists j, cj, k.
  - intros y (l & Hl%list_elem_of_In & Hy%list_elem_of_In)%list_elem_of_In%in_concat. apply list_elem_of_lookup_1 in Hl as [j Hl].
    apply lookup_zip_with_Some in Hl as (cj & k & -> & Hj & Hk'). rewrite lookup_drop in Hj. rewrite lookup_drop in Hk'. exists (S i + j)%nat, cj, k.
    split_and!; [lia | done | done | done].
Qed.

Notation entry k i := {| he_key := k; he_input_index := i |}.

Record merge_ok (ms : MergeState) (out : list Row) : Prop := {
  mo_length : length (ms_cursors ms) = length contents;
  mo_cursors i c content : ms_cursors ms !! i = Some c → contents !! i = Some content →
    at_row schema content c ∧ inputs !! i = Some (ic_input c);
  mo_indexes : NoDup (he_input_index <$> ms_heap ms);
  mo_heap k i : entry k i ∈ ms_heap ms ↔
    ∃ c b, ms_cursors ms !! i = Some c ∧ ic_batch c = Some b ∧ k = key_of (row_of b (ic_row_index c));
  mo_out : out = stable_sort key_of (taken (ms_cursors ms));
  mo_order i ci content y k j : ms_cursors ms !! i = Some ci → contents !! i = Some content → y ∈ taken_of ci content →
    entry k j ∈ ms_heap ms → entry_le (entry (key_of y) i) (entry k j);
  mo_total : ms_total_rows ms = Z.of_nat (length out);
}.

(** The entry of one input; an exhausted input has none. *)
Definition entry_of (c : InputCursor) (i : nat) : list HeapEntry :=
  match ic_batch c with Some b => [entry (key_of (row_of b (ic_row_index c))) i] | None => [] end.

Lemma entry_of_elem c i e : e ∈ entry_of c i ↔ ∃ b, ic_batch c = Some b ∧ e = entry (key_of (row_of b (ic_row_index c))) i.
Proof. unfold entry_of. destruct (ic_batch c) as [b|]; set_solver. Qed.

Lemma heap_pop_elem heap least k i :
  heap_peek heap = Some least → NoDup (he_input_index <$> heap) →
  entry k i ∈ heap_pop heap ↔ entry k i ∈ heap ∧ i ≠ he_input_index least.
Proof.
  intros Hp Hn. unfold heap_pop. rewrite Hp, list_elem_of_filter. apply heap_peek_least in Hp as [Hin _].
  split; intros [H1 H2].
  - split; [done|]. intros ->. apply H1. destruct least as [k' i']. cbn in *. f_equal.
    apply list_elem_of_lookup_1 in H2 as [a Ha]. apply list_elem_of_lookup_1 in Hin as [a' Ha'].
    assert (a = a'); [|congruence]. eapply (NoDup_lookup (he_input_index <$> heap) _ _ i'); [done | |];
      rewrite list_lookup_fmap; [by rewrite Ha | by rewrite Ha'].
  - split; [|done]. intros <-. by apply H2.
Qed.

Lemma heap_pop_indexes heap : NoDup (he_input_index <$> heap) → NoDup (he_input_index <$> heap_pop heap).
Proof.
  intros Hn. unfold heap_pop. destruct (heap_peek heap); [|done]. eapply sublist_NoDup; [done|]. apply fmap_sublist, sublist_filter.
Qed.

(** One row is taken from the input at the top of the heap. *)
Lemma merge_ok_step ms out least c c' content b n :
  merge_ok ms out → heap_peek (ms_heap ms) = Some least →
  ms_cursors ms !! he_input_index least = Some c → contents !! he_input_index least = Some content →
  ic_batch c = Some b → he_key least = key_of (row_of b (ic_row_index c)) →
  at_row schema content c' → ic_input c' = ic_input c → emitted c' = S (emitted c) → n = ms_total_rows ms + 1 →
  merge_ok {| ms_cursors := <[he_input_index least := c']> (ms_cursors ms);
              ms_heap := entry_of c' (he_input_index least) ++ heap_pop (ms_heap ms); ms_total_rows := n |}
    (out ++ [row_of b (ic_row_index c)]).
Proof.
  intros Hm Hp Hc Hk Hb Hkey Hat' Hin Hem ->. set (i := he_input_index least) in *. set (x := row_of b (ic_row_index c)) in *.
  destruct (mo_cursors _ _ Hm _ _ _ Hc Hk) as [Hat Hinput].
  destruct (at_row_head _ _ _ _ Hat Hb) as (_ & _ & Hx). fold x in Hx.
  assert (Etake : taken_of c' content = taken_of c content ++ [x]) by (unfold taken_of; rewrite Hem; by apply take_S_r).
  destruct (heap_peek_least _ _ Hp) as [Hleast Hall]. rewrite Forall_forall in Hall.
  assert (Elst : least = entry (key_of x) i) by (destruct least; cbn in *; by subst).
  assert (Hlt : (i < length (ms_cursors ms))%nat) by by apply lookup_lt_Some in Hc.
  assert (Hcur : ∀ j cj k, <[i := c']> (ms_cursors ms) !! j = Some cj → contents !! j = Some k →
    (j = i ∧ cj = c' ∧ k = content) ∨ (j ≠ i ∧ ms_cursors ms !! j = Some cj)).
  { intros j cj k Hj Hkj. destruct (decide (j = i)) as [->|]; [|by rewrite list_lookup_insert_ne in Hj; auto].
    rewrite list_lookup_insert_eq in Hj by done. left. split_and!; congruence. }
  assert (Horder : ∀ j cj k y, ms_cursors ms !! j = Some cj → contents !! j = Some k → y ∈ taken_of cj k →
    entry_le (entry (key_of y) j) least).
  { intros j cj k y Hj Hkj Hy. rewrite Elst. eapply (mo_order _ _ Hm); [done | done | done|]. by rewrite <- Elst. }
  split; cbn [ms_cursors ms_heap ms_total_rows].
  - rewrite length_insert. apply (mo_length _ _ Hm).
  - intros j cj k Hj Hkj. destruct (Hcur _ _ _ Hj Hkj) as [(-> & -> & ->)|[_ Hj']]; [|by eapply (mo_cursors _ _ Hm)].
    split; [done | by rewrite Hin].
  - rewrite fmap_app. apply NoDup_app. split_and!.
    + unfold entry_of. destruct (ic_batch c'); cbn; [apply NoDup_singleton | constructor].
    + intros j (e & -> & (b' & _ & ->)%entry_of_elem)%list_elem_of_fmap ([k j'] & Ej & He)%list_elem_of_fmap. cbn in Ej. subst j'.
      apply (heap_pop_elem _ _ _ _ Hp (mo_indexes _ _ Hm)) in He as [_ []]. done.
    + apply heap_pop_indexes, (mo_indexes _ _ Hm).
  - intros k j. rewrite elem_of_app, entry_of_elem, (heap_pop_elem _ _ _ _ Hp (mo_indexes _ _ Hm)), (mo_heap _ _ Hm). fold i.
    destruct (decide (j = i)) as [->|Hne].
    + rewrite list_lookup_insert_eq by done. naive_solver.
    + rewrite list_lookup_insert_ne by done. naive_solver.
  - destruct (taken_split _ _ _ _ Hc Hk) as (before & after & Esplit & Hbefore & Hafter).
    pose proof (Esplit c) as Eold. rewrite list_insert_id in Eold by done. rewrite (Esplit c'), Etake, (mo_out _ _ Hm), Eold.
    replace (before ++ (taken_of c content ++ [x]) ++ after) with ((before ++ taken_of c content) ++ x :: after)
      by by rewrite <- !app_assoc.
    rewrite (stable_sort_last key_of x); [by rewrite <- app_assoc| |].
    + apply Forall_app. split; apply Forall_forall; intros y Hy.
      * destruct (Hbefore _ Hy) as (j & cj & k & Hj & Hcj & Hkj & Hyj). specialize (Horder _ _ _ _ Hcj Hkj Hyj).
        rewrite Elst in Horder. destruct Horder as [H|[H _]]; cbn in H; [by apply key_lt_le | rewrite H; apply key_le_refl].
      * specialize (Horder _ _ _ _ Hc Hk Hy).
        rewrite Elst in Horder. destruct Horder as [H|[H _]]; cbn in H; [by apply key_lt_le | rewrite H; apply key_le_refl].
    + apply Forall_forall. intros y Hy. destruct (Hafter _ Hy) as (j & cj & k & Hj & Hcj & Hkj & Hyj).
      specialize (Horder _ _ _ _ Hcj Hkj Hyj). rewrite Elst in Horder. destruct Horder as [H|[_ H]]; cbn in H; [done | lia].
  - intros j cj k y key l Hj Hkj Hy He. apply elem_of_app in He as [He|He].
    + apply entry_of_elem in He as (b' & Hb' & [= -> ->]).
      assert (Hle : entry_le least (entry (key_of (row_of b' (ic_row_index c'))) i)).
      { pose proof (at_row_before _ _ _ _ Hat' Hb') as Hbef. fold (taken_of c' content) in Hbef. rewrite Etake in Hbef.
        apply Forall_app in Hbef as [_ Hbef]. apply Forall_cons in Hbef as [Hbef _]. rewrite Elst.
        apply key_le_cases in Hbef as [?|Ek]; [by left | right; cbn; by rewrite Ek]. }
      destruct (Hcur _ _ _ Hj Hkj) as [(-> & -> & ->)|[_ Hj']]; [|by eapply entry_le_trans; [eapply Horder|]].
      rewrite Etake in Hy. apply elem_of_app in Hy as [Hy|Hy]; [by eapply entry_le_trans; [eapply Horder|]|].
      apply list_elem_of_singleton in Hy as ->. by rewrite <- Elst.
    + apply (heap_pop_elem _ _ _ _ Hp (mo_indexes _ _ Hm)) in He as [He Hl].
      destruct (Hcur _ _ _ Hj Hkj) as [(-> & -> & ->)|[_ Hj']]; [|by eapply (mo_order _ _ Hm)].
      rewrite Etake in Hy. apply elem_of_app in Hy as [Hy|Hy]; [by eapply (mo_order _ _ Hm)|].
      apply list_elem_of_singleton in Hy as ->. rewrite <- Elst. by apply Hall.
  - rewrite (mo_total _ _ Hm), length_app. cbn. lia.
Qed.

(** When no input is left, all rows have been merged. *)
Lemma merge_ok_end ms out :
  merge_ok ms out → ms_heap ms = [] → length inputs = length contents →
  out = stable_sort key_of (contents ≫= content_rows) ∧ Forall2 (content_registered schema) contents inputs.
Proof.
  intros Hm Hh Hl. assert (Hend : ∀ i c content, ms_cursors ms !! i = Some c → contents !! i = Some content → ic_batch c = None).
  { intros i c content Hc Hk. destruct (ic_batch c) as [b|] eqn:Eb; [|done].
    assert (entry (key_of (row_of b (ic_row_index c))) i ∈ ms_heap ms) as Hin by (apply (mo_heap _ _ Hm); by exists c, b).
    rewrite Hh in Hin. by apply elem_of_nil in Hin. }
  split.
  - rewrite (mo_out _ _ Hm). f_equal. unfold taken. transitivity (concat (content_rows <$> contents)); [f_equal|].
    + apply list_eq. intros i. rewrite lookup_zip_with, list_lookup_fmap. destruct (contents !! i) as [k|] eqn:Ek.
      * destruct (lookup_lt_is_Some_2 (ms_cursors ms) i) as [c Hc]; [rewrite (mo_length _ _ Hm); by apply lookup_lt_Some in Ek|].
        rewrite Hc. cbn. unfold taken_of. destruct (mo_cursors _ _ Hm _ _ _ Hc Ek) as [Hat _].
        rewrite (at_row_end _ _ _ Hat); [by rewrite take_ge | by eapply Hend].
      * by destruct (ms_cursors ms !! i).
    + clear. induction contents as [|k ks IH]; [done|]. cbn. by rewrite IH.
  - apply Forall2_same_length_lookup. split; [done|]. intros i k input Hk Hi.
    destruct (lookup_lt_is_Some_2 (ms_cursors ms) i) as [c Hc]; [rewrite (mo_length _ _ Hm); by apply lookup_lt_Some in Hk|].
    destruct (mo_cursors _ _ Hm _ _ _ Hc Hk) as [[_ Hat] Hin]. rewrite (Hend _ _ _ Hc Hk) in Hat. rewrite Hi in Hin. injection Hin as ->. apply Hat.
Qed.

End MergeFacts.

(** ** Outputs *)

Section OutputFacts.
Context {calendar : Calendar} {query_calendar : QueryCalendar} {calendar_laws : QueryCalendarLaws} {postgres : Postgres}.
Context {day_start : DayStart} {env : SpoolEnv} {uuid : UuidText} {arrow : ArrowLib} {arrow_laws : ArrowLaws}.
Context (schema : Schema) (contents : list (list RecordBatch)).

Definition source_batch (b : RecordBatch) : Prop :=
  rb_fields b = arrow_schema schema ∧ ∃ content, content ∈ contents ∧ b ∈ content.

(** An accumulator holds the given rows. *)
Record accumulates (a : OutputAccumulator) (rows : list Row) : Prop := {
  ac_sources : Forall source_batch (oa_source_batches a);
  ac_indexes i g s : oa_source_indexes a !! (i, g) = Some s →
    ∃ content k b, contents !! i = Some content ∧ g = Z.of_nat (S k) ∧ content !! k = Some b ∧ oa_source_batches a !! s = Some b;
  ac_selections : Forall2 (λ x r, ∃ b, oa_source_batches a !! x.1 = Some b ∧ (x.2 < num_rows b)%nat ∧ r = row_of b x.2)
    (oa_selections a) rows;
  ac_minimum_event : oa_minimum_event_time a = foldl opt_min None (row_event_time <$> rows);
  ac_maximum_event : oa_maximum_event_time a = foldl opt_max None (row_event_time <$> rows);
  ac_minimum_ingestion : oa_minimum_ingestion_time a = foldl opt_min None (row_ingestion_time <$> rows);
  ac_maximum_ingestion : oa_maximum_ingestion_time a = foldl opt_max None (row_ingestion_time <$> rows);
  ac_rows : Z.of_nat (length rows) ≤ oa_target_rows a;
  ac_bytes : oa_estimated_uncompressed_bytes a ≤ oa_target_uncompressed_bytes a;
}.

Lemma accumulates_new day target_rows target_bytes :
  0 ≤ target_rows → 0 ≤ target_bytes → accumulates (OutputAccumulator_new day target_rows target_bytes) [].
Proof. intros Hr Hb. by split. Qed.

Lemma can_accept_true a bytes :
  can_accept a bytes = Ok true → bytes ≤ oa_target_uncompressed_bytes a ∧
    (length (oa_selections a) = 0%nat ∨
     Z.of_nat (length (oa_selections a)) < oa_target_rows a ∧ oa_estimated_uncompressed_bytes a + bytes ≤ oa_target_uncompressed_bytes a).
Proof.
  unfold can_accept. intros H. apply bind_Ok in H as (u & Hb%check_Ok%negb_true_iff & H). apply orb_false_iff in Hb as [_ Hb].
  rewrite Z.gtb_ltb, Z.ltb_ge in Hb. split; [done|]. destruct (Nat.eqb_spec (length (oa_selections a)) 0) as [|Hn]; [by left|]. right.
  apply bind_Ok in H as (p & Hp%ok_or_Ok & [= H]). apply narrow_Some in Hp as [-> _].
  apply andb_true_iff in H as [H1%Z.ltb_lt H2%Z.leb_le]. done.
Qed.

Lemma append_selected_Ok a rows s a' content k :
  accumulates a rows → 1 ≤ oa_target_rows a → oa_estimated_uncompressed_bytes a = 0 ∨ rows ≠ [] →
  can_accept a (sl_estimated_uncompressed_bytes s) = Ok true →
  contents !! sl_input_index s = Some content → sl_batch_generation s = Z.of_nat (S k) → content !! k = Some (sl_batch s) →
  rb_fields (sl_batch s) = arrow_schema schema → (sl_row_index s < num_rows (sl_batch s))%nat →
  sl_event_time s = row_event_time (row_of (sl_batch s) (sl_row_index s)) →
  sl_ingestion_time s = row_ingestion_time (row_of (sl_batch s) (sl_row_index s)) →
  append_selected a s = Ok a' →
  accumulates a' (rows ++ [row_of (sl_batch s) (sl_row_index s)]) ∧
  oa_estimated_uncompressed_bytes a' = oa_estimated_uncompressed_bytes a + sl_estimated_uncompressed_bytes s ∧
  oa_event_day a' = oa_event_day a ∧ oa_target_rows a' = oa_target_rows a ∧
  oa_target_uncompressed_bytes a' = oa_target_uncompressed_bytes a.
Proof.
  intros [Hs Hi Hsel H1 H2 H3 H4 Hr Hb] Htarget Hzero (Hmax & Hroom)%can_accept_true Hc Hg Hk Hf Hidx Ht Hin H.
  unfold append_selected in H. apply Forall2_length in Hsel as Hlen.
  assert (∃ index batches indexes, match oa_source_indexes a !! (sl_input_index s, sl_batch_generation s) with
      | Some index => (index, oa_source_batches a, oa_source_indexes a)
      | None => (length (oa_source_batches a), oa_source_batches a ++ [sl_batch s],
                 <[(sl_input_index s, sl_batch_generation s) := length (oa_source_batches a)]> (oa_source_indexes a))
      end = (index, batches, indexes) ∧ batches !! index = Some (sl_batch s) ∧ oa_source_batches a `prefix_of` batches ∧
      Forall source_batch batches ∧
      ∀ i g x, indexes !! (i, g) = Some x →
        ∃ content k b, contents !! i = Some content ∧ g = Z.of_nat (S k) ∧ content !! k = Some b ∧ batches !! x = Some b)
    as (index & batches & indexes & E & Hindex & Hpre & Hsrc & Hmap).
  { destruct (oa_source_indexes a !! _) as [index|] eqn:Elook.
    - do 3 eexists. split; [done|]. destruct (Hi _ _ _ Elook) as (content' & k' & b' & Hc' & Hg' & Hk' & Hx). split_and!; try done.
      assert (k' = k) as -> by lia. assert (content' = content) as -> by congruence. congruence.
    - do 3 eexists. split; [done|]. split_and!; [by rewrite lookup_app_r, Nat.sub_diag by lia | by eexists | |].
      + apply Forall_app. split; [done|]. constructor; [|done]. split; [done|]. exists content.
        split; by eapply list_elem_of_lookup_2.
      + intros i g x Hx. destruct (decide ((i, g) = (sl_input_index s, sl_batch_generation s))) as [[= -> ->]|Hne].
        * rewrite lookup_insert_eq in Hx. injection Hx as <-. exists content, k, (sl_batch s).
          split_and!; [done | done | done | by rewrite lookup_app_r, Nat.sub_diag by lia].
        * rewrite lookup_insert_ne in Hx by done. destruct (Hi _ _ _ Hx) as (content' & k' & b' & ? & ? & ? & Hb').
          exists content', k', b'. split_and!; try done. by apply lookup_app_l_Some. }
  rewrite E in H. apply bind_Ok in H as (e & He%ok_or_Ok & [= <-]). apply narrow_Some in He as [-> _]. split; [|done].
  destruct Hpre as [extra Epre].
  split; cbn [oa_source_batches oa_source_indexes oa_selections oa_minimum_event_time oa_maximum_event_time oa_minimum_ingestion_time
    oa_maximum_ingestion_time oa_target_rows oa_estimated_uncompressed_bytes oa_target_uncompressed_bytes]; try done.
  - apply Forall2_app.
    + eapply Forall2_impl; [done|]. intros x r (b & Hb' & ? & ?). exists b. split_and!; [|done..]. rewrite Epre. by apply lookup_app_l_Some.
    + constructor; [|constructor]. by exists (sl_batch s).
  - by rewrite fmap_app, foldl_app, <- H1, Ht.
  - by rewrite fmap_app, foldl_app, <- H2, Ht.
  - by rewrite fmap_app, foldl_app, <- H3, Hin.
  - by rewrite fmap_app, foldl_app, <- H4, Hin.
  - rewrite length_app. cbn. rewrite Hlen in Hroom. destruct Hroom as [?|[? _]]; lia.
  - destruct Hroom as [E0|[_ ?]]; [|done]. rewrite Hlen in E0. apply nil_length_inv in E0 as ->. destruct Hzero as [->|?]; [lia | done].
Qed.

(** An instant of whole milliseconds. *)
Definition whole (t : DateTime) : Prop := from_timestamp_millis (instant_millis t) = Some t.

Definition whole_times (times : SegmentTimes) : Prop :=
  whole (minimum_event_time times) ∧ whole (maximum_event_time times) ∧
  whole (minimum_ingestion_time times) ∧ whole (maximum_ingestion_time times).

(** The bounds of rows, as the descriptor of a segment states them. *)
Definition exact_times (rows : list Row) (times : SegmentTimes) : Prop :=
  foldl opt_min None (row_event_time <$> rows) = Some (instant_millis (minimum_event_time times)) ∧
  foldl opt_max None (row_event_time <$> rows) = Some (instant_millis (maximum_event_time times)) ∧
  foldl opt_min None (row_ingestion_time <$> rows) = Some (instant_millis (minimum_ingestion_time times)) ∧
  foldl opt_max None (row_ingestion_time <$> rows) = Some (instant_millis (maximum_ingestion_time times)).

Lemma timestamp_Ok o t : timestamp o = Ok t → o = Some (instant_millis t) ∧ whole t.
Proof.
  unfold timestamp, whole. intros H%ok_or_Ok. apply bind_Some in H as (z & -> & H). by rewrite (millis_exact _ _ H).
Qed.

Lemma output_column_Ok a rows j column :
  accumulates a rows → Forall (Forall batch_ok) contents → oa_source_batches a ≠ [] → output_column a j = Ok column →
  array_len column = length rows ∧
  ∀ k r, rows !! k = Some r → r !! j = Some (array_slice column k 1).
Proof.
  intros Hacc Hok Hne H. unfold output_column in H. apply bind_Ok in H as (sources & Hs & H). apply bind_Ok in H as (u & _ & H%ok_or_Ok).
  apply try_map_Ok in Hs. destruct Hacc as [Hsrc _ Hsel _ _ _ _ _ _]. apply Forall2_length in Hsel as Hlen. apply Forall2_length in Hs as Hsl.
  assert (Hbatch : ∀ b, source_batch b → batch_ok b).
  { intros b (_ & content & Hc & Hb). rewrite Forall_forall in Hok. specialize (Hok _ Hc). rewrite Forall_forall in Hok. by apply Hok. }
  assert (Hcol : ∀ s b, oa_source_batches a !! s = Some b → ∃ source, sources !! s = Some source ∧ rb_columns b !! j = Some source).
  { intros s b Hb. destruct (Forall2_lookup_l _ _ _ _ _ Hs Hb) as (source & Hsource & E). apply ok_or_Ok in E. by exists source. }
  assert (Hcol' : ∀ source, source ∈ sources → ∃ b, source_batch b ∧ rb_columns b !! j = Some source).
  { intros source [s Hsource]%list_elem_of_lookup_1. destruct (Forall2_lookup_r _ _ _ _ _ Hs Hsource) as (b & Hb & E%ok_or_Ok).
    exists b. split; [|done]. rewrite Forall_forall in Hsrc. by eapply Hsrc, list_elem_of_lookup_2. }
  destruct (arrow_schema schema !! j) as [f|] eqn:Ef.
  2: { destruct (oa_source_batches a) as [|b bs] eqn:Eb; [done|]. destruct (Hcol 0%nat b eq_refl) as (source & _ & Hj).
       apply Forall_cons in Hsrc as [Hb _]. pose proof (Forall2_length _ _ _ (bo_types _ (Hbatch _ Hb))) as El.
       destruct Hb as [Hb _]. apply lookup_ge_None_1 in Ef. apply lookup_lt_Some in Hj. rewrite Hb in El. lia. }
  destruct (mutable_array_spec sources (af_data_type f) (oa_selections a)) as (column' & E & Hty & Hl & Hcells).
  { intros ->. apply Hne. by apply nil_length_inv. }
  { apply Forall_forall. intros source (b & Hb & Hj)%Hcol'. pose proof (bo_types _ (Hbatch _ Hb)) as Ht.
    destruct Hb as [Hb _]. rewrite Hb in Ht. destruct (Forall2_lookup_l _ _ _ _ _ Ht Ef) as (source' & Hj' & E). congruence. }
  { apply Forall_lookup. intros k x Hx. destruct (Forall2_lookup_l _ _ _ _ _ Hsel Hx) as (r & _ & b & Hb & Hr & _).
    destruct (Hcol _ _ Hb) as (source & Hsource & Hj). exists source. split; [done|].
    assert (Hbo : batch_ok b) by (apply Hbatch; rewrite Forall_forall in Hsrc; by eapply Hsrc, list_elem_of_lookup_2).
    pose proof (bo_lengths _ Hbo) as Hbl. rewrite Forall_forall in Hbl. rewrite Hbl; [done|]. by eapply list_elem_of_lookup_2. }
  rewrite H in E. injection E as <-. split; [congruence|]. intros k r Hr.
  destruct (Forall2_lookup_r _ _ _ _ _ Hsel Hr) as ([s i] & Hk & b & Hb & Hi & ->). cbn in Hb.
  destruct (Hcells _ _ _ Hk) as (source & Hsource & Eslice). destruct (Hcol _ _ Hb) as (source' & Hsource' & Hj).
  unfold row_of. rewrite list_lookup_fmap, Hj. cbn. congruence.
Qed.

Lemma finish_output_Ok a rows output :
  accumulates a rows → Forall (Forall batch_ok) contents → finish_output a schema = Ok output →
  rows_of (ob_batch output) = rows ∧ rb_fields (ob_batch output) = arrow_schema schema ∧ rows ≠ [] ∧
  exact_times rows (ob_times output) ∧ whole_times (ob_times output) ∧ event_day (ob_times output) = oa_event_day a ∧
  ob_estimated_uncompressed_bytes output = oa_estimated_uncompressed_bytes a.
Proof.
  intros Hacc Hok H. unfold finish_output in H. apply bind_Ok in H as (u & Hne%check_Ok%negb_true_iff & H).
  apply orb_false_iff in Hne as [Hn1%Nat.eqb_neq Hn2%Nat.eqb_neq]. apply bind_Ok in H as (columns & Hc & H).
  apply bind_Ok in H as (batch & Hb%ok_or_Ok & H). apply bind_Ok in H as (t1 & [H1 W1]%timestamp_Ok & H).
  apply bind_Ok in H as (t2 & [H2 W2]%timestamp_Ok & H). apply bind_Ok in H as (t3 & [H3 W3]%timestamp_Ok & H).
  apply bind_Ok in H as (t4 & [H4 W4]%timestamp_Ok & H). apply bind_Ok in H as (times & Ht%map_err_Ok & [= <-]). cbn.
  apply try_new_exact in Hb as ->. apply try_map_Ok in Hc. apply Forall2_length in Hc as Hcl. rewrite length_seq in Hcl.
  assert (Hlr : rows ≠ []). { intros ->. apply Hn1. by rewrite (Forall2_length _ _ _ (ac_selections _ _ Hacc)). }
  assert (Hne : oa_source_batches a ≠ []) by (intros E; by rewrite E in Hn2).
  assert (Hcol : ∀ j column, columns !! j = Some column → array_len column = length rows ∧
    ∀ k r, rows !! k = Some r → r !! j = Some (array_slice column k 1)).
  { intros j column Hj. destruct (Forall2_lookup_r _ _ _ _ _ Hc Hj) as (j' & [-> _]%lookup_seq & E). by eapply output_column_Ok. }
  assert (Hwidth : ∀ r, r ∈ rows → length r = length columns ∧ columns ≠ []).
  { intros r [k Hk]%list_elem_of_lookup_1. destruct (Forall2_lookup_r _ _ _ _ _ (ac_selections _ _ Hacc) Hk) as (x & _ & b & Hb & Hi & ->).
    pose proof (ac_sources _ _ Hacc) as Hsrc. rewrite Forall_forall in Hsrc. apply list_elem_of_lookup_2 in Hb. specialize (Hsrc _ Hb).
    destruct Hsrc as (Hf & content & Hcont & Hbc). rewrite Forall_forall in Hok. specialize (Hok _ Hcont). rewrite Forall_forall in Hok.
    pose proof (Forall2_length _ _ _ (bo_types _ (Hok _ Hbc))) as El. rewrite Hf in El. unfold row_of. rewrite length_fmap.
    split; [congruence|]. intros ->. cbn in Hcl. unfold num_rows in Hi. destruct (rb_columns b); [lia | cbn in El; lia]. }
  assert (Hnum : num_rows {| rb_fields := arrow_schema schema; rb_columns := columns |} = length rows).
  { unfold num_rows. cbn. destruct rows as [|r rs]; [done|]. destruct (Hwidth r) as [_ Hc']; [by left|]. destruct columns as [|c cs]; [done|].
    by destruct (Hcol 0%nat c eq_refl). }
  assert (times = {| event_day := oa_event_day a; minimum_event_time := t1; maximum_event_time := t2;
    minimum_ingestion_time := t3; maximum_ingestion_time := t4 |}) as -> by (unfold SegmentTimes_new in Ht; by repeat case_match; simplify_eq).
  split_and!; [|done|done| |done|done|done].
  - apply list_eq. intros k. destruct (decide (k < length rows)%nat) as [Hk|Hk].
    + rewrite rows_of_lookup by by rewrite Hnum. destruct (lookup_lt_is_Some_2 _ _ Hk) as [r Hr]. rewrite Hr. f_equal.
      apply list_eq. intros j. unfold row_of. rewrite list_lookup_fmap. cbn. destruct (columns !! j) as [c|] eqn:Ej.
      * cbn. destruct (Hcol _ _ Ej) as [_ Hcell]. by rewrite (Hcell _ _ Hr).
      * symmetry. apply lookup_ge_None. apply lookup_ge_None in Ej. destruct (Hwidth r) as [-> _]; [by eapply list_elem_of_lookup_2 | done].
    + rewrite !lookup_ge_None_2; [done | lia | rewrite rows_of_length, Hnum; lia].
  - unfold exact_times. rewrite <- (ac_minimum_event _ _ Hacc), <- (ac_maximum_event _ _ Hacc), <- (ac_minimum_ingestion _ _ Hacc),
      <- (ac_maximum_ingestion _ _ Hacc), H1, H2, H3, H4. done.
Qed.

End OutputFacts.

(** ** Byte estimates *)

Section Estimates.
Context {calendar : Calendar} {query_calendar : QueryCalendar} {postgres : Postgres}.

(** The bytes of the rows that a cursor has given out. *)
Definition spent (c : InputCursor) : Z := sum_Z ((λ k, row_estimate (ic_input c) (Z.of_nat k)) <$> seq 0 (emitted c)).

Lemma spent_next c c' :
  ic_input c' = ic_input c → emitted c' = S (emitted c) → spent c' = spent c + row_estimate (ic_input c) (Z.of_nat (emitted c)).
Proof.
  intros Hi He. unfold spent. rewrite Hi, He, seq_S, fmap_app, sum_Z_app. cbn. lia.
Qed.

Lemma spent_insert cursors i c c' :
  cursors !! i = Some c → sum_Z (spent <$> <[i := c']> cursors) = sum_Z (spent <$> cursors) + (spent c' - spent c).
Proof.
  intros Hc. apply lookup_lt_Some in Hc as Hl. rewrite insert_take_drop by done. rewrite <- (take_drop_middle _ _ _ Hc) at 3.
  rewrite !fmap_app, !sum_Z_app, !fmap_cons. cbn. lia.
Qed.

Lemma sum_estimates q r n : 0 ≤ r →
  sum_Z ((λ k, q + (if Z.of_nat k <? r then 1 else 0)) <$> seq 0 n) = Z.of_nat n * q + Z.min (Z.of_nat n) r.
Proof.
  intros Hr. induction n as [|n IH]; [cbn; lia|]. rewrite seq_S, fmap_app, sum_Z_app, IH. cbn -[Z.mul Z.min].
  destruct (Z.ltb_spec (Z.of_nat n) r); lia.
Qed.

(** A cursor that has given out all rows has spent the bytes of its segment. *)
Lemma spent_all c : 0 < ci_rows (ic_input c) → Z.of_nat (emitted c) = ci_rows (ic_input c) →
  spent c = Z.max (ci_uncompressed_bytes (ic_input c)) (ci_rows (ic_input c)).
Proof.
  intros Hr He. unfold spent, row_estimate. cbv zeta. set (total := Z.max _ _). set (n := ci_rows _) in *.
  rewrite sum_estimates by (apply Z.mod_pos_bound; lia). rewrite He. pose proof (Z.mod_pos_bound total n Hr).
  rewrite Z.min_r by lia. pose proof (Z.div_mod total n). lia.
Qed.

End Estimates.

(** ** Contents of the claimed objects *)

(** The batches that a file is read as. *)
Class ParquetContents := parquet_batches : bytes → Z → list RecordBatch.

(** A stream does not change the store, and what it returns of an object of the size that
    is expected are the batches of its content, in order, or an error. *)
Class ParquetStreamLaws `{BackendView, !ParquetStream, !ParquetContents} : Prop := {
  stream_open_law path size s r s' : stream_open path size s = (r, s') → view s' = view s;
  stream_next_law path size rows k s r s' : stream_next path size rows k s = (r, s') →
    view s' = view s ∧
    ∀ o, view s !! path = Some o → size = Z.of_nat (length (so_bytes o)) →
      match r with
      | Some (Ok b) => parquet_batches (so_bytes o) rows !! k = Some b
      | Some (Err _) => True
      | None => parquet_batches (so_bytes o) rows !! k = None
      end;
  batches_law b rows : Forall batch_ok (parquet_batches b rows);
}.

(** ** Programs that keep the claimed objects *)

Section Programs.
Context {Turn Outside Error : Type} (others : Turn → Outside → Outside) (keep : Outside → Prop).

Notation proc := (proc (Turn := Turn) (Outside := Outside) (Error := Error)).

Definition quiet (turn : Turn) : Prop := ∀ o, keep o → keep (others turn o).

Definition kept (w : World Turn Outside) : Prop := keep w.1 ∧ Forall quiet w.2.

(** What the program returns, when it returns. *)
Definition returns {A} (m : proc A) (Q : A → Prop) : Prop :=
  ∀ w, kept w → wp m w (λ r w', kept w' ∧ match r with Ok a => Q a | Err _ => True end).

Lemma kept_mono {A} (m : proc A) (P Q : A → Prop) : returns m P → (∀ a, P a → Q a) → returns m Q.
Proof. intros Hm HPQ w Hw. eapply wp_mono; [by apply Hm|]. intros [a|e] w' [? ?]; auto. Qed.

Lemma returns_ret {A} (a : A) (Q : A → Prop) : Q a → returns (mret a) Q.
Proof. intros HQ w Hw. by apply wp_ret. Qed.

Lemma returns_raise {A} e (Q : A → Prop) : returns (raise e) Q.
Proof. intros w Hw. by apply wp_raise. Qed.

Lemma kept_bind {A B} (m : proc A) (f : A → proc B) P Q :
  returns m P → (∀ a, P a → returns (f a) Q) → returns (m ≫= f) Q.
Proof.
  intros Hm Hf w Hw. apply wp_bind. eapply wp_mono; [by apply Hm|]. intros [a|e] w' [Hw' Ha]; [by apply Hf | done].
Qed.

Lemma kept_lift {A} (r : result Error A) (Q : A → Prop) : (∀ a, r = Ok a → Q a) → returns (lift_result r) Q.
Proof. intros HQ w Hw. apply wp_lift. destruct r; auto. Qed.

Lemma returns_attempt {A} (m : proc A) (Q : A → Prop) :
  returns m Q → returns (attempt m) (λ r, match r with Ok a => Q a | Err _ => True end).
Proof. intros Hm w Hw. apply wp_attempt. eapply wp_mono; [by apply Hm|]. by intros [a|[e|]] w' [? ?]. Qed.

Lemma returns_await {A} (f : Turn → Outside → A * Outside) (Q : A → Prop) :
  (∀ turn o, keep o → keep (f turn o).2 ∧ Q (f turn o).1) → returns (await others f) Q.
Proof.
  intros Hf [o turns] [Ho Ht]. apply wp_await. destruct turns as [|turn turns]; [done|]. apply Forall_cons in Ht as [Ht Hts].
  destruct (Hf turn (others turn o) (Ht _ Ho)) as [H1 H2]. by destruct (f turn (others turn o)).
Qed.

Lemma returns_iterate_fuel {S A} (I : S → Prop) (body : S → proc (S + A)) (Q : A → Prop) :
  (∀ s, I s → returns (body s) (λ r, match r with inl s' => I s' | inr a => Q a end)) →
  ∀ fuel s, I s → returns (iterate_fuel fuel body s) Q.
Proof.
  intros Hb. induction fuel as [|fuel IH]; intros s Hs; cbn [iterate_fuel]; [by intros w Hw|].
  eapply kept_bind; [by apply Hb|]. intros [s'|a] Hr; [by apply IH | by apply returns_ret].
Qed.

Lemma returns_iterate {S A} (I : S → Prop) (body : S → proc (S + A)) (Q : A → Prop) s :
  (∀ s, I s → returns (body s) (λ r, match r with inl s' => I s' | inr a => Q a end)) → I s → returns (iterate body s) Q.
Proof. intros Hb Hs w Hw. by eapply (returns_iterate_fuel I). Qed.

End Programs.

(** ** The build *)

Section BuildFacts.
Context {calendar : Calendar} {query_calendar : QueryCalendar} {calendar_laws : QueryCalendarLaws} {postgres : Postgres}.
Context {day_start : DayStart} {env : SpoolEnv} {uuid : UuidText} {backend : Backend} {backend_view : BackendView}.
Context {backend_laws : BackendLaws} {parquet : ParquetLib} {arrow : ArrowLib} {arrow_laws : ArrowLaws} {paths : PathLib}.
Context {streams : ParquetStream} {stream_contents : ParquetContents} {stream_laws : ParquetStreamLaws}.
Context (config : WorkerConfig) (claim : CompactionRunClaim) (objects : list bytes).

Notation limits := (wc_limits config).
Notation schema := (rc_schema claim).
Notation day := (rc_event_day claim).
Notation inputs := (rc_inputs claim).

(** The store holds the objects of the claimed segments. *)
Definition holds_inputs (o : Outside) : Prop :=
  Forall2 (λ input b, ci_parquet_bytes input = Z.of_nat (length b) ∧
    ∃ stored, view (w_objects o) !! stream_path input = Some stored ∧ so_bytes stored = b) inputs objects.

Definition contents : list (list RecordBatch) := (λ b, parquet_batches b (bl_reader_batch_rows limits)) <$> objects.

Notation returns := (returns bt_others holds_inputs).

Lemma contents_ok : Forall (Forall batch_ok) contents.
Proof. apply Forall_fmap, Forall_forall. intros b _. apply batches_law. Qed.

Lemma holds_inputs_store o s : view s = view (w_objects o) → holds_inputs o → holds_inputs (set_store s o).
Proof. intros E H. eapply Forall2_impl; [done|]. intros input b (Hl & stored & Hs & Hb). split; [done|]. exists stored. cbn. by rewrite E. Qed.

Lemma contents_length o : holds_inputs o → length inputs = length contents.
Proof. intros H. unfold contents. rewrite length_fmap. by eapply Forall2_length. Qed.

Lemma returns_deadline {A} (f : BuildTurn → Outside → A * Outside) (Q : A → Prop) :
  (∀ turn o, holds_inputs o → holds_inputs (f turn o).2 ∧ Q (f turn o).1) → returns (deadline_run f) Q.
Proof.
  intros Hf. unfold deadline_run, worker_call. eapply kept_bind with (P := λ r, match r with Ok a => Q a | Err _ => True end).
  - apply returns_await. intros turn o Ho. destruct (Hf turn o Ho) as [Hh Hq]. destruct (f turn o) as [a o'].
    by destruct (bt_deadline turn) as [|[]].
  - intros r Hr. apply kept_lift. by intros a ->.
Qed.

Lemma returns_store {A} (m : St → A * St) (Q : A → Prop) :
  (∀ o a s, holds_inputs o → m (w_objects o) = (a, s) → view s = view (w_objects o) ∧ Q a) → returns (store_run m) Q.
Proof.
  intros Hm. apply returns_deadline. intros _ o Ho. destruct (m (w_objects o)) as [a s] eqn:E. destruct (Hm _ _ _ Ho E) as [Hv Ha].
  split; [by apply holds_inputs_store | done].
Qed.

Lemma returns_active : returns ensure_active (λ _, True).
Proof. eapply (kept_bind _ _ _ _ (λ _, True)); [apply returns_await; by intros turn o Ho | intros r _; by apply kept_lift]. Qed.

(** What a cursor is after a step: at a row of its object, or at its end. *)
Definition stepped (content : list RecordBatch) (c : InputCursor) (x : InputCursor * bool) : Prop :=
  at_row schema content x.1 ∧ ic_input x.1 = ic_input c ∧ ic_rows_emitted x.1 = ic_rows_emitted c ∧
  x.2 = bool_decide (is_Some (ic_batch x.1)).

Lemma load_next_batch_returns i c content :
  inputs !! i = Some (ic_input c) → contents !! i = Some content →
  between schema content c → ic_rows_emitted c = ic_rows_loaded c →
  returns (load_next_batch config c schema day) (stepped content c).
Proof.
  intros Hi Hk Hb He. unfold load_next_batch. eapply kept_bind.
  { apply (returns_store _ (λ next, match next with
      | Some (Ok b) => content !! ic_stream c = Some b | Some (Err _) => True | None => content !! ic_stream c = None end)).
    intros o next s Ho Hn. apply stream_next_law in Hn as [Hv Hn]. split; [done|].
    unfold contents in Hk. rewrite list_lookup_fmap in Hk. apply fmap_Some in Hk as (b & Hob & ->).
    destruct (Forall2_lookup_lr _ _ _ _ _ _ Ho Hi Hob) as (Hl & stored & Hs & <-). by apply Hn. }
  intros next Hnext. apply kept_lift. intros [c' more] H. by apply (take_batch_Ok schema day content c next c' more).
Qed.

Lemma advance_returns i c content :
  inputs !! i = Some (ic_input c) → contents !! i = Some content → at_row schema content c →
  returns (advance config c schema day) (λ x, is_Some (ic_batch c) ∧ at_row schema content x.1 ∧ ic_input x.1 = ic_input c ∧
    emitted x.1 = S (emitted c) ∧ x.2 = bool_decide (is_Some (ic_batch x.1))).
Proof.
  intros Hi Hk Hat. unfold advance. eapply kept_bind; [apply kept_lift; intros x; exact id|].
  intros [c' more] H. destruct (next_row_Ok _ _ _ _ _ Hat H) as (Hin & [b Hb] & He & Hmore).
  destruct (at_row_head _ _ _ _ Hat Hb) as [Hpos _].
  assert (Hem : emitted c' = S (emitted c)) by (unfold emitted at 1; lia).
  destruct more.
  - apply returns_ret. destruct Hmore as [Hat' Hs]. cbn. split_and!; [done | done | done | done | by rewrite bool_decide_true].
  - destruct Hmore as [Hbw Hl]. eapply kept_mono; [apply (load_next_batch_returns i _ content); [by rewrite Hin | done | done | done]|].
    intros [c'' more] (Hat' & Hin' & He' & ->). cbn in *. split_and!; [done | done | congruence | unfold emitted in *; lia | done].
Qed.

Lemma open_returns i input content :
  inputs !! i = Some input → contents !! i = Some content → 0 ≤ ci_rows input →
  returns (InputCursor_open config input schema day) (λ c, at_row schema content c ∧ ic_input c = input ∧ emitted c = 0%nat ∧ is_Some (ic_batch c)).
Proof.
  intros Hi Hk Hr. unfold InputCursor_open. cbv zeta. eapply kept_bind; [by apply (kept_lift _ _ _ (λ _, True))|]. intros _ _.
  eapply kept_bind; [apply (returns_store _ (λ _, True)); intros o answer s _ E; by apply probe_spec in E as [? _]|]. intros verified _.
  do 4 (eapply kept_bind; [by apply (kept_lift _ _ _ (λ _, True))|]; intros ? _).
  eapply kept_bind; [apply (returns_store _ (λ _, True)); intros o answer s _ E; by apply stream_open_law in E|]. intros opened _.
  do 2 (eapply kept_bind; [by apply (kept_lift _ _ _ (λ _, True))|]; intros ? _).
  eapply kept_bind; [by apply (returns_await _ _ _ (λ _, True))|]. intros built _.
  eapply kept_bind; [by apply (kept_lift _ _ _ (λ _, True))|]. intros _ _.
  eapply kept_bind; [apply (load_next_batch_returns i (InputCursor_new input) content); [done | done | by apply InputCursor_new_between | done]|].
  intros [c more] (Hat & Hin & He & Hm). cbn in *. eapply kept_bind; [apply kept_lift; intros x; exact id|].
  intros u ->%check_Ok. apply returns_ret. split_and!; [done | done | unfold emitted; by rewrite He | symmetry in Hm; by apply bool_decide_eq_true in Hm].
Qed.

Lemma open_cursors_returns n : ∀ rest ks,
  (∀ j, inputs !! (n + j)%nat = rest !! j) → (∀ j, contents !! (n + j)%nat = ks !! j) → length rest = length ks →
  Forall (λ input, 0 ≤ ci_rows input) rest →
  returns (open_cursors config rest schema day) (λ cs,
    Forall2 (λ c content, at_row schema content c ∧ emitted c = 0%nat ∧ is_Some (ic_batch c)) cs ks ∧ ic_input <$> cs = rest).
Proof.
  intros rest. revert n. induction rest as [|input rest IH]; intros n ks Hi Hk Hl Hr; cbn [open_cursors].
  { destruct ks; [|done]. by apply returns_ret. }
  destruct ks as [|content ks]; [done|]. apply Forall_cons in Hr as [Hr Hrs]. eapply kept_bind.
  { apply (open_returns n input content); [|  | done]; [specialize (Hi 0%nat) | specialize (Hk 0%nat)]; by rewrite Nat.add_0_r in *. }
  intros c (Hat & Hin & He & Hs). eapply kept_bind.
  { apply (IH (S n) ks); [| | by injection Hl | done]; intros j;
      (etransitivity; [|first [exact (Hi (S j)) | exact (Hk (S j))]]); f_equal; lia. }
  intros cs [Hcs Hins]. apply returns_ret. split; [by constructor|]. cbn. by rewrite Hin, Hins.
Qed.

Notation entry k i := {| he_key := k; he_input_index := i |}.

(** The heap has one entry for each cursor. *)
Lemma initial_heap_Ok cursors heap :
  Forall2 (λ c content, at_row schema content c ∧ emitted c = 0%nat ∧ is_Some (ic_batch c)) cursors contents →
  initial_heap cursors = Ok heap →
  NoDup (he_input_index <$> heap) ∧
  ∀ k i, entry k i ∈ heap ↔ ∃ c b, cursors !! i = Some c ∧ ic_batch c = Some b ∧ k = key_of (row_of b (ic_row_index c)).
Proof.
  intros Hcs H. assert (Hgen : ∀ n heap, (n ≤ length cursors)%nat →
    try_fold (λ heap input_index, entry ← heap_entry cursors input_index; Ok (heap_push entry heap)) [] (seq 0 n) = Ok heap →
    NoDup (he_input_index <$> heap) ∧ ∀ k i, entry k i ∈ heap ↔
      (i < n)%nat ∧ ∃ c b, cursors !! i = Some c ∧ ic_batch c = Some b ∧ k = key_of (row_of b (ic_row_index c))).
  { clear heap H. induction n as [|n IH]; intros heap Hn H; [injection H as <-; split; [constructor | intros; rewrite elem_of_nil; naive_solver lia]|].
    rewrite seq_S, try_fold_app in H. apply bind_Ok in H as (heap' & Hh & H). cbn [try_fold] in H. rewrite Nat.add_0_l in H.
    apply bind_Ok in H as (h2 & H & [= <-]). apply bind_Ok in H as (e & He & [= <-]). destruct (IH heap' ltac:(lia) Hh) as [Hnd Hel].
    unfold heap_entry in He. apply bind_Ok in He as (c & Hc%ok_or_Ok & He). apply bind_Ok in He as (k0 & Hk0 & [= <-]).
    destruct (Forall2_lookup_l _ _ _ _ _ Hcs Hc) as (content & _ & Hat & _). destruct (current_key_Ok _ _ _ _ Hat Hk0) as (b & Hb & ->).
    unfold heap_push. split.
    - cbn. constructor; [|done]. intros ([k j] & Ej & Hj%Hel)%list_elem_of_fmap. cbn in Ej. lia.
    - intros k i. rewrite elem_of_cons, Hel. split.
      + intros [[= -> ->]|[Hi ?]]; [split; [lia|]; by exists c, b | split; [lia | done]].
      + intros [Hi (c' & b' & Hc' & Hb' & ->)]. destruct (decide (i = n)) as [->|]; [left; congruence|]. right. split; [lia|]. by exists c', b'. }
  destruct (Hgen _ _ (Nat.le_refl _) H) as [Hnd Hel]. split; [done|]. intros k i. rewrite Hel. split; [by intros [_ ?]|].
  intros (c & b & Hc & Hrest). split; [by apply lookup_lt_Some in Hc | by exists c, b].
Qed.

Lemma start_merge_returns :
  length inputs = length contents → Forall (λ input, 0 ≤ ci_rows input) inputs →
  returns (start_merge config claim) (λ ms, merge_ok schema inputs contents ms [] ∧ sum_Z (spent <$> ms_cursors ms) = 0).
Proof.
  intros Hl Hr. unfold start_merge. eapply kept_bind; [by apply (open_cursors_returns 0 inputs contents)|]. intros cs [Hcs Hins].
  eapply kept_bind; [apply kept_lift; intros x; exact id|]. intros heap Hh. apply returns_ret.
  destruct (initial_heap_Ok _ _ Hcs Hh) as [Hnd Hel].
  assert (Htaken : ∀ c content i, cs !! i = Some c → contents !! i = Some content → taken_of c content = []).
  { intros c content i Hc Hk. destruct (Forall2_lookup_lr _ _ _ _ _ _ Hcs Hc Hk) as (_ & He & _). unfold taken_of. by rewrite He. }
  split.
  - split; cbn [ms_cursors ms_heap ms_total_rows].
    + by eapply Forall2_length.
    + intros i c content Hc Hk. destruct (Forall2_lookup_lr _ _ _ _ _ _ Hcs Hc Hk) as (Hat & _ & _). split; [done|].
      by rewrite <- Hins, list_lookup_fmap, Hc.
    + done.
    + done.
    + unfold taken. replace (concat _) with (@nil Row); [done|]. symmetry. apply concat_nil_Forall, Forall_lookup. intros i l Hi.
      apply lookup_zip_with_Some in Hi as (c & content & -> & Hc & Hk). by eapply Htaken.
    + intros i ci content y k j Hc Hk Hy. rewrite (Htaken _ _ _ Hc Hk) in Hy. by apply elem_of_nil in Hy.
    + done.
  - apply sum_Z_zero. intros c [i Hc]%list_elem_of_lookup_1. destruct (Forall2_lookup_l _ _ _ _ _ Hcs Hc) as (content & _ & _ & He & _).
    unfold spent. by rewrite He.
Qed.

(** Rows whose segments have at least so many bytes for each of their rows. *)
Definition at_least (bytes : Z) : Prop := Forall (λ input, bytes ≤ row_floor input) inputs.

(** The state of the inner loop: the rows of earlier outputs and the ones of this output. *)
Record merging (earlier : list Row) (base : Z) (state : MergeState * OutputAccumulator) (rows : list Row) : Prop := {
  mg_merge : merge_ok schema inputs contents state.1 (earlier ++ rows);
  mg_accumulates : accumulates schema contents state.2 rows;
  mg_empty : oa_estimated_uncompressed_bytes state.2 = 0 ∨ rows ≠ [];
  mg_floor bytes : at_least bytes → bytes * Z.of_nat (length rows) ≤ oa_estimated_uncompressed_bytes state.2;
  mg_spent : base + oa_estimated_uncompressed_bytes state.2 = sum_Z (spent <$> ms_cursors state.1);
  mg_day : oa_event_day state.2 = day;
  mg_target_rows : oa_target_rows state.2 = bl_target_output_rows limits;
  mg_target_bytes : oa_target_uncompressed_bytes state.2 = bl_target_output_uncompressed_bytes limits;
}.

Lemma merge_row_returns earlier base state rows :
  1 ≤ bl_target_output_rows limits → merging earlier base state rows →
  returns (merge_row config claim state) (λ r, ∃ rows', match r with inl s | inr s => merging earlier base s rows' end).
Proof.
  intros Ht Hm. destruct state as [ms a]. unfold merge_row. destruct (heap_peek (ms_heap ms)) as [least|] eqn:Hp; [|apply returns_ret; by exists rows].
  destruct Hm as [Hms Hacc Hemp Hfl Hsp Hday Htr Htb]. cbn [fst snd] in *.
  eapply kept_bind; [apply kept_lift; intros x; exact id|]. intros c Hc%ok_or_Ok.
  assert (∃ content, contents !! he_input_index least = Some content) as [content Hk].
  { apply lookup_lt_is_Some_2. rewrite <- (mo_length _ _ _ _ _ Hms). by apply lookup_lt_Some in Hc. }
  destruct (mo_cursors _ _ _ _ _ Hms _ _ _ Hc Hk) as [Hat Hin].
  eapply kept_bind; [apply kept_lift; intros x; exact id|]. intros s Hs.
  destruct (selected_row_Ok _ _ _ _ _ Hat Hs) as (b & Hb & Es).
  eapply kept_bind; [apply kept_lift; intros x; exact id|]. intros u Hkey%check_Ok%bool_decide_eq_true.
  eapply kept_bind; [apply kept_lift; intros x; exact id|]. intros accepted Hacp.
  destruct accepted; cbn [negb]; [|apply returns_ret; exists rows; by split].
  eapply kept_bind; [apply kept_lift; intros x; exact id|]. intros a' Ha'.
  eapply kept_bind; [apply kept_lift; intros x; exact id|]. intros n Hn%ok_or_Ok. apply narrow_Some in Hn as [-> _].
  eapply kept_bind; [by apply (advance_returns (he_input_index least) c content)|].
  intros [c' more] (_ & Hat' & Hin' & Hem & Hmore). cbn [fst snd] in *.
  pose proof (ar_batch _ _ _ Hat) as Hpos. rewrite Hb in Hpos. destruct Hpos as (k & Hst & Hkb & Hidx & _).
  assert (Hf : rb_fields b = arrow_schema schema).
  { pose proof (bw_fields _ _ _ (ar_between _ _ _ Hat)) as Hf. rewrite Hst, (take_S_r _ _ _ Hkb) in Hf. apply Forall_app in Hf as [_ Hf].
    by apply Forall_cons in Hf as [? _]. }
  destruct (append_selected_Ok schema contents a rows s a' content k) as (Hacc' & Ebytes & Ed & Er & Eb);
    try (rewrite Es; done); [done | lia | done | done | rewrite Es; cbn; by rewrite Hst | done|].
  rewrite Es in Hkey, Ebytes, Hacc'. cbn in Hkey, Ebytes, Hacc'.
  eapply kept_bind; [apply kept_lift; intros x; exact id|]. intros heap Hheap.
  eapply kept_bind; [apply returns_active|]. intros _ _. apply returns_ret. exists (rows ++ [row_of b (ic_row_index c)]).
  assert (Eheap : heap = entry_of c' (he_input_index least) ++ heap_pop (ms_heap ms)).
  { unfold entry_of. destruct (ic_batch c') as [b'|] eqn:Eb'; rewrite Hmore in Hheap; cbn in Hheap; [|by injection Hheap as <-].
    apply bind_Ok in Hheap as (e & He & [= <-]). unfold heap_entry in He. apply lookup_lt_Some in Hc as Hlt.
    rewrite list_lookup_insert_eq in He by done. cbn [ok_or] in He. rewrite bind_ret in He. apply bind_Ok in He as (key & Hkey' & [= <-]).
    destruct (current_key_Ok _ _ _ _ Hat' Hkey') as (b'' & Hb'' & ->). rewrite Eb' in Hb''. by injection Hb'' as ->. }
  subst heap. split; cbn [fst snd ms_cursors].
  - rewrite app_assoc. by eapply merge_ok_step.
  - done.
  - right. by destruct rows.
  - intros bytes Hleast. rewrite length_app, Ebytes. specialize (Hfl bytes Hleast). unfold at_least in Hleast. rewrite Forall_forall in Hleast.
    pose proof (Hleast _ (list_elem_of_lookup_2 _ _ _ Hin)). pose proof (row_estimate_floor (ic_input c) (ic_rows_emitted c)). cbn. lia.
  - rewrite (spent_insert _ _ _ _ Hc), (spent_next c c' Hin' Hem), Ebytes. destruct (at_row_head _ _ _ _ Hat Hb) as [Hz _].
    rewrite Hz. lia.
  - congruence.
  - congruence.
  - congruence.
Qed.

(** What the output of some rows is: a Parquet file of a batch of these rows, registered
    with its exact count and bounds under the claim. *)
Record exact_output (rows : list Row) (output : LocalOutput) : Prop := {
  eo_file : ∃ batch expectation buffers,
    rows_of batch = rows ∧ rb_fields batch = arrow_schema schema ∧
    parquet_write (arrow_schema schema) (writer_properties expectation) batch = (buffers, true) ∧
    describes (lo_object output) (concat buffers);
  eo_object : sd_object (co_descriptor (lo_registration output)) = lo_object output;
  eo_key : ∃ segment_id object_id, od_key (lo_object output) = parquet_key (wc_root config) segment_id object_id ∧
    sd_segment_id (co_descriptor (lo_registration output)) = segment_id;
  eo_size : od_expected_byte_size (lo_object output) ≤ bl_maximum_output_parquet_bytes limits;
  eo_rows : sd_row_count (co_descriptor (lo_registration output)) = Z.of_nat (length rows);
  eo_times : exact_times rows (sd_times (co_descriptor (lo_registration output)));
  eo_whole : whole_times (sd_times (co_descriptor (lo_registration output)));
  eo_day : event_day (sd_times (co_descriptor (lo_registration output))) = day;
  eo_owner : sd_source_id (co_descriptor (lo_registration output)) = rc_source_id claim ∧
    sd_schema_id (co_descriptor (lo_registration output)) = s_id schema;
  eo_run : co_run_id (lo_registration output) = rc_run_id claim;
  eo_expires : co_data_expires_at (lo_registration output) = rc_data_expires_at claim;
  eo_target_rows : 0 < Z.of_nat (length rows) ≤ bl_target_output_rows limits;
  eo_floor bytes : at_least bytes → bytes * Z.of_nat (length rows) ≤ sd_uncompressed_bytes (co_descriptor (lo_registration output));
  eo_target_bytes : sd_uncompressed_bytes (co_descriptor (lo_registration output)) ≤ bl_target_output_uncompressed_bytes limits;
}.

Lemma write_staged root input limit io files staged files' :
  0 ≤ limit → write_parquet_segment root input limit io files = (Ok staged, files') →
  ∃ buffers, parquet_write (px_arrow_schema (pi_expectation input)) (writer_properties (pi_expectation input)) (pi_batch input) = (buffers, true) ∧
    Z.of_nat (length (concat buffers)) ≤ limit ∧ describes (ps_object_descriptor staged) (concat buffers) ∧
    od_key (ps_object_descriptor staged) = px_key (pi_expectation input) ∧ ps_expectation staged = pi_expectation input.
Proof.
  intros Hl H. unfold write_parquet_segment in H. cbv zeta in H. destruct (_ || _); [done|].
  destruct (parquet_write _ _ _) as [buffers complete]. destruct (limited_write _ _ _ _) as [content failure] eqn:Hw.
  unfold remove_incomplete in H. destruct failure as [[]|]; [by destruct (wi_remove_fails io)..|].
  destruct complete; [|by destruct (wi_remove_fails io)]. destruct (validate_parquet_segment _ _ _ _) as [staged'|] eqn:Hv; [|by destruct (wi_remove_fails io)].
  injection H as -> <-. apply limited_write_complete in Hw as [-> Hlen]; [|done].
  destruct (validate_Ok _ _ _ _ _ Hv) as (b & metadata & Hb & _ & _ & _ & He & Hk & Hd). rewrite lookup_insert_eq in Hb. injection Hb as <-.
  exists buffers. split_and!; [done | lia | done | done | done].
Qed.

Lemma registration_Ok run_id d expires registration :
  CompactionOutputRegistration_new run_id d expires = Ok registration →
  registration = {| co_run_id := run_id; co_descriptor := d; co_data_expires_at := expires |}.
Proof.
  unfold CompactionOutputRegistration_new. intros H. destruct (negb _); [done|]. destruct (negb _); [done|].
  repeat (apply bind_Ok in H as (? & _ & H)). by injection H as <-.
Qed.

Lemma write_output_returns a rows :
  0 ≤ bl_maximum_output_parquet_bytes limits → accumulates schema contents a rows → oa_event_day a = day →
  oa_target_rows a = bl_target_output_rows limits → oa_target_uncompressed_bytes a = bl_target_output_uncompressed_bytes limits →
  (∀ bytes, at_least bytes → bytes * Z.of_nat (length rows) ≤ oa_estimated_uncompressed_bytes a) →
  returns (write_output config claim a) (λ output, exact_output rows output ∧
    sd_uncompressed_bytes (co_descriptor (lo_registration output)) = oa_estimated_uncompressed_bytes a).
Proof.
  intros Hmax Hacc Hday Hrows Hbytes Hfloor. unfold write_output. cbv zeta.
  eapply kept_bind; [apply kept_lift; intros x; exact id|]. intros output Ho.
  destruct (finish_output_Ok _ _ _ _ _ Hacc contents_ok Ho) as (Erows & Ef & Hne & Htimes & Hwhole & Ed & Ebytes).
  eapply kept_bind; [by apply (returns_await _ _ _ (λ _, True))|]. intros [segment_id object_id] _.
  eapply kept_bind; [apply kept_lift; intros x; exact id|]. intros input Hin%map_err_Ok.
  eapply kept_bind; [apply kept_lift; intros x; exact id|]. intros limit Hlim%map_err_Ok%ok_or_Ok.
  assert (limit = bl_maximum_output_parquet_bytes limits) as -> by (unfold NonZeroU64_new in Hlim; by destruct (_ =? _); simplify_eq).
  assert (∃ expectation, ParquetSegmentExpectation_new (parquet_key (wc_root config) segment_id object_id) schema (Z.of_nat (length rows)) = Ok expectation ∧
    input = {| pi_expectation := expectation; pi_batch := ob_batch output |}) as (expectation & Hexp & ->).
  { unfold ParquetSegmentInput_new in Hin. apply bind_Ok in Hin as (n & Hn%ok_or_Ok & Hin). apply narrow_Some in Hn as [-> _].
    apply bind_Ok in Hin as (expectation & He & Hin). do 3 apply bind_Ok in Hin as (? & _ & Hin). injection Hin as <-.
    exists expectation. split; [|done]. by rewrite <- Erows, rows_of_length. }
  assert (Hx : px_arrow_schema expectation = arrow_schema schema ∧ px_row_count expectation = Z.of_nat (length rows) ∧
    px_key expectation = parquet_key (wc_root config) segment_id object_id).
  { unfold ParquetSegmentExpectation_new in Hexp. do 3 apply bind_Ok in Hexp as (? & _ & Hexp). by injection Hexp as <-. }
  destruct Hx as (Hxs & Hxr & Hxk).
  eapply (kept_bind _ _ _ _ (λ r, ∀ staged, r = Ok staged → ps_expectation staged = expectation ∧
    od_key (ps_object_descriptor staged) = px_key expectation ∧ ∃ buffers,
      parquet_write (arrow_schema schema) (writer_properties expectation) (ob_batch output) = (buffers, true) ∧
      Z.of_nat (length (concat buffers)) ≤ bl_maximum_output_parquet_bytes limits ∧ describes (ps_object_descriptor staged) (concat buffers))).
  { apply returns_deadline. intros turn o Hho. destruct (write_parquet_segment _ _ _ _ _) as [r files'] eqn:Ew. split; [done|].
    cbn. intros staged ->. apply write_staged in Ew as (buffers & Hw & Hlen & Hd & Hk & He); [|done]. cbn in *. rewrite Hxs in Hw.
    split_and!; [done | done | by exists buffers]. }
  intros written Hwritten. eapply kept_bind; [apply kept_lift; intros x; exact id|]. intros staged Hst%map_err_Ok.
  destruct (Hwritten _ Hst) as (Hse & Hsk & buffers & Hpw & Hlen & Hdesc). clear Hwritten.
  eapply kept_bind; [apply kept_lift; intros x; exact id|]. intros n Hn%map_err_Ok.
  eapply kept_bind; [apply kept_lift; intros x; exact id|]. intros bytes Hb%map_err_Ok.
  assert (n = Z.of_nat (length rows)) as ->.
  { rewrite Hse, Hxr in Hn. unfold RowCount_new in Hn. apply ok_or_Ok in Hn. unfold NonZeroU64_new in Hn. by destruct (_ =? 0); simplify_eq. }
  assert (bytes = oa_estimated_uncompressed_bytes a) as ->.
  { rewrite Ebytes in Hb. unfold UncompressedByteSize_new in Hb. apply ok_or_Ok in Hb. unfold NonZeroU64_new in Hb. by destruct (_ =? 0); simplify_eq. }
  destruct (_ ≫= _) as [registration|e] eqn:Hreg.
  2: { eapply (kept_bind _ _ _ _ (λ _, True)); [|intros removed _; apply returns_raise].
       apply returns_await. intros turn o Hho. by destruct (bt_remove_fails turn). }
  apply bind_Ok in Hreg as (d & Hd%map_err_Ok & Hreg%map_err_Ok). apply registration_Ok in Hreg as ->.
  unfold SegmentDescriptor_new in Hd. destruct (_ || _); [done|]. injection Hd as <-. apply returns_ret. split; [|done].
  pose proof (ac_rows _ _ _ _ Hacc) as Hr. pose proof (ac_bytes _ _ _ _ Hacc) as Hby. rewrite Hrows in Hr. rewrite Hbytes in Hby.
  split; cbn; try done.
  - exists (ob_batch output), expectation, buffers. done.
  - exists segment_id, object_id. split; [unfold lo_object; cbn; congruence | done].
  - unfold lo_object. cbn. destruct Hdesc as [-> _]. done.
  - congruence.
  - split; [|done]. destruct rows; [done | cbn; lia].
Qed.

Definition output_bytes (output : LocalOutput) : Z := sd_uncompressed_bytes (co_descriptor (lo_registration output)).

Lemma build_output_returns ms earlier base :
  1 ≤ bl_target_output_rows limits → 0 ≤ bl_target_output_uncompressed_bytes limits → 0 ≤ bl_maximum_output_parquet_bytes limits →
  merge_ok schema inputs contents ms earlier → base = sum_Z (spent <$> ms_cursors ms) →
  returns (build_output config claim ms) (λ x, ∃ rows, exact_output rows x.2 ∧
    merge_ok schema inputs contents x.1 (earlier ++ rows) ∧ base + output_bytes x.2 = sum_Z (spent <$> ms_cursors x.1)).
Proof.
  intros Hr Hb Hm Hms Hbase. unfold build_output. eapply kept_bind; [apply returns_active|]. intros _ _. eapply kept_bind.
  { apply (returns_iterate _ _ (λ s, ∃ rows, merging earlier base s rows) _ (λ s, ∃ rows, merging earlier base s rows)).
    - intros s [rows Hs]. eapply kept_mono; [by apply (merge_row_returns earlier base s rows)|]. by intros [s'|s'].
    - exists []. split; cbn; rewrite ?app_nil_r; try done; [apply accumulates_new; [lia | done] | by left | intros; lia | lia]. }
  intros [ms' a] [rows [Hms' Hacc _ Hfl Hsp Hd Htr Htb]]. cbn in *.
  eapply kept_bind; [by apply (write_output_returns a rows)|]. intros output [Ho Eb]. apply returns_ret. exists rows.
  split_and!; [done | done|]. cbn. unfold output_bytes. by rewrite Eb.
Qed.

(** The outputs so far, and the rows they hold. *)
Record built (rowss : list (list Row)) (ms : MergeState) (staging : Z) (outputs : list LocalOutput) : Prop := {
  bt_outputs : Forall2 exact_output rowss outputs;
  bt_merge : merge_ok schema inputs contents ms (concat rowss);
  bt_spent : sum_Z (output_bytes <$> outputs) = sum_Z (spent <$> ms_cursors ms);
  bt_staging : staging = sum_Z ((λ output, od_expected_byte_size (lo_object output)) <$> outputs) ∧ staging ≤ bl_maximum_staging_bytes limits;
}.

Lemma build_next_returns rowss ms staging outputs :
  1 ≤ bl_target_output_rows limits → 0 ≤ bl_target_output_uncompressed_bytes limits → 0 ≤ bl_maximum_output_parquet_bytes limits →
  built rowss ms staging outputs →
  returns (build_next config claim (ms, staging, outputs)) (λ r, match r with
    | inl (ms', staging', outputs') => ∃ rowss', built rowss' ms' staging' outputs'
    | inr (Ok total, outputs') => ∃ rowss' ms' staging', built rowss' ms' staging' outputs' ∧ ms_heap ms' = [] ∧ total = ms_total_rows ms'
    | inr (Err _, _) => True
    end).
Proof.
  intros Hr Hb Hm [Ho Hms Hsp [Est Hst]]. unfold build_next. destruct (Nat.eqb_spec (length (ms_heap ms)) 0) as [E|_].
  { apply returns_ret. exists rowss, ms, staging. by apply nil_length_inv in E. }
  eapply kept_bind; [by apply returns_attempt, (build_output_returns ms (concat rowss) (sum_Z (spent <$> ms_cursors ms)))|].
  intros [[ms' output]|e]; [|by intros _; apply returns_ret]. intros (rows & Hout & Hms' & Hsp'). cbn in *.
  destruct (checked_add U64 _ _) as [total|] eqn:Et; [|by apply returns_ret]. apply narrow_Some in Et as [-> _].
  destruct (Z.gtb_spec (staging + od_expected_byte_size (lo_object output)) (bl_maximum_staging_bytes limits)) as [|Hle]; [by apply returns_ret|].
  destruct (length inputs <=? _)%nat; [by apply returns_ret|]. apply returns_ret. exists (rowss ++ [rows]). split.
  - apply Forall2_app; [done | by constructor].
  - rewrite concat_app. cbn. by rewrite app_nil_r.
  - rewrite fmap_app, sum_Z_app. cbn. lia.
  - rewrite fmap_app, sum_Z_app. cbn. lia.
Qed.

(** What the outputs of a build are. *)
Record exact_build (rowss : list (list Row)) (outputs : list LocalOutput) : Prop := {
  eb_outputs : Forall2 exact_output rowss outputs;
  eb_rows : concat rowss = stable_sort key_of (contents ≫= content_rows);
  eb_inputs : Forall2 (content_registered schema) contents inputs;
  eb_count : Z.of_nat (length (concat rowss)) = rc_input_rows claim;
  eb_fewer : (0 < length outputs < length inputs)%nat;
  eb_bytes : sum_Z (output_bytes <$> outputs) = sum_Z ((λ input, Z.max (ci_uncompressed_bytes input) (ci_rows input)) <$> inputs);
  eb_staging : sum_Z ((λ output, od_expected_byte_size (lo_object output)) <$> outputs) ≤ bl_maximum_staging_bytes limits;
}.

Lemma spent_inputs ms out :
  merge_ok schema inputs contents ms out → ms_heap ms = [] → length inputs = length contents →
  Forall2 (content_registered schema) contents inputs →
  sum_Z (spent <$> ms_cursors ms) = sum_Z ((λ input, Z.max (ci_uncompressed_bytes input) (ci_rows input)) <$> inputs).
Proof.
  intros Hm Hh Hl Hreg. f_equal. apply list_eq. intros i. rewrite !list_lookup_fmap. destruct (ms_cursors ms !! i) as [c|] eqn:Hc.
  - assert (∃ content, contents !! i = Some content) as [content Hk].
    { apply lookup_lt_is_Some_2. rewrite <- (mo_length _ _ _ _ _ Hm). by apply lookup_lt_Some in Hc. }
    destruct (mo_cursors _ _ _ _ _ Hm _ _ _ Hc Hk) as [Hat Hin]. rewrite Hin. cbn. f_equal.
    assert (Hb : ic_batch c = None).
    { destruct (ic_batch c) as [b|] eqn:Eb; [|done]. assert (entry (key_of (row_of b (ic_row_index c))) i ∈ ms_heap ms) as Hel
        by (apply (mo_heap _ _ _ _ _ Hm); by exists c, b). rewrite Hh in Hel. by apply elem_of_nil in Hel. }
    destruct (Forall2_lookup_lr _ _ _ _ _ _ Hreg Hk Hin) as (_ & Hn & _ & Hmin & _). pose proof (at_row_end _ _ _ Hat Hb) as He.
    apply spent_all; [|by rewrite He]. destruct (content_rows content); [done|]. rewrite <- Hn. cbn. lia.
  - symmetry. apply fmap_None, lookup_ge_None. apply lookup_ge_None in Hc. rewrite (mo_length _ _ _ _ _ Hm) in Hc. lia.
Qed.

Lemma build_outputs_returns :
  1 ≤ bl_target_output_rows limits → 0 ≤ bl_target_output_uncompressed_bytes limits → 0 ≤ bl_maximum_output_parquet_bytes limits →
  0 ≤ bl_maximum_staging_bytes limits → length inputs = length contents → Forall (λ input, 0 ≤ ci_rows input) inputs →
  returns (build_outputs config claim) (λ outputs, ∃ rowss, exact_build rowss outputs).
Proof.
  intros Hr Hb Hm Hs Hl Hi. unfold build_outputs. eapply kept_bind; [by apply (kept_lift _ _ _ (λ _, True))|]. intros _ _.
  eapply (kept_bind _ _ _ _ (λ x, ∀ u, x.1 = Ok u → ∃ rowss, exact_build rowss x.2)).
  2: { intros [r outputs] Hx. cbn in Hx. destruct r as [u|e]; [by apply returns_ret, (Hx u)|]. unfold fail_after_cleanup.
       eapply (kept_bind _ _ _ _ (λ _, True)); [|intros ? _; apply returns_raise]. clear Hx.
       induction outputs as [|output outputs IH]; cbn [cleanup_outputs]; [by apply returns_ret|].
       eapply (kept_bind _ _ _ _ (λ _, True)); [|intros [] _; [apply IH | by apply returns_ret]].
       apply returns_await. intros turn o Ho. by destruct (bt_remove_fails turn). }
  unfold build_outputs_inner. eapply kept_bind; [by apply returns_attempt, start_merge_returns|].
  intros [ms|e]; [|by intros _; apply returns_ret]. intros [Hms Hsp]. eapply kept_bind.
  { apply (returns_iterate _ _ (λ s, ∃ rowss, built rowss s.1.1 s.1.2 s.2) _ (λ x, ∀ total, x.1 = Ok total →
      ∃ rowss ms' staging, built rowss ms' staging x.2 ∧ ms_heap ms' = [] ∧ total = ms_total_rows ms')).
    - intros [[ms' staging] outputs] [rowss Hbt]. eapply kept_mono; [by apply (build_next_returns rowss)|].
      intros [[[ms'' staging'] outputs']|[[total|e] outputs']]; [done| |done]. intros Hx total' [= <-]. done.
    - exists []. split; cbn; [constructor | done | done | done]. }
  intros [r outputs] Hx. apply returns_ret. cbn in *. intros u Hu. apply bind_Ok in Hu as (total & -> & Hu).
  destruct (Hx total eq_refl) as (rowss & ms' & staging & [Ho Hms' Hsp' [Est Hst]] & Hh & ->).
  unfold validate_outputs in Hu. apply bind_Ok in Hu as (u1 & Hrows%check_Ok%Z.eqb_eq & Hu%check_Ok%negb_true_iff).
  apply orb_false_iff in Hu as [Hn%Nat.eqb_neq Hf%Nat.leb_gt]. rewrite (mo_total _ _ _ _ _ Hms') in Hrows.
  destruct (merge_ok_end _ _ _ _ _ Hms' Hh Hl) as [Eout Hreg]. exists rowss.
  split; [done | done | done | done | lia | | by rewrite <- Est]. rewrite Hsp'. by eapply spent_inputs.
Qed.

(** C12: compaction neither loses nor invents nor reorders data. While the claimed objects
    stay in the store, whatever else happens there, whenever [build_outputs] returns
    outputs, their rows one after the other are exactly the rows of the claimed segments
    in the order of a stable sort by event time and identity. Each output is the Parquet
    file of its rows, registered with their exact count and time bounds under the claim,
    and is within the targets; there are fewer outputs than inputs; and the byte estimates
    of the outputs add up to those of the inputs. *)
Theorem build_outputs_exact w outputs w' :
  1 ≤ bl_target_output_rows limits → 0 ≤ bl_target_output_uncompressed_bytes limits → 0 ≤ bl_maximum_output_parquet_bytes limits →
  0 ≤ bl_maximum_staging_bytes limits → Forall (λ input, 0 ≤ ci_rows input) inputs →
  holds_inputs w.1 → Forall (quiet bt_others holds_inputs) w.2 →
  build_outputs config claim w = (Ok outputs, w') → ∃ rowss, exact_build rowss outputs.
Proof.
  intros Hr Hb Hm Hs Hi Hw Ht H.
  exact (proj2 (wp_run _ _ _ _ _ (build_outputs_returns Hr Hb Hm Hs (contents_length _ Hw) Hi w (conj Hw Ht)) H)).
Qed.

(** An output holds as many rows of so many bytes as its target allows. *)
Lemma outputs_hold rowss outputs bytes :
  0 < bytes → at_least bytes → Forall2 exact_output rowss outputs →
  Z.of_nat (length (concat rowss)) ≤ Z.of_nat (length outputs) * (bl_target_output_uncompressed_bytes limits / bytes).
Proof.
  intros Hb Hl. induction 1 as [|rows output rowss outputs Ho Hos IH]; [done|]. cbn [concat]. rewrite length_app. cbn [length].
  assert (Z.of_nat (length rows) ≤ bl_target_output_uncompressed_bytes limits / bytes).
  { apply Z.div_le_lower_bound; [done|]. pose proof (eo_floor _ _ Ho bytes Hl). pose proof (eo_target_bytes _ _ Ho). lia. }
  lia.
Qed.

(** C39: a claim whose rows do not fit into fewer outputs than it has segments is never
    built. When every row of the claimed segments is estimated at [bytes] or more, and one
    output less than there are segments cannot hold all rows, [build_outputs] returns no
    outputs in any run in which the claimed objects stay in the store, although the claim
    may have been chosen and validated as beneficial: these checks divide the totals by the
    targets, while outputs are filled with whole rows. *)
Theorem unfitting_claim_fails w bytes outputs w' :
  1 ≤ bl_target_output_rows limits → 0 ≤ bl_target_output_uncompressed_bytes limits → 0 ≤ bl_maximum_output_parquet_bytes limits →
  0 ≤ bl_maximum_staging_bytes limits → Forall (λ input, 0 ≤ ci_rows input) inputs →
  holds_inputs w.1 → Forall (quiet bt_others holds_inputs) w.2 →
  0 < bytes → at_least bytes →
  (Z.of_nat (length inputs) - 1) * (bl_target_output_uncompressed_bytes limits / bytes) < rc_input_rows claim →
  build_outputs config claim w ≠ (Ok outputs, w').
Proof.
  intros Hr Hb Hm Hs Hi Hw Ht Hpos Hl Hfit H.
  destruct (proj2 (wp_run _ _ _ _ _ (build_outputs_returns Hr Hb Hm Hs (contents_length _ Hw) Hi w (conj Hw Ht)) H)) as [rowss Hx].
  pose proof (outputs_hold _ _ _ Hpos Hl (eb_outputs _ _ Hx)) as Ho. rewrite (eb_count _ _ Hx) in Ho. pose proof (eb_fewer _ _ Hx) as Hf.
  assert (0 ≤ bl_target_output_uncompressed_bytes limits / bytes) by (by apply Z.div_pos). nia.
Qed.

End BuildFacts.
