(* ===== verification/CompactionBuild.v ===== *)
(** * elucid-compaction: builds and the metastore

    What a build returns passes the validation of the metastore, and a build ends. *)

From S2P Require Import Core ErrorCode CatalogTypes CatalogModel CatalogSource Bytes Frame Storage ObjectStore Database Publication CatalogStore Query Arrow ParquetSegment StagingCorrect Turns Processor Compaction CompactionLifecycle QueryCorrect CompactionWorker CompactionMerge Prelude.
Import Schema.

#[local] Open Scope string_scope.
#[local] Open Scope list_scope.
#[local] Open Scope Z_scope.

(** ** The order of instants *)

Class InstantOrder `{Calendar} : Prop := {
  instant_irreflexive a : datetime_ltb a a = false;
  instant_transitive a b c : datetime_ltb a b = true → datetime_ltb b c = true → datetime_ltb a c = true;
  instant_total a b : datetime_ltb a b = true ∨ a = b ∨ datetime_ltb b a = true;
}.

Section Instants.
Context `{InstantOrder}.

Definition latest (d : DateTime) (l : list DateTime) : Prop := d ∈ l ∧ ∀ x, x ∈ l → datetime_ltb d x = false.
Definition earliest (d : DateTime) (l : list DateTime) : Prop := d ∈ l ∧ ∀ x, x ∈ l → datetime_ltb x d = false.

Lemma instant_le_trans a b c : datetime_ltb b a = false → datetime_ltb c b = false → datetime_ltb c a = false.
Proof.
  intros H1 H2. destruct (datetime_ltb c a) eqn:E; [|done]. destruct (instant_total a b) as [Hab|[->|Hab]]; [|congruence|congruence].
  by rewrite (instant_transitive c a b E Hab) in H2.
Qed.

Lemma latest_unique d d' l l' : latest d l → latest d' l' → (∀ x, x ∈ l ↔ x ∈ l') → d = d'.
Proof.
  intros [Hd Hl] [Hd' Hl'] Hel. destruct (instant_total d d') as [E|[->|E]]; [|done|].
  - by rewrite (Hl d') in E by (by apply Hel).
  - by rewrite (Hl' d) in E by (by apply Hel).
Qed.

Lemma foldl_latest l : ∀ d, latest (foldl datetime_max d l) (d :: l).
Proof.
  induction l as [|x l IH]; intros d; cbn [foldl].
  { split; [by left|]. intros x ->%list_elem_of_singleton. apply instant_irreflexive. }
  unfold datetime_max at 2. destruct (datetime_ltb x d) eqn:E; [destruct (IH d) as [Hin Hmax] | destruct (IH x) as [Hin Hmax]].
  - split; [set_solver|]. intros y [->|[->|Hy]%elem_of_cons]%elem_of_cons; [apply Hmax; by left | | apply Hmax; by right].
    destruct (datetime_ltb _ x) eqn:Ex; [|done]. assert (datetime_ltb (foldl datetime_max d l) d = true) as Hd
      by (by eapply instant_transitive). by rewrite (Hmax d) in Hd by (by left).
  - split; [set_solver|]. intros y [->|[->|Hy]%elem_of_cons]%elem_of_cons; [| apply Hmax; by left | apply Hmax; by right].
    apply (instant_le_trans d x); [exact E | apply Hmax; by left].
Qed.

Lemma foldl_earliest l : ∀ d, earliest (foldl datetime_min d l) (d :: l).
Proof.
  induction l as [|x l IH]; intros d; cbn [foldl].
  { split; [by left|]. intros x ->%list_elem_of_singleton. apply instant_irreflexive. }
  unfold datetime_min at 2. destruct (datetime_ltb x d) eqn:E; [destruct (IH x) as [Hin Hmin] | destruct (IH d) as [Hin Hmin]].
  - split; [set_solver|]. intros y [->|[->|Hy]%elem_of_cons]%elem_of_cons; [| apply Hmin; by left | apply Hmin; by right].
    destruct (datetime_ltb d _) eqn:Ed; [|done]. pose proof (instant_transitive x d _ E Ed) as Hx.
    by rewrite (Hmin x) in Hx by by left.
  - split; [set_solver|]. intros y [->|[->|Hy]%elem_of_cons]%elem_of_cons; [apply Hmin; by left | | apply Hmin; by right].
    apply (instant_le_trans _ d); [apply Hmin; by left | exact E].
Qed.

End Instants.

(** ** Extremes of rows *)

Lemma least_row (f : Row → Z) rows m :
  foldl opt_min None (f <$> rows) = Some m → (∃ r, r ∈ rows ∧ f r = m) ∧ ∀ r, r ∈ rows → m ≤ f r.
Proof.
  assert (Hgen : ∀ rows o m, foldl opt_min o (f <$> rows) = Some m →
    ((∃ r, r ∈ rows ∧ f r = m) ∨ o = Some m) ∧ (∀ r, r ∈ rows → m ≤ f r) ∧ ∀ z, o = Some z → m ≤ z).
  { clear. induction rows as [|x rows IH]; intros o m H; cbn [fmap list_fmap foldl] in H.
    - subst o. split_and!; [by right | by intros r ?%elem_of_nil | intros z [= <-]; lia].
    - destruct (IH _ _ H) as (H1 & H2 & H3). unfold opt_min in H1, H3. specialize (H3 _ eq_refl).
      split_and!.
      + destruct H1 as [(r & Hr & <-)|[= <-]]; [left; exists r; by split; [right|]|].
        destruct o as [z|]; cbn; [|left; exists x; by split; [left|]].
        destruct (Z.min_spec z (f x)) as [[_ ->]|[_ ->]]; [by right | left; exists x; by split; [left|]].
      + intros r [->|Hr]%elem_of_cons; [destruct o; cbn in H3; lia | by apply H2].
      + intros z ->. cbn in H3. lia. }
  intros (H1 & H2 & _)%Hgen. split; [by destruct H1 | done].
Qed.

Lemma greatest_row (f : Row → Z) rows m :
  foldl opt_max None (f <$> rows) = Some m → (∃ r, r ∈ rows ∧ f r = m) ∧ ∀ r, r ∈ rows → f r ≤ m.
Proof.
  assert (Hneg : ∀ l o, foldl opt_max o l = Z.opp <$> foldl opt_min (Z.opp <$> o) (Z.opp <$> l)).
  { induction l as [|x l IH]; intros o; cbn [fmap list_fmap foldl]; [destruct o; cbn; [f_equal; lia | done]|]. rewrite IH. do 2 f_equal.
    unfold opt_min, opt_max. destruct o; cbn; f_equal; lia. }
  rewrite Hneg. cbn [fmap option_fmap option_map]. rewrite <- list_fmap_compose. intros (m' & Hm & ->)%fmap_Some.
  destruct (least_row (Z.opp ∘ f) rows m' Hm) as [(r & Hr & Er) Hall]. split.
  - exists r. split; [done|]. cbn in Er. lia.
  - intros x Hx. specialize (Hall x Hx). cbn in Hall. lia.
Qed.

Section Extremes.
Context {calendar : Calendar} {query_calendar : QueryCalendar} {calendar_laws : QueryCalendarLaws}.

Lemma whole_inj a b : whole a → whole b → instant_millis a = instant_millis b → a = b.
Proof. unfold whole. intros Ha Hb E. rewrite E in Ha. congruence. Qed.

(** [t] is the extreme of the rows of a group, in the order [R] of the milliseconds. *)
Definition extreme (R : Z → Z → Prop) (f : Row → Z) (rows : list Row) (t : DateTime) : Prop :=
  (∃ r, r ∈ rows ∧ f r = instant_millis t) ∧ (∀ r, r ∈ rows → R (instant_millis t) (f r)) ∧ whole t.

(** Two ways to group the same rows have the same extreme. *)
Lemma extremes_agree R f groups groups' ts ts' d d' :
  (∀ a b c, R a b → R b c → R a c) → (∀ a b, R a b → R b a → a = b) →
  Forall2 (extreme R f) groups ts → Forall2 (extreme R f) groups' ts' → concat groups ≡ₚ concat groups' →
  d ∈ ts → (∀ t, t ∈ ts → R (instant_millis d) (instant_millis t)) →
  d' ∈ ts' → (∀ t, t ∈ ts' → R (instant_millis d') (instant_millis t)) → d = d'.
Proof.
  intros Htrans Hanti Hg Hg' Hperm Hd Hall Hd' Hall'.
  assert (Hle : ∀ gs gs' us us' e e', Forall2 (extreme R f) gs us → Forall2 (extreme R f) gs' us' → concat gs ≡ₚ concat gs' →
    e ∈ us → (∀ t, t ∈ us → R (instant_millis e) (instant_millis t)) → e' ∈ us' → R (instant_millis e) (instant_millis e')).
  { clear - Htrans. intros gs gs' us us' e e' Hg Hg' Hperm He Hall He'. apply list_elem_of_lookup_1 in He' as [i He'].
    destruct (Forall2_lookup_r _ _ _ _ _ Hg' He') as (rows' & Hrows' & (r & Hr & <-) & _).
    assert (Hin : r ∈ concat gs).
    { rewrite Hperm. apply list_elem_of_In, in_concat. exists rows'. split; apply list_elem_of_In; [by eapply list_elem_of_lookup_2 | done]. }
    apply list_elem_of_In, in_concat in Hin as (rows & Hrows%list_elem_of_In & Hr'%list_elem_of_In).
    apply list_elem_of_lookup_1 in Hrows as [j Hrows]. destruct (Forall2_lookup_l _ _ _ _ _ Hg Hrows) as (t & Ht & _ & Hext & _).
    eapply Htrans; [apply Hall; by eapply list_elem_of_lookup_2 | by apply Hext]. }
  assert (Hw : ∀ gs us e, Forall2 (extreme R f) gs us → e ∈ us → whole e).
  { clear. intros gs us e Hg [i He]%list_elem_of_lookup_1. by destruct (Forall2_lookup_r _ _ _ _ _ Hg He) as (rows & _ & _ & _ & Hw). }
  apply whole_inj; [exact (Hw _ _ _ Hg Hd) | exact (Hw _ _ _ Hg' Hd')|].
  apply Hanti; [exact (Hle _ _ _ _ _ _ Hg Hg' Hperm Hd Hall Hd') | exact (Hle _ _ _ _ _ _ Hg' Hg (symmetry Hperm) Hd' Hall' Hd)].
Qed.

Lemma earliest_millis d l : Forall whole l → earliest d l → ∀ t, t ∈ l → instant_millis d ≤ instant_millis t.
Proof.
  intros Hw [Hd Hl] t Ht. rewrite Forall_forall in Hw. specialize (Hl _ Ht). destruct (Z.lt_ge_cases (instant_millis t) (instant_millis d)) as [E|]; [|done].
  apply (millis_ltb _ _ t (Hw _ Hd)) in E. congruence.
Qed.

Lemma latest_millis d l : Forall whole l → latest d l → ∀ t, t ∈ l → instant_millis t ≤ instant_millis d.
Proof.
  intros Hw [Hd Hl] t Ht. rewrite Forall_forall in Hw. specialize (Hl _ Ht). destruct (Z.lt_ge_cases (instant_millis d) (instant_millis t)) as [E|]; [|done].
  apply (millis_ltb _ _ d (Hw _ Ht)) in E. congruence.
Qed.

End Extremes.

(** ** The validation of the metastore *)

Section Registration.
Context {calendar : Calendar} {query_calendar : QueryCalendar} {calendar_laws : QueryCalendarLaws} {order : InstantOrder}.
Context {postgres : Postgres} {day_start : DayStart} {env : SpoolEnv} {uuid : UuidText} {backend : Backend} {backend_view : BackendView}.
Context {backend_laws : BackendLaws} {parquet : ParquetLib} {arrow : ArrowLib} {arrow_laws : ArrowLaws} {paths : PathLib}.
Context {streams : ParquetStream} {stream_contents : ParquetContents} {stream_laws : ParquetStreamLaws}.
Context (config : WorkerConfig) (claim : CompactionRunClaim) (objects : list bytes).

Notation limits := (wc_limits config).
Notation inputs := (rc_inputs claim).

(** The run of the claim, and the stored row of a claimed segment. *)
Record run_of_claim (run : RunRow) : Prop := {
  rr_id : rn_id run = rc_run_id claim;
  rr_source : rn_source_id run = rc_source_id claim;
  rr_schema : rn_schema_id run = s_id (rc_schema claim);
  rr_day : rn_event_day run = rc_event_day claim;
}.

Record row_of_claim (x : SegmentRow * DateTime) (input : CompactionInputSegment) : Prop := {
  rw_id : sc_segment_id (sg_columns x.1) = sd_segment_id (ci_descriptor input);
  rw_state : sg_state x.1 = "ACTIVE";
  rw_source : sc_source_id (sg_columns x.1) = rc_source_id claim;
  rw_schema : sc_schema_id (sg_columns x.1) = s_id (rc_schema claim);
  rw_rows : sc_row_count (sg_columns x.1) = ci_rows input;
  rw_times : sc_times (sg_columns x.1) = sd_times (ci_descriptor input);
  rw_day : event_day (sd_times (ci_descriptor input)) = rc_event_day claim;
  rw_expires : x.2 = ci_data_expires_at input;
}.

Definition widen_all (b : TimeBounds) (ts : list SegmentTimes) : TimeBounds := foldl widen b ts.

Lemma widen_all_spec ts : ∀ b,
  widen_all b ts =
  {| tb_minimum_event_time := foldl datetime_min (tb_minimum_event_time b) (minimum_event_time <$> ts);
     tb_maximum_event_time := foldl datetime_max (tb_maximum_event_time b) (maximum_event_time <$> ts);
     tb_minimum_ingestion_time := foldl datetime_min (tb_minimum_ingestion_time b) (minimum_ingestion_time <$> ts);
     tb_maximum_ingestion_time := foldl datetime_max (tb_maximum_ingestion_time b) (maximum_ingestion_time <$> ts) |}.
Proof. induction ts as [|t ts IH]; intros b; [by destruct b | exact (IH (widen b t))]. Qed.

Lemma checked_sum_Ok a b : 0 ≤ a → 0 ≤ b → a + b ≤ int_max U64 → checked_sum a b = Ok (a + b).
Proof. intros Ha Hb Hs. unfold checked_sum, checked_add. rewrite (proj2 (narrow_Some U64 (a + b) (a + b))); [done|]. split; [done | int_lia]. Qed.

Lemma total_inputs_Ok run rows ins : ∀ ids n b e,
  run_of_claim run → Forall2 row_of_claim rows ins → Forall (λ input, 0 < ci_rows input) ins →
  NoDup ((λ input, sd_segment_id (ci_descriptor input)) <$> ins) →
  (∀ input, input ∈ ins → sd_segment_id (ci_descriptor input) ∉ ids) → 0 ≤ n → n + sum_Z (ci_rows <$> ins) ≤ int_max U64 →
  ∃ ids', try_fold (total_input run) (ids, n, b, e) rows =
    Ok (ids', n + sum_Z (ci_rows <$> ins), widen_all b (sd_times ∘ ci_descriptor <$> ins),
        foldl datetime_max e (ci_data_expires_at <$> ins)).
Proof.
  intros ids n b e Hrun Hf. revert ids n b e. induction Hf as [|[row exp] input rows ins Hrow Hf IH]; intros ids n b e Hpos Hnd Hids Hn Hsum.
  { exists ids. cbn. by rewrite Z.add_0_r. }
  apply Forall_cons in Hpos as [Hp Hps]. cbn in Hnd. apply NoDup_cons in Hnd as [Hnin Hnd]. destruct Hrow as [E1 E2 E3 E4 E5 E6 E7 E8]. destruct Hrun as [R1 R2 R3 R4].
  rewrite fmap_cons, sum_Z_cons in Hsum.
  assert (0 ≤ sum_Z (ci_rows <$> ins)) by (apply sum_Z_nonneg; intros; rewrite Forall_forall in Hps; by apply Z.lt_le_incl, Hps).
  cbn [try_fold total_input]. cbn [fst snd] in *. rewrite E1, E2, E3, E4, E5, E6, R2, R3. unfold sg_event_day. rewrite E6, E7, R4.
  rewrite bool_decide_false by (apply Hids; by left). rewrite !bool_decide_true, !Z.eqb_refl by done. cbn [orb negb].
  unfold positive_u64. rewrite (proj2 (narrow_Some U64 (ci_rows input) (ci_rows input))) by (split; [done | int_lia]). cbn [mbind option_bind].
  rewrite (proj2 (Z.ltb_lt _ _) Hp). cbn [ok_or]. rewrite bind_ret, checked_sum_Ok by lia. rewrite !bind_ret. rewrite E8.
  destruct (IH ({[sd_segment_id (ci_descriptor input)]} ∪ ids) (n + ci_rows input) (widen b (sd_times (ci_descriptor input)))
    (datetime_max e (ci_data_expires_at input))) as [ids' ->]; [done | done | | lia | lia|].
  - intros other Hother. rewrite not_elem_of_union, not_elem_of_singleton. split; [|apply Hids; by right].
    intros E. apply Hnin. rewrite <- E. apply list_elem_of_fmap. by exists other.
  - exists ids'. rewrite fmap_cons, sum_Z_cons. f_equal. f_equal. f_equal. f_equal. lia.
Qed.

Definition described_output (output : CompactionOutputRegistration) : Prop :=
  sd_source_id (co_descriptor output) = rc_source_id claim ∧ sd_schema_id (co_descriptor output) = s_id (rc_schema claim) ∧
  event_day (sd_times (co_descriptor output)) = rc_event_day claim ∧ co_data_expires_at output = rc_data_expires_at claim ∧
  0 ≤ sd_row_count (co_descriptor output).

Lemma total_outputs_Ok run outputs : ∀ n b,
  run_of_claim run → Forall described_output outputs → 0 ≤ n →
  n + sum_Z ((λ o, sd_row_count (co_descriptor o)) <$> outputs) ≤ int_max U64 →
  try_fold (total_output run (rc_data_expires_at claim)) (n, b) outputs =
    Ok (n + sum_Z ((λ o, sd_row_count (co_descriptor o)) <$> outputs), widen_all b ((λ o, sd_times (co_descriptor o)) <$> outputs)).
Proof.
  intros n b [R1 R2 R3 R4] Hf. revert n b. induction Hf as [|o outputs (E1 & E2 & E3 & E4 & E5) Hf IH]; intros n b Hn Hsum.
  { cbn. by rewrite Z.add_0_r. }
  rewrite fmap_cons, sum_Z_cons in Hsum |- *.
  assert (0 ≤ sum_Z ((λ o, sd_row_count (co_descriptor o)) <$> outputs)).
  { apply sum_Z_nonneg. intros x Hx. rewrite Forall_forall in Hf. apply (Hf _ Hx). }
  cbn [try_fold total_output]. rewrite E1, E2, E3, E4, R2, R3, R4, !Z.eqb_refl, !bool_decide_true by done. cbn [negb orb].
  rewrite checked_sum_Ok by lia. rewrite !bind_ret, IH by lia. f_equal. f_equal. lia.
Qed.

(** ** Bounds *)

Lemma minimum_agrees (f : Row → Z) (p : SegmentTimes → DateTime) groups groups' ts ts' t t' :
  Forall2 (λ rows x, foldl opt_min None (f <$> rows) = Some (instant_millis (p x)) ∧ whole (p x)) groups ts →
  Forall2 (λ rows x, foldl opt_min None (f <$> rows) = Some (instant_millis (p x)) ∧ whole (p x)) groups' ts' →
  concat groups ≡ₚ concat groups' → head ts = Some t → head ts' = Some t' →
  foldl datetime_min (p t) (p <$> ts) = foldl datetime_min (p t') (p <$> ts').
Proof.
  assert (Hone : ∀ gs us u, Forall2 (λ rows x, foldl opt_min None (f <$> rows) = Some (instant_millis (p x)) ∧ whole (p x)) gs us → head us = Some u →
    Forall2 (extreme Z.le f) gs (p <$> us) ∧ foldl datetime_min (p u) (p <$> us) ∈ p <$> us ∧
    ∀ x, x ∈ p <$> us → instant_millis (foldl datetime_min (p u) (p <$> us)) ≤ instant_millis x).
  { intros gs us u Hg Hu. assert (Hin : p u ∈ p <$> us) by (destruct us; [done|]; injection Hu as ->; by left).
    destruct (foldl_earliest (p <$> us) (p u)) as [Hd Hl].
    assert (He : earliest (foldl datetime_min (p u) (p <$> us)) (p <$> us)).
    { split; [apply elem_of_cons in Hd as [->|Hd]; done | intros x Hx; apply Hl; by right]. }
    split_and!; [| apply He | eapply earliest_millis; [|done]].
    - apply Forall2_fmap_r. eapply Forall2_impl; [done|]. intros rows x [Hm Hw]. by apply least_row in Hm as [? ?].
    - apply Forall_fmap, Forall_lookup. intros i x Hx. by destruct (Forall2_lookup_r _ _ _ _ _ Hg Hx) as (rows & _ & _ & Hw). }
  intros Hg Hg' Hp Ht Ht'. destruct (Hone _ _ _ Hg Ht) as (H1 & H2 & H3). destruct (Hone _ _ _ Hg' Ht') as (H1' & H2' & H3').
  eapply (extremes_agree Z.le f groups groups'); [lia | lia | exact H1 | exact H1' | done | done | done | done | done].
Qed.

Lemma maximum_agrees (f : Row → Z) (p : SegmentTimes → DateTime) groups groups' ts ts' t t' :
  Forall2 (λ rows x, foldl opt_max None (f <$> rows) = Some (instant_millis (p x)) ∧ whole (p x)) groups ts →
  Forall2 (λ rows x, foldl opt_max None (f <$> rows) = Some (instant_millis (p x)) ∧ whole (p x)) groups' ts' →
  concat groups ≡ₚ concat groups' → head ts = Some t → head ts' = Some t' →
  foldl datetime_max (p t) (p <$> ts) = foldl datetime_max (p t') (p <$> ts').
Proof.
  assert (Hone : ∀ gs us u, Forall2 (λ rows x, foldl opt_max None (f <$> rows) = Some (instant_millis (p x)) ∧ whole (p x)) gs us → head us = Some u →
    Forall2 (extreme Z.ge f) gs (p <$> us) ∧ foldl datetime_max (p u) (p <$> us) ∈ p <$> us ∧
    ∀ x, x ∈ p <$> us → instant_millis (foldl datetime_max (p u) (p <$> us)) >= instant_millis x).
  { intros gs us u Hg Hu. assert (Hin : p u ∈ p <$> us) by (destruct us; [done|]; injection Hu as ->; by left).
    destruct (foldl_latest (p <$> us) (p u)) as [Hd Hl].
    assert (He : latest (foldl datetime_max (p u) (p <$> us)) (p <$> us)).
    { split; [apply elem_of_cons in Hd as [->|Hd]; done | intros x Hx; apply Hl; by right]. }
    split_and!; [| apply He | intros x Hx; apply Z.le_ge; eapply latest_millis; [|done|done]].
    - apply Forall2_fmap_r. eapply Forall2_impl; [done|]. intros rows x [Hm Hw]. apply greatest_row in Hm as [? Hall].
      split_and!; [done | intros r Hr; by apply Z.le_ge, Hall | done].
    - apply Forall_fmap, Forall_lookup. intros i x' Hx'. by destruct (Forall2_lookup_r _ _ _ _ _ Hg Hx') as (rows & _ & _ & Hw). }
  intros Hg Hg' Hp Ht Ht'. destruct (Hone _ _ _ Hg Ht) as (H1 & H2 & H3). destruct (Hone _ _ _ Hg' Ht') as (H1' & H2' & H3').
  eapply (extremes_agree Z.ge f groups groups'); [lia | lia | exact H1 | exact H1' | done | done | done | done | done].
Qed.

(** The bounds of two groupings of the same rows are the same. *)
Lemma bounds_agree groups groups' ts ts' t t' :
  Forall2 (λ rows x, exact_times rows x ∧ whole_times x) groups ts →
  Forall2 (λ rows x, exact_times rows x ∧ whole_times x) groups' ts' →
  concat groups ≡ₚ concat groups' → head ts = Some t → head ts' = Some t' →
  widen_all (bounds_of t) ts = widen_all (bounds_of t') ts'.
Proof.
  intros Hg Hg' Hp Ht Ht'. rewrite !widen_all_spec. cbn [bounds_of tb_minimum_event_time tb_maximum_event_time tb_minimum_ingestion_time tb_maximum_ingestion_time]. f_equal.
  - eapply (minimum_agrees row_event_time minimum_event_time groups groups'); try done; (eapply Forall2_impl; [done|]); by intros rows x [(? & ? & ? & ?) (? & ? & ? & ?)].
  - eapply (maximum_agrees row_event_time maximum_event_time groups groups'); try done; (eapply Forall2_impl; [done|]); by intros rows x [(? & ? & ? & ?) (? & ? & ? & ?)].
  - eapply (minimum_agrees row_ingestion_time minimum_ingestion_time groups groups'); try done; (eapply Forall2_impl; [done|]); by intros rows x [(? & ? & ? & ?) (? & ? & ? & ?)].
  - eapply (maximum_agrees row_ingestion_time maximum_ingestion_time groups groups'); try done; (eapply Forall2_impl; [done|]); by intros rows x [(? & ? & ? & ?) (? & ? & ? & ?)].
Qed.

(** ** Claims *)

Lemma total_of_Ok f message ins total :
  (∀ input, input ∈ ins → 0 ≤ f input) → total_of f message ins = Ok total → total = sum_Z (f <$> ins) ∧ total ≤ int_max U64.
Proof.
  unfold total_of. intros Hf. assert (Hgen : ∀ n, 0 ≤ n ≤ int_max U64 → try_fold (λ total input, ok_or (checked_add U64 total (f input)) (input_error message)) n ins = Ok total →
    total = n + sum_Z (f <$> ins) ∧ total ≤ int_max U64).
  { induction ins as [|input ins IH]; intros n Hn H; cbn [try_fold] in H; [injection H as <-; rewrite fmap_nil, sum_Z_nil; lia|].
    apply bind_Ok in H as (m & Hm%ok_or_Ok & H). apply narrow_Some in Hm as [-> Hb]. rewrite fmap_cons, sum_Z_cons.
    destruct (IH ltac:(intros; apply Hf; by right) (n + f input)) as [-> Hle]; [|done|split; [lia | exact Hle]].
    specialize (Hf input (list_elem_of_here _ _)). int_lia. }
  intros H. destruct (Hgen 0) as [-> Hle]; [int_lia | done | split; [lia | exact Hle]].
Qed.

Lemma maximum_expiration_latest ins d : maximum_expiration ins = Some d → latest d (ci_data_expires_at <$> ins).
Proof.
  destruct ins as [|first rest]; cbn; [done|]. intros [= <-].
  pose proof (foldl_latest (ci_data_expires_at <$> rest) (ci_data_expires_at first)) as H. by rewrite foldl_fmap in H.
Qed.

Lemma validate_claim_Ok :
  (∀ input, input ∈ inputs → 0 ≤ ci_rows input) → validate_claim claim limits = Ok tt →
  (2 ≤ length inputs)%nat ∧ sum_Z (ci_rows <$> inputs) = rc_input_rows claim ∧ rc_input_rows claim ≤ int_max U64 ∧
  latest (rc_data_expires_at claim) (ci_data_expires_at <$> inputs).
Proof.
  intros Hpos H. unfold validate_claim in H. destruct (_ || _) eqn:E1; [done|]. apply orb_false_iff in E1 as [E1%Nat.ltb_ge _].
  destruct (_ || _); [done|]. apply bind_Ok in H as (n & _ & H). apply bind_Ok in H as (rows & Hrows & H).
  apply bind_Ok in H as (pb & _ & H). apply bind_Ok in H as (ub & _ & H). apply bind_Ok in H as (d & Hd%ok_or_Ok & H).
  apply bind_Ok in H as (t & _ & H). destruct (existsb _ _); [done|]. destruct (_ || _) eqn:E2; [done|].
  rewrite !orb_false_iff, !negb_false_iff in E2. destruct E2 as [[[[[[[_ E2] _] _] _] _] _] E3]. apply Z.eqb_eq in E2. apply bool_decide_eq_true in E3.
  apply total_of_Ok in Hrows as [-> Hmax]; [|done]. subst. split_and!; [done | done | congruence|].
  by apply maximum_expiration_latest.
Qed.

Lemma output_rows_total rowss outputs :
  Forall2 (exact_output config claim) rowss outputs →
  sum_Z ((λ o, sd_row_count (co_descriptor o)) <$> (lo_registration <$> outputs)) = Z.of_nat (length (concat rowss)).
Proof.
  induction 1 as [|rows o rowss outputs Ho Hos IH]; [done|]. rewrite !fmap_cons, sum_Z_cons, IH, (eo_rows _ _ _ _ Ho). cbn [concat].
  rewrite length_app. lia.
Qed.

Lemma bind_concat {A B} (f : A → list B) l : l ≫= f = concat (f <$> l).
Proof. induction l as [|x l IH]; [done|]. cbn. by rewrite IH. Qed.

(** The outputs of a build pass the validation. *)
Lemma exact_build_accepted rowss outputs run rows stored :
  exact_build config claim objects rowss outputs → validate_claim claim limits = Ok tt → (∀ input, input ∈ inputs → 0 ≤ ci_rows input) →
  run_of_claim run → stored ≡ₚ inputs → Forall2 row_of_claim rows stored →
  NoDup ((λ input, sd_segment_id (ci_descriptor input)) <$> inputs) →
  (∀ input, input ∈ inputs → whole_times (sd_times (ci_descriptor input))) →
  validate_registered_output_set run rows (lo_registration <$> outputs) = Ok tt.
Proof.
  intros Hbuild Hclaim Hi Hrun Hperm Hrows Hnd Hwhole.
  destruct (validate_claim_Ok Hi Hclaim) as (Htwo & Hsum & Hmax & Hlatest). destruct Hbuild as [Hout Heb Hreg Hcount Hfewer _ _].
  assert (Hpos : Forall (λ input, 0 < ci_rows input) stored).
  { rewrite Hperm. apply Forall_lookup. intros i input Hin. destruct (Forall2_lookup_r _ _ _ _ _ Hreg Hin) as (content & _ & _ & Hn & _ & Hmin & _).
    rewrite <- Hn. destruct (content_rows content); [done | cbn; lia]. }
  destruct (Permutation_Forall2 (symmetry Hperm) (proj2 (Forall2_flip _ _ _) Hreg)) as (contents' & Hpc & Hreg').
  assert (Hrl : length rows = length inputs) by by rewrite (Forall2_length _ _ _ Hrows), Hperm.
  assert (Hol : length rowss = length outputs) by by eapply Forall2_length.
  assert (∃ output rest, outputs = output :: rest) as (output & rest & Eout) by (destruct outputs; [cbn in Hfewer; lia | by do 2 eexists]).
  assert (∃ first stored', stored = first :: stored') as (first & stored' & Est).
  { destruct stored as [|first stored']; [|by do 2 eexists]. apply Permutation_nil_l in Hperm. rewrite <- Hperm in Htwo. cbn in Htwo. lia. }
  unfold validate_registered_output_set.
  assert (E1 : head (lo_registration <$> outputs) = Some (lo_registration output)) by by rewrite Eout.
  assert (E2 : ∃ x, head rows = Some x ∧ row_of_claim x first).
  { rewrite Est in Hrows. apply Forall2_cons_inv_r in Hrows as (x & rows' & Hx & _ & ->). by exists x. }
  destruct E2 as (x & E2 & Hx). rewrite E1. cbn [ok_or]. rewrite bind_ret.
  assert (Hdesc : Forall described_output (lo_registration <$> outputs)).
  { apply Forall_fmap, Forall_lookup. intros i o Ho. destruct (Forall2_lookup_r _ _ _ _ _ Hout Ho) as (rs & _ & Heo).
    destruct (eo_owner _ _ _ _ Heo) as [? ?]. split_and!; [done | done | apply (eo_day _ _ _ _ Heo) | apply (eo_expires _ _ _ _ Heo)|].
    rewrite (eo_rows _ _ _ _ Heo). lia. }
  assert (Erun : co_run_id (lo_registration output) = rc_run_id claim).
  { rewrite Eout in Hout. apply Forall2_cons_inv_r in Hout as (rs & rowss' & Ho & _ & _). apply (eo_run _ _ _ _ Ho). }
  rewrite Erun, (rr_id _ Hrun), Z.eqb_refl. cbn [negb]. rewrite length_fmap.
  rewrite (proj2 (Nat.ltb_ge _ _)), (proj2 (Nat.leb_gt _ _)) by lia. cbn [orb]. rewrite E2. cbn [ok_or]. rewrite bind_ret.
  destruct (total_inputs_Ok run rows stored ∅ 0 (bounds_of (sc_times (sg_columns x.1))) x.2 Hrun Hrows Hpos) as [ids ->];
    [by rewrite Hperm | set_solver | lia | rewrite Hperm; lia|]. rewrite bind_ret.
  assert (Hdeadline : foldl datetime_max x.2 (ci_data_expires_at <$> stored) = rc_data_expires_at claim).
  { rewrite (rw_expires _ _ Hx). eapply (latest_unique _ _ _ (ci_data_expires_at <$> inputs)); [apply foldl_latest | done|].
    intros y. rewrite <- Hperm, Est. set_solver. }
  rewrite Hdeadline. rewrite total_outputs_Ok; [|done|done|done|].
  2: { rewrite (output_rows_total _ _ Hout), Hcount. lia. }
  assert (Hsum' : sum_Z (ci_rows <$> stored) = rc_input_rows claim) by by rewrite Hperm.
  rewrite bind_ret, (output_rows_total _ _ Hout), Hcount, Hsum', Z.eqb_refl.
  replace (widen_all _ _) with (widen_all (bounds_of (sc_times (sg_columns x.1))) (sd_times ∘ ci_descriptor <$> stored));
    [by rewrite bool_decide_true|].
  rewrite <- list_fmap_compose, (rw_times _ _ Hx). apply (bounds_agree (content_rows <$> contents') rowss).
  - apply Forall2_fmap, Forall2_same_length_lookup. split; [symmetry; by eapply Forall2_length|]. intros i content input Hc Hin.
    destruct (Forall2_lookup_lr _ _ _ _ _ _ Hreg' Hin Hc) as (_ & _ & _ & Htimes). split; [exact Htimes|]. apply Hwhole.
    rewrite <- Hperm. by eapply list_elem_of_lookup_2.
  - apply Forall2_fmap_r. eapply Forall2_impl; [exact Hout|]. intros rs o Ho. split; [apply (eo_times _ _ _ _ Ho) | apply (eo_whole _ _ _ _ Ho)].
  - rewrite Heb, stable_sort_perm, bind_concat. by rewrite Hpc.
  - by rewrite Est.
  - by rewrite Eout.
Qed.

(** C13: what compaction builds, the metastore accepts. Whenever [build_outputs] returns
    outputs, and the run is still registered with its claimed segments active, whose
    registered time bounds are whole milliseconds as ingestion and compaction write them,
    the validation that [register_outputs] makes of their number, owner, day, retention, row
    totals and time bounds succeeds: the replacement is never refused for what the worker
    has computed. *)
Theorem built_outputs_accepted w outputs w' run rows stored :
  1 ≤ bl_target_output_rows limits → 0 ≤ bl_target_output_uncompressed_bytes limits → 0 ≤ bl_maximum_output_parquet_bytes limits →
  0 ≤ bl_maximum_staging_bytes limits → (∀ input, input ∈ inputs → 0 ≤ ci_rows input) →
  holds_inputs claim objects w.1 → Forall (quiet bt_others (holds_inputs claim objects)) w.2 →
  build_outputs config claim w = (Ok outputs, w') →
  run_of_claim run → stored ≡ₚ inputs → Forall2 row_of_claim rows stored →
  NoDup ((λ input, sd_segment_id (ci_descriptor input)) <$> inputs) →
  (∀ input, input ∈ inputs → whole_times (sd_times (ci_descriptor input))) →
  validate_registered_output_set run rows (lo_registration <$> outputs) = Ok tt.
Proof.
  intros Hr Hb Hm Hs Hi Hw Ht H Hrun Hperm Hrows Hnd Hwhole.
  assert (Hi' : Forall (λ input, 0 ≤ ci_rows input) inputs) by by apply Forall_forall.
  pose proof (proj2 (wp_run _ _ _ _ _ (build_outputs_returns config claim objects Hr Hb Hm Hs (contents_length _ _ _ _ Hw) Hi' w (conj Hw Ht)) H)) as (rowss & Hbuild).
  assert (Hclaim : validate_claim claim limits = Ok tt).
  { unfold build_outputs in H. destruct (validate_claim claim limits) as [[]|]; [done | discriminate H]. }
  by eapply exact_build_accepted.
Qed.

End Registration.

(** ** Programs that end *)

Section Ends.
Context {Turn Outside Error : Type} (others : Turn → Outside → Outside).

Notation proc := (proc (Turn := Turn) (Outside := Outside) (Error := Error)).

(** With [n] turns the program is not interrupted; it leaves [P] turns when it returns and
    [e] turns when it fails. *)
Definition ends {A} (e n : nat) (m : proc A) (P : A → nat) (Q : A → Prop) : Prop :=
  ∀ w, (n ≤ length w.2)%nat →
    wp m w (λ r w', match r with
                    | Ok a => Q a ∧ (P a ≤ length w'.2)%nat
                    | Err (Turns.Failed _) => (e ≤ length w'.2)%nat
                    | Err Turns.Interrupted => False
                    end).

Lemma ends_mono {A} e n (m : proc A) P P' (Q Q' : A → Prop) :
  ends e n m P Q → (∀ a, Q a → Q' a ∧ (P' a ≤ P a)%nat) → ends e n m P' Q'.
Proof.
  intros Hm HPQ w Hw. eapply wp_mono; [by apply Hm|]. intros [a|[e'|]] w'; [|done|done]. intros [Ha Hp]. destruct (HPQ a Ha). split; [done | lia].
Qed.

Lemma ends_ret {A} e n (a : A) P (Q : A → Prop) : Q a → (P a ≤ n)%nat → ends e n (mret a) P Q.
Proof. intros HQ HP w Hw. apply wp_ret. split; [done | lia]. Qed.

Lemma ends_raise {A} e n x P (Q : A → Prop) : (e ≤ n)%nat → ends e n (raise x) P Q.
Proof. intros He w Hw. apply wp_raise. lia. Qed.

Lemma ends_lift {A} e n (r : result Error A) (Q : A → Prop) : (e ≤ n)%nat → (∀ a, r = Ok a → Q a) → ends e n (lift_result r) (λ _, n) Q.
Proof. intros He HQ w Hw. apply wp_lift. destruct r; [split; auto | lia]. Qed.

Lemma ends_bind {A B} e n (m : proc A) (f : A → proc B) P1 Q1 P Q :
  ends e n m P1 Q1 → (∀ a, Q1 a → ends e (P1 a) (f a) P Q) → ends e n (m ≫= f) P Q.
Proof.
  intros Hm Hf w Hw. apply wp_bind. eapply wp_mono; [by apply Hm|]. intros [a|[e'|]] w'; [|done|done]. intros [Ha Hp]. by apply Hf.
Qed.

Lemma ends_await {A} e n (f : Turn → Outside → A * Outside) (Q : A → Prop) :
  (∀ turn o, Q (f turn o).1) → ends e (S n) (await others f) (λ _, n) Q.
Proof.
  intros Hf [o turns] Hw. apply wp_await. cbn in Hw. destruct turns as [|turn turns]; [cbn in Hw; lia|].
  specialize (Hf turn (others turn o)). destruct (f turn (others turn o)) as [a o']. cbn in *. split; [done | lia].
Qed.

Lemma ends_attempt {A} e e' n (m : proc A) P (Q : A → Prop) :
  ends e n m P Q →
  ends e' n (attempt m) (λ r, match r with Ok a => P a | Err _ => e end) (λ r, match r with Ok a => Q a | Err _ => True end).
Proof. intros Hm w Hw. apply wp_attempt. eapply wp_mono; [by apply Hm|]. by intros [a|[x|]] w'. Qed.

(** A loop whose potential falls ends. *)
Lemma ends_iterate {S A} e (φ : S → nat) (I : S → Prop) (body : S → proc (S + A)) P (Q : A → Prop) s :
  (∀ s, I s → ends e (φ s) (body s) (λ r, match r with inl s' => φ s' | inr a => P a end)
                (λ r, match r with inl s' => I s' ∧ (φ s' < φ s)%nat | inr a => Q a end)) →
  I s → ends e (φ s) (iterate body s) P Q.
Proof.
  intros Hb Hs. assert (Hfuel : ∀ fuel s, I s → (φ s < fuel)%nat → ends e (φ s) (iterate_fuel fuel body s) P Q).
  { clear s Hs. induction fuel as [|fuel IH]; intros s Hs Hf; [lia|]. cbn [iterate_fuel]. eapply ends_bind; [by apply Hb|].
    intros [s'|a] Hr; [destruct Hr; apply IH; [done | lia] | by apply ends_ret]. }
  intros w Hw. unfold iterate. apply Hfuel; [done | lia | done].
Qed.

End Ends.

(** ** A build ends *)

Section Termination.
Context {calendar : Calendar} {query_calendar : QueryCalendar} {postgres : Postgres} {day_start : DayStart}.
Context {env : SpoolEnv} {uuid : UuidText} {backend : Backend} {parquet : ParquetLib} {arrow : ArrowLib}.
Context {paths : PathLib} {streams : ParquetStream}.
Context (config : WorkerConfig) (claim : CompactionRunClaim).

Notation limits := (wc_limits config).
Notation inputs := (rc_inputs claim).

Lemma ends_deadline {A} e n (f : BuildTurn → Outside → A * Outside) : (e ≤ n)%nat → ends e (S n) (deadline_run f) (λ _, n) (λ _, True).
Proof. intros He. eapply ends_bind; [by apply (ends_await _ _ _ _ (λ _, True))|]. intros r _. by apply ends_lift. Qed.

Lemma ends_active e n : (e ≤ n)%nat → ends e (S n) ensure_active (λ _, n) (λ _, True).
Proof. intros He. eapply ends_bind; [by apply (ends_await _ _ _ _ (λ _, True))|]. intros r _. by apply ends_lift. Qed.

(** The rows that a cursor can still give out. *)
Definition rows_left (c : InputCursor) : nat := Z.to_nat (ci_rows (ic_input c) - ic_rows_emitted c).

Lemma observe_row_position bounds times ingestion ids c i c' : observe_row bounds times ingestion ids c i = Ok c' → position c' = position c.
Proof.
  unfold observe_row. intros H. do 5 apply bind_Ok in H as (? & _ & H). by injection H as <-.
Qed.

Lemma take_batch_left c schema day next c' more :
  take_batch c schema day next = Ok (c', more) → ic_input c' = ic_input c ∧ ic_rows_emitted c' = ic_rows_emitted c.
Proof.
  unfold take_batch. intros H. destruct next as [[b|]|]; [|done|].
  - apply bind_Ok in H as (c1 & Hv & H). apply bind_Ok in H as (g & _ & [= <- _]). cbn. unfold validate_batch in Hv.
    do 7 apply bind_Ok in Hv as (? & _ & Hv). apply bind_Ok in Hv as (c2 & Hf & Hv). do 3 apply bind_Ok in Hv as (? & _ & Hv). injection Hv as <-. cbn.
    assert (Hp : position c2 = position c); [|by injection Hp].
    eapply (try_fold_inv (λ x, position x = position c)); [|done|exact Hf]. intros d i d' _ Hd Hx%observe_row_position. congruence.
  - apply bind_Ok in H as (u & _ & [= <- _]). done.
Qed.

Lemma load_next_batch_ends e n c : (e ≤ n)%nat →
  ends e (S n) (load_next_batch config c (rc_schema claim) (rc_event_day claim)) (λ _, n)
    (λ x, ic_input x.1 = ic_input c ∧ ic_rows_emitted x.1 = ic_rows_emitted c).
Proof.
  intros He. eapply ends_bind; [by apply ends_deadline|]. intros next _. apply ends_lift; [done|].
  intros [c' more] H. by apply take_batch_left in H.
Qed.

Lemma advance_ends e n c : (e ≤ n)%nat →
  ends e (S n) (advance config c (rc_schema claim) (rc_event_day claim)) (λ _, n)
    (λ x, ic_input x.1 = ic_input c ∧ ic_rows_emitted x.1 = ic_rows_emitted c + 1).
Proof.
  intros He. unfold advance. eapply ends_bind; [apply (ends_lift _ _ _ (λ x, next_row c = Ok x)); [lia | done]|]. intros [c' more] H.
  assert (Hc : ic_input c' = ic_input c ∧ ic_rows_emitted c' = ic_rows_emitted c + 1).
  { unfold next_row in H. apply bind_Ok in H as (m & Hm%ok_or_Ok & H). do 2 apply bind_Ok in H as (? & _ & H).
    injection H as <- _. apply narrow_Some in Hm as [-> _]. done. }
  destruct more; [apply ends_ret; [done | lia]|]. eapply ends_mono; [by apply load_next_batch_ends|].
  intros x [H1 H2]. destruct Hc. split; [split; congruence | done].
Qed.

Lemma open_ends e n input : (e ≤ n)%nat →
  ends e (4 + n) (InputCursor_open config input (rc_schema claim) (rc_event_day claim)) (λ _, n)
    (λ c, ic_input c = input ∧ ic_rows_emitted c = 0).
Proof.
  intros He. unfold InputCursor_open. cbv zeta.
  eapply ends_bind; [apply (ends_lift _ _ _ (λ _, True)); [lia | done]|]. intros ? _.
  eapply ends_bind; [apply ends_deadline; lia|]. intros verified _.
  do 4 (eapply ends_bind; [apply (ends_lift _ _ _ (λ _, True)); [lia | done]|]; intros ? _).
  eapply ends_bind; [apply ends_deadline; lia|]. intros opened _.
  do 2 (eapply ends_bind; [apply (ends_lift _ _ _ (λ _, True)); [lia | done]|]; intros ? _).
  eapply ends_bind; [by apply (ends_await _ _ _ _ (λ _, True))|]. intros built _.
  eapply ends_bind; [apply (ends_lift _ _ _ (λ _, True)); [lia | done]|]. intros ? _.
  eapply ends_bind; [by apply load_next_batch_ends|]. intros [c more] [H1 H2].
  eapply ends_bind; [apply (ends_lift _ _ _ (λ _, True)); [lia | done]|]. intros ? _. by apply ends_ret.
Qed.

Lemma open_cursors_ends e n ins : (e ≤ n)%nat →
  ends e (4 * length ins + n) (open_cursors config ins (rc_schema claim) (rc_event_day claim)) (λ _, n)
    (λ cs, sum_list_with rows_left cs = sum_list_with (Z.to_nat ∘ ci_rows) ins).
Proof.
  intros He. induction ins as [|input ins IH]; cbn [open_cursors]; [apply ends_ret; [done | lia]|].
  replace (4 * length (input :: ins) + n)%nat with (4 + (4 * length ins + n))%nat by (cbn; lia).
  eapply ends_bind; [apply open_ends; lia|]. intros c [Hc He0]. eapply ends_bind; [apply IH|]. intros cs Hcs.
  apply ends_ret; [|done]. cbn in *. rewrite Hcs. unfold rows_left. rewrite Hc, He0. f_equal. f_equal. lia.
Qed.

Lemma rows_left_insert cs i c c' :
  cs !! i = Some c → (sum_list_with rows_left (<[i := c']> cs) + rows_left c = sum_list_with rows_left cs + rows_left c')%nat.
Proof.
  intros Hc. apply lookup_lt_Some in Hc as Hl. rewrite insert_take_drop by done. rewrite <- (take_drop_middle _ _ _ Hc) at 3.
  rewrite !sum_list_with_app. cbn. lia.
Qed.

Lemma selected_row_left c i s : selected_row c i = Ok s → (0 < rows_left c)%nat.
Proof.
  unfold selected_row. intros H. do 3 apply bind_Ok in H as (? & _ & H). apply bind_Ok in H as (b & Hb & _). unfold estimated_row_bytes in Hb.
  apply bind_Ok in Hb as (u & Hl%check_Ok%Z.ltb_lt & _). unfold rows_left, ic_registered_rows in *. lia.
Qed.

(** Each row takes at most two turns. *)
Lemma merge_row_ends e k state : (e ≤ k)%nat →
  let cost (s : MergeState * OutputAccumulator) := (2 * sum_list_with rows_left (ms_cursors s.1) + k)%nat in
  ends e (cost state) (merge_row config claim state) (λ r, match r with inl s | inr s => cost s end)
    (λ r, match r with inl s => (cost s < cost state)%nat | inr s => (cost s ≤ cost state)%nat end).
Proof.
  intros He cost. destruct state as [ms a]. unfold merge_row. destruct (heap_peek (ms_heap ms)) as [least|]; [|by apply ends_ret].
  assert (Hck : (e ≤ cost (ms, a))%nat) by (unfold cost; lia).
  eapply ends_bind; [apply (ends_lift _ _ _ (λ c, ms_cursors ms !! he_input_index least = Some c)); [done | by intros c ?%ok_or_Ok]|]. intros c Hc. cbn beta in Hc.
  eapply ends_bind; [apply (ends_lift _ _ _ (λ _, 0 < rows_left c)%nat); [done | intros s; apply selected_row_left]|]. intros s Hs. cbn beta in Hs.
  eapply ends_bind; [apply (ends_lift _ _ _ (λ _, True)); done|]. intros ? _.
  eapply ends_bind; [apply (ends_lift _ _ _ (λ _, True)); done|]. intros [] _; cbn [negb]; [|by apply ends_ret].
  do 2 (eapply ends_bind; [apply (ends_lift _ _ _ (λ _, True)); done|]; intros ? _).
  assert (Hcost : cost (ms, a) = S (S (2 * (sum_list_with rows_left (ms_cursors ms) - 1) + k))).
  { unfold cost. cbn [fst]. assert (rows_left c ≤ sum_list_with rows_left (ms_cursors ms))%nat; [|lia].
    apply sum_list_with_in. by eapply list_elem_of_lookup_2. }
  rewrite Hcost. eapply ends_bind; [apply advance_ends; lia|]. intros [c' more] [Hin Hem]. cbn [fst] in Hin, Hem.
  assert (Hleft : rows_left c' = (rows_left c - 1)%nat) by (unfold rows_left; rewrite Hin, Hem; lia).
  pose proof (rows_left_insert _ _ _ c' Hc) as Hins.
  eapply ends_bind; [apply (ends_lift _ _ _ (λ _, True)); [lia | done]|]. intros heap _.
  eapply ends_bind; [apply ends_active; lia|]. intros ? _. apply ends_ret; unfold cost; cbn [fst ms_cursors]; lia.
Qed.

Notation left ms := (sum_list_with rows_left (ms_cursors ms)).

Lemma write_output_ends e n a : (e ≤ n)%nat → ends e (3 + n) (write_output config claim a) (λ _, n) (λ _, True).
Proof.
  intros He. unfold write_output. cbv zeta.
  eapply ends_bind; [apply (ends_lift _ _ _ (λ _, True)); [lia | done]|]. intros output _.
  eapply ends_bind; [by apply (ends_await _ _ _ _ (λ _, True))|]. intros [segment_id object_id] _.
  do 2 (eapply ends_bind; [apply (ends_lift _ _ _ (λ _, True)); [lia | done]|]; intros ? _).
  eapply ends_bind; [apply ends_deadline; lia|]. intros written _.
  do 3 (eapply ends_bind; [apply (ends_lift _ _ _ (λ _, True)); [lia | done]|]; intros ? _).
  destruct (_ ≫= _); [apply ends_ret; [done | lia]|]. eapply ends_bind; [by apply (ends_await _ _ _ _ (λ _, True))|].
  intros removed _. by apply ends_raise.
Qed.

Lemma build_output_ends e k ms : (e ≤ k)%nat →
  ends e (4 + 2 * left ms + k) (build_output config claim ms) (λ x, 2 * left x.1 + k)%nat (λ x, left x.1 ≤ left ms)%nat.
Proof.
  intros He. unfold build_output. replace (4 + 2 * left ms + k)%nat with (S (2 * left ms + (3 + k))) by lia.
  eapply ends_bind; [apply ends_active; lia|]. intros ? _.
  eapply ends_bind.
  { apply (ends_iterate e (λ s, 2 * left s.1 + (3 + k))%nat (λ s, left s.1 ≤ left ms)%nat _ (λ s, 2 * left s.1 + (3 + k))%nat
      (λ s, left s.1 ≤ left ms)%nat (ms, _)); [|done].
    intros s Hl. eapply ends_mono; [apply (merge_row_ends e (3 + k)); lia|]. intros [s'|s'] Hs; cbn beta in Hs; (split; [|done]); lia. }
  intros [ms' accumulator] Hl. cbn [fst] in *. replace (2 * left ms' + (3 + k))%nat with (3 + (2 * left ms' + k))%nat by lia.
  eapply ends_bind; [apply write_output_ends; lia|]. intros output _. by apply ends_ret.
Qed.

(** The turns the outer loop may still need: two for a row, four for an output, and one for
    the removal of each staged file. *)
Definition loop_cost (k : nat) (s : MergeState * Z * list LocalOutput) : nat :=
  (2 * left s.1.1 + 4 * (length inputs - length s.2) + (length inputs + k))%nat.

Lemma build_next_ends k s : (length s.2 < length inputs)%nat →
  ends 0 (loop_cost k s) (build_next config claim s) (λ r, match r with inl s' => loop_cost k s' | inr _ => length inputs + k end)%nat
    (λ r, match r with
          | inl s' => (length s'.2 < length inputs)%nat ∧ (loop_cost k s' < loop_cost k s)%nat
          | inr x => (length x.2 ≤ length inputs)%nat
          end).
Proof.
  destruct s as [[ms staging] outputs]. cbn [snd]. intros Hl. unfold build_next. destruct (_ =? 0)%nat; [apply ends_ret; cbn; unfold loop_cost; cbn; lia|].
  assert (Hcost : loop_cost k (ms, staging, outputs) = (4 + 2 * left ms + (4 * (length inputs - S (length outputs)) + (length inputs + k)))%nat).
  { unfold loop_cost. cbn [fst snd]. lia. }
  rewrite Hcost. eapply ends_bind; [apply ends_attempt, (build_output_ends (length inputs + k)); lia|].
  intros [[ms' output]|e] Hm; cbn beta iota in Hm |- *; [|apply ends_ret; cbn; lia]. cbn [fst] in Hm |- *.
  destruct (checked_add U64 _ _); [|apply ends_ret; cbn; lia]. destruct (_ >? _); [apply ends_ret; cbn; rewrite ?length_app; cbn; lia|].
  destruct (Nat.leb_spec (length inputs) (length (outputs ++ [output]))) as [Hle|Hlt]; rewrite length_app in *; cbn [length] in *.
  - apply ends_ret; cbn; rewrite ?length_app; cbn; lia.
  - apply ends_ret; unfold loop_cost; cbn [fst snd]; rewrite ?length_app; cbn [length]; lia.
Qed.

Lemma cleanup_outputs_ends e n outputs : ends e (length outputs + n) (cleanup_outputs outputs) (λ _, n) (λ _, True).
Proof.
  induction outputs as [|output outputs IH]; cbn [cleanup_outputs]; [by apply ends_ret|]. cbn [length Nat.add].
  eapply ends_bind; [by apply (ends_await _ _ _ _ (λ _, True))|]. intros [] _; [apply IH | apply ends_ret; [done | lia]].
Qed.

Lemma fail_after_cleanup_ends {A} n x outputs P (Q : A → Prop) : (length outputs ≤ n)%nat → ends 0 n (fail_after_cleanup x outputs) P Q.
Proof.
  intros Hn. replace n with (length outputs + (n - length outputs))%nat by lia. eapply ends_bind; [apply cleanup_outputs_ends|].
  intros cleaned _. apply ends_raise. lia.
Qed.

(** The turns of a build: nine for a claimed segment and two for a row. *)
Definition build_cost : nat := (9 * length inputs + 2 * sum_list_with (Z.to_nat ∘ ci_rows) inputs)%nat.

Lemma build_outputs_ends k :
  ends 0 (build_cost + k) (build_outputs config claim) (λ _, k) (λ outputs, length outputs ≤ length inputs)%nat.
Proof.
  unfold build_outputs. eapply ends_bind; [apply (ends_lift _ _ _ (λ u, validate_claim claim limits = Ok u)); [lia | done]|]. intros ? Hv.
  assert (Hin : (0 < length inputs)%nat).
  { unfold validate_claim in Hv. destruct (length inputs) as [|n]; [done | lia]. }
  eapply (ends_bind _ _ _ _ (λ _, length inputs + k)%nat (λ x, length x.2 ≤ length inputs)%nat).
  2: { intros [[u|e] outputs] Hl; cbn [snd] in Hl; [apply ends_ret; [done | lia] | apply fail_after_cleanup_ends; lia]. }
  unfold build_outputs_inner, build_cost.
  replace (9 * length inputs + _ + k)%nat with (4 * length inputs + (2 * sum_list_with (Z.to_nat ∘ ci_rows) inputs + 5 * length inputs + k))%nat by lia.
  eapply ends_bind.
  { apply (ends_attempt (length inputs + k) 0 _ _ (λ _, 2 * sum_list_with (Z.to_nat ∘ ci_rows) inputs + 5 * length inputs + k)%nat
      (λ ms, left ms = sum_list_with (Z.to_nat ∘ ci_rows) inputs)). unfold start_merge.
    eapply ends_bind; [apply open_cursors_ends; lia|]. intros cs Hcs. eapply ends_bind; [apply (ends_lift _ _ _ (λ _, True)); [lia | done]|].
    intros heap _. by apply ends_ret. }
  intros [ms|e]; cbn beta iota; intros Hms; [|apply ends_ret; cbn; lia].
  cbn beta in Hms. replace (2 * _ + _ + k)%nat with (loop_cost k (ms, 0, [])) by (unfold loop_cost; cbn [fst snd length]; lia).
  eapply ends_bind.
  { apply (ends_iterate 0 (loop_cost k) (λ s, length s.2 < length inputs)%nat _ (λ _, length inputs + k)%nat (λ x, length x.2 ≤ length inputs)%nat); [|done].
    intros s Hs. by apply build_next_ends. }
  intros [r outputs] Hl. by apply ends_ret.
Qed.

Lemma upload_outputs_ends e n limit outputs : (e ≤ n)%nat →
  ends e (3 * length outputs + n) (upload_outputs limit outputs) (λ _, n) (λ _, True).
Proof.
  intros He. induction outputs as [|output outputs IH]; cbn [upload_outputs]; [by apply ends_ret|].
  replace (3 * length (output :: outputs) + n)%nat with (S (S (S (3 * length outputs + n)))) by (cbn; lia).
  eapply (ends_bind _ _ _ _ (λ _, 3 * length outputs + n)%nat (λ _, True)); [|intros ? _; apply IH]. unfold upload_output. cbv zeta.
  do 3 (eapply ends_bind; [apply ends_deadline; lia|]; intros ? _; eapply ends_bind; [apply (ends_lift _ _ _ (λ _, True)); [lia | done]|]; intros ? _).
  by apply ends_ret.
Qed.

Lemma run_ends : ends 0 (2 + build_cost + 4 * length inputs) (build_register_and_upload config claim) (λ _, 0%nat) (λ _, True).
Proof.
  unfold build_register_and_upload. replace (2 + build_cost + 4 * length inputs)%nat with (S (build_cost + S (4 * length inputs))) by lia.
  eapply (ends_bind _ _ _ _ (λ _, build_cost + S (4 * length inputs))%nat (λ _, True)).
  { eapply ends_bind; [by apply (ends_await _ _ _ _ (λ _, True))|]. intros r _. apply ends_lift; [lia | done]. }
  intros ? _. eapply ends_bind; [apply (build_outputs_ends (S (4 * length inputs)))|]. intros outputs Hl. cbn beta in Hl |- *.
  eapply ends_bind.
  { apply (ends_attempt (length outputs) 0 _ _ (λ _, length outputs) (λ _, True)). unfold register_and_upload.
    eapply ends_bind; [apply ends_deadline; lia|]. intros registered _.
    do 2 (eapply ends_bind; [apply (ends_lift _ _ _ (λ _, True)); [lia | done]|]; intros ? _).
    intros w Hw. apply (upload_outputs_ends (length outputs) (length outputs)); [done | lia]. }
  intros [u|e]; cbn beta iota; intros _; [|by apply fail_after_cleanup_ends].
  replace (length outputs) with (length outputs + 0)%nat at 1 by lia.
  eapply ends_bind; [apply (cleanup_outputs_ends 0 0)|]. intros cleaned _.
  do 2 (eapply ends_bind; [by apply (ends_lift _ _ _ (λ _, True))|]; intros ? _). by apply ends_ret.
Qed.

(** C14: a compaction run ends. Whatever the objects, the metastore, the files and the
    deadline do, [build_register_and_upload] returns or fails within thirteen turns for each
    claimed segment, two for each of its registered rows and two more. *)
Theorem run_returns w :
  (2 + 13 * length inputs + 2 * sum_list_with (Z.to_nat ∘ ci_rows) inputs ≤ length w.2)%nat →
  ∃ r w', build_register_and_upload config claim w = (r, w') ∧ r ≠ Err Turns.Interrupted.
Proof.
  intros Hw. assert (Hrun := run_ends w). unfold build_cost, wp in Hrun. destruct (build_register_and_upload config claim w) as [r w'].
  exists r, w'. split; [done|]. intros ->. apply Hrun. lia.
Qed.

End Termination.
