(* ===== verification/CompactionSamples.v ===== *)
(** * Compaction builds: concrete runs

    Two segments are merged into one output that the metastore accepts, and a claim of three
    segments that promises two outputs fails because its rows do not fit into two. *)

From stdpp Require Import pretty.
From S2P Require Import Core ErrorCode CatalogTypes CatalogModel CatalogSource Bytes Frame Storage ObjectStore OutputLogCorrect Database Publication CatalogStore CatalogSamples Query Arrow ParquetSegment StagingCorrect StagingSamples Turns Processor Compaction CompactionLifecycle QueryCorrect QuerySamples CompactionWorker CompactionMerge CompactionBuild Prelude.
Import Schema.

#[local] Open Scope string_scope.
#[local] Open Scope list_scope.
#[local] Open Scope Z_scope.

#[local] Existing Instance catalog_env.
#[local] Existing Instance sample_uuid_text.
#[local] Existing Instance sample_paths.
#[local] Existing Instance query_sample_calendar.
#[local] Existing Instance query_sample.
#[local] Existing Instance query_sample_laws.
#[local] Existing Instance query_sample_postgres.
#[local] Existing Instance sample_backend.
#[local] Existing Instance sample_view.
#[local] Existing Instance sample_backend_laws.
#[local] Existing Instance sample_arrow.
#[local] Existing Instance sample_arrow_laws.

#[local] Instance sample_instants : InstantOrder.
Proof. split; cbn; intros *; rewrite ?Z.ltb_lt; try apply Z.ltb_irrefl; lia. Qed.

#[local] Instance sample_day_start : DayStart := λ day, day * 86400000.

(** ** Files *)

(** A file is the text of its segment identity; all files of a run have as many rows. *)
Definition run_parquet (rows : nat) : ParquetLib := {|
  parquet_write fields properties batch :=
    match wp_key_values properties with
    | (_, segment_id) :: _ => ([ascii_bytes segment_id], true)
    | [] => ([], false)
    end;
  parquet_open b :=
    Some {| pm_fields := arrow_schema query_schema; pm_num_rows := Z.of_nat rows;
            pm_key_values := Some
              [(SEGMENT_ID_FOOTER_KEY, Some (string_of_list_ascii b));
               (SOURCE_ID_FOOTER_KEY, Some (uuid_to_string (s_source_id query_schema)));
               (SCHEMA_ID_FOOTER_KEY, Some (uuid_to_string (s_id query_schema)));
               (ROW_COUNT_FOOTER_KEY, Some (pretty (Z.of_nat rows)));
               (FIELD_IDS_FOOTER_KEY, Some (String.concat "," ((λ f, uuid_to_string (f_id f)) <$> s_fields query_schema)));
               (FORMAT_VERSION_FOOTER_KEY, Some (pretty 1))];
            pm_row_groups := [{| rg_num_rows := Z.of_nat rows; rg_compressed := [true] |}] |};
|}.

(** A batch of rows, given by their event time, their ingestion time and a byte. *)
Definition batch_of (rows : list (Z * Z * Z)) : RecordBatch :=
  {| rb_fields := arrow_schema query_schema;
     rb_columns := [TimestampMillisecondArray (Some "UTC") ((λ r, Some r.1.1) <$> rows);
                    TimestampMillisecondArray (Some "UTC") ((λ r, Some r.1.2) <$> rows);
                    FixedSizeBinaryArray 16 ((λ r, Some (replicate 16 r.2)) <$> rows);
                    StringArray ((λ _, None) <$> rows)] |}.

Lemma batch_of_ok rows : batch_ok (batch_of rows).
Proof.
  split; [repeat constructor|]. unfold num_rows. cbn. repeat constructor; unfold array_len; cbn; by rewrite !length_fmap.
Qed.

(** What the objects hold. *)
Definition object_batches (b : bytes) : list RecordBatch :=
  if decide (b = ascii_bytes "a") then [batch_of [(1000, 5000, 1)]; batch_of [(3000, 5000, 3)]]
  else if decide (b = ascii_bytes "bb") then [batch_of [(2000, 4000, 2)]]
  else if decide (b = ascii_bytes "ccc") then [batch_of [(2000, 4000, 3)]]
  else if decide (b = ascii_bytes "dddd") then [batch_of [(4000, 4000, 4)]]
  else [].

#[local] Instance sample_contents : ParquetContents := λ b _, object_batches b.

Definition missing : ParquetError := {| pq_causes := [Some NotFound] |}.

(** Segments are identified by the size of their objects. *)
Definition open_sample (path : string) (size : Z) (s : gmap string StoredObject) : result ParquetError ParquetMetadata :=
  o ← ok_or (s !! path) missing;
  let rows := length (object_batches (so_bytes o) ≫= rows_of) in
  ok_or (@parquet_open (run_parquet rows) (ascii_bytes (uuid_to_string size))) {| pq_causes := [] |}.

Definition next_sample (path : string) (k : nat) (s : gmap string StoredObject) : option (result ParquetError RecordBatch) :=
  match s !! path with
  | Some o => Ok <$> object_batches (so_bytes o) !! k
  | None => Some (Err missing)
  end.

#[local] Instance sample_streams : ParquetStream := {|
  stream_open path size s := (open_sample path size s, s);
  stream_build _ _ _ _ := None;
  stream_next path size rows k s := (next_sample path k s, s);
|}.

#[local] Instance sample_stream_laws : ParquetStreamLaws.
Proof.
  split.
  - intros path size s r s' H. cbn in H. by injection H as _ <-.
  - intros path size rows k s r s' H. cbn in H. injection H as <- <-. split; [done|]. intros o Ho _.
    unfold next_sample. rewrite (Ho : (s : gmap string StoredObject) !! path = Some o). unfold parquet_batches, sample_contents. by destruct (object_batches (so_bytes o) !! k).
  - intros b rows. unfold parquet_batches, sample_contents, object_batches. repeat case_decide; repeat constructor; apply batch_of_ok.
Qed.

(** ** Claims *)

Definition instant (millis : Z) : DateTime := millis * 1000.

(** A segment: its object, its number of rows and bytes, and its times. *)
Definition input_of (b : bytes) (rows uncompressed e1 e2 i1 i2 : Z) : CompactionInputSegment :=
  let size := Z.of_nat (length b) in
  {| ci_descriptor :=
       {| sd_segment_id := size; sd_source_id := s_source_id query_schema; sd_schema_id := s_id query_schema;
          sd_times := {| event_day := 0; minimum_event_time := instant e1; maximum_event_time := instant e2;
                         minimum_ingestion_time := instant i1; maximum_ingestion_time := instant i2 |};
          sd_row_count := rows; sd_uncompressed_bytes := uncompressed;
          sd_object :=
            {| od_key := parquet_key {| root_path := "elucid" |} size (1000 + size); od_expected_byte_size := size;
               od_digest := blake3 b; od_media_type := ParquetMedia; od_format_version := 1 |} |};
     ci_data_expires_at := instant 9000; ci_published_at := instant 6000 |}.

Definition claim_of (inputs : list CompactionInputSegment) : CompactionRunClaim :=
  {| rc_run_id := 1; rc_source_id := s_source_id query_schema; rc_schema := query_schema; rc_event_day := 0;
     rc_inputs := inputs; rc_input_rows := sum_Z (ci_rows <$> inputs);
     rc_input_parquet_bytes := sum_Z (ci_parquet_bytes <$> inputs);
     rc_input_uncompressed_bytes := sum_Z (ci_uncompressed_bytes <$> inputs); rc_data_expires_at := instant 9000 |}.

Definition run_config (target_bytes : Z) : WorkerConfig :=
  {| wc_root := {| root_path := "elucid" |}; wc_staging_root := "staging";
     wc_limits := {| bl_maximum_input_segments := 10; bl_maximum_input_rows := 1000; bl_maximum_input_parquet_bytes := 1000;
       bl_maximum_input_uncompressed_bytes := 1000; bl_reader_batch_rows := 10; bl_target_output_rows := 100;
       bl_target_output_uncompressed_bytes := target_bytes; bl_maximum_output_parquet_bytes := 100;
       bl_maximum_staging_bytes := 1000; bl_maximum_duration := 60 |} |}.

Definition store_of (inputs : list (CompactionInputSegment * bytes)) : gmap string StoredObject :=
  list_to_map ((λ x, (stream_path x.1, created (sd_object (ci_descriptor x.1)) x.2)) <$> inputs).

(** Nothing fails and nobody else acts. *)
Definition calm_turn (k : nat) : BuildTurn :=
  {| bt_others o := o; bt_now := instant 7000; bt_deadline := InTime; bt_addable := true; bt_connection := Connected;
     bt_identities := (100 + Z.of_nat k, 1000 + Z.of_nat k);
     bt_write := {| wi_create_fails := false; wi_buffers := None; wi_validation_fails := (false, false); wi_remove_fails := false |};
     bt_read := None; bt_remove_fails := false |}.

Definition calm_world (inputs : list (CompactionInputSegment * bytes)) (turns : nat) : World BuildTurn Outside :=
  ({| w_db := query_catalogued; w_catalog := []; w_objects := store_of inputs; w_files := ∅ |},
   calm_turn <$> seq 0 turns).

Definition two_objects : list bytes := [ascii_bytes "a"; ascii_bytes "bb"].
Definition two_inputs : list CompactionInputSegment :=
  [input_of (ascii_bytes "a") 2 200 1000 3000 5000 5000; input_of (ascii_bytes "bb") 1 100 2000 2000 4000 4000].
Definition two_claim : CompactionRunClaim := claim_of two_inputs.
Definition two_config : WorkerConfig := run_config 500.
Definition two_world : World BuildTurn Outside := calm_world (zip two_inputs two_objects) 34.


Definition two_outputs : list LocalOutput :=
  match (build_outputs (parquet := run_parquet 3) two_config two_claim two_world).1 with Ok outputs => outputs | Err _ => [] end.

Lemma two_built : ∃ w', build_outputs (parquet := run_parquet 3) two_config two_claim two_world = (Ok two_outputs, w').
Proof.
  assert (H : is_ok (build_outputs (parquet := run_parquet 3) two_config two_claim two_world).1 = true) by (vm_compute; reflexivity).
  unfold two_outputs. destruct (build_outputs _ _ _) as [[outputs|e] w']; [by eexists | discriminate H].
Qed.

Lemma two_held : holds_inputs two_claim two_objects two_world.1.
Proof. repeat constructor; (eexists; split; [vm_compute; reflexivity | reflexivity]). Qed.

Lemma calm_quiet (keep : Outside → Prop) turns : Forall (quiet bt_others keep) (calm_turn <$> seq 0 turns).
Proof. apply Forall_fmap, Forall_forall. by intros k _ o. Qed.

Lemma two_quiet : Forall (quiet bt_others (holds_inputs two_claim two_objects)) two_world.2.
Proof. unfold two_world, calm_world. apply (calm_quiet (holds_inputs two_claim two_objects)). Qed.

(** ** Witnesses *)

Lemma build_outputs_exact_witness :
  ∃ w' rowss, build_outputs (parquet := run_parquet 3) two_config two_claim two_world = (Ok two_outputs, w') ∧
    exact_build (parquet := run_parquet 3) two_config two_claim two_objects rowss two_outputs.
Proof.
  destruct two_built as [w' H]. exists w'.
  destruct (build_outputs_exact (parquet := run_parquet 3) two_config two_claim two_objects two_world two_outputs w') as [rowss Hb];
    [vm_compute; discriminate.. | repeat constructor; vm_compute; discriminate | exact two_held | exact two_quiet | exact H |].
  exists rowss. split; [exact H | exact Hb].
Defined.

Definition two_run : RunRow :=
  {| rn_id := 1; rn_source_id := s_source_id query_schema; rn_schema_id := s_id query_schema; rn_event_day := 0;
     rn_state := "BUILDING"; rn_failure_code := None; rn_created_at := instant 6500; rn_updated_at := instant 6500;
     rn_completed_at := None |}.

Definition row_of_input (input : CompactionInputSegment) : SegmentRow * DateTime :=
  let d := ci_descriptor input in
  ({| sg_columns := {| sc_segment_id := sd_segment_id d; sc_source_id := sd_source_id d; sc_schema_id := sd_schema_id d;
                       sc_origin := "INGESTION"; sc_produced_by := None; sc_times := sd_times d;
                       sc_row_count := sd_row_count d; sc_uncompressed_bytes := sd_uncompressed_bytes d |};
      sg_claimed_by := Some 1; sg_data_expires_at := Some (ci_data_expires_at input); sg_state := "ACTIVE";
      sg_published_at := Some (ci_published_at input); sg_retired_at := None; sg_reclaim_after := None;
      sg_created_at := instant 5500; sg_updated_at := instant 6500 |}, ci_data_expires_at input).

Lemma built_outputs_accepted_witness :
  validate_registered_output_set two_run (row_of_input <$> two_inputs) (lo_registration <$> two_outputs) = Ok tt ∧
  length two_outputs = 1%nat.
Proof.
  destruct two_built as [w' H]. split; [|vm_compute; reflexivity].
  apply (built_outputs_accepted (parquet := run_parquet 3) two_config two_claim two_objects two_world two_outputs w'
           two_run (row_of_input <$> two_inputs) two_inputs);
    [vm_compute; discriminate.. | | exact two_held | exact two_quiet | exact H | split; reflexivity | reflexivity
     | repeat constructor | | ].
  - apply Forall_forall. repeat constructor; vm_compute; discriminate.
  - apply (bool_decide_unpack _). vm_compute. exact I.
  - apply Forall_forall. repeat constructor.
Defined.

Lemma run_returns_witness :
  ∃ r w', build_register_and_upload (parquet := run_parquet 3) two_config two_claim two_world = (r, w') ∧
    r ≠ Err Turns.Interrupted.
Proof. apply (run_returns (parquet := run_parquet 3) two_config two_claim two_world). vm_compute. repeat constructor. Defined.

(** ** A claim that is beneficial in the sum only *)

Definition three_inputs : list CompactionInputSegment :=
  [input_of (ascii_bytes "bb") 1 60 2000 2000 4000 4000; input_of (ascii_bytes "ccc") 1 60 2000 2000 4000 4000;
   input_of (ascii_bytes "dddd") 1 60 4000 4000 4000 4000].
Definition three_objects : list bytes := [ascii_bytes "bb"; ascii_bytes "ccc"; ascii_bytes "dddd"].
Definition three_config : WorkerConfig := run_config 100.

(** The limits of [three_config], for the claim. *)
Definition three_claim_limits : CompactionClaimLimits :=
  let limits := wc_limits three_config in
  {| maximum_candidate_segments := 10; maximum_input_segments := bl_maximum_input_segments limits;
     maximum_input_rows := bl_maximum_input_rows limits;
     maximum_input_parquet_bytes := bl_maximum_input_parquet_bytes limits;
     maximum_input_uncompressed_bytes := bl_maximum_input_uncompressed_bytes limits;
     target_output_rows := bl_target_output_rows limits;
     target_output_uncompressed_bytes := bl_target_output_uncompressed_bytes limits; minimum_retention_seconds := 1 |}.

(** Three segments of one row and sixty bytes each, for a target of a hundred, are chosen
    and claimed as a group and pass the checks of the worker, since a hundred and eighty
    bytes are less than three targets; but no two of the rows fit into one output, whatever
    happens during the build. *)
Lemma unfitting_claim_fails_witness :
  let claim := claim_of three_inputs in
  let world := calm_world (zip three_inputs three_objects) 100 in
  choose_candidate_group three_inputs three_claim_limits = Ok (Some three_inputs) ∧
  materialize_claim 1 query_schema three_inputs = Ok claim ∧
  validate_claim claim (wc_limits three_config) = Ok tt ∧
  ∀ outputs w', build_outputs (parquet := run_parquet 1) three_config claim world ≠ (Ok outputs, w').
Proof.
  intros claim world. split; [vm_cast_no_check (@eq_refl (compaction (option (list CompactionInputSegment))) (Ok (Some three_inputs)))|].
  split; [vm_cast_no_check (@eq_refl (compaction CompactionRunClaim) (Ok claim))|].
  split; [vm_cast_no_check (@eq_refl (result CompactionError unit) (Ok tt))|].
  intros outputs w'. apply (unfitting_claim_fails (parquet := run_parquet 1) three_config claim three_objects world 60 outputs w');
    [vm_compute; discriminate.. | repeat constructor; vm_compute; discriminate | | | reflexivity
     | repeat constructor; vm_compute; discriminate | reflexivity].
  - repeat constructor; (eexists; split; [vm_compute; reflexivity | reflexivity]).
  - apply (calm_quiet (holds_inputs claim three_objects)).
Defined.

(** The build fails as not beneficial although nothing else fails. *)
Lemma three_not_beneficial :
  (build_register_and_upload (parquet := run_parquet 1) three_config (claim_of three_inputs)
     (calm_world (zip three_inputs three_objects) 100)).1 =
    Err (Turns.Failed (not_beneficial "compaction did not reduce its segment count")).
Proof.
  vm_cast_no_check (@eq_refl (result (Turns.Stop CompactionError) CompactionRunBuild)
    (Err (Turns.Failed (not_beneficial "compaction did not reduce its segment count")))).
Qed.
